(* ===== verification/_CoqProject ===== *)
-Q . S2P
Prelude.v
TaggedValue.v
TaggedArray.v
Ring.v
Deque.v
Queue.v
ArrayList.v
Vector.v
Stack.v
PlainArray.v
EcmaString.v
StringTable.v
LightWeightMap.v
BigInt.v
BigIntShift.v
BigIntMul.v
BigIntDiv.v
BigIntString.v
BigIntConv.v
BigIntNumber.v
Double.v
DateUtils.v
JSDate.v
DateString.v
DateParse.v
DateRoundtrip.v
DateBuiltins.v
TaggedList.v
ListShape.v
ListOps.v
SortCompare.v
JSList.v
ListSort.v
LinkedList.v
LinkedHashTable.v
JSMap.v
TaggedTree.v
TreeShape.v
TreeBalance.v
TreeSearch.v
TreeOps.v
TreeCopy.v
TreeStore.v
TreeKeys.v
TreeMap.v
TreeProps.v
LightWeightSet.v
