(* ===== verification/Prelude.v ===== *)
(** * A verification of the value and container layer of the ArkCompiler runtime

    The runtime (src/ecmascript) executes ECMAScript.  Its values are 64-bit
    NaN-boxed words; strings are heap objects with a cached hash, and a table
    keeps one interned object per string; BigInts are sign and magnitude in
    digits of 32 bits; Map and Set are linked hash tables that stay readable
    under live iterators; the container library (js_api, with the builtins of
    containers) offers Deque, Queue, ArrayList, Vector, Stack, PlainArray,
    LightWeightMap, LightWeightSet, List, LinkedList, TreeMap and TreeSet over
    arrays of tagged values; dates are doubles, taken apart by integer arithmetic, printed and
    read.  These layers are modelled here, from the word up to the containers'
    operations, and each container is shown to implement the list or the map
    that it promises.

    ** The files

    - Prelude (this file): outcomes and errors, the state monad [M] in which
      all stateful code is written, loops, integers of 32 and 64 bits with
      their wrap-around, index iterators, sequences of operations ([run_ops],
      [guarded]), the tactics [mstep], [zb], [lenz], [zlia] and the lemmas on
      lists and loops that the components share.
    - TaggedValue: js_tagged_value.h, js_tagged_value_internals.h,
      js_tagged_value-inl.h, NumberHelper::DoubleToInt, BigInt::Equal.
      [Module Raw] is the word with its tags and tests; [JSTaggedValue] the
      value; SameValue, SameValueZero and StrictEqual compare values over a heap
      that gives the contents of strings and BigInts.
    - TaggedArray: tagged_array-inl.h ([Module Arr]) and the array copies of
      object_factory.cpp ([Module Factory]).  An array is the list of its words;
      a store of arrays is for objects that replace their array.
    - Ring: what Deque and Queue need of a ring in an array.
    - Deque, Queue, ArrayList, Vector, Stack, PlainArray, LightWeightMap: one
      module per class JSAPI<name> of js_api, its iterator, and the state that
      the constructor of containers_<name>.cpp builds.  The record has the
      fields of the class; every C++ method is the definition of its name (Set
      is [Set_]).
    - EcmaString: ecma_string.h, ecma_string.cpp.  Flat strings: hash,
      conversion to an index, comparison, search.
    - StringTable: ecma_string_table.cpp over a store of string objects.
    - BigInt (comparison, addition, bit operations), BigIntShift, BigIntMul
      (with powers), BigIntDiv (Knuth's algorithm D), BigIntString (printing and
      reading), BigIntConv (64-bit integers, asIntN and asUintN), BigIntNumber
      (doubles): js_bigint.h, js_bigint.cpp.
    - Double: the arithmetic of doubles that dates use, with the integers on
      which it is exact.
    - DateUtils: the class DateUtils of js_date.cpp, the civil calendar with its
      cache.
    - JSDate: js_date.cpp without strings: MakeTime, MakeDay, MakeDate,
      TimeClip, the local time, getters and setters, UTC.
    - DateString: the strings of js_date.cpp.  DateParse: date_parse.cpp,
      date_parse.h, the reader of ISO and of legacy texts.  DateRoundtrip: what
      is printed is read back.  DateBuiltins: now, parse and the constructor
      (builtins_date.cpp).
    - TaggedList: tagged_list.h, tagged_list.cpp, singly and doubly linked nodes
      in one array, with the kind of node as a parameter.  Its proofs are in
      ListShape (the list that an array holds, and one node put in or taken out)
      and ListOps (copies, growth and every operation).
    - SortCompare: ArrayHelper::SortCompare and the order of integers as strings
      (js_tagged_value.cpp).
    - JSList: js_api_list.cpp, its iterator, and the constructor and forEach of
      containers_list.cpp; ListSort: its sort.  LinkedList: the same for
      js_api_linked_list.cpp and containers_linked_list.cpp.
    - LinkedHashTable: linked_hash_table.h, linked_hash_table.cpp.
    - JSMap: js_map.cpp, js_set.cpp and their iterators over a store of tables.
    - TaggedTree: tagged_tree.h, tagged_tree.cpp, the red-black tree in one
      array with the entry layout as a parameter.  Its proofs are in TreeShape
      (the tree an array holds, seen from one entry; reading, writing,
      rotations), TreeBalance (both rebalancings), TreeSearch (searching and
      walking), TreeOps (inserting and removing an entry), TreeCopy (copies that
      number the entries anew), TreeStore (the tree as a sorted list, Insert and
      Delete), TreeKeys (the orders of keys).
    - TreeMap: js_api_tree_map.cpp, js_api_tree_set.cpp, their iterators, and
      the constructors, forEach and setAll of containers_treemap.cpp and
      containers_treeset.cpp.
    - TreeProps: the theorems on trees beyond refinement.
    - LightWeightSet: js_api_lightweightset.cpp, its iterator, and the constructor
      of containers_lightweightset.cpp.

    ** How code is modelled

    A method on a state [S] is an [M S A]: it returns a value, a JavaScript
    error ([Throw]), a violated ASSERT or an access outside of an array
    ([Fault]), and the state as it is left in each of these cases.  Where
    release builds drop the ASSERT, a [Fault] is an access to memory of another
    object.  An array that is reached from one object only is a field of its
    record; string objects, hash tables and trees, which several objects reach
    or which are replaced by copies, live in a store and are passed by address;
    so do the arrays of List and LinkedList, which their iterators keep.
    Integers are [Z] with [u32], [i32] and [u64] where the C++ type wraps.
    Doubles are their 64 bits; [double_of_bits] gives the value as an integer
    multiple of the smallest positive double.

    Loops with a known number of rounds are [for_up], [for_range] and the like;
    the others are [while_fuel].  The fuel is the length of the array that is
    followed, the capacity of the table or tree, the text that is read, or the
    size that is bisected, plus one or two, which the theorems show to be
    enough: they state which [Ok] or [Throw] is the result, never only that a
    result would be right.

    What is not under src/, or is not modelled, is an argument: callbacks and
    compare functions of the program, JSTaggedValue::ToString and ToNumber,
    GetPowerOfTwoValue32, the local time zone and the clock, and the record
    [HashEnv] for GetHash32 and for the hash fields that symbols and objects
    store.

    ** What is shown

    - Words (TaggedValue): decoding inverts encoding, the classes of words are
      intervals and low bits, the words of doubles are exactly the encodings of
      those that are not impure NaNs, DoubleToInt is the ToInt32 of the standard for each bit
      pattern, SameValue is an equivalence and StrictEqual differs from
      SameValueZero in NaN only.
    - Containers: theorems named *_refines_list, *_refines_map and
      *_refines_spec run any sequence of operations on a new container and on a
      list or finite map and obtain the same answers, errors included; no
      operation faults.  The operations of such a sequence are the constructors
      of the type [op] of the module; the bound on their number (2^25 to 2^30)
      keeps capacities in 32 bits.  Invariant: the [repr] of each module, which
      relates the fields to the abstract state.  Further theorems treat the
      operations outside of these sequences (ranges, clones, positions,
      iterators, unions).
    - Map and Set: the specification [JSMap.Ecma] is the entry list of ECMA-262
      with positions for the iterators; tables are replaced by bigger and by
      cleared ones while any number of iterators are alive.  The program keeps a
      key -0, and a Set the last of equal elements: [same_answer] says that these
      are the only differences.  A deletion never shrinks a table.  Keys that
      SameValueZero identifies have one hash if NaN has one bit pattern.
    - Trees: TreeShape.holds relates an array to a tree seen from one entry
      ([Context_]); both rebalancings restore the red-black property and keep
      the order, so that a search takes at most 2 log2(n + 1) + 1 rounds.  The
      client's theorems are proved against the interface [TreeOrder] (comparing
      two keys gives a total preorder), which [ordinary_tree] establishes for
      the ordinary order of numbers and strings and [function_order] for compare
      functions that return integers.  The specification of the client's
      theorems is a sorted list of entries and nothing else ([list_map_spec],
      [list_set_spec]).  The regular sequences ([map_regular], [set_regular])
      leave out the operations after which the tree loses its compare function or
      shrinks to nothing, the update of a key in a full tree, which is lost, and
      clearing an empty TreeSet, which fails; treemap_ordinary_safe shows what is
      left of that without a compare function.  What the tree does on the way is
      told by [TreeStore.Abs], a sorted list with the counts of places and of
      removed entries, because they decide when the tree is copied.
    - Lists: ListShape.holds relates an array to the elements and to the places
      of their nodes; list_refines_list and linkedlist_refines_list follow from
      it for both kinds of nodes.  The abstract state of List has a [Mode],
      which says how much is known of the order of the places, because get reads
      by place; the guard leaves out get where the flag of the order is wrong.
      Sort is stable and sorts for every strict weak order ([CompareOrder]); a
      clone of a LinkedList shares no array with it.  The default order of
      integers is that of their strings.
    - BigInt: every operation computes the integer operation, with the range
      errors; the limits of the code are part of the statements ([MAXSIZE]).
    - Strings: the hash that is continued over a concatenation, the index of a
      numeral, lexicographic comparison, first and last occurrence.
    - Dates: the calendar of DateUtils is the proleptic Gregorian calendar, also
      through its cache; setters change the fields that they name, by the
      algorithm of the standard in the ranges given; the three formats that are
      printed are read back; every loop of the reader ends on every text.
    - String table: uniqueness of interned strings in every reachable table
      ([reachable]: concatenations whose continued hash is right, 16-bit buffers
      that are not misread as numerals), by induction over the steps, with which comparison by address is sound;
      this is the hypothesis [heap_wf] of the theorems on SameValue.
    - LightWeightMap is proved against the interface [KeyHash] (SameValue keys
      have one hash), which the instance [Hash_KeyHash] establishes for the
      code's hash on keys of one representation per number; LightWeightSet is
      proved against the same interface, which [set_Hash_KeyHash] establishes for
      values that are not BigInts.

    Some theorems state what the code does where it is not what the operation
    promises: deque_OwnKeys_doubles, queue_SetProperty_misses,
    arraylist_Clear_spec, vector_GetLastIndexFrom_empty,
    plainarray_Clone_then_Add, plainarray_GetProperty_spec,
    plainarray_SetProperty_spec, IsSubStringAt_spec,
    ComputeHashcodeUtf16_agrees, merged_hash_after_numeral,
    string_table_duplicates, lightweightmap_int_and_double,
    bigint_AsN_throws, treemap_full_update_lost, tree_Adjust_copies,
    tree_order_cycle, date_setter_faults, date_UTC_month_overflow,
    date_parse_unclipped, date_parse_fraction_overflow, date_utc_string_old_years,
    date_constructor_string, list_get_after_removal, list_iterator_runs_over,
    lightweightset_EnsureCapacity_exchanges, lightweightset_AddAll_faults,
    lightweightset_IncreaseCapacityTo_overflows, lightweightset_HasAll_hashes,
    lightweightset_Equal_not_reflexive, lightweightset_BigInts_by_address.

    ** What is not modelled

    The collector (allocation succeeds; barriers do not change values), the
    interpreter, the compilers, inline caches, property tables and the
    ECMAScript library; the argument checks of the container builtins; error
    messages.  Ropes, slices and constant strings are their flat contents.  Of
    the string table, sweeping and the relocation of constant strings.  Weak
    references in hash tables.  HashMap and HashSet, whose buckets are chains and
    trees of separate objects, which a store of arrays does not have.
    Case conversion and UTF-8 conversion of strings, which call
    ICU and tables of their own. *)
From stdpp Require Export base numbers list list_numbers option tactics.
From Stdlib Require Export Lia.

#[export] Set Default Goal Selector "!".

(** ** Errors and outcomes *)

(** The error kinds the modelled code raises (containers_errors.h and the
    THROW_*_ERROR macros of ecma_macros.h). *)
Inductive ErrorFlag : Type :=
| RANGE_ERROR
| TYPE_ERROR
| BIND_ERROR
| IS_EMPTY_ERROR
| IS_NOT_EXIST_ERROR
| CALLBACK_ERROR (e : Z).

(** What running a piece of C++ can come to: a value, a pending JS exception,
    a violated ASSERT (an access out of the bounds of an array included), or a
    loop the model cut short. *)
Inductive outcome (A : Type) : Type :=
| Ok (a : A)
| Throw (e : ErrorFlag)
| Fault
| OutOfFuel.
Arguments Ok {A} a.
Arguments Throw {A} e.
Arguments Fault {A}.
Arguments OutOfFuel {A}.

(** State-passing computations: the state is kept whatever the outcome is, as
    a C++ function that throws leaves its earlier writes in place. *)
Definition M (S A : Type) : Type := S -> outcome A * S.

#[export] Instance M_ret (S : Type) : MRet (M S) := fun A a s => (Ok a, s).

#[export] Instance M_bind (S : Type) : MBind (M S) := fun A B f m s =>
  match m s with
  | (Ok a, s') => f a s'
  | (Throw e, s') => (Throw e, s')
  | (Fault, s') => (Fault, s')
  | (OutOfFuel, s') => (OutOfFuel, s')
  end.

Section monad.
Context {S : Type}.

Definition get : M S S := fun s => (Ok s, s).
Definition gets {A} (f : S -> A) : M S A := fun s => (Ok (f s), s).
Definition modify (f : S -> S) : M S unit := fun s => (Ok tt, f s).
Definition throw {A} (e : ErrorFlag) : M S A := fun s => (Throw e, s).
Definition fault {A} : M S A := fun s => (Fault, s).

(** ASSERT(b) *)
Definition ASSERT (b : bool) : M S unit := if b then mret tt else fault.

(** Run a computation on a component of the state. *)
Definition zoom {T A} (proj : S -> T) (upd : T -> S -> S) (m : M T A) : M S A :=
  fun s => let '(r, t) := m (proj s) in (r, upd t s).

(** Run a computation on a new object and return that object. *)
Definition build {T} (init : T) (m : M T unit) : M S T := fun s =>
  match m init with
  | (Ok _, t) => (Ok t, s)
  | (Throw e, _) => (Throw e, s)
  | (Fault, _) => (Fault, s)
  | (OutOfFuel, _) => (OutOfFuel, s)
  end.

(** [n] rounds of [for (i = ...; ; ++i)] and of [for (i = ...; ; --i)]. *)
Fixpoint for_up (n : nat) (i : Z) (body : Z -> M S unit) : M S unit :=
  match n with
  | O => mret tt
  | Datatypes.S n' => body i;; for_up n' (i + 1)%Z body
  end.

Fixpoint for_down (n : nat) (i : Z) (body : Z -> M S unit) : M S unit :=
  match n with
  | O => mret tt
  | Datatypes.S n' => body i;; for_down n' (i - 1)%Z body
  end.

(** [for (i = lo; i < hi; ++i) body] and [for (i = hi; i >= lo; --i) body]. *)
Definition for_range (lo hi : Z) (body : Z -> M S unit) : M S unit :=
  for_up (Z.to_nat (hi - lo)) lo body.

Definition for_range_down (hi lo : Z) (body : Z -> M S unit) : M S unit :=
  for_down (Z.to_nat (hi - lo + 1)) hi body.

(** The same with a [return] inside the body. *)
Fixpoint find_up {A} (n : nat) (i : Z) (body : Z -> M S (option A)) : M S (option A) :=
  match n with
  | O => mret None
  | Datatypes.S n' =>
      r ← body i;
      match r with
      | Some a => mret (Some a)
      | None => find_up n' (i + 1)%Z body
      end
  end.

Fixpoint find_down {A} (n : nat) (i : Z) (body : Z -> M S (option A)) : M S (option A) :=
  match n with
  | O => mret None
  | Datatypes.S n' =>
      r ← body i;
      match r with
      | Some a => mret (Some a)
      | None => find_down n' (i - 1)%Z body
      end
  end.

(** A loop whose number of rounds is not known beforehand: [inl] goes round
    again with new loop variables, [inr] leaves the loop. *)
Fixpoint while_fuel {X A} (fuel : nat) (body : X -> M S (X + A)) (x : X) : M S A :=
  match fuel with
  | O => fun s => (OutOfFuel, s)
  | Datatypes.S fuel' =>
      r ← body x;
      match r with
      | inl x' => while_fuel fuel' body x'
      | inr a => mret a
      end
  end.
End monad.

(** ** Machine integers *)

Definition u32 (x : Z) : Z := x mod 2 ^ 32.
Definition u64 (x : Z) : Z := x mod 2 ^ 64.
(** Two's complement wrap-around into [-2^31, 2^31). *)
Definition i32 (x : Z) : Z := (x + 2 ^ 31) mod 2 ^ 32 - 2 ^ 31.

Definition INT32_MAX : Z := 2147483647.
Definition INT32_MIN : Z := -2147483648.

(** ** Automation *)

(** [lia] after replacing quotients and remainders by their equations. *)
Ltac zlia := Z.to_euclidean_division_equations; lia.

(** Prove an equality of booleans from the equivalence of what they decide. *)
Ltac bool_ext :=
  apply eq_bool_prop_intro;
  rewrite ?Is_true_true, ?andb_true_iff, ?orb_true_iff, ?Z.eqb_eq, ?Z.leb_le, ?Z.ltb_lt.

(** Unfold the monad. *)
Ltac mcbn :=
  cbv beta iota zeta delta [mbind M_bind mret M_ret get gets modify throw fault ASSERT zoom fst snd].
Tactic Notation "mcbn" "in" ident(H) :=
  cbv beta iota zeta delta [mbind M_bind mret M_ret get gets modify throw fault ASSERT zoom fst snd] in H.

(** Decide the integer comparisons of the goal that follow from the context. *)
Ltac zb :=
  repeat match goal with
  | |- context [Z.eqb ?a ?b] =>
      first [rewrite (proj2 (Z.eqb_neq a b)) by lia | rewrite (proj2 (Z.eqb_eq a b)) by lia]
  | |- context [Z.ltb ?a ?b] =>
      first [rewrite (proj2 (Z.ltb_lt a b)) by lia | rewrite (proj2 (Z.ltb_ge a b)) by lia]
  | |- context [Z.leb ?a ?b] =>
      first [rewrite (proj2 (Z.leb_le a b)) by lia | rewrite (proj2 (Z.leb_gt a b)) by lia]
  end; cbn [negb andb orb].

(** ** Running computations *)

Section run.
Context {S : Type}.

Lemma bind_Ok {A B} (m : M S A) (f : A -> M S B) (s s' : S) (a : A) :
  m s = (Ok a, s') -> (m ≫= f) s = f a s'.
Proof. intros H. mcbn. by rewrite H. Qed.

Lemma bind_Throw {A B} (m : M S A) (f : A -> M S B) (s s' : S) (e : ErrorFlag) :
  m s = (Throw e, s') -> (m ≫= f) s = (Throw e, s').
Proof. intros H. mcbn. by rewrite H. Qed.

Lemma bind_Fault {A B} (m : M S A) (f : A -> M S B) (s s' : S) :
  m s = (Fault, s') -> (m ≫= f) s = (Fault, s').
Proof. intros H. mcbn. by rewrite H. Qed.

Lemma zoom_run {T A} (proj : S -> T) (upd : T -> S -> S) (m : M T A) (s : S) (r : outcome A) (t : T) :
  m (proj s) = (r, t) -> zoom proj upd m s = (r, upd t s).
Proof. intros H. mcbn. by rewrite H. Qed.

Lemma bind_assoc {A B C} (m : M S A) (f : A -> M S B) (g : B -> M S C) (s : S) :
  (m ≫= fun a => f a ≫= g) s = ((m ≫= f) ≫= g) s.
Proof. mcbn. by destruct (m s) as [[]?]. Qed.

Lemma build_run {T} (init t : T) (m : M T unit) (s : S) :
  m init = (Ok tt, t) -> build init m s = (Ok t, s).
Proof. intros H. unfold build. by rewrite H. Qed.

Lemma for_up_cons (n : nat) (i : Z) (body : Z -> M S unit) (s s' : S) :
  body i s = (Ok tt, s') -> for_up (Datatypes.S n) i body s = for_up n (i + 1) body s'.
Proof. intros H. simpl. by rewrite (bind_Ok _ _ _ _ _ H). Qed.

Lemma for_up_ext (n : nat) (i : Z) (body body' : Z -> M S unit) (s : S) :
  (forall j t, body j t = body' j t) -> for_up n i body s = for_up n i body' s.
Proof.
  intros H. revert i s. induction n as [|n IH]; intros i s; [done|]. simpl. mcbn. rewrite H.
  by destruct (body' i s) as [[[]| | |] s'].
Qed.

Lemma for_up_plus (n m : nat) (i : Z) (body : Z -> M S unit) (s : S) :
  for_up (n + m) i body s = (for_up n i body;; for_up m (i + Z.of_nat n) body) s.
Proof.
  revert i s. induction n as [|n IH]; intros i s; simpl.
  { mcbn. by rewrite Z.add_0_r. }
  mcbn. destruct (body i s) as [[[]| | |] s']; try done. rewrite IH. mcbn.
  replace (i + 1 + Z.of_nat n)%Z with (i + Z.of_nat (Datatypes.S n))%Z by lia. done.
Qed.

Lemma for_down_cons (n : nat) (i : Z) (body : Z -> M S unit) (s s' : S) :
  body i s = (Ok tt, s') -> for_down (Datatypes.S n) i body s = for_down n (i - 1) body s'.
Proof. intros H. simpl. by rewrite (bind_Ok _ _ _ _ _ H). Qed.
End run.

(** One step of a computation: by evaluation, or by a lemma about the call. *)
Ltac mstep := erewrite bind_Ok by reflexivity; cbv beta iota zeta.
Tactic Notation "mstep" "by" tactic3(t) := erewrite bind_Ok by t; cbv beta iota zeta.
Tactic Notation "mstep" "with" constr(H) := rewrite (bind_Ok _ _ _ _ _ H); cbv beta iota zeta.

(** ** Lists *)

Definition lenZ {A} (l : list A) : Z := Z.of_nat (length l).

Section lists.
Context {A : Type}.

Lemma lenZ_nonneg (l : list A) : (0 <= lenZ l)%Z.
Proof. unfold lenZ. lia. Qed.

Lemma lenZ_nil : lenZ (@nil A) = 0%Z.
Proof. done. Qed.

Lemma lenZ_cons (x : A) (l : list A) : lenZ (x :: l) = (lenZ l + 1)%Z.
Proof. unfold lenZ. simpl. lia. Qed.

Lemma lenZ_app (k l : list A) : lenZ (k ++ l) = (lenZ k + lenZ l)%Z.
Proof. unfold lenZ. rewrite length_app. lia. Qed.

Lemma lenZ_replicate (n : nat) (x : A) : lenZ (replicate n x) = Z.of_nat n.
Proof. unfold lenZ. by rewrite length_replicate. Qed.

Lemma lenZ_zero (l : list A) : lenZ l = 0%Z -> l = [].
Proof. unfold lenZ. destruct l; simpl; [done|lia]. Qed.

(** Split a list at a position inside it. *)
Lemma split_at (l : list A) (i : Z) :
  (0 <= i < lenZ l)%Z -> exists pre x post, l = pre ++ x :: post /\ lenZ pre = i.
Proof.
  unfold lenZ. intros Hi. destruct (lookup_lt_is_Some_2 l (Z.to_nat i)) as [x Hx]; [lia|].
  exists (take (Z.to_nat i) l), x, (drop (Datatypes.S (Z.to_nat i)) l).
  rewrite take_drop_middle by done. split; [done|]. rewrite length_take. lia.
Qed.

Lemma split_len (l : list A) (i : Z) :
  (0 <= i <= lenZ l)%Z -> exists pre post, l = pre ++ post /\ lenZ pre = i.
Proof.
  unfold lenZ. intros Hi. exists (take (Z.to_nat i) l), (drop (Z.to_nat i) l).
  rewrite take_drop. split; [done|]. rewrite length_take. lia.
Qed.

(** The position of the first and of the last element a test accepts. *)
Fixpoint find_index (p : A -> bool) (l : list A) : option Z :=
  match l with
  | [] => None
  | x :: l' => if p x then Some 0%Z else Z.succ <$> find_index p l'
  end.

Fixpoint find_last_index (p : A -> bool) (l : list A) : option Z :=
  match l with
  | [] => None
  | x :: l' =>
      match find_last_index p l' with
      | Some i => Some (Z.succ i)
      | None => if p x then Some 0%Z else None
      end
  end.

Lemma find_index_Some (p : A -> bool) (l : list A) (i : Z) :
  find_index p l = Some i ->
  exists pre x post, l = pre ++ x :: post /\ lenZ pre = i /\ p x = true /\
    forallb (fun y => negb (p y)) pre = true.
Proof.
  revert i. induction l as [|y l IH]; simpl; intros i Hi; [done|].
  destruct (p y) eqn:Hp; simplify_eq.
  { by exists [], y, l. }
  destruct (find_index p l) as [j|]; simplify_eq/=.
  destruct (IH j eq_refl) as (pre & x & post & -> & <- & Hx & Hall).
  exists (y :: pre), x, post. rewrite lenZ_cons. simpl. rewrite Hp. split_and!; [done|lia|done|done].
Qed.

Lemma find_last_index_snoc (p : A -> bool) (l : list A) (x : A) :
  find_last_index p (l ++ [x]) = if p x then Some (lenZ l) else find_last_index p l.
Proof.
  induction l as [|y l IH]; simpl; [done|]. rewrite IH, lenZ_cons.
  destruct (p x); [done|]. done.
Qed.

Lemma find_index_None (p : A -> bool) (l : list A) :
  find_index p l = None <-> forallb (fun y => negb (p y)) l = true.
Proof.
  induction l as [|y l IH]; simpl; [done|]. destruct (p y); simpl; [done|].
  rewrite <- IH. by destruct (find_index p l).
Qed.

Lemma lenZ_delete_le (l : list A) (i : nat) : (lenZ (delete i l) <= lenZ l)%Z.
Proof.
  unfold lenZ. revert i. induction l as [|x l IH]; intros [|i]; [done..|simpl; lia|].
  change (delete (Datatypes.S i) (x :: l)) with (x :: delete i l). specialize (IH i). simpl. lia.
Qed.

Lemma existsb_find_index (p : A -> bool) (l : list A) :
  existsb p l = match find_index p l with Some _ => true | None => false end.
Proof. induction l as [|x l IH]; simpl; [done|]. rewrite IH. by destruct (p x), (find_index p l). Qed.
End lists.

Create HintDb lenz.
#[export] Hint Rewrite @lenZ_nil @lenZ_cons @lenZ_app @lenZ_replicate @length_app
  @length_replicate @length_cons : lenz.

(** Arithmetic on the lengths of lists built from pieces. *)
Ltac lenz :=
  autorewrite with lenz in *; unfold lenZ in *; try (simpl length in *); try lia.

Lemma u32_small (x : Z) : (0 <= x < 2 ^ 32)%Z -> u32 x = x.
Proof. apply Z.mod_small. Qed.

(** ** Sequences of operations *)

(** Run the operations one after the other; an exception ends one operation
    and the next one goes on with the state it left. *)
Fixpoint run_ops {S O A} (f : O -> S -> outcome A * S) (os : list O) (s : S) : list (outcome A) * S :=
  match os with
  | [] => ([], s)
  | o :: os' =>
      let '(r, s') := f o s in
      let '(rs, s'') := run_ops f os' s' in (r :: rs, s'')
  end.

(** An implementation whose every operation answers as the specification does
    and keeps the relation [R k] (after [k] operations) answers so on every
    sequence. *)
Section refinement.
Context {S T O A : Type} (exec : O -> S -> outcome A * S) (spec : O -> T -> outcome A * T).
Context (R : Z -> S -> T -> Prop) (ok : O -> Prop) (bound : Z).
Context (step : forall o k s t, R k s t -> ok o -> (0 <= k < bound)%Z ->
  exists s', exec o s = ((spec o t).1, s') /\ R (k + 1)%Z s' (spec o t).2).

Lemma run_ops_refines (os : list O) (k : Z) (s : S) (t : T) :
  R k s t -> Forall ok os -> (0 <= k)%Z -> (k + lenZ os <= bound)%Z ->
  (run_ops exec os s).1 = (run_ops spec os t).1 /\
  R (k + lenZ os)%Z (run_ops exec os s).2 (run_ops spec os t).2.
Proof.
  revert k s t. induction os as [|o os IH]; intros k s t HR Hok Hk Hb; simpl.
  { autorewrite with lenz. by rewrite Z.add_0_r. }
  autorewrite with lenz in *. pose proof (lenZ_nonneg os). apply Forall_cons_1 in Hok as [Ho Hos].
  destruct (step o k s t HR Ho ltac:(lia)) as (s' & Hrun & HR').
  rewrite Hrun. destruct (spec o t) as [r t']. simpl in *.
  destruct (IH (k + 1)%Z s' t' HR' Hos ltac:(lia) ltac:(lia)) as [H1 H2].
  destruct (run_ops exec os s'), (run_ops spec os t'). simpl in *.
  split; [congruence|]. by replace (k + (lenZ os + 1))%Z with (k + 1 + lenZ os)%Z by lia.
Qed.
End refinement.

(** The same for the sequences whose every operation is one that [guard] allows
    in the state that the specification has reached. *)
Section guarded.
Context {S T O A : Type} (exec : O -> S -> outcome A * S) (spec : O -> T -> outcome A * T) (guard : O -> T -> bool).

Fixpoint guarded (os : list O) (t : T) : bool :=
  match os with
  | [] => true
  | o :: os' => guard o t && guarded os' (spec o t).2
  end.

Context (R : Z -> S -> T -> Prop) (ok : O -> Prop) (bound : Z).
Context (step : forall o k s t, R k s t -> ok o -> guard o t = true -> (0 <= k < bound)%Z ->
  exists s', exec o s = ((spec o t).1, s') /\ R (k + 1)%Z s' (spec o t).2).

Lemma run_ops_guarded (os : list O) (k : Z) (s : S) (t : T) :
  R k s t -> Forall ok os -> guarded os t = true -> (0 <= k)%Z -> (k + lenZ os <= bound)%Z ->
  (run_ops exec os s).1 = (run_ops spec os t).1 /\
  R (k + lenZ os)%Z (run_ops exec os s).2 (run_ops spec os t).2.
Proof.
  revert k s t. induction os as [|o os IH]; intros k s t HR Hok Hg Hk Hb; simpl.
  { autorewrite with lenz. by rewrite Z.add_0_r. }
  autorewrite with lenz in *. pose proof (lenZ_nonneg os). apply Forall_cons_1 in Hok as [Ho Hos].
  simpl in Hg. apply andb_true_iff in Hg as [Hg Hgs].
  destruct (step o k s t HR Ho Hg ltac:(lia)) as (s' & Hrun & HR').
  rewrite Hrun. destruct (spec o t) as [r t']. simpl in *.
  destruct (IH (k + 1)%Z s' t' HR' Hos Hgs ltac:(lia) ltac:(lia)) as [H1 H2].
  destruct (run_ops exec os s'), (run_ops spec os t'). simpl in *.
  split; [congruence|]. by replace (k + (lenZ os + 1))%Z with (k + 1 + lenZ os)%Z by lia.
Qed.
End guarded.

(** ** Iteration *)

(** The Next method of an iterator of type [I] over a container of type [S]:
    [None] is the {undefined, done: true} result. *)
Section iteration.
Context {S I V : Type} (Next : I -> M S (option V * I)).

(** Call Next until it reports the end. *)
Fixpoint drain (fuel : nat) (iter : I) : M S (list V) :=
  match fuel with
  | O => fun s => (OutOfFuel, s)
  | Datatypes.S fuel' =>
      r ← Next iter;
      match (r : option V * I) with
      | (None, _) => mret []
      | (Some v, iter') => vs ← drain fuel' iter'; mret (v :: vs)
      end
  end.

(** [pos j] is the iterator that has delivered [j] elements. *)
Lemma drain_run (pos : nat -> I) (s : S) (l : list V) :
  (forall j x, l !! j = Some x -> Next (pos j) s = (Ok (Some x, pos (Datatypes.S j)), s)) ->
  (exists iter, Next (pos (length l)) s = (Ok (None, iter), s)) ->
  drain (Datatypes.S (length l)) (pos O) s = (Ok l, s).
Proof.
  intros Hnext [iter Hend].
  enough (forall l2 l1, l = l1 ++ l2 -> drain (Datatypes.S (length l2)) (pos (length l1)) s = (Ok l2, s)) as H
    by exact (H l [] eq_refl).
  induction l2 as [|x l2 IH]; intros l1 ->.
  - rewrite app_nil_r in *. simpl. by rewrite (bind_Ok _ _ _ _ _ Hend).
  - simpl length. cbn [drain].
    rewrite (bind_Ok _ _ _ _ _ (Hnext (length l1) x (list_lookup_middle _ _ _ _ eq_refl))).
    cbv beta iota. specialize (IH (l1 ++ [x])). rewrite length_app in IH. simpl in IH.
    rewrite Nat.add_1_r in IH. rewrite (bind_Ok _ _ _ _ _ (IH ltac:(by rewrite <- (assoc_L (++))))). done.
Qed.
End iteration.

(** The iterators that count an index up from 0: they forget the container once
    the index has reached its length. *)
Record index_iterator : Type := mkIter {
  iterated : bool;
  nextIndex : Z;
}.

Definition index_next {S V} (GetLength : M S Z) (Get : Z -> M S V) (iter : index_iterator) :
    M S (option V * index_iterator) :=
  if negb (iterated iter) then mret (None, iter)
  else
    let index := nextIndex iter in
    length ← GetLength;
    if (length <=? index)%Z then mret (None, mkIter false index)
    else
      value ← Get index;
      mret (Some value, mkIter true (u32 (index + 1))).

Lemma index_next_drain {S V} (GetLength : M S Z) (Get : Z -> M S V) (s : S) (l : list V) :
  GetLength s = (Ok (lenZ l), s) -> (lenZ l < 2 ^ 32)%Z ->
  (forall j x, l !! j = Some x -> Get (Z.of_nat j) s = (Ok x, s)) ->
  drain (index_next GetLength Get) (Datatypes.S (length l)) (mkIter true 0) s = (Ok l, s).
Proof.
  intros Hlen Hb Hget. apply (drain_run _ (fun j => mkIter true (Z.of_nat j))).
  - intros j x Hj. pose proof (lookup_lt_Some _ _ _ Hj). unfold index_next. simpl.
    rewrite (bind_Ok _ _ _ _ _ Hlen). unfold lenZ in *. rewrite (proj2 (Z.leb_gt _ _)) by lia.
    rewrite (bind_Ok _ _ _ _ _ (Hget j x Hj)). mcbn. rewrite u32_small by lia. do 3 f_equal. f_equal. lia.
  - eexists. unfold index_next. simpl. rewrite (bind_Ok _ _ _ _ _ Hlen).
    rewrite (proj2 (Z.leb_le _ _)) by (unfold lenZ; lia). reflexivity.
Qed.
