(* ===== verification/TaggedValue.v ===== *)
(** * Tagged values: js_tagged_value_internals.h, js_tagged_value.h,
    js_tagged_value-inl.h and NumberHelper::DoubleToInt.

    [Module Raw] is the NaN-boxed 64-bit word and its tests, with the constants
    and masks of the source; [JSTaggedValue] is the value the word stands for,
    which the other components store in their arrays.  [encode] and [decode]
    relate the two, and the comparison functions are the ones the containers
    call. *)
From S2P Require Import Prelude.
Local Open Scope Z_scope.

(** ** The word *)

Module Raw.
Definition TAG_BITS_SIZE : Z := 16.
Definition TAG_BITS_SHIFT : Z := 64 - TAG_BITS_SIZE.
Definition TAG_MARK : Z := Z.shiftl 0xFFFF TAG_BITS_SHIFT.
Definition TAG_INT : Z := TAG_MARK.
Definition TAG_OBJECT : Z := Z.shiftl 0x0000 TAG_BITS_SHIFT.
Definition TAG_WEAK : Z := Z.lor TAG_OBJECT 0x01.
Definition TAG_NULL : Z := 0x01.
Definition TAG_SPECIAL : Z := 0x02.
Definition TAG_BOOLEAN : Z := 0x04.
Definition TAG_EXCEPTION : Z := 0x08.
Definition TAG_OPTIMIZED_OUT : Z := 0x12.
Definition TAG_SPECIAL_MASK : Z := Z.lor TAG_MARK TAG_SPECIAL.
Definition TAG_BOOLEAN_MASK : Z := Z.lor TAG_SPECIAL TAG_BOOLEAN.
Definition TAG_HEAPOBJECT_MASK : Z := Z.lor (Z.lor TAG_MARK TAG_SPECIAL) TAG_BOOLEAN.
Definition TAG_WEAK_MASK : Z := Z.lor TAG_HEAPOBJECT_MASK TAG_WEAK.
Definition VALUE_HOLE : Z := 0x05.
Definition VALUE_NULL : Z := Z.lor (Z.lor TAG_OBJECT TAG_SPECIAL) TAG_NULL.
Definition VALUE_FALSE : Z := Z.lor TAG_BOOLEAN_MASK 0.
Definition VALUE_TRUE : Z := Z.lor TAG_BOOLEAN_MASK 1.
Definition VALUE_UNDEFINED : Z := TAG_SPECIAL.
Definition VALUE_EXCEPTION : Z := Z.lor TAG_SPECIAL TAG_EXCEPTION.
Definition VALUE_OPTIMIZED_OUT : Z := Z.lor TAG_SPECIAL TAG_OPTIMIZED_OUT.
Definition DOUBLE_ENCODE_OFFSET_BIT : Z := 48.
Definition DOUBLE_ENCODE_OFFSET : Z := Z.shiftl 1 DOUBLE_ENCODE_OFFSET_BIT.

(** [~x] on a 64-bit word. *)
Definition not64 (x : Z) : Z := Z.lxor x (2 ^ 64 - 1).

(** JSTaggedValue(int v): the cast to uint64_t sign-extends. *)
Definition of_int (v : Z) : Z := Z.lor (u64 v) TAG_INT.
Definition of_bool (b : bool) : Z := Z.lor (if b then 1 else 0) TAG_BOOLEAN_MASK.
Definition IsImpureNaN (bits : Z) : bool := TAG_INT - DOUBLE_ENCODE_OFFSET <=? bits.
(** JSTaggedValue(double v); the argument is bit_cast<uint64_t>(v). *)
Definition of_double (bits : Z) : Z := u64 (bits + DOUBLE_ENCODE_OFFSET).

Definition IsWeak (w : Z) : bool := Z.land w TAG_WEAK_MASK =? TAG_WEAK.
Definition IsInt (w : Z) : bool := Z.land w TAG_MARK =? TAG_INT.
Definition IsObject (w : Z) : bool := Z.land w TAG_MARK =? TAG_OBJECT.
Definition IsDouble (w : Z) : bool := negb (IsInt w) && negb (IsObject w).
Definition IsHole (w : Z) : bool := (w =? VALUE_HOLE) || (w =? 0).
Definition IsSpecial (w : Z) : bool := (Z.land w TAG_SPECIAL_MASK =? TAG_SPECIAL) || IsHole w.
Definition IsHeapObject (w : Z) : bool := Z.land w TAG_HEAPOBJECT_MASK =? 0.
Definition IsUndefinedOrNull (w : Z) : bool := Z.land w TAG_HEAPOBJECT_MASK =? TAG_SPECIAL.
Definition IsNumber (w : Z) : bool := IsInt w || IsDouble w.
Definition GetInt (w : Z) : Z := i32 (Z.land w (not64 TAG_MARK)).
Definition GetDouble (w : Z) : Z := u64 (w - DOUBLE_ENCODE_OFFSET).
Definition CreateWeakRef (w : Z) : Z := Z.lor w TAG_WEAK.
Definition RemoveWeakTag (w : Z) : Z := Z.land w (not64 TAG_WEAK).
End Raw.

(** ** Doubles

    A finite double is an integer multiple of 2^-1074; [DFin k] is the nonzero
    number k * 2^-1074. *)
Inductive dbl : Type :=
| DNaN
| DInf (neg : bool)
| DZero (neg : bool)
| DFin (k : Z).

Definition DOUBLE_EXPONENT_BIAS : Z := 0x3FF.
Definition DOUBLE_SIGNIFICAND_SIZE : Z := 52.
Definition DOUBLE_EXPONENT_MASK : Z := Z.shiftl 0x7FF 52.
Definition DOUBLE_SIGNIFICAND_MASK : Z := 0xFFFFFFFFFFFFF.
Definition DOUBLE_HIDDEN_BIT : Z := Z.shiftl 1 52.
Definition DOUBLE_SIGN_MASK : Z := Z.shiftl 1 63.

(** bit_cast<double>: the IEEE 754 reading of a 64-bit pattern. *)
Definition double_of_bits (b : Z) : dbl :=
  let neg := Z.testbit b 63 in
  let e := (b / 2 ^ 52) mod 2 ^ 11 in
  let m := b mod 2 ^ 52 in
  let sg := if neg then -1 else 1 in
  if e =? 2047 then (if m =? 0 then DInf neg else DNaN)
  else if e =? 0 then (if m =? 0 then DZero neg else DFin (sg * m))
  else DFin (sg * ((2 ^ 52 + m) * 2 ^ (e - 1))).

(** static_cast<double>(int): every int32 is a double. *)
Definition double_of_int (z : Z) : dbl :=
  if z =? 0 then DZero false else DFin (z * 2 ^ 1074).

Definition isnan (d : dbl) : bool := match d with DNaN => true | _ => false end.

Definition signbit (d : dbl) : bool :=
  match d with
  | DNaN => false
  | DInf neg => neg
  | DZero neg => neg
  | DFin k => k <? 0
  end.

(** The order key of a double that is not a NaN; zeros of both signs share it. *)
Definition dkey (d : dbl) : option (Z * Z) :=
  match d with
  | DNaN => None
  | DInf neg => Some (if neg then (-1, 0) else (1, 0))
  | DZero _ => Some (0, 0)
  | DFin k => Some (0, k)
  end.

(** The C++ operators == and < on doubles. *)
Definition double_eqb (x y : dbl) : bool :=
  match dkey x, dkey y with
  | Some (a, b), Some (c, d) => (a =? c) && (b =? d)
  | _, _ => false
  end.

Definition double_ltb (x y : dbl) : bool :=
  match dkey x, dkey y with
  | Some (a, b), Some (c, d) => (a <? c) || ((a =? c) && (b <? d))
  | _, _ => false
  end.

(** The integer part of a double towards zero; [None] on NaN and infinities. *)
Definition trunc (d : dbl) : option Z :=
  match d with
  | DNaN | DInf _ => None
  | DZero _ => Some 0
  | DFin k => Some (Z.quot k (2 ^ 1074))
  end.

(** NumberHelper::DoubleToInt(d, bits) on the bit pattern of d.  The
    static_cast<int32_t>(d) of the fast branch is [trunc]. *)
Definition DoubleToInt (b bits : Z) : Z :=
  let exp := Z.shiftr (Z.land b DOUBLE_EXPONENT_MASK) DOUBLE_SIGNIFICAND_SIZE - DOUBLE_EXPONENT_BIAS in
  if exp <? bits - 1 then
    default 0 (trunc (double_of_bits b))
  else if exp <? bits + DOUBLE_SIGNIFICAND_SIZE then
    let value :=
      Z.shiftr
        (u64 (Z.shiftl (Z.lor (Z.land b DOUBLE_SIGNIFICAND_MASK) DOUBLE_HIDDEN_BIT)
                       (exp - DOUBLE_SIGNIFICAND_SIZE + 64 - bits)))
        (64 - bits) in
    let ret := i32 value in
    if (Z.land b DOUBLE_SIGN_MASK =? DOUBLE_SIGN_MASK) && negb (ret =? INT32_MIN) then - ret else ret
  else 0.

(** ** Values

    The values that the words stand for.  VALUE_OPTIMIZED_OUT, a mark of the
    compiler for a value that it has removed, is a word only: no operation that is
    modelled makes or takes one. *)
Inductive JSTaggedValue : Type :=
| VInt (z : Z)
| VDouble (bits : Z)
| VHole
| VUndefined
| VNull
| VBool (b : bool)
| VException
| VObject (addr : Z).

#[export] Instance JSTaggedValue_eq_dec : EqDecision JSTaggedValue.
Proof. solve_decision. Defined.

#[export] Instance JSTaggedValue_inhabited : Inhabited JSTaggedValue := populate VHole.

Definition encode (v : JSTaggedValue) : Z :=
  match v with
  | VInt z => Raw.of_int z
  | VDouble b => Raw.of_double b
  | VHole => Raw.VALUE_HOLE
  | VUndefined => Raw.VALUE_UNDEFINED
  | VNull => Raw.VALUE_NULL
  | VBool b => Raw.of_bool b
  | VException => Raw.VALUE_EXCEPTION
  | VObject a => a
  end.

(** The reading of a word the tests of js_tagged_value.h give. *)
Definition decode (w : Z) : option JSTaggedValue :=
  if Raw.IsInt w then Some (VInt (Raw.GetInt w))
  else if Raw.IsDouble w then Some (VDouble (Raw.GetDouble w))
  else if Raw.IsHole w then Some VHole
  else if w =? Raw.VALUE_UNDEFINED then Some VUndefined
  else if w =? Raw.VALUE_NULL then Some VNull
  else if w =? Raw.VALUE_TRUE then Some (VBool true)
  else if w =? Raw.VALUE_FALSE then Some (VBool false)
  else if w =? Raw.VALUE_EXCEPTION then Some VException
  else if Raw.IsHeapObject w && negb (Raw.IsWeak w) then Some (VObject w)
  else None.

(** The values the runtime builds: an int fits int32_t, a double passed the
    IsImpureNaN check of the constructor, an object pointer is 8-byte aligned
    and fits 48 bits. *)
Definition valid (v : JSTaggedValue) : Prop :=
  match v with
  | VInt z => INT32_MIN <= z <= INT32_MAX
  | VDouble b => 0 <= b /\ Raw.IsImpureNaN b = false
  | VObject a => 0 < a < 2 ^ 48 /\ a mod 8 = 0
  | _ => True
  end.

Definition IsInt (v : JSTaggedValue) : bool := match v with VInt _ => true | _ => false end.
Definition IsDouble (v : JSTaggedValue) : bool := match v with VDouble _ => true | _ => false end.
Definition IsNumber (v : JSTaggedValue) : bool := IsInt v || IsDouble v.
Definition IsHole (v : JSTaggedValue) : bool := match v with VHole => true | _ => false end.
Definition IsUndefined (v : JSTaggedValue) : bool := match v with VUndefined => true | _ => false end.
Definition IsNull (v : JSTaggedValue) : bool := match v with VNull => true | _ => false end.

(** GetNumber / ExtractNumber. *)
Definition ExtractNumber (v : JSTaggedValue) : dbl :=
  match v with
  | VInt z => double_of_int z
  | VDouble b => double_of_bits b
  | _ => DNaN
  end.

(** The result of an abstract relational comparison. *)
Inductive ComparisonResult : Type := LESS | EQUAL | GREAT | UNDEFINED.

Definition StrictNumberCompare (x y : dbl) : ComparisonResult :=
  if isnan x || isnan y then UNDEFINED
  else if double_ltb x y then LESS
  else if double_ltb y x then GREAT
  else EQUAL.

(** What the heap holds at an address, as far as the comparisons look. *)
Inductive HeapObject : Type :=
| HString (intern : bool) (units : list Z)
| HBigInt (sign : bool) (digits : list Z)
| HOther.

Definition Heap := Z -> HeapObject.

Section compare.
Context (heap : Heap).

(** x == y on the words. *)
Definition word_eqb (x y : JSTaggedValue) : bool := bool_decide (x = y).

Definition get_string (v : JSTaggedValue) : option (Z * bool * list Z) :=
  match v with
  | VObject a => match heap a with HString i u => Some (a, i, u) | _ => None end
  | _ => None
  end.

Definition get_bigint (v : JSTaggedValue) : option (bool * list Z) :=
  match v with
  | VObject a => match heap a with HBigInt s d => Some (s, d) | _ => None end
  | _ => None
  end.

(** StringsAreEqual compares the code units. *)
Definition StringsAreEqual (x y : list Z) : bool := bool_decide (x = y).

Definition StringCompare (x y : Z * bool * list Z) : bool :=
  let '(ax, ix, ux) := x in
  let '(ay, iy, uy) := y in
  if ix && iy then ax =? ay else StringsAreEqual ux uy.

Definition BigInt_Equal (x y : bool * list Z) : bool :=
  if negb (Bool.eqb x.1 y.1) || negb (Nat.eqb (length x.2) (length y.2)) then false
  else forallb (fun p => p.1 =? p.2) (zip x.2 y.2).

Definition SameValueNumberic (x y : JSTaggedValue) : bool :=
  let xValue := ExtractNumber x in
  let yValue := ExtractNumber y in
  if negb (double_eqb xValue yValue) then isnan xValue && isnan yValue
  else Bool.eqb (signbit xValue) (signbit yValue).

Definition SameValue (x y : JSTaggedValue) : bool :=
  if word_eqb x y then true
  else if IsInt x && IsInt y then false
  else if IsNumber x && IsNumber y then SameValueNumberic x y
  else
    match get_string x, get_string y with
    | Some sx, Some sy => StringCompare sx sy
    | _, _ =>
        match get_bigint x, get_bigint y with
        | Some bx, Some by_ => BigInt_Equal bx by_
        | _, _ => false
        end
    end.

Definition SameValueZero (x y : JSTaggedValue) : bool :=
  if word_eqb x y then true
  else if IsNumber x && IsNumber y then
    let xValue := ExtractNumber x in
    let yValue := ExtractNumber y in
    double_eqb xValue yValue || (isnan xValue && isnan yValue)
  else
    match get_string x, get_string y with
    | Some sx, Some sy => StringsAreEqual sx.2 sy.2
    | _, _ =>
        match get_bigint x, get_bigint y with
        | Some bx, Some by_ => BigInt_Equal bx by_
        | _, _ => false
        end
    end.

Definition StrictNumberEquals (x y : dbl) : bool :=
  if isnan x || isnan y then false else double_eqb x y.

Definition StrictEqual (x y : JSTaggedValue) : bool :=
  match x, y with
  | VInt a, VInt b => a =? b
  | _, _ =>
      if IsNumber x && IsNumber y then StrictNumberEquals (ExtractNumber x) (ExtractNumber y)
      else if word_eqb x y then true
      else
        match get_string x, get_string y with
        | Some sx, Some sy => StringCompare sx sy
        | _, _ =>
            match get_bigint x, get_bigint y with
            | Some bx, Some by_ => BigInt_Equal bx by_
            | _, _ => false
            end
        end
  end.
End compare.

(** ** The word: which test holds of which word *)

Lemma land_mark (w : Z) : 0 <= w < 2 ^ 64 -> Z.land w Raw.TAG_MARK = 2 ^ 48 * (w / 2 ^ 48).
Proof.
  intros Hw. change Raw.TAG_MARK with (Z.shiftl (Z.ones 16) 48).
  rewrite (Z.mul_comm (2 ^ 48)), <- Z.shiftl_mul_pow2, <- Z.shiftr_div_pow2 by lia.
  apply Z.bits_inj'; intros n Hn.
  rewrite Z.land_spec, !Z.shiftl_spec by lia.
  destruct (decide (n < 48)) as [Hlt|Hge].
  { rewrite !(Z.testbit_neg_r _ (n - 48)) by lia. by rewrite andb_false_r. }
  rewrite Z.shiftr_spec by lia. replace (n - 48 + 48) with n by lia.
  destruct (decide (n < 64)) as [H64|H64].
  { rewrite Z.ones_spec_low by lia. by rewrite andb_true_r. }
  rewrite Z.ones_spec_high by lia. rewrite andb_false_r.
  rewrite <- (Z.mod_small w (2 ^ 64)) by lia. by rewrite Z.mod_pow2_bits_high by lia.
Qed.

Lemma IsInt_spec (w : Z) : 0 <= w < 2 ^ 64 -> Raw.IsInt w = (2 ^ 64 - 2 ^ 48 <=? w).
Proof.
  intros Hw. unfold Raw.IsInt. rewrite land_mark by done.
  change Raw.TAG_INT with (2 ^ 48 * 65535).
  bool_ext. zlia.
Qed.

Lemma IsObject_spec (w : Z) : 0 <= w < 2 ^ 64 -> Raw.IsObject w = (w <? 2 ^ 48).
Proof.
  intros Hw. unfold Raw.IsObject. rewrite land_mark by done.
  change Raw.TAG_OBJECT with 0.
  bool_ext. zlia.
Qed.

Lemma IsDouble_spec (w : Z) :
  0 <= w < 2 ^ 64 -> Raw.IsDouble w = (2 ^ 48 <=? w) && (w <? 2 ^ 64 - 2 ^ 48).
Proof.
  intros Hw. unfold Raw.IsDouble. rewrite IsInt_spec, IsObject_spec by done. lia.
Qed.

Lemma of_int_word (v : Z) :
  INT32_MIN <= v <= INT32_MAX ->
  Raw.of_int v = if v <? 0 then 2 ^ 64 + v else 2 ^ 64 - 2 ^ 48 + v.
Proof.
  unfold INT32_MIN, INT32_MAX, Raw.of_int, u64. intros Hv.
  change Raw.TAG_INT with Raw.TAG_MARK.
  destruct (Z.ltb_spec v 0) as [Hn|Hn].
  - replace (v mod 2 ^ 64) with (2 ^ 64 + v) by zlia.
    assert (Z.land (2 ^ 64 + v) Raw.TAG_MARK = Raw.TAG_MARK) as H.
    { rewrite land_mark by lia. change Raw.TAG_MARK with (2 ^ 48 * 65535). zlia. }
    rewrite <- H at 1. apply Z.bits_inj'; intros n _.
    rewrite Z.lor_spec, Z.land_spec. by destruct (Z.testbit (2 ^ 64 + v) n), (Z.testbit Raw.TAG_MARK n).
  - rewrite Z.mod_small by lia.
    pose proof (Z.add_lor_land v Raw.TAG_MARK) as H. rewrite land_mark in H by lia.
    change Raw.TAG_MARK with (2 ^ 64 - 2 ^ 48) in *. zlia.
Qed.

Lemma not_mark : Raw.not64 Raw.TAG_MARK = Z.ones 48.
Proof. reflexivity. Qed.

Lemma of_double_word (b : Z) :
  0 <= b -> Raw.IsImpureNaN b = false ->
  Raw.of_double b = b + 2 ^ 48 /\ 2 ^ 48 <= Raw.of_double b < 2 ^ 64 - 2 ^ 48.
Proof.
  unfold Raw.IsImpureNaN, Raw.of_double, u64. intros Hb Hp%Z.leb_gt.
  change (Raw.TAG_INT - Raw.DOUBLE_ENCODE_OFFSET) with (2 ^ 64 - 2 ^ 48 - 2 ^ 48) in Hp.
  change Raw.DOUBLE_ENCODE_OFFSET with (2 ^ 48). rewrite Z.mod_small by lia. lia.
Qed.

Lemma heapobject_bits (w : Z) :
  0 <= w < 2 ^ 48 -> Z.land w Raw.TAG_HEAPOBJECT_MASK = Z.land w 6.
Proof.
  intros Hw. change Raw.TAG_HEAPOBJECT_MASK with (Z.lor Raw.TAG_MARK 6).
  rewrite Z.land_lor_distr_r, land_mark by lia. by rewrite Z.div_small by lia.
Qed.

Lemma weak_bits (w : Z) :
  0 <= w < 2 ^ 48 -> Z.land w Raw.TAG_WEAK_MASK = Z.land w 7.
Proof.
  intros Hw. change Raw.TAG_WEAK_MASK with (Z.lor Raw.TAG_MARK 7).
  rewrite Z.land_lor_distr_r, land_mark by lia. by rewrite Z.div_small by lia.
Qed.

(** An aligned pointer has its three low bits clear. *)
Lemma aligned_land (a m : Z) : a mod 8 = 0 -> 0 <= m < 8 -> Z.land a m = 0.
Proof.
  intros Ha Hm. rewrite <- (Z.mod_small m (2 ^ 3)) by lia.
  rewrite <- Z.land_ones by lia. rewrite (Z.land_comm m), Z.land_assoc, Z.land_ones by lia.
  change (2 ^ 3) with 8. by rewrite Ha.
Qed.

Lemma aligned_heapobject (a : Z) :
  0 < a < 2 ^ 48 -> a mod 8 = 0 -> Raw.IsHeapObject a = true /\ Raw.IsWeak a = false.
Proof.
  intros Ha H8. unfold Raw.IsHeapObject, Raw.IsWeak.
  rewrite heapobject_bits, weak_bits by lia. rewrite !aligned_land by (done || lia). done.
Qed.

Lemma int_word_roundtrip (z : Z) :
  INT32_MIN <= z <= INT32_MAX -> Raw.IsInt (Raw.of_int z) = true /\ Raw.GetInt (Raw.of_int z) = z.
Proof.
  intros Hv. pose proof (of_int_word z Hv) as Hw. unfold INT32_MIN, INT32_MAX in Hv. split.
  - rewrite IsInt_spec by (rewrite Hw; destruct (z <? 0) eqn:?; lia).
    rewrite Hw. destruct (z <? 0) eqn:?; lia.
  - unfold Raw.GetInt. rewrite not_mark, Z.land_ones by lia.
    unfold i32. rewrite Hw. destruct (z <? 0) eqn:?; zlia.
Qed.

(** ** Properties of the encoding *)

(** C8: decoding the word of a value gives the value back: the NaN-boxing of
    ints, pure doubles, the special values and aligned heap pointers loses
    nothing and confuses no two of them. *)
Theorem decode_encode (v : JSTaggedValue) : valid v -> decode (encode v) = Some v.
Proof.
  destruct v as [z|b| | | |[]| |a]; simpl; intros Hv; try reflexivity.
  - destruct (int_word_roundtrip z Hv) as [H1 H2]. unfold decode. by rewrite H1, H2.
  - destruct Hv as [Hb Hp]. destruct (of_double_word b Hb Hp) as [Hw Hr]. unfold decode.
    rewrite IsInt_spec, IsDouble_spec by lia.
    rewrite (proj2 (Z.leb_gt _ _)), (proj2 (Z.leb_le _ _)), (proj2 (Z.ltb_lt _ _)) by lia.
    simpl. do 2 f_equal. unfold Raw.GetDouble, u64. rewrite Hw.
    change Raw.DOUBLE_ENCODE_OFFSET with (2 ^ 48). rewrite Z.mod_small; lia.
  - destruct Hv as [Ha H8]. destruct (aligned_heapobject a Ha H8) as [H1 H2].
    unfold decode, Raw.IsHole. rewrite IsInt_spec, IsDouble_spec, H1, H2 by lia.
    rewrite (proj2 (Z.leb_gt _ _)) by lia. rewrite (proj2 (Z.leb_gt _ _)) by lia. simpl.
    repeat match goal with
    | |- context [a =? ?c] =>
        rewrite (proj2 (Z.eqb_neq a c)) by (intros ->; vm_compute in H8; lia || (vm_compute in Ha; lia))
    end. done.
Qed.

(** The tests of the three low bits, on words without a tag. *)
Lemma untagged_low_bits (w : Z) : 0 <= w < 2 ^ 48 ->
  Raw.IsHeapObject w = (w mod 8 <? 2) /\ Raw.IsWeak w = (w mod 8 =? 1).
Proof.
  intros Hw. unfold Raw.IsHeapObject, Raw.IsWeak. rewrite heapobject_bits, weak_bits by done.
  assert (forall m, 0 <= m < 8 -> Z.land w m = Z.land (w mod 8) m) as Hlow.
  { intros m Hm. change 8 with (2 ^ 3). rewrite <- (Z.land_ones w 3) by lia.
    rewrite <- Z.land_assoc, (Z.land_comm (Z.ones 3)), Z.land_ones, Z.mod_small by lia. done. }
  rewrite !Hlow by lia. pose proof (Z.mod_pos_bound w 8 ltac:(lia)) as Hm. revert Hm. generalize (w mod 8). clear.
  intros m Hm. assert (m = 0 \/ m = 1 \/ m = 2 \/ m = 3 \/ m = 4 \/ m = 5 \/ m = 6 \/ m = 7) as Hc by lia.
  by repeat destruct Hc as [->|Hc]; [..|subst].
Qed.

(** A word with a tag is neither a heap object nor a weak reference. *)
Lemma tagged_low_bits (w : Z) : 2 ^ 48 <= w < 2 ^ 64 -> Raw.IsHeapObject w = false /\ Raw.IsWeak w = false.
Proof.
  intros Hw. pose proof (land_mark w ltac:(lia)) as Hm.
  assert (forall m c, Z.land m Raw.TAG_MARK = Raw.TAG_MARK -> Z.land c Raw.TAG_MARK = 0 -> Z.land w m <> c) as Hne.
  { intros m c Hmark Hc E. apply (f_equal (fun x => Z.land x Raw.TAG_MARK)) in E.
    rewrite <- Z.land_assoc, Hmark, Hc, Hm in E. zlia. }
  unfold Raw.IsHeapObject, Raw.IsWeak. split; apply Z.eqb_neq; by apply Hne.
Qed.

(** C39: the classes of the 64-bit words are intervals and low bits: the words from
    0xFFFF shifted by 48 on are the ints, those below 2^48 the objects and special
    values, and the words between are exactly the encodings of the doubles that are
    not impure NaNs; heap objects are the words below 2^48 with the bits 1 and 2
    clear, weak references those with bit 0 set besides; and the special values
    are objects that are neither. *)
Theorem word_classes (w : Z) :
  0 <= w < 2 ^ 64 ->
  (Raw.IsInt w = true <-> 0xFFFF * 2 ^ 48 <= w) /\
  (Raw.IsDouble w = true <-> 2 ^ 48 <= w < 0xFFFF * 2 ^ 48) /\
  (Raw.IsObject w = true <-> w < 2 ^ 48) /\
  (Raw.IsDouble w = true <-> exists b, 0 <= b /\ Raw.IsImpureNaN b = false /\ Raw.of_double b = w) /\
  (Raw.IsHeapObject w = true <-> w < 2 ^ 48 /\ w mod 8 < 2) /\
  (Raw.IsWeak w = true <-> w < 2 ^ 48 /\ w mod 8 = 1) /\
  Forall (fun s => Raw.IsObject s = true /\ Raw.IsSpecial s = true /\ Raw.IsHeapObject s = false /\ Raw.IsWeak s = false)
    [Raw.VALUE_HOLE; Raw.VALUE_NULL; Raw.VALUE_FALSE; Raw.VALUE_TRUE; Raw.VALUE_UNDEFINED; Raw.VALUE_EXCEPTION; Raw.VALUE_OPTIMIZED_OUT].
Proof.
  intros Hw. rewrite IsInt_spec, IsDouble_spec, IsObject_spec by done. split_and!; [lia|lia|lia| | | |by repeat constructor].
  - rewrite andb_true_iff, Z.leb_le, Z.ltb_lt. split.
    + intros Hd. exists (w - 2 ^ 48). unfold Raw.IsImpureNaN. change (Raw.TAG_INT - Raw.DOUBLE_ENCODE_OFFSET) with (2 ^ 64 - 2 ^ 48 - 2 ^ 48).
      split_and!; [lia|apply Z.leb_gt; lia|]. unfold Raw.of_double, u64. change Raw.DOUBLE_ENCODE_OFFSET with (2 ^ 48). rewrite Z.mod_small; lia.
    + intros (b & Hb & Hp & <-). by destruct (of_double_word b Hb Hp) as [_ Hr].
  - destruct (Z.lt_ge_cases w (2 ^ 48)) as [Hl|Hl]; [rewrite (proj1 (untagged_low_bits w ltac:(lia)))|rewrite (proj1 (tagged_low_bits w ltac:(lia)))]; lia.
  - destruct (Z.lt_ge_cases w (2 ^ 48)) as [Hl|Hl]; [rewrite (proj2 (untagged_low_bits w ltac:(lia)))|rewrite (proj2 (tagged_low_bits w ltac:(lia)))]; lia.
Qed.

(** ** DoubleToInt *)

#[local] Arguments Z.mul : simpl never.
#[local] Arguments Z.pow : simpl never.
#[local] Arguments Z.eqb : simpl never.
#[local] Arguments Z.testbit : simpl never.

Lemma shiftr_land_exp (b : Z) :
  Z.shiftr (Z.land b DOUBLE_EXPONENT_MASK) DOUBLE_SIGNIFICAND_SIZE = (b / 2 ^ 52) mod 2 ^ 11.
Proof.
  unfold DOUBLE_EXPONENT_MASK, DOUBLE_SIGNIFICAND_SIZE.
  rewrite Z.shiftr_land, Z.shiftr_shiftl_l by lia. change (Z.shiftl 0x7FF (52 - 52)) with (Z.ones 11).
  by rewrite Z.land_ones, Z.shiftr_div_pow2 by lia.
Qed.

Lemma lor_hidden (b : Z) :
  Z.lor (Z.land b DOUBLE_SIGNIFICAND_MASK) DOUBLE_HIDDEN_BIT = b mod 2 ^ 52 + 2 ^ 52.
Proof.
  change DOUBLE_SIGNIFICAND_MASK with (Z.ones 52). rewrite Z.land_ones by lia.
  change DOUBLE_HIDDEN_BIT with (Z.shiftl 1 52).
  pose proof (Z.mod_pos_bound b (2 ^ 52) ltac:(lia)) as Hm.
  rewrite Z.lor_comm, Z.add_comm. symmetry.
  pose proof (Z.add_lor_land (Z.shiftl 1 52) (b mod 2 ^ 52)) as H.
  assert (Z.land (Z.shiftl 1 52) (b mod 2 ^ 52) = 0) as H0.
  { apply Z.bits_inj'; intros n Hn. rewrite Z.land_spec, Z.bits_0.
    destruct (decide (n < 52)).
    - by rewrite Z.shiftl_spec_low by lia.
    - rewrite (Z.mod_pow2_bits_high b 52 n) by lia. by rewrite andb_false_r. }
  change (2 ^ 52) with (Z.shiftl 1 52) at 1. lia.
Qed.

Lemma land_sign (b : Z) :
  0 <= b < 2 ^ 64 -> (Z.land b DOUBLE_SIGN_MASK =? DOUBLE_SIGN_MASK) = Z.testbit b 63.
Proof.
  intros Hb. change DOUBLE_SIGN_MASK with (2 ^ 63).
  assert (Z.land b (2 ^ 63) = if Z.testbit b 63 then 2 ^ 63 else 0) as ->.
  { apply Z.bits_inj'; intros n Hn. rewrite Z.land_spec, Z.pow2_bits_eqb by lia.
    destruct (Z.eqb_spec 63 n) as [<-|Hne].
    - destruct (Z.testbit b 63); [by rewrite Z.pow2_bits_true|done].
    - rewrite andb_false_r. destruct (Z.testbit b 63); [|by rewrite Z.bits_0].
      by rewrite Z.pow2_bits_false by lia. }
  by destruct (Z.testbit b 63).
Qed.

Lemma i32_id (x : Z) : - 2 ^ 31 <= x < 2 ^ 31 -> i32 x = x.
Proof. unfold i32. intros. zlia. Qed.

(** [index ^ 0xFFFFFFFF] undoes [-(n + 1)]. *)
Lemma i32_lnot (n : Z) : 0 <= n < 2 ^ 31 -> i32 (Z.lxor (u32 (- (n + 1))) 0xFFFFFFFF) = n.
Proof.
  intros Hn. replace (Z.lxor (u32 (- (n + 1))) 0xFFFFFFFF) with n; [apply i32_id; lia|].
  replace (- (n + 1)) with (Z.lnot n) by (unfold Z.lnot; lia). change 0xFFFFFFFF with (Z.ones 32).
  apply Z.bits_inj'. intros i Hi. rewrite Z.lxor_spec. unfold u32.
  destruct (Z.lt_ge_cases i 32) as [Hlt|Hge].
  - rewrite Z.mod_pow2_bits_low, Z.lnot_spec, Z.ones_spec_low by lia. by destruct (Z.testbit n i).
  - rewrite Z.mod_pow2_bits_high, Z.ones_spec_high by lia.
    rewrite <- (Z.mod_small n (2 ^ 32)), Z.mod_pow2_bits_high by lia. done.
Qed.

Lemma i32_mod (x : Z) : i32 (x mod 2 ^ 32) = i32 x.
Proof. unfold i32. zlia. Qed.

Lemma i32_opp (x : Z) :
  i32 (- x) = if i32 x =? INT32_MIN then INT32_MIN else - i32 x.
Proof. unfold i32, INT32_MIN. destruct (Z.eqb_spec ((x + 2 ^ 31) mod 2 ^ 32 - 2 ^ 31) (-2147483648)); zlia. Qed.

Lemma mod_div_pow2 (x : Z) : (x mod 2 ^ 64) / 2 ^ 32 = (x / 2 ^ 32) mod 2 ^ 32.
Proof. zlia. Qed.

(** The scaled significand of a normal double over 2^1074, in the form the
    shifts of the code compute it. *)
Lemma quot_scaled (N e : Z) :
  0 <= N -> 1054 <= e -> Z.quot (N * 2 ^ (e - 1)) (2 ^ 1074) = N * 2 ^ (e - 1043) / 2 ^ 32.
Proof.
  intros HN He. rewrite Z.quot_div_nonneg by nia.
  replace (e - 1) with ((e - 1043) + 1042) by lia.
  replace (2 ^ 1074) with (2 ^ 32 * 2 ^ 1042) by (rewrite <- Z.pow_add_r by lia; f_equal; lia).
  rewrite Z.pow_add_r by lia. rewrite Z.mul_assoc, Z.div_mul_cancel_r by lia. done.
Qed.

Lemma quot_neg1 (a b : Z) : b <> 0 -> Z.quot (-1 * a) b = - Z.quot a b.
Proof. intros Hb. rewrite <- Z.quot_opp_l by done. f_equal; lia. Qed.

Lemma DoubleToInt_high (b : Z) :
  let e := (b / 2 ^ 52) mod 2 ^ 11 in
  e <> 2047 -> 1107 <= e -> i32 (default 0 (trunc (double_of_bits b))) = 0.
Proof.
  intros e He1 He2. unfold double_of_bits. fold e.
  rewrite (proj2 (Z.eqb_neq e 2047)), (proj2 (Z.eqb_neq e 0)) by lia.
  set (N := 2 ^ 52 + b mod 2 ^ 52).
  pose proof (Z.mod_pos_bound b (2 ^ 52) ltac:(lia)) as Hm.
  assert (Z.quot (N * 2 ^ (e - 1)) (2 ^ 1074) = N * 2 ^ (e - 1107) * 2 ^ 32) as Hq.
  { rewrite quot_scaled by lia. replace (e - 1043) with ((e - 1107) + 64) by lia.
    rewrite Z.pow_add_r by lia. replace (2 ^ 64) with (2 ^ 32 * 2 ^ 32) by lia.
    rewrite !Z.mul_assoc, Z.div_mul by lia. done. }
  destruct (Z.testbit b 63); simpl trunc; simpl default.
  - rewrite quot_neg1, Hq by lia. unfold i32.
    rewrite <- Z.mul_opp_l. rewrite Z.add_comm, Z.mod_add by lia. done.
  - rewrite Z.mul_1_l, Hq. unfold i32. rewrite Z.add_comm, Z.mod_add by lia. done.
Qed.

Lemma trunc_small (b : Z) :
  (b / 2 ^ 52) mod 2 ^ 11 - 1023 < 31 -> - 2 ^ 31 <= default 0 (trunc (double_of_bits b)) < 2 ^ 31.
Proof.
  intros He. unfold double_of_bits. set (e := (b / 2 ^ 52) mod 2 ^ 11) in *.
  pose proof (Z.mod_pos_bound (b / 2 ^ 52) (2 ^ 11) ltac:(lia)) as He'. fold e in He'.
  pose proof (Z.mod_pos_bound b (2 ^ 52) ltac:(lia)) as Hm.
  rewrite (proj2 (Z.eqb_neq e 2047)) by lia.
  destruct (Z.eqb_spec e 0) as [E|E].
  { destruct (b mod 2 ^ 52 =? 0); simpl; [lia|].
    rewrite (proj2 (Z.quot_small_iff _ (2 ^ 1074) ltac:(lia))); [lia|].
    pose proof (Z.pow_lt_mono_r 2 52 1074 ltac:(lia) ltac:(lia) ltac:(lia)).
    rewrite Z.abs_mul, !(Z.abs_eq (2 ^ 1074)), (Z.abs_eq (b mod 2 ^ 52)) by lia.
    destruct (Z.testbit b 63); lia. }
  set (N := 2 ^ 52 + b mod 2 ^ 52).
  assert (0 <= N * 2 ^ (e - 1) / 2 ^ 1074 < 2 ^ 31) as Hq.
  { split; [apply Z.div_pos; nia|]. apply Z.div_lt_upper_bound; [lia|].
    rewrite <- Z.pow_add_r by lia.
    apply Z.lt_le_trans with (2 ^ 53 * 2 ^ (e - 1)); [apply Z.mul_lt_mono_pos_r; lia|].
    rewrite <- Z.pow_add_r by lia. apply Z.pow_le_mono_r; lia. }
  destruct (Z.testbit b 63); simpl;
    rewrite ?quot_neg1, ?Z.mul_1_l, Z.quot_div_nonneg by nia; lia.
Qed.

(** C29: NumberHelper::DoubleToInt at 32 bits is the integer part of the double
    taken modulo 2^32 into the int32 range, as ToInt32 of ECMAScript is, for
    every bit pattern, NaN and the infinities (which give 0) included. *)
Theorem DoubleToInt_32 (b : Z) :
  0 <= b < 2 ^ 64 -> DoubleToInt b 32 = i32 (default 0 (trunc (double_of_bits b))).
Proof.
  intros Hb. unfold DoubleToInt. rewrite shiftr_land_exp, lor_hidden, land_sign by done.
  set (e := (b / 2 ^ 52) mod 2 ^ 11).
  pose proof (Z.mod_pos_bound (b / 2 ^ 52) (2 ^ 11) ltac:(lia)) as He. fold e in He.
  pose proof (Z.mod_pos_bound b (2 ^ 52) ltac:(lia)) as Hm.
  change DOUBLE_EXPONENT_BIAS with 1023. change DOUBLE_SIGNIFICAND_SIZE with 52.
  destruct (Z.ltb_spec (e - 1023) (32 - 1)) as [Hlo|Hlo].
  { symmetry. apply i32_id. by apply trunc_small. }
  destruct (Z.ltb_spec (e - 1023) (32 + 52)) as [Hmid|Hhi].
  2: { destruct (decide (e = 2047)) as [E|E]; [|symmetry; apply DoubleToInt_high; fold e; lia].
       unfold double_of_bits. fold e. rewrite E. simpl. by destruct (_ =? 0). }
  replace (e - 1023 - 52 + 64 - 32) with (e - 1043) by lia. change (64 - 32) with 32.
  set (N := b mod 2 ^ 52 + 2 ^ 52).
  rewrite Z.shiftl_mul_pow2, Z.shiftr_div_pow2 by lia. unfold u64.
  rewrite mod_div_pow2, i32_mod, <- quot_scaled by lia.
  unfold double_of_bits. fold e. rewrite (proj2 (Z.eqb_neq e 2047)), (proj2 (Z.eqb_neq e 0)) by lia.
  rewrite (Z.add_comm (2 ^ 52)). fold N.
  destruct (Z.testbit b 63); simpl.
  - rewrite quot_neg1, i32_opp by lia. by destruct (Z.eqb_spec (i32 (Z.quot (N * 2 ^ (e - 1)) (2 ^ 1074))) INT32_MIN).
  - by rewrite Z.mul_1_l.
Qed.

(** ** The comparison functions *)

(** Interned strings are unique: the string table keeps one copy of each. *)
Definition heap_wf (heap : Heap) : Prop :=
  forall a b u, heap a = HString true u -> heap b = HString true u -> a = b.

(** What SameValue compares: a number by its IEEE value with the sign of zero
    and one NaN, a string by its code units, a BigInt by sign and digits,
    anything else by identity. *)
Inductive ident : Type :=
| KNum (d : dbl)
| KStr (u : list Z)
| KBig (s : bool) (d : list Z)
| KVal (v : JSTaggedValue).

Definition ident_of (heap : Heap) (v : JSTaggedValue) : ident :=
  match v with
  | VInt _ | VDouble _ => KNum (ExtractNumber v)
  | VObject a =>
      match heap a with
      | HString _ u => KStr u
      | HBigInt s d => KBig s d
      | HOther => KVal v
      end
  | _ => KVal v
  end.

Definition dbl_ok (d : dbl) : Prop := match d with DFin k => k <> 0 | _ => True end.

Lemma double_of_bits_ok (b : Z) : dbl_ok (double_of_bits b).
Proof.
  unfold double_of_bits. pose proof (Z.mod_pos_bound b (2 ^ 52) ltac:(lia)) as Hm.
  destruct (_ =? 2047); [by destruct (_ =? 0)|].
  destruct (Z.eqb_spec ((b / 2 ^ 52) mod 2 ^ 11) 0) as [E|E].
  - destruct (Z.eqb_spec (b mod 2 ^ 52) 0); simpl; [done|]. destruct (Z.testbit b 63); lia.
  - simpl. pose proof (Z.mod_pos_bound (b / 2 ^ 52) (2 ^ 11) ltac:(lia)).
    pose proof (Z.pow_pos_nonneg 2 ((b / 2 ^ 52) mod 2 ^ 11 - 1) ltac:(lia) ltac:(lia)).
    destruct (Z.testbit b 63); nia.
Qed.

Lemma ExtractNumber_ok (v : JSTaggedValue) : dbl_ok (ExtractNumber v).
Proof.
  destruct v; simpl; try done; [|apply double_of_bits_ok].
  unfold double_of_int. destruct (Z.eqb_spec z 0); simpl; lia.
Qed.

(** The numeric part: same IEEE value, up to the sign of zero. *)
Lemma double_eqb_spec (x y : dbl) :
  dbl_ok x -> dbl_ok y ->
  double_eqb x y = true <-> x <> DNaN /\ (x = y \/ (exists a b, x = DZero a /\ y = DZero b)).
Proof.
  unfold double_eqb. intros Hx Hy.
  split.
  - intros H. destruct x as [|[]|a|k], y as [|[]|b|k']; simpl in *; try congruence; try lia.
    all: split; [congruence|]; first [left; congruence | right; by eauto | left; f_equal; lia].
  - intros [Hn [<-|(a & b & -> & ->)]]; [|done].
    destruct x as [|[]|a|k]; simpl; congruence || lia.
Qed.

Lemma SameValueNumberic_spec (x y : JSTaggedValue) :
  SameValueNumberic x y = true <-> ExtractNumber x = ExtractNumber y.
Proof.
  unfold SameValueNumberic.
  pose proof (ExtractNumber_ok x) as Hx. pose proof (ExtractNumber_ok y) as Hy.
  pose proof (double_eqb_spec _ _ Hx Hy) as H.
  destruct (double_eqb (ExtractNumber x) (ExtractNumber y)) eqn:E; simpl.
  - destruct (proj1 H eq_refl) as [_ [->|(a & b & -> & ->)]]; simpl.
    + by rewrite eqb_reflx.
    + rewrite eqb_true_iff. split; congruence.
  - split.
    + intros [??]%andb_true_iff. by destruct (ExtractNumber x), (ExtractNumber y).
    + intros Heq. rewrite <- Heq in H |- *. destruct (ExtractNumber x); try done;
        (exfalso; assert (false = true) by (apply H; split; [congruence|by left]); done).
Qed.

Lemma BigInt_Equal_spec (x y : bool * list Z) : BigInt_Equal x y = true <-> x = y.
Proof.
  destruct x as [s d], y as [s' d']. unfold BigInt_Equal. simpl.
  destruct (Bool.eqb_spec s s') as [->|Hs]; simpl; [|split; congruence].
  destruct (Nat.eqb_spec (length d) (length d')) as [Hl|Hl]; simpl; [|split; congruence].
  rewrite forallb_forall. split; [|intros [= ->]].
  - intros H. f_equal. apply list_eq_same_length with (length d'); [done|done|].
    intros i a b _ Ha Hb. specialize (H (a, b)). simpl in H. apply Z.eqb_eq, H.
    apply list_elem_of_In. eapply list_elem_of_lookup_2. rewrite lookup_zip_with, Ha. simpl. by rewrite Hb.
  - intros [a b] Hab%list_elem_of_In%list_elem_of_lookup. destruct Hab as [i Hi].
    rewrite lookup_zip_with in Hi. destruct (d' !! i); simplify_eq/=. lia.
Qed.

Lemma StringCompare_spec (heap : Heap) (x y : JSTaggedValue) sx sy :
  heap_wf heap -> get_string heap x = Some sx -> get_string heap y = Some sy ->
  StringCompare sx sy = true <-> sx.2 = sy.2.
Proof.
  unfold get_string. intros Hwf Hx Hy.
  destruct x as [| | | | | | |a]; try done. destruct y as [| | | | | | |a']; try done.
  destruct (heap a) as [i u| |] eqn:Ha; simplify_eq.
  destruct (heap a') as [i' u'| |] eqn:Ha'; simplify_eq. simpl.
  unfold StringsAreEqual. destruct i, i'; simpl; rewrite ?bool_decide_eq_true; try done.
  rewrite Z.eqb_eq. split; [congruence|intros ->; eauto].
Qed.

Lemma get_string_ident (heap : Heap) (v : JSTaggedValue) :
  get_string heap v = None \/ exists s, get_string heap v = Some s /\ ident_of heap v = KStr s.2.
Proof. destruct v; simpl; auto. destruct (heap addr); eauto. Qed.

Lemma get_bigint_ident (heap : Heap) (v : JSTaggedValue) :
  get_bigint heap v = None \/ exists b, get_bigint heap v = Some b /\ ident_of heap v = KBig b.1 b.2.
Proof. destruct v; simpl; auto. destruct (heap addr); eauto. Qed.

Lemma ident_number (heap : Heap) (v : JSTaggedValue) :
  IsNumber v = true -> ident_of heap v = KNum (ExtractNumber v).
Proof. by destruct v. Qed.

(** A value that is neither a number, a string nor a BigInt is its own
    identity. *)
Lemma ident_other (heap : Heap) (v : JSTaggedValue) :
  IsNumber v = false -> get_string heap v = None -> get_bigint heap v = None ->
  ident_of heap v = KVal v.
Proof. destruct v; simpl; try done. by destruct (heap addr). Qed.

Lemma ident_of_inv (heap : Heap) (v : JSTaggedValue) :
  match ident_of heap v with
  | KNum d => IsNumber v = true
  | KStr u => exists s, get_string heap v = Some s /\ s.2 = u
  | KBig s d => get_bigint heap v = Some (s, d)
  | KVal w => w = v
  end.
Proof. destruct v; simpl; try done. destruct (heap addr) eqn:E; rewrite ?E; eauto. Qed.

(** The part of the three comparisons after the number tests. *)
Lemma compare_objects (heap : Heap) (x y : JSTaggedValue) :
  IsNumber x && IsNumber y = false -> x <> y ->
  forall cmp,
  (forall sx sy, get_string heap x = Some sx -> get_string heap y = Some sy ->
                 cmp sx sy = true <-> sx.2 = sy.2) ->
  match get_string heap x, get_string heap y with
  | Some sx, Some sy => cmp sx sy
  | _, _ =>
      match get_bigint heap x, get_bigint heap y with
      | Some bx, Some by_ => BigInt_Equal bx by_
      | _, _ => false
      end
  end = true <-> ident_of heap x = ident_of heap y.
Proof.
  intros Hn Hne cmp Hcmp.
  pose proof (ident_of_inv heap x) as Ix. pose proof (ident_of_inv heap y) as Iy.
  destruct x as [| | | | | | |a], y as [| | | | | | |a']; simpl in *; try done;
    try (destruct (heap a) eqn:Ea); try (destruct (heap a') eqn:Ea'); simpl in *;
    try (split; congruence).
  - rewrite Hcmp by done. simpl. split; congruence.
  - rewrite BigInt_Equal_spec. split; congruence.
Qed.

Lemma SameValue_ident (heap : Heap) (x y : JSTaggedValue) :
  heap_wf heap -> SameValue heap x y = true <-> ident_of heap x = ident_of heap y.
Proof.
  intros Hwf. unfold SameValue, word_eqb. case_bool_decide as Hxy; [subst; done|].
  destruct (IsInt x && IsInt y) eqn:Hi.
  { destruct x, y; try done. split; [done|]. simpl. unfold double_of_int. intros [= H]. exfalso. apply Hxy.
    f_equal. destruct (Z.eqb_spec z 0), (Z.eqb_spec z0 0); simplify_eq; nia. }
  destruct (IsNumber x && IsNumber y) eqn:Hn.
  { apply andb_true_iff in Hn as [Hnx Hny]. rewrite SameValueNumberic_spec, !ident_number by done.
    split; congruence. }
  apply compare_objects; [done..|]. intros sx sy Hx Hy. by eapply StringCompare_spec.
Qed.

(** SameValue is an equivalence relation on the values of a heap whose
    interned strings are unique. *)
Theorem SameValue_equivalence (heap : Heap) :
  heap_wf heap ->
  (forall x, SameValue heap x x = true) /\
  (forall x y, SameValue heap x y = true -> SameValue heap y x = true) /\
  (forall x y z, SameValue heap x y = true -> SameValue heap y z = true -> SameValue heap x z = true).
Proof.
  intros Hwf. split_and!; intros *; rewrite !SameValue_ident by done; [done|done|congruence].
Qed.

Definition IsNaN (v : JSTaggedValue) : bool :=
  match v with VDouble b => isnan (double_of_bits b) | _ => false end.

Lemma double_eqb_refl (d : dbl) : double_eqb d d = negb (isnan d).
Proof. unfold double_eqb. destruct d as [|[]|[]|k]; simpl; try done. by rewrite Z.eqb_refl. Qed.

Lemma IsNaN_number (v : JSTaggedValue) : IsNumber v = true -> IsNaN v = isnan (ExtractNumber v).
Proof. destruct v; simpl; try done. unfold double_of_int. by destruct (z =? 0). Qed.

Lemma StrictNumberEquals_spec (x y : dbl) :
  StrictNumberEquals x y = (double_eqb x y || (isnan x && isnan y)) && negb (isnan x).
Proof. unfold StrictNumberEquals, double_eqb. destruct x as [|[]|[]|k], y as [|[]|[]|k']; simpl; try done; by rewrite ?orb_false_r, ?andb_true_r. Qed.

Lemma StrictEqual_number (heap : Heap) (x y : JSTaggedValue) :
  IsNumber x = true -> IsNumber y = true ->
  StrictEqual heap x y = StrictNumberEquals (ExtractNumber x) (ExtractNumber y).
Proof.
  intros Hx Hy. destruct x as [a|w1| | | |c1| |o1], y as [b|w2| | | |c2| |o2]; try done.
  simpl. unfold double_of_int, StrictNumberEquals, double_eqb.
  destruct (Z.eqb_spec a 0), (Z.eqb_spec b 0); simpl; subst; bool_ext; lia.
Qed.

(** StrictEqual is SameValueZero except that no NaN is strictly equal to
    anything: -0 equals +0, an int equals the double of the same number, and
    strings and BigInts are compared by contents. *)
Theorem StrictEqual_SameValueZero (heap : Heap) (x y : JSTaggedValue) :
  heap_wf heap -> StrictEqual heap x y = SameValueZero heap x y && negb (IsNaN x).
Proof.
  intros Hwf. destruct (IsNumber x && IsNumber y) eqn:Hn.
  - apply andb_true_iff in Hn as [Hx Hy].
    rewrite StrictEqual_number, StrictNumberEquals_spec, IsNaN_number by done.
    unfold SameValueZero, word_eqb. rewrite Hx, Hy. simpl.
    case_bool_decide as E; [subst|done]. rewrite double_eqb_refl. by destruct (isnan _).
  - assert (StrictEqual heap x y = SameValueZero heap x y) as E.
    { unfold SameValueZero, word_eqb. rewrite Hn.
      assert (forall z w, x = VInt z -> y = VInt w -> False) as Hi by (intros; subst; done).
      transitivity (if bool_decide (x = y) then true else
        match get_string heap x, get_string heap y with
        | Some sx, Some sy => StringCompare sx sy
        | _, _ => match get_bigint heap x, get_bigint heap y with
                  | Some bx, Some by_ => BigInt_Equal bx by_ | _, _ => false end
        end).
      { destruct x, y; try done; exfalso; by eapply Hi. }
      case_bool_decide; [done|]. apply eq_bool_prop_intro. rewrite !Is_true_true.
      rewrite !compare_objects; try done.
      - intros. unfold StringsAreEqual. by rewrite bool_decide_eq_true.
      - intros. by eapply StringCompare_spec. }
    rewrite E. destruct (IsNaN x) eqn:Hnan; [|by rewrite andb_true_r].
    destruct x; try done. rewrite andb_false_r. unfold SameValueZero, word_eqb. rewrite Hn.
    rewrite bool_decide_eq_false_2; [done|]. by intros <-.
Qed.

(** The word of a negative int has its upper 32 bits set, so it is
    [0xFFFF][0xFFFF][32 bits] where the comment of js_tagged_value_internals.h
    says [0xFFFF][0x0000][32 bits]; GetInt still reads it back. *)
Theorem of_int_negative_upper (v : Z) :
  INT32_MIN <= v < 0 ->
  Z.shiftr (Raw.of_int v) 32 = 0xFFFFFFFF /\ Raw.GetInt (Raw.of_int v) = v.
Proof.
  intros Hv. assert (INT32_MIN <= v <= INT32_MAX) as Hr by (unfold INT32_MAX; lia).
  pose proof (of_int_word v Hr) as Hw. rewrite (proj2 (Z.ltb_lt v 0)) in Hw by lia.
  split.
  - rewrite Z.shiftr_div_pow2, Hw by lia. unfold INT32_MIN in Hv. zlia.
  - by apply int_word_roundtrip.
Qed.

(** ** Witnesses *)

Lemma decode_encode_witness :
  valid (VInt (-7)) /\ decode (encode (VInt (-7))) = Some (VInt (-7)).
Proof.
  assert (valid (VInt (-7))) as H by (split; vm_compute; discriminate).
  split; [exact H|]. apply (decode_encode (VInt (-7))). exact H.
Defined.

Lemma word_classes_witness : Raw.IsDouble (2 ^ 48) = true /\ Raw.IsHeapObject 0x1234567 = false /\ Raw.IsWeak 0x1001 = true.
Proof.
  split_and!.
  - apply (proj1 (proj2 (word_classes (2 ^ 48) ltac:(lia)))). lia.
  - apply not_true_is_false. intros H. apply (proj1 (proj2 (proj2 (proj2 (proj2 (word_classes 0x1234567 ltac:(lia))))))) in H. vm_compute in H. by destruct H.
  - apply (proj1 (proj2 (proj2 (proj2 (proj2 (proj2 (word_classes 0x1001 ltac:(lia)))))))). by split.
Defined.

(** 4294967301.5 = 2^32 + 5.5 goes to 5. *)
Lemma DoubleToInt_32_witness :
  0 <= 0x41F0000000580000 < 2 ^ 64 /\ DoubleToInt 0x41F0000000580000 32 = 5.
Proof.
  assert (0 <= 0x41F0000000580000 < 2 ^ 64) as H by (split; vm_compute; congruence).
  split; [exact H|]. rewrite (DoubleToInt_32 0x41F0000000580000 H). vm_compute. reflexivity.
Defined.

(** A heap with an interned string at 8, a copy of it at 16 and a BigInt at 24. *)
Definition sample_heap : Heap := fun a =>
  if a =? 8 then HString true [97; 98]
  else if a =? 16 then HString false [97; 98]
  else if a =? 24 then HBigInt false [1]
  else HOther.

Lemma sample_heap_wf : heap_wf sample_heap.
Proof.
  intros a b u. unfold sample_heap.
  destruct (Z.eqb_spec a 8), (Z.eqb_spec b 8); try congruence;
    repeat (destruct (_ =? _); try congruence).
Qed.

Lemma SameValue_equivalence_witness :
  heap_wf sample_heap /\ SameValue sample_heap (VObject 16) (VObject 8) = true.
Proof.
  split; [exact sample_heap_wf|].
  apply (proj1 (proj2 (SameValue_equivalence sample_heap sample_heap_wf))). vm_compute. reflexivity.
Defined.

Lemma StrictEqual_SameValueZero_witness :
  heap_wf sample_heap /\ StrictEqual sample_heap (VInt 0) (VDouble (2 ^ 63)) = true.
Proof.
  split; [exact sample_heap_wf|].
  rewrite (StrictEqual_SameValueZero sample_heap (VInt 0) (VDouble (2 ^ 63)) sample_heap_wf).
  vm_compute. reflexivity.
Defined.

Lemma of_int_negative_upper_witness :
  INT32_MIN <= -1 < 0 /\ Z.shiftr (Raw.of_int (-1)) 32 = 0xFFFFFFFF.
Proof.
  assert (INT32_MIN <= -1 < 0) as H by (split; vm_compute; congruence).
  split; [exact H|]. apply (of_int_negative_upper (-1) H).
Defined.
