(* ===== verification/TaggedArray.v ===== *)
(** * TaggedArray and the array copies of ObjectFactory: tagged_array-inl.h,
    object_factory.cpp.

    A TaggedArray is the list of its words; its length is the capacity of the
    container that owns it.  An access outside the array violates the ASSERT of
    Get and Set and is a [Fault].  Write barriers and the choice of the
    allocation space are not modelled: they do not change what is stored. *)
From S2P Require Import Prelude TaggedValue.
Local Open Scope Z_scope.

Notation TaggedArray := (list JSTaggedValue).

Definition read (a : TaggedArray) (idx : Z) : outcome JSTaggedValue :=
  if idx <? 0 then Fault
  else match a !! Z.to_nat idx with Some v => Ok v | None => Fault end.

Module Arr.
(** Reading an array that is not the one being written. *)
Definition GetFrom {S} (src : TaggedArray) (idx : Z) : M S JSTaggedValue :=
  fun s => (read src idx, s).

Definition Get (idx : Z) : M TaggedArray JSTaggedValue := fun a => (read a idx, a).

Definition Set_ (idx : Z) (value : JSTaggedValue) : M TaggedArray unit := fun a =>
  if (0 <=? idx) && (idx <? lenZ a) then (Ok tt, <[Z.to_nat idx := value]> a) else (Fault, a).

Definition GetLength : M TaggedArray Z := gets lenZ.

(** TaggedArray::SetLength to a smaller length cuts the array. *)
Definition SetLength (newLength : Z) : M TaggedArray unit := fun a =>
  if (0 <=? newLength) && (newLength <=? lenZ a) then (Ok tt, take (Z.to_nat newLength) a)
  else (Fault, a).

Definition MAX_ARRAY_INDEX : Z := 2 ^ 32 - 1.

Section search.
Context (heap : Heap).

Definition GetIdx (value : JSTaggedValue) : M TaggedArray Z :=
  length ← GetLength;
  r ← find_up (Z.to_nat length) 0 (fun i =>
        v ← Get i;
        mret (if SameValue heap v value then Some i else None));
  mret (default MAX_ARRAY_INDEX r).

Definition HasDuplicateEntry : M TaggedArray bool :=
  length ← GetLength;
  r ← find_up (Z.to_nat length) 0 (fun i =>
        find_up (Z.to_nat (length - (i + 1))) (i + 1) (fun j =>
          x ← Get i;
          y ← Get j;
          mret (if SameValue heap x y then Some tt else None)));
  mret (match r with Some _ => true | None => false end).
End search.

Definition Trim (newLength : Z) : M TaggedArray unit :=
  oldLength ← GetLength;
  ASSERT (newLength <? oldLength);;
  SetLength newLength.

(** One round of the loop that closes a gap, and of the loop that opens one. *)
Definition move_down (index : Z) : M TaggedArray unit :=
  v ← Get (index + 1);
  Set_ index v.

Definition move_up (index : Z) : M TaggedArray unit :=
  v ← Get (index - 1);
  Set_ index v.

(** The loop body of the containers' Insert: move the element at [i] one up. *)
Definition shift_up (i : Z) : M TaggedArray unit :=
  v ← Get i;
  Set_ (i + 1) v.

(** The loop body of RemoveByRange: move the element at [from + i] to [to + i]. *)
Definition move_block (to from i : Z) : M TaggedArray unit :=
  v ← Get (from + i);
  Set_ (to + i) v.

(** The two branches on noNeedBarrier move the same words. *)
Definition RemoveElementByIndex (index effectiveLength : Z) (noNeedBarrier : bool) : M TaggedArray unit :=
  (if noNeedBarrier
   then for_range index (u32 (effectiveLength - 1)) move_down
   else for_range index (u32 (effectiveLength - 1)) move_down);;
  Set_ (u32 (effectiveLength - 1)) VHole.

Definition InsertElementByIndex (value : JSTaggedValue) (index effectiveLength : Z) : M TaggedArray unit :=
  length ← GetLength;
  ASSERT (effectiveLength <? length);;
  for_range_down effectiveLength (if index <=? effectiveLength then index + 1 else 1) move_up;;
  Set_ index value.

Definition CopyTaggedArrayElement (srcElements : TaggedArray) (effectiveLength : Z) : M TaggedArray unit :=
  ASSERT (effectiveLength <=? lenZ srcElements);;
  length ← GetLength;
  ASSERT (effectiveLength <=? length);;
  for_range 0 effectiveLength (fun i => v ← GetFrom srcElements i; Set_ i v).
End Arr.

(** ** ObjectFactory *)

Module Factory.
Section factory.
Context {S : Type}.

Definition EmptyArray : TaggedArray := [].

(** The words of an array the allocator has not initialised. *)
Definition NewTaggedArrayWithoutInit (length : Z) : TaggedArray := replicate (Z.to_nat length) VHole.

Definition NewTaggedArray (length : Z) (initVal : JSTaggedValue) : TaggedArray :=
  if length =? 0 then EmptyArray else replicate (Z.to_nat length) initVal.

Definition NewAndCopyTaggedArray (srcElements : TaggedArray) (newLength oldLength k : Z) : M S TaggedArray :=
  ASSERT (oldLength <=? newLength);;
  if newLength =? 0 then mret (NewTaggedArrayWithoutInit newLength)
  else
    build (NewTaggedArrayWithoutInit newLength)
      (for_range 0 oldLength (fun i => v ← Arr.GetFrom srcElements (i + k); Arr.Set_ i v);;
       for_range oldLength newLength (fun i => Arr.Set_ i VHole)).

Definition ExtendArray (old : TaggedArray) (length : Z) (initVal : JSTaggedValue) : M S TaggedArray :=
  ASSERT (lenZ old <=? length);;
  build (NewTaggedArrayWithoutInit length)
    (for_range 0 (lenZ old) (fun i => v ← Arr.GetFrom old i; Arr.Set_ i v);;
     for_range (lenZ old) length (fun i => Arr.Set_ i initVal)).

Definition CopyArray (old : TaggedArray) (oldLength newLength : Z) (initVal : JSTaggedValue) : M S TaggedArray :=
  if newLength =? 0 then mret EmptyArray
  else if oldLength <? newLength then ExtendArray old newLength initVal
  else
    build (NewTaggedArrayWithoutInit newLength)
      (for_range 0 newLength (fun i => v ← Arr.GetFrom old i; Arr.Set_ i v)).

(** The loop of CopyDeque and CopyQueue: it follows the ring of [old] from
    [curIndex] to [last] and fills the new array from [newIndex] on. *)
Definition ring_step (old : TaggedArray) (last : Z) (p : Z * Z) : M TaggedArray (Z * Z + unit) :=
  let '(curIndex, newIndex) := p in
  if curIndex =? last then mret (inr tt)
  else
    value ← Arr.GetFrom old curIndex;
    Arr.Set_ newIndex value;;
    ASSERT (negb (lenZ old =? 0));;
    mret (inl (u32 (curIndex + 1) mod lenZ old, u32 (newIndex + 1))).

Definition CopyDeque (old : TaggedArray) (newLength oldLength first last : Z) : M S TaggedArray :=
  build (replicate (Z.to_nat newLength) VHole)
    (while_fuel (length old + 1)%nat (ring_step old last) (first, 0)).

Definition CopyQueue (old : TaggedArray) (newLength front tail : Z) : M S TaggedArray :=
  build (replicate (Z.to_nat newLength) VHole)
    (while_fuel (length old + 1)%nat (ring_step old tail) (front, 0)).
End factory.
End Factory.

(** ** Accesses *)

Lemma read_mid (pre post : TaggedArray) (x : JSTaggedValue) (i : Z) :
  lenZ pre = i -> read (pre ++ x :: post) i = Ok x.
Proof.
  intros <-. unfold read, lenZ. rewrite (proj2 (Z.ltb_ge _ 0)) by lia.
  by rewrite Nat2Z.id, list_lookup_middle.
Qed.

Lemma Get_mid (pre post : TaggedArray) (x : JSTaggedValue) (i : Z) :
  lenZ pre = i -> Arr.Get i (pre ++ x :: post) = (Ok x, pre ++ x :: post).
Proof. intros H. unfold Arr.Get. by rewrite (read_mid _ _ _ _ H). Qed.

Lemma GetFrom_mid {S} (pre post : TaggedArray) (x : JSTaggedValue) (i : Z) (s : S) :
  lenZ pre = i -> Arr.GetFrom (pre ++ x :: post) i s = (Ok x, s).
Proof. intros H. unfold Arr.GetFrom. by rewrite (read_mid _ _ _ _ H). Qed.

Lemma Set_mid (pre post : TaggedArray) (x v : JSTaggedValue) (i : Z) :
  lenZ pre = i -> Arr.Set_ i v (pre ++ x :: post) = (Ok tt, pre ++ v :: post).
Proof.
  intros <-. unfold Arr.Set_. autorewrite with lenz. unfold lenZ.
  rewrite (proj2 (Z.leb_le 0 _)), (proj2 (Z.ltb_lt _ _)) by lia. simpl.
  f_equal. rewrite Nat2Z.id, insert_app_r_alt by lia. by rewrite Nat.sub_diag.
Qed.

Lemma read_Fault (a : TaggedArray) (i : Z) : i < 0 \/ lenZ a <= i -> read a i = Fault.
Proof.
  unfold read, lenZ. intros H. destruct (Z.ltb_spec i 0); [done|].
  by rewrite lookup_ge_None_2 by lia.
Qed.

Lemma read_lookup (a : TaggedArray) (i : nat) (v : JSTaggedValue) :
  a !! i = Some v -> read a (Z.of_nat i) = Ok v.
Proof. intros H. unfold read. rewrite (proj2 (Z.ltb_ge _ 0)), Nat2Z.id, H by lia. done. Qed.

(** ** Loops over an array *)

(** Fill a range with one value. *)
Lemma fill_loop (pre mid post : TaggedArray) (v : JSTaggedValue) (i : Z) :
  lenZ pre = i ->
  for_up (length mid) i (fun i => Arr.Set_ i v) (pre ++ mid ++ post)
  = (Ok tt, pre ++ replicate (length mid) v ++ post).
Proof.
  revert pre i. induction mid as [|x mid IH]; intros pre i Hi; [done|].
  simpl length. rewrite <- app_comm_cons. erewrite for_up_cons by (apply Set_mid; done).
  specialize (IH (pre ++ [v]) (i + 1)). rewrite <- !(assoc_L (++)) in IH. simpl in IH.
  rewrite IH by lenz. simpl. done.
Qed.

(** Copy a block of another array. *)
Lemma copy_loop (spre mid spost pre junk post : TaggedArray) (i k : Z) :
  lenZ pre = i -> lenZ spre = i + k -> length junk = length mid ->
  for_up (length mid) i (fun i => v ← Arr.GetFrom (spre ++ mid ++ spost) (i + k); Arr.Set_ i v)
    (pre ++ junk ++ post)
  = (Ok tt, pre ++ mid ++ post).
Proof.
  revert spre pre junk i. induction mid as [|x mid IH]; intros spre pre junk i Hi Hk Hj.
  { by destruct junk. }
  destruct junk as [|y junk]; [done|]. simpl length. rewrite <- !app_comm_cons.
  erewrite for_up_cons.
  2: { erewrite bind_Ok by (by apply GetFrom_mid). by apply Set_mid. }
  specialize (IH (spre ++ [x]) (pre ++ [x]) junk (i + 1)).
  rewrite <- !(assoc_L (++)) in IH. simpl in IH. rewrite IH; [done|lenz..|]. simpl in Hj. lia.
Qed.

Lemma copy_loop0 (mid spost pre junk post : TaggedArray) :
  lenZ pre = 0 -> length junk = length mid ->
  for_up (length mid) 0 (fun i => v ← Arr.GetFrom (mid ++ spost) i; Arr.Set_ i v) (pre ++ junk ++ post)
  = (Ok tt, pre ++ mid ++ post).
Proof.
  intros Hp Hj. rewrite <- (copy_loop [] mid spost pre junk post 0 0) by (done || lenz).
  apply for_up_ext. intros j t. by rewrite Z.add_0_r.
Qed.

(** Close a gap of one: RemoveElementByIndex. *)
Lemma move_down_loop (pre mid post : TaggedArray) (x : JSTaggedValue) (i : Z) :
  lenZ pre = i ->
  exists y, for_up (length mid) i Arr.move_down (pre ++ x :: mid ++ post)
            = (Ok tt, pre ++ mid ++ y :: post).
Proof.
  revert pre x i. induction mid as [|m mid IH]; intros pre x i Hi.
  { by exists x. }
  destruct (IH (pre ++ [m]) m (i + 1)) as [y Hy]; [lenz|]. exists y.
  simpl length. rewrite <- !app_comm_cons. erewrite for_up_cons.
  2: { unfold Arr.move_down. erewrite bind_Ok.
       2: { pose proof (Get_mid (pre ++ [x]) (mid ++ post) m (i + 1)) as G.
            rewrite <- !(assoc_L (++)) in G. apply G. lenz. }
       apply Set_mid. done. }
  rewrite <- !(assoc_L (++)) in Hy. exact Hy.
Qed.

Lemma RemoveElementByIndex_run (pre mid post : TaggedArray) (x : JSTaggedValue) (index effectiveLength : Z) (nb : bool) :
  lenZ pre = index -> lenZ pre + 1 + lenZ mid = effectiveLength -> effectiveLength < 2 ^ 32 ->
  Arr.RemoveElementByIndex index effectiveLength nb (pre ++ x :: mid ++ post)
  = (Ok tt, pre ++ mid ++ VHole :: post).
Proof.
  intros Hi He Hb. unfold Arr.RemoveElementByIndex, for_range.
  assert (u32 (effectiveLength - 1) = effectiveLength - 1) as ->.
  { unfold u32. rewrite Z.mod_small; [done|]. pose proof (lenZ_nonneg pre). pose proof (lenZ_nonneg mid). lia. }
  replace (Z.to_nat (effectiveLength - 1 - index)) with (length mid) by lenz.
  destruct (move_down_loop pre mid post x index Hi) as [y Hy].
  erewrite bind_Ok by (destruct nb; exact Hy). rewrite (assoc_L (++)), Set_mid by lenz.
  by rewrite <- (assoc_L (++)).
Qed.

(** Open a gap of one: the loops of Insert and InsertElementByIndex. *)
Lemma move_up_loop (pre mid post : TaggedArray) (y : JSTaggedValue) (i : Z) :
  lenZ pre + lenZ mid = i ->
  exists z, for_down (length mid) i Arr.move_up (pre ++ mid ++ y :: post)
            = (Ok tt, pre ++ z :: mid ++ post).
Proof.
  revert y post i. induction mid as [|m mid IH] using rev_ind; intros y post i Hi.
  { by exists y. }
  destruct (IH m (m :: post) (i - 1)) as [z Hz]; [lenz|]. exists z.
  rewrite length_app, <- !(assoc_L (++)). simpl. rewrite Nat.add_1_r. erewrite for_down_cons.
  2: { unfold Arr.move_up. erewrite bind_Ok.
       2: { pose proof (Get_mid (pre ++ mid) (y :: post) m (i - 1)) as G.
            rewrite <- !(assoc_L (++)) in G. apply G. lenz. }
       pose proof (Set_mid (pre ++ mid ++ [m]) post y m i) as G.
       rewrite <- !(assoc_L (++)) in G. apply G. lenz. }
  exact Hz.
Qed.

Lemma shift_up_move_up (n : nat) (i : Z) (a : TaggedArray) :
  for_down n i Arr.shift_up a = for_down n (i + 1) Arr.move_up a.
Proof.
  revert i a. induction n as [|n IH]; intros i a; [done|]. simpl.
  unfold Arr.shift_up, Arr.move_up. rewrite Z.add_simpl_r. mcbn.
  destruct (Arr.Get i a) as [[]?]; try done. destruct (Arr.Set_ _ _ _) as [[]?]; try done.
  rewrite IH. f_equal. lia.
Qed.

(** The whole of an insertion: open the gap at [index], then fill it. *)
Lemma insert_gap_run (pre mid post : TaggedArray) (y v : JSTaggedValue) (index : Z) (len : Z) :
  lenZ pre = index -> lenZ pre + lenZ mid = len ->
  (for_range_down (len - 1) index Arr.shift_up;; Arr.Set_ index v) (pre ++ mid ++ y :: post)
  = (Ok tt, pre ++ v :: mid ++ post).
Proof.
  intros Hi Hl. unfold for_range_down.
  replace (Z.to_nat (len - 1 - index + 1)) with (length mid) by lenz.
  destruct (move_up_loop pre mid post y len Hl) as [z Hz].
  erewrite bind_Ok. 2: { rewrite shift_up_move_up, Z.sub_add. exact Hz. }
  by apply Set_mid.
Qed.

Lemma InsertElementByIndex_run (pre mid post : TaggedArray) (y v : JSTaggedValue) (index len : Z) :
  lenZ pre = index -> lenZ pre + lenZ mid = len ->
  Arr.InsertElementByIndex v index len (pre ++ mid ++ y :: post) = (Ok tt, pre ++ v :: mid ++ post).
Proof.
  intros Hi Hl. pose proof (lenZ_nonneg mid) as Hm.
  unfold Arr.InsertElementByIndex, Arr.GetLength, for_range_down.
  erewrite bind_Ok by reflexivity. autorewrite with lenz.
  pose proof (lenZ_nonneg post). rewrite (proj2 (Z.ltb_lt _ _)) by lia.
  rewrite (proj2 (Z.leb_le index len)) by lia.
  erewrite bind_Ok by reflexivity.
  replace (Z.to_nat (len - (index + 1) + 1)) with (length mid) by lenz.
  destruct (move_up_loop pre mid post y len Hl) as [z Hz].
  erewrite bind_Ok by exact Hz. by apply Set_mid.
Qed.

(** Moving a block down over the elements before it. *)
Lemma move_block_loop (pre mid tail post : TaggedArray) (to from i : Z) :
  lenZ pre = to + i -> lenZ mid = from - to -> 0 < lenZ mid ->
  exists junk, length junk = length mid /\
    for_up (length tail) i (Arr.move_block to from) (pre ++ mid ++ tail ++ post)
    = (Ok tt, pre ++ tail ++ junk ++ post).
Proof.
  revert pre mid i. induction tail as [|t tail IH]; intros pre mid i Hp Hm Hpos.
  { by exists mid. }
  destruct mid as [|m mid]; [lenz|].
  destruct (IH (pre ++ [t]) (mid ++ [t]) (i + 1)) as (junk & Hj & Hrun); [lenz..|].
  exists junk. split; [lenz|]. simpl length. erewrite for_up_cons.
  2: { unfold Arr.move_block. erewrite bind_Ok.
       2: { pose proof (Get_mid (pre ++ m :: mid) (tail ++ post) t (from + i)) as G.
            rewrite <- !(assoc_L (++)) in G. apply G. lenz. }
       apply Set_mid. done. }
  rewrite <- !(assoc_L (++)) in Hrun. exact Hrun.
Qed.

(** ** Searches *)

Lemma find_up_run (p : JSTaggedValue -> bool) (pre mid post : TaggedArray) (i : Z) :
  lenZ pre = i ->
  find_up (length mid) i (fun i => v ← Arr.Get i; mret (if p v then Some i else None)) (pre ++ mid ++ post)
  = (Ok ((fun j => i + j) <$> find_index p mid), pre ++ mid ++ post).
Proof.
  revert pre i. induction mid as [|x mid IH]; intros pre i Hi; [done|].
  simpl length. rewrite <- app_comm_cons. simpl. erewrite bind_Ok.
  2: { erewrite bind_Ok by (by apply Get_mid). reflexivity. }
  destruct (p x); simpl; [by rewrite Z.add_0_r|].
  specialize (IH (pre ++ [x]) (i + 1)). rewrite <- !(assoc_L (++)) in IH. simpl in IH.
  rewrite IH by lenz. destruct (find_index p mid); simpl; [|done]. do 3 f_equal. lia.
Qed.

Lemma find_down_run (p : JSTaggedValue -> bool) (mid post : TaggedArray) (i : Z) :
  lenZ mid = i + 1 ->
  find_down (length mid) i (fun i => v ← Arr.Get i; mret (if p v then Some i else None)) (mid ++ post)
  = (Ok (find_last_index p mid), mid ++ post).
Proof.
  revert post i. induction mid as [|x mid IH] using rev_ind; intros post i Hi; [done|].
  rewrite length_app, <- (assoc_L (++)). simpl. rewrite Nat.add_1_r. simpl. erewrite bind_Ok.
  2: { erewrite bind_Ok by (apply Get_mid; lenz). reflexivity. }
  rewrite find_last_index_snoc. destruct (p x); simpl; [by replace (lenZ mid) with i by lenz|].
  rewrite IH by lenz. done.
Qed.

(** ** Copies *)

Lemma NewAndCopyTaggedArray_run {S} (spre mid spost : TaggedArray) (newLength oldLength k : Z) (s : S) :
  lenZ spre = k -> lenZ mid = oldLength -> oldLength <= newLength ->
  Factory.NewAndCopyTaggedArray (spre ++ mid ++ spost) newLength oldLength k s
  = (Ok (mid ++ replicate (Z.to_nat (newLength - oldLength)) VHole), s).
Proof.
  intros Hk Hm Hle. pose proof (lenZ_nonneg mid).
  unfold Factory.NewAndCopyTaggedArray. rewrite (proj2 (Z.leb_le _ _) Hle).
  erewrite bind_Ok by reflexivity.
  destruct (Z.eqb_spec newLength 0) as [E|E].
  { mcbn. rewrite (lenZ_zero mid), E by lia. replace oldLength with 0 by lia. done. }
  apply build_run. unfold Factory.NewTaggedArrayWithoutInit, for_range.
  replace (Z.to_nat newLength) with (length mid + Z.to_nat (newLength - oldLength))%nat by lenz.
  rewrite replicate_add.
  replace (Z.to_nat (oldLength - 0)) with (length mid) by lenz.
  erewrite bind_Ok.
  2: { pose proof (copy_loop spre mid spost [] (replicate (length mid) VHole)
                     (replicate (Z.to_nat (newLength - oldLength)) VHole) 0 k) as C.
       apply C; [done|lia|by rewrite length_replicate]. }
  simpl app.
  pose proof (fill_loop mid (replicate (Z.to_nat (newLength - oldLength)) VHole) [] VHole oldLength Hm) as F.
  rewrite app_nil_r, !length_replicate, app_nil_r in F. exact F.
Qed.

Lemma ExtendArray_run {S} (old : TaggedArray) (length : Z) (v : JSTaggedValue) (s : S) :
  lenZ old <= length ->
  Factory.ExtendArray old length v s = (Ok (old ++ replicate (Z.to_nat (length - lenZ old)) v), s).
Proof.
  intros Hle. pose proof (lenZ_nonneg old).
  unfold Factory.ExtendArray. rewrite (proj2 (Z.leb_le _ _) Hle).
  erewrite bind_Ok by reflexivity. apply build_run.
  unfold Factory.NewTaggedArrayWithoutInit, for_range.
  replace (Z.to_nat length) with (List.length old + Z.to_nat (length - lenZ old))%nat by lenz.
  rewrite replicate_add. replace (Z.to_nat (lenZ old - 0)) with (List.length old) by lenz.
  erewrite bind_Ok.
  2: { pose proof (copy_loop0 old [] [] (replicate (List.length old) VHole)
                     (replicate (Z.to_nat (length - lenZ old)) VHole)) as C.
       rewrite app_nil_r in C. apply C; [done|by rewrite length_replicate]. }
  simpl app.
  pose proof (fill_loop old (replicate (Z.to_nat (length - lenZ old)) VHole) [] v (lenZ old) eq_refl) as F.
  rewrite app_nil_r, !length_replicate, app_nil_r in F. exact F.
Qed.

Lemma CopyArray_grow {S} (old : TaggedArray) (newLength : Z) (v : JSTaggedValue) (s : S) :
  lenZ old < newLength ->
  Factory.CopyArray old (lenZ old) newLength v s
  = (Ok (old ++ replicate (Z.to_nat (newLength - lenZ old)) v), s).
Proof.
  intros Hlt. pose proof (lenZ_nonneg old). unfold Factory.CopyArray.
  rewrite (proj2 (Z.eqb_neq _ _)), (proj2 (Z.ltb_lt _ _) Hlt) by lia. apply ExtendArray_run. lia.
Qed.

Lemma CopyArray_shrink {S} (pre post : TaggedArray) (newLength : Z) (v : JSTaggedValue) (s : S) :
  lenZ pre = newLength ->
  Factory.CopyArray (pre ++ post) (lenZ (pre ++ post)) newLength v s = (Ok pre, s).
Proof.
  intros Hl. unfold Factory.CopyArray.
  destruct (Z.eqb_spec newLength 0) as [E|E].
  { by rewrite (lenZ_zero pre) by lia. }
  rewrite (proj2 (Z.ltb_ge _ _)) by lenz. apply build_run.
  unfold for_range, Factory.NewTaggedArrayWithoutInit. rewrite Z.sub_0_r.
  replace (Z.to_nat newLength) with (length pre) by lenz.
  pose proof (copy_loop0 pre post [] (replicate (length pre) VHole) []) as C.
  rewrite !app_nil_r in C. apply C; [done|by rewrite length_replicate].
Qed.

(** ** Arrays that several objects share

    Such arrays live in a store and are named by their position in it. *)
Notation Store := (list TaggedArray).

(** Run a computation on one array of the store. *)
Definition on_table {A} (t : Z) (m : M TaggedArray A) : M Store A := fun st =>
  match st !! Z.to_nat t with
  | Some a => let '(r, a') := m a in (r, <[Z.to_nat t := a']> st)
  | None => (Fault, st)
  end.

(** Allocate: the new array is the last of the store. *)
Definition new_array (a : TaggedArray) : M Store Z := fun st => (Ok (lenZ st), st ++ [a]).

Lemma on_table_run {A} (st : Store) (t : Z) (a a' : TaggedArray) (m : M TaggedArray A) (r : A) :
  st !! Z.to_nat t = Some a -> m a = (Ok r, a') -> on_table t m st = (Ok r, <[Z.to_nat t := a']> st).
Proof. intros Ht Hm. unfold on_table. by rewrite Ht, Hm. Qed.

Lemma on_table_read {A} (st : Store) (t : Z) (a : TaggedArray) (m : M TaggedArray A) (r : A) :
  st !! Z.to_nat t = Some a -> m a = (Ok r, a) -> on_table t m st = (Ok r, st).
Proof. intros Ht Hm. rewrite (on_table_run st t a a m r Ht Hm). by rewrite list_insert_id. Qed.
