(* ===== verification/Ring.v ===== *)
(** * The ring buffer JSAPIDeque and JSAPIQueue keep in a TaggedArray.

    [ring a first l] says that the array [a] holds the list [l] in the slots
    first, first + 1, ... modulo its length, and [ring_end] is the slot after
    the last one.  The lemmas are what the two containers need of a ring: the
    effect of a write behind the last element or before the first one, of
    dropping an element at either end, and of the copy into a larger array. *)
From S2P Require Import Prelude TaggedValue TaggedArray.
Local Open Scope Z_scope.

Definition ring (a : TaggedArray) (first : Z) (l : list JSTaggedValue) : Prop :=
  0 <= first < lenZ a /\ lenZ l <= lenZ a /\
  forall (j : nat) x, l !! j = Some x -> read a ((first + Z.of_nat j) mod lenZ a) = Ok x.

Definition ring_end (a : TaggedArray) (first : Z) (l : list JSTaggedValue) : Z :=
  (first + lenZ l) mod lenZ a.

Lemma ring_slot (f j c : Z) :
  0 <= f < c -> 0 <= j <= c -> (f + j) mod c = if f + j <? c then f + j else f + j - c.
Proof.
  intros Hf Hj. destruct (Z.ltb_spec (f + j) c); [by rewrite Z.mod_small by lia|].
  symmetry. apply Z.mod_unique with 1; lia.
Qed.

Lemma ring_slot_inj (f i j c : Z) :
  0 <= f < c -> 0 <= i < c -> 0 <= j < c -> (f + i) mod c = (f + j) mod c -> i = j.
Proof.
  intros Hf Hi Hj. rewrite !ring_slot by lia.
  destruct (Z.ltb_spec (f + i) c), (Z.ltb_spec (f + j) c); lia.
Qed.

(** The number of elements the two ends leave between them. *)
Lemma ring_size (a : TaggedArray) (first : Z) (l : list JSTaggedValue) :
  ring a first l -> lenZ l < lenZ a ->
  (ring_end a first l - first + lenZ a) mod lenZ a = lenZ l.
Proof.
  intros (Hf & Hl & _) Hlt. pose proof (lenZ_nonneg l). unfold ring_end.
  rewrite (ring_slot first (lenZ l)) by lia.
  destruct (Z.ltb_spec (first + lenZ l) (lenZ a)).
  - symmetry. apply Z.mod_unique with 1; lia.
  - rewrite Z.mod_small; lia.
Qed.

Lemma ring_empty_iff (a : TaggedArray) (first : Z) (l : list JSTaggedValue) :
  ring a first l -> lenZ l < lenZ a -> first = ring_end a first l <-> l = [].
Proof.
  intros (Hf & Hl & _) Hlt. pose proof (lenZ_nonneg l). unfold ring_end. rewrite ring_slot by lia.
  split.
  - intros E. apply lenZ_zero. destruct (Z.ltb_spec (first + lenZ l) (lenZ a)); lia.
  - intros ->. autorewrite with lenz in *. rewrite (proj2 (Z.ltb_lt _ _)); lia.
Qed.

Lemma ring_nil (a : TaggedArray) (first : Z) : 0 <= first < lenZ a -> ring a first [].
Proof. intros Hf. split_and!; [lia..|autorewrite with lenz; lia|]. intros j x. by rewrite lookup_nil. Qed.

(** Reads *)
Lemma ring_read (a : TaggedArray) (first : Z) (l : list JSTaggedValue) (i : Z) (x : JSTaggedValue) :
  ring a first l -> 0 <= i -> l !! Z.to_nat i = Some x -> read a ((first + i) mod lenZ a) = Ok x.
Proof. intros (_ & _ & H) Hi Hx. specialize (H _ _ Hx). by rewrite Z2Nat.id in H by lia. Qed.

(** A write at a slot of the array. *)
Lemma Set_run (a : TaggedArray) (i : Z) (v : JSTaggedValue) :
  0 <= i < lenZ a -> Arr.Set_ i v a = (Ok tt, <[Z.to_nat i := v]> a).
Proof. intros Hi. unfold Arr.Set_. by rewrite (proj2 (Z.leb_le _ _)), (proj2 (Z.ltb_lt _ _)) by lia. Qed.

Lemma lenZ_insert (a : TaggedArray) (i : nat) (v : JSTaggedValue) : lenZ (<[i := v]> a) = lenZ a.
Proof. unfold lenZ. by rewrite length_insert. Qed.

Lemma read_insert_eq (a : TaggedArray) (i : Z) (v : JSTaggedValue) :
  0 <= i < lenZ a -> read (<[Z.to_nat i := v]> a) i = Ok v.
Proof.
  unfold lenZ, read. intros Hi. rewrite (proj2 (Z.ltb_ge _ _)) by lia.
  by rewrite list_lookup_insert_eq by lia.
Qed.

Lemma read_insert_ne (a : TaggedArray) (i j : Z) (v : JSTaggedValue) :
  0 <= i -> 0 <= j -> i <> j -> read (<[Z.to_nat i := v]> a) j = read a j.
Proof.
  intros Hi Hj Hne. unfold read. rewrite (proj2 (Z.ltb_ge _ _)) by lia.
  by rewrite list_lookup_insert_ne by lia.
Qed.

Lemma ring_snoc (a : TaggedArray) (first : Z) (l : list JSTaggedValue) (v : JSTaggedValue) :
  ring a first l -> lenZ l < lenZ a ->
  ring (<[Z.to_nat (ring_end a first l) := v]> a) first (l ++ [v]).
Proof.
  intros (Hf & Hl & Hr) Hlt. pose proof (lenZ_nonneg l).
  pose proof (Z.mod_pos_bound (first + lenZ l) (lenZ a) ltac:(lia)) as He.
  unfold ring. rewrite lenZ_insert. split_and!; [lia..|autorewrite with lenz; lia|].
  intros j x [Hj|[Hj E]]%lookup_app_Some.
  - pose proof (lookup_lt_Some _ _ _ Hj).
    pose proof (Z.mod_pos_bound (first + Z.of_nat j) (lenZ a) ltac:(lia)).
    rewrite read_insert_ne; [by apply Hr|unfold ring_end; lia|lia|].
    intros E%ring_slot_inj; unfold lenZ in *; lia.
  - apply list_lookup_singleton_Some in E as [E <-].
    replace (Z.of_nat j) with (lenZ l) by (unfold lenZ; lia).
    apply read_insert_eq. unfold ring_end. lia.
Qed.

Lemma ring_end_snoc (a : TaggedArray) (first : Z) (l : list JSTaggedValue) (i : nat) (v : JSTaggedValue) :
  ring a first l -> (ring_end a first l + 1) mod lenZ a = ring_end (<[i := v]> a) first (l ++ [v]).
Proof.
  intros (Hf & Hl & _). unfold ring_end. rewrite lenZ_insert. autorewrite with lenz.
  rewrite Z.add_mod_idemp_l by lia. f_equal. lia.
Qed.

Definition ring_prev (a : TaggedArray) (first : Z) : Z := (first + lenZ a - 1) mod lenZ a.

Lemma ring_prev_slot (a : TaggedArray) (first : Z) :
  0 <= first < lenZ a -> ring_prev a first = if first =? 0 then lenZ a - 1 else first - 1.
Proof.
  intros Hf. unfold ring_prev. destruct (Z.eqb_spec first 0) as [->|Hn].
  - rewrite Z.mod_small; lia.
  - symmetry. apply Z.mod_unique with 1; lia.
Qed.

Lemma ring_prev_shift (a : TaggedArray) (first j : Z) :
  0 <= first < lenZ a -> (ring_prev a first + (1 + j)) mod lenZ a = (first + j) mod lenZ a.
Proof.
  intros Hf. unfold ring_prev. rewrite Z.add_mod_idemp_l by lia.
  replace (first + lenZ a - 1 + (1 + j)) with (first + j + 1 * lenZ a) by lia.
  by rewrite Z.mod_add by lia.
Qed.

Lemma ring_cons (a : TaggedArray) (first : Z) (l : list JSTaggedValue) (v : JSTaggedValue) :
  ring a first l -> lenZ l < lenZ a ->
  ring (<[Z.to_nat (ring_prev a first) := v]> a) (ring_prev a first) (v :: l).
Proof.
  intros (Hf & Hl & Hr) Hlt. pose proof (lenZ_nonneg l).
  pose proof (Z.mod_pos_bound (first + lenZ a - 1) (lenZ a) ltac:(lia)) as Hp. fold (ring_prev a first) in Hp.
  unfold ring. rewrite lenZ_insert. split_and!; [lia..|autorewrite with lenz; lia|].
  intros [|j] x Hj; simpl in Hj.
  - simplify_eq. rewrite Z.add_0_r, Z.mod_small by lia. by apply read_insert_eq.
  - pose proof (lookup_lt_Some _ _ _ Hj).
    replace (Z.of_nat (S j)) with (1 + Z.of_nat j) by lia. rewrite ring_prev_shift by lia.
    pose proof (Z.mod_pos_bound (first + Z.of_nat j) (lenZ a) ltac:(lia)).
    rewrite read_insert_ne; [by apply Hr|lia..|].
    rewrite <- ring_prev_shift by lia.
    rewrite <- (Z.mod_small (ring_prev a first) (lenZ a)) at 1 by lia.
    rewrite <- (Z.add_0_r (ring_prev a first)) at 1.
    intros E%ring_slot_inj; unfold lenZ in *; lia.
Qed.

Lemma ring_end_cons (a : TaggedArray) (first : Z) (l : list JSTaggedValue) (i : nat) (v : JSTaggedValue) :
  ring a first l -> ring_end (<[i := v]> a) (ring_prev a first) (v :: l) = ring_end a first l.
Proof.
  intros (Hf & Hl & _). unfold ring_end. rewrite lenZ_insert. autorewrite with lenz.
  rewrite (Z.add_comm (lenZ l)). by apply ring_prev_shift.
Qed.

(** Dropping an element at either end *)
Lemma ring_tail (a : TaggedArray) (first : Z) (x : JSTaggedValue) (l : list JSTaggedValue) :
  ring a first (x :: l) ->
  ring a ((first + 1) mod lenZ a) l /\ ring_end a ((first + 1) mod lenZ a) l = ring_end a first (x :: l).
Proof.
  intros (Hf & Hl & Hr). autorewrite with lenz in *.
  pose proof (Z.mod_pos_bound (first + 1) (lenZ a) ltac:(lia)).
  split; [split_and!; [lia..|]|].
  - intros j y Hj. rewrite Z.add_mod_idemp_l by lia.
    replace (first + 1 + Z.of_nat j) with (first + Z.of_nat (S j)) by lia. by apply Hr.
  - unfold ring_end. autorewrite with lenz. rewrite Z.add_mod_idemp_l by lia. f_equal. lia.
Qed.

Lemma ring_init (a : TaggedArray) (first : Z) (x : JSTaggedValue) (l : list JSTaggedValue) :
  ring a first (l ++ [x]) ->
  ring a first l /\ ring_prev a (ring_end a first (l ++ [x])) = ring_end a first l.
Proof.
  intros (Hf & Hl & Hr). autorewrite with lenz in *. pose proof (lenZ_nonneg l).
  split; [split_and!; [lia..|]|].
  - intros j y Hj. apply Hr. by apply lookup_app_l_Some.
  - unfold ring_prev, ring_end. autorewrite with lenz.
    replace ((first + (lenZ l + (0 + 1))) mod lenZ a + lenZ a - 1)
      with ((first + (lenZ l + (0 + 1))) mod lenZ a + (lenZ a - 1)) by lia.
    rewrite Z.add_mod_idemp_l by lia.
    replace (first + (lenZ l + (0 + 1)) + (lenZ a - 1)) with (first + lenZ l + 1 * lenZ a) by lia.
    by rewrite Z.mod_add by lia.
Qed.

(** ** The copy into a larger array *)

Lemma ring_copy_loop (old done_ junk : TaggedArray) (rest : list JSTaggedValue) (cur last : Z) (fuel : nat) :
  ring old cur rest -> ring_end old cur rest = last -> lenZ rest < lenZ old -> lenZ old < 2 ^ 32 ->
  lenZ rest <= lenZ junk -> lenZ done_ + lenZ junk < 2 ^ 32 -> (length rest < fuel)%nat ->
  while_fuel fuel (Factory.ring_step old last) (cur, lenZ done_) (done_ ++ junk)
  = (Ok tt, done_ ++ rest ++ drop (length rest) junk).
Proof.
  revert done_ junk cur fuel.
  induction rest as [|x rest IH]; intros done_ junk cur fuel Hr He Hlt Hb Hj Hb2 Hf;
    (destruct fuel as [|fuel]; [simpl in Hf; lia|]); simpl while_fuel.
  { assert (cur = last) as ->.
    { rewrite <- He. by apply (ring_empty_iff old cur []). }
    erewrite bind_Ok. 2: { simpl. by rewrite Z.eqb_refl. } done. }
  destruct junk as [|j junk]; [lenz|].
  assert (cur <> last) as Hne.
  { rewrite <- He. intros E. by apply (ring_empty_iff old cur) in E. }
  destruct (ring_tail _ _ _ _ Hr) as [Hr' He'].
  assert (read old cur = Ok x) as Hx.
  { rewrite <- (Z.mod_small cur (lenZ old)) by apply Hr. rewrite <- (Z.add_0_r cur) at 1.
    by apply (ring_read _ _ _ 0 x Hr). }
  erewrite bind_Ok.
  2: { simpl. rewrite (proj2 (Z.eqb_neq _ _) Hne).
       erewrite bind_Ok by (unfold Arr.GetFrom; by rewrite Hx).
       erewrite bind_Ok by (by apply Set_mid).
       rewrite (proj2 (Z.eqb_neq _ _)) by lenz. erewrite bind_Ok by reflexivity. reflexivity. }
  destruct Hr as [Hc _].
  unfold u32. rewrite (Z.mod_small (cur + 1)), (Z.mod_small (lenZ done_ + 1)) by lenz.
  specialize (IH (done_ ++ [x]) junk ((cur + 1) mod lenZ old) fuel).
  rewrite <- !(assoc_L (++)) in IH. simpl in IH. autorewrite with lenz in *.
  change (lenZ done_ + (0 + 1)) with (lenZ done_ + 1) in IH. rewrite IH; [done|done|congruence|lia..|lenz].
Qed.

Lemma copy_ring_run {S} (old : TaggedArray) (l : list JSTaggedValue) (newLength first last : Z) (s : S) :
  ring old first l -> ring_end old first l = last -> lenZ l < lenZ old -> lenZ old < 2 ^ 32 ->
  lenZ l <= newLength < 2 ^ 32 ->
  build (replicate (Z.to_nat newLength) VHole)
    (while_fuel (length old + 1)%nat (Factory.ring_step old last) (first, 0)) s
  = (Ok (l ++ replicate (Z.to_nat (newLength - lenZ l)) VHole), s).
Proof.
  intros Hr He Hlt Hb Hn. apply build_run. pose proof (lenZ_nonneg l).
  pose proof (ring_copy_loop old [] (replicate (Z.to_nat newLength) VHole) l first last (length old + 1)) as Hrun.
  simpl in Hrun. change (lenZ []) with 0 in Hrun. rewrite Hrun; [|done|done|done|done|lenz..].
  do 2 f_equal. rewrite drop_replicate. f_equal. lenz.
Qed.

(** The copied array holds the same list from slot 0 on. *)
Lemma ring_fresh (l : list JSTaggedValue) (n : nat) (v : JSTaggedValue) :
  (0 < n)%nat ->
  ring (l ++ replicate n v) 0 l /\ ring_end (l ++ replicate n v) 0 l = lenZ l.
Proof.
  intros Hn. pose proof (lenZ_nonneg l). split.
  - split_and!; [lenz..|]. intros j x Hj. pose proof (lookup_lt_Some _ _ _ Hj).
    rewrite Z.add_0_l, Z.mod_small by lenz. apply read_lookup. by apply lookup_app_l_Some.
  - unfold ring_end. rewrite Z.add_0_l, Z.mod_small; lenz.
Qed.

(** The ring is full when the slot before the first is the end. *)
Lemma ring_full_iff (a : TaggedArray) (first : Z) (l : list JSTaggedValue) :
  ring a first l -> lenZ l < lenZ a -> ring_prev a first = ring_end a first l <-> lenZ l = lenZ a - 1.
Proof.
  intros (Hf & _ & _) Hl. pose proof (lenZ_nonneg l). rewrite ring_prev_slot by lia. unfold ring_end.
  rewrite ring_slot by lia. destruct (Z.eqb_spec first 0), (Z.ltb_spec (first + lenZ l) (lenZ a)); lia.
Qed.

Lemma ring_next_full_iff (a : TaggedArray) (first : Z) (l : list JSTaggedValue) :
  ring a first l -> lenZ l < lenZ a ->
  first = (ring_end a first l + 1) mod lenZ a <-> lenZ l = lenZ a - 1.
Proof.
  intros (Hf & _ & _) Hl. pose proof (lenZ_nonneg l). unfold ring_end.
  rewrite Z.add_mod_idemp_l by lia. rewrite <- Z.add_assoc, ring_slot by lia.
  destruct (Z.ltb_spec (first + (lenZ l + 1)) (lenZ a)); lia.
Qed.

Lemma ring_update (a : TaggedArray) (first : Z) (l : list JSTaggedValue) (i : Z) (v : JSTaggedValue) :
  ring a first l -> 0 <= i < lenZ l ->
  ring (<[Z.to_nat ((first + i) mod lenZ a) := v]> a) first (<[Z.to_nat i := v]> l) /\
  ring_end (<[Z.to_nat ((first + i) mod lenZ a) := v]> a) first (<[Z.to_nat i := v]> l)
  = ring_end a first l.
Proof.
  intros (Hf & Hl & Hr) Hi. unfold ring, ring_end. rewrite !lenZ_insert.
  pose proof (Z.mod_pos_bound (first + i) (lenZ a) ltac:(lia)).
  split_and!; [lia..| |done]. intros j x Hj.
  destruct (decide (Z.to_nat i = j)) as [<-|Hne].
  - rewrite list_lookup_insert_eq in Hj by (unfold lenZ in *; lia). simplify_eq.
    rewrite Z2Nat.id by lia. by apply read_insert_eq.
  - rewrite list_lookup_insert_ne in Hj by done. pose proof (lookup_lt_Some _ _ _ Hj).
    pose proof (Z.mod_pos_bound (first + Z.of_nat j) (lenZ a) ltac:(lia)).
    rewrite read_insert_ne; [by apply Hr|lia..|].
    intros E%ring_slot_inj; unfold lenZ in *; lia.
Qed.

(** The position in the list of a slot, and a write at a slot. *)
Lemma ring_slot_position (f s c : Z) :
  0 <= f < c -> 0 <= s < c -> (f + (s - f) mod c) mod c = s.
Proof.
  intros Hf Hs. rewrite Z.add_mod_idemp_r by lia. replace (f + (s - f)) with s by lia.
  apply Z.mod_small. lia.
Qed.

Lemma ring_write_slot (a : TaggedArray) (first : Z) (l : list JSTaggedValue) (s : Z) (v : JSTaggedValue) :
  ring a first l -> 0 <= s < lenZ a ->
  let pos := (s - first) mod lenZ a in
  let l' := if pos <? lenZ l then <[Z.to_nat pos := v]> l else l in
  ring (<[Z.to_nat s := v]> a) first l' /\ ring_end (<[Z.to_nat s := v]> a) first l' = ring_end a first l.
Proof.
  intros Hr Hs pos l'. pose proof (proj1 Hr) as Hf.
  pose proof (Z.mod_pos_bound (s - first) (lenZ a) ltac:(lia)) as Hp. fold pos in Hp.
  pose proof (ring_slot_position first s (lenZ a) Hf Hs) as Hslot. fold pos in Hslot.
  unfold l'. destruct (Z.ltb_spec pos (lenZ l)).
  - rewrite <- Hslot. apply ring_update; [done|lia].
  - destruct Hr as (_ & Hl & Hr). unfold ring, ring_end. rewrite !lenZ_insert.
    split_and!; [lia..| |done]. intros j x Hj. pose proof (lookup_lt_Some _ _ _ Hj).
    pose proof (Z.mod_pos_bound (first + Z.of_nat j) (lenZ a) ltac:(lia)).
    rewrite read_insert_ne; [by apply Hr|lia..|].
    rewrite <- Hslot. intros E%ring_slot_inj; unfold lenZ in *; lia.
Qed.

(** The offset of a slot from the first one. *)
Lemma ring_offset (f i c : Z) :
  0 <= f < c -> 0 <= i < c -> ((f + i) mod c + c - f) mod c = i.
Proof.
  intros Hf Hi. rewrite (ring_slot f i c) by lia.
  destruct (Z.ltb_spec (f + i) c).
  - symmetry. apply Z.mod_unique with 1; lia.
  - rewrite Z.mod_small; lia.
Qed.

(** A walk over the ring that stops at the end or at the first element a test
    accepts: the loops of Has. *)
Section search.
Context {S : Type} (elems : S -> TaggedArray) (p : JSTaggedValue -> bool).
Context (step : Z -> Z -> Z -> M S (Z + bool)).
Context (step_end : forall last cap s, step last cap last s = (Ok (inr false), s)).
Context (step_hit : forall last cap i x s,
  i <> last -> read (elems s) i = Ok x -> p x = true -> step last cap i s = (Ok (inr true), s)).
Context (step_miss : forall last cap i x s,
  i <> last -> 0 <= i < cap -> cap < 2 ^ 32 -> read (elems s) i = Ok x -> p x = false ->
  step last cap i s = (Ok (inl ((i + 1) mod cap)), s)).

Lemma ring_search (s : S) (l : list JSTaggedValue) (f : Z) (fuel : nat) :
  ring (elems s) f l -> lenZ l < lenZ (elems s) -> lenZ (elems s) < 2 ^ 32 -> (length l < fuel)%nat ->
  while_fuel fuel (step (ring_end (elems s) f l) (lenZ (elems s))) f s = (Ok (existsb p l), s).
Proof.
  revert f fuel. induction l as [|x l IH]; intros f fuel Hr Hl Hb Hf;
    (destruct fuel as [|fuel]; [simpl in Hf; lia|]); simpl while_fuel.
  { assert (ring_end (elems s) f [] = f) as -> by (symmetry; by apply ring_empty_iff).
    erewrite bind_Ok by apply step_end. done. }
  assert (f <> ring_end (elems s) f (x :: l)) as Hne.
  { intros E. by apply ring_empty_iff in E. }
  destruct (ring_tail _ _ _ _ Hr) as [Hr' He'].
  assert (read (elems s) f = Ok x) as Hx.
  { rewrite <- (Z.mod_small f (lenZ (elems s))) by apply Hr. rewrite <- (Z.add_0_r f) at 1.
    by apply (ring_read _ _ _ 0 x Hr). }
  destruct (p x) eqn:Hp; simpl existsb; rewrite Hp.
  - erewrite bind_Ok by (by eapply step_hit). done.
  - erewrite bind_Ok by (eapply step_miss; try done; apply Hr).
    rewrite <- He'. autorewrite with lenz in Hl. apply IH; [done|lia|done|simpl in Hf; lia].
Qed.
End search.
