(* ===== verification/Deque.v ===== *)
(** * JSAPIDeque: js_api_deque.cpp, js_api_deque.h, js_api_deque_iterator.cpp.

    The deque is a ring in its elements array between the slots First and
    Last; one slot always stays free, so First = Last is the empty deque.  The
    abstract state is the list of its values ([repr]), and the sequence of
    operations refines list operations ([deque_refines_list]). *)
From S2P Require Import Prelude TaggedValue TaggedArray Ring.
Local Open Scope Z_scope.

Module Deque.

Record JSAPIDeque : Type := mkDeque {
  elements : TaggedArray;
  first : Z;
  last : Z;
}.

Definition set_elements (a : TaggedArray) (d : JSAPIDeque) : JSAPIDeque :=
  mkDeque a (first d) (last d).
Definition set_first (i : Z) (d : JSAPIDeque) : JSAPIDeque := mkDeque (elements d) i (last d).
Definition set_last (i : Z) (d : JSAPIDeque) : JSAPIDeque := mkDeque (elements d) (first d) i.

(** Operations on the elements array of the deque. *)
Definition on_elements {A} (m : M TaggedArray A) : M JSAPIDeque A := zoom elements set_elements m.

Definition DEFAULT_CAPACITY_LENGTH : Z := 8.

Definition ComputeCapacity (oldCapacity : Z) : Z :=
  let newCapacity := u32 (Z.shiftl oldCapacity 1) in
  if DEFAULT_CAPACITY_LENGTH <? newCapacity then newCapacity else DEFAULT_CAPACITY_LENGTH.

(** ContainersDeque::DequeConstructor gives a new deque its array. *)
Definition NewDeque : JSAPIDeque :=
  mkDeque (Factory.NewTaggedArray DEFAULT_CAPACITY_LENGTH VHole) 0 0.

Definition GetSize : M JSAPIDeque Z :=
  d ← get;
  let capacity := lenZ (elements d) in
  ASSERT (negb (capacity =? 0));;
  mret (u32 (last d - first d + capacity) mod capacity).

Definition GrowCapacity (oldCapacity first last : Z) : M JSAPIDeque TaggedArray :=
  oldElements ← gets elements;
  let newCapacity := ComputeCapacity oldCapacity in
  size ← GetSize;
  newElements ← Factory.CopyDeque oldElements newCapacity size first last;
  modify (set_elements newElements);;
  mret newElements.

Definition InsertFront (value : JSTaggedValue) : M JSAPIDeque unit :=
  d ← get;
  let capacity := lenZ (elements d) in
  ASSERT (negb (capacity =? 0));;
  first' ← (if u32 (first d + capacity - 1) mod capacity =? last d then
              GrowCapacity capacity (first d) (last d);;
              modify (set_last (u32 (capacity - 1)));;
              mret 0
            else mret (first d));
  capacity ← gets (fun d => lenZ (elements d));
  ASSERT (negb (capacity =? 0));;
  let first'' := u32 (first' + capacity - 1) mod capacity in
  on_elements (Arr.Set_ first'' value);;
  modify (set_first first'').

Definition InsertEnd (value : JSTaggedValue) : M JSAPIDeque unit :=
  d ← get;
  let capacity := lenZ (elements d) in
  ASSERT (negb (capacity =? 0));;
  last' ← (if first d =? u32 (last d + 1) mod capacity then
             GrowCapacity capacity (first d) (last d);;
             modify (set_first 0);;
             mret (u32 (capacity - 1))
           else mret (last d));
  on_elements (Arr.Set_ last' value);;
  capacity ← gets (fun d => lenZ (elements d));
  ASSERT (negb (capacity =? 0));;
  modify (set_last (u32 (last' + 1) mod capacity)).

Definition IsEmpty : M JSAPIDeque bool := d ← get; mret (first d =? last d).

Definition GetFront : M JSAPIDeque JSTaggedValue :=
  e ← IsEmpty;
  if (e : bool) then mret VUndefined
  else d ← get; on_elements (Arr.Get (first d)).

Definition GetTail : M JSAPIDeque JSTaggedValue :=
  e ← IsEmpty;
  if (e : bool) then mret VUndefined
  else
    d ← get;
    let capacity := lenZ (elements d) in
    ASSERT (negb (capacity =? 0));;
    on_elements (Arr.Get (u32 (last d + capacity - 1) mod capacity)).

Definition PopFirst : M JSAPIDeque JSTaggedValue :=
  e ← IsEmpty;
  if (e : bool) then mret VUndefined
  else
    d ← get;
    let capacity := lenZ (elements d) in
    firstElement ← on_elements (Arr.Get (first d));
    ASSERT (negb (capacity =? 0));;
    modify (set_first (u32 (first d + 1) mod capacity));;
    mret firstElement.

Definition PopLast : M JSAPIDeque JSTaggedValue :=
  e ← IsEmpty;
  if (e : bool) then mret VUndefined
  else
    d ← get;
    let capacity := lenZ (elements d) in
    ASSERT (negb (capacity =? 0));;
    let last' := u32 (last d + capacity - 1) mod capacity in
    lastElement ← on_elements (Arr.Get last');
    modify (set_last last');;
    mret lastElement.

Definition Get (index : Z) : M JSAPIDeque JSTaggedValue :=
  size ← GetSize;
  ASSERT (index <? size);;
  d ← get;
  let capacity := lenZ (elements d) in
  ASSERT (negb (capacity =? 0));;
  on_elements (Arr.Get (u32 (first d + index) mod capacity)).

Definition Set_ (index : Z) (value : JSTaggedValue) : M JSAPIDeque JSTaggedValue :=
  size ← GetSize;
  ASSERT (index <? size);;
  d ← get;
  let capacity := lenZ (elements d) in
  ASSERT (negb (capacity =? 0));;
  on_elements (Arr.Set_ (u32 (first d + index) mod capacity) value);;
  mret VUndefined.

Section with_heap.
Context (heap : Heap).

Definition has_step (value : JSTaggedValue) (last capacity : Z) (index : Z) : M JSAPIDeque (Z + bool) :=
  if index =? last then mret (inr false)
  else
    v ← on_elements (Arr.Get index);
    if SameValue heap v value then mret (inr true)
    else
      ASSERT (negb (capacity =? 0));;
      mret (inl (u32 (index + 1) mod capacity)).

Definition Has (value : JSTaggedValue) : M JSAPIDeque bool :=
  d ← get;
  while_fuel (length (elements d) + 1)%nat (has_step value (last d) (lenZ (elements d))) (first d).
End with_heap.

(** OwnKeys and OwnEnumKeys rebuild the ring in an array of twice the capacity
    before they list the keys; the listing (JSObject::GetOwnPropertyKeys) is an
    argument. *)
Definition OwnKeys {K} (GetOwnPropertyKeys : JSAPIDeque -> K) : M JSAPIDeque K :=
  length ← GetSize;
  d ← get;
  let oldCapacity := lenZ (elements d) in
  let newCapacity := ComputeCapacity oldCapacity in
  newElements ← Factory.CopyDeque (elements d) newCapacity length (first d) (last d);
  modify (set_first 0);;
  modify (set_last length);;
  modify (set_elements newElements);;
  gets GetOwnPropertyKeys.

Definition OwnEnumKeys {K} (GetOwnEnumPropertyKeys : JSAPIDeque -> K) : M JSAPIDeque K :=
  length ← GetSize;
  d ← get;
  let oldCapacity := lenZ (elements d) in
  let newCapacity := ComputeCapacity oldCapacity in
  newElements ← Factory.CopyDeque (elements d) newCapacity length (first d) (last d);
  modify (set_first 0);;
  modify (set_last length);;
  modify (set_elements newElements);;
  gets GetOwnEnumPropertyKeys.

(** The key is the result of JSTaggedValue::ToElementIndex. *)
Definition GetOwnProperty (key : option Z) : M JSAPIDeque bool :=
  match key with
  | None => throw TYPE_ERROR
  | Some index =>
      length ← GetSize;
      if length <=? index then throw RANGE_ERROR
      else Get index;; mret true
  end.

Definition GetProperty (index : Z) : M JSAPIDeque JSTaggedValue :=
  length ← GetSize;
  if (index <? 0) || (i32 length <=? index) then throw RANGE_ERROR
  else Get index.

Definition SetProperty (index : Z) (value : JSTaggedValue) : M JSAPIDeque bool :=
  length ← GetSize;
  if (index <? 0) || (i32 length <=? index) then mret false
  else Set_ index value;; mret true.

(** The iterator keeps the deque (or undefined once it is exhausted) and the
    slot of the next element. *)
(** ObjectFactory::NewJSAPIDequeIterator. *)
Definition NewJSAPIDequeIterator (d : JSAPIDeque) : index_iterator := mkIter true (first d).

Definition Next (iter : index_iterator) : M JSAPIDeque (option JSTaggedValue * index_iterator) :=
  if negb (iterated iter) then mret (None, iter)
  else
    d ← get;
    let index := nextIndex iter in
    let capacity := lenZ (elements d) in
    if index =? last d then mret (None, mkIter false index)
    else
      ASSERT (negb (capacity =? 0));;
      let iter' := mkIter true (u32 (index + 1) mod capacity) in
      value ← Get (u32 (index + capacity - first d) mod capacity);
      mret (Some value, iter').

(** ** The abstract state *)

(** One slot stays free; the bound keeps the sums of two slots below 2^32. *)
Definition repr (d : JSAPIDeque) (l : list JSTaggedValue) : Prop :=
  ring (elements d) (first d) l /\ last d = ring_end (elements d) (first d) l /\
  lenZ l < lenZ (elements d) /\ lenZ (elements d) <= 2 ^ 31.
(** ** What each operation does *)

Lemma deque_repr_bounds (d : JSAPIDeque) (l : list JSTaggedValue) :
  repr d l ->
  0 <= first d < lenZ (elements d) /\ 0 <= last d < lenZ (elements d) /\
  0 <= lenZ l < lenZ (elements d) /\ lenZ (elements d) <= 2 ^ 31.
Proof.
  intros ((Hf & _) & -> & Hl & Hb). pose proof (lenZ_nonneg l). split_and!; try lia.
  all: apply Z.mod_pos_bound; lia.
Qed.

Lemma NewDeque_repr : repr NewDeque [].
Proof. split_and!; [apply ring_nil|..]; vm_compute; try done; split; done. Qed.

Lemma deque_GetSize_run (d : JSAPIDeque) (l : list JSTaggedValue) :
  repr d l -> GetSize d = (Ok (lenZ l), d).
Proof.
  intros Hr. pose proof (deque_repr_bounds d l Hr) as (? & ? & ? & ?). destruct Hr as (Hr & He & Hl & Hb).
  unfold GetSize. mcbn. rewrite (proj2 (Z.eqb_neq _ _)) by lia. mcbn.
  rewrite u32_small by lia. rewrite He. by rewrite ring_size.
Qed.

Lemma deque_IsEmpty_run (d : JSAPIDeque) (l : list JSTaggedValue) :
  repr d l -> IsEmpty d = (Ok (bool_decide (l = [])), d).
Proof.
  intros (Hr & He & Hl & _). unfold IsEmpty. mcbn. do 2 f_equal.
  apply eq_bool_prop_intro. rewrite !Is_true_true, Z.eqb_eq, bool_decide_eq_true, He.
  by apply ring_empty_iff.
Qed.

Lemma deque_ComputeCapacity_double (c : Z) :
  1 <= c < 2 ^ 31 -> c < ComputeCapacity c /\ ComputeCapacity c <= Z.max 8 (2 * c).
Proof.
  intros Hc. unfold ComputeCapacity, DEFAULT_CAPACITY_LENGTH. rewrite Z.shiftl_mul_pow2 by lia.
  rewrite u32_small by lia. destruct (Z.ltb_spec 8 (c * 2 ^ 1)); lia.
Qed.

Lemma deque_GrowCapacity_run (d : JSAPIDeque) (l : list JSTaggedValue) :
  repr d l -> lenZ (elements d) < 2 ^ 31 ->
  let newElements :=
    l ++ replicate (Z.to_nat (ComputeCapacity (lenZ (elements d)) - lenZ l)) VHole in
  GrowCapacity (lenZ (elements d)) (first d) (last d) d = (Ok newElements, set_elements newElements d).
Proof.
  intros Hr Hb newElements. pose proof (deque_repr_bounds d l Hr) as (? & ? & ? & ?).
  pose proof (deque_ComputeCapacity_double (lenZ (elements d)) ltac:(lia)).
  unfold GrowCapacity. erewrite bind_Ok by reflexivity. erewrite bind_Ok by (by apply deque_GetSize_run).
  destruct Hr as (Hr & He & Hl & _).
  erewrite bind_Ok. 2: { apply copy_ring_run with (l := l); try done; lia. }
  reflexivity.
Qed.

(** The grown array: the list from slot 0 on, with room behind it. *)
Lemma deque_grown_ring (c : Z) (l : list JSTaggedValue) :
  1 <= c < 2 ^ 31 -> lenZ l < c ->
  let e := l ++ replicate (Z.to_nat (ComputeCapacity c - lenZ l)) VHole in
  lenZ e = ComputeCapacity c /\ ring e 0 l /\ ring_end e 0 l = lenZ l.
Proof.
  intros Hc Hl e. pose proof (deque_ComputeCapacity_double c Hc).
  destruct (ring_fresh l (Z.to_nat (ComputeCapacity c - lenZ l)) VHole ltac:(lia)) as [Hring Hend].
  split_and!; [|done|done]. unfold e. lenz.
Qed.

Lemma deque_place_front (e : TaggedArray) (f lst : Z) (l : list JSTaggedValue) (v : JSTaggedValue) :
  ring e f l -> lst = ring_end e f l -> lenZ l + 1 < lenZ e -> lenZ e <= 2 ^ 31 ->
  repr (mkDeque (<[Z.to_nat (ring_prev e f) := v]> e) (ring_prev e f) lst) (v :: l).
Proof.
  intros Hr -> Hl Hb. split_and!; simpl.
  - apply ring_cons; [done|lia].
  - symmetry. by apply ring_end_cons.
  - rewrite lenZ_insert. autorewrite with lenz. lia.
  - by rewrite lenZ_insert.
Qed.

Lemma deque_place_end (e : TaggedArray) (f : Z) (l : list JSTaggedValue) (v : JSTaggedValue) :
  ring e f l -> lenZ l + 1 < lenZ e -> lenZ e <= 2 ^ 31 ->
  repr (mkDeque (<[Z.to_nat (ring_end e f l) := v]> e) f ((ring_end e f l + 1) mod lenZ e)) (l ++ [v]).
Proof.
  intros Hr Hl Hb. split_and!; simpl.
  - apply ring_snoc; [done|lia].
  - by apply ring_end_snoc.
  - rewrite lenZ_insert. autorewrite with lenz. lia.
  - by rewrite lenZ_insert.
Qed.

Lemma deque_InsertFront_run (d : JSAPIDeque) (l : list JSTaggedValue) (value : JSTaggedValue) :
  repr d l -> lenZ (elements d) <= 2 ^ 30 ->
  exists d', InsertFront value d = (Ok tt, d') /\ repr d' (value :: l) /\
    lenZ (elements d') <= Z.max (lenZ (elements d)) (Z.max 8 (2 * (lenZ l + 1))).
Proof.
  intros Hr Hb. pose proof (deque_repr_bounds d l Hr) as (? & ? & ? & ?).
  pose proof (deque_ComputeCapacity_double (lenZ (elements d)) ltac:(lia)) as Hcap.
  unfold InsertFront. erewrite bind_Ok by reflexivity. cbv zeta.
  rewrite (proj2 (Z.eqb_neq (lenZ (elements d)) 0)) by lia. erewrite bind_Ok by reflexivity.
  rewrite u32_small by lia. fold (ring_prev (elements d) (first d)).
  destruct (Z.eqb_spec (ring_prev (elements d) (first d)) (last d)) as [Hfull|Hroom].
  - rewrite (proj1 (proj2 Hr)) in Hfull. apply ring_full_iff in Hfull; [|apply Hr|lia].
    destruct (deque_grown_ring (lenZ (elements d)) l ltac:(lia) ltac:(lia)) as (Hle & Hring & Hend).
    set (e := l ++ replicate _ VHole) in *.
    erewrite bind_Ok. 2: { erewrite bind_Ok by (apply deque_GrowCapacity_run; [done|lia]). reflexivity. }
    erewrite bind_Ok by reflexivity. simpl elements. fold e.
    rewrite (proj2 (Z.eqb_neq (lenZ e) 0)) by lia. erewrite bind_Ok by reflexivity.
    rewrite !u32_small by lia. fold (ring_prev e 0).
    assert (0 <= ring_prev e 0 < lenZ e) as Hp by (rewrite ring_prev_slot; [simpl; lia|lia]).
    erewrite bind_Ok by (apply zoom_run; by apply Set_run). eexists. split; [reflexivity|].
    unfold set_first, set_elements, set_last. simpl. rewrite lenZ_insert, Hle. split; [|lia].
    apply deque_place_front; [done|lia..].
  - erewrite bind_Ok by reflexivity. erewrite bind_Ok by reflexivity.
    rewrite (proj2 (Z.eqb_neq (lenZ (elements d)) 0)) by lia. erewrite bind_Ok by reflexivity.
    rewrite u32_small by lia. fold (ring_prev (elements d) (first d)).
    assert (0 <= ring_prev (elements d) (first d) < lenZ (elements d)) as Hp.
    { rewrite ring_prev_slot by lia. destruct (_ =? 0) eqn:?; lia. }
    erewrite bind_Ok by (apply zoom_run; by apply Set_run). eexists. split; [reflexivity|].
    unfold set_first, set_elements. simpl. rewrite lenZ_insert. split; [|lia].
    destruct Hr as (Hr & He & Hl & Hb').
    apply deque_place_front; [done|done| |lia].
    destruct (decide (lenZ l = lenZ (elements d) - 1)) as [E|]; [|lia].
    apply (ring_full_iff _ _ _ Hr Hl) in E. congruence.
Qed.

Lemma deque_InsertEnd_run (d : JSAPIDeque) (l : list JSTaggedValue) (value : JSTaggedValue) :
  repr d l -> lenZ (elements d) <= 2 ^ 30 ->
  exists d', InsertEnd value d = (Ok tt, d') /\ repr d' (l ++ [value]) /\
    lenZ (elements d') <= Z.max (lenZ (elements d)) (Z.max 8 (2 * (lenZ l + 1))).
Proof.
  intros Hr Hb. pose proof (deque_repr_bounds d l Hr) as (? & ? & ? & ?).
  pose proof (deque_ComputeCapacity_double (lenZ (elements d)) ltac:(lia)) as Hcap.
  unfold InsertEnd. erewrite bind_Ok by reflexivity. cbv zeta.
  rewrite (proj2 (Z.eqb_neq (lenZ (elements d)) 0)) by lia. erewrite bind_Ok by reflexivity.
  rewrite (u32_small (last d + 1)) by lia.
  destruct (Z.eqb_spec (first d) ((last d + 1) mod lenZ (elements d))) as [Hfull|Hroom].
  - rewrite (proj1 (proj2 Hr)) in Hfull. apply ring_next_full_iff in Hfull; [|apply Hr|lia].
    destruct (deque_grown_ring (lenZ (elements d)) l ltac:(lia) ltac:(lia)) as (Hle & Hring & Hend).
    set (e := l ++ replicate _ VHole) in *.
    erewrite bind_Ok. 2: { erewrite bind_Ok by (apply deque_GrowCapacity_run; [done|lia]). reflexivity. }
    fold e. rewrite (u32_small (lenZ (elements d) - 1)) by lia.
    replace (lenZ (elements d) - 1) with (ring_end e 0 l) by lia.
    erewrite bind_Ok. 2: { apply zoom_run. simpl. apply Set_run. lia. }
    erewrite bind_Ok by reflexivity. simpl elements. rewrite lenZ_insert.
    rewrite (proj2 (Z.eqb_neq (lenZ e) 0)) by lia. erewrite bind_Ok by reflexivity.
    eexists. split; [reflexivity|]. rewrite u32_small by lia.
    unfold set_first, set_elements, set_last. simpl. rewrite lenZ_insert, Hle. split; [|lia].
    rewrite <- Hle. apply deque_place_end; [done|lia..].
  - erewrite bind_Ok by reflexivity.
    erewrite bind_Ok. 2: { apply zoom_run. simpl. apply Set_run. lia. }
    erewrite bind_Ok by reflexivity. simpl elements. rewrite lenZ_insert.
    rewrite (proj2 (Z.eqb_neq (lenZ (elements d)) 0)) by lia. erewrite bind_Ok by reflexivity.
    eexists. split; [reflexivity|]. rewrite u32_small by lia.
    unfold set_first, set_elements, set_last. simpl. rewrite lenZ_insert. split; [|lia].
    destruct Hr as (Hr & He & Hl & Hb'). rewrite He in *. apply deque_place_end; [done| |lia].
    destruct (decide (lenZ l = lenZ (elements d) - 1)) as [E|]; [|lia].
    apply (ring_next_full_iff _ _ _ Hr Hl) in E. congruence.
Qed.

(** The element at an index of the list, in the slot the code computes. *)
Lemma deque_elements_read (d : JSAPIDeque) (l : list JSTaggedValue) (i : Z) (x : JSTaggedValue) :
  repr d l -> 0 <= i -> l !! Z.to_nat i = Some x ->
  on_elements (Arr.Get (u32 (first d + i) mod lenZ (elements d))) d = (Ok x, d).
Proof.
  intros Hr Hi Hx. pose proof (deque_repr_bounds d l Hr) as (? & ? & ? & ?).
  pose proof (lookup_lt_Some _ _ _ Hx).
  rewrite u32_small by (unfold lenZ in *; lia).
  unfold on_elements. erewrite zoom_run by (unfold Arr.Get; by rewrite (ring_read _ _ _ _ _ (proj1 Hr) Hi Hx)).
  by destruct d.
Qed.

Lemma deque_first_read (d : JSAPIDeque) (x : JSTaggedValue) (l : list JSTaggedValue) :
  repr d (x :: l) -> on_elements (Arr.Get (first d)) d = (Ok x, d).
Proof.
  intros Hr. pose proof (deque_repr_bounds _ _ Hr) as (? & ? & ? & ?).
  pose proof (deque_elements_read d (x :: l) 0 x Hr ltac:(lia) eq_refl) as H3.
  rewrite Z.add_0_r, u32_small, Z.mod_small in H3 by lia. exact H3.
Qed.

Lemma deque_last_read (d : JSAPIDeque) (x : JSTaggedValue) (l : list JSTaggedValue) :
  repr d (l ++ [x]) ->
  on_elements (Arr.Get (u32 (last d + lenZ (elements d) - 1) mod lenZ (elements d))) d = (Ok x, d).
Proof.
  intros Hr. pose proof (deque_repr_bounds _ _ Hr) as (? & ? & ? & ?).
  rewrite u32_small by lia. fold (ring_prev (elements d) (last d)).
  pose proof (deque_elements_read d (l ++ [x]) (lenZ l) x Hr (lenZ_nonneg l)) as Hread.
  destruct Hr as (Hr & He & _). destruct (ring_init _ _ _ _ Hr) as [_ Hp]. rewrite He, Hp.
  autorewrite with lenz in *. pose proof (lenZ_nonneg l). rewrite u32_small in Hread by lia.
  apply Hread. unfold lenZ. rewrite Nat2Z.id. by apply list_lookup_middle.
Qed.

Lemma deque_GetFront_run (d : JSAPIDeque) (l : list JSTaggedValue) :
  repr d l -> GetFront d = (Ok (default VUndefined (head l)), d).
Proof.
  intros Hr. unfold GetFront. erewrite bind_Ok by (by apply deque_IsEmpty_run).
  destruct l as [|x l]; [done|]. rewrite bool_decide_eq_false_2 by done.
  erewrite bind_Ok by reflexivity. by apply deque_first_read with l.
Qed.

Lemma deque_GetTail_run (d : JSAPIDeque) (l : list JSTaggedValue) :
  repr d l -> GetTail d = (Ok (default VUndefined (list.last l)), d).
Proof.
  intros Hr. pose proof (deque_repr_bounds _ _ Hr) as (? & ? & ? & ?).
  unfold GetTail. erewrite bind_Ok by (by apply deque_IsEmpty_run).
  destruct l as [|x l _] using rev_ind; [done|].
  rewrite bool_decide_eq_false_2 by (by intros [_ ?]%app_nil). erewrite bind_Ok by reflexivity.
  rewrite (proj2 (Z.eqb_neq (lenZ (elements d)) 0)) by lia. erewrite bind_Ok by reflexivity.
  rewrite last_snoc. by apply deque_last_read with l.
Qed.

Lemma deque_PopFirst_run (d : JSAPIDeque) (l : list JSTaggedValue) :
  repr d l ->
  exists d', PopFirst d = (Ok (default VUndefined (head l)), d') /\ repr d' (tail l) /\
    elements d' = elements d.
Proof.
  intros Hr. pose proof (deque_repr_bounds _ _ Hr) as (? & ? & ? & ?).
  unfold PopFirst. erewrite bind_Ok by (by apply deque_IsEmpty_run).
  destruct l as [|x l]; [by exists d|]. rewrite bool_decide_eq_false_2 by done.
  erewrite bind_Ok by reflexivity. erewrite bind_Ok by (by apply deque_first_read with l).
  rewrite (proj2 (Z.eqb_neq (lenZ (elements d)) 0)) by lia. erewrite bind_Ok by reflexivity.
  eexists. split; [reflexivity|]. rewrite u32_small by lia.
  destruct Hr as (Hr & He & Hl & Hb). destruct (ring_tail _ _ _ _ Hr) as [Hr' He'].
  split; [|done]. simpl. autorewrite with lenz in *. split_and!; simpl; [done|congruence|lia|lia].
Qed.

Lemma deque_PopLast_run (d : JSAPIDeque) (l : list JSTaggedValue) :
  repr d l ->
  exists d', PopLast d = (Ok (default VUndefined (list.last l)), d') /\ repr d' (removelast l) /\
    elements d' = elements d.
Proof.
  intros Hr. pose proof (deque_repr_bounds _ _ Hr) as (? & ? & ? & ?).
  unfold PopLast. erewrite bind_Ok by (by apply deque_IsEmpty_run).
  destruct l as [|x l _] using rev_ind; [by exists d|].
  rewrite bool_decide_eq_false_2 by (by intros [_ ?]%app_nil). erewrite bind_Ok by reflexivity.
  rewrite (proj2 (Z.eqb_neq (lenZ (elements d)) 0)) by lia. erewrite bind_Ok by reflexivity.
  erewrite bind_Ok by (by apply deque_last_read with l).
  rewrite last_snoc, removelast_last. eexists. split; [reflexivity|]. split; [|done].
  destruct Hr as (Hr & He & Hl & Hb). destruct (ring_init _ _ _ _ Hr) as [Hr' He'].
  rewrite u32_small by lia. fold (ring_prev (elements d) (last d)).
  autorewrite with lenz in *. split_and!; simpl; [done|congruence|lia|lia].
Qed.

Lemma deque_Get_run (d : JSAPIDeque) (l : list JSTaggedValue) (i : Z) (x : JSTaggedValue) :
  repr d l -> 0 <= i -> l !! Z.to_nat i = Some x -> Get i d = (Ok x, d).
Proof.
  intros Hr Hi Hx. pose proof (deque_repr_bounds _ _ Hr) as (? & ? & ? & ?).
  pose proof (lookup_lt_Some _ _ _ Hx).
  unfold Get. erewrite bind_Ok by (by apply deque_GetSize_run).
  rewrite (proj2 (Z.ltb_lt i (lenZ l))) by (unfold lenZ; lia). erewrite bind_Ok by reflexivity.
  erewrite bind_Ok by reflexivity.
  rewrite (proj2 (Z.eqb_neq (lenZ (elements d)) 0)) by lia. erewrite bind_Ok by reflexivity.
  by apply deque_elements_read with l.
Qed.

Lemma deque_Set_run (d : JSAPIDeque) (l : list JSTaggedValue) (i : Z) (v : JSTaggedValue) :
  repr d l -> 0 <= i < lenZ l ->
  exists d', Set_ i v d = (Ok VUndefined, d') /\ repr d' (<[Z.to_nat i := v]> l) /\
    lenZ (elements d') = lenZ (elements d).
Proof.
  intros Hr Hi. pose proof (deque_repr_bounds _ _ Hr) as (? & ? & ? & ?).
  unfold Set_. erewrite bind_Ok by (by apply deque_GetSize_run).
  rewrite (proj2 (Z.ltb_lt i (lenZ l))) by lia. erewrite bind_Ok by reflexivity.
  erewrite bind_Ok by reflexivity.
  rewrite (proj2 (Z.eqb_neq (lenZ (elements d)) 0)) by lia. erewrite bind_Ok by reflexivity.
  rewrite u32_small by lia.
  erewrite bind_Ok. 2: { apply zoom_run. apply Ring.Set_run, Z.mod_pos_bound. lia. }
  eexists. split; [reflexivity|]. unfold set_elements. simpl. rewrite lenZ_insert. split; [|done].
  destruct Hr as (Hr & He & Hl & Hb). destruct (ring_update _ _ _ i v Hr Hi) as [Hr' He'].
  split_and!; simpl; [done|congruence| |]; rewrite !lenZ_insert; lia.
Qed.

Lemma deque_Has_run (heap : Heap) (d : JSAPIDeque) (l : list JSTaggedValue) (v : JSTaggedValue) :
  repr d l -> Has heap v d = (Ok (existsb (fun x => SameValue heap x v) l), d).
Proof.
  intros Hr. pose proof (deque_repr_bounds _ _ Hr) as (? & ? & ? & ?).
  unfold Has. erewrite bind_Ok by reflexivity. destruct Hr as (Hr & -> & Hl & _).
  apply (ring_search elements (fun x => SameValue heap x v) (has_step heap v)); [| | |done|done|lia|lenz].
  - intros lst cap s. unfold has_step. by rewrite Z.eqb_refl.
  - intros lst cap i x s Hne Hx Hp. unfold has_step. rewrite (proj2 (Z.eqb_neq i lst)) by done.
    erewrite bind_Ok. 2: { apply zoom_run. unfold Arr.Get. by rewrite Hx. }
    rewrite Hp. by destruct s.
  - intros lst cap i x s Hne Hi Hc Hx Hp. unfold has_step. rewrite (proj2 (Z.eqb_neq i lst)) by done.
    erewrite bind_Ok. 2: { apply zoom_run. unfold Arr.Get. by rewrite Hx. }
    rewrite Hp, (proj2 (Z.eqb_neq cap 0)) by lia. erewrite bind_Ok by reflexivity.
    rewrite u32_small by lia. by destruct s.
Qed.

(** An index outside the deque is rejected and leaves it alone, and an
    index inside it reads the element at that position. *)
Theorem deque_GetProperty_spec (d : JSAPIDeque) (l : list JSTaggedValue) (i : Z) :
  repr d l ->
  GetProperty i d =
    (match (if i <? 0 then None else l !! Z.to_nat i) with
     | Some x => Ok x
     | None => Throw RANGE_ERROR
     end, d).
Proof.
  intros Hr. pose proof (deque_repr_bounds _ _ Hr) as (? & ? & ? & ?).
  unfold GetProperty. erewrite bind_Ok by (by apply deque_GetSize_run). rewrite i32_id by lia.
  destruct (Z.ltb_spec i 0); simpl; [done|].
  destruct (Z.leb_spec (lenZ l) i).
  - by rewrite lookup_ge_None_2 by (unfold lenZ in *; lia).
  - destruct (lookup_lt_is_Some_2 l (Z.to_nat i)) as [x Hx]; [unfold lenZ in *; lia|].
    rewrite Hx. by apply deque_Get_run with l.
Qed.

Lemma deque_SetProperty_run (d : JSAPIDeque) (l : list JSTaggedValue) (i : Z) (v : JSTaggedValue) :
  repr d l ->
  let inside := (0 <=? i) && (i <? lenZ l) in
  exists d', SetProperty i v d = (Ok inside, d') /\
    repr d' (if inside then <[Z.to_nat i := v]> l else l) /\ lenZ (elements d') = lenZ (elements d).
Proof.
  intros Hr inside. pose proof (deque_repr_bounds _ _ Hr) as (? & ? & ? & ?).
  unfold SetProperty. erewrite bind_Ok by (by apply deque_GetSize_run). rewrite i32_id by lia.
  unfold inside. destruct (Z.ltb_spec i 0), (Z.leb_spec (lenZ l) i); simpl.
  1-3: exists d; (replace ((0 <=? i) && (i <? lenZ l)) with false by lia); done.
  destruct (deque_Set_run d l i v Hr ltac:(lia)) as (d' & Hrun & Hr' & Hlen).
  replace ((0 <=? i) && (i <? lenZ l)) with true by lia.
  exists d'. erewrite bind_Ok by exact Hrun. done.
Qed.

(** ** Sequences of operations *)

Inductive op : Type :=
| OpInsertFront (v : JSTaggedValue)
| OpInsertEnd (v : JSTaggedValue)
| OpPopFirst
| OpPopLast
| OpGetFirst
| OpGetLast
| OpHas (v : JSTaggedValue)
| OpSetAt (i : Z) (v : JSTaggedValue)
| OpGetAt (i : Z)
| OpSize.

Inductive answer : Type :=
| AUnit
| AValue (v : JSTaggedValue)
| ABool (b : bool)
| ANum (z : Z).

Definition exec (heap : Heap) (o : op) : M JSAPIDeque answer :=
  match o with
  | OpInsertFront v => InsertFront v;; mret AUnit
  | OpInsertEnd v => InsertEnd v;; mret AUnit
  | OpPopFirst => v ← PopFirst; mret (AValue v)
  | OpPopLast => v ← PopLast; mret (AValue v)
  | OpGetFirst => v ← GetFront; mret (AValue v)
  | OpGetLast => v ← GetTail; mret (AValue v)
  | OpHas v => b ← Has heap v; mret (ABool b)
  | OpSetAt i v => b ← SetProperty i v; mret (ABool b)
  | OpGetAt i => v ← GetProperty i; mret (AValue v)
  | OpSize => n ← GetSize; mret (ANum n)
  end.

(** The same operations on a list. *)
Definition spec (heap : Heap) (o : op) (l : list JSTaggedValue) : outcome answer * list JSTaggedValue :=
  match o with
  | OpInsertFront v => (Ok AUnit, v :: l)
  | OpInsertEnd v => (Ok AUnit, l ++ [v])
  | OpPopFirst => (Ok (AValue (default VUndefined (head l))), tail l)
  | OpPopLast => (Ok (AValue (default VUndefined (list.last l))), removelast l)
  | OpGetFirst => (Ok (AValue (default VUndefined (head l))), l)
  | OpGetLast => (Ok (AValue (default VUndefined (list.last l))), l)
  | OpHas v => (Ok (ABool (existsb (fun x => SameValue heap x v) l)), l)
  | OpSetAt i v =>
      let inside := (0 <=? i) && (i <? lenZ l) in
      (Ok (ABool inside), if inside then <[Z.to_nat i := v]> l else l)
  | OpGetAt i =>
      (match (if i <? 0 then None else l !! Z.to_nat i) with
       | Some x => Ok (AValue x)
       | None => Throw RANGE_ERROR
       end, l)
  | OpSize => (Ok (ANum (lenZ l)), l)
  end.

(** After at most [k] insertions: the list is no longer than [k] and the array
    no larger than twice that (and the initial 8). *)
Definition within (k : Z) (d : JSAPIDeque) (l : list JSTaggedValue) : Prop :=
  repr d l /\ lenZ l <= k /\ lenZ (elements d) <= Z.max 8 (2 * k).

Lemma deque_exec_spec (heap : Heap) (o : op) (k : Z) (d : JSAPIDeque) (l : list JSTaggedValue) :
  within k d l -> 0 <= k < 2 ^ 29 ->
  exists d', exec heap o d = ((spec heap o l).1, d') /\ within (k + 1) d' (spec heap o l).2.
Proof.
  intros (Hr & Hk & Hc) Hb. pose proof (deque_repr_bounds _ _ Hr) as (? & ? & ? & ?).
  destruct o; simpl.
  - destruct (deque_InsertFront_run d l v Hr ltac:(lia)) as (d' & Hrun & Hr' & Hc').
    exists d'. erewrite bind_Ok by exact Hrun. split; [done|]. split_and!; [done|lenz|lia].
  - destruct (deque_InsertEnd_run d l v Hr ltac:(lia)) as (d' & Hrun & Hr' & Hc').
    exists d'. erewrite bind_Ok by exact Hrun. split; [done|]. split_and!; [done|lenz|lia].
  - destruct (deque_PopFirst_run d l Hr) as (d' & Hrun & Hr' & He).
    exists d'. erewrite bind_Ok by exact Hrun. split; [done|]. split_and!; [done| |rewrite He; lia].
    destruct l; simpl in *; lenz.
  - destruct (deque_PopLast_run d l Hr) as (d' & Hrun & Hr' & He).
    exists d'. erewrite bind_Ok by exact Hrun. split; [done|]. split_and!; [done| |rewrite He; lia].
    destruct l as [|x l _] using rev_ind; [simpl; lia|]. rewrite removelast_last. lenz.
  - exists d. erewrite bind_Ok by (by apply deque_GetFront_run). split; [done|]. split_and!; [done|lia|lia].
  - exists d. erewrite bind_Ok by (by apply deque_GetTail_run). split; [done|]. split_and!; [done|lia|lia].
  - exists d. erewrite bind_Ok by (by apply deque_Has_run). split; [done|]. split_and!; [done|lia|lia].
  - destruct (deque_SetProperty_run d l i v Hr) as (d' & Hrun & Hr' & Hlen).
    exists d'. erewrite bind_Ok by exact Hrun. split; [done|]. split_and!; [done| |rewrite Hlen; lia].
    unfold lenZ in *. destruct (_ && _); rewrite ?length_insert; lia.
  - exists d. split; [|split_and!; [done|lia|lia]].
    unfold GetProperty. mcbn. rewrite (deque_GetSize_run d l Hr). rewrite i32_id by lia.
    destruct (Z.ltb_spec i 0); simpl; [done|]. destruct (Z.leb_spec (lenZ l) i).
    + by rewrite lookup_ge_None_2 by (unfold lenZ in *; lia).
    + destruct (lookup_lt_is_Some_2 l (Z.to_nat i)) as [x Hx]; [unfold lenZ in *; lia|].
      rewrite Hx. by rewrite (deque_Get_run d l i x Hr).
  - exists d. erewrite bind_Ok by (by apply deque_GetSize_run). split; [done|]. split_and!; [done|lia|lia].
Qed.

(** C11: A new deque and any sequence of up to 2^29 of the ten operations
    InsertFront, InsertEnd, PopFirst, PopLast, GetFirst, GetLast, Has, Set, Get
    and size answers exactly as the same operations on a list do, errors
    included: no access leaves the array, no search runs on.  OwnKeys is not
    among them, since it doubles the array each time (deque_OwnKeys_doubles). *)
Theorem deque_refines_list (heap : Heap) (os : list op) :
  lenZ os <= 2 ^ 29 -> (run_ops (exec heap) os NewDeque).1 = (run_ops (spec heap) os []).1.
Proof.
  intros Hb.
  apply (run_ops_refines (exec heap) (spec heap) within (fun _ => True) (2 ^ 29)) with 0; [| |by apply Forall_true|lia|lia].
  - intros o k s t Hw _ Hk. by apply deque_exec_spec.
  - split_and!; [exact NewDeque_repr|done|vm_compute; discriminate].
Qed.

(** ** Iteration *)

(** The iterator after [l1] has been delivered points at the slot behind it. *)
Lemma deque_Next_run (d : JSAPIDeque) (l1 l2 : list JSTaggedValue) (x : JSTaggedValue) :
  repr d (l1 ++ x :: l2) ->
  Next (mkIter true (ring_end (elements d) (first d) l1)) d
  = (Ok (Some x, mkIter true (ring_end (elements d) (first d) (l1 ++ [x]))), d).
Proof.
  intros Hr. pose proof (deque_repr_bounds _ _ Hr) as (Hb1 & Hb2 & Hb3 & Hb4).
  pose proof (lenZ_nonneg l1) as Hl1. pose proof (lenZ_nonneg l2) as Hl2. autorewrite with lenz in *.
  pose proof (Z.mod_pos_bound (first d + lenZ l1) (lenZ (elements d)) ltac:(lia)) as Hm.
  assert (ring_end (elements d) (first d) l1 <> last d) as Hne.
  { rewrite (proj1 (proj2 Hr)). intros E%ring_slot_inj; autorewrite with lenz in *; lia. }
  assert (u32 (ring_end (elements d) (first d) l1 + lenZ (elements d) - first d) mod lenZ (elements d)
          = lenZ l1) as Hoff.
  { rewrite u32_small by (unfold ring_end; lia). apply ring_offset; lia. }
  assert (u32 (ring_end (elements d) (first d) l1 + 1) mod lenZ (elements d)
          = ring_end (elements d) (first d) (l1 ++ [x])) as Hnext.
  { unfold ring_end. rewrite u32_small, Z.add_mod_idemp_l by lia. f_equal. lenz. }
  unfold Next. simpl. mstep. zb. mstep. rewrite Hoff, Hnext.
  mstep by (apply (deque_Get_run d _ (lenZ l1) x Hr Hl1); unfold lenZ; rewrite Nat2Z.id; by apply list_lookup_middle).
  done.
Qed.

(** Iterating a deque yields its elements from first to last, then stops. *)
Theorem deque_iterator_yields_elements (d : JSAPIDeque) (l : list JSTaggedValue) :
  repr d l -> drain Next (S (length l)) (NewJSAPIDequeIterator d) d = (Ok l, d).
Proof.
  intros Hr.
  assert (NewJSAPIDequeIterator d = mkIter true (ring_end (elements d) (first d) (take 0 l))) as ->.
  { unfold NewJSAPIDequeIterator, ring_end. rewrite take_0, lenZ_nil, Z.add_0_r, Z.mod_small by apply Hr. done. }
  apply (drain_run Next (fun j => mkIter true (ring_end (elements d) (first d) (take j l)))).
  - intros j x Hj. rewrite (take_S_r l j x Hj). rewrite <- (take_drop_middle l j x Hj) in Hr.
    by apply deque_Next_run with (drop (S j) l).
  - eexists. rewrite firstn_all. unfold Next. simpl. mstep.
    rewrite <- (proj1 (proj2 Hr)), Z.eqb_refl. reflexivity.
Qed.

(** Listing the keys of a deque keeps its elements but doubles its array
    each time, although nothing was inserted. *)
Theorem deque_OwnKeys_doubles {K} (keys : JSAPIDeque -> K) (d : JSAPIDeque) (l : list JSTaggedValue) :
  repr d l -> 8 <= lenZ (elements d) <= 2 ^ 30 ->
  exists d', OwnKeys keys d = (Ok (keys d'), d') /\ repr d' l /\
    lenZ (elements d') = 2 * lenZ (elements d).
Proof.
  intros Hr Hb. pose proof (deque_repr_bounds _ _ Hr) as (? & ? & ? & ?).
  assert (ComputeCapacity (lenZ (elements d)) = 2 * lenZ (elements d)) as Hc.
  { unfold ComputeCapacity, DEFAULT_CAPACITY_LENGTH. rewrite Z.shiftl_mul_pow2, u32_small by lia.
    destruct (Z.ltb_spec 8 (lenZ (elements d) * 2 ^ 1)); lia. }
  unfold OwnKeys. erewrite bind_Ok by (by apply deque_GetSize_run). erewrite bind_Ok by reflexivity.
  destruct (deque_grown_ring (lenZ (elements d)) l ltac:(lia) ltac:(lia)) as (Hle & Hring & Hend).
  destruct Hr as (Hr & He & Hl & _).
  erewrite bind_Ok. 2: { apply copy_ring_run with (l := l); try done; lia. }
  eexists. split; [reflexivity|]. unfold set_elements, set_first, set_last. simpl.
  split; [|lia]. split_and!; simpl; [done|done|lia|lia].
Qed.

(** ** Witnesses *)

Definition sample_deque : JSAPIDeque := (InsertEnd (VInt 2) (InsertFront (VInt 1) NewDeque).2).2.

Lemma sample_deque_repr : repr sample_deque [VInt 1; VInt 2].
Proof.
  destruct (deque_InsertFront_run NewDeque [] (VInt 1) NewDeque_repr) as (d1 & H1 & R1 & _).
  { vm_compute. discriminate. }
  unfold sample_deque. rewrite H1. simpl.
  assert (lenZ (elements d1) <= 2 ^ 30) as Hb.
  { replace d1 with (InsertFront (VInt 1) NewDeque).2 by (by rewrite H1). vm_compute. discriminate. }
  destruct (deque_InsertEnd_run d1 _ (VInt 2) R1 Hb) as (d2 & H2 & R2 & _). by rewrite H2.
Qed.

Lemma deque_GetProperty_spec_witness :
  repr sample_deque [VInt 1; VInt 2] /\ GetProperty 1 sample_deque = (Ok (VInt 2), sample_deque).
Proof.
  split; [exact sample_deque_repr|]. apply (deque_GetProperty_spec sample_deque _ 1 sample_deque_repr).
Defined.

Lemma deque_refines_list_witness :
  (run_ops (exec sample_heap) [OpInsertEnd (VInt 3); OpInsertFront (VInt 4); OpPopLast; OpGetAt 5] NewDeque).1
  = [Ok AUnit; Ok AUnit; Ok (AValue (VInt 3)); Throw RANGE_ERROR].
Proof.
  rewrite (deque_refines_list sample_heap
    [OpInsertEnd (VInt 3); OpInsertFront (VInt 4); OpPopLast; OpGetAt 5]) by (vm_compute; discriminate).
  reflexivity.
Defined.

Lemma deque_iterator_yields_elements_witness :
  drain Next 3 (NewJSAPIDequeIterator sample_deque) sample_deque = (Ok [VInt 1; VInt 2], sample_deque).
Proof. exact (deque_iterator_yields_elements sample_deque [VInt 1; VInt 2] sample_deque_repr). Defined.

Lemma deque_OwnKeys_doubles_witness :
  exists d', OwnKeys (fun d => lenZ (elements d)) sample_deque = (Ok 16, d').
Proof.
  destruct (deque_OwnKeys_doubles (fun d => lenZ (elements d)) sample_deque _ sample_deque_repr)
    as (d' & H & _ & Hl); [split; vm_compute; discriminate|].
  exists d'. rewrite H, Hl. reflexivity.
Defined.

End Deque.
