(* ===== verification/Queue.v ===== *)
(** * JSAPIQueue: js_api_queue.cpp, js_api_queue.h, js_api_queue_iterator.cpp.

    The queue keeps its length beside the ring between Front and Tail.  The
    abstract state is the list of its values ([repr]); additions, removals,
    reads, searches and size queries refine list operations
    ([queue_refines_list]).  [queue_SetProperty_spec] says what a write by index
    does: it goes to the slot of that number, not to the slot of the element. *)
From S2P Require Import Prelude TaggedValue TaggedArray Ring.
Local Open Scope Z_scope.

Module Queue.

Record JSAPIQueue : Type := mkQueue {
  elements : TaggedArray;
  length_ : Z;
  front : Z;
  tail : Z;
}.

Definition set_elements (a : TaggedArray) (q : JSAPIQueue) : JSAPIQueue :=
  mkQueue a (length_ q) (front q) (tail q).
Definition set_length (n : Z) (q : JSAPIQueue) : JSAPIQueue :=
  mkQueue (elements q) n (front q) (tail q).
Definition set_front (i : Z) (q : JSAPIQueue) : JSAPIQueue :=
  mkQueue (elements q) (length_ q) i (tail q).
Definition set_tail (i : Z) (q : JSAPIQueue) : JSAPIQueue :=
  mkQueue (elements q) (length_ q) (front q) i.

Definition on_elements {A} (m : M TaggedArray A) : M JSAPIQueue A := zoom elements set_elements m.

Definition DEFAULT_CAPACITY_LENGTH : Z := 8.

Definition ComputeCapacity (oldCapacity : Z) : Z :=
  let newCapacity := u32 (oldCapacity + Z.shiftr oldCapacity 1) in
  if DEFAULT_CAPACITY_LENGTH <? newCapacity then newCapacity else DEFAULT_CAPACITY_LENGTH.

(** ContainersQueue::QueueConstructor gives a new queue its array. *)
Definition NewQueue : JSAPIQueue :=
  mkQueue (Factory.NewTaggedArray DEFAULT_CAPACITY_LENGTH VHole) 0 0 0.

Definition GetSize : M JSAPIQueue Z := gets length_.

Definition GrowCapacity (capacity : Z) : M JSAPIQueue TaggedArray :=
  q ← get;
  let oldElements := elements q in
  let oldLength := lenZ oldElements in
  if oldLength =? 0 then
    newElements ← Factory.CopyArray oldElements oldLength (ComputeCapacity capacity) VHole;
    modify (set_elements newElements);;
    modify (set_front (front q));;
    modify (set_tail (tail q));;
    mret newElements
  else if u32 (tail q + 1) mod oldLength =? front q then
    newElements ← Factory.CopyQueue oldElements (ComputeCapacity capacity) (front q) (tail q);
    modify (set_elements newElements);;
    modify (set_front 0);;
    modify (set_tail (u32 (oldLength - 1)));;
    mret newElements
  else mret oldElements.

Definition Add (value : JSTaggedValue) : M JSAPIQueue unit :=
  length ← GetSize;
  GrowCapacity (u32 (length + 1));;
  tail' ← gets tail;
  on_elements (Arr.Set_ tail' value);;
  modify (set_length (u32 (length + 1)));;
  elementsSize ← gets (fun q => lenZ (elements q));
  ASSERT (negb (elementsSize =? 0));;
  modify (set_tail (u32 (tail' + 1) mod elementsSize)).

Definition GetFirst : M JSAPIQueue JSTaggedValue :=
  length ← GetSize;
  if length <? 1 then mret VUndefined
  else
    index ← gets front;
    on_elements (Arr.Get index).

Definition Pop : M JSAPIQueue JSTaggedValue :=
  length ← GetSize;
  if length <? 1 then mret VUndefined
  else
    front' ← gets front;
    value ← on_elements (Arr.Get front');
    modify (set_length (u32 (length - 1)));;
    elementsSize ← gets (fun q => lenZ (elements q));
    ASSERT (negb (elementsSize =? 0));;
    modify (set_front (u32 (front' + 1) mod elementsSize));;
    mret value.

Definition Get (index : Z) : M JSAPIQueue JSTaggedValue :=
  length ← GetSize;
  if length <=? index then throw RANGE_ERROR
  else
    q ← get;
    let capacity := lenZ (elements q) in
    ASSERT (negb (capacity =? 0));;
    on_elements (Arr.Get (u32 (front q + index) mod capacity)).

Definition Set_ (index : Z) (value : JSTaggedValue) : M JSAPIQueue JSTaggedValue :=
  length ← GetSize;
  if (index <? 0) || (length <=? index) then throw RANGE_ERROR
  else
    on_elements (Arr.Set_ index value);;
    mret VUndefined.

Section with_heap.
Context (heap : Heap).

Definition has_step (value : JSTaggedValue) (end_ capacity : Z) (index : Z) : M JSAPIQueue (Z + bool) :=
  if index =? end_ then mret (inr false)
  else
    v ← on_elements (Arr.Get index);
    if SameValue heap v value then mret (inr true)
    else
      ASSERT (negb (capacity =? 0));;
      mret (inl (u32 (index + 1) mod capacity)).

Definition Has (value : JSTaggedValue) : M JSAPIQueue bool :=
  q ← get;
  while_fuel (length (elements q) + 1)%nat (has_step value (tail q) (lenZ (elements q))) (front q).
End with_heap.

(** As in JSAPIDeque, listing the keys first rebuilds the ring in a larger array. *)
Definition OwnKeys {K} (GetOwnPropertyKeys : JSAPIQueue -> K) : M JSAPIQueue K :=
  length ← GetSize;
  q ← get;
  let oldCapacity := lenZ (elements q) in
  let newCapacity := ComputeCapacity oldCapacity in
  newElements ← Factory.CopyQueue (elements q) newCapacity (front q) (tail q);
  modify (set_front 0);;
  modify (set_tail length);;
  modify (set_elements newElements);;
  gets GetOwnPropertyKeys.

Definition OwnEnumKeys {K} (GetOwnEnumPropertyKeys : JSAPIQueue -> K) : M JSAPIQueue K :=
  length ← GetSize;
  q ← get;
  let oldCapacity := lenZ (elements q) in
  let newCapacity := ComputeCapacity oldCapacity in
  newElements ← Factory.CopyQueue (elements q) newCapacity (front q) (tail q);
  modify (set_front 0);;
  modify (set_tail length);;
  modify (set_elements newElements);;
  gets GetOwnEnumPropertyKeys.

(** The key is the result of JSTaggedValue::ToElementIndex. *)
Definition GetOwnProperty (key : option Z) : M JSAPIQueue bool :=
  match key with
  | None => throw TYPE_ERROR
  | Some index =>
      length ← GetSize;
      if length <=? index then throw RANGE_ERROR
      else Get index;; mret true
  end.

Definition GetProperty (index : Z) : M JSAPIQueue JSTaggedValue :=
  length ← GetSize;
  if (index <? 0) || (i32 length <=? index) then throw RANGE_ERROR
  else Get index.

Definition SetProperty (index : Z) (value : JSTaggedValue) : M JSAPIQueue bool :=
  length ← GetSize;
  if (index <? 0) || (i32 length <=? index) then mret false
  else Set_ index value;; mret true.

Definition GetArrayLength : M JSAPIQueue Z :=
  q ← get;
  let elementsSize := lenZ (elements q) in
  ASSERT (negb (elementsSize =? 0));;
  mret (u32 (tail q - front q + elementsSize) mod elementsSize).

Definition GetNextPosition (current : Z) : M JSAPIQueue Z :=
  elementsSize ← gets (fun q => lenZ (elements q));
  ASSERT (negb (elementsSize =? 0));;
  mret (u32 (current + 1) mod elementsSize).

(** ObjectFactory::NewJSAPIQueueIterator. *)
Definition NewJSAPIQueueIterator : index_iterator := mkIter true 0.

Definition Next (iter : index_iterator) : M JSAPIQueue (option JSTaggedValue * index_iterator) :=
  index_next GetArrayLength Get iter.

(** ** The abstract state *)

(** One slot stays free; the bound keeps the sums of two slots below 2^32. *)
Definition repr (q : JSAPIQueue) (l : list JSTaggedValue) : Prop :=
  ring (elements q) (front q) l /\ tail q = ring_end (elements q) (front q) l /\
  length_ q = lenZ l /\ lenZ l < lenZ (elements q) /\ lenZ (elements q) <= 2 ^ 31.

Lemma queue_repr_bounds (q : JSAPIQueue) (l : list JSTaggedValue) :
  repr q l ->
  0 <= front q < lenZ (elements q) /\ 0 <= tail q < lenZ (elements q) /\
  0 <= lenZ l < lenZ (elements q) /\ lenZ (elements q) <= 2 ^ 31 /\ length_ q = lenZ l.
Proof.
  intros ((Hf & _) & -> & Hn & Hl & Hb). pose proof (lenZ_nonneg l). split_and!; try lia.
  all: apply Z.mod_pos_bound; lia.
Qed.

Lemma NewQueue_repr : repr NewQueue [].
Proof. split_and!; [apply ring_nil|..]; vm_compute; try done; split; done. Qed.

Lemma queue_ComputeCapacity_grows (c : Z) :
  1 <= c < 2 ^ 31 -> c < ComputeCapacity c /\ ComputeCapacity c <= Z.max 8 (2 * c).
Proof.
  intros Hc. unfold ComputeCapacity, DEFAULT_CAPACITY_LENGTH. rewrite Z.shiftr_div_pow2 by lia.
  change (2 ^ 1) with 2. pose proof (Z.div_pos c 2 ltac:(lia) ltac:(lia)). rewrite u32_small by zlia.
  destruct (Z.ltb_spec 8 (c + c / 2)); zlia.
Qed.

(** The ring after a growth: the list from slot 0 on, with room behind it. *)
Lemma queue_grown_ring (c : Z) (l : list JSTaggedValue) :
  1 <= c < 2 ^ 31 -> lenZ l < c ->
  let e := l ++ replicate (Z.to_nat (ComputeCapacity c - lenZ l)) VHole in
  lenZ e = ComputeCapacity c /\ ring e 0 l /\ ring_end e 0 l = lenZ l.
Proof.
  intros Hc Hl e. pose proof (queue_ComputeCapacity_grows c Hc).
  destruct (ring_fresh l (Z.to_nat (ComputeCapacity c - lenZ l)) VHole ltac:(lia)) as [Hring Hend].
  split_and!; [|done|done]. unfold e. lenz.
Qed.

(** GrowCapacity leaves room for one more element and keeps the list. *)
Lemma queue_GrowCapacity_run (q : JSAPIQueue) (l : list JSTaggedValue) :
  repr q l -> lenZ (elements q) <= 2 ^ 30 ->
  exists e q', GrowCapacity (u32 (lenZ l + 1)) q = (Ok e, q') /\ repr q' l /\
    lenZ l + 1 < lenZ (elements q') /\
    lenZ (elements q') <= Z.max (lenZ (elements q)) (Z.max 8 (2 * (lenZ l + 1))).
Proof.
  intros Hr Hb. pose proof (queue_repr_bounds q l Hr) as (? & ? & ? & ? & ?).
  unfold GrowCapacity. mstep. zb. rewrite !u32_small by lia.
  destruct (Z.eqb_spec ((tail q + 1) mod lenZ (elements q)) (front q)) as [Hfull|Hroom].
  - rewrite (proj1 (proj2 Hr)) in Hfull. symmetry in Hfull.
    apply ring_next_full_iff in Hfull; [|apply Hr|lia].
    pose proof (queue_ComputeCapacity_grows (lenZ (elements q)) ltac:(lia)) as Hcap.
    destruct (queue_grown_ring (lenZ (elements q)) l ltac:(lia) ltac:(lia)) as (Hle & Hring & Hend).
    replace (lenZ l + 1) with (lenZ (elements q)) by lia.
    mstep by (apply copy_ring_run with (l := l); [apply Hr|symmetry; apply Hr|lia..]).
    eexists _, _. split; [reflexivity|]. unfold set_elements, set_front, set_tail. simpl. rewrite Hle.
    split; [|lia]. split_and!; simpl; [done|lia|lia|lia|lia].
  - eexists _, q. split; [reflexivity|]. split; [done|]. split; [|lia].
    destruct Hr as (Hr & He & _ & Hl & _).
    destruct (decide (lenZ l = lenZ (elements q) - 1)) as [E|]; [|lia].
    apply (ring_next_full_iff _ _ _ Hr Hl) in E. congruence.
Qed.

Lemma queue_Add_run (q : JSAPIQueue) (l : list JSTaggedValue) (value : JSTaggedValue) :
  repr q l -> lenZ (elements q) <= 2 ^ 30 ->
  exists q', Add value q = (Ok tt, q') /\ repr q' (l ++ [value]) /\
    lenZ (elements q') <= Z.max (lenZ (elements q)) (Z.max 8 (2 * (lenZ l + 1))).
Proof.
  intros Hr Hb. pose proof (queue_repr_bounds q l Hr) as (? & ? & ? & ? & Hn).
  destruct (queue_GrowCapacity_run q l Hr Hb) as (e & q1 & Hgrow & Hr1 & Hroom & Hcap).
  pose proof (queue_repr_bounds q1 l Hr1) as (? & ? & ? & ? & ?).
  unfold Add. mstep. rewrite Hn. mstep with Hgrow. mstep.
  mstep by (apply zoom_run; apply Set_run; lia). mstep. mstep. simpl. rewrite lenZ_insert. zb. mstep.
  rewrite !u32_small by lia. eexists. split; [reflexivity|].
  unfold set_elements, set_length, set_tail. simpl. rewrite lenZ_insert. split; [|lia].
  destruct Hr1 as (Hr1 & He & _). rewrite He. split_and!; simpl; rewrite ?lenZ_insert.
  - apply ring_snoc; [done|lia].
  - by apply ring_end_snoc.
  - lenz.
  - autorewrite with lenz. lia.
  - lia.
Qed.

(** The element at an index of the list, in the slot the code computes. *)
Lemma queue_elements_read (q : JSAPIQueue) (l : list JSTaggedValue) (i : Z) (x : JSTaggedValue) :
  repr q l -> 0 <= i -> l !! Z.to_nat i = Some x ->
  on_elements (Arr.Get (u32 (front q + i) mod lenZ (elements q))) q = (Ok x, q).
Proof.
  intros Hr Hi Hx. pose proof (queue_repr_bounds q l Hr) as (? & ? & ? & ? & ?).
  pose proof (lookup_lt_Some _ _ _ Hx).
  rewrite u32_small by (unfold lenZ in *; lia).
  unfold on_elements. erewrite zoom_run by (unfold Arr.Get; by rewrite (ring_read _ _ _ _ _ (proj1 Hr) Hi Hx)).
  by destruct q.
Qed.

Lemma queue_first_read (q : JSAPIQueue) (x : JSTaggedValue) (l : list JSTaggedValue) :
  repr q (x :: l) -> on_elements (Arr.Get (front q)) q = (Ok x, q).
Proof.
  intros Hr. pose proof (queue_repr_bounds _ _ Hr) as (? & ? & ? & ? & ?).
  pose proof (queue_elements_read q (x :: l) 0 x Hr ltac:(lia) eq_refl) as H4.
  rewrite Z.add_0_r, u32_small, Z.mod_small in H4 by lia. exact H4.
Qed.

Lemma queue_GetFirst_run (q : JSAPIQueue) (l : list JSTaggedValue) :
  repr q l -> GetFirst q = (Ok (default VUndefined (head l)), q).
Proof.
  intros Hr. pose proof (queue_repr_bounds _ _ Hr) as (? & ? & ? & ? & Hn).
  unfold GetFirst. mstep. rewrite Hn.
  destruct l as [|x l]; [done|]. autorewrite with lenz in *. pose proof (lenZ_nonneg l). zb. mstep.
  by apply queue_first_read with l.
Qed.

Lemma queue_Pop_run (q : JSAPIQueue) (l : list JSTaggedValue) :
  repr q l ->
  exists q', Pop q = (Ok (default VUndefined (head l)), q') /\ repr q' (list.tail l) /\
    elements q' = elements q.
Proof.
  intros Hr. pose proof (queue_repr_bounds _ _ Hr) as (? & ? & ? & ? & Hn).
  unfold Pop. mstep. rewrite Hn. destruct l as [|x l]; [by exists q|].
  autorewrite with lenz in *. pose proof (lenZ_nonneg l). zb. mstep.
  mstep with (queue_first_read q x l Hr). mstep. mstep. simpl. zb. mstep.
  rewrite !u32_small by lia. eexists. split; [reflexivity|]. split; [|done].
  destruct Hr as (Hr & He & _ & Hl & Hb). destruct (ring_tail _ _ _ _ Hr) as [Hr' He'].
  autorewrite with lenz in *. split_and!; simpl; [done|congruence|lia..].
Qed.

Lemma queue_Get_run (q : JSAPIQueue) (l : list JSTaggedValue) (i : Z) :
  repr q l -> 0 <= i ->
  Get i q = (match l !! Z.to_nat i with Some x => Ok x | None => Throw RANGE_ERROR end, q).
Proof.
  intros Hr Hi. pose proof (queue_repr_bounds _ _ Hr) as (? & ? & ? & ? & Hn).
  unfold Get. mstep. rewrite Hn. destruct (Z.leb_spec (lenZ l) i).
  - by rewrite lookup_ge_None_2 by (unfold lenZ in *; lia).
  - destruct (lookup_lt_is_Some_2 l (Z.to_nat i)) as [x Hx]; [unfold lenZ in *; lia|].
    rewrite Hx. mstep. zb. mstep. by apply queue_elements_read with l.
Qed.

Lemma queue_GetArrayLength_run (q : JSAPIQueue) (l : list JSTaggedValue) :
  repr q l -> GetArrayLength q = (Ok (lenZ l), q).
Proof.
  intros Hr. pose proof (queue_repr_bounds _ _ Hr) as (? & ? & ? & ? & ?).
  destruct Hr as (Hr & He & _ & Hl & Hb). unfold GetArrayLength. mstep. zb. mstep.
  rewrite u32_small by lia. rewrite He, ring_size by done. done.
Qed.

Lemma queue_Has_run (heap : Heap) (q : JSAPIQueue) (l : list JSTaggedValue) (v : JSTaggedValue) :
  repr q l -> Has heap v q = (Ok (existsb (fun x => SameValue heap x v) l), q).
Proof.
  intros Hr. pose proof (queue_repr_bounds _ _ Hr) as (? & ? & ? & ? & ?).
  unfold Has. mstep. destruct Hr as (Hr & -> & _ & Hl & _).
  apply (ring_search elements (fun x => SameValue heap x v) (has_step heap v)); [| | |done|done|lia|lenz].
  - intros lst cap s. unfold has_step. by rewrite Z.eqb_refl.
  - intros lst cap i x s Hne Hx Hp. unfold has_step. zb.
    mstep by (apply zoom_run; unfold Arr.Get; by rewrite Hx). rewrite Hp. by destruct s.
  - intros lst cap i x s Hne Hi Hc Hx Hp. unfold has_step. zb.
    mstep by (apply zoom_run; unfold Arr.Get; by rewrite Hx). rewrite Hp. mstep.
    rewrite u32_small by lia. by destruct s.
Qed.

Lemma queue_GetProperty_run (q : JSAPIQueue) (l : list JSTaggedValue) (i : Z) :
  repr q l ->
  GetProperty i q =
    (match (if i <? 0 then None else l !! Z.to_nat i) with
     | Some x => Ok x
     | None => Throw RANGE_ERROR
     end, q).
Proof.
  intros Hr. pose proof (queue_repr_bounds _ _ Hr) as (? & ? & ? & ? & Hn).
  unfold GetProperty. mstep. rewrite Hn, i32_id by lia.
  destruct (Z.ltb_spec i 0); simpl; [done|].
  destruct (Z.leb_spec (lenZ l) i); [|by apply queue_Get_run].
  by rewrite lookup_ge_None_2 by (unfold lenZ in *; lia).
Qed.

(** ** Writes by index *)

Lemma queue_SetProperty_run (q : JSAPIQueue) (l : list JSTaggedValue) (i : Z) (v : JSTaggedValue) :
  repr q l -> 0 <= i < lenZ l ->
  let pos := (i - front q) mod lenZ (elements q) in
  exists q', SetProperty i v q = (Ok true, q') /\
    repr q' (if pos <? lenZ l then <[Z.to_nat pos := v]> l else l).
Proof.
  intros Hr Hi pos. pose proof (queue_repr_bounds _ _ Hr) as (? & ? & ? & ? & Hn).
  unfold SetProperty, Set_. mstep. rewrite Hn, i32_id by lia. zb. eexists. split.
  { mstep by (mstep; rewrite Hn; zb; mstep by (apply zoom_run; apply Ring.Set_run; lia); reflexivity).
    reflexivity. }
  destruct Hr as (Hr & He & _ & Hl & Hb).
  destruct (ring_write_slot _ _ _ i v Hr ltac:(lia)) as [Hr' He']. fold pos in Hr', He'.
  assert (lenZ (if pos <? lenZ l then <[Z.to_nat pos:=v]> l else l) = lenZ l) as Hlen.
  { destruct (pos <? lenZ l); [by rewrite lenZ_insert|done]. }
  split_and!; simpl; rewrite ?lenZ_insert, ?Hlen; [done|congruence|lia..].
Qed.

(** A write by index that the queue accepts changes the element held in the
    slot of that number, which is the element at position (index - front)
    modulo the capacity if there is one; an index outside is refused. *)
Theorem queue_SetProperty_spec (q : JSAPIQueue) (l : list JSTaggedValue) (i : Z) (v : JSTaggedValue) :
  repr q l ->
  let inside := (0 <=? i) && (i <? lenZ l) in
  let pos := (i - front q) mod lenZ (elements q) in
  exists q', SetProperty i v q = (Ok inside, q') /\
    repr q' (if inside && (pos <? lenZ l) then <[Z.to_nat pos := v]> l else l).
Proof.
  intros Hr inside pos. destruct inside eqn:E.
  - apply queue_SetProperty_run; [done|]. unfold inside in E. lia.
  - exists q. split; [|done]. pose proof (queue_repr_bounds _ _ Hr) as (? & ? & ? & ? & Hn).
    unfold SetProperty. mstep. rewrite Hn, i32_id by lia.
    replace ((i <? 0) || (lenZ l <=? i)) with true by (unfold inside in E; lia). done.
Qed.

(** Once the front of the queue has moved, a write by index reports success
    and the element at that index still reads as before. *)
Theorem queue_SetProperty_misses (q : JSAPIQueue) (l : list JSTaggedValue) (i : Z) (x v : JSTaggedValue) :
  repr q l -> front q <> 0 -> 0 <= i -> l !! Z.to_nat i = Some x ->
  exists q', SetProperty i v q = (Ok true, q') /\ GetProperty i q' = (Ok x, q').
Proof.
  intros Hr Hf Hi Hx. pose proof (queue_repr_bounds _ _ Hr) as (? & ? & ? & ? & _).
  pose proof (lookup_lt_Some _ _ _ Hx) as Hlt.
  destruct (queue_SetProperty_run q l i v Hr) as (q' & Hset & Hr'); [unfold lenZ; lia|].
  exists q'. split; [done|]. rewrite (queue_GetProperty_run q' _ i Hr').
  rewrite (proj2 (Z.ltb_ge i 0)) by lia. destruct (_ <? lenZ l) eqn:E; [|by rewrite Hx].
  rewrite list_lookup_insert_ne; [by rewrite Hx|].
  pose proof (Z.mod_pos_bound (i - front q) (lenZ (elements q)) ltac:(lia)).
  intros Heq. assert ((i - front q) mod lenZ (elements q) = i) as Hm by lia.
  pose proof (ring_slot_position (front q) i (lenZ (elements q)) ltac:(lia) ltac:(unfold lenZ in *; lia)) as Hs.
  rewrite Hm, ring_slot in Hs by lia. destruct (Z.ltb_spec (front q + i) (lenZ (elements q))); lia.
Qed.

(** ** Sequences of operations *)

Inductive op : Type :=
| OpAdd (v : JSTaggedValue)
| OpPop
| OpGetFirst
| OpHas (v : JSTaggedValue)
| OpGetAt (i : Z)
| OpSize.

Inductive answer : Type :=
| AUnit
| AValue (v : JSTaggedValue)
| ABool (b : bool)
| ANum (z : Z).

Definition exec (heap : Heap) (o : op) : M JSAPIQueue answer :=
  match o with
  | OpAdd v => Add v;; mret AUnit
  | OpPop => v ← Pop; mret (AValue v)
  | OpGetFirst => v ← GetFirst; mret (AValue v)
  | OpHas v => b ← Has heap v; mret (ABool b)
  | OpGetAt i => v ← GetProperty i; mret (AValue v)
  | OpSize => n ← GetSize; mret (ANum n)
  end.

(** The same operations on a list. *)
Definition spec (heap : Heap) (o : op) (l : list JSTaggedValue) : outcome answer * list JSTaggedValue :=
  match o with
  | OpAdd v => (Ok AUnit, l ++ [v])
  | OpPop => (Ok (AValue (default VUndefined (head l))), list.tail l)
  | OpGetFirst => (Ok (AValue (default VUndefined (head l))), l)
  | OpHas v => (Ok (ABool (existsb (fun x => SameValue heap x v) l)), l)
  | OpGetAt i =>
      (match (if i <? 0 then None else l !! Z.to_nat i) with
       | Some x => Ok (AValue x)
       | None => Throw RANGE_ERROR
       end, l)
  | OpSize => (Ok (ANum (lenZ l)), l)
  end.

(** After at most [k] additions. *)
Definition within (k : Z) (q : JSAPIQueue) (l : list JSTaggedValue) : Prop :=
  repr q l /\ lenZ l <= k /\ lenZ (elements q) <= Z.max 8 (2 * k).

Lemma queue_exec_spec (heap : Heap) (o : op) (k : Z) (q : JSAPIQueue) (l : list JSTaggedValue) :
  within k q l -> 0 <= k < 2 ^ 29 ->
  exists q', exec heap o q = ((spec heap o l).1, q') /\ within (k + 1) q' (spec heap o l).2.
Proof.
  intros (Hr & Hk & Hc) Hb. pose proof (queue_repr_bounds _ _ Hr) as (? & ? & ? & ? & Hn).
  destruct o; simpl.
  - destruct (queue_Add_run q l v Hr ltac:(lia)) as (q' & Hrun & Hr' & Hc').
    exists q'. mstep with Hrun. split; [done|]. split_and!; [done|lenz|lia].
  - destruct (queue_Pop_run q l Hr) as (q' & Hrun & Hr' & He).
    exists q'. mstep with Hrun. split; [done|]. split_and!; [done| |rewrite He; lia].
    destruct l; simpl in *; lenz.
  - exists q. mstep with (queue_GetFirst_run q l Hr). split; [done|]. split_and!; [done|lia..].
  - exists q. mstep with (queue_Has_run heap q l v Hr). split; [done|]. split_and!; [done|lia..].
  - exists q. split; [|split_and!; [done|lia..]]. mcbn. rewrite (queue_GetProperty_run q l i Hr).
    by destruct (if i <? 0 then None else l !! Z.to_nat i).
  - exists q. mstep. rewrite Hn. split; [done|]. split_and!; [done|lia..].
Qed.

(** C37: A new queue and any sequence of up to 2^29 of the operations Add, Pop,
    GetFirst, Has, Get by index and size answers exactly as the same operations
    on a list do, through every growth and wrap-around of the ring.  Set is not
    among them: on a wrapped ring it writes another slot
    (queue_SetProperty_misses). *)
Theorem queue_refines_list (heap : Heap) (os : list op) :
  lenZ os <= 2 ^ 29 -> (run_ops (exec heap) os NewQueue).1 = (run_ops (spec heap) os []).1.
Proof.
  intros Hb.
  apply (run_ops_refines (exec heap) (spec heap) within (fun _ => True) (2 ^ 29)) with 0; [| |by apply Forall_true|lia|lia].
  - intros o k s t Hw _ Hk. by apply queue_exec_spec.
  - split_and!; [exact NewQueue_repr|done|vm_compute; discriminate].
Qed.

(** ** Iteration *)

(** Iterating a queue yields its elements from front to tail, then stops. *)
Theorem queue_iterator_yields_elements (q : JSAPIQueue) (l : list JSTaggedValue) :
  repr q l -> drain Next (S (length l)) NewJSAPIQueueIterator q = (Ok l, q).
Proof.
  intros Hr. pose proof (queue_repr_bounds _ _ Hr) as (? & ? & ? & ? & _).
  apply index_next_drain; [by apply queue_GetArrayLength_run|lia|].
  intros j x Hj. rewrite (queue_Get_run q l) by (done || lia). by rewrite Nat2Z.id, Hj.
Qed.

(** ** Witnesses *)

Definition sample_ops : list op := [OpAdd (VInt 1); OpAdd (VInt 2); OpAdd (VInt 3); OpPop].

Definition sample_queue : JSAPIQueue := (run_ops (exec sample_heap) sample_ops NewQueue).2.

Lemma sample_queue_repr : repr sample_queue [VInt 2; VInt 3].
Proof.
  split_and!; try (vm_compute; (done || discriminate || split; done)).
  split_and!; [vm_compute; done..|].
  intros [|[|[|j]]] x Hx; simpl in Hx; simplify_eq; vm_compute; done.
Qed.

Lemma queue_SetProperty_spec_witness :
  exists q', SetProperty 1 (VInt 9) sample_queue = (Ok true, q') /\ repr q' [VInt 9; VInt 3].
Proof. apply (queue_SetProperty_spec sample_queue _ 1 (VInt 9) sample_queue_repr). Defined.

Lemma queue_SetProperty_misses_witness :
  exists q', SetProperty 1 (VInt 9) sample_queue = (Ok true, q') /\ GetProperty 1 q' = (Ok (VInt 3), q').
Proof.
  apply (queue_SetProperty_misses sample_queue _ 1 (VInt 3) (VInt 9) sample_queue_repr);
    vm_compute; (discriminate || reflexivity).
Defined.

Lemma queue_refines_list_witness :
  (run_ops (exec sample_heap) (sample_ops ++ [OpGetAt 1; OpHas (VInt 1)]) NewQueue).1
  = [Ok AUnit; Ok AUnit; Ok AUnit; Ok (AValue (VInt 1)); Ok (AValue (VInt 3)); Ok (ABool false)].
Proof.
  rewrite (queue_refines_list sample_heap (sample_ops ++ [OpGetAt 1; OpHas (VInt 1)]))
    by (vm_compute; discriminate).
  reflexivity.
Defined.

Lemma queue_iterator_yields_elements_witness :
  drain Next 3 NewJSAPIQueueIterator sample_queue = (Ok [VInt 2; VInt 3], sample_queue).
Proof. exact (queue_iterator_yields_elements sample_queue _ sample_queue_repr). Defined.

End Queue.
