(* ===== verification/ArrayList.v ===== *)
(** * JSAPIArrayList: js_api_arraylist.cpp, js_api_arraylist.h,
    js_api_arraylist_iterator.cpp.

    The list keeps its elements at the start of its array, and the length of
    the array is its capacity.  The abstract state is the list together with
    the capacity ([repr]); [arraylist_refines_list] says that the operations act
    on it as list operations do.  Indices passed by the caller are the int32 results
    of JSTaggedValue::ToInt32 or GetInt. *)
From S2P Require Import Prelude TaggedValue TaggedArray Ring.
Local Open Scope Z_scope.

Module ArrayList.

Record JSAPIArrayList : Type := mkArrayList {
  elements : TaggedArray;
  length_ : Z;
}.

Definition set_elements (a : TaggedArray) (s : JSAPIArrayList) : JSAPIArrayList :=
  mkArrayList a (length_ s).
Definition set_length (n : Z) (s : JSAPIArrayList) : JSAPIArrayList := mkArrayList (elements s) n.

Definition on_elements {A} (m : M TaggedArray A) : M JSAPIArrayList A := zoom elements set_elements m.

Definition DEFAULT_CAPACITY_LENGTH : Z := 10.

Definition ComputeCapacity (oldCapacity : Z) : Z :=
  let newCapacity := u32 (oldCapacity + Z.shiftr oldCapacity 1) in
  if DEFAULT_CAPACITY_LENGTH <? newCapacity then newCapacity else DEFAULT_CAPACITY_LENGTH.

(** ObjectFactory::NewJSAPIArrayList; InitializeJSObject sets Length to 0. *)
Definition NewJSAPIArrayList (capacity : Z) : JSAPIArrayList :=
  mkArrayList (Factory.NewTaggedArray capacity VHole) 0.

(** ContainersArrayList::ArrayListConstructor gives a new list its array. *)
Definition ArrayListConstructor : JSAPIArrayList :=
  mkArrayList (Factory.NewTaggedArray DEFAULT_CAPACITY_LENGTH VHole) 0.

Definition GetSize : M JSAPIArrayList Z := gets length_.

Definition GrowCapacity (capacity : Z) : M JSAPIArrayList TaggedArray :=
  oldElements ← gets elements;
  let oldCapacity := lenZ oldElements in
  if capacity <? oldCapacity then mret oldElements
  else
    newElements ← Factory.CopyArray oldElements oldCapacity (ComputeCapacity capacity) VHole;
    modify (set_elements newElements);;
    mret newElements.

Definition Add (value : JSTaggedValue) : M JSAPIArrayList bool :=
  length ← GetSize;
  GrowCapacity (u32 (length + 1));;
  on_elements (Arr.Set_ length value);;
  modify (set_length (length + 1));;
  mret true.

Definition Insert (value : JSTaggedValue) (index : Z) : M JSAPIArrayList unit :=
  length ← GetSize;
  if (index <? 0) || (length <? index) then throw RANGE_ERROR
  else
    GrowCapacity (u32 (length + 1));;
    on_elements (for_range_down (length - 1) index Arr.shift_up;;
                 Arr.Set_ index value);;
    modify (set_length (length + 1)).

(** The loop runs to the index [length] itself. *)
Definition Clear : M JSAPIArrayList unit :=
  length ← GetSize;
  on_elements (for_range 0 (length + 1) (fun i => Arr.Set_ i VHole));;
  modify (set_length 0).

Definition Clone : M JSAPIArrayList JSAPIArrayList :=
  srcElements ← gets elements;
  length ← GetSize;
  let newArrayList := set_length length (NewJSAPIArrayList 0) in
  dstElements ← Factory.NewAndCopyTaggedArray srcElements length length 0;
  mret (set_elements dstElements newArrayList).

Definition GetCapacity : M JSAPIArrayList Z := gets (fun s => lenZ (elements s)).

Definition IncreaseCapacityTo (capacity : Z) : M JSAPIArrayList unit :=
  elementData ← gets elements;
  length ← GetSize;
  let oldElementLength := i32 (lenZ elementData) in
  if negb (oldElementLength =? capacity) && (length <? capacity) then
    newElements ← Factory.NewAndCopyTaggedArray elementData (u32 capacity) (u32 length) 0;
    modify (set_elements newElements)
  else mret tt.

Definition TrimToCurrentLength : M JSAPIArrayList unit :=
  length ← GetSize;
  capacity ← GetCapacity;
  if length <? capacity then on_elements (Arr.Trim length) else mret tt.

Definition Get (index : Z) : M JSAPIArrayList JSTaggedValue :=
  length ← GetSize;
  if length <=? index then throw RANGE_ERROR
  else on_elements (Arr.Get index).

Definition Set_ (index : Z) (value : JSTaggedValue) : M JSAPIArrayList JSTaggedValue :=
  length ← GetSize;
  if length <=? index then throw RANGE_ERROR
  else on_elements (Arr.Set_ index value);; mret VUndefined.

Definition IsEmpty : M JSAPIArrayList bool := length ← GetSize; mret (length =? 0).

Section with_heap.
Context (heap : Heap).

Definition GetIndexOf (value : JSTaggedValue) : M JSAPIArrayList Z :=
  length ← GetSize;
  r ← on_elements (find_up (Z.to_nat length) 0 (fun i =>
        v ← Arr.Get i;
        mret (if StrictEqual heap value v then Some i else None)));
  mret (default (-1) r).

Definition GetLastIndexOf (value : JSTaggedValue) : M JSAPIArrayList Z :=
  length ← GetSize;
  r ← on_elements (find_down (Z.to_nat length) (length - 1) (fun i =>
        v ← Arr.Get i;
        mret (if StrictEqual heap value v then Some i else None)));
  mret (default (-1) r).

Definition Has (value : JSTaggedValue) : M JSAPIArrayList bool :=
  length ← GetSize;
  if length =? 0 then mret false
  else
    r ← on_elements (find_up (Z.to_nat length) 0 (fun i =>
          v ← Arr.Get i;
          mret (if SameValue heap v value then Some i else None)));
    mret (match r with Some _ => true | None => false end).

Definition Remove (value : JSTaggedValue) : M JSAPIArrayList bool :=
  index ← GetIndexOf value;
  length ← GetSize;
  if 0 <=? index then
    on_elements (Arr.RemoveElementByIndex index length false);;
    modify (set_length (length - 1));;
    mret true
  else mret false.
End with_heap.

Definition RemoveByIndex (index : Z) : M JSAPIArrayList JSTaggedValue :=
  length ← GetSize;
  if (index <? 0) || (length <=? index) then throw RANGE_ERROR
  else
    oldValue ← on_elements (Arr.Get index);
    (if 0 <=? index then
       on_elements (Arr.RemoveElementByIndex index length false);;
       modify (set_length (length - 1))
     else mret tt);;
    mret oldValue.

Definition RemoveByRange (startIndex endIndex : Z) : M JSAPIArrayList JSTaggedValue :=
  length ← GetSize;
  let size := if endIndex <? length then endIndex else length in
  if (startIndex <? 0) || (size <=? startIndex) then throw RANGE_ERROR
  else if (endIndex <=? startIndex) || (endIndex <? 0) || (length <? endIndex) then throw RANGE_ERROR
  else
    let toIndex := if length <=? endIndex then length else endIndex in
    let numMoved := length - toIndex in
    on_elements (for_range 0 numMoved (Arr.move_block startIndex endIndex));;
    let newLength := length - (endIndex - startIndex) in
    modify (set_length newLength);;
    on_elements (Arr.SetLength newLength);;
    mret VUndefined.

Definition SubArrayList (fromIndex toIndex : Z) : M JSAPIArrayList JSAPIArrayList :=
  length ← GetSize;
  let size := if toIndex <? length then toIndex else length in
  if (fromIndex <? 0) || (size <=? fromIndex) then throw RANGE_ERROR
  else if (toIndex <=? fromIndex) || (toIndex <? 0) || (length <? toIndex) then throw RANGE_ERROR
  else
    let endIndex := if length - 1 <=? toIndex then length - 1 else toIndex in
    let newLength := if toIndex =? length then length - fromIndex else endIndex - fromIndex in
    let subArrayList := NewJSAPIArrayList newLength in
    if newLength =? 0 then mret subArrayList
    else
      elements' ← gets elements;
      build subArrayList
        (modify (set_length newLength);;
         for_range 0 newLength (fun i =>
           v ← Arr.GetFrom elements' (fromIndex + i);
           Set_ i v;;
           mret tt)).

(** The callbacks of replaceAllElements and forEach are arguments: they see the
    list itself, which they may change, and a state [E] of their own. *)
Section callbacks.
Context {E : Type}.

Definition on_list {A} (m : M JSAPIArrayList A) : M (JSAPIArrayList * E) A :=
  zoom fst (fun s p => (s, snd p)) m.

Context (callbackFn : JSTaggedValue -> Z -> M (JSAPIArrayList * E) JSTaggedValue).

Definition ReplaceAllElements : M (JSAPIArrayList * E) JSTaggedValue :=
  length ← on_list GetSize;
  for_range 0 length (fun k =>
    kValue ← on_list (Get k);
    funcResult ← callbackFn kValue k;
    on_list (Set_ k funcResult);;
    mret tt);;
  mret VUndefined.

(** The loop variables are k and the length last seen. *)
Definition foreach_step (p : Z * Z) : M (JSAPIArrayList * E) (Z * Z + unit) :=
  let '(k, length) := p in
  if k <? length then
    kValue ← on_list (Get k);
    callbackFn kValue k;;
    size ← on_list GetSize;
    let length' := if negb (length =? size) then size else length in
    mret (inl (u32 (k + 1), length'))
  else mret (inr tt).

Definition ForEach (fuel : nat) : M (JSAPIArrayList * E) JSTaggedValue :=
  length ← on_list GetSize;
  while_fuel fuel foreach_step (0, length);;
  mret VUndefined.
End callbacks.

(** The key is the result of JSTaggedValue::ToElementIndex. *)
Definition GetOwnProperty (key : option Z) : M JSAPIArrayList bool :=
  match key with
  | None => throw TYPE_ERROR
  | Some index =>
      length ← GetSize;
      if length <=? index then throw RANGE_ERROR
      else Get index;; mret true
  end.

Definition GetProperty (index : Z) : M JSAPIArrayList JSTaggedValue :=
  length ← GetSize;
  if (index <? 0) || (length <=? index) then throw RANGE_ERROR
  else Get index.

Definition SetProperty (index : Z) (value : JSTaggedValue) : M JSAPIArrayList bool :=
  length ← GetSize;
  if (index <? 0) || (length <=? index) then mret false
  else Set_ index value;; mret true.

(** ObjectFactory::NewJSAPIArrayListIterator. *)
Definition NewJSAPIArrayListIterator : index_iterator := mkIter true 0.

Definition Next (iter : index_iterator) : M JSAPIArrayList (option JSTaggedValue * index_iterator) :=
  index_next GetSize Get iter.

(** ** The abstract state: the list and the capacity *)

Definition repr (s : JSAPIArrayList) (l : list JSTaggedValue) (cap : Z) : Prop :=
  exists junk, s = mkArrayList (l ++ junk) (lenZ l) /\ lenZ l + lenZ junk = cap /\ cap <= INT32_MAX.

(** The capacity GrowCapacity leaves when [need] elements are asked for. *)
Definition grown (need cap : Z) : Z := if need <? cap then cap else ComputeCapacity need.

Lemma ArrayListConstructor_repr : repr ArrayListConstructor [] 10.
Proof. exists (replicate 10 VHole). by vm_compute. Qed.

Lemma arraylist_repr_bounds (s : JSAPIArrayList) (l : list JSTaggedValue) (cap : Z) :
  repr s l cap -> 0 <= lenZ l <= cap /\ cap < 2 ^ 31 /\ length_ s = lenZ l /\ lenZ (elements s) = cap.
Proof.
  intros (junk & -> & Hc & Hb). pose proof (lenZ_nonneg l). pose proof (lenZ_nonneg junk).
  unfold INT32_MAX in Hb. simpl. autorewrite with lenz. lia.
Qed.

Lemma arraylist_ComputeCapacity_bounds (c : Z) :
  0 <= c <= 2 ^ 30 -> c < ComputeCapacity c <= INT32_MAX.
Proof.
  intros Hc. unfold ComputeCapacity, DEFAULT_CAPACITY_LENGTH, INT32_MAX.
  rewrite Z.shiftr_div_pow2 by lia. change (2 ^ 1) with 2.
  pose proof (Z.div_pos c 2 ltac:(lia) ltac:(lia)). rewrite u32_small by zlia.
  destruct (Z.ltb_spec 10 (c + c / 2)); zlia.
Qed.

(** GrowCapacity leaves at least one slot behind the elements. *)
Lemma arraylist_GrowCapacity_run (l junk : list JSTaggedValue) :
  lenZ l < 2 ^ 30 -> lenZ l + lenZ junk <= INT32_MAX ->
  exists y e junk', GrowCapacity (u32 (lenZ l + 1)) (mkArrayList (l ++ junk) (lenZ l))
    = (Ok e, mkArrayList (l ++ y :: junk') (lenZ l)) /\
    lenZ l + 1 + lenZ junk' = grown (lenZ l + 1) (lenZ l + lenZ junk) /\
    grown (lenZ l + 1) (lenZ l + lenZ junk) <= INT32_MAX.
Proof.
  intros Hb Hcap. pose proof (lenZ_nonneg l). pose proof (lenZ_nonneg junk).
  pose proof (arraylist_ComputeCapacity_bounds (lenZ l + 1) ltac:(lia)) as Hc.
  unfold GrowCapacity, grown. mstep. rewrite u32_small by lia. simpl. autorewrite with lenz.
  destruct (Z.ltb_spec (lenZ l + 1) (lenZ l + lenZ junk)).
  - destruct junk as [|y junk]; [lenz|]. exists y. eexists _, junk. split; [reflexivity|]. lenz.
  - rewrite <- lenZ_app. mstep by (apply CopyArray_grow; lenz).
    rewrite <- (assoc_L (++)).
    destruct (junk ++ replicate _ VHole) as [|y rest] eqn:E.
    { apply (f_equal lenZ) in E. lenz. }
    apply (f_equal lenZ) in E. exists y. eexists _, rest. split; [reflexivity|]. lenz.
Qed.

Lemma arraylist_Add_run (s : JSAPIArrayList) (l : list JSTaggedValue) (cap : Z) (v : JSTaggedValue) :
  repr s l cap -> lenZ l < 2 ^ 30 ->
  exists s', Add v s = (Ok true, s') /\ repr s' (l ++ [v]) (grown (lenZ l + 1) cap).
Proof.
  intros (junk & -> & <- & Hcap) Hb. unfold Add. mstep. cbn [length_].
  destruct (arraylist_GrowCapacity_run l junk Hb Hcap) as (y & e & junk' & Hrun & Hlen & Hmax).
  mstep with Hrun. mstep by (apply zoom_run; by apply Set_mid).
  eexists. split; [reflexivity|]. exists junk'. unfold set_length, set_elements. simpl.
  rewrite <- (assoc_L (++)). simpl. split; [f_equal; lenz|]. split; [lenz|done].
Qed.

Lemma arraylist_Insert_run (s : JSAPIArrayList) (pre post : list JSTaggedValue) (cap : Z) (v : JSTaggedValue) :
  repr s (pre ++ post) cap -> lenZ (pre ++ post) < 2 ^ 30 ->
  exists s', Insert v (lenZ pre) s = (Ok tt, s') /\
    repr s' (pre ++ v :: post) (grown (lenZ (pre ++ post) + 1) cap).
Proof.
  intros (junk & -> & <- & Hcap) Hb. unfold Insert. mstep. cbn [length_].
  pose proof (lenZ_nonneg pre). pose proof (lenZ_nonneg post).
  destruct (arraylist_GrowCapacity_run _ junk Hb Hcap) as (y & e & junk' & Hrun & Hlen & Hmax).
  rewrite (proj2 (Z.ltb_ge (lenZ pre) 0)), (proj2 (Z.ltb_ge _ (lenZ pre))) by (rewrite ?lenZ_app; lia). simpl.
  mstep with Hrun. rewrite <- (assoc_L (++)).
  mstep by (apply zoom_run; apply insert_gap_run; lenz).
  eexists. split; [reflexivity|]. exists junk'. unfold set_length, set_elements. simpl.
  rewrite <- (assoc_L (++)). simpl. split; [f_equal; lenz|]. split; [lenz|done].
Qed.

Lemma arraylist_Get_run (s : JSAPIArrayList) (l : list JSTaggedValue) (cap i : Z) :
  repr s l cap -> 0 <= i ->
  Get i s = (match l !! Z.to_nat i with Some x => Ok x | None => Throw RANGE_ERROR end, s).
Proof.
  intros (junk & -> & <- & Hcap) Hi. unfold Get. mstep. cbn [length_].
  destruct (Z.leb_spec (lenZ l) i).
  - by rewrite lookup_ge_None_2 by (unfold lenZ in *; lia).
  - destruct (split_at l i) as (pre & x & post & -> & Hp); [lia|].
    unfold on_elements. erewrite zoom_run; [|simpl; rewrite <- (assoc_L (++)); by apply Get_mid].
    unfold set_elements. simpl. rewrite <- (assoc_L (++)). simpl.
    replace (Z.to_nat i) with (length pre) by lenz. by rewrite list_lookup_middle.
Qed.

Lemma arraylist_Set_run (s : JSAPIArrayList) (l : list JSTaggedValue) (cap i : Z) (v : JSTaggedValue) :
  repr s l cap -> 0 <= i < lenZ l ->
  exists s', Set_ i v s = (Ok VUndefined, s') /\ repr s' (<[Z.to_nat i := v]> l) cap.
Proof.
  intros (junk & -> & <- & Hcap) Hi. unfold Set_. mstep. cbn [length_]. zb.
  destruct (split_at l i) as (pre & x & post & -> & Hp); [lia|].
  mstep by (apply zoom_run; rewrite <- (assoc_L (++)); by apply Set_mid).
  eexists. split; [reflexivity|]. exists junk. unfold set_elements. simpl.
  replace (Z.to_nat i) with (length pre + 0)%nat by lenz. rewrite insert_app_r. simpl.
  rewrite <- (assoc_L (++)). simpl. split; [f_equal; lenz|]. split; [lenz|done].
Qed.

Lemma arraylist_RemoveElement_run (s : JSAPIArrayList) (pre post : list JSTaggedValue) (x : JSTaggedValue) (cap : Z) :
  repr s (pre ++ x :: post) cap ->
  let len := lenZ (pre ++ x :: post) in
  exists s', (on_elements (Arr.RemoveElementByIndex (lenZ pre) len false);; modify (set_length (len - 1))) s
    = (Ok tt, s') /\ repr s' (pre ++ post) cap.
Proof.
  intros (junk & -> & <- & Hcap) len. pose proof (lenZ_nonneg junk). unfold INT32_MAX in *.
  unfold len. rewrite <- (assoc_L (++)). simpl.
  mstep by (apply zoom_run; simpl; apply RemoveElementByIndex_run; lenz).
  eexists. split; [reflexivity|]. exists (VHole :: junk). unfold set_elements, set_length. simpl.
  rewrite <- (assoc_L (++)). split; [f_equal; lenz|]. unfold INT32_MAX. lenz.
Qed.

Lemma arraylist_RemoveByIndex_run (s : JSAPIArrayList) (pre post : list JSTaggedValue) (x : JSTaggedValue) (cap : Z) :
  repr s (pre ++ x :: post) cap ->
  exists s', RemoveByIndex (lenZ pre) s = (Ok x, s') /\ repr s' (pre ++ post) cap.
Proof.
  intros Hr. pose proof (arraylist_repr_bounds _ _ _ Hr) as (? & ? & Hn & _).
  pose proof (lenZ_nonneg pre). pose proof (lenZ_nonneg post).
  destruct (arraylist_RemoveElement_run _ _ _ _ _ Hr) as (s' & Hrun & Hr'). exists s'. split; [|done].
  unfold RemoveByIndex. mstep. rewrite Hn.
  rewrite (proj2 (Z.ltb_ge (lenZ pre) 0)), (proj2 (Z.leb_gt _ (lenZ pre))) by lenz. simpl.
  destruct Hr as (junk & -> & _).
  mstep by (apply zoom_run; simpl; rewrite <- (assoc_L (++)); by apply Get_mid).
  replace (0 <=? lenZ pre) with true by lia.
  erewrite bind_Ok; [done|]. rewrite <- Hrun. unfold set_elements. simpl. by rewrite <- (assoc_L (++)).
Qed.

Lemma arraylist_GetIndexOf_run (heap : Heap) (s : JSAPIArrayList) (l : list JSTaggedValue) (cap : Z) (v : JSTaggedValue) :
  repr s l cap -> GetIndexOf heap v s = (Ok (default (-1) (find_index (StrictEqual heap v) l)), s).
Proof.
  intros (junk & -> & _). unfold GetIndexOf. mstep. cbn [length_].
  mstep by (apply zoom_run; simpl; unfold lenZ; rewrite Nat2Z.id; by apply (find_up_run (StrictEqual heap v) [])).
  by destruct (find_index _ l).
Qed.

Lemma arraylist_GetLastIndexOf_run (heap : Heap) (s : JSAPIArrayList) (l : list JSTaggedValue) (cap : Z) (v : JSTaggedValue) :
  repr s l cap -> GetLastIndexOf heap v s = (Ok (default (-1) (find_last_index (StrictEqual heap v) l)), s).
Proof.
  intros (junk & -> & _). unfold GetLastIndexOf. mstep. cbn [length_].
  mstep by (apply zoom_run; simpl; unfold lenZ; rewrite Nat2Z.id;
            apply (find_down_run (StrictEqual heap v)); unfold lenZ; lia).
  done.
Qed.

Lemma arraylist_Has_run (heap : Heap) (s : JSAPIArrayList) (l : list JSTaggedValue) (cap : Z) (v : JSTaggedValue) :
  repr s l cap -> Has heap v s = (Ok (existsb (fun x => SameValue heap x v) l), s).
Proof.
  intros (junk & -> & _). unfold Has. mstep. cbn [length_].
  destruct (Z.eqb_spec (lenZ l) 0) as [E|_].
  { by rewrite (lenZ_zero l E). }
  mstep by (apply zoom_run; simpl; unfold lenZ; rewrite Nat2Z.id;
            by apply (find_up_run (fun x => SameValue heap x v) [])).
  rewrite existsb_find_index. by destruct (find_index _ l).
Qed.

Lemma arraylist_Remove_run (heap : Heap) (s : JSAPIArrayList) (l : list JSTaggedValue) (cap : Z) (v : JSTaggedValue) :
  repr s l cap ->
  exists s',
    Remove heap v s
    = (Ok (match find_index (StrictEqual heap v) l with Some _ => true | None => false end), s') /\
    repr s' (match find_index (StrictEqual heap v) l with Some i => delete (Z.to_nat i) l | None => l end) cap.
Proof.
  intros Hr. pose proof (arraylist_repr_bounds _ _ _ Hr) as (? & ? & Hn & _).
  unfold Remove. mstep with (arraylist_GetIndexOf_run heap s l cap v Hr). mstep. rewrite Hn.
  destruct (find_index (StrictEqual heap v) l) as [i|] eqn:E; [|by exists s]. simpl.
  apply find_index_Some in E as (pre & x & post & -> & <- & _). pose proof (lenZ_nonneg pre). zb.
  destruct (arraylist_RemoveElement_run _ _ _ _ _ Hr) as (s' & Hrun & Hr'). exists s'.
  rewrite bind_assoc. mstep with Hrun. split; [done|].
  unfold lenZ. by rewrite Nat2Z.id, delete_middle.
Qed.

Lemma arraylist_RemoveByRange_run (s : JSAPIArrayList) (pre mid post : list JSTaggedValue) (cap : Z) :
  repr s (pre ++ mid ++ post) cap -> 0 < lenZ mid ->
  exists s', RemoveByRange (lenZ pre) (lenZ pre + lenZ mid) s = (Ok VUndefined, s') /\
    repr s' (pre ++ post) (lenZ (pre ++ post)).
Proof.
  intros (junk & -> & <- & Hcap) Hm. pose proof (lenZ_nonneg pre). pose proof (lenZ_nonneg post).
  pose proof (lenZ_nonneg junk). unfold RemoveByRange. mstep. cbn [length_].
  assert (lenZ (pre ++ mid ++ post) = lenZ pre + (lenZ mid + lenZ post)) as Hlen by lenz. rewrite Hlen in *.
  replace (if lenZ pre + lenZ mid <? lenZ pre + (lenZ mid + lenZ post) then lenZ pre + lenZ mid
           else lenZ pre + (lenZ mid + lenZ post)) with (lenZ pre + lenZ mid)
    by (destruct (Z.ltb_spec (lenZ pre + lenZ mid) (lenZ pre + (lenZ mid + lenZ post))); lia).
  zb. replace (if lenZ pre + (lenZ mid + lenZ post) <=? lenZ pre + lenZ mid then _ else _)
    with (lenZ pre + lenZ mid)
    by (destruct (Z.leb_spec (lenZ pre + (lenZ mid + lenZ post)) (lenZ pre + lenZ mid)); lia).
  destruct (move_block_loop pre mid post junk (lenZ pre) (lenZ pre + lenZ mid) 0) as (junk' & Hj & Hrun);
    [lia|lia|done|].
  unfold for_range. replace (Z.to_nat _) with (length post) by lenz.
  mstep by (apply zoom_run; simpl; rewrite <- !(assoc_L (++)); exact Hrun).
  mstep. mstep by (apply zoom_run; simpl; unfold Arr.SetLength;
    rewrite (proj2 (Z.leb_le _ _)), (proj2 (Z.leb_le _ _)) by lenz; reflexivity).
  eexists. split; [reflexivity|]. exists []. unfold set_elements, set_length. simpl.
  rewrite app_nil_r, (assoc_L (++)), take_app_length' by lenz. split; [f_equal; lenz|]. lenz.
Qed.

Lemma arraylist_IncreaseCapacityTo_run (s : JSAPIArrayList) (l : list JSTaggedValue) (cap c : Z) :
  repr s l cap -> c <= INT32_MAX ->
  exists s', IncreaseCapacityTo c s = (Ok tt, s') /\
    repr s' l (if negb (cap =? c) && (lenZ l <? c) then c else cap).
Proof.
  intros (junk & -> & <- & Hcap) Hc. pose proof (lenZ_nonneg l). pose proof (lenZ_nonneg junk).
  unfold INT32_MAX in *. unfold IncreaseCapacityTo. mstep. mstep. cbn [elements length_].
  autorewrite with lenz. rewrite i32_id by lia.
  destruct (negb (lenZ l + lenZ junk =? c) && (lenZ l <? c)) eqn:E.
  - rewrite !u32_small by lia.
    mstep by (pose proof (@NewAndCopyTaggedArray_run JSAPIArrayList [] l junk) as G; simpl in G; apply G; (done || lia)).
    eexists. split; [reflexivity|]. eexists. split; [reflexivity|]. unfold INT32_MAX. lenz.
  - eexists. split; [reflexivity|]. exists junk. split; [done|]. unfold INT32_MAX. lenz.
Qed.

Lemma arraylist_Trim_run (s : JSAPIArrayList) (l : list JSTaggedValue) (cap : Z) :
  repr s l cap -> exists s', TrimToCurrentLength s = (Ok tt, s') /\ repr s' l (lenZ l).
Proof.
  intros (junk & -> & <- & Hcap). pose proof (lenZ_nonneg l). pose proof (lenZ_nonneg junk).
  unfold TrimToCurrentLength. mstep. mstep. cbn [elements length_]. autorewrite with lenz.
  destruct (Z.ltb_spec (lenZ l) (lenZ l + lenZ junk)) as [E|E].
  - unfold on_elements, Arr.Trim. erewrite zoom_run.
    2: { simpl. mstep. autorewrite with lenz. zb. mstep. unfold Arr.SetLength. autorewrite with lenz. zb.
         unfold lenZ. rewrite Nat2Z.id, take_app_length. reflexivity. }
    eexists. split; [reflexivity|]. exists []. rewrite app_nil_r. unfold set_elements. simpl. split; [done|]. lenz.
  - eexists. split; [reflexivity|]. exists []. rewrite (lenZ_zero junk) by lia. split; [done|]. lenz.
Qed.

(** Clear stores a hole at the index [length] too. *)
Lemma arraylist_Clear_run (s : JSAPIArrayList) (l : list JSTaggedValue) (cap : Z) :
  repr s l cap -> lenZ l < cap -> exists s', Clear s = (Ok tt, s') /\ repr s' [] cap.
Proof.
  intros (junk & -> & <- & Hcap) Hlt. destruct junk as [|y junk]; [lenz|].
  unfold Clear. mstep. cbn [length_]. unfold for_range.
  replace (Z.to_nat (lenZ l + 1 - 0)) with (length (l ++ [y])) by lenz.
  pose proof (fill_loop [] (l ++ [y]) junk VHole 0 eq_refl) as F. simpl in F.
  rewrite <- (assoc_L (++)) in F. simpl in F.
  mstep by (apply zoom_run; exact F). eexists. split; [reflexivity|].
  exists (replicate (length (l ++ [y])) VHole ++ junk). unfold set_length, set_elements. simpl.
  split; [done|]. lenz.
Qed.

Lemma arraylist_Clear_fault (s : JSAPIArrayList) (l : list JSTaggedValue) (cap : Z) :
  repr s l cap -> lenZ l = cap -> (Clear s).1 = Fault.
Proof.
  intros (junk & -> & <- & Hcap) Heq. rewrite (lenZ_zero junk) by lia. rewrite app_nil_r.
  unfold Clear. mstep. cbn [length_]. unfold for_range.
  replace (Z.to_nat (lenZ l + 1 - 0)) with (length l + 1)%nat by lenz.
  pose proof (fill_loop [] l [] VHole 0 eq_refl) as F. simpl in F. rewrite !app_nil_r in F.
  erewrite bind_Fault; [reflexivity|]. apply zoom_run. cbn [elements]. rewrite for_up_plus.
  erewrite bind_Ok by exact F. simpl. erewrite bind_Fault; [reflexivity|].
  unfold Arr.Set_. rewrite (proj2 (Z.ltb_ge _ _)) by lenz. by rewrite andb_false_r.
Qed.

(** Clear() empties the list and keeps the capacity when the array has room
    behind the elements, and writes outside the array when it has none, as after
    trimToCurrentLength, removeByRange or clone. *)
Theorem arraylist_Clear_spec (s : JSAPIArrayList) (l : list JSTaggedValue) (cap : Z) :
  repr s l cap ->
  (lenZ l < cap -> exists s', Clear s = (Ok tt, s') /\ repr s' [] cap) /\
  (lenZ l = cap -> (Clear s).1 = Fault).
Proof. intros Hr. split; [by apply arraylist_Clear_run|by eapply arraylist_Clear_fault]. Qed.

(** Clone() returns a list with the same elements and an array of exactly
    that length, and leaves the original alone. *)
Theorem arraylist_Clone_spec (s : JSAPIArrayList) (l : list JSTaggedValue) (cap : Z) :
  repr s l cap -> exists c, Clone s = (Ok c, s) /\ repr c l (lenZ l).
Proof.
  intros (junk & -> & <- & Hcap). pose proof (lenZ_nonneg junk). unfold Clone. mstep. mstep.
  cbn [elements length_].
  mstep by (pose proof (@NewAndCopyTaggedArray_run JSAPIArrayList [] l junk) as G; simpl in G; apply G; (done || lia)).
  eexists. split; [reflexivity|]. exists []. rewrite Z.sub_diag. split; [done|]. lenz.
Qed.

(** The loop of SubArrayList fills the new list in order. *)
Lemma arraylist_sub_loop (pre mid post done_ rest : list JSTaggedValue) (i : Z) :
  lenZ done_ = i -> length rest = length mid -> lenZ done_ + lenZ mid <= INT32_MAX ->
  for_up (length mid) i (fun i => v ← Arr.GetFrom (pre ++ done_ ++ mid ++ post) (lenZ pre + i);
                                  Set_ i v;; mret tt)
    (mkArrayList (done_ ++ rest) (lenZ done_ + lenZ mid))
  = (Ok tt, mkArrayList (done_ ++ mid) (lenZ done_ + lenZ mid)).
Proof.
  revert done_ rest i. induction mid as [|x mid IH]; intros done_ rest i Hi Hr Hb.
  { destruct rest; done. }
  destruct rest as [|y rest]; [done|]. simpl length. pose proof (lenZ_nonneg mid).
  erewrite for_up_cons.
  2: { mstep by (rewrite (assoc_L (++) pre); apply GetFrom_mid; lenz).
       mstep by (unfold Set_; mstep; cbn [length_]; rewrite (proj2 (Z.leb_gt _ _)) by lenz;
                 mstep by (apply zoom_run; simpl; by apply Set_mid); reflexivity).
       reflexivity. }
  specialize (IH (done_ ++ [x]) rest (i + 1)). rewrite <- !(assoc_L (++)) in IH. simpl in IH.
  unfold set_elements. cbn [elements length_].
  replace (lenZ done_ + lenZ (x :: mid)) with (lenZ (done_ ++ [x]) + lenZ mid) by lenz.
  apply IH; [lenz|simpl in Hr; lia|lenz].
Qed.

(** SubArrayList(from, to) is the segment [from, to) of the list for
    0 <= from < to <= length and a range error otherwise; the list itself does
    not change. *)
Theorem arraylist_SubArrayList_spec (s : JSAPIArrayList) (l : list JSTaggedValue) (cap fromIndex toIndex : Z) :
  repr s l cap ->
  if (0 <=? fromIndex) && (fromIndex <? toIndex) && (toIndex <=? lenZ l)
  then exists c, SubArrayList fromIndex toIndex s = (Ok c, s) /\
         repr c (take (Z.to_nat (toIndex - fromIndex)) (drop (Z.to_nat fromIndex) l)) (toIndex - fromIndex)
  else SubArrayList fromIndex toIndex s = (Throw RANGE_ERROR, s).
Proof.
  intros (junk & -> & <- & Hcap). pose proof (lenZ_nonneg l). pose proof (lenZ_nonneg junk).
  unfold SubArrayList. mstep. cbn [length_].
  destruct (_ && _) eqn:E.
  2: { cbv iota. set (size := if toIndex <? lenZ l then toIndex else lenZ l).
       assert (size = Z.min toIndex (lenZ l)) as -> by (unfold size; destruct (Z.ltb_spec toIndex (lenZ l)); lia).
       destruct ((fromIndex <? 0) || _) eqn:E1; [done|].
       destruct ((toIndex <=? fromIndex) || _ || _) eqn:E2; [done|lia]. }
  rewrite !andb_true_iff, Z.leb_le, Z.ltb_lt, Z.leb_le in E. destruct E as [[Hf Hft] Ht].
  rewrite (proj2 (orb_false_iff _ _)) by (destruct (Z.ltb_spec toIndex (lenZ l)); lia).
  rewrite (proj2 (orb_false_iff _ _)) by lia.
  replace (if toIndex =? lenZ l then _ else _) with (toIndex - fromIndex)
    by (destruct (Z.eqb_spec toIndex (lenZ l)), (Z.leb_spec (lenZ l - 1) toIndex); lia).
  rewrite (proj2 (Z.eqb_neq _ _)) by lia. mstep. cbn [elements].
  destruct (split_len l fromIndex) as (pre & rest & -> & Hp); [lia|].
  destruct (split_len rest (toIndex - fromIndex)) as (mid & post & -> & Hm); [lenz|].
  unfold lenZ in Hp, Hm. rewrite drop_app_length', take_app_length' by lia. fold (lenZ pre) (lenZ mid) in Hp, Hm.
  erewrite build_run.
  2: { mstep. unfold for_range. rewrite Z.sub_0_r. replace (Z.to_nat (toIndex - fromIndex)) with (length mid) by lenz.
       rewrite <- Hm, <- Hp.
       pose proof (arraylist_sub_loop pre mid (post ++ junk) [] (replicate (length mid) VHole) 0 eq_refl) as G.
       simpl in G. rewrite <- !(assoc_L (++)).
       unfold set_length, NewJSAPIArrayList, Factory.NewTaggedArray. cbn [elements].
       rewrite (proj2 (Z.eqb_neq (lenZ mid) 0)) by lia.
       replace (Z.to_nat (lenZ mid)) with (length mid) by lenz.
       apply G; [by rewrite length_replicate|]. autorewrite with lenz in *. lia. }
  eexists. split; [done|]. exists []. rewrite app_nil_r. split; [done|]. autorewrite with lenz in *. lia.
Qed.

(** ** Callbacks *)

Section callback_lemmas.
Context {E : Type}.

(** A callback that computes a value and leaves the list alone. *)
Definition pure_callback (f : JSTaggedValue -> Z -> JSTaggedValue) :
    JSTaggedValue -> Z -> M (JSAPIArrayList * E) JSTaggedValue :=
  fun v k => mret (f v k).

Lemma arraylist_replace_loop (f : JSTaggedValue -> Z -> JSTaggedValue) (l1 l2 : list JSTaggedValue) (s : JSAPIArrayList) (cap : Z) (e : E) :
  repr s (l1 ++ l2) cap ->
  exists s', for_up (length l2) (lenZ l1) (fun k =>
      kValue ← on_list (Get k);
      funcResult ← pure_callback f kValue k;
      on_list (Set_ k funcResult);; mret tt) (s, e) = (Ok tt, (s', e)) /\
    repr s' (l1 ++ imap (fun j v => f v (lenZ l1 + Z.of_nat j)) l2) cap.
Proof.
  revert l1 s. induction l2 as [|x l2 IH]; intros l1 s Hr; [by exists s|].
  pose proof (lenZ_nonneg l1). set (y := f x (lenZ l1)).
  destruct (arraylist_Set_run s _ cap (lenZ l1) y Hr) as (s1 & Hset & Hr1); [lenz|].
  replace (Z.to_nat (lenZ l1)) with (length l1 + 0)%nat in Hr1 by lenz.
  rewrite insert_app_r in Hr1. simpl in Hr1.
  destruct (IH (l1 ++ [y]) s1) as (s' & Hrun & Hr'); [by rewrite <- (assoc_L (++))|].
  exists s'. split.
  - simpl length. erewrite for_up_cons; [replace (lenZ l1 + 1) with (lenZ (l1 ++ [y])) by lenz; exact Hrun|].
    mstep by (apply zoom_run; simpl; rewrite (arraylist_Get_run s _ cap (lenZ l1) Hr) by done;
              unfold lenZ; rewrite Nat2Z.id, list_lookup_middle by done; reflexivity).
    mstep. fold y. mstep by (apply zoom_run; exact Hset). done.
  - rewrite <- (assoc_L (++)) in Hr'. simpl. rewrite Z.add_0_r. fold y. simpl in Hr'.
    erewrite imap_ext; [exact Hr'|]. intros j v _. simpl. f_equal. lenz.
Qed.

(** ReplaceAllElements with a callback that does not touch the list maps it
    over the elements and their indices. *)
Theorem arraylist_ReplaceAllElements_spec (f : JSTaggedValue -> Z -> JSTaggedValue) (l : list JSTaggedValue) (s : JSAPIArrayList) (cap : Z) (e : E) :
  repr s l cap ->
  exists s', ReplaceAllElements (pure_callback f) (s, e) = (Ok VUndefined, (s', e)) /\
    repr s' (imap (fun j v => f v (Z.of_nat j)) l) cap.
Proof.
  intros Hr. destruct (arraylist_replace_loop f [] l s cap e Hr) as (s' & Hrun & Hr').
  pose proof (arraylist_repr_bounds _ _ _ Hr) as (? & ? & Hn & _).
  exists s'. split; [|exact Hr']. unfold ReplaceAllElements.
  mstep by (apply zoom_run; reflexivity). cbn [fst]. rewrite Hn. unfold for_range. rewrite Z.sub_0_r.
  replace (Z.to_nat (lenZ l)) with (length l) by lenz. mstep with Hrun. done.
Qed.

(** A callback that records its arguments. *)
Definition logging_callback (v : JSTaggedValue) (k : Z) : M (JSAPIArrayList * list (JSTaggedValue * Z)) JSTaggedValue :=
  fun p => (Ok VUndefined, (fst p, snd p ++ [(v, k)])).
End callback_lemmas.

Lemma arraylist_foreach_loop (l1 l2 : list JSTaggedValue) (s : JSAPIArrayList) (cap : Z) (log : list (JSTaggedValue * Z)) (fuel : nat) :
  repr s (l1 ++ l2) cap -> (length l2 < fuel)%nat ->
  while_fuel fuel (foreach_step logging_callback) (lenZ l1, lenZ (l1 ++ l2)) (s, log)
  = (Ok tt, (s, log ++ imap (fun j v => (v, lenZ l1 + Z.of_nat j)) l2)).
Proof.
  revert l1 log fuel. induction l2 as [|x l2 IH]; intros l1 log fuel Hr Hf;
    (destruct fuel as [|fuel]; [simpl in Hf; lia|]); simpl while_fuel;
    pose proof (arraylist_repr_bounds _ _ _ Hr) as (? & ? & Hn & _); pose proof (lenZ_nonneg l1).
  - rewrite !app_nil_r in *. simpl. mstep by (unfold foreach_step; zb; reflexivity). by rewrite ?app_nil_r.
  - pose proof (lenZ_nonneg l2). assert (lenZ l1 < lenZ (l1 ++ x :: l2)) by lenz.
    mstep by (unfold foreach_step; zb;
      mstep by (apply zoom_run; simpl; rewrite (arraylist_Get_run s _ cap (lenZ l1) Hr) by done;
                unfold lenZ; rewrite Nat2Z.id, list_lookup_middle by done; reflexivity);
      mstep; mstep by (apply zoom_run; reflexivity); cbn [fst]; rewrite Hn, Z.eqb_refl; reflexivity).
    rewrite u32_small by (autorewrite with lenz in *; lia).
    specialize (IH (l1 ++ [x]) (log ++ [(x, lenZ l1)]) fuel). rewrite <- !(assoc_L (++)) in IH.
    replace (lenZ l1 + 1) with (lenZ (l1 ++ [x])) by lenz. simpl in IH.
    etrans; [apply IH; [done|simpl in Hf; lia]|]. do 3 f_equal. simpl. rewrite Z.add_0_r. f_equal.
    apply imap_ext. intros j v _. simpl. f_equal. lenz.
Qed.

(** ForEach calls the callback once per element, in order, with the element
    and its index, and stops. *)
Theorem arraylist_ForEach_visits (s : JSAPIArrayList) (l : list JSTaggedValue) (cap : Z) :
  repr s l cap ->
  ForEach logging_callback (S (length l)) (s, [])
  = (Ok VUndefined, (s, imap (fun j v => (v, Z.of_nat j)) l)).
Proof.
  intros Hr. pose proof (arraylist_repr_bounds _ _ _ Hr) as (_ & _ & Hn & _).
  unfold ForEach. mstep by (apply zoom_run; reflexivity). cbn [fst snd]. rewrite Hn.
  pose proof (arraylist_foreach_loop [] l s cap [] (S (length l)) Hr ltac:(lia)) as H. simpl app in H.
  mstep with H. do 3 f_equal.
Qed.

(** ** Sequences of operations *)

Inductive op : Type :=
| OpAdd (v : JSTaggedValue)
| OpInsert (v : JSTaggedValue) (i : Z)
| OpRemoveByIndex (i : Z)
| OpRemove (v : JSTaggedValue)
| OpRemoveByRange (startIndex endIndex : Z)
| OpGetAt (i : Z)
| OpSetAt (i : Z) (v : JSTaggedValue)
| OpIndexOf (v : JSTaggedValue)
| OpLastIndexOf (v : JSTaggedValue)
| OpHas (v : JSTaggedValue)
| OpSize
| OpIsEmpty
| OpIncreaseCapacityTo (c : Z)
| OpTrim
| OpCapacity.

Inductive answer : Type :=
| AUnit
| AValue (v : JSTaggedValue)
| ABool (b : bool)
| ANum (z : Z).

Section ops.
Context (heap : Heap).

Definition exec (o : op) : M JSAPIArrayList answer :=
  match o with
  | OpAdd v => b ← Add v; mret (ABool b)
  | OpInsert v i => Insert v i;; mret AUnit
  | OpRemoveByIndex i => v ← RemoveByIndex i; mret (AValue v)
  | OpRemove v => b ← Remove heap v; mret (ABool b)
  | OpRemoveByRange i j => v ← RemoveByRange i j; mret (AValue v)
  | OpGetAt i => v ← GetProperty i; mret (AValue v)
  | OpSetAt i v => b ← SetProperty i v; mret (ABool b)
  | OpIndexOf v => n ← GetIndexOf heap v; mret (ANum n)
  | OpLastIndexOf v => n ← GetLastIndexOf heap v; mret (ANum n)
  | OpHas v => b ← Has heap v; mret (ABool b)
  | OpSize => n ← GetSize; mret (ANum n)
  | OpIsEmpty => b ← IsEmpty; mret (ABool b)
  | OpIncreaseCapacityTo c => IncreaseCapacityTo c;; mret AUnit
  | OpTrim => TrimToCurrentLength;; mret AUnit
  | OpCapacity => n ← GetCapacity; mret (ANum n)
  end.

(** The same operations on a list with a capacity. *)
Definition spec (o : op) (p : list JSTaggedValue * Z) : outcome answer * (list JSTaggedValue * Z) :=
  let '(l, cap) := p in
  match o with
  | OpAdd v => (Ok (ABool true), (l ++ [v], grown (lenZ l + 1) cap))
  | OpInsert v i =>
      if (0 <=? i) && (i <=? lenZ l)
      then (Ok AUnit, (take (Z.to_nat i) l ++ v :: drop (Z.to_nat i) l, grown (lenZ l + 1) cap))
      else (Throw RANGE_ERROR, p)
  | OpRemoveByIndex i =>
      match (if i <? 0 then None else l !! Z.to_nat i) with
      | Some x => (Ok (AValue x), (delete (Z.to_nat i) l, cap))
      | None => (Throw RANGE_ERROR, p)
      end
  | OpRemove v =>
      match find_index (StrictEqual heap v) l with
      | Some i => (Ok (ABool true), (delete (Z.to_nat i) l, cap))
      | None => (Ok (ABool false), p)
      end
  | OpRemoveByRange i j =>
      if (0 <=? i) && (i <? j) && (j <=? lenZ l)
      then let l' := take (Z.to_nat i) l ++ drop (Z.to_nat j) l in (Ok (AValue VUndefined), (l', lenZ l'))
      else (Throw RANGE_ERROR, p)
  | OpGetAt i =>
      (match (if i <? 0 then None else l !! Z.to_nat i) with
       | Some x => Ok (AValue x)
       | None => Throw RANGE_ERROR
       end, p)
  | OpSetAt i v =>
      let inside := (0 <=? i) && (i <? lenZ l) in
      (Ok (ABool inside), (if inside then <[Z.to_nat i := v]> l else l, cap))
  | OpIndexOf v => (Ok (ANum (default (-1) (find_index (StrictEqual heap v) l))), p)
  | OpLastIndexOf v => (Ok (ANum (default (-1) (find_last_index (StrictEqual heap v) l))), p)
  | OpHas v => (Ok (ABool (existsb (fun x => SameValue heap x v) l)), p)
  | OpSize => (Ok (ANum (lenZ l)), p)
  | OpIsEmpty => (Ok (ABool (lenZ l =? 0)), p)
  | OpIncreaseCapacityTo c => (Ok AUnit, (l, if negb (cap =? c) && (lenZ l <? c) then c else cap))
  | OpTrim => (Ok AUnit, (l, lenZ l))
  | OpCapacity => (Ok (ANum cap), p)
  end.

(** The capacity argument is an int32. *)
Definition op_ok (o : op) : Prop :=
  match o with OpIncreaseCapacityTo c => c <= INT32_MAX | _ => True end.

Lemma arraylist_insert_spec (s : JSAPIArrayList) (l : list JSTaggedValue) (cap i : Z) (v : JSTaggedValue) :
  repr s l cap -> lenZ l < 2 ^ 30 ->
  exists s', Insert v i s = (if (0 <=? i) && (i <=? lenZ l) then Ok tt else Throw RANGE_ERROR, s') /\
    repr s' (if (0 <=? i) && (i <=? lenZ l) then take (Z.to_nat i) l ++ v :: drop (Z.to_nat i) l else l)
      (if (0 <=? i) && (i <=? lenZ l) then grown (lenZ l + 1) cap else cap).
Proof.
  intros Hr Hb. pose proof (arraylist_repr_bounds _ _ _ Hr) as (? & ? & Hn & _).
  destruct ((0 <=? i) && (i <=? lenZ l)) eqn:Ei.
  - destruct (split_len l i) as (pre & post & -> & <-); [lia|].
    unfold lenZ at 2 3. rewrite Nat2Z.id, take_app_length, drop_app_length.
    by apply arraylist_Insert_run.
  - exists s. split; [|done]. unfold Insert. mstep. rewrite Hn.
    by replace ((i <? 0) || (lenZ l <? i)) with true by lia.
Qed.

Lemma arraylist_removebyindex_spec (s : JSAPIArrayList) (l : list JSTaggedValue) (cap i : Z) :
  repr s l cap ->
  exists s', RemoveByIndex i s =
      (match (if i <? 0 then None else l !! Z.to_nat i) with Some x => Ok x | None => Throw RANGE_ERROR end, s') /\
    repr s' (match (if i <? 0 then None else l !! Z.to_nat i) with Some _ => delete (Z.to_nat i) l | None => l end) cap.
Proof.
  intros Hr. pose proof (arraylist_repr_bounds _ _ _ Hr) as (? & ? & Hn & _).
  destruct ((i <? 0) || (lenZ l <=? i)) eqn:Ei.
  - replace (if i <? 0 then None else l !! Z.to_nat i) with (@None JSTaggedValue).
    2: { destruct (Z.ltb_spec i 0); [done|]. rewrite lookup_ge_None_2; [done|unfold lenZ in *; lia]. }
    exists s. split; [|done]. unfold RemoveByIndex. mstep. by rewrite Hn, Ei.
  - destruct (split_at l i) as (pre & x & post & -> & <-); [lia|].
    rewrite (proj2 (Z.ltb_ge _ _)) by apply lenZ_nonneg.
    unfold lenZ at 2 3 4. rewrite Nat2Z.id, list_lookup_middle, delete_middle by done.
    by apply arraylist_RemoveByIndex_run.
Qed.

Lemma arraylist_removebyrange_spec (s : JSAPIArrayList) (l : list JSTaggedValue) (cap i j : Z) :
  repr s l cap ->
  let ok := (0 <=? i) && (i <? j) && (j <=? lenZ l) in
  let l' := take (Z.to_nat i) l ++ drop (Z.to_nat j) l in
  exists s', RemoveByRange i j s = (if ok then Ok VUndefined else Throw RANGE_ERROR, s') /\
    repr s' (if ok then l' else l) (if ok then lenZ l' else cap).
Proof.
  intros Hr ok l'. pose proof (arraylist_repr_bounds _ _ _ Hr) as (? & ? & Hn & _).
  destruct ok eqn:Eo; unfold ok in Eo.
  - destruct (split_len l i) as (pre & rest & -> & Hp); [lia|].
    destruct (split_len rest (j - i)) as (mid & post & -> & Hm); [autorewrite with lenz in *; lia|].
    replace j with (lenZ pre + lenZ mid) by lia. rewrite <- Hp.
    replace l' with (pre ++ post).
    { apply arraylist_RemoveByRange_run with cap; [done|lia]. }
    unfold l'. rewrite take_app_length', (assoc_L (++)), drop_app_length' by lenz. done.
  - exists s. split; [|done]. unfold RemoveByRange. mstep. rewrite Hn.
    set (size := if j <? lenZ l then j else lenZ l).
    assert (size = Z.min j (lenZ l)) as -> by (unfold size; destruct (Z.ltb_spec j (lenZ l)); lia).
    destruct ((i <? 0) || _) eqn:E1; [done|].
    destruct ((j <=? i) || _ || _) eqn:E2; [done|lia].
Qed.

(** After [k] operations that may add an element. *)
Definition within (k : Z) (s : JSAPIArrayList) (p : list JSTaggedValue * Z) : Prop :=
  repr s p.1 p.2 /\ lenZ p.1 <= k.

Lemma arraylist_exec_spec (o : op) (k : Z) (s : JSAPIArrayList) (p : list JSTaggedValue * Z) :
  within k s p -> op_ok o -> 0 <= k < 2 ^ 30 ->
  exists s', exec o s = ((spec o p).1, s') /\ within (k + 1) s' (spec o p).2.
Proof.
  destruct p as [l cap]. intros [Hr Hk] Ho Hb. simpl in Hr, Hk.
  pose proof (arraylist_repr_bounds _ _ _ Hr) as (? & ? & Hn & Hc).
  destruct o; simpl in Ho |- *.
  - destruct (arraylist_Add_run s l cap v Hr ltac:(lia)) as (s' & Hrun & Hr').
    exists s'. mstep with Hrun. split; [done|]. split; simpl; [done|lenz].
  - destruct (arraylist_insert_spec s l cap i v Hr ltac:(lia)) as (s' & Hrun & Hr').
    exists s'. mcbn. rewrite Hrun. destruct (_ && _) eqn:Ei; simpl; (split; [done|]); split; simpl; try done; [|lia].
    rewrite <- (take_drop (Z.to_nat i) l) in Hk. lenz.
  - destruct (arraylist_removebyindex_spec s l cap i Hr) as (s' & Hrun & Hr').
    exists s'. mcbn. rewrite Hrun. destruct (if i <? 0 then None else _) as [x|] eqn:Ex; simpl;
      (split; [done|]); split; simpl; try done; [|lia].
    pose proof (lenZ_delete_le l (Z.to_nat i)). lia.
  - destruct (arraylist_Remove_run heap s l cap v Hr) as (s' & Hrun & Hr').
    exists s'. mstep with Hrun. destruct (find_index _ l) as [i|]; simpl; (split; [done|]); split; simpl; try done; [|lia].
    pose proof (lenZ_delete_le l (Z.to_nat i)). lia.
  - destruct (arraylist_removebyrange_spec s l cap startIndex endIndex Hr) as (s' & Hrun & Hr').
    exists s'. mcbn. rewrite Hrun. destruct (_ && _) eqn:Ei; simpl; (split; [done|]); split; simpl; try done; [|lia].
    rewrite <- (take_drop (Z.to_nat startIndex) l) in Hk. unfold lenZ in *.
    rewrite !length_app, !length_drop in *. lia.
  - exists s. split; [|split; simpl; [done|lia]]. unfold GetProperty. mcbn.
    change (GetSize s) with (@Ok Z (length_ s), s). cbv iota. rewrite Hn.
    destruct (Z.ltb_spec i 0); simpl; [done|].
    destruct (Z.leb_spec (lenZ l) i).
    { by rewrite lookup_ge_None_2 by (unfold lenZ in *; lia). }
    rewrite (arraylist_Get_run s l cap i Hr) by lia. by destruct (l !! Z.to_nat i).
  - unfold SetProperty. rewrite <- bind_assoc. mstep. rewrite Hn.
    destruct ((0 <=? i) && (i <? lenZ l)) eqn:Ei.
    + destruct (arraylist_Set_run s l cap i v Hr ltac:(lia)) as (s' & Hrun & Hr').
      replace ((i <? 0) || (lenZ l <=? i)) with false by lia. exists s'. rewrite <- bind_assoc. mstep with Hrun.
      split; [done|]. split; simpl; [done|]. rewrite lenZ_insert. lia.
    + exists s. replace ((i <? 0) || (lenZ l <=? i)) with true by lia. split; [done|]. split; simpl; [done|lia].
  - exists s. mstep with (arraylist_GetIndexOf_run heap s l cap v Hr). split; [done|]. split; simpl; [done|lia].
  - exists s. mstep with (arraylist_GetLastIndexOf_run heap s l cap v Hr). split; [done|]. split; simpl; [done|lia].
  - exists s. mstep with (arraylist_Has_run heap s l cap v Hr). split; [done|]. split; simpl; [done|lia].
  - exists s. mstep. rewrite Hn. split; [done|]. split; simpl; [done|lia].
  - exists s. unfold IsEmpty. rewrite <- bind_assoc. mstep. rewrite Hn. split; [done|]. split; simpl; [done|lia].
  - destruct (arraylist_IncreaseCapacityTo_run s l cap c Hr Ho) as (s' & Hrun & Hr').
    exists s'. mstep with Hrun. split; [done|]. split; simpl; [done|lia].
  - destruct (arraylist_Trim_run s l cap Hr) as (s' & Hrun & Hr').
    exists s'. mstep with Hrun. split; [done|]. split; simpl; [done|lia].
  - exists s. mstep. rewrite Hc. split; [done|]. split; simpl; [done|lia].
Qed.

(** A new ArrayList and any sequence of up to 2^30 additions, insertions,
    removals by index, value and range, reads, writes, searches and capacity
    changes answers as the same operations on a list with a capacity do: every
    error is the range error of the specification and no access leaves the
    array. *)
Theorem arraylist_refines_list (os : list op) :
  Forall op_ok os -> lenZ os <= 2 ^ 30 ->
  (run_ops exec os ArrayListConstructor).1 = (run_ops spec os ([], 10)).1.
Proof.
  intros Ho Hb. apply (run_ops_refines exec spec within op_ok (2 ^ 30)) with 0; [|split|done|lia|lia].
  - intros o k s t Hw Hok Hk. by apply arraylist_exec_spec.
  - exact ArrayListConstructor_repr.
  - done.
Qed.
End ops.

(** ** Iteration *)

(** Iterating an ArrayList yields its elements in order, then stops. *)
Theorem arraylist_iterator_yields_elements (s : JSAPIArrayList) (l : list JSTaggedValue) (cap : Z) :
  repr s l cap -> drain Next (S (length l)) NewJSAPIArrayListIterator s = (Ok l, s).
Proof.
  intros Hr. pose proof (arraylist_repr_bounds _ _ _ Hr) as (? & ? & Hn & _).
  apply index_next_drain; [unfold GetSize, gets; by rewrite Hn|lia|].
  intros j x Hj. rewrite (arraylist_Get_run s l cap) by (done || lia). by rewrite Nat2Z.id, Hj.
Qed.

(** ** Witnesses *)

Definition sample_list : JSAPIArrayList := mkArrayList [VInt 1; VInt 2; VInt 3; VHole] 3.

Lemma sample_list_repr : repr sample_list [VInt 1; VInt 2; VInt 3] 4.
Proof. by exists [VHole]. Qed.

Lemma arraylist_Clear_spec_witness : exists s', Clear sample_list = (Ok tt, s') /\ repr s' [] 4.
Proof. apply (arraylist_Clear_spec _ _ _ sample_list_repr). reflexivity. Defined.

Lemma arraylist_Clone_spec_witness :
  exists c, Clone sample_list = (Ok c, sample_list) /\ repr c [VInt 1; VInt 2; VInt 3] 3.
Proof. exact (arraylist_Clone_spec _ _ _ sample_list_repr). Defined.

Lemma arraylist_SubArrayList_spec_witness :
  exists c, SubArrayList 1 3 sample_list = (Ok c, sample_list) /\ repr c [VInt 2; VInt 3] 2.
Proof. exact (arraylist_SubArrayList_spec _ _ _ 1 3 sample_list_repr). Defined.

Lemma arraylist_ReplaceAllElements_spec_witness :
  exists s', ReplaceAllElements (pure_callback (fun _ k => VInt k)) (sample_list, tt) = (Ok VUndefined, (s', tt)) /\
    repr s' [VInt 0; VInt 1; VInt 2] 4.
Proof. exact (arraylist_ReplaceAllElements_spec (fun _ k => VInt k) _ _ _ tt sample_list_repr). Defined.

Lemma arraylist_ForEach_visits_witness :
  ForEach logging_callback 4 (sample_list, [])
  = (Ok VUndefined, (sample_list, [(VInt 1, 0); (VInt 2, 1); (VInt 3, 2)])).
Proof. exact (arraylist_ForEach_visits _ _ _ sample_list_repr). Defined.

Lemma arraylist_refines_list_witness :
  (run_ops (exec sample_heap)
     [OpAdd (VInt 1); OpInsert (VInt 2) 0; OpInsert (VInt 3) 7; OpRemoveByRange 0 1; OpGetAt 0; OpCapacity]
     ArrayListConstructor).1
  = [Ok (ABool true); Ok AUnit; Throw RANGE_ERROR; Ok (AValue VUndefined); Ok (AValue (VInt 1)); Ok (ANum 1)].
Proof.
  rewrite (arraylist_refines_list sample_heap
    [OpAdd (VInt 1); OpInsert (VInt 2) 0; OpInsert (VInt 3) 7; OpRemoveByRange 0 1; OpGetAt 0; OpCapacity]);
    [reflexivity|repeat constructor|vm_compute; discriminate].
Defined.

Lemma arraylist_iterator_yields_elements_witness :
  drain Next 4 NewJSAPIArrayListIterator sample_list = (Ok [VInt 1; VInt 2; VInt 3], sample_list).
Proof. exact (arraylist_iterator_yields_elements _ _ _ sample_list_repr). Defined.

End ArrayList.
