(* ===== verification/Vector.v ===== *)
(** * JSAPIVector: js_api_vector.cpp, js_api_vector.h, js_api_vector_iterator.cpp.

    The elements are at the start of the array; SetLength may move the length
    over slots whose words it neither writes nor clears.  The abstract state is
    the list of the elements with the words behind them ([repr]); the other
    operations act on the list and the capacity ([vector_refines_list]). *)
From S2P Require Import Prelude TaggedValue TaggedArray Ring.
Local Open Scope Z_scope.

Module Vector.

Record JSAPIVector : Type := mkVector {
  elements : TaggedArray;
  length_ : Z;
}.

Definition set_elements (a : TaggedArray) (s : JSAPIVector) : JSAPIVector := mkVector a (length_ s).
Definition set_length (n : Z) (s : JSAPIVector) : JSAPIVector := mkVector (elements s) n.

Definition on_elements {A} (m : M TaggedArray A) : M JSAPIVector A := zoom elements set_elements m.

Definition MAX_VALUE : Z := 0x7fffffff.
Definition MAX_ARRAY_SIZE : Z := MAX_VALUE - 8.
Definition DEFAULT_CAPACITY_LENGTH : Z := 10.

(** ObjectFactory::NewJSAPIVector; InitializeJSObject sets Length to 0. *)
Definition NewJSAPIVector (capacity : Z) : JSAPIVector :=
  mkVector (Factory.NewTaggedArray capacity VHole) 0.

(** ContainersVector::VectorConstructor gives a new vector its array. *)
Definition VectorConstructor : JSAPIVector :=
  mkVector (Factory.NewTaggedArray DEFAULT_CAPACITY_LENGTH VHole) 0.

Definition GetSize : M JSAPIVector Z := gets length_.

Definition GrowCapacity (minCapacity : Z) : M JSAPIVector unit :=
  elementData ← gets elements;
  let curCapacity := lenZ elementData in
  if curCapacity <? minCapacity then
    let oldCapacity := lenZ elementData in
    let newCapacity := u32 (oldCapacity * 2) in
    let newCapacity := if newCapacity <? minCapacity then minCapacity else newCapacity in
    let newCapacity :=
      if MAX_ARRAY_SIZE <? newCapacity
      then if MAX_ARRAY_SIZE <? minCapacity then MAX_VALUE else MAX_ARRAY_SIZE
      else newCapacity in
    newElements ← Factory.CopyArray elementData oldCapacity newCapacity VHole;
    modify (set_elements newElements)
  else mret tt.

Definition Add (value : JSTaggedValue) : M JSAPIVector bool :=
  length ← GetSize;
  GrowCapacity (u32 (length + 1));;
  on_elements (Arr.Set_ length value);;
  modify (set_length (u32 (length + 1)));;
  mret true.

Definition Insert (value : JSTaggedValue) (index : Z) : M JSAPIVector unit :=
  length ← GetSize;
  if (index <? 0) || (i32 length <? index) then throw RANGE_ERROR
  else
    GrowCapacity (u32 (length + 1));;
    on_elements (for_range_down (i32 length - 1) index Arr.shift_up;;
                 Arr.Set_ index value);;
    modify (set_length (u32 (length + 1))).

Definition SetLength (newSize : Z) : M JSAPIVector unit :=
  len ← GetSize;
  (if len <? newSize then GrowCapacity newSize else mret tt);;
  modify (set_length newSize).

Definition GetCapacity : M JSAPIVector Z := gets (fun s => lenZ (elements s)).

Definition IncreaseCapacityTo (newCapacity : Z) : M JSAPIVector unit :=
  if newCapacity <? 0 then throw RANGE_ERROR
  else
    elementData ← gets elements;
    let oldCapacity := lenZ elementData in
    let tempCapacity := u32 newCapacity in
    if oldCapacity <? tempCapacity then
      newElements ← Factory.CopyArray elementData oldCapacity tempCapacity VHole;
      modify (set_elements newElements)
    else mret tt.

Definition IsEmpty : M JSAPIVector bool := length ← GetSize; mret (length =? 0).

Definition GetFirstElement : M JSAPIVector JSTaggedValue :=
  length ← GetSize;
  if length =? 0 then mret VUndefined else on_elements (Arr.Get 0).

Definition GetLastElement : M JSAPIVector JSTaggedValue :=
  length ← GetSize;
  if length =? 0 then mret VUndefined else on_elements (Arr.Get (u32 (length - 1))).

Definition Get (index : Z) : M JSAPIVector JSTaggedValue :=
  len ← GetSize;
  if (index <? 0) || (i32 len <=? index) then throw RANGE_ERROR
  else on_elements (Arr.Get index).

(** Set checks no length; the array access does. *)
Definition Set_ (index : Z) (value : JSTaggedValue) : M JSAPIVector JSTaggedValue :=
  on_elements (Arr.Set_ index value);; mret VUndefined.

Section with_heap.
Context (heap : Heap).

Definition GetIndexFrom (obj : JSTaggedValue) (index : Z) : M JSAPIVector Z :=
  length ← GetSize;
  if negb (index <? 0) && (i32 length <=? index) then throw RANGE_ERROR
  else
    let index := if index <? 0 then 0 else index in
    r ← on_elements (find_up (Z.to_nat (length - index)) index (fun i =>
          v ← Arr.Get i;
          mret (if StrictEqual heap obj v then Some i else None)));
    mret (default (-1) r).

Definition GetIndexOf (obj : JSTaggedValue) : M JSAPIVector Z := GetIndexFrom obj 0.

Definition GetLastIndexFrom (obj : JSTaggedValue) (index : Z) : M JSAPIVector Z :=
  length ← GetSize;
  if i32 length <=? index then throw RANGE_ERROR
  else
    let index := if index <? 0 then 0 else index in
    r ← on_elements (find_down (Z.to_nat (index + 1)) index (fun i =>
          v ← Arr.Get i;
          mret (if StrictEqual heap obj v then Some i else None)));
    mret (default (-1) r).

Definition GetLastIndexOf (obj : JSTaggedValue) : M JSAPIVector Z :=
  length ← GetSize;
  let index := i32 length - 1 in
  if index <? 0 then mret (-1) else GetLastIndexFrom obj index.

Definition Remove (obj : JSTaggedValue) : M JSAPIVector bool :=
  index ← GetIndexOf obj;
  length ← GetSize;
  if 0 <=? index then
    on_elements (Arr.RemoveElementByIndex index length false);;
    modify (set_length (u32 (length - 1)));;
    mret true
  else mret false.

Definition Has (value : JSTaggedValue) : M JSAPIVector bool :=
  length ← GetSize;
  if length =? 0 then mret false
  else
    r ← on_elements (find_up (Z.to_nat length) 0 (fun i =>
          v ← Arr.Get i;
          mret (if SameValue heap v value then Some i else None)));
    mret (match r with Some _ => true | None => false end).
End with_heap.

Definition RemoveByIndex (index : Z) : M JSAPIVector JSTaggedValue :=
  length ← GetSize;
  if (index <? 0) || (i32 length <=? index) then throw RANGE_ERROR
  else
    oldValue ← on_elements (Arr.Get index);
    (if 0 <=? index then
       on_elements (Arr.RemoveElementByIndex index length false);;
       modify (set_length (u32 (length - 1)))
     else mret tt);;
    modify (set_length (u32 (length - 1)));;
    mret oldValue.

Definition RemoveByRange (fromIndex toIndex : Z) : M JSAPIVector JSTaggedValue :=
  len ← GetSize;
  let length := i32 len in
  if toIndex <=? fromIndex then throw RANGE_ERROR
  else if (fromIndex <? 0) || (length <=? fromIndex) then throw RANGE_ERROR
  else
    let endIndex := if length <=? toIndex then length else toIndex in
    let numMoved := length - endIndex in
    on_elements (for_range 0 numMoved (Arr.move_block fromIndex endIndex));;
    let newLength := length - (endIndex - fromIndex) in
    on_elements (Arr.SetLength newLength);;
    modify (set_length newLength);;
    mret (VBool true).

Definition SubVector (fromIndex toIndex : Z) : M JSAPIVector JSAPIVector :=
  len ← GetSize;
  let length := i32 len in
  if (fromIndex <? 0) || (toIndex <? 0) || (length <=? fromIndex) || (length <=? toIndex) then throw RANGE_ERROR
  else if toIndex <=? fromIndex then throw RANGE_ERROR
  else
    let newLength := u32 (toIndex - fromIndex) in
    let subVector := NewJSAPIVector newLength in
    elements' ← gets elements;
    build subVector
      (modify (set_length newLength);;
       for_range 0 newLength (fun i =>
         v ← Arr.GetFrom elements' (fromIndex + i);
         Set_ i v;;
         mret tt)).

(** The elements' strings are JSTaggedValue::ToString's, an argument. *)
Definition ToString (js_ToString : JSTaggedValue -> M JSAPIVector (list Z)) : M JSAPIVector (list Z) :=
  length ← GetSize;
  (fix loop (n : nat) (k : Z) (concatStr : list Z) : M JSAPIVector (list Z) :=
     match n with
     | O => mret concatStr
     | S n' =>
         element ← Get k;
         nextStr ← (if negb (IsUndefined element) && negb (IsNull element)
                    then js_ToString element else mret []);
         if 0 <? k then loop n' (k + 1) ((concatStr ++ [44]) ++ nextStr)
         else loop n' (k + 1) (concatStr ++ nextStr)
     end) (Z.to_nat length) 0 [].

Section callbacks.
Context {E : Type}.

Definition on_vector {A} (m : M JSAPIVector A) : M (JSAPIVector * E) A :=
  zoom fst (fun s p => (s, snd p)) m.

Context (callbackFn : JSTaggedValue -> Z -> M (JSAPIVector * E) JSTaggedValue).

(** The loop variables are k and the length last seen. *)
Definition foreach_step (p : Z * Z) : M (JSAPIVector * E) (Z * Z + unit) :=
  let '(k, length) := p in
  if k <? length then
    kValue ← on_vector (Get k);
    callbackFn kValue k;;
    size ← on_vector GetSize;
    let length' := if negb (length =? size) then size else length in
    mret (inl (u32 (k + 1), length'))
  else mret (inr tt).

Definition ForEach (fuel : nat) : M (JSAPIVector * E) JSTaggedValue :=
  length ← on_vector GetSize;
  while_fuel fuel foreach_step (0, length);;
  mret VUndefined.

Definition replace_step (p : Z * Z) : M (JSAPIVector * E) (Z * Z + unit) :=
  let '(k, length) := p in
  if k <? length then
    kValue ← on_vector (Get k);
    funcResult ← callbackFn kValue k;
    size ← on_vector GetSize;
    if negb (length =? size) then
      if size <=? k then mret (inr tt)
      else on_vector (Set_ k funcResult);; mret (inl (u32 (k + 1), size))
    else on_vector (Set_ k funcResult);; mret (inl (u32 (k + 1), length))
  else mret (inr tt).

Definition ReplaceAllElements (fuel : nat) : M (JSAPIVector * E) JSTaggedValue :=
  length ← on_vector GetSize;
  while_fuel fuel replace_step (0, length);;
  mret VUndefined.
End callbacks.

(** The key is the result of JSTaggedValue::ToElementIndex. *)
Definition GetOwnProperty (key : option Z) : M JSAPIVector bool :=
  match key with
  | None => throw TYPE_ERROR
  | Some index =>
      length ← GetSize;
      if length <=? index then throw RANGE_ERROR
      else Get (i32 index);; mret true
  end.

Definition TrimToCurrentLength : M JSAPIVector unit :=
  length ← GetSize;
  capacity ← GetCapacity;
  if length <? capacity then on_elements (Arr.Trim length) else mret tt.

Definition Clear : M JSAPIVector unit :=
  length ← GetSize;
  on_elements (for_range 0 length (fun i => Arr.Set_ i VHole));;
  modify (set_length 0).

Definition Clone : M JSAPIVector JSAPIVector :=
  srcElements ← gets elements;
  let newVector := NewJSAPIVector 0 in
  length ← GetSize;
  dstElements ← Factory.NewAndCopyTaggedArray srcElements length length 0;
  mret (set_elements dstElements (set_length length newVector)).

Definition GetProperty (index : Z) : M JSAPIVector JSTaggedValue :=
  length ← GetSize;
  if (index <? 0) || (i32 length <=? index) then throw RANGE_ERROR
  else Get index.

Definition SetProperty (index : Z) (value : JSTaggedValue) : M JSAPIVector bool :=
  length ← GetSize;
  if (index <? 0) || (i32 length <=? index) then mret false
  else Set_ index value;; mret true.

(** ObjectFactory::NewJSAPIVectorIterator. *)
Definition NewJSAPIVectorIterator : index_iterator := mkIter true 0.

Definition Next (iter : index_iterator) : M JSAPIVector (option JSTaggedValue * index_iterator) :=
  index_next GetSize (fun index => Get (i32 index)) iter.
(** ** The abstract state: the list and the capacity *)

Definition repr (s : JSAPIVector) (l : list JSTaggedValue) (cap : Z) : Prop :=
  exists junk, s = mkVector (l ++ junk) (lenZ l) /\ lenZ l + lenZ junk = cap /\ cap <= INT32_MAX.

(** The capacity GrowCapacity leaves when [need] elements are asked for. *)
Definition grown (need cap : Z) : Z :=
  if cap <? need then
    let c := Z.max (2 * cap) need in
    if MAX_ARRAY_SIZE <? c then (if MAX_ARRAY_SIZE <? need then MAX_VALUE else MAX_ARRAY_SIZE) else c
  else cap.

Lemma VectorConstructor_repr : repr VectorConstructor [] 10.
Proof. exists (replicate 10 VHole). by vm_compute. Qed.

Lemma vector_repr_bounds (s : JSAPIVector) (l : list JSTaggedValue) (cap : Z) :
  repr s l cap -> 0 <= lenZ l <= cap /\ cap < 2 ^ 31 /\ length_ s = lenZ l /\ lenZ (elements s) = cap.
Proof.
  intros (junk & -> & Hc & Hb). pose proof (lenZ_nonneg l). pose proof (lenZ_nonneg junk).
  unfold INT32_MAX in Hb. simpl. autorewrite with lenz. lia.
Qed.

Lemma vector_grown_bounds (need cap : Z) :
  0 <= cap <= INT32_MAX -> need <= INT32_MAX -> cap <= grown need cap <= INT32_MAX /\ need <= grown need cap.
Proof.
  unfold grown, MAX_ARRAY_SIZE, MAX_VALUE, INT32_MAX. intros Hc Hn.
  destruct (Z.ltb_spec cap need); [|lia].
  destruct (Z.ltb_spec (0x7fffffff - 8) (Z.max (2 * cap) need)); [|lia].
  destruct (Z.ltb_spec (0x7fffffff - 8) need); lia.
Qed.

(** GrowCapacity only adds words behind the array. *)
Lemma vector_GrowCapacity_run (a : TaggedArray) (n need : Z) :
  lenZ a <= INT32_MAX -> need <= INT32_MAX ->
  GrowCapacity need (mkVector a n)
  = (Ok tt, mkVector (a ++ replicate (Z.to_nat (grown need (lenZ a) - lenZ a)) VHole) n).
Proof.
  intros Ha Hn. pose proof (lenZ_nonneg a).
  pose proof (vector_grown_bounds need (lenZ a) ltac:(lia) Hn) as [Hb1 Hb2].
  unfold GrowCapacity. mstep. cbn [elements]. unfold grown in *.
  destruct (Z.ltb_spec (lenZ a) need) as [Hlt|].
  2: { rewrite Z.sub_diag, app_nil_r. done. }
  rewrite u32_small by (unfold INT32_MAX in *; lia).
  replace (if lenZ a * 2 <? need then need else lenZ a * 2) with (Z.max (2 * lenZ a) need)
    by (destruct (Z.ltb_spec (lenZ a * 2) need); lia).
  mstep by (apply CopyArray_grow; lia). done.
Qed.

(** The words behind the elements after a growth for one more element. *)
Lemma vector_grow_one (l junk : list JSTaggedValue) :
  lenZ l < INT32_MAX -> lenZ l + lenZ junk <= INT32_MAX ->
  exists y junk', GrowCapacity (u32 (lenZ l + 1)) (mkVector (l ++ junk) (lenZ l))
    = (Ok tt, mkVector (l ++ y :: junk') (lenZ l)) /\
    lenZ l + 1 + lenZ junk' = grown (lenZ l + 1) (lenZ l + lenZ junk) /\
    grown (lenZ l + 1) (lenZ l + lenZ junk) <= INT32_MAX.
Proof.
  intros Hb Hcap. pose proof (lenZ_nonneg l). pose proof (lenZ_nonneg junk).
  rewrite u32_small by (unfold INT32_MAX in *; lia).
  rewrite vector_GrowCapacity_run by (autorewrite with lenz; lia). autorewrite with lenz.
  destruct (vector_grown_bounds (lenZ l + 1) (lenZ l + lenZ junk)) as [? ?]; [lia..|].
  rewrite <- (assoc_L (++)). destruct (junk ++ replicate _ VHole) as [|y rest] eqn:E;
    apply (f_equal lenZ) in E; autorewrite with lenz in E; [lia|].
  exists y, rest. split; [done|]. lia.
Qed.

Lemma vector_Add_run (s : JSAPIVector) (l : list JSTaggedValue) (cap : Z) (v : JSTaggedValue) :
  repr s l cap -> lenZ l < INT32_MAX ->
  exists s', Add v s = (Ok true, s') /\ repr s' (l ++ [v]) (grown (lenZ l + 1) cap).
Proof.
  intros (junk & -> & <- & Hcap) Hb. pose proof (lenZ_nonneg l). unfold Add. mstep. cbn [length_].
  destruct (vector_grow_one l junk Hb Hcap) as (y & junk' & Hrun & Hlen & Hmax).
  mstep with Hrun. mstep by (apply zoom_run; by apply Set_mid).
  rewrite u32_small by (unfold INT32_MAX in *; lia).
  eexists. split; [reflexivity|]. exists junk'. unfold set_length, set_elements. simpl.
  rewrite <- (assoc_L (++)). simpl. split; [f_equal; lenz|]. split; [lenz|done].
Qed.

Lemma vector_Insert_run (s : JSAPIVector) (l : list JSTaggedValue) (cap i : Z) (v : JSTaggedValue) :
  repr s l cap -> lenZ l < INT32_MAX ->
  let ok := (0 <=? i) && (i <=? lenZ l) in
  exists s', Insert v i s = (if ok then Ok tt else Throw RANGE_ERROR, s') /\
    repr s' (if ok then take (Z.to_nat i) l ++ v :: drop (Z.to_nat i) l else l)
      (if ok then grown (lenZ l + 1) cap else cap).
Proof.
  intros Hr Hb ok. pose proof (vector_repr_bounds _ _ _ Hr) as (? & ? & Hn & _).
  unfold Insert. mstep. rewrite Hn, i32_id by lia. destruct ok eqn:Ei; unfold ok in Ei.
  2: { exists s. split; [|done]. by replace ((i <? 0) || (lenZ l <? i)) with true by lia. }
  replace ((i <? 0) || (lenZ l <? i)) with false by lia. destruct Hr as (junk & -> & <- & Hcap).
  destruct (split_len l i) as (pre & post & -> & <-); [lia|].
  destruct (vector_grow_one _ junk Hb Hcap) as (y & junk' & Hrun & Hlen & Hmax).
  mstep with Hrun. rewrite <- (assoc_L (++)).
  mstep by (apply zoom_run; simpl; apply insert_gap_run; lenz).
  rewrite u32_small by (unfold INT32_MAX in *; lia).
  eexists. split; [reflexivity|]. rewrite take_app_length', drop_app_length' by lenz.
  exists junk'. unfold set_length, set_elements. simpl.
  rewrite <- (assoc_L (++)). simpl. split; [f_equal; lenz|]. split; [lenz|done].
Qed.

Lemma vector_Get_run (s : JSAPIVector) (l : list JSTaggedValue) (cap i : Z) :
  repr s l cap ->
  Get i s = (match (if i <? 0 then None else l !! Z.to_nat i) with
             | Some x => Ok x | None => Throw RANGE_ERROR end, s).
Proof.
  intros Hr. pose proof (vector_repr_bounds _ _ _ Hr) as (? & ? & Hn & _).
  unfold Get. mstep. rewrite Hn, i32_id by lia.
  destruct (Z.ltb_spec i 0); simpl; [done|]. destruct (Z.leb_spec (lenZ l) i).
  { by rewrite lookup_ge_None_2 by (unfold lenZ in *; lia). }
  destruct Hr as (junk & -> & <- & Hcap).
  destruct (split_at l i) as (pre & x & post & -> & <-); [lia|].
  unfold on_elements. erewrite zoom_run; [|simpl; rewrite <- (assoc_L (++)); by apply Get_mid].
  unfold set_elements. simpl. rewrite <- (assoc_L (++)). simpl.
  unfold lenZ at 2. by rewrite Nat2Z.id, list_lookup_middle.
Qed.

Lemma vector_Set_run (s : JSAPIVector) (l : list JSTaggedValue) (cap i : Z) (v : JSTaggedValue) :
  repr s l cap -> 0 <= i < lenZ l ->
  exists s', Set_ i v s = (Ok VUndefined, s') /\ repr s' (<[Z.to_nat i := v]> l) cap.
Proof.
  intros (junk & -> & <- & Hcap) Hi. unfold Set_.
  destruct (split_at l i) as (pre & x & post & -> & Hp); [lia|].
  mstep by (apply zoom_run; simpl; rewrite <- (assoc_L (++)); by apply Set_mid).
  eexists. split; [reflexivity|]. exists junk. unfold set_elements. simpl.
  replace (Z.to_nat i) with (length pre + 0)%nat by lenz. rewrite insert_app_r. simpl.
  rewrite <- (assoc_L (++)). simpl. split; [f_equal; lenz|]. split; [lenz|done].
Qed.

Lemma vector_SetProperty_run (s : JSAPIVector) (l : list JSTaggedValue) (cap i : Z) (v : JSTaggedValue) :
  repr s l cap ->
  let inside := (0 <=? i) && (i <? lenZ l) in
  exists s', SetProperty i v s = (Ok inside, s') /\ repr s' (if inside then <[Z.to_nat i := v]> l else l) cap.
Proof.
  intros Hr inside. pose proof (vector_repr_bounds _ _ _ Hr) as (? & ? & Hn & _).
  unfold SetProperty. mstep. rewrite Hn, i32_id by lia. destruct inside eqn:Ei; unfold inside in Ei.
  - replace ((i <? 0) || (lenZ l <=? i)) with false by lia.
    destruct (vector_Set_run s l cap i v Hr ltac:(lia)) as (s' & Hrun & Hr'). exists s'. mstep with Hrun. done.
  - exists s. by replace ((i <? 0) || (lenZ l <=? i)) with true by lia.
Qed.

Lemma vector_RemoveElement_run (s : JSAPIVector) (pre post : list JSTaggedValue) (x : JSTaggedValue) (cap : Z) :
  repr s (pre ++ x :: post) cap ->
  let len := lenZ (pre ++ x :: post) in
  exists s', (on_elements (Arr.RemoveElementByIndex (lenZ pre) len false);; modify (set_length (u32 (len - 1)))) s
    = (Ok tt, s') /\ repr s' (pre ++ post) cap.
Proof.
  intros (junk & -> & <- & Hcap) len. pose proof (lenZ_nonneg junk). unfold INT32_MAX in *.
  pose proof (lenZ_nonneg pre). pose proof (lenZ_nonneg post).
  assert (u32 (len - 1) = lenZ (pre ++ post)) as -> by (unfold len; rewrite u32_small; lenz).
  unfold len. rewrite <- (assoc_L (++)). simpl.
  mstep by (apply zoom_run; simpl; apply RemoveElementByIndex_run; lenz).
  eexists. split; [reflexivity|]. exists (VHole :: junk). unfold set_elements, set_length. simpl.
  rewrite <- (assoc_L (++)). split; [done|]. unfold INT32_MAX. lenz.
Qed.

Lemma vector_RemoveByIndex_run (s : JSAPIVector) (l : list JSTaggedValue) (cap i : Z) :
  repr s l cap ->
  exists s', RemoveByIndex i s =
      (match (if i <? 0 then None else l !! Z.to_nat i) with Some x => Ok x | None => Throw RANGE_ERROR end, s') /\
    repr s' (match (if i <? 0 then None else l !! Z.to_nat i) with Some _ => delete (Z.to_nat i) l | None => l end) cap.
Proof.
  intros Hr. pose proof (vector_repr_bounds _ _ _ Hr) as (? & ? & Hn & _).
  unfold RemoveByIndex. mstep. rewrite Hn, i32_id by lia.
  destruct ((i <? 0) || (lenZ l <=? i)) eqn:Ei.
  - replace (if i <? 0 then None else l !! Z.to_nat i) with (@None JSTaggedValue).
    2: { destruct (Z.ltb_spec i 0); [done|]. rewrite lookup_ge_None_2; [done|unfold lenZ in *; lia]. }
    by exists s.
  - destruct (split_at l i) as (pre & x & post & -> & <-); [lia|].
    destruct (vector_RemoveElement_run _ _ _ _ _ Hr) as (s' & Hrun & Hr'). pose proof (lenZ_nonneg pre).
    rewrite (proj2 (Z.ltb_ge (lenZ pre) 0)), (proj2 (Z.leb_le 0 (lenZ pre))) by lia.
    unfold lenZ at 6 7 8. rewrite Nat2Z.id, list_lookup_middle, delete_middle by done.
    pose proof Hr as (junk & Hs & _).
    assert (on_elements (Arr.Get (lenZ pre)) s = (Ok x, s)) as Hget.
    { subst s. unfold on_elements. erewrite zoom_run; [|simpl; rewrite <- (assoc_L (++)); by apply Get_mid].
      unfold set_elements. simpl. by rewrite <- (assoc_L (++)). }
    mstep with Hget. mstep with Hrun. mstep. eexists. split; [reflexivity|].
    destruct Hr' as (junk' & -> & Hc & Hb). exists junk'. unfold set_length. simpl.
    pose proof (lenZ_nonneg post). split; [|done]. f_equal. autorewrite with lenz in *. rewrite u32_small; lia.
Qed.

(** ** Searches *)

Section searches.
Context (heap : Heap).

Lemma vector_GetIndexFrom_run (s : JSAPIVector) (l : list JSTaggedValue) (cap i : Z) (v : JSTaggedValue) :
  repr s l cap ->
  let start := Z.max i 0 in
  GetIndexFrom heap v i s =
    (if (0 <=? i) && (lenZ l <=? i) then Throw RANGE_ERROR
     else Ok (default (-1) ((fun j => start + j) <$> find_index (StrictEqual heap v) (drop (Z.to_nat start) l))), s).
Proof.
  intros Hr start. pose proof (vector_repr_bounds _ _ _ Hr) as (? & ? & Hn & _).
  unfold GetIndexFrom. mstep. rewrite Hn, i32_id by lia.
  replace (negb (i <? 0)) with (0 <=? i) by lia. destruct (_ && _) eqn:Ei; [done|].
  replace (if i <? 0 then 0 else i) with start by (unfold start; destruct (Z.ltb_spec i 0); lia).
  destruct Hr as (junk & -> & _).
  destruct (split_len l start) as (pre & mid & -> & Hp); [lia|]. autorewrite with lenz in *.
  replace (Z.to_nat (lenZ pre + lenZ mid - start)) with (length mid) by lenz.
  rewrite drop_app_length' by lenz.
  mstep by (apply zoom_run; simpl; rewrite <- (assoc_L (++)); by apply (find_up_run (StrictEqual heap v))).
  unfold set_elements. simpl. rewrite <- (assoc_L (++)). done.
Qed.

Lemma vector_GetIndexOf_run (s : JSAPIVector) (l : list JSTaggedValue) (cap : Z) (v : JSTaggedValue) :
  repr s l cap ->
  GetIndexOf heap v s =
    (if lenZ l =? 0 then Throw RANGE_ERROR
     else Ok (default (-1) (find_index (StrictEqual heap v) l)), s).
Proof.
  intros Hr. pose proof (lenZ_nonneg l). unfold GetIndexOf. rewrite (vector_GetIndexFrom_run s l cap 0 v Hr).
  change (Z.max 0 0) with 0. rewrite drop_0. replace (lenZ l <=? 0) with (lenZ l =? 0) by lia.
  simpl. destruct (lenZ l =? 0); [done|]. by destruct (find_index _ l).
Qed.

(** GetLastIndexFrom searches the first index + 1 elements from the back and
    refuses an index behind the last element, on every vector that has one. *)
Theorem vector_GetLastIndexFrom_spec (s : JSAPIVector) (l : list JSTaggedValue) (cap i : Z) (v : JSTaggedValue) :
  repr s l cap -> 0 < lenZ l ->
  GetLastIndexFrom heap v i s =
    (if lenZ l <=? i then Throw RANGE_ERROR
     else Ok (default (-1) (find_last_index (StrictEqual heap v) (take (Z.to_nat (Z.max i 0 + 1)) l))), s).
Proof.
  intros Hr Hpos. pose proof (vector_repr_bounds _ _ _ Hr) as (? & ? & Hn & _).
  unfold GetLastIndexFrom. mstep. rewrite Hn, i32_id by lia. destruct (Z.leb_spec (lenZ l) i); [done|].
  replace (if i <? 0 then 0 else i) with (Z.max i 0) by (destruct (Z.ltb_spec i 0); lia).
  destruct Hr as (junk & -> & _).
  destruct (split_len l (Z.max i 0 + 1)) as (mid & post & -> & Hp); [lia|].
  replace (Z.to_nat (Z.max i 0 + 1)) with (length mid) by lenz. rewrite take_app_length.
  mstep by (apply zoom_run; simpl; rewrite <- (assoc_L (++)); apply (find_down_run (StrictEqual heap v)); lia).
  unfold set_elements. simpl. rewrite <- (assoc_L (++)). done.
Qed.

(** On an empty vector whose array has no slot, getLastIndexFrom with a
    negative index reads slot 0, outside the array. *)
Theorem vector_GetLastIndexFrom_empty (s : JSAPIVector) (i : Z) (v : JSTaggedValue) :
  repr s [] 0 -> i < 0 -> (GetLastIndexFrom heap v i s).1 = Fault.
Proof.
  intros (junk & -> & Hj & _) Hi. autorewrite with lenz in *. rewrite (lenZ_zero junk) by lia. simpl.
  unfold GetLastIndexFrom. mstep. cbn [length_]. rewrite i32_id by lia. zb. reflexivity.
Qed.

Lemma vector_GetLastIndexOf_run (s : JSAPIVector) (l : list JSTaggedValue) (cap : Z) (v : JSTaggedValue) :
  repr s l cap -> GetLastIndexOf heap v s = (Ok (default (-1) (find_last_index (StrictEqual heap v) l)), s).
Proof.
  intros Hr. pose proof (vector_repr_bounds _ _ _ Hr) as (? & ? & Hn & _).
  unfold GetLastIndexOf. mstep. rewrite Hn, i32_id by lia.
  destruct (Z.ltb_spec (lenZ l - 1) 0). { rewrite (lenZ_zero l) by lia. done. }
  unfold GetLastIndexFrom. mstep. rewrite Hn, i32_id by lia. zb.
  destruct Hr as (junk & -> & _). replace (Z.to_nat (lenZ l - 1 + 1)) with (length l) by lenz.
  mstep by (apply zoom_run; simpl; apply (find_down_run (StrictEqual heap v)); lia). done.
Qed.

Lemma vector_Has_run (s : JSAPIVector) (l : list JSTaggedValue) (cap : Z) (v : JSTaggedValue) :
  repr s l cap -> Has heap v s = (Ok (existsb (fun x => SameValue heap x v) l), s).
Proof.
  intros (junk & -> & _). unfold Has. mstep. cbn [length_].
  destruct (Z.eqb_spec (lenZ l) 0) as [E|_].
  { by rewrite (lenZ_zero l E). }
  mstep by (apply zoom_run; simpl; unfold lenZ; rewrite Nat2Z.id;
            by apply (find_up_run (fun x => SameValue heap x v) [])).
  rewrite existsb_find_index. by destruct (find_index _ l).
Qed.

Lemma vector_Remove_run (s : JSAPIVector) (l : list JSTaggedValue) (cap : Z) (v : JSTaggedValue) :
  repr s l cap ->
  let r := find_index (StrictEqual heap v) l in
  exists s',
    Remove heap v s = (if lenZ l =? 0 then Throw RANGE_ERROR
                       else Ok (match r with Some _ => true | None => false end), s') /\
    repr s' (match r with Some i => delete (Z.to_nat i) l | None => l end) cap.
Proof.
  intros Hr r. pose proof (vector_repr_bounds _ _ _ Hr) as (? & ? & Hn & _).
  unfold Remove. pose proof (vector_GetIndexOf_run s l cap v Hr) as Hidx.
  destruct (Z.eqb_spec (lenZ l) 0) as [E|E].
  { exists s. rewrite (bind_Throw _ _ _ _ _ Hidx). unfold r. by rewrite (lenZ_zero l E) in *. }
  mstep with Hidx. mstep. rewrite Hn. fold r.
  destruct r as [i|] eqn:Er; [|by exists s]. simpl. unfold r in Er.
  apply find_index_Some in Er as (pre & x & post & -> & <- & _). pose proof (lenZ_nonneg pre). zb.
  destruct (vector_RemoveElement_run _ _ _ _ _ Hr) as (s' & Hrun & Hr'). exists s'.
  rewrite bind_assoc. mstep with Hrun. split; [done|].
  unfold lenZ. by rewrite Nat2Z.id, delete_middle.
Qed.
End searches.

(** ** Ranges and capacity *)

Lemma vector_RemoveByRange_run (s : JSAPIVector) (l : list JSTaggedValue) (cap i j : Z) :
  repr s l cap ->
  let ok := (i <? j) && (0 <=? i) && (i <? lenZ l) in
  let l' := take (Z.to_nat i) l ++ drop (Z.to_nat (Z.min j (lenZ l))) l in
  exists s', RemoveByRange i j s = (if ok then Ok (VBool true) else Throw RANGE_ERROR, s') /\
    repr s' (if ok then l' else l) (if ok then lenZ l' else cap).
Proof.
  intros Hr ok l'. pose proof (vector_repr_bounds _ _ _ Hr) as (? & ? & Hn & _).
  unfold RemoveByRange. mstep. rewrite Hn, i32_id by lia. destruct ok eqn:Eo; unfold ok in Eo.
  2: { exists s. split; [|done]. destruct (Z.leb_spec j i); [done|].
       by replace ((i <? 0) || (lenZ l <=? i)) with true by lia. }
  rewrite (proj2 (Z.leb_gt j i)) by lia. replace ((i <? 0) || (lenZ l <=? i)) with false by lia.
  replace (if lenZ l <=? j then lenZ l else j) with (Z.min j (lenZ l)) by (destruct (Z.leb_spec (lenZ l) j); lia).
  destruct Hr as (junk & -> & <- & Hcap). pose proof (lenZ_nonneg junk).
  set (e := Z.min j (lenZ l)) in *. assert (i < e <= lenZ l) as He by lia.
  destruct (split_len l i) as (pre & rest & -> & Hp); [lia|].
  destruct (split_len rest (e - i)) as (mid & post & -> & Hm); [autorewrite with lenz in *; lia|].
  assert (l' = pre ++ post) as ->.
  { unfold l'. rewrite take_app_length', (assoc_L (++)), drop_app_length' by lenz. done. }
  destruct (move_block_loop pre mid post junk i e 0) as (junk' & Hj & Hrun); [lia|lia|lia|].
  unfold for_range. replace (Z.to_nat _) with (length post) by (autorewrite with lenz in *; unfold lenZ in *; lia).
  mstep by (apply zoom_run; simpl; rewrite <- !(assoc_L (++)); exact Hrun).
  replace (lenZ (pre ++ mid ++ post) - (e - i)) with (lenZ (pre ++ post)) by (autorewrite with lenz; lia).
  mstep by (apply zoom_run; simpl; unfold Arr.SetLength;
    rewrite (proj2 (Z.leb_le _ _)), (proj2 (Z.leb_le _ _)) by lenz; reflexivity).
  mstep. eexists. split; [reflexivity|]. exists []. unfold set_elements, set_length. simpl.
  rewrite app_nil_r, (assoc_L (++)), take_app_length' by lenz. split; [done|].
  autorewrite with lenz in *. lia.
Qed.

Lemma vector_IncreaseCapacityTo_run (s : JSAPIVector) (l : list JSTaggedValue) (cap c : Z) :
  repr s l cap -> c <= INT32_MAX ->
  exists s', IncreaseCapacityTo c s = (if c <? 0 then Throw RANGE_ERROR else Ok tt, s') /\ repr s' l (Z.max cap c).
Proof.
  intros (junk & -> & <- & Hcap) Hc. pose proof (lenZ_nonneg l). pose proof (lenZ_nonneg junk).
  unfold IncreaseCapacityTo. destruct (Z.ltb_spec c 0).
  { eexists. split; [reflexivity|]. exists junk. split; [done|]. lia. }
  mstep. cbn [elements]. rewrite u32_small by (unfold INT32_MAX in *; lia).
  destruct (Z.ltb_spec (lenZ (l ++ junk)) c) as [Hlt|Hge]; autorewrite with lenz in Hlt || autorewrite with lenz in Hge.
  - mstep by (apply CopyArray_grow; autorewrite with lenz; lia).
    eexists. split; [reflexivity|]. eexists. split; [unfold set_elements; simpl; by rewrite <- (assoc_L (++))|].
    autorewrite with lenz. lia.
  - eexists. split; [reflexivity|]. exists junk. split; [done|]. lia.
Qed.

Lemma vector_Trim_run (s : JSAPIVector) (l : list JSTaggedValue) (cap : Z) :
  repr s l cap -> exists s', TrimToCurrentLength s = (Ok tt, s') /\ repr s' l (lenZ l).
Proof.
  intros (junk & -> & <- & Hcap). pose proof (lenZ_nonneg l). pose proof (lenZ_nonneg junk).
  unfold TrimToCurrentLength. mstep. mstep. cbn [elements length_]. autorewrite with lenz.
  destruct (Z.ltb_spec (lenZ l) (lenZ l + lenZ junk)) as [E|E].
  - unfold on_elements, Arr.Trim. erewrite zoom_run.
    2: { simpl. mstep. autorewrite with lenz. zb. mstep. unfold Arr.SetLength. autorewrite with lenz. zb.
         unfold lenZ. rewrite Nat2Z.id, take_app_length. reflexivity. }
    eexists. split; [reflexivity|]. exists []. rewrite app_nil_r. unfold set_elements. simpl. split; [done|]. lenz.
  - eexists. split; [reflexivity|]. exists []. rewrite (lenZ_zero junk) by lia. split; [done|]. lenz.
Qed.

Lemma vector_Clear_run (s : JSAPIVector) (l : list JSTaggedValue) (cap : Z) :
  repr s l cap -> exists s', Clear s = (Ok tt, s') /\ repr s' [] cap.
Proof.
  intros (junk & -> & <- & Hcap). unfold Clear. mstep. cbn [length_]. unfold for_range.
  rewrite Z.sub_0_r. replace (Z.to_nat (lenZ l)) with (length l) by lenz.
  mstep by (apply zoom_run; exact (fill_loop [] l junk VHole 0 eq_refl)).
  eexists. split; [reflexivity|]. exists (replicate (length l) VHole ++ junk).
  unfold set_length, set_elements. simpl. split; [done|]. lenz.
Qed.

Lemma vector_Clone_run (s : JSAPIVector) (l : list JSTaggedValue) (cap : Z) :
  repr s l cap -> exists c, Clone s = (Ok c, s) /\ repr c l (lenZ l).
Proof.
  intros (junk & -> & <- & Hcap). pose proof (lenZ_nonneg junk). unfold Clone. mstep. mstep.
  cbn [elements length_].
  mstep by (pose proof (@NewAndCopyTaggedArray_run JSAPIVector [] l junk) as G; simpl in G; apply G; (done || lia)).
  eexists. split; [reflexivity|]. exists []. rewrite Z.sub_diag. split; [done|]. lenz.
Qed.

(** SetLength(n) cuts the list to n elements or lengthens it by words it
    does not write; in both cases it neither clears nor moves anything, so the
    elements cut off by one call are back after a call with the old length. *)
Theorem vector_SetLength_restores (s : JSAPIVector) (l : list JSTaggedValue) (cap n : Z) :
  repr s l cap -> 0 <= n <= lenZ l ->
  exists s', SetLength n s = (Ok tt, s') /\ repr s' (take (Z.to_nat n) l) cap /\
    SetLength (lenZ l) s' = (Ok tt, s).
Proof.
  intros (junk & -> & <- & Hcap) Hn. pose proof (lenZ_nonneg junk).
  unfold SetLength. mstep. cbn [length_]. rewrite (proj2 (Z.ltb_ge (lenZ l) n)) by lia. mstep.
  eexists. split; [reflexivity|]. unfold set_length at 1. cbn [elements]. split.
  - exists (drop (Z.to_nat n) l ++ junk). rewrite (assoc_L (++)), take_drop. unfold lenZ in *.
    rewrite length_app, length_take, length_drop. split; [f_equal; lia|lia].
  - mstep. unfold set_length. cbn [elements length_]. destruct (Z.ltb_spec n (lenZ l)); [|by mstep].
    unfold GrowCapacity. rewrite <- bind_assoc. mstep. cbn [elements].
    rewrite (proj2 (Z.ltb_ge _ (lenZ l))) by lenz. by mstep.
Qed.

(** The loop of SubVector fills the new vector in order. *)
Lemma vector_sub_loop (pre mid post done_ rest : list JSTaggedValue) (i n : Z) :
  lenZ done_ = i -> length rest = length mid ->
  for_up (length mid) i (fun i => v ← Arr.GetFrom (pre ++ done_ ++ mid ++ post) (lenZ pre + i);
                                  Set_ i v;; mret tt)
    (mkVector (done_ ++ rest) n)
  = (Ok tt, mkVector (done_ ++ mid) n).
Proof.
  revert done_ rest i. induction mid as [|x mid IH]; intros done_ rest i Hi Hr.
  { destruct rest; done. }
  destruct rest as [|y rest]; [done|]. simpl length. erewrite for_up_cons.
  2: { mstep by (rewrite (assoc_L (++) pre); apply GetFrom_mid; lenz).
       mstep by (unfold Set_; mstep by (apply zoom_run; simpl; by apply Set_mid); reflexivity).
       reflexivity. }
  specialize (IH (done_ ++ [x]) rest (i + 1)). rewrite <- !(assoc_L (++)) in IH. simpl in IH.
  apply IH; [lenz|simpl in Hr; lia].
Qed.

(** SubVector(from, to) is the segment [from, to) for 0 <= from < to <
    length; in particular the last element is in no sub-vector, since an end
    index equal to the length is refused. *)
Theorem vector_SubVector_spec (s : JSAPIVector) (l : list JSTaggedValue) (cap fromIndex toIndex : Z) :
  repr s l cap ->
  if (0 <=? fromIndex) && (fromIndex <? toIndex) && (toIndex <? lenZ l)
  then exists c, SubVector fromIndex toIndex s = (Ok c, s) /\
         repr c (take (Z.to_nat (toIndex - fromIndex)) (drop (Z.to_nat fromIndex) l)) (toIndex - fromIndex)
  else SubVector fromIndex toIndex s = (Throw RANGE_ERROR, s).
Proof.
  intros Hr. pose proof (vector_repr_bounds _ _ _ Hr) as (? & ? & Hn & _).
  unfold SubVector. mstep. rewrite Hn, i32_id by lia.
  destruct (_ && _) eqn:E.
  2: { cbv iota. destruct ((fromIndex <? 0) || _ || _ || _) eqn:E1; [done|].
       by rewrite (proj2 (Z.leb_le toIndex fromIndex)) by lia. }
  rewrite !andb_true_iff, Z.leb_le, !Z.ltb_lt in E. destruct E as [[Hf Hft] Ht].
  replace ((fromIndex <? 0) || _ || _ || _) with false by lia.
  rewrite (proj2 (Z.leb_gt toIndex fromIndex)) by lia. mstep. destruct Hr as (junk & -> & <- & Hcap).
  cbn [elements]. rewrite u32_small by lia. pose proof (lenZ_nonneg junk).
  destruct (split_len l fromIndex) as (pre & rest & -> & Hp); [lia|].
  destruct (split_len rest (toIndex - fromIndex)) as (mid & post & -> & Hm); [autorewrite with lenz in *; lia|].
  unfold lenZ in Hp, Hm. rewrite drop_app_length', take_app_length' by lia. fold (lenZ pre) (lenZ mid) in Hp, Hm.
  erewrite build_run.
  2: { mstep. unfold for_range. rewrite Z.sub_0_r. replace (Z.to_nat (toIndex - fromIndex)) with (length mid) by lenz.
       rewrite <- Hm, <- Hp, <- !(assoc_L (++)).
       unfold set_length, NewJSAPIVector, Factory.NewTaggedArray. cbn [elements].
       rewrite (proj2 (Z.eqb_neq (lenZ mid) 0)) by lia.
       replace (Z.to_nat (lenZ mid)) with (length mid) by lenz.
       apply (vector_sub_loop pre mid (post ++ junk) [] (replicate (length mid) VHole) 0 _ eq_refl).
       by rewrite length_replicate. }
  eexists. split; [done|]. exists []. rewrite app_nil_r. split; [done|]. autorewrite with lenz in *. lia.
Qed.

(** ** Callbacks *)

Section callback_lemmas.
Context {E : Type}.

Definition pure_callback (f : JSTaggedValue -> Z -> JSTaggedValue) :
    JSTaggedValue -> Z -> M (JSAPIVector * E) JSTaggedValue :=
  fun v k => mret (f v k).

Lemma vector_replace_loop (f : JSTaggedValue -> Z -> JSTaggedValue) (l1 l2 : list JSTaggedValue) (s : JSAPIVector) (cap : Z) (e : E) (fuel : nat) :
  repr s (l1 ++ l2) cap -> (length l2 < fuel)%nat ->
  exists s', while_fuel fuel (replace_step (pure_callback f)) (lenZ l1, lenZ (l1 ++ l2)) (s, e) = (Ok tt, (s', e)) /\
    repr s' (l1 ++ imap (fun j v => f v (lenZ l1 + Z.of_nat j)) l2) cap.
Proof.
  revert l1 s fuel. induction l2 as [|x l2 IH]; intros l1 s fuel Hr Hf;
    (destruct fuel as [|fuel]; [simpl in Hf; lia|]); simpl while_fuel;
    pose proof (vector_repr_bounds _ _ _ Hr) as (? & ? & Hn & _); pose proof (lenZ_nonneg l1).
  - exists s. simpl imap. rewrite !app_nil_r in *. split; [|done].
    mstep by (unfold replace_step; zb; reflexivity). done.
  - pose proof (lenZ_nonneg l2). assert (lenZ l1 < lenZ (l1 ++ x :: l2)) by lenz. set (y := f x (lenZ l1)).
    destruct (vector_Set_run s _ cap (lenZ l1) y Hr) as (s1 & Hset & Hr1); [lia|].
    replace (Z.to_nat (lenZ l1)) with (length l1 + 0)%nat in Hr1 by lenz.
    rewrite insert_app_r in Hr1. simpl in Hr1.
    destruct (IH (l1 ++ [y]) s1 fuel) as (s' & Hrun & Hr'); [by rewrite <- (assoc_L (++))|simpl in Hf; lia|].
    exists s'. split.
    + mstep by (unfold replace_step; zb;
        mstep by (apply zoom_run; simpl; rewrite (vector_Get_run s _ cap (lenZ l1) Hr);
                  rewrite (proj2 (Z.ltb_ge (lenZ l1) 0)) by lia;
                  unfold lenZ; rewrite Nat2Z.id, list_lookup_middle by done; reflexivity);
        mstep; mstep by (apply zoom_run; reflexivity); cbn [fst snd]; rewrite Hn, Z.eqb_refl; cbn [negb];
        mstep by (apply zoom_run; exact Hset); reflexivity).
      rewrite u32_small by (autorewrite with lenz in *; lia).
      replace (lenZ l1 + 1) with (lenZ (l1 ++ [y])) by lenz.
      replace (lenZ (l1 ++ x :: l2)) with (lenZ ((l1 ++ [y]) ++ l2)) by lenz. exact Hrun.
    + rewrite <- (assoc_L (++)) in Hr'. simpl. rewrite Z.add_0_r. fold y. simpl in Hr'.
      erewrite imap_ext; [exact Hr'|]. intros j v _. simpl. f_equal. lenz.
Qed.

(** ReplaceAllElements with a callback that does not touch the vector maps
    it over the elements and their indices. *)
Theorem vector_ReplaceAllElements_spec (f : JSTaggedValue -> Z -> JSTaggedValue) (l : list JSTaggedValue) (s : JSAPIVector) (cap : Z) (e : E) :
  repr s l cap ->
  exists s', ReplaceAllElements (pure_callback f) (S (length l)) (s, e) = (Ok VUndefined, (s', e)) /\
    repr s' (imap (fun j v => f v (Z.of_nat j)) l) cap.
Proof.
  intros Hr. pose proof (vector_repr_bounds _ _ _ Hr) as (? & ? & Hn & _).
  destruct (vector_replace_loop f [] l s cap e (S (length l)) Hr ltac:(lia)) as (s' & Hrun & Hr').
  exists s'. split; [|exact Hr']. unfold ReplaceAllElements.
  mstep by (apply zoom_run; reflexivity). cbn [fst snd]. rewrite Hn. mstep with Hrun. done.
Qed.
End callback_lemmas.

(** The words of the string: the elements' strings between commas. *)
Definition join (f : JSTaggedValue -> list Z) (l : list JSTaggedValue) : list Z :=
  match l with [] => [] | x :: l' => f x ++ concat (map (fun y => 44 :: f y) l') end.

(** The string of an element; undefined and null give the empty one. *)
Definition element_string (str : JSTaggedValue -> list Z) (v : JSTaggedValue) : list Z :=
  if negb (IsUndefined v) && negb (IsNull v) then str v else [].

(** ToString joins the elements' strings with commas, and undefined and null
    elements give empty strings. *)
Theorem vector_ToString_spec (str : JSTaggedValue -> list Z) (s : JSAPIVector) (l : list JSTaggedValue) (cap : Z) :
  repr s l cap -> ToString (fun v => mret (str v)) s = (Ok (join (element_string str) l), s).
Proof.
  intros Hr. pose proof (vector_repr_bounds _ _ _ Hr) as (? & ? & Hn & _).
  unfold ToString. mstep. rewrite Hn.
  match goal with |- ?f _ _ _ _ = _ => set (loop := f) end.
  assert (forall l2 l1 acc, l = l1 ++ l2 -> 0 < lenZ l1 ->
    loop (length l2) (lenZ l1) acc s = (Ok (acc ++ concat (map (fun y => 44 :: element_string str y) l2)), s)) as Hloop.
  { induction l2 as [|x l2 IH]; intros l1 acc -> Hpos; [simpl; by rewrite app_nil_r|]. simpl.
    mstep by (rewrite (vector_Get_run s _ cap (lenZ l1) Hr), (proj2 (Z.ltb_ge (lenZ l1) 0)) by lia;
              unfold lenZ; rewrite Nat2Z.id, list_lookup_middle by done; reflexivity).
    mstep by (instantiate (2 := element_string str x); unfold element_string; by destruct (_ && _)). zb.
    replace (lenZ l1 + 1) with (lenZ (l1 ++ [x])) by lenz.
    rewrite IH; [|by rewrite <- (assoc_L (++))|lenz]. by rewrite <- !(assoc_L (++)). }
  destruct l as [|x l]; [done|]. replace (Z.to_nat (lenZ (x :: l))) with (S (length l)) by lenz. simpl.
  mstep by (rewrite (vector_Get_run s _ cap 0 Hr); reflexivity).
  mstep by (instantiate (2 := element_string str x); unfold element_string; by destruct (_ && _)).
  by rewrite (Hloop l [x]).
Qed.

(** ** Sequences of operations *)

Inductive op : Type :=
| OpAdd (v : JSTaggedValue)
| OpInsert (v : JSTaggedValue) (i : Z)
| OpRemoveByIndex (i : Z)
| OpRemove (v : JSTaggedValue)
| OpRemoveByRange (i j : Z)
| OpGetAt (i : Z)
| OpSetAt (i : Z) (v : JSTaggedValue)
| OpFirst
| OpLast
| OpIndexFrom (v : JSTaggedValue) (i : Z)
| OpLastIndexOf (v : JSTaggedValue)
| OpHas (v : JSTaggedValue)
| OpSize
| OpIsEmpty
| OpClear
| OpIncreaseCapacityTo (c : Z)
| OpTrim
| OpCapacity.

Inductive answer : Type :=
| AUnit
| AValue (v : JSTaggedValue)
| ABool (b : bool)
| ANum (z : Z).

Section ops.
Context (heap : Heap).

Definition exec (o : op) : M JSAPIVector answer :=
  match o with
  | OpAdd v => b ← Add v; mret (ABool b)
  | OpInsert v i => Insert v i;; mret AUnit
  | OpRemoveByIndex i => v ← RemoveByIndex i; mret (AValue v)
  | OpRemove v => b ← Remove heap v; mret (ABool b)
  | OpRemoveByRange i j => v ← RemoveByRange i j; mret (AValue v)
  | OpGetAt i => v ← Get i; mret (AValue v)
  | OpSetAt i v => b ← SetProperty i v; mret (ABool b)
  | OpFirst => v ← GetFirstElement; mret (AValue v)
  | OpLast => v ← GetLastElement; mret (AValue v)
  | OpIndexFrom v i => n ← GetIndexFrom heap v i; mret (ANum n)
  | OpLastIndexOf v => n ← GetLastIndexOf heap v; mret (ANum n)
  | OpHas v => b ← Has heap v; mret (ABool b)
  | OpSize => n ← GetSize; mret (ANum n)
  | OpIsEmpty => b ← IsEmpty; mret (ABool b)
  | OpClear => Clear;; mret AUnit
  | OpIncreaseCapacityTo c => IncreaseCapacityTo c;; mret AUnit
  | OpTrim => TrimToCurrentLength;; mret AUnit
  | OpCapacity => n ← GetCapacity; mret (ANum n)
  end.

(** The same operations on a list with a capacity. *)
Definition spec (o : op) (p : list JSTaggedValue * Z) : outcome answer * (list JSTaggedValue * Z) :=
  let '(l, cap) := p in
  match o with
  | OpAdd v => (Ok (ABool true), (l ++ [v], grown (lenZ l + 1) cap))
  | OpInsert v i =>
      if (0 <=? i) && (i <=? lenZ l)
      then (Ok AUnit, (take (Z.to_nat i) l ++ v :: drop (Z.to_nat i) l, grown (lenZ l + 1) cap))
      else (Throw RANGE_ERROR, p)
  | OpRemoveByIndex i =>
      match (if i <? 0 then None else l !! Z.to_nat i) with
      | Some x => (Ok (AValue x), (delete (Z.to_nat i) l, cap))
      | None => (Throw RANGE_ERROR, p)
      end
  | OpRemove v =>
      if lenZ l =? 0 then (Throw RANGE_ERROR, p)
      else match find_index (StrictEqual heap v) l with
           | Some i => (Ok (ABool true), (delete (Z.to_nat i) l, cap))
           | None => (Ok (ABool false), p)
           end
  | OpRemoveByRange i j =>
      if (i <? j) && (0 <=? i) && (i <? lenZ l)
      then let l' := take (Z.to_nat i) l ++ drop (Z.to_nat (Z.min j (lenZ l))) l in
           (Ok (AValue (VBool true)), (l', lenZ l'))
      else (Throw RANGE_ERROR, p)
  | OpGetAt i =>
      (match (if i <? 0 then None else l !! Z.to_nat i) with
       | Some x => Ok (AValue x)
       | None => Throw RANGE_ERROR
       end, p)
  | OpSetAt i v =>
      let inside := (0 <=? i) && (i <? lenZ l) in
      (Ok (ABool inside), (if inside then <[Z.to_nat i := v]> l else l, cap))
  | OpFirst => (Ok (AValue (default VUndefined (head l))), p)
  | OpLast => (Ok (AValue (default VUndefined (list.last l))), p)
  | OpIndexFrom v i =>
      let start := Z.max i 0 in
      (if (0 <=? i) && (lenZ l <=? i) then Throw RANGE_ERROR
       else Ok (ANum (default (-1)
              ((fun j => start + j) <$> find_index (StrictEqual heap v) (drop (Z.to_nat start) l)))), p)
  | OpLastIndexOf v => (Ok (ANum (default (-1) (find_last_index (StrictEqual heap v) l))), p)
  | OpHas v => (Ok (ABool (existsb (fun x => SameValue heap x v) l)), p)
  | OpSize => (Ok (ANum (lenZ l)), p)
  | OpIsEmpty => (Ok (ABool (lenZ l =? 0)), p)
  | OpClear => (Ok AUnit, ([], cap))
  | OpIncreaseCapacityTo c => (if c <? 0 then Throw RANGE_ERROR else Ok AUnit, (l, Z.max cap c))
  | OpTrim => (Ok AUnit, (l, lenZ l))
  | OpCapacity => (Ok (ANum cap), p)
  end.

(** The capacity argument is an int32. *)
Definition op_ok (o : op) : Prop :=
  match o with OpIncreaseCapacityTo c => c <= INT32_MAX | _ => True end.

Definition within (k : Z) (s : JSAPIVector) (p : list JSTaggedValue * Z) : Prop :=
  repr s p.1 p.2 /\ lenZ p.1 <= k.

Lemma vector_ends_run (s : JSAPIVector) (l : list JSTaggedValue) (cap : Z) :
  repr s l cap ->
  GetFirstElement s = (Ok (default VUndefined (head l)), s) /\
  GetLastElement s = (Ok (default VUndefined (list.last l)), s).
Proof.
  intros Hr. pose proof (vector_repr_bounds _ _ _ Hr) as (? & ? & Hn & _).
  destruct Hr as (junk & -> & _). split.
  - unfold GetFirstElement. mstep. cbn [length_]. destruct l as [|x l]; [done|].
    rewrite (proj2 (Z.eqb_neq _ _)) by lenz. done.
  - unfold GetLastElement. mstep. cbn [length_]. destruct l as [|x l _] using rev_ind; [done|].
    pose proof (lenZ_nonneg l). rewrite (proj2 (Z.eqb_neq _ _)) by lenz. rewrite last_snoc, u32_small by (autorewrite with lenz in *; lia).
    unfold on_elements. erewrite zoom_run; [|simpl; rewrite <- (assoc_L (++)); apply Get_mid; lenz].
    unfold set_elements. simpl. by rewrite <- (assoc_L (++)).
Qed.

Lemma vector_exec_spec (o : op) (k : Z) (s : JSAPIVector) (p : list JSTaggedValue * Z) :
  within k s p -> op_ok o -> 0 <= k < 2 ^ 30 ->
  exists s', exec o s = ((spec o p).1, s') /\ within (k + 1) s' (spec o p).2.
Proof.
  destruct p as [l cap]. intros [Hr Hk] Ho Hb. simpl in Hr, Hk.
  pose proof (vector_repr_bounds _ _ _ Hr) as (? & ? & Hn & Hc).
  assert (lenZ l < INT32_MAX) as Hmax by (unfold INT32_MAX; lia).
  destruct o; simpl in Ho |- *.
  - destruct (vector_Add_run s l cap v Hr Hmax) as (s' & Hrun & Hr').
    exists s'. mstep with Hrun. split; [done|]. split; simpl; [done|lenz].
  - destruct (vector_Insert_run s l cap i v Hr Hmax) as (s' & Hrun & Hr').
    exists s'. mcbn. rewrite Hrun. destruct (_ && _) eqn:Ei; simpl; (split; [done|]); split; simpl; try done; [|lia].
    rewrite <- (take_drop (Z.to_nat i) l) in Hk. lenz.
  - destruct (vector_RemoveByIndex_run s l cap i Hr) as (s' & Hrun & Hr').
    exists s'. mcbn. rewrite Hrun. destruct (if i <? 0 then None else _) as [x|] eqn:Ex; simpl;
      (split; [done|]); split; simpl; try done; [|lia].
    pose proof (lenZ_delete_le l (Z.to_nat i)). lia.
  - destruct (vector_Remove_run heap s l cap v Hr) as (s' & Hrun & Hr').
    exists s'. mcbn. rewrite Hrun. destruct (Z.eqb_spec (lenZ l) 0) as [E|E].
    { rewrite (lenZ_zero l E) in *. split; [done|]. split; simpl; [done|lia]. }
    destruct (find_index _ l) as [i|]; simpl; (split; [done|]); split; simpl; try done; [|lia].
    pose proof (lenZ_delete_le l (Z.to_nat i)). lia.
  - destruct (vector_RemoveByRange_run s l cap i j Hr) as (s' & Hrun & Hr').
    exists s'. mcbn. rewrite Hrun. destruct (_ && _) eqn:Ei; simpl; (split; [done|]); split; simpl; try done; [|lia].
    unfold lenZ in *. rewrite length_app, length_take, length_drop. lia.
  - exists s. split; [|split; simpl; [done|lia]]. mcbn. rewrite (vector_Get_run s l cap i Hr).
    by destruct (if i <? 0 then None else _).
  - destruct (vector_SetProperty_run s l cap i v Hr) as (s' & Hrun & Hr').
    exists s'. mstep with Hrun. split; [done|]. split; simpl; [done|].
    destruct (_ && _); rewrite ?lenZ_insert; lia.
  - exists s. mstep with (proj1 (vector_ends_run s l cap Hr)). split; [done|]. split; simpl; [done|lia].
  - exists s. mstep with (proj2 (vector_ends_run s l cap Hr)). split; [done|]. split; simpl; [done|lia].
  - exists s. split; [|split; simpl; [done|lia]]. mcbn. rewrite (vector_GetIndexFrom_run heap s l cap i v Hr).
    by destruct (_ && _).
  - exists s. mstep with (vector_GetLastIndexOf_run heap s l cap v Hr). split; [done|]. split; simpl; [done|lia].
  - exists s. mstep with (vector_Has_run heap s l cap v Hr). split; [done|]. split; simpl; [done|lia].
  - exists s. mstep. rewrite Hn. split; [done|]. split; simpl; [done|lia].
  - exists s. unfold IsEmpty. rewrite <- bind_assoc. mstep. rewrite Hn. split; [done|]. split; simpl; [done|lia].
  - destruct (vector_Clear_run s l cap Hr) as (s' & Hrun & Hr').
    exists s'. mstep with Hrun. split; [done|]. split; simpl; [done|]. autorewrite with lenz. lia.
  - destruct (vector_IncreaseCapacityTo_run s l cap c Hr Ho) as (s' & Hrun & Hr').
    exists s'. mcbn. rewrite Hrun. destruct (c <? 0); (split; [done|]); (split; simpl; [done|lia]).
  - destruct (vector_Trim_run s l cap Hr) as (s' & Hrun & Hr').
    exists s'. mstep with Hrun. split; [done|]. split; simpl; [done|lia].
  - exists s. mstep. rewrite Hc. split; [done|]. split; simpl; [done|lia].
Qed.

(** C36: A new Vector and any sequence of up to 2^30 of the operations of [op]
    (Add, Insert, RemoveByIndex, Remove, RemoveByRange, Get, Set, the first and
    last element, GetIndexFrom, GetLastIndexOf, Has, size, IsEmpty, Clear,
    IncreaseCapacityTo, TrimToCurrentLength and the capacity) answers as the
    same operations on a list with a capacity do.  SetLength, GetLastIndexFrom,
    SubVector, Clone and the named properties are not among them;
    GetLastIndexFrom reads out of an empty Vector
    (vector_GetLastIndexFrom_empty). *)
Theorem vector_refines_list (os : list op) :
  Forall op_ok os -> lenZ os <= 2 ^ 30 ->
  (run_ops exec os VectorConstructor).1 = (run_ops spec os ([], 10)).1.
Proof.
  intros Ho Hb. apply (run_ops_refines exec spec within op_ok (2 ^ 30)) with 0; [|split|done|lia|lia].
  - intros o k s t Hw Hok Hk. by apply vector_exec_spec.
  - exact VectorConstructor_repr.
  - done.
Qed.
End ops.

(** Iterating a Vector yields its elements in order, then stops. *)
Theorem vector_iterator_yields_elements (s : JSAPIVector) (l : list JSTaggedValue) (cap : Z) :
  repr s l cap -> drain Next (S (length l)) NewJSAPIVectorIterator s = (Ok l, s).
Proof.
  intros Hr. pose proof (vector_repr_bounds _ _ _ Hr) as (? & ? & Hn & _).
  apply index_next_drain; [unfold GetSize, gets; by rewrite Hn|lia|].
  intros j x Hj. pose proof (lookup_lt_Some _ _ _ Hj).
  rewrite i32_id by (unfold lenZ in *; lia). rewrite (vector_Get_run s l cap) by done.
  by rewrite (proj2 (Z.ltb_ge _ _)), Nat2Z.id, Hj by lia.
Qed.

(** ** Witnesses *)

Definition sample_vector : JSAPIVector := mkVector [VInt 1; VNull; VInt 3; VHole] 3.

Lemma sample_vector_repr : repr sample_vector [VInt 1; VNull; VInt 3] 4.
Proof. by exists [VHole]. Qed.

Lemma vector_GetLastIndexFrom_spec_witness :
  GetLastIndexFrom sample_heap (VInt 1) 1 sample_vector = (Ok 0, sample_vector).
Proof. rewrite (vector_GetLastIndexFrom_spec sample_heap _ _ _ 1 (VInt 1) sample_vector_repr); reflexivity. Defined.

Lemma vector_GetLastIndexFrom_empty_witness :
  repr (mkVector [] 0) [] 0 /\ (GetLastIndexFrom sample_heap (VInt 1) (-1) (mkVector [] 0)).1 = Fault.
Proof.
  assert (repr (mkVector [] 0) [] 0) as H by (by exists []).
  split; [exact H|]. apply (vector_GetLastIndexFrom_empty sample_heap _ (-1) (VInt 1) H). reflexivity.
Defined.

Lemma vector_SetLength_restores_witness :
  exists s', SetLength 1 sample_vector = (Ok tt, s') /\ repr s' [VInt 1] 4 /\ SetLength 3 s' = (Ok tt, sample_vector).
Proof. apply (vector_SetLength_restores _ _ _ 1 sample_vector_repr). split; vm_compute; discriminate. Defined.

Lemma vector_SubVector_spec_witness :
  exists c, SubVector 0 2 sample_vector = (Ok c, sample_vector) /\ repr c [VInt 1; VNull] 2.
Proof. exact (vector_SubVector_spec _ _ _ 0 2 sample_vector_repr). Defined.

Lemma vector_ReplaceAllElements_spec_witness :
  exists s', ReplaceAllElements (pure_callback (fun _ k => VInt k)) 4 (sample_vector, tt) = (Ok VUndefined, (s', tt)) /\
    repr s' [VInt 0; VInt 1; VInt 2] 4.
Proof. exact (vector_ReplaceAllElements_spec (fun _ k => VInt k) _ _ _ tt sample_vector_repr). Defined.

Lemma vector_ToString_spec_witness :
  ToString (fun v => mret (match v with VInt z => [48 + z] | _ => [] end)) sample_vector
  = (Ok [49; 44; 44; 51], sample_vector).
Proof.
  exact (vector_ToString_spec (fun v => match v with VInt z => [48 + z] | _ => [] end) _ _ _ sample_vector_repr).
Defined.

Lemma vector_refines_list_witness :
  (run_ops (exec sample_heap)
     [OpRemove (VInt 1); OpAdd (VInt 1); OpInsert (VInt 2) 0; OpRemoveByRange 1 9; OpLast; OpCapacity]
     VectorConstructor).1
  = [Throw RANGE_ERROR; Ok (ABool true); Ok AUnit; Ok (AValue (VBool true)); Ok (AValue (VInt 2)); Ok (ANum 1)].
Proof.
  rewrite (vector_refines_list sample_heap
    [OpRemove (VInt 1); OpAdd (VInt 1); OpInsert (VInt 2) 0; OpRemoveByRange 1 9; OpLast; OpCapacity]);
    [reflexivity|repeat constructor|vm_compute; discriminate].
Defined.

Lemma vector_iterator_yields_elements_witness :
  drain Next 4 NewJSAPIVectorIterator sample_vector = (Ok [VInt 1; VNull; VInt 3], sample_vector).
Proof. exact (vector_iterator_yields_elements _ _ _ sample_vector_repr). Defined.

End Vector.
