(* ===== verification/Stack.v ===== *)
(** * JSAPIStack: js_api_stack.cpp, js_api_stack.h, js_api_stack_iterator.cpp.

    The stack keeps the index of its top element, -1 when it is empty.  The
    abstract state is the list of its values from bottom to top ([repr]), which
    the operations refine ([stack_refines_list]). *)
From S2P Require Import Prelude TaggedValue TaggedArray Ring.
Local Open Scope Z_scope.

Module Stack.

Record JSAPIStack : Type := mkStack {
  elements : TaggedArray;
  top : Z;
}.

Definition set_elements (a : TaggedArray) (s : JSAPIStack) : JSAPIStack := mkStack a (top s).
Definition set_top (i : Z) (s : JSAPIStack) : JSAPIStack := mkStack (elements s) i.

Definition on_elements {A} (m : M TaggedArray A) : M JSAPIStack A := zoom elements set_elements m.

Definition DEFAULT_CAPACITY_LENGTH : Z := 10.

Definition ComputeCapacity (oldCapacity : Z) : Z :=
  let newCapacity := u32 (oldCapacity + Z.shiftr oldCapacity 1) in
  if DEFAULT_CAPACITY_LENGTH <? newCapacity then newCapacity else DEFAULT_CAPACITY_LENGTH.

(** ContainersStack::StackConstructor: the object starts with the empty array. *)
Definition StackConstructor : JSAPIStack := mkStack Factory.EmptyArray (-1).

Definition Empty : M JSAPIStack bool := t ← gets top; mret (t =? -1).

Definition GrowCapacity (capacity : Z) : M JSAPIStack TaggedArray :=
  oldElements ← gets elements;
  let oldLength := lenZ oldElements in
  if capacity <? oldLength then mret oldElements
  else
    newElements ← Factory.CopyArray oldElements oldLength (ComputeCapacity capacity) VHole;
    modify (set_elements newElements);;
    mret newElements.

Definition Push (value : JSTaggedValue) : M JSAPIStack JSTaggedValue :=
  t ← gets top;
  GrowCapacity (u32 (t + 1));;
  on_elements (Arr.Set_ (t + 1) value);;
  modify (set_top (t + 1));;
  mret value.

Definition Peek : M JSAPIStack JSTaggedValue :=
  t ← gets top;
  if t =? -1 then mret VUndefined else on_elements (Arr.Get t).

Definition Pop : M JSAPIStack JSTaggedValue :=
  t ← gets top;
  if t =? -1 then mret VUndefined
  else
    modify (set_top (t - 1));;
    on_elements (Arr.Get (t - 1 + 1)).

(** Search compares the words of the values. *)
Definition Search (value : JSTaggedValue) : M JSAPIStack Z :=
  t ← gets top;
  r ← on_elements (find_up (Z.to_nat (t + 1)) 0 (fun i =>
        v ← Arr.Get i;
        mret (if word_eqb value v then Some i else None)));
  mret (default (-1) r).

Definition Get (index : Z) : M JSAPIStack JSTaggedValue :=
  t ← gets top;
  ASSERT (i32 index <=? t);;
  on_elements (Arr.Get index).

Definition Set_ (index : Z) (value : JSTaggedValue) : M JSAPIStack JSTaggedValue :=
  on_elements (Arr.Set_ index value);; mret VUndefined.

Definition Has (heap : Heap) (value : JSTaggedValue) : M JSAPIStack bool :=
  t ← gets top;
  if t =? -1 then mret false
  else
    r ← on_elements (find_up (Z.to_nat (t + 1)) 0 (fun i =>
          v ← Arr.Get i;
          mret (if SameValue heap v value then Some i else None)));
    mret (match r with Some _ => true | None => false end).

(** GetSize is the index of the top element as an unsigned number. *)
Definition GetSize : M JSAPIStack Z := t ← gets top; mret (u32 t).

(** The key is the result of JSTaggedValue::ToElementIndex. *)
Definition GetOwnProperty (key : option Z) : M JSAPIStack bool :=
  match key with
  | None => throw TYPE_ERROR
  | Some index =>
      t ← gets top;
      let length := u32 (t + 1) in
      if length <=? index then throw RANGE_ERROR
      else Get index;; mret true
  end.

Definition GetProperty (index : Z) : M JSAPIStack JSTaggedValue :=
  t ← gets top;
  let length := t + 1 in
  if (index <? 0) || (length <=? index) then throw RANGE_ERROR
  else Get index.

Definition SetProperty (index : Z) (value : JSTaggedValue) : M JSAPIStack bool :=
  t ← gets top;
  let length := t + 1 in
  if (index <? 0) || (length <=? index) then mret false
  else Set_ index value;; mret true.

(** ObjectFactory::NewJSAPIStackIterator. *)
Definition NewJSAPIStackIterator : index_iterator := mkIter true 0.

Definition Next (iter : index_iterator) : M JSAPIStack (option JSTaggedValue * index_iterator) :=
  if negb (iterated iter) then mret (None, iter)
  else
    let index := nextIndex iter in
    size ← GetSize;
    let length := u32 (size + 1) in
    if length <? u32 (index + 1) then mret (None, mkIter false index)
    else
      value ← Get index;
      mret (Some value, mkIter true (u32 (index + 1))).

(** ** The abstract state *)

Definition repr (s : JSAPIStack) (l : list JSTaggedValue) : Prop :=
  exists junk, s = mkStack (l ++ junk) (lenZ l - 1) /\ lenZ l + lenZ junk <= INT32_MAX.

Lemma StackConstructor_repr : repr StackConstructor [].
Proof. by exists []. Qed.

Lemma stack_repr_bounds (s : JSAPIStack) (l : list JSTaggedValue) :
  repr s l -> 0 <= lenZ l < 2 ^ 31 /\ top s = lenZ l - 1.
Proof.
  intros (junk & -> & Hb). pose proof (lenZ_nonneg l). pose proof (lenZ_nonneg junk).
  unfold INT32_MAX in Hb. simpl. lia.
Qed.

Lemma stack_ComputeCapacity_bounds (c : Z) :
  0 <= c <= 2 ^ 30 -> c < ComputeCapacity c <= INT32_MAX.
Proof.
  intros Hc. unfold ComputeCapacity, DEFAULT_CAPACITY_LENGTH, INT32_MAX.
  rewrite Z.shiftr_div_pow2 by lia. change (2 ^ 1) with 2.
  pose proof (Z.div_pos c 2 ltac:(lia) ltac:(lia)). rewrite u32_small by zlia.
  destruct (Z.ltb_spec 10 (c + c / 2)); zlia.
Qed.

Lemma stack_Push_run (s : JSAPIStack) (l : list JSTaggedValue) (v : JSTaggedValue) :
  repr s l -> lenZ l < 2 ^ 30 -> exists s', Push v s = (Ok v, s') /\ repr s' (l ++ [v]).
Proof.
  intros (junk & -> & Hcap) Hb. pose proof (lenZ_nonneg l). pose proof (lenZ_nonneg junk).
  pose proof (stack_ComputeCapacity_bounds (lenZ l) ltac:(lia)) as Hc.
  unfold Push. mstep. cbn [top]. rewrite Z.sub_add, u32_small by lia.
  assert (exists y e junk', GrowCapacity (lenZ l) (mkStack (l ++ junk) (lenZ l - 1))
    = (Ok e, mkStack (l ++ y :: junk') (lenZ l - 1)) /\ lenZ l + 1 + lenZ junk' <= INT32_MAX) as
    (y & e & junk' & Hrun & Hmax).
  { unfold GrowCapacity. mstep. cbn [elements]. autorewrite with lenz.
    destruct (Z.ltb_spec (lenZ l) (lenZ l + lenZ junk)).
    - destruct junk as [|y junk]; [lenz|]. exists y. eexists _, junk. split; [done|]. lenz.
    - rewrite <- lenZ_app. mstep by (apply CopyArray_grow; autorewrite with lenz; lia).
      rewrite <- (assoc_L (++)). destruct (junk ++ replicate _ VHole) as [|y rest] eqn:E;
        apply (f_equal lenZ) in E; autorewrite with lenz in E; [lia|].
      exists y. eexists _, rest. split; [done|]. lia. }
  mstep with Hrun. mstep by (apply zoom_run; simpl; by apply Set_mid).
  eexists. split; [reflexivity|]. exists junk'. unfold set_top, set_elements. simpl.
  rewrite <- (assoc_L (++)). simpl. autorewrite with lenz. split; [f_equal; lia|lia].
Qed.

Lemma stack_read (pre post : list JSTaggedValue) (x : JSTaggedValue) (i t : Z) :
  lenZ pre = i -> on_elements (Arr.Get i) (mkStack (pre ++ x :: post) t) = (Ok x, mkStack (pre ++ x :: post) t).
Proof. intros Hi. unfold on_elements. erewrite zoom_run by (simpl; by apply Get_mid). done. Qed.

Lemma stack_Peek_run (s : JSAPIStack) (l : list JSTaggedValue) :
  repr s l -> Peek s = (Ok (default VUndefined (list.last l)), s).
Proof.
  intros (junk & -> & _). unfold Peek. mstep. cbn [top].
  destruct l as [|x l _] using rev_ind; [done|]. pose proof (lenZ_nonneg l).
  rewrite last_snoc, (proj2 (Z.eqb_neq _ _)) by lenz.
  rewrite <- (assoc_L (++)). simpl. apply stack_read. lenz.
Qed.

Lemma stack_Pop_run (s : JSAPIStack) (l : list JSTaggedValue) :
  repr s l -> exists s', Pop s = (Ok (default VUndefined (list.last l)), s') /\ repr s' (removelast l).
Proof.
  intros (junk & -> & Hcap). unfold Pop. mstep. cbn [top].
  destruct l as [|x l _] using rev_ind. { eexists. split; [reflexivity|]. by exists junk. }
  pose proof (lenZ_nonneg l). rewrite last_snoc, removelast_last, (proj2 (Z.eqb_neq _ _)) by lenz. mstep.
  eexists. split.
  { unfold set_top. cbn [elements]. rewrite <- (assoc_L (++)). simpl. apply stack_read. lenz. }
  exists (x :: junk). autorewrite with lenz in *. split; [f_equal; lia|lia].
Qed.

Lemma stack_Search_run (s : JSAPIStack) (l : list JSTaggedValue) (v : JSTaggedValue) :
  repr s l -> Search v s = (Ok (default (-1) (find_index (word_eqb v) l)), s).
Proof.
  intros (junk & -> & _). unfold Search. mstep. cbn [top]. rewrite Z.sub_add.
  mstep by (apply zoom_run; simpl; unfold lenZ; rewrite Nat2Z.id; by apply (find_up_run (word_eqb v) [])).
  by destruct (find_index _ l).
Qed.

Lemma stack_Has_run (heap : Heap) (s : JSAPIStack) (l : list JSTaggedValue) (v : JSTaggedValue) :
  repr s l -> Has heap v s = (Ok (existsb (fun x => SameValue heap x v) l), s).
Proof.
  intros (junk & -> & _). unfold Has. mstep. cbn [top]. rewrite Z.sub_add. pose proof (lenZ_nonneg l).
  destruct (Z.eqb_spec (lenZ l - 1) (-1)) as [E|_].
  { rewrite (lenZ_zero l) by lia. done. }
  mstep by (apply zoom_run; simpl; unfold lenZ; rewrite Nat2Z.id;
            by apply (find_up_run (fun x => SameValue heap x v) [])).
  rewrite existsb_find_index. by destruct (find_index _ l).
Qed.

Lemma stack_Get_run (s : JSAPIStack) (l : list JSTaggedValue) (j : nat) (x : JSTaggedValue) :
  repr s l -> l !! j = Some x -> Get (Z.of_nat j) s = (Ok x, s).
Proof.
  intros Hr Hj. pose proof (stack_repr_bounds _ _ Hr) as [? Ht]. pose proof (lookup_lt_Some _ _ _ Hj).
  unfold Get. mstep. rewrite Ht, i32_id by (unfold lenZ in *; lia).
  rewrite (proj2 (Z.leb_le _ _)) by (unfold lenZ in *; lia). mstep. destruct Hr as (junk & -> & _).
  rewrite <- (take_drop_middle l j x Hj). rewrite <- (assoc_L (++)). simpl. apply stack_read.
  unfold lenZ. rewrite length_take. lia.
Qed.

Lemma stack_GetProperty_run (s : JSAPIStack) (l : list JSTaggedValue) (i : Z) :
  repr s l ->
  GetProperty i s = (match (if i <? 0 then None else l !! Z.to_nat i) with
                     | Some x => Ok x | None => Throw RANGE_ERROR end, s).
Proof.
  intros Hr. pose proof (stack_repr_bounds _ _ Hr) as [? Ht].
  unfold GetProperty. mstep. rewrite Ht, Z.sub_add. destruct (Z.ltb_spec i 0); simpl; [done|].
  destruct (l !! Z.to_nat i) as [x|] eqn:E.
  - pose proof (lookup_lt_Some _ _ _ E). rewrite (proj2 (Z.leb_gt _ _)) by (unfold lenZ; lia).
    rewrite <- (Z2Nat.id i) by done. by apply stack_Get_run with l.
  - apply lookup_ge_None in E. by rewrite (proj2 (Z.leb_le _ _)) by (unfold lenZ; lia).
Qed.

Lemma stack_SetProperty_run (s : JSAPIStack) (l : list JSTaggedValue) (i : Z) (v : JSTaggedValue) :
  repr s l ->
  let inside := (0 <=? i) && (i <? lenZ l) in
  exists s', SetProperty i v s = (Ok inside, s') /\ repr s' (if inside then <[Z.to_nat i := v]> l else l).
Proof.
  intros Hr inside. pose proof (stack_repr_bounds _ _ Hr) as [? Ht].
  unfold SetProperty, Set_. mstep. rewrite Ht, Z.sub_add. destruct inside eqn:Ei; unfold inside in Ei.
  2: { exists s. by replace ((i <? 0) || (lenZ l <=? i)) with true by lia. }
  replace ((i <? 0) || (lenZ l <=? i)) with false by lia. destruct Hr as (junk & -> & Hcap).
  destruct (split_at l i) as (pre & x & post & -> & <-); [lia|].
  eexists. split.
  { mstep by (mstep by (apply zoom_run; simpl; rewrite <- (assoc_L (++)); by apply Set_mid); reflexivity). reflexivity. }
  exists junk. unfold set_elements. simpl.
  replace (Z.to_nat (lenZ pre)) with (length pre + 0)%nat by lenz. rewrite insert_app_r. simpl.
  rewrite <- (assoc_L (++)). simpl. autorewrite with lenz in *. split; [f_equal; lia|lia].
Qed.

(** ** Sequences of operations *)

Inductive op : Type :=
| OpPush (v : JSTaggedValue)
| OpPop
| OpPeek
| OpSearch (v : JSTaggedValue)
| OpHas (v : JSTaggedValue)
| OpGetAt (i : Z)
| OpSetAt (i : Z) (v : JSTaggedValue)
| OpEmpty.

Inductive answer : Type :=
| AValue (v : JSTaggedValue)
| ABool (b : bool)
| ANum (z : Z).

Section ops.
Context (heap : Heap).

Definition exec (o : op) : M JSAPIStack answer :=
  match o with
  | OpPush v => r ← Push v; mret (AValue r)
  | OpPop => v ← Pop; mret (AValue v)
  | OpPeek => v ← Peek; mret (AValue v)
  | OpSearch v => n ← Search v; mret (ANum n)
  | OpHas v => b ← Has heap v; mret (ABool b)
  | OpGetAt i => v ← GetProperty i; mret (AValue v)
  | OpSetAt i v => b ← SetProperty i v; mret (ABool b)
  | OpEmpty => b ← Empty; mret (ABool b)
  end.

(** The same operations on a list whose last element is the top. *)
Definition spec (o : op) (l : list JSTaggedValue) : outcome answer * list JSTaggedValue :=
  match o with
  | OpPush v => (Ok (AValue v), l ++ [v])
  | OpPop => (Ok (AValue (default VUndefined (list.last l))), removelast l)
  | OpPeek => (Ok (AValue (default VUndefined (list.last l))), l)
  | OpSearch v => (Ok (ANum (default (-1) (find_index (word_eqb v) l))), l)
  | OpHas v => (Ok (ABool (existsb (fun x => SameValue heap x v) l)), l)
  | OpGetAt i =>
      (match (if i <? 0 then None else l !! Z.to_nat i) with
       | Some x => Ok (AValue x) | None => Throw RANGE_ERROR end, l)
  | OpSetAt i v =>
      let inside := (0 <=? i) && (i <? lenZ l) in
      (Ok (ABool inside), if inside then <[Z.to_nat i := v]> l else l)
  | OpEmpty => (Ok (ABool (lenZ l =? 0)), l)
  end.

Definition within (k : Z) (s : JSAPIStack) (l : list JSTaggedValue) : Prop := repr s l /\ lenZ l <= k.

Lemma stack_exec_spec (o : op) (k : Z) (s : JSAPIStack) (l : list JSTaggedValue) :
  within k s l -> 0 <= k < 2 ^ 30 ->
  exists s', exec o s = ((spec o l).1, s') /\ within (k + 1) s' (spec o l).2.
Proof.
  intros [Hr Hk] Hb. pose proof (stack_repr_bounds _ _ Hr) as [? Ht]. destruct o; simpl.
  - destruct (stack_Push_run s l v Hr ltac:(lia)) as (s' & Hrun & Hr').
    exists s'. mstep with Hrun. split; [done|]. split; [done|lenz].
  - destruct (stack_Pop_run s l Hr) as (s' & Hrun & Hr').
    exists s'. mstep with Hrun. split; [done|]. split; [done|].
    destruct l as [|x l _] using rev_ind; [simpl; lia|]. rewrite removelast_last. lenz.
  - exists s. mstep with (stack_Peek_run s l Hr). split; [done|]. split; [done|lia].
  - exists s. mstep with (stack_Search_run s l v Hr). split; [done|]. split; [done|lia].
  - exists s. mstep with (stack_Has_run heap s l v Hr). split; [done|]. split; [done|lia].
  - exists s. split; [|split; [done|lia]]. mcbn. rewrite (stack_GetProperty_run s l i Hr).
    by destruct (if i <? 0 then None else _).
  - destruct (stack_SetProperty_run s l i v Hr) as (s' & Hrun & Hr').
    exists s'. mstep with Hrun. split; [done|]. split; [done|]. destruct (_ && _); rewrite ?lenZ_insert; lia.
  - exists s. unfold Empty. rewrite <- bind_assoc. mstep. rewrite Ht.
    replace (lenZ l - 1 =? -1) with (lenZ l =? 0) by lia. split; [done|]. split; [done|lia].
Qed.

(** A new Stack and any sequence of up to 2^30 pushes, pops, peeks, searches,
    reads and writes answers as the same operations on a list do. *)
Theorem stack_refines_list (os : list op) :
  lenZ os <= 2 ^ 30 -> (run_ops exec os StackConstructor).1 = (run_ops spec os []).1.
Proof.
  intros Hb. apply (run_ops_refines exec spec within (fun _ => True) (2 ^ 30)) with 0;
    [|split|by apply Forall_true|lia|lia].
  - intros o k s t Hw _ Hk. by apply stack_exec_spec.
  - exact StackConstructor_repr.
  - done.
Qed.
End ops.

(** Iterating a Stack yields its elements from bottom to top, then stops; an
    empty stack, whose GetSize is 2^32 - 1, yields none. *)
Theorem stack_iterator_yields_elements (s : JSAPIStack) (l : list JSTaggedValue) :
  repr s l -> drain Next (S (length l)) NewJSAPIStackIterator s = (Ok l, s).
Proof.
  intros Hr. pose proof (stack_repr_bounds _ _ Hr) as [Hb Ht].
  assert (u32 (u32 (top s) + 1) = lenZ l) as Hlen.
  { rewrite Ht. unfold u32. rewrite Zplus_mod_idemp_l, Z.mod_small; lia. }
  apply (drain_run Next (fun j => mkIter true (Z.of_nat j))).
  - intros j x Hj. pose proof (lookup_lt_Some _ _ _ Hj). unfold Next. simpl. mstep. rewrite Hlen.
    rewrite u32_small by (unfold lenZ in *; lia). rewrite (proj2 (Z.ltb_ge _ _)) by (unfold lenZ in *; lia).
    mstep with (stack_Get_run s l j x Hr Hj). by replace (Z.of_nat (S j)) with (Z.of_nat j + 1) by lia.
  - eexists. unfold Next. simpl. mstep. rewrite Hlen, u32_small by (unfold lenZ in *; lia).
    by rewrite (proj2 (Z.ltb_lt _ _)) by (unfold lenZ; lia).
Qed.

(** ** Witnesses *)

Lemma stack_refines_list_witness :
  (run_ops (exec sample_heap) [OpPush (VInt 1); OpPush (VInt 2); OpPop; OpPeek; OpGetAt 1] StackConstructor).1
  = [Ok (AValue (VInt 1)); Ok (AValue (VInt 2)); Ok (AValue (VInt 2)); Ok (AValue (VInt 1)); Throw RANGE_ERROR].
Proof.
  rewrite (stack_refines_list sample_heap [OpPush (VInt 1); OpPush (VInt 2); OpPop; OpPeek; OpGetAt 1])
    by (vm_compute; discriminate).
  reflexivity.
Defined.

Lemma stack_iterator_yields_elements_witness :
  drain Next 2 NewJSAPIStackIterator (mkStack [VInt 7; VHole] 0) = (Ok [VInt 7], mkStack [VInt 7; VHole] 0).
Proof. apply (stack_iterator_yields_elements _ [VInt 7]). by exists [VHole]. Defined.

End Stack.
