(* ===== verification/PlainArray.v ===== *)
(** * JSAPIPlainArray: js_api_plain_array.cpp, js_api_plain_array.h,
    js_api_plain_array_iterator.cpp.

    A map from int32 keys to values in two parallel arrays, sorted by key and
    searched by bisection.  The abstract state is the sorted list of entries
    ([repr]), which represents a finite map ([plainarray_refines_map]).  Keys
    are numbers; the conversion of a number to int32 that BinarySearch's
    parameter performs is undefined in C++ outside the int32 range, which is a
    [Fault] here. *)
From stdpp Require Import gmap sorting.
From S2P Require Import Prelude TaggedValue TaggedArray Ring.
Local Open Scope Z_scope.

Module PlainArray.

Record JSAPIPlainArray : Type := mkPlainArray {
  keys : TaggedArray;
  values : TaggedArray;
  length_ : Z;
}.

Definition set_keys (a : TaggedArray) (s : JSAPIPlainArray) : JSAPIPlainArray :=
  mkPlainArray a (values s) (length_ s).
Definition set_values (a : TaggedArray) (s : JSAPIPlainArray) : JSAPIPlainArray :=
  mkPlainArray (keys s) a (length_ s).
Definition set_length (n : Z) (s : JSAPIPlainArray) : JSAPIPlainArray :=
  mkPlainArray (keys s) (values s) n.

Definition on_keys {A} (m : M TaggedArray A) : M JSAPIPlainArray A := zoom keys set_keys m.
Definition on_values {A} (m : M TaggedArray A) : M JSAPIPlainArray A := zoom values set_values m.

Definition DEFAULT_CAPACITY_LENGTH : Z := 8.

Definition CreateSlot (capacity : Z) : TaggedArray := Factory.NewTaggedArray capacity VHole.

(** ContainersPlainArray::PlainArrayConstructor. *)
Definition PlainArrayConstructor : JSAPIPlainArray :=
  mkPlainArray (CreateSlot DEFAULT_CAPACITY_LENGTH) (CreateSlot DEFAULT_CAPACITY_LENGTH) 0.

(** ObjectFactory::NewJSAPIPlainArray. *)
Definition NewJSAPIPlainArray (capacity : Z) : JSAPIPlainArray :=
  mkPlainArray (Factory.NewTaggedArray capacity VHole) (Factory.NewTaggedArray capacity VHole) 0.

Definition GetSize : M JSAPIPlainArray Z := gets length_.

(** GetNumber() followed by the conversion to int32_t. *)
Definition number_to_i32 {S} (v : JSTaggedValue) : M S Z :=
  match v with
  | VInt z => mret z
  | VDouble b =>
      match trunc (double_of_bits b) with
      | Some z => if (INT32_MIN <=? z) && (z <=? INT32_MAX) then mret z else fault
      | None => fault
      end
  | _ => fault
  end.

Definition search_step (key : Z) (p : Z * Z) : M TaggedArray (Z * Z + Z) :=
  let '(low, high) := p in
  if low <=? high then
    let mid := i32 (Z.shiftr (u32 (low + high)) 1) in
    v ← Arr.Get mid;
    midVal ← number_to_i32 v;
    if midVal <? key then mret (inl (mid + 1, high))
    else if midVal <=? key then mret (inr mid)
    else mret (inl (low, mid - 1))
  else mret (inr (- (low + 1))).

Definition BinarySearch (fromIndex toIndex key : Z) : M TaggedArray Z :=
  while_fuel (S (Z.to_nat (toIndex - fromIndex))) (search_step key) (fromIndex, toIndex - 1).

(** The raw moves of AdjustPrimitiveArray; [size] is GetLength(). *)
Definition AdjustPrimitiveArray (size fromIndex toIndex : Z) : M TaggedArray unit :=
  let count := u32 (size - fromIndex) in
  for_range 0 count (Arr.move_block toIndex fromIndex);;
  for_range (toIndex + count) (toIndex + count + u32 (fromIndex - toIndex)) (fun i => Arr.Set_ i VHole).

(** [young] is IsYoungAndNotMarking, which chooses between two loops that move
    the same words. *)
Definition AdjustArray (young : bool) (size fromIndex toIndex : Z) (direction : bool) : M TaggedArray unit :=
  let idx := u32 (size - 1) in
  if direction then for_down (Z.to_nat (toIndex - fromIndex)) idx Arr.shift_up
  else if young then AdjustPrimitiveArray size fromIndex toIndex
  else
    let count := u32 (size - fromIndex) in
    for_range 0 count (Arr.move_block toIndex fromIndex);;
    for_range (toIndex + count) (toIndex + count + u32 (fromIndex - toIndex)) (fun i => Arr.Set_ i VHole).

Section with_young.
Context (young : bool).

Definition AdjustForward (index forwardSize : Z) : M JSAPIPlainArray bool :=
  size ← GetSize;
  on_keys (AdjustPrimitiveArray size (index + forwardSize) index);;
  on_values (AdjustArray young size (index + forwardSize) index false);;
  modify (set_length (u32 (size - forwardSize)));;
  mret true.

Definition Add (key value : JSTaggedValue) : M JSAPIPlainArray unit :=
  size ← GetSize;
  k ← number_to_i32 key;
  index ← on_keys (BinarySearch 0 size k);
  if 0 <=? index then
    on_keys (Arr.Set_ index key);;
    on_values (Arr.Set_ index value)
  else
    let index := i32 (Z.lxor (u32 index) 0xFFFFFFFF) in
    (if index <? i32 size then
       on_keys (AdjustArray young size index size true);;
       on_values (AdjustArray young size index size true)
     else mret tt);;
    s ← get;
    let capacity := lenZ (values s) in
    (if capacity <=? u32 (size + 1) then
       let newCapacity := u32 (Z.shiftl capacity 1) in
       keyArray ← Factory.CopyArray (keys s) capacity newCapacity VHole;
       valueArray ← Factory.CopyArray (values s) capacity newCapacity VHole;
       modify (set_keys keyArray);;
       modify (set_values valueArray)
     else mret tt);;
    on_keys (Arr.Set_ index key);;
    on_values (Arr.Set_ index value);;
    modify (set_length (u32 (size + 1))).

Definition RemoveRangeFrom (index batchSize : Z) : M JSAPIPlainArray JSTaggedValue :=
  len ← GetSize;
  let size := i32 len in
  if (index <? 0) || (size <=? index) then throw RANGE_ERROR
  else if batchSize <? 1 then throw RANGE_ERROR
  else
    let safeSize := if i32 (size - i32 (index + batchSize)) <? 0 then size - index else batchSize in
    AdjustForward index safeSize;;
    mret (VInt safeSize).

(** Set adds the entry whose key is the number [index]. *)
Definition Set_ (index : Z) (value : JSTaggedValue) : M JSAPIPlainArray JSTaggedValue :=
  Add (VInt index) value;; mret VUndefined.

Definition Remove (key : JSTaggedValue) : M JSAPIPlainArray JSTaggedValue :=
  size ← GetSize;
  k ← number_to_i32 key;
  index ← on_keys (BinarySearch 0 size k);
  if (index <? 0) || (i32 size <=? index) then mret VUndefined
  else
    value ← on_values (Arr.Get index);
    AdjustForward index 1;;
    mret value.

Definition RemoveAt (index : JSTaggedValue) : M JSAPIPlainArray JSTaggedValue :=
  size ← GetSize;
  seat ← number_to_i32 index;
  if (seat <? 0) || (size <=? u32 seat) then mret VUndefined
  else
    value ← on_values (Arr.Get seat);
    AdjustForward seat 1;;
    mret value.

Definition SetProperty (key : Z) (value : JSTaggedValue) : M JSAPIPlainArray bool :=
  size ← GetSize;
  index ← on_keys (BinarySearch 0 size key);
  if (index <? 0) || (i32 size <=? index) then mret false
  else Set_ index value;; mret true.
End with_young.

Definition Clear : M JSAPIPlainArray unit :=
  size ← GetSize;
  for_range 0 size (fun index =>
    on_keys (Arr.Set_ index VHole);;
    on_values (Arr.Set_ index VHole));;
  modify (set_length 0).

Definition Has (key : Z) : M JSAPIPlainArray bool :=
  size ← GetSize;
  index ← on_keys (BinarySearch 0 size key);
  if index <? 0 then mret false else mret true.

Definition Get (key : JSTaggedValue) : M JSAPIPlainArray JSTaggedValue :=
  size ← GetSize;
  k ← number_to_i32 key;
  index ← on_keys (BinarySearch 0 size k);
  if index <? 0 then mret VUndefined else on_values (Arr.Get index).

Definition GetOwnProperty (key : Z) : M JSAPIPlainArray bool :=
  size ← GetSize;
  index ← on_keys (BinarySearch 0 size key);
  if (index <? 0) || (i32 size <=? index) then throw RANGE_ERROR
  else Get (VInt key);; mret true.

(** GetProperty looks up the number [index] as a key once more. *)
Definition GetProperty (key : Z) : M JSAPIPlainArray JSTaggedValue :=
  size ← GetSize;
  index ← on_keys (BinarySearch 0 size key);
  if (index <? 0) || (i32 size <=? index) then throw RANGE_ERROR
  else Get (VInt index).

Definition Clone : M JSAPIPlainArray JSAPIPlainArray :=
  srcKeyArray ← gets keys;
  srcValueArray ← gets values;
  let newPlainArray := NewJSAPIPlainArray 0 in
  length ← GetSize;
  dstKeyArray ← Factory.NewAndCopyTaggedArray srcKeyArray length length 0;
  dstValueArray ← Factory.NewAndCopyTaggedArray srcValueArray length length 0;
  mret (set_values dstValueArray (set_keys dstKeyArray (set_length length newPlainArray))).

Definition GetIndexOfKey (key : Z) : M JSAPIPlainArray JSTaggedValue :=
  size ← GetSize;
  index ← on_keys (BinarySearch 0 size key);
  if index <? 0 then mret (VInt (-1)) else mret (VInt index).

Definition TryFastGetIndexOfValue (value : JSTaggedValue) : M JSAPIPlainArray JSTaggedValue :=
  size ← GetSize;
  r ← on_values (find_up (Z.to_nat size) 0 (fun i =>
        currVal ← Arr.Get i;
        mret (if IsInt currVal && word_eqb currVal value then Some i else None)));
  mret (VInt (default (-1) r)).

Definition GetIndexOfValue (heap : Heap) (value : JSTaggedValue) : M JSAPIPlainArray JSTaggedValue :=
  if IsInt value then TryFastGetIndexOfValue value
  else
    size ← GetSize;
    r ← on_values (find_up (Z.to_nat size) 0 (fun i =>
          v ← Arr.Get i;
          mret (if SameValue heap v value then Some i else None)));
    mret (VInt (default (-1) r)).

Definition IsEmpty : M JSAPIPlainArray bool := length ← GetSize; mret (length =? 0).

Definition GetKeyAt (index : Z) : M JSAPIPlainArray JSTaggedValue :=
  size ← GetSize;
  if (index <? 0) || (i32 size <=? index) then mret VUndefined
  else on_keys (Arr.Get index).

Definition GetValueAt (index : Z) : M JSAPIPlainArray JSTaggedValue :=
  size ← GetSize;
  if (index <? 0) || (i32 size <=? index) then throw RANGE_ERROR
  else on_values (Arr.Get index).

Definition SetValueAt (index value : JSTaggedValue) : M JSAPIPlainArray bool :=
  size ← GetSize;
  seat ← number_to_i32 index;
  if (seat <? 0) || (size <=? u32 seat) then throw RANGE_ERROR
  else on_values (Arr.Set_ seat value);; mret true.

(** forEach with a callback that changes a state [E] and not the PlainArray. *)
Definition ForEach {E} (callbackFn : JSTaggedValue -> JSTaggedValue -> M E JSTaggedValue) (s : JSAPIPlainArray) :
    M E JSTaggedValue :=
  let length := length_ s in
  let keyArray := keys s in
  let valueArray := values s in
  for_range 0 length (fun k =>
    kValue ← Arr.GetFrom valueArray k;
    key ← Arr.GetFrom keyArray k;
    callbackFn kValue key;;
    mret tt);;
  mret VUndefined.

(** The values' and keys' strings are JSTaggedValue::ToString's, an argument. *)
Definition ToString (js_ToString : JSTaggedValue -> M JSAPIPlainArray (list Z)) : M JSAPIPlainArray (list Z) :=
  let str v := if negb (IsUndefined v) && negb (IsNull v) then js_ToString v else mret [] in
  length ← GetSize;
  (fix loop (n : nat) (k : Z) (concatStr : list Z) : M JSAPIPlainArray (list Z) :=
     match n with
     | O => mret concatStr
     | S n' =>
         value ← GetValueAt k;
         valueStr ← str value;
         key ← GetKeyAt k;
         keyStr ← str key;
         let nextStr := (keyStr ++ [58]) ++ valueStr in
         if 0 <? k then loop n' (k + 1) ((concatStr ++ [44]) ++ nextStr)
         else loop n' (k + 1) (concatStr ++ nextStr)
     end) (Z.to_nat length) 0 [].

(** ObjectFactory::NewJSAPIPlainArrayIterator; every kind yields [key, value]. *)
Definition NewJSAPIPlainArrayIterator : index_iterator := mkIter true 0.

Definition entry_at (index : Z) : M JSAPIPlainArray (JSTaggedValue * JSTaggedValue) :=
  value ← on_values (Arr.Get index);
  key ← on_keys (Arr.Get index);
  mret (key, value).

Definition Next (iter : index_iterator) : M JSAPIPlainArray (option (JSTaggedValue * JSTaggedValue) * index_iterator) :=
  index_next GetSize entry_at iter.
(** ** Bisection *)

(** Where a key is, or would be, in a sorted list. *)
Inductive located (z : Z) (ks : list Z) : Prop :=
| Found (ks1 ks2 : list Z) (Heq : ks = ks1 ++ z :: ks2)
    (Hlt : Forall (fun k => k < z) ks1) (Hgt : Forall (fun k => z < k) ks2)
| Missing (ks1 ks2 : list Z) (Heq : ks = ks1 ++ ks2)
    (Hlt : Forall (fun k => k < z) ks1) (Hgt : Forall (fun k => z < k) ks2).

Lemma plainarray_locate (z : Z) (ks : list Z) : StronglySorted Z.lt ks -> located z ks.
Proof.
  induction ks as [|k ks IH]; intros Hs; [by apply (Missing _ _ [] [])|].
  apply StronglySorted_inv in Hs as [Hs Hk]. destruct (Z.compare_spec k z) as [->|Hlt|Hgt].
  - by apply (Found _ _ [] ks).
  - destruct (IH Hs) as [ks1 ks2 -> H1 H2|ks1 ks2 -> H1 H2].
    + by apply (Found _ _ (k :: ks1) ks2); [|constructor|].
    + by apply (Missing _ _ (k :: ks1) ks2); [|constructor|].
  - apply (Missing _ _ [] (k :: ks)); [done|done|]. constructor; [lia|].
    eapply Forall_impl; [|exact Hk]. simpl. lia.
Qed.

(** One round of the loop. *)
Lemma plainarray_search_step (z : Z) (ks : list Z) (junk : TaggedArray) (low high k : Z) :
  let mid := (low + high) / 2 in
  0 <= low <= high -> high < lenZ ks -> lenZ ks < 2 ^ 31 -> ks !! Z.to_nat mid = Some k ->
  search_step z (low, high) ((VInt <$> ks) ++ junk)
  = (Ok (if k <? z then inl (mid + 1, high) else if k <=? z then inr mid else inl (low, mid - 1)),
     (VInt <$> ks) ++ junk).
Proof.
  intros mid Hl Hh Hb Hk. unfold search_step. rewrite (proj2 (Z.leb_le low high)) by lia.
  replace (i32 (Z.shiftr (u32 (low + high)) 1)) with mid.
  2: { rewrite u32_small, Z.shiftr_div_pow2 by lia. symmetry. apply i32_id. unfold mid. zlia. }
  assert (0 <= mid) by (unfold mid; zlia).
  mstep by (unfold Arr.Get; rewrite <- (Z2Nat.id mid) by done;
            rewrite (read_lookup _ _ (VInt k)) by (apply lookup_app_l_Some; by rewrite list_lookup_fmap, Hk);
            reflexivity).
  mstep. by destruct (k <? z), (k <=? z).
Qed.

Lemma plainarray_search_found (z : Z) (ks1 ks2 : list Z) (junk : TaggedArray) (fuel : nat) (low high : Z) :
  Forall (fun k => k < z) ks1 -> Forall (fun k => z < k) ks2 -> lenZ (ks1 ++ z :: ks2) < 2 ^ 31 ->
  0 <= low <= lenZ ks1 -> lenZ ks1 <= high < lenZ (ks1 ++ z :: ks2) -> (Z.to_nat (high - low) < fuel)%nat ->
  while_fuel fuel (search_step z) (low, high) ((VInt <$> (ks1 ++ z :: ks2)) ++ junk)
  = (Ok (lenZ ks1), (VInt <$> (ks1 ++ z :: ks2)) ++ junk).
Proof.
  intros H1 H2 Hb. revert low high. induction fuel as [|fuel IH]; intros low high Hl Hh Hf; [lia|].
  cbn [while_fuel]. set (m := (low + high) / 2). assert (low <= m <= high) as Hm by (unfold m; zlia).
  destruct (lookup_lt_is_Some_2 (ks1 ++ z :: ks2) (Z.to_nat m)) as [k Hk]; [unfold lenZ in *; lia|].
  mstep with (plainarray_search_step z (ks1 ++ z :: ks2) junk low high k ltac:(lia) ltac:(lia) Hb Hk). fold m.
  destruct (Z.lt_trichotomy m (lenZ ks1)) as [Hlt|[Heq|Hgt]].
  - rewrite lookup_app_l in Hk by (unfold lenZ in *; lia). pose proof (Forall_lookup_1 _ _ _ _ H1 Hk).
    simpl in *. zb. apply IH; lia.
  - rewrite (list_lookup_middle ks1 ks2 z) in Hk by (unfold lenZ in *; lia). simplify_eq. zb. mcbn. by rewrite Heq.
  - rewrite lookup_app_r, lookup_cons_ne_0 in Hk by (unfold lenZ in *; lia).
    pose proof (Forall_lookup_1 _ _ _ _ H2 Hk). simpl in *. zb. apply IH; lia.
Qed.

Lemma plainarray_search_missing (z : Z) (ks1 ks2 : list Z) (junk : TaggedArray) (fuel : nat) (low high : Z) :
  Forall (fun k => k < z) ks1 -> Forall (fun k => z < k) ks2 -> lenZ (ks1 ++ ks2) < 2 ^ 31 ->
  0 <= low <= lenZ ks1 -> lenZ ks1 <= high + 1 <= lenZ (ks1 ++ ks2) -> (Z.to_nat (high + 1 - low) < fuel)%nat ->
  while_fuel fuel (search_step z) (low, high) ((VInt <$> (ks1 ++ ks2)) ++ junk)
  = (Ok (- (lenZ ks1 + 1)), (VInt <$> (ks1 ++ ks2)) ++ junk).
Proof.
  intros H1 H2 Hb. revert low high. induction fuel as [|fuel IH]; intros low high Hl Hh Hf; [lia|].
  cbn [while_fuel]. destruct (Z.leb_spec low high) as [Hle|Hgt].
  2: { mstep by (unfold search_step; zb; reflexivity). by replace low with (lenZ ks1) by lia. }
  set (m := (low + high) / 2). assert (low <= m <= high) as Hm by (unfold m; zlia).
  destruct (lookup_lt_is_Some_2 (ks1 ++ ks2) (Z.to_nat m)) as [k Hk]; [unfold lenZ in *; lia|].
  mstep with (plainarray_search_step z (ks1 ++ ks2) junk low high k ltac:(lia) ltac:(lia) Hb Hk). fold m.
  destruct (Z.lt_ge_cases m (lenZ ks1)) as [Hlt|Hge].
  - rewrite lookup_app_l in Hk by (unfold lenZ in *; lia). pose proof (Forall_lookup_1 _ _ _ _ H1 Hk).
    simpl in *. zb. apply IH; lia.
  - rewrite lookup_app_r in Hk by (unfold lenZ in *; lia). pose proof (Forall_lookup_1 _ _ _ _ H2 Hk).
    simpl in *. zb. apply IH; lia.
Qed.

(** BinarySearch over a sorted prefix of an array: the position of the key, or
    -(p + 1) for the position p at which it belongs. *)
Lemma plainarray_BinarySearch_run (z : Z) (ks : list Z) (junk : TaggedArray) :
  StronglySorted Z.lt ks -> lenZ ks < 2 ^ 31 ->
  exists ks1 ks2 (hit : bool), ks = ks1 ++ (if hit then [z] else []) ++ ks2 /\
    Forall (fun k => k < z) ks1 /\ Forall (fun k => z < k) ks2 /\
    BinarySearch 0 (lenZ ks) z ((VInt <$> ks) ++ junk)
    = (Ok (if hit then lenZ ks1 else - (lenZ ks1 + 1)), (VInt <$> ks) ++ junk).
Proof.
  intros Hs Hb. unfold BinarySearch. rewrite Z.sub_0_r.
  destruct (plainarray_locate z ks Hs) as [ks1 ks2 -> H1 H2|ks1 ks2 -> H1 H2].
  - exists ks1, ks2, true. split_and!; [done..|]. pose proof (lenZ_nonneg ks1). pose proof (lenZ_nonneg ks2).
    apply plainarray_search_found; [done..|lia|autorewrite with lenz; lia|lia].
  - exists ks1, ks2, false. split_and!; [done..|]. pose proof (lenZ_nonneg ks1). pose proof (lenZ_nonneg ks2).
    apply plainarray_search_missing; [done..|lia|autorewrite with lenz; lia|lia].
Qed.

(** ** The abstract state: the sorted entries and the capacity *)

Notation entries := (list (Z * JSTaggedValue)).

Definition repr (s : JSAPIPlainArray) (es : entries) (cap : Z) : Prop :=
  exists kj vj, s = mkPlainArray ((VInt <$> es.*1) ++ kj) (es.*2 ++ vj) (lenZ es) /\
    StronglySorted Z.lt es.*1 /\ lenZ kj = lenZ vj /\ lenZ es + lenZ vj = cap /\ cap < 2 ^ 31.

(** The same operations on sorted lists of entries. *)
Fixpoint ins (z : Z) (v : JSTaggedValue) (es : entries) : entries :=
  match es with
  | [] => [(z, v)]
  | (k, w) :: es' =>
      if k <? z then (k, w) :: ins z v es'
      else if z <? k then (z, v) :: (k, w) :: es'
      else (z, v) :: es'
  end.

Definition has_key (z : Z) (e : Z * JSTaggedValue) : bool := e.1 =? z.
Definition assoc (z : Z) (es : entries) : option JSTaggedValue := snd <$> List.find (has_key z) es.
Definition del (z : Z) (es : entries) : entries := List.filter (fun e => negb (has_key z e)) es.
Definition index_of (z : Z) (es : entries) : option Z := find_index (has_key z) es.

(** What each of them does once the key's place is known. *)
Definition before (z : Z) (es : entries) : Prop := Forall (fun e => e.1 < z) es.
Definition after (z : Z) (es : entries) : Prop := Forall (fun e => z < e.1) es.

Lemma plainarray_has_key_refl (z : Z) (v : JSTaggedValue) : has_key z (z, v) = true.
Proof. unfold has_key. simpl. apply Z.eqb_refl. Qed.

Section placed.
Context (z : Z) (e1 e2 : entries) (Hlt : before z e1) (Hgt : after z e2).

Lemma plainarray_before_key : forall e, In e e1 -> has_key z e = false.
Proof. intros e He. pose proof (proj1 (List.Forall_forall _ _) Hlt e He). unfold has_key. simpl in *. lia. Qed.

Lemma plainarray_after_key : forall e, In e e2 -> has_key z e = false.
Proof. intros e He. pose proof (proj1 (List.Forall_forall _ _) Hgt e He). unfold has_key. simpl in *. lia. Qed.

Lemma plainarray_ins_placed (hit : option JSTaggedValue) (v : JSTaggedValue) :
  ins z v (e1 ++ (match hit with Some w => [(z, w)] | None => [] end) ++ e2) = e1 ++ (z, v) :: e2.
Proof.
  induction e1 as [|[k w] e1' IH]; simpl in *.
  - destruct hit as [w|]; simpl; [by rewrite Z.ltb_irrefl|].
    destruct e2 as [|[k w] e2']; simpl; [done|]. apply Forall_cons_1 in Hgt as [Hk _]. simpl in Hk. by zb.
  - apply Forall_cons_1 in Hlt as [Hk Hlt']. simpl in Hk. zb. by rewrite IH.
Qed.

Lemma plainarray_find_placed (hit : option JSTaggedValue) :
  List.find (has_key z) (e1 ++ (match hit with Some w => [(z, w)] | None => [] end) ++ e2)
  = (pair z) <$> hit.
Proof.
  pose proof plainarray_before_key as Hb. induction e1 as [|e e1' IH]; simpl.
  - destruct hit as [w|]; simpl; [by rewrite plainarray_has_key_refl|].
    pose proof plainarray_after_key as Ha. clear -Ha. induction e2 as [|e e2' IH]; simpl; [done|].
    rewrite Ha by (by left). apply IH. intros e' He'. apply Ha. by right.
  - apply Forall_cons_1 in Hlt as [_ Hlt']. rewrite Hb by (by left). apply IH; [done|].
    intros e' He'. apply Hb. by right.
Qed.

Lemma plainarray_assoc_placed (hit : option JSTaggedValue) :
  assoc z (e1 ++ (match hit with Some w => [(z, w)] | None => [] end) ++ e2) = hit.
Proof. unfold assoc. rewrite plainarray_find_placed. by destruct hit. Qed.

Lemma plainarray_index_placed (hit : option JSTaggedValue) :
  index_of z (e1 ++ (match hit with Some w => [(z, w)] | None => [] end) ++ e2)
  = (fun _ => lenZ e1) <$> hit.
Proof.
  unfold index_of. pose proof plainarray_before_key as Hb. induction e1 as [|e e1' IH]; simpl.
  - destruct hit as [w|]; simpl; [by rewrite plainarray_has_key_refl|].
    apply find_index_None, forallb_forall. intros e He. by rewrite plainarray_after_key.
  - apply Forall_cons_1 in Hlt as [_ Hlt']. rewrite Hb by (by left). rewrite IH; [|done|].
    + destruct hit; simpl; [|done]. f_equal. rewrite lenZ_cons. lia.
    + intros e' He'. apply Hb. by right.
Qed.

Lemma plainarray_del_placed (hit : option JSTaggedValue) :
  del z (e1 ++ (match hit with Some w => [(z, w)] | None => [] end) ++ e2) = e1 ++ e2.
Proof.
  unfold del. rewrite !List.filter_app. f_equal; [|].
  - apply List.forallb_filter_id, forallb_forall. intros e He. by rewrite plainarray_before_key.
  - replace (List.filter _ _) with (@nil (Z * JSTaggedValue)) at 1
      by (destruct hit; simpl; [by rewrite plainarray_has_key_refl|done]).
    apply List.forallb_filter_id, forallb_forall. intros e He. by rewrite plainarray_after_key.
Qed.
End placed.

Lemma plainarray_repr_bounds (s : JSAPIPlainArray) (es : entries) (cap : Z) :
  repr s es cap -> 0 <= lenZ es <= cap /\ cap < 2 ^ 31 /\ length_ s = lenZ es.
Proof.
  intros (kj & vj & -> & _ & Hk & Hc & Hb). pose proof (lenZ_nonneg es). pose proof (lenZ_nonneg vj). simpl. lia.
Qed.

(** The search of every operation: it finds the place of the key. *)
Lemma plainarray_search_run (s : JSAPIPlainArray) (es : entries) (cap z : Z) :
  repr s es cap ->
  exists e1 e2 hit, es = e1 ++ (match hit with Some w => [(z, w)] | None => [] end) ++ e2 /\
    before z e1 /\ after z e2 /\
    on_keys (BinarySearch 0 (lenZ es) z) s
    = (Ok (match hit with Some _ => lenZ e1 | None => - (lenZ e1 + 1) end), s).
Proof.
  intros Hr. pose proof (plainarray_repr_bounds _ _ _ Hr) as (? & ? & _).
  destruct Hr as (kj & vj & -> & Hs & Hk & Hc & Hb).
  assert (lenZ es.*1 = lenZ es) as Hlen by (unfold lenZ; by rewrite length_fmap).
  destruct (plainarray_BinarySearch_run z es.*1 kj Hs) as (ks1 & ks2 & hit & Heq & H1 & H2 & Hrun); [lia|].
  rewrite Hlen in Hrun.
  assert (exists e1 eh e2, es = e1 ++ eh ++ e2 /\ ks1 = e1.*1 /\ (if hit then [z] else []) = eh.*1 /\ ks2 = e2.*1)
    as (e1 & eh & e2 & -> & -> & Heh & ->).
  { apply fmap_app_inv in Heq as (e1 & rest & -> & Heq & ->). symmetry in Heq.
    apply fmap_app_inv in Heq as (eh & e2 & -> & Heq & ->). by exists e1, eh, e2. }
  exists e1, e2, (if hit then (snd <$> head eh) else None).
  assert (before z e1 /\ after z e2) as [Hb1 Ha2].
  { unfold before, after. by rewrite <- (Forall_fmap fst (fun k => k < z)), <- (Forall_fmap fst (fun k => z < k)). }
  destruct hit; [destruct eh as [|[k w] [|]]; simplify_eq/=|destruct eh; simplify_eq/=].
  - split_and!; [done..|]. unfold on_keys. erewrite zoom_run by exact Hrun. unfold set_keys. simpl.
    unfold lenZ. by rewrite length_fmap.
  - split_and!; [done..|]. unfold on_keys. erewrite zoom_run by exact Hrun. unfold set_keys. simpl.
    unfold lenZ. by rewrite length_fmap.
Qed.

(** Reading and writing the value of an entry. *)
Lemma plainarray_value_read (e1 e2 : entries) (k : Z) (w : JSTaggedValue) (ks vj : TaggedArray) (n : Z) :
  let s := mkPlainArray ks ((e1 ++ (k, w) :: e2).*2 ++ vj) n in on_values (Arr.Get (lenZ e1)) s = (Ok w, s).
Proof.
  intros s. unfold s. rewrite fmap_app, <- (assoc_L (++)). unfold on_values.
  erewrite zoom_run by (simpl; apply Get_mid; unfold lenZ; by rewrite length_fmap). done.
Qed.

Lemma plainarray_key_read (e1 e2 : entries) (k : Z) (w : JSTaggedValue) (kj vs : TaggedArray) (n : Z) :
  let s := mkPlainArray ((VInt <$> (e1 ++ (k, w) :: e2).*1) ++ kj) vs n in
  on_keys (Arr.Get (lenZ e1)) s = (Ok (VInt k), s).
Proof.
  intros s. unfold s. rewrite !fmap_app, <- (assoc_L (++)). unfold on_keys.
  erewrite zoom_run by (simpl; apply Get_mid; unfold lenZ; by rewrite !length_fmap). done.
Qed.

(** ** Queries *)

Lemma plainarray_Has_run (s : JSAPIPlainArray) (es : entries) (cap z : Z) :
  repr s es cap -> Has z s = (Ok (match assoc z es with Some _ => true | None => false end), s).
Proof.
  intros Hr. pose proof (plainarray_repr_bounds _ _ _ Hr) as (? & ? & Hn).
  unfold Has. mstep. rewrite Hn.
  destruct (plainarray_search_run s es cap z Hr) as (e1 & e2 & hit & -> & H1 & H2 & Hrun).
  mstep with Hrun. rewrite plainarray_assoc_placed by done. pose proof (lenZ_nonneg e1).
  destruct hit; [by rewrite (proj2 (Z.ltb_ge _ _)) by lia|by rewrite (proj2 (Z.ltb_lt _ _)) by lia].
Qed.

Lemma plainarray_Get_run (s : JSAPIPlainArray) (es : entries) (cap z : Z) :
  repr s es cap -> Get (VInt z) s = (Ok (default VUndefined (assoc z es)), s).
Proof.
  intros Hr. pose proof (plainarray_repr_bounds _ _ _ Hr) as (? & ? & Hn).
  unfold Get. mstep. mstep. rewrite Hn.
  destruct (plainarray_search_run s es cap z Hr) as (e1 & e2 & hit & -> & H1 & H2 & Hrun).
  mstep with Hrun. rewrite plainarray_assoc_placed by done. pose proof (lenZ_nonneg e1).
  destruct hit as [w|]; [|by rewrite (proj2 (Z.ltb_lt _ _)) by lia].
  rewrite (proj2 (Z.ltb_ge _ _)) by lia. destruct Hr as (kj & vj & -> & _). apply plainarray_value_read.
Qed.

Lemma plainarray_GetIndexOfKey_run (s : JSAPIPlainArray) (es : entries) (cap z : Z) :
  repr s es cap -> GetIndexOfKey z s = (Ok (VInt (default (-1) (index_of z es))), s).
Proof.
  intros Hr. pose proof (plainarray_repr_bounds _ _ _ Hr) as (? & ? & Hn).
  unfold GetIndexOfKey. mstep. rewrite Hn.
  destruct (plainarray_search_run s es cap z Hr) as (e1 & e2 & hit & -> & H1 & H2 & Hrun).
  mstep with Hrun. rewrite plainarray_index_placed by done. pose proof (lenZ_nonneg e1).
  destruct hit; [by rewrite (proj2 (Z.ltb_ge _ _)) by lia|by rewrite (proj2 (Z.ltb_lt _ _)) by lia].
Qed.

Definition entry_lookup (es : entries) (i : Z) : option (Z * JSTaggedValue) :=
  if i <? 0 then None else es !! Z.to_nat i.

(** The bounds check and the split of the entries at an index. *)
Lemma plainarray_index_split (es : entries) (i : Z) :
  match entry_lookup es i with
  | Some (k, w) => exists e1 e2, es = e1 ++ (k, w) :: e2 /\ lenZ e1 = i /\ (i <? 0) || (lenZ es <=? i) = false
  | None => (i <? 0) || (lenZ es <=? i) = true
  end.
Proof.
  unfold entry_lookup. destruct (Z.ltb_spec i 0); simpl; [done|].
  destruct (es !! Z.to_nat i) as [[k w]|] eqn:E.
  - pose proof (lookup_lt_Some _ _ _ E). exists (take (Z.to_nat i) es), (drop (S (Z.to_nat i)) es).
    rewrite take_drop_middle by done. split_and!; [done| |unfold lenZ; lia].
    unfold lenZ. rewrite length_take. lia.
  - apply lookup_ge_None in E. unfold lenZ. lia.
Qed.

Lemma plainarray_GetKeyAt_run (s : JSAPIPlainArray) (es : entries) (cap i : Z) :
  repr s es cap -> GetKeyAt i s = (Ok (default VUndefined ((fun e => VInt e.1) <$> entry_lookup es i)), s).
Proof.
  intros Hr. pose proof (plainarray_repr_bounds _ _ _ Hr) as (? & ? & Hn).
  unfold GetKeyAt. mstep. rewrite Hn, i32_id by lia. pose proof (plainarray_index_split es i) as Hi.
  destruct (entry_lookup es i) as [[k w]|]; [|by rewrite Hi].
  destruct Hi as (e1 & e2 & -> & <- & ->). destruct Hr as (kj & vj & -> & _). apply plainarray_key_read.
Qed.

Lemma plainarray_GetValueAt_run (s : JSAPIPlainArray) (es : entries) (cap i : Z) :
  repr s es cap ->
  GetValueAt i s = (match entry_lookup es i with Some e => Ok e.2 | None => Throw RANGE_ERROR end, s).
Proof.
  intros Hr. pose proof (plainarray_repr_bounds _ _ _ Hr) as (? & ? & Hn).
  unfold GetValueAt. mstep. rewrite Hn, i32_id by lia. pose proof (plainarray_index_split es i) as Hi.
  destruct (entry_lookup es i) as [[k w]|]; [|by rewrite Hi].
  destruct Hi as (e1 & e2 & -> & <- & ->). destruct Hr as (kj & vj & -> & _). apply plainarray_value_read.
Qed.

Lemma plainarray_fast_find (z : Z) (l : list JSTaggedValue) :
  find_index (fun v => IsInt v && word_eqb v (VInt z)) l = find_index (fun v => word_eqb v (VInt z)) l.
Proof.
  induction l as [|v l IH]; simpl; [done|]. rewrite IH. f_equal. unfold word_eqb.
  destruct (bool_decide_reflect (v = VInt z)) as [->|]; [done|]. by rewrite andb_false_r.
Qed.

(** ** Insertion *)

(** Opening a gap in one of the two arrays; nothing moves at the end. *)
Lemma plainarray_open_gap (young : bool) (pre mid post : TaggedArray) (y : JSTaggedValue) (size index : Z) :
  lenZ pre = index -> lenZ pre + lenZ mid = size -> size < 2 ^ 31 -> 0 < lenZ mid ->
  exists x, AdjustArray young size index size true (pre ++ mid ++ y :: post) = (Ok tt, pre ++ x :: mid ++ post).
Proof.
  intros Hi Hs Hb Hm. pose proof (lenZ_nonneg pre). unfold AdjustArray.
  destruct (move_up_loop pre mid post y size Hs) as [x Hx]. exists x.
  rewrite u32_small by lia. replace (Z.to_nat (size - index)) with (length mid) by lenz.
  rewrite shift_up_move_up, Z.sub_add. exact Hx.
Qed.

(** Sortedness of the entries an operation leaves. *)
Definition sorted (es : entries) : Prop := StronglySorted Z.lt es.*1.

Lemma plainarray_sorted_segments (e1 eh e2 : entries) : sorted (e1 ++ eh ++ e2) -> sorted (e1 ++ e2).
Proof.
  unfold sorted. rewrite !fmap_app, !StronglySorted_app. intros (H12 & H1 & _ & _ & H2).
  split_and!; [|done|done]. intros x y Hx Hy. apply H12; [done|]. apply elem_of_app. by right.
Qed.

Lemma plainarray_sorted_place (z : Z) (v : JSTaggedValue) (e1 eh e2 : entries) :
  sorted (e1 ++ eh ++ e2) -> before z e1 -> after z e2 -> sorted (e1 ++ (z, v) :: e2).
Proof.
  intros Hs%plainarray_sorted_segments Hb Ha. unfold sorted in *.
  rewrite fmap_app, StronglySorted_app in Hs |- *. destruct Hs as (H12 & H1 & H2).
  apply (Forall_fmap fst (fun k => k < z)) in Hb. apply (Forall_fmap fst (fun k => z < k)) in Ha.
  rewrite list.Forall_forall in Hb, Ha. split_and!; [|done|].
  - intros x y Hx [->|Hy]%elem_of_cons; [exact (Hb x Hx)|by apply H12].
  - apply StronglySorted_cons. split; [|done]. apply list.Forall_forall. exact Ha.
Qed.

Lemma plainarray_repr_intro (es : entries) (kj vj : TaggedArray) (n cap : Z) :
  sorted es -> n = lenZ es -> lenZ kj = lenZ vj -> lenZ es + lenZ vj = cap -> cap < 2 ^ 31 ->
  repr (mkPlainArray ((VInt <$> es.*1) ++ kj) (es.*2 ++ vj) n) es cap.
Proof. intros Hs -> ?. by exists kj, vj. Qed.

(** The capacity after an insertion. *)
Definition grown (z : Z) (es : entries) (cap : Z) : Z :=
  match assoc z es with
  | Some _ => cap
  | None => if cap <=? lenZ es + 1 then 2 * cap else cap
  end.

(** The second half of Add, once there is a gap at [index]: grow and store. *)
Lemma plainarray_store_run (kpre kpost vpre vpost : TaggedArray) (a b key value : JSTaggedValue) (size index cap : Z) :
  lenZ kpre = index -> lenZ vpre = index ->
  lenZ (kpre ++ a :: kpost) = cap -> lenZ (vpre ++ b :: vpost) = cap -> 0 <= size < cap -> cap <= 2 ^ 30 ->
  let cap' := if cap <=? size + 1 then 2 * cap else cap in
  exists kx vx, lenZ (kpre ++ key :: kpost ++ kx) = cap' /\ lenZ vx = lenZ kx /\
  (s ← get;
   (if lenZ (values s) <=? u32 (size + 1) then
      keyArray ← Factory.CopyArray (keys s) (lenZ (values s)) (u32 (Z.shiftl (lenZ (values s)) 1)) VHole;
      valueArray ← Factory.CopyArray (values s) (lenZ (values s)) (u32 (Z.shiftl (lenZ (values s)) 1)) VHole;
      modify (set_keys keyArray);;
      modify (set_values valueArray)
    else mret tt);;
   on_keys (Arr.Set_ index key);;
   on_values (Arr.Set_ index value);;
   modify (set_length (u32 (size + 1)))) (mkPlainArray (kpre ++ a :: kpost) (vpre ++ b :: vpost) size)
  = (Ok tt, mkPlainArray (kpre ++ key :: kpost ++ kx) (vpre ++ value :: vpost ++ vx) (size + 1)).
Proof.
  intros Hk Hv Hck Hcv Hs Hb cap'. mstep. cbn [values keys]. rewrite Hcv.
  rewrite !u32_small, Z.shiftl_mul_pow2 by (rewrite ?Z.shiftl_mul_pow2; lia).
  change (cap * 2 ^ 1) with (cap * 2). unfold cap'.
  destruct (Z.leb_spec cap (size + 1)) as [Hle|Hgt].
  - exists (replicate (Z.to_nat cap) VHole), (replicate (Z.to_nat cap) VHole).
    split; [autorewrite with lenz in *; lia|]. split; [done|].
    mstep by (rewrite <- Hck at 1; mstep by (apply CopyArray_grow; lia);
              rewrite <- Hcv at 1; mstep by (apply CopyArray_grow; lia); reflexivity).
    unfold set_keys, set_values. cbn [keys values length_]. rewrite Hck, Hcv.
    replace (cap * 2 - cap) with cap by lia. rewrite <- !(assoc_L (++)). simpl.
    mstep by (apply zoom_run; simpl; by apply Set_mid).
    mstep by (apply zoom_run; simpl; by apply Set_mid). done.
  - exists [], []. rewrite !app_nil_r. split; [autorewrite with lenz in *; lia|]. split; [done|]. mstep.
    mstep by (apply zoom_run; simpl; by apply Set_mid).
    mstep by (apply zoom_run; simpl; by apply Set_mid). done.
Qed.

Lemma plainarray_Add_run (young : bool) (s : JSAPIPlainArray) (es : entries) (cap z : Z) (v : JSTaggedValue) :
  repr s es cap -> lenZ es < cap -> cap < 2 ^ 30 ->
  exists s', Add young (VInt z) v s = (Ok tt, s') /\ repr s' (ins z v es) (grown z es cap).
Proof.
  intros Hr Hroom Hb. pose proof (plainarray_repr_bounds _ _ _ Hr) as (? & ? & Hn).
  unfold Add. mstep. mstep. rewrite Hn.
  destruct (plainarray_search_run s es cap z Hr) as (e1 & e2 & hit & Hes & H1 & H2 & Hrun).
  assert (assoc z es = hit /\ ins z v es = e1 ++ (z, v) :: e2) as [Hassoc Hins].
  { rewrite Hes. by rewrite plainarray_assoc_placed, plainarray_ins_placed. }
  mstep with Hrun. unfold grown. rewrite Hassoc, Hins.
  destruct Hr as (kj & vj & -> & Hs & Hkv & Hc & _). pose proof (lenZ_nonneg e1). pose proof (lenZ_nonneg e2).
  pose proof Hs as Hs'. rewrite Hes in Hs'. apply (plainarray_sorted_place z v) in Hs'; [|done..].
  destruct hit as [w|].
  - rewrite (proj2 (Z.leb_le 0 (lenZ e1))) by lia. simpl in Hes.
    assert (lenZ (e1 ++ (z, v) :: e2) = lenZ es) as Hlen by (rewrite Hes; lenz).
    pose proof (plainarray_repr_intro (e1 ++ (z, v) :: e2) kj vj (lenZ es) cap Hs') as Hrep.
    rewrite Hlen in Hrep. specialize (Hrep eq_refl Hkv Hc ltac:(lia)).
    eexists. split; [|exact Hrep]. rewrite Hes at 1 2. rewrite !fmap_app, <- !(assoc_L (++)). simpl.
    mstep by (apply zoom_run; simpl; apply Set_mid; unfold lenZ; by rewrite !length_fmap).
    unfold on_values. erewrite zoom_run by (simpl; apply Set_mid; unfold lenZ; by rewrite length_fmap). done.
  - rewrite (proj2 (Z.leb_gt 0 _)) by lia.
    assert (lenZ es = lenZ e1 + lenZ e2) as Hlen by (rewrite Hes; simpl; lenz).
    rewrite i32_lnot by lia. rewrite i32_id by lia.
    destruct kj as [|ky kj]; [autorewrite with lenz in Hkv; lia|].
    destruct vj as [|vy vj]; [autorewrite with lenz in *; lia|].
    simpl in Hes. subst es. rewrite !fmap_app, <- !(assoc_L (++)).
    set (K1 := VInt <$> e1.*1). set (K2 := VInt <$> e2.*1).
    assert (lenZ K1 = lenZ e1 /\ lenZ K2 = lenZ e2 /\ lenZ e1.*2 = lenZ e1 /\ lenZ e2.*2 = lenZ e2) as (HK1 & HK2 & HV1 & HV2).
    { unfold K1, K2, lenZ. by rewrite !length_fmap. }
    assert (exists a b, (if lenZ e1 <? lenZ (e1 ++ e2)
        then on_keys (AdjustArray young (lenZ (e1 ++ e2)) (lenZ e1) (lenZ (e1 ++ e2)) true);;
             on_values (AdjustArray young (lenZ (e1 ++ e2)) (lenZ e1) (lenZ (e1 ++ e2)) true)
        else mret tt) (mkPlainArray (K1 ++ K2 ++ ky :: kj) (e1.*2 ++ e2.*2 ++ vy :: vj) (lenZ (e1 ++ e2)))
      = (Ok tt, mkPlainArray (K1 ++ a :: K2 ++ kj) (e1.*2 ++ b :: e2.*2 ++ vj) (lenZ (e1 ++ e2)))) as (a & b & Hgap).
    { destruct (Z.ltb_spec (lenZ e1) (lenZ (e1 ++ e2))) as [Hlt|Hge].
      - destruct (plainarray_open_gap young K1 K2 kj ky (lenZ (e1 ++ e2)) (lenZ e1)) as [a Ha]; [lia..|].
        destruct (plainarray_open_gap young e1.*2 e2.*2 vj vy (lenZ (e1 ++ e2)) (lenZ e1)) as [b Hb']; [lia..|].
        exists a, b. mstep by (apply zoom_run; exact Ha). unfold on_values. erewrite zoom_run by exact Hb'. done.
      - exists ky, vy. assert (e2 = []) as -> by (apply lenZ_zero; lia). done. }
    mstep with Hgap.
    destruct (plainarray_store_run K1 (K2 ++ kj) e1.*2 (e2.*2 ++ vj) a b (VInt z) v (lenZ (e1 ++ e2)) (lenZ e1) cap)
      as (kx & vx & Hcap & Hx & Hstore); [lia|lia|autorewrite with lenz in *; lia|autorewrite with lenz in *; lia|lia|lia|].
    erewrite Hstore. eexists. split; [reflexivity|].
    pose proof (plainarray_repr_intro (e1 ++ (z, v) :: e2) (kj ++ kx) (vj ++ vx) (lenZ (e1 ++ e2) + 1)
      (if cap <=? lenZ (e1 ++ e2) + 1 then 2 * cap else cap) Hs') as Hrep.
    rewrite !fmap_app, <- !(assoc_L (++)) in Hrep.
    change (VInt <$> ((z, v) :: e2).*1) with (VInt z :: K2) in Hrep.
    rewrite <- !(assoc_L (++)). apply Hrep; autorewrite with lenz in *; [lia|lia|lia|].
    destruct (cap <=? _); lia.
Qed.

(** ** Removal *)

Lemma plainarray_close_gap (pre mid tail post : TaggedArray) (size from to : Z) :
  lenZ pre = to -> lenZ mid = from - to -> lenZ tail = size - from -> 0 < lenZ mid -> size < 2 ^ 31 ->
  AdjustPrimitiveArray size from to (pre ++ mid ++ tail ++ post)
  = (Ok tt, pre ++ tail ++ replicate (length mid) VHole ++ post).
Proof.
  intros Hp Hm Ht Hpos Hb. pose proof (lenZ_nonneg pre). pose proof (lenZ_nonneg tail).
  unfold AdjustPrimitiveArray, for_range. rewrite !u32_small by lia.
  replace (Z.to_nat (size - from - 0)) with (length tail) by lenz.
  destruct (move_block_loop pre mid tail post to from 0) as (junk & Hj & Hrun); [lia|lia|done|].
  mstep with Hrun. replace (Z.to_nat _) with (length junk) by (rewrite Hj; lenz).
  pose proof (fill_loop (pre ++ tail) junk post VHole (to + (size - from))) as F.
  rewrite <- !(assoc_L (++)) in F. rewrite F by lenz. by rewrite Hj.
Qed.

Lemma plainarray_AdjustArray_false (young : bool) (size from to : Z) (a : TaggedArray) :
  AdjustArray young size from to false a = AdjustPrimitiveArray size from to a.
Proof. by destruct young. Qed.

Lemma plainarray_AdjustForward_run (young : bool) (s : JSAPIPlainArray) (e1 eh e2 : entries) (cap : Z) :
  repr s (e1 ++ eh ++ e2) cap -> 0 < lenZ eh ->
  exists s', AdjustForward young (lenZ e1) (lenZ eh) s = (Ok true, s') /\ repr s' (e1 ++ e2) cap.
Proof.
  intros Hr Hpos. pose proof (plainarray_repr_bounds _ _ _ Hr) as (? & ? & Hn).
  destruct Hr as (kj & vj & -> & Hs & Hkv & Hc & _). unfold AdjustForward. mstep. cbn [length_].
  apply plainarray_sorted_segments in Hs. rewrite !fmap_app, <- !(assoc_L (++)).
  pose proof (lenZ_nonneg e1). pose proof (lenZ_nonneg e2).
  assert (lenZ (e1 ++ eh ++ e2) = lenZ e1 + lenZ eh + lenZ e2) as Hlen by lenz. rewrite Hlen in *.
  assert (forall e : entries, lenZ (VInt <$> e.*1) = lenZ e) as HK by (intros e; unfold lenZ; by rewrite !length_fmap).
  assert (forall e : entries, lenZ e.*2 = lenZ e) as HV by (intros e; unfold lenZ; by rewrite !length_fmap).
  mstep by (apply zoom_run; simpl; apply plainarray_close_gap; rewrite ?HK; lia).
  mstep by (apply zoom_run; rewrite plainarray_AdjustArray_false; cbn [values set_keys]; apply plainarray_close_gap; rewrite ?HV; lia).
  mstep. eexists. split; [reflexivity|]. unfold set_keys, set_values, set_length. cbn [keys values length_].
  rewrite u32_small by lia.
  pose proof (plainarray_repr_intro (e1 ++ e2) (replicate (length (VInt <$> eh.*1)) VHole ++ kj)
    (replicate (length eh.*2) VHole ++ vj) (lenZ e1 + lenZ eh + lenZ e2 - lenZ eh) cap Hs) as Hrep.
  rewrite !fmap_app, <- !(assoc_L (++)) in Hrep.
  apply Hrep; autorewrite with lenz; rewrite ?length_fmap; unfold lenZ in *; lia.
Qed.

Lemma plainarray_Remove_run (young : bool) (s : JSAPIPlainArray) (es : entries) (cap z : Z) :
  repr s es cap ->
  exists s', Remove young (VInt z) s = (Ok (default VUndefined (assoc z es)), s') /\ repr s' (del z es) cap.
Proof.
  intros Hr. pose proof (plainarray_repr_bounds _ _ _ Hr) as (? & ? & Hn).
  unfold Remove. mstep. mstep. rewrite Hn.
  destruct (plainarray_search_run s es cap z Hr) as (e1 & e2 & hit & -> & H1 & H2 & Hrun).
  mstep with Hrun. rewrite plainarray_assoc_placed, plainarray_del_placed by done.
  pose proof (lenZ_nonneg e1). pose proof (lenZ_nonneg e2). rewrite i32_id by lia. destruct hit as [w|].
  - rewrite (proj2 (orb_false_iff _ _)) by (autorewrite with lenz in *; simpl; lia).
    destruct (plainarray_AdjustForward_run young s e1 [(z, w)] e2 cap Hr) as (s' & Hadj & Hr'); [done|].
    exists s'. split; [|done]. destruct Hr as (kj & vj & -> & _).
    mstep by (apply plainarray_value_read). change (lenZ [(z, w)]) with 1 in Hadj. by mstep with Hadj.
  - rewrite (proj2 (orb_true_iff _ _)) by lia. by exists s.
Qed.

Lemma plainarray_RemoveAt_run (young : bool) (s : JSAPIPlainArray) (es : entries) (cap i : Z) :
  repr s es cap -> INT32_MIN <= i <= INT32_MAX ->
  exists s', RemoveAt young (VInt i) s = (Ok (default VUndefined (snd <$> entry_lookup es i)), s') /\
    repr s' (if entry_lookup es i then delete (Z.to_nat i) es else es) cap.
Proof.
  intros Hr Hi. pose proof (plainarray_repr_bounds _ _ _ Hr) as (? & ? & Hn).
  unfold RemoveAt. mstep. mstep. rewrite Hn. pose proof (plainarray_index_split es i) as Hsplit.
  assert ((i <? 0) || (lenZ es <=? u32 i) = (i <? 0) || (lenZ es <=? i)) as ->.
  { destruct (Z.ltb_spec i 0); [done|]. unfold INT32_MAX in *. by rewrite u32_small by lia. }
  destruct (entry_lookup es i) as [[k w]|]; [|rewrite Hsplit; by exists s].
  destruct Hsplit as (e1 & e2 & -> & <- & ->).
  destruct (plainarray_AdjustForward_run young s e1 [(k, w)] e2 cap Hr) as (s' & Hadj & Hr'); [done|].
  exists s'. replace (Z.to_nat (lenZ e1)) with (length e1) by lenz. cbv iota. rewrite delete_middle. split; [|done]. destruct Hr as (kj & vj & -> & _).
  mstep by (apply plainarray_value_read). change (lenZ [(k, w)]) with 1 in Hadj. by mstep with Hadj.
Qed.

(** RemoveRangeFrom(index, n) removes the n entries from [index] on, or all
    that are left if there are fewer, and returns how many it removed; the sum
    index + n may overflow int32 without harm. *)
Theorem plainarray_RemoveRangeFrom_spec (young : bool) (s : JSAPIPlainArray) (es : entries) (cap i n : Z) :
  repr s es cap -> i <= INT32_MAX -> n <= INT32_MAX ->
  let ok := (0 <=? i) && (i <? lenZ es) && (1 <=? n) in
  let m := Z.min n (lenZ es - i) in
  exists s', RemoveRangeFrom young i n s = (if ok then Ok (VInt m) else Throw RANGE_ERROR, s') /\
    repr s' (if ok then take (Z.to_nat i) es ++ drop (Z.to_nat (i + m)) es else es) cap.
Proof.
  intros Hr Hi Hn ok m. pose proof (plainarray_repr_bounds _ _ _ Hr) as (? & ? & Hlen).
  unfold RemoveRangeFrom. mstep. rewrite Hlen, (i32_id (lenZ es)) by lia. destruct ok eqn:Eok; unfold ok in Eok.
  2: { exists s. split; [|done]. destruct ((i <? 0) || _) eqn:E1; [done|].
       by rewrite (proj2 (Z.ltb_lt n 1)) by lia. }
  rewrite (proj2 (orb_false_iff _ _)), (proj2 (Z.ltb_ge n 1)) by lia.
  assert ((if i32 (lenZ es - i32 (i + n)) <? 0 then lenZ es - i else n) = m) as ->.
  { assert (i32 (lenZ es - i32 (i + n)) = lenZ es - i - n) as ->.
    { rewrite <- (i32_id (lenZ es - i - n)) by (unfold INT32_MAX in *; lia). unfold i32.
      replace (lenZ es - ((i + n + 2 ^ 31) mod 2 ^ 32 - 2 ^ 31) + 2 ^ 31)
        with (lenZ es + 2 ^ 32 - (i + n + 2 ^ 31) mod 2 ^ 32) by lia.
      rewrite Zminus_mod_idemp_r. do 2 f_equal. lia. }
    unfold m. destruct (Z.ltb_spec (lenZ es - i - n) 0); lia. }
  assert (0 < m <= lenZ es - i) as Hm by (unfold m; lia). clearbody m. clear ok.
  destruct (split_len es i) as (e1 & rest & -> & He1); [lia|]. rewrite lenZ_app in Hm.
  destruct (split_len rest m) as (eh & e2 & -> & Heh); [lia|].
  destruct (plainarray_AdjustForward_run young s e1 eh e2 cap Hr) as (s' & Hadj & Hr'); [lia|].
  rewrite He1, Heh in Hadj. exists s'. mstep with Hadj. split; [done|].
  rewrite take_app_length', (assoc_L (++)), drop_app_length' by lenz. done.
Qed.

Lemma plainarray_SetValueAt_run (s : JSAPIPlainArray) (es : entries) (cap i : Z) (v : JSTaggedValue) :
  repr s es cap -> INT32_MIN <= i <= INT32_MAX ->
  exists s', SetValueAt (VInt i) v s =
      (if entry_lookup es i then Ok true else Throw RANGE_ERROR, s') /\
    repr s' (match entry_lookup es i with Some (k, _) => <[Z.to_nat i := (k, v)]> es | None => es end) cap.
Proof.
  intros Hr Hi. pose proof (plainarray_repr_bounds _ _ _ Hr) as (? & ? & Hn).
  unfold SetValueAt. mstep. mstep. rewrite Hn. pose proof (plainarray_index_split es i) as Hsplit.
  assert ((i <? 0) || (lenZ es <=? u32 i) = (i <? 0) || (lenZ es <=? i)) as ->.
  { destruct (Z.ltb_spec i 0); [done|]. unfold INT32_MAX in *. by rewrite u32_small by lia. }
  destruct (entry_lookup es i) as [[k w]|]; [|rewrite Hsplit; by exists s].
  destruct Hsplit as (e1 & e2 & -> & <- & ->). destruct Hr as (kj & vj & -> & Hs & Hkv & Hc & Hb).
  eexists. split.
  { rewrite !fmap_app, <- !(assoc_L (++)).
    mstep by (apply zoom_run; simpl; apply Set_mid; unfold lenZ; by rewrite length_fmap). reflexivity. }
  replace (Z.to_nat (lenZ e1)) with (length e1 + 0)%nat by lenz. rewrite insert_app_r.
  exists kj, vj. unfold set_values. cbn [keys values length_]. simpl insert.
  assert ((e1 ++ (k, v) :: e2).*1 = (e1 ++ (k, w) :: e2).*1) as Hk1 by (by rewrite !fmap_app).
  rewrite Hk1, (fmap_app snd e1 ((k, v) :: e2)), (fmap_app fst), fmap_app, <- !(assoc_L (++)).
  rewrite fmap_app in Hs. split_and!; [f_equal; lenz|done|done|lenz|done].
Qed.

Lemma plainarray_Clear_run (s : JSAPIPlainArray) (es : entries) (cap : Z) :
  repr s es cap -> exists s', Clear s = (Ok tt, s') /\ repr s' [] cap.
Proof.
  intros (kj & vj & -> & Hs & Hkv & Hc & Hb). unfold Clear. mstep. cbn [length_]. unfold for_range. rewrite Z.sub_0_r.
  assert (forall (kd vd km vm : TaggedArray) (i n : Z), lenZ kd = i -> lenZ vd = i -> length km = length vm ->
    for_up (length km) i (fun index => on_keys (Arr.Set_ index VHole);; on_values (Arr.Set_ index VHole))
      (mkPlainArray (kd ++ km ++ kj) (vd ++ vm ++ vj) n)
    = (Ok tt, mkPlainArray (kd ++ replicate (length km) VHole ++ kj) (vd ++ replicate (length km) VHole ++ vj) n)) as Hloop.
  { intros kd vd km. revert kd vd. induction km as [|x km IH]; intros kd vd vm i n Hkd Hvd Hl.
    { by destruct vm. }
    destruct vm as [|y vm]; [done|]. simpl length. erewrite for_up_cons.
    2: { mstep by (apply zoom_run; simpl; by apply Set_mid).
         unfold on_values. erewrite zoom_run by (simpl; by apply Set_mid). reflexivity. }
    unfold set_keys, set_values. cbn [keys values length_].
    specialize (IH (kd ++ [VHole]) (vd ++ [VHole]) vm (i + 1) n). rewrite <- !(assoc_L (++)) in IH.
    simpl in IH. rewrite IH by (lenz || (simpl in Hl; lia)). done. }
  specialize (Hloop [] [] (VInt <$> es.*1) es.*2 0 (lenZ es) eq_refl eq_refl).
  rewrite !length_fmap in Hloop. simpl app in Hloop. replace (Z.to_nat (lenZ es)) with (length es) by lenz.
  mstep with (Hloop eq_refl). eexists. split; [reflexivity|]. eexists _, _.
  split; [reflexivity|]. split; [constructor|]. autorewrite with lenz. unfold lenZ in *. lia.
Qed.

(** ** Copies *)

Lemma plainarray_Clone_run (s : JSAPIPlainArray) (es : entries) (cap : Z) :
  repr s es cap ->
  Clone s = (Ok (mkPlainArray (VInt <$> es.*1) es.*2 (lenZ es)), s) /\
  repr (mkPlainArray (VInt <$> es.*1) es.*2 (lenZ es)) es (lenZ es).
Proof.
  intros Hr. pose proof (plainarray_repr_bounds _ _ _ Hr) as (? & ? & _).
  destruct Hr as (kj & vj & -> & Hs & Hkv & Hc & Hb). split.
  - unfold Clone. mstep. mstep. mstep. cbn [keys values length_].
    mstep by (pose proof (@NewAndCopyTaggedArray_run JSAPIPlainArray [] (VInt <$> es.*1) kj) as G; simpl in G;
              apply G; [done|unfold lenZ; by rewrite !length_fmap|lia]).
    mstep by (pose proof (@NewAndCopyTaggedArray_run JSAPIPlainArray [] es.*2 vj) as G; simpl in G;
              apply G; [done|unfold lenZ; by rewrite !length_fmap|lia]).
    rewrite Z.sub_diag. simpl. by rewrite !app_nil_r.
  - exists [], []. rewrite !app_nil_r. autorewrite with lenz. split_and!; [done|done|done|lia|lia].
Qed.

(** A clone has exactly as many slots as entries, so a later add of a new
    key that is not the largest, or of any key to the clone of an empty
    PlainArray, writes outside its arrays. *)
Theorem plainarray_Clone_then_Add (young : bool) (s : JSAPIPlainArray) (es : entries) (cap z : Z) (v : JSTaggedValue) :
  repr s es cap -> assoc z es = None -> (es = [] \/ exists e, e ∈ es /\ z < e.1) ->
  exists c, Clone s = (Ok c, s) /\ repr c es (lenZ es) /\ (Add young (VInt z) v c).1 = Fault.
Proof.
  intros Hr Ha Hlast. destruct (plainarray_Clone_run s es cap Hr) as [Hclone Hrc].
  eexists. split; [exact Hclone|]. split; [exact Hrc|].
  destruct Hlast as [->|(e & He & Hz)]; [by destruct young|].
  pose proof (plainarray_repr_bounds _ _ _ Hrc) as (? & ? & Hn).
  unfold Add. mstep. mstep. cbn [length_].
  destruct (plainarray_search_run _ es _ z Hrc) as (e1 & e2 & hit & Hes & H1 & H2 & Hrun).
  rewrite Hes, plainarray_assoc_placed in Ha by done. subst hit. simpl in Hes.
  assert (e2 <> []) as Hne.
  { intros ->. rewrite app_nil_r in Hes. subst e1. unfold before in H1. rewrite list.Forall_forall in H1.
    specialize (H1 e He). simpl in H1. lia. }
  pose proof (lenZ_nonneg e1). assert (0 < lenZ e2) by (destruct e2; [done|lenz]).
  assert (lenZ es = lenZ e1 + lenZ e2) by (rewrite Hes; lenz).
  mstep with Hrun. rewrite (proj2 (Z.leb_gt 0 _)) by lia. rewrite i32_lnot, i32_id by lia. zb.
  erewrite bind_Fault; [reflexivity|]. erewrite bind_Fault; [reflexivity|]. apply zoom_run. cbn [keys].
  unfold AdjustArray. rewrite u32_small by lia. replace (Z.to_nat (lenZ es - lenZ e1)) with (S (length e2 - 1)) by lenz.
  simpl. erewrite bind_Fault; [reflexivity|]. unfold Arr.shift_up.
  destruct (lookup_lt_is_Some_2 (VInt <$> es.*1) (Z.to_nat (lenZ es - 1))) as [x Hx].
  { rewrite !length_fmap. unfold lenZ in *. lia. }
  mstep by (unfold Arr.Get; rewrite <- (Z2Nat.id (lenZ es - 1)) by lia; rewrite (read_lookup _ _ _ Hx); reflexivity).
  unfold Arr.Set_. rewrite (proj2 (Z.ltb_ge _ _)) by (unfold lenZ at 1; rewrite !length_fmap; unfold lenZ; lia).
  by rewrite andb_false_r.
Qed.

(** Reading a property finds the position of the key and then returns the
    value of the entry whose key is that position. *)
Theorem plainarray_GetProperty_spec (s : JSAPIPlainArray) (es : entries) (cap z : Z) :
  repr s es cap ->
  GetProperty z s =
    (match index_of z es with
     | Some i => Ok (default VUndefined (assoc i es))
     | None => Throw RANGE_ERROR
     end, s).
Proof.
  intros Hr. pose proof (plainarray_repr_bounds _ _ _ Hr) as (? & ? & Hn).
  unfold GetProperty. mstep. rewrite Hn, i32_id by lia.
  destruct (plainarray_search_run s es cap z Hr) as (e1 & e2 & hit & Hes & H1 & H2 & Hrun).
  mstep with Hrun. replace (index_of z es) with ((fun _ : JSTaggedValue => lenZ e1) <$> hit)
    by (rewrite Hes; by rewrite plainarray_index_placed).
  pose proof (lenZ_nonneg e1). pose proof (lenZ_nonneg e2). destruct hit as [w|]; simpl.
  - rewrite (proj2 (orb_false_iff _ _)) by (rewrite Hes; autorewrite with lenz; lia).
    by apply plainarray_Get_run with cap.
  - by rewrite (proj2 (orb_true_iff _ _)) by lia.
Qed.

(** Writing a property finds the position of the key and then stores the
    value under that position as a key; a key that is absent is refused. *)
Theorem plainarray_SetProperty_spec (young : bool) (s : JSAPIPlainArray) (es : entries) (cap z : Z) (v : JSTaggedValue) :
  repr s es cap -> lenZ es < cap -> cap < 2 ^ 30 ->
  exists s', SetProperty young z v s = (Ok (if index_of z es then true else false), s') /\
    repr s' (match index_of z es with Some i => ins i v es | None => es end)
      (match index_of z es with Some i => grown i es cap | None => cap end).
Proof.
  intros Hr Hroom Hb. pose proof (plainarray_repr_bounds _ _ _ Hr) as (? & ? & Hn).
  unfold SetProperty. mstep. rewrite Hn, i32_id by lia.
  destruct (plainarray_search_run s es cap z Hr) as (e1 & e2 & hit & Hes & H1 & H2 & Hrun).
  mstep with Hrun. replace (index_of z es) with ((fun _ : JSTaggedValue => lenZ e1) <$> hit)
    by (rewrite Hes; by rewrite plainarray_index_placed).
  pose proof (lenZ_nonneg e1). pose proof (lenZ_nonneg e2). destruct hit as [w|]; simpl.
  - rewrite (proj2 (orb_false_iff _ _)) by (rewrite Hes; autorewrite with lenz; lia).
    destruct (plainarray_Add_run young s es cap (lenZ e1) v Hr Hroom Hb) as (s' & Hadd & Hr').
    exists s'. unfold Set_. rewrite <- bind_assoc. by mstep with Hadd.
  - rewrite (proj2 (orb_true_iff _ _)) by lia. by exists s.
Qed.

(** ** Sequences of operations *)

Inductive op : Type :=
| OpAdd (z : Z) (v : JSTaggedValue)
| OpRemove (z : Z)
| OpGet (z : Z)
| OpHas (z : Z)
| OpSize
| OpIsEmpty
| OpClear.

Inductive answer : Type :=
| AUnit
| AValue (v : JSTaggedValue)
| ABool (b : bool)
| ANum (z : Z).

Definition exec (young : bool) (o : op) : M JSAPIPlainArray answer :=
  match o with
  | OpAdd z v => Add young (VInt z) v;; mret AUnit
  | OpRemove z => v ← Remove young (VInt z); mret (AValue v)
  | OpGet z => v ← Get (VInt z); mret (AValue v)
  | OpHas z => b ← Has z; mret (ABool b)
  | OpSize => n ← GetSize; mret (ANum n)
  | OpIsEmpty => b ← IsEmpty; mret (ABool b)
  | OpClear => Clear;; mret AUnit
  end.

(** The same operations on a finite map. *)
Definition spec (o : op) (m : gmap Z JSTaggedValue) : outcome answer * gmap Z JSTaggedValue :=
  match o with
  | OpAdd z v => (Ok AUnit, <[z := v]> m)
  | OpRemove z => (Ok (AValue (default VUndefined (m !! z))), delete z m)
  | OpGet z => (Ok (AValue (default VUndefined (m !! z))), m)
  | OpHas z => (Ok (ABool (bool_decide (is_Some (m !! z)))), m)
  | OpSize => (Ok (ANum (Z.of_nat (size m))), m)
  | OpIsEmpty => (Ok (ABool (bool_decide (m = ∅))), m)
  | OpClear => (Ok AUnit, ∅)
  end.

(** Sorted entries as a map. *)
Definition to_map (es : entries) : gmap Z JSTaggedValue := list_to_map es.

Lemma plainarray_to_map_lookup (es : entries) (z : Z) : to_map es !! z = assoc z es.
Proof.
  unfold to_map, assoc. induction es as [|[k w] es IH]; simpl; [apply lookup_empty|].
  unfold has_key at 1. simpl. destruct (Z.eqb_spec k z) as [->|Hne].
  - by rewrite lookup_insert_eq.
  - by rewrite lookup_insert_ne by done.
Qed.

Lemma plainarray_assoc_cons (z k : Z) (w : JSTaggedValue) (es : entries) :
  assoc z ((k, w) :: es) = if k =? z then Some w else assoc z es.
Proof. unfold assoc, has_key. simpl. by destruct (k =? z). Qed.

Lemma plainarray_assoc_ins (es : entries) (z k : Z) (v : JSTaggedValue) :
  assoc k (ins z v es) = if k =? z then Some v else assoc k es.
Proof.
  rewrite (Z.eqb_sym k z). induction es as [|[k' w] es IH]; simpl; [by rewrite plainarray_assoc_cons|].
  destruct (Z.ltb_spec k' z); [|destruct (Z.ltb_spec z k')]; rewrite !plainarray_assoc_cons.
  - rewrite IH. destruct (Z.eqb_spec k' k); [by zb|done].
  - done.
  - assert (k' = z) as -> by lia. by destruct (z =? k).
Qed.

Lemma plainarray_assoc_del (es : entries) (z k : Z) :
  assoc k (del z es) = if k =? z then None else assoc k es.
Proof.
  rewrite (Z.eqb_sym k z). unfold del. induction es as [|[k' w] es IH]; simpl; [by destruct (z =? k)|].
  rewrite plainarray_assoc_cons. change (has_key z (k', w)) with (k' =? z).
  destruct (Z.eqb_spec k' z) as [->|Hne]; simpl; [rewrite IH; by destruct (z =? k)|].
  rewrite plainarray_assoc_cons, IH. destruct (Z.eqb_spec k' k) as [->|]; [by zb|done].
Qed.

Lemma plainarray_to_map_ins (es : entries) (z : Z) (v : JSTaggedValue) : to_map (ins z v es) = <[z := v]> (to_map es).
Proof.
  apply map_eq. intros k. rewrite plainarray_to_map_lookup, plainarray_assoc_ins.
  destruct (Z.eqb_spec k z) as [->|Hne].
  - by rewrite lookup_insert_eq.
  - by rewrite lookup_insert_ne, plainarray_to_map_lookup.
Qed.

Lemma plainarray_to_map_del (es : entries) (z : Z) : to_map (del z es) = delete z (to_map es).
Proof.
  apply map_eq. intros k. rewrite plainarray_to_map_lookup, plainarray_assoc_del.
  destruct (Z.eqb_spec k z) as [->|Hne].
  - by rewrite lookup_delete_eq.
  - by rewrite lookup_delete_ne, plainarray_to_map_lookup.
Qed.

Lemma plainarray_to_map_size (es : entries) : sorted es -> Z.of_nat (size (to_map es)) = lenZ es.
Proof.
  intros Hs. unfold to_map, lenZ. rewrite map_size_list_to_map; [done|]. unfold sorted in Hs.
  induction Hs as [|k ks Hs IH Hk]; constructor; [|done].
  rewrite list.Forall_forall in Hk. intros Hin. specialize (Hk _ Hin). lia.
Qed.

(** After at most [k] additions the capacity is below 8 + 2 k, and there is room. *)
Definition within (k : Z) (s : JSAPIPlainArray) (m : gmap Z JSTaggedValue) : Prop :=
  exists es cap, repr s es cap /\ m = to_map es /\ lenZ es < cap /\ lenZ es <= k /\ cap <= 8 + 2 * k.

Lemma plainarray_assoc_elem (es : entries) (z : Z) (v : JSTaggedValue) :
  sorted es -> assoc z es = Some v <-> (z, v) ∈ es.
Proof.
  intros Hs. rewrite <- plainarray_to_map_lookup. unfold to_map. symmetry. apply elem_of_list_to_map.
  unfold sorted in Hs. induction Hs as [|k ks Hs IH Hk]; constructor; [|done].
  rewrite list.Forall_forall in Hk. intros Hin. specialize (Hk _ Hin). lia.
Qed.

Lemma plainarray_ins_length (z : Z) (v : JSTaggedValue) (es : entries) :
  sorted es -> lenZ (ins z v es) = if assoc z es then lenZ es else lenZ es + 1.
Proof.
  intros Hs. destruct (plainarray_locate z es.*1 Hs) as [ks1 ks2 Heq H1 H2|ks1 ks2 Heq H1 H2];
    apply fmap_app_inv in Heq as (e1 & rest & -> & Heq & ->).
  - destruct rest as [|[k w] e2]; [done|]. simpl in Heq. injection Heq as Hz ->. subst k.
    apply (Forall_fmap fst (fun k => k < z)) in H1. apply (Forall_fmap fst (fun k => z < k)) in H2.
    pose proof (plainarray_ins_placed z e1 e2 H1 H2 (Some w) v) as Hi.
    pose proof (plainarray_assoc_placed z e1 e2 H1 H2 (Some w)) as Ha. simpl in Hi, Ha. rewrite Hi, Ha. lenz.
  - subst. apply (Forall_fmap fst (fun k => k < z)) in H1. apply (Forall_fmap fst (fun k => z < k)) in H2.
    pose proof (plainarray_ins_placed z e1 rest H1 H2 None v) as Hi.
    pose proof (plainarray_assoc_placed z e1 rest H1 H2 None) as Ha. simpl in Hi, Ha. rewrite Hi, Ha. lenz.
Qed.

Lemma plainarray_del_length (z : Z) (es : entries) : lenZ (del z es) <= lenZ es.
Proof. unfold del, lenZ. pose proof (List.filter_length_le (fun e => negb (has_key z e)) es). lia. Qed.

Lemma plainarray_exec_spec (young : bool) (o : op) (k : Z) (s : JSAPIPlainArray) (m : gmap Z JSTaggedValue) :
  within k s m -> 0 <= k < 2 ^ 28 ->
  exists s', exec young o s = ((spec o m).1, s') /\ within (k + 1) s' (spec o m).2.
Proof.
  intros (es & cap & Hr & -> & Hroom & Hk & Hcap) Hb.
  pose proof (plainarray_repr_bounds _ _ _ Hr) as (? & ? & Hn).
  assert (sorted es) as Hs by (by destruct Hr as (? & ? & -> & Hs & _)).
  destruct o; simpl; rewrite ?plainarray_to_map_lookup.
  - destruct (plainarray_Add_run young s es cap z v Hr Hroom ltac:(lia)) as (s' & Hrun & Hr').
    exists s'. mstep with Hrun. split; [done|]. exists (ins z v es), (grown z es cap).
    pose proof (plainarray_ins_length z v es Hs) as Hlen. unfold grown in *.
    rewrite plainarray_to_map_ins. split_and!; [done|done|..];
      destruct (assoc z es); [lia| |lia|lia|lia|]; destruct (Z.leb_spec cap (lenZ es + 1)); lia.
  - destruct (plainarray_Remove_run young s es cap z Hr) as (s' & Hrun & Hr').
    exists s'. mstep with Hrun. split; [done|]. exists (del z es), cap. rewrite plainarray_to_map_del.
    pose proof (plainarray_del_length z es). split_and!; [done|done|lia..].
  - exists s. mstep with (plainarray_Get_run s es cap z Hr). split; [done|]. exists es, cap. split_and!; [done|done|lia..].
  - exists s. mstep with (plainarray_Has_run s es cap z Hr). split; [|exists es, cap; split_and!; [done|done|lia..]].
    by destruct (assoc z es).
  - exists s. mstep. rewrite Hn. split; [by rewrite plainarray_to_map_size|]. exists es, cap. split_and!; [done|done|lia..].
  - exists s. unfold IsEmpty. rewrite <- bind_assoc. mstep. rewrite Hn.
    split; [|exists es, cap; split_and!; [done|done|lia..]]. mcbn. do 3 f_equal. destruct es as [|[k' w] es].
    + by rewrite bool_decide_eq_true_2.
    + rewrite bool_decide_eq_false_2; [apply Z.eqb_neq; lenz|]. apply insert_non_empty.
  - destruct (plainarray_Clear_run s es cap Hr) as (s' & Hrun & Hr').
    exists s'. mstep with Hrun. split; [done|]. exists [], cap. autorewrite with lenz. split_and!; [done|done|lia..].
Qed.

(** C15: A new PlainArray and any sequence of up to 2^28 of the operations Add,
    Remove by key, Get, Has, size, IsEmpty and Clear answers as the same
    operations on a finite map from integers do.  GetProperty, SetProperty,
    Clone and the removals by position are not among them and have theorems of
    their own: the properties are positions and a clone shares its arrays. *)
Theorem plainarray_refines_map (young : bool) (os : list op) :
  lenZ os <= 2 ^ 28 -> (run_ops (exec young) os PlainArrayConstructor).1 = (run_ops spec os ∅).1.
Proof.
  intros Hb. apply (run_ops_refines (exec young) spec within (fun _ => True) (2 ^ 28)) with 0;
    [| |by apply Forall_true|lia|lia].
  - intros o k s t Hw _ Hk. by apply plainarray_exec_spec.
  - exists [], 8. split_and!; [|done|done|done|done].
    exists (replicate 8 VHole), (replicate 8 VHole). split_and!; [done|constructor|done|done|done].
Qed.

(** Keys and values at an index are those of the entries sorted by key, the
    index of a key is its rank, and a value at an index can be replaced; an
    index outside gives undefined for a key and a range error for a value. *)
Theorem plainarray_positions (s : JSAPIPlainArray) (es : entries) (cap i z : Z) (v : JSTaggedValue) :
  repr s es cap -> INT32_MIN <= i <= INT32_MAX ->
  sorted es /\
  GetKeyAt i s = (Ok (default VUndefined ((fun e => VInt e.1) <$> entry_lookup es i)), s) /\
  GetValueAt i s = (match entry_lookup es i with Some e => Ok e.2 | None => Throw RANGE_ERROR end, s) /\
  GetIndexOfKey z s = (Ok (VInt (default (-1) (index_of z es))), s) /\
  (exists s', SetValueAt (VInt i) v s = (if entry_lookup es i then Ok true else Throw RANGE_ERROR, s') /\
     repr s' (match entry_lookup es i with Some (k, _) => <[Z.to_nat i := (k, v)]> es | None => es end) cap).
Proof.
  intros Hr Hi. split_and!.
  - by destruct Hr as (? & ? & -> & Hs & _).
  - by apply plainarray_GetKeyAt_run with cap.
  - by apply plainarray_GetValueAt_run with cap.
  - by apply plainarray_GetIndexOfKey_run with cap.
  - by apply plainarray_SetValueAt_run.
Qed.

(** GetIndexOfValue is the first index whose value is the given one: by
    SameValue in general, and for an int by comparing words. *)
Theorem plainarray_GetIndexOfValue_spec (heap : Heap) (s : JSAPIPlainArray) (es : entries) (cap : Z) (v : JSTaggedValue) :
  repr s es cap ->
  GetIndexOfValue heap v s =
    (Ok (VInt (default (-1) (find_index (fun x => if IsInt v then word_eqb x v else SameValue heap x v) es.*2))), s).
Proof.
  intros (kj & vj & -> & _). unfold GetIndexOfValue, TryFastGetIndexOfValue.
  assert (length es = length es.*2) as Hl by (by rewrite length_fmap).
  destruct (IsInt v) eqn:Hv; mstep; cbn [length_]; unfold lenZ; rewrite Nat2Z.id, Hl.
  - destruct v as [z| | | | | | |]; try done.
    mstep by (apply zoom_run; simpl; by apply (find_up_run (fun v => IsInt v && word_eqb v (VInt z)) [])).
    rewrite plainarray_fast_find. by destruct (find_index _ es.*2).
  - mstep by (apply zoom_run; simpl; by apply (find_up_run (fun x => SameValue heap x v) [])).
    by destruct (find_index _ es.*2).
Qed.

(** Iterating a PlainArray yields its entries in ascending order of keys. *)
Theorem plainarray_iterator_yields_entries (s : JSAPIPlainArray) (es : entries) (cap : Z) :
  repr s es cap ->
  drain Next (S (length es)) NewJSAPIPlainArrayIterator s = (Ok ((fun e => (VInt e.1, e.2)) <$> es), s).
Proof.
  intros Hr. pose proof (plainarray_repr_bounds _ _ _ Hr) as (? & ? & Hn).
  replace (length es) with (length ((fun e => (VInt e.1, e.2)) <$> es)) by (by rewrite length_fmap).
  assert (lenZ ((fun e => (VInt e.1, e.2)) <$> es) = lenZ es) as Hlen by (unfold lenZ; by rewrite length_fmap).
  apply index_next_drain; [unfold GetSize, gets; by rewrite Hn, Hlen|lia|].
  intros j x Hj. apply list_lookup_fmap_Some in Hj as ([k w] & -> & Hj). destruct Hr as (kj & vj & -> & _).
  rewrite <- (take_drop_middle es j (k, w) Hj).
  assert (Z.of_nat j = lenZ (take j es)) as ->.
  { pose proof (lookup_lt_Some _ _ _ Hj). unfold lenZ. rewrite length_take. lia. }
  unfold entry_at. mstep by (apply plainarray_value_read). mstep by (apply plainarray_key_read). done.
Qed.

(** ** Witnesses *)

Definition sample_plainarray : JSAPIPlainArray :=
  (Add true (VInt 3) (VInt 30) (Add true (VInt 1) (VInt 10) PlainArrayConstructor).2).2.

Lemma sample_plainarray_repr : repr sample_plainarray [(1, VInt 10); (3, VInt 30)] 8.
Proof.
  exists (replicate 6 VHole), (replicate 6 VHole). split_and!; [by vm_compute| |done|done|done].
  repeat constructor.
Qed.

Lemma plainarray_RemoveRangeFrom_spec_witness :
  exists s', RemoveRangeFrom true 1 2147483647 sample_plainarray = (Ok (VInt 1), s') /\ repr s' [(1, VInt 10)] 8.
Proof.
  apply (plainarray_RemoveRangeFrom_spec true _ _ _ 1 2147483647 sample_plainarray_repr); vm_compute; discriminate.
Defined.

Lemma plainarray_Clone_then_Add_witness :
  exists c, Clone sample_plainarray = (Ok c, sample_plainarray) /\ repr c [(1, VInt 10); (3, VInt 30)] 2 /\
    (Add true (VInt 2) VNull c).1 = Fault.
Proof.
  apply (plainarray_Clone_then_Add true _ _ _ 2 VNull sample_plainarray_repr); [reflexivity|].
  right. exists (3, VInt 30). split; [right; left|reflexivity].
Defined.

Lemma plainarray_GetProperty_spec_witness :
  GetProperty 3 sample_plainarray = (Ok (VInt 10), sample_plainarray).
Proof. exact (plainarray_GetProperty_spec _ _ _ 3 sample_plainarray_repr). Defined.

Lemma plainarray_SetProperty_spec_witness :
  exists s', SetProperty true 1 VNull sample_plainarray = (Ok true, s') /\
    repr s' [(0, VNull); (1, VInt 10); (3, VInt 30)] 8.
Proof. apply (plainarray_SetProperty_spec true _ _ _ 1 VNull sample_plainarray_repr); reflexivity. Defined.

Lemma plainarray_refines_map_witness :
  (run_ops (exec false) [OpAdd 5 (VInt 50); OpAdd (-2) VNull; OpRemove 5; OpHas 5; OpGet (-2); OpSize] PlainArrayConstructor).1
  = [Ok AUnit; Ok AUnit; Ok (AValue (VInt 50)); Ok (ABool false); Ok (AValue VNull); Ok (ANum 1)].
Proof.
  rewrite (plainarray_refines_map false [OpAdd 5 (VInt 50); OpAdd (-2) VNull; OpRemove 5; OpHas 5; OpGet (-2); OpSize])
    by (vm_compute; discriminate).
  reflexivity.
Defined.

Lemma plainarray_positions_witness :
  GetKeyAt 1 sample_plainarray = (Ok (VInt 3), sample_plainarray) /\
  GetIndexOfKey 3 sample_plainarray = (Ok (VInt 1), sample_plainarray).
Proof.
  destruct (plainarray_positions _ _ _ 1 3 VNull sample_plainarray_repr) as (_ & H1 & _ & H3 & _);
    [vm_compute; split; discriminate|].
  split; [exact H1|exact H3].
Defined.

Lemma plainarray_GetIndexOfValue_spec_witness :
  GetIndexOfValue sample_heap (VInt 30) sample_plainarray = (Ok (VInt 1), sample_plainarray).
Proof. exact (plainarray_GetIndexOfValue_spec sample_heap _ _ _ (VInt 30) sample_plainarray_repr). Defined.

Lemma plainarray_iterator_yields_entries_witness :
  drain Next 3 NewJSAPIPlainArrayIterator sample_plainarray
  = (Ok [(VInt 1, VInt 10); (VInt 3, VInt 30)], sample_plainarray).
Proof. exact (plainarray_iterator_yields_entries _ _ _ sample_plainarray_repr). Defined.

End PlainArray.
