(* ===== verification/EcmaString.v ===== *)
(** * EcmaString: ecma_string.h, ecma_string.cpp.

    Flat strings (LineEcmaString): a sequence of code units that is stored as
    bytes when every unit is an ASCII character other than NUL, and as 16-bit
    units otherwise, with a cached hash.  Modelled here are the hash, with its
    reading of short decimal strings as integers and its continuation over a
    concatenation, the conversions to an index, comparison and search.  Tree,
    sliced and constant strings are what flattening gives for them. *)
From S2P Require Import Prelude.
Local Open Scope Z_scope.

Module EcmaString.

Record EcmaString : Type := mkString {
  IsUtf8 : bool;
  IsInternString : bool;
  mixHashcode : Z;
  data : list Z;
}.

Definition SetMixHashcode (h : Z) (s : EcmaString) : EcmaString :=
  mkString (IsUtf8 s) (IsInternString s) h (data s).
Definition SetIsInternString (s : EcmaString) : EcmaString :=
  mkString (IsUtf8 s) true (mixHashcode s) (data s).

Definition IS_INTEGER_MASK : Z := Z.shiftl 1 31.
Definition MAX_INTEGER_HASH_NUMBER : Z := 0x3B9AC9FF.
Definition MAX_CACHED_INTEGER_SIZE : Z := 9.
Definition MAX_ELEMENT_INDEX_LEN : Z := 10.
Definition MAX_ELEMENT_INDEX : Z := 2 ^ 32 - 1.
Definition UTF8_1B_MAX : Z := 0x7F.

Definition GetLength (s : EcmaString) : Z := lenZ (data s).

(** [data - 1U < UTF8_1B_MAX] in 32-bit unsigned arithmetic. *)
Definition IsASCIICharacter (c : Z) : bool := u32 (c - 1) <? UTF8_1B_MAX.

Definition CanBeCompressed (units : list Z) : bool := forallb IsASCIICharacter units.

(** CreateFromUtf16 with the canBeCompress that CanBeCompressed gives. *)
Definition CreateFromUtf16 (units : list Z) : EcmaString := mkString (CanBeCompressed units) false 0 units.

(** Concat; the hash of the new string is not computed. *)
Definition Concat (left right : EcmaString) : EcmaString :=
  if GetLength left + GetLength right =? 0 then CreateFromUtf16 []
  else if GetLength left =? 0 then right
  else if GetLength right =? 0 then left
  else mkString (IsUtf8 left && IsUtf8 right) false 0 (data left ++ data right).

(** ** Hash *)

Definition ComputeHashForData (units : list Z) (hashSeed : Z) : Z :=
  fold_left (fun hash c => u32 (Z.shiftl hash 5 - hash + c)) units hashSeed.

Definition MixHashcode (hashcode : Z) (isInteger : bool) : Z :=
  if isInteger then Z.lor hashcode IS_INTEGER_MASK
  else Z.land hashcode (Z.lxor IS_INTEGER_MASK 0xFFFFFFFF).

Definition IsDecimalDigitChar (c : Z) : bool := (48 <=? c) && (c <=? 57).

(** The parameter [c] is a uint8_t: a 16-bit unit loses its upper byte. *)
Definition ComputeIntegerHash (num c : Z) : option Z :=
  let c := c mod 2 ^ 8 in
  if IsDecimalDigitChar c then Some (u32 (num * 10 + (c - 48))) else None.

(** The do-while loop over the units after the first one. *)
Fixpoint hash_digits (num : Z) (rest : list Z) : option Z :=
  match rest with
  | [] => if num <=? MAX_INTEGER_HASH_NUMBER then Some (MixHashcode num true) else None
  | c :: rest' =>
      match ComputeIntegerHash num c with
      | Some num' => hash_digits num' rest'
      | None => None
      end
  end.

(** [Some hash] when it returns true.  (The callers pass a non-empty string, or
    the empty literal, whose first byte is its terminator.) *)
Definition HashIntegerString (units : list Z) (hashSeed : Z) : option Z :=
  match units with
  | [] => None
  | c :: rest =>
      if hashSeed =? 0 then
        match (if IsDecimalDigitChar c && negb (c =? 48) then hash_digits (c - 48) rest else None) with
        | Some hash => Some hash
        | None => if (lenZ units =? 1) && (c =? 48) then Some (MixHashcode 0 true) else None
        end
      else if IsDecimalDigitChar c then hash_digits (u32 (hashSeed * 10 + (c - 48))) rest
      else None
  end.

Definition ComputeRawHashcode (s : EcmaString) : Z * bool :=
  let length := GetLength s in
  if length =? 0 then (0, false)
  else if IsUtf8 s then
    match (if length <? MAX_ELEMENT_INDEX_LEN then HashIntegerString (data s) 0 else None) with
    | Some hash => (hash, true)
    | None => (ComputeHashForData (data s) 0, false)
    end
  else (ComputeHashForData (data s) 0, false).

Definition ComputeHashcode (s : EcmaString) : Z :=
  let '(hash, isInteger) := ComputeRawHashcode s in MixHashcode hash isInteger.

(** ComputeHashcode(rawHashSeed, isInteger): the hash of a concatenation from
    the raw hash of its first part. *)
Definition ComputeHashcodeSeeded (rawHashSeed : Z) (isInteger : bool) (s : EcmaString) : Z :=
  let length := GetLength s in
  if length =? 0 then MixHashcode rawHashSeed isInteger
  else if IsUtf8 s then
    match (if ((rawHashSeed =? 0) || isInteger) && (length <? MAX_ELEMENT_INDEX_LEN)
           then HashIntegerString (data s) rawHashSeed else None) with
    | Some hash => hash
    | None => MixHashcode (ComputeHashForData (data s) rawHashSeed) false
    end
  else MixHashcode (ComputeHashForData (data s) rawHashSeed) false.

(** ComputeHashcodeUtf8; [tmpBuffer] is what ConvertRegionUtf8ToUtf16 gives. *)
Definition ComputeHashcodeUtf8 (utf8Data tmpBuffer : list Z) (canBeCompress : bool) : Z :=
  if canBeCompress then
    match (if lenZ utf8Data <? MAX_ELEMENT_INDEX_LEN then HashIntegerString utf8Data 0 else None) with
    | Some mixHash => mixHash
    | None => MixHashcode (ComputeHashForData utf8Data 0) false
    end
  else MixHashcode (ComputeHashForData tmpBuffer 0) false.

Definition ComputeHashcodeUtf16 (units : list Z) : Z :=
  match (if lenZ units <? MAX_ELEMENT_INDEX_LEN then HashIntegerString units 0 else None) with
  | Some mixHash => mixHash
  | None => MixHashcode (ComputeHashForData units 0) false
  end.

(** The cached hash, and the string with the cache filled. *)
Definition GetHashcode (s : EcmaString) : Z * EcmaString :=
  let hashcode := mixHashcode s in
  if (hashcode =? 0) && negb (GetLength s =? 0) then
    let hashcode := ComputeHashcode s in (hashcode, SetMixHashcode hashcode s)
  else (hashcode, s).

Definition TryGetHashCode (s : EcmaString) : option Z :=
  let hashcode := mixHashcode s in
  if (hashcode =? 0) && negb (GetLength s =? 0) then None else Some hashcode.

Definition IsInteger (s : EcmaString) : bool :=
  Z.land (GetHashcode s).1 IS_INTEGER_MASK =? IS_INTEGER_MASK.

Definition GetRawHashcode (s : EcmaString) : Z :=
  Z.land (mixHashcode s) (Z.lxor IS_INTEGER_MASK 0xFFFFFFFF).

Definition GetIntegerCode {S} (s : EcmaString) : M S Z :=
  ASSERT (negb (Z.land (mixHashcode s) IS_INTEGER_MASK =? 0));;
  mret (GetRawHashcode s).

(** IsInteger fills the cache that GetIntegerCode reads. *)
Definition TryToGetInteger {S} (s : EcmaString) : M S (option Z) :=
  if negb (IsInteger s) then mret None
  else
    ASSERT (GetLength s <=? MAX_CACHED_INTEGER_SIZE);;
    n ← GetIntegerCode (GetHashcode s).2;
    mret (Some n).

(** ** Conversions to an index *)

(** An element of a span; outside it, an out-of-bounds read. *)
Definition span_get {S} (sp : list Z) (i : Z) : M S Z :=
  if i <? 0 then fault
  else match sp !! Z.to_nat i with Some c => mret c | None => fault end.

Definition uint64_step {S} (units : list Z) (p : Z * Z) : M S (Z * Z + option Z) :=
  let '(i, n) := p in
  if i <? lenZ units then
    c ← span_get units i;
    if (c <? 48) || (57 <? c) then mret (inr None)
    else mret (inl (i + 1, u64 (n * 10 + (c - 48))))
  else mret (inr (Some n)).

Definition ToUInt64FromLoopStart {S} (s : EcmaString) (loopStart : Z) : M S (option Z) :=
  let len := GetLength s in
  if len <=? loopStart then mret None
  else while_fuel (Datatypes.S (Z.to_nat (len - loopStart))) (uint64_step (data s)) (loopStart, 0).

(** [Some index] when the call returns true. *)
Definition ToElementIndex {S} (s : EcmaString) : M S (option Z) :=
  let len := GetLength s in
  if (len =? 0) || (MAX_ELEMENT_INDEX_LEN <? len) then mret None
  else if negb (IsUtf8 s) then mret None
  else
    fast ← TryToGetInteger s;
    match fast with
    | Some index => mret (Some index)
    | None =>
        c ← span_get (data s) 0;
        if c =? 48 then mret (if len =? 1 then Some 0 else None)
        else
          n ← ToUInt64FromLoopStart s 0;
          mret (match n with Some n => if n <? MAX_ELEMENT_INDEX then Some n else None | None => None end)
    end.

(** The two outputs *index and *negative; the caller's *negative is false. *)
Definition ToInt {S} (s : EcmaString) : M S (option (Z * bool)) :=
  let len := GetLength s in
  if (len =? 0) || (MAX_ELEMENT_INDEX_LEN <? len) then mret None
  else if negb (IsUtf8 s) then mret None
  else
    c ← span_get (data s) 0;
    if c =? 48 then mret (if len =? 1 then Some (0, false) else None)
    else
      let negative := (c =? 45) && (1 <? len) in
      n ← ToUInt64FromLoopStart s (if negative then 1 else 0);
      mret (match n with
            | Some n => if n <=? INT32_MAX then Some (if negative then i32 (- n) else n, negative) else None
            | None => None
            end).

(** ** Comparison *)

Definition CompareStringSpan {S} (lhsSp rhsSp : list Z) (count : Z) : M S Z :=
  r ← find_up (Z.to_nat count) 0 (fun i =>
        left ← span_get lhsSp i;
        right ← span_get rhsSp i;
        mret (if negb (left =? right) then Some (left - right) else None));
  mret (default 0 r).

(** A span of [count] units over a string's data. *)
Definition span (units : list Z) (count : Z) : list Z := take (Z.to_nat count) units.

(** Compare on two distinct objects; in its third case each span has the other
    string's length. *)
Definition Compare {S} (lhs rhs : EcmaString) : M S Z :=
  let lhsCount := GetLength lhs in
  let rhsCount := GetLength rhs in
  let countDiff := i32 (lhsCount - rhsCount) in
  let minCount := if countDiff <? 0 then lhsCount else rhsCount in
  charDiff ←
    (if IsUtf8 lhs && IsUtf8 rhs then CompareStringSpan (span (data lhs) lhsCount) (span (data rhs) rhsCount) minCount
     else if IsUtf8 lhs then CompareStringSpan (span (data lhs) lhsCount) (span (data rhs) rhsCount) minCount
     else if IsUtf8 rhs then CompareStringSpan (span (data lhs) rhsCount) (span (data rhs) lhsCount) minCount
     else CompareStringSpan (span (data lhs) lhsCount) (span (data rhs) rhsCount) minCount);
  if negb (charDiff =? 0) then mret charDiff else mret countDiff.

(** [rhsSize] is rhsSp.size(), which in the third case of IsSubStringAt is not
    the length of the data behind the span. *)
Definition IsSubStringAtSpan {S} (lhsSp : list Z) (lhsSize : Z) (rhsSp : list Z) (rhsSize offset : Z) : M S bool :=
  ASSERT (rhsSize + offset <=? lhsSize);;
  r ← find_up (Z.to_nat rhsSize) 0 (fun i =>
        left ← span_get lhsSp (offset + i);
        right ← span_get rhsSp i;
        mret (if negb (left =? right) then Some tt else None));
  mret (match r with Some _ => false | None => true end).

Definition IsSubStringAt {S} (lhs rhs : EcmaString) (offset : Z) : M S bool :=
  let lhsCount := GetLength lhs in
  let rhsCount := GetLength rhs in
  if IsUtf8 lhs && IsUtf8 rhs then IsSubStringAtSpan (data lhs) lhsCount (data rhs) rhsCount offset
  else if IsUtf8 lhs then IsSubStringAtSpan (data lhs) lhsCount (data rhs) rhsCount offset
  else if IsUtf8 rhs then IsSubStringAtSpan (data lhs) rhsCount (data rhs) lhsCount offset
  else IsSubStringAtSpan (data lhs) lhsCount (data rhs) rhsCount offset.

(** StringsAreEquals on spans: the word-wise comparison of long spans of the
    same type compares the same units. *)
Definition StringsAreEquals {S} (str1 str2 : list Z) : M S bool :=
  ASSERT (lenZ str1 <=? lenZ str2);;
  r ← find_up (length str1) 0 (fun i =>
        left ← span_get str1 i;
        right ← span_get str2 i;
        mret (if negb (left =? right) then Some tt else None));
  mret (match r with Some _ => false | None => true end).

(** StringsAreEqual of two string objects; [same] says they are one object. *)
Definition StringsAreEqual {S} (same : bool) (str1 str2 : EcmaString) : M S bool :=
  if same then mret true
  else if negb (GetLength str1 =? GetLength str2) then mret false
  else if GetLength str1 =? 0 then mret true
  else
    match TryGetHashCode str1, TryGetHashCode str2 with
    | Some str1Hash, Some str2Hash =>
        if negb (str1Hash =? str2Hash) then mret false else StringsAreEquals (data str1) (data str2)
    | _, _ => StringsAreEquals (data str1) (data str2)
    end.

(** A string against a buffer of 16-bit units; an ASCII string's bytes are
    converted to units one by one. *)
Definition StringsAreEqualUtf16 {S} (str1 : EcmaString) (utf16Data : list Z) : M S bool :=
  if negb (GetLength str1 =? lenZ utf16Data) then mret false
  else StringsAreEquals (data str1) utf16Data.

(** A string against a buffer of ASCII bytes (canBeCompressToUtf8 is true). *)
Definition StringIsEqualUint8Data {S} (str1 : EcmaString) (dataAddr : list Z) : M S bool :=
  if negb (IsUtf8 str1) then mret false
  else if negb (GetLength str1 =? lenZ dataAddr) then mret false
  else StringsAreEquals (data str1) dataAddr.

Definition EqualToSplicedString {S} (this str1 str2 : EcmaString) : M S bool :=
  if negb (GetLength this =? u32 (GetLength str1 + GetLength str2)) then mret false
  else
    let n := Z.to_nat (GetLength str1) in
    if negb (IsUtf8 this) then
      b ← StringsAreEqualUtf16 str1 (take n (data this));
      if (b : bool) then StringsAreEqualUtf16 str2 (drop n (data this)) else mret false
    else
      b ← StringIsEqualUint8Data str1 (take n (data this));
      if (b : bool) then StringIsEqualUint8Data str2 (drop n (data this)) else mret false.

(** ** Search *)

Definition skip_step {S} (lhsSp : list Z) (first max i : Z) : M S (Z + Z) :=
  if i <=? max then
    c ← span_get lhsSp i;
    mret (if negb (c =? first) then inl (i + 1) else inr i)
  else mret (inr i).

(** The loop over the rest of the pattern: it ends with the last [j]. *)
Definition rest_step {S} (lhsSp rhsSp : list Z) (end_ : Z) (p : Z * Z) : M S (Z * Z + Z) :=
  let '(j, k) := p in
  if j <? end_ then
    left ← span_get lhsSp j;
    right ← span_get rhsSp k;
    mret (if left =? right then inl (j + 1, k + 1) else inr j)
  else mret (inr j).

Definition index_step {S} (lhsSp rhsSp : list Z) (first max i : Z) : M S (Z + Z) :=
  if i <=? max then
    c ← span_get lhsSp i;
    i ← (if negb (c =? first)
         then while_fuel (Datatypes.S (Z.to_nat (max + 1 - i))) (skip_step lhsSp first max) (i + 1)
         else mret i);
    if i <=? max then
      let j := i + 1 in
      let end_ := j + lenZ rhsSp - 1 in
      j ← while_fuel (Datatypes.S (length rhsSp)) (rest_step lhsSp rhsSp end_) (j, 1);
      mret (if j =? end_ then inr i else inl (i + 1))
    else mret (inl (i + 1))
  else mret (inr (-1)).

Definition IndexOfSpan {S} (lhsSp rhsSp : list Z) (pos max : Z) : M S Z :=
  ASSERT (0 <? lenZ rhsSp);;
  first ← span_get rhsSp 0;
  while_fuel (Datatypes.S (Z.to_nat (max + 1 - pos))) (index_step lhsSp rhsSp first max) pos.

(** The loop of LastIndexOf over the rest of the pattern. *)
Definition last_rest_step {S} (lhsSp rhsSp : list Z) (i j : Z) : M S (Z + Z) :=
  if j <? lenZ rhsSp then
    right ← span_get rhsSp j;
    left ← span_get lhsSp (i + j);
    mret (if negb (right =? left) then inr j else inl (j + 1))
  else mret (inr j).

Definition last_step {S} (lhsSp rhsSp : list Z) (first i : Z) : M S (option Z) :=
  c ← span_get lhsSp i;
  if negb (c =? first) then mret None
  else
    j ← while_fuel (Datatypes.S (length rhsSp)) (last_rest_step lhsSp rhsSp i) 1;
    mret (if j =? lenZ rhsSp then Some i else None).

Definition LastIndexOfSpan {S} (lhsSp rhsSp : list Z) (pos : Z) : M S Z :=
  ASSERT (0 <? lenZ rhsSp);;
  first ← span_get rhsSp 0;
  r ← find_down (Z.to_nat (pos + 1)) pos (last_step lhsSp rhsSp first);
  mret (default (-1) r).

Definition IndexOf {S} (receiver search : EcmaString) (pos : Z) : M S Z :=
  let lhsCount := GetLength receiver in
  let rhsCount := GetLength search in
  if lhsCount <? pos then mret (-1)
  else if rhsCount =? 0 then mret pos
  else
    let pos := if pos <? 0 then 0 else pos in
    let max := i32 (lhsCount - rhsCount) in
    if max <? 0 then mret (-1)
    else if lhsCount <? i32 (pos + rhsCount) then mret (-1)
    else if IsUtf8 search && IsUtf8 receiver then IndexOfSpan (data receiver) (data search) pos max
    else if negb (IsUtf8 search) && negb (IsUtf8 receiver) then IndexOfSpan (data receiver) (data search) pos max
    else if negb (IsUtf8 search) then mret (-1)
    else IndexOfSpan (data receiver) (data search) pos max.

Definition LastIndexOf {S} (receiver search : EcmaString) (pos : Z) : M S Z :=
  let lhsCount := GetLength receiver in
  let rhsCount := GetLength search in
  if lhsCount <? rhsCount then mret (-1)
  else
    let pos := if pos <? 0 then 0 else pos in
    let pos := if lhsCount <? pos then lhsCount else pos in
    let pos := if lhsCount <? i32 (pos + rhsCount) then i32 (lhsCount - rhsCount) else pos in
    if rhsCount =? 0 then mret pos
    else if IsUtf8 search && IsUtf8 receiver then LastIndexOfSpan (data receiver) (data search) pos
    else if negb (IsUtf8 search) && negb (IsUtf8 receiver) then LastIndexOfSpan (data receiver) (data search) pos
    else if negb (IsUtf8 search) then mret (-1)
    else LastIndexOfSpan (data receiver) (data search) pos.

(** ** What the hash is *)

(** The number a string of decimal digits stands for, continued from [n]. *)
Definition value_from (n : Z) (units : list Z) : Z := fold_left (fun n c => n * 10 + (c - 48)) units n.
Notation value := (value_from 0).

(** The decimal numerals with no superfluous zero. *)
Definition canonical (units : list Z) : bool :=
  match units with
  | [] => false
  | c :: rest => if c =? 48 then lenZ rest =? 0 else forallb IsDecimalDigitChar units
  end.

Arguments MixHashcode : simpl never.

(** The units of a string: 16 bits, and bytes exactly when they are ASCII. *)
Definition wf (s : EcmaString) : Prop :=
  IsUtf8 s = CanBeCompressed (data s) /\ Forall (fun c => 0 <= c < 2 ^ 16) (data s).

Lemma land_mask (h : Z) : 0 <= h < 2 ^ 31 -> Z.land h IS_INTEGER_MASK = 0.
Proof.
  intros Hh. unfold IS_INTEGER_MASK. rewrite Z.shiftl_1_l. apply Z.bits_inj'. intros i Hi.
  rewrite Z.land_spec, Z.pow2_bits_eqb, Z.bits_0 by lia.
  destruct (Z.eqb_spec 31 i) as [<-|]; [|by rewrite andb_false_r].
  rewrite andb_true_r. apply Z.testbit_false; [lia|]. by rewrite Z.div_small by lia.
Qed.

Lemma mix_integer (h : Z) : 0 <= h < 2 ^ 31 -> MixHashcode h true = h + 2 ^ 31.
Proof.
  intros Hh. unfold MixHashcode. rewrite <- Z.lxor_lor, <- Z.add_nocarry_lxor by (by apply land_mask). done.
Qed.

Lemma mix_raw (h : Z) : MixHashcode h false = h mod 2 ^ 31.
Proof.
  unfold MixHashcode. change (Z.lxor IS_INTEGER_MASK 4294967295) with (Z.ones 31).
  by rewrite Z.land_ones by lia.
Qed.

Lemma mix_raw_small (h : Z) : 0 <= h < 2 ^ 31 -> Z.land (h + 2 ^ 31) (Z.lxor IS_INTEGER_MASK 0xFFFFFFFF) = h.
Proof. intros Hh. pose proof (mix_raw (h + 2 ^ 31)) as H. unfold MixHashcode in H. rewrite H. zlia. Qed.

Lemma integer_bit (h : Z) : 0 <= h < 2 ^ 31 -> Z.land (h + 2 ^ 31) IS_INTEGER_MASK = IS_INTEGER_MASK.
Proof.
  intros Hh. rewrite <- mix_integer by done. unfold MixHashcode. rewrite Z.land_lor_distr_l, land_mask by done.
  by rewrite Z.land_diag.
Qed.

Lemma digit_range (c : Z) : IsDecimalDigitChar c = true -> 48 <= c <= 57.
Proof. unfold IsDecimalDigitChar. lia. Qed.

Lemma value_from_bound (units : list Z) (n : Z) :
  0 <= n -> forallb IsDecimalDigitChar units = true ->
  n * 10 ^ lenZ units <= value_from n units < (n + 1) * 10 ^ lenZ units.
Proof.
  unfold value_from. revert n. induction units as [|c units IH]; simpl; intros n Hn Hd.
  { rewrite lenZ_nil. lia. }
  apply andb_true_iff in Hd as [Hc%digit_range Hd]. rewrite lenZ_cons, Z.pow_add_r by (done || apply lenZ_nonneg).
  pose proof (Z.pow_pos_nonneg 10 (lenZ units) ltac:(lia) (lenZ_nonneg _)).
  specialize (IH (n * 10 + (c - 48)) ltac:(lia) Hd). nia.
Qed.

Lemma value_bound (units : list Z) : forallb IsDecimalDigitChar units = true -> 0 <= value units < 10 ^ lenZ units.
Proof. intros Hd. pose proof (value_from_bound units 0 ltac:(lia) Hd). lia. Qed.

Lemma byte_digit (c : Z) : 0 <= c < 2 ^ 8 -> c mod 2 ^ 8 = c.
Proof. apply Z.mod_small. Qed.

(** The loop computes the number when there is no overflow. *)
Lemma hash_digits_value (units : list Z) (n : Z) :
  0 <= n -> (n + 1) * 10 ^ lenZ units <= 10 ^ 9 -> Forall (fun c => 0 <= c < 2 ^ 8) units ->
  hash_digits n units
  = if forallb IsDecimalDigitChar units then Some (value_from n units + 2 ^ 31) else None.
Proof.
  revert n. induction units as [|c units IH]; intros n Hn Hb Hu; simpl.
  { rewrite lenZ_nil in Hb. unfold MAX_INTEGER_HASH_NUMBER. zb. rewrite mix_integer by lia. done. }
  apply Forall_cons_1 in Hu as [Hc Hu]. unfold ComputeIntegerHash. rewrite byte_digit by done.
  destruct (IsDecimalDigitChar c) eqn:Hd; simpl; [|done]. apply digit_range in Hd.
  rewrite lenZ_cons, Z.pow_add_r in Hb by (done || apply lenZ_nonneg).
  pose proof (Z.pow_pos_nonneg 10 (lenZ units) ltac:(lia) (lenZ_nonneg _)).
  rewrite u32_small by nia. apply IH; [lia|nia|done].
Qed.

(** A short compressed string is hashed as an integer exactly when it is a
    numeral. *)
Lemma HashIntegerString_spec (units : list Z) :
  lenZ units < MAX_ELEMENT_INDEX_LEN -> Forall (fun c => 0 <= c < 2 ^ 8) units ->
  HashIntegerString units 0 = if canonical units then Some (value units + 2 ^ 31) else None.
Proof.
  intros Hl Hu. destruct units as [|c rest]; [done|]. unfold HashIntegerString, canonical. cbn [Z.eqb].
  rewrite lenZ_cons in *. unfold MAX_ELEMENT_INDEX_LEN in Hl. apply Forall_cons_1 in Hu as [Hc Hu].
  destruct (Z.eqb_spec c 48) as [->|Hne]; simpl.
  { destruct (Z.eqb_spec (lenZ rest) 0) as [E|E].
    - apply lenZ_zero in E as ->. simpl. reflexivity.
    - rewrite (proj2 (Z.eqb_neq _ 1)) by lia. done. }
  rewrite !andb_true_r, andb_false_r. destruct (IsDecimalDigitChar c) eqn:Hd; simpl; [|done].
  apply digit_range in Hd. rewrite hash_digits_value; [|lia| |done].
  - by destruct (forallb IsDecimalDigitChar rest).
  - pose proof (Z.pow_le_mono_r 10 (lenZ rest) 8 ltac:(lia) ltac:(lia)).
    pose proof (Z.pow_pos_nonneg 10 (lenZ rest) ltac:(lia) (lenZ_nonneg _)). nia.
Qed.

Lemma ascii_byte (c : Z) : IsASCIICharacter c = true -> 0 <= c < 2 ^ 16 -> 1 <= c < 2 ^ 7.
Proof. unfold IsASCIICharacter, UTF8_1B_MAX, u32. intros H Hc. zlia. Qed.

Lemma compressed_bytes (units : list Z) :
  CanBeCompressed units = true -> Forall (fun c => 0 <= c < 2 ^ 16) units -> Forall (fun c => 0 <= c < 2 ^ 8) units.
Proof.
  unfold CanBeCompressed. induction units as [|c units IH]; simpl; [done|].
  intros [Hc Hu]%andb_true_iff [Hr Hrs]%Forall_cons_1. constructor; [|by apply IH].
  pose proof (ascii_byte c Hc Hr). lia.
Qed.

Lemma canonical_digits (units : list Z) : canonical units = true -> forallb IsDecimalDigitChar units = true.
Proof.
  unfold canonical. destruct units as [|c rest]; [done|]. destruct (Z.eqb_spec c 48) as [->|]; [|done].
  intros E%Z.eqb_eq%lenZ_zero. by rewrite E.
Qed.

Definition short_numeral (units : list Z) : bool := (lenZ units <? MAX_ELEMENT_INDEX_LEN) && canonical units.

Lemma short_numeral_value (units : list Z) :
  short_numeral units = true -> 0 <= value units <= MAX_INTEGER_HASH_NUMBER.
Proof.
  intros [Hl%Z.ltb_lt Hc]%andb_true_iff. unfold MAX_ELEMENT_INDEX_LEN in Hl.
  pose proof (value_bound _ (canonical_digits _ Hc)).
  pose proof (Z.pow_le_mono_r 10 (lenZ units) 9 ltac:(lia) ltac:(lia)). unfold MAX_INTEGER_HASH_NUMBER. lia.
Qed.

Lemma digit_ascii (c : Z) : IsDecimalDigitChar c = true -> IsASCIICharacter c = true.
Proof. intros H%digit_range. unfold IsASCIICharacter, UTF8_1B_MAX. rewrite u32_small by lia. lia. Qed.

Lemma digits_compressed (units : list Z) :
  forallb IsDecimalDigitChar units = true -> CanBeCompressed units = true.
Proof.
  unfold CanBeCompressed. rewrite !forallb_forall. intros H c Hc. by apply digit_ascii, H.
Qed.

Lemma ComputeRawHashcode_spec (s : EcmaString) :
  wf s ->
  ComputeRawHashcode s =
    if short_numeral (data s) then (value (data s) + 2 ^ 31, true) else (ComputeHashForData (data s) 0, false).
Proof.
  intros [Hutf Hu]. unfold ComputeRawHashcode, GetLength, short_numeral.
  destruct (Z.eqb_spec (lenZ (data s)) 0) as [E|E].
  { apply lenZ_zero in E. by rewrite E. }
  rewrite Hutf. destruct (CanBeCompressed (data s)) eqn:Hcomp.
  - pose proof (compressed_bytes _ Hcomp Hu) as Hb. destruct (Z.ltb_spec (lenZ (data s)) MAX_ELEMENT_INDEX_LEN).
    + rewrite HashIntegerString_spec by done. simpl. by destruct (canonical (data s)).
    + done.
  - destruct (canonical (data s)) eqn:Hcan; [|by rewrite andb_false_r].
    rewrite digits_compressed in Hcomp by (by apply canonical_digits). done.
Qed.

Lemma ComputeHashForData_range (units : list Z) (seed : Z) :
  units <> [] -> 0 <= ComputeHashForData units seed < 2 ^ 32.
Proof.
  unfold ComputeHashForData. destruct units as [|c units] using rev_ind; [done|]. intros _.
  rewrite fold_left_app. simpl. apply Z.mod_pos_bound. lia.
Qed.

Lemma ComputeHashcode_spec (s : EcmaString) :
  wf s ->
  ComputeHashcode s =
    if short_numeral (data s) then value (data s) + 2 ^ 31 else ComputeHashForData (data s) 0 mod 2 ^ 31.
Proof.
  intros Hs. unfold ComputeHashcode. rewrite ComputeRawHashcode_spec by done.
  destruct (short_numeral (data s)) eqn:Hn; [|apply mix_raw].
  pose proof (short_numeral_value _ Hn) as Hv. unfold MAX_INTEGER_HASH_NUMBER in Hv.
  rewrite <- mix_integer by lia. unfold MixHashcode. by rewrite <- Z.lor_assoc, Z.lor_diag.
Qed.

(** ** The cached hash and the integer it carries *)

Definition cache_ok (s : EcmaString) : Prop := mixHashcode s = 0 \/ mixHashcode s = ComputeHashcode s.

Lemma GetHashcode_run (s : EcmaString) :
  cache_ok s -> (GetHashcode s).1 = ComputeHashcode s /\ mixHashcode (GetHashcode s).2 = ComputeHashcode s.
Proof.
  unfold cache_ok, GetHashcode. intros Hc. destruct (Z.eqb_spec (mixHashcode s) 0) as [E|E]; simpl.
  - destruct (Z.eqb_spec (GetLength s) 0) as [El|El]; simpl; [|done].
    rewrite E. unfold ComputeHashcode, ComputeRawHashcode. by rewrite (proj2 (Z.eqb_eq _ _) El).
  - destruct Hc as [Hc|Hc]; [done|]. by rewrite Hc.
Qed.

Lemma IsInteger_spec (s : EcmaString) : wf s -> cache_ok s -> IsInteger s = short_numeral (data s).
Proof.
  intros Hs Hc. unfold IsInteger. rewrite (proj1 (GetHashcode_run s Hc)), ComputeHashcode_spec by done.
  destruct (short_numeral (data s)) eqn:Hn.
  - pose proof (short_numeral_value _ Hn) as Hv. unfold MAX_INTEGER_HASH_NUMBER in Hv.
    rewrite integer_bit by lia. apply Z.eqb_refl.
  - by rewrite land_mask by (apply Z.mod_pos_bound; lia).
Qed.

Lemma TryToGetInteger_run {S} (s : EcmaString) (st : S) :
  wf s -> cache_ok s ->
  TryToGetInteger s st = (Ok (if short_numeral (data s) then Some (value (data s)) else None), st).
Proof.
  intros Hs Hc. unfold TryToGetInteger. rewrite IsInteger_spec by done.
  destruct (short_numeral (data s)) eqn:Hn; simpl; [|done].
  pose proof (short_numeral_value _ Hn) as Hv. unfold MAX_INTEGER_HASH_NUMBER in Hv.
  assert (GetLength s <= MAX_CACHED_INTEGER_SIZE) as Hl.
  { apply andb_true_iff in Hn as [Hl%Z.ltb_lt _]. unfold GetLength, MAX_ELEMENT_INDEX_LEN, MAX_CACHED_INTEGER_SIZE in *. lia. }
  rewrite (proj2 (Z.leb_le _ _) Hl). mstep.
  unfold GetIntegerCode, GetRawHashcode. rewrite (proj2 (GetHashcode_run s Hc)), ComputeHashcode_spec by done.
  rewrite Hn, integer_bit, mix_raw_small by lia. done.
Qed.

(** ** The hash of a concatenation *)


Lemma mod_31_cancel (s t c : Z) : (31 * s + c) mod 2 ^ 31 = (31 * t + c) mod 2 ^ 31 <-> s mod 2 ^ 31 = t mod 2 ^ 31.
Proof.
  split; intros H.
  - apply Z.cong_iff_0. apply Z.cong_iff_0 in H. apply Z.mod_divide in H as [q Hq]; [|done]. apply Z.mod_divide; [done|].
    exists (1039104991 * q - 15 * (s - t)). lia.
  - apply Z.cong_iff_0. apply Z.cong_iff_0 in H. apply Z.mod_divide in H as [q Hq]; [|done]. apply Z.mod_divide; [done|].
    exists (31 * q). lia.
Qed.

(** The rest of the hash does not forget its seed. *)
Lemma ComputeHashForData_seed (units : list Z) (s t : Z) :
  ComputeHashForData units s mod 2 ^ 31 = ComputeHashForData units t mod 2 ^ 31 <-> s mod 2 ^ 31 = t mod 2 ^ 31.
Proof.
  unfold ComputeHashForData. revert s t. induction units as [|c units IH]; intros s t; simpl; [done|].
  rewrite IH, !Z.shiftl_mul_pow2 by lia. unfold u32.
  rewrite !(Z.mod_mod_divide _ (2 ^ 32) (2 ^ 31)) by (by exists 2).
  rewrite <- (mod_31_cancel s t c).
  by replace (s * 2 ^ 5 - s + c) with (31 * s + c) by lia; replace (t * 2 ^ 5 - t + c) with (31 * t + c) by lia.
Qed.

Lemma ComputeHashForData_app (a b : list Z) (seed : Z) :
  ComputeHashForData (a ++ b) seed = ComputeHashForData b (ComputeHashForData a seed).
Proof. apply fold_left_app. Qed.

Lemma Concat_data (a b : EcmaString) : data (Concat a b) = data a ++ data b.
Proof.
  unfold Concat, GetLength. destruct (Z.eqb_spec (lenZ (data a)) 0) as [Ea|Ea].
  - apply lenZ_zero in Ea. rewrite Ea, lenZ_nil, Z.add_0_l. simpl. destruct (Z.eqb_spec (lenZ (data b)) 0) as [Eb|Eb]; [|done].
    by apply lenZ_zero in Eb.
  - pose proof (lenZ_nonneg (data a)). pose proof (lenZ_nonneg (data b)). zb.
    destruct (Z.eqb_spec (lenZ (data b)) 0) as [Eb|Eb]; [|done]. apply lenZ_zero in Eb. by rewrite Eb, app_nil_r.
Qed.

Lemma CanBeCompressed_app (a b : list Z) : CanBeCompressed (a ++ b) = CanBeCompressed a && CanBeCompressed b.
Proof. apply forallb_app. Qed.

Lemma Concat_wf (a b : EcmaString) : wf a -> wf b -> wf (Concat a b).
Proof.
  intros [Ha Hua] [Hb Hub]. split; [|rewrite Concat_data; by apply Forall_app].
  rewrite Concat_data, CanBeCompressed_app. unfold Concat, GetLength.
  destruct (Z.eqb_spec (lenZ (data a)) 0) as [Ea|Ea].
  - apply lenZ_zero in Ea. rewrite Ea, lenZ_nil, Z.add_0_l. simpl. destruct (Z.eqb_spec (lenZ (data b)) 0) as [Eb|Eb]; [|done].
    apply lenZ_zero in Eb. by rewrite Eb.
  - pose proof (lenZ_nonneg (data a)). pose proof (lenZ_nonneg (data b)). zb.
    destruct (Z.eqb_spec (lenZ (data b)) 0) as [Eb|Eb]; [|simpl; congruence].
    apply lenZ_zero in Eb. rewrite Eb, Ha. simpl. by rewrite andb_true_r.
Qed.

(** A numeral that is longer than [a] has a numeral other than 0 as [a]. *)
Lemma short_numeral_app (a b : list Z) :
  a <> [] -> b <> [] ->
  short_numeral (a ++ b)
  = short_numeral a && negb (bool_decide (a = [48])) && forallb IsDecimalDigitChar b &&
    (lenZ (a ++ b) <? MAX_ELEMENT_INDEX_LEN).
Proof.
  intros Ha Hb. destruct a as [|c a]; [done|]. unfold short_numeral, canonical. rewrite <- app_comm_cons, !lenZ_cons, lenZ_app.
  assert (0 < lenZ b) as Hlb by (destruct b; [done|lenz]). pose proof (lenZ_nonneg a). unfold MAX_ELEMENT_INDEX_LEN.
  destruct (Z.ltb_spec (lenZ a + lenZ b + 1) 10); simpl; [|by rewrite andb_false_r]. rewrite andb_true_r. zb.
  destruct (Z.eqb_spec c 48) as [->|Hne].
  - zb. destruct (Z.eqb_spec (lenZ a) 0) as [E|E]; [|done]. apply lenZ_zero in E as ->. done.
  - rewrite bool_decide_eq_false_2 by congruence. simpl. rewrite forallb_app, andb_true_r. by rewrite andb_assoc.
Qed.

(** Continuing an integer hash over further digits. *)
Lemma HashIntegerString_seeded (units : list Z) (v : Z) :
  0 <= v -> (v + 1) * 10 ^ lenZ units <= 10 ^ 9 -> units <> [] -> Forall (fun c => 0 <= c < 2 ^ 8) units ->
  HashIntegerString units (v + 2 ^ 31)
  = if forallb IsDecimalDigitChar units then Some (value_from v units + 2 ^ 31) else None.
Proof.
  intros Hv Hb Hne Hu. destruct units as [|c rest]; [done|]. unfold HashIntegerString. zb.
  simpl. destruct (IsDecimalDigitChar c) eqn:Hd; simpl; [|done]. apply digit_range in Hd.
  apply Forall_cons_1 in Hu as [Hc Hu]. rewrite lenZ_cons, Z.pow_add_r in Hb by (done || apply lenZ_nonneg).
  pose proof (Z.pow_pos_nonneg 10 (lenZ rest) ltac:(lia) (lenZ_nonneg _)).
  replace (u32 ((v + 2 ^ 31) * 10 + (c - 48))) with (v * 10 + (c - 48)).
  - apply hash_digits_value; [lia|nia|done].
  - unfold u32. apply Z.mod_unique_pos with 5; nia.
Qed.

Lemma hash_digits_stops (units : list Z) (n : Z) :
  Forall (fun c => 0 <= c < 2 ^ 8) units -> forallb IsDecimalDigitChar units = false -> hash_digits n units = None.
Proof.
  intros Hu. revert n. induction Hu as [|c units Hc Hu IH]; intros n Hd; simpl in *; [done|].
  unfold ComputeIntegerHash. rewrite byte_digit by done. destruct (IsDecimalDigitChar c); [|done]. by apply IH.
Qed.

Lemma HashIntegerString_stops (units : list Z) (seed : Z) :
  seed <> 0 -> Forall (fun c => 0 <= c < 2 ^ 8) units -> forallb IsDecimalDigitChar units = false ->
  HashIntegerString units seed = None.
Proof.
  intros Hs Hu Hd. destruct Hu as [|c rest Hc Hu]; [done|]. simpl in *. zb.
  destruct (IsDecimalDigitChar c); [|done]. by apply hash_digits_stops.
Qed.

Definition merged_hash (first second : EcmaString) : Z :=
  let '(hashCode, isInteger) := ComputeRawHashcode first in ComputeHashcodeSeeded hashCode isInteger second.

(** The continued hash over a second part that is not empty. *)
Lemma merged_numeral (first second : EcmaString) :
  wf first -> wf second -> short_numeral (data first) = true -> data second <> [] ->
  merged_hash first second =
    if forallb IsDecimalDigitChar (data second) && (lenZ (data second) <? MAX_ELEMENT_INDEX_LEN)
    then default (ComputeHashForData (data second) (value (data first) + 2 ^ 31) mod 2 ^ 31)
           (HashIntegerString (data second) (value (data first) + 2 ^ 31))
    else ComputeHashForData (data second) (value (data first) + 2 ^ 31) mod 2 ^ 31.
Proof.
  intros Hf [Hutf Hu] Hn Hne. pose proof (short_numeral_value _ Hn) as Hv.
  unfold merged_hash. rewrite ComputeRawHashcode_spec, Hn by done. unfold ComputeHashcodeSeeded, GetLength.
  rewrite (proj2 (Z.eqb_neq _ 0)) by (by intros E%lenZ_zero). rewrite orb_true_r, Hutf. simpl.
  destruct (forallb IsDecimalDigitChar (data second)) eqn:Hd; simpl.
  - rewrite digits_compressed by done. destruct (_ <? _); [|apply mix_raw].
    by destruct (HashIntegerString _ _); simpl; [|rewrite mix_raw].
  - destruct (CanBeCompressed (data second)) eqn:Hc; [|apply mix_raw].
    rewrite HashIntegerString_stops; [|lia|by apply compressed_bytes|done].
    destruct (_ <? _); apply mix_raw.
Qed.

Lemma merged_other (first second : EcmaString) :
  wf first -> wf second -> short_numeral (data first) = false -> data second <> [] ->
  ComputeHashForData (data first) 0 <> 0 ->
  merged_hash first second = ComputeHashForData (data first ++ data second) 0 mod 2 ^ 31.
Proof.
  intros Hf Hs Hn Hne Hz. unfold merged_hash. rewrite ComputeRawHashcode_spec, Hn by done.
  unfold ComputeHashcodeSeeded, GetLength. rewrite (proj2 (Z.eqb_neq _ 0)) by (by intros E%lenZ_zero).
  rewrite (proj2 (Z.eqb_neq _ 0)) by done. simpl. rewrite ComputeHashForData_app.
  destruct (IsUtf8 second); apply mix_raw.
Qed.

Lemma mix_idem (n : Z) : MixHashcode (MixHashcode n true) true = MixHashcode n true.
Proof. unfold MixHashcode. by rewrite <- Z.lor_assoc, Z.lor_diag. Qed.

Lemma hash_digits_mixed (units : list Z) (n h : Z) : hash_digits n units = Some h -> MixHashcode h true = h.
Proof.
  revert n. induction units as [|c units IH]; simpl; intros n H.
  - destruct (_ <=? _); [|done]. injection H as <-. apply mix_idem.
  - destruct (ComputeIntegerHash n c); [eauto|done].
Qed.

Lemma HashIntegerString_mixed (units : list Z) (seed h : Z) :
  HashIntegerString units seed = Some h -> MixHashcode h true = h.
Proof.
  destruct units as [|c rest]; [done|]. unfold HashIntegerString.
  destruct (seed =? 0); [|destruct (IsDecimalDigitChar c); [apply hash_digits_mixed|done]].
  destruct (IsDecimalDigitChar c && negb (c =? 48)).
  - destruct (hash_digits (c - 48) rest) as [h'|] eqn:Hh.
    + intros [= <-]. by apply hash_digits_mixed in Hh.
    + destruct (_ && _); [|done]. intros [= <-]. apply mix_idem.
  - destruct (_ && _); [|done]. intros [= <-]. apply mix_idem.
Qed.

Lemma merged_empty (first second : EcmaString) :
  wf first -> wf second -> data first = [] \/ data second = [] ->
  merged_hash first second = ComputeHashcode (Concat first second).
Proof.
  intros Hf Hs Hem. rewrite (ComputeHashcode_spec (Concat _ _)) by (by apply Concat_wf). rewrite Concat_data.
  unfold merged_hash. destruct Hem as [E|E]; rewrite E.
  - rewrite ComputeRawHashcode_spec, E by done. simpl. rewrite <- ComputeHashcode_spec by done.
    unfold ComputeHashcodeSeeded, ComputeHashcode, ComputeRawHashcode.
    destruct (Z.eqb_spec (GetLength second) 0); [done|]. simpl. destruct (IsUtf8 second); [|done].
    destruct (_ <? _) eqn:Hl; [|done]. destruct (HashIntegerString (data second) 0) eqn:Hh; [|done].
    symmetry. by eapply HashIntegerString_mixed.
  - rewrite app_nil_r, <- ComputeHashcode_spec by done. unfold ComputeHashcode. destruct (ComputeRawHashcode first).
    unfold ComputeHashcodeSeeded, GetLength. by rewrite E.
Qed.

(** The pairs of strings over which the continued hash is right. *)
Definition mergeable (first second : EcmaString) : Prop :=
  data first = [] \/ data second = [] \/
  (short_numeral (data first) = false /\ ComputeHashForData (data first) 0 <> 0) \/
  (data first <> [48] /\ short_numeral (data first) = true /\ short_numeral (data first ++ data second) = true).

Lemma merged_hash_run (first second : EcmaString) :
  wf first -> wf second ->
  mergeable first second ->
  merged_hash first second = ComputeHashcode (Concat first second).
Proof.
  intros Hf Hs H. destruct (decide (data first = [])) as [E1|E1]; [by apply merged_empty; auto|].
  destruct (decide (data second = [])) as [E2|E2]; [by apply merged_empty; auto|].
  destruct H as [?|[?|[[Hn Hz]|(H0 & Hn & Hall)]]]; [done|done|..];
    rewrite (ComputeHashcode_spec (Concat _ _)), Concat_data by (by apply Concat_wf).
  - rewrite merged_other, short_numeral_app, Hn by done. done.
  - rewrite Hall, merged_numeral by done. pose proof Hall as Hall'. rewrite short_numeral_app in Hall by done.
    apply andb_true_iff in Hall as [[_ Hd]%andb_true_iff Hl%Z.ltb_lt]. unfold MAX_ELEMENT_INDEX_LEN in *.
    pose proof (lenZ_nonneg (data first)). pose proof (lenZ_nonneg (data second)). rewrite lenZ_app in Hl.
    rewrite Hd. zb. destruct Hs as [_ Hu]. pose proof (short_numeral_value _ Hn) as Hv.
    apply andb_true_iff in Hn as [_ Hc%canonical_digits]. pose proof (value_bound _ Hc) as Hvb.
    rewrite HashIntegerString_seeded; [|lia| |done|by apply compressed_bytes; [apply digits_compressed|]].
    + rewrite Hd. simpl. unfold value_from. by rewrite fold_left_app.
    + pose proof (Z.pow_le_mono_r 10 (lenZ (data first) + lenZ (data second)) 9 ltac:(lia) ltac:(lia)) as Hp.
      rewrite Z.pow_add_r in Hp by lia.
      pose proof (Z.pow_pos_nonneg 10 (lenZ (data second)) ltac:(lia) ltac:(lia)). nia.
Qed.

(** The hash that is continued from the raw hash of a first string over a
    second one is the hash of their concatenation, when the first one is not a
    short numeral and its polynomial hash is not 0, and when both together are
    a numeral of at most nine digits. *)
Theorem merged_hash_concat (first second : EcmaString) :
  wf first -> wf second ->
  mergeable first second ->
  merged_hash first second = ComputeHashcode (Concat first second).
Proof. apply merged_hash_run. Qed.

Lemma merged_after_numeral (first second : EcmaString) :
  wf first -> wf second -> short_numeral (data first) = true ->
  forallb IsDecimalDigitChar (data second) = false ->
  merged_hash first second = ComputeHashcode (Concat first second) <->
  ComputeHashForData (data first) 0 mod 2 ^ 31 = value (data first).
Proof.
  intros Hf Hs Hn Hd. assert (data second <> []) as E2 by (by intros E; rewrite E in Hd).
  assert (data first <> []) as E1 by (by intros E; rewrite E in Hn).
  pose proof (short_numeral_value _ Hn) as Hv. unfold MAX_INTEGER_HASH_NUMBER in Hv.
  rewrite merged_numeral, Hd, ComputeHashcode_spec, Concat_data by (done || by apply Concat_wf).
  rewrite short_numeral_app, Hd, andb_false_r, ComputeHashForData_app by done. simpl.
  rewrite ComputeHashForData_seed. replace ((value (data first) + 2 ^ 31) mod 2 ^ 31) with (value (data first)) by zlia.
  split; congruence.
Qed.

(** After a short numeral, over a second part that is not all digits, the
    continued hash is the hash of the concatenation only if the numeral's
    polynomial hash is the number it stands for (modulo 2^31). *)
Theorem merged_hash_after_numeral (first second : EcmaString) :
  wf first -> wf second -> short_numeral (data first) = true ->
  forallb IsDecimalDigitChar (data second) = false ->
  merged_hash first second = ComputeHashcode (Concat first second) <->
  ComputeHashForData (data first) 0 mod 2 ^ 31 = value (data first).
Proof. apply merged_after_numeral. Qed.

(** ** The hash of a buffer of 16-bit units *)

(** What HashIntegerString sees of the units after the first one. *)
Definition low_bytes (units : list Z) : list Z :=
  match units with
  | [] => []
  | c :: rest => c :: ((fun c => c mod 2 ^ 8) <$> rest)
  end.

Lemma low_bytes_length (units : list Z) : lenZ (low_bytes units) = lenZ units.
Proof. destruct units; [done|]. unfold lenZ. simpl. by rewrite length_fmap. Qed.

Lemma hash_digits_low (units : list Z) (n : Z) : hash_digits n units = hash_digits n ((fun c => c mod 2 ^ 8) <$> units).
Proof.
  revert n. induction units as [|c units IH]; intros n; [done|]. cbn [hash_digits fmap list_fmap].
  unfold ComputeIntegerHash. rewrite Z.mod_mod by done. by destruct (IsDecimalDigitChar _).
Qed.

Lemma HashIntegerString_low (units : list Z) (seed : Z) :
  HashIntegerString units seed = HashIntegerString (low_bytes units) seed.
Proof.
  destruct units as [|c rest]; [done|]. unfold HashIntegerString, low_bytes.
  rewrite (hash_digits_low rest (c - 48)), (hash_digits_low rest (u32 _)). unfold lenZ. simpl length. by rewrite length_fmap.
Qed.

Lemma low_bytes_numeral (units : list Z) : forallb IsDecimalDigitChar units = true -> low_bytes units = units.
Proof.
  destruct units as [|c rest]; [done|]. cbn [forallb low_bytes]. intros [_ Hd]%andb_true_iff. f_equal.
  induction rest as [|d rest IH]; [done|]. rewrite fmap_cons. cbn [forallb] in Hd. apply andb_true_iff in Hd as [Hc%digit_range Hd].
  rewrite IH, byte_digit by (done || lia). done.
Qed.

(** A first unit above 0xFF is no digit, so that only bytes matter. *)
Lemma HashIntegerString_low_spec (units : list Z) :
  lenZ units < MAX_ELEMENT_INDEX_LEN -> Forall (fun c => 0 <= c < 2 ^ 16) units ->
  HashIntegerString units 0
  = if canonical (low_bytes units) then Some (value (low_bytes units) + 2 ^ 31) else None.
Proof.
  intros Hl Hu. rewrite HashIntegerString_low. destruct units as [|c rest]; [done|].
  destruct (Z.ltb_spec c (2 ^ 8)).
  - apply HashIntegerString_spec; [by rewrite low_bytes_length|]. apply Forall_cons_1 in Hu as [Hc Hu].
    constructor; [lia|]. apply Forall_fmap, Forall_true. intros d. apply Z.mod_pos_bound. lia.
  - unfold HashIntegerString, canonical. simpl. unfold IsDecimalDigitChar. zb. by rewrite andb_false_r.
Qed.

Lemma ComputeHashcodeUtf16_low (units : list Z) :
  Forall (fun c => 0 <= c < 2 ^ 16) units ->
  ComputeHashcodeUtf16 units =
    if short_numeral (low_bytes units) then value (low_bytes units) + 2 ^ 31
    else ComputeHashForData units 0 mod 2 ^ 31.
Proof.
  intros Hu. unfold ComputeHashcodeUtf16, short_numeral. rewrite low_bytes_length.
  destruct (Z.ltb_spec (lenZ units) MAX_ELEMENT_INDEX_LEN); simpl; [|apply mix_raw].
  rewrite HashIntegerString_low_spec by done. destruct (canonical _); [done|apply mix_raw].
Qed.

Lemma CreateFromUtf16_wf (units : list Z) : Forall (fun c => 0 <= c < 2 ^ 16) units -> wf (CreateFromUtf16 units).
Proof. done. Qed.

Lemma utf16_hash_agrees (units : list Z) :
  Forall (fun c => 0 <= c < 2 ^ 16) units ->
  ComputeHashcodeUtf16 units = ComputeHashcode (CreateFromUtf16 units) <->
  short_numeral (low_bytes units) = short_numeral units.
Proof.
  intros Hu. rewrite ComputeHashcodeUtf16_low, ComputeHashcode_spec by done. cbn [CreateFromUtf16 data].
  destruct (short_numeral units) eqn:Hn.
  - rewrite low_bytes_numeral, Hn; [done|]. by apply andb_true_iff in Hn as [_ Hc%canonical_digits].
  - destruct (short_numeral (low_bytes units)) eqn:Hl; [|done]. pose proof (short_numeral_value _ Hl).
    pose proof (Z.mod_pos_bound (ComputeHashForData units 0) (2 ^ 31) ltac:(lia)). split; [lia|done].
Qed.

(** The hash that is computed from a buffer of 16-bit units is the hash of
    the string made of them unless cutting the units after the first to bytes
    makes a numeral of them. *)
Theorem ComputeHashcodeUtf16_agrees (units : list Z) :
  Forall (fun c => 0 <= c < 2 ^ 16) units ->
  ComputeHashcodeUtf16 units = ComputeHashcode (CreateFromUtf16 units) <->
  short_numeral (low_bytes units) = short_numeral units.
Proof. apply utf16_hash_agrees. Qed.

(** ** Conversions to an index *)

Lemma span_get_lookup {S} (sp : list Z) (i : nat) (c : Z) (st : S) :
  sp !! i = Some c -> span_get sp (Z.of_nat i) st = (Ok c, st).
Proof. intros H. unfold span_get. rewrite (proj2 (Z.ltb_ge _ 0)), Nat2Z.id, H by lia. done. Qed.

Lemma span_get_mid {S} (pre post : list Z) (c i : Z) (st : S) :
  lenZ pre = i -> span_get (pre ++ c :: post) i st = (Ok c, st).
Proof. intros <-. by apply span_get_lookup, list_lookup_middle. Qed.

Lemma ToUInt64_loop {S} (pre rest : list Z) (n : Z) (fuel : nat) (st : S) :
  0 <= n -> (n + 1) * 10 ^ lenZ rest <= 10 ^ 10 -> (length rest < fuel)%nat ->
  while_fuel fuel (uint64_step (pre ++ rest)) (lenZ pre, n) st
  = (Ok (if forallb IsDecimalDigitChar rest then Some (value_from n rest) else None), st).
Proof.
  revert pre n fuel. induction rest as [|c rest IH]; intros pre n fuel Hn Hb Hf; (destruct fuel as [|fuel]; [lia|]);
    cbn [while_fuel].
  { mstep by (unfold uint64_step; rewrite lenZ_app, lenZ_nil; zb; reflexivity). done. }
  rewrite lenZ_cons in *. pose proof (lenZ_nonneg rest).
  assert (uint64_step (S := S) (pre ++ c :: rest) (lenZ pre, n) st
          = (Ok (if IsDecimalDigitChar c then inl (lenZ pre + 1, u64 (n * 10 + (c - 48))) else inr None), st)) as Hstep.
  { unfold uint64_step, IsDecimalDigitChar. rewrite lenZ_app, lenZ_cons. zb. mstep by (by apply span_get_mid).
    destruct (Z.ltb_spec c 48), (Z.ltb_spec 57 c); zb; [lia|done|done|]. done. }
  mstep with Hstep. cbn [forallb]. destruct (IsDecimalDigitChar c) eqn:Hd; [|done]. apply digit_range in Hd.
  cbv iota. cbn [andb]. rewrite Z.pow_add_r in Hb by lia.
  pose proof (Z.pow_pos_nonneg 10 (lenZ rest) ltac:(lia) ltac:(lia)).
  specialize (IH (pre ++ [c]) (n * 10 + (c - 48)) fuel). rewrite <- app_assoc in IH.
  replace (lenZ (pre ++ [c])) with (lenZ pre + 1) in IH by lenz.
  unfold u64. rewrite Z.mod_small by nia. apply IH; [lia|nia|simpl in Hf; lia].
Qed.

Lemma ToUInt64_run {S} (s : EcmaString) (pre rest : list Z) (st : S) :
  data s = pre ++ rest -> rest <> [] -> lenZ rest <= 10 ->
  ToUInt64FromLoopStart s (lenZ pre) st
  = (Ok (if forallb IsDecimalDigitChar rest then Some (value rest) else None), st).
Proof.
  intros Hd Hne Hl. unfold ToUInt64FromLoopStart, GetLength. rewrite Hd, lenZ_app.
  assert (0 < lenZ rest) by (destruct rest; [done|lenz]). zb. apply ToUInt64_loop; [lia| |lenz].
  pose proof (Z.pow_le_mono_r 10 (lenZ rest) 10 ltac:(lia) ltac:(lia)). lia.
Qed.

(** ToElementIndex accepts exactly the canonical decimal numerals below
    2^32 - 1 and returns their value; what it takes from the cached hash of a
    short numeral is what it would compute from the digits. *)
Theorem ToElementIndex_spec {S} (s : EcmaString) (st : S) :
  wf s -> cache_ok s ->
  ToElementIndex s st
  = (Ok (if canonical (data s) && (lenZ (data s) <=? MAX_ELEMENT_INDEX_LEN) && (value (data s) <? MAX_ELEMENT_INDEX)
         then Some (value (data s)) else None), st).
Proof.
  intros Hs Hc. unfold ToElementIndex, GetLength, MAX_ELEMENT_INDEX_LEN.
  destruct (data s) as [|c rest] eqn:Hd; [done|]. rewrite lenZ_cons. pose proof (lenZ_nonneg rest).
  destruct (Z.ltb_spec 10 (lenZ rest + 1)); zb; [by rewrite andb_false_r|]. rewrite andb_true_r.
  destruct (IsUtf8 s) eqn:Hutf; cbn [negb].
  2: { destruct (canonical (c :: rest)) eqn:Hcan; [|done]. destruct Hs as [Hs _].
       rewrite Hutf, Hd, digits_compressed in Hs by (by apply canonical_digits). done. }
  mstep by (by apply TryToGetInteger_run). rewrite Hd. destruct (short_numeral (c :: rest)) eqn:Hn.
  - pose proof (short_numeral_value _ Hn) as Hv. unfold MAX_INTEGER_HASH_NUMBER, MAX_ELEMENT_INDEX in *.
    apply andb_true_iff in Hn as [_ ->]. by zb.
  - mstep. destruct (Z.eqb_spec c 48) as [->|Hne].
    + destruct (Z.eqb_spec (lenZ rest + 1) 1) as [E|E].
      * rewrite (lenZ_zero rest) in Hn by lia. done.
      * simpl. by zb.
    + pose proof (ToUInt64_run s [] (c :: rest) st Hd ltac:(done) ltac:(rewrite lenZ_cons; lia)) as Hrun.
      mstep with Hrun. unfold canonical. rewrite (proj2 (Z.eqb_neq c 48)) by done.
      by destruct (forallb _ _).
Qed.

(** The numbers ToInt accepts: the canonical numerals up to 2^31 - 1, and a
    minus sign followed by digits, superfluous zeros included. *)
Definition int_value (units : list Z) : option (Z * bool) :=
  match units with
  | [] => None
  | c :: rest =>
      if (c =? 45) && negb (lenZ rest =? 0)
      then if forallb IsDecimalDigitChar rest then Some (- value rest, true) else None
      else if canonical units && (value units <=? INT32_MAX) then Some (value units, false) else None
  end.

Lemma int_value_compressed (units : list Z) : int_value units <> None -> CanBeCompressed units = true.
Proof.
  destruct units as [|c rest]; [done|]. unfold int_value. destruct ((c =? 45) && _) eqn:Hneg.
  - apply andb_true_iff in Hneg as [->%Z.eqb_eq _]. destruct (forallb _ _) eqn:Hd; [|done]. intros _.
    by apply digits_compressed in Hd.
  - destruct (canonical (c :: rest)) eqn:Hc; [|done]. intros _. by apply digits_compressed, canonical_digits.
Qed.

Theorem ToInt_spec {S} (s : EcmaString) (st : S) :
  wf s -> lenZ (data s) <= MAX_ELEMENT_INDEX_LEN -> ToInt s st = (Ok (int_value (data s)), st).
Proof.
  intros [Hutf _] Hl. unfold ToInt, GetLength. pose proof (int_value_compressed (data s)) as Hcomp.
  destruct (data s) as [|c rest] eqn:Hd; [done|]. rewrite lenZ_cons in *. pose proof (lenZ_nonneg rest).
  unfold MAX_ELEMENT_INDEX_LEN in *. zb. rewrite Hutf. destruct (CanBeCompressed (c :: rest)); cbn [negb].
  2: { destruct (int_value (c :: rest)); [|done]. by discriminate Hcomp. }
  mstep. clear Hcomp. unfold int_value, canonical.
  destruct (Z.eqb_spec c 48) as [->|Hne0].
  { zb. destruct (Z.eqb_spec (lenZ rest) 0) as [E|E]; zb; [|done]. apply lenZ_zero in E as ->. done. }
  replace (1 <? lenZ rest + 1) with (negb (lenZ rest =? 0)) by (destruct (Z.eqb_spec (lenZ rest) 0); by zb).
  destruct ((c =? 45) && negb (lenZ rest =? 0)) eqn:Hneg.
  - apply andb_true_iff in Hneg as [->%Z.eqb_eq Hr%negb_true_iff%Z.eqb_neq].
    mstep by (apply (ToUInt64_run s [45] rest st Hd); [by intros ->|lia]).
    destruct (forallb IsDecimalDigitChar rest) eqn:Hdig; [|done]. pose proof (value_bound _ Hdig) as Hv.
    pose proof (Z.pow_le_mono_r 10 (lenZ rest) 9 ltac:(lia) ltac:(lia)). unfold INT32_MAX. zb. mcbn.
    do 4 f_equal. unfold i32. rewrite Z.mod_small; lia.
  - mstep by (apply (ToUInt64_run s [] (c :: rest) st Hd); [done|rewrite lenZ_cons; lia]).
    by destruct (forallb IsDecimalDigitChar (c :: rest)).
Qed.

(** ** Comparison *)

(** The first position at which two lists differ. *)
Fixpoint first_diff (a b : list Z) : option (Z * Z) :=
  match a, b with
  | x :: a', y :: b' => if negb (x =? y) then Some (x, y) else first_diff a' b'
  | _, _ => None
  end.

Lemma first_diff_None (a b : list Z) : length a = length b -> first_diff a b = None <-> a = b.
Proof.
  revert b. induction a as [|x a IH]; intros [|y b] Hl; simpl in *; try done.
  destruct (Z.eqb_spec x y) as [->|Hne]; simpl; [|split; [done|congruence]].
  rewrite IH by lia. split; congruence.
Qed.

(** The loops that compare two spans unit by unit. *)
Lemma compare_loop {S A} (f : Z -> Z -> A) (a b prea preb posta postb : list Z) (off i : Z) (st : S) :
  length a = length b -> lenZ prea = off + i -> lenZ preb = i ->
  find_up (length a) i (fun i =>
    left ← span_get (prea ++ a ++ posta) (off + i);
    right ← span_get (preb ++ b ++ postb) i;
    mret (if negb (left =? right) then Some (f left right) else None)) st
  = (Ok ((fun p => f p.1 p.2) <$> first_diff a b), st).
Proof.
  revert b prea preb i. induction a as [|x a IH]; intros [|y b] prea preb i Hl Ha Hb; [done..|].
  cbn [length find_up first_diff]. rewrite <- !app_comm_cons. erewrite bind_Ok.
  2: { mstep by (by apply span_get_mid). mstep by (by apply span_get_mid). reflexivity. }
  destruct (x =? y); cbn [negb]; [|done].
  specialize (IH b (prea ++ [x]) (preb ++ [y]) (i + 1)). rewrite <- !app_assoc in IH.
  apply IH; [by injection Hl|lenz..].
Qed.

(** The lexicographic order by code units, as a signed difference. *)
Fixpoint lex (a b : list Z) : Z :=
  match a, b with
  | x :: a', y :: b' => if x =? y then lex a' b' else x - y
  | _, _ => lenZ a - lenZ b
  end.

Lemma lex_first_diff (a b a' b' : list Z) :
  length a = length b -> a' = [] \/ b' = [] ->
  lex (a ++ a') (b ++ b') = match first_diff a b with Some (x, y) => x - y | None => lenZ a' - lenZ b' end.
Proof.
  intros Hl He. revert b Hl. induction a as [|x a IH]; intros [|y b] Hl; try done; simpl.
  - destruct He as [->| ->]; [by destruct b'|by destruct a'].
  - destruct (x =? y); simpl; [|done]. apply IH. by injection Hl.
Qed.

Lemma first_diff_neq (a b : list Z) (x y : Z) : first_diff a b = Some (x, y) -> x - y <> 0.
Proof.
  revert b. induction a as [|u a IH]; intros [|v b]; simpl; try done.
  destruct (Z.eqb_spec u v); simpl; [apply IH|]. intros [= <- <-]. lia.
Qed.

Lemma lex_eq (a b : list Z) : lex a b = 0 <-> a = b.
Proof.
  revert b. induction a as [|x a IH]; intros [|y b]; simpl; rewrite ?lenZ_nil, ?lenZ_cons; try done.
  - pose proof (lenZ_nonneg b). split; [lia|done].
  - pose proof (lenZ_nonneg a). split; [lia|done].
  - destruct (Z.eqb_spec x y) as [->|Hne]; [rewrite IH; split; congruence|]. split; [lia|congruence].
Qed.

Lemma lex_opp (a b : list Z) : lex b a = - lex a b.
Proof.
  revert b. induction a as [|x a IH]; intros [|y b]; simpl; rewrite ?lenZ_nil, ?lenZ_cons; try lia.
  rewrite (Z.eqb_sym y x). destruct (x =? y); [apply IH|lia].
Qed.

(** Split two lists at the shorter length. *)
Lemma split_min (a b : list Z) :
  exists a1 a2 b1 b2, a = a1 ++ a2 /\ b = b1 ++ b2 /\ length a1 = length b1 /\ (a2 = [] \/ b2 = []).
Proof.
  exists (take (length b) a), (drop (length b) a), (take (length a) b), (drop (length a) b).
  rewrite !take_drop, !length_take. split_and!; [done..|lia|].
  destruct (decide (length a <= length b)%nat); [left|right]; apply drop_ge; lia.
Qed.

Lemma CompareStringSpan_run {S} (a b posta postb : list Z) (st : S) :
  length a = length b ->
  CompareStringSpan (a ++ posta) (b ++ postb) (lenZ a) st
  = (Ok (match first_diff a b with Some (x, y) => x - y | None => 0 end), st).
Proof.
  intros Hl. unfold CompareStringSpan. unfold lenZ. rewrite Nat2Z.id.
  mstep by (apply (compare_loop Z.sub a b [] [] posta postb 0 0); done).
  by destruct (first_diff a b) as [[x y]|].
Qed.

Lemma span_all (l : list Z) : span l (lenZ l) = l.
Proof. unfold span, lenZ. rewrite Nat2Z.id. by apply take_ge. Qed.

Lemma string_Compare_run {S} (lhs rhs : EcmaString) (st : S) :
  GetLength lhs < 2 ^ 30 -> GetLength rhs < 2 ^ 30 -> Compare lhs rhs st = (Ok (lex (data lhs) (data rhs)), st).
Proof.
  intros Hl Hr. unfold Compare, GetLength in *.
  destruct (split_min (data lhs) (data rhs)) as (a1 & a2 & b1 & b2 & Ha & Hb & Hlen & He). rewrite Ha, Hb in *.
  assert (lenZ a1 = lenZ b1) as Hz by (unfold lenZ; lia).
  pose proof (lenZ_nonneg a1). pose proof (lenZ_nonneg a2). pose proof (lenZ_nonneg b2). rewrite !lenZ_app in *.
  replace (i32 _) with (lenZ a2 - lenZ b2) by (unfold i32; rewrite Z.mod_small; lia).
  replace (if lenZ a2 - lenZ b2 <? 0 then _ else _) with (lenZ a1).
  2: { assert (lenZ a2 = 0 \/ lenZ b2 = 0) by (destruct He as [->| ->]; auto).
       destruct (Z.ltb_spec (lenZ a2 - lenZ b2) 0); lia. }
  assert (forall n m, lenZ a1 <= n -> lenZ b1 <= m ->
    CompareStringSpan (span (a1 ++ a2) n) (span (b1 ++ b2) m) (lenZ a1) st
    = (Ok (match first_diff a1 b1 with Some (x, y) => x - y | None => 0 end), st)) as Hcmp.
  { intros n m Hn Hm. unfold span. rewrite !take_app, !(take_ge a1), !(take_ge b1) by (unfold lenZ in *; lia).
    by apply CompareStringSpan_run. }
  mstep by (destruct (IsUtf8 lhs), (IsUtf8 rhs); cbn [andb]; apply Hcmp; lia).
  rewrite lex_first_diff by done. destruct (first_diff a1 b1) as [[x y]|] eqn:Hd; [|done].
  pose proof (first_diff_neq _ _ _ _ Hd). by zb.
Qed.

(** Compare is the lexicographic order by code units, whatever the two
    encodings are: 0 exactly for equal strings, of opposite signs when the
    arguments are swapped. *)
Theorem Compare_lex {S} (lhs rhs : EcmaString) (st : S) :
  GetLength lhs < 2 ^ 30 -> GetLength rhs < 2 ^ 30 ->
  Compare lhs rhs st = (Ok (lex (data lhs) (data rhs)), st) /\
  (lex (data lhs) (data rhs) = 0 <-> data lhs = data rhs) /\
  lex (data rhs) (data lhs) = - lex (data lhs) (data rhs).
Proof. intros Hl Hr. split; [by apply string_Compare_run|]. split; [apply lex_eq|apply lex_opp]. Qed.

Lemma compare_spans_run {S} (a b posta prea : list Z) (st : S) :
  length a = length b ->
  (r ← find_up (length b) 0 (fun i =>
         left ← span_get (prea ++ a ++ posta) (lenZ prea + i);
         right ← span_get b i;
         mret (if negb (left =? right) then Some tt else None));
   mret (match r with Some _ => false | None => true end)) st
  = (Ok (bool_decide (a = b)), st).
Proof.
  intros Hl. rewrite <- Hl. pose proof (compare_loop (fun _ _ => tt) a b prea [] posta [] (lenZ prea) 0 st) as Hc.
  rewrite app_nil_r in Hc. mstep by (apply Hc; done || lia).
  pose proof (first_diff_None a b Hl) as Hn. mcbn. f_equal. f_equal. symmetry.
  destruct (first_diff a b) as [p|]; simpl.
  - apply bool_decide_eq_false. intros E. by discriminate (proj2 Hn E).
  - apply bool_decide_eq_true. by apply Hn.
Qed.

(** IsSubStringAt tells whether the pattern stands at the offset, except
    for an ASCII pattern in a text that is not: there the two lengths are
    exchanged and the call leaves the bounds of the pattern. *)
Theorem IsSubStringAt_spec {S} (lhs rhs : EcmaString) (offset : Z) (st : S) :
  0 <= offset -> offset + GetLength rhs <= GetLength lhs ->
  IsSubStringAt lhs rhs offset st
  = (if negb (IsUtf8 lhs) && IsUtf8 rhs && negb (GetLength rhs =? GetLength lhs) then Fault
     else Ok (bool_decide (take (length (data rhs)) (drop (Z.to_nat offset) (data lhs)) = data rhs)), st).
Proof.
  intros Ho Hle. unfold GetLength in *.
  destruct (split_len (data lhs) offset) as (pre & tl & Hp & <-); [pose proof (lenZ_nonneg (data rhs)); lia|].
  rewrite Hp, lenZ_app in Hle.
  destruct (split_len tl (lenZ (data rhs))) as (mid & post & -> & Hm); [pose proof (lenZ_nonneg (data rhs)); lia|].
  assert (length mid = length (data rhs)) as Hm' by lenz.
  assert (take (length (data rhs)) (drop (Z.to_nat (lenZ pre)) (data lhs)) = mid) as ->.
  { rewrite Hp. unfold lenZ. rewrite Nat2Z.id, drop_app_length, <- Hm'. apply take_app_length. }
  unfold IsSubStringAt, GetLength.
  assert (IsSubStringAtSpan (data lhs) (lenZ (data lhs)) (data rhs) (lenZ (data rhs)) (lenZ pre) st
          = (Ok (bool_decide (mid = data rhs)), st)) as Hrun.
  { unfold IsSubStringAtSpan. rewrite Hp, !lenZ_app. pose proof (lenZ_nonneg post). zb. mstep.
    unfold lenZ at 1. rewrite Nat2Z.id. by apply compare_spans_run. }
  destruct (IsUtf8 lhs), (IsUtf8 rhs); cbn [negb andb]; [done..| |done].
  destruct (Z.eqb_spec (lenZ (data rhs)) (lenZ (data lhs))) as [E|E]; cbn [negb]; [by rewrite E in *|].
  unfold IsSubStringAtSpan. rewrite Hp, !lenZ_app in *. pose proof (lenZ_nonneg post). pose proof (lenZ_nonneg pre).
  rewrite (proj2 (Z.leb_gt _ _)) by lia. done.
Qed.

Lemma StringsAreEquals_run {S} (a b : list Z) (st : S) :
  length a = length b -> StringsAreEquals a b st = (Ok (bool_decide (a = b)), st).
Proof.
  intros Hl. unfold StringsAreEquals, lenZ. zb. mstep. rewrite Hl.
  pose proof (compare_spans_run a b [] [] st Hl) as Hc. rewrite app_nil_r in Hc. exact Hc.
Qed.

Lemma TryGetHashCode_ok (s : EcmaString) (h : Z) :
  cache_ok s -> TryGetHashCode s = Some h -> h = ComputeHashcode s.
Proof.
  unfold TryGetHashCode. intros [E|E]; rewrite E.
  - simpl. destruct (Z.eqb_spec (GetLength s) 0) as [El|El]; simpl; [|done]. intros [= <-].
    unfold ComputeHashcode, ComputeRawHashcode. by rewrite El.
  - destruct (_ && _); [done|]. by intros [= <-].
Qed.

Lemma ComputeHashcode_data (a b : EcmaString) : wf a -> wf b -> data a = data b -> ComputeHashcode a = ComputeHashcode b.
Proof. intros Ha Hb E. by rewrite !ComputeHashcode_spec, E. Qed.

(** On strings whose cached hashes are right, StringsAreEqual compares the
    code units. *)
Lemma StringsAreEqual_run {S} (a b : EcmaString) (st : S) :
  wf a -> wf b -> cache_ok a -> cache_ok b ->
  StringsAreEqual false a b st = (Ok (bool_decide (data a = data b)), st).
Proof.
  intros Ha Hb Hca Hcb. unfold StringsAreEqual, GetLength.
  destruct (Z.eqb_spec (lenZ (data a)) (lenZ (data b))) as [El|El]; cbn [negb].
  2: { rewrite bool_decide_eq_false_2 by congruence. done. }
  destruct (Z.eqb_spec (lenZ (data a)) 0) as [E|E].
  { rewrite E in El. apply lenZ_zero in E. symmetry in El. apply lenZ_zero in El. rewrite E, El. done. }
  assert (length (data a) = length (data b)) as El' by (unfold lenZ in El; lia).
  destruct (TryGetHashCode a) as [ha|] eqn:Hha; [|by apply StringsAreEquals_run].
  destruct (TryGetHashCode b) as [hb|] eqn:Hhb; [|by apply StringsAreEquals_run].
  apply TryGetHashCode_ok in Hha as ->; [|done]. apply TryGetHashCode_ok in Hhb as ->; [|done].
  destruct (Z.eqb_spec (ComputeHashcode a) (ComputeHashcode b)) as [Eh|Eh]; cbn [negb].
  - by apply StringsAreEquals_run.
  - rewrite bool_decide_eq_false_2; [done|]. intros Ed. by apply Eh, ComputeHashcode_data.
Qed.

Lemma StringsAreEqualUtf16_run {S} (s : EcmaString) (units : list Z) (st : S) :
  StringsAreEqualUtf16 s units st = (Ok (bool_decide (data s = units)), st).
Proof.
  unfold StringsAreEqualUtf16, GetLength. destruct (Z.eqb_spec (lenZ (data s)) (lenZ units)) as [E|E]; cbn [negb].
  - apply StringsAreEquals_run. unfold lenZ in E. lia.
  - rewrite bool_decide_eq_false_2 by congruence. done.
Qed.

Lemma StringIsEqualUint8Data_run {S} (s : EcmaString) (units : list Z) (st : S) :
  wf s -> CanBeCompressed units = true ->
  StringIsEqualUint8Data s units st = (Ok (bool_decide (data s = units)), st).
Proof.
  intros [Hutf _] Hc. unfold StringIsEqualUint8Data, GetLength. destruct (IsUtf8 s); cbn [negb].
  - destruct (Z.eqb_spec (lenZ (data s)) (lenZ units)) as [E|E]; cbn [negb].
    + apply StringsAreEquals_run. unfold lenZ in E. lia.
    + rewrite bool_decide_eq_false_2 by congruence. done.
  - rewrite bool_decide_eq_false_2 by congruence. done.
Qed.

Lemma EqualToSplicedString_run {S} (this a b : EcmaString) (st : S) :
  wf this -> wf a -> wf b -> GetLength a < 2 ^ 30 -> GetLength b < 2 ^ 30 ->
  EqualToSplicedString this a b st = (Ok (bool_decide (data this = data a ++ data b)), st).
Proof.
  intros [Ht _] Ha Hb Hla Hlb. unfold EqualToSplicedString, GetLength in *.
  pose proof (lenZ_nonneg (data a)). pose proof (lenZ_nonneg (data b)). rewrite u32_small by lia.
  destruct (Z.eqb_spec (lenZ (data this)) (lenZ (data a) + lenZ (data b))) as [E|E]; cbn [negb].
  2: { rewrite bool_decide_eq_false_2; [done|]. intros E'. apply E. by rewrite E', lenZ_app. }
  destruct (split_len (data this) (lenZ (data a))) as (t1 & t2 & Hd & Hl); [lia|].
  assert (length t1 = length (data a)) as Hl' by (unfold lenZ in Hl; lia).
  unfold lenZ. rewrite Nat2Z.id, Hd, <- Hl', take_app_length, drop_app_length.
  assert (bool_decide (t1 ++ t2 = data a ++ data b) = bool_decide (data a = t1) && bool_decide (data b = t2)) as ->.
  { rewrite <- bool_decide_and. apply bool_decide_ext. split; [|by intros [-> ->]].
    intros Heq. apply app_inj_1 in Heq as [-> ->]; done. }
  rewrite Hd, CanBeCompressed_app in Ht. destruct (IsUtf8 this); cbn [negb].
  - symmetry in Ht. apply andb_true_iff in Ht as [Ht1 Ht2].
    mstep by (by apply StringIsEqualUint8Data_run). destruct (bool_decide (data a = t1)); [|done].
    by apply StringIsEqualUint8Data_run.
  - mstep by (apply StringsAreEqualUtf16_run). destruct (bool_decide (data a = t1)); [|done].
    apply StringsAreEqualUtf16_run.
Qed.

(** ** Search *)

Definition occurs (text pattern : list Z) (p : Z) : Prop :=
  take (length pattern) (drop (Z.to_nat p) text) = pattern.

#[export] Instance occurs_dec (text pattern : list Z) (p : Z) : Decision (occurs text pattern p).
Proof. unfold occurs. apply _. Defined.

(** The loop over the rest of the pattern. *)
Lemma rest_loop {S} (a b prea preb posta : list Z) (j k : Z) (fuel : nat) (st : S) :
  length a = length b -> lenZ prea = j -> lenZ preb = k -> (length a < fuel)%nat ->
  exists j', while_fuel fuel (rest_step (prea ++ a ++ posta) (preb ++ b) (j + lenZ a)) (j, k) st = (Ok j', st) /\
    (j' = j + lenZ a <-> a = b).
Proof.
  revert b prea preb j k fuel. induction a as [|x a IH]; intros [|y b] prea preb j k fuel Hl Ha Hb Hf;
    try done; (destruct fuel as [|fuel]; [simpl in Hf; lia|]); cbn [while_fuel].
  { exists j. rewrite lenZ_nil. mstep by (unfold rest_step; zb; reflexivity). split; [done|]. split; [done|lia]. }
  rewrite lenZ_cons. pose proof (lenZ_nonneg a).
  assert (rest_step (S := S) (prea ++ (x :: a) ++ posta) (preb ++ y :: b) (j + (lenZ a + 1)) (j, k) st
          = (Ok (if x =? y then inl (j + 1, k + 1) else inr j), st)) as Hstep.
  { unfold rest_step. zb. simpl app. mstep by (by apply span_get_mid). mstep by (by apply span_get_mid). done. }
  mstep with Hstep. destruct (Z.eqb_spec x y) as [->|Hne].
  - specialize (IH b (prea ++ [y]) (preb ++ [y]) (j + 1) (k + 1) fuel). rewrite <- !app_assoc in IH.
    destruct IH as (j' & Hrun & Hj'); [by injection Hl|lenz|lenz|simpl in Hf; lia|].
    exists j'. replace (j + (lenZ a + 1)) with (j + 1 + lenZ a) by lia. split; [exact Hrun|].
    rewrite Hj'. split; congruence.
  - exists j. split; [done|]. split; [lia|congruence].
Qed.

Lemma occurs_split (pre mid post pattern : list Z) :
  length mid = length pattern -> occurs (pre ++ mid ++ post) pattern (lenZ pre) <-> mid = pattern.
Proof. intros Hl. unfold occurs, lenZ. by rewrite Nat2Z.id, drop_app_length, <- Hl, take_app_length. Qed.

Lemma occurs_head (text rest : list Z) (first p : Z) :
  occurs text (first :: rest) p -> text !! Z.to_nat p = Some first.
Proof.
  unfold occurs. intros H. assert (take (length (first :: rest)) (drop (Z.to_nat p) text) !! O = Some first) as H0
    by (by rewrite H).
  rewrite lookup_take_lt, lookup_drop, Nat.add_0_r in H0 by (simpl; lia). done.
Qed.

Section search.
Context {S : Type} (st : S) (text rest : list Z) (first : Z).
Notation pattern := (first :: rest).
Notation max := (lenZ text - lenZ pattern).

(** Matching the rest of the pattern at a position whose first unit fits. *)
Lemma match_rest (i : Z) :
  0 <= i <= max -> text !! Z.to_nat i = Some first ->
  exists j, while_fuel (Datatypes.S (length pattern)) (rest_step text pattern (i + 1 + lenZ pattern - 1)) (i + 1, 1) st
              = (Ok j, st) /\ (j = i + 1 + lenZ pattern - 1 <-> occurs text pattern i).
Proof.
  rewrite lenZ_cons. intros Hi Hf. pose proof (lenZ_nonneg rest).
  destruct (split_at text i) as (pre & x & tl & Htext & Hpre); [lia|].
  rewrite Htext, <- Hpre in Hf. unfold lenZ in Hf. rewrite Nat2Z.id, list_lookup_middle in Hf by done. injection Hf as ->.
  destruct (split_len tl (lenZ rest)) as (mid & post & -> & Hm); [rewrite Htext in *; lenz|].
  assert (length mid = length rest) as Hm' by lenz.
  destruct (rest_loop mid rest (pre ++ [first]) [first] post (i + 1) 1 (Datatypes.S (length pattern)) st)
    as (j & Hrun & Hj); [done|lenz|done|simpl; lia|].
  exists j. rewrite Htext. rewrite <- app_assoc in Hrun.
  replace (i + 1 + (lenZ rest + 1) - 1) with (i + 1 + lenZ mid) by lia. split; [exact Hrun|]. rewrite Hj, <- Hpre.
  rewrite app_comm_cons, occurs_split by (simpl; lia). split; congruence.
Qed.

Lemma span_get_Some (i c : Z) : 0 <= i -> text !! Z.to_nat i = Some c -> span_get text i st = (Ok c, st).
Proof. intros Hi Hc. rewrite <- (Z2Nat.id i) by done. by apply span_get_lookup. Qed.

Lemma text_at (i : Z) : 0 <= i <= max -> exists c, text !! Z.to_nat i = Some c.
Proof. intros Hi. apply lookup_lt_is_Some_2. rewrite lenZ_cons in Hi. pose proof (lenZ_nonneg rest). unfold lenZ in *. lia. Qed.

(** The loop that looks for the first unit. *)
Lemma skip_loop (fuel : nat) (i : Z) :
  0 <= i <= max + 1 -> (Z.to_nat (max + 1 - i) < fuel)%nat ->
  exists i', while_fuel fuel (skip_step text first max) i st = (Ok i', st) /\ i <= i' <= max + 1 /\
    (forall p, i <= p < i' -> ~ occurs text pattern p) /\ (i' <= max -> text !! Z.to_nat i' = Some first).
Proof.
  revert i. induction fuel as [|fuel IH]; intros i Hi Hf; [lia|]. cbn [while_fuel].
  destruct (Z.leb_spec i max) as [Hle|Hgt].
  2: { exists i. mstep by (unfold skip_step; rewrite (proj2 (Z.leb_gt _ _) Hgt); reflexivity). split_and!; [done|lia|lia|lia|lia]. }
  destruct (text_at i) as [c Hc]; [lia|].
  mstep by (unfold skip_step; rewrite (proj2 (Z.leb_le _ _) Hle); mstep by (apply span_get_Some; [lia|done]); reflexivity).
  destruct (Z.eqb_spec c first) as [->|Hne]; cbn [negb].
  { exists i. split_and!; [done|lia|lia|lia|done]. }
  destruct (IH (i + 1)) as (i' & Hrun & Hb & Hno & Hat); [lia|lia|]. exists i'.
  split_and!; [exact Hrun|lia|lia| |done]. intros p Hp. destruct (decide (p = i)) as [->|]; [|apply Hno; lia].
  intros H%occurs_head. congruence.
Qed.

(** [r] is the first occurrence in [i, max], or -1. *)
Definition first_occurrence (i r : Z) : Prop :=
  (r = -1 /\ forall p, i <= p <= max -> ~ occurs text pattern p) \/
  (i <= r <= max /\ occurs text pattern r /\ forall p, i <= p < r -> ~ occurs text pattern p).

Lemma first_occurrence_later (i i' r : Z) :
  i <= i' -> (forall p, i <= p < i' -> ~ occurs text pattern p) -> first_occurrence i' r -> first_occurrence i r.
Proof.
  intros Hi Hno [[-> H]|(Hr & Ho & H)]; [left|right]; split_and!; try done; try lia;
    intros p Hp; destruct (decide (p < i')); [apply Hno; lia|apply H; lia|apply Hno; lia|apply H; lia].
Qed.
End search.

Section search_loops.
Context {S : Type} (st : S) (text rest : list Z) (first : Z).
Notation pattern := (first :: rest).
Notation max := (lenZ text - lenZ pattern).

(** One round: it ends with the first occurrence or moves on past positions
    where there is none. *)
Lemma index_step_run (i : Z) :
  0 <= i <= max ->
  exists r, index_step text pattern first max i st = (Ok r, st) /\
    match r with
    | inl i' => i < i' /\ forall p, i <= p < i' -> p <= max -> ~ occurs text pattern p
    | inr k => first_occurrence text rest first i k
    end.
Proof.
  intros Hi. destruct (text_at text rest first i Hi) as [c Hc].
  assert (exists i', (if negb (c =? first)
            then while_fuel (Datatypes.S (Z.to_nat (max + 1 - i))) (skip_step text first max) (i + 1)
            else mret i) st = (Ok i', st) /\ i <= i' <= max + 1 /\
            (forall p, i <= p < i' -> ~ occurs text pattern p) /\ (i' <= max -> text !! Z.to_nat i' = Some first))
    as (i' & Hrun & Hb & Hno & Hat).
  { destruct (Z.eqb_spec c first) as [->|Hne]; cbn [negb].
    - exists i. split_and!; [done|lia|lia|lia|done].
    - destruct (skip_loop st text rest first (Datatypes.S (Z.to_nat (max + 1 - i))) (i + 1)) as (i' & ? & ? & Hno & ?); [lia|lia|].
      exists i'. split_and!; [done|lia|lia| |done]. intros p Hp.
      destruct (decide (p = i)) as [->|]; [|apply Hno; lia]. intros Hx%occurs_head. congruence. }
  unfold index_step. rewrite (proj2 (Z.leb_le i max)) by lia. setoid_rewrite bind_Ok at 1.
  2: { apply span_get_Some; [lia|done]. }
  setoid_rewrite (bind_Ok _ _ _ _ _ Hrun). destruct (Z.leb_spec i' max) as [Hle|Hgt]; cbv beta iota zeta.
  - destruct (match_rest st text rest first i' ltac:(lia) (Hat Hle)) as (j & Hj & Hocc).
    setoid_rewrite (bind_Ok _ _ _ _ _ Hj). eexists. split; [done|].
    destruct (Z.eqb_spec j (i' + 1 + lenZ pattern - 1)) as [E|E].
    + right. split_and!; [lia|lia|by apply Hocc|done].
    + split; [lia|]. intros p Hp _. destruct (decide (p = i')) as [->|]; [by rewrite <- Hocc|apply Hno; lia].
  - eexists. split; [done|]. split; [lia|]. intros p Hp Hm. apply Hno. lia.
Qed.

Lemma index_loop (fuel : nat) (i : Z) :
  0 <= i -> (Z.to_nat (max + 1 - i) < fuel)%nat ->
  exists r, while_fuel fuel (index_step text pattern first max) i st = (Ok r, st) /\
    first_occurrence text rest first i r.
Proof.
  revert i. induction fuel as [|fuel IH]; intros i Hi Hf; [lia|]. cbn [while_fuel].
  destruct (Z.leb_spec i max) as [Hle|Hgt].
  - destruct (index_step_run i ltac:(lia)) as (r & Hrun & Hr). mstep with Hrun. destruct r as [i'|k].
    + destruct Hr as [Hlt Hno]. destruct (IH i') as (r & Hrun' & Hr); [lia|lia|]. exists r. split; [exact Hrun'|].
      destruct (decide (i' <= max + 1)); [apply (first_occurrence_later text rest first i i'); [lia| |done]|].
      * intros p Hp. apply Hno; lia.
      * destruct Hr as [[-> _]|(? & _)]; [|lia]. left. split; [done|]. intros p Hp. apply Hno; lia.
    + by exists k.
  - exists (-1). mstep by (unfold index_step; rewrite (proj2 (Z.leb_gt _ _) Hgt); reflexivity).
    split; [done|]. left. split; [done|lia].
Qed.

(** The loop of LastIndexOf over the rest of the pattern. *)
Lemma last_rest_loop (a b prea preb posta : list Z) (fuel : nat) (i : Z) :
  pattern = preb ++ b -> text = prea ++ a ++ posta -> length a = length b -> lenZ prea = i + lenZ preb ->
  (length a < fuel)%nat ->
  exists j, while_fuel fuel (last_rest_step text pattern i) (lenZ preb) st = (Ok j, st) /\
    (j = lenZ pattern <-> a = b).
Proof.
  intros Hp Ht. rewrite Hp, Ht. clear Hp Ht.
  revert b prea preb fuel. induction a as [|x a IH]; intros [|y b] prea preb fuel Hl Ha Hf; try done;
    (destruct fuel as [|fuel]; [simpl in Hf; lia|]); cbn [while_fuel].
  { exists (lenZ preb). rewrite app_nil_r. mstep by (unfold last_rest_step; zb; reflexivity). done. }
  assert (last_rest_step (S := S) (prea ++ (x :: a) ++ posta) (preb ++ y :: b) i (lenZ preb) st
          = (Ok (if y =? x then inl (lenZ preb + 1) else inr (lenZ preb)), st)) as Hstep.
  { unfold last_rest_step. rewrite lenZ_app, lenZ_cons. pose proof (lenZ_nonneg b). zb. simpl app.
    mstep by (by apply span_get_mid). mstep by (by apply span_get_mid). by destruct (y =? x). }
  mstep with Hstep. destruct (Z.eqb_spec y x) as [->|Hne].
  - specialize (IH b (prea ++ [x]) (preb ++ [x]) fuel). rewrite <- !app_assoc in IH.
    destruct IH as (j & Hrun & Hj); [by injection Hl|lenz|simpl in Hf; lia|].
    exists j. replace (lenZ (preb ++ [x])) with (lenZ preb + 1) in Hrun by lenz. split; [exact Hrun|].
    cbn [app] in Hj. rewrite Hj. split; congruence.
  - exists (lenZ preb). split; [done|]. rewrite lenZ_app, lenZ_cons. pose proof (lenZ_nonneg b).
    split; [lia|congruence].
Qed.

Lemma last_step_run (i : Z) :
  0 <= i <= max ->
  last_step text pattern first i st = (Ok (if bool_decide (occurs text pattern i) then Some i else None), st).
Proof.
  intros Hi. destruct (text_at text rest first i Hi) as [c Hc]. unfold last_step.
  mstep by (apply span_get_Some; [lia|done]).
  destruct (Z.eqb_spec c first) as [->|Hne]; cbn [negb].
  2: { rewrite bool_decide_eq_false_2; [done|]. intros Hx%occurs_head. congruence. }
  rewrite lenZ_cons in Hi. pose proof (lenZ_nonneg rest).
  destruct (split_at text i) as (pre & x & tl & Htext & Hpre); [lia|].
  rewrite Htext, <- Hpre in Hc. unfold lenZ in Hc. rewrite Nat2Z.id, list_lookup_middle in Hc by done. injection Hc as ->.
  destruct (split_len tl (lenZ rest)) as (mid & post & -> & Hm); [rewrite Htext in *; lenz|].
  destruct (last_rest_loop mid rest (pre ++ [first]) [first] post (Datatypes.S (length pattern)) i)
    as (j & Hrun & Hj); [done|by rewrite <- app_assoc|lenz|lenz|simpl; lenz|].
  change (lenZ [first]) with 1 in Hrun. mstep with Hrun. mcbn. do 2 f_equal.
  assert (occurs text pattern i <-> j = lenZ pattern) as Hocc.
  { rewrite Htext, <- Hpre, app_comm_cons, occurs_split, Hj by (simpl; lenz). split; congruence. }
  destruct (Z.eqb_spec j (lenZ pattern)); case_bool_decide; tauto.
Qed.
End search_loops.

Lemma occurs_compressed (text pattern : list Z) (p : Z) :
  occurs text pattern p -> CanBeCompressed text = true -> CanBeCompressed pattern = true.
Proof.
  unfold occurs, CanBeCompressed. intros <-. rewrite !forallb_forall. intros H c Hc. apply H.
  rewrite <- (take_drop (Z.to_nat p) text), in_app_iff. right.
  rewrite <- (take_drop (length pattern) (drop (Z.to_nat p) text)), in_app_iff. by left.
Qed.

(** C35: IndexOf finds the first occurrence of a non-empty pattern from the
    position on (from 0 for a negative position), and -1 when there is none,
    whatever the encodings are. *)
Theorem IndexOf_spec {S} (receiver search : EcmaString) (first : Z) (rest : list Z) (pos : Z) (st : S) :
  wf receiver -> wf search -> data search = first :: rest ->
  GetLength receiver < 2 ^ 30 -> GetLength search < 2 ^ 30 -> INT32_MIN <= pos <= INT32_MAX ->
  exists r, IndexOf receiver search pos st = (Ok r, st) /\
    first_occurrence (data receiver) rest first (Z.max 0 pos) r.
Proof.
  intros [Hr _] [Hs _] Hd Hlr Hls Hpos. unfold IndexOf, GetLength, INT32_MIN, INT32_MAX in *. rewrite Hd in *.
  pose proof (lenZ_nonneg rest). pose proof (lenZ_nonneg (data receiver)).
  assert (forall p0, lenZ (data receiver) - lenZ (first :: rest) < p0 ->
    first_occurrence (data receiver) rest first p0 (-1)) as Hnone by (intros p0 Hp0; left; split; [done|lia]).
  rewrite lenZ_cons in *. destruct (Z.ltb_spec (lenZ (data receiver)) pos).
  { exists (-1). split; [done|apply Hnone; lia]. }
  zb. replace (if pos <? 0 then 0 else pos) with (Z.max 0 pos) by (destruct (Z.ltb_spec pos 0); lia).
  replace (i32 (lenZ (data receiver) - _)) with (lenZ (data receiver) - (lenZ rest + 1)) by (unfold i32; rewrite Z.mod_small; lia).
  replace (i32 (Z.max 0 pos + _)) with (Z.max 0 pos + (lenZ rest + 1)) by (unfold i32; rewrite Z.mod_small; lia).
  destruct (Z.ltb_spec (lenZ (data receiver) - (lenZ rest + 1)) 0); [exists (-1); split; [done|apply Hnone; lia]|].
  destruct (Z.ltb_spec (lenZ (data receiver)) (Z.max 0 pos + (lenZ rest + 1))); [exists (-1); split; [done|apply Hnone; lia]|].
  assert (exists r, IndexOfSpan (data receiver) (first :: rest) (Z.max 0 pos) (lenZ (data receiver) - (lenZ rest + 1)) st
                    = (Ok r, st) /\ first_occurrence (data receiver) rest first (Z.max 0 pos) r) as Hrun.
  { unfold IndexOfSpan. rewrite lenZ_cons. zb. mstep. mstep.
    rewrite <- (lenZ_cons first rest). apply index_loop; rewrite ?lenZ_cons; lia. }
  rewrite Hs, Hr. destruct (CanBeCompressed (first :: rest)) eqn:Hcs, (CanBeCompressed (data receiver)) eqn:Hcr; [done..| |done].
  exists (-1). split; [done|]. left. split; [done|]. intros p _ Ho. by rewrite (occurs_compressed _ _ _ Ho Hcr) in Hcs.
Qed.

(** [r] is the last occurrence in [0, i], or -1. *)
Definition last_occurrence (text pattern : list Z) (i r : Z) : Prop :=
  (r = -1 /\ forall p, 0 <= p <= i -> ~ occurs text pattern p) \/
  (0 <= r <= i /\ occurs text pattern r /\ forall p, r < p <= i -> ~ occurs text pattern p).

Lemma last_loop {S} (text rest : list Z) (first : Z) (n : nat) (st : S) :
  Z.of_nat n <= lenZ text - lenZ (first :: rest) + 1 ->
  exists r, find_down n (Z.of_nat n - 1) (last_step text (first :: rest) first) st = (Ok r, st) /\
    last_occurrence text (first :: rest) (Z.of_nat n - 1) (default (-1) r).
Proof.
  induction n as [|n IH]; intros Hn.
  { exists None. split; [done|]. left. split; [done|]. lia. }
  cbn [find_down]. mstep by (apply last_step_run; lia). case_bool_decide as Ho.
  - eexists. split; [done|]. right. simpl. split_and!; [lia|lia|done|lia].
  - replace (Z.of_nat (Datatypes.S n) - 1 - 1) with (Z.of_nat n - 1) by lia.
    destruct (IH ltac:(lia)) as (r & Hrun & Hr). exists r. split; [exact Hrun|].
    assert (forall p, Z.of_nat n - 1 < p <= Z.of_nat (Datatypes.S n) - 1 -> ~ occurs text (first :: rest) p) as Htop.
    { intros p Hp. by replace p with (Z.of_nat (Datatypes.S n) - 1) by lia. }
    destruct Hr as [[E Hno]|(Hb & Hocc & Hno)]; [left|right]; split_and!; try done; try lia;
      intros p Hp; (destruct (decide (p <= Z.of_nat n - 1)); [apply Hno; lia|apply Htop; lia]).
Qed.

(** LastIndexOf finds the last occurrence of a non-empty pattern that
    starts at the position or before it, and -1 when there is none. *)
Theorem LastIndexOf_spec {S} (receiver search : EcmaString) (first : Z) (rest : list Z) (pos : Z) (st : S) :
  wf receiver -> wf search -> data search = first :: rest ->
  GetLength receiver < 2 ^ 30 -> GetLength search < 2 ^ 30 -> INT32_MIN <= pos <= INT32_MAX ->
  exists r, LastIndexOf receiver search pos st = (Ok r, st) /\
    last_occurrence (data receiver) (data search)
      (Z.min (Z.max 0 pos) (GetLength receiver - GetLength search)) r.
Proof.
  intros [Hr _] [Hs _] Hd Hlr Hls Hpos. unfold LastIndexOf, GetLength, INT32_MIN, INT32_MAX in *. rewrite Hd in *.
  pose proof (lenZ_nonneg rest). pose proof (lenZ_nonneg (data receiver)).
  rewrite lenZ_cons in *. destruct (Z.ltb_spec (lenZ (data receiver)) (lenZ rest + 1)).
  { exists (-1). split; [done|]. left. split; [done|lia]. }
  replace (if pos <? 0 then 0 else pos) with (Z.max 0 pos) by (destruct (Z.ltb_spec pos 0); lia).
  replace (if lenZ (data receiver) <? Z.max 0 pos then lenZ (data receiver) else Z.max 0 pos)
    with (Z.min (Z.max 0 pos) (lenZ (data receiver))) by (destruct (Z.ltb_spec (lenZ (data receiver)) (Z.max 0 pos)); lia).
  replace (i32 (lenZ (data receiver) - _)) with (lenZ (data receiver) - (lenZ rest + 1)) by (unfold i32; rewrite Z.mod_small; lia).
  replace (i32 (Z.min _ _ + _)) with (Z.min (Z.max 0 pos) (lenZ (data receiver)) + (lenZ rest + 1))
    by (unfold i32; rewrite Z.mod_small; lia).
  set (p := Z.min (Z.max 0 pos) (lenZ (data receiver) - (lenZ rest + 1))).
  replace (if _ <? _ then _ else _) with p
    by (unfold p; destruct (Z.ltb_spec (lenZ (data receiver)) (Z.min (Z.max 0 pos) (lenZ (data receiver)) + (lenZ rest + 1))); lia).
  zb. assert (exists r, LastIndexOfSpan (data receiver) (first :: rest) p st = (Ok r, st) /\
                    last_occurrence (data receiver) (first :: rest) p r) as Hrun.
  { unfold LastIndexOfSpan. rewrite lenZ_cons. zb. mstep. mstep.
    destruct (last_loop (data receiver) rest first (Z.to_nat (p + 1)) st) as (r & Hrun & Hocc).
    { rewrite lenZ_cons. unfold p. lia. }
    replace (Z.of_nat (Z.to_nat (p + 1)) - 1) with p in * by (unfold p; lia).
    exists (default (-1) r). mstep with Hrun. done. }
  rewrite Hs, Hr. destruct (CanBeCompressed (first :: rest)) eqn:Hcs, (CanBeCompressed (data receiver)) eqn:Hcr; [done..| |done].
  exists (-1). split; [done|]. left. split; [done|]. intros q _ Ho. by rewrite (occurs_compressed _ _ _ Ho Hcr) in Hcs.
Qed.

(** ** Witnesses *)

Definition str (units : list Z) : EcmaString := CreateFromUtf16 units.

Lemma str_wf (units : list Z) : forallb (fun c => (0 <=? c) && (c <? 2 ^ 16)) units = true -> wf (str units).
Proof.
  intros H. split; [done|]. apply list.Forall_forall. intros c Hc%list_elem_of_In.
  rewrite forallb_forall in H. specialize (H c Hc). lia.
Qed.

Lemma merged_hash_concat_witness :
  merged_hash (str [97; 98]) (str [49]) = ComputeHashcode (Concat (str [97; 98]) (str [49])) /\
  merged_hash (str [49; 50]) (str [51]) = 123 + 2 ^ 31.
Proof.
  split.
  - apply merged_hash_concat; [by apply str_wf|by apply str_wf|]. right. right. left. by split.
  - rewrite (merged_hash_concat (str [49; 50]) (str [51])); [reflexivity|by apply str_wf|by apply str_wf|].
    right. right. right. by split_and!.
Defined.

(** The hash with which "12ab" is found is not its hash. *)
Lemma merged_hash_after_numeral_witness :
  merged_hash (str [49; 50]) (str [97; 98]) <> ComputeHashcode (Concat (str [49; 50]) (str [97; 98])).
Proof.
  rewrite (merged_hash_after_numeral (str [49; 50]) (str [97; 98])); [discriminate|by apply str_wf|by apply str_wf|done|done].
Defined.

(** "1\u0130" gets the hash of the integer 10. *)
Lemma ComputeHashcodeUtf16_agrees_witness :
  ComputeHashcodeUtf16 [0x31; 0x130] = 10 + 2 ^ 31 /\
  ComputeHashcodeUtf16 [0x31; 0x130] <> ComputeHashcode (CreateFromUtf16 [0x31; 0x130]).
Proof.
  split; [reflexivity|]. rewrite ComputeHashcodeUtf16_agrees; [discriminate|].
  exact (proj2 (str_wf [0x31; 0x130] eq_refl)).
Defined.

Lemma ToElementIndex_spec_witness :
  ToElementIndex (str [52; 50]) tt = (Ok (Some 42), tt) /\ ToElementIndex (str [48; 49]) tt = (Ok None, tt).
Proof.
  split.
  - exact (ToElementIndex_spec (str [52; 50]) tt (str_wf [52; 50] eq_refl) (or_introl eq_refl)).
  - exact (ToElementIndex_spec (str [48; 49]) tt (str_wf [48; 49] eq_refl) (or_introl eq_refl)).
Defined.

Lemma Compare_lex_witness : Compare (str [97; 98]) (str [97; 0x4f60]) tt = (Ok (98 - 0x4f60), tt).
Proof. exact (proj1 (Compare_lex (str [97; 98]) (str [97; 0x4f60]) tt eq_refl eq_refl)). Defined.

(** An ASCII prefix of a text with other characters is not recognised. *)
Lemma IsSubStringAt_spec_witness :
  IsSubStringAt (str [97; 0x4f60]) (str [97]) 0 tt = (Fault, tt) /\
  IsSubStringAt (str [97; 98]) (str [98]) 1 tt = (Ok true, tt).
Proof.
  split.
  - rewrite (IsSubStringAt_spec (str [97; 0x4f60]) (str [97]) 0 tt); [reflexivity|done|done].
  - rewrite (IsSubStringAt_spec (str [97; 98]) (str [98]) 1 tt); [reflexivity|done|done].
Defined.

Lemma IndexOf_spec_witness :
  exists r, IndexOf (str [97; 98; 97; 98; 99]) (str [97; 98; 99]) 0 tt = (Ok r, tt) /\
    first_occurrence [97; 98; 97; 98; 99] [98; 99] 97 0 r.
Proof.
  apply (IndexOf_spec (str [97; 98; 97; 98; 99]) (str [97; 98; 99]) 97 [98; 99] 0 tt);
    [by apply str_wf|by apply str_wf|done|done|done|done].
Defined.

Lemma LastIndexOf_spec_witness :
  exists r, LastIndexOf (str [97; 98; 97; 98; 99]) (str [97; 98]) 9 tt = (Ok r, tt) /\
    last_occurrence [97; 98; 97; 98; 99] [97; 98] 3 r.
Proof.
  apply (LastIndexOf_spec (str [97; 98; 97; 98; 99]) (str [97; 98]) 97 [98] 9 tt);
    [by apply str_wf|by apply str_wf|done|done|done|done].
Defined.

End EcmaString.
