(* ===== verification/StringTable.v ===== *)
(** * EcmaStringTable: ecma_string_table.h, ecma_string_table.cpp.

    The table of interned strings: a multimap from hash codes to string objects.
    The state is the strings of the heap by address (their cached hashes and
    intern flags change) and the table.  The operations run under the table's
    mutex, one at a time.  Flattening, which gives a string with the same units,
    is the identity on the flat strings of EcmaString.v. *)
From stdpp Require Import relations.
From S2P Require Import Prelude TaggedValue EcmaString.
Local Open Scope Z_scope.

Module StringTable.
Import EcmaString.

Record EcmaStringTable : Type := mkTable {
  strings : list EcmaString;
  table_ : list (Z * nat);
}.

Definition set_strings (l : list EcmaString) (t : EcmaStringTable) : EcmaStringTable := mkTable l (table_ t).

(** The object at an address. *)
Definition load (a : nat) : M EcmaStringTable EcmaString := fun t =>
  (match strings t !! a with Some s => Ok s | None => Fault end, t).

Definition store (a : nat) (s : EcmaString) : M EcmaStringTable unit :=
  modify (fun t => set_strings (<[a := s]> (strings t)) t).

(** Allocate an object. *)
Definition alloc (s : EcmaString) : M EcmaStringTable nat := fun t =>
  (Ok (length (strings t)), set_strings (strings t ++ [s]) t).

(** GetHashcode on an object fills its cache. *)
Definition hashcode (a : nat) : M EcmaStringTable Z :=
  s ← load a;
  let '(h, s') := GetHashcode s in
  store a s';;
  mret h.

(** The address of the empty string, which is interned first. *)
Definition emptyStr : nat := O.

(** The loop over equal_range(hashCode). *)
Fixpoint find_equal (test : nat -> EcmaString -> M EcmaStringTable bool) (range : list (Z * nat)) :
    M EcmaStringTable (option nat) :=
  match range with
  | [] => mret None
  | (_, foundString) :: range' =>
      s ← load foundString;
      b ← test foundString s;
      if (b : bool) then mret (Some foundString) else find_equal test range'
  end.

Definition equal_range (hashCode : Z) : M EcmaStringTable (list (Z * nat)) :=
  gets (fun t => List.filter (fun item => item.1 =? hashCode) (table_ t)).

(** GetStringThreadUnsafe(firstString, secondString) *)
Definition GetString_concat (firstString secondString : nat) : M EcmaStringTable (option nat * Z) :=
  s1 ← load firstString;
  s2 ← load secondString;
  let '(hashCode, isInteger) := ComputeRawHashcode s1 in
  let hashCode := ComputeHashcodeSeeded hashCode isInteger s2 in
  range ← equal_range hashCode;
  r ← find_equal (fun _ foundString => EqualToSplicedString foundString s1 s2) range;
  mret (r, hashCode).

(** GetStringThreadUnsafe(utf8Data, utf8Len, true): ASCII bytes. *)
Definition GetString_utf8 (utf8Data : list Z) : M EcmaStringTable (option nat * Z) :=
  let hashCode := ComputeHashcodeUtf8 utf8Data [] true in
  range ← equal_range hashCode;
  r ← find_equal (fun _ foundString => StringIsEqualUint8Data foundString utf8Data) range;
  mret (r, hashCode).

(** GetStringThreadUnsafe(utf16Data, utf16Len) *)
Definition GetString_utf16 (utf16Data : list Z) : M EcmaStringTable (option nat * Z) :=
  let hashCode := ComputeHashcodeUtf16 utf16Data in
  range ← equal_range hashCode;
  r ← find_equal (fun _ foundString => StringsAreEqualUtf16 foundString utf16Data) range;
  mret (r, hashCode).

(** GetStringThreadUnsafe(string) *)
Definition GetString (string : nat) : M EcmaStringTable (option nat) :=
  h ← hashcode string;
  range ← equal_range h;
  find_equal (fun foundString s1 =>
    s2 ← load string;
    StringsAreEqual (Nat.eqb foundString string) s1 s2) range.

Definition InternStringThreadUnsafe (string : nat) : M EcmaStringTable unit :=
  s ← load string;
  if IsInternString s then mret tt
  else
    h ← hashcode string;
    modify (fun t => mkTable (strings t) ((h, string) :: table_ t));;
    s ← load string;
    store string (SetIsInternString s).

Definition set_hash (h : Z) (a : nat) : M EcmaStringTable unit :=
  s ← load a;
  store a (SetMixHashcode h s).

(** Concat on objects: with an empty part it is the other object itself. *)
Definition ConcatObject (left right : nat) : M EcmaStringTable nat :=
  strLeft ← load left;
  strRight ← load right;
  if GetLength strLeft + GetLength strRight =? 0 then mret emptyStr
  else if GetLength strLeft =? 0 then mret right
  else if GetLength strRight =? 0 then mret left
  else alloc (Concat strLeft strRight).

(** GetOrInternString(vm, firstString, secondString) *)
Definition GetOrInternString_concat (firstString secondString : nat) : M EcmaStringTable nat :=
  result ← GetString_concat firstString secondString;
  match (result : option nat * Z) with
  | (Some found, _) => mret found
  | (None, hashCode) =>
      concatString ← ConcatObject firstString secondString;
      set_hash hashCode concatString;;
      InternStringThreadUnsafe concatString;;
      mret concatString
  end.

(** GetOrInternString(vm, utf8Data, utf8Len, true), and with it
    CreateAndInternStringNonMovable and CreateAndInternStringReadOnly, which
    differ in the space of the object. *)
Definition GetOrInternString_utf8 (utf8Data : list Z) : M EcmaStringTable nat :=
  result ← GetString_utf8 utf8Data;
  match (result : option nat * Z) with
  | (Some found, _) => mret found
  | (None, hashCode) =>
      str ← alloc (mkString true false 0 utf8Data);
      set_hash hashCode str;;
      InternStringThreadUnsafe str;;
      mret str
  end.

(** GetOrInternString(vm, utf16Data, utf16Len, canBeCompress) *)
Definition GetOrInternString_utf16 (utf16Data : list Z) (canBeCompress : bool) : M EcmaStringTable nat :=
  result ← GetString_utf16 utf16Data;
  match (result : option nat * Z) with
  | (Some found, _) => mret found
  | (None, hashCode) =>
      str ← alloc (mkString canBeCompress false 0 utf16Data);
      set_hash hashCode str;;
      InternStringThreadUnsafe str;;
      mret str
  end.

(** GetOrInternString(vm, string) *)
Definition GetOrInternString (string : nat) : M EcmaStringTable nat :=
  s ← load string;
  if IsInternString s then mret string
  else
    result ← GetString string;
    match result with
    | Some found => mret found
    | None => InternStringThreadUnsafe string;; mret string
    end.

Definition TryGetInternString (string : nat) : M EcmaStringTable (option nat) := GetString string.

(** InternEmptyString on the empty string at [emptyStr]. *)
Definition NewEcmaStringTable : EcmaStringTable :=
  (InternStringThreadUnsafe emptyStr (mkTable [CreateFromUtf16 []] [])).2.

(** ** The invariant *)

Definition hash_of (units : list Z) : Z := ComputeHashcode (CreateFromUtf16 units).

Lemma hash_of_data (s : EcmaString) : wf s -> ComputeHashcode s = hash_of (data s).
Proof. intros Hs. apply ComputeHashcode_data; [done| |done]. split; [done|]. apply Hs. Qed.

Definition obj_ok (s : EcmaString) : Prop := wf s /\ cache_ok s /\ GetLength s < 2 ^ 30.

(** The object at [a] is interned and has the units [d]. *)
Definition interned_as (t : EcmaStringTable) (a : nat) (d : list Z) : Prop :=
  exists s, strings t !! a = Some s /\ IsInternString s = true /\ data s = d.

Record wf_table (t : EcmaStringTable) : Prop := {
  objects_ok : forall a s, strings t !! a = Some s -> obj_ok s;
  entries_ok : forall h a, (h, a) ∈ table_ t -> exists d, interned_as t a d /\ h = hash_of d;
  interned_in : forall a d, interned_as t a d -> (hash_of d, a) ∈ table_ t;
  unique : forall a b d, interned_as t a d -> interned_as t b d -> a = b;
  empty_ok : interned_as t emptyStr [];
}.

(** Objects keep their units, and interned ones stay interned. *)
Definition keeps (t t' : EcmaStringTable) : Prop :=
  forall a s, strings t !! a = Some s ->
    exists s', strings t' !! a = Some s' /\ data s' = data s /\ (IsInternString s = true -> IsInternString s' = true).

#[export] Instance keeps_preorder : PreOrder keeps.
Proof.
  split.
  - intros t a s Ha. by exists s.
  - intros t1 t2 t3 H12 H23 a s Ha. destruct (H12 a s Ha) as (s' & Ha' & Hd & Hi).
    destruct (H23 a s' Ha') as (s'' & ? & ? & ?). exists s''. split_and!; [done|congruence|auto].
Qed.

Lemma keeps_interned (t t' : EcmaStringTable) (a : nat) (d : list Z) :
  keeps t t' -> interned_as t a d -> interned_as t' a d.
Proof.
  intros Hk (s & Ha & Hi & Hd). destruct (Hk a s Ha) as (s' & ? & ? & ?). exists s'. split_and!; [done|auto|congruence].
Qed.

(** ** Changing the objects *)

Lemma load_run (t : EcmaStringTable) (a : nat) (s : EcmaString) : strings t !! a = Some s -> load a t = (Ok s, t).
Proof. intros H. unfold load. by rewrite H. Qed.

(** Replace an object by one that differs in its cached hash. *)
Section update.
Context (t : EcmaStringTable) (a : nat) (s s' : EcmaString).
Context (Ha : strings t !! a = Some s) (Hd : data s' = data s) (Hi : IsInternString s' = IsInternString s).
Notation t' := (set_strings (<[a := s']> (strings t)) t).

Lemma update_at : strings t' !! a = Some s'.
Proof. simpl. apply list_lookup_insert_eq. by apply lookup_lt_Some in Ha. Qed.

Lemma update_interned (b : nat) (d : list Z) : interned_as t' b d <-> interned_as t b d.
Proof.
  unfold interned_as. destruct (decide (b = a)) as [->|Hne].
  - rewrite update_at, Ha. split; intros (? & [= <-] & ? & ?); eexists; split_and!; try done; congruence.
  - simpl. by rewrite list_lookup_insert_ne.
Qed.

Lemma update_wf : wf_table t -> obj_ok s' -> wf_table t'.
Proof.
  intros Hwf Hok. destruct Hwf as [H1 H2 H3 H4 H5]. split.
  - intros b sb. simpl. destruct (decide (b = a)) as [->|Hne].
    + pose proof update_at as Hat. simpl in Hat. rewrite Hat. by intros [= <-].
    + rewrite list_lookup_insert_ne by done. apply H1.
  - intros h b Hb. destruct (H2 h b Hb) as (d & ? & ?). exists d. by rewrite update_interned.
  - intros b d. rewrite update_interned. apply H3.
  - intros b b' d. rewrite !update_interned. apply H4.
  - by rewrite update_interned.
Qed.

Lemma update_keeps : keeps t t'.
Proof.
  intros b sb Hb. destruct (decide (b = a)) as [->|Hne].
  - exists s'. rewrite update_at. rewrite Ha in Hb. injection Hb as <-. split_and!; [done|done|congruence].
  - exists sb. simpl. by rewrite list_lookup_insert_ne.
Qed.
End update.

Lemma GetHashcode_same (s : EcmaString) :
  obj_ok s ->
  (GetHashcode s).1 = hash_of (data s) /\ data (GetHashcode s).2 = data s /\
  IsInternString (GetHashcode s).2 = IsInternString s /\ obj_ok (GetHashcode s).2.
Proof.
  intros (Hs & Hc & Hl). pose proof (GetHashcode_run s Hc) as [Hh Hm]. rewrite hash_of_data in * by done.
  split; [done|]. revert Hm. unfold GetHashcode. destruct (_ && _); simpl; [|by intros; split_and!].
  intros Hm. split_and!; [done|done|]. split_and!; [done| |done]. by right.
Qed.

Lemma hashcode_run (t : EcmaStringTable) (a : nat) (s : EcmaString) :
  wf_table t -> strings t !! a = Some s ->
  exists t' s', hashcode a t = (Ok (hash_of (data s)), t') /\ table_ t' = table_ t /\ strings t' !! a = Some s' /\
    data s' = data s /\ IsInternString s' = IsInternString s /\ wf_table t' /\ keeps t t' /\
    (forall b d, interned_as t' b d <-> interned_as t b d).
Proof.
  intros Hwf Ha. pose proof (objects_ok t Hwf a s Ha) as Hok. pose proof (GetHashcode_same s Hok) as (Hh & Hd & Hi & Hok').
  unfold hashcode. mstep by (by apply load_run). destruct (GetHashcode s) as [h s']. simpl in *. subst h.
  exists (set_strings (<[a := s']> (strings t)) t), s'. split; [done|]. split; [done|].
  split_and!; [by eapply update_at|done|done|by eapply update_wf|by eapply update_keeps|].
  intros b d. by apply (update_interned t a s s').
Qed.

Lemma set_hash_run (t : EcmaStringTable) (a : nat) (s : EcmaString) :
  wf_table t -> strings t !! a = Some s ->
  exists t', set_hash (hash_of (data s)) a t = (Ok tt, t') /\ table_ t' = table_ t /\
    strings t' !! a = Some (SetMixHashcode (hash_of (data s)) s) /\ wf_table t' /\ keeps t t' /\
    (forall b d, interned_as t' b d <-> interned_as t b d).
Proof.
  intros Hwf Ha. pose proof (objects_ok t Hwf a s Ha) as (Hs & Hc & Hl).
  unfold set_hash. mstep by (by apply load_run). eexists. split; [done|]. split; [done|].
  split_and!; [by eapply update_at| |by eapply update_keeps|].
  - eapply update_wf; [done|done|done|done|]. split_and!; [done| |done]. right. simpl.
    by rewrite <- hash_of_data.
  - intros b d. by apply (update_interned t a s (SetMixHashcode (hash_of (data s)) s)).
Qed.

Lemma alloc_run (t : EcmaStringTable) (s : EcmaString) :
  wf_table t -> obj_ok s -> IsInternString s = false ->
  exists t', alloc s t = (Ok (length (strings t)), t') /\ strings t' !! length (strings t) = Some s /\
    wf_table t' /\ keeps t t' /\ (forall b d, interned_as t' b d <-> interned_as t b d).
Proof.
  intros Hwf Hok Hi. eexists. split; [done|]. set (t' := set_strings _ _).
  assert (strings t' !! length (strings t) = Some s) as Hat by (simpl; by apply list_lookup_middle).
  assert (forall b d, interned_as t' b d <-> interned_as t b d) as Hint.
  { intros b d. unfold interned_as. destruct (decide (b < length (strings t))%nat) as [Hb|Hb].
    - simpl. by rewrite lookup_app_l.
    - rewrite (lookup_ge_None_2 (strings t) b) by lia. split; intros (s0 & Hs0 & Hi0 & _); [|done].
      simpl in Hs0. apply lookup_snoc_Some in Hs0 as [[? _]|[_ <-]]; [lia|congruence]. }
  split_and!; [done| | |done].
  - destruct Hwf as [H1 H2 H3 H4 H5]. split.
    + intros b sb Hb. simpl in Hb. apply lookup_snoc_Some in Hb as [[_ Hb]|[_ <-]]; [by eapply H1|done].
    + intros h b Hb. destruct (H2 h b Hb) as (d & ? & ?). exists d. by rewrite Hint.
    + intros b d. rewrite Hint. apply H3.
    + intros b b' d. rewrite !Hint. apply H4.
    + by rewrite Hint.
  - intros b sb Hb. exists sb. simpl. split_and!; [|done|done]. by apply lookup_app_l_Some.
Qed.

(** ** Looking a string up *)

Lemma find_equal_run (t : EcmaStringTable) (test : nat -> EcmaString -> M EcmaStringTable bool)
    (p : EcmaString -> bool) (range : list (Z * nat)) :
  (forall h a, (h, a) ∈ range -> exists s, strings t !! a = Some s /\ test a s t = (Ok (p s), t)) ->
  exists r, find_equal test range t = (Ok r, t) /\
    match r with
    | Some a => exists h s, (h, a) ∈ range /\ strings t !! a = Some s /\ p s = true
    | None => forall h a s, (h, a) ∈ range -> strings t !! a = Some s -> p s = false
    end.
Proof.
  induction range as [|[h a] range IH]; intros Hr.
  { exists None. split; [done|]. by intros h a s ?%not_elem_of_nil. }
  destruct (Hr h a ltac:(by left)) as (s & Ha & Htest). cbn [find_equal].
  setoid_rewrite (bind_Ok _ _ _ _ _ (load_run t a s Ha)). setoid_rewrite (bind_Ok _ _ _ _ _ Htest).
  destruct (p s) eqn:Hp.
  - exists (Some a). split; [done|]. exists h, s. split_and!; [by left|done|done].
  - destruct IH as (r & Hrun & Hres); [intros h' a' Hin; apply (Hr h'); by right|]. exists r. split; [exact Hrun|].
    destruct r as [a'|].
    + destruct Hres as (h' & s' & ? & ? & ?). exists h', s'. split_and!; [by right|done|done].
    + intros h' a' s' [[= -> ->]|Hin]%elem_of_cons Ha'; [congruence|by eapply Hres].
Qed.

(** A search with the hash of [d] and a test for the units [d]. *)
Lemma lookup_run (t : EcmaStringTable) (test : nat -> EcmaString -> M EcmaStringTable bool) (d : list Z) :
  wf_table t ->
  (forall a s, strings t !! a = Some s -> test a s t = (Ok (bool_decide (data s = d)), t)) ->
  exists r, find_equal test (List.filter (fun item => item.1 =? hash_of d) (table_ t)) t = (Ok r, t) /\
    match r with Some a => interned_as t a d | None => forall a, ~ interned_as t a d end.
Proof.
  intros Hwf Htest.
  assert (forall h a, (h, a) ∈ List.filter (fun item => item.1 =? hash_of d) (table_ t) <->
                      (h, a) ∈ table_ t /\ h = hash_of d) as Hrange.
  { intros h a. rewrite !list_elem_of_In, filter_In. simpl. by rewrite Z.eqb_eq. }
  destruct (find_equal_run t test (fun s => bool_decide (data s = d)) (List.filter (fun item => item.1 =? hash_of d) (table_ t)))
    as (r & Hrun & Hres).
  { intros h a [Hin _]%Hrange. destruct (entries_ok t Hwf h a Hin) as (d' & (s & Ha & _) & _). eauto. }
  exists r. split; [exact Hrun|]. destruct r as [a|].
  - destruct Hres as (h & s & [Hin _]%Hrange & Ha & Hd%bool_decide_eq_true).
    destruct (entries_ok t Hwf h a Hin) as (d' & (s' & Ha' & Hi & Hd') & _). exists s. split_and!; congruence.
  - intros a Hint. pose proof (interned_in t Hwf a d Hint) as Hin. destruct Hint as (s & Ha & _ & Hd).
    specialize (Hres (hash_of d) a s (proj2 (Hrange _ _) (conj Hin eq_refl)) Ha).
    by apply bool_decide_eq_false in Hres.
Qed.

(** ** Interning an object *)

Lemma intern_run (t : EcmaStringTable) (a : nat) (s : EcmaString) :
  wf_table t -> strings t !! a = Some s -> (forall b, ~ interned_as t b (data s)) ->
  exists t', InternStringThreadUnsafe a t = (Ok tt, t') /\ wf_table t' /\ keeps t t' /\ interned_as t' a (data s).
Proof.
  intros Hwf Ha Hno. unfold InternStringThreadUnsafe.
  setoid_rewrite (bind_Ok _ _ _ _ _ (load_run t a s Ha)).
  destruct (IsInternString s) eqn:Hi; [exfalso; apply (Hno a); by exists s|].
  destruct (hashcode_run t a s Hwf Ha) as (t1 & s1 & Hrun & _ & Ha1 & Hd1 & Hi1 & Hwf1 & Hk1 & Hsame).
  setoid_rewrite (bind_Ok _ _ _ _ _ Hrun).
  set (t2 := mkTable (<[a := SetIsInternString s1]> (strings t1)) ((hash_of (data s), a) :: table_ t1)).
  exists t2. split.
  { mstep. mstep by (by apply load_run). done. }
  assert (strings t2 !! a = Some (SetIsInternString s1)) as Ha2.
  { simpl. apply list_lookup_insert_eq. by apply lookup_lt_Some in Ha1. }
  assert (forall b, b <> a -> strings t2 !! b = strings t1 !! b) as Hother.
  { intros b Hb. simpl. by apply list_lookup_insert_ne. }
  assert (forall b d, interned_as t2 b d <-> b = a /\ d = data s \/ b <> a /\ interned_as t1 b d) as Hint.
  { intros b d. unfold interned_as. destruct (decide (b = a)) as [->|Hb].
    - rewrite Ha2. split; [intros (? & [= <-] & _ & Hd); simpl in Hd; left; split; congruence|].
      intros [[_ ->]|[? _]]; [|done]. eexists. by split_and!.
    - rewrite Hother by done. split; [by right|]. by intros [[? _]|[_ ?]]. }
  assert (forall b, ~ interned_as t1 b (data s)) as Hno1 by (intros b; by rewrite Hsame).
  split_and!.
  - destruct Hwf1 as [H1 H2 H3 H4 H5]. split.
    + intros b sb. destruct (decide (b = a)) as [->|Hb].
      * rewrite Ha2. intros [= <-]. exact (H1 a s1 Ha1).
      * rewrite Hother by done. apply H1.
    + intros h b [[= -> ->]|Hb]%elem_of_cons; [exists (data s); by rewrite Hint; auto|].
      destruct (H2 h b Hb) as (d & Hd & ->). exists d. split; [|done]. rewrite Hint. right. split; [|done].
      intros ->. destruct Hd as (u & Hu & Hui & _). congruence.
    + intros b d [[-> ->]|[_ Hb]]%Hint; [by left|right; by apply H3].
    + intros b b' d [[-> ->]|[_ Hb]]%Hint [[-> Hd]|[_ Hb']]%Hint; [done| | |by eapply H4].
      * by destruct (Hno1 b').
      * subst d. by destruct (Hno1 b).
    + rewrite Hint. right. split; [|done]. intros Heq. destruct H5 as (u & Hu & Hui & _). rewrite Heq in Hu. congruence.
  - etrans; [exact Hk1|]. intros b sb Hb. destruct (decide (b = a)) as [->|Hne].
    + exists (SetIsInternString s1). rewrite Ha2. rewrite Ha1 in Hb. injection Hb as <-. by split_and!.
    + exists sb. by rewrite Hother.
  - rewrite Hint. by left.
Qed.

(** ** GetOrInternString *)

(** A new object is created, given its hash, and interned. *)
Lemma create_run (t : EcmaStringTable) (s : EcmaString) :
  wf_table t -> obj_ok s -> IsInternString s = false -> (forall b, ~ interned_as t b (data s)) ->
  exists a t', (str ← alloc s; set_hash (hash_of (data s)) str;; InternStringThreadUnsafe str;; mret str) t = (Ok a, t') /\
    wf_table t' /\ keeps t t' /\ interned_as t' a (data s).
Proof.
  intros Hwf Hok Hi Hno.
  destruct (alloc_run t s Hwf Hok Hi) as (t1 & Hrun1 & Ha1 & Hwf1 & Hk1 & Hint1).
  destruct (set_hash_run t1 _ s Hwf1 Ha1) as (t2 & Hrun2 & _ & Ha2 & Hwf2 & Hk2 & Hint2).
  destruct (intern_run t2 _ _ Hwf2 Ha2) as (t3 & Hrun3 & Hwf3 & Hk3 & Hat).
  { intros b. simpl. by rewrite Hint2, Hint1. }
  exists (length (strings t)), t3. split.
  - mstep with Hrun1. mstep with Hrun2. mstep with Hrun3. done.
  - split_and!; [done|by etrans; [|etrans]|done].
Qed.

(** What an operation that interns the units [d] promises. *)
Definition interns (m : M EcmaStringTable nat) (d : list Z) (t : EcmaStringTable) : Prop :=
  exists a t', m t = (Ok a, t') /\ wf_table t' /\ keeps t t' /\ interned_as t' a d.

Lemma interns_utf16 (t : EcmaStringTable) (units : list Z) :
  wf_table t -> Forall (fun c => 0 <= c < 2 ^ 16) units -> lenZ units < 2 ^ 30 ->
  short_numeral (low_bytes units) = short_numeral units ->
  interns (GetOrInternString_utf16 units (CanBeCompressed units)) units t.
Proof.
  intros Hwf Hu Hl Hlow. unfold interns, GetOrInternString_utf16, GetString_utf16.
  rewrite (proj2 (utf16_hash_agrees units Hu) Hlow). fold (hash_of units).
  destruct (lookup_run t (fun _ s => StringsAreEqualUtf16 s units) units Hwf) as (r & Hrun & Hr).
  { intros a s _. apply StringsAreEqualUtf16_run. }
  erewrite bind_Ok by (mstep; mstep with Hrun; reflexivity). destruct r as [a|].
  - exists a, t. by split_and!.
  - destruct (create_run t (mkString (CanBeCompressed units) false 0 units) Hwf) as (a & t' & H); [|done|done|by exists a, t'].
    split_and!; [done|by left|done].
Qed.

Lemma ComputeHashcodeUtf8_hash (units : list Z) :
  CanBeCompressed units = true -> Forall (fun c => 0 <= c < 2 ^ 16) units ->
  ComputeHashcodeUtf8 units [] true = hash_of units.
Proof.
  intros Hc Hu. unfold ComputeHashcodeUtf8, hash_of. rewrite ComputeHashcode_spec by done.
  cbn [CreateFromUtf16 data]. unfold short_numeral. destruct (_ <? _) eqn:Hl; simpl; [|apply mix_raw].
  rewrite HashIntegerString_spec by (lia || by apply compressed_bytes). destruct (canonical units); [done|apply mix_raw].
Qed.

Lemma interns_utf8 (t : EcmaStringTable) (units : list Z) :
  wf_table t -> CanBeCompressed units = true -> Forall (fun c => 0 <= c < 2 ^ 16) units -> lenZ units < 2 ^ 30 ->
  interns (GetOrInternString_utf8 units) units t.
Proof.
  intros Hwf Hc Hu Hl. unfold interns, GetOrInternString_utf8, GetString_utf8. rewrite ComputeHashcodeUtf8_hash by done.
  destruct (lookup_run t (fun _ s => StringIsEqualUint8Data s units) units Hwf) as (r & Hrun & Hr).
  { intros a s Ha. apply StringIsEqualUint8Data_run; [|done]. by apply (objects_ok t Hwf a s). }
  erewrite bind_Ok by (mstep; mstep with Hrun; reflexivity). destruct r as [a|].
  - exists a, t. by split_and!.
  - destruct (create_run t (mkString true false 0 units) Hwf) as (a & t' & H); [|done|done|by exists a, t'].
    split_and!; [done|by left|done].
Qed.

Lemma GetString_run (t : EcmaStringTable) (a : nat) (s : EcmaString) :
  wf_table t -> strings t !! a = Some s ->
  exists r t', GetString a t = (Ok r, t') /\ wf_table t' /\ keeps t t' /\
    (exists s', strings t' !! a = Some s' /\ data s' = data s) /\
    match r with Some b => interned_as t' b (data s) | None => forall b, ~ interned_as t' b (data s) end.
Proof.
  intros Hwf Ha. unfold GetString.
  destruct (hashcode_run t a s Hwf Ha) as (t1 & s1 & Hrun & _ & Ha1 & Hd1 & _ & Hwf1 & Hk1 & _).
  setoid_rewrite (bind_Ok _ _ _ _ _ Hrun). rewrite <- Hd1.
  destruct (lookup_run t1 (fun foundString s1 => s2 ← load a; StringsAreEqual (Nat.eqb foundString a) s1 s2) (data s1) Hwf1)
    as (r & Hfind & Hr).
  { intros b sb Hb. mstep by (by apply load_run). destruct (Nat.eqb_spec b a) as [->|Hne].
    - rewrite Ha1 in Hb. injection Hb as <-. by rewrite bool_decide_eq_true_2.
    - pose proof (objects_ok t1 Hwf1 b sb Hb) as (? & ? & _). pose proof (objects_ok t1 Hwf1 a s1 Ha1) as (? & ? & _).
      by apply StringsAreEqual_run. }
  exists r, t1. split; [|split_and!; [done|done|by exists s1|by destruct r]]. mstep. exact Hfind.
Qed.

Lemma interns_string (t : EcmaStringTable) (a : nat) (s : EcmaString) :
  wf_table t -> strings t !! a = Some s -> interns (GetOrInternString a) (data s) t.
Proof.
  intros Hwf Ha. unfold interns, GetOrInternString. setoid_rewrite (bind_Ok _ _ _ _ _ (load_run t a s Ha)).
  destruct (IsInternString s) eqn:Hi.
  { exists a, t. split_and!; [done|done|done|by exists s]. }
  destruct (GetString_run t a s Hwf Ha) as (r & t1 & Hrun & Hwf1 & Hk1 & (s1 & Ha1 & Hd1) & Hr).
  setoid_rewrite (bind_Ok _ _ _ _ _ Hrun). destruct r as [b|].
  - by exists b, t1.
  - rewrite <- Hd1 in Hr. destruct (intern_run t1 a s1 Hwf1 Ha1 Hr) as (t2 & Hrun2 & Hwf2 & Hk2 & Hat).
    exists a, t2. split; [by mstep with Hrun2|]. split_and!; [done|by etrans|by rewrite <- Hd1].
Qed.

Lemma ConcatObject_run (t : EcmaStringTable) (a b : nat) (s1 s2 : EcmaString) :
  wf_table t -> strings t !! a = Some s1 -> strings t !! b = Some s2 -> data s1 ++ data s2 <> [] ->
  GetLength (Concat s1 s2) < 2 ^ 30 ->
  exists c t' s, ConcatObject a b t = (Ok c, t') /\ strings t' !! c = Some s /\ data s = data s1 ++ data s2 /\
    wf_table t' /\ keeps t t' /\ (forall b d, interned_as t' b d <-> interned_as t b d).
Proof.
  intros Hwf Ha Hb Hne Hl. unfold ConcatObject. setoid_rewrite (bind_Ok _ _ _ _ _ (load_run t a s1 Ha)).
  setoid_rewrite (bind_Ok _ _ _ _ _ (load_run t b s2 Hb)).
  pose proof (objects_ok t Hwf a s1 Ha) as (Hs1 & _ & _). pose proof (objects_ok t Hwf b s2 Hb) as (Hs2 & _ & _).
  assert (IsInternString (mkString (IsUtf8 s1 && IsUtf8 s2) false 0 (data s1 ++ data s2)) = false) as Hi by done.
  destruct (Z.eqb_spec (GetLength s1 + GetLength s2) 0) as [E|E].
  { exfalso. apply Hne, lenZ_zero. by rewrite lenZ_app. }
  destruct (Z.eqb_spec (GetLength s1) 0) as [E1|E1].
  { apply lenZ_zero in E1. exists b, t, s2. rewrite E1. by split_and!. }
  destruct (Z.eqb_spec (GetLength s2) 0) as [E2|E2].
  { apply lenZ_zero in E2. exists a, t, s1. rewrite E2, app_nil_r. by split_and!. }
  assert (Concat s1 s2 = mkString (IsUtf8 s1 && IsUtf8 s2) false 0 (data s1 ++ data s2)) as Hc.
  { unfold Concat. by rewrite !(proj2 (Z.eqb_neq _ _)) by done. }
  destruct (alloc_run t (Concat s1 s2) Hwf) as (t' & Hrun & Hat & Hwf' & Hk & Hint).
  { split_and!; [by apply Concat_wf| |done]. rewrite Hc. by left. }
  { by rewrite Hc. }
  exists (length (strings t)), t', (Concat s1 s2). split_and!; try done. apply Concat_data.
Qed.

Lemma interns_concat (t : EcmaStringTable) (a b : nat) (s1 s2 : EcmaString) :
  wf_table t -> strings t !! a = Some s1 -> strings t !! b = Some s2 -> mergeable s1 s2 ->
  GetLength (Concat s1 s2) < 2 ^ 30 ->
  interns (GetOrInternString_concat a b) (data s1 ++ data s2) t.
Proof.
  intros Hwf Ha Hb Hm Hl. unfold interns, GetOrInternString_concat, GetString_concat.
  pose proof (objects_ok t Hwf a s1 Ha) as (Hs1 & _ & Hl1). pose proof (objects_ok t Hwf b s2 Hb) as (Hs2 & _ & Hl2).
  pose proof (merged_hash_run s1 s2 Hs1 Hs2 Hm) as Hh. unfold merged_hash in Hh.
  rewrite hash_of_data, Concat_data in Hh by (by apply Concat_wf).
  destruct (lookup_run t (fun _ s => EqualToSplicedString s s1 s2) (data s1 ++ data s2) Hwf) as (r & Hrun & Hr).
  { intros c s Hc. pose proof (objects_ok t Hwf c s Hc) as (Hs & _ & _). by apply EqualToSplicedString_run. }
  erewrite bind_Ok.
  2: { mstep by (by apply load_run). mstep by (by apply load_run). destruct (ComputeRawHashcode s1) as [h i].
       rewrite Hh. mstep. mstep with Hrun. reflexivity. }
  destruct r as [c|].
  { exists c, t. by split_and!. }
  destruct (ConcatObject_run t a b s1 s2 Hwf Ha Hb) as (c & t1 & s & Hrun1 & Hc & Hd & Hwf1 & Hk1 & Hint1); [|done|].
  { intros E. apply (Hr emptyStr). rewrite E. apply (empty_ok t Hwf). }
  destruct (set_hash_run t1 c s Hwf1 Hc) as (t2 & Hrun2 & _ & Hc2 & Hwf2 & Hk2 & Hint2). rewrite Hd in Hrun2.
  destruct (intern_run t2 c _ Hwf2 Hc2) as (t3 & Hrun3 & Hwf3 & Hk3 & Hat).
  { intros e. simpl. by rewrite Hint2, Hint1, Hd. }
  exists c, t3. split.
  - mstep with Hrun1. mstep with Hrun2. mstep with Hrun3. done.
  - split_and!; [done|by etrans; [|etrans]|]. simpl in Hat. by rewrite Hd in Hat.
Qed.

Lemma new_table_wf : wf_table NewEcmaStringTable.
Proof.
  assert (NewEcmaStringTable = mkTable [mkString true true 0 []] [(0, O)]) as -> by reflexivity.
  assert (forall a d, interned_as (mkTable [mkString true true 0 []] [(0, O)]) a d <-> a = O /\ d = []) as Hint.
  { intros a d. unfold interned_as. split.
    - intros (s & Ha & _ & Hd). simpl in Ha. destruct a as [|a]; [|done]. simplify_eq/=. done.
    - intros [-> ->]. by eexists. }
  split.
  - intros a s Ha. destruct a as [|a]; [|done]. simpl in Ha. injection Ha as <-. split_and!; [done|by left|done].
  - intros h a [= -> ->]%list_elem_of_singleton. exists []. by rewrite Hint.
  - intros a d [-> ->]%Hint. by left.
  - intros a b d [-> _]%Hint [-> _]%Hint. done.
  - by apply Hint.
Qed.

(** ** The table over time *)

(** The operations, with what the merged and the 16-bit hash need to be right. *)
Inductive step : EcmaStringTable -> EcmaStringTable -> Prop :=
| StepCreate t t' s a :
    obj_ok s -> IsInternString s = false -> alloc s t = (Ok a, t') -> step t t'
| StepUtf8 t t' units a :
    CanBeCompressed units = true -> Forall (fun c => 0 <= c < 2 ^ 16) units -> lenZ units < 2 ^ 30 ->
    GetOrInternString_utf8 units t = (Ok a, t') -> step t t'
| StepUtf16 t t' units a :
    Forall (fun c => 0 <= c < 2 ^ 16) units -> lenZ units < 2 ^ 30 ->
    short_numeral (low_bytes units) = short_numeral units ->
    GetOrInternString_utf16 units (CanBeCompressed units) t = (Ok a, t') -> step t t'
| StepString t t' s b a :
    strings t !! b = Some s -> GetOrInternString b t = (Ok a, t') -> step t t'
| StepConcat t t' s1 s2 b c a :
    strings t !! b = Some s1 -> strings t !! c = Some s2 -> mergeable s1 s2 -> GetLength (Concat s1 s2) < 2 ^ 30 ->
    GetOrInternString_concat b c t = (Ok a, t') -> step t t'
| StepTry t t' s b r :
    strings t !! b = Some s -> TryGetInternString b t = (Ok r, t') -> step t t'.

Definition reachable (t : EcmaStringTable) : Prop := rtc step NewEcmaStringTable t.

Lemma interns_wf (m : M EcmaStringTable nat) (d : list Z) (t t' : EcmaStringTable) (a : nat) :
  interns m d t -> m t = (Ok a, t') -> wf_table t'.
Proof. intros (a' & t'' & Hrun & Hwf & _) H. rewrite H in Hrun. by injection Hrun as <- <-. Qed.

Lemma step_wf (t t' : EcmaStringTable) : step t t' -> wf_table t -> wf_table t'.
Proof.
  intros Hstep Hwf. destruct Hstep as [? ? s a Hok Hi H|? ? u a ? ? ? H|? ? u a ? ? ? H|? ? s b a ? H|? ? s1 s2 b c a ? ? ? ? H|? ? s b r Hb H].
  - destruct (alloc_run t s Hwf Hok Hi) as (t1 & Hrun & _ & Hwf1 & _). rewrite H in Hrun. by injection Hrun as _ ->.
  - eapply interns_wf; [|exact H]. by apply interns_utf8.
  - eapply interns_wf; [|exact H]. by apply interns_utf16.
  - eapply interns_wf; [|exact H]. by apply interns_string.
  - eapply interns_wf; [|exact H]. by eapply interns_concat.
  - destruct (GetString_run t b s Hwf Hb) as (r' & t1 & Hrun & Hwf1 & _). unfold TryGetInternString in H.
    rewrite H in Hrun. by injection Hrun as _ ->.
Qed.

Lemma reachable_wf (t : EcmaStringTable) : reachable t -> wf_table t.
Proof.
  unfold reachable. intros H. generalize new_table_wf. induction H as [|t1 t2 t3 H12 _ IH]; [done|].
  intros Hwf. by apply IH, (step_wf t1).
Qed.


Lemma interns_found (m : M EcmaStringTable nat) (d : list Z) (t : EcmaStringTable) :
  interns m d t ->
  exists a t', m t = (Ok a, t') /\ interned_as t' a d /\ keeps t t' /\ (forall b, interned_as t b d -> a = b).
Proof.
  intros (a & t' & Hrun & Hwf & Hk & Ha). exists a, t'. split_and!; [done|done|done|].
  intros b Hb. apply (unique t' Hwf _ _ d Ha). by apply (keeps_interned t).
Qed.

(** Interning a buffer or a string object gives an interned object with its
    units: the one that is interned already if there is one; every other object
    keeps its units and its flag. *)
Theorem string_table_interns (t : EcmaStringTable) (units : list Z) (b : nat) (s : EcmaString) :
  reachable t -> Forall (fun c => 0 <= c < 2 ^ 16) units -> lenZ units < 2 ^ 30 ->
  short_numeral (low_bytes units) = short_numeral units -> strings t !! b = Some s ->
  (exists a t', GetOrInternString_utf16 units (CanBeCompressed units) t = (Ok a, t') /\
     interned_as t' a units /\ keeps t t' /\ (forall c, interned_as t c units -> a = c)) /\
  (exists a t', GetOrInternString b t = (Ok a, t') /\
     interned_as t' a (data s) /\ keeps t t' /\ (forall c, interned_as t c (data s) -> a = c)).
Proof.
  intros Hwf%reachable_wf Hu Hl Hlow Hb. split; apply interns_found; [by apply interns_utf16|by apply interns_string].
Qed.

(** The objects as TaggedValue.v sees them. *)
Definition heap_of (t : EcmaStringTable) : Heap := fun a =>
  if a <? 0 then HOther
  else match strings t !! Z.to_nat a with Some s => HString (IsInternString s) (data s) | None => HOther end.

(** With the strings of a reachable table, SameValue on two strings is the
    equality of their units, although it compares two interned strings by
    address. *)
Theorem string_table_SameValue (t : EcmaStringTable) (a b : nat) (s1 s2 : EcmaString) :
  reachable t -> strings t !! a = Some s1 -> strings t !! b = Some s2 ->
  SameValue (heap_of t) (VObject (Z.of_nat a)) (VObject (Z.of_nat b)) = true <-> data s1 = data s2.
Proof.
  intros Hwf%reachable_wf Ha Hb. rewrite SameValue_ident.
  - unfold ident_of, heap_of. rewrite !(proj2 (Z.ltb_ge _ 0)), !Nat2Z.id, Ha, Hb by lia. split; congruence.
  - intros x y u. unfold heap_of. destruct (Z.ltb_spec x 0), (Z.ltb_spec y 0); try done.
    destruct (strings t !! Z.to_nat x) as [sx|] eqn:Hx; [|done].
    destruct (strings t !! Z.to_nat y) as [sy|] eqn:Hy; [|done]. intros [= Hix Hdx] [= Hiy Hdy].
    enough (Z.to_nat x = Z.to_nat y) by lia. apply (unique t Hwf _ _ u); [by exists sx|by exists sy].
Qed.

(** ** A concatenation that starts with a numeral *)

(** Interning an object whose cached hash is not 0 uses that hash. *)
Lemma intern_with_hash (t : EcmaStringTable) (a : nat) (s : EcmaString) :
  strings t !! a = Some s -> IsInternString s = false ->
  exists t' s', InternStringThreadUnsafe a t = (Ok tt, t') /\ strings t' = <[a := s']> (strings t) /\
    data s' = data s /\ IsInternString s' = true.
Proof.
  intros Ha Hi. unfold InternStringThreadUnsafe. setoid_rewrite (bind_Ok _ _ _ _ _ (load_run t a s Ha)). rewrite Hi.
  assert (exists h s1, GetHashcode s = (h, s1) /\ data s1 = data s) as (h & s1 & Hg & Hd).
  { unfold GetHashcode. destruct (_ && _); by eexists _, _. }
  set (t1 := set_strings (<[a := s1]> (strings t)) t). set (t2 := mkTable (strings t1) ((h, a) :: table_ t1)).
  exists (set_strings (<[a := SetIsInternString s1]> (strings t2)) t2), (SetIsInternString s1). split.
  - mstep by (unfold hashcode; mstep by (by apply load_run); rewrite Hg; reflexivity). mstep.
    mstep by (apply (load_run t2); simpl; apply list_lookup_insert_eq; by apply lookup_lt_Some in Ha). done.
  - simpl. by rewrite list_insert_insert_eq.
Qed.

Lemma merged_not_found (t : EcmaStringTable) (a b : nat) (s1 s2 : EcmaString) :
  wf_table t -> strings t !! a = Some s1 -> strings t !! b = Some s2 ->
  merged_hash s1 s2 <> hash_of (data s1 ++ data s2) ->
  GetString_concat a b t = (Ok (None, merged_hash s1 s2), t).
Proof.
  intros Hwf Ha Hb Hne.
  pose proof (objects_ok t Hwf a s1 Ha) as (Hs1 & _ & Hl1). pose proof (objects_ok t Hwf b s2 Hb) as (Hs2 & _ & Hl2).
  destruct (find_equal_run t (fun _ s => EqualToSplicedString s s1 s2) (fun s => bool_decide (data s = data s1 ++ data s2))
              (List.filter (fun item => item.1 =? merged_hash s1 s2) (table_ t))) as (r & Hrun & Hr).
  { intros h' x [Hx _]%list_elem_of_In%filter_In. apply list_elem_of_In in Hx.
    destruct (entries_ok t Hwf h' x Hx) as (d & (s & Hs & _) & _). exists s. split; [done|].
    pose proof (objects_ok t Hwf x s Hs) as (? & _ & _). by apply EqualToSplicedString_run. }
  destruct r as [x|].
  { exfalso. destruct Hr as (h' & s & [Hx Heq%Z.eqb_eq]%list_elem_of_In%filter_In & Hs & Hdec%bool_decide_eq_true).
    apply list_elem_of_In in Hx. destruct (entries_ok t Hwf h' x Hx) as (d & (s' & Hs' & _ & Hd') & ->).
    simpl in Heq. apply Hne. rewrite <- Heq. congruence. }
  unfold GetString_concat. unfold merged_hash in *. mstep by (by apply load_run). mstep by (by apply load_run).
  destruct (ComputeRawHashcode s1) as [raw isInt]. mstep. by mstep with Hrun.
Qed.

(** What is not found is created. *)
Lemma concat_creates (t : EcmaStringTable) (a b : nat) (s1 s2 : EcmaString) (h : Z) :
  strings t !! a = Some s1 -> strings t !! b = Some s2 -> data s1 <> [] -> data s2 <> [] ->
  GetString_concat a b t = (Ok (None, h), t) ->
  exists t' s', GetOrInternString_concat a b t = (Ok (length (strings t)), t') /\ strings t' = strings t ++ [s'] /\
    data s' = data s1 ++ data s2 /\ IsInternString s' = true.
Proof.
  intros Ha Hb E1 E2 Hfind.
  assert (0 < GetLength s1) by (unfold GetLength; destruct (data s1); [done|lenz]).
  assert (0 < GetLength s2) by (unfold GetLength; destruct (data s2); [done|lenz]).
  set (n := length (strings t)). set (c := Concat s1 s2).
  assert (IsInternString c = false) as Hic by (unfold c, Concat; by zb).
  set (t2 := set_strings (strings t ++ [SetMixHashcode h c]) t).
  assert (strings t2 !! n = Some (SetMixHashcode h c)) as Hn2 by (by apply list_lookup_middle).
  destruct (intern_with_hash t2 n _ Hn2 Hic) as (t3 & s' & Hrun & Ht3 & Hd3 & Hi3). exists t3, s'. split_and!; [| | |done].
  - unfold GetOrInternString_concat. mstep with Hfind.
    mstep by (unfold ConcatObject; mstep by (by apply load_run); mstep by (by apply load_run); zb; reflexivity).
    assert (set_hash h n (set_strings (strings t ++ [c]) t) = (Ok tt, t2)) as Hset.
    { unfold set_hash. mstep by (apply load_run; by apply list_lookup_middle). unfold store, modify, t2, set_strings, n. cbn [strings table_].
      by rewrite insert_app_r_alt, Nat.sub_diag by done. }
    mstep with Hset. by mstep with Hrun.
  - rewrite Ht3. change (strings t2) with (strings t ++ [SetMixHashcode h c]). unfold n.
    by rewrite insert_app_r_alt, Nat.sub_diag by done.
  - rewrite Hd3. apply Concat_data.
Qed.

(** When a numeral and a text that is not all digits are concatenated, and
    the units of the result are interned already, the table does not find them
    (unless the numeral's polynomial hash happens to be its value): a second
    object with the same units is interned. *)
Theorem string_table_duplicates (t : EcmaStringTable) (a b c : nat) (s1 s2 : EcmaString) :
  reachable t -> strings t !! a = Some s1 -> strings t !! b = Some s2 ->
  short_numeral (data s1) = true -> forallb IsDecimalDigitChar (data s2) = false ->
  ComputeHashForData (data s1) 0 mod 2 ^ 31 <> value (data s1) ->
  interned_as t c (data s1 ++ data s2) ->
  exists c' t', GetOrInternString_concat a b t = (Ok c', t') /\ c' <> c /\
    interned_as t' c (data s1 ++ data s2) /\ interned_as t' c' (data s1 ++ data s2).
Proof.
  intros Hwf%reachable_wf Ha Hb Hn Hd Hh Hc.
  pose proof (objects_ok t Hwf a s1 Ha) as (Hs1 & _ & _). pose proof (objects_ok t Hwf b s2 Hb) as (Hs2 & _ & _).
  destruct (concat_creates t a b s1 s2 (merged_hash s1 s2) Ha Hb) as (t' & s' & Hrun & Ht' & Hd' & Hi').
  - intros E. by rewrite E in Hn.
  - intros E. by rewrite E in Hd.
  - apply merged_not_found; [done..|]. rewrite <- Concat_data, <- hash_of_data by (by apply Concat_wf).
    by rewrite merged_after_numeral.
  - destruct Hc as (s & Hs & Hi & Hdc). pose proof (lookup_lt_Some _ _ _ Hs).
    exists (length (strings t)), t'. split_and!; [done|lia| |].
    + exists s. rewrite Ht'. split_and!; [by apply lookup_app_l_Some|done|done].
    + exists s'. rewrite Ht'. split_and!; [by apply list_lookup_middle|done|done].
Qed.

(** ** Witnesses *)

(** The table after interning "12ab", with "12" and "ab" as further objects. *)
Definition sample_table : EcmaStringTable :=
  (alloc (str [97; 98]) (alloc (str [49; 50]) (GetOrInternString_utf16 [49; 50; 97; 98] true NewEcmaStringTable).2).2).2.

Lemma sample_table_reachable : reachable sample_table.
Proof.
  unfold reachable, sample_table.
  apply rtc_l with (GetOrInternString_utf16 [49; 50; 97; 98] true NewEcmaStringTable).2.
  { apply StepUtf16 with [49; 50; 97; 98] 1%nat; [|done|done|done].
    exact (proj2 (str_wf [49; 50; 97; 98] eq_refl)). }
  eapply rtc_l; [|eapply rtc_l; [|reflexivity]].
  - apply (StepCreate _ _ (str [49; 50]) 2%nat); [|done|done]. split_and!; [by apply str_wf|by left|done].
  - apply (StepCreate _ _ (str [97; 98]) 3%nat); [|done|done]. split_and!; [by apply str_wf|by left|done].
Qed.


Lemma string_table_interns_witness :
  exists a t', GetOrInternString 2 sample_table = (Ok a, t') /\
    interned_as t' a [49; 50] /\ keeps sample_table t' /\ (forall c, interned_as sample_table c [49; 50] -> a = c).
Proof.
  refine (proj2 (string_table_interns sample_table [97] 2 (str [49; 50]) sample_table_reachable _ _ _ _));
    [exact (proj2 (str_wf [97] eq_refl))|done|done|done].
Defined.

Lemma string_table_SameValue_witness :
  SameValue (heap_of sample_table) (VObject 2) (VObject 3) = true <-> [49; 50] = [97; 98].
Proof.
  exact (string_table_SameValue sample_table 2 3 (str [49; 50]) (str [97; 98]) sample_table_reachable eq_refl eq_refl).
Defined.

(** "12" + "ab" does not find the interned "12ab". *)
Lemma string_table_duplicates_witness :
  exists c' t', GetOrInternString_concat 2 3 sample_table = (Ok c', t') /\ c' <> 1%nat /\
    interned_as t' 1 [49; 50; 97; 98] /\ interned_as t' c' [49; 50; 97; 98].
Proof.
  apply (string_table_duplicates sample_table 2 3 1 (str [49; 50]) (str [97; 98]) sample_table_reachable);
    [done..|by vm_compute|by eexists].
Defined.

End StringTable.
