(* ===== verification/LightWeightMap.v ===== *)
(** * JSAPILightWeightMap: js_api_lightweightmap.cpp, js_api_lightweightmap.h,
    js_api_lightweightmap_iterator.cpp.

    A map with arbitrary keys in three parallel arrays of hashes, keys and
    values, sorted by hash and searched by bisection and then by SameValue among
    the keys with one hash.  The abstract state is the list of entries ([repr]);
    what the map needs of the hash is the interface [KeyHash], which the hash of
    the code implements for keys in the representation of [canonical_key]. *)
From stdpp Require Import gmap sorting countable.
From S2P Require Import Prelude TaggedValue TaggedArray EcmaString.
Local Open Scope Z_scope.

Module LightWeightMap.

Record JSAPILightWeightMap : Type := mkMap {
  hashes : TaggedArray;
  keys : TaggedArray;
  values : TaggedArray;
  length_ : Z;
}.

Inductive AccossorsKind : Type := HASH | KEY | VALUE.

Record KeyState : Type := mkKeyState {
  existed : bool;
  hash : Z;
  index : Z;
}.

Definition DEFAULT_CAPACITY_LENGTH : Z := 8.
Definition HASH_REBELLION : Z := 0xFFFFFFFF.

Definition set_length (n : Z) (s : JSAPILightWeightMap) : JSAPILightWeightMap :=
  mkMap (hashes s) (keys s) (values s) n.

Definition GetSize : M JSAPILightWeightMap Z := gets length_.

Definition array_of (kind : AccossorsKind) (s : JSAPILightWeightMap) : TaggedArray :=
  match kind with HASH => hashes s | KEY => keys s | VALUE => values s end.

Definition GetArrayByKind (kind : AccossorsKind) : M JSAPILightWeightMap TaggedArray := gets (array_of kind).

Definition set_array (kind : AccossorsKind) (a : TaggedArray) (s : JSAPILightWeightMap) : JSAPILightWeightMap :=
  match kind with
  | HASH => mkMap a (keys s) (values s) (length_ s)
  | KEY => mkMap (hashes s) a (values s) (length_ s)
  | VALUE => mkMap (hashes s) (keys s) a (length_ s)
  end.

Definition SetArrayByKind (a : TaggedArray) (kind : AccossorsKind) : M JSAPILightWeightMap unit :=
  modify (set_array kind a).

(** An operation on one of the arrays in place. *)
Definition on_array {A} (kind : AccossorsKind) (m : M TaggedArray A) : M JSAPILightWeightMap A :=
  zoom (array_of kind) (set_array kind) m.

(** ContainersLightWeightMap::LightWeightMapConstructor. *)
Definition LightWeightMapConstructor : JSAPILightWeightMap :=
  let a := Factory.NewTaggedArray DEFAULT_CAPACITY_LENGTH VHole in mkMap a a a 0.

Definition ComputeCapacity (oldCapacity : Z) : Z :=
  let newCapacity := u32 (oldCapacity + Z.shiftr oldCapacity 1) in
  if DEFAULT_CAPACITY_LENGTH <? newCapacity then newCapacity else DEFAULT_CAPACITY_LENGTH.

Definition GrowCapacity {S} (oldArray : TaggedArray) (needCapacity : Z) : M S TaggedArray :=
  let oldLength := lenZ oldArray in
  if needCapacity <=? oldLength then mret oldArray
  else Factory.CopyArray oldArray oldLength (ComputeCapacity needCapacity) VHole.

Definition IncreaseCapacityTo (index : Z) : M JSAPILightWeightMap bool :=
  num ← GetSize;
  if (index <? DEFAULT_CAPACITY_LENGTH) || (index <=? i32 num) then mret false
  else
    hashArray ← GetArrayByKind HASH;
    keyArray ← GetArrayByKind KEY;
    valueArray ← GetArrayByKind VALUE;
    newHashArray ← GrowCapacity hashArray index;
    newKeyArray ← GrowCapacity keyArray index;
    newValueArray ← GrowCapacity valueArray index;
    SetArrayByKind newHashArray HASH;;
    SetArrayByKind newKeyArray KEY;;
    SetArrayByKind newValueArray VALUE;;
    mret true.

Definition InsertValue (index : Z) (value : JSTaggedValue) (kind : AccossorsKind) : M JSAPILightWeightMap unit :=
  array ← GetArrayByKind kind;
  len ← GetSize;
  newArray ← GrowCapacity array (u32 (len + 1));
  inserted ← build newArray (Arr.InsertElementByIndex value index len);
  SetArrayByKind inserted kind.

Definition ReplaceValue (index : Z) (value : JSTaggedValue) (kind : AccossorsKind) : M JSAPILightWeightMap unit :=
  size ← GetSize;
  ASSERT ((0 <=? index) || (index <? i32 size));;
  on_array kind (Arr.Set_ index value).

Definition RemoveValue (index : Z) (kind : AccossorsKind) : M JSAPILightWeightMap unit :=
  len ← GetSize;
  ASSERT (index <? len);;
  on_array kind (Arr.RemoveElementByIndex index len false).

(** ** Hash *)

(** What the hash reads from the heap or from outside: the hash field of a
    symbol, the cached or computed hash of a string (EcmaString.GetHashcode),
    the identity hash an ECMAObject has or is given at its first use (a random
    number), and GetHash32 of a block of bytes. *)
Record HashEnv : Type := mkHashEnv {
  symbol_hash : Z -> option Z;
  string_hash : Z -> Z;
  identity_hash : Z -> option Z;
  GetHash32 : list Z -> Z;
}.

(** The bytes of an integer in memory. *)
Definition bytes (n : nat) (w : Z) : list Z :=
  (fun i => Z.land (Z.shiftr w (8 * Z.of_nat i)) 0xFF) <$> seq 0 n.

Section with_heap.
Context (heap : Heap) (env : HashEnv).

(** A BigInt has at least one digit. *)
Definition Hash (key : JSTaggedValue) : Z :=
  let key :=
    match key with
    | VDouble b => if double_eqb (double_of_bits b) (DZero false) then VInt 0 else key
    | _ => key
    end in
  match key with
  | VObject a =>
      match symbol_hash env a with
      | Some h => i32 h
      | None =>
          match heap a with
          | HString _ _ => i32 (string_hash env a)
          | HBigInt _ digits => i32 (GetHash32 env (bytes 4 (hd 0 digits)))
          | HOther =>
              match identity_hash env a with
              | Some h => i32 h
              | None => i32 (GetHash32 env (bytes 8 (encode key)))
              end
          end
      end
  | VInt z => z
  | _ => i32 (GetHash32 env (bytes 8 (encode key)))
  end.

(** GetInt() of an element of the array of hashes. *)
Definition get_int {S} (v : JSTaggedValue) : M S Z :=
  match v with VInt z => mret z | _ => fault end.

Definition search_step {S} (array : TaggedArray) (hash : Z) (p : Z * Z) : M S (Z * Z + Z) :=
  let '(low, high) := p in
  if low <=? high then
    let mid := Z.shiftr (u32 (low + high)) 1 in
    v ← Arr.GetFrom array mid;
    midHash ← get_int v;
    if midHash <? hash then mret (inl (i32 mid + 1, high))
    else if midHash =? hash then mret (inr (i32 mid))
    else mret (inl (low, i32 mid - 1))
  else mret (inr (- (low + 1))).

Definition BinarySearchHashes {S} (array : TaggedArray) (hash size : Z) : M S Z :=
  while_fuel (Datatypes.S (Z.to_nat size)) (search_step array hash) (0, size - 1).

(** The loops to the right and to the left over the keys with one hash:
    [inl i] is the index of the key, [inr i] where the loop stopped. *)
Definition right_step {S} (hashArray keyArray : TaggedArray) (key : JSTaggedValue) (hash length right : Z) :
    M S (Z + (Z + Z)) :=
  if right <? length then
    v ← Arr.GetFrom hashArray right;
    h ← get_int v;
    if h =? hash then
      k ← Arr.GetFrom keyArray right;
      if SameValue heap k key then mret (inr (inl right)) else mret (inl (right + 1))
    else mret (inr (inr right))
  else mret (inr (inr right)).

Definition left_step {S} (hashArray keyArray : TaggedArray) (key : JSTaggedValue) (hash left : Z) :
    M S (Z + (Z + Z)) :=
  if 0 <=? left then
    v ← Arr.GetFrom hashArray left;
    h ← get_int v;
    if h =? hash then
      k ← Arr.GetFrom keyArray left;
      if SameValue heap k key then mret (inr (inl left)) else mret (inl (left - 1))
    else mret (inr (inr left))
  else mret (inr (inr left)).

Definition scan_right {S} (hashArray keyArray : TaggedArray) (key : JSTaggedValue) (hash length index : Z) : M S (Z + Z) :=
  while_fuel (Datatypes.S (Z.to_nat (length - index))) (right_step hashArray keyArray key hash length) index.

Definition scan_left {S} (hashArray keyArray : TaggedArray) (key : JSTaggedValue) (hash index : Z) : M S (Z + Z) :=
  while_fuel (Datatypes.S (Z.to_nat index)) (left_step hashArray keyArray key hash) (index - 1).

Definition AvoidHashCollision {S} (hashArray keyArray : TaggedArray) (key : JSTaggedValue) (index size hash : Z) : M S Z :=
  r ← scan_right hashArray keyArray key hash (i32 size) index;
  match r with
  | inl right_ => mret right_
  | inr right_ =>
      l ← scan_left hashArray keyArray key hash index;
      match l with
      | inl left_ => mret left_
      | inr _ => mret (i32 (Z.lxor (u32 (- right_)) HASH_REBELLION))
      end
  end.

Definition GetStateOfKey (key : JSTaggedValue) : M JSAPILightWeightMap KeyState :=
  let hash := Hash key in
  size ← GetSize;
  let length := i32 size in
  hashArray ← GetArrayByKind HASH;
  index ← BinarySearchHashes hashArray hash length;
  if 0 <=? index then
    keyArray ← GetArrayByKind KEY;
    r ← scan_right hashArray keyArray key hash length index;
    match r with
    | inl right_ => mret (mkKeyState true hash right_)
    | inr right_ =>
        l ← scan_left hashArray keyArray key hash index;
        match l with
        | inl left_ => mret (mkKeyState true hash left_)
        | inr _ => mret (mkKeyState false hash right_)
        end
    end
  else mret (mkKeyState false hash (i32 (Z.lxor (u32 index) HASH_REBELLION))).

Definition Set_ (key value : JSTaggedValue) : M JSAPILightWeightMap unit :=
  keyState ← GetStateOfKey key;
  let index := index keyState in
  if existed keyState then ReplaceValue index value VALUE
  else
    InsertValue index (VInt (hash keyState)) HASH;;
    InsertValue index key KEY;;
    InsertValue index value VALUE;;
    modify (fun s => set_length (u32 (length_ s + 1)) s).

Definition GetIndexOfKey (key : JSTaggedValue) : M JSAPILightWeightMap Z :=
  keyState ← GetStateOfKey key;
  mret (if existed keyState then index keyState else -1).

Definition Get (key : JSTaggedValue) : M JSAPILightWeightMap JSTaggedValue :=
  index ← GetIndexOfKey key;
  if index <? 0 then mret VUndefined
  else on_array VALUE (Arr.Get index).

Definition HasKey (key : JSTaggedValue) : M JSAPILightWeightMap bool :=
  keyState ← GetStateOfKey key;
  mret (existed keyState).

(** One round of HasAll; [Some false] is a return. *)
Definition hasall_step {S} (oldHashArray oldKeyArray oldValueArray newKeyArray newValueArray : TaggedArray)
    (len num : Z) : M S (option bool) :=
  dealKey ← Arr.GetFrom newKeyArray num;
  let hash := Hash dealKey in
  index ← BinarySearchHashes oldHashArray hash (i32 len);
  if (index <? 0) || (i32 len <=? index) then mret (Some false)
  else
    index ← AvoidHashCollision oldHashArray oldKeyArray dealKey index len hash;
    k ← Arr.GetFrom oldKeyArray index;
    if negb (SameValue heap k dealKey) then mret (Some false)
    else
      v ← Arr.GetFrom oldValueArray index;
      v' ← Arr.GetFrom newValueArray num;
      mret (if negb (SameValue heap v v') then Some false else None).

(** [newLightWeightMap] is read only. *)
Definition HasAll (newLightWeightMap : JSAPILightWeightMap) : M JSAPILightWeightMap bool :=
  let length := length_ newLightWeightMap in
  len ← GetSize;
  if len <? length then mret false
  else
    oldHashArray ← GetArrayByKind HASH;
    oldKeyArray ← GetArrayByKind KEY;
    oldValueArray ← GetArrayByKind VALUE;
    let newKeyArray := keys newLightWeightMap in
    let newValueArray := values newLightWeightMap in
    r ← find_up (Z.to_nat length) 0 (hasall_step oldHashArray oldKeyArray oldValueArray newKeyArray newValueArray len);
    mret (default true r).

Definition HasValue (value : JSTaggedValue) : M JSAPILightWeightMap bool :=
  length ← GetSize;
  r ← on_array VALUE (find_up (Z.to_nat length) 0 (fun num =>
        v ← Arr.Get num;
        mret (if SameValue heap v value then Some num else None)));
  mret (match r with Some _ => true | None => false end).

(** The loop of GetIndexOfValue compares words. *)
Definition GetIndexOfValue (value : JSTaggedValue) : M JSAPILightWeightMap Z :=
  length ← GetSize;
  r ← on_array VALUE (find_up (Z.to_nat length) 0 (fun i =>
        v ← Arr.Get i;
        mret (if word_eqb v value then Some i else None)));
  mret (default (-1) r).

Definition GetKeyAt (index : Z) : M JSAPILightWeightMap JSTaggedValue :=
  size ← GetSize;
  let length := i32 size in
  if (index <? 0) || (length <=? index) then throw RANGE_ERROR
  else on_array KEY (Arr.Get index).

Definition GetValueAt (index : Z) : M JSAPILightWeightMap JSTaggedValue :=
  size ← GetSize;
  let length := i32 size in
  if (index <? 0) || (length <=? index) then throw RANGE_ERROR
  else on_array VALUE (Arr.Get index).

Definition SetValueAt (index : Z) (value : JSTaggedValue) : M JSAPILightWeightMap bool :=
  size ← GetSize;
  let length := i32 size in
  if (index <? 0) || (length <=? index) then throw RANGE_ERROR
  else ReplaceValue index value VALUE;; mret true.

(** [needLightWeightMap] is another map. *)
Definition SetAll (needLightWeightMap : JSAPILightWeightMap) : M JSAPILightWeightMap unit :=
  let needKeyArray := keys needLightWeightMap in
  let needValueArray := values needLightWeightMap in
  for_range 0 (length_ needLightWeightMap) (fun num =>
    key ← Arr.GetFrom needKeyArray num;
    value ← Arr.GetFrom needValueArray num;
    Set_ key value).

Definition Remove (key : JSTaggedValue) : M JSAPILightWeightMap JSTaggedValue :=
  keyState ← GetStateOfKey key;
  if negb (existed keyState) then mret VUndefined
  else
    let index := index keyState in
    value ← on_array VALUE (Arr.Get index);
    RemoveValue index HASH;;
    RemoveValue index VALUE;;
    RemoveValue index KEY;;
    modify (fun s => set_length (u32 (length_ s - 1)) s);;
    mret value.

Definition RemoveAt (index : Z) : M JSAPILightWeightMap bool :=
  length ← GetSize;
  if (index <? 0) || (i32 length <=? index) then mret false
  else
    RemoveValue index HASH;;
    RemoveValue index VALUE;;
    RemoveValue index KEY;;
    modify (set_length (u32 (length - 1)));;
    mret true.

Definition IsEmpty : M JSAPILightWeightMap bool := n ← GetSize; mret (n =? 0).

Definition Clear : M JSAPILightWeightMap unit :=
  let a := Factory.NewTaggedArray DEFAULT_CAPACITY_LENGTH VHole in
  SetArrayByKind a HASH;;
  SetArrayByKind a KEY;;
  SetArrayByKind a VALUE;;
  modify (set_length 0).

(** The strings of values and keys are JSTaggedValue::ToString's, an argument. *)
Definition ToString (js_ToString : JSTaggedValue -> M JSAPILightWeightMap (list Z)) : M JSAPILightWeightMap (list Z) :=
  let str v := if negb (IsUndefined v) && negb (IsNull v) then js_ToString v else mret [] in
  length ← GetSize;
  (fix loop (n : nat) (k : Z) (concatStr : list Z) : M JSAPILightWeightMap (list Z) :=
     match n with
     | O => mret concatStr
     | Datatypes.S n' =>
         value ← GetValueAt k;
         valueStr ← str value;
         key ← GetKeyAt k;
         keyStr ← str key;
         let nextStr := (keyStr ++ [58]) ++ valueStr in
         if 0 <? k then loop n' (k + 1) ((concatStr ++ [44]) ++ nextStr)
         else loop n' (k + 1) (concatStr ++ nextStr)
     end) (Z.to_nat length) 0 [].

(** ** Iterator *)

Inductive IterationKind : Type := IterKey | IterValue | IterKeyAndValue.

(** ObjectFactory::NewJSAPILightWeightMapIterator. *)
Definition NewJSAPILightWeightMapIterator : index_iterator := mkIter true 0.

(** The element at an index; the value is found by looking the key up. *)
Definition iter_at (itemKind : IterationKind) (index : Z) : M JSAPILightWeightMap (list JSTaggedValue) :=
  key ← GetKeyAt index;
  match itemKind with
  | IterKey => mret [key]
  | IterValue => value ← Get key; mret [value]
  | IterKeyAndValue => value ← Get key; mret [key; value]
  end.

Definition Next (itemKind : IterationKind) (iter : index_iterator) :
    M JSAPILightWeightMap (option (list JSTaggedValue) * index_iterator) :=
  index_next GetSize (iter_at itemKind) iter.
End with_heap.

(** ** The interface of the hash *)

(** Keys that SameValue identifies have one hash. *)
Class KeyHash (heap : Heap) (hash : JSTaggedValue -> Z) (ok : JSTaggedValue -> Prop) : Prop :=
  hash_ident : forall x y, ok x -> ok y -> ident_of heap x = ident_of heap y -> hash x = hash y.

(** ** Searching *)

Section search.
Context (heap : Heap) (H : JSTaggedValue -> Z).
Notation hash_words ks := (VInt <$> (H <$> ks)).

(** The keys before, with and after a hash. *)
Lemma map_locate (h : Z) (ks : list JSTaggedValue) :
  StronglySorted Z.le (H <$> ks) ->
  exists k1 km k2, ks = k1 ++ km ++ k2 /\ Forall (fun k => H k < h) k1 /\ Forall (fun k => H k = h) km /\
    Forall (fun k => h < H k) k2.
Proof.
  induction ks as [|k ks IH]; intros Hs; [by exists [], [], []|].
  rewrite fmap_cons in Hs. apply StronglySorted_inv in Hs as [Hs Hk]. rewrite Forall_fmap in Hk.
  destruct (Z.compare_spec (H k) h) as [Heq|Hlt|Hgt].
  - destruct (IH Hs) as (k1 & km & k2 & -> & H1 & Hm & H2). destruct k1 as [|k' k1].
    + by exists [], (k :: km), k2; split_and!; [|done|constructor|].
    + exfalso. apply Forall_cons_1 in H1 as [H1 _], Hk as [Hk _]. simpl in *. lia.
  - destruct (IH Hs) as (k1 & km & k2 & -> & H1 & Hm & H2).
    by exists (k :: k1), km, k2; split_and!; [|constructor| |].
  - exists [], [], (k :: ks). split_and!; [done..|]. constructor; [done|].
    eapply Forall_impl; [|exact Hk]. simpl. lia.
Qed.

Lemma hash_word_at {S} (ks : list JSTaggedValue) (junk : TaggedArray) (i : Z) (k : JSTaggedValue) (st : S) :
  0 <= i -> ks !! Z.to_nat i = Some k -> Arr.GetFrom (hash_words ks ++ junk) i st = (Ok (VInt (H k)), st).
Proof.
  intros Hi Hk. unfold Arr.GetFrom. rewrite <- (Z2Nat.id i) by done.
  rewrite (read_lookup _ _ (VInt (H k))); [done|]. apply lookup_app_l_Some. by rewrite !list_lookup_fmap, Hk.
Qed.

Lemma key_at {S} (ks junk : TaggedArray) (i : Z) (k : JSTaggedValue) (st : S) :
  0 <= i -> ks !! Z.to_nat i = Some k -> Arr.GetFrom (ks ++ junk) i st = (Ok k, st).
Proof.
  intros Hi Hk. unfold Arr.GetFrom. rewrite <- (Z2Nat.id i) by done.
  by rewrite (read_lookup _ _ k) by (by apply lookup_app_l_Some).
Qed.

Lemma search_step_run {S} (h : Z) (ks : list JSTaggedValue) (junk : TaggedArray) (low high : Z) (k : JSTaggedValue) (st : S) :
  let mid := (low + high) / 2 in
  0 <= low <= high -> high < lenZ ks -> lenZ ks < 2 ^ 31 -> ks !! Z.to_nat mid = Some k ->
  search_step (hash_words ks ++ junk) h (low, high) st
  = (Ok (if H k <? h then inl (mid + 1, high) else if H k =? h then inr mid else inl (low, mid - 1)), st).
Proof.
  intros mid Hl Hh Hb Hk. unfold search_step. zb.
  assert (0 <= mid < 2 ^ 31) by (unfold mid; zlia).
  replace (Z.shiftr (u32 (low + high)) 1) with mid by (rewrite u32_small, Z.shiftr_div_pow2 by lia; done).
  rewrite i32_id by lia. mstep by (apply hash_word_at; [lia|done]). mstep. by destruct (H k <? h), (H k =? h).
Qed.

Lemma search_run {S} (h : Z) (k1 km k2 : list JSTaggedValue) (junk : TaggedArray) (fuel : nat) (low high : Z) (st : S) :
  Forall (fun k => H k < h) k1 -> Forall (fun k => H k = h) km -> Forall (fun k => h < H k) k2 ->
  lenZ (k1 ++ km ++ k2) < 2 ^ 31 ->
  0 <= low <= lenZ k1 -> lenZ (k1 ++ km) <= high + 1 <= lenZ (k1 ++ km ++ k2) -> (Z.to_nat (high + 1 - low) < fuel)%nat ->
  exists r, while_fuel fuel (search_step (hash_words (k1 ++ km ++ k2) ++ junk) h) (low, high) st = (Ok r, st) /\
    (km = [] /\ r = - (lenZ k1 + 1) \/ lenZ k1 <= r < lenZ (k1 ++ km)).
Proof.
  intros H1 Hm H2 Hb. pose proof (lenZ_nonneg km) as Hkm. rewrite lenZ_app.
  revert low high. induction fuel as [|fuel IH]; intros low high Hl Hh Hf; [lia|].
  cbn [while_fuel]. destruct (Z.leb_spec low high) as [Hle|Hgt].
  2: { exists (- (low + 1)). mstep by (unfold search_step; zb; reflexivity). split; [done|]. left.
       split; [apply lenZ_zero; lia|lia]. }
  set (m := (low + high) / 2). assert (low <= m <= high) as Hlm by (unfold m; zlia).
  destruct (lookup_lt_is_Some_2 (k1 ++ km ++ k2) (Z.to_nat m)) as [k Hk]; [unfold lenZ in *; lia|].
  mstep with (search_step_run h (k1 ++ km ++ k2) junk low high k st ltac:(lia) ltac:(lia) Hb Hk). fold m.
  destruct (Z.lt_ge_cases m (lenZ k1)) as [Hlt|Hge].
  - rewrite lookup_app_l in Hk by (unfold lenZ in *; lia). pose proof (Forall_lookup_1 _ _ _ _ H1 Hk).
    simpl in *. zb. apply IH; lia.
  - rewrite lookup_app_r in Hk by (unfold lenZ in *; lia).
    destruct (Z.lt_ge_cases m (lenZ k1 + lenZ km)) as [Hlt'|Hge'].
    + rewrite lookup_app_l in Hk by (unfold lenZ in *; lia). pose proof (Forall_lookup_1 _ _ _ _ Hm Hk).
      simpl in *. zb. exists m. split; [done|]. right. lia.
    + rewrite lookup_app_r in Hk by (unfold lenZ in *; lia). pose proof (Forall_lookup_1 _ _ _ _ H2 Hk).
      simpl in *. zb. apply IH; lia.
Qed.

Lemma BinarySearchHashes_run {S} (h : Z) (k1 km k2 : list JSTaggedValue) (junk : TaggedArray) (st : S) :
  Forall (fun k => H k < h) k1 -> Forall (fun k => H k = h) km -> Forall (fun k => h < H k) k2 ->
  lenZ (k1 ++ km ++ k2) < 2 ^ 31 ->
  exists r, BinarySearchHashes (hash_words (k1 ++ km ++ k2) ++ junk) h (lenZ (k1 ++ km ++ k2)) st = (Ok r, st) /\
    (km = [] /\ r = - (lenZ k1 + 1) \/ lenZ k1 <= r < lenZ (k1 ++ km)).
Proof.
  intros H1 Hm H2 Hb. unfold BinarySearchHashes. pose proof (lenZ_nonneg k1). pose proof (lenZ_nonneg k2).
  apply search_run; [done..|lia|rewrite !lenZ_app; lia|lia].
Qed.

(** The loop to the right over the keys with the hash. *)
Lemma right_loop {S} (key : JSTaggedValue) (h : Z) (run pre post : list JSTaggedValue) (hj kj : TaggedArray)
    (fuel : nat) (st : S) :
  let ks := pre ++ run ++ post in
  Forall (fun k => H k = h) run -> Forall (fun k => h < H k) post -> (length run < fuel)%nat ->
  while_fuel fuel (right_step heap (hash_words ks ++ hj) (ks ++ kj) key h (lenZ ks)) (lenZ pre) st
  = (Ok (match find_index (fun k => SameValue heap k key) run with
         | Some j => inl (lenZ pre + j)
         | None => inr (lenZ pre + lenZ run)
         end), st).
Proof.
  revert pre fuel. induction run as [|k run IH]; intros pre fuel ks Hr Hp Hf; (destruct fuel as [|fuel]; [simpl in Hf; lia|]);
    cbn [while_fuel]; unfold ks.
  { rewrite lenZ_nil, Z.add_0_r. destruct post as [|k post].
    - replace (lenZ (pre ++ [] ++ [])) with (lenZ pre) by lenz.
      mstep by (unfold right_step; zb; reflexivity). done.
    - apply Forall_cons_1 in Hp as [Hk _]. pose proof (lenZ_nonneg pre). pose proof (lenZ_nonneg post). erewrite bind_Ok.
      2: { unfold right_step. replace (lenZ (pre ++ [] ++ k :: post)) with (lenZ pre + 1 + lenZ post) by lenz. zb.
           mstep by (apply hash_word_at; [done|by apply list_lookup_middle; lenz]). mstep. zb. reflexivity. }
      done. }
  apply Forall_cons_1 in Hr as [Hk Hr]. pose proof (lenZ_nonneg pre). pose proof (lenZ_nonneg run). pose proof (lenZ_nonneg post).
  assert ((pre ++ (k :: run) ++ post) !! Z.to_nat (lenZ pre) = Some k) as Hat by (apply list_lookup_middle; lenz).
  assert (right_step (S := S) heap (hash_words (pre ++ (k :: run) ++ post) ++ hj) ((pre ++ (k :: run) ++ post) ++ kj) key h
            (lenZ (pre ++ (k :: run) ++ post)) (lenZ pre) st
          = (Ok (if SameValue heap k key then inr (inl (lenZ pre)) else inl (lenZ pre + 1)), st)) as Hstep.
  { unfold right_step. rewrite !lenZ_app, lenZ_cons. zb. mstep by (by apply hash_word_at). mstep. zb.
    mstep by (by apply key_at). by destruct (SameValue heap k key). }
  mstep with Hstep. cbn [find_index]. destruct (SameValue heap k key); [mcbn; do 3 f_equal; lia|].
  specialize (IH (pre ++ [k]) fuel Hr Hp ltac:(simpl in Hf; lia)). cbv zeta in IH. rewrite <- (app_assoc pre [k] (run ++ post)) in IH.
  replace (lenZ (pre ++ [k])) with (lenZ pre + 1) in IH by lenz. etrans; [exact IH|]. rewrite lenZ_cons.
  destruct (find_index _ run); simpl; do 3 f_equal; lia.
Qed.

Lemma left_loop {S} (key : JSTaggedValue) (h : Z) (run pre post : list JSTaggedValue) (hj kj : TaggedArray)
    (fuel : nat) (st : S) :
  let ks := pre ++ run ++ post in
  Forall (fun k => H k < h) pre -> Forall (fun k => H k = h) run -> (length run < fuel)%nat ->
  exists stop, while_fuel fuel (left_step heap (hash_words ks ++ hj) (ks ++ kj) key h) (lenZ (pre ++ run) - 1) st
  = (Ok (match find_last_index (fun k => SameValue heap k key) run with
         | Some j => inl (lenZ pre + j)
         | None => inr stop
         end), st).
Proof.
  revert post fuel. induction run as [|k run IH] using rev_ind; intros post fuel ks Hp Hr Hf;
    (destruct fuel as [|fuel]; [rewrite ?length_app in Hf; simpl in Hf; lia|]); cbn [while_fuel]; unfold ks.
  { exists (lenZ pre - 1). rewrite app_nil_r. destruct pre as [|k pre] using rev_ind; [done|].
    apply Forall_app in Hp as [_ [Hk _]%Forall_cons_1]. pose proof (lenZ_nonneg pre). erewrite bind_Ok.
    2: { unfold left_step. replace (lenZ (pre ++ [k]) - 1) with (lenZ pre) by lenz. zb.
         mstep by (apply (hash_word_at _ _ _ k); [done|rewrite <- app_assoc; apply list_lookup_middle; lenz]). mstep. zb.
         reflexivity. }
    mcbn. do 3 f_equal. lenz. }
  apply Forall_app in Hr as [Hr [Hk _]%Forall_cons_1]. rewrite length_app in Hf. simpl in Hf.
  pose proof (lenZ_nonneg pre). pose proof (lenZ_nonneg run).
  destruct (IH (k :: post) fuel Hp Hr ltac:(lia)) as [stop Hrun]. exists stop.
  rewrite <- app_assoc. simpl app. rewrite find_last_index_snoc.
  replace (lenZ (pre ++ run ++ [k]) - 1) with (lenZ (pre ++ run)) by lenz.
  assert ((pre ++ run ++ k :: post) !! Z.to_nat (lenZ (pre ++ run)) = Some k) as Hat.
  { rewrite app_assoc. apply list_lookup_middle. lenz. }
  assert (left_step (S := S) heap (hash_words (pre ++ run ++ k :: post) ++ hj) ((pre ++ run ++ k :: post) ++ kj) key h
            (lenZ (pre ++ run)) st
          = (Ok (if SameValue heap k key then inr (inl (lenZ (pre ++ run))) else inl (lenZ (pre ++ run) - 1)), st)) as Hstep.
  { unfold left_step. pose proof (lenZ_nonneg (pre ++ run)). zb. mstep by (by apply hash_word_at). mstep. zb.
    mstep by (by apply key_at). by destruct (SameValue heap k key). }
  mstep with Hstep. destruct (SameValue heap k key); [mcbn; by rewrite lenZ_app|]. exact Hrun.
Qed.
End search.

(** ** Identities as keys of finite maps *)

#[export] Instance dbl_eq_dec : EqDecision dbl.
Proof. solve_decision. Defined.

#[export] Instance ident_eq_dec : EqDecision ident.
Proof. solve_decision. Defined.

#[export] Instance dbl_countable : Countable dbl.
Proof.
  apply (inj_countable'
    (fun d => match d with DNaN => inl (inl tt) | DInf s => inl (inr s) | DZero s => inr (inl s) | DFin k => inr (inr k) end)
    (fun x => match x with inl (inl _) => DNaN | inl (inr s) => DInf s | inr (inl s) => DZero s | inr (inr k) => DFin k end)).
  by intros [].
Defined.

#[export] Instance JSTaggedValue_countable : Countable JSTaggedValue.
Proof.
  apply (inj_countable'
    (fun v => match v with
              | VInt z => inl (inl z) | VDouble b => inl (inr b) | VObject a => inr (inl a) | VHole => inr (inr 0)
              | VUndefined => inr (inr 1) | VNull => inr (inr 2) | VException => inr (inr 3)
              | VBool b => inr (inr (if b then 4 else 5)) end)
    (fun x => match x with
              | inl (inl z) => VInt z | inl (inr b) => VDouble b | inr (inl a) => VObject a
              | inr (inr 0) => VHole | inr (inr 1) => VUndefined | inr (inr 2) => VNull | inr (inr 3) => VException
              | inr (inr 4) => VBool true | inr (inr _) => VBool false end)).
  by intros [| | | | |[]| |].
Defined.

#[export] Instance ident_countable : Countable ident.
Proof.
  apply (inj_countable'
    (fun i => match i with KNum d => inl (inl d) | KStr u => inl (inr u) | KBig s d => inr (inl (s, d)) | KVal v => inr (inr v) end)
    (fun x => match x with inl (inl d) => KNum d | inl (inr u) => KStr u | inr (inl (s, d)) => KBig s d | inr (inr v) => KVal v end)).
  by intros [].
Defined.


(** ** The abstract state *)

Notation entries := (list (JSTaggedValue * JSTaggedValue)).

Section map.
Context (heap : Heap) (env : HashEnv) (ok : JSTaggedValue -> Prop).
Context (Hheap : heap_wf heap) `{HK : !KeyHash heap (Hash heap env) ok}.
Notation H := (Hash heap env).

(** The entries in the order of their hashes; no two keys are the same. *)
Definition repr (s : JSAPILightWeightMap) (es : entries) (cap : Z) : Prop :=
  (exists hj kj vj,
     s = mkMap ((VInt <$> (H <$> es.*1)) ++ hj) (es.*1 ++ kj) (es.*2 ++ vj) (lenZ es) /\
     lenZ hj = lenZ vj /\ lenZ kj = lenZ vj /\ lenZ es + lenZ vj = cap) /\
  StronglySorted Z.le (H <$> es.*1) /\ NoDup (ident_of heap <$> es.*1) /\ Forall ok es.*1 /\ cap < 2 ^ 31.

Lemma repr_bounds (s : JSAPILightWeightMap) (es : entries) (cap : Z) :
  repr s es cap -> 0 <= lenZ es <= cap /\ cap < 2 ^ 31 /\ length_ s = lenZ es.
Proof.
  intros [(hj & kj & vj & -> & ? & ? & Hc) (_ & _ & _ & ?)].
  pose proof (lenZ_nonneg es). pose proof (lenZ_nonneg vj). simpl. lia.
Qed.

Definition same (key : JSTaggedValue) (e : JSTaggedValue * JSTaggedValue) : Prop := SameValue heap e.1 key = true.

Lemma find_index_keys (key : JSTaggedValue) (ks : list JSTaggedValue) :
  match find_index (fun k => SameValue heap k key) ks with
  | Some j => exists k1 k k2, ks = k1 ++ k :: k2 /\ lenZ k1 = j /\ SameValue heap k key = true
  | None => Forall (fun k => SameValue heap k key = false) ks
  end.
Proof.
  destruct (find_index _ ks) as [j|] eqn:Hf.
  - apply find_index_Some in Hf as (k1 & k & k2 & -> & <- & Hk & _). by exists k1, k, k2.
  - apply find_index_None in Hf. apply list.Forall_forall. intros k Hk%list_elem_of_In.
    rewrite forallb_forall in Hf. by apply negb_true_iff, Hf.
Qed.

Lemma find_last_index_keys (key : JSTaggedValue) (ks : list JSTaggedValue) :
  match find_last_index (fun k => SameValue heap k key) ks with
  | Some j => exists k1 k k2, ks = k1 ++ k :: k2 /\ lenZ k1 = j /\ SameValue heap k key = true
  | None => Forall (fun k => SameValue heap k key = false) ks
  end.
Proof.
  induction ks as [|k ks IH]; simpl; [done|]. destruct (find_last_index _ ks) as [j|].
  - destruct IH as (k1 & x & k2 & -> & <- & Hx). exists (k :: k1), x, k2. split_and!; [done|lenz|done].
  - destruct (SameValue heap k key) eqn:Hk; [by exists [], k, ks|by constructor].
Qed.

(** The scan of the keys with one hash, from any of them. *)
Lemma scan_run {S} (key : JSTaggedValue) (h index : Z) (k1 km k2 : list JSTaggedValue) (hj kj : TaggedArray) (st : S) :
  let ks := k1 ++ km ++ k2 in
  Forall (fun k => H k < h) k1 -> Forall (fun k => H k = h) km -> Forall (fun k => h < H k) k2 ->
  lenZ k1 <= index < lenZ (k1 ++ km) ->
  exists r l, scan_right heap ((VInt <$> (H <$> ks)) ++ hj) (ks ++ kj) key h (lenZ ks) index st = (Ok r, st) /\
    scan_left heap ((VInt <$> (H <$> ks)) ++ hj) (ks ++ kj) key h index st = (Ok l, st) /\
    match r, l with
    | inl i, _ | inr _, inl i => exists p k q, ks = p ++ k :: q /\ lenZ p = i /\ SameValue heap k key = true
    | inr right_, inr _ => right_ = lenZ (k1 ++ km) /\ Forall (fun k => SameValue heap k key = false) km
    end.
Proof.
  intros ks H1 Hm H2 Hi. destruct (split_len km (index - lenZ k1)) as (m1 & m2 & -> & Hl1); [rewrite lenZ_app in Hi; lia|].
  apply Forall_app in Hm as [Hm1 Hm2].
  assert (ks = (k1 ++ m1) ++ m2 ++ k2) as E1 by (unfold ks; by rewrite <- !app_assoc).
  assert (ks = k1 ++ m1 ++ (m2 ++ k2)) as E2 by (unfold ks; by rewrite <- !app_assoc). clearbody ks.
  pose proof (right_loop heap H key h m2 (k1 ++ m1) k2 hj kj (Datatypes.S (Z.to_nat (lenZ ks - index))) st Hm2 H2) as Hr.
  destruct (left_loop heap H key h m1 k1 (m2 ++ k2) hj kj (Datatypes.S (Z.to_nat index)) st H1 Hm1) as [stop Hl].
  { pose proof (lenZ_nonneg k1). lenz. }
  cbv zeta in Hr, Hl. rewrite <- E1 in Hr. rewrite <- E2 in Hl. replace (lenZ (k1 ++ m1)) with index in Hr, Hl by lenz.
  eexists _, _. split_and!; [apply Hr; rewrite E2; pose proof (lenZ_nonneg k2); lenz|exact Hl|].
  pose proof (find_index_keys key m2) as Fr. destruct (find_index _ m2) as [j|].
  { destruct Fr as (p & k & q & -> & <- & Hk). exists (k1 ++ m1 ++ p), k, (q ++ k2). rewrite E2.
    rewrite <- !app_assoc. split_and!; [done|lenz|done]. }
  pose proof (find_last_index_keys key m1) as Fl. destruct (find_last_index _ m1) as [j|].
  { destruct Fl as (p & k & q & -> & <- & Hk). exists (k1 ++ p), k, (q ++ m2 ++ k2). rewrite E2.
    rewrite <- !app_assoc. split_and!; [done|lenz|done]. }
  split; [lenz|by apply Forall_app].
Qed.

(** The place of a key. *)
Definition place (key : JSTaggedValue) (es : entries) (state : KeyState) : Prop :=
  if existed state
  then exists e1 k v e2, es = e1 ++ (k, v) :: e2 /\ lenZ e1 = index state /\ same key (k, v)
  else exists e1 e2, es = e1 ++ e2 /\ lenZ e1 = index state /\ Forall (fun e => H e.1 <= H key) e1 /\
         Forall (fun e => H key < H e.1) e2 /\ Forall (fun e => ~ same key e) es.

Lemma same_ident (k key : JSTaggedValue) : SameValue heap k key = true <-> ident_of heap k = ident_of heap key.
Proof. by apply SameValue_ident. Qed.

(** A key that is not among those with its hash is nowhere. *)
Lemma other_hash (key : JSTaggedValue) (ks : list JSTaggedValue) :
  ok key -> Forall ok ks -> Forall (fun k => H k <> H key) ks -> Forall (fun k => SameValue heap k key = false) ks.
Proof.
  intros Hok Hoks Hne. induction Hne as [|k ks Hk Hks IH]; [done|]. apply Forall_cons_1 in Hoks as [Hokk Hoks].
  constructor; [|by apply IH]. apply not_true_is_false. intros Hsame%same_ident. by apply Hk, hash_ident.
Qed.

(** Splitting the keys splits the entries. *)
Lemma split_keys (es : entries) (k1 k2 : list JSTaggedValue) :
  es.*1 = k1 ++ k2 -> exists e1 e2, es = e1 ++ e2 /\ k1 = e1.*1 /\ k2 = e2.*1.
Proof. intros (e1 & e2 & -> & -> & ->)%fmap_app_inv. by exists e1, e2. Qed.

Lemma lenZ_fmap {A B} (f : A -> B) (l : list A) : lenZ (f <$> l) = lenZ l.
Proof. unfold lenZ. by rewrite length_fmap. Qed.

Lemma place_found (es : entries) (key k : JSTaggedValue) (p q : list JSTaggedValue) :
  es.*1 = p ++ k :: q -> SameValue heap k key = true -> place key es (mkKeyState true (H key) (lenZ p)).
Proof.
  intros (e1 & [|[k' v] e2] & -> & -> & Hq)%split_keys Hk; [done|]. injection Hq as -> ->.
  exists e1, k', v, e2. split_and!; [done| |done]. simpl. by rewrite lenZ_fmap.
Qed.

Lemma place_missing (es : entries) (key : JSTaggedValue) (k1 km k2 : list JSTaggedValue) :
  ok key -> Forall ok es.*1 -> es.*1 = k1 ++ km ++ k2 ->
  Forall (fun k => H k < H key) k1 -> Forall (fun k => H k = H key) km -> Forall (fun k => H key < H k) k2 ->
  Forall (fun k => SameValue heap k key = false) km ->
  place key es (mkKeyState false (H key) (lenZ (k1 ++ km))).
Proof.
  intros Hok Hoks Hks H1 Hm H2 Hno. rewrite app_assoc in Hks.
  assert (Forall (fun k => SameValue heap k key = false) es.*1) as Hnone.
  { rewrite Hks in *. apply Forall_app in Hoks as [[Hok1 _]%Forall_app Hok2].
    apply Forall_app. split; [apply Forall_app; split; [|done]|]; apply other_hash; try done.
    - eapply Forall_impl; [|exact H1]. simpl. lia.
    - eapply Forall_impl; [|exact H2]. simpl. lia. }
  apply split_keys in Hks as (e1 & e2 & -> & Hk1 & ->). exists e1, e2.
  split_and!; [done|by rewrite Hk1, lenZ_fmap|..].
  - apply (Forall_fmap fst (fun k => H k <= H key)). rewrite <- Hk1. apply Forall_app.
    split; [eapply Forall_impl; [|exact H1]|eapply Forall_impl; [|exact Hm]]; simpl; lia.
  - by apply (Forall_fmap fst (fun k => H key < H k)).
  - apply (Forall_fmap fst) in Hnone. eapply Forall_impl; [|exact Hnone]. intros e He. unfold same. simpl in *. congruence.
Qed.

Lemma GetStateOfKey_run (s : JSAPILightWeightMap) (es : entries) (cap : Z) (key : JSTaggedValue) :
  repr s es cap -> ok key ->
  exists state, GetStateOfKey heap env key s = (Ok state, s) /\ hash state = H key /\ place key es state.
Proof.
  intros Hrepr Hok. pose proof (repr_bounds _ _ _ Hrepr) as (Hn & Hcap & Hlens).
  destruct Hrepr as [(hj & kj & vj & Hs & _) (Hsort & _ & Hoks & _)].
  destruct (map_locate H (H key) es.*1 Hsort) as (k1 & km & k2 & Hks & H1 & Hm & H2).
  assert (lenZ (k1 ++ km ++ k2) = lenZ es) as Hlen by (by rewrite <- Hks, lenZ_fmap).
  destruct (BinarySearchHashes_run H (H key) k1 km k2 hj s H1 Hm H2) as (r & Hsearch & Hr); [lia|].
  pose proof (lenZ_nonneg k1) as Hk1.
  assert (hashes s = (VInt <$> (H <$> (k1 ++ km ++ k2))) ++ hj /\ keys s = (k1 ++ km ++ k2) ++ kj) as [Hh Hk]
    by (rewrite Hs, <- Hks; done).
  unfold GetStateOfKey, GetSize, GetArrayByKind, gets, array_of. rewrite <- Hh in Hsearch.
  destruct Hr as [[-> ->]|Hr].
  - eexists. split; [|split; [|apply (place_missing es key k1 [] k2); done]]; [|done].
    mstep. rewrite Hlens, i32_id, <- Hlen by lia. mstep. mstep with Hsearch. rewrite (proj2 (Z.leb_gt _ _)) by lia.
    unfold HASH_REBELLION. pose proof (lenZ_nonneg k2). rewrite !lenZ_app in Hlen. rewrite i32_lnot by lenz.
    by rewrite app_nil_r.
  - destruct (scan_run key (H key) r k1 km k2 hj kj s H1 Hm H2 Hr) as (x & y & Hx & Hy & Hxy).
    rewrite <- Hh, <- Hk in Hx, Hy.
    assert (exists state, (match x, y with
      | inl i, _ | inr _, inl i => mkKeyState true (H key) i
      | inr right_, inr _ => mkKeyState false (H key) right_ end) = state /\ hash state = H key /\ place key es state)
      as (state & Hstate & Hhash & Hplace).
    { eexists. split; [done|]. destruct x as [i|right_]; [|destruct y as [i|stop]]; (split; [done|]).
      - destruct Hxy as (p & k & q & Hpq & <- & Hsame). apply (place_found es key k p q); [congruence|done].
      - destruct Hxy as (p & k & q & Hpq & <- & Hsame). apply (place_found es key k p q); [congruence|done].
      - destruct Hxy as [-> Hno]. by apply (place_missing es key k1 km k2). }
    exists state. split; [|done]. mstep. rewrite Hlens, i32_id, <- Hlen by lia. mstep. mstep with Hsearch.
    rewrite (proj2 (Z.leb_le _ _)) by lia. mstep. mstep with Hx.
    destruct x as [i|right_]; [by rewrite <- Hstate|]. mstep with Hy. destruct y; by rewrite <- Hstate.
Qed.

(** ** The entries as a finite map *)

Definition to_map (es : entries) : gmap ident JSTaggedValue :=
  list_to_map ((fun e => (ident_of heap e.1, e.2)) <$> es).

Lemma to_map_keys (es : entries) : ((fun e => (ident_of heap e.1, e.2)) <$> es).*1 = ident_of heap <$> es.*1.
Proof. induction es as [|e es IH]; [done|]. simpl. f_equal. exact IH. Qed.

Lemma to_map_middle (e1 e2 : entries) (k v : JSTaggedValue) :
  NoDup (ident_of heap <$> (e1 ++ (k, v) :: e2).*1) ->
  to_map (e1 ++ (k, v) :: e2) = <[ident_of heap k := v]> (to_map (e1 ++ e2)).
Proof.
  intros Hnd. unfold to_map. rewrite <- to_map_keys in Hnd.
  rewrite (list_to_map_proper _ ((fun e => (ident_of heap e.1, e.2)) <$> ((k, v) :: e1 ++ e2))); [done|done|].
  apply fmap_Permutation. by rewrite Permutation_middle.
Qed.

Lemma not_same_ident (key : JSTaggedValue) (es : entries) :
  Forall (fun e => ~ same key e) es -> ident_of heap key ∉ ident_of heap <$> es.*1.
Proof.
  intros Hno. rewrite <- list_fmap_compose. intros (e & He & Hin)%list_elem_of_fmap.
  rewrite list.Forall_forall in Hno. apply (Hno e Hin). by apply same_ident.
Qed.

Lemma to_map_None (es : entries) (key : JSTaggedValue) :
  Forall (fun e => ~ same key e) es -> to_map es !! ident_of heap key = None.
Proof.
  intros Hno. apply not_elem_of_list_to_map. rewrite to_map_keys. by apply not_same_ident.
Qed.

Lemma to_map_size (es : entries) : NoDup (ident_of heap <$> es.*1) -> Z.of_nat (size (to_map es)) = lenZ es.
Proof.
  intros Hnd. unfold to_map. rewrite map_size_list_to_map by (by rewrite to_map_keys). by rewrite length_fmap.
Qed.

(** ** The arrays *)

Definition grown (cap need : Z) : Z := if need <=? cap then cap else ComputeCapacity need.

Lemma ComputeCapacity_bounds (n : Z) : 0 <= n < 2 ^ 30 -> n <= ComputeCapacity n <= 8 + 2 * n.
Proof.
  intros Hn. unfold ComputeCapacity, DEFAULT_CAPACITY_LENGTH. rewrite Z.shiftr_div_pow2, u32_small by zlia.
  destruct (Z.ltb_spec 8 (n + n / 2 ^ 1)); zlia.
Qed.

Lemma grown_bounds (cap need : Z) : 0 <= need < 2 ^ 30 -> need <= grown cap need <= Z.max cap (8 + 2 * need) /\ cap <= grown cap need.
Proof.
  intros Hn. unfold grown. pose proof (ComputeCapacity_bounds need Hn). destruct (Z.leb_spec need cap); lia.
Qed.

Lemma GrowCapacity_run {S} (a : TaggedArray) (need : Z) (st : S) :
  0 <= need < 2 ^ 30 ->
  GrowCapacity a need st = (Ok (a ++ replicate (Z.to_nat (grown (lenZ a) need - lenZ a)) VHole), st).
Proof.
  intros Hn. unfold GrowCapacity, grown. pose proof (ComputeCapacity_bounds need Hn).
  destruct (Z.leb_spec need (lenZ a)).
  - by rewrite Z.sub_diag, app_nil_r.
  - apply CopyArray_grow. lia.
Qed.

Lemma InsertValue_run (s : JSAPILightWeightMap) (kind : AccossorsKind) (v : JSTaggedValue) (pre mid junk : TaggedArray) :
  array_of kind s = pre ++ mid ++ junk -> length_ s = lenZ pre + lenZ mid -> lenZ pre + lenZ mid + 1 < 2 ^ 30 ->
  exists junk', InsertValue (lenZ pre) v kind s = (Ok tt, set_array kind (pre ++ v :: mid ++ junk') s) /\
    lenZ pre + lenZ mid + 1 + lenZ junk' = grown (lenZ pre + lenZ mid + lenZ junk) (lenZ pre + lenZ mid + 1).
Proof.
  intros Ha Hl Hb. pose proof (lenZ_nonneg pre). pose proof (lenZ_nonneg mid).
  set (n := lenZ pre + lenZ mid) in *. set (cap := n + lenZ junk).
  assert (lenZ (pre ++ mid ++ junk) = cap) as Hcap by (unfold cap, n; rewrite !lenZ_app; lia).
  pose proof (grown_bounds cap (n + 1) ltac:(lia)) as Hg.
  destruct (junk ++ replicate (Z.to_nat (grown cap (n + 1) - cap)) VHole) as [|y junk'] eqn:Hj.
  { apply (f_equal lenZ) in Hj. rewrite lenZ_app, lenZ_replicate, lenZ_nil in Hj. unfold cap in *. lia. }
  exists junk'. split.
  - unfold InsertValue, GetArrayByKind, GetSize. mstep. mstep. rewrite Ha, Hl, u32_small by lia.
    mstep by (apply GrowCapacity_run; lia). rewrite Hcap, <- !app_assoc, Hj.
    mstep by (apply build_run, InsertElementByIndex_run; done). done.
  - apply (f_equal lenZ) in Hj. rewrite lenZ_app, lenZ_replicate, lenZ_cons in Hj. unfold cap in *. lia.
Qed.

Lemma RemoveValue_run (s : JSAPILightWeightMap) (kind : AccossorsKind) (x : JSTaggedValue) (pre mid junk : TaggedArray) :
  array_of kind s = pre ++ x :: mid ++ junk -> length_ s = lenZ pre + 1 + lenZ mid -> length_ s < 2 ^ 31 ->
  RemoveValue (lenZ pre) kind s = (Ok tt, set_array kind (pre ++ mid ++ VHole :: junk) s).
Proof.
  intros Ha Hl Hb. unfold RemoveValue, GetSize. mstep. pose proof (lenZ_nonneg mid). rewrite Hl. zb. mstep.
  unfold on_array. apply zoom_run. rewrite Ha. apply RemoveElementByIndex_run; lia.
Qed.

(** ** The operations *)

Lemma sorted_cons (e : JSTaggedValue * JSTaggedValue) (es : entries) :
  StronglySorted Z.le (H <$> (e :: es).*1) <->
  StronglySorted Z.le (H <$> es.*1) /\ Forall (fun e' => H e.1 <= H e'.1) es.
Proof.
  rewrite !fmap_cons. split.
  - intros [Hs He]%StronglySorted_inv. rewrite !Forall_fmap in He. done.
  - intros [Hs He]. constructor; [done|]. by rewrite !Forall_fmap.
Qed.

Lemma sorted_insert (e1 e2 : entries) (key v : JSTaggedValue) :
  StronglySorted Z.le (H <$> (e1 ++ e2).*1) -> Forall (fun e => H e.1 <= H key) e1 ->
  Forall (fun e => H key < H e.1) e2 -> StronglySorted Z.le (H <$> (e1 ++ (key, v) :: e2).*1).
Proof.
  induction e1 as [|e e1 IH]; intros Hs H1 H2.
  - apply sorted_cons. split; [done|]. eapply Forall_impl; [|exact H2]. simpl. lia.
  - rewrite <- app_comm_cons in *. apply sorted_cons in Hs as [Hs He]. apply Forall_cons_1 in H1 as [Hk H1].
    apply sorted_cons. split; [by apply IH|]. apply Forall_app in He as [He1 He2]. apply Forall_app.
    split; [done|]. by constructor.
Qed.

Lemma sorted_remove (e1 e2 : entries) (e : JSTaggedValue * JSTaggedValue) :
  StronglySorted Z.le (H <$> (e1 ++ e :: e2).*1) -> StronglySorted Z.le (H <$> (e1 ++ e2).*1).
Proof.
  induction e1 as [|e' e1 IH]; intros Hs.
  - by apply sorted_cons in Hs as [Hs _].
  - rewrite <- app_comm_cons in *. apply sorted_cons in Hs as [Hs He]. apply sorted_cons. split; [by apply IH|].
    apply Forall_app in He as [He1 [_ He2]%Forall_cons_1]. by apply Forall_app.
Qed.

Lemma nodup_middle (e1 e2 : entries) (k v : JSTaggedValue) :
  NoDup (ident_of heap <$> (e1 ++ (k, v) :: e2).*1) <->
  ident_of heap k ∉ ident_of heap <$> (e1 ++ e2).*1 /\ NoDup (ident_of heap <$> (e1 ++ e2).*1).
Proof.
  rewrite (fmap_app fst e1 ((k, v) :: e2)), fmap_cons, fmap_app, fmap_cons.
  transitivity (NoDup (ident_of heap k :: (ident_of heap <$> e1.*1) ++ (ident_of heap <$> e2.*1))).
  - apply NoDup_Permutation_proper. symmetry. apply Permutation_middle.
  - rewrite list.NoDup_cons. by rewrite (fmap_app fst e1 e2), fmap_app.
Qed.

(** A new entry in all three arrays. *)
Lemma insert_entry_run (s : JSAPILightWeightMap) (e1 e2 : entries) (cap : Z) (key v : JSTaggedValue) :
  repr s (e1 ++ e2) cap -> ok key -> lenZ (e1 ++ e2) + 1 < 2 ^ 29 -> cap < 2 ^ 30 ->
  Forall (fun e => H e.1 <= H key) e1 -> Forall (fun e => H key < H e.1) e2 -> Forall (fun e => ~ same key e) (e1 ++ e2) ->
  exists s', (InsertValue (lenZ e1) (VInt (H key)) HASH;; InsertValue (lenZ e1) key KEY;;
              InsertValue (lenZ e1) v VALUE;; modify (fun s => set_length (u32 (length_ s + 1)) s)) s = (Ok tt, s') /\
    repr s' (e1 ++ (key, v) :: e2) (grown cap (lenZ (e1 ++ e2) + 1)).
Proof.
  intros [(hj & kj & vj & -> & Hhj & Hkj & Hcap) (Hs & Hnd & Hoks & _)] Hok Hb Hbc H1 H2 Hno.
  rewrite !lenZ_app in Hb, Hcap. pose proof (lenZ_nonneg e1) as Hp1. pose proof (lenZ_nonneg e2) as Hp2.
  set (hs := fun es : entries => VInt <$> (H <$> es.*1)).
  assert (forall es, lenZ (hs es) = lenZ es) as Hlh by (intros es; unfold hs; by rewrite !lenZ_fmap).
  destruct (InsertValue_run (mkMap (hs (e1 ++ e2) ++ hj) ((e1 ++ e2).*1 ++ kj) ((e1 ++ e2).*2 ++ vj) (lenZ (e1 ++ e2)))
              HASH (VInt (H key)) (hs e1) (hs e2) hj) as (hj' & Hrun1 & Hhj').
  { unfold hs. simpl. by rewrite !fmap_app, <- app_assoc. }
  { rewrite !Hlh. apply lenZ_app. }
  { rewrite !Hlh. lia. }
  set (s1 := set_array HASH _ _) in Hrun1.
  destruct (InsertValue_run s1 KEY key e1.*1 e2.*1 kj) as (kj' & Hrun2 & Hkj').
  { simpl. by rewrite fmap_app, <- app_assoc. }
  { rewrite !lenZ_fmap. apply lenZ_app. }
  { rewrite !lenZ_fmap. lia. }
  set (s2 := set_array KEY _ s1) in Hrun2.
  destruct (InsertValue_run s2 VALUE v e1.*2 e2.*2 vj) as (vj' & Hrun3 & Hvj').
  { simpl. by rewrite fmap_app, <- app_assoc. }
  { rewrite !lenZ_fmap. apply lenZ_app. }
  { rewrite !lenZ_fmap. lia. }
  rewrite Hlh in Hrun1. rewrite !Hlh in Hhj'. rewrite !lenZ_fmap in Hkj'. rewrite !lenZ_fmap in Hvj'. rewrite lenZ_fmap in Hrun2. rewrite lenZ_fmap in Hrun3.
  eexists. split; [mstep with Hrun1; mstep with Hrun2; mstep with Hrun3; reflexivity|].
  pose proof (grown_bounds cap (lenZ (e1 ++ e2) + 1) ltac:(rewrite lenZ_app; lia)) as Hg.
  split_and!.
  - exists hj', kj', vj'. unfold s2, s1. simpl. unfold hs. rewrite !fmap_app, <- !app_assoc. split.
    { rewrite u32_small by (rewrite lenZ_app; lia). unfold set_length. cbn [hashes keys values length_].
      replace (lenZ (e1 ++ (key, v) :: e2)) with (lenZ (e1 ++ e2) + 1) by lenz. done. }
    rewrite !lenZ_app, lenZ_cons in *. rewrite Hcap, Hhj, Hkj in *.
    replace (lenZ e1 + lenZ e2 + lenZ vj) with cap in * by lia. lia.
  - by apply sorted_insert.
  - apply nodup_middle. split; [by apply not_same_ident|done].
  - rewrite fmap_app in *. apply Forall_app in Hoks as [Ho1 Ho2]. apply Forall_app. by split; [|constructor].
  - rewrite lenZ_app in Hg |- *. lia.
Qed.

(** An entry less in all three arrays. *)
Lemma remove_entry_run (s : JSAPILightWeightMap) (e1 e2 : entries) (k v : JSTaggedValue) (cap : Z) :
  repr s (e1 ++ (k, v) :: e2) cap ->
  exists s', (forall A (rest : M JSAPILightWeightMap A),
      (RemoveValue (lenZ e1) HASH;; RemoveValue (lenZ e1) VALUE;; RemoveValue (lenZ e1) KEY;; rest) s = rest s') /\
    length_ s' = lenZ e1 + 1 + lenZ e2 /\ repr (set_length (lenZ e1 + lenZ e2) s') (e1 ++ e2) cap.
Proof.
  intros [(hj & kj & vj & -> & Hhj & Hkj & Hcap) (Hs & Hnd & Hoks & Hb)].
  pose proof (lenZ_nonneg e1) as Hp1. pose proof (lenZ_nonneg e2) as Hp2. pose proof (lenZ_nonneg vj) as Hp3.
  set (hs := fun es : entries => VInt <$> (H <$> es.*1)). rewrite lenZ_app, lenZ_cons in Hcap.
  assert (forall es, lenZ (hs es) = lenZ es) as Hlh by (intros es; unfold hs; by rewrite !lenZ_fmap).
  set (s0 := mkMap _ _ _ _). assert (length_ s0 = lenZ e1 + 1 + lenZ e2) as Hl0 by (simpl; lenz).
  pose proof (RemoveValue_run s0 HASH (VInt (H k)) (hs e1) (hs e2) hj) as R1. rewrite !Hlh in R1.
  set (s1 := set_array HASH _ _) in R1.
  pose proof (RemoveValue_run s1 VALUE v e1.*2 e2.*2 vj) as R2. rewrite !lenZ_fmap in R2. set (s2 := set_array VALUE _ s1) in R2.
  pose proof (RemoveValue_run s2 KEY k e1.*1 e2.*1 kj) as R3. rewrite !lenZ_fmap in R3. set (s3 := set_array KEY _ s2) in R3.
  exists s3. split_and!; [|done|].
  - intros A rest. mstep by (apply R1; [by simpl; unfold hs; rewrite !fmap_app, <- app_assoc|lia|lia]).
    mstep by (apply R2; [by simpl; rewrite fmap_app, <- app_assoc|exact Hl0|simpl; lenz]).
    mstep by (apply R3; [by simpl; rewrite fmap_app, <- app_assoc|exact Hl0|simpl; lenz]). done.
  - split_and!; [|by eapply sorted_remove|by apply nodup_middle in Hnd as [_ Hnd]| |done].
    + exists (VHole :: hj), (VHole :: kj), (VHole :: vj). rewrite !lenZ_cons, lenZ_app. split_and!; [|lia|lia|lia].
      unfold s3, s2, s1, set_length, hs. cbn [set_array hashes keys values length_].
      by rewrite !fmap_app, <- !app_assoc.
    + rewrite fmap_app in *. apply Forall_app in Hoks as [Ho1 [_ Ho2]%Forall_cons_1]. by apply Forall_app.
Qed.

(** Reading and replacing the value of an entry. *)
Lemma value_read (s : JSAPILightWeightMap) (e1 e2 : entries) (k v : JSTaggedValue) (cap : Z) :
  repr s (e1 ++ (k, v) :: e2) cap -> on_array VALUE (Arr.Get (lenZ e1)) s = (Ok v, s).
Proof.
  intros [(hj & kj & vj & -> & _) _]. unfold on_array. rewrite (fmap_app snd), <- app_assoc.
  erewrite zoom_run by (simpl; apply Get_mid; by rewrite lenZ_fmap). done.
Qed.

Lemma key_read (s : JSAPILightWeightMap) (e1 e2 : entries) (k v : JSTaggedValue) (cap : Z) :
  repr s (e1 ++ (k, v) :: e2) cap -> on_array KEY (Arr.Get (lenZ e1)) s = (Ok k, s).
Proof.
  intros [(hj & kj & vj & -> & _) _]. unfold on_array. rewrite (fmap_app fst), <- app_assoc.
  erewrite zoom_run by (simpl; apply Get_mid; by rewrite lenZ_fmap). done.
Qed.

Lemma replace_value_run (s : JSAPILightWeightMap) (e1 e2 : entries) (k v v' : JSTaggedValue) (cap : Z) :
  repr s (e1 ++ (k, v) :: e2) cap ->
  exists s', ReplaceValue (lenZ e1) v' VALUE s = (Ok tt, s') /\ repr s' (e1 ++ (k, v') :: e2) cap.
Proof.
  intros [(hj & kj & vj & -> & Hj) Hrest]. pose proof (lenZ_nonneg e1) as Hp1.
  exists (mkMap ((VInt <$> (H <$> (e1 ++ (k, v) :: e2).*1)) ++ hj) ((e1 ++ (k, v) :: e2).*1 ++ kj)
            (e1.*2 ++ v' :: e2.*2 ++ vj) (lenZ (e1 ++ (k, v) :: e2))).
  assert ((e1 ++ (k, v') :: e2).*1 = (e1 ++ (k, v) :: e2).*1) as Hk by (by rewrite !fmap_app).
  assert (lenZ (e1 ++ (k, v') :: e2) = lenZ (e1 ++ (k, v) :: e2)) as Hl by lenz. split.
  - unfold ReplaceValue. mstep. rewrite (proj2 (Z.leb_le 0 _)) by lia. mstep. unfold on_array.
    erewrite zoom_run; [reflexivity|]. simpl. rewrite (fmap_app snd), <- app_assoc. apply Set_mid. by rewrite lenZ_fmap.
  - unfold repr. rewrite Hk. split; [|done]. exists hj, kj, vj. rewrite Hl. split; [|done].
    f_equal. by rewrite (fmap_app snd), <- app_assoc.
Qed.

Lemma repr_nodup (s : JSAPILightWeightMap) (es : entries) (cap : Z) :
  repr s es cap -> NoDup (ident_of heap <$> es.*1).
Proof. by intros (_ & _ & ? & _). Qed.

Lemma to_map_same (s : JSAPILightWeightMap) (e1 e2 : entries) (k v key : JSTaggedValue) (cap : Z) :
  repr s (e1 ++ (k, v) :: e2) cap -> same key (k, v) ->
  to_map (e1 ++ (k, v) :: e2) = <[ident_of heap key := v]> (to_map (e1 ++ e2)) /\
  to_map (e1 ++ e2) !! ident_of heap key = None.
Proof.
  intros Hr Hk%same_ident. simpl in Hk. pose proof (repr_nodup _ _ _ Hr) as Hnd. rewrite <- Hk. split.
  - by apply to_map_middle.
  - apply not_elem_of_list_to_map. rewrite to_map_keys. by apply nodup_middle in Hnd as [Hnd _].
Qed.

Lemma map_Set_run (s : JSAPILightWeightMap) (es : entries) (cap : Z) (key v : JSTaggedValue) :
  repr s es cap -> ok key -> lenZ es + 1 < 2 ^ 29 -> cap < 2 ^ 30 ->
  exists s' es' cap', Set_ heap env key v s = (Ok tt, s') /\ repr s' es' cap' /\
    to_map es' = <[ident_of heap key := v]> (to_map es) /\ lenZ es' <= lenZ es + 1 /\
    cap' <= Z.max cap (8 + 2 * (lenZ es + 1)).
Proof.
  intros Hr Hok Hb Hbc. destruct (GetStateOfKey_run s es cap key Hr Hok) as ([ex h i] & Hrun & Hh & Hplace).
  simpl in Hh. subst h. unfold Set_, place in *. cbn [existed index] in Hplace. destruct ex.
  - destruct Hplace as (e1 & k & w & e2 & -> & <- & Hsame).
    destruct (replace_value_run s e1 e2 k w v cap Hr) as (s' & Hrep & Hr').
    exists s', (e1 ++ (k, v) :: e2), cap. split_and!; [by mstep with Hrun|done| |lenz|lia].
    destruct (to_map_same s e1 e2 k w key cap Hr Hsame) as [-> _].
    destruct (to_map_same s' e1 e2 k v key cap Hr' Hsame) as [-> _]. by rewrite insert_insert_eq.
  - destruct Hplace as (e1 & e2 & -> & <- & H1 & H2 & Hno).
    destruct (insert_entry_run s e1 e2 cap key v Hr Hok Hb Hbc H1 H2 Hno) as (s' & Hins & Hr').
    pose proof (lenZ_nonneg (e1 ++ e2)) as Hp.
    pose proof (grown_bounds cap (lenZ (e1 ++ e2) + 1) ltac:(lia)) as Hg.
    exists s', (e1 ++ (key, v) :: e2), (grown cap (lenZ (e1 ++ e2) + 1)).
    split_and!; [by mstep with Hrun|done| |lenz|lia]. apply to_map_middle. by eapply repr_nodup.
Qed.

(** The index of a key: where its entry is, or -1. *)
Definition index_of (key : JSTaggedValue) (es : entries) (i : Z) : Prop :=
  (i = -1 /\ Forall (fun e => ~ same key e) es) \/
  (exists e1 k v e2, es = e1 ++ (k, v) :: e2 /\ lenZ e1 = i /\ same key (k, v)).

Lemma GetIndexOfKey_run (s : JSAPILightWeightMap) (es : entries) (cap : Z) (key : JSTaggedValue) :
  repr s es cap -> ok key ->
  exists i, GetIndexOfKey heap env key s = (Ok i, s) /\ index_of key es i.
Proof.
  intros Hr Hok. destruct (GetStateOfKey_run s es cap key Hr Hok) as ([ex h i] & Hrun & _ & Hplace).
  unfold place in Hplace. cbn [existed index] in Hplace. unfold GetIndexOfKey.
  exists (if ex then i else -1). split; [by mstep with Hrun|]. destruct ex; [by right|left].
  by destruct Hplace as (e1 & e2 & _ & _ & _ & _ & Hno).
Qed.

(** What the map holds for a key whose place is known. *)
Lemma to_map_index (s : JSAPILightWeightMap) (es : entries) (cap : Z) (key : JSTaggedValue) (i : Z) :
  repr s es cap -> index_of key es i ->
  match to_map es !! ident_of heap key with
  | Some v => exists e1 k e2, es = e1 ++ (k, v) :: e2 /\ lenZ e1 = i /\ same key (k, v)
  | None => i = -1
  end.
Proof.
  intros Hr [[-> Hno]|(e1 & k & v & e2 & -> & <- & Hsame)].
  - by rewrite to_map_None.
  - destruct (to_map_same s e1 e2 k v key cap Hr Hsame) as [-> _]. rewrite lookup_insert_eq. by exists e1, k, e2.
Qed.

Lemma Get_run (s : JSAPILightWeightMap) (es : entries) (cap : Z) (key : JSTaggedValue) :
  repr s es cap -> ok key ->
  Get heap env key s = (Ok (default VUndefined (to_map es !! ident_of heap key)), s).
Proof.
  intros Hr Hok. destruct (GetIndexOfKey_run s es cap key Hr Hok) as (i & Hrun & Hi).
  pose proof (to_map_index s es cap key i Hr Hi) as Hm. unfold Get. mstep with Hrun.
  destruct (to_map es !! ident_of heap key) as [v|]; [|by subst i].
  destruct Hm as (e1 & k & e2 & -> & <- & _). pose proof (lenZ_nonneg e1) as Hp. zb. by apply value_read with e2 k cap.
Qed.

Lemma HasKey_run (s : JSAPILightWeightMap) (es : entries) (cap : Z) (key : JSTaggedValue) :
  repr s es cap -> ok key ->
  HasKey heap env key s = (Ok (bool_decide (is_Some (to_map es !! ident_of heap key))), s).
Proof.
  intros Hr Hok. destruct (GetStateOfKey_run s es cap key Hr Hok) as ([ex h i] & Hrun & _ & Hplace).
  unfold place in Hplace. cbn [existed index] in Hplace. unfold HasKey. mstep with Hrun. mcbn. do 2 f_equal. destruct ex.
  - destruct Hplace as (e1 & k & v & e2 & -> & _ & Hsame).
    destruct (to_map_same s e1 e2 k v key cap Hr Hsame) as [-> _]. rewrite lookup_insert_eq. symmetry.
    by apply bool_decide_eq_true_2.
  - destruct Hplace as (e1 & e2 & _ & _ & _ & _ & Hno). by rewrite to_map_None.
Qed.

Lemma Remove_run (s : JSAPILightWeightMap) (es : entries) (cap : Z) (key : JSTaggedValue) :
  repr s es cap -> ok key ->
  exists s' es', Remove heap env key s = (Ok (default VUndefined (to_map es !! ident_of heap key)), s') /\
    repr s' es' cap /\ to_map es' = delete (ident_of heap key) (to_map es) /\ lenZ es' <= lenZ es.
Proof.
  intros Hr Hok. destruct (GetStateOfKey_run s es cap key Hr Hok) as ([ex h i] & Hrun & _ & Hplace).
  unfold place in Hplace. cbn [existed index] in Hplace. unfold Remove. destruct ex.
  - destruct Hplace as (e1 & k & v & e2 & -> & <- & Hsame).
    destruct (to_map_same s e1 e2 k v key cap Hr Hsame) as [-> Hnone].
    destruct (remove_entry_run s e1 e2 k v cap Hr) as (s' & Hrem & Hl & Hr').
    pose proof (repr_bounds _ _ _ Hr) as (Hn & Hcap & Hls). rewrite lenZ_app, lenZ_cons in Hn.
    pose proof (lenZ_nonneg e1) as Hp1. pose proof (lenZ_nonneg e2) as Hp2.
    exists (set_length (lenZ e1 + lenZ e2) s'), (e1 ++ e2). rewrite lookup_insert_eq, delete_insert_eq, delete_id by done.
    split_and!; [|done|done|lenz]. mstep with Hrun. cbn [existed index negb]. mstep by (by apply value_read with e2 k cap).
    rewrite Hrem. mcbn. rewrite Hl, u32_small by lia. do 2 f_equal. lia.
  - destruct Hplace as (e1 & e2 & Hes & _ & _ & _ & Hno). exists s, es.
    rewrite to_map_None, delete_id by (done || by apply to_map_None). split_and!; [by mstep with Hrun|done|done|lia].
Qed.

Lemma RemoveAt_run (s : JSAPILightWeightMap) (e1 e2 : entries) (k v : JSTaggedValue) (cap : Z) :
  repr s (e1 ++ (k, v) :: e2) cap ->
  exists s', RemoveAt (lenZ e1) s = (Ok true, s') /\ repr s' (e1 ++ e2) cap.
Proof.
  intros Hr. destruct (remove_entry_run s e1 e2 k v cap Hr) as (s' & Hrem & Hl & Hr').
  pose proof (repr_bounds _ _ _ Hr) as (Hn & Hcap & Hls). rewrite lenZ_app, lenZ_cons in Hn, Hls.
  pose proof (lenZ_nonneg e1) as Hp1. pose proof (lenZ_nonneg e2) as Hp2.
  exists (set_length (lenZ e1 + lenZ e2) s'). split; [|done]. unfold RemoveAt, GetSize. mstep. rewrite Hls, i32_id by lia.
  zb. rewrite Hrem. mcbn. rewrite u32_small by lia. do 2 f_equal. lia.
Qed.

(** ** Clear and IncreaseCapacityTo *)

Lemma new_repr : repr LightWeightMapConstructor [] 8.
Proof.
  split_and!; [|constructor|constructor|constructor|done].
  exists (replicate 8 VHole), (replicate 8 VHole), (replicate 8 VHole). by split_and!.
Qed.

Lemma Clear_run (s : JSAPILightWeightMap) : Clear s = (Ok tt, LightWeightMapConstructor).
Proof. by destruct s. Qed.

(** A capacity request below 8 or not above the size is refused; any other
    is granted by all three arrays, and the entries stay. *)
Theorem lightweightmap_IncreaseCapacityTo_spec (s : JSAPILightWeightMap) (es : entries) (cap index : Z) :
  repr s es cap -> cap < 2 ^ 30 -> INT32_MIN <= index < 2 ^ 29 ->
  exists s', IncreaseCapacityTo index s = (Ok (negb ((index <? 8) || (index <=? lenZ es))), s') /\
    repr s' es (if (index <? 8) || (index <=? lenZ es) then cap else grown cap index).
Proof.
  intros Hr Hb Hi. pose proof (repr_bounds _ _ _ Hr) as (Hn & _ & Hls).
  unfold IncreaseCapacityTo, GetSize, DEFAULT_CAPACITY_LENGTH. destruct ((index <? 8) || (index <=? lenZ es)) eqn:Hc.
  { exists s. split; [|done]. mstep. rewrite Hls, i32_id, Hc by lia. done. }
  pose proof Hc as [Hc1%Z.ltb_ge Hc2%Z.leb_gt]%orb_false_iff.
  destruct Hr as [(hj & kj & vj & -> & Hhj & Hkj & Hcap) (Hs & Hnd & Hoks & _)].
  assert (forall (l : TaggedArray) j, lenZ l = lenZ es -> lenZ j = lenZ vj -> lenZ (l ++ j) = cap) as Hlen.
  { intros l j Hl Hj. rewrite lenZ_app. lia. }
  pose proof (grown_bounds cap index ltac:(lia)) as Hg. set (n := Z.to_nat (grown cap index - cap)).
  eexists. split.
  - mstep. cbn [length_]. rewrite i32_id, Hc by lia. mstep. mstep. mstep. cbn [array_of hashes keys values].
    mstep by (apply GrowCapacity_run; lia). mstep by (apply GrowCapacity_run; lia). mstep by (apply GrowCapacity_run; lia).
    reflexivity.
  - cbn [set_array hashes keys values length_].
    rewrite !Hlen by (by rewrite ?lenZ_fmap). fold n. rewrite <- !app_assoc.
    split_and!; [|done|done|done|lia]. exists (hj ++ replicate n VHole), (kj ++ replicate n VHole), (vj ++ replicate n VHole).
    rewrite !lenZ_app, !lenZ_replicate. split_and!; [done|lia|lia|]. unfold n. lia.
Qed.

(** ** Access by position *)

Definition entry_lookup (es : entries) (i : Z) : option (JSTaggedValue * JSTaggedValue) :=
  if i <? 0 then None else es !! Z.to_nat i.

Lemma entry_split (es : entries) (i : Z) :
  match entry_lookup es i with
  | Some (k, v) => exists e1 e2, es = e1 ++ (k, v) :: e2 /\ lenZ e1 = i /\ (i <? 0) || (lenZ es <=? i) = false
  | None => (i <? 0) || (lenZ es <=? i) = true
  end.
Proof.
  unfold entry_lookup. destruct (Z.ltb_spec i 0) as [|Hi]; simpl; [done|].
  destruct (es !! Z.to_nat i) as [[k v]|] eqn:E.
  - pose proof (lookup_lt_Some _ _ _ E) as Hlt. exists (take (Z.to_nat i) es), (drop (Datatypes.S (Z.to_nat i)) es).
    rewrite take_drop_middle by done. split_and!; [done| |unfold lenZ; lia]. unfold lenZ. rewrite length_take. lia.
  - apply lookup_ge_None in E. unfold lenZ. lia.
Qed.

Lemma GetKeyAt_run (s : JSAPILightWeightMap) (es : entries) (cap i : Z) :
  repr s es cap -> GetKeyAt i s = (match entry_lookup es i with Some e => Ok e.1 | None => Throw RANGE_ERROR end, s).
Proof.
  intros Hr. pose proof (repr_bounds _ _ _ Hr) as (Hn & Hcap & Hls). unfold GetKeyAt, GetSize. mstep.
  rewrite Hls, i32_id by lia. pose proof (entry_split es i) as Hs. destruct (entry_lookup es i) as [[k v]|].
  - destruct Hs as (e1 & e2 & -> & <- & ->). by apply key_read with e2 v cap.
  - by rewrite Hs.
Qed.

Lemma GetValueAt_run (s : JSAPILightWeightMap) (es : entries) (cap i : Z) :
  repr s es cap -> GetValueAt i s = (match entry_lookup es i with Some e => Ok e.2 | None => Throw RANGE_ERROR end, s).
Proof.
  intros Hr. pose proof (repr_bounds _ _ _ Hr) as (Hn & Hcap & Hls). unfold GetValueAt, GetSize. mstep.
  rewrite Hls, i32_id by lia. pose proof (entry_split es i) as Hs. destruct (entry_lookup es i) as [[k v]|].
  - destruct Hs as (e1 & e2 & -> & <- & ->). by apply value_read with e2 k cap.
  - by rewrite Hs.
Qed.

(** Keys and values at an index are those of the entries, which are in
    ascending order of hashes; an index outside is a range error (false for
    removeAt); a value can be replaced and an entry removed by its index; the
    index of a key is where its entry is. *)
Theorem lightweightmap_positions (s : JSAPILightWeightMap) (es : entries) (cap i : Z) (key v : JSTaggedValue) :
  repr s es cap -> ok key ->
  StronglySorted Z.le (H <$> es.*1) /\
  GetKeyAt i s = (match entry_lookup es i with Some e => Ok e.1 | None => Throw RANGE_ERROR end, s) /\
  GetValueAt i s = (match entry_lookup es i with Some e => Ok e.2 | None => Throw RANGE_ERROR end, s) /\
  (exists j, GetIndexOfKey heap env key s = (Ok j, s) /\ index_of key es j) /\
  (exists s', SetValueAt i v s = (if entry_lookup es i then Ok true else Throw RANGE_ERROR, s') /\
     repr s' (match entry_lookup es i with Some (k, _) => <[Z.to_nat i := (k, v)]> es | None => es end) cap) /\
  (exists s', RemoveAt i s = (Ok (if entry_lookup es i then true else false), s') /\
     repr s' (match entry_lookup es i with Some _ => delete (Z.to_nat i) es | None => es end) cap).
Proof.
  intros Hr Hok. pose proof (repr_bounds _ _ _ Hr) as (Hn & Hcap & Hls).
  split_and!; [by destruct Hr as [_ [? _]]|by apply GetKeyAt_run with cap|by apply GetValueAt_run with cap|
               by apply GetIndexOfKey_run with cap|..];
    pose proof (entry_split es i) as Hs; destruct (entry_lookup es i) as [[k w]|].
  - destruct Hs as (e1 & e2 & -> & <- & Hin). destruct (replace_value_run s e1 e2 k w v cap Hr) as (s' & Hrep & Hr').
    exists s'. split.
    + unfold SetValueAt, GetSize. mstep. rewrite Hls, i32_id, Hin by lia. by mstep with Hrep.
    + unfold lenZ. by rewrite Nat2Z.id, insert_app_r_alt, Nat.sub_diag by done.
  - exists s. split; [|done]. unfold SetValueAt, GetSize. mstep. rewrite Hls, i32_id, Hs by lia. done.
  - destruct Hs as (e1 & e2 & -> & <- & Hin). destruct (RemoveAt_run s e1 e2 k w cap Hr) as (s' & Hrem & Hr').
    exists s'. split; [done|]. unfold lenZ. by rewrite Nat2Z.id, delete_middle.
  - exists s. split; [|done]. unfold RemoveAt, GetSize. mstep. rewrite Hls, i32_id, Hs by lia. done.
Qed.

(** HasValue searches the values by SameValue and getIndexOfValue by words:
    they find the first one. *)
Theorem lightweightmap_values_spec (s : JSAPILightWeightMap) (es : entries) (cap : Z) (v : JSTaggedValue) :
  repr s es cap ->
  HasValue heap v s = (Ok (existsb (fun x => SameValue heap x v) es.*2), s) /\
  GetIndexOfValue v s = (Ok (default (-1) (find_index (fun x => word_eqb x v) es.*2)), s).
Proof.
  intros [(hj & kj & vj & -> & _) _]. assert (Z.to_nat (lenZ es) = length es.*2) as Hl.
  { unfold lenZ. rewrite length_fmap. lia. }
  unfold HasValue, GetIndexOfValue. split; mstep; cbn [length_]; rewrite Hl.
  - mstep by (apply zoom_run; simpl; by apply (find_up_run (fun x => SameValue heap x v) [])).
    rewrite existsb_find_index. by destruct (find_index _ es.*2).
  - mstep by (apply zoom_run; simpl; by apply (find_up_run (fun x => word_eqb x v) [])).
    by destruct (find_index _ es.*2).
Qed.

(** Iterating yields the entries in the order of their hashes, as keys,
    values or pairs, although the values are looked up by key. *)
Theorem lightweightmap_iterator_yields_entries (s : JSAPILightWeightMap) (es : entries) (cap : Z) (kind : IterationKind) :
  repr s es cap ->
  drain (Next heap env kind) (Datatypes.S (length es)) NewJSAPILightWeightMapIterator s
  = (Ok ((fun e => match kind with IterKey => [e.1] | IterValue => [e.2] | IterKeyAndValue => [e.1; e.2] end) <$> es), s).
Proof.
  intros Hr. pose proof (repr_bounds _ _ _ Hr) as (Hn & Hcap & Hls). set (f := fun e => _).
  replace (length es) with (length (f <$> es)) by (by rewrite length_fmap).
  apply index_next_drain; [unfold GetSize, gets; by rewrite Hls, lenZ_fmap|rewrite lenZ_fmap; lia|].
  intros j x ([k v] & -> & Hj)%list_lookup_fmap_Some. unfold iter_at.
  assert (GetKeyAt (Z.of_nat j) s = (Ok k, s)) as Hkey.
  { rewrite (GetKeyAt_run s es cap _ Hr). unfold entry_lookup. by rewrite (proj2 (Z.ltb_ge _ 0)), Nat2Z.id, Hj by lia. }
  mstep with Hkey.
  assert (Get heap env k s = (Ok v, s)) as Hget.
  { assert (ok k) as Hok.
    { destruct Hr as [_ (_ & _ & Hoks & _)]. rewrite list.Forall_forall in Hoks. apply Hoks.
      apply list_elem_of_lookup_2 with j. by rewrite list_lookup_fmap, Hj. }
    rewrite (Get_run s es cap k Hr Hok), <- (take_drop_middle es j (k, v) Hj), to_map_middle.
    - by rewrite lookup_insert_eq.
    - rewrite take_drop_middle by done. by eapply repr_nodup. }
  destruct kind; unfold f; [done|by mstep with Hget..].
Qed.

(** ** hasAll and setAll *)

(** The entry of another map is in this one, with the same value. *)
Definition contained (es : entries) (e : JSTaggedValue * JSTaggedValue) : bool :=
  match to_map es !! ident_of heap e.1 with Some w => SameValue heap w e.2 | None => false end.

Lemma AvoidHashCollision_run {S} (key : JSTaggedValue) (r : Z) (k1 km k2 : list JSTaggedValue) (hj kj : TaggedArray) (st : S) :
  let ks := k1 ++ km ++ k2 in
  Forall (fun k => H k < H key) k1 -> Forall (fun k => H k = H key) km -> Forall (fun k => H key < H k) k2 ->
  lenZ ks < 2 ^ 31 -> lenZ k1 <= r < lenZ (k1 ++ km) ->
  exists i p k q, AvoidHashCollision heap ((VInt <$> (H <$> ks)) ++ hj) (ks ++ kj) key r (lenZ ks) (H key) st = (Ok i, st) /\
    ks = p ++ k :: q /\ lenZ p = i /\
    (SameValue heap k key = true \/ SameValue heap k key = false /\ Forall (fun k => SameValue heap k key = false) km).
Proof.
  intros ks H1 Hm H2 Hb Hr. pose proof (lenZ_nonneg ks) as Hp. pose proof (lenZ_nonneg k1) as Hp1.
  destruct (scan_run key (H key) r k1 km k2 hj kj st H1 Hm H2 Hr) as (x & y & Hx & Hy & Hxy).
  unfold AvoidHashCollision. rewrite i32_id by lia. fold ks in Hx, Hy.
  destruct x as [i|right_]; [|destruct y as [i|stop]].
  - destruct Hxy as (p & k & q & Hpq & <- & Hk). exists (lenZ p), p, k, q. split_and!; [by mstep with Hx|done|done|by left].
  - destruct Hxy as (p & k & q & Hpq & <- & Hk). exists (lenZ p), p, k, q.
    split_and!; [by mstep with Hx; mstep with Hy|done|done|by left].
  - destruct Hxy as [-> Hno]. destruct km as [|k km _] using rev_ind; [rewrite app_nil_r in Hr; lia|].
    exists (lenZ (k1 ++ km)), (k1 ++ km), k, k2. split_and!.
    + mstep with Hx. mstep with Hy. mcbn. do 2 f_equal. rewrite app_assoc, lenZ_app, lenZ_cons, lenZ_nil.
      apply i32_lnot. pose proof (lenZ_nonneg (k1 ++ km)) as Hp3. pose proof (lenZ_nonneg k2) as Hp2. unfold ks in Hb. lenz.
    + unfold ks. by rewrite <- !app_assoc.
    + done.
    + right. split; [|done]. by apply Forall_app in Hno as [_ [Hk _]%Forall_cons_1].
Qed.

Lemma GetFrom_keys {S} (a j : TaggedArray) (p q : list JSTaggedValue) (k : JSTaggedValue) (st : S) :
  a = p ++ k :: q -> Arr.GetFrom (a ++ j) (lenZ p) st = (Ok k, st).
Proof. intros ->. rewrite <- app_assoc. by apply GetFrom_mid. Qed.

Lemma repr_arrays (s : JSAPILightWeightMap) (es : entries) (cap : Z) :
  repr s es cap ->
  exists hj kj vj, hashes s = (VInt <$> (H <$> es.*1)) ++ hj /\ keys s = es.*1 ++ kj /\ values s = es.*2 ++ vj.
Proof. intros [(hj & kj & vj & -> & _) _]. by exists hj, kj, vj. Qed.

Lemma repr_ok (s : JSAPILightWeightMap) (es : entries) (cap : Z) (e : JSTaggedValue * JSTaggedValue) :
  repr s es cap -> e ∈ es -> ok e.1.
Proof.
  intros [_ (_ & _ & Hoks & _)] He. rewrite Forall_fmap in Hoks. rewrite list.Forall_forall in Hoks. by apply (Hoks e).
Qed.

Lemma split_entries_key (es : entries) (p q : list JSTaggedValue) (k : JSTaggedValue) :
  es.*1 = p ++ k :: q -> exists e1 v e2, es = e1 ++ (k, v) :: e2 /\ p = e1.*1.
Proof.
  intros (e1 & [|[k' v] e2] & -> & -> & Hq)%split_keys; [done|]. injection Hq as -> _. by exists e1, v, e2.
Qed.

Lemma hasall_step_run {S} (s s' : JSAPILightWeightMap) (es f1 f2 : entries) (cap cap' : Z) (k v : JSTaggedValue) (st : S) :
  repr s es cap -> repr s' (f1 ++ (k, v) :: f2) cap' ->
  hasall_step heap env (hashes s) (keys s) (values s) (keys s') (values s') (lenZ es) (lenZ f1) st
  = (Ok (if contained es (k, v) then None else Some false), st).
Proof.
  intros Hr Hr'. assert (ok k) as Hok by (apply (repr_ok s' _ cap' (k, v) Hr'); apply elem_of_app; right; by left).
  pose proof (repr_bounds _ _ _ Hr) as (Hn & Hcap & _).
  destruct (repr_arrays s es cap Hr) as (hj & kj & vj & -> & -> & ->).
  destruct (repr_arrays s' _ cap' Hr') as (_ & kj' & vj' & _ & -> & ->).
  pose proof Hr as [_ (Hsort & Hnd & Hoks & _)].
  destruct (map_locate H (H k) es.*1 Hsort) as (k1 & km & k2 & Hks & H1 & Hm & H2).
  assert (lenZ (k1 ++ km ++ k2) = lenZ es) as Hlen by (by rewrite <- Hks, lenZ_fmap).
  destruct (BinarySearchHashes_run H (H k) k1 km k2 hj st H1 Hm H2) as (r & Hsearch & Hr0); [lia|].
  assert (Forall (fun k' => SameValue heap k' k = false) km -> contained es (k, v) = false) as Hmiss.
  { intros Hno. unfold contained. rewrite to_map_None; [done|].
    destruct (place_missing es k k1 km k2 Hok Hoks Hks H1 Hm H2 Hno) as (? & ? & _ & _ & _ & _ & Hall). done. }
  assert (Arr.GetFrom ((f1 ++ (k, v) :: f2).*1 ++ kj') (lenZ f1) st = (Ok k, st)) as Hkey.
  { rewrite <- (lenZ_fmap fst f1). apply (GetFrom_keys _ _ f1.*1 f2.*1). by rewrite fmap_app. }
  assert (Arr.GetFrom ((f1 ++ (k, v) :: f2).*2 ++ vj') (lenZ f1) st = (Ok v, st)) as Hval.
  { rewrite <- (lenZ_fmap snd f1). apply (GetFrom_keys _ _ f1.*2 f2.*2). by rewrite fmap_app. }
  unfold hasall_step. mstep with Hkey. rewrite Hks, i32_id, <- Hlen by lia. mstep with Hsearch.
  pose proof (lenZ_nonneg k1) as Hp1. pose proof (lenZ_nonneg k2) as Hp2.
  destruct Hr0 as [[-> ->]|Hr0].
  { rewrite (proj2 (Z.ltb_lt _ 0)) by lia. by rewrite Hmiss. }
  rewrite (proj2 (orb_false_iff _ _)) by (rewrite !lenZ_app in *; lia). cbv iota.
  destruct (AvoidHashCollision_run k r k1 km k2 hj kj st H1 Hm H2 ltac:(lia) Hr0) as (i & p & k' & q & Hrun & Hpq & <- & Hk').
  mstep with Hrun. mstep by (by apply (GetFrom_keys _ _ p q k')).
  destruct Hk' as [Hk'|[Hk' Hno]]; rewrite Hk'; cbn [negb]; [|by rewrite Hmiss].
  rewrite Hpq in Hks. destruct (split_entries_key es p q k' Hks) as (e1 & w & e2 & -> & ->).
  assert (Arr.GetFrom ((e1 ++ (k', w) :: e2).*2 ++ vj) (lenZ e1.*1) st = (Ok w, st)) as Hw.
  { rewrite (lenZ_fmap fst e1), <- (lenZ_fmap snd e1). apply (GetFrom_keys _ _ e1.*2 e2.*2). by rewrite fmap_app. }
  mstep with Hw. mstep with Hval. unfold contained. cbn [fst snd].
  destruct (to_map_same s e1 e2 k' w k cap Hr Hk') as [-> _]. rewrite lookup_insert_eq. by destruct (SameValue heap w v).
Qed.

Lemma hasall_loop {S} (s s' : JSAPILightWeightMap) (es f1 f2 : entries) (cap cap' : Z) (st : S) :
  repr s es cap -> repr s' (f1 ++ f2) cap' ->
  find_up (length f2) (lenZ f1)
    (hasall_step heap env (hashes s) (keys s) (values s) (keys s') (values s') (lenZ es)) st
  = (Ok (if forallb (contained es) f2 then None else Some false), st).
Proof.
  intros Hr. revert f1. induction f2 as [|[k v] f2 IH]; intros f1 Hr'; [done|]. cbn [length find_up].
  mstep by (by eapply hasall_step_run). cbn [forallb]. destruct (contained es (k, v)); [|done].
  specialize (IH (f1 ++ [(k, v)])). rewrite <- app_assoc in IH. replace (lenZ (f1 ++ [(k, v)])) with (lenZ f1 + 1) in IH by lenz.
  by apply IH.
Qed.

(** More entries than this map has cannot all be in it. *)
Lemma contained_length (s s' : JSAPILightWeightMap) (es f : entries) (cap cap' : Z) :
  repr s es cap -> repr s' f cap' -> forallb (contained es) f = true -> lenZ f <= lenZ es.
Proof.
  intros Hr Hr' Hc. pose proof (repr_nodup _ _ _ Hr) as Hnd. pose proof (repr_nodup _ _ _ Hr') as Hnd'.
  enough (length (ident_of heap <$> f.*1) <= length (ident_of heap <$> es.*1))%nat as Hl.
  { rewrite !length_fmap in Hl. unfold lenZ. lia. }
  apply submseteq_length, NoDup_submseteq; [done|]. intros i (k & -> & Hk)%list_elem_of_fmap.
  apply list_elem_of_fmap in Hk as ([k' v] & -> & Hin). rewrite forallb_forall in Hc.
  specialize (Hc _ (proj1 (list_elem_of_In _ _) Hin)). unfold contained in Hc. cbn [fst] in *.
  rewrite <- to_map_keys.
  destruct (to_map es !! ident_of heap k') as [w|] eqn:Hw; [|done].
  apply elem_of_list_to_map_2 in Hw. apply list_elem_of_fmap. by exists (ident_of heap k', w).
Qed.

(** HasAll answers whether every entry of the other map is in this one with
    the same value (by SameValue), also among keys whose hashes collide. *)
Theorem lightweightmap_HasAll_spec (s s' : JSAPILightWeightMap) (es f : entries) (cap cap' : Z) :
  repr s es cap -> repr s' f cap' ->
  HasAll heap env s' s = (Ok (forallb (contained es) f), s).
Proof.
  intros Hr Hr'. pose proof (repr_bounds _ _ _ Hr) as (_ & _ & Hls). pose proof (repr_bounds _ _ _ Hr') as (_ & _ & Hls').
  unfold HasAll, GetSize, GetArrayByKind, array_of. mstep. rewrite Hls, Hls'. destruct (Z.ltb_spec (lenZ es) (lenZ f)).
  - destruct (forallb (contained es) f) eqn:Hc; [|done]. pose proof (contained_length s s' es f cap cap' Hr Hr' Hc). lia.
  - mstep. mstep. mstep. replace (Z.to_nat (lenZ f)) with (length f) by (unfold lenZ; lia).
    mstep by (by apply (hasall_loop s s' es [] f cap cap')). by destruct (forallb (contained es) f).
Qed.

Lemma setall_loop (s s' : JSAPILightWeightMap) (es f1 f2 : entries) (cap cap' : Z) :
  repr s es cap -> repr s' (f1 ++ f2) cap' -> lenZ es + lenZ f2 < 2 ^ 27 -> cap <= 2 ^ 29 ->
  exists s2 es2 cap2, for_up (length f2) (lenZ f1) (fun num =>
      key ← Arr.GetFrom (keys s') num; value ← Arr.GetFrom (values s') num; Set_ heap env key value) s = (Ok tt, s2) /\
    repr s2 es2 cap2 /\ to_map es2 = to_map f2 ∪ to_map es.
Proof.
  revert s es cap f1. induction f2 as [|[k v] f2 IH]; intros s es cap f1 Hr Hr' Hb Hbc.
  { exists s, es, cap. split_and!; [done|done|]. unfold to_map. simpl. by rewrite (left_id_L ∅ (∪)). }
  rewrite lenZ_cons in Hb. pose proof (lenZ_nonneg es) as Hp1. pose proof (lenZ_nonneg f2) as Hp2.
  assert (ok k) as Hok by (apply (repr_ok s' _ cap' (k, v) Hr'); apply elem_of_app; right; by left).
  destruct (map_Set_run s es cap k v Hr Hok ltac:(lia) ltac:(lia)) as (s1 & es1 & cap1 & Hset & Hr1 & Hm1 & Hl1 & Hc1).
  pose proof (IH s1 es1 cap1 (f1 ++ [(k, v)])) as IH1. rewrite <- app_assoc in IH1.
  destruct IH1 as (s2 & es2 & cap2 & Hrun & Hr2 & Hm2); [done|exact Hr'|lia|lia|].
  exists s2, es2, cap2. split_and!; [|done|].
  - cbn [length]. erewrite for_up_cons; [replace (lenZ f1 + 1) with (lenZ (f1 ++ [(k, v)])) by lenz; exact Hrun|].
    destruct (repr_arrays s' _ cap' Hr') as (_ & kj' & vj' & _ & -> & ->).
    mstep by (rewrite <- (lenZ_fmap fst f1); apply (GetFrom_keys _ _ f1.*1 f2.*1); by rewrite fmap_app).
    mstep by (rewrite <- (lenZ_fmap snd f1); apply (GetFrom_keys _ _ f1.*2 f2.*2); by rewrite fmap_app).
    exact Hset.
  - rewrite Hm2, Hm1. pose proof (repr_nodup _ _ _ Hr') as Hnd. rewrite fmap_app, fmap_app in Hnd.
    apply list.NoDup_app in Hnd as (_ & _ & Hnd). pose proof (to_map_middle [] f2 k v Hnd) as Hmid. simpl in Hmid. rewrite Hmid.
    rewrite <- insert_union_l. symmetry. apply insert_union_r. apply not_elem_of_list_to_map. rewrite to_map_keys.
    by apply list.NoDup_cons in Hnd as [Hnd _].
Qed.

(** SetAll makes this map the union of both, in which the other map's
    values win. *)
Theorem lightweightmap_SetAll_spec (s s' : JSAPILightWeightMap) (es f : entries) (cap cap' : Z) :
  repr s es cap -> repr s' f cap' -> lenZ es + lenZ f < 2 ^ 27 -> cap <= 2 ^ 29 ->
  exists s2 es2 cap2, SetAll heap env s' s = (Ok tt, s2) /\ repr s2 es2 cap2 /\ to_map es2 = to_map f ∪ to_map es.
Proof.
  intros Hr Hr' Hb Hc. pose proof (repr_bounds _ _ _ Hr') as (_ & _ & Hls').
  unfold SetAll, for_range. rewrite Hls', Z.sub_0_r. unfold lenZ at 1. rewrite Nat2Z.id.
  exact (setall_loop s s' es [] f cap cap' Hr Hr' Hb Hc).
Qed.

(** ** Sequences of operations *)

Inductive op : Type :=
| OpSet (key value : JSTaggedValue)
| OpGet (key : JSTaggedValue)
| OpHasKey (key : JSTaggedValue)
| OpRemove (key : JSTaggedValue)
| OpSize
| OpIsEmpty
| OpClear.

Inductive answer : Type :=
| AUnit
| AValue (v : JSTaggedValue)
| ABool (b : bool)
| ANum (z : Z).

Definition exec (o : op) : M JSAPILightWeightMap answer :=
  match o with
  | OpSet key value => Set_ heap env key value;; mret AUnit
  | OpGet key => v ← Get heap env key; mret (AValue v)
  | OpHasKey key => b ← HasKey heap env key; mret (ABool b)
  | OpRemove key => v ← Remove heap env key; mret (AValue v)
  | OpSize => n ← GetSize; mret (ANum n)
  | OpIsEmpty => b ← IsEmpty; mret (ABool b)
  | OpClear => Clear;; mret AUnit
  end.

(** The same on a finite map from identities. *)
Definition spec (o : op) (m : gmap ident JSTaggedValue) : outcome answer * gmap ident JSTaggedValue :=
  match o with
  | OpSet key value => (Ok AUnit, <[ident_of heap key := value]> m)
  | OpGet key => (Ok (AValue (default VUndefined (m !! ident_of heap key))), m)
  | OpHasKey key => (Ok (ABool (bool_decide (is_Some (m !! ident_of heap key)))), m)
  | OpRemove key =>
      (Ok (AValue (default VUndefined (m !! ident_of heap key))), delete (ident_of heap key) m)
  | OpSize => (Ok (ANum (Z.of_nat (size m))), m)
  | OpIsEmpty => (Ok (ABool (bool_decide (m = ∅))), m)
  | OpClear => (Ok AUnit, ∅)
  end.

Definition op_ok (o : op) : Prop :=
  match o with
  | OpSet key _ | OpGet key | OpHasKey key | OpRemove key => ok key
  | _ => True
  end.

(** After [k] operations. *)
Definition within (k : Z) (s : JSAPILightWeightMap) (m : gmap ident JSTaggedValue) : Prop :=
  exists es cap, repr s es cap /\ m = to_map es /\ lenZ es <= k /\ cap <= 8 + 2 * k.

Lemma exec_spec (o : op) (k : Z) (s : JSAPILightWeightMap) (m : gmap ident JSTaggedValue) :
  within k s m -> op_ok o -> 0 <= k < 2 ^ 28 ->
  exists s', exec o s = ((spec o m).1, s') /\ within (k + 1) s' (spec o m).2.
Proof.
  intros (es & cap & Hr & -> & Hk & Hcap) Ho Hb. pose proof (repr_bounds _ _ _ Hr) as (Hn & _ & Hls).
  pose proof (repr_nodup _ _ _ Hr) as Hnd.
  assert (within (k + 1) s (to_map es)) as Hsame by (exists es, cap; split_and!; [done|done|lia|lia]).
  destruct o; simpl in Ho |- *.
  - destruct (map_Set_run s es cap key value Hr Ho ltac:(lia) ltac:(lia)) as (s' & es' & cap' & Hrun & Hr' & Hm & Hl & Hc).
    exists s'. mstep with Hrun. split; [done|]. exists es', cap'. split_and!; [done|done|lia|lia].
  - exists s. by mstep with (Get_run s es cap key Hr Ho).
  - exists s. by mstep with (HasKey_run s es cap key Hr Ho).
  - destruct (Remove_run s es cap key Hr Ho) as (s' & es' & Hrun & Hr' & Hm & Hl).
    exists s'. mstep with Hrun. split; [done|]. exists es', cap. split_and!; [done|done|lia|lia].
  - exists s. mstep. rewrite Hls, to_map_size by done. done.
  - exists s. split; [|done]. unfold IsEmpty. rewrite <- bind_assoc. mstep. rewrite Hls. mcbn. do 3 f_equal.
    destruct es as [|[k' w] es]; [by rewrite bool_decide_eq_true_2|].
    rewrite bool_decide_eq_false_2; [apply Z.eqb_neq; lenz|]. apply insert_non_empty.
  - exists LightWeightMapConstructor. mstep with (Clear_run s). split; [done|]. exists [], 8.
    split_and!; [apply new_repr|done|rewrite lenZ_nil; lia|lia].
Qed.

(** C3: A new LightWeightMap and any sequence of up to 2^28 settings, lookups,
    membership tests, removals, size queries and clears answers as the same
    operations on a finite map do whose keys are the classes of SameValue, if
    the keys are of a class [ok] on which the hash respects SameValue ([op_ok],
    [KeyHash]).  The hash of the code respects it on the keys that give each
    number one representation and have one NaN pattern ([Hash_KeyHash]), not on
    an int and its double (lightweightmap_int_and_double). *)
Theorem lightweightmap_refines_map (os : list op) :
  Forall op_ok os -> lenZ os <= 2 ^ 28 ->
  (run_ops exec os LightWeightMapConstructor).1 = (run_ops spec os ∅).1.
Proof.
  intros Hok Hb. apply (run_ops_refines exec spec within op_ok (2 ^ 28)) with 0; [| |done|lia|lia].
  - intros o k s t Hw Ho Hk. by apply exec_spec.
  - exists [], 8. split_and!; [apply new_repr|done|done|done].
Qed.
End map.

(** ** The hash of the code *)

(** One representation of each number: an int where the value is one (a zero
    may be a double, too), and one NaN. *)
Definition canonical_key (nan_bits : Z) (key : JSTaggedValue) : Prop :=
  match key with
  | VDouble b =>
      0 <= b < 2 ^ 64 /\
      match double_of_bits b with
      | DNaN => b = nan_bits
      | DFin _ => forall z, INT32_MIN <= z <= INT32_MAX -> double_of_bits b <> double_of_int z
      | _ => True
      end
  | VInt z => INT32_MIN <= z <= INT32_MAX
  | _ => True
  end.

(** A pattern is its sign, exponent and significand. *)
Lemma bits_parts (b : Z) :
  0 <= b < 2 ^ 64 ->
  b = (if Z.testbit b 63 then 2 ^ 63 else 0) + (b / 2 ^ 52) mod 2 ^ 11 * 2 ^ 52 + b mod 2 ^ 52.
Proof.
  intros Hb. destruct (Z.testbit b 63) eqn:Ht.
  - apply Z.testbit_true in Ht; [|lia]. zlia.
  - apply Z.testbit_false in Ht; [|lia]. zlia.
Qed.

Definition magnitude (e m : Z) : Z := if e =? 0 then m else (2 ^ 52 + m) * 2 ^ (e - 1).

Lemma magnitude_range (e m : Z) :
  0 <= e -> 0 <= m < 2 ^ 52 -> 0 <= magnitude e m < 2 ^ (52 + e) /\ (1 <= e -> 2 ^ (51 + e) <= magnitude e m).
Proof.
  intros He Hm. unfold magnitude. destruct (Z.eqb_spec e 0) as [->|Hne]; [lia|].
  pose proof (Z.pow_pos_nonneg 2 (e - 1) ltac:(lia) ltac:(lia)).
  replace (52 + e) with (53 + (e - 1)) by lia. replace (51 + e) with (52 + (e - 1)) by lia.
  rewrite !Z.pow_add_r by lia. nia.
Qed.

Lemma magnitude_lt (e m e' m' : Z) :
  0 <= e < e' -> 0 <= m < 2 ^ 52 -> 0 <= m' < 2 ^ 52 -> magnitude e m < magnitude e' m'.
Proof.
  intros He Hm Hm'. destruct (magnitude_range e m ltac:(lia) Hm) as [H1 _].
  destruct (magnitude_range e' m' ltac:(lia) Hm') as [_ H2].
  pose proof (Z.pow_le_mono_r 2 (52 + e) (51 + e') ltac:(lia) ltac:(lia)). lia.
Qed.

Lemma magnitude_inj (e m e' m' : Z) :
  0 <= e -> 0 <= e' -> 0 <= m < 2 ^ 52 -> 0 <= m' < 2 ^ 52 -> magnitude e m = magnitude e' m' -> e = e' /\ m = m'.
Proof.
  intros He He' Hm Hm' Heq. destruct (Z.lt_trichotomy e e') as [Hlt|[->|Hgt]].
  - pose proof (magnitude_lt e m e' m' ltac:(lia) Hm Hm'). lia.
  - split; [done|]. unfold magnitude in Heq. destruct (e' =? 0) eqn:E; [done|].
    pose proof (Z.pow_pos_nonneg 2 (e' - 1) ltac:(lia) ltac:(lia)). nia.
  - pose proof (magnitude_lt e' m' e m ltac:(lia) Hm' Hm). lia.
Qed.

Lemma double_of_bits_shape (b : Z) :
  let neg := Z.testbit b 63 in
  let e := (b / 2 ^ 52) mod 2 ^ 11 in
  let m := b mod 2 ^ 52 in
  match double_of_bits b with
  | DNaN => True
  | DInf n => n = neg /\ e = 2047 /\ m = 0
  | DZero n => n = neg /\ e = 0 /\ m = 0
  | DFin k => k = (if neg then -1 else 1) * magnitude e m /\ 0 < magnitude e m
  end.
Proof.
  intros neg e m. unfold double_of_bits. fold neg e m.
  assert (0 <= e < 2 ^ 11) as He by (apply Z.mod_pos_bound; lia).
  assert (0 <= m < 2 ^ 52) as Hm by (apply Z.mod_pos_bound; lia).
  destruct (Z.eqb_spec e 2047); [by destruct (Z.eqb_spec m 0)|].
  unfold magnitude. destruct (Z.eqb_spec e 0); [destruct (Z.eqb_spec m 0); split; done || lia|].
  pose proof (Z.pow_pos_nonneg 2 (e - 1) ltac:(lia) ltac:(lia)). split; [done|nia].
Qed.

(** Two patterns of one number that is not a NaN are the same. *)
Lemma double_of_bits_inj (b b' : Z) :
  0 <= b < 2 ^ 64 -> 0 <= b' < 2 ^ 64 -> double_of_bits b = double_of_bits b' -> double_of_bits b <> DNaN -> b = b'.
Proof.
  intros Hb Hb' Heq Hn. rewrite (bits_parts b Hb), (bits_parts b' Hb').
  pose proof (double_of_bits_shape b) as S. pose proof (double_of_bits_shape b') as S'. rewrite <- Heq in S'.
  cbv zeta in S, S'.
  pose proof (Z.mod_pos_bound (b / 2 ^ 52) (2 ^ 11) ltac:(lia)) as He.
  pose proof (Z.mod_pos_bound (b' / 2 ^ 52) (2 ^ 11) ltac:(lia)) as He'.
  pose proof (Z.mod_pos_bound b (2 ^ 52) ltac:(lia)) as Hm. pose proof (Z.mod_pos_bound b' (2 ^ 52) ltac:(lia)) as Hm'.
  destruct (double_of_bits b) as [|n|n|k]; [done|..].
  - destruct S as (-> & -> & ->), S' as (-> & -> & ->). done.
  - destruct S as (-> & -> & ->), S' as (-> & -> & ->). done.
  - destruct S as [-> Hp], S' as [Hk Hp'].
    assert (Z.testbit b 63 = Z.testbit b' 63 /\
            magnitude ((b / 2 ^ 52) mod 2 ^ 11) (b mod 2 ^ 52) = magnitude ((b' / 2 ^ 52) mod 2 ^ 11) (b' mod 2 ^ 52)) as [Hs Hmag].
    { destruct (Z.testbit b 63), (Z.testbit b' 63); split; try done; lia. }
    apply magnitude_inj in Hmag as [-> ->]; [|lia..]. by rewrite Hs.
Qed.

Lemma double_of_int_inj (z z' : Z) : double_of_int z = double_of_int z' -> z = z'.
Proof. unfold double_of_int. destruct (Z.eqb_spec z 0), (Z.eqb_spec z' 0); intros Heq; simplify_eq; lia. Qed.

(** What the map relies on of the hashes kept outside: a string's is the hash of
    its units (which EcmaString.GetHashcode returns when the cache is right), and
    strings and BigInts are not symbols. *)
Definition env_ok (heap : Heap) (env : HashEnv) : Prop :=
  (forall a i u, heap a = HString i u ->
     symbol_hash env a = None /\ string_hash env a = EcmaString.ComputeHashcode (EcmaString.CreateFromUtf16 u)) /\
  (forall a s d, heap a = HBigInt s d -> symbol_hash env a = None).

Lemma Hash_double_zero (heap : Heap) (env : HashEnv) (b : Z) (n : bool) :
  double_of_bits b = DZero n -> Hash heap env (VDouble b) = 0.
Proof. intros Hb. unfold Hash. by rewrite Hb. Qed.

(** Numbers. *)
Lemma Hash_number (heap : Heap) (env : HashEnv) (nan_bits : Z) (x y : JSTaggedValue) :
  canonical_key nan_bits x -> canonical_key nan_bits y -> IsNumber x = true -> IsNumber y = true ->
  ExtractNumber x = ExtractNumber y -> Hash heap env x = Hash heap env y.
Proof.
  assert (forall z b, canonical_key nan_bits (VInt z) -> canonical_key nan_bits (VDouble b) ->
                      double_of_int z = double_of_bits b -> Hash heap env (VInt z) = Hash heap env (VDouble b)) as Hmix.
  { intros z b Hz [Hb Hc] Heq. rewrite <- Heq in Hc. unfold double_of_int in *. destruct (Z.eqb_spec z 0) as [->|Hne].
    - symmetry. by apply (Hash_double_zero heap env b false).
    - exfalso. apply (Hc z Hz). by rewrite (proj2 (Z.eqb_neq _ _) Hne). }
  intros Hx Hy Nx Ny Heq. destruct x as [z|b| | | | | |]; try done; destruct y as [z'|b'| | | | | |]; try done; simpl in Heq.
  - by rewrite (double_of_int_inj z z' Heq).
  - by apply Hmix.
  - symmetry. by apply Hmix.
  - destruct (decide (double_of_bits b = DNaN)) as [E|E].
    + destruct Hx as [_ Hx], Hy as [_ Hy]. rewrite E in Hx. rewrite <- Heq, E in Hy. by subst.
    + destruct Hx as [Hx _], Hy as [Hy _]. by rewrite (double_of_bits_inj b b' Hx Hy Heq E).
Qed.

(** The hash of the code implements the interface for canonical keys. *)
#[export] Instance Hash_KeyHash (heap : Heap) (env : HashEnv) (nan_bits : Z) (Henv : env_ok heap env) :
  KeyHash heap (Hash heap env) (canonical_key nan_bits).
Proof.
  destruct Henv as [Hstr Hbig]. intros x y Hx Hy Heq.
  destruct (IsNumber x) eqn:Nx, (IsNumber y) eqn:Ny.
  - rewrite !ident_number in Heq by done. injection Heq as Heq. by eapply Hash_number.
  - rewrite (ident_number heap x Nx) in Heq. pose proof (ident_of_inv heap y) as I. rewrite <- Heq in I. congruence.
  - rewrite (ident_number heap y Ny) in Heq. pose proof (ident_of_inv heap x) as I. rewrite Heq in I. congruence.
  - destruct x as [| | | | | | |a], y as [| | | | | | |a']; try done; simpl in Heq; try congruence;
      try (destruct (heap a) as [i u|s d|] eqn:Ha); try (destruct (heap a') as [i' u'|s' d'|] eqn:Ha'); try congruence.
    + destruct (Hstr a i u Ha) as [E1 E2], (Hstr a' i' u' Ha') as [E1' E2']. injection Heq as <-.
      unfold Hash. by rewrite E1, E1', Ha, Ha', E2, E2'.
    + injection Heq as <- <-. unfold Hash. by rewrite (Hbig a _ _ Ha), (Hbig a' _ _ Ha'), Ha, Ha'.
Qed.

(** For keys in canonical representation (one NaN, ints where the value is
    one) the hash respects SameValue: a rope, a flat and an interned string of the
    same units, equal BigInts, +0 and -0 have equal hashes. *)
Theorem Hash_respects_SameValue (heap : Heap) (env : HashEnv) (nan_bits : Z) (x y : JSTaggedValue) :
  heap_wf heap -> env_ok heap env -> canonical_key nan_bits x -> canonical_key nan_bits y ->
  SameValue heap x y = true -> Hash heap env x = Hash heap env y.
Proof.
  intros Hheap Henv Hx Hy Hs%(proj1 (SameValue_ident heap x y Hheap)).
  exact (Hash_KeyHash heap env nan_bits Henv x y Hx Hy Hs).
Qed.

(** The pattern of the double 1. *)
Definition one_bits : Z := 0x3FF0000000000000.

(** Without canonical keys the map is no map up to SameValue: the int 1 and
    the double 1 are SameValue, but unless the double's bytes happen to hash to 1
    a map with the int has no entry for the double, and setting both gives two
    entries. *)
Theorem lightweightmap_int_and_double (heap : Heap) (env : HashEnv) (v w : JSTaggedValue) :
  let s := (Set_ heap env (VInt 1) v LightWeightMapConstructor).2 in
  Hash heap env (VDouble one_bits) <> 1 ->
  SameValue heap (VDouble one_bits) (VInt 1) = true /\
  HasKey heap env (VInt 1) s = (Ok true, s) /\
  HasKey heap env (VDouble one_bits) s = (Ok false, s) /\
  Get heap env (VDouble one_bits) s = (Ok VUndefined, s) /\
  length_ (Set_ heap env (VDouble one_bits) w s).2 = 2.
Proof.
  intros s Hne. assert (s = mkMap (VInt 1 :: replicate 7 VHole) (VInt 1 :: replicate 7 VHole) (v :: replicate 7 VHole) 1) as Hs
    by (unfold s; vm_compute; reflexivity).
  rewrite Hs. clear s Hs. split; [vm_compute; reflexivity|]. split; [vm_compute; reflexivity|].
  assert (exists i, 0 <= i <= 1 /\ forall s, hashes s = VInt 1 :: replicate 7 VHole -> length_ s = 1 ->
            GetStateOfKey heap env (VDouble one_bits) s = (Ok (mkKeyState false (Hash heap env (VDouble one_bits)) i), s))
    as (i & Hi & Hst).
  { set (h := Hash heap env (VDouble one_bits)) in *.
    destruct (Z.ltb_spec 1 h) as [Hlt|Hge]; [exists 1|exists 0]; (split; [lia|]); intros [hs ks vs n] Hh Hn; simpl in Hh, Hn; subst;
      unfold GetStateOfKey; fold h; clearbody h.
    - destruct (BinarySearchHashes_run (fun _ => 1) h [VInt 1] [] [] (replicate 7 VHole) (mkMap (VInt 1 :: replicate 7 VHole) ks vs 1))
        as (r & Hr & [[_ ->]|Hb]); [repeat constructor; lia..|done| |cbn in Hb; lia].
      mstep. mstep. mstep with Hr. done.
    - destruct (BinarySearchHashes_run (fun _ => 1) h [] [] [VInt 1] (replicate 7 VHole) (mkMap (VInt 1 :: replicate 7 VHole) ks vs 1))
        as (r & Hr & [[_ ->]|Hb]); [repeat constructor; lia..|done| |cbn in Hb; lia].
      mstep. mstep. mstep with Hr. done. }
  set (s1 := mkMap _ _ _ _). specialize (Hst s1 eq_refl eq_refl).
  assert (GetIndexOfKey heap env (VDouble one_bits) s1 = (Ok (-1), s1)) as Hix by (unfold GetIndexOfKey; by mstep with Hst).
  split; [unfold HasKey; by mstep with Hst|]. split; [unfold Get; by mstep with Hix|].
  unfold Set_. mstep with Hst. assert (i = 0 \/ i = 1) as [Hi0|Hi0] by lia; rewrite Hi0; reflexivity.
Qed.

(** ** A sample: the key "ab" and the int 3105 have one hash *)

Definition sample_env : HashEnv :=
  mkHashEnv (fun a => if a =? 32 then Some 5 else None)
    (fun a => match sample_heap a with
              | HString _ u => EcmaString.ComputeHashcode (EcmaString.CreateFromUtf16 u)
              | _ => 0
              end)
    (fun a => if a =? 40 then Some 7 else None)
    (fun bs => fold_left (fun h b => u32 (31 * h + b)) bs 0).

Lemma sample_env_ok : env_ok sample_heap sample_env.
Proof.
  unfold env_ok, sample_env, sample_heap. split; intros a; simpl;
    repeat (match goal with |- context [a =? ?n] => destruct (Z.eqb_spec a n) end; subst; simpl); intros; simplify_eq; done.
Qed.

#[local] Instance sample_KeyHash : KeyHash sample_heap (Hash sample_heap sample_env) (canonical_key 0x7FF8000000000000).
Proof. exact (Hash_KeyHash _ _ _ sample_env_ok). Qed.

Definition sample_entries : list (JSTaggedValue * JSTaggedValue) :=
  [(VInt 3, VInt 30); (VObject 16, VBool true); (VInt 3105, VNull)].

Definition sample_map : JSAPILightWeightMap :=
  mkMap (VInt 3 :: VInt 3105 :: VInt 3105 :: replicate 5 VHole)
    (VInt 3 :: VObject 16 :: VInt 3105 :: replicate 5 VHole)
    (VInt 30 :: VBool true :: VNull :: replicate 5 VHole) 3.

Lemma sample_map_repr : repr sample_heap sample_env (canonical_key 0x7FF8000000000000) sample_map sample_entries 8.
Proof.
  split; [exists (replicate 5 VHole), (replicate 5 VHole), (replicate 5 VHole); vm_compute; repeat split|].
  split; [vm_compute; repeat constructor; discriminate|].
  split; [apply (bool_decide_unpack _); vm_compute; exact I|].
  split; [|done]. repeat constructor; vm_compute; discriminate.
Qed.

Lemma lightweightmap_IncreaseCapacityTo_spec_witness :
  exists s', IncreaseCapacityTo 20 sample_map = (Ok true, s') /\
    repr sample_heap sample_env (canonical_key 0x7FF8000000000000) s' sample_entries 30.
Proof.
  apply (lightweightmap_IncreaseCapacityTo_spec _ _ _ _ _ _ 20 sample_map_repr); [reflexivity|].
  split; [discriminate|reflexivity].
Defined.

Lemma lightweightmap_positions_witness :
  GetKeyAt 2 sample_map = (Ok (VInt 3105), sample_map) /\ GetValueAt 3 sample_map = (Throw RANGE_ERROR, sample_map).
Proof.
  split.
  - refine (proj1 (proj2 (lightweightmap_positions _ _ _ sample_heap_wf _ _ _ 2 (VInt 3) VNull sample_map_repr _))).
    split; discriminate.
  - refine (proj1 (proj2 (proj2 (lightweightmap_positions _ _ _ sample_heap_wf _ _ _ 3 (VInt 3) VNull sample_map_repr _)))).
    split; discriminate.
Defined.

Lemma lightweightmap_values_spec_witness :
  HasValue sample_heap VNull sample_map = (Ok true, sample_map) /\ GetIndexOfValue VNull sample_map = (Ok 2, sample_map).
Proof. exact (lightweightmap_values_spec _ _ _ _ _ _ VNull sample_map_repr). Defined.

Lemma lightweightmap_iterator_yields_entries_witness :
  drain (Next sample_heap sample_env IterKeyAndValue) 4 NewJSAPILightWeightMapIterator sample_map
  = (Ok [[VInt 3; VInt 30]; [VObject 16; VBool true]; [VInt 3105; VNull]], sample_map).
Proof. exact (lightweightmap_iterator_yields_entries _ _ _ sample_heap_wf _ _ _ IterKeyAndValue sample_map_repr). Defined.

Lemma lightweightmap_HasAll_spec_witness : HasAll sample_heap sample_env sample_map sample_map = (Ok true, sample_map).
Proof. exact (lightweightmap_HasAll_spec _ _ _ sample_heap_wf _ _ _ _ _ _ sample_map_repr sample_map_repr). Defined.

Lemma lightweightmap_SetAll_spec_witness :
  exists s2 es2 cap2, SetAll sample_heap sample_env sample_map sample_map = (Ok tt, s2) /\
    repr sample_heap sample_env (canonical_key 0x7FF8000000000000) s2 es2 cap2 /\
    to_map sample_heap es2 = to_map sample_heap sample_entries ∪ to_map sample_heap sample_entries.
Proof.
  apply (lightweightmap_SetAll_spec _ _ _ sample_heap_wf _ _ _ _ _ _ sample_map_repr sample_map_repr);
    [reflexivity|discriminate].
Defined.

Lemma lightweightmap_refines_map_witness :
  (run_ops (exec sample_heap sample_env)
     [OpSet (VInt 3105) VNull; OpSet (VObject 16) (VInt 1); OpGet (VObject 8); OpRemove (VInt 3105); OpHasKey (VInt 3105); OpSize]
     LightWeightMapConstructor).1
  = [Ok AUnit; Ok AUnit; Ok (AValue (VInt 1)); Ok (AValue VNull); Ok (ABool false); Ok (ANum 1)].
Proof.
  rewrite (lightweightmap_refines_map sample_heap sample_env (canonical_key 0x7FF8000000000000) sample_heap_wf).
  - vm_compute. reflexivity.
  - repeat constructor; vm_compute; discriminate.
  - vm_compute. discriminate.
Defined.

Lemma Hash_respects_SameValue_witness : Hash sample_heap sample_env (VObject 8) = Hash sample_heap sample_env (VObject 16).
Proof.
  apply (Hash_respects_SameValue sample_heap sample_env 0x7FF8000000000000 (VObject 8) (VObject 16) sample_heap_wf sample_env_ok);
    [exact I|exact I|vm_compute; reflexivity].
Defined.

Lemma lightweightmap_int_and_double_witness :
  length_ (Set_ sample_heap sample_env (VDouble one_bits) VNull
             (Set_ sample_heap sample_env (VInt 1) VNull LightWeightMapConstructor).2).2 = 2.
Proof.
  apply (lightweightmap_int_and_double sample_heap sample_env VNull VNull). vm_compute. discriminate.
Defined.

End LightWeightMap.
