(* ===== verification/BigInt.v ===== *)
(** * BigInt, addition to shifts: js_bigint.h, js_bigint.cpp.

    A BigInt is a sign and a vector of 32-bit digits, the least significant one
    first, without leading zeros ([wf]).  Every operation allocates its result,
    writes it digit by digit with explicit carries and cuts leading zeros.
    [value] is the integer that a BigInt stands for; the theorems say that each
    operation computes the operation on integers of the same name, or throws
    the range error when the vector it allocates would be too long. *)
From S2P Require Import Prelude TaggedValue.
Local Open Scope Z_scope.

Module BigInt.

Record BigInt : Type := mkBigInt {
  GetSign : bool;
  GetData : list Z;
}.

Definition DATEBITS : Z := 32.
Definition MAXBITS : Z := 2 ^ 20.
Definition MAXSIZE : Z := MAXBITS / DATEBITS.

Definition GetLength (x : BigInt) : Z := lenZ (GetData x).

Inductive Operate : Type := AND | OR | XOR.

(** A digit of an argument, and of the object that is being written. *)
Definition GetDigit {S} (x : BigInt) (index : Z) : M S Z :=
  if index <? 0 then fault
  else match GetData x !! Z.to_nat index with Some d => mret d | None => fault end.

Definition own_digit (index : Z) : M BigInt Z := fun x => GetDigit x index x.

Definition SetDigit (index digit : Z) : M BigInt unit := fun x =>
  if (0 <=? index) && (index <? GetLength x)
  then (Ok tt, mkBigInt (GetSign x) (<[Z.to_nat index := digit]> (GetData x)))
  else (Fault, x).

Definition with_sign (s : bool) (x : BigInt) : BigInt := mkBigInt s (GetData x).
Definition SetSign (s : bool) : M BigInt unit := modify (with_sign s).

Definition IsZero (x : BigInt) : bool :=
  match GetData x with [d] => d =? 0 | _ => false end.

Definition IsUint32 (x : BigInt) : bool := GetLength x =? 1.

(** CreateBigint, with ObjectFactory::NewBigInt, which zeroes the digits. *)
Definition CreateBigint {S} (length : Z) : M S BigInt :=
  if MAXSIZE <? length then throw RANGE_ERROR
  else ASSERT (0 <? length);; mret (mkBigInt false (replicate (Z.to_nat length) 0)).

(** A loop with loop variables [x]. *)
Fixpoint fold_up {S X} (n : nat) (i : Z) (body : Z -> X -> M S X) (x : X) : M S X :=
  match n with
  | O => mret x
  | Datatypes.S n' => x' ← body i x; fold_up n' (i + 1) body x'
  end.

Definition fold_range {S X} (lo hi : Z) (body : Z -> X -> M S X) (x : X) : M S X :=
  fold_up (Z.to_nat (hi - lo)) lo body x.

Section ops.
Context {S : Type}.

Definition Int32ToBigInt (number : Z) : M S BigInt :=
  bigint ← CreateBigint 1;
  let sign := number <? 0 in
  let value := if sign then u32 (u32 (- (number + 1)) + 1) else u32 number in
  build bigint (SetDigit 0 value;; SetSign sign).

Definition Uint32ToBigInt (number : Z) : M S BigInt :=
  bigint ← CreateBigint 1;
  build bigint (SetDigit 0 number).

Definition Copy (x : BigInt) (len : Z) : M S BigInt :=
  ASSERT (len <=? GetLength x);;
  newBig ← CreateBigint len;
  mret (mkBigInt (GetSign x) (take (Z.to_nat len) (GetData x))).

(** The loop to the last digit that is not 0; -1 when there is none. *)
Definition RightTruncate (x : BigInt) : M S BigInt :=
  let len := GetLength x in
  ASSERT (negb (len =? 0));;
  first ← GetDigit x 0;
  if (len =? 1) && (first =? 0) then mret (with_sign false x)
  else
    last ← GetDigit x (len - 1);
    if negb (last =? 0) then mret x
    else
      r ← find_down (Z.to_nat len) (len - 1) (fun index =>
            d ← GetDigit x index;
            mret (if negb (d =? 0) then Some index else None));
      match r with
      | None => Int32ToBigInt 0
      | Some index => Copy x (index + 1)
      end.

(** ** Addition and subtraction *)

(** AddHelper and SubHelper: the result and the new carry. *)
Definition AddHelper (x y bigintCarry : Z) : Z * Z :=
  let addPlus := u32 (x + y) in
  (addPlus, if addPlus <? x then bigintCarry + 1 else bigintCarry).

Definition SubHelper (x y bigintCarry : Z) : Z * Z :=
  let minuSub := u32 (x - y) in
  (minuSub, if x <? minuSub then bigintCarry + 1 else bigintCarry).

(** A round of the loop over the digits of both numbers, and of the loop over
    the rest of the longer one. *)
Definition add_round (x y : BigInt) (i bigintCarry : Z) : M BigInt Z :=
  dx ← GetDigit x i;
  dy ← GetDigit y i;
  let '(addPlus, newBigintCarry) := AddHelper dx dy 0 in
  let '(addPlus, newBigintCarry) := AddHelper addPlus bigintCarry newBigintCarry in
  SetDigit i addPlus;;
  mret newBigintCarry.

Definition add_rest_round (x : BigInt) (i bigintCarry : Z) : M BigInt Z :=
  dx ← GetDigit x i;
  let '(addPlus, newBigintCarry) := AddHelper dx bigintCarry 0 in
  SetDigit i addPlus;;
  mret newBigintCarry.

(** BigintAdd once the longer argument is first. *)
Definition add_digits (x y : BigInt) (resultSign : bool) : M S BigInt :=
  bigint ← CreateBigint (u32 (GetLength x + 1));
  bigint ← build bigint (
    bigintCarry ← fold_range 0 (GetLength y) (add_round x y) 0;
    bigintCarry ← fold_range (GetLength y) (GetLength x) (add_rest_round x) bigintCarry;
    SetDigit (GetLength x) bigintCarry;;
    SetSign resultSign);
  RightTruncate bigint.

Definition BigintAdd (x y : BigInt) (resultSign : bool) : M S BigInt :=
  if GetLength x <? GetLength y then add_digits y x resultSign else add_digits x y resultSign.

(** A round of the loop over the digits of both numbers, and of the loop over
    the rest of the longer one. *)
Definition sub_round (x y : BigInt) (i bigintCarry : Z) : M BigInt Z :=
  dx ← GetDigit x i;
  dy ← GetDigit y i;
  let '(minuSub, newBigintCarry) := SubHelper dx dy 0 in
  let '(minuSub, newBigintCarry) := SubHelper minuSub bigintCarry newBigintCarry in
  SetDigit i minuSub;;
  mret newBigintCarry.

Definition sub_rest_round (x : BigInt) (i bigintCarry : Z) : M BigInt Z :=
  dx ← GetDigit x i;
  let '(minuSub, newBigintCarry) := SubHelper dx bigintCarry 0 in
  SetDigit i minuSub;;
  mret newBigintCarry.

Definition BigintSub (x y : BigInt) (resultSign : bool) : M S BigInt :=
  bigint ← CreateBigint (GetLength x);
  bigint ← build bigint (
    bigintCarry ← fold_range 0 (GetLength y) (sub_round x y) 0;
    fold_range (GetLength y) (GetLength x) (sub_rest_round x) bigintCarry;;
    SetSign resultSign);
  RightTruncate bigint.

(** The loop of Add and Subtract down to the first digit that differs, or 0. *)
Definition differ_step (x y : BigInt) (i : Z) : M S (Z + Z) :=
  if 0 <? i then
    dx ← GetDigit x i;
    dy ← GetDigit y i;
    mret (if dx =? dy then inl (i - 1) else inr i)
  else mret (inr i).

Definition first_difference (x y : BigInt) : M S Z :=
  while_fuel (length (GetData x)) (differ_step x y) (GetLength x - 1).

Definition Add (x y : BigInt) : M S BigInt :=
  let xSignFlag := GetSign x in
  let ySignFlag := GetSign y in
  if eqb xSignFlag ySignFlag then BigintAdd x y xSignFlag
  else
    let subSize := i32 (GetLength x - GetLength y) in
    if 0 <? subSize then BigintSub x y xSignFlag
    else if subSize =? 0 then
      i ← first_difference x y;
      dx ← GetDigit x i;
      dy ← GetDigit y i;
      if dy <? dx then BigintSub x y xSignFlag else BigintSub y x ySignFlag
    else BigintSub y x ySignFlag.

Definition Subtract (x y : BigInt) : M S BigInt :=
  let xSignFlag := GetSign x in
  let ySignFlag := GetSign y in
  if negb (eqb xSignFlag ySignFlag) then BigintAdd x y xSignFlag
  else
    let subSize := i32 (GetLength x - GetLength y) in
    if 0 <? subSize then BigintSub x y xSignFlag
    else if subSize =? 0 then
      i ← first_difference x y;
      dx ← GetDigit x i;
      dy ← GetDigit y i;
      if dy <? dx then BigintSub x y xSignFlag else BigintSub y x (negb ySignFlag)
    else BigintSub y x (negb ySignFlag).

Definition BigintAddOne (x : BigInt) : M S BigInt :=
  temp ← Int32ToBigInt 1;
  Add x temp.

Definition BigintSubOne (x : BigInt) : M S BigInt :=
  temp ← Int32ToBigInt 1;
  Subtract x temp.

Definition UnaryMinus (x : BigInt) : M S BigInt :=
  if IsZero x then mret x
  else
    y ← Copy x (GetLength x);
    build y (SetSign (negb (GetSign y))).

Definition BitwiseNOT (x : BigInt) : M S BigInt :=
  result ← BigintAddOne x;
  build result (if GetSign x then SetSign false else SetSign true).

(** ** Comparison *)

Definition AbsolutelyCompare (x y : BigInt) : M S ComparisonResult :=
  let xLen := GetLength x in
  let yLen := GetLength y in
  if yLen <? xLen then mret GREAT
  else if xLen <? yLen then mret LESS
  else
    r ← find_down (Z.to_nat xLen) (xLen - 1) (fun index =>
          dx ← GetDigit x index;
          dy ← GetDigit y index;
          mret (if negb (dx =? dy) then Some (dx, dy) else None));
    mret (match r with
          | None => EQUAL
          | Some (dx, dy) => if dy <? dx then GREAT else LESS
          end).

Definition Compare (x y : BigInt) : M S ComparisonResult :=
  let xSign := GetSign x in
  let ySign := GetSign y in
  if negb (eqb xSign ySign) then mret (if xSign then LESS else GREAT)
  else
    compar ← AbsolutelyCompare x y;
    mret (if xSign then match compar with EQUAL => EQUAL | LESS => GREAT | _ => LESS end else compar).

Definition LessThan (x y : BigInt) : M S bool :=
  r ← Compare x y;
  mret (match r with LESS => true | _ => false end).

Definition Equal (x y : BigInt) : M S bool :=
  if negb (eqb (GetSign x) (GetSign y)) || negb (GetLength x =? GetLength y) then mret false
  else
    r ← find_up (length (GetData x)) 0 (fun i =>
          dx ← GetDigit x i;
          dy ← GetDigit y i;
          mret (if negb (dx =? dy) then Some tt else None));
    mret (match r with Some _ => false | None => true end).
End ops.

(** ** Values *)

Definition digit (d : Z) : Prop := 0 <= d < 2 ^ 32.

(** The number that a vector of digits stands for. *)
Definition val (ds : list Z) : Z := foldr (fun d v => d + 2 ^ 32 * v) 0 ds.

Arguments val : simpl never.

Definition value (x : BigInt) : Z := if GetSign x then - val (GetData x) else val (GetData x).

(** No leading zeros, no negative zero, at most MAXSIZE digits. *)
Record wf (x : BigInt) : Prop := {
  wf_digits : Forall digit (GetData x);
  wf_top : exists pre d, GetData x = pre ++ [d] /\ (d <> 0 \/ (pre = [] /\ GetSign x = false));
  wf_size : GetLength x <= MAXSIZE;
}.

(** The computation returns a BigInt of this value. *)
Definition computes {S} (m : M S BigInt) (v : Z) (s : S) : Prop :=
  exists z, m s = (Ok z, s) /\ wf z /\ value z = v.

Lemma val_nil : val [] = 0.
Proof. done. Qed.

Lemma val_cons (d : Z) (ds : list Z) : val (d :: ds) = d + 2 ^ 32 * val ds.
Proof. done. Qed.

Lemma pow32_succ (n : Z) : 0 <= n -> 2 ^ (32 * (n + 1)) = 2 ^ 32 * 2 ^ (32 * n).
Proof. intros Hn. rewrite <- Z.pow_add_r by lia. f_equal. lia. Qed.

Lemma pow32_pos (n : Z) : 0 <= n -> 0 < 2 ^ (32 * n).
Proof. intros Hn. apply Z.pow_pos_nonneg; lia. Qed.

Lemma val_app (a b : list Z) : val (a ++ b) = val a + 2 ^ (32 * lenZ a) * val b.
Proof.
  induction a as [|d a IH]; simpl app; [change (val b = 0 + 1 * val b); lia|].
  rewrite !val_cons, IH, lenZ_cons, pow32_succ by apply lenZ_nonneg. lia.
Qed.

Lemma val_bounds (ds : list Z) : Forall digit ds -> 0 <= val ds < 2 ^ (32 * lenZ ds).
Proof.
  induction 1 as [|d ds Hd Hds IH]; [done|]. unfold digit in Hd. rewrite val_cons, lenZ_cons, pow32_succ by apply lenZ_nonneg.
  lia.
Qed.

Lemma val_replicate (n : nat) : val (replicate n 0) = 0.
Proof. induction n as [|n IH]; [done|]. simpl replicate. rewrite val_cons, IH. lia. Qed.

Lemma val_snoc_bounds (ds : list Z) (d : Z) :
  Forall digit ds -> digit d -> d <> 0 -> 2 ^ (32 * lenZ ds) <= val (ds ++ [d]).
Proof.
  intros Hds Hd Hne. unfold digit in Hd. rewrite val_app, val_cons. pose proof (val_bounds ds Hds).
  pose proof (pow32_pos (lenZ ds) (lenZ_nonneg ds)). rewrite val_nil. nia.
Qed.

Lemma val_inj (a b : list Z) : Forall digit a -> Forall digit b -> length a = length b -> val a = val b -> a = b.
Proof.
  intros Ha. revert b. induction Ha as [|d a Hd Ha IH]; intros [|e b] Hb Hlen Hv; try done.
  apply Forall_cons_1 in Hb as [He Hb]. rewrite !val_cons in Hv. unfold digit in *. simpl in Hlen.
  f_equal; [lia|apply IH; [done|lia|lia]].
Qed.

(** The digits of a number are unique. *)
Lemma wf_inj (x y : BigInt) : wf x -> wf y -> value x = value y -> x = y.
Proof.
  intros [Hx (px & dx & Ex & Tx) _] [Hy (py & dy & Ey & Ty) _] Hv.
  destruct x as [sx xs], y as [sy ys]. unfold value in Hv. simpl in *.
  pose proof (val_bounds xs Hx) as Bx. pose proof (val_bounds ys Hy) as By.
  assert (forall p d, Forall digit (p ++ [d]) -> d <> 0 \/ p = [] -> val (p ++ [d]) = 0 -> p = [] /\ d = 0) as Hzero.
  { intros p d [Hp Hd%Forall_cons_1]%Forall_app Ht Hz. destruct Ht as [Hne| ->].
    - pose proof (val_snoc_bounds p d Hp (proj1 Hd) Hne). pose proof (pow32_pos (lenZ p) (lenZ_nonneg p)). lia.
    - split; [done|]. simpl app in Hz. rewrite val_cons in Hz. rewrite val_nil in Hz. lia. }
  assert (val xs = val ys) as Hval by (destruct sx, sy; lia).
  assert (sx = sy) as ->.
  { destruct sx, sy; try done; (assert (val xs = 0) as Hz by lia); [|assert (val ys = 0) as Hz' by lia].
    - subst xs. destruct Tx as [Tx|[_ ?]]; [|done]. destruct (Hzero px dx Hx (or_introl Tx) Hz). done.
    - subst ys. destruct Ty as [Ty|[_ ?]]; [|done]. destruct (Hzero py dy Hy (or_introl Ty) Hz'). done. }
  f_equal. apply val_inj; [done..| |done]. subst xs ys.
  assert (forall p d q e, Forall digit (p ++ [d]) -> Forall digit (q ++ [e]) -> d <> 0 \/ p = [] ->
            val (p ++ [d]) = val (q ++ [e]) -> lenZ p <= lenZ q) as Hle.
  { intros p d q e [Hp Hd%Forall_cons_1]%Forall_app Hq Ht Heq. destruct Ht as [Hne| ->]; [|cbn; apply lenZ_nonneg].
    pose proof (val_snoc_bounds p d Hp (proj1 Hd) Hne). pose proof (val_bounds _ Hq) as Bq. rewrite lenZ_app in Bq.
    apply Z.lt_succ_r. apply (Z.mul_lt_mono_pos_l 32); [lia|]. apply (Z.pow_lt_mono_r_iff 2); [lia| |].
    - pose proof (lenZ_nonneg q). lia.
    - replace (32 * Z.succ (lenZ q)) with (32 * (lenZ q + lenZ [e])) by lenz. lia. }
  assert (dx <> 0 \/ px = []) by naive_solver. assert (dy <> 0 \/ py = []) by naive_solver.
  pose proof (Hle px dx py dy Hx Hy ltac:(done) Hval). pose proof (Hle py dy px dx Hy Hx ltac:(done) ltac:(done)).
  lenz.
Qed.

(** ** Writing the digits of a result *)

Lemma GetDigit_run {S} (x : BigInt) (i : Z) (d : Z) (s : S) :
  0 <= i -> GetData x !! Z.to_nat i = Some d -> GetDigit x i s = (Ok d, s).
Proof. intros Hi Hd. unfold GetDigit. zb. by rewrite Hd. Qed.

Lemma SetDigit_run (sg : bool) (pre post : list Z) (i o d : Z) :
  lenZ pre = i -> SetDigit i d (mkBigInt sg (pre ++ o :: post)) = (Ok tt, mkBigInt sg (pre ++ d :: post)).
Proof.
  intros <-. unfold SetDigit, GetLength. simpl. rewrite lenZ_app, lenZ_cons. pose proof (lenZ_nonneg pre).
  pose proof (lenZ_nonneg post). zb. do 2 f_equal. unfold lenZ. rewrite Nat2Z.id.
  by rewrite insert_app_r_alt, Nat.sub_diag by lia.
Qed.

(** The digits and the final loop variables of a loop that makes one digit of
    each input. *)
Fixpoint carry_map {A X} (f : A -> X -> Z * X) (inputs : list A) (c : X) : list Z * X :=
  match inputs with
  | [] => ([], c)
  | a :: inputs' =>
      let '(d, c') := f a c in
      let '(ds, c'') := carry_map f inputs' c' in (d :: ds, c'')
  end.

Lemma carry_map_length {A X} (f : A -> X -> Z * X) (inputs : list A) (c : X) :
  length (carry_map f inputs c).1 = length inputs.
Proof.
  revert c. induction inputs as [|a inputs IH]; intros c; simpl; [done|].
  destruct (f a c) as [d c']. specialize (IH c'). destruct (carry_map f inputs c'). simpl in *. by rewrite IH.
Qed.

(** A loop whose round [k] writes digit [lenZ pre + k] runs as [carry_map]. *)
Lemma fold_up_digits {A X} (f : A -> X -> Z * X) (body : Z -> X -> M BigInt X) (inputs : list A) (i : Z) (c : X)
    (sg : bool) (pre old post : list Z) :
  length old = length inputs ->
  (forall k a c done_, inputs !! k = Some a -> length done_ = k ->
     body (i + Z.of_nat k) c (mkBigInt sg (pre ++ done_ ++ drop k old ++ post))
     = (SetDigit (lenZ pre + Z.of_nat k) (f a c).1;; mret (f a c).2) (mkBigInt sg (pre ++ done_ ++ drop k old ++ post))) ->
  fold_up (length inputs) i body c (mkBigInt sg (pre ++ old ++ post))
  = (Ok (carry_map f inputs c).2, mkBigInt sg (pre ++ (carry_map f inputs c).1 ++ post)).
Proof.
  revert i c pre old. induction inputs as [|a inputs IH]; intros i c pre [|o old] Hlen Hbody; try done.
  simpl fold_up. pose proof (Hbody O a c [] eq_refl eq_refl) as H0. simpl app in H0. simpl drop in H0; rewrite !Z.add_0_r in H0.
  rewrite (bind_Ok _ _ _ (mkBigInt sg (pre ++ (f a c).1 :: old ++ post)) (f a c).2).
  2: { rewrite H0. by mstep by (by apply SetDigit_run). }
  specialize (IH (i + 1) (f a c).2 (pre ++ [(f a c).1]) old ltac:(simpl in Hlen; lia)).
  rewrite <- !app_assoc in IH. simpl app in IH. simpl carry_map.
  destruct (f a c) as [d c'] eqn:Hf. simpl in *. rewrite IH; [by destruct (carry_map f inputs c')|].
  intros k b c2 dn Hk Hdn. specialize (Hbody (Datatypes.S k) b c2 (d :: dn) Hk ltac:(simpl; lia)). simpl app in Hbody.
  replace (i + 1 + Z.of_nat k) with (i + Z.of_nat (Datatypes.S k)) by lia. rewrite <- !app_assoc. simpl app.
  simpl drop in Hbody. replace (lenZ (pre ++ [d]) + Z.of_nat k) with (lenZ pre + Z.of_nat (Datatypes.S k)) by lenz.
  exact Hbody.
Qed.

(** ** Cutting leading zeros *)

Lemma computes_step {S A} (m : M S A) (f : A -> M S BigInt) (a : A) (v : Z) (s : S) :
  m s = (Ok a, s) -> computes (f a) v s -> computes (m ≫= f) v s.
Proof. intros Hm (z & Hz & Hwf). exists z. by rewrite (bind_Ok _ _ _ _ _ Hm). Qed.

(** One step of a computation of a BigInt. *)
Ltac cstep := eapply computes_step; [reflexivity|]; cbv beta iota zeta.
Tactic Notation "cstep" "by" tactic3(t) := eapply computes_step; [t|]; cbv beta iota zeta.
Tactic Notation "cstep" "with" constr(H) := apply (computes_step _ _ _ _ _ H); cbv beta iota zeta.

Lemma CreateBigint_run {S} (n : Z) (s : S) :
  0 < n <= MAXSIZE -> CreateBigint n s = (Ok (mkBigInt false (replicate (Z.to_nat n) 0)), s).
Proof. intros Hn. unfold CreateBigint. zb. done. Qed.

Lemma CreateBigint_throw {S} (n : Z) (s : S) : MAXSIZE < n -> CreateBigint n s = (Throw RANGE_ERROR, s).
Proof. intros Hn. unfold CreateBigint. by zb. Qed.

Lemma wf_small (sg : bool) (d : Z) : digit d -> (d = 0 -> sg = false) -> wf (mkBigInt sg [d]).
Proof.
  intros Hd Hsg. split; [by apply Forall_singleton| |done]. exists [], d. split; [done|]. destruct (Z.eq_dec d 0); auto.
Qed.

Lemma Int32ToBigInt_run {S} (n : Z) (s : S) : INT32_MIN <= n <= INT32_MAX -> computes (Int32ToBigInt n) n s.
Proof.
  unfold INT32_MIN, INT32_MAX. intros Hn. unfold Int32ToBigInt. cstep by (by apply CreateBigint_run).
  assert (exists v, (if n <? 0 then u32 (u32 (- (n + 1)) + 1) else u32 n) = v /\ digit v /\
            (if n <? 0 then - v else v) = n /\ (v = 0 -> (n <? 0) = false)) as (v & -> & Hv & Hval & Hz).
  { unfold digit. destruct (Z.ltb_spec n 0); rewrite ?u32_small by (rewrite ?u32_small by lia; lia); eexists; (split; [done|]); lia. }
  exists (mkBigInt (n <? 0) [v]). split; [done|]. split; [by apply wf_small|]. unfold value. simpl. rewrite val_cons, val_nil. destruct (n <? 0); lia.
Qed.

Lemma trailing_zeros (ds : list Z) :
  exists pre k, ds = pre ++ replicate k 0 /\ (pre = [] \/ exists p d, pre = p ++ [d] /\ d <> 0).
Proof.
  induction ds as [|d ds IH] using rev_ind; [by exists [], O; auto|]. destruct (Z.eq_dec d 0) as [->|Hd].
  - destruct IH as (pre & k & -> & Hpre). exists pre, (Datatypes.S k). split; [|done].
    by rewrite <- app_assoc, <- replicate_S_end.
  - exists (ds ++ [d]), O. split; [by rewrite app_nil_r|right; eauto].
Qed.

Lemma find_top_zeros {S} (x : BigInt) (pre : list Z) (k : nat) (s : S) :
  GetData x = pre ++ replicate k 0 -> (pre = [] \/ exists p d, pre = p ++ [d] /\ d <> 0) ->
  forall j, (j <= k)%nat ->
  find_down (length pre + j)%nat (lenZ pre + Z.of_nat j - 1) (fun index =>
      d ← GetDigit x index; mret (if negb (d =? 0) then Some index else None)) s
  = (Ok (match pre with [] => None | _ => Some (lenZ pre - 1) end), s).
Proof.
  intros Hx Hpre j. induction j as [|j IH]; intros Hj.
  - rewrite Nat.add_0_r. destruct Hpre as [->|(p & d & -> & Hd)]; [done|]. rewrite length_app, Nat.add_comm. simpl.
    assert (GetData x !! Z.to_nat (lenZ (p ++ [d]) + 0 - 1) = Some d) as Hl.
    { rewrite Hx, <- app_assoc. apply list_lookup_middle. lenz. }
    erewrite bind_Ok; [|mstep by (apply GetDigit_run; [|exact Hl]; pose proof (lenZ_nonneg p); lenz); reflexivity].
    zb. destruct p; simpl; do 3 f_equal; lenz.
  - replace (length pre + Datatypes.S j)%nat with (Datatypes.S (length pre + j)) by lia. simpl.
    assert (GetData x !! Z.to_nat (lenZ pre + Z.of_nat (Datatypes.S j) - 1) = Some 0) as Hl.
    { rewrite Hx, lookup_app_r by lenz. apply lookup_replicate_2. lenz. }
    erewrite bind_Ok; [|mstep by (apply GetDigit_run; [|exact Hl]; pose proof (lenZ_nonneg pre); lenz); reflexivity].
    zb. replace (lenZ pre + Z.of_nat (Datatypes.S j) - 1 - 1) with (lenZ pre + Z.of_nat j - 1) by lia. apply IH. lia.
Qed.

Lemma Copy_run {S} (x : BigInt) (pre post : list Z) (s : S) :
  GetData x = pre ++ post -> 0 < lenZ pre <= MAXSIZE -> Copy x (lenZ pre) s = (Ok (mkBigInt (GetSign x) pre), s).
Proof.
  intros Hx Hl. unfold Copy, GetLength. rewrite Hx, lenZ_app. pose proof (lenZ_nonneg post). zb. mstep.
  mstep by (by apply CreateBigint_run). by rewrite take_app_length' by (unfold lenZ; lia).
Qed.

(** The three ways through RightTruncate. *)
Lemma RightTruncate_zero {S} (sg : bool) (k : nat) (s : S) :
  (0 < k)%nat -> computes (RightTruncate (mkBigInt sg (replicate k 0))) 0 s.
Proof.
  intros Hk. unfold RightTruncate, GetLength. simpl GetData. rewrite lenZ_replicate. zb. cstep.
  cstep by (apply GetDigit_run; [done|by apply lookup_replicate_2]).
  destruct (Z.eqb_spec (Z.of_nat k) 1) as [Hone|Hone]; simpl andb; cbv iota.
  { exists (mkBigInt false [0]). replace k with 1%nat by lia. split; [done|]. split; [by apply wf_small|done]. }
  cstep by (apply GetDigit_run; [lia|apply lookup_replicate_2; lia]). simpl negb. cbv iota. rewrite Nat2Z.id.
  cstep with (find_top_zeros (mkBigInt sg (replicate k 0)) [] k s eq_refl (or_introl eq_refl) k ltac:(lia)).
  by apply Int32ToBigInt_run.
Qed.

Lemma RightTruncate_top {S} (sg : bool) (p : list Z) (d : Z) (k : nat) (s : S) :
  d <> 0 -> lenZ p + 1 <= MAXSIZE ->
  RightTruncate (mkBigInt sg ((p ++ [d]) ++ replicate k 0)) s = (Ok (mkBigInt sg (p ++ [d])), s).
Proof.
  intros Hd Hl. unfold RightTruncate, GetLength. simpl GetData. rewrite !lenZ_app, lenZ_replicate, (lenZ_cons d), lenZ_nil.
  pose proof (lenZ_nonneg p). zb. mstep.
  destruct (lookup_lt_is_Some_2 ((p ++ [d]) ++ replicate k 0) 0) as [first Hf]; [lenz|].
  mstep by (by apply GetDigit_run).
  replace ((lenZ p + (0 + 1) + Z.of_nat k =? 1) && (first =? 0)) with false.
  2: { symmetry. apply andb_false_iff. destruct (Z.eq_dec (lenZ p + (0 + 1) + Z.of_nat k) 1); [|left; by apply Z.eqb_neq].
       right. destruct p; [|lenz]. apply Z.eqb_neq. simpl in Hf. congruence. }
  destruct k as [|k].
  - rewrite app_nil_r. mstep by (apply (GetDigit_run _ _ d); [lia|apply list_lookup_middle; lenz]). by zb.
  - mstep by (apply (GetDigit_run _ _ 0); [lia|cbn [GetData]; rewrite lookup_app_r by lenz; apply lookup_replicate_2; lenz]).
    simpl negb. cbv iota.
    assert (p ++ [d] <> []) as Hne by (by destruct p).
    pose proof (find_top_zeros (mkBigInt sg ((p ++ [d]) ++ replicate (Datatypes.S k) 0)) (p ++ [d]) (Datatypes.S k) s eq_refl
      (or_intror (ex_intro _ p (ex_intro _ d (conj eq_refl Hd)))) (Datatypes.S k) ltac:(lia)) as Hf'.
    replace (Z.to_nat (lenZ p + (0 + 1) + Z.of_nat (Datatypes.S k))) with (length (p ++ [d]) + Datatypes.S k)%nat by lenz.
    replace (lenZ p + (0 + 1) + Z.of_nat (Datatypes.S k) - 1) with (lenZ (p ++ [d]) + Z.of_nat (Datatypes.S k) - 1) by lenz.
    etrans; [eapply bind_Ok; exact Hf'|]. cbv beta. destruct (p ++ [d]) as [|a r] eqn:E; [done|]. rewrite <- E in *.
    replace (lenZ (p ++ [d]) - 1 + 1) with (lenZ (p ++ [d])) by lia.
    apply (Copy_run (mkBigInt sg ((p ++ [d]) ++ replicate (Datatypes.S k) 0)) (p ++ [d]) (replicate (Datatypes.S k) 0)); [done|lenz].
Qed.

Lemma RightTruncate_run {S} (x : BigInt) (s : S) :
  Forall digit (GetData x) -> 0 < GetLength x <= MAXSIZE -> computes (RightTruncate x) (value x) s.
Proof.
  intros Hd Hl. destruct x as [sg ds]. unfold GetLength in Hl. simpl in *.
  destruct (trailing_zeros ds) as (pre & k & -> & Hpre). apply Forall_app in Hd as [Hd _].
  rewrite lenZ_app, lenZ_replicate in Hl. unfold value. simpl.
  rewrite val_app, val_replicate, Z.mul_0_r, Z.add_0_r. destruct Hpre as [->|(p & d & -> & Hdn)].
  - replace (if sg then - val [] else val []) with 0 by (by destruct sg). apply RightTruncate_zero. lenz.
  - exists (mkBigInt sg (p ++ [d])). split; [apply RightTruncate_top; [done|lenz]|]. split; [|done].
    split; simpl; [done|by exists p, d; auto|unfold GetLength; simpl; lia].
Qed.

(** ** Carries *)

(** When each round keeps input plus old carry in digit plus new carry, so does
    the loop. *)
Lemma carry_map_val {A X} (f : A -> X -> Z * X) (inp : A -> Z) (w : X -> Z) (P : A -> Prop) (I : X -> Prop) :
  (forall a c, P a -> I c -> digit (f a c).1 /\ I (f a c).2 /\ (f a c).1 + 2 ^ 32 * w (f a c).2 = inp a + w c) ->
  forall inputs c, Forall P inputs -> I c ->
    Forall digit (carry_map f inputs c).1 /\ I (carry_map f inputs c).2 /\
    val (carry_map f inputs c).1 + 2 ^ (32 * lenZ inputs) * w (carry_map f inputs c).2 = val (inp <$> inputs) + w c.
Proof.
  intros Hf inputs. induction inputs as [|a inputs IH]; intros c HP HI.
  { split; [constructor|]. split; [done|]. change (0 + 1 * w c = 0 + w c). lia. }
  apply Forall_cons_1 in HP as [Ha HP]. destruct (Hf a c Ha HI) as (Hd & HI' & Hstep). simpl carry_map.
  destruct (f a c) as [d c'] eqn:E. simpl in Hd, HI', Hstep. destruct (IH c' HP HI') as (Hds & HIn & Hval).
  destruct (carry_map f inputs c') as [ds c'']. cbn [fst snd] in *. split; [by constructor|]. split; [done|].
  rewrite ?fmap_cons, !val_cons, lenZ_cons, pow32_succ by apply lenZ_nonneg.
  rewrite <- Z.mul_assoc. set (W := 2 ^ (32 * lenZ inputs) * w c'') in *. lia.
Qed.

Lemma AddHelper_spec (x y c : Z) :
  digit x -> digit y ->
  exists a b, AddHelper x y c = (a, c + b) /\ digit a /\ 0 <= b <= 1 /\ a + 2 ^ 32 * b = x + y.
Proof.
  unfold digit. intros Hx Hy. unfold AddHelper, u32. destruct (Z.ltb_spec ((x + y) mod 2 ^ 32) x).
  - exists ((x + y) mod 2 ^ 32), 1. split; [done|]. zlia.
  - exists ((x + y) mod 2 ^ 32), 0. split; [by rewrite Z.add_0_r|]. zlia.
Qed.

Lemma SubHelper_spec (x y c : Z) :
  digit x -> digit y ->
  exists a b, SubHelper x y c = (a, c + b) /\ digit a /\ 0 <= b <= 1 /\ a - 2 ^ 32 * b = x - y.
Proof.
  unfold digit. intros Hx Hy. unfold SubHelper, u32. destruct (Z.ltb_spec x ((x - y) mod 2 ^ 32)).
  - exists ((x - y) mod 2 ^ 32), 1. split; [done|]. zlia.
  - exists ((x - y) mod 2 ^ 32), 0. split; [by rewrite Z.add_0_r|]. zlia.
Qed.

Definition bit (c : Z) : Prop := 0 <= c <= 1.

Definition add2 (p : Z * Z) (c : Z) : Z * Z :=
  let '(a, n) := AddHelper p.1 p.2 0 in AddHelper a c n.
Definition add1 (d c : Z) : Z * Z := AddHelper d c 0.
Definition sub2 (p : Z * Z) (c : Z) : Z * Z :=
  let '(a, n) := SubHelper p.1 p.2 0 in SubHelper a c n.
Definition sub1 (d c : Z) : Z * Z := SubHelper d c 0.

Lemma digit_bit (c : Z) : bit c -> digit c.
Proof. unfold bit, digit. lia. Qed.

Lemma add2_step (p : Z * Z) (c : Z) :
  digit p.1 /\ digit p.2 -> bit c ->
  digit (add2 p c).1 /\ bit (add2 p c).2 /\ (add2 p c).1 + 2 ^ 32 * (add2 p c).2 = p.1 + p.2 + c.
Proof.
  intros [H1 H2] Hc. unfold add2.
  destruct (AddHelper_spec p.1 p.2 0 H1 H2) as (a & b & -> & Ha & Hb & E1).
  destruct (AddHelper_spec a c (0 + b) Ha (digit_bit c Hc)) as (a' & b' & -> & Ha' & Hb' & E2).
  simpl. unfold bit, digit in *. lia.
Qed.

Lemma add1_step (d c : Z) :
  digit d -> bit c -> digit (add1 d c).1 /\ bit (add1 d c).2 /\ (add1 d c).1 + 2 ^ 32 * (add1 d c).2 = d + c.
Proof.
  intros Hd Hc. unfold add1. destruct (AddHelper_spec d c 0 Hd (digit_bit c Hc)) as (a & b & -> & Ha & Hb & E).
  simpl. unfold bit in *. split; [done|]. lia.
Qed.

Lemma sub2_step (p : Z * Z) (c : Z) :
  digit p.1 /\ digit p.2 -> bit c ->
  digit (sub2 p c).1 /\ bit (sub2 p c).2 /\ (sub2 p c).1 + 2 ^ 32 * - (sub2 p c).2 = p.1 - p.2 + - c.
Proof.
  intros [H1 H2] Hc. unfold sub2.
  destruct (SubHelper_spec p.1 p.2 0 H1 H2) as (a & b & -> & Ha & Hb & E1).
  destruct (SubHelper_spec a c (0 + b) Ha (digit_bit c Hc)) as (a' & b' & -> & Ha' & Hb' & E2).
  simpl. unfold bit, digit in *. lia.
Qed.

Lemma sub1_step (d c : Z) :
  digit d -> bit c -> digit (sub1 d c).1 /\ bit (sub1 d c).2 /\ (sub1 d c).1 + 2 ^ 32 * - (sub1 d c).2 = d + - c.
Proof.
  intros Hd Hc. unfold sub1. destruct (SubHelper_spec d c 0 Hd (digit_bit c Hc)) as (a & b & -> & Ha & Hb & E).
  simpl. unfold bit in *. split; [done|]. lia.
Qed.

Lemma val_zip_with (f : Z -> Z -> Z) (k : Z) (a b : list Z) :
  (forall x y, f x y = x + k * y) -> length a = length b ->
  val ((fun p => f p.1 p.2) <$> zip a b) = val a + k * val b.
Proof.
  intros Hf. revert b. induction a as [|x a IH]; intros [|y b] Hl; try done; [change (0 = 0 + k * 0); lia|].
  simpl zip. rewrite fmap_cons, !val_cons. simpl fst. simpl snd. rewrite Hf, IH by (simpl in Hl; lia). lia.
Qed.

Lemma Forall_zip_digits (a b : list Z) :
  Forall digit a -> Forall digit b -> Forall (fun p => digit p.1 /\ digit p.2) (zip a b).
Proof.
  intros Ha. revert b. induction Ha as [|x a Hx Ha IH]; intros [|y b] Hb; try by constructor.
  apply Forall_cons_1 in Hb as [Hy Hb]. simpl. constructor; [done|by apply IH].
Qed.

Lemma lookup_zip_Some {A B} (a : list A) (b : list B) (k : nat) (p : A * B) :
  zip a b !! k = Some p -> a !! k = Some p.1 /\ b !! k = Some p.2.
Proof.
  revert b k. induction a as [|x a IH]; intros [|y b] [|k]; simpl; try done; [by intros [= <-]|]. apply IH.
Qed.

Lemma zip_length_eq {A B} (a : list A) (b : list B) : length a = length b -> length (zip a b) = length a.
Proof. intros Hl. rewrite length_zip_with. lia. Qed.

(** ** Addition and subtraction of digits *)

(** The two loops of BigintAdd and BigintSub, over the digits that both have
    and over the rest of the longer one. *)
Lemma two_loops {X} (f2 : Z * Z -> X -> Z * X) (f1 : Z -> X -> Z * X) (x y : BigInt) (body2 body1 : Z -> X -> M BigInt X)
    (xs1 xs2 old1 old2 post : list Z) (c : X) (sg : bool) :
  GetData x = xs1 ++ xs2 -> length xs1 = length (GetData y) -> length old1 = length xs1 -> length old2 = length xs2 ->
  (forall i c st dx dy, GetDigit x i st = (Ok dx, st) -> GetDigit y i st = (Ok dy, st) ->
     body2 i c st = (SetDigit i (f2 (dx, dy) c).1;; mret (f2 (dx, dy) c).2) st) ->
  (forall i c st dx, GetDigit x i st = (Ok dx, st) -> body1 i c st = (SetDigit i (f1 dx c).1;; mret (f1 dx c).2) st) ->
  let '(ds1, c1) := carry_map f2 (zip xs1 (GetData y)) c in
  let '(ds2, c2) := carry_map f1 xs2 c1 in
  (c' ← fold_range 0 (GetLength y) body2 c; fold_range (GetLength y) (GetLength x) body1 c')
    (mkBigInt sg (old1 ++ old2 ++ post))
  = (Ok c2, mkBigInt sg (ds1 ++ ds2 ++ post)).
Proof.
  intros Hx Hy H1 H2 Hb2 Hb1. unfold fold_range, GetLength. rewrite Hx, lenZ_app.
  pose proof (zip_length_eq xs1 (GetData y) Hy) as Hz.
  pose proof (fold_up_digits f2 body2 (zip xs1 (GetData y)) 0 c sg [] old1 (old2 ++ post) ltac:(lia)) as L1.
  simpl app in L1. destruct (carry_map f2 (zip xs1 (GetData y)) c) as [ds1 c1] eqn:E1. simpl in L1.
  assert (length ds1 = length xs1) as Hds1.
  { pose proof (carry_map_length f2 (zip xs1 (GetData y)) c) as L. rewrite E1 in L. simpl in L. lia. }
  pose proof (fold_up_digits f1 body1 xs2 (lenZ (GetData y)) c1 sg ds1 old2 post ltac:(lia)) as L2.
  destruct (carry_map f1 xs2 c1) as [ds2 c2] eqn:E2. simpl in L2.
  replace (Z.to_nat (lenZ (GetData y) - 0)) with (length (zip xs1 (GetData y))) by (unfold lenZ; lia).
  replace (Z.to_nat (lenZ xs1 + lenZ xs2 - lenZ (GetData y))) with (length xs2) by (unfold lenZ; lia).
  rewrite (bind_Ok _ _ _ (mkBigInt sg (ds1 ++ old2 ++ post)) c1).
  2: { apply L1. intros k [dx dy] c' dn Hk _. apply lookup_zip_Some in Hk as [Hkx Hky]. simpl in Hkx, Hky.
       pose proof (Hb2 (0 + Z.of_nat k) c' (mkBigInt sg (dn ++ drop k old1 ++ old2 ++ post)) dx dy) as Hb. apply Hb.
       - apply GetDigit_run; [lia|]. replace (Z.to_nat (0 + Z.of_nat k)) with k by lia. rewrite Hx. by apply lookup_app_l_Some.
       - apply GetDigit_run; [lia|]. by replace (Z.to_nat (0 + Z.of_nat k)) with k by lia. }
  apply L2. intros k dx c' dn Hk _. replace (lenZ ds1) with (lenZ (GetData y)) by (unfold lenZ; lia).
  apply Hb1. apply GetDigit_run; [unfold lenZ; lia|]. rewrite Hx, lookup_app_r by (unfold lenZ; lia).
  rewrite <- Hk. f_equal. unfold lenZ. lia.
Qed.

Definition signed (s : bool) (v : Z) : Z := if s then - v else v.

Lemma MAXSIZE_eq : MAXSIZE = 32768.
Proof. reflexivity. Qed.

Lemma split_digits (xs ys : list Z) :
  lenZ ys <= lenZ xs -> exists a b, xs = a ++ b /\ length a = length ys.
Proof.
  intros Hl. exists (take (length ys) xs), (drop (length ys) xs). rewrite take_drop. split; [done|].
  rewrite length_take. unfold lenZ in Hl. lia.
Qed.

Lemma replicate_split (n m : nat) : replicate (n + m) 0 = replicate n 0 ++ replicate m 0.
Proof. apply replicate_add. Qed.

Lemma add_round_run (x y : BigInt) (i c : Z) (st : BigInt) (dx dy : Z) :
  GetDigit x i st = (Ok dx, st) -> GetDigit y i st = (Ok dy, st) ->
  add_round x y i c st = (SetDigit i (add2 (dx, dy) c).1;; mret (add2 (dx, dy) c).2) st.
Proof.
  intros Ex Ey. unfold add_round, add2. mstep with Ex. mstep with Ey. cbn [fst snd].
  destruct (AddHelper dx dy 0) as [a n]. by destruct (AddHelper a c n).
Qed.

Lemma add_rest_round_run (x : BigInt) (i c : Z) (st : BigInt) (dx : Z) :
  GetDigit x i st = (Ok dx, st) -> add_rest_round x i c st = (SetDigit i (add1 dx c).1;; mret (add1 dx c).2) st.
Proof. intros Ex. unfold add_rest_round, add1. mstep with Ex. by destruct (AddHelper dx c 0). Qed.

Lemma sub_round_run (x y : BigInt) (i c : Z) (st : BigInt) (dx dy : Z) :
  GetDigit x i st = (Ok dx, st) -> GetDigit y i st = (Ok dy, st) ->
  sub_round x y i c st = (SetDigit i (sub2 (dx, dy) c).1;; mret (sub2 (dx, dy) c).2) st.
Proof.
  intros Ex Ey. unfold sub_round, sub2. mstep with Ex. mstep with Ey. cbn [fst snd].
  destruct (SubHelper dx dy 0) as [a n]. by destruct (SubHelper a c n).
Qed.

Lemma sub_rest_round_run (x : BigInt) (i c : Z) (st : BigInt) (dx : Z) :
  GetDigit x i st = (Ok dx, st) -> sub_rest_round x i c st = (SetDigit i (sub1 dx c).1;; mret (sub1 dx c).2) st.
Proof. intros Ex. unfold sub_rest_round, sub1. mstep with Ex. by destruct (SubHelper dx c 0). Qed.

(** What the two loops compute, for addition ([k] = 1) and subtraction (-1). *)
Lemma two_loops_val (k : Z) (f2 : Z * Z -> Z -> Z * Z) (f1 : Z -> Z -> Z * Z) (x y : BigInt) (body2 body1 : Z -> Z -> M BigInt Z)
    (post : list Z) :
  (forall p c, digit p.1 /\ digit p.2 -> bit c ->
     digit (f2 p c).1 /\ bit (f2 p c).2 /\ (f2 p c).1 + 2 ^ 32 * (k * (f2 p c).2) = p.1 + k * p.2 + k * c) ->
  (forall d c, digit d -> bit c ->
     digit (f1 d c).1 /\ bit (f1 d c).2 /\ (f1 d c).1 + 2 ^ 32 * (k * (f1 d c).2) = d + k * c) ->
  (forall i c st dx dy, GetDigit x i st = (Ok dx, st) -> GetDigit y i st = (Ok dy, st) ->
     body2 i c st = (SetDigit i (f2 (dx, dy) c).1;; mret (f2 (dx, dy) c).2) st) ->
  (forall i c st dx, GetDigit x i st = (Ok dx, st) -> body1 i c st = (SetDigit i (f1 dx c).1;; mret (f1 dx c).2) st) ->
  Forall digit (GetData x) -> Forall digit (GetData y) -> GetLength y <= GetLength x ->
  exists ds c,
    (c' ← fold_range 0 (GetLength y) body2 0; fold_range (GetLength y) (GetLength x) body1 c')
      (mkBigInt false (replicate (length (GetData x)) 0 ++ post))
    = (Ok c, mkBigInt false (ds ++ post)) /\
    Forall digit ds /\ length ds = length (GetData x) /\ bit c /\
    val ds + 2 ^ (32 * GetLength x) * (k * c) = val (GetData x) + k * val (GetData y).
Proof.
  intros S2 S1 B2 B1 Hx Hy Hle. destruct (split_digits _ _ Hle) as (x1 & x2 & Ex & Hl1).
  pose proof (two_loops f2 f1 x y body2 body1 x1 x2 (replicate (length x1) 0) (replicate (length x2) 0)
    post 0 false Ex Hl1 ltac:(by rewrite length_replicate) ltac:(by rewrite length_replicate) B2 B1) as Hloop.
  rewrite Ex in Hx. apply Forall_app in Hx as [Hx1 Hx2].
  destruct (carry_map_val f2 (fun p => p.1 + k * p.2) (fun c => k * c) _ bit S2 (zip x1 (GetData y)) 0) as (D1 & C1 & V1);
    [by apply Forall_zip_digits|done|].
  destruct (carry_map f2 (zip x1 (GetData y)) 0) as [ds1 c1] eqn:E1.
  pose proof (carry_map_length f2 (zip x1 (GetData y)) 0) as L1. rewrite E1, zip_length_eq in L1 by done. cbn [fst snd] in *.
  destruct (carry_map_val f1 (fun d => d) (fun c => k * c) digit bit S1 x2 c1 Hx2 C1) as (D2 & C2 & V2).
  destruct (carry_map f1 x2 c1) as [ds2 c2] eqn:E2.
  rewrite (val_zip_with (fun a b => a + k * b) k) in V1 by done.
  pose proof (carry_map_length f1 x2 c1) as L2. rewrite E2 in L2. cbn [fst snd] in *. rewrite list_fmap_id in V2.
  exists (ds1 ++ ds2), c2. rewrite Ex, length_app, replicate_split, <- !app_assoc.
  split; [exact Hloop|]. split; [by apply Forall_app|]. split; [rewrite length_app; lia|]. split; [done|].
  unfold GetLength. rewrite Ex, !val_app, lenZ_app, Z.mul_add_distr_l, Z.pow_add_r by (pose proof (lenZ_nonneg x1); pose proof (lenZ_nonneg x2); lia).
  replace (lenZ ds1) with (lenZ x1) by (unfold lenZ; lia).
  replace (lenZ (zip x1 (GetData y))) with (lenZ x1) in V1 by (unfold lenZ; rewrite zip_length_eq by done; lia).
  set (P := 2 ^ (32 * lenZ x1)) in *. set (Q := 2 ^ (32 * lenZ x2)) in *. clear - V1 V2. nia.
Qed.

Lemma add_digits_run {S} (x y : BigInt) (sg : bool) (s : S) :
  Forall digit (GetData x) -> Forall digit (GetData y) -> GetLength y <= GetLength x ->
  0 < GetLength x -> GetLength x + 1 <= MAXSIZE ->
  computes (add_digits x y sg) (signed sg (val (GetData x) + val (GetData y))) s.
Proof.
  intros Hx Hy Hle Hpos Hmax. pose proof MAXSIZE_eq as Hms. unfold add_digits.
  destruct (two_loops_val 1 add2 add1 x y (add_round x y) (add_rest_round x) [0]) as (ds & c & Hloop & Hds & Hlen & Hc & Hval);
    [intros p c Hp Hc; destruct (add2_step p c Hp Hc) as (? & ? & ?); split_and!; [done|done|lia]|intros p c Hp Hc; destruct (add1_step p c Hp Hc) as (? & ? & ?); split_and!; [done|done|lia]
    |apply add_round_run|apply add_rest_round_run|done..|].
  cstep by (apply CreateBigint_run; rewrite u32_small by lia; lia).
  cstep by (apply (build_run _ (mkBigInt sg (ds ++ [c])))).
  { replace (replicate (Z.to_nat (u32 (GetLength x + 1))) 0) with (replicate (length (GetData x)) 0 ++ [0]).
    2: { rewrite u32_small by lia. unfold GetLength. replace (Z.to_nat (lenZ (GetData x) + 1)) with (length (GetData x) + 1)%nat by lenz.
         by rewrite replicate_split. }
    rewrite bind_assoc. mstep with Hloop. mstep by (apply SetDigit_run; unfold GetLength, lenZ; lia). done. }
  replace (signed sg (val (GetData x) + val (GetData y))) with (value (mkBigInt sg (ds ++ [c]))).
  - apply RightTruncate_run; simpl.
    + apply Forall_app. split; [done|]. by apply Forall_singleton, digit_bit.
    + unfold GetLength in *. simpl. lenz.
  - unfold value, signed, GetLength in *. simpl. rewrite val_app, val_cons, val_nil.
    replace (lenZ ds) with (lenZ (GetData x)) by (unfold lenZ; lia). destruct sg; lia.
Qed.

Lemma BigintSub_run {S} (x y : BigInt) (sg : bool) (s : S) :
  Forall digit (GetData x) -> Forall digit (GetData y) -> GetLength y <= GetLength x ->
  0 < GetLength x <= MAXSIZE -> val (GetData y) <= val (GetData x) ->
  computes (BigintSub x y sg) (signed sg (val (GetData x) - val (GetData y))) s.
Proof.
  intros Hx Hy Hle Hmax Hv. unfold BigintSub.
  destruct (two_loops_val (-1) sub2 sub1 x y (sub_round x y) (sub_rest_round x) []) as (ds & c & Hloop & Hds & Hlen & Hc & Hval);
    [intros p c Hp Hc; destruct (sub2_step p c Hp Hc) as (? & ? & ?); split_and!; [done|done|lia]|intros p c Hp Hc; destruct (sub1_step p c Hp Hc) as (? & ? & ?); split_and!; [done|done|lia]
    |apply sub_round_run|apply sub_rest_round_run|done..|].
  cstep by (by apply CreateBigint_run). rewrite !app_nil_r in Hloop.
  cstep by (apply (build_run _ (mkBigInt sg ds))).
  { replace (Z.to_nat (GetLength x)) with (length (GetData x)) by (unfold GetLength, lenZ; lia).
    rewrite bind_assoc. by mstep with Hloop. }
  replace (signed sg (val (GetData x) - val (GetData y))) with (value (mkBigInt sg ds)).
  - apply RightTruncate_run; [done|]. unfold GetLength in *. simpl. lenz.
  - unfold value, signed, GetLength, bit in *. simpl. pose proof (val_bounds ds Hds) as Hb.
    replace (lenZ ds) with (lenZ (GetData x)) in Hb by (unfold lenZ; lia).
    assert (c = 0 \/ c = 1) as [E|E] by lia; rewrite E in Hval; destruct sg; lia.
Qed.

(** ** The highest digit that differs *)

Lemma top_difference (xs ys : list Z) :
  length xs = length ys ->
  xs = ys \/ exists a b dx dy t, xs = a ++ dx :: t /\ ys = b ++ dy :: t /\ length a = length b /\ dx <> dy.
Proof.
  revert ys. induction xs as [|x xs IH]; intros [|y ys] Hl; try done; [by left|]. simpl in Hl.
  destruct (IH ys ltac:(lia)) as [->|(a & b & dx & dy & t & -> & -> & Hab & Hne)].
  - destruct (Z.eq_dec x y) as [->|Hne]; [by left|]. right. by exists [], [], x, y, ys.
  - right. exists (x :: a), (y :: b), dx, dy, t. by simpl; rewrite Hab.
Qed.

Lemma val_top_lt (a b t : list Z) (dx dy : Z) :
  Forall digit a -> Forall digit b -> length a = length b -> dx < dy -> val (a ++ dx :: t) < val (b ++ dy :: t).
Proof.
  intros Ha Hb Hl Hlt. rewrite !val_app, !val_cons. pose proof (val_bounds a Ha). pose proof (val_bounds b Hb).
  replace (lenZ b) with (lenZ a) in * by (unfold lenZ; lia). set (P := 2 ^ (32 * lenZ a)) in *. nia.
Qed.

Lemma AbsolutelyCompare_loop {S} (x y : BigInt) (a b t1 t2 : list Z) (s : S) :
  GetData x = a ++ t1 ++ t2 -> GetData y = b ++ t1 ++ t2 -> length a = length b ->
  find_down (length a + length t1)%nat (lenZ a + lenZ t1 - 1) (fun index =>
      dx ← GetDigit x index; dy ← GetDigit y index;
      mret (if negb (dx =? dy) then Some (dx, dy) else None)) s
  = find_down (length a)%nat (lenZ a - 1) (fun index =>
      dx ← GetDigit x index; dy ← GetDigit y index;
      mret (if negb (dx =? dy) then Some (dx, dy) else None)) s.
Proof.
  revert t2. induction t1 as [|d t1 IH] using rev_ind; intros t2 Hx Hy Hab.
  { by rewrite Nat.add_0_r, lenZ_nil, Z.add_0_r. }
  rewrite length_app, lenZ_app, lenZ_cons, lenZ_nil. replace (length a + (length t1 + length [d]))%nat with (Datatypes.S (length a + length t1)) by (simpl; lia).
  simpl find_down. replace (lenZ a + (lenZ t1 + (0 + 1)) - 1) with (lenZ a + lenZ t1) by lia.
  rewrite <- app_assoc in Hx, Hy. simpl in Hx, Hy. pose proof (lenZ_nonneg a). pose proof (lenZ_nonneg t1).
  rewrite (bind_Ok _ _ _ s None).
  2: { mstep by (apply (GetDigit_run _ _ d); [lia|rewrite Hx, app_assoc; apply list_lookup_middle; lenz]).
       mstep by (apply (GetDigit_run _ _ d); [lia|rewrite Hy, app_assoc; apply list_lookup_middle; lenz]). by rewrite Z.eqb_refl. }
  cbv iota. by apply (IH (d :: t2)).
Qed.

Definition comparison (a b : Z) : ComparisonResult :=
  match a ?= b with Lt => LESS | Eq => EQUAL | Gt => GREAT end.

Lemma AbsolutelyCompare_same_length {S} (x y : BigInt) (s : S) :
  Forall digit (GetData x) -> Forall digit (GetData y) -> GetLength x = GetLength y ->
  AbsolutelyCompare x y s = (Ok (comparison (val (GetData x)) (val (GetData y))), s).
Proof.
  intros Hx Hy Hl. unfold AbsolutelyCompare. rewrite <- Hl. rewrite Z.ltb_irrefl. unfold comparison.
  unfold GetLength in *. assert (length (GetData x) = length (GetData y)) as Hlen by (unfold lenZ in Hl; lia).
  replace (Z.to_nat (lenZ (GetData x))) with (length (GetData x)) by (unfold lenZ; lia).
  destruct (top_difference _ _ Hlen) as [Heq|(a & b & dx & dy & t & Ex & Ey & Hab & Hne)].
  - pose proof (AbsolutelyCompare_loop x y [] [] (GetData x) [] s ltac:(by rewrite app_nil_r) ltac:(by rewrite app_nil_r) eq_refl) as L.
    simpl in L. rewrite Z.add_0_l in L. mstep with L. by rewrite <- Heq, Z.compare_refl.
  - pose proof (AbsolutelyCompare_loop x y (a ++ [dx]) (b ++ [dy]) t [] s) as L.
    rewrite !app_nil_r, <- !app_assoc in L. specialize (L Ex Ey ltac:(rewrite !length_app; simpl; lia)).
    replace (length (a ++ [dx]) + length t)%nat with (length (GetData x)) in L by (rewrite Ex; lenz).
    replace (lenZ (a ++ [dx]) + lenZ t - 1) with (lenZ (GetData x) - 1) in L by (rewrite Ex; lenz).
    rewrite Ex in Hx. rewrite Ey in Hy. apply Forall_app in Hx as [Ha _], Hy as [Hb _].
    pose proof (lenZ_nonneg a).
    rewrite (bind_Ok _ _ _ s (Some (dx, dy))).
    2: { rewrite L. rewrite length_app, Nat.add_comm. simpl find_down. replace (lenZ (a ++ [dx]) - 1) with (lenZ a) by lenz.
         erewrite bind_Ok.
         2: { mstep by (apply (GetDigit_run _ _ dx); [lia|rewrite Ex; apply list_lookup_middle; lenz]).
              mstep by (apply (GetDigit_run _ _ dy); [lia|rewrite Ey; apply list_lookup_middle; lenz]). reflexivity. }
         by zb. }
    cbv iota. rewrite Ex, Ey. destruct (Z.lt_ge_cases dx dy) as [Hlt|Hge].
    + pose proof (val_top_lt a b t dx dy Ha Hb Hab Hlt). zb. by rewrite (proj2 (Z.compare_lt_iff _ _)).
    + pose proof (val_top_lt b a t dy dx Hb Ha ltac:(lia) ltac:(lia)). zb. by rewrite (proj2 (Z.compare_gt_iff _ _)).
Qed.

Lemma wf_length (x : BigInt) : wf x -> 0 < GetLength x <= MAXSIZE.
Proof. intros [_ (p & d & E & _) Hs]. split; [|done]. unfold GetLength. rewrite E. pose proof (lenZ_nonneg p). lenz. Qed.

(** A BigInt with more digits is larger. *)
Lemma longer_larger (x y : BigInt) : wf x -> wf y -> GetLength x < GetLength y -> val (GetData x) < val (GetData y).
Proof.
  intros Hwx [Hy (p & d & Ey & Ht) _] Hl. pose proof (wf_length x Hwx) as Hn. destruct Hwx as [Hx _ _].
  unfold GetLength in *. pose proof (val_bounds _ Hx).
  rewrite Ey in *. apply Forall_app in Hy as [Hp [Hd _]%Forall_cons_1].
  rewrite lenZ_app, lenZ_cons, lenZ_nil in Hl. destruct Ht as [Ht|[-> _]]; [|lenz].
  pose proof (val_snoc_bounds p d Hp Hd Ht).
  pose proof (Z.pow_le_mono_r 2 (32 * lenZ (GetData x)) (32 * lenZ p) ltac:(lia) ltac:(lia)). lia.
Qed.

Lemma AbsolutelyCompare_run {S} (x y : BigInt) (s : S) :
  wf x -> wf y -> AbsolutelyCompare x y s = (Ok (comparison (val (GetData x)) (val (GetData y))), s).
Proof.
  intros Hx Hy. destruct (Z.lt_trichotomy (GetLength x) (GetLength y)) as [Hlt|[Heq|Hgt]].
  - pose proof (longer_larger x y Hx Hy Hlt). unfold AbsolutelyCompare, comparison. zb. by rewrite (proj2 (Z.compare_lt_iff _ _)).
  - apply AbsolutelyCompare_same_length; [apply Hx|apply Hy|done].
  - pose proof (longer_larger y x Hy Hx ltac:(lia)). unfold AbsolutelyCompare, comparison. zb. by rewrite (proj2 (Z.compare_gt_iff _ _)).
Qed.

Lemma Compare_run {S} (x y : BigInt) (s : S) :
  wf x -> wf y -> Compare x y s = (Ok (comparison (value x) (value y)), s).
Proof.
  intros Hx Hy. unfold Compare. cbv zeta. destruct (eqb (GetSign x) (GetSign y)) eqn:Es; cbn [negb].
  - apply eqb_prop in Es. mstep with (AbsolutelyCompare_run x y s Hx Hy). unfold comparison, value. rewrite <- Es.
    destruct (GetSign x); [|done]. rewrite Z.compare_opp, (Z.compare_antisym (val (GetData x))). by destruct (val (GetData x) ?= val (GetData y)).
  - apply eqb_false_iff in Es. unfold comparison, value.
    pose proof (val_bounds _ (wf_digits x Hx)). pose proof (val_bounds _ (wf_digits y Hy)).
    destruct Hx as [Hdx (p & d & Ex & Tx) _], Hy as [Hdy (q & e & Ey & Ty) _].
    destruct (GetSign x), (GetSign y); try done.
    + destruct Tx as [Tx|[_ ?]]; [|done]. rewrite Ex in *. apply Forall_app in Hdx as [Hp [Hd _]%Forall_cons_1].
      pose proof (val_snoc_bounds p d Hp Hd Tx). pose proof (pow32_pos (lenZ p) (lenZ_nonneg p)).
      by rewrite (proj2 (Z.compare_lt_iff _ _)) by lia.
    + destruct Ty as [Ty|[_ ?]]; [|done]. rewrite Ey in *. apply Forall_app in Hdy as [Hq [He _]%Forall_cons_1].
      pose proof (val_snoc_bounds q e Hq He Ty). pose proof (pow32_pos (lenZ q) (lenZ_nonneg q)).
      by rewrite (proj2 (Z.compare_gt_iff _ _)) by lia.
Qed.

Lemma differ_loop {S} (x y : BigInt) (a b t1 t2 : list Z) (fuel : nat) (s : S) :
  GetData x = a ++ t1 ++ t2 -> GetData y = b ++ t1 ++ t2 -> length a = length b -> (0 < length a)%nat ->
  while_fuel (length t1 + fuel)%nat (differ_step x y) (lenZ a + lenZ t1 - 1) s
  = while_fuel fuel (differ_step x y) (lenZ a - 1) s.
Proof.
  revert t2. induction t1 as [|d t1 IH] using rev_ind; intros t2 Hx Hy Hab Hpos.
  { by rewrite lenZ_nil, Z.add_0_r. }
  rewrite length_app, lenZ_app, lenZ_cons, lenZ_nil. replace (length t1 + length [d] + fuel)%nat with (Datatypes.S (length t1 + fuel)) by (simpl; lia).
  simpl while_fuel. replace (lenZ a + (lenZ t1 + (0 + 1)) - 1) with (lenZ a + lenZ t1) by lia.
  rewrite <- app_assoc in Hx, Hy. simpl in Hx, Hy. pose proof (lenZ_nonneg t1).
  assert (0 < lenZ a) by (unfold lenZ; lia).
  rewrite (bind_Ok _ _ _ s (inl (lenZ a + lenZ t1 - 1))).
  2: { unfold differ_step. zb.
       mstep by (apply (GetDigit_run _ _ d); [lia|rewrite Hx, app_assoc; apply list_lookup_middle; lenz]).
       mstep by (apply (GetDigit_run _ _ d); [lia|rewrite Hy, app_assoc; apply list_lookup_middle; lenz]). by rewrite Z.eqb_refl. }
  cbv iota. by apply (IH (d :: t2)).
Qed.

Lemma first_difference_run {S} (x y : BigInt) (s : S) :
  Forall digit (GetData x) -> Forall digit (GetData y) -> GetLength x = GetLength y -> 0 < GetLength x ->
  exists i dx dy, first_difference x y s = (Ok i, s) /\ GetDigit x i s = (Ok dx, s) /\ GetDigit y i s = (Ok dy, s) /\
    (if dy <? dx then val (GetData y) <= val (GetData x) else val (GetData x) <= val (GetData y)).
Proof.
  intros Hx Hy Hl Hpos. unfold first_difference, GetLength in *.
  assert (length (GetData x) = length (GetData y)) as Hlen by (unfold lenZ in Hl; lia).
  destruct (top_difference _ _ Hlen) as [Heq|(a & b & dx & dy & t & Ex & Ey & Hab & Hne)].
  - destruct (GetData x) as [|d t] eqn:Ex; [done|]. exists 0, d, d.
    pose proof (differ_loop x y [d] [d] t [] 1 s ltac:(by rewrite Ex, app_nil_r) ltac:(by rewrite <- Heq, app_nil_r) eq_refl ltac:(simpl; lia)) as L.
    replace (length (d :: t)) with (length t + 1)%nat by (simpl; lia).
    replace (lenZ (d :: t) - 1) with (lenZ [d] + lenZ t - 1) by lenz. rewrite L.
    split_and!; [done|by apply GetDigit_run; [|rewrite Ex]|by apply GetDigit_run; [|rewrite <- Heq]|].
    rewrite Z.ltb_irrefl, Heq. lia.
  - exists (lenZ a), dx, dy. pose proof (lenZ_nonneg a).
    pose proof (differ_loop x y (a ++ [dx]) (b ++ [dy]) t [] (Datatypes.S (length a)) s) as L.
    rewrite !app_nil_r, <- !app_assoc in L. specialize (L Ex Ey ltac:(rewrite !length_app; simpl; lia) ltac:(rewrite length_app; simpl; lia)).
    replace (length t + Datatypes.S (length a))%nat with (length (GetData x)) in L by (rewrite Ex; lenz).
    replace (lenZ (a ++ [dx]) + lenZ t - 1) with (lenZ (GetData x) - 1) in L by (rewrite Ex; lenz).
    replace (lenZ (a ++ [dx]) - 1) with (lenZ a) in L by lenz.
    assert (GetDigit x (lenZ a) s = (Ok dx, s)) as Gx by (apply GetDigit_run; [lia|rewrite Ex; apply list_lookup_middle; lenz]).
    assert (GetDigit y (lenZ a) s = (Ok dy, s)) as Gy by (apply GetDigit_run; [lia|rewrite Ey; apply list_lookup_middle; lenz]).
    split_and!; [|done|done|].
    + rewrite L. simpl while_fuel. rewrite (bind_Ok _ _ _ s (inr (lenZ a))); [done|]. unfold differ_step.
      destruct (Z.ltb_spec 0 (lenZ a)); [|done]. mstep with Gx. mstep with Gy. by zb.
    + rewrite Ex in *. rewrite Ey in *. apply Forall_app in Hx as [Ha _], Hy as [Hb _].
      destruct (Z.ltb_spec dy dx).
      * pose proof (val_top_lt b a t dy dx Hb Ha ltac:(lia) ltac:(lia)). lia.
      * pose proof (val_top_lt a b t dx dy Ha Hb Hab ltac:(lia)). lia.
Qed.

(** The difference of the magnitudes, taken from the larger one. *)
Lemma sub_by_size {S} (x y : BigInt) (sx sy : bool) (s : S) :
  wf x -> wf y -> sy = negb sx ->
  computes (let subSize := i32 (GetLength x - GetLength y) in
    if 0 <? subSize then BigintSub x y sx
    else if subSize =? 0 then
      i ← first_difference x y;
      dx ← GetDigit x i;
      dy ← GetDigit y i;
      if dy <? dx then BigintSub x y sx else BigintSub y x sy
    else BigintSub y x sy) (signed sx (val (GetData x) - val (GetData y))) s.
Proof.
  intros Hx Hy ->. pose proof (wf_length x Hx) as Lx. pose proof (wf_length y Hy) as Ly. pose proof MAXSIZE_eq as Hms.
  assert (i32 (GetLength x - GetLength y) = GetLength x - GetLength y) as -> by (unfold i32; zlia). cbv zeta.
  assert (signed sx (val (GetData x) - val (GetData y)) = signed (negb sx) (val (GetData y) - val (GetData x))) as Hflip
    by (destruct sx; simpl; lia).
  destruct (Z.lt_trichotomy (GetLength x) (GetLength y)) as [Hlt|[Heq|Hgt]].
  - zb. rewrite Hflip. pose proof (longer_larger x y Hx Hy Hlt). apply BigintSub_run; [apply Hy|apply Hx|lia..].
  - zb. destruct (first_difference_run x y s (wf_digits x Hx) (wf_digits y Hy) Heq ltac:(lia)) as (i & dx & dy & Hi & Gx & Gy & Hv).
    cstep with Hi. cstep with Gx. cstep with Gy. destruct (dy <? dx).
    + apply BigintSub_run; [apply Hx|apply Hy|lia..].
    + rewrite Hflip. apply BigintSub_run; [apply Hy|apply Hx|lia..].
  - zb. pose proof (longer_larger y x Hy Hx ltac:(lia)). apply BigintSub_run; [apply Hx|apply Hy|lia..].
Qed.

Lemma BigintAdd_run {S} (x y : BigInt) (sg : bool) (s : S) :
  wf x -> wf y -> Z.max (GetLength x) (GetLength y) < MAXSIZE ->
  computes (BigintAdd x y sg) (signed sg (val (GetData x) + val (GetData y))) s.
Proof.
  intros Hx Hy Hm. pose proof (wf_length x Hx). pose proof (wf_length y Hy). unfold BigintAdd.
  destruct (Z.ltb_spec (GetLength x) (GetLength y)).
  - rewrite (Z.add_comm (val (GetData x))). apply add_digits_run; [apply Hy|apply Hx|lia..].
  - apply add_digits_run; [apply Hx|apply Hy|lia..].
Qed.

Lemma BigintAdd_throw {S} (x y : BigInt) (sg : bool) (s : S) :
  wf x -> wf y -> Z.max (GetLength x) (GetLength y) = MAXSIZE -> BigintAdd x y sg s = (Throw RANGE_ERROR, s).
Proof.
  intros Hx Hy Hm. pose proof MAXSIZE_eq as Hms. unfold BigintAdd, add_digits.
  destruct (Z.ltb_spec (GetLength x) (GetLength y)); apply bind_Throw, CreateBigint_throw; rewrite u32_small; lia.
Qed.

(** Whether an addition of magnitudes has room for the carry. *)
Definition room (x y : BigInt) : bool := Z.max (GetLength x) (GetLength y) <? MAXSIZE.

Lemma Add_run {S} (x y : BigInt) (s : S) :
  wf x -> wf y -> GetSign x <> GetSign y \/ room x y = true -> computes (Add x y) (value x + value y) s.
Proof.
  intros Hx Hy Hr. unfold Add. cbv zeta. destruct (eqb (GetSign x) (GetSign y)) eqn:Es.
  - apply eqb_prop in Es. destruct Hr as [?|Hr%Z.ltb_lt]; [done|].
    replace (value x + value y) with (signed (GetSign x) (val (GetData x) + val (GetData y)))
      by (unfold value, signed; rewrite Es; destruct (GetSign y); lia). by apply BigintAdd_run.
  - apply eqb_false_iff in Es.
    replace (value x + value y) with (signed (GetSign x) (val (GetData x) - val (GetData y)))
      by (unfold value, signed; destruct (GetSign x), (GetSign y); (done || lia)).
    apply sub_by_size; [done..|]. by destruct (GetSign x), (GetSign y).
Qed.

Lemma Subtract_run {S} (x y : BigInt) (s : S) :
  wf x -> wf y -> GetSign x = GetSign y \/ room x y = true -> computes (Subtract x y) (value x - value y) s.
Proof.
  intros Hx Hy Hr. unfold Subtract. cbv zeta. destruct (eqb (GetSign x) (GetSign y)) eqn:Es; cbn [negb].
  - apply eqb_prop in Es.
    replace (value x - value y) with (signed (GetSign x) (val (GetData x) - val (GetData y)))
      by (unfold value, signed; rewrite Es; destruct (GetSign y); lia).
    apply sub_by_size; [done..|]. by rewrite Es.
  - apply eqb_false_iff in Es. destruct Hr as [?|Hr%Z.ltb_lt]; [done|].
    replace (value x - value y) with (signed (GetSign x) (val (GetData x) + val (GetData y)))
      by (unfold value, signed; destruct (GetSign x), (GetSign y); (done || lia)). by apply BigintAdd_run.
Qed.

(** C24: adding and subtracting BigInts adds and subtracts the integers; an
    addition of magnitudes throws the range error when one of them already has
    the greatest number of digits. *)
Theorem bigint_Add_Subtract_spec {S} (x y : BigInt) (s : S) :
  wf x -> wf y ->
  (if negb (eqb (GetSign x) (GetSign y)) || room x y
   then computes (Add x y) (value x + value y) s else Add x y s = (Throw RANGE_ERROR, s)) /\
  (if eqb (GetSign x) (GetSign y) || room x y
   then computes (Subtract x y) (value x - value y) s else Subtract x y s = (Throw RANGE_ERROR, s)).
Proof.
  intros Hx Hy. pose proof (wf_length x Hx). pose proof (wf_length y Hy).
  assert (room x y = false -> Z.max (GetLength x) (GetLength y) = MAXSIZE) as Hfull by (unfold room; intros ?%Z.ltb_ge; lia).
  destruct (eqb (GetSign x) (GetSign y)) eqn:Es, (room x y) eqn:Hr; cbn [negb orb];
    first [apply eqb_prop in Es|apply eqb_false_iff in Es].
  - split; [apply Add_run; auto|apply Subtract_run; auto].
  - split; [|apply Subtract_run; auto]. unfold Add. rewrite Es, eqb_reflx. apply BigintAdd_throw; auto.
  - split; [apply Add_run; auto|apply Subtract_run; auto].
  - split; [apply Add_run; auto|]. unfold Subtract. cbv zeta. rewrite (proj2 (eqb_false_iff _ _) Es). apply BigintAdd_throw; auto.
Qed.

(** ** Bit operations *)

Definition not32 (d : Z) : Z := Z.lxor d 0xFFFFFFFF.

Definition op32 (op : Operate) : Z -> Z -> Z :=
  match op with AND => Z.land | OR => Z.lor | XOR => Z.lxor end.

Section bit_ops.
Context {S : Type}.

Definition op_round (op : Operate) (x y : BigInt) (i : Z) : M BigInt unit :=
  dx ← GetDigit x i;
  dy ← GetDigit y i;
  SetDigit i (op32 op dx dy).

(** Digit [i] of [x] is copied. *)
Definition copy_round (x : BigInt) (i : Z) : M BigInt unit :=
  d ← GetDigit x i;
  SetDigit i d.

Definition BitwiseOp (op : Operate) (x y : BigInt) : M S BigInt :=
  let xlen := GetLength x in
  let ylen := GetLength y in
  let maxLen := if ylen <? xlen then xlen else ylen in
  let minLen := if ylen <? xlen then ylen else xlen in
  bigint ← CreateBigint maxLen;
  bigint ← build bigint (
    for_range 0 minLen (op_round op x y);;
    match op with
    | AND => mret tt
    | _ =>
        if ylen <? xlen then for_range ylen xlen (copy_round x)
        else if xlen <? ylen then for_range xlen ylen (copy_round y)
        else mret tt
    end);
  RightTruncate bigint.

Definition sub_one_round (bigint : BigInt) (i carry : Z) : M BigInt Z :=
  d ← GetDigit bigint i;
  let '(r, bigintCarry) := SubHelper d carry 0 in
  SetDigit i r;;
  mret bigintCarry.

Definition BitwiseSubOne (bigint : BigInt) (maxLen : Z) : M S BigInt :=
  ASSERT (negb (IsZero bigint));;
  ASSERT (GetLength bigint <=? maxLen);;
  newBigint ← CreateBigint maxLen;
  newBigint ← build newBigint (
    carry ← fold_range 0 (GetLength bigint) (sub_one_round bigint) 1;
    ASSERT (carry =? 0));
  RightTruncate newBigint.

Definition add_one_round (bigint : BigInt) (i carry : Z) : M BigInt Z :=
  d ← GetDigit bigint i;
  let '(r, bigintCarry) := AddHelper d carry 0 in
  SetDigit i r;;
  mret bigintCarry.

Definition BitwiseAddOne (bigint : BigInt) : M S BigInt :=
  let bigintLength := GetLength bigint in
  r ← find_up (length (GetData bigint)) 0 (fun i =>
        d ← GetDigit bigint i;
        mret (if negb (0xFFFFFFFF =? d) then Some tt else None));
  let needExpend := match r with Some _ => false | None => true end in
  let newLength := if needExpend then u32 (bigintLength + 1) else bigintLength in
  newBigint ← CreateBigint newLength;
  newBigint ← build newBigint (
    carry ← fold_range 0 bigintLength (add_one_round bigint) 1;
    (if needExpend then SetDigit bigintLength carry else mret tt);;
    SetSign true);
  RightTruncate newBigint.

Definition and_not_round (x y : BigInt) (i : Z) : M BigInt unit :=
  dx ← GetDigit x i;
  dy ← GetDigit y i;
  SetDigit i (Z.land dx (not32 dy)).

(** The common part of OneIsNegativeAND and OneIsNegativeOR: [x] without the
    bits of [y]. *)
Definition and_not (x y : BigInt) : M S BigInt :=
  let xLength := GetLength x in
  let yLength := GetLength y in
  let minLen := if yLength <? xLength then yLength else xLength in
  newBigint ← CreateBigint xLength;
  newBigint ← build newBigint (
    for_range 0 minLen (and_not_round x y);;
    for_range minLen xLength (copy_round x));
  RightTruncate newBigint.

Definition OneIsNegativeAND (x y : BigInt) : M S BigInt :=
  yVal ← BitwiseSubOne y (GetLength y);
  and_not x yVal.

Definition BitwiseAND (x y : BigInt) : M S BigInt :=
  if GetSign x && GetSign y then
    xVal ← BitwiseSubOne x (GetLength x);
    yVal ← BitwiseSubOne y (GetLength y);
    temp ← BitwiseOp OR xVal yVal;
    BitwiseAddOne temp
  else if negb (eqb (GetSign x) (GetSign y)) then
    if negb (GetSign x) then OneIsNegativeAND x y else OneIsNegativeAND y x
  else BitwiseOp AND x y.

Definition OneIsNegativeXOR (x y : BigInt) : M S BigInt :=
  yVal ← BitwiseSubOne y (GetLength y);
  temp ← BitwiseOp XOR x yVal;
  BitwiseAddOne temp.

Definition BitwiseXOR (x y : BigInt) : M S BigInt :=
  if GetSign x && GetSign y then
    xVal ← BitwiseSubOne x (GetLength x);
    yVal ← BitwiseSubOne y (GetLength y);
    BitwiseOp XOR xVal yVal
  else if negb (eqb (GetSign x) (GetSign y)) then
    if negb (GetSign x) then OneIsNegativeXOR x y else OneIsNegativeXOR y x
  else BitwiseOp XOR x y.

(** [~x & y] is [y & ~x]. *)
Definition OneIsNegativeOR (x y : BigInt) : M S BigInt :=
  let maxLen := if GetLength x <? GetLength y then GetLength y else GetLength x in
  yVal ← BitwiseSubOne y maxLen;
  temp ← and_not yVal x;
  res ← BitwiseAddOne temp;
  build res (SetSign true).

Definition BitwiseOR (x y : BigInt) : M S BigInt :=
  if GetSign x && GetSign y then
    let maxLen := if GetLength x <? GetLength y then GetLength y else GetLength x in
    xVal ← BitwiseSubOne x maxLen;
    yVal ← BitwiseSubOne y (GetLength y);
    temp ← BitwiseOp AND xVal yVal;
    res ← BitwiseAddOne temp;
    build res (SetSign true)
  else if negb (eqb (GetSign x) (GetSign y)) then
    if negb (GetSign x) then OneIsNegativeOR x y else OneIsNegativeOR y x
  else BitwiseOp OR x y.
End bit_ops.

(** *** Bits of numbers and of their digits *)

Lemma join_testbit (a b n : Z) :
  digit a -> 0 <= n -> Z.testbit (a + 2 ^ 32 * b) n = if n <? 32 then Z.testbit a n else Z.testbit b (n - 32).
Proof.
  intros Ha Hn. unfold digit in Ha. destruct (Z.ltb_spec n 32) as [Hlt|Hge].
  - rewrite <- (Z.mod_pow2_bits_low (a + 2 ^ 32 * b) 32) by lia. rewrite Z.mul_comm, Z.mod_add, Z.mod_small by lia. done.
  - replace n with (n - 32 + 32) at 1 by lia. rewrite <- Z.div_pow2_bits by lia.
    rewrite Z.mul_comm, Z.div_add, Z.div_small by lia. done.
Qed.

Section bitwise.
Context (F : Z -> Z -> Z) (f : bool -> bool -> bool).
Context (Fspec : forall a b n, Z.testbit (F a b) n = f (Z.testbit a n) (Z.testbit b n)) (f00 : f false false = false).

Lemma bitop_digit (a b : Z) : digit a -> digit b -> digit (F a b).
Proof.
  unfold digit. intros Ha Hb. assert (F a b = F a b mod 2 ^ 32) as ->; [|apply Z.mod_pos_bound; lia].
  apply Z.bits_inj'. intros n Hn. destruct (Z.lt_ge_cases n 32) as [Hlt|Hge].
  - by rewrite Z.mod_pow2_bits_low.
  - rewrite Z.mod_pow2_bits_high, Fspec by lia.
    rewrite <- (Z.mod_small a (2 ^ 32)), <- (Z.mod_small b (2 ^ 32)) by lia. by rewrite !Z.mod_pow2_bits_high by lia.
Qed.

Lemma bitop_join (a b c d : Z) : digit a -> digit c -> F (a + 2 ^ 32 * b) (c + 2 ^ 32 * d) = F a c + 2 ^ 32 * F b d.
Proof.
  intros Ha Hc. apply Z.bits_inj'. intros n Hn. rewrite Fspec, !join_testbit by (try done; by apply bitop_digit).
  destruct (n <? 32); by rewrite Fspec.
Qed.

Lemma bitop_0 : F 0 0 = 0.
Proof. apply Z.bits_inj'. intros n Hn. by rewrite Fspec, Z.bits_0. Qed.

Lemma val_bitop (a b : list Z) :
  Forall digit a -> Forall digit b -> length a = length b -> val (zip_with F a b) = F (val a) (val b).
Proof.
  intros Ha. revert b. induction Ha as [|x a Hx Ha IH]; intros [|y b] Hb Hl; try done; [by rewrite val_nil, bitop_0|].
  apply Forall_cons_1 in Hb as [Hy Hb]. simpl zip_with. rewrite !val_cons, bitop_join, IH by (done || (simpl in Hl; lia)). done.
Qed.

(** Digits that only the first number has. *)
Lemma val_bitop_longer (a t b : list Z) :
  Forall digit a -> Forall digit t -> Forall digit b -> length a = length b -> (forall d, F d 0 = d) ->
  val (zip_with F a b ++ t) = F (val (a ++ t)) (val b).
Proof.
  intros Ha Ht Hb Hl Hid.
  replace (val b) with (val (b ++ replicate (length t) 0)) by (rewrite val_app, val_replicate; lia).
  rewrite <- val_bitop.
  - rewrite zip_with_app by done. do 2 f_equal. clear - Hid. induction t as [|d t IH]; [done|]. simpl. by rewrite Hid, <- IH.
  - by apply Forall_app.
  - apply Forall_app. split; [done|]. by apply Forall_replicate.
  - rewrite !length_app, length_replicate. lia.
Qed.
End bitwise.

(** A loop that writes the digits [ds] one after the other. *)
Lemma for_up_digits (body : Z -> M BigInt unit) (ds : list Z) (sg : bool) (pre old post : list Z) :
  length old = length ds ->
  (forall k d st, ds !! k = Some d -> body (lenZ pre + Z.of_nat k) st = SetDigit (lenZ pre + Z.of_nat k) d st) ->
  for_up (length ds) (lenZ pre) body (mkBigInt sg (pre ++ old ++ post)) = (Ok tt, mkBigInt sg (pre ++ ds ++ post)).
Proof.
  revert pre old. induction ds as [|d ds IH]; intros pre [|o old] Hl Hb; try done. simpl length.
  rewrite (for_up_cons _ _ _ _ (mkBigInt sg (pre ++ d :: old ++ post))).
  2: { rewrite <- (Z.add_0_r (lenZ pre)). rewrite (Hb O d) by done. rewrite Z.add_0_r. by apply SetDigit_run. }
  replace (lenZ pre + 1) with (lenZ (pre ++ [d])) by lenz.
  specialize (IH (pre ++ [d]) old ltac:(simpl in Hl; lia)). rewrite <- !app_assoc in IH. simpl app in IH.
  rewrite IH; [done|]. intros k e st Hk. replace (lenZ (pre ++ [d]) + Z.of_nat k) with (lenZ pre + Z.of_nat (Datatypes.S k)) by lenz.
  by apply Hb.
Qed.

Lemma copy_digits_loop (x : BigInt) (a t : list Z) (sg : bool) (pre old post : list Z) (lo hi : Z) :
  GetData x = a ++ t -> lenZ pre = lenZ a -> length old = length t -> lo = lenZ a -> hi = lenZ a + lenZ t ->
  for_range lo hi (copy_round x) (mkBigInt sg (pre ++ old ++ post)) = (Ok tt, mkBigInt sg (pre ++ t ++ post)).
Proof.
  intros Hx Hp Ho -> ->. unfold for_range. replace (Z.to_nat (lenZ a + lenZ t - lenZ a)) with (length t) by (unfold lenZ; lia).
  rewrite <- Hp. apply for_up_digits; [done|]. intros k d st Hk. unfold copy_round.
  pose proof (lenZ_nonneg pre). mstep by (apply (GetDigit_run _ _ d); [lia|rewrite Hx, lookup_app_r by lenz; rewrite <- Hk; f_equal; lenz]).
  done.
Qed.

Lemma zip_with_loop (F : Z -> Z -> Z) (body : Z -> M BigInt unit) (x y : BigInt) (n : Z) (sg : bool) (old post : list Z) :
  n = Z.min (GetLength x) (GetLength y) -> lenZ old = n ->
  (forall i dx dy st, GetDigit x i st = (Ok dx, st) -> GetDigit y i st = (Ok dy, st) -> body i st = SetDigit i (F dx dy) st) ->
  for_range 0 n body (mkBigInt sg (old ++ post)) = (Ok tt, mkBigInt sg (zip_with F (GetData x) (GetData y) ++ post)).
Proof.
  intros Hn Ho Hb. unfold for_range. unfold GetLength in Hn.
  pose proof (length_zip_with F (GetData x) (GetData y)) as Hl.
  replace (Z.to_nat (n - 0)) with (length (zip_with F (GetData x) (GetData y))) by (unfold lenZ in Hn; lia).
  apply (for_up_digits body _ sg [] old post); [unfold lenZ in *; lia|].
  intros k d st Hk. apply lookup_zip_with_Some in Hk as (dx & dy & -> & Hx & Hy).
  replace (lenZ [] + Z.of_nat k) with (Z.of_nat k) by lenz.
  apply Hb; apply GetDigit_run; (lia || by rewrite Nat2Z.id).
Qed.

Lemma zip_with_comm_op (op : Operate) (a b : list Z) : zip_with (op32 op) a b = zip_with (op32 op) b a.
Proof.
  revert b. induction a as [|x a IH]; intros [|y b]; try done. simpl. rewrite IH. f_equal.
  destruct op; [apply Z.land_comm|apply Z.lor_comm|apply Z.lxor_comm].
Qed.

Definition opb (op : Operate) : bool -> bool -> bool := match op with AND => andb | OR => orb | XOR => xorb end.

Lemma op32_spec (op : Operate) (a b n : Z) : Z.testbit (op32 op a b) n = opb op (Z.testbit a n) (Z.testbit b n).
Proof. destruct op; [apply Z.land_spec|apply Z.lor_spec|apply Z.lxor_spec]. Qed.

Lemma opb_00 (op : Operate) : opb op false false = false.
Proof. by destruct op. Qed.

Lemma op32_digits (op : Operate) (a b : list Z) :
  Forall digit a -> Forall digit b -> Forall digit (zip_with (op32 op) a b).
Proof.
  intros Ha. revert b. induction Ha as [|x a Hx Ha IH]; intros [|y b] Hb; try by constructor.
  apply Forall_cons_1 in Hb as [Hy Hb]. simpl. constructor; [|by apply IH].
  apply (bitop_digit _ _ (op32_spec op) (opb_00 op)); done.
Qed.

(** What BitwiseOp writes when the first number is not the shorter one. *)
Lemma val_op_longer (op : Operate) (a t b : list Z) :
  Forall digit (a ++ t) -> Forall digit b -> length a = length b ->
  val (zip_with (op32 op) (a ++ t) b ++ (match op with AND => replicate (length t) 0 | _ => t end))
  = op32 op (val (a ++ t)) (val b).
Proof.
  intros [Ha Ht]%Forall_app Hb Hl.
  assert (zip_with (op32 op) (a ++ t) b = zip_with (op32 op) a b) as ->.
  { rewrite <- (app_nil_r b) at 1. rewrite zip_with_app by done. simpl. by rewrite zip_with_nil_r, app_nil_r. }
  destruct op.
  - rewrite val_app, val_replicate, Z.mul_0_r, Z.add_0_r.
    replace (val b) with (val (b ++ replicate (length t) 0)) by (rewrite val_app, val_replicate; lia).
    simpl op32. rewrite <- (val_bitop Z.land andb Z.land_spec eq_refl).
    + rewrite zip_with_app, val_app by done. replace (val (zip_with Z.land t (replicate (length t) 0))) with 0; [lia|].
      clear. induction t as [|d t IH]; [done|]. simpl. rewrite val_cons, Z.land_0_r, <- IH. done.
    + by apply Forall_app.
    + apply Forall_app. split; [done|]. by apply Forall_replicate.
    + rewrite !length_app, length_replicate. lia.
  - apply (val_bitop_longer Z.lor orb Z.lor_spec eq_refl); [done..|apply Z.lor_0_r].
  - apply (val_bitop_longer Z.lxor xorb Z.lxor_spec eq_refl); [done..|apply Z.lxor_0_r].
Qed.

Lemma op_round_run (op : Operate) (x y : BigInt) (i dx dy : Z) (st : BigInt) :
  GetDigit x i st = (Ok dx, st) -> GetDigit y i st = (Ok dy, st) -> op_round op x y i st = SetDigit i (op32 op dx dy) st.
Proof. intros Ex Ey. unfold op_round. mstep with Ex. by mstep with Ey. Qed.

Lemma BitwiseOp_run {S} (op : Operate) (x y : BigInt) (s : S) :
  Forall digit (GetData x) -> Forall digit (GetData y) -> 0 < GetLength x <= MAXSIZE -> 0 < GetLength y <= MAXSIZE ->
  computes (BitwiseOp op x y) (op32 op (val (GetData x)) (val (GetData y))) s.
Proof.
  intros Hx Hy Lx Ly. unfold BitwiseOp. cbv zeta. unfold GetLength in *.
  assert (forall n t, length (zip_with (op32 op) (GetData x) (GetData y)) = n -> Forall digit t ->
    val (zip_with (op32 op) (GetData x) (GetData y) ++ t) = op32 op (val (GetData x)) (val (GetData y)) ->
    Z.of_nat n + lenZ t = Z.max (lenZ (GetData x)) (lenZ (GetData y)) ->
    computes (RightTruncate (mkBigInt false (zip_with (op32 op) (GetData x) (GetData y) ++ t)))
             (op32 op (val (GetData x)) (val (GetData y))) s) as Hfin.
  { intros n t Hn Ht Hv Hl. rewrite <- Hv.
    apply (RightTruncate_run (mkBigInt false (zip_with (op32 op) (GetData x) (GetData y) ++ t)));
      [apply Forall_app; split; [by apply op32_digits|done]|]. unfold GetLength. simpl. lenz. }
  pose proof (length_zip_with (op32 op) (GetData x) (GetData y)) as Hzl.
  destruct (Z.lt_trichotomy (lenZ (GetData y)) (lenZ (GetData x))) as [Hlt|[Heq|Hgt]].
  - zb. destruct (split_digits (GetData x) (GetData y)) as (a & t & Ex & Ha); [lia|].
    assert (Forall digit t) as Ht by (rewrite Ex in Hx; by apply Forall_app in Hx as [_ ?]).
    cstep by (by apply CreateBigint_run).
    cstep by (apply (build_run _ (mkBigInt false (zip_with (op32 op) (GetData x) (GetData y) ++
                (match op with AND => replicate (length t) 0 | _ => t end))))).
    { replace (Z.to_nat (lenZ (GetData x))) with (length (GetData y) + length t)%nat by (rewrite Ex; lenz).
      rewrite replicate_split.
      mstep by (apply (zip_with_loop (op32 op) _ x y); [unfold GetLength; lia|lenz|apply op_round_run]).
      destruct op; [done|..].
      all: rewrite <- (app_nil_r (replicate (length t) 0)), <- (app_nil_r t) at 1; simpl;
        rewrite (copy_digits_loop x a t false); rewrite ?app_nil_r; try done; try (rewrite Ex in *; lenz). }
    apply (Hfin (length (GetData y))); [lenz|by destruct op; [apply Forall_replicate|..]| |rewrite Ex in *; destruct op; lenz].
    rewrite Ex. apply val_op_longer; [by rewrite <- Ex|done|done].
  - rewrite Heq, !Z.ltb_irrefl. cstep by (by apply CreateBigint_run).
    cstep by (apply (build_run _ (mkBigInt false (zip_with (op32 op) (GetData x) (GetData y) ++ [])))).
    { rewrite <- (app_nil_r (replicate _ 0)).
      mstep by (apply (zip_with_loop (op32 op) _ x y); [unfold GetLength; lia|lenz|apply op_round_run]). by destruct op. }
    apply (Hfin (length (GetData x))); [lenz|done| |lenz]. rewrite app_nil_r.
    apply (val_bitop _ _ (op32_spec op) (opb_00 op)); [done|done|lenz].
  - zb. destruct (split_digits (GetData y) (GetData x)) as (b & t & Ey & Hb); [lia|].
    assert (Forall digit t) as Ht by (rewrite Ey in Hy; by apply Forall_app in Hy as [_ ?]).
    cstep by (by apply CreateBigint_run).
    cstep by (apply (build_run _ (mkBigInt false (zip_with (op32 op) (GetData x) (GetData y) ++
                (match op with AND => replicate (length t) 0 | _ => t end))))).
    { replace (Z.to_nat (lenZ (GetData y))) with (length (GetData x) + length t)%nat by (rewrite Ey; lenz).
      rewrite replicate_split.
      mstep by (apply (zip_with_loop (op32 op) _ x y); [unfold GetLength; lia|lenz|apply op_round_run]).
      destruct op; [done|..].
      all: rewrite <- (app_nil_r (replicate (length t) 0)), <- (app_nil_r t) at 1; simpl;
        rewrite (copy_digits_loop y b t false); rewrite ?app_nil_r; try done; try (rewrite Ey in *; lenz). }
    apply (Hfin (length (GetData x))); [lenz|by destruct op; [apply Forall_replicate|..]| |rewrite Ey in *; destruct op; lenz].
    rewrite zip_with_comm_op, Ey, val_op_longer by (by rewrite <- ?Ey). destruct op; [apply Z.land_comm|apply Z.lor_comm|apply Z.lxor_comm].
Qed.

(** *** One added and subtracted *)

Lemma one_loop (k : Z) (f1 : Z -> Z -> Z * Z) (x : BigInt) (body : Z -> Z -> M BigInt Z) (n : nat) (post : list Z) (sg : bool) :
  (forall d c, digit d -> bit c ->
     digit (f1 d c).1 /\ bit (f1 d c).2 /\ (f1 d c).1 + 2 ^ 32 * (k * (f1 d c).2) = d + k * c) ->
  (forall i c st dx, GetDigit x i st = (Ok dx, st) -> body i c st = (SetDigit i (f1 dx c).1;; mret (f1 dx c).2) st) ->
  Forall digit (GetData x) -> n = length (GetData x) ->
  exists ds c,
    fold_range 0 (GetLength x) body 1 (mkBigInt sg (replicate n 0 ++ post)) = (Ok c, mkBigInt sg (ds ++ post)) /\
    Forall digit ds /\ length ds = length (GetData x) /\ bit c /\
    val ds + 2 ^ (32 * GetLength x) * (k * c) = val (GetData x) + k.
Proof.
  intros Hf Hbody Hx ->. exists (carry_map f1 (GetData x) 1).1, (carry_map f1 (GetData x) 1).2.
  destruct (carry_map_val f1 id (fun c => k * c) digit bit Hf (GetData x) 1 Hx ltac:(unfold bit; lia)) as (Hds & Hc & Hval).
  split; [|split_and!; [done|apply carry_map_length|done|]].
  - unfold fold_range, GetLength. rewrite Z.sub_0_r. unfold lenZ. rewrite Nat2Z.id.
    apply (fold_up_digits f1 body (GetData x) 0 1 sg [] (replicate (length (GetData x)) 0) post); [by rewrite length_replicate|].
    intros j a c dn Hj Hdn. rewrite (Hbody _ _ _ a); [done|]. apply GetDigit_run; [lia|].
    by replace (Z.to_nat (0 + Z.of_nat j)) with j by lia.
  - unfold GetLength. rewrite list_fmap_id in Hval. lia.
Qed.

Lemma val_pos (x : BigInt) : wf x -> IsZero x = false -> 0 < val (GetData x).
Proof.
  intros Hx Hz. destruct (wf_top x Hx) as (p & d & E & Ht). unfold IsZero in Hz. destruct Hx as [Hd _ _].
  rewrite E in *. apply Forall_app in Hd as [Hp [Hd _]%Forall_cons_1].
  assert (d <> 0) as Hne by (destruct Ht as [Hne|[-> _]]; [done|]; simpl in Hz; by apply Z.eqb_neq in Hz).
  pose proof (val_snoc_bounds p d Hp Hd Hne). pose proof (pow32_pos (lenZ p) (lenZ_nonneg p)). lia.
Qed.

Lemma val_zero (x : BigInt) : IsZero x = true -> val (GetData x) = 0.
Proof.
  unfold IsZero. destruct (GetData x) as [|d [|]]; try done. intros ->%Z.eqb_eq. done.
Qed.

Lemma neg_nonzero (x : BigInt) : wf x -> GetSign x = true -> IsZero x = false.
Proof.
  intros Hx Hs. destruct (wf_top x Hx) as (p & d & E & [Ht|[-> Ht]]); [|congruence]. unfold IsZero. rewrite E.
  destruct p as [|e p]; [by apply Z.eqb_neq|]. by destruct p.
Qed.

Lemma BitwiseSubOne_run {S} (x : BigInt) (maxLen : Z) (s : S) :
  wf x -> GetSign x = true -> GetLength x <= maxLen <= MAXSIZE ->
  computes (BitwiseSubOne x maxLen) (Z.lnot (value x)) s.
Proof.
  intros Hx Hs Hm. pose proof (wf_length x Hx) as Hl. pose proof (neg_nonzero x Hx Hs) as Hz.
  pose proof (val_pos x Hx Hz) as Hv. unfold BitwiseSubOne. rewrite Hz. zb. cstep. cstep.
  cstep by (apply CreateBigint_run; lia).
  destruct (one_loop (-1) sub1 x (sub_one_round x) (length (GetData x)) (replicate (Z.to_nat (maxLen - GetLength x)) 0) false)
    as (ds & c & Hloop & Hds & Hlen & Hc & Hval); [|apply sub_rest_round_run|apply Hx|done|].
  { intros d c Hd Hc. destruct (sub1_step d c Hd Hc) as (? & ? & ?). split_and!; [done|done|lia]. }
  pose proof (val_bounds ds Hds) as Bds. pose proof (val_bounds _ (wf_digits x Hx)) as Bx.
  assert (c = 0) as ->.
  { unfold bit in Hc. unfold GetLength in *. replace (lenZ ds) with (lenZ (GetData x)) in Bds by (unfold lenZ; lia).
    destruct (Z.eq_dec c 0) as [?|Hne]; [done|]. replace c with 1 in Hval by lia.
    pose proof (pow32_pos (lenZ (GetData x)) (lenZ_nonneg _)). lia. }
  cstep by (apply (build_run _ (mkBigInt false (ds ++ replicate (Z.to_nat (maxLen - GetLength x)) 0)))).
  { replace (Z.to_nat maxLen) with (length (GetData x) + Z.to_nat (maxLen - GetLength x))%nat by (unfold GetLength, lenZ in *; lia).
    rewrite replicate_split. mstep with Hloop. done. }
  replace (Z.lnot (value x)) with (value (mkBigInt false (ds ++ replicate (Z.to_nat (maxLen - GetLength x)) 0))).
  - apply RightTruncate_run; simpl.
    + apply Forall_app. split; [done|by apply Forall_replicate].
    + unfold GetLength in *. simpl. rewrite lenZ_app, lenZ_replicate. unfold lenZ in *. lia.
  - unfold value. rewrite Hs. simpl. rewrite val_app, val_replicate. unfold Z.lnot. lia.
Qed.

Lemma all_ones_loop {S} (x : BigInt) (s : S) :
  exists r, find_up (length (GetData x)) 0 (fun i =>
        d ← GetDigit x i;
        mret (if negb (0xFFFFFFFF =? d) then Some tt else None)) s = (Ok r, s) /\
    match r with Some _ => exists d, d ∈ GetData x /\ d <> 0xFFFFFFFF | None => Forall (eq 0xFFFFFFFF) (GetData x) end.
Proof.
  enough (forall t a, GetData x = a ++ t -> exists r, find_up (length t) (lenZ a) (fun i =>
        d ← GetDigit x i;
        mret (if negb (0xFFFFFFFF =? d) then Some tt else None)) s = (Ok r, s) /\
    match r with Some _ => exists d, d ∈ t /\ d <> 0xFFFFFFFF | None => Forall (eq 0xFFFFFFFF) t end) as H
    by exact (H (GetData x) [] eq_refl).
  induction t as [|d t IH]; intros a Hx; [by exists None|]. cbn [find_up length].
  assert (GetDigit x (lenZ a) s = (Ok d, s)) as Hg.
  { apply GetDigit_run; [apply lenZ_nonneg|]. rewrite Hx. apply list_lookup_middle. lenz. }
  destruct (Z.eqb_spec 0xFFFFFFFF d) as [Heq|Hne].
  - rewrite (bind_Ok _ _ _ s None) by (mstep with Hg; subst d; done). cbv beta iota.
    destruct (IH (a ++ [d]) ltac:(by rewrite <- app_assoc)) as (r & Hr & Hp). rewrite lenZ_app, lenZ_cons in Hr.
    replace (lenZ a + (lenZ [] + 1)) with (lenZ a + 1) in Hr by lenz. exists r. split; [exact Hr|].
    destruct r; [|by constructor]. destruct Hp as (e & He & Hn). exists e. split; [apply elem_of_cons; by right|done].
  - rewrite (bind_Ok _ _ _ s (Some tt)) by (mstep with Hg; by zb). cbv beta iota.
    exists (Some tt). split; [done|]. exists d. split; [by left|]. done.
Qed.

Lemma val_not_ones (ds : list Z) (d : Z) :
  Forall digit ds -> d ∈ ds -> d <> 0xFFFFFFFF -> val ds + 1 < 2 ^ (32 * lenZ ds).
Proof.
  intros Hds. induction Hds as [|e ds He Hds IH]; [by intros ?%elem_of_nil|]. unfold digit in He.
  rewrite val_cons, lenZ_cons, pow32_succ by apply lenZ_nonneg. pose proof (val_bounds ds Hds).
  intros [->|Hin]%elem_of_cons Hne; [lia|]. specialize (IH Hin Hne). lia.
Qed.

(** The magnitudes that MAXSIZE digits can hold. *)
Definition fits (v : Z) : Prop := Z.abs v < 2 ^ (32 * MAXSIZE).

Lemma val_ones (ds : list Z) : Forall (eq 0xFFFFFFFF) ds -> val ds + 1 = 2 ^ (32 * lenZ ds).
Proof.
  induction 1 as [|d ds <- Hds IH]; [done|]. rewrite val_cons, lenZ_cons, pow32_succ by apply lenZ_nonneg. lia.
Qed.

Lemma pow_fits (n : Z) : 0 <= n <= MAXSIZE -> 2 ^ (32 * n) <= 2 ^ (32 * MAXSIZE).
Proof. intros Hn. apply Z.pow_le_mono_r; lia. Qed.

Lemma wf_fits (x : BigInt) : wf x -> fits (value x).
Proof.
  intros Hx. pose proof (wf_length x Hx). pose proof (val_bounds _ (wf_digits x Hx)).
  pose proof (pow_fits (GetLength x) ltac:(lia)). unfold fits, value, GetLength in *. destruct (GetSign x); lia.
Qed.

Lemma lnot_val (x : BigInt) : GetSign x = false -> Z.lnot (value x) = - (val (GetData x) + 1).
Proof. intros Hs. unfold value. rewrite Hs. unfold Z.lnot. lia. Qed.

Lemma BitwiseAddOne_run {S} (x : BigInt) (s : S) :
  wf x -> GetSign x = false -> fits (Z.lnot (value x)) -> computes (BitwiseAddOne x) (Z.lnot (value x)) s.
Proof.
  intros Hx Hs Hfit. rewrite lnot_val in * by done. pose proof (wf_length x Hx) as Hl. pose proof (wf_digits x Hx) as Hdx.
  pose proof (val_bounds _ Hdx) as Bx. pose proof MAXSIZE_eq. unfold fits in Hfit. unfold BitwiseAddOne. cbv zeta.
  destruct (all_ones_loop x s) as (r & Hr & Hp). cstep with Hr.
  assert (forall d c, digit d -> bit c -> digit (add1 d c).1 /\ bit (add1 d c).2 /\ (add1 d c).1 + 2 ^ 32 * (1 * (add1 d c).2) = d + 1 * c) as Hstep.
  { intros d c Hd Hc. destruct (add1_step d c Hd Hc) as (? & ? & ?). split_and!; [done|done|lia]. }
  destruct r.
  - destruct Hp as (d & Hd & Hne). pose proof (val_not_ones _ d Hdx Hd Hne) as Hv.
    destruct (one_loop 1 add1 x (add_one_round x) (length (GetData x)) [] false Hstep (add_rest_round_run x) Hdx eq_refl)
      as (ds & c & Hloop & Hds & Hlen & Hc & Hval). rewrite !app_nil_r in Hloop.
    pose proof (val_bounds ds Hds) as Bds. unfold GetLength, bit in *. replace (lenZ ds) with (lenZ (GetData x)) in Bds by (unfold lenZ; lia).
    assert (c = 0) as -> by (destruct (Z.eq_dec c 0); [done|]; replace c with 1 in Hval by lia; lia).
    cstep by (by apply CreateBigint_run). cstep by (apply (build_run _ (mkBigInt true ds))).
    { replace (Z.to_nat (lenZ (GetData x))) with (length (GetData x)) by (unfold lenZ; lia). mstep with Hloop. done. }
    replace (- (val (GetData x) + 1)) with (value (mkBigInt true ds)) by (unfold value; simpl; lia).
    apply RightTruncate_run; [done|]. unfold GetLength, lenZ in *. simpl. lia.
  - pose proof (val_ones _ Hp) as Hv. unfold GetLength in *.
    assert (lenZ (GetData x) < MAXSIZE) as Hlt.
    { destruct (Z.lt_ge_cases (lenZ (GetData x)) MAXSIZE) as [|Hge]; [done|]. replace (lenZ (GetData x)) with MAXSIZE in * by lia. lia. }
    destruct (one_loop 1 add1 x (add_one_round x) (length (GetData x)) [0] false Hstep (add_rest_round_run x) Hdx eq_refl)
      as (ds & c & Hloop & Hds & Hlen & Hc & Hval). unfold GetLength in *.
    cstep by (apply CreateBigint_run; rewrite u32_small; lia). rewrite u32_small by lia.
    cstep by (apply (build_run _ (mkBigInt true (ds ++ [c])))).
    { replace (Z.to_nat (lenZ (GetData x) + 1)) with (length (GetData x) + 1)%nat by (unfold lenZ; lia).
      rewrite replicate_split. mstep with Hloop. mstep by (apply SetDigit_run; unfold lenZ; lia). done. }
    replace (- (val (GetData x) + 1)) with (value (mkBigInt true (ds ++ [c]))).
    + apply RightTruncate_run; simpl; [|unfold GetLength; simpl; rewrite lenZ_app; unfold lenZ in *; simpl; lia].
      apply Forall_app. split; [done|]. by apply Forall_singleton, digit_bit.
    + unfold value. simpl. rewrite val_app, val_cons, val_nil. replace (lenZ ds) with (lenZ (GetData x)) by (unfold lenZ; lia). lia.
Qed.

Lemma BitwiseAddOne_throw {S} (x : BigInt) (s : S) :
  wf x -> GetSign x = false -> ~ fits (Z.lnot (value x)) -> BitwiseAddOne x s = (Throw RANGE_ERROR, s).
Proof.
  intros Hx Hs Hfit. rewrite lnot_val in * by done. pose proof (wf_length x Hx) as Hl. pose proof (wf_digits x Hx) as Hdx.
  pose proof (val_bounds _ Hdx) as Bx. pose proof (pow_fits (GetLength x) ltac:(lia)). unfold fits in Hfit.
  unfold BitwiseAddOne. cbv zeta. destruct (all_ones_loop x s) as (r & Hr & Hp). mstep with Hr. unfold GetLength in *. destruct r.
  - destruct Hp as (d & Hd & Hne). pose proof (val_not_ones _ d Hdx Hd Hne) as Hv. lia.
  - pose proof (val_ones _ Hp) as Hv. apply bind_Throw, CreateBigint_throw. pose proof MAXSIZE_eq. rewrite u32_small by lia.
    destruct (Z.lt_ge_cases (lenZ (GetData x)) MAXSIZE) as [Hlt|Hge]; [|lia].
    assert (2 ^ (32 * lenZ (GetData x)) < 2 ^ (32 * MAXSIZE)); [|lia]. apply Z.pow_lt_mono_r; lia.
Qed.

(** *** The digits of one number without the bits of another *)

Lemma not32_ldiff (dx dy : Z) : digit dx -> Z.land dx (not32 dy) = Z.ldiff dx dy.
Proof.
  intros Hx. apply Z.bits_inj'. intros n Hn. unfold not32. change 0xFFFFFFFF with (Z.ones 32).
  rewrite Z.land_spec, Z.ldiff_spec, Z.lxor_spec. destruct (Z.lt_ge_cases n 32) as [Hlt|Hge].
  - rewrite Z.ones_spec_low by lia. by rewrite xorb_true_r.
  - rewrite Z.ones_spec_high, xorb_false_r by lia. unfold digit in Hx. rewrite <- (Z.mod_small dx (2 ^ 32)) by lia.
    by rewrite Z.mod_pow2_bits_high by lia.
Qed.

Lemma ldiff_bits (a b n : Z) : Z.testbit (Z.ldiff a b) n = Z.testbit a n && negb (Z.testbit b n).
Proof. apply Z.ldiff_spec. Qed.

Lemma ldiff_digits (xs ys : list Z) :
  Forall digit xs -> Forall digit ys -> Forall digit (zip_with Z.ldiff xs ys ++ drop (length ys) xs).
Proof.
  intros Hx. revert ys. induction Hx as [|x xs Hd Hx IH]; intros [|y ys] Hy; try by constructor.
  apply Forall_cons_1 in Hy as [He Hy]. simpl. constructor; [|by apply IH].
  apply (bitop_digit Z.ldiff (fun a b => a && negb b) ldiff_bits eq_refl); done.
Qed.

Lemma val_ldiff (xs ys : list Z) :
  Forall digit xs -> Forall digit ys ->
  val (zip_with Z.ldiff xs ys ++ drop (length ys) xs) = Z.ldiff (val xs) (val ys).
Proof.
  intros Hx. revert ys. induction Hx as [|x xs Hd Hx IH]; intros [|y ys] Hy; try done.
  - simpl. by rewrite val_nil, Z.ldiff_0_r.
  - apply Forall_cons_1 in Hy as [He Hy]. simpl zip_with. simpl drop. simpl app. rewrite !val_cons, (IH ys Hy).
    by rewrite (bitop_join Z.ldiff (fun a b => a && negb b) ldiff_bits eq_refl).
Qed.

Lemma and_not_round_run (x y : BigInt) (i dx dy : Z) (st : BigInt) :
  Forall digit (GetData x) -> GetDigit x i st = (Ok dx, st) -> GetDigit y i st = (Ok dy, st) ->
  and_not_round x y i st = SetDigit i (Z.ldiff dx dy) st.
Proof.
  intros Dx Gx Gy. unfold and_not_round. mstep with Gx. mstep with Gy. rewrite not32_ldiff; [done|].
  unfold GetDigit in Gx. destruct (i <? 0); [done|]. destruct (GetData x !! Z.to_nat i) as [e|] eqn:E; [|done]. injection Gx as ->.
  apply (Forall_lookup_1 _ _ _ _ Dx E).
Qed.

Lemma and_not_run {S} (x y : BigInt) (s : S) :
  wf x -> wf y -> GetSign x = false -> GetSign y = false -> computes (and_not x y) (Z.ldiff (value x) (value y)) s.
Proof.
  intros Hx Hy Sx Sy. pose proof (wf_length x Hx) as Lx. pose proof (wf_length y Hy) as Ly.
  pose proof (wf_digits x Hx) as Dx. pose proof (wf_digits y Hy) as Dy. unfold and_not. cbv zeta.
  set (m := if GetLength y <? GetLength x then GetLength y else GetLength x).
  assert (m = Z.min (GetLength x) (GetLength y)) as Hm by (unfold m; destruct (Z.ltb_spec (GetLength y) (GetLength x)); lia).
  clearbody m. unfold GetLength in *.
  set (n := length (GetData y)). set (a := take n (GetData x)). set (t := drop n (GetData x)).
  assert (GetData x = a ++ t) as Ex by (by unfold a, t; rewrite take_drop).
  assert (lenZ a = m) as Ha by (unfold a, n, lenZ in *; rewrite length_take; lia).
  pose proof (length_zip_with Z.ldiff (GetData x) (GetData y)) as Hz.
  cstep by (by apply CreateBigint_run).
  cstep by (apply (build_run _ (mkBigInt false (zip_with Z.ldiff (GetData x) (GetData y) ++ t)))).
  { replace (Z.to_nat (lenZ (GetData x))) with (length a + length t)%nat by (rewrite Ex; lenz).
    rewrite replicate_split. mstep by (apply (zip_with_loop Z.ldiff _ x y); [done|by rewrite lenZ_replicate|intros i dx dy st; by apply and_not_round_run]).
    rewrite <- (app_nil_r (replicate (length t) 0)), <- (app_nil_r t) at 1. simpl.
      rewrite (copy_digits_loop x a t false); rewrite ?app_nil_r; try done; rewrite ?length_replicate; try done; unfold lenZ in *; try lia.
      rewrite Ex at 1. rewrite length_app. lia. }
  unfold value. rewrite Sx, Sy, <- val_ldiff by done.
  apply (RightTruncate_run (mkBigInt false (zip_with Z.ldiff (GetData x) (GetData y) ++ t))); [by apply ldiff_digits|].
  unfold GetLength. simpl GetData. rewrite lenZ_app. unfold t, n, lenZ in *. rewrite length_drop. lia.
Qed.

(** ** The bit operations *)

(** The computation returns a BigInt of this value when MAXSIZE digits can hold
    it, and throws the range error otherwise. *)
Definition computes_or_throws {S} (m : M S BigInt) (v : Z) (s : S) : Prop :=
  (fits v /\ computes m v s) \/ (~ fits v /\ m s = (Throw RANGE_ERROR, s)).

Lemma computes_fits {S} (m : M S BigInt) (v : Z) (s : S) : computes m v s -> computes_or_throws m v s.
Proof. intros (z & Hz & Hwf & <-). left. split; [by apply wf_fits|]. by exists z. Qed.

Lemma computes_bind {S} (m : M S BigInt) (f : BigInt -> M S BigInt) (v w : Z) (s : S) :
  computes m v s -> (forall z, wf z -> value z = v -> computes (f z) w s) -> computes (m ≫= f) w s.
Proof. intros (z & Hz & Hwf & Hv) Hf. apply (computes_step _ _ z); [done|by apply Hf]. Qed.

Lemma cot_bind {S} (m : M S BigInt) (f : BigInt -> M S BigInt) (v w : Z) (s : S) :
  computes m v s -> (forall z, wf z -> value z = v -> computes_or_throws (f z) w s) -> computes_or_throws (m ≫= f) w s.
Proof.
  intros (z & Hz & Hwf & Hv) Hf. destruct (Hf z Hwf Hv) as [[Hfit Hc]|[Hfit Ht]].
  - left. split; [done|]. by apply (computes_step _ _ z).
  - right. split; [done|]. by rewrite (bind_Ok _ _ _ _ _ Hz).
Qed.

Lemma cot_same {S} (m : M S BigInt) (f : BigInt -> M S BigInt) (v : Z) (s : S) :
  computes_or_throws m v s -> (forall z, wf z -> value z = v -> f z s = (Ok z, s)) -> computes_or_throws (m ≫= f) v s.
Proof.
  intros [[Hfit (z & Hz & Hwf & Hv)]|[Hfit Ht]] Hf.
  - left. split; [done|]. apply (computes_step _ _ z); [done|]. exists z. auto.
  - right. split; [done|]. by apply bind_Throw.
Qed.

Lemma wf_sign (x : BigInt) : wf x -> GetSign x = (value x <? 0).
Proof.
  intros Hx. unfold value. pose proof (val_bounds _ (wf_digits x Hx)). destruct (GetSign x) eqn:Hs; symmetry.
  - pose proof (val_pos x Hx (neg_nonzero x Hx Hs)). apply Z.ltb_lt. lia.
  - apply Z.ltb_ge. lia.
Qed.

Lemma wf_nonneg (x : BigInt) : wf x -> 0 <= value x -> GetSign x = false.
Proof. intros Hx Hv. rewrite wf_sign by done. by apply Z.ltb_ge. Qed.

Lemma sign_nonneg (x : BigInt) : wf x -> GetSign x = false -> 0 <= value x.
Proof. intros Hx Hs. unfold value. rewrite Hs. apply (val_bounds _ (wf_digits x Hx)). Qed.

Lemma wf_neg (x : BigInt) : wf x -> value x < 0 -> GetSign x = true.
Proof. intros Hx Hv. rewrite wf_sign by done. by apply Z.ltb_lt. Qed.

Lemma BitwiseAddOne_result {S} (x : BigInt) (s : S) :
  wf x -> GetSign x = false -> computes_or_throws (BitwiseAddOne x) (Z.lnot (value x)) s.
Proof.
  intros Hx Hs. destruct (Z.lt_ge_cases (Z.abs (Z.lnot (value x))) (2 ^ (32 * MAXSIZE))) as [Hlt|Hge].
  - left. split; [done|by apply BitwiseAddOne_run].
  - right. assert (~ fits (Z.lnot (value x))) by (unfold fits; lia). split; [done|by apply BitwiseAddOne_throw].
Qed.

Lemma BitwiseOp_value {S} (op : Operate) (x y : BigInt) (s : S) :
  wf x -> wf y -> GetSign x = false -> GetSign y = false -> computes (BitwiseOp op x y) (op32 op (value x) (value y)) s.
Proof.
  intros Hx Hy Sx Sy. unfold value. rewrite Sx, Sy.
  apply BitwiseOp_run; [apply Hx|apply Hy|by apply wf_length|by apply wf_length].
Qed.

Lemma lnot_neg (v : Z) : v < 0 -> 0 <= Z.lnot v.
Proof. unfold Z.lnot. lia. Qed.

(** [y] is negative: the number whose bits are those of [y] inverted. *)
Lemma SubOne_bind {S} (y : BigInt) (maxLen : Z) (f : BigInt -> M S BigInt) (v : Z) (s : S) :
  wf y -> GetSign y = true -> GetLength y <= maxLen <= MAXSIZE ->
  (forall z, wf z -> GetSign z = false -> value z = Z.lnot (value y) -> computes_or_throws (f z) v s) ->
  computes_or_throws (BitwiseSubOne y maxLen ≫= f) v s.
Proof.
  intros Hy Sy Hm Hf. apply (cot_bind _ _ (Z.lnot (value y))); [by apply BitwiseSubOne_run|]. intros z Hz Hv.
  apply Hf; [done| |done]. apply wf_nonneg; [done|]. rewrite Hv. apply lnot_neg, Z.ltb_lt. by rewrite <- wf_sign.
Qed.

(** An operation on magnitudes whose result is inverted. *)
Lemma AddOne_bind {S} (m : M S BigInt) (v w : Z) (s : S) :
  computes m v s -> 0 <= v -> w = Z.lnot v -> computes_or_throws (m ≫= BitwiseAddOne) w s.
Proof.
  intros Hm Hv ->. apply (cot_bind _ _ v); [done|]. intros z Hz Hvz. rewrite <- Hvz in *.
  apply BitwiseAddOne_result; [done|]. by apply wf_nonneg.
Qed.

Lemma OneIsNegativeAND_run {S} (x y : BigInt) (s : S) :
  wf x -> wf y -> GetSign x = false -> GetSign y = true ->
  computes_or_throws (OneIsNegativeAND x y) (Z.land (value x) (value y)) s.
Proof.
  intros Hx Hy Sx Sy. pose proof (wf_length y Hy). unfold OneIsNegativeAND. apply SubOne_bind; [done|done|lia|]. intros z Hz Sz Hv.
  apply computes_fits. replace (Z.land (value x) (value y)) with (Z.ldiff (value x) (value z)); [by apply and_not_run|].
  by rewrite Hv, Z.ldiff_land, Z.lnot_involutive.
Qed.

Lemma OneIsNegativeXOR_run {S} (x y : BigInt) (s : S) :
  wf x -> wf y -> GetSign x = false -> GetSign y = true ->
  computes_or_throws (OneIsNegativeXOR x y) (Z.lxor (value x) (value y)) s.
Proof.
  intros Hx Hy Sx Sy. pose proof (wf_length y Hy). unfold OneIsNegativeXOR. apply SubOne_bind; [done|done|lia|]. intros z Hz Sz Hv.
  apply (AddOne_bind _ (Z.lxor (value x) (value z))); [by apply (BitwiseOp_value XOR)| |].
  - apply Z.lxor_nonneg. pose proof (sign_nonneg x Hx Sx). pose proof (sign_nonneg z Hz Sz). tauto.
  - by rewrite Hv, <- Z.lnot_lxor_r, Z.lnot_involutive.
Qed.

Lemma AddOne_sign_bind {S} (m : M S BigInt) (v w : Z) (s : S) :
  computes m v s -> 0 <= v -> w = Z.lnot v ->
  computes_or_throws (temp ← m; res ← BitwiseAddOne temp; build res (SetSign true)) w s.
Proof.
  intros Hm Hv ->. apply (cot_bind _ _ v); [done|]. intros z Hz Hvz. rewrite <- Hvz in *. apply cot_same.
  - apply BitwiseAddOne_result; [done|]. by apply wf_nonneg.
  - intros r Hr Hvr. apply build_run. assert (GetSign r = true) as Sr by (apply wf_neg; [done|rewrite Hvr; unfold Z.lnot; lia]).
    destruct r as [sg ds]. simpl in Sr. by subst sg.
Qed.

Lemma OneIsNegativeOR_run {S} (x y : BigInt) (s : S) :
  wf x -> wf y -> GetSign x = false -> GetSign y = true ->
  computes_or_throws (OneIsNegativeOR x y) (Z.lor (value x) (value y)) s.
Proof.
  intros Hx Hy Sx Sy. pose proof (wf_length y Hy). pose proof (wf_length x Hx). unfold OneIsNegativeOR. cbv zeta.
  apply SubOne_bind; [done|done|destruct (Z.ltb_spec (GetLength x) (GetLength y)); lia|]. intros z Hz Sz Hv.
  apply (AddOne_sign_bind _ (Z.ldiff (value z) (value x))); [by apply and_not_run| |].
  - apply Z.ldiff_nonneg. left. by apply sign_nonneg.
  - rewrite Hv, Z.ldiff_land, <- Z.lnot_lor, Z.lnot_involutive. apply Z.lor_comm.
Qed.

(** C25: the bit operations on BigInts are those on integers in two's
    complement; the result is the range error exactly when the digits cannot
    hold it. *)
Theorem bigint_bitwise_spec {S} (x y : BigInt) (s : S) :
  wf x -> wf y ->
  computes_or_throws (BitwiseAND x y) (Z.land (value x) (value y)) s /\
  computes_or_throws (BitwiseOR x y) (Z.lor (value x) (value y)) s /\
  computes_or_throws (BitwiseXOR x y) (Z.lxor (value x) (value y)) s.
Proof.
  intros Hx Hy. pose proof (wf_length x Hx). pose proof (wf_length y Hy). unfold BitwiseAND, BitwiseOR, BitwiseXOR. cbv zeta.
  destruct (GetSign x) eqn:Sx, (GetSign y) eqn:Sy; cbn [andb eqb negb]; split_and!.
  - apply SubOne_bind; [done|done|lia|]. intros a Ha Sa Va. apply SubOne_bind; [done|done|lia|]. intros b Hb Sb Vb.
    apply (AddOne_bind _ (Z.lor (value a) (value b))); [by apply (BitwiseOp_value OR)| |].
    + apply Z.lor_nonneg. split; by apply sign_nonneg.
    + by rewrite Va, Vb, <- Z.lnot_land, Z.lnot_involutive.
  - apply SubOne_bind; [done|done|destruct (Z.ltb_spec (GetLength x) (GetLength y)); lia|]. intros a Ha Sa Va.
    apply SubOne_bind; [done|done|lia|]. intros b Hb Sb Vb.
    apply (AddOne_sign_bind _ (Z.land (value a) (value b))); [by apply (BitwiseOp_value AND)| |].
    + apply Z.land_nonneg. left. by apply sign_nonneg.
    + by rewrite Va, Vb, <- Z.lnot_lor, Z.lnot_involutive.
  - apply SubOne_bind; [done|done|lia|]. intros a Ha Sa Va. apply SubOne_bind; [done|done|lia|]. intros b Hb Sb Vb.
    apply computes_fits. replace (Z.lxor (value x) (value y)) with (Z.lxor (value a) (value b)); [by apply (BitwiseOp_value XOR)|].
    by rewrite Va, Vb, Z.lxor_lnot_lnot.
  - rewrite Z.land_comm. by apply OneIsNegativeAND_run.
  - rewrite Z.lor_comm. by apply OneIsNegativeOR_run.
  - rewrite Z.lxor_comm. by apply OneIsNegativeXOR_run.
  - by apply OneIsNegativeAND_run.
  - by apply OneIsNegativeOR_run.
  - by apply OneIsNegativeXOR_run.
  - by apply computes_fits, (BitwiseOp_value AND).
  - by apply computes_fits, (BitwiseOp_value OR).
  - by apply computes_fits, (BitwiseOp_value XOR).
Qed.

(** *** Negation *)

Lemma Copy_self {S} (x : BigInt) (s : S) : wf x -> Copy x (GetLength x) s = (Ok x, s).
Proof.
  intros Hx. pose proof (wf_length x Hx). pose proof (Copy_run x (GetData x) [] s) as Hc. rewrite app_nil_r in Hc.
  unfold GetLength in *. rewrite Hc by done. by destruct x.
Qed.

Lemma wf_flip (x : BigInt) : wf x -> IsZero x = false -> wf (with_sign (negb (GetSign x)) x).
Proof.
  intros Hx Hz. destruct Hx as [Hd (p & d & E & Ht) Hs]. split; [done| |done]. exists p, d. split; [done|left].
  destruct Ht as [?|[-> _]]; [done|]. unfold IsZero in Hz. rewrite E in Hz. by apply Z.eqb_neq in Hz.
Qed.

Lemma value_flip (x : BigInt) : value (with_sign (negb (GetSign x)) x) = - value x.
Proof. unfold value. simpl. destruct (GetSign x); simpl; lia. Qed.

Lemma UnaryMinus_run {S} (x : BigInt) (s : S) : wf x -> computes (UnaryMinus x) (- value x) s.
Proof.
  intros Hx. unfold UnaryMinus. destruct (IsZero x) eqn:Hz.
  - exists x. split; [done|]. split; [done|]. unfold value. rewrite val_zero by done. by destruct (GetSign x).
  - cstep by (by apply Copy_self). exists (with_sign (negb (GetSign x)) x).
    split; [done|]. split; [by apply wf_flip|apply value_flip].
Qed.

Lemma val_abs (x : BigInt) : wf x -> val (GetData x) = Z.abs (value x).
Proof. intros Hx. pose proof (val_bounds _ (wf_digits x Hx)). unfold value. destruct (GetSign x); lia. Qed.

Lemma with_sign_value (z : BigInt) (t : bool) (w : Z) :
  wf z -> Z.abs (value z) = Z.abs w -> t = (w <? 0) -> wf (with_sign t z) /\ value (with_sign t z) = w.
Proof.
  intros Hz Ha ->. rewrite <- val_abs in Ha by done. split.
  - destruct Hz as [Hd (p & d & E & Ht) Hs]. split; [done| |done]. exists p, d. split; [done|].
    destruct Ht as [?|[-> _]]; [by left|]. destruct (Z.eq_dec d 0) as [->|]; [right|by left]. split; [done|].
    rewrite E in Ha. simpl. apply Z.ltb_ge. change (0 = Z.abs w) in Ha. lia.
  - unfold value. simpl. destruct (Z.ltb_spec w 0); lia.
Qed.

Lemma one_run {S} (s : S) : Int32ToBigInt 1 s = (Ok (mkBigInt false [1]), s).
Proof. reflexivity. Qed.

Lemma wf_one : wf (mkBigInt false [1]).
Proof. by apply wf_small. Qed.

Lemma BitwiseNOT_run {S} (x : BigInt) (s : S) :
  wf x -> GetSign x = true \/ GetLength x < MAXSIZE -> computes (BitwiseNOT x) (Z.lnot (value x)) s.
Proof.
  intros Hx Hr. unfold BitwiseNOT, BigintAddOne. pose proof (wf_length x Hx).
  destruct (Add_run x (mkBigInt false [1]) s Hx wf_one) as (z & Hz & Wz & Vz).
  { destruct Hr as [-> | Hr]; [by left|right]. unfold room. apply Z.ltb_lt. unfold GetLength in *. simpl. lenz. }
  apply (computes_step _ _ z); [rewrite (bind_Ok _ _ _ _ _ (one_run s)); exact Hz|]. change (value (mkBigInt false [1])) with 1 in Vz.
  pose proof (wf_sign x Hx) as Sx.
  assert (forall t, GetSign x = negb t -> wf (with_sign t z) /\ value (with_sign t z) = Z.lnot (value x)) as Hfin.
  { intros t Ht. apply with_sign_value; [done|rewrite Vz; unfold Z.lnot; lia|]. rewrite Ht in Sx. unfold Z.lnot.
    destruct t; symmetry in Sx |- *; simpl in Sx; [apply Z.ltb_ge in Sx; apply Z.ltb_lt|apply Z.ltb_lt in Sx; apply Z.ltb_ge]; lia. }
  clear Sx.
  destruct (GetSign x) eqn:Sx.
  - exists (with_sign false z). split; [done|]. by apply Hfin.
  - exists (with_sign true z). split; [done|]. by apply Hfin.
Qed.

Lemma Equal_loop {S} (x y : BigInt) (s : S) (a b tx ty : list Z) :
  GetData x = a ++ tx -> GetData y = b ++ ty -> length a = length b -> length tx = length ty ->
  find_up (length tx) (lenZ a) (fun i =>
          dx ← GetDigit x i;
          dy ← GetDigit y i;
          mret (if negb (dx =? dy) then Some tt else None)) s
  = (Ok (if decide (tx = ty) then None else Some tt), s).
Proof.
  revert a b ty. induction tx as [|d tx IH]; intros a b [|e ty] Hx Hy Hab Hl; try done. cbn [find_up length].
  pose proof (lenZ_nonneg a).
  assert (GetDigit x (lenZ a) s = (Ok d, s)) as Gx by (apply GetDigit_run; [done|rewrite Hx; apply list_lookup_middle; lenz]).
  assert (GetDigit y (lenZ a) s = (Ok e, s)) as Gy by (apply GetDigit_run; [done|rewrite Hy; apply list_lookup_middle; lenz]).
  destruct (Z.eq_dec d e) as [->|Hne].
  - rewrite (bind_Ok _ _ _ s None) by (mstep with Gx; mstep with Gy; by rewrite Z.eqb_refl). cbv beta iota.
    replace (lenZ a + 1) with (lenZ (a ++ [e])) by lenz.
    rewrite (IH (a ++ [e]) (b ++ [e]) ty); [|by rewrite <- app_assoc|by rewrite <- app_assoc|rewrite !length_app; simpl; lia|simpl in Hl; lia].
    destruct (decide (tx = ty)) as [->|Hn]; [by rewrite decide_True|]. rewrite decide_False by congruence. done.
  - rewrite (bind_Ok _ _ _ s (Some tt)) by (mstep with Gx; mstep with Gy; by zb). rewrite decide_False by congruence. done.
Qed.

Lemma Equal_run {S} (x y : BigInt) (s : S) : wf x -> wf y -> Equal x y s = (Ok (value x =? value y), s).
Proof.
  intros Hx Hy. unfold Equal. assert (value x = value y <-> x = y) as Hv by (split; [by apply wf_inj|congruence]).
  destruct (eqb (GetSign x) (GetSign y)) eqn:Es; cbn [negb orb].
  - apply eqb_prop in Es. destruct (Z.eqb_spec (GetLength x) (GetLength y)) as [El|El]; cbn [negb].
    + mstep by (apply (Equal_loop x y s [] [] (GetData x) (GetData y)); [done..|unfold GetLength, lenZ in El; lia]).
      destruct (decide (GetData x = GetData y)) as [Ed|Ed].
      * rewrite (proj2 (Z.eqb_eq _ _)); [done|]. apply Hv. destruct x, y; simpl in *; congruence.
      * rewrite (proj2 (Z.eqb_neq _ _)); [done|]. intros ?%Hv. congruence.
    + rewrite (proj2 (Z.eqb_neq _ _)); [done|]. intros ?%Hv. congruence.
  - apply eqb_false_iff in Es. rewrite (proj2 (Z.eqb_neq _ _)); [done|]. intros ?%Hv. congruence.
Qed.

(** Comparing BigInts compares the integers; equality of the digits is
    equality of the integers. *)
Theorem bigint_Compare_spec {S} (x y : BigInt) (s : S) :
  wf x -> wf y ->
  Compare x y s = (Ok (comparison (value x) (value y)), s) /\ LessThan x y s = (Ok (value x <? value y), s) /\
  Equal x y s = (Ok (value x =? value y), s).
Proof.
  intros Hx Hy. split_and!; [by apply Compare_run| |by apply Equal_run]. unfold LessThan.
  mstep with (Compare_run x y s Hx Hy). unfold comparison, Z.ltb. by destruct (value x ?= value y).
Qed.

(** ** Examples *)

(** [wf] as a test. *)
Definition wfb (x : BigInt) : bool :=
  forallb (fun d => (0 <=? d) && (d <? 2 ^ 32)) (GetData x) && (GetLength x <=? MAXSIZE) &&
  match reverse (GetData x) with
  | d :: _ => negb (d =? 0) || (GetLength x =? 1) && negb (GetSign x)
  | [] => false
  end.

Lemma wfb_wf (x : BigInt) : wfb x = true -> wf x.
Proof.
  unfold wfb. rewrite !andb_true_iff. intros [[Hd Hl] Ht]. split.
  - clear -Hd. induction (GetData x) as [|d ds IH]; [done|]. simpl in Hd. apply andb_true_iff in Hd as [Hd Hds].
    apply andb_true_iff in Hd as [?%Z.leb_le ?%Z.ltb_lt]. constructor; [done|by apply IH].
  - destruct (reverse (GetData x)) as [|d p] eqn:E; [done|]. apply (f_equal reverse) in E. rewrite reverse_involutive, reverse_cons in E.
    exists (reverse p), d. split; [done|].
    apply orb_true_iff in Ht as [Ht|Ht]; [left; by apply negb_true_iff, Z.eqb_neq in Ht|right].
    apply andb_true_iff in Ht as [Hone Hs]. apply Z.eqb_eq in Hone. apply negb_true_iff in Hs. split; [|done].
    unfold GetLength in Hone. rewrite E in Hone. apply lenZ_zero. lenz.
  - by apply Z.leb_le.
Qed.

(** 2^64 - 1, -(2^32), 5 and -3. *)
Definition ones64 : BigInt := mkBigInt false [0xFFFFFFFF; 0xFFFFFFFF].
Definition minus_2_32 : BigInt := mkBigInt true [0; 1].
Definition five : BigInt := mkBigInt false [5].
Definition minus_three : BigInt := mkBigInt true [3].

Example carry_chain : Add ones64 (mkBigInt false [1]) tt = (Ok (mkBigInt false [0; 0; 1]), tt).
Proof. reflexivity. Qed.

Example and_negative : BitwiseAND five minus_three tt = (Ok five, tt).
Proof. reflexivity. Qed.

Lemma bigint_Compare_spec_witness : Compare minus_2_32 five tt = (Ok LESS, tt).
Proof. rewrite (proj1 (bigint_Compare_spec minus_2_32 five tt ltac:(by apply wfb_wf) ltac:(by apply wfb_wf))). reflexivity. Defined.

Lemma bigint_Add_Subtract_spec_witness :
  computes (Add ones64 five) (2 ^ 64 + 4) tt /\ computes (Subtract ones64 five) (2 ^ 64 - 6) tt.
Proof. exact (bigint_Add_Subtract_spec ones64 five tt ltac:(by apply wfb_wf) ltac:(by apply wfb_wf)). Defined.

Lemma bigint_bitwise_spec_witness :
  computes_or_throws (BitwiseAND five minus_2_32) 0 tt /\ computes_or_throws (BitwiseOR five minus_2_32) (5 - 2 ^ 32) tt /\
  computes_or_throws (BitwiseXOR five minus_2_32) (5 - 2 ^ 32) tt.
Proof. exact (bigint_bitwise_spec five minus_2_32 tt ltac:(by apply wfb_wf) ltac:(by apply wfb_wf)). Defined.

End BigInt.
