(* ===== verification/BigIntShift.v ===== *)
(** * BigInt shifts: js_bigint.cpp.

    A shift moves whole digits and then bits, carrying the bits that leave one
    digit into its neighbour; a right shift of a negative number rounds down.
    The theorems say that the shifts are those of integers in two's complement,
    when the shift distance is one digit long. *)
From S2P Require Import Prelude TaggedValue BigInt.
Local Open Scope Z_scope.

Module BigIntShift.
Import BigInt.

Section ops.
Context {S : Type}.

Definition ReturnIfRightShiftOverMax (sign : bool) : M S BigInt :=
  if sign then Int32ToBigInt (-1) else Int32ToBigInt 0.

(** A round of the loop of RightShift that moves bits.  [read] reads a digit of
    the number that is shifted, which may be the object that is written. *)
Definition right_round (read : Z -> M BigInt Z) (digitMove bitsMove i carry : Z) : M BigInt Z :=
  value ← read (u32 (i + digitMove + 1));
  SetDigit i (Z.lor (u32 (Z.shiftl value (DATEBITS - bitsMove))) carry);;
  mret (Z.shiftr value bitsMove).

Definition RightShift_from (read : Z -> M BigInt Z) (size digitMove bitsMove : Z) : M BigInt unit :=
  if bitsMove =? 0 then
    for_range digitMove size (fun i => d ← read i; SetDigit (i - digitMove) d)
  else
    d ← read digitMove;
    let carry := Z.shiftr d bitsMove in
    let last := u32 (size - digitMove - 1) in
    carry ← fold_range 0 last (right_round read digitMove bitsMove) carry;
    SetDigit last carry.

Definition RightShift (x : BigInt) (digitMove bitsMove : Z) : M BigInt unit :=
  RightShift_from (GetDigit x) (GetLength x) digitMove bitsMove.

(** The shift of an object into itself. *)
Definition UnformattedRightShift (shift : Z) : M BigInt unit :=
  size ← gets GetLength;
  RightShift_from own_digit size 0 shift.

(** The new needLen and roundDown. *)
Definition JudgeRoundDown (x : BigInt) (digitMove bitsMove needLen : Z) : M S (Z * bool) :=
  let stamp := u32 (u32 (Z.shiftl 1 bitsMove) - 1) in
  d ← GetDigit x digitMove;
  roundDown ← (if negb (Z.land d stamp =? 0) then mret true
    else
      r ← find_up (Z.to_nat digitMove) 0 (fun i =>
            e ← GetDigit x i;
            mret (if negb (e =? 0) then Some tt else None));
      mret (match r with Some _ => true | None => false end));
  if roundDown && (bitsMove =? 0) then
    highBits ← GetDigit x (GetLength x - 1);
    mret (if not32 highBits =? 0 then u32 (needLen + 1) else needLen, roundDown)
  else mret (needLen, roundDown).

(** RightShiftHelper once the shift distance is known to be inside [x]. *)
Definition RightShiftHelper (x y : BigInt) : M S BigInt :=
  let sign := GetSign x in
  over ← (if 1 <? GetLength y then mret true else d ← GetDigit y 0; mret (MAXBITS <? d));
  if (over : bool) then ReturnIfRightShiftOverMax sign
  else
    moveNum ← GetDigit y 0;
    let digitMove := moveNum / DATEBITS in
    let bitsMove := moveNum mod DATEBITS in
    if GetLength x <=? digitMove then ReturnIfRightShiftOverMax sign
    else
      let needLen := u32 (GetLength x - digitMove) in
      judged ← (if sign then JudgeRoundDown x digitMove bitsMove needLen else mret (needLen, false));
      let '(needLen, roundDown) := judged in
      bigint ← CreateBigint needLen;
      bigint ← build bigint (RightShift x digitMove bitsMove);
      bigint ← RightTruncate bigint;
      if sign then
        bigint ← build bigint (SetSign true);
        if (roundDown : bool) then BitwiseAddOne bigint else mret bigint
      else mret bigint.

(** A round of the loop of LeftShiftHelper that moves bits. *)
Definition left_round (x : BigInt) (digitMove bitsMove index carry : Z) : M BigInt Z :=
  value ← GetDigit x index;
  SetDigit (u32 (index + digitMove)) (Z.lor (u32 (Z.shiftl value bitsMove)) carry);;
  mret (Z.shiftr value (DATEBITS - bitsMove)).

Definition LeftShiftHelper (x y : BigInt) : M S BigInt :=
  if IsZero x then mret x
  else
    ASSERT (0 <? GetLength y);;
    moveNum ← GetDigit y 0;
    let digitMove := moveNum / DATEBITS in
    let bitsMove := moveNum mod DATEBITS in
    let needLen := u32 (digitMove + GetLength x + (if bitsMove =? 0 then 0 else 1)) in
    bigint ← CreateBigint needLen;
    bigint ← build bigint (
      (if bitsMove =? 0 then
         for_range digitMove needLen (fun index => d ← GetDigit x (index - digitMove); SetDigit index d)
       else
         carry ← fold_range 0 (GetLength x) (left_round x digitMove bitsMove) 0;
         let index := GetLength x in
         if negb (carry =? 0) then
           ASSERT (u32 (index + digitMove) <? needLen);;
           SetDigit (u32 (index + digitMove)) carry
         else mret tt);;
      SetSign (GetSign x));
    RightTruncate bigint.

Definition LeftShift (x y : BigInt) : M S BigInt :=
  if GetSign y then RightShiftHelper x y else LeftShiftHelper x y.

Definition SignedRightShift (x y : BigInt) : M S BigInt :=
  if IsZero x || IsZero y then mret x
  else if GetSign y then LeftShiftHelper x y
  else RightShiftHelper x y.

Definition UnsignedRightShift : M S BigInt := throw TYPE_ERROR.
End ops.

(** ** Bits that move from digit to digit *)

(** The digit written for [value] by a shift to the left by [k] bits when
    [carry] came from the digit before, and the bits that go to the next one. *)
Definition shift_digit (k value carry : Z) : Z * Z :=
  (Z.lor (u32 (Z.shiftl value k)) carry, Z.shiftr value (DATEBITS - k)).

Lemma lor_low (a c k : Z) : 0 <= k -> 0 <= c < 2 ^ k -> Z.lor (a * 2 ^ k) c = a * 2 ^ k + c.
Proof.
  intros Hk Hc. assert (Z.land (a * 2 ^ k) c = 0) as Hl.
  { apply Z.bits_inj'. intros n Hn. rewrite Z.land_spec, Z.bits_0. destruct (Z.lt_ge_cases n k).
    - by rewrite Z.mul_pow2_bits_low.
    - rewrite <- (Z.mod_small c (2 ^ k)) by lia. rewrite Z.mod_pow2_bits_high by lia. apply andb_false_r. }
  rewrite Z.add_nocarry_lxor by done. symmetry. by apply Z.lxor_lor.
Qed.

Lemma shift_digit_step (k value carry : Z) :
  0 < k < 32 -> digit value -> 0 <= carry < 2 ^ k ->
  digit (shift_digit k value carry).1 /\ 0 <= (shift_digit k value carry).2 < 2 ^ k /\
  (shift_digit k value carry).1 + 2 ^ 32 * (shift_digit k value carry).2 = value * 2 ^ k + carry.
Proof.
  intros Hk Hv Hc. unfold shift_digit, digit, u32, DATEBITS in *. cbn [fst snd].
  assert (2 ^ 32 = 2 ^ (32 - k) * 2 ^ k) as E by (rewrite <- Z.pow_add_r by lia; f_equal; lia).
  assert (0 < 2 ^ (32 - k)) by (apply Z.pow_pos_nonneg; lia). assert (0 < 2 ^ k) by (apply Z.pow_pos_nonneg; lia).
  rewrite Z.shiftl_mul_pow2, Z.shiftr_div_pow2 by lia.
  replace ((value * 2 ^ k) mod 2 ^ 32) with ((value mod 2 ^ (32 - k)) * 2 ^ k) by (rewrite E, Z.mul_mod_distr_r by lia; done).
  rewrite lor_low by lia. pose proof (Z.mod_pos_bound value (2 ^ (32 - k)) ltac:(lia)).
  pose proof (Z.div_mod value (2 ^ (32 - k)) ltac:(lia)). set (q := value / 2 ^ (32 - k)) in *. set (r := value mod 2 ^ (32 - k)) in *.
  set (P := 2 ^ (32 - k)) in *. set (Q := 2 ^ k) in *. nia.
Qed.

(** All the digits of a number shifted, and the bits left over. *)
Lemma shift_digits_val (k carry : Z) (ds : list Z) :
  0 < k < 32 -> Forall digit ds -> 0 <= carry < 2 ^ k ->
  let '(out, c) := carry_map (shift_digit k) ds carry in
  Forall digit out /\ length out = length ds /\ digit c /\ val (out ++ [c]) = val ds * 2 ^ k + carry.
Proof.
  intros Hk Hds Hc.
  destruct (carry_map_val (shift_digit k) (fun v => v * 2 ^ k) id digit (fun c => 0 <= c < 2 ^ k)
              (fun a c Ha Hc => shift_digit_step k a c Hk Ha Hc) ds carry Hds Hc) as (Ho & Hr & Hv).
  pose proof (carry_map_length (shift_digit k) ds carry) as Hl. destruct (carry_map (shift_digit k) ds carry) as [out c].
  cbn [fst snd id] in *. split_and!; [done|done| |].
  - unfold digit. pose proof (Z.pow_lt_mono_r 2 k 32 ltac:(lia) ltac:(lia) ltac:(lia)). lia.
  - rewrite val_app, val_cons, val_nil, Z.mul_0_r, Z.add_0_r. unfold lenZ at 1. rewrite Hl.
    assert (val ((fun v => v * 2 ^ k) <$> ds) = val ds * 2 ^ k) as E.
    { clear. induction ds as [|d ds IH]; [done|]. rewrite fmap_cons, !val_cons, IH. lia. }
    unfold id in Hv. rewrite E in Hv. unfold lenZ in Hv. lia.
Qed.

(** ** Left shift *)

(** The digits of the left shift by [n], before leading zeros are cut. *)
Definition shift_len (x : BigInt) (n : Z) : Z := n / DATEBITS + GetLength x + (if n mod DATEBITS =? 0 then 0 else 1).

Lemma split_distance (n : Z) : 0 <= n -> n = 32 * (n / DATEBITS) + n mod DATEBITS /\ 0 <= n mod DATEBITS < 32 /\ 0 <= n / DATEBITS.
Proof. intros Hn. unfold DATEBITS. zlia. Qed.

Lemma val_shifted (dm : nat) (ds : list Z) : val (replicate dm 0 ++ ds) = val ds * 2 ^ (32 * Z.of_nat dm).
Proof. rewrite val_app, val_replicate, lenZ_replicate. lia. Qed.

Lemma left_shift_loop (x : BigInt) (dm : nat) (b : Z) (sg : bool) :
  0 < b < 32 -> Forall digit (GetData x) -> Z.of_nat dm + GetLength x < 2 ^ 32 ->
  fold_range 0 (GetLength x) (left_round x (Z.of_nat dm) b) 0
    (mkBigInt sg (replicate dm 0 ++ replicate (length (GetData x)) 0 ++ [0]))
  = (Ok (carry_map (shift_digit b) (GetData x) 0).2,
     mkBigInt sg (replicate dm 0 ++ (carry_map (shift_digit b) (GetData x) 0).1 ++ [0])).
Proof.
  intros Hb Hd Hl. unfold fold_range, GetLength. rewrite Z.sub_0_r. replace (Z.to_nat (lenZ (GetData x))) with (length (GetData x)) by (unfold lenZ; lia).
  apply (fold_up_digits (shift_digit b) (left_round x (Z.of_nat dm) b) (GetData x) 0 0 sg (replicate dm 0)); [by rewrite length_replicate|].
  intros k a c dn Hk Hdn. pose proof (lookup_lt_Some _ _ _ Hk). unfold left_round.
  mstep by (apply (GetDigit_run _ _ a); [lia|]; rewrite <- Hk; f_equal; lia).
  rewrite lenZ_replicate. replace (u32 (0 + Z.of_nat k + Z.of_nat dm)) with (Z.of_nat dm + Z.of_nat k)
    by (rewrite u32_small; unfold GetLength, lenZ in *; lia). done.
Qed.

Lemma left_digits_loop (x : BigInt) (dm : nat) (hi : Z) (sg : bool) :
  hi = Z.of_nat dm + GetLength x ->
  for_range (Z.of_nat dm) hi (fun index => d ← GetDigit x (index - Z.of_nat dm); SetDigit index d)
    (mkBigInt sg (replicate dm 0 ++ replicate (length (GetData x)) 0))
  = (Ok tt, mkBigInt sg (replicate dm 0 ++ GetData x)).
Proof.
  intros ->. unfold for_range, GetLength. replace (Z.to_nat (Z.of_nat dm + lenZ (GetData x) - Z.of_nat dm)) with (length (GetData x)) by (unfold lenZ; lia).
  pose proof (for_up_digits (fun index => d ← GetDigit x (index - Z.of_nat dm); SetDigit index d) (GetData x) sg (replicate dm 0)
    (replicate (length (GetData x)) 0) []) as H. rewrite !app_nil_r, lenZ_replicate in H. apply H; [by rewrite length_replicate|].
  intros k d st Hk. mstep by (apply (GetDigit_run _ _ d); [lia|]; rewrite <- Hk; f_equal; lia). done.
Qed.

(** The digits that LeftShiftHelper writes. *)
Lemma left_digits (x : BigInt) (dm : nat) (b needLen : Z) :
  wf x -> 0 <= b < 32 -> needLen = Z.of_nat dm + GetLength x + (if b =? 0 then 0 else 1) -> needLen <= MAXSIZE ->
  exists ds, Forall digit ds /\ lenZ ds = needLen /\ val ds = val (GetData x) * 2 ^ (32 * Z.of_nat dm + b) /\
    (if b =? 0 then
         for_range (Z.of_nat dm) needLen (fun index => d ← GetDigit x (index - Z.of_nat dm); SetDigit index d)
       else
         carry ← fold_range 0 (GetLength x) (left_round x (Z.of_nat dm) b) 0;
         let index := GetLength x in
         if negb (carry =? 0) then
           ASSERT (u32 (index + Z.of_nat dm) <? needLen);;
           SetDigit (u32 (index + Z.of_nat dm)) carry
         else mret tt) (mkBigInt false (replicate (Z.to_nat needLen) 0)) = (Ok tt, mkBigInt false ds).
Proof.
  intros Hx Hb Hn Hm. pose proof MAXSIZE_eq. pose proof (wf_length x Hx) as Hl. pose proof (wf_digits x Hx) as Hd.
  destruct (Z.eqb_spec b 0) as [->|Eb].
  - exists (replicate dm 0 ++ GetData x). split_and!.
    + apply Forall_app. split; [by apply Forall_replicate|done].
    + rewrite lenZ_app, lenZ_replicate. unfold GetLength in *. lia.
    + rewrite val_shifted. do 2 f_equal. lia.
    + replace (Z.to_nat needLen) with (dm + length (GetData x))%nat by (unfold GetLength, lenZ in *; lia).
      rewrite replicate_split. apply left_digits_loop. lia.
  - pose proof (left_shift_loop x dm b false ltac:(lia) Hd ltac:(lia)) as Hloop.
    pose proof (shift_digits_val b 0 (GetData x) ltac:(lia) Hd ltac:(pose proof (Z.pow_pos_nonneg 2 b ltac:(lia) ltac:(lia)); lia)) as Hv.
    destruct (carry_map (shift_digit b) (GetData x) 0) as [out c]. destruct Hv as (Ho & Hlo & Hc & Hv). cbn [fst snd] in Hloop.
    exists (replicate dm 0 ++ out ++ [c]). split_and!.
    + apply Forall_app. split; [by apply Forall_replicate|]. apply Forall_app. split; [done|by apply Forall_singleton].
    + rewrite !lenZ_app, lenZ_replicate. unfold GetLength, lenZ in *. simpl. lia.
    + rewrite val_shifted, Hv, Z.pow_add_r by lia. lia.
    + replace (Z.to_nat needLen) with (dm + (length (GetData x) + 1))%nat by (unfold GetLength, lenZ in *; lia).
      rewrite !replicate_split. mstep with Hloop. unfold GetLength in *. rewrite u32_small by (unfold lenZ in *; lia).
      destruct (Z.eqb_spec c 0) as [->|Hc0]; cbn [negb]; [done|]. zb. mstep. rewrite app_assoc.
      rewrite SetDigit_run by (rewrite lenZ_app, lenZ_replicate; unfold lenZ in *; lia). by rewrite <- app_assoc.
Qed.

Lemma LeftShiftHelper_run {S} (x y : BigInt) (n : Z) (rest : list Z) (s : S) :
  wf x -> GetData y = n :: rest -> digit n ->
  (IsZero x = true \/ shift_len x n <= MAXSIZE -> computes (LeftShiftHelper x y) (Z.shiftl (value x) n) s) /\
  (IsZero x = false -> MAXSIZE < shift_len x n -> LeftShiftHelper x y s = (Throw RANGE_ERROR, s)).
Proof.
  intros Hx Hy Hn. unfold digit in Hn. pose proof MAXSIZE_eq as Hms. pose proof (wf_length x Hx) as Hl.
  destruct (split_distance n ltac:(lia)) as (En & Hb & Hdm). unfold shift_len.
  assert (0 < GetLength y) as Hly by (unfold GetLength; rewrite Hy; pose proof (lenZ_nonneg rest); lenz).
  assert (u32 (n / DATEBITS + GetLength x + (if n mod DATEBITS =? 0 then 0 else 1)) =
          n / DATEBITS + GetLength x + (if n mod DATEBITS =? 0 then 0 else 1)) as Hu.
  { apply u32_small. unfold DATEBITS. destruct (n mod 32 =? 0); zlia. }
  assert (GetDigit y 0 s = (Ok n, s)) as Gy by (apply GetDigit_run; [done|by rewrite Hy]).
  unfold LeftShiftHelper. destruct (IsZero x) eqn:Hz.
  { split; [|done]. intros _. exists x. split; [done|]. split; [done|]. unfold value. rewrite val_zero by done.
    rewrite Z.shiftl_mul_pow2 by lia. by destruct (GetSign x). }
  zb. split.
  - intros [?|Hm]; [done|]. cstep. cstep with Gy. rewrite Hu.
    destruct (left_digits x (Z.to_nat (n / DATEBITS)) (n mod DATEBITS) _ Hx Hb eq_refl) as (ds & Hds & Hlen & Hv & Hrun); [by rewrite Z2Nat.id|].
    rewrite Z2Nat.id in * by done. cstep by (apply CreateBigint_run; destruct (n mod DATEBITS =? 0); lia).
    cstep by (apply (build_run _ (mkBigInt (GetSign x) ds)); mstep with Hrun; done).
    replace (Z.shiftl (value x) n) with (value (mkBigInt (GetSign x) ds)).
    + apply RightTruncate_run; [done|]. unfold GetLength at 1 2. simpl. rewrite Hlen. destruct (n mod DATEBITS =? 0); lia.
    + rewrite Z.shiftl_mul_pow2 by lia. unfold value. simpl. rewrite Hv, <- En. destruct (GetSign x); lia.
  - intros _ Hm. mstep. mstep with Gy. apply bind_Throw, CreateBigint_throw. by rewrite Hu.
Qed.

(** ** Right shift *)

Lemma for_up_shift {S} (n : nat) (i k : Z) (body : Z -> M S unit) (s : S) :
  for_up n (i + k) body s = for_up n i (fun j => body (j + k)) s.
Proof.
  revert i s. induction n as [|n IH]; intros i s; [done|]. simpl. mcbn. destruct (body (i + k) s) as [[[]| | |] s']; try done.
  rewrite <- IH. f_equal. lia.
Qed.

Lemma right_digits_loop (x : BigInt) (a ds extra : list Z) (sg : bool) :
  GetData x = a ++ ds ->
  RightShift x (lenZ a) 0 (mkBigInt sg (replicate (length ds) 0 ++ extra)) = (Ok tt, mkBigInt sg (ds ++ extra)).
Proof.
  intros Ex. unfold RightShift, RightShift_from, GetLength, for_range. rewrite Ex, lenZ_app. simpl Z.eqb. cbv iota.
  replace (Z.to_nat (lenZ a + lenZ ds - lenZ a)) with (length ds) by (unfold lenZ; lia).
  etrans; [apply (for_up_shift (length ds) 0 (lenZ a))|]. apply (for_up_digits _ ds sg [] (replicate (length ds) 0) extra); [by rewrite length_replicate|].
  intros k d st Hk. rewrite lenZ_nil. pose proof (lenZ_nonneg a).
  mstep by (apply (GetDigit_run _ _ d); [lia|]; rewrite Ex, lookup_app_r by (unfold lenZ; lia); rewrite <- Hk; f_equal; unfold lenZ; lia).
  by replace (0 + Z.of_nat k + lenZ a - lenZ a) with (0 + Z.of_nat k) by lia.
Qed.

Lemma right_bits_loop (x : BigInt) (a t extra : list Z) (d0 b : Z) (sg : bool) :
  GetData x = a ++ d0 :: t -> GetLength x <= MAXSIZE -> 0 < b < 32 ->
  let '(out, c) := carry_map (shift_digit (DATEBITS - b)) t (Z.shiftr d0 b) in
  RightShift x (lenZ a) b (mkBigInt sg (replicate (length t) 0 ++ 0 :: extra)) = (Ok tt, mkBigInt sg (out ++ c :: extra)).
Proof.
  intros Ex Hl Hb. pose proof MAXSIZE_eq. unfold GetLength in Hl. rewrite Ex, lenZ_app, lenZ_cons in Hl. pose proof (lenZ_nonneg a). pose proof (lenZ_nonneg t).
  pose proof (fold_up_digits (shift_digit (DATEBITS - b)) (right_round (GetDigit x) (lenZ a) b) t 0 (Z.shiftr d0 b) sg [] (replicate (length t) 0) (0 :: extra)) as Hloop.
  pose proof (carry_map_length (shift_digit (DATEBITS - b)) t (Z.shiftr d0 b)) as Hlen.
  destruct (carry_map (shift_digit (DATEBITS - b)) t (Z.shiftr d0 b)) as [out c]. cbn [fst snd app] in *.
  unfold RightShift, RightShift_from, GetLength. rewrite Ex, lenZ_app, lenZ_cons. zb.
  mstep by (apply (GetDigit_run _ _ d0); [lia|]; rewrite Ex; apply list_lookup_middle; unfold lenZ; lia).
  replace (lenZ a + (lenZ t + 1) - lenZ a - 1) with (lenZ t) by lia. rewrite u32_small by lia. unfold fold_range.
  replace (Z.to_nat (lenZ t - 0)) with (length t) by (unfold lenZ; lia).
  rewrite (bind_Ok _ _ _ _ _ (Hloop ltac:(by rewrite length_replicate)
    ltac:(intros k e c' dn Hk Hdn; pose proof (lookup_lt_Some _ _ _ Hk); unfold right_round;
      rewrite u32_small by (unfold lenZ in *; lia);
      mstep by (apply (GetDigit_run _ _ e); [lia|]; rewrite Ex, lookup_app_r by (unfold lenZ; lia);
        replace (Z.to_nat (0 + Z.of_nat k + lenZ a + 1) - length a)%nat with (Datatypes.S k) by (unfold lenZ; lia); exact Hk);
      unfold shift_digit; cbn [fst snd]; by replace (DATEBITS - (DATEBITS - b)) with b by lia))).
  apply SetDigit_run. unfold lenZ. lia.
Qed.

(** The digits of a number shifted right by [b] bits. *)
Lemma bits_val (t : list Z) (d0 b : Z) :
  digit d0 -> Forall digit t -> 0 < b < 32 ->
  let '(out, c) := carry_map (shift_digit (DATEBITS - b)) t (Z.shiftr d0 b) in
  Forall digit (out ++ [c]) /\ length (out ++ [c]) = Datatypes.S (length t) /\ val (out ++ [c]) = val (d0 :: t) / 2 ^ b.
Proof.
  intros Hd0 Ht Hb. set (k := DATEBITS - b). assert (0 < k < 32) as Hk by (unfold k, DATEBITS; lia).
  assert (2 ^ 32 = 2 ^ k * 2 ^ b) as E by (rewrite <- Z.pow_add_r by lia; f_equal; unfold k, DATEBITS; lia).
  assert (0 < 2 ^ b) by (apply Z.pow_pos_nonneg; lia).
  assert (0 <= Z.shiftr d0 b < 2 ^ k) as Hc0.
  { rewrite Z.shiftr_div_pow2 by lia. unfold digit in Hd0. split; [apply Z.div_pos; lia|]. apply Z.div_lt_upper_bound; lia. }
  pose proof (shift_digits_val k (Z.shiftr d0 b) t Hk Ht Hc0) as Hv.
  destruct (carry_map (shift_digit k) t (Z.shiftr d0 b)) as [out c]. destruct Hv as (Ho & Hlo & Hc & Hv). split_and!.
  - apply Forall_app. split; [done|by apply Forall_singleton].
  - rewrite length_app. simpl. lia.
  - rewrite Hv, val_cons, Z.shiftr_div_pow2, E by lia. replace (2 ^ k * 2 ^ b * val t) with (val t * 2 ^ k * 2 ^ b) by lia.
    rewrite Z.div_add by lia. lia.
Qed.

Lemma right_digits (x : BigInt) (a t extra : list Z) (d0 b : Z) (sg : bool) :
  wf x -> GetData x = a ++ d0 :: t -> 0 <= b < 32 ->
  exists ds, Forall digit ds /\ length ds = Datatypes.S (length t) /\ val ds = val (d0 :: t) / 2 ^ b /\
    RightShift x (lenZ a) b (mkBigInt sg (replicate (Datatypes.S (length t)) 0 ++ extra)) = (Ok tt, mkBigInt sg (ds ++ extra)).
Proof.
  intros Hx Ex Hb. pose proof (wf_length x Hx) as Hl. pose proof (wf_digits x Hx) as Hd. rewrite Ex in Hd.
  apply Forall_app in Hd as [Ha [Hd0 Ht]%Forall_cons_1]. destruct (Z.eq_dec b 0) as [->|Eb].
  - exists (d0 :: t). split_and!; [by constructor|done|by rewrite Z.pow_0_r, Z.div_1_r|]. by apply (right_digits_loop x a (d0 :: t)).
  - pose proof (bits_val t d0 b Hd0 Ht ltac:(lia)) as Hv. pose proof (right_bits_loop x a t extra d0 b sg Ex ltac:(lia) ltac:(lia)) as Hloop.
    destruct (carry_map (shift_digit (DATEBITS - b)) t (Z.shiftr d0 b)) as [out c]. destruct Hv as (Ho & Hlo & Hv).
    exists (out ++ [c]). split_and!; [done|done|done|].
    replace (Datatypes.S (length t)) with (length t + 1)%nat by lia. rewrite replicate_split, <- !app_assoc. exact Hloop.
Qed.

(** The loop over the digits [t] stops at the first one that the test accepts. *)
Lemma find_digit {S} (x : BigInt) (p : Z -> bool) (a t post : list Z) (s : S) :
  GetData x = a ++ t ++ post ->
  find_up (length t) (lenZ a) (fun i => e ← GetDigit x i; mret (if p e then Some tt else None)) s
  = (Ok (if existsb p t then Some tt else None), s).
Proof.
  revert a. induction t as [|d t IH]; intros a Hx; [done|]. cbn [find_up length existsb].
  assert (GetDigit x (lenZ a) s = (Ok d, s)) as Hg by (apply GetDigit_run; [apply lenZ_nonneg|rewrite Hx; apply list_lookup_middle; lenz]).
  rewrite (bind_Ok _ _ _ s (if p d then Some tt else None)) by (by mstep with Hg). destruct (p d); cbn [orb]; [done|].
  replace (lenZ a + 1) with (lenZ (a ++ [d])) by lenz. apply IH. by rewrite <- app_assoc.
Qed.

Lemma val_zero_digits (ds : list Z) : Forall digit ds -> existsb (fun e => negb (e =? 0)) ds = negb (val ds =? 0).
Proof.
  induction 1 as [|d ds Hd Hds IH]; [done|]. simpl. rewrite IH, val_cons. pose proof (val_bounds ds Hds). unfold digit in Hd.
  destruct (Z.eqb_spec d 0), (Z.eqb_spec (val ds) 0), (Z.eqb_spec (d + 2 ^ 32 * val ds) 0); (done || lia).
Qed.

(** The bits that a right shift drops. *)
Lemma low_bits (a t : list Z) (d0 b : Z) :
  Forall digit a -> 0 <= b < 32 -> val (a ++ d0 :: t) mod 2 ^ (32 * lenZ a + b) = val a + 2 ^ (32 * lenZ a) * (d0 mod 2 ^ b).
Proof.
  intros Ha Hb. pose proof (val_bounds a Ha). pose proof (lenZ_nonneg a). rewrite val_app, val_cons, Z.pow_add_r by lia.
  assert (0 < 2 ^ b) by (apply Z.pow_pos_nonneg; lia). set (P := 2 ^ (32 * lenZ a)) in *.
  assert (2 ^ 32 = 2 ^ (32 - b) * 2 ^ b) as E by (rewrite <- Z.pow_add_r by lia; f_equal; lia).
  symmetry. apply Z.mod_unique with (q := d0 / 2 ^ b + 2 ^ (32 - b) * val t).
  - left. pose proof (Z.mod_pos_bound d0 (2 ^ b) ltac:(lia)). nia.
  - rewrite E. pose proof (Z.div_mod d0 (2 ^ b) ltac:(lia)) as Hdm.
    set (q := d0 / 2 ^ b) in *. set (r := d0 mod 2 ^ b) in *. rewrite Hdm. ring.
Qed.

Lemma high_bits (a t : list Z) (d0 b : Z) :
  Forall digit a -> 0 <= b < 32 -> val (a ++ d0 :: t) / 2 ^ (32 * lenZ a + b) = val (d0 :: t) / 2 ^ b.
Proof.
  intros Ha Hb. pose proof (val_bounds a Ha). pose proof (lenZ_nonneg a). rewrite val_app, Z.pow_add_r by lia.
  assert (0 < 2 ^ b) by (apply Z.pow_pos_nonneg; lia). set (P := 2 ^ (32 * lenZ a)) in *.
  rewrite <- Z.div_div by lia. rewrite (Z.mul_comm P), Z.div_add, (Z.div_small (val a)) by lia. done.
Qed.

Lemma JudgeRoundDown_run {S} (x : BigInt) (a t : list Z) (d0 b needLen : Z) (s : S) :
  wf x -> GetData x = a ++ d0 :: t -> 0 <= b < 32 -> 0 <= needLen <= MAXSIZE ->
  let roundDown := negb (val (GetData x) mod 2 ^ (32 * lenZ a + b) =? 0) in
  exists extra, JudgeRoundDown x (lenZ a) b needLen s = (Ok (needLen + Z.of_nat extra, roundDown), s) /\
    ((extra = 0)%nat \/ ((extra = 1)%nat /\ 0 < lenZ a)).
Proof.
  intros Hx Ex Hb Hn. pose proof MAXSIZE_eq. pose proof (wf_length x Hx) as Hl. pose proof (wf_digits x Hx) as Hd.
  assert (exists high, GetDigit x (GetLength x - 1) s = (Ok high, s)) as [high Hh].
  { destruct (lookup_lt_is_Some_2 (GetData x) (Z.to_nat (GetLength x - 1))) as [h Hh]; [unfold GetLength, lenZ in *; lia|].
    exists h. apply GetDigit_run; [lia|done]. }
  rewrite Ex in Hd. apply Forall_app in Hd as [Ha [Hd0 Ht]%Forall_cons_1]. pose proof (val_bounds a Ha). unfold digit in Hd0.
  pose proof (lenZ_nonneg a). pose proof (pow32_pos (lenZ a) ltac:(lia)).
  assert (0 < 2 ^ b < 2 ^ 32) by (split; [apply Z.pow_pos_nonneg; lia|apply Z.pow_lt_mono_r; lia]).
  pose proof (Z.mod_pos_bound d0 (2 ^ b) ltac:(lia)). cbv zeta. rewrite Ex, low_bits by done.
  assert (u32 (u32 (Z.shiftl 1 b) - 1) = Z.ones b) as Hst.
  { rewrite Z.shiftl_mul_pow2, Z.mul_1_l, Z.ones_equiv by lia. rewrite (u32_small (2 ^ b)) by lia. rewrite u32_small; lia. }
  assert (forall r, (if negb (Z.land d0 (Z.ones b) =? 0) then mret true else
      r ← find_up (Z.to_nat (lenZ a)) 0 (fun i => e ← GetDigit x i; mret (if negb (e =? 0) then Some tt else None));
      mret (match r with Some _ => true | None => false end)) s = (Ok r, s) <->
      r = negb (val a + 2 ^ (32 * lenZ a) * (d0 mod 2 ^ b) =? 0)) as Hround.
  { intros r. rewrite Z.land_ones by lia. destruct (Z.eqb_spec (d0 mod 2 ^ b) 0) as [E0|E0]; cbn [negb].
    - replace (Z.to_nat (lenZ a)) with (length a) by (unfold lenZ; lia).
      mstep with (find_digit x (fun e => negb (e =? 0)) [] a (d0 :: t) s Ex). rewrite val_zero_digits, E0, Z.mul_0_r, Z.add_0_r by done.
      destruct (val a =? 0); cbn [negb]; split; (by intros [= <-] || by intros ->).
    - rewrite (proj2 (Z.eqb_neq (val a + _) 0)) by nia. cbn [negb]. split; (by intros [= <-] || by intros ->). }
  unfold JudgeRoundDown. mstep by (apply (GetDigit_run _ _ d0); [lia|]; rewrite Ex; apply list_lookup_middle; unfold lenZ; lia).
  rewrite Hst. mstep with (proj2 (Hround _) eq_refl). clear Hround.
  destruct (negb (val a + 2 ^ (32 * lenZ a) * (d0 mod 2 ^ b) =? 0)) eqn:Er; [|exists O; rewrite Z.add_0_r; by auto].
  destruct (Z.eqb_spec b 0) as [->|]; cbn [andb]; [|exists O; rewrite Z.add_0_r; by auto]. mstep with Hh.
  destruct (not32 high =? 0); [|exists O; rewrite Z.add_0_r; by auto]. exists 1%nat. rewrite u32_small by lia. split; [done|right].
  split; [done|]. destruct (Z.eq_dec (lenZ a) 0) as [E0|]; [|lia]. rewrite (lenZ_zero a E0) in Er.
  rewrite Z.pow_0_r, Z.mod_1_r in Er. done.
Qed.

Lemma shiftr_over (x : BigInt) (n : Z) :
  wf x -> 0 <= n -> val (GetData x) < 2 ^ n -> Z.shiftr (value x) n = if GetSign x then -1 else 0.
Proof.
  intros Hx Hn Hv. pose proof (val_bounds _ (wf_digits x Hx)). rewrite Z.shiftr_div_pow2 by lia. unfold value. destruct (GetSign x) eqn:Hs.
  - pose proof (val_pos x Hx (neg_nonzero x Hx Hs)). symmetry. apply Z.div_unique with (r := 2 ^ n - val (GetData x)); lia.
  - apply Z.div_small. lia.
Qed.

Lemma over_run {S} (x : BigInt) (n : Z) (s : S) :
  wf x -> 0 <= n -> val (GetData x) < 2 ^ n -> computes (ReturnIfRightShiftOverMax (GetSign x)) (Z.shiftr (value x) n) s.
Proof.
  intros Hx Hn Hv. rewrite shiftr_over by done. unfold ReturnIfRightShiftOverMax.
  destruct (GetSign x); by apply Int32ToBigInt_run.
Qed.

Lemma BitwiseAddOne_sign {S} (x : BigInt) (sg : bool) (s : S) : BitwiseAddOne (with_sign sg x) s = BitwiseAddOne x s.
Proof. reflexivity. Qed.

(** What is done with the shifted magnitude of a negative number. *)
Lemma negative_finish {S} (x z : BigInt) (n : Z) (s : S) :
  wf x -> GetSign x = true -> wf z -> 0 <= n -> value z = val (GetData x) / 2 ^ n ->
  computes (bigint ← build z (SetSign true);
    if negb (val (GetData x) mod 2 ^ n =? 0) then BitwiseAddOne bigint else mret bigint) (Z.shiftr (value x) n) s.
Proof.
  intros Hx Sx Hz Hn Vz. pose proof (val_pos x Hx (neg_nonzero x Hx Sx)) as Hv. pose proof (wf_fits x Hx) as Hfit.
  assert (0 < 2 ^ n) by (apply Z.pow_pos_nonneg; lia). rewrite Z.shiftr_div_pow2 by lia. unfold value at 1. rewrite Sx.
  cstep by (apply (build_run _ (with_sign true z)); reflexivity).
  pose proof (Z.div_mod (val (GetData x)) (2 ^ n) ltac:(lia)) as Hdm. pose proof (Z.mod_pos_bound (val (GetData x)) (2 ^ n) ltac:(lia)).
  assert (0 <= val (GetData x) / 2 ^ n) by (apply Z.div_pos; lia).
  destruct (Z.eqb_spec (val (GetData x) mod 2 ^ n) 0) as [E0|E0]; cbn [negb].
  - rewrite Z.div_opp_l_z by lia. assert (0 < val (GetData x) / 2 ^ n) by nia.
    exists (with_sign true z). split; [done|]. apply with_sign_value; [done|rewrite Vz; lia|]. symmetry. apply Z.ltb_lt. lia.
  - rewrite Z.div_opp_l_nz by lia. assert (2 <= 2 ^ n) by (destruct (Z.eq_dec n 0) as [->|]; [rewrite Z.pow_0_r, Z.mod_1_r in E0; done|]; change 2 with (2 ^ 1) at 1; apply Z.pow_le_mono_r; lia).
    replace (- (val (GetData x) / 2 ^ n) - 1) with (Z.lnot (value z)) by (unfold Z.lnot; lia).
    destruct (BitwiseAddOne_run z s Hz) as (r & Hr & Wr & Vr); [apply wf_nonneg; [done|lia]| |by exists r].
    unfold fits in *. unfold Z.lnot. rewrite Vz. unfold value in Hfit. rewrite Sx in Hfit.
    assert (val (GetData x) / 2 ^ n + 1 <= val (GetData x)) by nia. lia.
Qed.

(** The shift inside the number: what is left of the helper once the shift
    distance is split. *)
Lemma right_inside {S} (x : BigInt) (a t : list Z) (d0 b : Z) (s : S) :
  wf x -> GetData x = a ++ d0 :: t -> 0 <= b < 32 ->
  computes (
      judged ← (if GetSign x then JudgeRoundDown x (lenZ a) b (u32 (GetLength x - lenZ a)) else mret (u32 (GetLength x - lenZ a), false));
      let '(needLen, roundDown) := judged in
      bigint ← CreateBigint needLen;
      bigint ← build bigint (RightShift x (lenZ a) b);
      bigint ← RightTruncate bigint;
      if GetSign x then
        bigint ← build bigint (SetSign true);
        if (roundDown : bool) then BitwiseAddOne bigint else mret bigint
      else mret bigint) (Z.shiftr (value x) (32 * lenZ a + b)) s.
Proof.
  intros Hx Ex Hb. pose proof MAXSIZE_eq. pose proof (wf_length x Hx) as Hl. pose proof (wf_digits x Hx) as Hd. rewrite Ex in Hd.
  apply Forall_app in Hd as [Ha [Hd0 Ht]%Forall_cons_1]. pose proof (lenZ_nonneg a). pose proof (lenZ_nonneg t).
  assert (GetLength x = lenZ a + lenZ t + 1) as Hlx by (unfold GetLength; rewrite Ex; lenz).
  assert (u32 (GetLength x - lenZ a) = lenZ t + 1) as -> by (rewrite u32_small; lia).
  assert (exists extra, (if GetSign x then JudgeRoundDown x (lenZ a) b (lenZ t + 1) else mret (lenZ t + 1, false)) s
     = (Ok (lenZ t + 1 + Z.of_nat extra, if GetSign x then negb (val (GetData x) mod 2 ^ (32 * lenZ a + b) =? 0) else false), s) /\
     ((extra = 0)%nat \/ ((extra = 1)%nat /\ 0 < lenZ a))) as (extra & Hj & Hex).
  { destruct (GetSign x); [apply (JudgeRoundDown_run x a t d0 b); (done || lia)|]. exists O. rewrite Z.add_0_r. by auto. }
  cstep with Hj. destruct (right_digits x a t (replicate extra 0) d0 b false Hx Ex Hb) as (ds & Hds & Hlen & Hv & Hrun).
  cstep by (apply CreateBigint_run; lia).
  cstep by (apply (build_run _ (mkBigInt false (ds ++ replicate extra 0)));
    replace (Z.to_nat (lenZ t + 1 + Z.of_nat extra)) with (Datatypes.S (length t) + extra)%nat by (unfold lenZ; lia);
    rewrite replicate_split; exact Hrun).
  rewrite <- (high_bits a t d0 b Ha Hb), <- Ex in Hv.
  apply (computes_bind _ _ (val (GetData x) / 2 ^ (32 * lenZ a + b))).
  - rewrite <- Hv. replace (val ds) with (value (mkBigInt false (ds ++ replicate extra 0))) by (unfold value; simpl; rewrite val_app, val_replicate; lia).
    apply RightTruncate_run; simpl.
    + apply Forall_app. split; [done|by apply Forall_replicate].
    + unfold GetLength. simpl. rewrite lenZ_app, lenZ_replicate. unfold lenZ in *. lia.
  - intros z Hz Vz. destruct (GetSign x) eqn:Sx; [apply negative_finish; (done || lia)|]. exists z. split; [done|]. split; [done|].
    rewrite Z.shiftr_div_pow2 by lia. unfold value at 2. by rewrite Sx.
Qed.

Lemma RightShiftHelper_run {S} (x y : BigInt) (s : S) :
  wf x -> wf y -> computes (RightShiftHelper x y) (Z.shiftr (value x) (val (GetData y))) s.
Proof.
  intros Hx Hy. pose proof MAXSIZE_eq. pose proof (wf_length x Hx) as Lx. pose proof (wf_length y Hy) as Ly.
  pose proof (val_bounds _ (wf_digits y Hy)) as By. pose proof (val_bounds _ (wf_digits x Hx)) as Bx.
  assert (forall n, 32 * GetLength x <= n -> val (GetData x) < 2 ^ n) as Hover.
  { intros n Hn. pose proof (Z.pow_le_mono_r 2 (32 * GetLength x) n ltac:(lia) Hn). unfold GetLength in *. lia. }
  unfold RightShiftHelper. cbv zeta. destruct (GetData y) as [|n rest] eqn:Ey; [unfold GetLength in Ly; rewrite Ey in Ly; lenz|].
  assert (GetDigit y 0 s = (Ok n, s)) as Gy by (apply GetDigit_run; [done|by rewrite Ey]).
  destruct rest as [|m rest].
  - assert (GetLength y = 1) as -> by (unfold GetLength; rewrite Ey; done). zb. rewrite val_cons, val_nil in *. rewrite Z.mul_0_r, Z.add_0_r in *.
    apply (computes_step _ _ (MAXBITS <? n)); [by mstep with Gy|]. destruct (Z.ltb_spec MAXBITS n) as [Hbig|Hsm].
    { apply over_run; [done|lia|]. apply Hover. change MAXBITS with (32 * 32768) in Hbig. lia. }
    cstep with Gy. destruct (split_distance n ltac:(lia)) as (En & Hb & Hdm). destruct (Z.leb_spec (GetLength x) (n / DATEBITS)).
    { apply over_run; [done|lia|]. apply Hover. lia. }
    destruct (split_at (GetData x) (n / DATEBITS)) as (a & d0 & t & Ex & Ea); [unfold GetLength in *; lia|].
    replace (Z.shiftr (value x) n) with (Z.shiftr (value x) (32 * lenZ a + n mod DATEBITS)) by (f_equal; lia). rewrite <- Ea. by apply (right_inside x a t d0).
  - assert (1 < GetLength y) as Hl by (unfold GetLength; rewrite Ey, !lenZ_cons; pose proof (lenZ_nonneg rest); lia). zb. cstep.
    apply over_run; [done|lia|]. apply Hover. destruct (wf_top y Hy) as (p & d & E & Ht). rewrite Ey in E.
    pose proof (wf_digits y Hy) as Hd. rewrite Ey, E in *. apply Forall_app in Hd as [Hp [Hd _]%Forall_cons_1].
    destruct Ht as [Ht|[-> _]]; [|apply (f_equal length) in E; done].
    pose proof (val_snoc_bounds p d Hp Hd Ht). destruct p as [|e p]; [apply (f_equal length) in E; done|]. rewrite lenZ_cons, pow32_succ in * by apply lenZ_nonneg.
    pose proof (pow32_pos (lenZ p) (lenZ_nonneg p)). lia.
Qed.

(** Whether the digits of the left shift by [n] can be allocated. *)
Definition shift_ok (x : BigInt) (n : Z) : bool := IsZero x || (shift_len x n <=? MAXSIZE).

Lemma left_run {S} (x y : BigInt) (s : S) :
  wf x -> wf y -> GetLength y = 1 ->
  if shift_ok x (Z.abs (value y)) then computes (LeftShiftHelper x y) (Z.shiftl (value x) (Z.abs (value y))) s
  else LeftShiftHelper x y s = (Throw RANGE_ERROR, s).
Proof.
  intros Hx Hy Hl. rewrite <- val_abs by done. pose proof (wf_digits y Hy) as Hd. unfold GetLength in Hl.
  destruct (GetData y) as [|n rest] eqn:Ey; [done|]. apply Forall_cons_1 in Hd as [Hd _].
  assert (rest = []) as -> by (apply lenZ_zero; rewrite lenZ_cons in Hl; lia). rewrite val_cons, val_nil, Z.mul_0_r, Z.add_0_r.
  destruct (LeftShiftHelper_run x y n [] s Hx Ey Hd) as [Hok Hthrow]. unfold shift_ok.
  destruct (IsZero x); [by apply Hok; left|]. cbn [orb]. destruct (Z.leb_spec (shift_len x n) MAXSIZE); [apply Hok; by right|by apply Hthrow].
Qed.

Lemma right_zero {S} (x : BigInt) (n : Z) (s : S) : wf x -> IsZero x = true -> computes (mret x) (Z.shiftr (value x) n) s.
Proof.
  intros Hx Hz. exists x. split; [done|]. split; [done|]. unfold value. rewrite val_zero by done. destruct (GetSign x); by rewrite Z.shiftr_0_l.
Qed.

(** C26: shifting a BigInt shifts the integer in two's complement, a right shift
    by any distance and a left shift by a distance below 2^32; a left shift
    throws the range error when its digits would be too many. *)
Theorem bigint_shift_spec {S} (x y : BigInt) (s : S) :
  wf x -> wf y ->
  (0 <= value y -> computes (SignedRightShift x y) (Z.shiftr (value x) (value y)) s) /\
  (value y < 0 -> computes (LeftShift x y) (Z.shiftl (value x) (value y)) s) /\
  (0 <= value y -> GetLength y = 1 ->
     if shift_ok x (value y) then computes (LeftShift x y) (Z.shiftl (value x) (value y)) s
     else LeftShift x y s = (Throw RANGE_ERROR, s)) /\
  (value y < 0 -> GetLength y = 1 ->
     if shift_ok x (- value y) then computes (SignedRightShift x y) (Z.shiftr (value x) (value y)) s
     else SignedRightShift x y s = (Throw RANGE_ERROR, s)).
Proof.
  intros Hx Hy. pose proof (RightShiftHelper_run x y s Hx Hy) as Hr. rewrite val_abs in Hr by done. pose proof (left_run x y s Hx Hy) as Hl.
  unfold SignedRightShift, LeftShift. split_and!; intros Hv.
  - rewrite (wf_nonneg y Hy Hv). rewrite Z.abs_eq in Hr by done. destruct (IsZero x) eqn:Hz; cbn [orb]; [by apply right_zero|].
    destruct (IsZero y) eqn:Hzy; [|done]. exists x. split; [done|]. split; [done|]. pose proof (val_abs y Hy) as Ha. rewrite val_zero in Ha by done.
    replace (value y) with 0 by lia. by rewrite Z.shiftr_0_r.
  - rewrite (wf_neg y Hy Hv). rewrite Z.abs_neq in Hr by lia. by rewrite Z.shiftr_opp_r in Hr.
  - intros Hone. rewrite (wf_nonneg y Hy Hv). specialize (Hl Hone). by rewrite Z.abs_eq in Hl.
  - intros Hone. rewrite (wf_neg y Hy Hv). specialize (Hl Hone). rewrite Z.abs_neq in Hl by lia. rewrite Z.shiftl_opp_r in Hl.
    assert (IsZero y = false) as -> by (by apply neg_nonzero, wf_neg). destruct (IsZero x) eqn:Hz; cbn [orb].
    + unfold shift_ok. rewrite Hz. by apply right_zero.
    + done.
Qed.

(** -5 >> 1 is -3, 1 << 33, and the left shift by 2^32, which has two digits:
    only the low one is read. *)
Example minus_five_shifted : SignedRightShift (mkBigInt true [5]) (mkBigInt false [1]) tt = (Ok (mkBigInt true [3]), tt).
Proof. reflexivity. Qed.

Example one_shifted : LeftShift (mkBigInt false [1]) (mkBigInt false [33]) tt = (Ok (mkBigInt false [0; 2]), tt).
Proof. reflexivity. Qed.

Example left_shift_far : LeftShift (mkBigInt false [1]) (mkBigInt false [0; 1]) tt = (Ok (mkBigInt false [1]), tt).
Proof. reflexivity. Qed.

Lemma bigint_shift_spec_witness :
  computes (SignedRightShift minus_2_32 five) (-134217728) tt /\ computes (LeftShift ones64 five) (32 * (2 ^ 64 - 1)) tt.
Proof.
  split.
  - refine (proj1 (bigint_shift_spec minus_2_32 five tt _ _) _); [by apply wfb_wf..|done].
  - refine (proj1 (proj2 (proj2 (bigint_shift_spec ones64 five tt _ _))) _ eq_refl); [by apply wfb_wf..|done].
Defined.

(** ** Shifting an object into itself *)

Lemma self_digits_loop (ds done_ : list Z) (sg : bool) :
  for_up (length ds) (lenZ done_) (fun i => d ← own_digit i; SetDigit (i - 0) d) (mkBigInt sg (done_ ++ ds))
  = (Ok tt, mkBigInt sg (done_ ++ ds)).
Proof.
  revert done_. induction ds as [|d ds IH]; intros dn; [done|]. simpl length.
  rewrite (for_up_cons _ _ _ _ (mkBigInt sg (dn ++ d :: ds))).
  - replace (lenZ dn + 1) with (lenZ (dn ++ [d])) by lenz. specialize (IH (dn ++ [d])). by rewrite <- app_assoc in IH.
  - mstep by (apply (GetDigit_run _ _ d); [apply lenZ_nonneg|]; simpl; apply list_lookup_middle; unfold lenZ; lia).
    rewrite Z.sub_0_r. by apply SetDigit_run.
Qed.

Lemma self_bits_loop (t : list Z) (d0 b : Z) (sg : bool) :
  0 < b < 32 -> lenZ t + 1 < 2 ^ 32 ->
  let '(out, c) := carry_map (shift_digit (DATEBITS - b)) t (Z.shiftr d0 b) in
  RightShift_from own_digit (lenZ t + 1) 0 b (mkBigInt sg (d0 :: t)) = (Ok tt, mkBigInt sg (out ++ [c])).
Proof.
  intros Hb Hl. pose proof (lenZ_nonneg t). destruct (split_len (d0 :: t) (lenZ t)) as (old & last & E & Hold); [rewrite lenZ_cons; lia|].
  assert (exists e, last = [e]) as [e ->].
  { destruct last as [|e [|]]; [|by eauto|]; apply (f_equal lenZ) in E; rewrite lenZ_app in E; lenz. }
  pose proof (fold_up_digits (shift_digit (DATEBITS - b)) (right_round own_digit 0 b) t 0 (Z.shiftr d0 b) sg [] old [e]) as Hloop.
  pose proof (carry_map_length (shift_digit (DATEBITS - b)) t (Z.shiftr d0 b)) as Hlen.
  destruct (carry_map (shift_digit (DATEBITS - b)) t (Z.shiftr d0 b)) as [out c]. cbn [fst snd app] in *.
  unfold RightShift_from. zb. mstep. replace (lenZ t + 1 - 0 - 1) with (lenZ t) by lia. rewrite u32_small by lia. unfold fold_range.
  replace (Z.to_nat (lenZ t - 0)) with (length t) by (unfold lenZ; lia). rewrite E.
  rewrite (bind_Ok _ _ _ (mkBigInt sg (out ++ [e])) c).
  { apply SetDigit_run. unfold lenZ. lia. }
  apply Hloop; [unfold lenZ in Hold; lia|]. intros k v c' dn Hk Hdn. pose proof (lookup_lt_Some _ _ _ Hk). unfold right_round.
  rewrite u32_small by (unfold lenZ in *; lia).
  mstep by (apply (GetDigit_run _ _ v); [lia|]; simpl GetData; rewrite lookup_app_r by lia;
    rewrite <- (drop_app_le old [e] k), <- E by (unfold lenZ in Hold; lia); rewrite lookup_drop;
    replace (k + (Z.to_nat (0 + Z.of_nat k + 0 + 1) - length dn))%nat with (Datatypes.S k) by lia; exact Hk).
  unfold shift_digit. cbn [fst snd]. by replace (DATEBITS - (DATEBITS - b)) with b by lia.
Qed.

Lemma UnformattedRightShift_run (ds : list Z) (b : Z) (sg : bool) :
  Forall digit ds -> 0 < lenZ ds < 2 ^ 32 -> 0 <= b < 32 ->
  exists out, UnformattedRightShift b (mkBigInt sg ds) = (Ok tt, mkBigInt sg out) /\ Forall digit out /\ lenZ out = lenZ ds /\
    val out = val ds / 2 ^ b.
Proof.
  intros Hd Hl Hb. unfold UnformattedRightShift. destruct (Z.eq_dec b 0) as [->|Hb0].
  - exists ds. split_and!; [|done|done|by rewrite Z.pow_0_r, Z.div_1_r]. mstep. unfold RightShift_from, for_range, GetLength. cbn [GetData Z.eqb].
    replace (Z.to_nat (lenZ ds - 0)) with (length ds) by (unfold lenZ; lia). apply (self_digits_loop ds [] sg).
  - destruct ds as [|d0 t]; [lenz|]. apply Forall_cons_1 in Hd as [Hd0 Ht]. rewrite lenZ_cons in Hl.
    pose proof (self_bits_loop t d0 b sg ltac:(lia) ltac:(lia)) as Hloop. pose proof (bits_val t d0 b Hd0 Ht ltac:(lia)) as Hv.
    destruct (carry_map (shift_digit (DATEBITS - b)) t (Z.shiftr d0 b)) as [out c]. destruct Hv as (Ho & Hlo & Hv).
    exists (out ++ [c]). mstep. unfold GetLength. simpl GetData. rewrite lenZ_cons. split_and!; [exact Hloop|done| |done].
    rewrite lenZ_app, lenZ_cons, lenZ_nil. rewrite length_app in Hlo. simpl in Hlo. unfold lenZ. lia.
Qed.

End BigIntShift.
