(* ===== verification/BigIntMul.v ===== *)
(** * BigInt multiplication and powers: js_bigint.cpp.

    Multiply is the schoolbook method: each digit of [x] adds a row to the
    result, the product of two digits being put together from the products of
    their halves.  The theorems say that it multiplies, that its carry loop
    ends, and that Exponentiate computes powers or throws. *)
From S2P Require Import Prelude TaggedValue BigInt.
Local Open Scope Z_scope.

Module BigIntMul.
Import BigInt.

Definition HALFDATEBITS : Z := DATEBITS / 2.
Definition HALFUINT32VALUE : Z := 2 ^ 16.
Definition HALFDATEMASK : Z := HALFUINT32VALUE - 1.

(** The high and the low digit of a product. *)
Definition Mul (x y : Z) : Z * Z :=
  let lowBitX := Z.land x HALFDATEMASK in
  let highBitX := Z.shiftr x HALFDATEBITS in
  let lowBitY := Z.land y HALFDATEMASK in
  let highBitY := Z.shiftr y HALFDATEBITS in
  let lowRes := u32 (lowBitX * lowBitY) in
  let highRes := u32 (highBitX * highBitY) in
  let midRes1 := u32 (lowBitX * highBitY) in
  let midRes2 := u32 (highBitX * lowBitY) in
  let '(low, carry) := AddHelper lowRes (u32 (Z.shiftl midRes1 HALFDATEBITS)) 0 in
  let '(low, carry) := AddHelper low (u32 (Z.shiftl midRes2 HALFDATEBITS)) carry in
  let high := u32 (Z.shiftr midRes1 HALFDATEBITS + Z.shiftr midRes2 HALFDATEBITS + highRes + carry) in
  (high, low).

(** A round of the inner loop of Multiply; the loop variables are carry and high. *)
Definition mul_round (xVal i : Z) (y : BigInt) (j : Z) (vars : Z * Z) : M BigInt (Z * Z) :=
  let '(carry, high) := vars in
  let index := u32 (i + j) in
  value ← own_digit index;
  let '(value, currentCarry) := AddHelper value high 0 in
  let '(value, currentCarry) := AddHelper value carry currentCarry in
  dy ← GetDigit y j;
  let '(high, low) := Mul xVal dy in
  let '(value, currentCarry) := AddHelper value low currentCarry in
  SetDigit index value;;
  mret (currentCarry, high).

(** A round of the while loop; the loop variables are carry, high and index. *)
Definition mul_carry_step (vars : Z * Z * Z) : M BigInt (Z * Z * Z + unit) :=
  let '(carry, high, index) := vars in
  if negb (carry =? 0) || negb (high =? 0) then
    len ← gets GetLength;
    ASSERT (index <? len);;
    value ← own_digit index;
    let '(value, currentCarry) := AddHelper value high 0 in
    let '(value, currentCarry) := AddHelper value carry currentCarry in
    SetDigit index value;;
    mret (inl (currentCarry, 0, u32 (index + 1)))
  else mret (inr tt).

(** The body of the outer loop. *)
Definition mul_row (x y : BigInt) (i : Z) : M BigInt unit :=
  xVal ← GetDigit x i;
  if xVal =? 0 then mret tt
  else
    vars ← fold_range 0 (GetLength y) (mul_round xVal i y) (0, 0);
    let '(carry, high) := vars in
    len ← gets GetLength;
    while_fuel (Datatypes.S (Z.to_nat len)) mul_carry_step (carry, high, u32 (i + GetLength y)).

Section ops.
Context {S : Type}.

Definition Multiply (x y : BigInt) : M S BigInt :=
  if IsZero x then mret x
  else if IsZero y then mret y
  else
    let needLength := u32 (GetLength x + GetLength y) in
    bigint ← CreateBigint needLength;
    bigint ← build bigint (
      for_range 0 (GetLength x) (mul_row x y);;
      SetSign (xorb (GetSign x) (GetSign y)));
    RightTruncate bigint.

(** A round of the loop of Exponentiate; the loop variables are temp, result
    (None while it is Null) and expValue. *)
Definition power_step (vars : BigInt * option BigInt * Z) : M S (BigInt * option BigInt * Z + option BigInt) :=
  let '(temp, result, expValue) := vars in
  if expValue =? 0 then mret (inr result)
  else
    temp ← Multiply temp temp;
    result ← (if negb (Z.land expValue 1 =? 0) then
                match result with
                | None => mret (Some temp)
                | Some r => r' ← Multiply r temp; mret (Some r')
                end
              else mret result);
    mret (inl (temp, result, Z.shiftr expValue 1)).

Definition Exponentiate (base exponent : BigInt) : M S BigInt :=
  if GetSign exponent then throw RANGE_ERROR
  else
    ASSERT (0 <? GetLength exponent);;
    if IsZero exponent then Int32ToBigInt 1
    else if IsZero base then mret base
    else
      expValue ← GetDigit exponent 0;
      base0 ← GetDigit base 0;
      if (GetLength base =? 1) && (base0 =? 1) then
        if GetSign base && (Z.land expValue 1 =? 0) then UnaryMinus base else mret base
      else if 1 <? GetLength exponent then throw RANGE_ERROR
      else if (GetLength base =? 1) && (base0 =? 2) then
        let needLength := u32 (expValue / DATEBITS + 1) in
        bigint ← CreateBigint needLength;
        build bigint (
          SetDigit (u32 (needLength - 1)) (u32 (Z.shiftl 1 (expValue mod DATEBITS)));;
          if GetSign base then SetSign (negb (Z.land expValue 1 =? 0)) else mret tt)
      else
        let result := if negb (Z.land expValue 1 =? 0) then Some base else None in
        r ← while_fuel 32 power_step (base, result, Z.shiftr expValue 1);
        match r with Some result => mret result | None => fault end.
End ops.

(** ** The product of two digits *)

Lemma split_half (x : Z) : digit x -> Z.land x HALFDATEMASK = x mod 2 ^ 16 /\ Z.shiftr x HALFDATEBITS = x / 2 ^ 16.
Proof.
  intros Hx. split; [apply (Z.land_ones x 16); lia|]. change HALFDATEBITS with 16. apply Z.shiftr_div_pow2. lia.
Qed.

Lemma shl_split (b : Z) : u32 (b * 2 ^ 16) + 2 ^ 32 * (b / 2 ^ 16) = b * 2 ^ 16.
Proof. unfold u32. zlia. Qed.

Lemma digit_u32 (v : Z) : digit (u32 v).
Proof. apply Z.mod_pos_bound. lia. Qed.

Lemma half_bounds (x : Z) : digit x -> 0 <= x mod 2 ^ 16 < 2 ^ 16 /\ 0 <= x / 2 ^ 16 < 2 ^ 16.
Proof. unfold digit. zlia. Qed.

Lemma half_product (a b : Z) : 0 <= a < 2 ^ 16 -> 0 <= b < 2 ^ 16 -> 0 <= a * b < 2 ^ 32.
Proof. nia. Qed.

Lemma digit_product (x y : Z) : digit x -> digit y -> 0 <= x * y <= (2 ^ 32 - 1) * (2 ^ 32 - 1).
Proof. unfold digit. intros Hx Hy. split; [lia|]. apply Z.mul_le_mono_nonneg; lia. Qed.

(** The full 64-bit product of two digits. *)
Lemma Mul_spec (x y : Z) :
  digit x -> digit y -> exists high low, Mul x y = (high, low) /\ digit high /\ digit low /\ 2 ^ 32 * high + low = x * y.
Proof.
  intros Hx Hy. destruct (split_half x Hx) as [Xl Xh]. destruct (split_half y Hy) as [Yl Yh].
  destruct (half_bounds x Hx) as [Bxl Bxh]. destruct (half_bounds y Hy) as [Byl Byh]. pose proof (digit_product x y Hx Hy) as Bxy.
  assert (x * y = x mod 2 ^ 16 * (y mod 2 ^ 16) + 2 ^ 16 * (x mod 2 ^ 16 * (y / 2 ^ 16)) + 2 ^ 16 * (x / 2 ^ 16 * (y mod 2 ^ 16)) +
                  2 ^ 32 * (x / 2 ^ 16 * (y / 2 ^ 16))) as Hxy.
  { rewrite (Z.div_mod x (2 ^ 16)) at 1 by lia. rewrite (Z.div_mod y (2 ^ 16)) at 1 by lia. change (2 ^ 32) with (2 ^ 16 * 2 ^ 16). ring. }
  unfold Mul. rewrite Xl, Xh, Yl, Yh. pose proof (half_product _ _ Bxl Byl). pose proof (half_product _ _ Bxl Byh).
  pose proof (half_product _ _ Bxh Byl). pose proof (half_product _ _ Bxh Byh). rewrite !(u32_small (_ mod _ * _)), !(u32_small (_ / _ * _)) by done.
  set (a := x mod 2 ^ 16 * (y mod 2 ^ 16)) in *. set (b := x mod 2 ^ 16 * (y / 2 ^ 16)) in *.
  set (c := x / 2 ^ 16 * (y mod 2 ^ 16)) in *. set (d := x / 2 ^ 16 * (y / 2 ^ 16)) in *. clearbody a b c d.
  change HALFDATEBITS with 16. rewrite !Z.shiftl_mul_pow2, !Z.shiftr_div_pow2 by lia.
  destruct (AddHelper_spec a (u32 (b * 2 ^ 16)) 0) as (l1 & c1 & -> & Hl1 & Hc1 & E1); [done|apply digit_u32|].
  destruct (AddHelper_spec l1 (u32 (c * 2 ^ 16)) (0 + c1)) as (l2 & c2 & -> & Hl2 & Hc2 & E2); [done|apply digit_u32|].
  pose proof (shl_split b) as Sb. pose proof (shl_split c) as Sc. pose proof (Z.div_pos b (2 ^ 16) ltac:(lia) ltac:(lia)).
  pose proof (Z.div_pos c (2 ^ 16) ltac:(lia) ltac:(lia)). set (bm := u32 (b * 2 ^ 16)) in *. set (cm := u32 (c * 2 ^ 16)) in *.
  set (bh := b / 2 ^ 16) in *. set (ch := c / 2 ^ 16) in *. clearbody bm cm bh ch. unfold digit in *.
  rewrite u32_small by lia. eexists _, _. split; [done|]. lia.
Qed.

(** ** Rows of the product *)

Definition mul_digit (xVal : Z) (p : Z * Z) (vars : Z * Z) : Z * (Z * Z) :=
  let '(value, currentCarry) := AddHelper p.1 vars.2 0 in
  let '(value, currentCarry) := AddHelper value vars.1 currentCarry in
  let '(high, low) := Mul xVal p.2 in
  let '(value, currentCarry) := AddHelper value low currentCarry in
  (value, (currentCarry, high)).

Definition carries (vars : Z * Z) : Prop := 0 <= vars.1 /\ 0 <= vars.2 /\ vars.1 + vars.2 < 2 ^ 32.

Lemma mul_digit_step (xVal : Z) (p vars : Z * Z) :
  digit xVal -> digit p.1 /\ digit p.2 -> carries vars ->
  digit (mul_digit xVal p vars).1 /\ carries (mul_digit xVal p vars).2 /\
  (mul_digit xVal p vars).1 + 2 ^ 32 * ((mul_digit xVal p vars).2.1 + (mul_digit xVal p vars).2.2)
  = p.1 + xVal * p.2 + (vars.1 + vars.2).
Proof.
  intros Hx [H1 H2] (Hc & Hh & Hs). unfold mul_digit. destruct p as [v d], vars as [c h]. cbn [fst snd] in *.
  destruct (AddHelper_spec v h 0) as (a1 & b1 & -> & Ha1 & Hb1 & E1); [done|unfold digit; lia|].
  destruct (AddHelper_spec a1 c (0 + b1)) as (a2 & b2 & -> & Ha2 & Hb2 & E2); [done|unfold digit; lia|].
  destruct (Mul_spec xVal d Hx H2) as (hi & lo & -> & Hhi & Hlo & E).
  destruct (AddHelper_spec a2 lo (0 + b1 + b2)) as (a3 & b3 & -> & Ha3 & Hb3 & E3); [done|done|].
  unfold carries. cbn [fst snd]. pose proof (digit_product xVal d Hx H2). set (P := xVal * d) in *. clearbody P. unfold digit in *. lia.
Qed.

Lemma own_digit_run (sg : bool) (pre post : list Z) (i d : Z) :
  lenZ pre = i -> own_digit i (mkBigInt sg (pre ++ d :: post)) = (Ok d, mkBigInt sg (pre ++ d :: post)).
Proof.
  intros <-. unfold own_digit. apply GetDigit_run; [apply lenZ_nonneg|]. simpl. apply list_lookup_middle. unfold lenZ. lia.
Qed.

(** The inner loop. *)
Lemma mul_round_loop (xVal : Z) (y : BigInt) (pre old post : list Z) (sg : bool) :
  length old = length (GetData y) -> lenZ pre + GetLength y < 2 ^ 32 ->
  fold_range 0 (GetLength y) (mul_round xVal (lenZ pre) y) (0, 0) (mkBigInt sg (pre ++ old ++ post))
  = (Ok (carry_map (mul_digit xVal) (zip old (GetData y)) (0, 0)).2,
     mkBigInt sg (pre ++ (carry_map (mul_digit xVal) (zip old (GetData y)) (0, 0)).1 ++ post)).
Proof.
  intros Ho Hl. unfold fold_range, GetLength in *. pose proof (lenZ_nonneg pre).
  replace (Z.to_nat (lenZ (GetData y) - 0)) with (length (zip old (GetData y))) by (rewrite zip_length_eq by done; unfold lenZ; lia).
  apply (fold_up_digits (mul_digit xVal) (mul_round xVal (lenZ pre) y)); [by rewrite zip_length_eq|].
  intros k p c dn Hk Hdn. apply lookup_zip_Some in Hk as [Hk1 Hk2]. pose proof (lookup_lt_Some _ _ _ Hk2).
  unfold mul_round. destruct c as [c h]. rewrite u32_small by (unfold lenZ in *; lia). rewrite (Z.add_0_l (Z.of_nat k)).
  assert (drop k old = p.1 :: drop (Datatypes.S k) old) as Ed by (by apply drop_S). rewrite Ed. simpl app. rewrite app_assoc.
  mstep by (apply own_digit_run; rewrite lenZ_app; unfold lenZ; lia).
  unfold mul_digit. cbn [fst snd]. destruct (AddHelper p.1 h 0) as [v1 c1]. destruct (AddHelper v1 c c1) as [v2 c2].
  mstep by (apply (GetDigit_run _ _ p.2); [lia|by rewrite Nat2Z.id]).
  destruct (Mul xVal p.2) as [hi lo]. by destruct (AddHelper v2 lo c2).
Qed.

(** The while loop: what is left over fits the next digit, which is still 0. *)
Lemma mul_carry_loop (pre post : list Z) (carry high : Z) (sg : bool) (fuel : nat) :
  carries (carry, high) -> lenZ pre < 2 ^ 32 - 1 ->
  while_fuel (Datatypes.S (Datatypes.S fuel)) mul_carry_step (carry, high, lenZ pre) (mkBigInt sg (pre ++ 0 :: post))
  = (Ok tt, mkBigInt sg (pre ++ (carry + high) :: post)).
Proof.
  intros (Hc & Hh & Hs) Hl. cbn [fst snd] in *. pose proof (lenZ_nonneg pre). cbn [while_fuel].
  destruct (negb (carry =? 0) || negb (high =? 0)) eqn:E.
  - rewrite (bind_Ok _ _ _ (mkBigInt sg (pre ++ (carry + high) :: post)) (inl (0, 0, lenZ pre + 1))).
    { cbv beta iota. by rewrite (bind_Ok _ _ _ (mkBigInt sg (pre ++ (carry + high) :: post)) (inr tt)). }
    unfold mul_carry_step. cbv beta iota. rewrite E. mstep. unfold GetLength. simpl GetData. rewrite lenZ_app, lenZ_cons. pose proof (lenZ_nonneg post). zb. mstep.
    mstep by (by apply own_digit_run). unfold AddHelper. rewrite Z.add_0_l, (u32_small high), (u32_small (high + carry)), (u32_small (lenZ pre + 1)) by lia.
    rewrite (proj2 (Z.ltb_ge high 0)), (proj2 (Z.ltb_ge (high + carry) high)) by lia.
    mstep by (by apply SetDigit_run). by rewrite (Z.add_comm high).
  - apply orb_false_iff in E as [E1%negb_false_iff%Z.eqb_eq E2%negb_false_iff%Z.eqb_eq]. subst carry high.
    by rewrite (bind_Ok _ _ _ (mkBigInt sg (pre ++ 0 :: post)) (inr tt)).
Qed.

Lemma mul_row_run (x y : BigInt) (pre old post : list Z) (d : Z) (sg : bool) :
  GetData x !! length pre = Some d -> digit d -> length old = length (GetData y) -> Forall digit old -> Forall digit (GetData y) ->
  lenZ pre + GetLength y + lenZ post + 1 < 2 ^ 32 ->
  exists out top, mul_row x y (lenZ pre) (mkBigInt sg (pre ++ old ++ 0 :: post)) = (Ok tt, mkBigInt sg (pre ++ out ++ top :: post)) /\
    length out = length old /\ Forall digit out /\ digit top /\ val (out ++ [top]) = val old + d * val (GetData y).
Proof.
  intros Hd Hdig Ho Hold Hy Hl. pose proof (lenZ_nonneg pre). pose proof (lenZ_nonneg post). unfold mul_row, GetLength in *.
  mstep by (apply (GetDigit_run _ _ d); [lia|]; rewrite <- Hd; f_equal; unfold lenZ; lia).
  destruct (Z.eqb_spec d 0) as [->|Hne].
  { exists old, 0. split_and!; [done..|]. rewrite val_app, val_cons, val_nil. lia. }
  mstep by (apply (mul_round_loop d y pre old (0 :: post)); [done|unfold GetLength; lia]).
  destruct (carry_map_val (mul_digit d) (fun p => p.1 + d * p.2) (fun c => c.1 + c.2) (fun p => digit p.1 /\ digit p.2) carries
     (fun p c Hp Hc => mul_digit_step d p c Hdig Hp Hc) (zip old (GetData y)) (0, 0) (Forall_zip_digits _ _ Hold Hy) ltac:(unfold carries; simpl; lia))
    as (Hout & Hc & Hv).
  pose proof (carry_map_length (mul_digit d) (zip old (GetData y)) (0, 0)) as Hlo. rewrite zip_length_eq in Hlo by done.
  rewrite (val_zip_with (fun a b => a + d * b) d old (GetData y)) in Hv by done.
  destruct (carry_map (mul_digit d) (zip old (GetData y)) (0, 0)) as [out [c h]]. cbn [fst snd] in *.
  exists out, (c + h). mstep. unfold GetLength. simpl GetData. rewrite u32_small by (unfold lenZ in *; lia).
  replace (lenZ pre + lenZ (GetData y)) with (lenZ (pre ++ out)) by (rewrite lenZ_app; unfold lenZ; lia).
  rewrite !app_assoc. split_and!; [|done|done|unfold digit, carries in *; simpl in Hc; lia|].
  - replace (Z.to_nat (lenZ ((pre ++ out) ++ 0 :: post))) with (Datatypes.S (length (pre ++ out) + length post)) by lenz.
    apply mul_carry_loop; [done|]. rewrite lenZ_app. unfold lenZ in *. lia.
  - rewrite val_app, val_cons, val_nil. unfold lenZ in *. rewrite zip_length_eq in Hv by done. rewrite Hlo. lia.
Qed.

(** ** The product *)

Lemma mul_rows (x y : BigInt) (b a ds : list Z) (sg : bool) :
  GetData x = a ++ b -> Forall digit b -> Forall digit (GetData y) -> Forall digit ds ->
  length ds = (length a + length (GetData y))%nat -> GetLength x + GetLength y + 1 < 2 ^ 32 ->
  exists ds', for_up (length b) (lenZ a) (mul_row x y) (mkBigInt sg (ds ++ replicate (length b) 0)) = (Ok tt, mkBigInt sg ds') /\
    Forall digit ds' /\ lenZ ds' = GetLength x + GetLength y /\ val ds' = val ds + 2 ^ (32 * lenZ a) * val b * val (GetData y).
Proof.
  revert a ds. induction b as [|d b IH]; intros a ds Hx Hb Hy Hds Hlen Hl.
  - exists ds. rewrite app_nil_r in *. split_and!; [done|done| |rewrite val_nil; lia]. unfold GetLength, lenZ. rewrite Hx. lia.
  - apply Forall_cons_1 in Hb as [Hd Hb].
    destruct (split_len ds (lenZ a)) as (pre & old & -> & Hpre); [unfold lenZ; lia|]. apply Forall_app in Hds as [Hdp Hdo].
    rewrite length_app in Hlen. assert (length pre = length a) as Hpa by (unfold lenZ in Hpre; lia).
    destruct (mul_row_run x y pre old (replicate (length b) 0) d sg) as (out & top & Hrow & Hlo & Hout & Htop & Hv);
      [rewrite Hx, Hpa; by apply list_lookup_middle|done|lia|done|done| |].
    { rewrite lenZ_replicate. unfold GetLength in *. rewrite Hx, lenZ_app, lenZ_cons in Hl. unfold lenZ in *. lia. }
    simpl length. simpl replicate. rewrite <- !app_assoc. rewrite (for_up_cons _ _ _ _ _ (eq_trans (f_equal (fun i => mul_row x y i _) (eq_sym Hpre)) Hrow)).
    destruct (IH (a ++ [d]) (pre ++ out ++ [top])) as (ds' & Hrun & Hds' & Hlen' & Hval); [by rewrite <- app_assoc|done|done| | |done|].
    { repeat (apply Forall_app; split; [done|]). by apply Forall_singleton. }
    { rewrite !length_app. simpl. lia. }
    exists ds'. rewrite <- !app_assoc in Hrun. replace (lenZ (a ++ [d])) with (lenZ a + 1) in Hrun by lenz.
    split_and!; [exact Hrun|done|done|]. rewrite Hval, (val_app pre), Hv, (val_app pre), val_cons, lenZ_app, lenZ_cons, lenZ_nil.
    replace (lenZ pre) with (lenZ a) by done. replace (32 * (lenZ a + (0 + 1))) with (32 * (lenZ a + 1)) by lia.
    rewrite pow32_succ by apply lenZ_nonneg. lia.
Qed.

Lemma value_mul (x y : BigInt) :
  (if xorb (GetSign x) (GetSign y) then - (val (GetData x) * val (GetData y)) else val (GetData x) * val (GetData y)) = value x * value y.
Proof. unfold value. destruct (GetSign x), (GetSign y); simpl; lia. Qed.

Lemma zero_value (x : BigInt) : IsZero x = true -> value x = 0.
Proof. intros Hz. unfold value. rewrite val_zero by done. by destruct (GetSign x). Qed.

(** Whether the digits of the product can be allocated. *)
Definition product_ok (x y : BigInt) : bool := IsZero x || IsZero y || (GetLength x + GetLength y <=? MAXSIZE).

Lemma Multiply_run {S} (x y : BigInt) (s : S) :
  wf x -> wf y ->
  if product_ok x y then computes (Multiply x y) (value x * value y) s else Multiply x y s = (Throw RANGE_ERROR, s).
Proof.
  intros Hx Hy. pose proof MAXSIZE_eq. pose proof (wf_length x Hx) as Lx. pose proof (wf_length y Hy) as Ly. unfold Multiply, product_ok.
  destruct (IsZero x) eqn:Zx; cbn [orb].
  { exists x. split; [done|]. split; [done|]. by rewrite (zero_value x). }
  destruct (IsZero y) eqn:Zy; cbn [orb].
  { exists y. split; [done|]. split; [done|]. rewrite (zero_value y) by done. lia. }
  cbv zeta. rewrite u32_small by lia. destruct (Z.leb_spec (GetLength x + GetLength y) MAXSIZE) as [Hm|Hm].
  - destruct (mul_rows x y (GetData x) [] (replicate (length (GetData y)) 0) false) as (ds & Hrun & Hds & Hlen & Hv);
      [done|apply Hx|apply Hy|by apply Forall_replicate|by rewrite length_replicate|lia|].
    cstep by (apply CreateBigint_run; lia).
    cstep by (apply (build_run _ (mkBigInt (xorb (GetSign x) (GetSign y)) ds))).
    { replace (Z.to_nat (GetLength x + GetLength y)) with (length (GetData y) + length (GetData x))%nat by (unfold GetLength, lenZ; lia).
      rewrite replicate_split. unfold for_range. replace (Z.to_nat (GetLength x - 0)) with (length (GetData x)) by (unfold GetLength, lenZ; lia).
      mstep with Hrun. done. }
    rewrite <- value_mul. rewrite val_replicate in Hv. change (2 ^ (32 * lenZ [])) with 1 in Hv.
    replace (val (GetData x) * val (GetData y)) with (val ds) by lia.
    apply (RightTruncate_run (mkBigInt (xorb (GetSign x) (GetSign y)) ds)); [done|]. unfold GetLength at 1 2. simpl. lia.
  - by apply bind_Throw, CreateBigint_throw.
Qed.

(** C18: multiplying BigInts multiplies the integers; a product that may need
    more digits than are allowed throws the range error. *)
Theorem bigint_Multiply_spec {S} (x y : BigInt) (s : S) :
  wf x -> wf y ->
  if product_ok x y then computes (Multiply x y) (value x * value y) s else Multiply x y s = (Throw RANGE_ERROR, s).
Proof. apply Multiply_run. Qed.

Lemma bigint_Multiply_spec_witness :
  computes (Multiply ones64 minus_2_32) (- (2 ^ 32 * (2 ^ 64 - 1))) tt.
Proof. exact (bigint_Multiply_spec ones64 minus_2_32 tt ltac:(by apply wfb_wf) ltac:(by apply wfb_wf)). Defined.

(** ** Powers *)

Lemma wf_length_bound (z : BigInt) (n : Z) : wf z -> 1 <= n -> Z.abs (value z) < 2 ^ (32 * n) -> GetLength z <= n.
Proof.
  intros Hz Hn Hb. rewrite <- val_abs in Hb by done. destruct (wf_top z Hz) as (p & d & E & Ht). pose proof (wf_digits z Hz) as Hd.
  unfold GetLength. rewrite E in *. apply Forall_app in Hd as [Hp [Hd _]%Forall_cons_1]. rewrite lenZ_app, lenZ_cons, lenZ_nil.
  destruct Ht as [Hne|[-> _]]; [|rewrite lenZ_nil; lia]. pose proof (val_snoc_bounds p d Hp Hd Hne).
  destruct (Z.lt_ge_cases (lenZ p) n); [lia|]. pose proof (Z.pow_le_mono_r 2 (32 * n) (32 * lenZ p) ltac:(lia) ltac:(lia)). lia.
Qed.

Lemma product_length (x y z : BigInt) :
  wf x -> wf y -> wf z -> value z = value x * value y -> GetLength z <= GetLength x + GetLength y.
Proof.
  intros Hx Hy Hz Hv. pose proof (wf_length x Hx). pose proof (wf_length y Hy). apply wf_length_bound; [done|lia|].
  rewrite Hv, Z.abs_mul, <- !val_abs by done. pose proof (val_bounds _ (wf_digits x Hx)). pose proof (val_bounds _ (wf_digits y Hy)).
  rewrite Z.mul_add_distr_l, Z.pow_add_r by lia. unfold GetLength. apply Z.mul_lt_mono_nonneg; lia.
Qed.

(** [z] is the power of [base] with exponent [n]. *)
Definition is_power (base z : BigInt) (n : Z) : Prop :=
  wf z /\ value z = value base ^ n /\ GetLength z <= GetLength base * n.

Lemma Multiply_power {S} (base x y : BigInt) (a b : Z) (s : S) :
  is_power base x a -> is_power base y b -> 0 <= a -> 0 <= b ->
  (exists z, Multiply x y s = (Ok z, s) /\ is_power base z (a + b)) \/
  (Multiply x y s = (Throw RANGE_ERROR, s) /\ MAXSIZE < GetLength base * (a + b)).
Proof.
  intros (Hx & Vx & Lx) (Hy & Vy & Ly) Ha Hb. pose proof (Multiply_run x y s Hx Hy) as Hm. destruct (product_ok x y) eqn:Hok.
  - left. destruct Hm as (z & Hz & Wz & Vz). exists z. split; [done|]. split; [done|]. split.
    + rewrite Vz, Vx, Vy. by rewrite Z.pow_add_r.
    + pose proof (product_length x y z Hx Hy Wz Vz). lia.
  - right. split; [done|]. unfold product_ok in Hok. apply orb_false_iff in Hok as [_ Hok%Z.leb_gt]. lia.
Qed.

Lemma odd_land (e : Z) : negb (Z.land e 1 =? 0) = Z.odd e.
Proof.
  change 1 with (Z.ones 1). rewrite Z.land_ones by lia. change (2 ^ 1) with 2. rewrite Zmod_odd. by destruct (Z.odd e).
Qed.

Lemma shiftr_1 (e : Z) : Z.shiftr e 1 = e / 2 /\ e = 2 * (e / 2) + (if Z.odd e then 1 else 0).
Proof. rewrite Z.shiftr_div_pow2 by lia. split; [done|]. pose proof (Zmod_odd e). zlia. Qed.

(** The state of the loop: temp and result are powers, and what is left of the
    exponent makes up for the rest. *)
Definition power_inv (base : BigInt) (n : Z) (temp : BigInt) (result : option BigInt) (e : Z) : Prop :=
  exists t r, is_power base temp t /\ 1 <= t /\ 0 <= r /\ r + 2 * e * t = n /\
    match result with None => r = 0 /\ e <> 0 | Some z => is_power base z r end.

Lemma power_step_run {S} (base temp : BigInt) (result : option BigInt) (n e : Z) (s : S) :
  power_inv base n temp result e -> 0 < e ->
  (exists temp' result', power_step (temp, result, e) s = (Ok (inl (temp', result', e / 2)), s) /\ power_inv base n temp' result' (e / 2)) \/
  (power_step (temp, result, e) s = (Throw RANGE_ERROR, s) /\ MAXSIZE < GetLength base * n).
Proof.
  intros (t & r & Ht & Ht1 & Hr & Hn & Hres) He. assert (0 <= GetLength base) by (unfold GetLength; apply lenZ_nonneg).
  unfold power_step. cbv beta iota. zb. destruct (shiftr_1 e) as [-> Ee]. rewrite odd_land.
  destruct (Multiply_power base temp temp t t s Ht Ht ltac:(lia) ltac:(lia)) as [(temp' & Hm & Ht')|[Hm Hbig]].
  2: { right. split; [by apply bind_Throw|nia]. }
  rewrite (bind_Ok _ _ _ _ _ Hm). cbv beta. assert (0 <= e / 2) by zlia. destruct (Z.odd e) eqn:Hodd.
  - destruct result as [z|].
    + destruct (Multiply_power base z temp' r (t + t) s Hres Ht' Hr ltac:(lia)) as [(z' & Hm' & Hz')|[Hm' Hbig]].
      * left. exists temp', (Some z'). split; [by rewrite (bind_Ok _ _ _ s (Some z')) by (by mstep with Hm')|].
        exists (t + t), (r + (t + t)). split_and!; [done|lia|lia|nia|done].
      * right. split; [|nia]. apply bind_Throw. by apply bind_Throw.
    + left. exists temp', (Some temp'). split; [done|]. exists (t + t), (t + t). split_and!; [done|lia|lia|nia|done].
  - left. exists temp', result. split; [done|]. exists (t + t), r. split_and!; [done|lia|lia|nia|].
    destruct result; [done|]. lia.
Qed.

Lemma power_loop {S} (base : BigInt) (n : Z) (s : S) (fuel : nat) :
  forall temp result e, power_inv base n temp result e -> 0 <= e < 2 ^ Z.of_nat fuel ->
  (exists z, while_fuel (Datatypes.S fuel) power_step (temp, result, e) s = (Ok (Some z), s) /\ is_power base z n) \/
  (while_fuel (Datatypes.S fuel) power_step (temp, result, e) s = (Throw RANGE_ERROR, s) /\ MAXSIZE < GetLength base * n).
Proof.
  assert (forall temp result k, power_inv base n temp result 0 ->
    exists z, while_fuel (Datatypes.S k) power_step (temp, result, 0) s = (Ok (Some z), s) /\ is_power base z n) as Hend.
  { intros temp result k (t & r & _ & _ & _ & Hn & Hres). destruct result as [z|]; [|lia]. exists z. split; [done|]. by replace n with r by lia. }
  induction fuel as [|fuel IH]; intros temp result e Hinv He.
  - left. assert (e = 0) as -> by (change (2 ^ Z.of_nat 0) with 1 in He; lia). by apply Hend.
  - destruct (Z.eq_dec e 0) as [->|He0]; [left; by apply Hend|]. rewrite Nat2Z.inj_succ, Z.pow_succ_r in He by lia.
    destruct (power_step_run base temp result n e s Hinv ltac:(lia)) as [(temp' & result' & Hs & Hinv')|[Hs Hbig]].
    + destruct (IH temp' result' (e / 2) Hinv' ltac:(zlia)) as [(z & Hw & Hz)|[Hw Hbig]].
      * left. exists z. split; [|done]. remember (Datatypes.S fuel) as f. simpl. by rewrite (bind_Ok _ _ _ _ _ Hs).
      * right. split; [|done]. remember (Datatypes.S fuel) as f. simpl. by rewrite (bind_Ok _ _ _ _ _ Hs).
    + right. split; [|done]. remember (Datatypes.S fuel) as f. simpl. by apply bind_Throw.
Qed.

Lemma parity (e rest : Z) : Z.odd (e + 2 ^ 32 * rest) = Z.odd e.
Proof. rewrite Z.odd_add. replace (2 ^ 32 * rest) with (2 * (2 ^ 31 * rest)) by lia. rewrite Z.odd_mul. simpl. by destruct (Z.odd e). Qed.

(** A base of one digit [d]. *)
Lemma one_digit (x : BigInt) (d : Z) : (GetLength x =? 1) = true -> GetData x !! 0%nat = Some d -> GetData x = [d] /\ value x = if GetSign x then - d else d.
Proof.
  intros Hl%Z.eqb_eq Hd. unfold GetLength in Hl. destruct (GetData x) as [|e l] eqn:E; [done|]. simpl in Hd. injection Hd as ->.
  assert (l = []) as -> by (apply lenZ_zero; rewrite lenZ_cons in Hl; lia). split; [done|]. unfold value. rewrite E, val_cons, val_nil.
  destruct (GetSign x); lia.
Qed.

Lemma unit_power {S} (base : BigInt) (e n : Z) (s : S) :
  wf base -> value base = (if GetSign base then -1 else 1) -> 0 <= n -> Z.odd n = Z.odd e ->
  computes (if GetSign base && (Z.land e 1 =? 0) then UnaryMinus base else mret base) (value base ^ n) s.
Proof.
  intros Hb Hv Hn Hodd. pose proof (odd_land e) as Ho. rewrite Hv. destruct (GetSign base) eqn:Hs; cbn [andb].
  - destruct (Z.land e 1 =? 0); cbn [negb] in Ho.
    + assert (Z.Even n) as Hev by (apply Z.even_spec; rewrite <- Z.negb_odd, Hodd, <- Ho; done).
      change (-1) with (Z.opp 1). rewrite Z.pow_opp_even, Z.pow_1_l by done. replace 1 with (- value base) by lia. by apply UnaryMinus_run.
    + assert (Z.Odd n) as Hod by (apply Z.odd_spec; by rewrite Hodd, <- Ho). change (-1) with (Z.opp 1).
      rewrite Z.pow_opp_odd, Z.pow_1_l by done. exists base. auto.
  - rewrite Z.pow_1_l by done. exists base. auto.
Qed.

Lemma two_power {S} (base : BigInt) (e : Z) (s : S) :
  wf base -> value base = (if GetSign base then -2 else 2) -> digit e -> e / DATEBITS + 1 <= MAXSIZE ->
  computes (bigint ← CreateBigint (e / DATEBITS + 1);
        build bigint (
          SetDigit (u32 (e / DATEBITS + 1 - 1)) (u32 (Z.shiftl 1 (e mod DATEBITS)));;
          if GetSign base then SetSign (negb (Z.land e 1 =? 0)) else mret tt)) (value base ^ e) s.
Proof.
  intros Hb Hv He Hm. unfold digit, DATEBITS in *. pose proof MAXSIZE_eq. assert (0 <= e / 32) by zlia. assert (0 <= e mod 32 < 32) by zlia.
  cstep by (apply CreateBigint_run; lia). rewrite odd_land. replace (e / 32 + 1 - 1) with (e / 32) by lia. rewrite (u32_small (e / 32)) by lia.
  assert (0 < 2 ^ (e mod 32) < 2 ^ 32) by (split; [apply Z.pow_pos_nonneg; lia|apply Z.pow_lt_mono_r; lia]).
  rewrite Z.shiftl_mul_pow2, Z.mul_1_l, (u32_small (2 ^ (e mod 32))) by lia.
  set (sg := GetSign base && Z.odd e). set (ds := replicate (Z.to_nat (e / 32)) 0 ++ [2 ^ (e mod 32)]). exists (mkBigInt sg ds).
  assert (val ds = 2 ^ e) as Hds.
  { unfold ds. rewrite val_app, val_replicate, lenZ_replicate, val_cons, val_nil, Z2Nat.id, Z.mul_0_r, Z.add_0_r, Z.add_0_l by lia.
    rewrite <- Z.pow_add_r by lia. f_equal. zlia. }
  split; [|split].
  - apply build_run. replace (Z.to_nat (e / 32 + 1)) with (Z.to_nat (e / 32) + 1)%nat by lia. rewrite replicate_split.
    mstep by (apply SetDigit_run; rewrite lenZ_replicate; lia). unfold sg, ds. by destruct (GetSign base).
  - split; simpl.
    + apply Forall_app. split; [by apply Forall_replicate|]. apply Forall_singleton. unfold digit. lia.
    + exists (replicate (Z.to_nat (e / 32)) 0), (2 ^ (e mod 32)). split; [done|left; lia].
    + unfold GetLength, ds. simpl. rewrite lenZ_app, lenZ_replicate, lenZ_cons, lenZ_nil. lia.
  - unfold value. simpl. rewrite Hds. unfold value in Hv. rewrite Hv. unfold sg. destruct (GetSign base); cbn [andb]; [|done].
    change (-2) with (Z.opp 2). destruct (Z.odd e) eqn:Ho.
    + rewrite Z.pow_opp_odd by (by apply Z.odd_spec). done.
    + rewrite Z.pow_opp_even by (by apply Z.even_spec; rewrite <- Z.negb_odd, Ho). done.
Qed.

(** The computation returns a BigInt of this value, or throws the range error
    and the digits it counts are too many. *)
Definition computes_within {S} (digits : Z) (m : M S BigInt) (v : Z) (s : S) : Prop :=
  computes m v s \/ (m s = (Throw RANGE_ERROR, s) /\ MAXSIZE < digits).

Lemma within_step {S A} (digits : Z) (m : M S A) (f : A -> M S BigInt) (a : A) (v : Z) (s : S) :
  m s = (Ok a, s) -> computes_within digits (f a) v s -> computes_within digits (m ≫= f) v s.
Proof.
  intros Hm [Hc|[Ht Hd]]; [left; by apply (computes_step _ _ a)|right]. split; [|done]. by rewrite (bind_Ok _ _ _ _ _ Hm).
Qed.

Lemma squares_run {S} (base : BigInt) (e : Z) (s : S) :
  wf base -> digit e -> 0 < e ->
  computes_within (GetLength base * e) (r ← while_fuel 32 power_step (base, if negb (Z.land e 1 =? 0) then Some base else None, Z.shiftr e 1);
        match r with Some result => mret result | None => fault end) (value base ^ e) s.
Proof.
  intros Hb He Hpos. unfold digit in He. destruct (shiftr_1 e) as [-> Ee]. rewrite odd_land.
  assert (is_power base base 1) as Hp1 by (split_and!; [done|by rewrite Z.pow_1_r|lia]).
  destruct (power_loop base e s 31 base (if Z.odd e then Some base else None) (e / 2)) as [(z & Hw & Wz & Vz & _)|[Hw Hbig]].
  - exists 1, (if Z.odd e then 1 else 0). split_and!; [done|lia|by destruct (Z.odd e)|lia|]. destruct (Z.odd e); [done|lia].
  - change (2 ^ Z.of_nat 31) with (2 ^ 31). zlia.
  - left. cstep with Hw. by exists z.
  - right. split; [|done]. by apply bind_Throw.
Qed.

Lemma Exponentiate_run {S} (base exponent : BigInt) (s : S) :
  wf base -> wf exponent -> GetSign exponent = false ->
  computes_within (GetLength base * value exponent) (Exponentiate base exponent) (value base ^ value exponent) s.
Proof.
  intros Hb He Hs. pose proof MAXSIZE_eq. pose proof (wf_length base Hb) as Lb. pose proof (wf_length exponent He) as Le.
  unfold Exponentiate. rewrite Hs. zb. pose proof (wf_digits exponent He) as De. pose proof (wf_digits base Hb) as Db.
  apply (within_step _ _ _ tt); [done|]. destruct (IsZero exponent) eqn:Ze.
  { left. rewrite (zero_value exponent) by done. by apply Int32ToBigInt_run. }
  assert (0 < value exponent) as Hpos by (pose proof (val_pos exponent He Ze); unfold value; by rewrite Hs).
  destruct (IsZero base) eqn:Zb.
  { left. rewrite (zero_value base), Z.pow_0_l by done. exists base. split; [done|]. split; [done|by apply zero_value]. }
  destruct (GetData exponent) as [|e rest] eqn:Ee; [unfold GetLength in Le; rewrite Ee in Le; lenz|].
  destruct (lookup_lt_is_Some_2 (GetData base) 0) as [b0 Eb]; [unfold GetLength, lenZ in Lb; lia|].
  apply (within_step _ _ _ e); [apply GetDigit_run; [done|by rewrite Ee]|]. apply (within_step _ _ _ b0); [by apply GetDigit_run|].
  assert (value exponent = e + 2 ^ 32 * val rest) as Ve by (unfold value; rewrite Hs, Ee; apply val_cons).
  apply Forall_cons_1 in De as [De Drest]. pose proof (val_bounds rest Drest) as Brest. cbv zeta.
  destruct ((GetLength base =? 1) && (b0 =? 1)) eqn:E1.
  { apply andb_true_iff in E1 as [El ->%Z.eqb_eq]. destruct (one_digit base 1 El Eb) as [_ Vb]. left.
    apply unit_power; [done|done|lia|by rewrite Ve, parity]. }
  destruct (Z.ltb_spec 1 (GetLength exponent)) as [Hlong|Hshort].
  { right. split; [done|]. assert (2 ^ 32 <= value exponent); [|nia]. rewrite Ve. unfold digit in De. assert (val rest <> 0); [|lia].
    intros Hz. assert (value exponent < 2 ^ (32 * 1)) as Hsm by (rewrite Ve, Hz; change (32 * 1) with 32; lia).
    pose proof (wf_length_bound exponent 1 He ltac:(lia) ltac:(lia)). lia. }
  assert (rest = []) as -> by (apply lenZ_zero; unfold GetLength in Hshort; rewrite Ee, lenZ_cons in Hshort; pose proof (lenZ_nonneg rest); lia).
  rewrite val_nil, Z.mul_0_r, Z.add_0_r in Ve. rewrite Ve in *.
  destruct ((GetLength base =? 1) && (b0 =? 2)) eqn:E2.
  - apply andb_true_iff in E2 as [El ->%Z.eqb_eq]. destruct (one_digit base 2 El Eb) as [_ Vb]. unfold digit in De.
    rewrite (u32_small (e / DATEBITS + 1)) by (unfold DATEBITS; zlia). destruct (Z.le_gt_cases (e / DATEBITS + 1) MAXSIZE).
    + left. by apply two_power.
    + right. split; [by apply bind_Throw, CreateBigint_throw|]. unfold DATEBITS in *. apply Z.eqb_eq in El. rewrite El. zlia.
  - by apply squares_run.
Qed.

(** Exponentiate computes the power, or throws the range error because the
    exponent is negative or the power may need too many digits; its loop always
    ends. *)
Theorem bigint_Exponentiate_spec {S} (base exponent : BigInt) (s : S) :
  wf base -> wf exponent ->
  if GetSign exponent then Exponentiate base exponent s = (Throw RANGE_ERROR, s)
  else computes_within (GetLength base * value exponent) (Exponentiate base exponent) (value base ^ value exponent) s.
Proof. intros Hb He. destruct (GetSign exponent) eqn:Hs; [|by apply Exponentiate_run]. unfold Exponentiate. by rewrite Hs. Qed.

Example three_to_the_40 : Exponentiate (mkBigInt false [3]) (mkBigInt false [40]) tt = (Ok (mkBigInt false [689956897; 2830677074]), tt).
Proof. vm_compute. reflexivity. Qed.

Lemma bigint_Exponentiate_spec_witness : computes (Exponentiate minus_three five) (-243) tt.
Proof.
  destruct (bigint_Exponentiate_spec minus_three five tt ltac:(by apply wfb_wf) ltac:(by apply wfb_wf)) as [H|[_ H]]; [exact H|].
  exfalso. revert H. vm_compute. discriminate.
Defined.

End BigIntMul.
