(* ===== verification/BigIntDiv.v ===== *)
(** * BigInt division: js_bigint.cpp.

    Division by a number of several digits is Knuth's algorithm D: the operands
    are shifted so that the top bit of the divisor is set, each digit of the
    quotient is estimated from the top digits, corrected by the next digit, and
    once more when the subtraction of the multiple goes below zero.  The
    theorems say that Divide and Remainder compute the truncated quotient and
    the remainder with the sign of the dividend, and that the correction loops
    end. *)
From S2P Require Import Prelude TaggedValue BigInt BigIntShift BigIntMul.
Local Open Scope Z_scope.

Module BigIntDiv.
Import BigInt BigIntShift BigIntMul.

(** base::CountLeadingZeros at 32 bits. *)
Definition CountLeadingZeros (value : Z) : Z := if value =? 0 then 32 else 31 - Z.log2 value.

(** [for (i = ...; ; --i)] with loop variables. *)
Fixpoint fold_down {S X} (n : nat) (i : Z) (body : Z -> X -> M S X) (x : X) : M S X :=
  match n with
  | O => mret x
  | Datatypes.S n' => x' ← body i x; fold_down n' (i - 1) body x'
  end.

(** Run a computation on an object; what it returns, and the object after it. *)
Definition on {S T A} (obj : T) (m : M T A) : M S (A * T) := fun s =>
  match m obj with
  | (Ok a, t) => (Ok (a, t), s)
  | (Throw e, _) => (Throw e, s)
  | (Fault, _) => (Fault, s)
  | (OutOfFuel, _) => (OutOfFuel, s)
  end.

Section ops.
Context {S : Type}.

(** *** Two digits by one digit *)

(** A round of either correction loop of DivideAndRemainder; the loop variables
    are the half of the quotient and tempRemainder. *)
Definition half_step (highDivisor lowDivisor lowDividend : Z) (vars : Z * Z) : M S (Z * Z + Z) :=
  let '(quotient, tempRemainder) := vars in
  if (HALFUINT32VALUE <=? quotient) ||
     (u32 (u32 (tempRemainder * HALFUINT32VALUE) + lowDividend) <? u32 (quotient * lowDivisor)) then
    let quotient := u32 (quotient - 1) in
    let tempRemainder := u32 (tempRemainder + highDivisor) in
    mret (if HALFUINT32VALUE <=? tempRemainder then inr quotient else inl (quotient, tempRemainder))
  else mret (inr quotient).

(** Half of the quotient, estimated from the high half of the divisor and corrected. *)
Definition half_quotient (dividend highDivisor lowDivisor lowDividend : Z) : M S Z :=
  let quotient := dividend / highDivisor in
  let tempRemainder := u32 (dividend - u32 (quotient * highDivisor)) in
  while_fuel 2 (half_step highDivisor lowDivisor lowDividend) (quotient, tempRemainder).

(** The quotient and the remainder. *)
Definition DivideAndRemainder (highBit lowBit divisor : Z) : M S (Z * Z) :=
  let leadingZeros := CountLeadingZeros divisor in
  let divisor := u32 (Z.shiftl divisor leadingZeros) in
  let lowDividend := u32 (Z.shiftl lowBit leadingZeros) in
  let highDividend := if negb (leadingZeros =? 0)
    then Z.lor (u32 (Z.shiftl highBit leadingZeros)) (Z.shiftr lowBit (DATEBITS - leadingZeros))
    else highBit in
  let highDivisor := Z.shiftr divisor HALFDATEBITS in
  let lowDivisor := Z.land divisor HALFDATEMASK in
  let lowDividend1 := Z.shiftr lowDividend HALFDATEBITS in
  let lowDividend2 := Z.land lowDividend HALFDATEMASK in
  highQuotient ← half_quotient highDividend highDivisor lowDivisor lowDividend1;
  let tempLowDividend := u32 (highDividend * HALFUINT32VALUE + lowDividend1 - highQuotient * divisor) in
  lowQuotient ← half_quotient tempLowDividend highDivisor lowDivisor lowDividend2;
  let remainder := Z.shiftr (u32 (tempLowDividend * HALFUINT32VALUE + lowDividend2 - lowQuotient * divisor)) leadingZeros in
  mret (u32 (highQuotient * HALFUINT32VALUE + lowQuotient), remainder).

(** *** Steps of algorithm D *)

Definition format_round (bigint : BigInt) (shift index carry : Z) : M BigInt Z :=
  value ← GetDigit bigint index;
  SetDigit index (Z.lor (u32 (Z.shiftl value shift)) carry);;
  mret (Z.shiftr value (DATEBITS - shift)).

Definition FormatLeftShift (shift : Z) (bigint : BigInt) (neeedAddOne : bool) : M S BigInt :=
  if negb neeedAddOne && (shift =? 0) then mret bigint
  else
    let len := GetLength bigint in
    let needLen := if neeedAddOne then u32 (len + 1) else len in
    result ← CreateBigint needLen;
    if shift =? 0 then
      mret (mkBigInt (GetSign result) (GetData bigint ++ drop (length (GetData bigint)) (GetData result)))
    else
      build result (
        carry ← fold_range 0 len (format_round bigint shift) 0;
        if negb (carry =? 0) then ASSERT neeedAddOne;; SetDigit len carry else mret tt).

(** A round of the multiplication; the loop variables are lastCarry and lastHigh. *)
Definition special_mul_round (v : BigInt) (q i : Z) (vars : Z * Z) : M BigInt (Z * Z) :=
  let '(lastCarry, lastHigh) := vars in
  value ← GetDigit v i;
  let '(high, value) := Mul value q in
  let '(value, carry) := AddHelper value lastHigh 0 in
  let '(value, carry) := AddHelper value lastCarry carry in
  SetDigit i value;;
  mret (carry, high).

Definition special_sub_round (qv : BigInt) (pos i lastBorrow : Z) : M BigInt Z :=
  du ← own_digit (pos + i);
  dq ← GetDigit qv i;
  let '(value, borrow) := SubHelper du dq 0 in
  let '(value, borrow) := SubHelper value lastBorrow borrow in
  SetDigit (pos + i) value;;
  mret borrow.

(** Whether the subtraction borrows, and [u] and [qv] after it. *)
Definition SpecialMultiplyAndSub (u v : BigInt) (q : Z) (qv : BigInt) (pos : Z) : M S (bool * BigInt * BigInt) :=
  let len := GetLength v in
  qv ← build qv (
    vars ← fold_range 0 len (special_mul_round v q) (0, 0);
    let '(lastCarry, lastHigh) := vars in
    SetDigit len (u32 (lastHigh + lastCarry)));
  r ← on u (fold_range 0 (GetLength qv) (special_sub_round qv pos) 0);
  let '(lastBorrow, u) := r in
  mret (0 <? lastBorrow, u, qv).

Definition special_add_round (v : BigInt) (pos i lastCarry : Z) : M BigInt Z :=
  du ← own_digit (pos + i);
  dv ← GetDigit v i;
  let '(value, carry) := AddHelper du dv 0 in
  let '(value, carry) := AddHelper value lastCarry carry in
  SetDigit (pos + i) value;;
  mret carry.

(** The carry; the state is [u]. *)
Definition SpecialAdd (v : BigInt) (pos : Z) : M BigInt Z :=
  fold_range 0 (GetLength v) (special_add_round v pos) 0.

(** A round of ImproveAccuracy; the loop variables are q, UHighest, high and low. *)
Definition improve_step (vHighest vHighestNext UHighestNext : Z) (vars : Z * Z * Z * Z) : M S (Z * Z * Z * Z + Z) :=
  let '(q, UHighest, high, low) := vars in
  if (UHighest <? high) || ((high =? UHighest) && (UHighestNext <? low)) then
    let q := u32 (q - 1) in
    let UHighest := u32 (UHighest + vHighest) in
    if UHighest <? vHighest then mret (inr q)
    else let '(high, low) := Mul q vHighestNext in mret (inl (q, UHighest, high, low))
  else mret (inr q).

Definition ImproveAccuracy (vHighest vHighestNext UHighest UHighestNext q : Z) : M S Z :=
  let '(high, low) := Mul q vHighestNext in
  while_fuel 3 (improve_step vHighest vHighestNext UHighestNext) (q, UHighest, high, low).

(** The estimate of digit [i] of the quotient. *)
Definition estimate_digit (u v : BigInt) (divisorLen vHighest i : Z) : M S Z :=
  currentUHighest ← GetDigit u (i + divisorLen);
  next ← GetDigit u (i + divisorLen - 1);
  qr ← DivideAndRemainder currentUHighest next vHighest;
  let '(q, r) := qr in
  if vHighest =? currentUHighest then mret (2 ^ 32 - 1)
  else
    vHighestNext ← GetDigit v (divisorLen - 2);
    currentUHighestNext ← GetDigit u (i + divisorLen - 2);
    ImproveAccuracy vHighest vHighestNext r currentUHighestNext q.

(** The multiple is subtracted, and [v] added back once when it was too big. *)
Definition subtract_multiple (u v : BigInt) (q : Z) (qv : BigInt) (divisorLen i : Z) : M S (BigInt * BigInt * Z) :=
  sub ← SpecialMultiplyAndSub u v q qv i;
  let '(borrowed, u, qv) := sub in
  if (borrowed : bool) then
    u ← build u (
      carry ← SpecialAdd v i;
      top ← own_digit (i + divisorLen);
      SetDigit (i + divisorLen) (u32 (top + carry)));
    mret (u, qv, u32 (q - 1))
  else mret (u, qv, q).

(** A round of the loop over the digits of the quotient; the loop variables are
    [u], [qv] and the quotient, which is kept only when it is asked for. *)
Definition divide_round (v : BigInt) (divisorLen vHighest : Z) (i : Z) (vars : BigInt * BigInt * option BigInt) :
    M S (BigInt * BigInt * option BigInt) :=
  let '(u, qv, quotient) := vars in
  q ← estimate_digit u v divisorLen vHighest i;
  sub ← subtract_multiple u v q qv divisorLen i;
  let '(u, qv, q) := sub in
  quotient ← (match quotient with
              | None => mret None
              | Some qt => qt ← build qt (SetDigit i q); mret (Some qt)
              end);
  mret (u, qv, quotient).

(** The quotient when [wantQuotient], the remainder otherwise. *)
Definition DivideAndRemainderWithBigintDivisor (dividend divisor : BigInt) (wantQuotient : bool) : M S BigInt :=
  let divisorLen := GetLength divisor in
  let quotientLen := u32 (GetLength dividend - divisorLen) in
  quotient ← (if wantQuotient then qt ← CreateBigint (u32 (quotientLen + 1)); mret (Some qt) else mret None);
  top ← GetDigit divisor (divisorLen - 1);
  let leadingZeros := CountLeadingZeros top in
  v ← FormatLeftShift leadingZeros divisor false;
  u ← FormatLeftShift leadingZeros dividend true;
  qv ← CreateBigint (u32 (divisorLen + 1));
  vHighest ← GetDigit v (divisorLen - 1);
  vars ← fold_down (Z.to_nat (quotientLen + 1)) quotientLen (divide_round v divisorLen vHighest) (u, qv, quotient);
  let '(u, qv, quotient) := vars in
  match quotient with
  | Some qt => mret qt
  | None => build u (UnformattedRightShift leadingZeros)
  end.

(** *** Division by one digit *)

(** The loop of the remainder; each round makes a new BigInt of [r]. *)
Definition uint32_remainder_round (dividend : BigInt) (divisor i : Z) (vars : Z * option BigInt) : M S (Z * option BigInt) :=
  d ← GetDigit dividend i;
  qr ← DivideAndRemainder vars.1 d divisor;
  remainder ← Uint32ToBigInt qr.2;
  mret (qr.2, Some remainder).
End ops.

Section divide.
Context {S : Type}.

Definition uint32_quotient_round (dividend : BigInt) (divisor i r : Z) : M BigInt Z :=
  d ← GetDigit dividend i;
  qr ← DivideAndRemainder r d divisor;
  SetDigit i qr.1;;
  mret qr.2.

(** The quotient when [wantQuotient], the remainder otherwise. *)
Definition DivideAndRemainderWithUint32Divisor (dividend : BigInt) (divisor : Z) (wantQuotient : bool) : M S BigInt :=
  let n := Z.to_nat (GetLength dividend) in
  if wantQuotient then
    quotient ← CreateBigint (GetLength dividend);
    build quotient (fold_down n (GetLength dividend - 1) (uint32_quotient_round dividend divisor) 0;; mret tt)
  else
    vars ← fold_down n (GetLength dividend - 1) (uint32_remainder_round dividend divisor) (0, None);
    match vars.2 with Some remainder => mret remainder | None => fault end.

Definition Divide (x y : BigInt) : M S BigInt :=
  if IsZero y then throw RANGE_ERROR
  else
    let sign := xorb (GetSign x) (GetSign y) in
    compare ← AbsolutelyCompare x y;
    match compare with
    | LESS => Int32ToBigInt 0
    | EQUAL => quotient ← Int32ToBigInt 1; build quotient (SetSign sign)
    | _ =>
        y0 ← GetDigit y 0;
        if IsUint32 y && (y0 =? 1) then
          if eqb sign (GetSign x) then mret x else UnaryMinus x
        else
          quotient ← (if IsUint32 y then DivideAndRemainderWithUint32Divisor x y0 true
                      else DivideAndRemainderWithBigintDivisor x y true);
          quotient ← build quotient (SetSign sign);
          RightTruncate quotient
    end.

Definition Remainder (n d : BigInt) : M S BigInt :=
  if IsZero d then throw RANGE_ERROR
  else
    compare ← AbsolutelyCompare n d;
    if IsZero n || (match compare with LESS => true | _ => false end) then mret n
    else
      d0 ← GetDigit d 0;
      if (match compare with EQUAL => true | _ => false end) || (IsUint32 d && (d0 =? 1)) then Int32ToBigInt 0
      else
        remainder ← (if IsUint32 d then DivideAndRemainderWithUint32Divisor n d0 false
                     else DivideAndRemainderWithBigintDivisor n d false);
        remainder ← build remainder (SetSign (GetSign n));
        RightTruncate remainder.

Definition FloorMod (leftVal rightVal : BigInt) : M S BigInt :=
  remainder ← Remainder leftVal rightVal;
  if GetSign leftVal && negb (IsZero remainder) then Add remainder rightVal else mret remainder.
End divide.

Example divide_big : Divide (mkBigInt false [7; 8; 9; 0xFFFFFFFF]) (mkBigInt true [5; 0xFFFFFFFF]) tt
  = (Ok (mkBigInt true [4; 0; 1]), tt).
Proof. vm_compute. reflexivity. Qed.

(** ** Two digits by one digit *)

(** The estimate [q] of a quotient by a divisor of two parts: [t] is what the
    high part leaves.  The test on the low part tells whether [q] is too big. *)
Lemma trial_fits (B hd dh dl l q t : Z) :
  q * dh + t = hd -> q * dl <= t * B + l -> q * (dh * B + dl) <= hd * B + l.
Proof. intros <- H. lia. Qed.

Lemma trial_big (B hd dh dl l q t : Z) :
  q * dh + t = hd -> t * B + l < q * dl -> hd * B + l < q * (dh * B + dl).
Proof. intros <- H. lia. Qed.

(** A trial quotient that fits and is not too small is the quotient. *)
Lemma trial_exact (N D q : Z) : 0 < D -> N / D <= q -> q * D <= N -> q = N / D.
Proof. intros HD Hle Hfit. apply Z.le_antisymm; [|done]. apply Z.div_le_lower_bound; lia. Qed.

Lemma trial_decrement (N D q : Z) : 0 < D -> N < q * D -> N / D <= q - 1.
Proof. intros HD Hbig. assert (N / D < q); [|lia]. apply Z.div_lt_upper_bound; lia. Qed.

Section half.
Context {S : Type} (hd dh dl l : Z).
Context (Hhd : 0 <= hd < 2 ^ 32) (Hdh : 2 ^ 15 <= dh < 2 ^ 16) (Hdl : 0 <= dl < 2 ^ 16) (Hl : 0 <= l < 2 ^ 16).
Let D := dh * 2 ^ 16 + dl.
Let N := hd * 2 ^ 16 + l.

Lemma half_loop (fuel : nat) (q t : Z) (s : S) :
  q * dh + t = hd -> 0 <= q -> 0 <= t < 2 ^ 16 -> 2 ^ 16 <= t + Z.of_nat fuel * dh -> (hd < D -> N / D <= q) ->
  exists q', while_fuel fuel (half_step dh dl l) (q, t) s = (Ok q', s) /\ 0 <= q' < 2 ^ 17 /\ (hd < D -> q' = N / D).
Proof.
  revert q t. induction fuel as [|fuel IH]; intros q t Hq Hq0 Ht Hf HQ; [lia|]. cbn [while_fuel].
  assert (0 < D) as HD by (unfold D; lia). assert (q < 2 ^ 17) by nia.
  assert (hd < D -> N / D < 2 ^ 16) as HQ16 by (intros HltD; apply Z.div_lt_upper_bound; unfold N, D in *; lia).
  assert (half_step dh dl l (q, t) s = (Ok (if (2 ^ 16 <=? q) || (t * 2 ^ 16 + l <? u32 (q * dl))
    then if 2 ^ 16 <=? t + dh then inr (u32 (q - 1)) else inl (u32 (q - 1), t + dh) else inr q), s)) as Hstep.
  { unfold half_step. change HALFUINT32VALUE with (2 ^ 16). rewrite (u32_small (t * 2 ^ 16)), (u32_small (t * 2 ^ 16 + l)), (u32_small (t + dh)) by lia.
    by destruct ((2 ^ 16 <=? q) || (t * 2 ^ 16 + l <? u32 (q * dl))). }
  rewrite (bind_Ok _ _ _ _ _ Hstep). clear Hstep.
  destruct ((2 ^ 16 <=? q) || (t * 2 ^ 16 + l <? u32 (q * dl))) eqn:E.
  - assert (0 < q /\ (hd < D -> N / D <= q - 1)) as [Hqp HQ1].
    { apply orb_true_iff in E. destruct (Z.leb_spec (2 ^ 16) q) as [Hbig|Hsm].
      - split; [lia|]. intros H1. specialize (HQ16 H1). lia.
      - destruct E as [|E%Z.ltb_lt]; [done|]. rewrite u32_small in E by nia. split; [nia|]. intros _.
        apply trial_decrement; [done|]. unfold N, D. apply trial_big with t; lia. }
    rewrite (u32_small (q - 1)) by lia. destruct (Z.leb_spec (2 ^ 16) (t + dh)) as [Hbr|Hgo].
    + exists (q - 1). split; [done|]. split; [lia|]. intros H1. apply trial_exact; [done|by apply HQ1|]. unfold N, D.
      apply trial_fits with (t + dh); [lia|]. specialize (HQ1 H1). assert (q - 1 < 2 ^ 16) by (unfold D in H1; nia). nia.
    + cbv iota. destruct (IH (q - 1) (t + dh)) as (q' & Hrun & Hq' & Hex); [lia|lia|lia|lia|done|]. by exists q'.
  - apply orb_false_iff in E as [E1%Z.leb_gt E2%Z.ltb_ge]. rewrite u32_small in E2 by nia. exists q. split; [done|]. split; [lia|].
    intros H1. apply trial_exact; [done|by apply HQ|]. unfold N, D. by apply trial_fits with t.
Qed.

Lemma half_quotient_run (s : S) :
  exists q, half_quotient hd dh dl l s = (Ok q, s) /\ 0 <= q < 2 ^ 17 /\ (hd < D -> q = N / D).
Proof.
  unfold half_quotient. cbv zeta. pose proof (Z.div_mod hd dh ltac:(lia)) as Hdm. pose proof (Z.mod_pos_bound hd dh ltac:(lia)).
  assert (0 <= hd / dh) by (apply Z.div_pos; lia). assert (hd / dh * dh <= hd) by lia.
  rewrite (u32_small (hd / dh * dh)), (u32_small (hd - hd / dh * dh)) by lia.
  apply half_loop; [lia|done|lia|lia|]. intros _. apply Z.div_le_lower_bound; [lia|].
  assert (0 < D) by (unfold D; lia). pose proof (Z.mul_div_le N D ltac:(done)) as HN.
  assert (0 <= N / D) by (apply Z.div_pos; unfold N; lia). unfold N, D in *. set (Q := (hd * 2 ^ 16 + l) / (dh * 2 ^ 16 + dl)) in *. clearbody Q.
  assert (dh * Q * 2 ^ 16 <= hd * 2 ^ 16 + l) by nia. lia.
Qed.
End half.

(** The shift that sets the top bit of a digit. *)
Lemma leading_zeros (d : Z) : digit d -> d <> 0 -> let lz := CountLeadingZeros d in 0 <= lz < 32 /\ 2 ^ 31 <= d * 2 ^ lz < 2 ^ 32.
Proof.
  unfold digit. intros Hd Hne. cbv zeta. unfold CountLeadingZeros. zb. pose proof (Z.log2_spec d ltac:(lia)) as [Hlo Hhi].
  pose proof (Z.log2_nonneg d). assert (Z.log2 d < 32) by (apply Z.log2_lt_pow2; lia). split; [lia|].
  assert (0 < 2 ^ (31 - Z.log2 d)) by (apply Z.pow_pos_nonneg; lia).
  assert (2 ^ 31 = 2 ^ Z.log2 d * 2 ^ (31 - Z.log2 d)) as E31 by (rewrite <- Z.pow_add_r by lia; f_equal; lia).
  assert (2 ^ 32 = 2 ^ Z.succ (Z.log2 d) * 2 ^ (31 - Z.log2 d)) as E32 by (rewrite <- Z.pow_add_r by lia; f_equal; lia).
  rewrite E31, E32. split; [apply Z.mul_le_mono_nonneg_r; lia|apply Z.mul_lt_mono_pos_r; lia].
Qed.

(** The dividend after the shift. *)
Lemma shifted_dividend (hi lo d lz : Z) :
  digit hi -> digit lo -> digit d -> 0 <= lz < 32 -> d * 2 ^ lz < 2 ^ 32 ->
  let hd := if negb (lz =? 0) then Z.lor (u32 (Z.shiftl hi lz)) (Z.shiftr lo (DATEBITS - lz)) else hi in
  digit hd /\ (hi < d -> hd * 2 ^ 32 + u32 (Z.shiftl lo lz) = (hi * 2 ^ 32 + lo) * 2 ^ lz /\ hd < d * 2 ^ lz).
Proof.
  intros Hhi Hlo Hd Hlz Hdl. cbv zeta. destruct (Z.eqb_spec lz 0) as [->|Hne]; cbn [negb].
  - rewrite Z.shiftl_0_r, u32_small by done. change (2 ^ 0) with 1. split; [done|]. lia.
  - pose proof (shift_digit_step lz lo 0 ltac:(lia) Hlo ltac:(pose proof (Z.pow_pos_nonneg 2 lz); lia)) as (D1 & C1 & E1).
    unfold shift_digit in D1, C1, E1. cbn [fst snd] in *. rewrite Z.lor_0_r in *.
    pose proof (shift_digit_step lz hi _ ltac:(lia) Hhi C1) as (D2 & C2 & E2). unfold shift_digit in D2, C2, E2. cbn [fst snd] in *.
    split; [done|]. intros Hlt. set (c := Z.shiftr lo (DATEBITS - lz)) in *. set (hd := Z.lor (u32 (Z.shiftl hi lz)) c) in *.
    set (c2 := Z.shiftr hi (DATEBITS - lz)) in *. set (lo' := u32 (Z.shiftl lo lz)) in *. clearbody c hd c2 lo'. unfold digit in *.
    set (P := 2 ^ lz) in *. assert (c2 = 0) as -> by nia. nia.
Qed.

Lemma halves (d : Z) : digit d -> d = Z.shiftr d HALFDATEBITS * 2 ^ 16 + Z.land d HALFDATEMASK /\
  0 <= Z.shiftr d HALFDATEBITS < 2 ^ 16 /\ 0 <= Z.land d HALFDATEMASK < 2 ^ 16.
Proof.
  intros Hd. destruct (split_half d Hd) as [-> ->]. destruct (half_bounds d Hd). pose proof (Z.div_mod d (2 ^ 16)). lia.
Qed.

Lemma u32_mod (N D q : Z) : q = N / D -> 0 < D <= 2 ^ 32 -> u32 (N - q * D) = N mod D.
Proof. intros -> HD. rewrite Z.mod_eq by lia. rewrite u32_small; [lia|]. pose proof (Z.mod_pos_bound N D ltac:(lia)). rewrite Z.mod_eq in * by lia. lia. Qed.

(** Dividing half by half. *)
Lemma half_by_half (hd l1 l2 D : Z) :
  0 < D -> 0 <= hd < D -> 0 <= l1 < 2 ^ 16 -> 0 <= l2 < 2 ^ 16 ->
  let Q1 := (hd * 2 ^ 16 + l1) / D in let R1 := (hd * 2 ^ 16 + l1) mod D in
  let Q2 := (R1 * 2 ^ 16 + l2) / D in let R2 := (R1 * 2 ^ 16 + l2) mod D in
  0 <= Q1 < 2 ^ 16 /\ 0 <= Q2 < 2 ^ 16 /\ 0 <= R2 < D /\ hd * 2 ^ 32 + (l1 * 2 ^ 16 + l2) = (Q1 * 2 ^ 16 + Q2) * D + R2.
Proof.
  intros HD Hhd H1 H2. cbv zeta. pose proof (Z.div_mod (hd * 2 ^ 16 + l1) D ltac:(lia)) as E1. pose proof (Z.mod_pos_bound (hd * 2 ^ 16 + l1) D HD) as B1.
  assert (0 <= (hd * 2 ^ 16 + l1) / D < 2 ^ 16) by (split; [apply Z.div_pos; lia|apply Z.div_lt_upper_bound; nia]).
  set (Q1 := (hd * 2 ^ 16 + l1) / D) in *. set (R1 := (hd * 2 ^ 16 + l1) mod D) in *. clearbody Q1 R1.
  pose proof (Z.div_mod (R1 * 2 ^ 16 + l2) D ltac:(lia)) as E2. pose proof (Z.mod_pos_bound (R1 * 2 ^ 16 + l2) D HD) as B2.
  assert (0 <= (R1 * 2 ^ 16 + l2) / D < 2 ^ 16) by (split; [apply Z.div_pos; lia|apply Z.div_lt_upper_bound; nia]).
  set (Q2 := (R1 * 2 ^ 16 + l2) / D) in *. set (R2 := (R1 * 2 ^ 16 + l2) mod D) in *. clearbody Q2 R2.
  split_and!; [lia|lia|lia|lia|lia|lia|]. change (2 ^ 32) with (2 ^ 16 * 2 ^ 16). nia.
Qed.

Lemma DivideAndRemainder_run {S} (hi lo d : Z) (s : S) :
  digit hi -> digit lo -> digit d -> d <> 0 ->
  exists q r, DivideAndRemainder hi lo d s = (Ok (q, r), s) /\ digit q /\
    (hi < d -> q = (hi * 2 ^ 32 + lo) / d /\ r = (hi * 2 ^ 32 + lo) mod d).
Proof.
  intros Hhi Hlo Hd Hne. unfold DivideAndRemainder. cbv zeta. destruct (leading_zeros d Hd Hne) as [Hlz HD].
  set (lz := CountLeadingZeros d) in *. clearbody lz. rewrite (Z.shiftl_mul_pow2 d) by lia. rewrite (u32_small (d * 2 ^ lz)) by lia.
  pose proof (shifted_dividend hi lo d lz Hhi Hlo Hd Hlz ltac:(lia)) as [Hhd Hshift]. cbv zeta in *.
  set (hd := if negb (lz =? 0) then _ else hi) in *. clearbody hd. set (D := d * 2 ^ lz) in *.
  pose proof (digit_u32 (Z.shiftl lo lz)) as Hld. set (ld := u32 (Z.shiftl lo lz)) in *. clearbody ld.
  destruct (halves D ltac:(unfold digit; lia)) as (ED & Hdh & Hdl). destruct (halves ld Hld) as (El & Hl1 & Hl2).
  set (dh := Z.shiftr D HALFDATEBITS) in *. set (dl := Z.land D HALFDATEMASK) in *. set (l1 := Z.shiftr ld HALFDATEBITS) in *. set (l2 := Z.land ld HALFDATEMASK) in *.
  clearbody dh dl l1 l2. change HALFUINT32VALUE with (2 ^ 16).
  destruct (half_quotient_run hd dh dl l1 Hhd ltac:(lia) Hdl Hl1 s) as (Q1 & Hrun1 & HQ1 & Hex1). rewrite <- ED in Hex1. mstep with Hrun1.
  pose proof (digit_u32 (hd * 2 ^ 16 + l1 - Q1 * D)) as Hmid. set (mid := u32 (hd * 2 ^ 16 + l1 - Q1 * D)) in *.
  destruct (half_quotient_run mid dh dl l2 Hmid ltac:(lia) Hdl Hl2 s) as (Q2 & Hrun2 & HQ2 & Hex2). rewrite <- ED in Hex2. mstep with Hrun2.
  eexists _, _. split; [done|]. split; [apply digit_u32|]. intros Hlt. destruct (Hshift Hlt) as [EN HhdD]. specialize (Hex1 HhdD).
  assert (mid = (hd * 2 ^ 16 + l1) mod D) as Emid by (apply u32_mod; lia).
  assert (mid < D) as HmidD by (rewrite Emid; apply Z.mod_pos_bound; lia). specialize (Hex2 HmidD).
  rewrite (u32_mod (mid * 2 ^ 16 + l2) D Q2 Hex2 ltac:(lia)).
  destruct (half_by_half hd l1 l2 D ltac:(lia) ltac:(unfold digit in Hhd; lia) Hl1 Hl2) as (B1 & B2 & B3 & E). rewrite <- Emid, <- Hex1, <- Hex2 in *.
  rewrite (u32_small (Q1 * 2 ^ 16 + Q2)) by lia. rewrite <- El, EN in E. assert (0 < 2 ^ lz) by (apply Z.pow_pos_nonneg; lia).
  set (R := (mid * 2 ^ 16 + l2) mod D) in *. clearbody R. unfold D in *. unfold digit in Hd.
  assert (R = (hi * 2 ^ 32 + lo - (Q1 * 2 ^ 16 + Q2) * d) * 2 ^ lz) as ER by lia. set (r := hi * 2 ^ 32 + lo - (Q1 * 2 ^ 16 + Q2) * d) in *.
  assert (0 <= r < d) by nia. rewrite Z.shiftr_div_pow2, ER, Z.div_mul by lia. split.
  - apply Z.div_unique with r; lia.
  - apply Z.mod_unique with (Q1 * 2 ^ 16 + Q2); lia.
Qed.

(** ** The estimate of a digit of the quotient *)

Section improve.
Context {S : Type} (v1 v2 u2 hd : Z).
Context (Hv1 : 2 ^ 31 <= v1 < 2 ^ 32) (Hv2 : digit v2) (Hu2 : digit u2).
Let D := v1 * 2 ^ 32 + v2.
Let N := hd * 2 ^ 32 + u2.

(** The test of ImproveAccuracy compares two-digit numbers. *)
Lemma improve_test (t high low P : Z) :
  digit high -> digit low -> 2 ^ 32 * high + low = P ->
  ((t <? high) || ((high =? t) && (u2 <? low))) = (t * 2 ^ 32 + u2 <? P).
Proof.
  unfold digit in *. intros Hh Hlo <-. destruct (Z.ltb_spec t high), (Z.eqb_spec high t), (Z.ltb_spec u2 low),
    (Z.ltb_spec (t * 2 ^ 32 + u2) (2 ^ 32 * high + low)); cbn [orb andb]; (done || lia).
Qed.

Lemma improve_loop (fuel : nat) (q t : Z) (s : S) :
  q * v1 + t = hd -> digit q -> 0 <= t < 2 ^ 32 -> 2 ^ 32 <= t + Z.of_nat fuel * v1 -> N / D <= q ->
  while_fuel (Datatypes.S fuel) (improve_step v1 v2 u2) (let '(high, low) := Mul q v2 in (q, t, high, low)) s = (Ok (N / D), s).
Proof.
  assert (0 < D) as HD by (unfold D, digit in *; lia).
  revert q t. induction fuel as [|fuel IH]; intros q t Hq Hqd Ht Hf HQ; [lia|]. remember (Datatypes.S fuel) as f. cbn [while_fuel].
  destruct (Mul_spec q v2 Hqd Hv2) as (high & low & EM & Hhi & Hlo & EP). rewrite EM. cbv iota.
  pose proof (improve_test t high low (q * v2) Hhi Hlo EP) as Htest.
  destruct (Z.ltb_spec (t * 2 ^ 32 + u2) (q * v2)) as [Hbig|Hfit].
  - pose proof (trial_decrement N D q HD ltac:(unfold N, D; apply trial_big with t; lia)) as HQ1. unfold digit in *.
    assert (0 < q) by nia. assert (u32 (q - 1) = q - 1) as Eq by (apply u32_small; lia).
    destruct (Z.lt_ge_cases (t + v1) (2 ^ 32)) as [Hgo|Hbr].
    + rewrite (bind_Ok _ _ _ s (inl (let '(high, low) := Mul (q - 1) v2 in (q - 1, t + v1, high, low)))).
      { cbv iota. subst f. apply IH; lia. }
      unfold improve_step. cbv beta iota. rewrite Htest, Eq, (u32_small (t + v1)) by lia. zb. by destruct (Mul (q - 1) v2).
    + rewrite (bind_Ok _ _ _ s (inr (q - 1))).
      { cbv iota. rewrite <- (trial_exact N D (q - 1)); [done|done|done|]. unfold N, D. apply trial_fits with (t + v1); [lia|]. nia. }
      unfold improve_step. cbv beta iota. rewrite Htest, Eq. replace (u32 (t + v1)) with (t + v1 - 2 ^ 32) by (unfold u32; zlia). by zb.
  - rewrite (bind_Ok _ _ _ s (inr q)).
    + cbv iota. rewrite <- (trial_exact N D q); [done|done|done|]. unfold N, D. by apply trial_fits with t.
    + unfold improve_step. cbv beta iota. by rewrite Htest.
Qed.

(** From the quotient of the first two digits by the first one, ImproveAccuracy
    gets the quotient of the first three digits by the first two. *)
Lemma ImproveAccuracy_run (s : S) :
  0 <= hd < v1 * 2 ^ 32 -> ImproveAccuracy v1 v2 (hd mod v1) u2 (hd / v1) s = (Ok (N / D), s).
Proof.
  intros Hhd. unfold ImproveAccuracy. pose proof (Z.div_mod hd v1 ltac:(lia)) as Hdm. pose proof (Z.mod_pos_bound hd v1 ltac:(lia)).
  assert (digit (hd / v1)) as Hq by (unfold digit; split; [apply Z.div_pos; lia|apply Z.div_lt_upper_bound; lia]).
  pose proof (improve_loop 2 (hd / v1) (hd mod v1) s ltac:(lia) Hq ltac:(lia) ltac:(lia)) as Hl.
  destruct (Mul (hd / v1) v2) as [high low]. apply Hl. apply Z.div_le_lower_bound; [lia|]. unfold digit in *.
  assert (0 < D) by (unfold D; lia). pose proof (Z.mul_div_le N D ltac:(done)) as HN. assert (0 <= N / D) by (apply Z.div_pos; unfold N; lia).
  unfold N, D in *. set (Q := (hd * 2 ^ 32 + u2) / (v1 * 2 ^ 32 + v2)) in *. clearbody Q.
  assert (v1 * Q * 2 ^ 32 <= hd * 2 ^ 32 + u2) by nia. lia.
Qed.
End improve.

(** The estimate from the top digits is the digit of the quotient or one more.
    [T] is the weight of the digits that the estimate does not look at. *)
Lemma estimate_close (T U3 ul V2 vl : Z) :
  0 < T -> 0 <= ul < T -> 0 <= vl < T -> 2 ^ 63 <= V2 -> 0 <= U3 -> U3 / V2 <= 2 ^ 32 ->
  let U := U3 * T + ul in let V := V2 * T + vl in
  U / V <= U3 / V2 <= U / V + 1.
Proof.
  intros HT Hul Hvl HV2 HU3 Hq. cbv zeta. pose proof (Z.div_mod U3 V2 ltac:(lia)) as E. pose proof (Z.mod_pos_bound U3 V2 ltac:(lia)).
  set (q := U3 / V2) in *. set (r := U3 mod V2) in *. assert (0 <= q) by (apply Z.div_pos; lia). clearbody q r. subst U3. split.
  - apply Z.lt_succ_r. apply Z.div_lt_upper_bound; nia.
  - assert (q - 1 <= ((V2 * q + r) * T + ul) / (V2 * T + vl)); [|lia]. apply Z.div_le_lower_bound; nia.
Qed.

(** The estimate when the top digits agree. *)
Lemma estimate_max (T U V vt : Z) :
  0 < T -> 2 ^ 31 <= vt < 2 ^ 32 -> vt * T <= V < (vt + 1) * T -> vt * T * 2 ^ 32 <= U < V * 2 ^ 32 ->
  U / V <= 2 ^ 32 - 1 <= U / V + 1.
Proof.
  intros HT Hvt HV HU. assert (U / V < 2 ^ 32) by (apply Z.div_lt_upper_bound; nia). split; [lia|].
  assert (2 ^ 32 - 2 <= U / V); [|lia]. apply Z.div_le_lower_bound; nia.
Qed.

(** ** Subtracting the multiple, and adding back *)

Definition smul_digit (q d : Z) (vars : Z * Z) : Z * (Z * Z) :=
  let '(high, value) := Mul d q in
  let '(value, carry) := AddHelper value vars.2 0 in
  let '(value, carry) := AddHelper value vars.1 carry in
  (value, (carry, high)).

Lemma smul_digit_step (q d : Z) (vars : Z * Z) :
  digit q -> digit d -> carries vars ->
  digit (smul_digit q d vars).1 /\ carries (smul_digit q d vars).2 /\
  (smul_digit q d vars).1 + 2 ^ 32 * ((smul_digit q d vars).2.1 + (smul_digit q d vars).2.2) = d * q + (vars.1 + vars.2).
Proof.
  intros Hq Hd (Hc & Hh & Hs). unfold smul_digit. destruct vars as [c h]. cbn [fst snd] in *.
  destruct (Mul_spec d q Hd Hq) as (hi & lo & -> & Hhi & Hlo & E).
  destruct (AddHelper_spec lo h 0) as (a1 & b1 & -> & Ha1 & Hb1 & E1); [done|unfold digit; lia|].
  destruct (AddHelper_spec a1 c (0 + b1)) as (a2 & b2 & -> & Ha2 & Hb2 & E2); [done|unfold digit; lia|].
  unfold carries. cbn [fst snd]. pose proof (digit_product d q Hd Hq). set (P := d * q) in *. clearbody P. unfold digit in *. lia.
Qed.

(** The multiple of [v]. *)
Lemma special_mul_run (v : BigInt) (q o : Z) (old : list Z) (sg : bool) :
  Forall digit (GetData v) -> digit q -> length old = length (GetData v) -> GetLength v < 2 ^ 32 ->
  exists ds, (vars ← fold_range 0 (GetLength v) (special_mul_round v q) (0, 0);
    let '(lastCarry, lastHigh) := vars in
    SetDigit (GetLength v) (u32 (lastHigh + lastCarry))) (mkBigInt sg (old ++ [o])) = (Ok tt, mkBigInt sg ds) /\
    Forall digit ds /\ length ds = Datatypes.S (length (GetData v)) /\ val ds = q * val (GetData v).
Proof.
  intros Hv Hq Ho Hl.
  destruct (carry_map_val (smul_digit q) (fun d => d * q) (fun c => c.1 + c.2) digit carries (fun d c Hd Hc => smul_digit_step q d c Hq Hd Hc)
     (GetData v) (0, 0) Hv ltac:(unfold carries; simpl; lia)) as (Hout & (Hc & Hh & Hs) & Hval).
  pose proof (carry_map_length (smul_digit q) (GetData v) (0, 0)) as Hlen.
  pose proof (fold_up_digits (smul_digit q) (special_mul_round v q) (GetData v) 0 (0, 0) sg [] old [o] Ho) as Hloop.
  destruct (carry_map (smul_digit q) (GetData v) (0, 0)) as [out [c h]]. cbn [fst snd app] in *.
  exists (out ++ [h + c]). split_and!.
  - unfold fold_range, GetLength. replace (Z.to_nat (lenZ (GetData v) - 0)) with (length (GetData v)) by (unfold lenZ; lia).
    rewrite (bind_Ok _ _ _ (mkBigInt sg (out ++ [o])) (c, h)).
    + rewrite u32_small by lia. apply SetDigit_run. unfold lenZ. lia.
    + apply Hloop. intros k d [c' h'] dn Hk Hdn. unfold special_mul_round. rewrite Z.add_0_l.
      mstep by (apply (GetDigit_run _ _ d); [lia|by rewrite Nat2Z.id]). unfold smul_digit. cbn [fst snd].
      destruct (Mul d q) as [hi lo]. destruct (AddHelper lo h' 0) as [a1 b1]. by destruct (AddHelper a1 c' b1).
  - apply Forall_app. split; [done|]. apply Forall_singleton. unfold digit. lia.
  - rewrite length_app. simpl. lia.
  - rewrite val_app, val_cons, val_nil. replace (lenZ out) with (lenZ (GetData v)) by (unfold lenZ; lia).
    assert (val ((fun d => d * q) <$> GetData v) = q * val (GetData v)) as Em.
    { clear. induction (GetData v) as [|d ds IH]; [change (0 = q * 0); lia|]. rewrite fmap_cons, !val_cons, IH. lia. }
    rewrite Em in Hval. lia.
Qed.

(** A loop over the digits of [w] and of [y] that writes those of [w], which
    follow [pre] in the object. *)
Lemma window_loop (k : Z) (f : Z * Z -> Z -> Z * Z) (body : Z -> Z -> M BigInt Z) (y : BigInt) (pre w post : list Z) (sg : bool) :
  (forall p c, digit p.1 /\ digit p.2 -> bit c ->
     digit (f p c).1 /\ bit (f p c).2 /\ (f p c).1 + 2 ^ 32 * (k * (f p c).2) = p.1 + k * p.2 + k * c) ->
  (forall i c st dw dy, own_digit (lenZ pre + i) st = (Ok dw, st) -> GetDigit y i st = (Ok dy, st) ->
     body i c st = (SetDigit (lenZ pre + i) (f (dw, dy) c).1;; mret (f (dw, dy) c).2) st) ->
  Forall digit w -> Forall digit (GetData y) -> length w = length (GetData y) ->
  exists w' c, fold_range 0 (GetLength y) body 0 (mkBigInt sg (pre ++ w ++ post)) = (Ok c, mkBigInt sg (pre ++ w' ++ post)) /\
    Forall digit w' /\ length w' = length w /\ bit c /\ val w' + 2 ^ (32 * lenZ w) * (k * c) = val w + k * val (GetData y).
Proof.
  intros Hf Hbody Hw Hy Hl.
  destruct (carry_map_val f (fun p => p.1 + k * p.2) (fun c => k * c) (fun p => digit p.1 /\ digit p.2) bit Hf (zip w (GetData y)) 0
    (Forall_zip_digits _ _ Hw Hy) ltac:(unfold bit; lia)) as (Hout & Hc & Hval).
  pose proof (carry_map_length f (zip w (GetData y)) 0) as Hlen. rewrite (val_zip_with (fun a b => a + k * b) k) in Hval by done.
  rewrite zip_length_eq in Hlen by done.
  exists (carry_map f (zip w (GetData y)) 0).1, (carry_map f (zip w (GetData y)) 0).2. split_and!; [|done|done|done|].
  - unfold fold_range, GetLength. replace (Z.to_nat (lenZ (GetData y) - 0)) with (length (zip w (GetData y))) by (rewrite zip_length_eq by done; unfold lenZ; lia).
    apply (fold_up_digits f body); [by rewrite zip_length_eq|]. intros j p c dn Hj Hdn. apply lookup_zip_Some in Hj as [Hj1 Hj2].
    rewrite Z.add_0_l. rewrite (Hbody _ _ _ p.1 p.2); [by destruct p| |].
    + rewrite (drop_S _ _ _ Hj1). simpl app. rewrite app_assoc. apply own_digit_run. rewrite lenZ_app. unfold lenZ. lia.
    + apply GetDigit_run; [lia|by rewrite Nat2Z.id].
  - unfold lenZ in *. rewrite zip_length_eq in Hval by done. lia.
Qed.

Lemma special_sub_run (qv : BigInt) (pre w post : list Z) (sg : bool) :
  Forall digit w -> Forall digit (GetData qv) -> length w = length (GetData qv) ->
  exists w' c, fold_range 0 (GetLength qv) (special_sub_round qv (lenZ pre)) 0 (mkBigInt sg (pre ++ w ++ post)) = (Ok c, mkBigInt sg (pre ++ w' ++ post)) /\
    Forall digit w' /\ length w' = length w /\ bit c /\ val w' - 2 ^ (32 * lenZ w) * c = val w - val (GetData qv).
Proof.
  intros Hw Hq Hl. destruct (window_loop (-1) sub2 (special_sub_round qv (lenZ pre)) qv pre w post sg) as (w' & c & Hrun & Hw' & Hlen & Hc & Hv); [..|done|done|done|].
  - intros p c Hp Hc. destruct (sub2_step p c Hp Hc) as (? & ? & ?). split_and!; [done|done|lia].
  - intros i c st dw dy Ew Ey. unfold special_sub_round, sub2. mstep with Ew. mstep with Ey. cbn [fst snd].
    destruct (SubHelper dw dy 0) as [a n]. by destruct (SubHelper a c n).
  - exists w', c. split_and!; [done|done|done|done|lia].
Qed.

Lemma SpecialAdd_run (v : BigInt) (pre w post : list Z) (sg : bool) :
  Forall digit w -> Forall digit (GetData v) -> length w = length (GetData v) ->
  exists w' c, SpecialAdd v (lenZ pre) (mkBigInt sg (pre ++ w ++ post)) = (Ok c, mkBigInt sg (pre ++ w' ++ post)) /\
    Forall digit w' /\ length w' = length w /\ bit c /\ val w' + 2 ^ (32 * lenZ w) * c = val w + val (GetData v).
Proof.
  intros Hw Hq Hl. destruct (window_loop 1 add2 (special_add_round v (lenZ pre)) v pre w post sg) as (w' & c & Hrun & Hw' & Hlen & Hc & Hv); [..|done|done|done|].
  - intros p c Hp Hc. destruct (add2_step p c Hp Hc) as (? & ? & ?). split_and!; [done|done|lia].
  - intros i c st dw dy Ew Ey. unfold special_add_round, add2. mstep with Ew. mstep with Ey. cbn [fst snd].
    destruct (AddHelper dw dy 0) as [a n]. by destruct (AddHelper a c n).
  - exists w', c. split_and!; [done|done|done|done|lia].
Qed.

(** ** One digit of the quotient *)

Section round.
Context {S : Type} (vs vl : list Z) (v1 v2 : Z) (sv : bool).
Context (Ev : vs = vl ++ [v2; v1]) (Hvs : Forall digit vs) (Hv1 : 2 ^ 31 <= v1).
Let v := mkBigInt sv vs.
Let n := lenZ vs.
Let V := val vs.
Context (Hn : n + 1 <= MAXSIZE).

Lemma divisor_digits : Forall digit vl /\ digit v2 /\ digit v1 /\ n = lenZ vl + 2 /\ V = (v1 * 2 ^ 32 + v2) * 2 ^ (32 * lenZ vl) + val vl.
Proof.
  pose proof Hvs as Hd. rewrite Ev in Hd. apply Forall_app in Hd as [Hl [H2 [H1 _]%Forall_cons_1]%Forall_cons_1].
  split_and!; [done..| |].
  - unfold n. rewrite Ev, lenZ_app, !lenZ_cons, lenZ_nil. lia.
  - unfold V. rewrite Ev, val_app, !val_cons, val_nil. lia.
Qed.

Lemma estimate_digit_run (low wl high : list Z) (u2 u1 u0 : Z) (su : bool) (s : S) :
  let win := wl ++ [u2; u1; u0] in
  Forall digit win -> lenZ wl = lenZ vl -> val win < V * 2 ^ 32 ->
  exists q, estimate_digit (mkBigInt su (low ++ win ++ high)) v n v1 (lenZ low) s = (Ok q, s) /\ digit q /\ val win / V <= q <= val win / V + 1.
Proof.
  intros win Hw Hl HU. destruct divisor_digits as (Hvl & Hv2 & Hv1' & En & EV). unfold win in *. clear win.
  apply Forall_app in Hw as [Hwl [Hu2 [Hu1 [Hu0 _]%Forall_cons_1]%Forall_cons_1]%Forall_cons_1].
  set (T := 2 ^ (32 * lenZ vl)) in *. assert (0 < T) as HT by (apply pow32_pos, lenZ_nonneg).
  pose proof (val_bounds wl Hwl) as Bwl. rewrite Hl in Bwl. pose proof (val_bounds vl Hvl) as Bvl. fold T in Bwl, Bvl.
  set (hd := u0 * 2 ^ 32 + u1). assert (val (wl ++ [u2; u1; u0]) = (hd * 2 ^ 32 + u2) * T + val wl) as EU.
  { rewrite val_app, !val_cons, val_nil, Hl. fold T. unfold hd. change (2 ^ 64) with (2 ^ 32 * 2 ^ 32). ring. }
  rewrite EU in *. pose proof (lenZ_nonneg low). pose proof (lenZ_nonneg wl). unfold digit in *.
  assert (u0 <= v1) as Htop.
  { apply Z.lt_succ_r. assert (u0 * 2 ^ 64 * T < (v1 + 1) * 2 ^ 64 * T); [|nia].
    rewrite EV in HU. unfold hd in HU. nia. }
  assert (forall k d, GetData (mkBigInt su (low ++ (wl ++ [u2; u1; u0]) ++ high)) !! Z.to_nat (lenZ low + (lenZ wl + k)) = Some d ->
    0 <= k -> GetDigit (mkBigInt su (low ++ (wl ++ [u2; u1; u0]) ++ high)) (lenZ low + (lenZ wl + k)) s = (Ok d, s)) as Hget by (intros; apply GetDigit_run; [lia|done]).
  assert (forall k d, 0 <= k -> [u2; u1; u0] !! Z.to_nat k = Some d ->
    GetDigit (mkBigInt su (low ++ (wl ++ [u2; u1; u0]) ++ high)) (lenZ low + (lenZ wl + k)) s = (Ok d, s)) as Hread.
  { intros k d Hk Hd. apply Hget; [|done]. simpl GetData. rewrite lookup_app_r by (unfold lenZ; lia). rewrite lookup_app_l.
    - rewrite lookup_app_r by (unfold lenZ in *; lia). rewrite <- Hd. f_equal. unfold lenZ in *. lia.
    - apply lookup_lt_Some in Hd. rewrite length_app. unfold lenZ in *. lia. }
  clear Hget. unfold estimate_digit.
  replace (lenZ low + n) with (lenZ low + (lenZ wl + 2)) by lia. mstep with (Hread 2 u0 ltac:(lia) eq_refl).
  replace (lenZ low + (lenZ wl + 2) - 1) with (lenZ low + (lenZ wl + 1)) by lia. mstep with (Hread 1 u1 ltac:(lia) eq_refl).
  destruct (DivideAndRemainder_run u0 u1 v1 s) as (q0 & r & Hdr & Hq0 & Hex); [done|done|done|lia|]. mstep with Hdr.
  destruct (Z.eqb_spec v1 u0) as [<-|Hne].
  - exists (2 ^ 32 - 1). split; [done|]. split; [lia|]. apply (estimate_max (T * 2 ^ 32)) with v1; [lia|lia|rewrite EV; nia|].
    unfold hd in *. split; [|lia]. nia.
  - destruct (Hex ltac:(lia)) as [-> ->]. fold hd. assert (0 <= hd < v1 * 2 ^ 32) as Hhd by (unfold hd; lia).
    mstep by (apply (GetDigit_run _ _ v2); [pose proof (lenZ_nonneg vl); lia|]; simpl; rewrite Ev; apply list_lookup_middle; unfold lenZ in *; lia).
    replace (lenZ low + (lenZ wl + 2) - 2) with (lenZ low + (lenZ wl + 0)) by lia. mstep with (Hread 0 u2 ltac:(lia) eq_refl).
    exists ((hd * 2 ^ 32 + u2) / (v1 * 2 ^ 32 + v2)). rewrite ImproveAccuracy_run by (unfold digit; lia). split; [done|].
    assert ((hd * 2 ^ 32 + u2) / (v1 * 2 ^ 32 + v2) < 2 ^ 32) by (apply Z.div_lt_upper_bound; nia).
    split; [split; [apply Z.div_pos; nia|done]|]. rewrite EV. apply estimate_close; lia.
Qed.

Lemma top_zero (w : list Z) (k : nat) :
  Forall digit w -> length w = Datatypes.S k -> val w < 2 ^ (32 * Z.of_nat k) -> exists w', w = w' ++ [0].
Proof.
  intros Hw Hl Hv. destruct (exists_last (l := w)) as (w' & d & ->); [by destruct w|]. exists w'.
  apply Forall_app in Hw as [Hw' [Hd _]%Forall_cons_1]. rewrite length_app in Hl. simpl in Hl.
  destruct (Z.eq_dec d 0) as [->|Hne]; [done|]. pose proof (val_snoc_bounds w' d Hw' Hd Hne) as Hb.
  replace (lenZ w') with (Z.of_nat k) in Hb by (unfold lenZ; lia). lia.
Qed.

Lemma add_back_run (low w high : list Z) (su : bool) (U : Z) (s : S) :
  Forall digit w -> length w = Datatypes.S (length vs) -> 0 <= U < V -> val w + V = U + 2 ^ (32 * (n + 1)) ->
  exists w', build (mkBigInt su (low ++ w ++ high)) (
      carry ← SpecialAdd v (lenZ low);
      top ← own_digit (lenZ low + n);
      SetDigit (lenZ low + n) (u32 (top + carry))) s = (Ok (mkBigInt su (low ++ (w' ++ [0]) ++ high)), s) /\
    Forall digit w' /\ length w' = length vs /\ val w' = U.
Proof.
  intros Hw Hl HU E. destruct (exists_last (l := w)) as (wa & t & ->); [by destruct w|].
  apply Forall_app in Hw as [Hwa [Ht _]%Forall_cons_1]. rewrite length_app in Hl. simpl in Hl. assert (length wa = length vs) as Hla by lia.
  destruct (SpecialAdd_run v low wa (t :: high) su Hwa Hvs Hla) as (wb & c & Hrun & Hwb & Hlb & Hc & Hv). exists wb.
  assert (lenZ wa = n) as Hlan by (unfold n, lenZ; lia). rewrite Hlan in Hv. pose proof (lenZ_nonneg vs) as Hn0. fold n in Hn0.
  pose proof (val_bounds wb Hwb) as Bwb. replace (lenZ wb) with n in Bwb by (unfold n, lenZ; lia).
  pose proof (val_bounds vs Hvs) as BV. fold n V in BV. rewrite val_app, val_cons, val_nil, Hlan, pow32_succ in E by lia.
  change (val (GetData v)) with V in Hv. set (P := 2 ^ (32 * n)) in *. unfold digit, bit in *.
  assert (t + c = 2 ^ 32) as Htc by nia.
  split; [|split_and!; [done|lia|nia]]. apply build_run. rewrite <- app_assoc. simpl app. mstep with Hrun.
  assert (lenZ (low ++ wb) = lenZ low + n) as Hlow by (rewrite lenZ_app; unfold n, lenZ in *; lia).
  rewrite app_assoc. mstep by (by apply own_digit_run). rewrite Htc. rewrite SetDigit_run by done. by rewrite <- !app_assoc.
Qed.

Lemma subtract_multiple_run (low win high qs : list Z) (o q : Z) (su sq : bool) (s : S) :
  Forall digit win -> length win = Datatypes.S (length vs) -> length qs = length vs -> digit q ->
  val win / V <= q <= val win / V + 1 ->
  exists w qs', subtract_multiple (mkBigInt su (low ++ win ++ high)) v q (mkBigInt sq (qs ++ [o])) n (lenZ low) s
    = (Ok (mkBigInt su (low ++ (w ++ [0]) ++ high), mkBigInt sq qs', val win / V), s) /\
    Forall digit w /\ length w = length vs /\ val w = val win mod V /\ length qs' = Datatypes.S (length vs).
Proof.
  intros Hw Hl Hqs Hq HQ. pose proof MAXSIZE_eq. destruct divisor_digits as (Hvl & Hv2 & Hv1' & En & EV).
  assert (0 < V) as HV by (pose proof (val_bounds vl Hvl); pose proof (pow32_pos (lenZ vl) (lenZ_nonneg vl)); unfold digit in *; nia).
  destruct (special_mul_run v q o qs sq Hvs Hq Hqs ltac:(unfold GetLength, n in *; simpl; lia)) as (ds & Hmul & Hds & Hlds & Vds). simpl GetData in Vds, Hlds.
  destruct (special_sub_run (mkBigInt sq ds) low win high su Hw Hds ltac:(simpl; lia)) as (w & c & Hsub & Hwd & Hlw & Hc & Hv).
  simpl GetData in Hv. rewrite Vds in Hv. replace (lenZ win) with (n + 1) in Hv by (unfold n, lenZ; lia). fold V in Hv.
  pose proof (val_bounds w Hwd) as Bw. replace (lenZ w) with (n + 1) in Bw by (unfold n, lenZ; lia).
  pose proof (Z.div_mod (val win) V ltac:(lia)) as Hdm. pose proof (Z.mod_pos_bound (val win) V HV) as Hmod.
  pose proof (val_bounds vs Hvs) as BV. fold n V in BV.
  assert (SpecialMultiplyAndSub (mkBigInt su (low ++ win ++ high)) v q (mkBigInt sq (qs ++ [o])) (lenZ low) s
    = (Ok (0 <? c, mkBigInt su (low ++ w ++ high), mkBigInt sq ds), s)) as Hms.
  { unfold SpecialMultiplyAndSub. mstep by (by apply build_run). rewrite (bind_Ok _ _ _ s (c, mkBigInt su (low ++ w ++ high))) by (unfold on; by rewrite Hsub). done. }
  unfold subtract_multiple. mstep with Hms. unfold bit in Hc. destruct (Z.eq_dec c 0) as [->|Hc0].
  - assert (q = val win / V) as -> by nia. change (0 <? 0) with false. cbv iota.
    destruct (top_zero w (length vs) Hwd ltac:(lia)) as [w' ->]; [unfold n, lenZ in *; nia|].
    exists w', ds. apply Forall_app in Hwd as [Hw' _]. rewrite length_app in Hlw. simpl in Hlw.
    split_and!; [done|done|lia| |lia]. rewrite val_app, val_cons, val_nil in Hv. nia.
  - replace c with 1 in * by lia. assert (q = val win / V + 1) as -> by nia. change (0 <? 1) with true. cbv iota.
    destruct (add_back_run low w high su (val win mod V) s Hwd ltac:(lia) Hmod ltac:(nia)) as (w' & Hadd & Hw' & Hlw' & Vw').
    mstep with Hadd. exists w', ds. unfold digit in Hq. assert (0 <= val win / V) by (apply Z.div_pos; [apply (val_bounds win Hw)|lia]).
    rewrite u32_small by lia. replace (val win / V + 1 - 1) with (val win / V) by lia. split_and!; [done|done|done|done|lia].
Qed.
(** The quotient object when it is asked for. *)
Definition kept (want : bool) (sg : bool) (ds : list Z) : option BigInt := if want then Some (mkBigInt sg ds) else None.

Lemma split_three (w : list Z) : lenZ w = n -> exists w2 u1 u0, w = w2 ++ [u1; u0] /\ lenZ w2 = lenZ vl.
Proof.
  intros Hl. destruct divisor_digits as (_ & _ & _ & En & _). destruct (split_len w (lenZ vl)) as (w2 & r & -> & Hw2); [pose proof (lenZ_nonneg vl); lia|].
  rewrite lenZ_app in Hl. destruct r as [|a [|b [|c r]]]; rewrite ?lenZ_cons, ?lenZ_nil in Hl; try lia; [by eauto|pose proof (lenZ_nonneg r); lia].
Qed.

Lemma divide_round_run (low w high qv qq : list Z) (d : Z) (su sq sg want : bool) (s : S) :
  digit d -> Forall digit w -> length w = length vs -> val w < V -> length qv = Datatypes.S (length vs) ->
  let U := d + 2 ^ 32 * val w in
  exists w' qv',
    divide_round v n v1 (lenZ low) (mkBigInt su (low ++ (d :: w) ++ high), mkBigInt sq qv, kept want sg (replicate (length low) 0 ++ 0 :: qq)) s
    = (Ok (mkBigInt su (low ++ (w' ++ [0]) ++ high), mkBigInt sq qv', kept want sg (replicate (length low) 0 ++ U / V :: qq)), s) /\
    Forall digit w' /\ length w' = length vs /\ val w' = U mod V /\ length qv' = Datatypes.S (length vs) /\ digit (U / V).
Proof.
  intros Hd Hw Hl HwV Hqv U. assert (val (d :: w) = U) as EU by apply val_cons.
  assert (Forall digit (d :: w)) as Hdw by (by constructor). pose proof (val_bounds w Hw) as Bw. unfold digit in Hd.
  destruct (split_three w) as (w2 & u1 & u0 & Ew & Hw2); [unfold n, lenZ; lia|].
  assert (exists wl u2, d :: w2 = wl ++ [u2]) as (wl & u2 & Ewl).
  { destruct (exists_last (l := d :: w2)) as (wl & u2 & E); [done|]. by exists wl, u2. }
  assert (d :: w = wl ++ [u2; u1; u0]) as Ewin by (rewrite Ew; change (d :: w2 ++ [u1; u0]) with ((d :: w2) ++ [u1; u0]); rewrite Ewl, <- app_assoc; done).
  assert (lenZ wl = lenZ vl) as Hwl by (apply (f_equal lenZ) in Ewl; rewrite lenZ_app, !lenZ_cons, lenZ_nil in Ewl; lia).
  destruct (estimate_digit_run low wl high u2 u1 u0 su s) as (q & Hest & Hq & HQ); [by rewrite <- Ewin|done|rewrite <- Ewin, EU; unfold U; lia|].
  rewrite <- Ewin, EU in *.
  destruct (exists_last (l := qv)) as (qs & o & ->); [by destruct qv|]. rewrite length_app in Hqv. simpl in Hqv.
  destruct (subtract_multiple_run low (d :: w) high qs o q su sq s Hdw ltac:(simpl; lia) ltac:(lia) Hq ltac:(by rewrite EU)) as (w' & qv' & Hsub & Hw' & Hlw' & Vw' & Hlq').
  rewrite EU in *. assert (0 < V) by lia.
  exists w', qv'. split_and!; [|done|done|done|done|split; [apply Z.div_pos; unfold U; lia|apply Z.div_lt_upper_bound; unfold U; lia]].
  unfold divide_round. mstep with Hest. mstep with Hsub. destruct want; [|done]. simpl kept.
  rewrite (bind_Ok _ _ _ s (Some (mkBigInt sg (replicate (length low) 0 ++ U / V :: qq)))); [done|].
  mstep by (apply build_run; apply SetDigit_run; by rewrite lenZ_replicate). done.
Qed.

Lemma divide_loop (low w high qv qq : list Z) (su sq sg want : bool) (s : S) :
  Forall digit low -> Forall digit w -> length w = length vs -> val w < V -> length qv = Datatypes.S (length vs) ->
  exists wf Qs qv',
    fold_down (length low) (lenZ low - 1) (divide_round v n v1) (mkBigInt su (low ++ w ++ high), mkBigInt sq qv, kept want sg (replicate (length low) 0 ++ qq)) s
    = (Ok (mkBigInt su (wf ++ replicate (length low) 0 ++ high), mkBigInt sq qv', kept want sg (Qs ++ qq)), s) /\
    Forall digit wf /\ length wf = length vs /\ val wf < V /\ Forall digit Qs /\ length Qs = length low /\
    val low + 2 ^ (32 * lenZ low) * val w = V * val Qs + val wf.
Proof.
  revert w high qv qq. induction low as [|d low IH] using rev_ind; intros w high qv qq Hlow Hw Hl HwV Hqv.
  - exists w, [], qv. split_and!; [done|done|done|done|done|done|]. change (0 + 1 * val w = V * 0 + val w). lia.
  - apply Forall_app in Hlow as [Hlow [Hd _]%Forall_cons_1].
    destruct (divide_round_run low w high qv qq d su sq sg want s Hd Hw Hl HwV Hqv) as (w' & qv' & Hround & Hw' & Hlw' & Vw' & Hlq' & HQ).
    set (U := d + 2 ^ 32 * val w) in *. pose proof (val_bounds w Hw). assert (0 < V) by lia. pose proof (Z.mod_pos_bound U V ltac:(done)).
    destruct (IH w' (0 :: high) qv' (U / V :: qq) Hlow Hw' Hlw' ltac:(lia) Hlq') as (wf & Qs & qv2 & Hrun & Hwf & Hlwf & HwfV & HQs & HlQ & E).
    exists wf, (Qs ++ [U / V]), qv2. split_and!; [|done|done|done| | |].
    + replace (length (low ++ [d])) with (Datatypes.S (length low)) by (rewrite length_app; simpl; lia). cbn [fold_down].
      replace (lenZ (low ++ [d]) - 1) with (lenZ low) by lenz. rewrite replicate_S_end, <- !app_assoc. simpl app.
      mstep with Hround. rewrite <- !app_assoc. simpl app. exact Hrun.
    + apply Forall_app. split; [done|by apply Forall_singleton].
    + rewrite !length_app. simpl. lia.
    + replace (lenZ (low ++ [d])) with (lenZ low + 1) by lenz. rewrite !val_app, !val_cons, pow32_succ by apply lenZ_nonneg. change (val []) with 0.
      replace (lenZ Qs) with (lenZ low) by (unfold lenZ; lia). pose proof (Z.div_mod U V ltac:(lia)) as Hdm. rewrite Vw' in E. unfold U in *. 
      set (P := 2 ^ (32 * lenZ low)) in *. set (Q := (d + 2 ^ 32 * val w) / V) in *. set (R := (d + 2 ^ 32 * val w) mod V) in *. clearbody P Q R. nia.
Qed.
End round.

(** ** Normalised operands *)

Lemma format_loop (x : BigInt) (lz : Z) (post : list Z) (sg : bool) :
  0 < lz < 32 ->
  fold_range 0 (GetLength x) (format_round x lz) 0 (mkBigInt sg (replicate (length (GetData x)) 0 ++ post))
  = (Ok (carry_map (shift_digit lz) (GetData x) 0).2, mkBigInt sg ((carry_map (shift_digit lz) (GetData x) 0).1 ++ post)).
Proof.
  intros Hlz. unfold fold_range, GetLength. replace (Z.to_nat (lenZ (GetData x) - 0)) with (length (GetData x)) by (unfold lenZ; lia).
  apply (fold_up_digits (shift_digit lz) (format_round x lz) (GetData x) 0 0 sg []); [by rewrite length_replicate|].
  intros k a c dn Hk Hdn. unfold format_round. rewrite Z.add_0_l.
  by mstep by (apply (GetDigit_run _ _ a); [lia|by rewrite Nat2Z.id]).
Qed.

(** The shifted number in [len] or [len + 1] digits. *)
Lemma FormatLeftShift_run {S} (x : BigInt) (lz : Z) (add : bool) (s : S) :
  Forall digit (GetData x) -> 0 < GetLength x -> 0 <= lz < 32 -> GetLength x + Z.b2z add <= MAXSIZE ->
  (add = false -> val (GetData x) * 2 ^ lz < 2 ^ (32 * GetLength x)) ->
  exists sg ds, FormatLeftShift lz x add s = (Ok (mkBigInt sg ds), s) /\ Forall digit ds /\ lenZ ds = GetLength x + Z.b2z add /\
    val ds = val (GetData x) * 2 ^ lz.
Proof.
  intros Hd Hpos Hlz Hm Hfit. pose proof MAXSIZE_eq. unfold FormatLeftShift. cbv zeta.
  destruct (negb add && (lz =? 0)) eqn:Esame.
  { apply andb_true_iff in Esame as [->%negb_true_iff ->%Z.eqb_eq]. exists (GetSign x), (GetData x). split; [by destruct x|].
    split; [done|]. rewrite Z.pow_0_r. unfold GetLength. simpl. lia. }
  assert ((if add then u32 (GetLength x + 1) else GetLength x) = GetLength x + Z.b2z add) as -> by (destruct add; [rewrite u32_small|]; simpl in *; lia).
  mstep by (apply CreateBigint_run; destruct add; simpl in *; lia).
  replace (Z.to_nat (GetLength x + Z.b2z add)) with (length (GetData x) + Z.to_nat (Z.b2z add))%nat by (unfold GetLength, lenZ; destruct add; simpl; lia).
  rewrite replicate_split. destruct (Z.eqb_spec lz 0) as [->|Hlz0].
  - destruct add; [|done]. eexists _, _. split; [done|]. simpl GetData. rewrite drop_app_length' by (by rewrite length_replicate).
    split; [apply Forall_app; split; [done|by apply Forall_singleton]|]. rewrite lenZ_app, val_app. unfold GetLength.
    change (lenZ [0]) with 1. change (val [0]) with 0. change (Z.b2z true) with 1. change (2 ^ 0) with 1. lia.
  - pose proof (format_loop x lz (replicate (Z.to_nat (Z.b2z add)) 0) false ltac:(lia)) as Hloop.
    pose proof (shift_digits_val lz 0 (GetData x) ltac:(lia) Hd ltac:(pose proof (Z.pow_pos_nonneg 2 lz ltac:(lia) ltac:(lia)); lia)) as Hv.
    destruct (carry_map (shift_digit lz) (GetData x) 0) as [out c]. destruct Hv as (Ho & Hlo & Hc & Hv). cbn [fst snd] in Hloop.
    rewrite Z.add_0_r in Hv. destruct add.
    + exists false, (out ++ [c]). split_and!; [|apply Forall_app; split; [done|by apply Forall_singleton]| |done].
      * apply build_run. mstep with Hloop. destruct (Z.eqb_spec c 0) as [->|]; [done|]. cbn [negb]. mstep. apply SetDigit_run. unfold GetLength, lenZ. lia.
      * rewrite lenZ_app, lenZ_cons, lenZ_nil. unfold GetLength, lenZ. simpl. lia.
    + exists false, out. assert (c = 0) as ->.
      { specialize (Hfit eq_refl). rewrite <- Hv in Hfit. destruct (Z.eq_dec c 0) as [|Hne]; [done|]. pose proof (val_snoc_bounds out c Ho Hc Hne) as Hb.
        replace (lenZ out) with (GetLength x) in Hb by (unfold GetLength, lenZ; lia). lia. }
      simpl replicate in Hloop. rewrite app_nil_r in *. split_and!; [|done|unfold GetLength, lenZ; simpl; lia|].
      * apply build_run. mstep with Hloop. by rewrite app_nil_r.
      * rewrite val_app, val_cons, val_nil in Hv. lia.
Qed.

Lemma FormatLeftShift_throw {S} (x : BigInt) (lz : Z) (s : S) :
  GetLength x = MAXSIZE -> FormatLeftShift lz x true s = (Throw RANGE_ERROR, s).
Proof.
  intros Hl. pose proof MAXSIZE_eq. unfold FormatLeftShift. cbn [negb andb]. cbv zeta. apply bind_Throw, CreateBigint_throw. rewrite u32_small; lia.
Qed.

(** The divisor after the shift: as many digits, and the top bit set. *)
Lemma normalised (p : list Z) (d : Z) :
  Forall digit p -> digit d -> d <> 0 ->
  let lz := CountLeadingZeros d in let n := lenZ p + 1 in
  0 <= lz < 32 /\ 2 ^ 31 * 2 ^ (32 * lenZ p) <= val (p ++ [d]) * 2 ^ lz < 2 ^ (32 * n) /\ 2 ^ (32 * lenZ p) * 2 ^ lz <= val (p ++ [d]) * 2 ^ lz.
Proof.
  intros Hp Hd Hne. cbv zeta. destruct (leading_zeros d Hd Hne) as [Hlz HD]. split; [done|]. pose proof (val_snoc_bounds p d Hp Hd Hne) as Hlow.
  pose proof (val_bounds p Hp) as Bp. assert (0 < 2 ^ CountLeadingZeros d) by (apply Z.pow_pos_nonneg; lia).
  rewrite pow32_succ by apply lenZ_nonneg. rewrite val_app, val_cons, val_nil in *. set (P := 2 ^ (32 * lenZ p)) in *.
  assert (2 ^ 32 = 2 ^ (32 - CountLeadingZeros d) * 2 ^ CountLeadingZeros d) as E by (rewrite <- Z.pow_add_r by lia; f_equal; lia).
  rewrite E in *. set (L := 2 ^ CountLeadingZeros d) in *. set (K := 2 ^ (32 - CountLeadingZeros d)) in *.
  assert (d + 1 <= K) by nia. rewrite Z.mul_0_r, Z.add_0_r in *. split; [split|]; nia.
Qed.

(** The top digits of the shifted dividend are below the divisor. *)
Lemma first_window (low w : list Z) (X L P V : Z) :
  Forall digit low -> 0 < L -> val (low ++ w) = X * L -> X < 2 ^ (32 * lenZ low) * P -> P * L <= V -> val w < V.
Proof.
  intros Hlow HL Hv HX HP. pose proof (val_bounds low Hlow). rewrite val_app in Hv. set (B := 2 ^ (32 * lenZ low)) in *.
  assert (B * val w < B * (P * L)) by nia. assert (val w < P * L) by nia. lia.
Qed.

(** ** Division by several digits *)

Lemma quotient_unique (X Y L Q W : Z) :
  0 < L -> (Y * L) * Q + W = X * L -> 0 <= W < Y * L -> Q = X / Y /\ W / L = X mod Y.
Proof.
  intros HL E HW. assert (W = (X - Y * Q) * L) as EW by lia. assert (0 <= X - Y * Q < Y) by nia. rewrite EW, Z.div_mul by lia. split.
  - apply Z.div_unique with (X - Y * Q); lia.
  - apply Z.mod_unique with Q; lia.
Qed.

(** The part of the division after the operands are shifted. *)
Lemma algorithm_D {S} (us vs qv : list Z) (X Y lz m : Z) (su sv sq want : bool) (s : S) :
  Forall digit us -> Forall digit vs -> 0 <= lz < 32 -> 0 <= m -> lenZ vs + 1 <= MAXSIZE -> 2 <= lenZ vs -> lenZ us = m + lenZ vs + 1 ->
  lenZ us < 2 ^ 32 -> val us = X * 2 ^ lz -> val vs = Y * 2 ^ lz -> 2 ^ 31 * 2 ^ (32 * (lenZ vs - 1)) <= val vs ->
  X < 2 ^ (32 * (m + lenZ vs)) -> 2 ^ (32 * (lenZ vs - 1)) * 2 ^ lz <= val vs -> lenZ qv = lenZ vs + 1 ->
  exists r sg ds, (vHighest ← GetDigit (mkBigInt sv vs) (lenZ vs - 1);
     vars ← fold_down (Z.to_nat (m + 1)) m (divide_round (mkBigInt sv vs) (lenZ vs) vHighest) (mkBigInt su us, mkBigInt sq qv, kept want false (replicate (Z.to_nat (m + 1)) 0));
     let '(u, qv, quotient) := vars in
     match quotient with
     | Some qt => mret qt
     | None => build u (UnformattedRightShift lz)
     end) s = (Ok r, s) /\ r = mkBigInt sg ds /\ Forall digit ds /\ 0 < lenZ ds <= lenZ us /\
     val ds = if want then X / Y else X mod Y.
Proof.
  intros Hus Hvs Hlz Hm Hn Hn2 Hlu Hlu32 Vus Vvs Htop HX HY Hqv.
  destruct (split_len vs (lenZ vs - 2)) as (vl & tops & Evs & Hvl); [lia|].
  assert (exists v2 v1, tops = [v2; v1]) as (v2 & v1 & ->).
  { apply (f_equal lenZ) in Evs. rewrite lenZ_app in Evs. destruct tops as [|a [|b [|c r]]]; rewrite ?lenZ_cons, ?lenZ_nil in Evs; try lia; [by eauto|pose proof (lenZ_nonneg r); lia]. }
  assert (digit v1 /\ 2 ^ 31 <= v1) as [Hv1d Hv1].
  { pose proof Hvs as Hd. rewrite Evs in Hd. replace (vl ++ [v2; v1]) with ((vl ++ [v2]) ++ [v1]) in Hd by (by rewrite <- app_assoc).
    apply Forall_app in Hd as [Hl [H1 _]%Forall_cons_1]. split; [done|]. pose proof (val_bounds _ Hl) as B.
    replace (lenZ (vl ++ [v2])) with (lenZ vs - 1) in B by (rewrite lenZ_app, lenZ_cons, lenZ_nil; lia).
    assert (val vs = val (vl ++ [v2]) + 2 ^ (32 * (lenZ vs - 1)) * v1) as E.
    { rewrite Evs at 1. replace (vl ++ [v2; v1]) with ((vl ++ [v2]) ++ [v1]) by (by rewrite <- app_assoc). rewrite val_app, (val_cons v1), val_nil.
      replace (lenZ (vl ++ [v2])) with (lenZ vs - 1) by (rewrite lenZ_app, lenZ_cons, lenZ_nil; lia). lia. }
    set (P := 2 ^ (32 * (lenZ vs - 1))) in *. nia. }
  assert (vs !! Z.to_nat (lenZ vs - 1) = Some v1) as Htopd.
  { transitivity (((vl ++ [v2]) ++ [v1]) !! Z.to_nat (lenZ vs - 1)); [by rewrite <- app_assoc; simpl app; rewrite <- Evs|].
    apply list_lookup_middle. rewrite length_app. unfold lenZ in *. simpl. lia. }
  mstep by (apply (GetDigit_run _ _ v1); [lia|exact Htopd]).
  destruct (split_len us (m + 1)) as (low & w & -> & Hlow); [lia|]. rewrite lenZ_app in Hlu. apply Forall_app in Hus as [Hdl Hdw].
  assert (0 < 2 ^ lz) as HL by (apply Z.pow_pos_nonneg; lia).
  assert (val w < val vs) as Hw.
  { apply (first_window low w X (2 ^ lz) (2 ^ (32 * (lenZ vs - 1)))); [done|done|done| |done]. rewrite <- Z.pow_add_r by lia.
    replace (32 * lenZ low + 32 * (lenZ vs - 1)) with (32 * (m + lenZ vs)) by lia. done. }
  destruct (divide_loop vs vl v1 v2 sv Evs Hvs Hv1 Hn low w [] qv [] su sq false want s Hdl Hdw) as (wf & Qs & qv' & Hrun & Hwf & Hlwf & HwfV & HQs & HlQ & E);
    [unfold lenZ in *; lia|done|unfold lenZ in *; lia|].
  rewrite !app_nil_r in Hrun. replace (length low) with (Z.to_nat (m + 1)) in Hrun by (unfold lenZ in *; lia). replace (lenZ low - 1) with m in Hrun by lia.
  mstep with Hrun. pose proof (val_bounds wf Hwf) as Bwf. rewrite <- val_app, Vus in E.
  rewrite Vvs in *. destruct (quotient_unique X Y (2 ^ lz) (val Qs) (val wf) HL ltac:(lia) ltac:(lia)) as [EQ ER].
  destruct want; simpl kept; cbv iota.
  - eexists _, false, Qs. split_and!; [done|done|done|unfold lenZ in *; lia|unfold lenZ in *; rewrite length_app; lia|done].
  - destruct (UnformattedRightShift_run (wf ++ replicate (Z.to_nat (m + 1)) 0) lz su) as (out & Hsh & Hout & Hlo & Vo).
    + apply Forall_app. split; [done|by apply Forall_replicate].
    + rewrite lenZ_app, lenZ_replicate. rewrite lenZ_app in Hlu32. unfold lenZ in *. lia.
    + done.
    + eexists _, su, out. split; [by apply build_run|]. split_and!; [done|done| | |].
      * rewrite Hlo, lenZ_app, lenZ_replicate. unfold lenZ in *. lia.
      * rewrite Hlo, !lenZ_app, lenZ_replicate. unfold lenZ in *. lia.
      * rewrite Vo, val_app, val_replicate, Z.mul_0_r, Z.add_0_r. done.
Qed.

(** The digits that a division returns: of the quotient, or of the remainder. *)
Definition divides {S} (m : M S BigInt) (want : bool) (x y : BigInt) (s : S) : Prop :=
  exists sg ds, m s = (Ok (mkBigInt sg ds), s) /\ Forall digit ds /\ 0 < lenZ ds <= MAXSIZE /\
    val ds = if want then val (GetData x) / val (GetData y) else val (GetData x) mod val (GetData y).

Lemma divisor_top (y : BigInt) :
  wf y -> 2 <= GetLength y -> exists p d, GetData y = p ++ [d] /\ GetLength y = lenZ p + 1 /\ Forall digit p /\ digit d /\ d <> 0.
Proof.
  intros Hy Hl. destruct (wf_top y Hy) as (p & d & Ey & Ht). assert (GetLength y = lenZ p + 1) as Hlp by (unfold GetLength; rewrite Ey; lenz).
  destruct Ht as [Hne|[-> _]]; [|change (lenZ []) with 0 in Hlp; lia].
  pose proof (wf_digits y Hy) as Dy. rewrite Ey in Dy. apply Forall_app in Dy as [Hp [Hd _]%Forall_cons_1]. by exists p, d.
Qed.

Lemma BigintDivisor_run {S} (x y : BigInt) (want : bool) (s : S) :
  wf x -> wf y -> 2 <= GetLength y <= GetLength x -> GetLength x < MAXSIZE -> divides (DivideAndRemainderWithBigintDivisor x y want) want x y s.
Proof.
  intros Hx Hy Hl Hm. pose proof MAXSIZE_eq. pose proof (wf_digits x Hx) as Dx. pose proof (wf_digits y Hy) as Dy.
  destruct (divisor_top y Hy ltac:(lia)) as (p & d & Ey & Hlp & Hp & Hd & Hne).
  destruct (normalised p d Hp Hd Hne) as (Hlz & Htop & Hlow). rewrite <- Ey in *. set (lz := CountLeadingZeros d) in *. pose proof (lenZ_nonneg p).
  destruct (FormatLeftShift_run y lz false s Dy ltac:(lia) Hlz ltac:(simpl; lia)) as (sv & vs & Hv & Dvs & Lvs & Vvs); [intros _; rewrite Hlp; apply Htop|].
  destruct (FormatLeftShift_run x lz true s Dx ltac:(lia) Hlz ltac:(simpl; lia)) as (su & us & Hu & Dus & Lus & Vus); [done|].
  change (Z.b2z false) with 0 in Lvs. change (Z.b2z true) with 1 in Lus. rewrite Z.add_0_r in Lvs. set (m := GetLength x - GetLength y).
  destruct (algorithm_D us vs (replicate (Z.to_nat (GetLength y + 1)) 0) (val (GetData x)) (val (GetData y)) lz m su sv false want s)
    as (r & sg & ds & Hrun & -> & Hds & Hlds & Vds); [done|done|done|unfold m; lia|lia|lia|unfold m; lia|lia|done|done|..].
  { rewrite Lvs, Hlp, Vvs. replace (lenZ p + 1 - 1) with (lenZ p) by lia. lia. }
  { rewrite Lvs. replace (m + GetLength y) with (GetLength x) by (unfold m; lia). apply (val_bounds _ Dx). }
  { rewrite Lvs, Hlp, Vvs. replace (lenZ p + 1 - 1) with (lenZ p) by lia. lia. }
  { rewrite lenZ_replicate. lia. }
  exists sg, ds. split_and!; [|done|lia|lia|done]. rewrite Lvs in Hrun. unfold DivideAndRemainderWithBigintDivisor. cbv zeta.
  rewrite (u32_small (GetLength x - GetLength y)) by lia. fold m. rewrite (u32_small (m + 1)), (u32_small (GetLength y + 1)) by (unfold m; lia).
  rewrite (bind_Ok _ _ _ s (kept want false (replicate (Z.to_nat (m + 1)) 0))).
  2: { destruct want; [|done]. mstep by (apply CreateBigint_run; unfold m; lia). done. }
  mstep by (apply (GetDigit_run _ _ d); [lia|]; rewrite Ey; apply list_lookup_middle; unfold lenZ in *; lia). fold lz.
  mstep with Hv. mstep with Hu. mstep by (apply CreateBigint_run; lia). exact Hrun.
Qed.

Lemma BigintDivisor_throw {S} (x y : BigInt) (want : bool) (s : S) :
  wf x -> wf y -> 2 <= GetLength y <= GetLength x -> GetLength x = MAXSIZE ->
  DivideAndRemainderWithBigintDivisor x y want s = (Throw RANGE_ERROR, s).
Proof.
  intros Hx Hy Hl Hm. pose proof MAXSIZE_eq. pose proof (wf_digits y Hy) as Dy. unfold DivideAndRemainderWithBigintDivisor. cbv zeta.
  rewrite (u32_small (GetLength x - GetLength y)) by lia. rewrite (u32_small (GetLength x - GetLength y + 1)) by lia.
  rewrite (bind_Ok _ _ _ s (kept want false (replicate (Z.to_nat (GetLength x - GetLength y + 1)) 0))).
  2: { destruct want; [|done]. mstep by (apply CreateBigint_run; lia). done. }
  destruct (divisor_top y Hy ltac:(lia)) as (p & d & Ey & Hlp & Hp & Hd & Hne).
  destruct (normalised p d Hp Hd Hne) as (Hlz & Htop & _). rewrite <- Ey in *.
  mstep by (apply (GetDigit_run _ _ d); [lia|]; rewrite Ey; apply list_lookup_middle; unfold lenZ in *; lia).
  destruct (FormatLeftShift_run y (CountLeadingZeros d) false s Dy ltac:(lia) Hlz ltac:(simpl; lia)) as (sv & vs & Hv & _); [intros _; rewrite Hlp; apply Htop|].
  mstep with Hv. by apply bind_Throw, FormatLeftShift_throw.
Qed.

(** ** Division by one digit *)

Lemma uint32_quotient_loop (x : BigInt) (d : Z) (low post qs : list Z) (r : Z) (sg : bool) :
  GetData x = low ++ post -> Forall digit low -> digit d -> 0 <= r < d ->
  exists Qs r', fold_down (length low) (lenZ low - 1) (uint32_quotient_round x d) r (mkBigInt sg (replicate (length low) 0 ++ qs))
    = (Ok r', mkBigInt sg (Qs ++ qs)) /\ Forall digit Qs /\ length Qs = length low /\ 0 <= r' < d /\
    val low + 2 ^ (32 * lenZ low) * r = d * val Qs + r'.
Proof.
  revert post qs r. induction low as [|e low IH] using rev_ind; intros post qs r Hx Hlow Hd Hr.
  - exists [], r. split_and!; [done|done|done|lia|lia|]. change (0 + 1 * r = d * 0 + r). lia.
  - apply Forall_app in Hlow as [Hlow [He _]%Forall_cons_1]. unfold digit in Hd, He.
    destruct (DivideAndRemainder_run r e d (mkBigInt sg (replicate (length (low ++ [e])) 0 ++ qs))) as (q & r1 & Hdr & Hq & Hex); [unfold digit; lia|done|done|lia|].
    destruct (Hex ltac:(lia)) as [Eq Er]. pose proof (Z.mod_pos_bound (r * 2 ^ 32 + e) d ltac:(lia)). pose proof (Z.div_mod (r * 2 ^ 32 + e) d ltac:(lia)) as Hdm.
    rewrite <- Eq, <- Er in *. rewrite <- app_assoc in Hx.
    destruct (IH (e :: post) (q :: qs) r1 Hx Hlow Hd ltac:(lia)) as (Qs & r' & Hrun & HQs & HlQ & Hr' & E).
    exists (Qs ++ [q]), r'. split_and!; [|apply Forall_app; split; [done|by apply Forall_singleton]|rewrite !length_app; simpl; lia|lia|lia|].
    + rewrite <- app_assoc. simpl app. rewrite <- Hrun. clear Hrun.
      replace (length (low ++ [e])) with (Datatypes.S (length low)) in * by (rewrite length_app; simpl; lia). cbn [fold_down].
      replace (lenZ (low ++ [e]) - 1) with (lenZ low) by lenz. pose proof (lenZ_nonneg low).
      rewrite (bind_Ok _ _ _ (mkBigInt sg (replicate (length low) 0 ++ q :: qs)) r1); [done|]. unfold uint32_quotient_round.
      mstep by (apply (GetDigit_run _ _ e); [lia|]; rewrite Hx; apply list_lookup_middle; unfold lenZ; lia). mstep with Hdr. cbn [fst snd].
      rewrite replicate_S_end, <- app_assoc. simpl app. mstep by (apply SetDigit_run; rewrite lenZ_replicate; done). done.
    + replace (lenZ (low ++ [e])) with (lenZ low + 1) by lenz. rewrite !val_app, !val_cons, pow32_succ by apply lenZ_nonneg. change (val []) with 0.
      replace (lenZ Qs) with (lenZ low) by (unfold lenZ; lia). set (P := 2 ^ (32 * lenZ low)) in *. nia.
Qed.

Lemma uint32_remainder_loop {S} (x : BigInt) (d : Z) (low post : list Z) (r : Z) (o : option BigInt) (s : S) :
  GetData x = low ++ post -> Forall digit low -> digit d -> 0 <= r < d ->
  exists r', fold_down (length low) (lenZ low - 1) (uint32_remainder_round x d) (r, o) s
    = (Ok (r', match low with [] => o | _ => Some (mkBigInt false [r']) end), s) /\ 0 <= r' < d /\
    r' = (val low + 2 ^ (32 * lenZ low) * r) mod d.
Proof.
  revert post r o. induction low as [|e low IH] using rev_ind; intros post r o Hx Hlow Hd Hr.
  - exists r. split_and!; [done|lia|lia|]. change (r = (0 + 1 * r) mod d). rewrite Z.mod_small; lia.
  - apply Forall_app in Hlow as [Hlow [He _]%Forall_cons_1]. unfold digit in Hd, He.
    destruct (DivideAndRemainder_run r e d s) as (q & r1 & Hdr & Hq & Hex); [unfold digit; lia|done|done|lia|].
    destruct (Hex ltac:(lia)) as [_ Er]. pose proof (Z.mod_pos_bound (r * 2 ^ 32 + e) d ltac:(lia)).
    rewrite <- app_assoc in Hx. destruct (IH (e :: post) r1 (Some (mkBigInt false [r1])) Hx Hlow Hd ltac:(lia)) as (r' & Hrun & Hr' & E).
    exists r'. split_and!; [|lia|lia|].
    + replace (length (low ++ [e])) with (Datatypes.S (length low)) by (rewrite length_app; simpl; lia). cbn [fold_down].
      replace (lenZ (low ++ [e]) - 1) with (lenZ low) by lenz. pose proof (lenZ_nonneg low).
      rewrite (bind_Ok _ _ _ s (r1, Some (mkBigInt false [r1]))).
      * rewrite Hrun. destruct low; simpl app; [|done]. simpl in Hrun. by injection Hrun as ->.
      * unfold uint32_remainder_round. mstep by (apply (GetDigit_run _ _ e); [lia|]; rewrite Hx; apply list_lookup_middle; unfold lenZ; lia).
        cbn [fst]. mstep with Hdr. done.
    + replace (lenZ (low ++ [e])) with (lenZ low + 1) by lenz. rewrite E, !val_app, !val_cons, pow32_succ by apply lenZ_nonneg. change (val []) with 0.
      rewrite Er. set (P := 2 ^ (32 * lenZ low)) in *. rewrite <- Z.add_mod_idemp_r, Z.mul_mod_idemp_r, Z.add_mod_idemp_r by lia. f_equal. lia.
Qed.

Lemma Uint32Divisor_run {S} (x y : BigInt) (d : Z) (want : bool) (s : S) :
  wf x -> GetData y = [d] -> digit d -> d <> 0 -> divides (DivideAndRemainderWithUint32Divisor x d want) want x y s.
Proof.
  intros Hx Ey Hd Hne. pose proof (wf_length x Hx) as Lx. pose proof (wf_digits x Hx) as Dx. unfold digit in Hd. unfold divides, DivideAndRemainderWithUint32Divisor. cbv zeta.
  rewrite Ey. change (val [d]) with (d + 2 ^ 32 * 0). rewrite Z.mul_0_r, Z.add_0_r.
  replace (Z.to_nat (GetLength x)) with (length (GetData x)) by (unfold GetLength, lenZ; lia). destruct want.
  - destruct (uint32_quotient_loop x d (GetData x) [] [] 0 false) as (Qs & r' & Hrun & HQs & HlQ & Hr' & E); [by rewrite app_nil_r|done|done|lia|].
    rewrite !app_nil_r in Hrun. exists false, Qs. split_and!; [|done|unfold GetLength, lenZ in *; lia|unfold GetLength, lenZ in *; lia|].
    + mstep by (by apply CreateBigint_run). apply build_run. replace (Z.to_nat (GetLength x)) with (length (GetData x)) by (unfold GetLength, lenZ; lia).
      mstep with Hrun. done.
    + apply Z.div_unique with r'; lia.
  - destruct (uint32_remainder_loop x d (GetData x) [] 0 None s) as (r' & Hrun & Hr' & E); [by rewrite app_nil_r|done|done|lia|].
    exists false, [r']. mstep with Hrun. cbn [snd]. split_and!; [|apply Forall_singleton; unfold digit; lia|done|done|].
    + destruct (GetData x) eqn:Ex; [|done]. unfold GetLength in Lx. rewrite Ex in Lx. lenz.
    + change (val [r']) with (r' + 2 ^ 32 * 0). rewrite E, !Z.mul_0_r, !Z.add_0_r. done.
Qed.

(** ** Quotient and remainder *)

Lemma quot_signed (x y : BigInt) :
  wf x -> wf y -> IsZero y = false -> Z.quot (value x) (value y) = signed (xorb (GetSign x) (GetSign y)) (val (GetData x) / val (GetData y)).
Proof.
  intros Hx Hy Hz. pose proof (val_pos y Hy Hz). pose proof (val_bounds _ (wf_digits x Hx)). unfold value, signed.
  destruct (GetSign x), (GetSign y); simpl xorb; cbv iota; rewrite ?Z.quot_opp_opp, ?Z.quot_opp_l, ?Z.quot_opp_r, Z.quot_div_nonneg by lia; lia.
Qed.

Lemma rem_signed (x y : BigInt) :
  wf x -> wf y -> IsZero y = false -> Z.rem (value x) (value y) = signed (GetSign x) (val (GetData x) mod val (GetData y)).
Proof.
  intros Hx Hy Hz. pose proof (val_pos y Hy Hz). pose proof (val_bounds _ (wf_digits x Hx)). unfold value, signed.
  destruct (GetSign x), (GetSign y); rewrite ?Z.rem_opp_l', ?Z.rem_opp_r', Z.rem_mod_nonneg by lia; lia.
Qed.

(** What follows the division of the magnitudes. *)
Lemma divides_finish {S} (m : M S BigInt) (want sign : bool) (x y : BigInt) (s : S) :
  divides m want x y s ->
  computes (r ← m; r ← build r (SetSign sign); RightTruncate r)
    (signed sign (if want then val (GetData x) / val (GetData y) else val (GetData x) mod val (GetData y))) s.
Proof.
  intros (sg & ds & Hm & Hds & Hl & <-). cstep with Hm. cstep by (apply (build_run _ (mkBigInt sign ds)); reflexivity).
  by apply (RightTruncate_run (mkBigInt sign ds)).
Qed.

(** Whether the division can allocate the shifted dividend, which has one digit
    more; it is needed when the divisor has several digits and is smaller. *)
Definition divide_ok (x y : BigInt) : bool :=
  (GetLength x <? MAXSIZE) || IsUint32 y || (Z.abs (value x) <=? Z.abs (value y)).

(** The division proper: the magnitude of [x] is the larger one. *)
Lemma division_run {S} (x y : BigInt) (y0 : Z) (want sign : bool) (s : S) :
  wf x -> wf y -> IsZero y = false -> val (GetData y) < val (GetData x) -> GetData y !! 0%nat = Some y0 ->
  let m := r ← (if IsUint32 y then DivideAndRemainderWithUint32Divisor x y0 want else DivideAndRemainderWithBigintDivisor x y want);
           r ← build r (SetSign sign); RightTruncate r in
  if divide_ok x y then computes m (signed sign (if want then val (GetData x) / val (GetData y) else val (GetData x) mod val (GetData y))) s
  else m s = (Throw RANGE_ERROR, s).
Proof.
  intros Hx Hy Hz Hlt H0. cbv zeta. pose proof (wf_length y Hy) as Ly. pose proof (wf_length x Hx) as Lx. unfold divide_ok.
  rewrite <- !val_abs by done. replace (val (GetData x) <=? val (GetData y)) with false by (symmetry; apply Z.leb_gt; lia). rewrite orb_false_r.
  destruct (IsUint32 y) eqn:Hu.
  - rewrite orb_true_r. unfold IsUint32 in Hu. destruct (one_digit y y0 Hu H0) as [Ey _]. apply divides_finish. apply Uint32Divisor_run; [done|done| |].
    + pose proof (wf_digits y Hy) as Dy. rewrite Ey in Dy. by apply Forall_cons_1 in Dy as [? _].
    + intros ->. unfold IsZero in Hz. by rewrite Ey in Hz.
  - rewrite orb_false_r. unfold IsUint32 in Hu. apply Z.eqb_neq in Hu.
    assert (GetLength y <= GetLength x) by (destruct (Z.lt_ge_cases (GetLength x) (GetLength y)) as [Hl|]; [pose proof (longer_larger x y Hx Hy Hl); lia|lia]).
    destruct (Z.ltb_spec (GetLength x) MAXSIZE).
    + apply divides_finish. apply BigintDivisor_run; [done|done|lia|done].
    + apply bind_Throw. apply BigintDivisor_throw; [done|done|lia|lia].
Qed.

Lemma compare_sizes {S} (x y : BigInt) (s : S) : wf x -> wf y ->
  exists c, AbsolutelyCompare x y s = (Ok c, s) /\
  ((c = LESS /\ val (GetData x) < val (GetData y)) \/ (c = EQUAL /\ val (GetData x) = val (GetData y)) \/ (c = GREAT /\ val (GetData y) < val (GetData x))).
Proof.
  intros Hx Hy. eexists. split; [by apply AbsolutelyCompare_run|]. unfold comparison.
  destruct (Z.compare_spec (val (GetData x)) (val (GetData y))); auto.
Qed.

(** Division by 1 and -1. *)
Lemma unit_divisor (x y : BigInt) (y0 : Z) :
  wf x -> IsUint32 y && (y0 =? 1) = true -> GetData y !! 0%nat = Some y0 -> val (GetData y) = 1.
Proof.
  intros Hx [Hu ->%Z.eqb_eq]%andb_true_iff H0. destruct (one_digit y 1 Hu H0) as [-> _]. done.
Qed.

Lemma Divide_run {S} (x y : BigInt) (s : S) :
  wf x -> wf y ->
  if IsZero y then Divide x y s = (Throw RANGE_ERROR, s)
  else if divide_ok x y then computes (Divide x y) (Z.quot (value x) (value y)) s
  else Divide x y s = (Throw RANGE_ERROR, s).
Proof.
  intros Hx Hy. unfold Divide. destruct (IsZero y) eqn:Hz; [done|]. cbv zeta. rewrite (quot_signed x y Hx Hy Hz).
  pose proof (val_pos y Hy Hz). pose proof (val_bounds _ (wf_digits x Hx)). set (sign := xorb (GetSign x) (GetSign y)).
  assert (Z.abs (value x) <= Z.abs (value y) -> divide_ok x y = true) as Hok.
  { intros Hle%Z.leb_le. unfold divide_ok. rewrite Hle. apply orb_true_r. }
  rewrite <- !val_abs in Hok by done.
  destruct (compare_sizes x y s Hx Hy) as (c & Hc & [[-> Hlt]|[[-> Heq]|[-> Hgt]]]).
  - rewrite Hok by lia. cstep with Hc. rewrite Z.div_small by lia. replace (signed sign 0) with 0 by (by destruct sign). by apply Int32ToBigInt_run.
  - rewrite Hok by lia. cstep with Hc. rewrite Heq, Z.div_same by lia. cstep with (one_run s). exists (mkBigInt sign [1]). split; [done|].
    split; [by apply wf_small|]. by destruct sign.
  - destruct (lookup_lt_is_Some_2 (GetData y) 0) as [y0 Hy0]; [pose proof (wf_length y Hy); unfold GetLength, lenZ in *; lia|].
    assert (forall f : ComparisonResult -> M S BigInt, (AbsolutelyCompare x y ≫= f) s = f GREAT s) as Hstep by (intros; by rewrite (bind_Ok _ _ _ _ _ Hc)).
    destruct (IsUint32 y && (y0 =? 1)) eqn:Hone.
    + pose proof (unit_divisor x y y0 Hx Hone Hy0) as Hv1. unfold divide_ok. apply andb_true_iff in Hone as [Hu H1]. rewrite Hu, orb_true_r. simpl orb. cbv iota.
      cstep with Hc. cstep by (by apply (GetDigit_run y 0 y0)). rewrite H1. cbn [andb]. rewrite Hv1, Z.div_1_r.
      destruct (eqb sign (GetSign x)) eqn:Es.
      * apply eqb_prop in Es. exists x. split; [done|]. split; [done|]. by rewrite Es.
      * apply eqb_false_iff in Es. replace (signed sign (val (GetData x))) with (- value x) by (unfold value, signed; destruct sign, (GetSign x); (done || lia)).
        by apply UnaryMinus_run.
    + pose proof (division_run x y y0 true sign s Hx Hy Hz Hgt Hy0) as Hd. cbv zeta in Hd. destruct (divide_ok x y).
      * cstep with Hc. cstep by (by apply (GetDigit_run y 0 y0)). by rewrite Hone.
      * rewrite (bind_Ok _ _ _ _ _ Hc). cbv iota beta. mstep by (by apply (GetDigit_run y 0 y0)). by rewrite Hone.
Qed.

Lemma Remainder_run {S} (x y : BigInt) (s : S) :
  wf x -> wf y ->
  if IsZero y then Remainder x y s = (Throw RANGE_ERROR, s)
  else if divide_ok x y then computes (Remainder x y) (Z.rem (value x) (value y)) s
  else Remainder x y s = (Throw RANGE_ERROR, s).
Proof.
  intros Hx Hy. unfold Remainder. destruct (IsZero y) eqn:Hz; [done|]. rewrite (rem_signed x y Hx Hy Hz).
  pose proof (val_pos y Hy Hz). pose proof (val_bounds _ (wf_digits x Hx)).
  assert (Z.abs (value x) <= Z.abs (value y) -> divide_ok x y = true) as Hok.
  { intros Hle%Z.leb_le. unfold divide_ok. rewrite Hle. apply orb_true_r. }
  rewrite <- !val_abs in Hok by done.
  destruct (compare_sizes x y s Hx Hy) as (c & Hc & Hcase).
  destruct (Z.lt_ge_cases (val (GetData x)) (val (GetData y))) as [Hlt|Hge].
  { rewrite Hok by lia. cstep with Hc. assert (c = LESS) as -> by (destruct Hcase as [[-> ?]|[[-> ?]|[-> ?]]]; (done || lia)). rewrite orb_true_r.
    exists x. split; [done|]. split; [done|]. rewrite Z.mod_small by lia. done. }
  assert (IsZero x = false) as Hzx by (destruct (IsZero x) eqn:Hzx; [pose proof (val_zero x Hzx); lia|done]).
  destruct (lookup_lt_is_Some_2 (GetData y) 0) as [y0 Hy0]; [pose proof (wf_length y Hy); unfold GetLength, lenZ in *; lia|].
  destruct Hcase as [[-> ?]|[[-> Heq]|[-> Hgt]]]; [lia|..].
  - rewrite Hok by lia. cstep with Hc. rewrite Hzx. cbn [orb]. cstep by (by apply (GetDigit_run y 0 y0)). cbn [orb].
    rewrite Heq, Z.mod_same by lia. replace (signed (GetSign x) 0) with 0 by (by destruct (GetSign x)). by apply Int32ToBigInt_run.
  - destruct (IsUint32 y && (y0 =? 1)) eqn:Hone.
    + pose proof (unit_divisor x y y0 Hx Hone Hy0) as Hv1. assert (divide_ok x y = true) as ->.
      { unfold divide_ok. apply andb_true_iff in Hone as [-> _]. by rewrite orb_true_r. }
      cstep with Hc. rewrite Hzx. cbn [orb]. cstep by (by apply (GetDigit_run y 0 y0)). rewrite Hone. cbn [orb]. rewrite Hv1, Z.mod_1_r.
      replace (signed (GetSign x) 0) with 0 by (by destruct (GetSign x)). by apply Int32ToBigInt_run.
    + pose proof (division_run x y y0 false (GetSign x) s Hx Hy Hz Hgt Hy0) as Hd. cbv zeta in Hd. destruct (divide_ok x y).
      * cstep with Hc. rewrite Hzx. cbn [orb]. cstep by (by apply (GetDigit_run y 0 y0)). rewrite Hone. cbn [orb]. done.
      * rewrite (bind_Ok _ _ _ _ _ Hc). cbv iota beta. rewrite Hzx. cbn [orb]. mstep by (by apply (GetDigit_run y 0 y0)). rewrite Hone. cbn [orb]. done.
Qed.

(** C4: dividing BigInts truncates towards zero and the remainder has the sign
    of the dividend; a zero divisor throws the range error, and so does a
    dividend of the greatest length that algorithm D would have to extend. *)
Theorem bigint_Divide_Remainder_spec {S} (x y : BigInt) (s : S) :
  wf x -> wf y ->
  if negb (IsZero y) && divide_ok x y
  then computes (Divide x y) (Z.quot (value x) (value y)) s /\ computes (Remainder x y) (Z.rem (value x) (value y)) s
  else Divide x y s = (Throw RANGE_ERROR, s) /\ Remainder x y s = (Throw RANGE_ERROR, s).
Proof.
  intros Hx Hy. pose proof (Divide_run x y s Hx Hy). pose proof (Remainder_run x y s Hx Hy).
  destruct (IsZero y); [done|]. cbn [negb andb]. by destruct (divide_ok x y).
Qed.

Lemma bigint_Divide_Remainder_spec_witness :
  computes (Divide (mkBigInt true [7; 8; 9]) ones64) (-9) tt /\ computes (Remainder (mkBigInt true [7; 8; 9]) ones64) (- (16 + 8 * 2 ^ 32)) tt.
Proof. exact (bigint_Divide_Remainder_spec (mkBigInt true [7; 8; 9]) ones64 tt ltac:(by apply wfb_wf) ltac:(by apply wfb_wf)). Defined.

(** Two digits divided by one digit: the correction loops end, and when the
    high digit is below the divisor the quotient and the remainder are exact. *)
Theorem bigint_DivideAndRemainder_total {S} (highBit lowBit divisor : Z) (s : S) :
  digit highBit -> digit lowBit -> digit divisor -> divisor <> 0 ->
  exists q r, DivideAndRemainder highBit lowBit divisor s = (Ok (q, r), s) /\ digit q /\
    (highBit < divisor -> q = (highBit * 2 ^ 32 + lowBit) / divisor /\ r = (highBit * 2 ^ 32 + lowBit) mod divisor).
Proof. apply DivideAndRemainder_run. Qed.

Lemma bigint_DivideAndRemainder_total_witness :
  exists q r, DivideAndRemainder 0xFFFFFFFE 0xFFFFFFFF 0xFFFFFFFF tt = (Ok (q, r), tt) /\ digit q /\
    (0xFFFFFFFE < 0xFFFFFFFF -> q = (0xFFFFFFFE * 2 ^ 32 + 0xFFFFFFFF) / 0xFFFFFFFF /\ r = (0xFFFFFFFE * 2 ^ 32 + 0xFFFFFFFF) mod 0xFFFFFFFF).
Proof. apply (bigint_DivideAndRemainder_total 0xFFFFFFFE 0xFFFFFFFF 0xFFFFFFFF tt); done. Defined.

End BigIntDiv.
