(* ===== verification/BigIntString.v ===== *)
(** * BigInt strings: js_bigint.cpp.

    A BigInt is printed by writing its bits as a string and converting that
    string to the radix by repeated division of strings; it is read by the
    inverse conversion and by packing 32 bits to a digit.  The theorems say that
    the string printed denotes the number, that reading it gives the number
    back, and what reading any string of digits gives.  A string is the list of
    its character codes. *)
From S2P Require Import Prelude TaggedValue BigInt BigIntMul.
Local Open Scope Z_scope.

Module BigIntString.
Import BigInt.

(** The table 0-9a-z of digits. *)
Definition dp : list Z := seqZ 48 10 ++ seqZ 97 26.
Definition dp_at (i : Z) : Z := default 0 (dp !! Z.to_nat i).

Definition CharToInt (c : Z) : Z :=
  if (48 <=? c) && (c <=? 57) then c - 48
  else if (65 <=? c) && (c <=? 90) then c - 65 + 10
  else if (97 <=? c) && (c <=? 122) then c - 97 + 10
  else 0.

(** The loops that count leading '0' characters. *)
Fixpoint skip_zeros (a : list Z) : list Z :=
  match a with
  | [] => []
  | c :: a' => if c =? 48 then skip_zeros a' else a
  end.

(** A round of the loop of Division: the new character and the new remain. *)
Definition division_round (conversionToRadix currentRadix c remain : Z) : Z * Z :=
  let temp := u32 (u32 (currentRadix * remain) + CharToInt c) in
  (dp_at (temp / conversionToRadix), temp mod conversionToRadix).

(** The new string and remain. *)
Definition Division (num : list Z) (conversionToRadix currentRadix : Z) : list Z * Z :=
  let '(num, remain) := carry_map (division_round conversionToRadix currentRadix) num 0 in
  (skip_zeros num, remain).

Definition DeZero (a : list Z) : list Z :=
  match skip_zeros a with [] => [48] | a' => a' end.

(** The bits of a digit, written in front of what is there: the string is
    filled from its end. *)
Fixpoint put_bits (bityLen : nat) (val : Z) (res : list Z) : list Z :=
  match bityLen with
  | O => res
  | Datatypes.S n => put_bits n (Z.shiftr val 1) ((Z.land val 1 + 48) :: res)
  end.

Definition GetBinary (bigint : BigInt) : list Z :=
  DeZero (foldl (fun res val => put_bits (Z.to_nat DATEBITS) val res) [] (GetData bigint)).

Definition BINARY : Z := 2.

(** The number that a chunk of at most 32 bits spells. *)
Definition pack_bits (chunk : list Z) : Z :=
  foldl (fun val c => Z.lor (u32 (Z.shiftl val 1)) (u32 (c - 48))) 0 chunk.

(** A round of the loop over the chunks; the loop variables are i and index. *)
Definition pack_step (binaryStr : list Z) (vars : Z * Z) : M BigInt (Z * Z + unit) :=
  let '(i, index) := vars in
  if i <? lenZ binaryStr then
    let chunk := take (Z.to_nat DATEBITS) (drop (Z.to_nat i) binaryStr) in
    SetDigit index (pack_bits chunk);;
    mret (inl (i + lenZ chunk, index - 1))
  else mret (inr tt).

Section ops.
Context {S : Type}.

Definition conversion_step (conversionToRadix currentRadix : Z) (vars : list Z * list Z) : M S (list Z * list Z + list Z) :=
  let '(newNum, res) := vars in
  if lenZ newNum =? 0 then mret (inr res)
  else
    let '(newNum, remain) := Division newNum conversionToRadix currentRadix in
    mret (inl (newNum, dp_at remain :: res)).

(** A digit has at most 6 bits and each round halves the number at least. *)
Definition Conversion (num : list Z) (conversionToRadix currentRadix : Z) : M S (list Z) :=
  ASSERT (negb (conversionToRadix =? 0));;
  while_fuel (Datatypes.S (6 * length num + 1)) (conversion_step conversionToRadix currentRadix) (num, []).

Definition ToStdString (conversionToRadix : Z) (bigint : BigInt) : M S (list Z) :=
  result ← Conversion (GetBinary bigint) conversionToRadix BINARY;
  mret (if GetSign bigint then 45 :: result else result).

(** The part of SetBigInt after the conversion to bits. *)
Definition pack (flag : bool) (binaryStr : list Z) : M S BigInt :=
  let binaryStrLen := lenZ binaryStr in
  let len := binaryStrLen / DATEBITS in
  let mod_ := binaryStrLen mod DATEBITS in
  let len := if mod_ =? 0 then len else len + 1 in
  bigint ← CreateBigint (u32 len);
  bigint ← build bigint (
    (if mod_ =? 0 then mret tt else SetDigit (len - 1) (pack_bits (take (Z.to_nat mod_) binaryStr)));;
    (if flag then SetSign true else mret tt);;
    while_fuel (Datatypes.S (length binaryStr)) (pack_step binaryStr)
      (mod_, if mod_ =? 0 then len - 1 else len - 1 - 1));
  RightTruncate bigint.

Definition SetBigInt (numStr : list Z) (currentRadix : Z) : M S BigInt :=
  let flag := match numStr with 45 :: _ => true | _ => false end in
  let digits := if flag then drop 1 numStr else numStr in
  binaryStr ← (if negb (currentRadix =? BINARY) then Conversion digits BINARY currentRadix else mret digits);
  pack flag binaryStr.
End ops.

(** "-255" in radix 10 and 16. *)
Example minus_255_decimal : ToStdString 10 (mkBigInt true [255]) tt = (Ok [45; 50; 53; 53], tt).
Proof. vm_compute. reflexivity. Qed.

Example minus_255_hex : SetBigInt [45; 102; 70] 16 tt = (Ok (mkBigInt true [255]), tt).
Proof. vm_compute. reflexivity. Qed.

(** ** What a string denotes *)

Definition num_of (radix : Z) (s : list Z) : Z := foldl (fun v c => v * radix + CharToInt c) 0 s.

(** The characters of the table that are digits in the radix; as input, upper
    case letters are digits too. *)
Definition is_digit (radix c : Z) : Prop := 0 <= CharToInt c < radix.
Definition canonical (s : list Z) : Prop := s = [48] \/ exists c s', s = c :: s' /\ CharToInt c <> 0.

Lemma num_of_acc (radix v : Z) (s : list Z) :
  foldl (fun v c => v * radix + CharToInt c) v s = v * radix ^ lenZ s + num_of radix s.
Proof.
  unfold num_of. revert v. induction s as [|c s IH]; intros v; cbn [foldl]; [change (v = v * 1 + 0); lia|]. rewrite IH, (IH (0 * radix + CharToInt c)).
  rewrite lenZ_cons, Z.pow_add_r by (pose proof (lenZ_nonneg s); lia). lia.
Qed.

Lemma num_of_cons (radix c : Z) (s : list Z) : num_of radix (c :: s) = CharToInt c * radix ^ lenZ s + num_of radix s.
Proof. unfold num_of at 1. cbn [foldl]. rewrite num_of_acc. lia. Qed.

Lemma num_of_app (radix : Z) (a b : list Z) : num_of radix (a ++ b) = num_of radix a * radix ^ lenZ b + num_of radix b.
Proof. unfold num_of at 1. rewrite foldl_app. apply num_of_acc. Qed.

Lemma num_of_bounds (radix : Z) (s : list Z) : 0 < radix -> Forall (is_digit radix) s -> 0 <= num_of radix s < radix ^ lenZ s.
Proof.
  intros Hr. induction 1 as [|c s Hc Hs IH]; [done|]. unfold is_digit in Hc. rewrite num_of_cons, lenZ_cons, Z.pow_add_r, Z.pow_1_r by (pose proof (lenZ_nonneg s); lia).
  nia.
Qed.

Lemma dp_spec (d : Z) : 0 <= d < 36 -> CharToInt (dp_at d) = d /\ dp_at d = (if d <? 10 then 48 + d else 87 + d).
Proof.
  intros Hd. unfold dp_at, dp. destruct (Z.ltb_spec d 10).
  - rewrite lookup_app_l by (rewrite length_seqZ; lia). rewrite lookup_seqZ_lt by lia. simpl. rewrite Z2Nat.id by lia.
    split; [|done]. unfold CharToInt. zb. lia.
  - rewrite lookup_app_r by (rewrite length_seqZ; lia). rewrite length_seqZ, lookup_seqZ_lt by lia. simpl.
    assert (97 + Z.of_nat (Z.to_nat d - Z.to_nat 10) = 87 + d) as -> by lia. split; [|done]. unfold CharToInt. zb. lia.
Qed.

Lemma skip_zeros_spec (radix : Z) (s : list Z) :
  Forall (fun c => exists d, 0 <= d < radix /\ c = dp_at d) s -> radix <= 36 ->
  num_of radix (skip_zeros s) = num_of radix s /\ Forall (fun c => exists d, 0 <= d < radix /\ c = dp_at d) (skip_zeros s) /\
  match skip_zeros s with [] => True | c :: _ => CharToInt c <> 0 end.
Proof.
  intros Hs Hr. induction Hs as [|c s (d & Hd & ->) Hs IH]; [done|]. simpl. destruct (dp_spec d ltac:(lia)) as [Ec Ed].
  destruct (Z.eqb_spec (dp_at d) 48) as [E|E].
  - assert (d = 0) as -> by (destruct (Z.ltb_spec d 10); lia). rewrite num_of_cons, Ec. destruct IH as (-> & ? & ?). split_and!; [lia|done|done].
  - split_and!; [done|constructor; [by exists d|done]|]. rewrite Ec. intros ->. apply E. rewrite Ed. done.
Qed.

(** ** Conversion *)

(** Characters that the table gives for digits of the radix. *)
Definition printed (radix c : Z) : Prop := exists d, 0 <= d < radix /\ c = dp_at d.

Lemma printed_digit (radix c : Z) : radix <= 36 -> printed radix c -> is_digit radix c.
Proof. intros Hr (d & Hd & ->). unfold is_digit. destruct (dp_spec d) as [-> _]; lia. Qed.

Lemma printed_digits (radix : Z) (s : list Z) : radix <= 36 -> Forall (printed radix) s -> Forall (is_digit radix) s.
Proof. intros Hr Hs. induction Hs; constructor; [by apply printed_digit|done]. Qed.

Section division.
Context (to from : Z) (Hto : 2 <= to <= 36) (Hfrom : 2 <= from <= 36).

Lemma division_loop (num : list Z) (r : Z) :
  Forall (is_digit from) num -> 0 <= r < to ->
  let '(out, r') := carry_map (division_round to from) num r in
  Forall (printed from) out /\ length out = length num /\ 0 <= r' < to /\
  r * from ^ lenZ num + num_of from num = to * num_of from out + r'.
Proof.
  intros Hn. revert r. induction Hn as [|c num Hc Hn IH]; intros r Hr; simpl.
  { split_and!; [done|done|lia|lia|]. change (r * 1 + 0 = to * 0 + r). lia. }
  unfold is_digit in Hc. set (temp := u32 (u32 (from * r) + CharToInt c)).
  assert (temp = from * r + CharToInt c) as Et by (unfold temp; rewrite (u32_small (from * r)) by nia; rewrite u32_small by nia; done).
  clearbody temp. pose proof (Z.mod_pos_bound temp to ltac:(lia)) as Hm. pose proof (Z.div_mod temp to ltac:(lia)) as Hdm.
  specialize (IH (temp mod to) Hm). destruct (carry_map (division_round to from) num (temp mod to)) as [out r'].
  destruct IH as (Ho & Hl & Hr' & E). assert (0 <= temp / to < from) as Hq by (split; [apply Z.div_pos; nia|apply Z.div_lt_upper_bound; nia]).
  split_and!; [|simpl; by rewrite Hl|lia|lia|].
  - constructor; [by exists (temp / to)|done].
  - rewrite !num_of_cons, lenZ_cons, Z.pow_add_r, Z.pow_1_r by (pose proof (lenZ_nonneg num); lia). destruct (dp_spec (temp / to) ltac:(lia)) as [-> _].
    replace (lenZ out) with (lenZ num) by (unfold lenZ; lia). set (P := from ^ lenZ num) in *. nia.
Qed.

Lemma Division_spec (num : list Z) :
  Forall (is_digit from) num ->
  exists num', Division num to from = (num', num_of from num mod to) /\ Forall (printed from) num' /\
    num_of from num' = num_of from num / to /\ match num' with [] => True | c :: _ => CharToInt c <> 0 end.
Proof.
  intros Hn. unfold Division. pose proof (division_loop num 0 Hn ltac:(lia)) as Hl.
  destruct (carry_map (division_round to from) num 0) as [out r']. destruct Hl as (Ho & _ & Hr' & E). rewrite Z.mul_0_l, Z.add_0_l in E.
  destruct (skip_zeros_spec from out Ho ltac:(lia)) as (Ev & Hp & Hh). exists (skip_zeros out). split_and!; [|done| |done].
  - f_equal. rewrite E. apply Z.mod_unique with (num_of from out); lia.
  - rewrite Ev. apply Z.div_unique with r'; lia.
Qed.

(** Strings without leading zeros. *)
Definition trimmed (s : list Z) : Prop := match s with [] => True | c :: _ => CharToInt c <> 0 end.

Lemma trimmed_pos (s : list Z) : Forall (is_digit from) s -> trimmed s -> s <> [] -> 0 < num_of from s.
Proof.
  intros Hs Ht Hne. destruct s as [|c s]; [done|]. apply Forall_cons_1 in Hs as [Hc Hs]. unfold is_digit in Hc. simpl in Ht. rewrite num_of_cons.
  pose proof (num_of_bounds from s ltac:(lia) Hs). assert (0 < from ^ lenZ s) by (apply Z.pow_pos_nonneg; [lia|apply lenZ_nonneg]). nia.
Qed.

Lemma conversion_step_run {S} (num res : list Z) (s : S) :
  num <> [] -> Forall (is_digit from) num ->
  exists num', conversion_step to from (num, res) s = (Ok (inl (num', dp_at (num_of from num mod to) :: res)), s) /\
    Forall (printed from) num' /\ trimmed num' /\ num_of from num' = num_of from num / to.
Proof.
  intros Hne Hn. destruct (Division_spec num Hn) as (num' & Hd & Hp & Hv & Ht). exists num'. split_and!; [|done|done|done].
  unfold conversion_step. destruct (Z.eqb_spec (lenZ num) 0) as [E%lenZ_zero|]; [done|]. by rewrite Hd.
Qed.

Lemma conversion_loop {S} (k : nat) (num res : list Z) (s : S) :
  Forall (is_digit from) num -> trimmed num -> num_of from num < 2 ^ Z.of_nat k ->
  exists q, while_fuel (Datatypes.S k) (conversion_step to from) (num, res) s = (Ok (q ++ res), s) /\
    Forall (printed to) q /\ trimmed q /\ (q = [] -> num = []) /\ num_of to q = num_of from num.
Proof.
  revert num res. induction k as [|k IH]; intros num res Hn Ht Hk.
  - assert (num = []) as ->; [|by exists []]. destruct (decide (num = [])) as [|Hne]; [done|]. pose proof (trimmed_pos num Hn Ht Hne).
    change (2 ^ Z.of_nat 0) with 1 in Hk. lia.
  - destruct (decide (num = [])) as [->|Hne]; [by exists []|]. pose proof (trimmed_pos num Hn Ht Hne) as Hpos.
    destruct (conversion_step_run num res s Hne Hn) as (num' & Hs & Hp & Ht' & Hv). rewrite Nat2Z.inj_succ, Z.pow_succ_r in Hk by lia.
    pose proof (Z.pow_pos_nonneg 2 (Z.of_nat k) ltac:(lia) ltac:(lia)).
    assert (num_of from num' < 2 ^ Z.of_nat k) as Hk'.
    { rewrite Hv. apply Z.div_lt_upper_bound; [lia|]. eapply Z.lt_le_trans; [exact Hk|]. apply Z.mul_le_mono_nonneg_r; lia. }
    destruct (IH num' (dp_at (num_of from num mod to) :: res) (printed_digits from num' ltac:(lia) Hp) Ht' Hk') as (q & Hrun & Hq & Htq & Hqe & Hvq).
    remember (Datatypes.S k) as f. cbn [while_fuel]. rewrite (bind_Ok _ _ _ _ _ Hs). cbv iota.
    exists (q ++ [dp_at (num_of from num mod to)]). rewrite <- app_assoc. pose proof (Z.mod_pos_bound (num_of from num) to ltac:(lia)) as Hm.
    destruct (dp_spec (num_of from num mod to) ltac:(lia)) as [Ec _]. pose proof (Z.div_mod (num_of from num) to ltac:(lia)) as Hdm.
    split_and!; [exact Hrun| | |by destruct q|].
    + apply Forall_app. split; [done|]. apply Forall_singleton. by exists (num_of from num mod to).
    + destruct q as [|c q]; [|done]. simpl. rewrite Ec. rewrite (Hqe eq_refl) in Hv. change (num_of from []) with 0 in Hv. lia.
    + rewrite num_of_app, num_of_cons, Ec. change (lenZ [dp_at (num_of from num mod to)]) with 1. change (lenZ []) with 0.
      change (num_of to []) with 0. rewrite Z.pow_1_r, Z.pow_0_r, Hvq, Hv. lia.
Qed.

(** A string of digits is converted to the string of the same number, without
    leading zeros. *)
Lemma Conversion_run {S} (num : list Z) (s : S) :
  num <> [] -> Forall (is_digit from) num ->
  exists q, Conversion num to from s = (Ok q, s) /\ Forall (printed to) q /\ (trimmed q \/ q = [48]) /\ q <> [] /\ num_of to q = num_of from num.
Proof.
  intros Hne Hn. unfold Conversion. destruct (Z.eqb_spec to 0); [lia|]. cbn [negb]. mstep.
  destruct (conversion_step_run num [] s Hne Hn) as (num' & Hs & Hp & Ht & Hv). pose proof (num_of_bounds from num ltac:(lia) Hn) as Hb.
  assert (num_of from num' < 2 ^ Z.of_nat (6 * length num)) as Hk.
  { rewrite Hv. assert (num_of from num < 2 ^ Z.of_nat (6 * length num)); [|apply Z.div_lt_upper_bound; nia]. eapply Z.lt_le_trans; [apply Hb|].
    replace (Z.of_nat (6 * length num)) with (6 * lenZ num) by (unfold lenZ; lia). rewrite Z.pow_mul_r by (pose proof (lenZ_nonneg num); lia).
    apply Z.pow_le_mono_l. lia. }
  destruct (conversion_loop (6 * length num) num' [dp_at (num_of from num mod to)] s (printed_digits from num' ltac:(lia) Hp) Ht Hk) as (q & Hrun & Hq & Htq & Hqe & Hvq).
  replace (6 * length num + 1)%nat with (Datatypes.S (6 * length num)) by lia. remember (Datatypes.S (6 * length num)) as f. cbn [while_fuel].
  rewrite (bind_Ok _ _ _ _ _ Hs). cbv iota. pose proof (Z.mod_pos_bound (num_of from num) to ltac:(lia)) as Hm.
  destruct (dp_spec (num_of from num mod to) ltac:(lia)) as [Ec Ed]. pose proof (Z.div_mod (num_of from num) to ltac:(lia)) as Hdm.
  exists (q ++ [dp_at (num_of from num mod to)]). split_and!; [exact Hrun| | |by destruct q|].
  - apply Forall_app. split; [done|]. apply Forall_singleton. by exists (num_of from num mod to).
  - destruct q as [|c q]; [|by left]. destruct (Z.eq_dec (num_of from num mod to) 0) as [E0|E0]; [right|left; simpl; by rewrite Ec]. simpl app. f_equal. rewrite Ed, E0. done.
  - rewrite num_of_app, num_of_cons, Ec. change (lenZ [dp_at (num_of from num mod to)]) with 1. change (lenZ []) with 0.
    change (num_of to []) with 0. rewrite Z.pow_1_r, Z.pow_0_r, Hvq, Hv. lia.
Qed.
End division.

(** ** Bits of a BigInt as a string *)

Lemma bit_char (v : Z) : printed 2 (Z.land v 1 + 48) /\ CharToInt (Z.land v 1 + 48) = v mod 2.
Proof.
  change 1 with (Z.ones 1) at 1 2. rewrite Z.land_ones by lia. change (2 ^ 1) with 2. pose proof (Z.mod_pos_bound v 2 ltac:(lia)).
  destruct (dp_spec (v mod 2) ltac:(lia)) as [Ec Ed]. rewrite (proj2 (Z.ltb_lt (v mod 2) 10)) in Ed by lia.
  replace (v mod 2 + 48) with (dp_at (v mod 2)) by lia. split; [by exists (v mod 2)|done].
Qed.

Lemma put_bits_spec (n : nat) (v : Z) (res : list Z) :
  Forall (printed 2) res ->
  Forall (printed 2) (put_bits n v res) /\ lenZ (put_bits n v res) = Z.of_nat n + lenZ res /\
  num_of 2 (put_bits n v res) = (v mod 2 ^ Z.of_nat n) * 2 ^ lenZ res + num_of 2 res.
Proof.
  revert v res. induction n as [|n IH]; intros v res Hres; cbn [put_bits].
  { split; [done|]. split; [lia|]. change (2 ^ Z.of_nat 0) with 1. rewrite Z.mod_1_r. lia. }
  destruct (bit_char v) as [Hp Hc]. destruct (IH (Z.shiftr v 1) ((Z.land v 1 + 48) :: res)) as (H1 & H2 & H3); [by constructor|].
  pose proof (lenZ_nonneg res). split; [done|]. split; [rewrite H2, lenZ_cons; lia|].
  rewrite H3, num_of_cons, Hc, lenZ_cons, Z.pow_add_r, Z.pow_1_r, Z.shiftr_div_pow2 by lia. change (2 ^ 1) with 2.
  rewrite Nat2Z.inj_succ, Z.pow_succ_r by lia. pose proof (Z.pow_pos_nonneg 2 (Z.of_nat n) ltac:(lia) ltac:(lia)).
  rewrite Z.rem_mul_r by lia. lia.
Qed.

Lemma digits_string (ds res : list Z) :
  Forall digit ds -> Forall (printed 2) res ->
  let str := foldl (fun res val => put_bits (Z.to_nat DATEBITS) val res) res ds in
  Forall (printed 2) str /\ lenZ str = 32 * lenZ ds + lenZ res /\ num_of 2 str = val ds * 2 ^ lenZ res + num_of 2 res.
Proof.
  intros Hds. revert res. induction Hds as [|d ds Hd Hds IH]; intros res Hres; cbn [foldl].
  { split; [done|]. change (lenZ (@nil Z)) with 0. change (val []) with 0. lia. }
  destruct (put_bits_spec (Z.to_nat DATEBITS) d res Hres) as (H1 & H2 & H3). destruct (IH _ H1) as (I1 & I2 & I3).
  pose proof (lenZ_nonneg res). split; [done|]. change (Z.of_nat (Z.to_nat DATEBITS)) with 32 in *. split; [rewrite I2, H2, lenZ_cons; lia|].
  rewrite I3, H2, H3, val_cons, Z.pow_add_r, Z.mod_small by (unfold digit in Hd; lia). lia.
Qed.

Lemma DeZero_spec (s : list Z) :
  Forall (printed 2) s -> Forall (printed 2) (DeZero s) /\ DeZero s <> [] /\ num_of 2 (DeZero s) = num_of 2 s.
Proof.
  intros Hs. destruct (skip_zeros_spec 2 s Hs ltac:(lia)) as (Hv & Hp & _). unfold DeZero. destruct (skip_zeros s) as [|c s'] eqn:E; [|done].
  rewrite <- Hv. split_and!; [|done|done]. apply Forall_singleton. exists 0. split; [lia|done].
Qed.

Lemma GetBinary_spec (x : BigInt) :
  wf x -> Forall (printed 2) (GetBinary x) /\ GetBinary x <> [] /\ num_of 2 (GetBinary x) = val (GetData x).
Proof.
  intros Hx. unfold GetBinary. destruct (digits_string (GetData x) [] (wf_digits x Hx) ltac:(done)) as (H1 & _ & H3).
  destruct (DeZero_spec _ H1) as (D1 & D2 & D3). split_and!; [done|done|]. rewrite D3, H3. change (2 ^ lenZ []) with 1. change (num_of 2 []) with 0. lia.
Qed.

Lemma ToStdString_run {S} (x : BigInt) (radix : Z) (s : S) :
  wf x -> 2 <= radix <= 36 ->
  exists q, ToStdString radix x s = (Ok (if GetSign x then 45 :: q else q), s) /\
    Forall (printed radix) q /\ (trimmed q \/ q = [48]) /\ q <> [] /\ num_of radix q = val (GetData x).
Proof.
  intros Hx Hr. destruct (GetBinary_spec x Hx) as (Hp & Hne & Hv).
  destruct (Conversion_run radix 2 Hr ltac:(lia) (GetBinary x) s Hne (printed_digits 2 _ ltac:(lia) Hp)) as (q & Hc & Hq & Ht & Hqn & Hqv).
  exists q. split_and!; [|done|done|done|lia]. unfold ToStdString, BINARY. by mstep with Hc.
Qed.

(** ** Packing bits *)

Lemma printed_bit (c : Z) : printed 2 c -> 0 <= c - 48 <= 1 /\ CharToInt c = c - 48.
Proof.
  intros (d & Hd & ->). destruct (dp_spec d ltac:(lia)) as [Ec Ed]. rewrite (proj2 (Z.ltb_lt d 10)) in Ed by lia. lia.
Qed.

Lemma lor_bit (v b : Z) : 0 <= b <= 1 -> Z.lor (2 * v) b = 2 * v + b.
Proof.
  intros Hb. destruct (Z.eq_dec b 0) as [->|Hb0]; [by rewrite Z.lor_0_r, Z.add_0_r|]. replace b with 1 by lia.
  apply Z.bits_inj'. intros n Hn. rewrite Z.lor_spec. destruct (Z.eq_dec n 0) as [->|Hn0].
  - rewrite Z.testbit_even_0, Z.testbit_odd_0. done.
  - replace n with (Z.succ (n - 1)) by lia. rewrite Z.testbit_even_succ, Z.testbit_odd_succ by lia.
    change 1 with (2 * 0 + 1) at 2. rewrite Z.testbit_odd_succ, Z.bits_0 by lia. apply orb_false_r.
Qed.

Lemma pack_bits_spec (chunk : list Z) :
  Forall (printed 2) chunk -> lenZ chunk <= 32 -> pack_bits chunk = num_of 2 chunk /\ digit (pack_bits chunk).
Proof.
  intros Hc Hl.
  assert (forall t v k, Forall (printed 2) t -> 0 <= v < 2 ^ k -> 0 <= k -> k + lenZ t <= 32 ->
    foldl (fun val c => Z.lor (u32 (Z.shiftl val 1)) (u32 (c - 48))) v t = foldl (fun v c => v * 2 + CharToInt c) v t) as Hfold.
  { induction t as [|c t IH]; intros v k Ht Hv Hk Hkl; [done|]. apply Forall_cons_1 in Ht as [Hb Ht]. cbn [foldl].
    destruct (printed_bit c Hb) as [Hb1 Hb2]. rewrite lenZ_cons in Hkl. pose proof (lenZ_nonneg t). pose proof (Z.pow_le_mono_r 2 (k + 1) 32 ltac:(lia) ltac:(lia)).
    rewrite Z.pow_add_r, Z.pow_1_r in * by lia. rewrite Z.shiftl_mul_pow2 by lia. change (2 ^ 1) with 2. rewrite (u32_small (v * 2)), (u32_small (c - 48)) by lia.
    rewrite (Z.mul_comm v), lor_bit, Hb2 by lia. apply (IH _ (k + 1)); [done|rewrite Z.pow_add_r, Z.pow_1_r by lia; lia|lia|lia]. }
  unfold pack_bits. rewrite (Hfold chunk 0 0) by (done || lia). split; [done|].
  pose proof (num_of_bounds 2 chunk ltac:(lia) (printed_digits 2 _ ltac:(lia) Hc)) as Hb. unfold num_of in Hb. unfold digit.
  pose proof (Z.pow_le_mono_r 2 (lenZ chunk) 32 ltac:(lia) ltac:(lia)). lia.
Qed.

(** The loop over whole chunks of 32 bits. *)
Lemma pack_loop (bs : list Z) (k fuel : nat) (i : Z) (hi : list Z) (sg : bool) :
  Forall (printed 2) bs -> 0 <= i -> i + 32 * Z.of_nat k = lenZ bs -> (k <= fuel)%nat ->
  exists ds, while_fuel (Datatypes.S fuel) (pack_step bs) (i, Z.of_nat k - 1) (mkBigInt sg (replicate k 0 ++ hi)) = (Ok tt, mkBigInt sg (ds ++ hi)) /\
    Forall digit ds /\ length ds = k /\ val ds = num_of 2 (drop (Z.to_nat i) bs).
Proof.
  intros Hbs. revert i fuel hi. induction k as [|k IH]; intros i fuel hi Hi Hlen Hf.
  - exists []. split_and!; [|done|done|].
    + cbn [while_fuel]. rewrite (bind_Ok _ _ _ (mkBigInt sg hi) (inr tt)); [done|]. unfold pack_step. by zb.
    + rewrite drop_ge by (unfold lenZ in *; lia). done.
  - destruct fuel as [|fuel]; [lia|]. set (chunk := take (Z.to_nat DATEBITS) (drop (Z.to_nat i) bs)).
    assert (lenZ chunk = 32) as Hcl by (unfold chunk, lenZ in *; rewrite length_take, length_drop; change (Z.to_nat DATEBITS) with 32%nat; lia).
    assert (drop (Z.to_nat i) bs = chunk ++ drop (Z.to_nat (i + 32)) bs) as Esplit.
    { rewrite <- (take_drop 32 (drop (Z.to_nat i) bs)). unfold chunk. f_equal. rewrite drop_drop. f_equal. lia. }
    assert (Forall (printed 2) chunk) as Hcp by (unfold chunk; by apply Forall_take, Forall_drop).
    destruct (pack_bits_spec chunk Hcp ltac:(lia)) as [Epack Hpd].
    destruct (IH (i + 32) fuel (pack_bits chunk :: hi) ltac:(lia) ltac:(lia) ltac:(lia)) as (ds & Hrun & Hds & Hlds & Hv).
    exists (ds ++ [pack_bits chunk]). split_and!.
    + rewrite <- app_assoc. simpl app. rewrite <- Hrun. remember (Datatypes.S fuel) as f. cbn [while_fuel].
      rewrite (bind_Ok _ _ _ (mkBigInt sg (replicate k 0 ++ pack_bits chunk :: hi)) (inl (i + 32, Z.of_nat k - 1))); [done|].
      unfold pack_step. zb. fold chunk. rewrite Hcl. replace (Z.of_nat (Datatypes.S k) - 1) with (Z.of_nat k) by lia.
      change (0 :: replicate k 0 ++ hi) with (replicate (Datatypes.S k) 0 ++ hi). rewrite replicate_S_end, <- app_assoc. simpl app.
      mstep by (apply SetDigit_run; by rewrite lenZ_replicate). done.
    + apply Forall_app. split; [done|by apply Forall_singleton].
    + rewrite length_app. simpl. lia.
    + rewrite Esplit, num_of_app, val_app, val_cons, val_nil, Hv, Epack.
      replace (lenZ (drop (Z.to_nat (i + 32)) bs)) with (32 * lenZ ds) by (unfold lenZ in *; rewrite length_drop; lia). lia.
Qed.

(** ** Reading a string *)

Lemma pack_run {S} (flag : bool) (bs : list Z) (s : S) :
  Forall (printed 2) bs -> 0 < lenZ bs <= 32 * MAXSIZE -> computes (pack flag bs) (signed flag (num_of 2 bs)) s.
Proof.
  intros Hbs Hl. pose proof MAXSIZE_eq. unfold pack. cbv zeta. unfold DATEBITS.
  set (k := Z.to_nat (lenZ bs / 32)). set (m := lenZ bs mod 32).
  assert (lenZ bs = 32 * Z.of_nat k + m /\ 0 <= m < 32) as [El Hm] by (unfold k, m; zlia).
  replace (lenZ bs / 32) with (Z.of_nat k) by (unfold k; zlia). clearbody k m.
  set (len := if m =? 0 then Z.of_nat k else Z.of_nat k + 1).
  assert (0 < len <= MAXSIZE) as Hlen by (unfold len; destruct (Z.eqb_spec m 0); lia). rewrite (u32_small len) by lia.
  cstep by (by apply CreateBigint_run).
  set (hi := if m =? 0 then [] else [pack_bits (take (Z.to_nat m) bs)]).
  assert (lenZ (take (Z.to_nat m) bs) = m) as Htl by (unfold lenZ in *; rewrite length_take; lia).
  destruct (pack_bits_spec (take (Z.to_nat m) bs) ltac:(by apply Forall_take) ltac:(lia)) as [Ep Dp].
  destruct (pack_loop bs k (length bs) m hi flag Hbs ltac:(lia) ltac:(lia) ltac:(unfold lenZ in *; lia)) as (ds & Hrun & Hds & Hlds & Hv).
  cstep by (apply (build_run _ (mkBigInt flag (ds ++ hi)))).
  { rewrite (bind_Ok _ _ _ (mkBigInt false (replicate k 0 ++ hi)) tt).
    - rewrite (bind_Ok _ _ _ (mkBigInt flag (replicate k 0 ++ hi)) tt) by (by destruct flag). rewrite <- Hrun. f_equal. f_equal. unfold len.
      destruct (Z.eqb_spec m 0); lia.
    - unfold len, hi. destruct (Z.eqb_spec m 0); [by rewrite app_nil_r, Nat2Z.id|]. replace (Z.to_nat (Z.of_nat k + 1)) with (k + 1)%nat by lia.
      rewrite replicate_split. apply SetDigit_run. rewrite lenZ_replicate. lia. }
  assert (val (ds ++ hi) = num_of 2 bs) as Hval.
  { rewrite <- (take_drop (Z.to_nat m) bs) at 1. rewrite num_of_app, <- Hv, val_app. unfold hi.
    replace (lenZ (drop (Z.to_nat m) bs)) with (32 * lenZ ds) by (unfold lenZ in *; rewrite length_drop; lia).
    destruct (Z.eqb_spec m 0) as [->|Hm0]; [change (num_of 2 (take (Z.to_nat 0) bs)) with 0; change (val []) with 0; lia|].
    rewrite val_cons, <- Ep. change (val []) with 0. lia. }
  rewrite <- Hval. apply (RightTruncate_run (mkBigInt flag (ds ++ hi))); simpl.
  - apply Forall_app. split; [done|]. unfold hi. destruct (m =? 0); [done|by apply Forall_singleton].
  - unfold GetLength. simpl. rewrite lenZ_app. unfold hi, len, lenZ in *. destruct (Z.eqb_spec m 0); simpl length; lia.
Qed.

Lemma pack_throw {S} (flag : bool) (bs : list Z) (s : S) :
  32 * MAXSIZE < lenZ bs < 2 ^ 32 -> pack flag bs s = (Throw RANGE_ERROR, s).
Proof.
  intros Hl. pose proof MAXSIZE_eq. unfold pack. cbv zeta. unfold DATEBITS. apply bind_Throw, CreateBigint_throw.
  destruct (Z.eqb_spec (lenZ bs mod 32) 0); rewrite u32_small by zlia; zlia.
Qed.

(** A string without leading zeros is as long as its number needs. *)
Lemma trimmed_length (s : list Z) (n : Z) :
  Forall (is_digit 2) s -> trimmed s \/ s = [48] -> 1 <= n -> num_of 2 s < 2 ^ n <-> lenZ s <= n.
Proof.
  intros Hs Ht Hn. pose proof (num_of_bounds 2 s ltac:(lia) Hs) as Hb. split.
  - intros Hlt. destruct Ht as [Ht| ->]; [|done]. destruct s as [|c s]; [change (lenZ []) with 0; lia|]. apply Forall_cons_1 in Hs as [Hc Hs].
    unfold is_digit in Hc. simpl in Ht. rewrite num_of_cons in Hlt. pose proof (num_of_bounds 2 s ltac:(lia) Hs). rewrite lenZ_cons.
    destruct (Z.lt_ge_cases (lenZ s) n) as [|Hge]; [lia|]. pose proof (Z.pow_le_mono_r 2 n (lenZ s) ltac:(lia) Hge). nia.
  - intros Hle. pose proof (Z.pow_le_mono_r 2 (lenZ s) n ltac:(lia) Hle). lia.
Qed.

Definition minus (flag : bool) (digits : list Z) : list Z := if flag then 45 :: digits else digits.

Lemma SetBigInt_pack {S} (flag : bool) (digits : list Z) (radix : Z) (s : S) :
  (forall t, digits <> 45 :: t) ->
  SetBigInt (minus flag digits) radix s =
  (binaryStr ← (if negb (radix =? BINARY) then Conversion digits BINARY radix else mret digits); pack flag binaryStr) s.
Proof.
  intros Hd. unfold SetBigInt. assert ((match minus flag digits with 45 :: _ => true | _ => false end) = flag) as ->.
  { destruct flag; [done|]. simpl. destruct digits as [|c t]; [done|]. destruct (Z.eq_dec c 45) as [->|Hne]; [by destruct (Hd t)|].
    destruct c as [|p|p]; try done. do 6 (destruct p as [p|p|]; try done). }
  by destruct flag.
Qed.

(** A string of digits in a radix other than 2. *)
Lemma SetBigInt_run {S} (flag : bool) (digits : list Z) (radix : Z) (s : S) :
  2 < radix <= 36 -> digits <> [] -> (forall t, digits <> 45 :: t) -> Forall (is_digit radix) digits -> lenZ digits < 2 ^ 29 ->
  computes_or_throws (SetBigInt (minus flag digits) radix) (signed flag (num_of radix digits)) s.
Proof.
  intros Hr Hne Hd Hdig Hlen.
  destruct (Conversion_run 2 radix ltac:(lia) ltac:(lia) digits s Hne Hdig) as (q & Hc & Hq & Ht & Hqn & Hv).
  assert (SetBigInt (minus flag digits) radix s = pack flag q s) as E.
  { rewrite SetBigInt_pack by done. unfold BINARY. zb. by mstep with Hc. }
  unfold computes_or_throws, computes. rewrite E. pose proof MAXSIZE_eq. pose proof (printed_digits 2 q ltac:(lia) Hq) as Hqd.
  pose proof (num_of_bounds 2 q ltac:(lia) Hqd) as Hb. assert (Z.abs (signed flag (num_of radix digits)) = num_of 2 q) as Habs by (rewrite Hv; destruct flag; simpl; lia).
  pose proof (trimmed_length q (32 * MAXSIZE) Hqd Ht ltac:(lia)) as Hiff. unfold fits. rewrite Habs.
  assert (0 < lenZ q) by (destruct q; [done|rewrite lenZ_cons; pose proof (lenZ_nonneg q); lia]).
  destruct (Z.le_gt_cases (lenZ q) (32 * MAXSIZE)) as [Hle|Hgt].
  - left. split; [by apply Hiff|]. rewrite <- Hv. by apply (pack_run flag q s).
  - right. split; [intros Hlt%Hiff; lia|]. apply pack_throw. split; [done|].
    assert (lenZ q <= 6 * lenZ digits + 1); [|lia]. apply (trimmed_length q _ Hqd Ht); [pose proof (lenZ_nonneg digits); lia|]. rewrite Hv.
    pose proof (num_of_bounds radix digits ltac:(lia) Hdig) as [_ Hub]. eapply Z.lt_le_trans; [exact Hub|].
    rewrite Z.pow_add_r, Z.pow_mul_r by (pose proof (lenZ_nonneg digits); lia). change (2 ^ 6) with 64.
    pose proof (Z.pow_le_mono_l radix 64 (lenZ digits) ltac:(lia)). pose proof (Z.pow_pos_nonneg 64 (lenZ digits) ltac:(lia) (lenZ_nonneg digits)). lia.
Qed.

Lemma printed_head (radix : Z) (q : list Z) : 0 < radix <= 36 -> Forall (printed radix) q -> forall t, q <> 45 :: t.
Proof.
  intros Hr Hq t ->. apply Forall_cons_1 in Hq as [(d & Hd & E) _]. destruct (dp_spec d ltac:(lia)) as [_ Ed]. destruct (Z.ltb_spec d 10); lia.
Qed.

(** C19: the string printed for a BigInt in any radix denotes its value, has no
    leading zeros, and is read back as the same BigInt. *)
Theorem bigint_string_roundtrip {S} (x : BigInt) (radix : Z) (s : S) :
  wf x -> 2 <= radix <= 36 ->
  exists q, ToStdString radix x s = (Ok (minus (GetSign x) q), s) /\
    Forall (printed radix) q /\ (trimmed q \/ q = [48]) /\ signed (GetSign x) (num_of radix q) = value x /\
    SetBigInt (minus (GetSign x) q) radix s = (Ok x, s).
Proof.
  intros Hx Hr. destruct (ToStdString_run x radix s Hx Hr) as (q & Hs & Hq & Ht & Hne & Hv). exists q. split_and!; [done|done|done|unfold value, signed; rewrite Hv; done|].
  pose proof (val_bounds _ (wf_digits x Hx)) as Bx. pose proof (wf_length x Hx) as Lx. pose proof MAXSIZE_eq.
  assert (exists bs, SetBigInt (minus (GetSign x) q) radix s = pack (GetSign x) bs s /\ Forall (printed 2) bs /\ (trimmed bs \/ bs = [48]) /\ bs <> [] /\
    num_of 2 bs = val (GetData x)) as (bs & E & Hbs & Htb & Hnb & Hvb).
  { rewrite SetBigInt_pack by (by apply (printed_head radix); [lia|]). unfold BINARY. destruct (Z.eqb_spec radix 2) as [->|Hn2]; cbn [negb].
    - exists q. split_and!; done.
    - destruct (Conversion_run 2 radix ltac:(lia) ltac:(lia) q s Hne (printed_digits radix q ltac:(lia) Hq)) as (bs & Hc & Hbs & Htb & Hnb & Hvb).
      exists bs. split_and!; [by mstep with Hc|done|done|done|lia]. }
  rewrite E. destruct (pack_run (GetSign x) bs s Hbs) as (z & Hz & Wz & Vz).
  - split; [destruct bs; [done|rewrite lenZ_cons; pose proof (lenZ_nonneg bs); lia]|].
    apply (trimmed_length bs (32 * MAXSIZE) (printed_digits 2 bs ltac:(lia) Hbs) Htb ltac:(lia)). rewrite Hvb.
    pose proof (pow_fits (GetLength x) ltac:(lia)). unfold GetLength in *. lia.
  - rewrite Hz. do 2 f_equal. apply wf_inj; [done|done|]. rewrite Vz, Hvb. done.
Qed.

Lemma bigint_string_roundtrip_witness :
  exists q, ToStdString 10 ones64 tt = (Ok (minus false q), tt) /\ SetBigInt (minus false q) 10 tt = (Ok ones64, tt).
Proof.
  destruct (bigint_string_roundtrip ones64 10 tt) as (q & H1 & _ & _ & _ & H2); [by apply wfb_wf|lia|].
  exact (ex_intro _ q (conj H1 H2)).
Defined.

(** Reading a string of digits gives the number that it denotes, or the
    range error when the digits of a BigInt cannot hold it. *)
Theorem bigint_parse_spec {S} (flag : bool) (digits : list Z) (radix : Z) (s : S) :
  2 < radix <= 36 -> digits <> [] -> (forall t, digits <> 45 :: t) -> Forall (is_digit radix) digits -> lenZ digits < 2 ^ 29 ->
  computes_or_throws (SetBigInt (minus flag digits) radix) (signed flag (num_of radix digits)) s.
Proof. apply SetBigInt_run. Qed.

Lemma bigint_parse_spec_witness : computes_or_throws (SetBigInt [45; 48; 102; 70] 16) (-255) tt.
Proof.
  apply (bigint_parse_spec true [48; 102; 70] 16 tt); [lia|done|done| |done].
  repeat constructor; vm_compute; congruence.
Defined.

End BigIntString.
