(* ===== verification/BigIntConv.v ===== *)
(** * BigInt and machine integers: js_bigint.cpp, js_tagged_value-inl.h.

    Conversions between BigInts and 64-bit words, and BigInt.asUintN and
    BigInt.asIntN, which are built from FloorMod and Exponentiate. *)
From S2P Require Import Prelude TaggedValue BigInt BigIntShift BigIntMul BigIntDiv.
Local Open Scope Z_scope.

Module BigIntConv.
Import BigInt BigIntShift BigIntMul BigIntDiv.

Definition kMaxLengthBits : Z := 2 ^ 30.

(** Two's complement wrap-around into [-2^63, 2^63). *)
Definition i64 (x : Z) : Z := (x + 2 ^ 63) mod 2 ^ 64 - 2 ^ 63.

Section ops.
Context {S : Type}.

Definition Uint64ToBigInt (number : Z) : M S BigInt :=
  bigint ← CreateBigint 2;
  let lowBits := u32 (Z.land number 0xffffffff) in
  let highBits := u32 (Z.land (Z.shiftr number DATEBITS) 0xffffffff) in
  bigint ← build bigint (SetDigit 0 lowBits;; SetDigit 1 highBits);
  RightTruncate bigint.

Definition Int64ToBigInt (number : Z) : M S BigInt :=
  let sign := number <? 0 in
  let value := if sign then u64 (u64 (- (number + 1)) + 1) else u64 number in
  bigint ← Uint64ToBigInt value;
  bigint ← build bigint (SetSign sign);
  RightTruncate bigint.

Definition ToUint64 (x : BigInt) : M S Z :=
  let len := GetLength x in
  ASSERT (len <=? 2);;
  lowBits ← GetDigit x 0;
  highBits ← (if 1 <? len then GetDigit x 1 else mret 0);
  let value := Z.lor lowBits (u64 (Z.shiftl highBits DATEBITS)) in
  mret (if GetSign x then Z.lxor (u64 (value - 1)) (2 ^ 64 - 1) else value).

Definition ToInt64 (x : BigInt) : M S Z :=
  value ← ToUint64 x;
  mret (i64 value).

(** A word of CreateBigWords. *)
Definition word_round (words : list Z) (index : Z) : M BigInt unit :=
  match words !! Z.to_nat index with
  | None => fault
  | Some w =>
      let lowBits := u32 (Z.land w 0xffffffff) in
      let highBits := u32 (Z.land (Z.shiftr w DATEBITS) 0xffffffff) in
      SetDigit (u32 (2 * index)) lowBits;;
      SetDigit (u32 (2 * index + 1)) highBits
  end.

Definition CreateBigWords (sign : bool) (size : Z) (words : list Z) : M S BigInt :=
  if size =? 0 then Uint64ToBigInt 0
  else
    let needLen := u32 (size * 2) in
    if MAXSIZE <? needLen then throw RANGE_ERROR
    else
      bigint ← CreateBigint needLen;
      bigint ← build bigint (for_range 0 size (word_round words);; SetSign sign);
      RightTruncate bigint.

(** 2^64 and 2^63. *)
Definition GetUint64MaxBigint : M S BigInt :=
  bigint ← CreateBigint 3;
  build bigint (SetDigit 0 0;; SetDigit 1 0;; SetDigit 2 1).

Definition GetInt64MaxBigint : M S BigInt :=
  bigint ← CreateBigint 2;
  build bigint (SetDigit 0 0;; SetDigit 1 0x80000000).

(** JSTaggedValue::ToBigInt64 and ToBigUint64 of a BigInt, which ToBigInt
    returns as it is. *)
Definition ToBigInt64 (value : BigInt) : M S BigInt :=
  tVal ← GetUint64MaxBigint;
  int64bitVal ← FloorMod value tVal;
  resValue ← GetInt64MaxBigint;
  less ← LessThan int64bitVal resValue;
  if negb less then Subtract int64bitVal tVal else mret int64bitVal.

Definition ToBigUint64 (value : BigInt) : M S BigInt :=
  let signFlag := GetSign value in
  let len := GetLength value in
  if negb signFlag && (len <=? 2) then mret value
  else
    tVal ← GetUint64MaxBigint;
    FloorMod value tVal.

(** The 64-bit value and whether it is lossless. *)
Definition BigIntToInt64 (bigint : BigInt) : M S (Z * bool) :=
  bigInt64 ← ToBigInt64 bigint;
  lossless ← Equal bigInt64 bigint;
  cValue ← ToInt64 bigInt64;
  mret (cValue, lossless).

Definition BigIntToUint64 (bigint : BigInt) : M S (Z * bool) :=
  bigUint64 ← ToBigUint64 bigint;
  lossless ← Equal bigUint64 bigint;
  cValue ← ToUint64 bigUint64;
  mret (cValue, lossless).

(** AsUintN and AsintN at the number of bits that ToIndex returns. *)
Definition AsUintN (bit : Z) (bigint : BigInt) : M S BigInt :=
  if bit =? 0 then Int32ToBigInt 0
  else if IsZero bigint then mret bigint
  else
    exponent ← Uint64ToBigInt (u64 bit);
    base ← Int64ToBigInt 2;
    if (kMaxLengthBits <=? bit) && negb (GetSign bigint) then mret bigint
    else
      tValue ← Exponentiate base exponent;
      FloorMod bigint tValue.

Definition AsintN (bit : Z) (bigint : BigInt) : M S BigInt :=
  if bit =? 0 then Int32ToBigInt 0
  else if IsZero bigint then mret bigint
  else
    exp ← Int64ToBigInt bit;
    exponent ← Int64ToBigInt (bit - 1);
    base ← Int64ToBigInt 2;
    if (kMaxLengthBits <=? bit) && negb (GetSign bigint) then mret bigint
    else
      tValue ← Exponentiate base exp;
      modValue ← FloorMod bigint tValue;
      resValue ← Exponentiate base exponent;
      c ← Compare resValue modValue;
      match c with
      | GREAT => mret modValue
      | _ => Subtract modValue tValue
      end.
End ops.

(** ** Words *)

Lemma split_word (w : Z) :
  0 <= w < 2 ^ 64 -> u32 (Z.land w 0xffffffff) = w mod 2 ^ 32 /\ u32 (Z.land (Z.shiftr w DATEBITS) 0xffffffff) = w / 2 ^ 32 /\
  digit (w mod 2 ^ 32) /\ digit (w / 2 ^ 32).
Proof.
  intros Hw. change 0xffffffff with (Z.ones 32). rewrite !Z.land_ones by lia. unfold DATEBITS. rewrite Z.shiftr_div_pow2 by lia.
  assert (digit (w mod 2 ^ 32)) by (unfold digit; zlia). assert (digit (w / 2 ^ 32)) by (unfold digit; zlia).
  split_and!; [by rewrite u32_small|rewrite Z.mod_small by done; by rewrite u32_small|done|done].
Qed.

Lemma Uint64ToBigInt_run {S} (n : Z) (s : S) : 0 <= n < 2 ^ 64 -> computes (Uint64ToBigInt n) n s.
Proof.
  intros Hn. destruct (split_word n Hn) as (E1 & E2 & D1 & D2). unfold Uint64ToBigInt. rewrite E1, E2.
  cstep by (by apply CreateBigint_run). cstep by (apply (build_run _ (mkBigInt false [n mod 2 ^ 32; n / 2 ^ 32])); reflexivity).
  replace n with (value (mkBigInt false [n mod 2 ^ 32; n / 2 ^ 32])) at 3.
  - apply RightTruncate_run; [|done]. simpl. repeat (constructor; [done|]). constructor.
  - unfold value. simpl. rewrite !val_cons, val_nil. zlia.
Qed.

Lemma set_sign_run {S} (x : BigInt) (sg : bool) (s : S) :
  wf x -> computes (bigint ← build x (SetSign sg); RightTruncate bigint) (signed sg (val (GetData x))) s.
Proof.
  intros Hx. cstep by (apply (build_run _ (with_sign sg x)); reflexivity). apply (RightTruncate_run (with_sign sg x)); [apply Hx|apply (wf_length x Hx)].
Qed.

Lemma Int64ToBigInt_run {S} (n : Z) (s : S) : - 2 ^ 63 <= n < 2 ^ 63 -> computes (Int64ToBigInt n) n s.
Proof.
  intros Hn. unfold Int64ToBigInt. cbv zeta.
  assert ((if n <? 0 then u64 (u64 (- (n + 1)) + 1) else u64 n) = Z.abs n) as ->.
  { unfold u64. destruct (Z.ltb_spec n 0); rewrite ?(Z.mod_small (- (n + 1))), Z.mod_small by lia; lia. }
  apply (computes_bind _ _ (Z.abs n)); [apply Uint64ToBigInt_run; lia|]. intros z Hz Vz.
  replace n with (signed (n <? 0) (val (GetData z))) at 2; [by apply set_sign_run|].
  rewrite val_abs, Vz by done. unfold signed. destruct (Z.ltb_spec n 0); lia.
Qed.

Lemma not_word (v : Z) : 0 <= v < 2 ^ 64 -> Z.lxor v (2 ^ 64 - 1) = 2 ^ 64 - 1 - v.
Proof.
  intros Hv. replace (2 ^ 64 - 1 - v) with (Z.lnot v mod 2 ^ 64) by (symmetry; apply Z.mod_unique with (-1); unfold Z.lnot; lia).
  apply Z.bits_inj'. intros n Hn. change (2 ^ 64 - 1) with (Z.ones 64). rewrite Z.lxor_spec. destruct (Z.lt_ge_cases n 64).
  - rewrite Z.ones_spec_low, Z.mod_pow2_bits_low, Z.lnot_spec by lia. by rewrite xorb_true_r.
  - rewrite Z.ones_spec_high, Z.mod_pow2_bits_high by lia. rewrite <- (Z.mod_small v (2 ^ 64)) by lia. by rewrite Z.mod_pow2_bits_high.
Qed.

Lemma ToUint64_run {S} (x : BigInt) (s : S) : wf x -> GetLength x <= 2 -> ToUint64 x s = (Ok (value x mod 2 ^ 64), s).
Proof.
  intros Hx Hl. pose proof (wf_length x Hx) as Lx. pose proof (wf_digits x Hx) as Dx. unfold ToUint64. cbv zeta. zb. mstep.
  assert (exists lo hi, GetDigit x 0 s = (Ok lo, s) /\ (if 1 <? GetLength x then GetDigit x 1 else mret 0) s = (Ok hi, s) /\
    digit lo /\ digit hi /\ val (GetData x) = lo + 2 ^ 32 * hi) as (lo & hi & E1 & E2 & D1 & D2 & Ev).
  { unfold GetLength in *. destruct (GetData x) as [|lo [|hi [|]]] eqn:E.
    - lenz.
    - exists lo, 0. apply Forall_cons_1 in Dx as [D1 _]. split_and!; [apply GetDigit_run; [done|by rewrite E]|done|done|done|by rewrite val_cons].
    - exists lo, hi. apply Forall_cons_1 in Dx as [D1 [D2 _]%Forall_cons_1].
      split_and!; [apply GetDigit_run; [done|by rewrite E]| |done|done|by rewrite !val_cons, val_nil, Z.mul_0_r, Z.add_0_r].
      change (1 <? lenZ [lo; hi]) with true. cbv iota. apply GetDigit_run; [done|by rewrite E].
    - rewrite !lenZ_cons in Hl. pose proof (lenZ_nonneg l). lia. }
  mstep with E1. mstep with E2. unfold digit in *. unfold DATEBITS. rewrite Z.shiftl_mul_pow2 by lia. unfold u64.
  rewrite (Z.mod_small (hi * 2 ^ 32)) by lia. rewrite Z.lor_comm, lor_low by lia.
  unfold mret, M_ret. do 2 f_equal. unfold value. rewrite Ev. destruct (GetSign x) eqn:Hs.
  - pose proof (val_pos x Hx (neg_nonzero x Hx Hs)). rewrite (Z.mod_small (hi * 2 ^ 32 + lo - 1)) by lia.
    rewrite not_word by lia. apply Z.mod_unique with (-1); lia.
  - rewrite Z.mod_small; lia.
Qed.

(** ** Remainders that are never negative *)

Lemma IsZero_value (x : BigInt) : wf x -> IsZero x = (value x =? 0).
Proof.
  intros Hx. destruct (IsZero x) eqn:Hz; symmetry.
  - apply Z.eqb_eq. by apply zero_value.
  - apply Z.eqb_neq. pose proof (val_pos x Hx Hz). rewrite val_abs in * by done. lia.
Qed.

Lemma FloorMod_run {S} (x y : BigInt) (s : S) :
  wf x -> wf y -> 0 < value y -> divide_ok x y = true -> computes (FloorMod x y) (value x mod value y) s.
Proof.
  intros Hx Hy Hpos Hok. pose proof (Remainder_run x y s Hx Hy) as Hr. rewrite Hok, IsZero_value in Hr by done.
  destruct (Z.eqb_spec (value y) 0); [lia|]. unfold FloorMod. apply (computes_bind _ _ _ _ _ Hr). intros r Wr Vr.
  rewrite (wf_sign x Hx), (IsZero_value r Wr). pose proof (Z.rem_bound_abs (value x) (value y) ltac:(lia)).
  pose proof (Z.quot_rem' (value x) (value y)) as Eqr.
  destruct (Z.ltb_spec (value x) 0) as [Hneg|Hnn]; cbn [andb].
  - pose proof (Z.rem_nonpos (value x) (value y) ltac:(lia) ltac:(lia)). destruct (Z.eqb_spec (value r) 0) as [Hz|Hz]; cbn [negb].
    + exists r. split; [done|]. split; [done|]. apply Z.mod_unique with (Z.quot (value x) (value y)); lia.
    + replace (value x mod value y) with (value r + value y) by (apply Z.mod_unique with (Z.quot (value x) (value y) - 1); lia).
      apply Add_run; [done|done|left]. rewrite (wf_neg r Wr), (wf_nonneg y Hy) by lia. done.
  - pose proof (Z.rem_nonneg (value x) (value y) ltac:(lia) ltac:(lia)). exists r. split; [done|]. split; [done|].
    apply Z.mod_unique with (Z.quot (value x) (value y)); lia.
Qed.

(** ** 64-bit integers *)

Definition two64 : BigInt := mkBigInt false [0; 0; 1].
Definition two63 : BigInt := mkBigInt false [0; 0x80000000].

Lemma wf_two64 : wf two64.
Proof. by apply wfb_wf. Qed.

Lemma wf_two63 : wf two63.
Proof. by apply wfb_wf. Qed.

Lemma divide_ok_short (x y : BigInt) : GetLength x < MAXSIZE -> divide_ok x y = true.
Proof. intros Hl. unfold divide_ok. by rewrite (proj2 (Z.ltb_lt _ _) Hl). Qed.

Lemma i64_range (v : Z) : - 2 ^ 63 <= i64 v < 2 ^ 63.
Proof. unfold i64. pose proof (Z.mod_pos_bound (v + 2 ^ 63) (2 ^ 64) ltac:(lia)). lia. Qed.

Lemma i64_mod (v : Z) : i64 v = if v mod 2 ^ 64 <? 2 ^ 63 then v mod 2 ^ 64 else v mod 2 ^ 64 - 2 ^ 64.
Proof. unfold i64. destruct (Z.ltb_spec (v mod 2 ^ 64) (2 ^ 63)); zlia. Qed.

Lemma ToBigInt64_run {S} (x : BigInt) (s : S) : wf x -> GetLength x < MAXSIZE -> computes (ToBigInt64 x) (i64 (value x)) s.
Proof.
  intros Hx Hl. unfold ToBigInt64. apply (computes_step _ _ two64); [reflexivity|].
  apply (computes_bind _ _ (value x mod 2 ^ 64)).
  { apply (FloorMod_run x two64 s Hx wf_two64 ltac:(done)). by apply divide_ok_short. }
  intros r Wr Vr. apply (computes_step _ _ two63); [reflexivity|]. pose proof (Z.mod_pos_bound (value x) (2 ^ 64) ltac:(lia)).
  apply (computes_step _ _ (value r <? 2 ^ 63)).
  { unfold LessThan. mstep with (Compare_run r two63 s Wr wf_two63). change (value two63) with (2 ^ 63). unfold comparison, Z.ltb. by destruct (value r ?= 2 ^ 63). }
  rewrite i64_mod, <- Vr. destruct (value r <? 2 ^ 63); cbn [negb].
  - exists r. auto.
  - change (2 ^ 64) with (value two64). apply Subtract_run; [done|apply wf_two64|left]. apply wf_nonneg; [done|lia].
Qed.

Lemma ToBigUint64_run {S} (x : BigInt) (s : S) : wf x -> GetLength x < MAXSIZE -> computes (ToBigUint64 x) (value x mod 2 ^ 64) s.
Proof.
  intros Hx Hl. unfold ToBigUint64. cbv zeta. destruct (negb (GetSign x) && (GetLength x <=? 2)) eqn:E.
  - apply andb_true_iff in E as [Hs%negb_true_iff Hlen%Z.leb_le]. exists x. split; [done|]. split; [done|].
    pose proof (sign_nonneg x Hx Hs). pose proof (val_bounds _ (wf_digits x Hx)) as Hb. rewrite val_abs in Hb by done.
    pose proof (Z.pow_le_mono_r 2 (32 * lenZ (GetData x)) 64 ltac:(lia) ltac:(unfold GetLength in Hlen; lia)). rewrite Z.mod_small; lia.
  - apply (computes_step _ _ two64); [reflexivity|]. apply (FloorMod_run x two64 s Hx wf_two64 ltac:(done)). by apply divide_ok_short.
Qed.

(** A BigInt is converted to a signed and to an unsigned 64-bit integer by
    wrapping around, and the flag tells whether that lost anything; an int64
    becomes the BigInt of the same value, which converts back without loss. *)
Theorem bigint_int64_spec {S} (x : BigInt) (n : Z) (s : S) :
  wf x -> GetLength x < MAXSIZE -> - 2 ^ 63 <= n < 2 ^ 63 ->
  BigIntToInt64 x s = (Ok (i64 (value x), i64 (value x) =? value x), s) /\
  BigIntToUint64 x s = (Ok (value x mod 2 ^ 64, value x mod 2 ^ 64 =? value x), s) /\
  exists z, Int64ToBigInt n s = (Ok z, s) /\ wf z /\ value z = n /\ BigIntToInt64 z s = (Ok (n, true), s).
Proof.
  assert (forall z, wf z -> GetLength z < MAXSIZE -> BigIntToInt64 z s = (Ok (i64 (value z), i64 (value z) =? value z), s)) as Hto.
  { intros z Wz Lz. destruct (ToBigInt64_run z s Wz Lz) as (r & Hr & Wr & Vr). unfold BigIntToInt64. mstep with Hr.
    mstep with (Equal_run r z s Wr Wz). pose proof (i64_range (value z)).
    assert (GetLength r <= 2) as Lr by (apply wf_length_bound; [done|lia|rewrite Vr; change (32 * 2) with 64; lia]).
    unfold ToInt64. rewrite (bind_Ok _ _ _ s (i64 (value z))).
    - by rewrite Vr.
    - mstep with (ToUint64_run r s Wr Lr). rewrite Vr. unfold mret, M_ret. do 2 f_equal. unfold i64. zlia. }
  intros Hx Hl Hn. split_and!; [by apply Hto| |].
  - destruct (ToBigUint64_run x s Hx Hl) as (r & Hr & Wr & Vr). unfold BigIntToUint64. mstep with Hr. mstep with (Equal_run r x s Wr Hx).
    pose proof (Z.mod_pos_bound (value x) (2 ^ 64) ltac:(lia)).
    assert (GetLength r <= 2) as Lr by (apply wf_length_bound; [done|lia|rewrite Vr; change (32 * 2) with 64; lia]).
    mstep with (ToUint64_run r s Wr Lr). rewrite Vr, Z.mod_mod by lia. done.
  - destruct (Int64ToBigInt_run n s Hn) as (z & Hz & Wz & Vz). exists z. split_and!; [done|done|done|]. rewrite Hto; [|done|].
    + rewrite Vz. replace (i64 n) with n by (unfold i64; zlia). by rewrite Z.eqb_refl.
    + pose proof MAXSIZE_eq. assert (GetLength z <= 2); [|lia]. apply wf_length_bound; [done|lia|]. rewrite Vz. change (32 * 2) with 64. lia.
Qed.

Lemma bigint_int64_spec_witness :
  BigIntToInt64 ones64 tt = (Ok (-1, false), tt) /\ BigIntToUint64 ones64 tt = (Ok (2 ^ 64 - 1, true), tt).
Proof.
  destruct (bigint_int64_spec ones64 0 tt) as (H1 & H2 & _); [by apply wfb_wf|done|lia|]. exact (conj H1 H2).
Defined.

(** ** BigInt.asUintN and BigInt.asIntN *)

Definition two : BigInt := mkBigInt false [2].

Lemma wf_two : wf two.
Proof. by apply wfb_wf. Qed.

Lemma Int64ToBigInt_two {S} (s : S) : Int64ToBigInt 2 s = (Ok two, s).
Proof. reflexivity. Qed.

(** A number below 2^32 has one digit. *)
Lemma short_value (x : BigInt) : wf x -> 0 <= value x < 2 ^ 32 -> x = mkBigInt false [value x].
Proof.
  intros Hx Hv. apply wf_inj; [done|by apply wf_small|]. unfold value at 2. simpl. rewrite val_cons, val_nil. lia.
Qed.

Lemma two_to_the {S} (n : Z) (s : S) :
  0 <= n < 2 ^ 32 ->
  if n / DATEBITS + 1 <=? MAXSIZE then computes (Exponentiate two (mkBigInt false [n])) (2 ^ n) s
  else Exponentiate two (mkBigInt false [n]) s = (Throw RANGE_ERROR, s).
Proof.
  intros Hv. unfold Exponentiate. cbn [GetSign].
  change (0 <? GetLength (mkBigInt false [n])) with true. unfold IsZero at 1 3. cbn [GetData]. destruct (Z.eqb_spec n 0) as [->|Hn].
  { rewrite (proj2 (Z.leb_le _ _)) by done. cstep. by apply Int32ToBigInt_run. }
  assert (u32 (n / DATEBITS + 1) = n / DATEBITS + 1) as Hu by (apply u32_small; unfold DATEBITS; zlia).
  change (IsZero two) with false. cbv iota. destruct (Z.leb_spec (n / DATEBITS + 1) MAXSIZE) as [Hm|Hm].
  - cstep. cstep. cstep. change ((GetLength two =? 1) && (2 =? 1)) with false. change (1 <? GetLength (mkBigInt false [n])) with false.
    change ((GetLength two =? 1) && (2 =? 2)) with true. cbv iota. rewrite Hu. change (2 ^ n) with (value two ^ n).
    apply (two_power two); [apply wf_two|done|done|done].
  - mstep. mstep. mstep. change ((GetLength two =? 1) && (2 =? 1)) with false. change (1 <? GetLength (mkBigInt false [n])) with false.
    change ((GetLength two =? 1) && (2 =? 2)) with true. cbv iota. rewrite Hu. by apply bind_Throw, CreateBigint_throw.
Qed.

Lemma Exponentiate_two {S} (e : BigInt) (s : S) :
  wf e -> 0 <= value e < 2 ^ 32 ->
  if value e / DATEBITS + 1 <=? MAXSIZE then computes (Exponentiate two e) (2 ^ value e) s else Exponentiate two e s = (Throw RANGE_ERROR, s).
Proof. intros He Hv. pose proof (two_to_the (value e) s Hv) as H. by rewrite <- (short_value e He Hv) in H. Qed.

(** AsUintN once the number of bits is small enough for 2^bit to be built. *)
Lemma AsUintN_run {S} (bit : Z) (x : BigInt) (s : S) :
  wf x -> 0 <= bit < MAXBITS -> GetLength x < MAXSIZE -> computes (AsUintN bit x) (value x mod 2 ^ bit) s.
Proof.
  intros Hx Hb Hl. pose proof MAXSIZE_eq. change MAXBITS with 1048576 in Hb. unfold AsUintN.
  destruct (Z.eqb_spec bit 0) as [->|Hb0]; [rewrite Z.pow_0_r, Z.mod_1_r; by apply Int32ToBigInt_run|].
  assert (2 ^ bit <> 0) by (apply Z.pow_nonzero; lia).
  rewrite (IsZero_value x Hx). destruct (Z.eqb_spec (value x) 0) as [Hz|Hz].
  { exists x. split; [done|]. split; [done|]. by rewrite Hz, Z.mod_0_l. }
  unfold u64. rewrite (Z.mod_small bit) by lia. apply (computes_bind _ _ bit); [apply Uint64ToBigInt_run; lia|]. intros e We Ve.
  cstep with (Int64ToBigInt_two s). change kMaxLengthBits with 1073741824. zb.
  pose proof (Exponentiate_two e s We ltac:(lia)) as Hexp. rewrite Ve in Hexp. rewrite (proj2 (Z.leb_le _ _)) in Hexp by (unfold DATEBITS; zlia).
  apply (computes_bind _ _ (2 ^ bit)); [done|]. intros t Wt Vt. rewrite <- Vt. apply FloorMod_run; [done|done| |by apply divide_ok_short].
  rewrite Vt. apply Z.pow_pos_nonneg; lia.
Qed.

Lemma AsintN_run {S} (bit : Z) (x : BigInt) (s : S) :
  wf x -> 0 < bit < MAXBITS -> GetLength x < MAXSIZE ->
  computes (AsintN bit x) ((value x + 2 ^ (bit - 1)) mod 2 ^ bit - 2 ^ (bit - 1)) s.
Proof.
  intros Hx Hb Hl. pose proof MAXSIZE_eq. change MAXBITS with 1048576 in Hb. unfold AsintN. zb.
  assert (0 < 2 ^ (bit - 1)) as HH by (apply Z.pow_pos_nonneg; lia).
  assert (2 ^ bit = 2 * 2 ^ (bit - 1)) as E2 by (rewrite <- Z.pow_succ_r by lia; f_equal; lia).
  rewrite (IsZero_value x Hx). destruct (Z.eqb_spec (value x) 0) as [Hz|Hz].
  { exists x. split; [done|]. split; [done|]. rewrite Hz, Z.add_0_l, Z.mod_small by lia. lia. }
  apply (computes_bind _ _ bit); [apply Int64ToBigInt_run; lia|]. intros e We Ve.
  apply (computes_bind _ _ (bit - 1)); [apply Int64ToBigInt_run; lia|]. intros e1 We1 Ve1.
  cstep with (Int64ToBigInt_two s). change kMaxLengthBits with 1073741824. zb.
  pose proof (Exponentiate_two e s We ltac:(lia)) as Hexp. rewrite Ve in Hexp. rewrite (proj2 (Z.leb_le _ _)) in Hexp by (unfold DATEBITS; zlia).
  pose proof (Exponentiate_two e1 s We1 ltac:(lia)) as Hexp1. rewrite Ve1 in Hexp1. rewrite (proj2 (Z.leb_le _ _)) in Hexp1 by (unfold DATEBITS; zlia).
  apply (computes_bind _ _ (2 ^ bit)); [done|]. intros t Wt Vt.
  apply (computes_bind _ _ (value x mod 2 ^ bit)).
  { rewrite <- Vt. apply FloorMod_run; [done|done|lia|by apply divide_ok_short]. }
  intros m Wm Vm. apply (computes_bind _ _ (2 ^ (bit - 1))); [done|]. intros h Wh Vh.
  cstep with (Compare_run h m s Wh Wm). rewrite Vh. pose proof (Z.mod_pos_bound (value x) (2 ^ bit) ltac:(lia)) as Hmod.
  pose proof (Z.div_mod (value x) (2 ^ bit) ltac:(lia)) as Hdm. rewrite <- Vm in *. set (P := 2 ^ (bit - 1)) in *.
  assert (computes (Subtract m t) (value m - 2 ^ bit) s) as Hsub.
  { rewrite <- Vt. apply Subtract_run; [done|done|left]. rewrite (wf_nonneg m Wm), (wf_nonneg t Wt) by lia. done. }
  unfold comparison. destruct (Z.compare_spec P (value m)) as [Heq|Hlt|Hgt].
  - replace ((value x + P) mod 2 ^ bit - P) with (value m - 2 ^ bit); [done|]. rewrite <- (Z.mod_unique (value x + P) (2 ^ bit) (value x / 2 ^ bit + 1) (value m - P)); lia.
  - replace ((value x + P) mod 2 ^ bit - P) with (value m - 2 ^ bit); [done|]. rewrite <- (Z.mod_unique (value x + P) (2 ^ bit) (value x / 2 ^ bit + 1) (value m - P)); lia.
  - exists m. split; [done|]. split; [done|]. rewrite <- (Z.mod_unique (value x + P) (2 ^ bit) (value x / 2 ^ bit) (value m + P)); lia.
Qed.

(** AsUintN and asIntN reduce a BigInt modulo 2^bit, to the nonnegative and
    to the signed representative. *)
Theorem bigint_AsN_spec {S} (bit : Z) (x : BigInt) (s : S) :
  wf x -> 0 < bit < MAXBITS -> GetLength x < MAXSIZE ->
  computes (AsUintN bit x) (value x mod 2 ^ bit) s /\
  computes (AsintN bit x) ((value x + 2 ^ (bit - 1)) mod 2 ^ bit - 2 ^ (bit - 1)) s.
Proof. intros Hx Hb Hl. split; [apply AsUintN_run; (done || lia)|by apply AsintN_run]. Qed.

Lemma bigint_AsN_spec_witness :
  computes (AsUintN 8 minus_three) 253 tt /\ computes (AsintN 8 minus_three) (-3) tt.
Proof. apply (bigint_AsN_spec 8 minus_three tt); [by apply wfb_wf|done|done]. Defined.

(** From 2^20 bits on, where 2^bit has too many digits, and below 2^30
    bits, where a nonnegative number is returned as it is, asUintN and asIntN
    throw the range error for every number but 0. *)
Theorem bigint_AsN_throws {S} (bit : Z) (x : BigInt) (s : S) :
  wf x -> IsZero x = false -> MAXBITS <= bit < kMaxLengthBits ->
  AsUintN bit x s = (Throw RANGE_ERROR, s) /\ AsintN bit x s = (Throw RANGE_ERROR, s).
Proof.
  intros Hx Hz Hb. pose proof MAXSIZE_eq. change MAXBITS with 1048576 in Hb. change kMaxLengthBits with 1073741824 in Hb.
  assert (forall e, wf e -> value e = bit -> Exponentiate two e s = (Throw RANGE_ERROR, s)) as Hexp.
  { intros e We Ve. pose proof (Exponentiate_two e s We ltac:(lia)) as He. rewrite Ve in He. rewrite (proj2 (Z.leb_gt _ _)) in He; [done|unfold DATEBITS; zlia]. }
  split.
  - unfold AsUintN. zb. rewrite Hz. unfold u64. rewrite (Z.mod_small bit) by lia. destruct (Uint64ToBigInt_run bit s ltac:(lia)) as (e & He & We & Ve).
    mstep with He. mstep with (Int64ToBigInt_two s). change kMaxLengthBits with 1073741824. zb. apply bind_Throw. by apply Hexp.
  - unfold AsintN. zb. rewrite Hz. destruct (Int64ToBigInt_run bit s ltac:(lia)) as (e & He & We & Ve).
    destruct (Int64ToBigInt_run (bit - 1) s ltac:(lia)) as (e1 & He1 & We1 & Ve1).
    mstep with He. mstep with He1. mstep with (Int64ToBigInt_two s). change kMaxLengthBits with 1073741824. zb. apply bind_Throw. by apply Hexp.
Qed.

Lemma bigint_AsN_throws_witness : AsUintN (2 ^ 20) five tt = (Throw RANGE_ERROR, tt) /\ AsintN (2 ^ 20) five tt = (Throw RANGE_ERROR, tt).
Proof. apply (bigint_AsN_throws (2 ^ 20) five tt); [by apply wfb_wf|done|done]. Defined.

(** ** Words of 64 bits *)

Definition words_value (words : list Z) : Z := foldr (fun w v => w + 2 ^ 64 * v) 0 words.

Lemma words_loop (words : list Z) (todo done_ : list Z) (ds : list Z) (sg : bool) :
  words = done_ ++ todo -> Forall (fun w => 0 <= w < 2 ^ 64) todo -> lenZ ds = 2 * lenZ done_ -> 2 * lenZ words < 2 ^ 32 ->
  exists out, for_up (length todo) (lenZ done_) (word_round words) (mkBigInt sg (ds ++ replicate (2 * length todo) 0)) = (Ok tt, mkBigInt sg (ds ++ out)) /\
    Forall digit out /\ length out = (2 * length todo)%nat /\ val out = words_value todo.
Proof.
  revert done_ ds. induction todo as [|w todo IH]; intros dn ds Hw Ht Hl Hlen; [by exists []|]. apply Forall_cons_1 in Ht as [Hwd Ht].
  destruct (split_word w Hwd) as (E1 & E2 & D1 & D2). pose proof (lenZ_nonneg dn). pose proof (lenZ_nonneg todo).
  assert (lenZ words = lenZ dn + lenZ todo + 1) as Hlw by (rewrite Hw; lenz).
  destruct (IH (dn ++ [w]) (ds ++ [w mod 2 ^ 32; w / 2 ^ 32])) as (out & Hrun & Ho & Hlo & Hv); [by rewrite <- app_assoc|done|lenz|done|].
  exists (w mod 2 ^ 32 :: w / 2 ^ 32 :: out). split_and!; [|repeat (constructor; [done|]); done|simpl; lia|].
  - replace (2 * length (w :: todo))%nat with (Datatypes.S (Datatypes.S (2 * length todo))) by (simpl; lia). cbn [length replicate].
    rewrite (for_up_cons _ _ _ _ (mkBigInt sg (ds ++ w mod 2 ^ 32 :: w / 2 ^ 32 :: replicate (2 * length todo) 0))).
    + rewrite <- !app_assoc in Hrun. simpl app in Hrun. replace (lenZ dn + 1) with (lenZ (dn ++ [w])) by lenz. exact Hrun.
    + unfold word_round. assert (words !! Z.to_nat (lenZ dn) = Some w) as -> by (rewrite Hw; apply list_lookup_middle; unfold lenZ; lia).
      rewrite E1, E2, !u32_small by lia. mstep by (apply SetDigit_run; lia).
      replace (ds ++ w mod 2 ^ 32 :: 0 :: replicate (2 * length todo) 0) with ((ds ++ [w mod 2 ^ 32]) ++ 0 :: replicate (2 * length todo) 0) by (by rewrite <- app_assoc).
      rewrite SetDigit_run by lenz. by rewrite <- app_assoc.
  - rewrite !val_cons, Hv. unfold words_value. simpl. zlia.
Qed.

Lemma CreateBigWords_run {S} (sign : bool) (words : list Z) (s : S) :
  Forall (fun w => 0 <= w < 2 ^ 64) words -> 2 * lenZ words <= MAXSIZE ->
  computes (CreateBigWords sign (lenZ words) words) (signed sign (words_value words)) s.
Proof.
  intros Hw Hl. pose proof MAXSIZE_eq. pose proof (lenZ_nonneg words). unfold CreateBigWords. cbv zeta. destruct (Z.eqb_spec (lenZ words) 0) as [Hz|Hz].
  { rewrite (lenZ_zero _ Hz). replace (signed sign (words_value [])) with 0 by (by destruct sign). by apply Uint64ToBigInt_run. }
  rewrite u32_small by lia. zb. cstep by (apply CreateBigint_run; lia).
  destruct (words_loop words words [] [] false eq_refl Hw eq_refl ltac:(lia)) as (out & Hrun & Ho & Hlo & Hv).
  cstep by (apply (build_run _ (mkBigInt sign out))).
  { unfold for_range. replace (Z.to_nat (lenZ words - 0)) with (length words) by (unfold lenZ; lia).
    replace (Z.to_nat (lenZ words * 2)) with (2 * length words)%nat by (unfold lenZ; lia). by mstep with Hrun. }
  rewrite <- Hv. apply (RightTruncate_run (mkBigInt sign out)); [done|]. unfold GetLength. simpl. unfold lenZ in *. lia.
Qed.

End BigIntConv.
