(* ===== verification/BigIntNumber.v ===== *)
(** * BigInt and Number: js_bigint.cpp.

    Conversions between BigInts and doubles work on the bit pattern of the
    double: the 53 bits of its mantissa are cut into digits or put together from
    them.  The theorems say that NumberToBigInt is exact, that BigIntToNumber
    rounds to the nearest double and to even on ties (with the exception it
    has), and that CompareWithNumber compares with the exact value. *)
From S2P Require Import Prelude TaggedValue BigInt BigIntShift BigIntMul BigIntDiv.
Local Open Scope Z_scope.

Module BigIntNumber.
Import BigInt BigIntShift BigIntMul BigIntDiv.

(** The bit pattern of static_cast<double> of an int32. *)
Definition bits_of_int (z : Z) : Z :=
  if z =? 0 then 0
  else
    let e := Z.log2 (Z.abs z) in
    (if z <? 0 then 2 ^ 63 else 0) + (e + DOUBLE_EXPONENT_BIAS) * 2 ^ 52 + (Z.abs z * 2 ^ (52 - e) - 2 ^ 52).

(** The bit pattern of GetNumber(). *)
Definition number_bits (v : JSTaggedValue) : Z :=
  match v with VInt z => bits_of_int z | VDouble bits => bits | _ => 0 end.

Definition IsInteger (v : JSTaggedValue) : bool :=
  match v with
  | VInt _ => true
  | VDouble bits =>
      match double_of_bits bits with
      | DZero _ => true
      | DFin k => Z.abs k mod 2 ^ 1074 =? 0
      | _ => false
      end
  | _ => false
  end.

Section ops.
Context {S : Type}.

(** A round of the loop of NumberToBigInt; the loop variables are the mantissa
    and isFirstInto. *)
Definition number_round (integerDigits index : Z) (vars : Z * bool) : M BigInt (Z * bool) :=
  let '(mantissa, isFirstInto) := vars in
  if (isFirstInto : bool) then
    let leftover := DOUBLE_SIGNIFICAND_SIZE - integerDigits mod DATEBITS in
    SetDigit index (u32 (Z.shiftr mantissa leftover));;
    mret (u64 (Z.shiftl mantissa (64 - leftover)), false)
  else
    SetDigit index (u32 (Z.shiftr mantissa DATEBITS));;
    mret (u64 (Z.shiftl mantissa DATEBITS), false).

Definition NumberToBigInt (number : JSTaggedValue) : M S BigInt :=
  if negb (IsInteger number) then throw RANGE_ERROR
  else
    let bits := number_bits number in
    let num := double_of_bits bits in
    if double_eqb num (DZero false) then Int32ToBigInt 0
    else
      let integerDigits := u64 (Z.land (Z.shiftr bits DOUBLE_SIGNIFICAND_SIZE) 0x7FF - DOUBLE_EXPONENT_BIAS) in
      let mayNeedLen := u32 (integerDigits / DATEBITS + 1) in
      bigint ← CreateBigint mayNeedLen;
      bigint ← build bigint (
        SetSign (double_ltb num (DZero false));;
        let mantissa := Z.lor (Z.land bits DOUBLE_SIGNIFICAND_MASK) DOUBLE_HIDDEN_BIT in
        fold_down (Z.to_nat mayNeedLen) (mayNeedLen - 1) (number_round integerDigits) (mantissa, true);;
        mret tt);
      RightTruncate bigint.

(** The bit pattern of a number from its parts. *)
Definition CalculateNumber (sign mantissa exponent : Z) : JSTaggedValue :=
  VDouble (Z.lor (Z.lor sign (u64 (Z.shiftl (exponent + DOUBLE_EXPONENT_BIAS) DOUBLE_SIGNIFICAND_SIZE))) mantissa).

Definition infinity (neg : bool) : JSTaggedValue := VDouble ((if neg then 2 ^ 63 else 0) + 0x7FF * 2 ^ 52).

Definition Rounding (sign mantissa exponent : Z) (needRound : bool) : JSTaggedValue :=
  if needRound || (Z.land mantissa 1 =? 1) then
    let mantissa := u64 (mantissa + 1) in
    if negb (Z.shiftr mantissa DOUBLE_SIGNIFICAND_SIZE =? 0) then
      let exponent := exponent + 1 in
      if DOUBLE_EXPONENT_BIAS <? exponent then infinity (negb (sign =? 0))
      else CalculateNumber sign 0 exponent
    else CalculateNumber sign mantissa exponent
  else CalculateNumber sign mantissa exponent.

(** The end of BigIntToNumber: [digit] is the digit with the first bit that the
    mantissa has no room for, [index] its position. *)
Definition round_rest (bigint : BigInt) (sign mantissa exponent digit index remainDigitBits : Z) : M S JSTaggedValue :=
  let temp := u32 (Z.shiftl 1 (remainDigitBits - 1)) in
  if Z.land digit temp =? 0 then mret (CalculateNumber sign mantissa exponent)
  else if negb (Z.land digit (u32 (temp - 1)) =? 0) then mret (Rounding sign mantissa exponent true)
  else
    r ← find_down (Z.to_nat index) (index - 1) (fun i =>
          d ← GetDigit bigint i;
          mret (if negb (d =? 0) then Some tt else None));
    mret (Rounding sign mantissa exponent (match r with Some _ => true | None => false end)).

Definition BigIntToNumber (bigint : BigInt) : M S JSTaggedValue :=
  if IsZero bigint then mret (VInt 0)
  else
    let bigintLen := GetLength bigint in
    BigintHead ← GetDigit bigint (bigintLen - 1);
    let leadingZeros := CountLeadingZeros BigintHead in
    let bigintBitLen := bigintLen * DATEBITS - leadingZeros in
    let bigintSign := GetSign bigint in
    if DOUBLE_EXPONENT_BIAS + 1 <? bigintBitLen then mret (infinity bigintSign)
    else
      let sign := if bigintSign then 2 ^ 63 else 0 in
      let needMoveBit := leadingZeros + DATEBITS + 1 in
      let mantissa := if needMoveBit =? 64 then 0 else Z.shiftr (u64 (Z.shiftl BigintHead needMoveBit)) 12 in
      let remainMantissaBits := needMoveBit - 12 in
      let exponent := bigintBitLen - 1 in
      let index := bigintLen - 1 in
      if negb (0 <? index) then mret (CalculateNumber sign mantissa exponent)
      else
        let index := index - 1 in
        digit ← GetDigit bigint index;
        let '(mantissa, remainMantissaBits, index) :=
          if DATEBITS <=? remainMantissaBits
          then (Z.lor mantissa (u64 (Z.shiftl digit (remainMantissaBits - DATEBITS))), remainMantissaBits - DATEBITS, index - 1)
          else (mantissa, remainMantissaBits, index) in
        r ← (if (0 <? remainMantissaBits) && (0 <=? index) then
               digit ← GetDigit bigint index;
               mret (digit, Z.lor mantissa (Z.shiftr digit (DATEBITS - remainMantissaBits)), remainMantissaBits - DATEBITS)
             else mret (digit, mantissa, remainMantissaBits));
        let '(digit, mantissa, remainMantissaBits) := r in
        if 0 <? remainMantissaBits then mret (CalculateNumber sign mantissa exponent)
        else if remainMantissaBits <? 0 then round_rest bigint sign mantissa exponent digit index (- remainMantissaBits)
        else if index <=? 0 then mret (CalculateNumber sign mantissa exponent)
        else
          digit ← GetDigit bigint index;
          round_rest bigint sign mantissa exponent digit (index - 1) DATEBITS.

(** -1 when the bit lengths agree. *)
Definition CompareToBitsLen (bigint : BigInt) (numBitLen : Z) : M S (Z * Z) :=
  let bigintLen := GetLength bigint in
  BigintHead ← GetDigit bigint (bigintLen - 1);
  let leadingZeros := CountLeadingZeros BigintHead in
  let bigintBitLen := bigintLen * DATEBITS - leadingZeros in
  let bigintSign := GetSign bigint in
  mret (if numBitLen <? bigintBitLen then if bigintSign then 0 else 1
        else if bigintBitLen <? numBitLen then if bigintSign then 1 else 0
        else -1, leadingZeros).

(** A round of the loop of CompareWithNumber; the loop variables are index,
    mantissa, leftover and IsFirstInto, and a result leaves the loop.  The
    second branch subtracts from leftover twice. *)
Definition compare_step (bigint : BigInt) (leadingZeros : Z) (vars : Z * Z * Z * bool) :
    M S (Z * Z * Z * bool + (ComparisonResult + Z * Z)) :=
  let '(index, mantissa, leftover, IsFirstInto) := vars in
  let bigintSign := GetSign bigint in
  if index <? 0 then mret (inr (inr (mantissa, leftover)))
  else
    BigintNum ← GetDigit bigint index;
    let leftover := if (IsFirstInto : bool) then DOUBLE_SIGNIFICAND_SIZE - DATEBITS + leadingZeros + 1 else leftover - DATEBITS in
    let doubleNum := u32 (Z.shiftr mantissa (if IsFirstInto then leftover else DATEBITS)) in
    let mantissa := u64 (Z.shiftl mantissa (if IsFirstInto then 64 - leftover else DATEBITS)) in
    if doubleNum <? BigintNum then mret (inr (inl (if bigintSign then LESS else GREAT)))
    else if BigintNum <? doubleNum then mret (inr (inl (if bigintSign then GREAT else LESS)))
    else mret (inl (index - 1, mantissa, if IsFirstInto then leftover else leftover - DATEBITS, false)).

Definition CompareWithNumber (bigint : BigInt) (number : JSTaggedValue) : M S ComparisonResult :=
  let bits := number_bits number in
  let num := double_of_bits bits in
  let numberSign := double_ltb num (DZero false) in
  match num with
  | DNaN => mret UNDEFINED
  | DInf _ => mret (if negb numberSign then LESS else GREAT)
  | _ =>
      let exponential := Z.land (Z.shiftr bits DOUBLE_SIGNIFICAND_SIZE) 0x7FF in
      let integerDigits := exponential - DOUBLE_EXPONENT_BIAS in
      let mantissa := Z.lor (Z.land bits DOUBLE_SIGNIFICAND_MASK) DOUBLE_HIDDEN_BIT in
      let bigintSign := GetSign bigint in
      if negb numberSign && bigintSign then mret LESS
      else if numberSign && negb bigintSign then mret GREAT
      else if IsZero bigint && double_eqb num (DZero false) then mret EQUAL
      else if IsZero bigint && double_ltb (DZero false) num then mret LESS
      else if integerDigits <? 0 then mret (if bigintSign then LESS else GREAT)
      else
        r ← CompareToBitsLen bigint (integerDigits + 1);
        let '(res, leadingZeros) := r in
        if res =? 0 then mret LESS
        else if res =? 1 then mret GREAT
        else
          out ← while_fuel (Datatypes.S (Z.to_nat (GetLength bigint))) (compare_step bigint leadingZeros)
                  (GetLength bigint - 1, mantissa, 0, true);
          match out with
          | inl c => mret c
          | inr (mantissa, leftover) =>
              if negb (mantissa =? 0) then
                ASSERT (0 <? leftover);;
                mret (if bigintSign then GREAT else LESS)
              else mret EQUAL
          end
  end.
End ops.

(** 2^84 + 2^32 - 1 is rounded down, and 2^40 is compared with 2^40 + 2^-12. *)
Example BigIntToNumber_three_digits :
  BigIntToNumber (mkBigInt false [0xFFFFFFFF; 0; 0x100000]) tt = (Ok (VDouble ((84 + 1023) * 2 ^ 52)), tt).
Proof. reflexivity. Qed.

Example CompareWithNumber_fraction :
  CompareWithNumber (mkBigInt false [0; 256]) (VDouble ((40 + 1023) * 2 ^ 52 + 1)) tt = (Fault, tt).
Proof. vm_compute. reflexivity. Qed.
(** ** The parts of a double *)

#[local] Arguments Z.pow : simpl never.
#[local] Arguments Z.eqb : simpl never.
#[local] Arguments Z.testbit : simpl never.

Definition exponent_of (bits : Z) : Z := (bits / 2 ^ 52) mod 2 ^ 11.
Definition mantissa_of (bits : Z) : Z := 2 ^ 52 + bits mod 2 ^ 52.

Lemma mantissa_bounds (bits : Z) : 2 ^ 52 <= mantissa_of bits < 2 ^ 53.
Proof. unfold mantissa_of. zlia. Qed.

Lemma exponent_field (bits : Z) : Z.land (Z.shiftr bits DOUBLE_SIGNIFICAND_SIZE) 0x7FF = exponent_of bits.
Proof. change 0x7FF with (Z.ones 11). unfold exponent_of, DOUBLE_SIGNIFICAND_SIZE. by rewrite Z.land_ones, Z.shiftr_div_pow2 by lia. Qed.

Lemma mantissa_field (bits : Z) : Z.lor (Z.land bits DOUBLE_SIGNIFICAND_MASK) DOUBLE_HIDDEN_BIT = mantissa_of bits.
Proof. unfold mantissa_of. rewrite lor_hidden. lia. Qed.

Lemma scale_split (e : Z) : 1023 <= e -> 2 ^ (e - 1) = 2 ^ (e - 1023) * 2 ^ 1022.
Proof. intros He. rewrite <- Z.pow_add_r by lia. f_equal. lia. Qed.

(** The integer part of mantissa * 2^(exponent - 52), for both signs of the power. *)
Lemma scaled_div (m e : Z) : 1023 <= e -> (m * 2 ^ (e - 1)) / 2 ^ 1074 = (m * 2 ^ (e - 1023)) / 2 ^ 52.
Proof.
  intros He. rewrite (scale_split e He), Z.mul_assoc.
  replace (2 ^ 1074) with (2 ^ 52 * 2 ^ 1022) by reflexivity. apply Z.div_mul_cancel_r; lia.
Qed.

Lemma small_mod (m P : Z) : 0 < m < P -> m mod P <> 0.
Proof. intros H. rewrite Z.mod_small; lia. Qed.

(** An integral double is not below 1. *)
Lemma integral_parts (bits k : Z) :
  double_of_bits bits = DFin k -> Z.abs k mod 2 ^ 1074 = 0 ->
  1023 <= exponent_of bits < 2047 /\ Z.abs k = mantissa_of bits * 2 ^ (exponent_of bits - 1) /\ (k < 0 <-> Z.testbit bits 63 = true) /\ k <> 0.
Proof.
  intros Hk Hmod. pose proof (mantissa_bounds bits) as Hm. pose proof (Z.mod_pos_bound bits (2 ^ 52) ltac:(lia)) as Hr.
  pose proof (Z.mod_pos_bound (bits / 2 ^ 52) (2 ^ 11) ltac:(lia)) as He. unfold double_of_bits in Hk. fold (exponent_of bits) in *. fold (mantissa_of bits) in Hk.
  set (e := exponent_of bits) in *. set (m := mantissa_of bits) in *. clearbody e m.
  assert (2 ^ 52 < 2 ^ 1074) as Hbig by (apply Z.pow_lt_mono_r; lia). set (P := 2 ^ 1074) in *.
  destruct (Z.eqb_spec e 2047); [by destruct (_ =? 0)|]. destruct (Z.eqb_spec e 0) as [->|].
  - destruct (Z.eqb_spec (bits mod 2 ^ 52) 0); [done|]. injection Hk as <-. exfalso.
    set (r := bits mod 2 ^ 52) in *. clearbody r P.
    apply (small_mod r P); [lia|]. assert (Z.abs ((if Z.testbit bits 63 then -1 else 1) * r) = r) as E by (destruct (Z.testbit bits 63); lia). by rewrite E in Hmod.
  - injection Hk as <-. assert (0 < 2 ^ (e - 1)) as Hp by (apply Z.pow_pos_nonneg; lia).
    assert (0 < m * 2 ^ (e - 1)) as Hpos by nia.
    assert (Z.abs ((if Z.testbit bits 63 then -1 else 1) * (m * 2 ^ (e - 1))) = m * 2 ^ (e - 1)) as Ha by (destruct (Z.testbit bits 63); lia).
    rewrite Ha in *. refine (conj (conj _ _) (conj _ (conj _ _))); [|lia|done|destruct (Z.testbit bits 63); split; (done || lia)|destruct (Z.testbit bits 63); lia].
    destruct (decide (1023 <= e)); [done|]. exfalso. apply (small_mod (m * 2 ^ (e - 1)) P); [|done]. split; [done|].
    apply Z.lt_le_trans with (2 ^ 53 * 2 ^ (e - 1)); [nia|]. unfold P. rewrite <- Z.pow_add_r by lia. apply Z.pow_le_mono_r; lia.
Qed.

(** ** NumberToBigInt *)

(** The rounds after the first cut a 64-bit word into digits from its top. *)
Lemma number_loop (E M : Z) (j : nat) (sg : bool) (done_ : list Z) :
  0 <= M < 2 ^ 64 ->
  exists ds v, fold_down j (Z.of_nat j - 1) (number_round E) (M, false) (mkBigInt sg (replicate j 0 ++ done_))
    = (Ok v, mkBigInt sg (ds ++ done_)) /\ Forall digit ds /\ length ds = j /\ val ds = (M * 2 ^ (32 * Z.of_nat j)) / 2 ^ 64.
Proof.
  revert M done_. induction j as [|j IH]; intros M done_ HM.
  - exists [], (M, false). split_and!; [done|done|done|]. change (0 = M * 1 / 2 ^ 64). zlia.
  - assert (u32 (Z.shiftr M DATEBITS) = M / 2 ^ 32) as Ed by (unfold DATEBITS; rewrite Z.shiftr_div_pow2 by lia; apply u32_small; zlia).
    assert (u64 (Z.shiftl M DATEBITS) = (M mod 2 ^ 32) * 2 ^ 32) as EM.
    { unfold DATEBITS, u64. rewrite Z.shiftl_mul_pow2 by lia. change (2 ^ 64) with (2 ^ 32 * 2 ^ 32). rewrite Z.mul_mod_distr_r; lia. }
    destruct (IH ((M mod 2 ^ 32) * 2 ^ 32) (M / 2 ^ 32 :: done_)) as (ds & v & Hrun & Hds & Hl & Hv); [zlia|].
    exists (ds ++ [M / 2 ^ 32]), v. split_and!.
    + cbn [fold_down]. replace (Z.of_nat (Datatypes.S j) - 1) with (Z.of_nat j) by lia. rewrite replicate_S_end, <- !app_assoc. simpl app. rewrite <- Hrun. apply bind_Ok. unfold number_round. rewrite Ed, EM.
      mstep by (apply SetDigit_run; rewrite lenZ_replicate; done). done.
    + apply Forall_app. split; [done|]. apply Forall_singleton. unfold digit. zlia.
    + rewrite length_app. simpl. lia.
    + rewrite val_app, Hv, val_cons. change (val []) with 0. replace (lenZ ds) with (Z.of_nat j) by (unfold lenZ; lia).
      rewrite Nat2Z.inj_succ, <- Z.add_1_r, pow32_succ by lia. set (P := 2 ^ (32 * Z.of_nat j)).
      assert (0 < P) by (apply pow32_pos; lia). change (2 ^ 64) with (2 ^ 32 * 2 ^ 32).
      replace (M mod 2 ^ 32 * 2 ^ 32 * P) with (M mod 2 ^ 32 * P * 2 ^ 32) by lia. rewrite Z.div_mul_cancel_r by lia.
      replace (M * (2 ^ 32 * P)) with (M * P * 2 ^ 32) by lia. rewrite Z.div_mul_cancel_r by lia.
      rewrite (Z.div_mod M (2 ^ 32)) at 3 by lia. replace ((2 ^ 32 * (M / 2 ^ 32) + M mod 2 ^ 32) * P) with (M mod 2 ^ 32 * P + (M / 2 ^ 32 * P) * 2 ^ 32) by lia.
      rewrite Z.div_add by lia. lia.
Qed.

(** The first digit and the rest of a 53-bit mantissa. *)
Lemma split_mantissa (m r E P : Z) :
  0 <= r < 32 -> 0 <= E - r -> P = 2 ^ (E - r) ->
  (m / 2 ^ (52 - r)) * P + ((m mod 2 ^ (52 - r)) * 2 ^ (12 + r) * P) / 2 ^ 64 = (m * 2 ^ E) / 2 ^ 52.
Proof.
  intros Hr HE ->. set (l := m mod 2 ^ (52 - r)). set (h := m / 2 ^ (52 - r)).
  assert (m = h * 2 ^ (52 - r) + l) as E0 by (unfold h, l; rewrite (Z.div_mod m (2 ^ (52 - r))) at 1 by lia; lia). clearbody l h. subst m.
  replace ((h * 2 ^ (52 - r) + l) * 2 ^ E) with (l * 2 ^ E + (h * 2 ^ (E - r)) * 2 ^ 52).
  - rewrite Z.div_add by lia. rewrite <- Z.mul_assoc, <- Z.pow_add_r by lia. replace (12 + r + (E - r)) with (E + 12) by lia.
    rewrite Z.pow_add_r, Z.mul_assoc by lia. change (2 ^ 64) with (2 ^ 52 * 2 ^ 12). rewrite Z.div_mul_cancel_r by lia. lia.
  - rewrite <- Z.mul_assoc, <- Z.pow_add_r by lia. replace (E - r + 52) with ((52 - r) + E) by lia. rewrite (Z.pow_add_r 2 (52 - r) E) by lia. lia.
Qed.

(** The digits of an integer with a 53-bit mantissa. *)
Lemma number_digits (m E : Z) (sg : bool) :
  2 ^ 52 <= m < 2 ^ 53 -> 0 <= E ->
  let n := E / DATEBITS + 1 in
  exists ds v, fold_down (Z.to_nat n) (n - 1) (number_round E) (m, true) (mkBigInt sg (replicate (Z.to_nat n) 0)) = (Ok v, mkBigInt sg ds) /\
    Forall digit ds /\ lenZ ds = n /\ val ds = (m * 2 ^ E) / 2 ^ 52.
Proof.
  intros Hm HE n. set (r := E mod DATEBITS). unfold DATEBITS in *. assert (0 <= r < 32 /\ E = 32 * (n - 1) + r /\ 1 <= n) as (Hr & EE & Hn) by (unfold n, r; zlia).
  assert (u32 (Z.shiftr m (DOUBLE_SIGNIFICAND_SIZE - r)) = m / 2 ^ (52 - r)) as Ed.
  { unfold DOUBLE_SIGNIFICAND_SIZE. rewrite Z.shiftr_div_pow2 by lia. apply u32_small. split; [apply Z.div_pos; lia|].
    apply Z.div_lt_upper_bound; [lia|]. rewrite <- Z.pow_add_r by lia. apply Z.lt_le_trans with (2 ^ 53); [lia|]. apply Z.pow_le_mono_r; lia. }
  pose proof (Z.mod_pos_bound m (2 ^ (52 - r)) ltac:(lia)) as Hl.
  assert (u64 (Z.shiftl m (64 - (DOUBLE_SIGNIFICAND_SIZE - r))) = (m mod 2 ^ (52 - r)) * 2 ^ (12 + r)) as EM.
  { unfold u64, DOUBLE_SIGNIFICAND_SIZE. rewrite Z.shiftl_mul_pow2 by lia. replace (64 - (52 - r)) with (12 + r) by lia.
    replace (2 ^ 64) with (2 ^ (52 - r) * 2 ^ (12 + r)) by (rewrite <- Z.pow_add_r by lia; f_equal; lia). rewrite Z.mul_mod_distr_r; lia. }
  assert (0 <= (m mod 2 ^ (52 - r)) * 2 ^ (12 + r) < 2 ^ 64) as HM.
  { replace (2 ^ 64) with (2 ^ (52 - r) * 2 ^ (12 + r)) by (rewrite <- Z.pow_add_r by lia; f_equal; lia). assert (0 < 2 ^ (12 + r)) by lia. nia. }
  destruct (number_loop E _ (Z.to_nat (n - 1)) sg [m / 2 ^ (52 - r)] HM) as (ds & v & Hrun & Hds & Hl' & Hv).
  exists (ds ++ [m / 2 ^ (52 - r)]), v. split_and!.
  - replace (Z.to_nat n) with (Datatypes.S (Z.to_nat (n - 1))) by lia. cbn [fold_down].
    replace (n - 1 - 1) with (Z.of_nat (Z.to_nat (n - 1)) - 1) by lia. rewrite <- Hrun, replicate_S_end. apply bind_Ok.
    unfold number_round, DATEBITS. fold r. rewrite Ed, EM. mstep by (apply SetDigit_run; rewrite lenZ_replicate; lia). done.
  - apply Forall_app. split; [done|]. apply Forall_singleton. rewrite <- Ed. apply digit_u32.
  - rewrite lenZ_app. unfold lenZ at 1. rewrite Hl'. lenz.
  - rewrite val_app, Hv, val_cons. change (val []) with 0. replace (lenZ ds) with (n - 1) by (unfold lenZ; lia). rewrite Z2Nat.id by lia.
    rewrite <- (split_mantissa m r E (2 ^ (32 * (n - 1)))); [lia|lia|lia|f_equal; lia].
Qed.
(** static_cast<double> of an int is exact. *)
Lemma bits_of_int_spec (z : Z) : Z.abs z < 2 ^ 53 -> double_of_bits (bits_of_int z) = double_of_int z.
Proof.
  intros Hz. unfold bits_of_int, double_of_int. destruct (Z.eqb_spec z 0) as [->|Hn]; [reflexivity|]. cbv zeta.
  set (e := Z.log2 (Z.abs z)). pose proof (Z.log2_spec (Z.abs z) ltac:(lia)) as He. fold e in He.
  assert (0 <= e <= 52) as He' by (split; [apply Z.log2_nonneg|]; assert (e < 53); [apply Z.log2_lt_pow2; lia|lia]).
  set (m := Z.abs z * 2 ^ (52 - e)). assert (2 ^ 52 <= m < 2 ^ 53) as Hm.
  { unfold m. assert (0 < 2 ^ (52 - e)) by lia. replace (2 ^ 52) with (2 ^ e * 2 ^ (52 - e)) by (rewrite <- Z.pow_add_r by lia; f_equal; lia).
    replace (2 ^ 53) with (2 ^ Z.succ e * 2 ^ (52 - e)) by (rewrite <- Z.pow_add_r by lia; f_equal; lia). nia. }
  set (n := if z <? 0 then 2 ^ 63 else 0). change DOUBLE_EXPONENT_BIAS with 1023. set (b := n + (e + 1023) * 2 ^ 52 + (m - 2 ^ 52)).
  assert (n = 2 ^ 63 \/ n = 0) as Hn' by (unfold n; destruct (z <? 0); auto).
  assert (Z.testbit b 63 = (z <? 0)) as Hs.
  { rewrite Z.testbit_eqb by lia. unfold b, n. destruct (z <? 0); [apply Z.eqb_eq|apply Z.eqb_neq]; zlia. }
  assert ((b / 2 ^ 52) mod 2 ^ 11 = e + 1023) as Ee by (unfold b; zlia). assert (b mod 2 ^ 52 = m - 2 ^ 52) as Em by (unfold b; zlia).
  unfold double_of_bits. rewrite Hs, Ee, Em. zb. f_equal. replace (2 ^ 52 + (m - 2 ^ 52)) with m by lia. unfold m.
  rewrite <- Z.mul_assoc, <- Z.pow_add_r by lia. replace (52 - e + (e + 1023 - 1)) with 1074 by lia. destruct (Z.ltb_spec z 0); nia.
Qed.

(** The double of a number that the runtime makes. *)
Definition int32 (v : JSTaggedValue) : Prop := match v with VInt z => INT32_MIN <= z <= INT32_MAX | _ => True end.

Lemma number_bits_spec (v : JSTaggedValue) : IsNumber v = true -> int32 v -> double_of_bits (number_bits v) = ExtractNumber v.
Proof. destruct v; simpl; try done. unfold INT32_MIN, INT32_MAX. intros _ Hz. apply bits_of_int_spec. lia. Qed.

(** The integer that a double is. *)
Definition integer_of (d : dbl) : option Z :=
  match d with
  | DZero _ => Some 0
  | DFin k => if Z.abs k mod 2 ^ 1074 =? 0 then Some (Z.quot k (2 ^ 1074)) else None
  | _ => None
  end.

Lemma IsInteger_number (v : JSTaggedValue) : IsInteger v = match integer_of (ExtractNumber v) with Some _ => true | None => false end.
Proof.
  destruct v; try done; cbn [IsInteger ExtractNumber].
  - unfold double_of_int. destruct (Z.eqb_spec z 0); [done|]. cbn [integer_of]. rewrite Z.abs_mul, (Z.abs_eq (2 ^ 1074)), Z.mod_mul by lia. done.
  - destruct (double_of_bits _); try done. cbn [integer_of]. by destruct (_ =? 0).
Qed.

Lemma quot_abs (k P : Z) : 0 < P -> Z.quot k P = signed (k <? 0) (Z.abs k / P).
Proof.
  intros HP. unfold signed. destruct (Z.ltb_spec k 0).
  - rewrite (Z.abs_neq k), <- (Z.quot_div_nonneg (- k) P), Z.quot_opp_l by lia. lia.
  - rewrite (Z.abs_eq k) by lia. apply Z.quot_div_nonneg; lia.
Qed.

Lemma NumberToBigInt_run {S} (v : JSTaggedValue) (z : Z) (s : S) :
  IsNumber v = true -> int32 v -> integer_of (ExtractNumber v) = Some z -> computes (NumberToBigInt v) z s.
Proof.
  intros Hv Hi Hz. unfold NumberToBigInt. cbv zeta. rewrite IsInteger_number, Hz, exponent_field, mantissa_field, number_bits_spec by done. cbn [negb].
  rewrite <- (number_bits_spec v Hv Hi) in *. set (bits := number_bits v) in *. clearbody bits.
  destruct (double_of_bits bits) as [| |neg|k] eqn:Ed; try done.
  { injection Hz as <-. by apply Int32ToBigInt_run. }
  cbn [integer_of] in Hz. destruct (Z.eqb_spec (Z.abs k mod 2 ^ 1074) 0) as [Hk|]; [|done].
  destruct (integral_parts bits k Ed Hk) as (He & Hm & Hs & Hne). injection Hz as <-.
  rewrite (quot_abs k (2 ^ 1074)), Hm, scaled_div by lia. change (double_eqb (DFin k) (DZero false)) with (k =? 0).
  change (double_ltb (DFin k) (DZero false)) with (k <? 0). zb. change DOUBLE_EXPONENT_BIAS with 1023.
  pose proof (mantissa_bounds bits) as Hmb. set (e := exponent_of bits) in *. set (m := mantissa_of bits) in *. clearbody e m.
  assert (u64 (e - 1023) = e - 1023) as -> by (unfold u64; apply Z.mod_small; lia). pose proof MAXSIZE_eq as HMS. set (E := e - 1023) in *.
  set (n := E / DATEBITS + 1). assert (1 <= n <= 32) as Hn by (unfold n, E, DATEBITS; zlia). assert (u32 n = n) as -> by (apply u32_small; lia).
  cstep by (apply CreateBigint_run; lia).
  destruct (number_digits m E (k <? 0) Hmb ltac:(lia)) as (ds & w & Hrun & Hds & Hl & Hval).
  eapply computes_step.
  { apply (build_run _ (mkBigInt (k <? 0) ds)). mstep. mstep with Hrun. done. }
  assert (signed (k <? 0) (m * 2 ^ E / 2 ^ 52) = value (mkBigInt (k <? 0) ds)) as -> by (unfold value, signed; simpl; by rewrite Hval).
  apply RightTruncate_run; [done|]. unfold GetLength. simpl. fold n in Hl. lia.
Qed.

(** NumberToBigInt is exact: an int or an integral double (a double of any
    magnitude, negative zero included) becomes the BigInt of the same value, and
    every other number is a RangeError. *)
Theorem bigint_NumberToBigInt_spec {S} (v : JSTaggedValue) (s : S) :
  IsNumber v = true -> int32 v ->
  match integer_of (ExtractNumber v) with
  | Some z => computes (NumberToBigInt v) z s
  | None => NumberToBigInt v s = (Throw RANGE_ERROR, s)
  end.
Proof.
  intros Hv Hi. destruct (integer_of (ExtractNumber v)) as [z|] eqn:Ez; [by apply NumberToBigInt_run|].
  unfold NumberToBigInt. by rewrite IsInteger_number, Ez.
Qed.

Lemma bigint_NumberToBigInt_spec_witness :
  computes (NumberToBigInt (VDouble ((100 + 1023) * 2 ^ 52 + 2 ^ 51))) (3 * 2 ^ 99) tt /\
  NumberToBigInt (VDouble ((1023) * 2 ^ 52 + 2 ^ 51)) tt = (Throw RANGE_ERROR, tt).
Proof.
  split.
  - exact (bigint_NumberToBigInt_spec (VDouble ((100 + 1023) * 2 ^ 52 + 2 ^ 51)) tt eq_refl I).
  - exact (bigint_NumberToBigInt_spec (VDouble ((1023) * 2 ^ 52 + 2 ^ 51)) tt eq_refl I).
Defined.
(** ** BigIntToNumber *)

(** Round a/P to the nearest integer, and to the even one on a tie. *)
Definition round_up (q r P : Z) : bool := (P <? 2 * r) || ((2 * r =? P) && Z.odd q).
Definition nearest_even (a P : Z) : Z := let q := a / P in if round_up q (a mod P) P then q + 1 else q.

Lemma nearest_even_spec (a P : Z) :
  0 < P -> 2 * Z.abs (a - nearest_even a P * P) <= P /\ (2 * Z.abs (a - nearest_even a P * P) = P -> Z.even (nearest_even a P) = true).
Proof.
  intros HP. unfold nearest_even, round_up. cbv zeta. pose proof (Z.div_mod a P ltac:(lia)) as Hdm. pose proof (Z.mod_pos_bound a P HP) as Hr.
  set (q := a / P) in *. set (r := a mod P) in *. clearbody q r. subst a.
  destruct (Z.ltb_spec P (2 * r)); cbn [orb].
  - replace (P * q + r - (q + 1) * P) with (r - P) by ring. lia.
  - destruct (Z.eqb_spec (2 * r) P); cbn [andb].
    + destruct (Z.odd q) eqn:Eo; [rewrite Z.even_add, <- Z.negb_odd, Eo|rewrite <- Z.negb_odd, Eo].
      * replace (P * q + r - (q + 1) * P) with (r - P) by ring. split; [lia|done].
      * replace (P * q + r - q * P) with r by ring. split; [lia|done].
    + replace (P * q + r - q * P) with r by ring. lia.
Qed.

(** The bit pattern of the double nearest to an integer of absolute value
    [a] > 0.  A mantissa that rounds up to 2^53 carries into the exponent, from
    the largest exponent to infinity. *)
Definition nearest_double (neg : bool) (a : Z) : Z :=
  let L := Z.log2 a in
  (if neg then 2 ^ 63 else 0) +
  (if L <=? 52 then (L + 1023) * 2 ^ 52 + (a * 2 ^ (52 - L) - 2 ^ 52)
   else if L <=? 1023 then (L + 1023) * 2 ^ 52 + (nearest_even a (2 ^ (L - 52)) - 2 ^ 52)
   else 2047 * 2 ^ 52).

Definition sign_word (neg : bool) : Z := if neg then 2 ^ 63 else 0.

Lemma CalculateNumber_spec (neg : bool) (m e : Z) :
  0 <= m < 2 ^ 52 -> 0 <= e <= 1023 -> CalculateNumber (sign_word neg) m e = VDouble (sign_word neg + (e + 1023) * 2 ^ 52 + m).
Proof.
  intros Hm He. unfold CalculateNumber. f_equal. change DOUBLE_EXPONENT_BIAS with 1023. change DOUBLE_SIGNIFICAND_SIZE with 52.
  rewrite Z.shiftl_mul_pow2 by lia. assert (u64 ((e + 1023) * 2 ^ 52) = (e + 1023) * 2 ^ 52) as -> by (unfold u64; apply Z.mod_small; lia).
  assert (Z.lor (sign_word neg) ((e + 1023) * 2 ^ 52) = sign_word neg + (e + 1023) * 2 ^ 52) as ->.
  { replace (sign_word neg) with ((if neg then 1 else 0) * 2 ^ 63) by (unfold sign_word; destruct neg; lia). apply lor_low; lia. }
  replace (sign_word neg + (e + 1023) * 2 ^ 52) with (((if neg then 2 ^ 11 else 0) + (e + 1023)) * 2 ^ 52) by (unfold sign_word; destruct neg; lia).
  apply lor_low; lia.
Qed.

Lemma infinity_spec (neg : bool) : infinity neg = VDouble (sign_word neg + 2047 * 2 ^ 52).
Proof. done. Qed.

Lemma odd_bit (m : Z) : (Z.land m 1 =? 1) = Z.odd m.
Proof. change 1 with (Z.ones 1) at 1. rewrite Z.land_ones by lia. change (2 ^ 1) with 2. rewrite Zmod_odd. by destruct (Z.odd m). Qed.

Lemma Rounding_spec (neg : bool) (m e : Z) (needRound : bool) :
  0 <= m < 2 ^ 52 -> 0 <= e <= 1023 ->
  Rounding (sign_word neg) m e needRound = VDouble (sign_word neg + (e + 1023) * 2 ^ 52 + (if needRound || Z.odd m then m + 1 else m)).
Proof.
  intros Hm He. unfold Rounding. rewrite odd_bit. destruct (needRound || Z.odd m); [|by apply CalculateNumber_spec]. cbv zeta.
  assert (u64 (m + 1) = m + 1) as -> by (unfold u64; apply Z.mod_small; lia). change DOUBLE_SIGNIFICAND_SIZE with 52. change DOUBLE_EXPONENT_BIAS with 1023.
  rewrite Z.shiftr_div_pow2 by lia. destruct (Z.eqb_spec ((m + 1) / 2 ^ 52) 0) as [E|E]; cbn [negb].
  - apply CalculateNumber_spec; zlia.
  - assert (m + 1 = 2 ^ 52) as -> by zlia. destruct (Z.ltb_spec 1023 (e + 1)).
    + assert (e = 1023) as -> by lia. assert (negb (sign_word neg =? 0) = neg) as -> by (by destruct neg). rewrite infinity_spec. f_equal. lia.
    + rewrite CalculateNumber_spec by lia. f_equal. lia.
Qed.

(** The digits below the guard digit, from the top. *)
Lemma find_down_digit {S} (x : BigInt) (low post : list Z) (s : S) :
  GetData x = low ++ post ->
  find_down (length low) (lenZ low - 1) (fun i => d ← GetDigit x i; mret (if negb (d =? 0) then Some tt else None)) s
  = (Ok (if existsb (fun e => negb (e =? 0)) low then Some tt else None), s).
Proof.
  revert post. induction low as [|d low IH] using rev_ind; intros post Hx; [done|].
  replace (length (low ++ [d])) with (Datatypes.S (length low)) by (rewrite length_app; simpl; lia). cbn [find_down].
  rewrite <- app_assoc in Hx. replace (lenZ (low ++ [d]) - 1) with (lenZ low) by lenz.
  assert (GetDigit x (lenZ low) s = (Ok d, s)) as Hg by (apply GetDigit_run; [apply lenZ_nonneg|rewrite Hx; apply list_lookup_middle; lenz]).
  rewrite (bind_Ok _ _ _ s (if negb (d =? 0) then Some tt else None)) by (by mstep with Hg). rewrite existsb_app. cbn [existsb]. rewrite orb_false_r.
  destruct (negb (d =? 0)); cbn [orb]; [by rewrite orb_true_r|]. rewrite orb_false_r. by apply (IH ([d] ++ post)).
Qed.

Lemma land_pow2 (d k : Z) : 0 <= k -> (Z.land d (2 ^ k) =? 0) = negb (Z.testbit d k).
Proof.
  intros Hk. assert (Z.land d (2 ^ k) = if Z.testbit d k then 2 ^ k else 0) as ->.
  { apply Z.bits_inj'; intros n Hn. rewrite Z.land_spec, Z.pow2_bits_eqb by lia. destruct (Z.eqb_spec k n) as [<-|Hne].
    - destruct (Z.testbit d k); [by rewrite Z.pow2_bits_true|by rewrite Z.bits_0].
    - rewrite andb_false_r. destruct (Z.testbit d k); [by rewrite Z.pow2_bits_false by lia|by rewrite Z.bits_0]. }
  destruct (Z.testbit d k); cbn [negb]; [apply Z.eqb_neq; lia|done].
Qed.

(** The lowest [g] bits of a digit: the guard bit and the bits below it. *)
Lemma guard_bit (d g : Z) : 1 <= g -> d mod 2 ^ g = (if Z.testbit d (g - 1) then 2 ^ (g - 1) else 0) + d mod 2 ^ (g - 1).
Proof.
  intros Hg. replace g with (g - 1 + 1) at 1 by lia. rewrite Z.pow_add_r by lia. change (2 ^ 1) with 2. rewrite Z.rem_mul_r by lia.
  pose proof (Z.testbit_spec' d (g - 1) ltac:(lia)) as Ht. rewrite <- Ht. destruct (Z.testbit d (g - 1)); cbn [Z.b2z]; lia.
Qed.
Lemma odd_hidden (m : Z) : Z.odd (2 ^ 52 + m) = Z.odd m.
Proof. rewrite Z.odd_add. change (Z.odd (2 ^ 52)) with false. apply xorb_false_l. Qed.

(** The decision of round_rest is the one of rounding to nearest even. *)
Lemma round_rest_run {S} (x : BigInt) (low post : list Z) (neg : bool) (m e d g : Z) (s : S) :
  GetData x = low ++ post -> Forall digit low -> digit d -> 1 <= g <= 32 -> 0 <= m < 2 ^ 52 -> 0 <= e <= 1023 ->
  round_rest x (sign_word neg) m e d (lenZ low) g s
  = (Ok (VDouble (sign_word neg + (e + 1023) * 2 ^ 52 +
      (if round_up m ((d mod 2 ^ g) * 2 ^ (32 * lenZ low) + val low) (2 ^ g * 2 ^ (32 * lenZ low)) then m + 1 else m))), s).
Proof.
  intros Hx Hlow Hd Hg Hm He. pose proof (val_bounds low Hlow) as Hv. pose proof (pow32_pos (lenZ low) (lenZ_nonneg low)) as HP.
  rewrite (guard_bit d g) by lia. replace (2 ^ g) with (2 * 2 ^ (g - 1)) by (rewrite <- Z.pow_succ_r by lia; f_equal; lia).
  unfold round_rest. cbv zeta. rewrite Z.shiftl_mul_pow2, Z.mul_1_l by lia.
  assert (0 < 2 ^ (g - 1) < 2 ^ 32) as HG by (split; [lia|apply Z.pow_lt_mono_r; lia]).
  rewrite (u32_small (2 ^ (g - 1))) by lia. rewrite (u32_small (2 ^ (g - 1) - 1)) by lia.
  replace (2 ^ (g - 1) - 1) with (Z.ones (g - 1)) by (rewrite Z.ones_equiv; lia). rewrite land_pow2, Z.land_ones by lia.
  pose proof (Z.mod_pos_bound d (2 ^ (g - 1)) ltac:(lia)) as Ht. unfold round_up.
  set (P := 2 ^ (32 * lenZ low)) in *. set (G := 2 ^ (g - 1)) in *. set (t := d mod G) in *. set (v := val low) in *.
  destruct (Z.testbit d (g - 1)); cbn [negb].
  - destruct (Z.eqb_spec t 0) as [->|Hne]; cbn [negb].
    + replace (Z.to_nat (lenZ low)) with (length low) by (unfold lenZ; lia).
      mstep by (apply (find_down_digit x low post); done). rewrite val_zero_digits by done. fold v. rewrite Z.add_0_r.
      destruct (Z.eqb_spec v 0) as [->|Hvn]; cbn [negb]; unfold mret; rewrite Rounding_spec by done; f_equal; f_equal; f_equal; cbn [orb].
      * replace (2 * G * P <? 2 * (G * P + 0)) with false by (symmetry; apply Z.ltb_ge; nia).
        replace (2 * (G * P + 0) =? 2 * G * P) with true by (symmetry; apply Z.eqb_eq; nia). done.
      * replace (2 * G * P <? 2 * (G * P + v)) with true by (symmetry; apply Z.ltb_lt; nia). done.
    + unfold mret. rewrite Rounding_spec by done. replace (2 * G * P <? 2 * ((G + t) * P + v)) with true by (symmetry; apply Z.ltb_lt; nia). done.
  - unfold mret. rewrite CalculateNumber_spec by done. replace (2 * G * P <? 2 * ((0 + t) * P + v)) with false by (symmetry; apply Z.ltb_ge; nia).
    replace (2 * ((0 + t) * P + v) =? 2 * G * P) with false by (symmetry; apply Z.eqb_neq; nia). done.
Qed.

Lemma mantissa_log (a m k r : Z) : 0 <= m < 2 ^ 52 -> 0 <= k -> 0 <= r < 2 ^ k -> a = (2 ^ 52 + m) * 2 ^ k + r -> Z.log2 a = 52 + k.
Proof.
  intros Hm Hk Hr ->. apply Z.log2_unique; [lia|]. rewrite <- Z.add_succ_l, !Z.pow_add_r by lia. change (2 ^ Z.succ 52) with (2 * 2 ^ 52). nia.
Qed.

Lemma nearest_rounded (neg : bool) (a m k r : Z) :
  0 <= m < 2 ^ 52 -> 0 < k <= 971 -> 0 <= r < 2 ^ k -> a = (2 ^ 52 + m) * 2 ^ k + r ->
  nearest_double neg a = sign_word neg + (52 + k + 1023) * 2 ^ 52 + (if round_up m r (2 ^ k) then m + 1 else m).
Proof.
  intros Hm Hk Hr Ha. unfold nearest_double, nearest_even. rewrite (mantissa_log a m k r) by (done || lia). cbv zeta. zb.
  fold (sign_word neg). replace (52 + k - 52) with k by lia.
  assert (a / 2 ^ k = 2 ^ 52 + m) as -> by (symmetry; apply Z.div_unique with r; lia).
  assert (a mod 2 ^ k = r) as -> by (symmetry; apply Z.mod_unique with (2 ^ 52 + m); lia).
  unfold round_up. rewrite odd_hidden. destruct (_ || _); lia.
Qed.

Lemma nearest_exact (neg : bool) (a m k : Z) :
  0 <= m < 2 ^ 52 -> 0 < k <= 971 -> a = (2 ^ 52 + m) * 2 ^ k -> nearest_double neg a = sign_word neg + (52 + k + 1023) * 2 ^ 52 + m.
Proof.
  intros Hm Hk Ha. rewrite (nearest_rounded neg a m k 0) by lia. unfold round_up. assert (0 < 2 ^ k) by lia.
  replace (2 ^ k <? 2 * 0) with false by (symmetry; apply Z.ltb_ge; lia). by replace (2 * 0 =? 2 ^ k) with false by (symmetry; apply Z.eqb_neq; lia).
Qed.

Lemma nearest_small (neg : bool) (a m k : Z) :
  0 <= m < 2 ^ 52 -> 0 <= k <= 52 -> 0 < a -> a * 2 ^ k = 2 ^ 52 + m -> nearest_double neg a = sign_word neg + (52 - k + 1023) * 2 ^ 52 + m.
Proof.
  intros Hm Hk Ha E. assert (Z.log2 a = 52 - k) as HL.
  { pose proof (Z.log2_mul_pow2 a k Ha ltac:(lia)) as H1. rewrite E in H1. rewrite (mantissa_log (2 ^ 52 + m) m 0 0) in H1 by lia. lia. }
  unfold nearest_double. rewrite HL. zb. replace (52 - (52 - k)) with k by lia. rewrite E. unfold sign_word. lia.
Qed.

(** The part of the mantissa that comes from the top digit. *)
Lemma head_mantissa (h lz : Z) :
  0 <= lz < 32 -> 2 ^ 31 <= h * 2 ^ lz < 2 ^ 32 ->
  let needMoveBit := lz + DATEBITS + 1 in
  (if needMoveBit =? 64 then 0 else Z.shiftr (u64 (Z.shiftl h needMoveBit)) 12) = (h - 2 ^ (31 - lz)) * 2 ^ (lz + 21) /\
  2 ^ (31 - lz) <= h < 2 * 2 ^ (31 - lz) /\ 2 ^ (31 - lz) * 2 ^ (lz + 21) = 2 ^ 52.
Proof.
  intros Hlz Hh. cbv zeta. unfold DATEBITS. assert (2 ^ (31 - lz) * 2 ^ lz = 2 ^ 31) as E1 by (rewrite <- Z.pow_add_r by lia; f_equal; lia).
  assert (2 ^ (lz + 21) = 2 ^ lz * 2 ^ 21) as E2 by (rewrite Z.pow_add_r; lia). assert (0 < 2 ^ lz) by lia. assert (0 < 2 ^ (31 - lz)) by lia.
  assert (2 ^ (31 - lz) <= h < 2 * 2 ^ (31 - lz)) as Hb by (change (2 ^ 32) with (2 * 2 ^ 31) in Hh; rewrite <- E1 in Hh; nia).
  split; [|split; [done|]]; [|rewrite E2; nia]. destruct (Z.eqb_spec (lz + 32 + 1) 64).
  - assert (lz = 31) as -> by lia. change (2 ^ (31 - 31)) with 1 in *. assert (h = 1) as -> by lia. done.
  - unfold u64. rewrite Z.shiftl_mul_pow2, Z.shiftr_div_pow2 by lia. replace (lz + 32 + 1) with (lz + 33) by lia. rewrite Z.pow_add_r, Z.mul_assoc by lia.
    assert ((h * 2 ^ lz * 2 ^ 33) mod 2 ^ 64 = ((h - 2 ^ (31 - lz)) * 2 ^ (lz + 21)) * 2 ^ 12) as ->.
    { rewrite E2. symmetry. apply Z.mod_unique with 1; [left|]; [change (2 ^ 32) with (2 * 2 ^ 31) in Hh; nia|]. change (2 ^ 64) with (2 ^ 31 * 2 ^ 33). rewrite <- E1. ring. }
    apply Z.div_mul. lia.
Qed.
(** What the first lines of BigIntToNumber leave to do for a number that fits. *)
Section to_number.
Context {S : Type} (x : BigInt) (h lz e : Z) (s : S).
Hypothesis Hz : IsZero x = false.
Hypothesis Hlz : CountLeadingZeros h = lz.
Hypothesis Hlz32 : 0 <= lz < 32.
Hypothesis Hnorm : 2 ^ 31 <= h * 2 ^ lz < 2 ^ 32.
Hypothesis He : GetLength x * 32 - lz - 1 = e.
Hypothesis He1023 : 0 <= e <= 1023.
Let m1 := (h - 2 ^ (31 - lz)) * 2 ^ (lz + 21).
Let neg := GetSign x.

Definition to_number_tail : M S JSTaggedValue :=
  let index := GetLength x - 1 in
  let sign := sign_word neg in
  if negb (0 <? index) then mret (CalculateNumber sign m1 e)
  else
    let index := index - 1 in
    digit ← GetDigit x index;
    let '(mantissa, remainMantissaBits, index) :=
      if 32 <=? lz + 21
      then (Z.lor m1 (u64 (Z.shiftl digit (lz + 21 - 32))), lz + 21 - 32, index - 1)
      else (m1, lz + 21, index) in
    r ← (if (0 <? remainMantissaBits) && (0 <=? index) then
           digit ← GetDigit x index;
           mret (digit, Z.lor mantissa (Z.shiftr digit (32 - remainMantissaBits)), remainMantissaBits - 32)
         else mret (digit, mantissa, remainMantissaBits));
    let '(digit, mantissa, remainMantissaBits) := r in
    if 0 <? remainMantissaBits then mret (CalculateNumber sign mantissa e)
    else if remainMantissaBits <? 0 then round_rest x sign mantissa e digit index (- remainMantissaBits)
    else if index <=? 0 then mret (CalculateNumber sign mantissa e)
    else
      digit ← GetDigit x index;
      round_rest x sign mantissa e digit (index - 1) 32.

Lemma to_number_head (low : list Z) : GetData x = low ++ [h] -> BigIntToNumber x s = to_number_tail s.
Proof.
  intros Hx. unfold BigIntToNumber. rewrite Hz. cbv zeta.
  mstep by (apply (GetDigit_run _ _ h); [unfold GetLength; rewrite Hx; lenz|]; unfold GetLength; rewrite Hx; apply list_lookup_middle; lenz).
  rewrite Hlz. destruct (head_mantissa h lz Hlz32 Hnorm) as (Hm & _). cbv zeta in Hm. rewrite Hm. change DOUBLE_EXPONENT_BIAS with 1023.
  unfold DATEBITS. replace (GetLength x * 32 - lz - 1) with e by lia. replace (lz + 32 + 1 - 12) with (lz + 21) by lia. zb. done.
Qed.

Lemma m1_bounds : 0 <= m1 /\ m1 + 2 ^ (lz + 21) <= 2 ^ 52 /\ 2 ^ 52 + m1 = h * 2 ^ (lz + 21).
Proof.
  destruct (head_mantissa h lz Hlz32 Hnorm) as (_ & Hb & E). unfold m1. assert (0 < 2 ^ (lz + 21)) by lia. rewrite <- E. nia.
Qed.

Lemma to_number_one : GetData x = [h] -> to_number_tail s = (Ok (VDouble (nearest_double neg h)), s).
Proof.
  intros Hx. assert (GetLength x = 1) as HL by (unfold GetLength; by rewrite Hx). unfold to_number_tail. rewrite HL. cbv zeta. zb. cbn [negb]. pose proof m1_bounds as Hm.
  unfold mret. rewrite CalculateNumber_spec by lia. assert (0 < 2 ^ lz) by lia.
  rewrite (nearest_small neg h m1 (lz + 21)) by (lia || nia). by replace e with (52 - (lz + 21)) by lia.
Qed.

(** Two digits fill the mantissa with bits to spare. *)
Lemma to_number_two (d1 : Z) :
  GetData x = [d1; h] -> digit d1 -> 11 <= lz -> to_number_tail s = (Ok (VDouble (nearest_double neg (d1 + 2 ^ 32 * h))), s).
Proof.
  intros Hx Hd Hl. unfold digit in Hd. assert (GetLength x = 2) as HL by (unfold GetLength; by rewrite Hx). unfold to_number_tail. rewrite HL. cbv zeta. zb. cbn [negb]. pose proof m1_bounds as Hm.
  mstep by (apply (GetDigit_run _ _ d1); [lia|]; by rewrite Hx). zb. cbn [andb]. rewrite andb_false_r. mstep.
  assert (2 ^ (lz + 21) = 2 ^ 32 * 2 ^ (lz - 11)) as E by (rewrite <- Z.pow_add_r by lia; f_equal; lia). assert (0 < 2 ^ (lz - 11)) by lia.
  assert (u64 (Z.shiftl d1 (lz + 21 - 32)) = d1 * 2 ^ (lz - 11)) as ->.
  { rewrite Z.shiftl_mul_pow2 by lia. replace (lz + 21 - 32) with (lz - 11) by lia. unfold u64. apply Z.mod_small. nia. }
  assert (Z.lor m1 (d1 * 2 ^ (lz - 11)) = m1 + d1 * 2 ^ (lz - 11)) as -> by (apply lor_low; [lia|nia]).
  rewrite (nearest_small neg (d1 + 2 ^ 32 * h) (m1 + d1 * 2 ^ (lz - 11)) (lz - 11)) by nia.
  assert (e = 52 - (lz - 11)) as -> by lia. destruct (0 <? lz + 21 - 32); unfold mret; [by rewrite CalculateNumber_spec by nia|].
  destruct (Z.ltb_spec (lz + 21 - 32) 0); [lia|]. by rewrite CalculateNumber_spec by nia.
Qed.

(** The mantissa ends inside the second digit. *)
Lemma to_number_second (low : list Z) (d1 : Z) :
  GetData x = low ++ [d1; h] -> Forall digit low -> digit d1 -> lz < 11 ->
  to_number_tail s = (Ok (VDouble (nearest_double neg (val (low ++ [d1; h])))), s).
Proof.
  intros Hx Hlow Hd Hl. assert (GetLength x = lenZ low + 2) as HL by (unfold GetLength; rewrite Hx; lenz). pose proof (lenZ_nonneg low) as Hn. pose proof m1_bounds as Hm.
  unfold to_number_tail. rewrite HL. cbv zeta. zb. cbn [negb]. replace (lenZ low + 2 - 1 - 1) with (lenZ low) by lia.
  assert (GetDigit x (lenZ low) s = (Ok d1, s)) as Hg by (apply GetDigit_run; [lia|]; rewrite Hx; apply list_lookup_middle; lenz).
  mstep with Hg. zb. cbn [andb]. mstep by (mstep with Hg; reflexivity). zb. unfold digit in Hd.
  set (g := 11 - lz). assert (2 ^ 32 = 2 ^ (lz + 21) * 2 ^ g) as E by (rewrite <- Z.pow_add_r by lia; f_equal; lia). assert (0 < 2 ^ g) by lia.
  rewrite Z.shiftr_div_pow2 by lia. replace (32 - (lz + 21)) with g by lia. replace (- (lz + 21 - 32)) with g by lia.
  pose proof (Z.div_mod d1 (2 ^ g) ltac:(lia)) as Hdm. pose proof (Z.mod_pos_bound d1 (2 ^ g) ltac:(lia)) as Hr.
  assert (0 <= d1 / 2 ^ g < 2 ^ (lz + 21)) as Hq by (split; [apply Z.div_pos; lia|apply Z.div_lt_upper_bound; lia]).
  assert (Z.lor m1 (d1 / 2 ^ g) = m1 + d1 / 2 ^ g) as -> by (apply lor_low; lia).
  rewrite (round_rest_run x low [d1; h]) by (done || lia). do 3 f_equal. pose proof (val_bounds low Hlow) as Hv. pose proof (pow32_pos (lenZ low) Hn) as HP.
  rewrite <- Z.pow_add_r by lia. assert (e = 52 + (g + 32 * lenZ low)) as -> by lia. symmetry. apply nearest_rounded; [lia|lia|rewrite Z.pow_add_r by lia; nia|].
  rewrite Z.pow_add_r, val_app, !val_cons by lia. change (val []) with 0. set (q := d1 / 2 ^ g) in *. set (r := d1 mod 2 ^ g) in *. nia.
Qed.

Section third.
Context (low : list Z) (d2 d1 : Z).
Hypothesis Hx : GetData x = low ++ [d2; d1; h].
Hypothesis Hlow : Forall digit low.
Hypothesis Hd2 : 0 <= d2 < 2 ^ 32.
Hypothesis Hd1 : 0 <= d1 < 2 ^ 32.
Hypothesis Hl : 11 <= lz.
Let m2 := m1 + d1 * 2 ^ (lz - 11).

Lemma m2_bounds : 0 <= m2 /\ m2 + 2 ^ (lz - 11) <= 2 ^ 52 /\ 2 ^ 52 + m2 = (h * 2 ^ 32 + d1) * 2 ^ (lz - 11) /\ m2 = ((h - 2 ^ (31 - lz)) * 2 ^ 32 + d1) * 2 ^ (lz - 11).
Proof.
  pose proof m1_bounds as Hm. assert (2 ^ (lz + 21) = 2 ^ 32 * 2 ^ (lz - 11)) as E by (rewrite <- Z.pow_add_r by lia; f_equal; lia). assert (0 < 2 ^ (lz - 11)) by lia.
  unfold m2. rewrite E in Hm. split_and!; [nia|nia|nia|]. unfold m1. rewrite E. ring.
Qed.

(** Both later digits are read; the tail after that. *)
Lemma to_number_pad :
  to_number_tail s =
    (let index := lenZ low in
     let sign := sign_word neg in
     if 11 <? lz then round_rest x sign (Z.lor m2 (Z.shiftr d2 (43 - lz))) e d2 index (43 - lz)
     else if index <=? 0 then mret (CalculateNumber sign m2 e)
     else round_rest x sign m2 e d2 (index - 1) 32) s.
Proof.
  assert (GetLength x = lenZ low + 3) as HL by (unfold GetLength; rewrite Hx; lenz). pose proof (lenZ_nonneg low) as Hn. pose proof m1_bounds as Hm.
  unfold to_number_tail. rewrite HL. cbv zeta. zb. cbn [negb].
  assert (2 ^ (lz + 21) = 2 ^ 32 * 2 ^ (lz - 11)) as E by (rewrite <- Z.pow_add_r by lia; f_equal; lia). assert (0 < 2 ^ (lz - 11)) by lia.
  mstep by (apply (GetDigit_run _ _ d1); [lia|]; rewrite Hx; replace (Z.to_nat (lenZ low + 3 - 1 - 1)) with (Datatypes.S (length low)) by (unfold lenZ; lia); by rewrite (lookup_app_r low) by lia; replace (Datatypes.S (length low) - length low)%nat with 1%nat by lia).
  replace (lenZ low + 3 - 1 - 1 - 1) with (lenZ low) by lia. replace (lz + 21 - 32) with (lz - 11) by lia.
  assert (u64 (Z.shiftl d1 (lz - 11)) = d1 * 2 ^ (lz - 11)) as -> by (rewrite Z.shiftl_mul_pow2 by lia; unfold u64; apply Z.mod_small; nia).
  assert (Z.lor m1 (d1 * 2 ^ (lz - 11)) = m2) as -> by (apply lor_low; [lia|nia]).
  assert (GetDigit x (lenZ low) s = (Ok d2, s)) as Hg by (apply GetDigit_run; [lia|]; rewrite Hx; apply list_lookup_middle; lenz).
  destruct (Z.ltb_spec 11 lz).
  - zb. cbn [andb]. mstep by (mstep with Hg; reflexivity). zb. replace (32 - (lz - 11)) with (43 - lz) by lia. by replace (- (lz - 11 - 32)) with (43 - lz) by lia.
  - zb. cbn [andb]. mstep. zb. destruct (lenZ low <=? 0); [done|]. by mstep with Hg.
Qed.

(** The mantissa ends inside the third digit. *)
Lemma to_number_third : 11 < lz -> to_number_tail s = (Ok (VDouble (nearest_double neg (val (low ++ [d2; d1; h])))), s).
Proof.
  intros Hl'. rewrite to_number_pad. cbv zeta. zb. pose proof m2_bounds as (Hm0 & Hm52 & Em & Em'). pose proof (lenZ_nonneg low) as Hn.
  assert (GetLength x = lenZ low + 3) as HL by (unfold GetLength; rewrite Hx; lenz).
  set (g := 43 - lz). assert (2 ^ 32 = 2 ^ (lz - 11) * 2 ^ g) as E by (rewrite <- Z.pow_add_r by lia; f_equal; lia). assert (0 < 2 ^ g) by lia.
  rewrite Z.shiftr_div_pow2 by lia. pose proof (Z.div_mod d2 (2 ^ g) ltac:(lia)) as Hdm. pose proof (Z.mod_pos_bound d2 (2 ^ g) ltac:(lia)) as Hr.
  assert (0 <= d2 / 2 ^ g < 2 ^ (lz - 11)) as Hq by (split; [apply Z.div_pos; lia|apply Z.div_lt_upper_bound; lia]).
  assert (Z.lor m2 (d2 / 2 ^ g) = m2 + d2 / 2 ^ g) as -> by (rewrite Em'; apply lor_low; lia).
  rewrite (round_rest_run x low [d2; d1; h]) by (done || lia). do 3 f_equal. pose proof (val_bounds low Hlow) as Hv. pose proof (pow32_pos (lenZ low) Hn) as HP.
  rewrite <- Z.pow_add_r by lia. assert (e = 52 + (g + 32 * lenZ low)) as -> by lia. symmetry. apply nearest_rounded; [lia|lia|rewrite Z.pow_add_r by lia; nia|].
  rewrite Z.pow_add_r, val_app, !val_cons by lia. change (val []) with 0. set (q := d2 / 2 ^ g) in *. set (r := d2 mod 2 ^ g) in *. clearbody m2 q r g.
  replace ((2 ^ 52 + (m2 + q)) * (2 ^ g * 2 ^ (32 * lenZ low)) + (r * 2 ^ (32 * lenZ low) + val low))
    with (((2 ^ 52 + m2) * 2 ^ g + (2 ^ g * q + r)) * 2 ^ (32 * lenZ low) + val low) by ring.
  rewrite <- Hdm, Em, <- Z.mul_assoc, <- E. ring.
Qed.

(** The mantissa ends between two digits: right when nothing is rounded off. *)
Lemma to_number_between : lz = 11 -> val (low ++ [d2]) = 0 -> to_number_tail s = (Ok (VDouble (nearest_double neg (val (low ++ [d2; d1; h])))), s).
Proof.
  intros Hl' H0. pose proof (val_bounds low Hlow) as Hv. pose proof (lenZ_nonneg low) as Hn. pose proof (pow32_pos (lenZ low) Hn) as HP.
  assert (GetLength x = lenZ low + 3) as HL by (unfold GetLength; rewrite Hx; lenz).
  rewrite val_app, val_cons in H0. change (val []) with 0 in H0. assert (d2 = 0 /\ val low = 0) as [Ed Ev] by nia.
  pose proof m2_bounds as (Hm0 & Hm52 & Em & _). rewrite Hl' in Em. change (2 ^ (11 - 11)) with 1 in *. 
  rewrite (nearest_exact neg (val (low ++ [d2; d1; h])) m2 (32 * (lenZ low + 1))).
  - rewrite to_number_pad. cbv zeta. rewrite Hl'. cbn [Z.ltb]. change (11 <? 11) with false. cbv iota.
    assert (e = 52 + 32 * (lenZ low + 1)) as -> by lia. rewrite Hl' in Hm52. change (2 ^ (11 - 11)) with 1 in *.
    destruct (lenZ low <=? 0); unfold mret; [by rewrite CalculateNumber_spec by lia|]. unfold round_rest. rewrite Ed. cbv zeta. rewrite Z.land_0_l.
    change (0 =? 0) with true. cbv iota. unfold mret. by rewrite CalculateNumber_spec by lia.
  - rewrite Hl' in Hm52. change (2 ^ (11 - 11)) with 1 in *. lia.
  - lia.
  - rewrite Em, val_app, !val_cons, pow32_succ, Ev, Ed by lia. change (val []) with 0. ring.
Qed.
End third.
End to_number.
(** The top digit and the bit length of a number that is not zero. *)
Lemma top_digit (x : BigInt) :
  wf x -> IsZero x = false ->
  exists low h, GetData x = low ++ [h] /\ Forall digit low /\ digit h /\ h <> 0 /\
    Z.log2 (val (GetData x)) = GetLength x * 32 - CountLeadingZeros h - 1.
Proof.
  intros Hx Hz. destruct (wf_top x Hx) as (low & h & E & Ht). pose proof (wf_digits x Hx) as Hd. rewrite E in Hd. apply Forall_app in Hd as [Hlow [Hh _]%Forall_cons_1].
  assert (h <> 0) as Hne by (destruct Ht as [Hne|[-> _]]; [done|]; unfold IsZero in Hz; rewrite E in Hz; by apply Z.eqb_neq in Hz).
  exists low, h. split_and!; [done|done|apply Hh|done|]. unfold digit in Hh. rewrite E. replace (GetLength x) with (lenZ low + 1) by (unfold GetLength; rewrite E; lenz).
  unfold CountLeadingZeros. zb. pose proof (val_bounds low Hlow) as Hv. pose proof (lenZ_nonneg low) as Hn.
  apply Z.log2_unique; [pose proof (Z.log2_nonneg h); lia|]. pose proof (Z.log2_spec h ltac:(lia)) as Hl. pose proof (Z.log2_nonneg h) as Hl0.
  rewrite val_app, val_cons. change (val []) with 0. replace ((lenZ low + 1) * 32 - (31 - Z.log2 h) - 1) with (32 * lenZ low + Z.log2 h) by lia.
  rewrite <- Z.add_succ_r, !Z.pow_add_r by lia. set (P := 2 ^ (32 * lenZ low)) in *. nia.
Qed.

(** Rounding is right unless the mantissa ends exactly between two digits and
    something is left below it. *)
Definition rounds_well (a : Z) : bool := negb (Z.log2 a mod 32 =? 20) || (a mod 2 ^ Z.max 0 (Z.log2 a - 52) =? 0).

Lemma BigIntToNumber_run {S} (x : BigInt) (s : S) :
  wf x -> IsZero x = false -> rounds_well (val (GetData x)) = true ->
  BigIntToNumber x s = (Ok (VDouble (nearest_double (GetSign x) (val (GetData x)))), s).
Proof.
  intros Hx Hz Hr. destruct (top_digit x Hx Hz) as (low & h & Ex & Hlow & Hh & Hne & HL). destruct (leading_zeros h Hh Hne) as [Hlz Hnorm].
  set (lz := CountLeadingZeros h) in *. pose proof (lenZ_nonneg low) as Hn. assert (GetLength x = lenZ low + 1) as Hlen by (unfold GetLength; rewrite Ex; lenz).
  destruct (Z.le_gt_cases (Z.log2 (val (GetData x))) 1023) as [Hsmall|Hbig].
  - rewrite (to_number_head x h lz _ s Hz eq_refl Hlz Hnorm (eq_sym HL) ltac:(lia) low Ex). rewrite HL in *.
    unfold rounds_well in Hr. rewrite HL, Hlen in Hr. rewrite Ex in *.
    destruct low as [|d1 low1 _] using rev_ind.
    { rewrite to_number_one by (done || lia). by replace (val ([] ++ [h])) with h by (simpl app; rewrite val_cons; change (val []) with 0; lia). }
    apply Forall_app in Hlow as [Hlow [Hd1 _]%Forall_cons_1]. rewrite <- app_assoc in *. simpl app in *.
    destruct (Z.lt_ge_cases lz 11); [by apply to_number_second; (done || lia)|].
    destruct low1 as [|d2 low2 _] using rev_ind.
    { rewrite (to_number_two x h lz _ s Hlz Hnorm eq_refl ltac:(lia) d1 Ex Hd1) by lia. by replace (val ([] ++ [d1; h])) with (d1 + 2 ^ 32 * h) by (simpl app; rewrite !val_cons; change (val []) with 0; lia). }
    apply Forall_app in Hlow as [Hlow [Hd2 _]%Forall_cons_1]. rewrite <- app_assoc in *. simpl app in *.
    destruct (decide (lz = 11)) as [E11|]; [|by apply to_number_third; (done || lia)].
    apply to_number_between; try (done || lia).
    rewrite lenZ_app in Hr. change (lenZ [d2; d1]) with 2 in Hr. apply orb_true_iff in Hr as [Hr|Hr]; [exfalso; apply negb_true_iff, Z.eqb_neq in Hr; apply Hr; zlia|].
    apply Z.eqb_eq in Hr. replace (Z.max 0 _) with (32 * lenZ (low2 ++ [d2])) in Hr by lenz.
    assert (Forall digit (low2 ++ [d2])) as Hds by (apply Forall_app; split; [done|by apply Forall_singleton]). pose proof (val_bounds _ Hds) as Hb.
    replace (low2 ++ [d2; d1; h]) with ((low2 ++ [d2]) ++ [d1; h]) in Hr by (by rewrite <- app_assoc). rewrite val_app in Hr.
    rewrite (Z.mul_comm (2 ^ _)), Z.mod_add, Z.mod_small in Hr by lia. done.
  - unfold BigIntToNumber. rewrite Hz. cbv zeta.
    mstep by (apply (GetDigit_run _ _ h); [lia|]; rewrite Hlen, Ex; apply list_lookup_middle; lenz). fold lz. change DOUBLE_EXPONENT_BIAS with 1023. unfold DATEBITS. zb.
    unfold mret. rewrite infinity_spec. unfold nearest_double. zb. unfold sign_word. done.
Qed.

(** C23: BigIntToNumber returns the double nearest to the BigInt, the one with an
    even mantissa on a tie and an infinity from 2^1024 - 2^970 on, whenever the
    52 bits of the mantissa do not end exactly between two digits (bit lengths
    that are 21 modulo 32) or nothing is left below them; zero becomes the int 0. *)
Theorem bigint_BigIntToNumber_spec {S} (x : BigInt) (s : S) :
  wf x -> rounds_well (Z.abs (value x)) = true ->
  BigIntToNumber x s = (Ok (if value x =? 0 then VInt 0 else VDouble (nearest_double (value x <? 0) (Z.abs (value x)))), s).
Proof.
  intros Hx Hr. rewrite <- val_abs in * by done. rewrite <- wf_sign by done. destruct (IsZero x) eqn:Hz.
  - rewrite (zero_value x Hz). unfold BigIntToNumber. by rewrite Hz.
  - pose proof (val_pos x Hx Hz) as Hp. rewrite val_abs in Hp by done. zb. by apply BigIntToNumber_run.
Qed.

Lemma bigint_BigIntToNumber_spec_witness :
  BigIntToNumber (mkBigInt true [3; 0; 1]) tt = (Ok (VDouble (2 ^ 63 + (64 + 1023) * 2 ^ 52)), tt).
Proof. exact (bigint_BigIntToNumber_spec (mkBigInt true [3; 0; 1]) tt (wfb_wf (mkBigInt true [3; 0; 1]) eq_refl) eq_refl). Defined.

(** ** Round trip *)

Lemma double_bits_parts (bits : Z) : 0 <= bits < 2 ^ 64 -> bits = sign_word (Z.testbit bits 63) + exponent_of bits * 2 ^ 52 + (mantissa_of bits - 2 ^ 52).
Proof.
  intros Hb. unfold exponent_of, mantissa_of. rewrite Z.testbit_eqb by lia. unfold sign_word. destruct (Z.eqb_spec ((bits / 2 ^ 63) mod 2) 1); zlia.
Qed.

(** An integer with a 53-bit mantissa is its own nearest double. *)
Lemma nearest_of_parts (neg : bool) (a m E : Z) :
  2 ^ 52 <= m < 2 ^ 53 -> 0 <= E <= 1023 -> a * 2 ^ 52 = m * 2 ^ E ->
  rounds_well a = true /\ nearest_double neg a = sign_word neg + (E + 1023) * 2 ^ 52 + (m - 2 ^ 52).
Proof.
  intros Hm HE Ha. assert (0 < 2 ^ E) by lia. assert (0 < a) as Hpos by nia. destruct (Z.le_gt_cases E 52) as [Hs|Hb].
  - assert (a * 2 ^ (52 - E) = 2 ^ 52 + (m - 2 ^ 52)) as E1.
    { assert (2 ^ 52 = 2 ^ (52 - E) * 2 ^ E) as Ep by (rewrite <- Z.pow_add_r by lia; f_equal; lia). rewrite Ep in Ha. nia. }
    rewrite (nearest_small neg a (m - 2 ^ 52) (52 - E)) by lia. split; [|lia]. unfold rounds_well.
    assert (Z.log2 a = E) as ->.
    { pose proof (Z.log2_mul_pow2 a (52 - E) Hpos ltac:(lia)) as H1. rewrite E1, (mantissa_log _ (m - 2 ^ 52) 0 0) in H1 by lia. lia. }
    replace (Z.max 0 (E - 52)) with 0 by lia. change (2 ^ 0) with 1. by rewrite Z.mod_1_r, orb_true_r.
  - assert (a = (2 ^ 52 + (m - 2 ^ 52)) * 2 ^ (E - 52)) as E1.
    { assert (2 ^ E = 2 ^ (E - 52) * 2 ^ 52) as Ep by (rewrite <- Z.pow_add_r by lia; f_equal; lia). rewrite Ep in Ha. nia. }
    rewrite (nearest_exact neg a (m - 2 ^ 52) (E - 52)) by lia. split; [|lia]. unfold rounds_well.
    rewrite (mantissa_log a (m - 2 ^ 52) (E - 52) 0) by lia. replace (Z.max 0 _) with (E - 52) by lia. rewrite E1, Z.mod_mul by lia. apply orb_true_r.
Qed.

Lemma integral_scaled (bits k : Z) :
  double_of_bits bits = DFin k -> Z.abs k mod 2 ^ 1074 = 0 -> (Z.abs k / 2 ^ 1074) * 2 ^ 52 = mantissa_of bits * 2 ^ (exponent_of bits - 1023).
Proof.
  intros Hd Hk. destruct (integral_parts bits k Hd Hk) as (He & Hm & _). pose proof (Z.div_mod (Z.abs k) (2 ^ 1074) ltac:(lia)) as Hdm. rewrite Hk in Hdm.
  set (a := Z.abs k / 2 ^ 1074) in *. rewrite Hm, (scale_split (exponent_of bits)) in Hdm by lia.
  assert (2 ^ 1074 = 2 ^ 52 * 2 ^ 1022) as E by (rewrite <- Z.pow_add_r by lia; f_equal; lia). rewrite E in Hdm. assert (0 < 2 ^ 1022) by lia.
  apply Z.mul_reg_r with (2 ^ 1022); [lia|]. lia.
Qed.

(** Every integral double other than zero comes back unchanged, bit by bit,
    from its conversion to a BigInt. *)
Theorem bigint_number_roundtrip {S} (bits k : Z) (s : S) :
  0 <= bits < 2 ^ 64 -> double_of_bits bits = DFin k -> IsInteger (VDouble bits) = true ->
  (x ← NumberToBigInt (VDouble bits); BigIntToNumber x) s = (Ok (VDouble bits), s).
Proof.
  intros Hb Hd Hi. cbn [IsInteger] in Hi. rewrite Hd in Hi. apply Z.eqb_eq in Hi. destruct (integral_parts bits k Hd Hi) as (He & Hm & Hs & Hne).
  destruct (NumberToBigInt_run (VDouble bits) (Z.quot k (2 ^ 1074)) s eq_refl I) as (x & Hrun & Hwf & Hv).
  { cbn [ExtractNumber]. rewrite Hd. cbn [integer_of]. by rewrite Hi. }
  mstep with Hrun. rewrite quot_abs in Hv by lia. pose proof (integral_scaled bits k Hd Hi) as Hsc. pose proof (mantissa_bounds bits) as Hmb.
  destruct (nearest_of_parts (GetSign x) (Z.abs k / 2 ^ 1074) (mantissa_of bits) (exponent_of bits - 1023) Hmb ltac:(lia) Hsc) as [Hrw Hnd].
  assert (0 < Z.abs k / 2 ^ 1074) as Hpos by (assert (0 < 2 ^ (exponent_of bits - 1023)) by lia; nia).
  assert (val (GetData x) = Z.abs k / 2 ^ 1074) as Ev by (rewrite val_abs, Hv by done; unfold signed; destruct (k <? 0); lia).
  assert (GetSign x = Z.testbit bits 63) as Es.
  { rewrite (wf_sign x Hwf), Hv. unfold signed. destruct (Z.testbit bits 63); destruct (Z.ltb_spec k 0); [apply Z.ltb_lt; lia|exfalso..|apply Z.ltb_ge; lia]; intuition lia. }
  assert (IsZero x = false) as Hz by (destruct (IsZero x) eqn:E; [|done]; rewrite (val_zero x E) in Ev; lia).
  rewrite BigIntToNumber_run, Ev, Hnd, Es by (done || by rewrite Ev). do 3 f_equal. rewrite (double_bits_parts bits Hb) at 4. lia.
Qed.

Lemma bigint_number_roundtrip_witness :
  (x ← NumberToBigInt (VDouble (2 ^ 63 + 1123 * 2 ^ 52 + 5)); BigIntToNumber x) tt = (Ok (VDouble (2 ^ 63 + 1123 * 2 ^ 52 + 5)), tt).
Proof.
  apply (bigint_number_roundtrip _ (- ((2 ^ 52 + 5) * 2 ^ 1122))); [lia|vm_compute; reflexivity|vm_compute; reflexivity].
Defined.
(** ** CompareWithNumber *)

Lemma finite_parts (bits k : Z) :
  double_of_bits bits = DFin k ->
  k <> 0 /\ 0 <= exponent_of bits < 2047 /\ (exponent_of bits = 0 -> Z.abs k < 2 ^ 52) /\
  (exponent_of bits <> 0 -> Z.abs k = mantissa_of bits * 2 ^ (exponent_of bits - 1)).
Proof.
  intros Hk. pose proof (mantissa_bounds bits) as Hm. pose proof (Z.mod_pos_bound bits (2 ^ 52) ltac:(lia)) as Hr.
  pose proof (Z.mod_pos_bound (bits / 2 ^ 52) (2 ^ 11) ltac:(lia)) as He. unfold double_of_bits in Hk. fold (exponent_of bits) in *. fold (mantissa_of bits) in Hk.
  set (e := exponent_of bits) in *. set (m := mantissa_of bits) in *. set (r := bits mod 2 ^ 52) in *. clearbody e m r.
  destruct (Z.eqb_spec e 2047); [by destruct (_ =? 0)|]. destruct (Z.eqb_spec e 0) as [->|].
  - destruct (Z.eqb_spec r 0); [done|]. injection Hk as <-. destruct (Z.testbit bits 63); lia.
  - injection Hk as <-. assert (0 < 2 ^ (e - 1)) as Hp by (apply Z.pow_pos_nonneg; lia). assert (0 < m * 2 ^ (e - 1)) as Hpos by nia. destruct (Z.testbit bits 63); lia.
Qed.

(** The outcome for magnitudes a of the BigInt and b of the number. *)
Definition by_magnitude (neg : bool) (a b : Z) : ComparisonResult :=
  if b <? a then if neg then LESS else GREAT else if neg then GREAT else LESS.

(** A word cut into digits from its top, one round. *)
Lemma word_digit (M P : Z) :
  0 <= M < 2 ^ 64 -> 0 < P ->
  (M * (2 ^ 32 * P)) / 2 ^ 64 = M / 2 ^ 32 * P + ((M mod 2 ^ 32) * 2 ^ 32 * P) / 2 ^ 64 /\
  ((M mod 2 ^ 32) * 2 ^ 32 * P) mod 2 ^ 64 = (M * (2 ^ 32 * P)) mod 2 ^ 64 /\ 0 <= ((M mod 2 ^ 32) * 2 ^ 32 * P) / 2 ^ 64 < P.
Proof.
  intros HM HP. pose proof (Z.div_mod M (2 ^ 32) ltac:(lia)) as Hdm. pose proof (Z.mod_pos_bound M (2 ^ 32) ltac:(lia)) as Hb.
  set (q := M / 2 ^ 32) in *. set (r := M mod 2 ^ 32) in *. clearbody q r. subst M.
  replace ((2 ^ 32 * q + r) * (2 ^ 32 * P)) with (r * 2 ^ 32 * P + (q * P) * 2 ^ 64) by ring. rewrite Z.div_add, Z.mod_add by lia.
  split_and!; [lia|done|apply Z.div_pos; nia|]. apply Z.div_lt_upper_bound; nia.
Qed.

(** The top digits decide unless they agree. *)
Lemma top_decides {X} (neg : bool) (v d P q f : Z) (R : X) :
  0 <= v < P -> 0 <= f < P ->
  (if q <? d then inl (if neg then LESS else GREAT) else if d <? q then inl (if neg then GREAT else LESS)
   else if v =? f then inr R else inl (by_magnitude neg v f)) =
  (if v + P * d =? q * P + f then inr R else inl (by_magnitude neg (v + P * d) (q * P + f))).
Proof.
  intros Hv Hf. unfold by_magnitude. destruct (Z.ltb_spec q d).
  { assert (q * P + f < v + P * d) by nia. by zb. }
  destruct (Z.ltb_spec d q).
  { assert (v + P * d < q * P + f) by nia. by zb. }
  assert (q = d) as -> by lia. destruct (Z.eqb_spec v f), (Z.ltb_spec f v), (Z.eqb_spec (v + P * d) (d * P + f)), (Z.ltb_spec (d * P + f) (v + P * d)); (done || lia).
Qed.

Lemma compare_digits_loop {S} (x : BigInt) (low post : list Z) (lz M leftover : Z) (s : S) :
  GetData x = low ++ post -> Forall digit low -> 0 <= M < 2 ^ 64 ->
  while_fuel (Datatypes.S (length low)) (compare_step x lz) (lenZ low - 1, M, leftover, false) s
  = (Ok (let F := (M * 2 ^ (32 * lenZ low)) / 2 ^ 64 in
         if val low =? F then inr ((M * 2 ^ (32 * lenZ low)) mod 2 ^ 64, leftover - 64 * lenZ low)
         else inl (by_magnitude (GetSign x) (val low) F)), s).
Proof.
  revert post M leftover. induction low as [|d low IH] using rev_ind; intros post M leftover Hx Hlow HM.
  - cbn [while_fuel]. change (lenZ []) with 0. mstep by reflexivity. change (val []) with 0. change (2 ^ (32 * 0)) with 1. cbv zeta.
    rewrite !Z.mul_1_r, Z.div_small, Z.mod_small by lia. by replace (leftover - 64 * 0) with leftover by lia.
  - apply Forall_app in Hlow as [Hlow [Hd _]%Forall_cons_1]. unfold digit in Hd. rewrite <- app_assoc in Hx. pose proof (lenZ_nonneg low) as Hn.
    pose proof (val_bounds low Hlow) as Hv. pose proof (pow32_pos (lenZ low) Hn) as HP.
    replace (length (low ++ [d])) with (Datatypes.S (length low)) by (rewrite length_app; simpl; lia).
    replace (lenZ (low ++ [d])) with (lenZ low + 1) by lenz. replace (lenZ low + 1 - 1) with (lenZ low) by lia. rewrite pow32_succ, val_app, val_cons by lia. change (val []) with 0.
    destruct (word_digit M _ HM HP) as (EF & EM & HF).
    assert (u32 (Z.shiftr M DATEBITS) = M / 2 ^ 32) as Ed by (unfold DATEBITS; rewrite Z.shiftr_div_pow2 by lia; apply u32_small; zlia).
    assert (u64 (Z.shiftl M DATEBITS) = (M mod 2 ^ 32) * 2 ^ 32) as EM1.
    { unfold DATEBITS, u64. rewrite Z.shiftl_mul_pow2 by lia. change (2 ^ 64) with (2 ^ 32 * 2 ^ 32). rewrite Z.mul_mod_distr_r; lia. }
    pose proof (Z.mod_pos_bound M (2 ^ 32) ltac:(lia)) as HM1.
    specialize (IH ([d] ++ post) ((M mod 2 ^ 32) * 2 ^ 32) (leftover - 64) Hx Hlow ltac:(lia)). cbv zeta in IH. rewrite EM in IH.
    set (F1 := ((M mod 2 ^ 32) * 2 ^ 32 * 2 ^ (32 * lenZ low)) / 2 ^ 64) in *. set (q := M / 2 ^ 32) in *. cbv zeta. rewrite EF.
    assert (compare_step x lz (lenZ low, M, leftover, false) s =
      (Ok (if q <? d then inr (inl (if GetSign x then LESS else GREAT)) else if d <? q then inr (inl (if GetSign x then GREAT else LESS))
           else inl (lenZ low - 1, (M mod 2 ^ 32) * 2 ^ 32, leftover - 64, false)), s)) as Hstep.
    { unfold compare_step. zb. mstep by (apply (GetDigit_run _ _ d); [lia|]; rewrite Hx; apply list_lookup_middle; lenz). rewrite Ed, EM1. fold q.
      destruct (q <? d); [done|]. destruct (d <? q); [done|]. unfold DATEBITS. by replace (leftover - 32 - 32) with (leftover - 64) by lia. }
    remember (Datatypes.S (length low)) as fuel. cbn [while_fuel]. mstep with Hstep.
    replace (val low + 2 ^ (32 * lenZ low) * (d + 2 ^ 32 * 0)) with (val low + 2 ^ (32 * lenZ low) * d) by ring.
    rewrite <- (top_decides (GetSign x) (val low) d _ q F1) by lia. destruct (q <? d); [done|]. destruct (d <? q); [done|]. rewrite IH.
    by replace (leftover - 64 - 64 * lenZ low) with (leftover - 64 * (lenZ low + 1)) by lia.
Qed.

Lemma split_mantissa_mod (m r E P : Z) :
  0 <= r < 32 -> 0 <= E - r -> P = 2 ^ (E - r) ->
  ((m mod 2 ^ (52 - r)) * 2 ^ (12 + r) * P) mod 2 ^ 64 = ((m * 2 ^ E) mod 2 ^ 52) * 2 ^ 12.
Proof.
  intros Hr HE ->. set (l := m mod 2 ^ (52 - r)). set (h := m / 2 ^ (52 - r)).
  assert (m = h * 2 ^ (52 - r) + l) as E0 by (unfold h, l; rewrite (Z.div_mod m (2 ^ (52 - r))) at 1 by lia; lia). clearbody l h. subst m.
  replace ((h * 2 ^ (52 - r) + l) * 2 ^ E) with (l * 2 ^ E + (h * 2 ^ (E - r)) * 2 ^ 52).
  - rewrite Z.mod_add by lia. rewrite <- Z.mul_assoc, <- Z.pow_add_r by lia. replace (12 + r + (E - r)) with (E + 12) by lia.
    rewrite Z.pow_add_r, Z.mul_assoc by lia. change (2 ^ 64) with (2 ^ 52 * 2 ^ 12). rewrite Z.mul_mod_distr_r by lia. lia.
  - rewrite <- Z.mul_assoc, <- Z.pow_add_r by lia. replace (E - r + 52) with ((52 - r) + E) by lia. rewrite (Z.pow_add_r 2 (52 - r) E) by lia. lia.
Qed.

(** The whole loop, for a number of the same bit length. *)
Lemma compare_digits {S} (x : BigInt) (low : list Z) (h lz m E : Z) (s : S) :
  GetData x = low ++ [h] -> Forall digit low -> 0 <= lz < 32 -> 2 ^ 52 <= m < 2 ^ 53 -> E = 32 * lenZ low + 31 - lz ->
  while_fuel (Datatypes.S (Z.to_nat (GetLength x))) (compare_step x lz) (GetLength x - 1, m, 0, true) s
  = (Ok (let F := (m * 2 ^ E) / 2 ^ 52 in
         if val (GetData x) =? F then inr (((m * 2 ^ E) mod 2 ^ 52) * 2 ^ 12, 21 + lz - 64 * lenZ low)
         else inl (by_magnitude (GetSign x) (val (GetData x)) F)), s).
Proof.
  intros Hx Hlow Hlz Hm HE. pose proof (lenZ_nonneg low) as Hn. pose proof (val_bounds low Hlow) as Hv. pose proof (pow32_pos (lenZ low) Hn) as HP.
  assert (GetLength x = lenZ low + 1) as HL by (unfold GetLength; rewrite Hx; lenz). rewrite HL. replace (lenZ low + 1 - 1) with (lenZ low) by lia.
  replace (Z.to_nat (lenZ low + 1)) with (Datatypes.S (length low)) by (unfold lenZ; lia).
  assert (2 ^ (32 * lenZ low) = 2 ^ (E - (31 - lz))) as EP by (f_equal; lia).
  pose proof (split_mantissa m (31 - lz) E _ ltac:(lia) ltac:(lia) EP) as Hdiv. pose proof (split_mantissa_mod m (31 - lz) E _ ltac:(lia) ltac:(lia) EP) as Hmod. clear EP.
  replace (52 - (31 - lz)) with (21 + lz) in * by lia. replace (12 + (31 - lz)) with (43 - lz) in * by lia.
  assert (2 ^ 64 = 2 ^ (21 + lz) * 2 ^ (43 - lz)) as E64 by (rewrite <- Z.pow_add_r by lia; f_equal; lia). assert (0 < 2 ^ (43 - lz)) by lia.
  pose proof (Z.mod_pos_bound m (2 ^ (21 + lz)) ltac:(lia)) as Hl. set (M1 := (m mod 2 ^ (21 + lz)) * 2 ^ (43 - lz)) in *. assert (0 <= M1 < 2 ^ 64) as HM1 by (unfold M1; nia).
  set (q := m / 2 ^ (21 + lz)) in *. set (f := (M1 * 2 ^ (32 * lenZ low)) / 2 ^ 64) in *.
  assert (0 <= f < 2 ^ (32 * lenZ low)) as Hf by (unfold f; split; [apply Z.div_pos; nia|apply Z.div_lt_upper_bound; nia]).
  assert (compare_step x lz (lenZ low, m, 0, true) s =
      (Ok (if q <? h then inr (inl (if GetSign x then LESS else GREAT)) else if h <? q then inr (inl (if GetSign x then GREAT else LESS))
           else inl (lenZ low - 1, M1, 21 + lz, false)), s)) as Hstep.
  { unfold compare_step. zb. mstep by (apply (GetDigit_run _ _ h); [lia|]; rewrite Hx; apply list_lookup_middle; lenz). unfold DOUBLE_SIGNIFICAND_SIZE, DATEBITS.
    replace (52 - 32 + lz + 1) with (21 + lz) by lia. rewrite Z.shiftr_div_pow2, Z.shiftl_mul_pow2 by lia. fold q. replace (64 - (21 + lz)) with (43 - lz) by lia.
    assert (u32 q = q) as ->.
    { apply u32_small. split; [apply Z.div_pos; lia|]. apply Z.div_lt_upper_bound; [lia|]. rewrite <- Z.pow_add_r by lia. apply Z.lt_le_trans with (2 ^ 53); [lia|]. apply Z.pow_le_mono_r; lia. }
    assert (u64 (m * 2 ^ (43 - lz)) = M1) as -> by (unfold u64; rewrite E64, Z.mul_mod_distr_r by lia; done).
    destruct (q <? h); [done|]. by destruct (h <? q). }
  remember (Datatypes.S (length low)) as fuel eqn:Ef. cbn [while_fuel]. mstep with Hstep.
  assert (val (GetData x) = val low + 2 ^ (32 * lenZ low) * h) as -> by (rewrite Hx, val_app, val_cons; change (val []) with 0; ring).
  rewrite <- Hdiv, <- (top_decides (GetSign x) (val low) h _ q f) by lia. destruct (q <? h); [done|]. destruct (h <? q); [done|].
  rewrite Ef, (compare_digits_loop x low [h]) by done. cbv zeta. fold f. by rewrite Hmod.
Qed.
(** The order of a BigInt and a double as numbers. *)
Definition compare_exact (v : Z) (d : dbl) : ComparisonResult :=
  match d with
  | DNaN => UNDEFINED
  | DInf neg => if neg then GREAT else LESS
  | DZero _ => comparison v 0
  | DFin k => comparison (v * 2 ^ 1074) k
  end.

(** The last assertion of CompareWithNumber fails: the BigInt has more than one
    digit and is the integer part of a number with a fraction. *)
Definition leftover_negative (x : BigInt) (d : dbl) : bool :=
  (1 <? GetLength x) && bool_decide (trunc d = Some (value x)) && bool_decide (integer_of d = None).

Lemma comparison_signed (neg : bool) (a b : Z) :
  comparison (signed neg a) (signed neg b) = if a =? b then EQUAL else by_magnitude neg a b.
Proof.
  unfold comparison, signed, by_magnitude.
  destruct neg; destruct (Z.compare_spec a b), (Z.eqb_spec a b), (Z.ltb_spec b a); try lia; destruct (Z.compare_spec (- a) (- b)); (done || lia).
Qed.

Lemma comparison_scale (P a b : Z) : 0 < P -> comparison (a * P) (b * P) = comparison a b.
Proof. intros HP. unfold comparison. destruct (Z.compare_spec (a * P) (b * P)), (Z.compare_spec a b); (done || nia). Qed.

(** A BigInt and a number of the same sign, the number not below 1. *)
Section same_sign.
Context {S : Type} (x : BigInt) (bits k : Z) (s : S).
Hypothesis Hx : wf x.
Hypothesis Hz : IsZero x = false.
Hypothesis Hk : double_of_bits bits = DFin k.
Hypothesis Hs : GetSign x = (k <? 0).
Hypothesis He : 1023 <= exponent_of bits.
Let a := val (GetData x).
Let E := exponent_of bits - 1023.
Let N := mantissa_of bits * 2 ^ E.

Lemma exact_magnitudes : compare_exact (value x) (DFin k) = if a * 2 ^ 52 =? N then EQUAL else by_magnitude (GetSign x) (a * 2 ^ 52) N.
Proof.
  destruct (finite_parts bits k Hk) as (Hne & He2 & _ & Hm). specialize (Hm ltac:(lia)). rewrite (scale_split _ He), Z.mul_assoc in Hm. fold E in Hm. fold N in Hm.
  cbn [compare_exact]. assert (k = signed (GetSign x) N * 2 ^ 1022) as Ek by (unfold signed; rewrite Hs; destruct (Z.ltb_spec k 0); lia).
  assert (value x * 2 ^ 1074 = signed (GetSign x) (a * 2 ^ 52) * 2 ^ 1022) as ->.
  { replace (2 ^ 1074) with (2 ^ 52 * 2 ^ 1022) by reflexivity. unfold value, signed. fold a. destruct (GetSign x); ring. }
  rewrite Ek, comparison_scale by lia. apply comparison_signed.
Qed.

Lemma trunc_magnitudes : trunc (DFin k) = Some (value x) <-> a = N / 2 ^ 52.
Proof.
  destruct (finite_parts bits k Hk) as (Hne & He2 & _ & Hm). specialize (Hm ltac:(lia)). pose proof (mantissa_bounds bits) as Hmb.
  cbn [trunc]. rewrite quot_abs, Hm, scaled_div by lia. fold E. fold N. unfold value, signed. fold a. rewrite <- Hs.
  destruct (GetSign x); split; (congruence || (intros [= H]; lia)).
Qed.

Lemma integral_magnitudes : integer_of (DFin k) = None <-> N mod 2 ^ 52 <> 0.
Proof.
  destruct (finite_parts bits k Hk) as (Hne & He2 & _ & Hm). specialize (Hm ltac:(lia)). cbn [integer_of].
  rewrite Hm, (scale_split _ He), Z.mul_assoc. fold E. fold N. replace (2 ^ 1074) with (2 ^ 52 * 2 ^ 1022) by reflexivity. rewrite Z.mul_mod_distr_r by lia.
  assert (0 < 2 ^ 1022) by lia. destruct (Z.eqb_spec (N mod 2 ^ 52 * 2 ^ 1022) 0); split; (done || nia).
Qed.

Lemma compare_aligned :
  (r ← CompareToBitsLen x (E + 1);
   let '(res, leadingZeros) := r in
   if res =? 0 then mret LESS
   else if res =? 1 then mret GREAT
   else
     out ← while_fuel (Datatypes.S (Z.to_nat (GetLength x))) (compare_step x leadingZeros) (GetLength x - 1, mantissa_of bits, 0, true);
     match out with
     | inl c => mret c
     | inr (mantissa, leftover) =>
         if negb (mantissa =? 0) then
           ASSERT (0 <? leftover);;
           mret (if GetSign x then GREAT else LESS)
         else mret EQUAL
     end) s
  = (if leftover_negative x (DFin k) then Fault else Ok (compare_exact (value x) (DFin k)), s).
Proof.
  destruct (top_digit x Hx Hz) as (low & h & Ex & Hlow & Hh & Hne & HL). destruct (leading_zeros h Hh Hne) as [Hlz Hnorm]. fold a in HL.
  set (lz := CountLeadingZeros h) in *. pose proof (lenZ_nonneg low) as Hn. assert (GetLength x = lenZ low + 1) as Hlen by (unfold GetLength; rewrite Ex; lenz).
  pose proof (mantissa_bounds bits) as Hmb. pose proof (val_pos x Hx Hz) as Hpos. fold a in Hpos. pose proof (Z.log2_spec a Hpos) as Hla.
  assert (0 < 2 ^ E) as HE by (apply Z.pow_pos_nonneg; lia).
  assert (2 ^ 52 * 2 ^ E <= N < 2 ^ 53 * 2 ^ E) as HN by (unfold N; nia).
  assert (leftover_negative x (DFin k) = bool_decide (1 < GetLength x /\ a = N / 2 ^ 52 /\ N mod 2 ^ 52 <> 0)) as Hleft.
  { unfold leftover_negative. rewrite (bool_decide_ext _ _ trunc_magnitudes), (bool_decide_ext _ _ integral_magnitudes). apply eq_true_iff_eq. rewrite !andb_true_iff, Z.ltb_lt, !bool_decide_eq_true. tauto. }
  rewrite exact_magnitudes, Hleft. unfold CompareToBitsLen. cbv zeta.
  rewrite (bind_Ok _ _ s s (if E + 1 <? GetLength x * 32 - lz then if GetSign x then 0 else 1 else if GetLength x * 32 - lz <? E + 1 then if GetSign x then 1 else 0 else -1, lz)).
  2:{ mstep by (apply (GetDigit_run _ _ h); [lia|]; rewrite Hlen, Ex; apply list_lookup_middle; lenz). done. }
  cbv beta iota zeta. pose proof (Z.div_mod N (2 ^ 52) ltac:(lia)) as Hdm. pose proof (Z.mod_pos_bound N (2 ^ 52) ltac:(lia)) as Hr.
  set (F := N / 2 ^ 52) in *. set (R := N mod 2 ^ 52) in *. unfold by_magnitude.
  destruct (Z.ltb_spec (E + 1) (GetLength x * 32 - lz)) as [Hc|Hc]; [|destruct (Z.ltb_spec (GetLength x * 32 - lz) (E + 1)) as [Hc'|Hc']].
  - assert (2 * 2 ^ E <= 2 ^ Z.log2 a) by (rewrite <- Z.pow_succ_r by lia; apply Z.pow_le_mono_r; lia).
    assert (F < a) by nia. assert (N < a * 2 ^ 52) by nia. rewrite bool_decide_eq_false_2 by lia. zb. by destruct (GetSign x).
  - assert (2 ^ Z.succ (Z.log2 a) <= 2 ^ E) by (apply Z.pow_le_mono_r; lia).
    assert (a < F) by nia. assert (a * 2 ^ 52 < N) by nia. rewrite bool_decide_eq_false_2 by lia. zb. by destruct (GetSign x).
  - change (-1 =? 0) with false. change (-1 =? 1) with false. cbv iota.
    mstep by (apply (compare_digits x low h lz (mantissa_of bits) E); (done || lia)). fold N. fold F. fold R. fold a. destruct (Z.eqb_spec a F) as [Ha|Ha].
    + destruct (Z.eqb_spec R 0) as [HR|HR].
      * assert (R * 2 ^ 12 = 0) as -> by lia. change (0 =? 0) with true. cbn [negb]. rewrite bool_decide_eq_false_2 by lia. by zb.
      * assert (R * 2 ^ 12 <> 0) as HR' by lia. zb. cbn [negb]. destruct (Z.ltb_spec 0 (21 + lz - 64 * lenZ low)); unfold ASSERT.
        -- rewrite bool_decide_eq_false_2 by lia. mstep. by zb.
        -- by rewrite bool_decide_eq_true_2 by lia.
    + rewrite bool_decide_eq_false_2 by lia. unfold by_magnitude. destruct (Z.ltb_spec F a).
      * assert (N < a * 2 ^ 52) by nia. by zb.
      * assert (a * 2 ^ 52 < N) by nia. by zb.
Qed.
End same_sign.

Lemma leftover_small (x : BigInt) (k : Z) :
  wf x -> IsZero x = false -> Z.abs k < 2 ^ 1074 -> leftover_negative x (DFin k) = false.
Proof.
  intros Hx Hz Hk. unfold leftover_negative. rewrite (bool_decide_eq_false_2 (trunc _ = _)); [by rewrite andb_false_r|].
  cbn [trunc]. rewrite quot_abs, Z.div_small by lia. intros [= H]. pose proof (val_pos x Hx Hz). rewrite val_abs in * by done. unfold signed in H. destruct (k <? 0); lia.
Qed.

Lemma leftover_sign (x : BigInt) (k : Z) :
  wf x -> GetSign x <> (k <? 0) -> leftover_negative x (DFin k) = false.
Proof.
  intros Hx Hs. unfold leftover_negative. destruct (Z.ltb_spec 1 (GetLength x)) as [Hl|]; [|done].
  rewrite (bool_decide_eq_false_2 (trunc _ = _)); [by rewrite andb_false_r|]. intros [= H].
  assert (IsZero x = false) as Hz. { unfold IsZero, GetLength in *. destruct (GetData x) as [|d [|]]; [done|by change (lenZ [d]) with 1 in Hl|done]. }
  pose proof (val_pos x Hx Hz) as Hp. rewrite wf_sign in Hs by done. rewrite val_abs in Hp by done.
  rewrite quot_abs in H by lia. unfold signed in H. assert (0 <= Z.abs k / 2 ^ 1074) by (apply Z.div_pos; lia).
  destruct (Z.ltb_spec k 0), (Z.ltb_spec (value x) 0); (done || lia).
Qed.

Lemma CompareWithNumber_finite {S} (x : BigInt) (v : JSTaggedValue) (k : Z) (s : S) :
  wf x -> IsNumber v = true -> int32 v -> ExtractNumber v = DFin k ->
  CompareWithNumber x v s = (if leftover_negative x (DFin k) then Fault else Ok (compare_exact (value x) (DFin k)), s).
Proof.
  intros Hx Hv Hi Hk. rewrite <- (number_bits_spec v Hv Hi) in Hk. set (bits := number_bits v) in *.
  unfold CompareWithNumber. fold bits. cbv zeta. rewrite Hk, exponent_field, mantissa_field. change DOUBLE_EXPONENT_BIAS with 1023.
  change (double_ltb (DFin k) (DZero false)) with (k <? 0). change (double_eqb (DFin k) (DZero false)) with (k =? 0). change (double_ltb (DZero false) (DFin k)) with (0 <? k).
  destruct (finite_parts bits k Hk) as (Hne & He & Hsub & Hm). pose proof (mantissa_bounds bits) as Hmb.
  assert (0 < 2 ^ 1074) as HP by lia. pose proof (wf_sign x Hx) as Hsg.
  destruct (bool_decide_reflect (GetSign x = (k <? 0))) as [Hs|Hs].
  2:{ rewrite leftover_sign by done. cbn [compare_exact]. set (P := 2 ^ 1074) in *. clearbody P. unfold comparison. rewrite Hsg in *.
      destruct (Z.ltb_spec k 0), (Z.ltb_spec (value x) 0); try done; cbn [negb andb]; destruct (Z.compare_spec (value x * P) k); (done || nia). }
  rewrite Hs. assert (forall b, negb b && b = false) as -> by (by intros []). assert (forall b, b && negb b = false) as -> by (by intros []).
  destruct (IsZero x) eqn:Hz.
  { pose proof (zero_value x Hz) as Hv0. rewrite Hv0 in *. change (0 <? 0) with false in Hsg. rewrite Hsg in Hs. symmetry in Hs. apply Z.ltb_ge in Hs. zb. cbn [andb].
    unfold leftover_negative. assert (GetLength x = 1) as -> by (unfold IsZero, GetLength in *; by destruct (GetData x) as [|d [|]]). cbn [compare_exact].
    unfold comparison. rewrite Z.mul_0_l. by destruct (Z.compare_spec 0 k); try lia. }
  cbn [andb]. rewrite <- Hs. destruct (Z.ltb_spec (exponent_of bits - 1023) 0) as [Hlt|Hge].
  - assert (Z.abs k < 2 ^ 1074) as Hab.
    { destruct (decide (exponent_of bits = 0)) as [E0|E0]; [apply Z.lt_trans with (2 ^ 52); [auto|apply Z.pow_lt_mono_r; lia]|].
      rewrite Hm by done. apply Z.lt_le_trans with (2 ^ 53 * 2 ^ (exponent_of bits - 1)); [assert (0 < 2 ^ (exponent_of bits - 1)) by (apply Z.pow_pos_nonneg; lia); nia|].
      rewrite <- Z.pow_add_r by lia. apply Z.pow_le_mono_r; lia. }
    rewrite leftover_small by done. cbn [compare_exact]. pose proof (val_pos x Hx Hz) as Hpos. rewrite val_abs in Hpos by done. set (P := 2 ^ 1074) in *. clearbody P.
    unfold comparison. rewrite Hs in *. destruct (Z.ltb_spec k 0), (Z.ltb_spec (value x) 0); try done; destruct (Z.compare_spec (value x * P) k); (done || nia).
  - apply compare_aligned; (done || lia).
Qed.

(** C28: CompareWithNumber orders a BigInt and a number by their exact values,
    fractions, infinities and NaN included.  The one exception is an assertion
    of debug builds that fails when a BigInt of more than one digit is the
    integer part of a number with a fraction. *)
Theorem bigint_CompareWithNumber_spec {S} (x : BigInt) (v : JSTaggedValue) (s : S) :
  wf x -> IsNumber v = true -> int32 v ->
  CompareWithNumber x v s = (if leftover_negative x (ExtractNumber v) then Fault else Ok (compare_exact (value x) (ExtractNumber v)), s).
Proof.
  intros Hx Hv Hi. destruct (ExtractNumber v) as [|neg|neg|k] eqn:Ed; [..|by apply CompareWithNumber_finite].
  all: pose proof Ed as Eb; rewrite <- (number_bits_spec v Hv Hi) in Eb; unfold CompareWithNumber, leftover_negative; cbv zeta; rewrite Eb; cbn [trunc integer_of].
  - by rewrite !andb_false_r.
  - rewrite (bool_decide_eq_false_2 (None = Some _)) by done. rewrite andb_false_r. by destruct neg.
  - rewrite (bool_decide_eq_false_2 (Some 0 = None)) by done. rewrite (andb_false_r (_ && bool_decide _)). rewrite exponent_field. cbn [compare_exact].
    assert (exponent_of (number_bits v) = 0) as ->.
    { unfold double_of_bits in Eb. fold (exponent_of (number_bits v)) in Eb. destruct (_ =? 2047); [by destruct (_ =? 0)|]. destruct (Z.eqb_spec (exponent_of (number_bits v)) 0); [done|done]. }
    replace (double_ltb (DZero neg) (DZero false)) with false by (by destruct neg). replace (double_eqb (DZero neg) (DZero false)) with true by (by destruct neg).
    replace (double_ltb (DZero false) (DZero neg)) with false by (by destruct neg). change (0 - DOUBLE_EXPONENT_BIAS <? 0) with true. rewrite (wf_sign x Hx). cbn [negb andb].
    unfold comparison. destruct (Z.ltb_spec (value x) 0); [by destruct (Z.compare_spec (value x) 0); try lia|]. destruct (IsZero x) eqn:Hz; cbn [andb].
    + by rewrite (zero_value x Hz).
    + pose proof (val_pos x Hx Hz) as Hpos. rewrite val_abs in Hpos by done. by destruct (Z.compare_spec (value x) 0); try lia.
Qed.

Lemma bigint_CompareWithNumber_spec_witness :
  CompareWithNumber (mkBigInt false [0; 256]) (VDouble ((40 + 1023) * 2 ^ 52 + 2 ^ 12)) tt = (Ok LESS, tt).
Proof. exact (bigint_CompareWithNumber_spec (mkBigInt false [0; 256]) (VDouble ((40 + 1023) * 2 ^ 52 + 2 ^ 12)) tt (wfb_wf (mkBigInt false [0; 256]) eq_refl) eq_refl I). Defined.

End BigIntNumber.
