(* ===== verification/Double.v ===== *)
(** * Double: arithmetic on doubles.

    The operators +, * and / of C++ on doubles, IEEE 754 with rounding to the
    nearest and ties to even, on the values [dbl] of TaggedValue; conversions
    from and to 64-bit integers; NumberHelper::TruncateDouble.

    On integers up to 2^53 the operators are those of integers. *)
From S2P Require Import Prelude TaggedValue.
Local Open Scope Z_scope.

Module Double.

(** The number n / d >= 0 of units of 2^-1074 rounded to 53 significant bits. *)
Definition round_ratio (n d : Z) : Z :=
  let s := Z.max 0 (Z.log2 (n / d) - 52) in
  let u := d * 2 ^ s in
  let q := n / u in
  let r := n mod u in
  (if (u <? 2 * r) || ((2 * r =? u) && Z.odd q) then q + 1 else q) * 2 ^ s.

Definition OVERFLOW : Z := 2 ^ (1024 + 1074).

Definition round_double (neg : bool) (n d : Z) : dbl :=
  let k := round_ratio n d in
  if k =? 0 then DZero neg else if OVERFLOW <=? k then DInf neg else DFin (if neg then - k else k).

Definition of_units (k : Z) : dbl := round_double (k <? 0) (Z.abs k) 1.

Definition dadd (x y : dbl) : dbl :=
  match x, y with
  | DNaN, _ | _, DNaN => DNaN
  | DInf a, DInf b => if Bool.eqb a b then DInf a else DNaN
  | DInf a, _ => DInf a
  | _, DInf b => DInf b
  | DZero a, DZero b => DZero (a && b)
  | DZero _, DFin k | DFin k, DZero _ => DFin k
  | DFin a, DFin b => if a + b =? 0 then DZero false else of_units (a + b)
  end.

Definition dneg (x : dbl) : dbl :=
  match x with DNaN => DNaN | DInf a => DInf (negb a) | DZero a => DZero (negb a) | DFin k => DFin (- k) end.

Definition dmul (x y : dbl) : dbl :=
  match x, y with
  | DNaN, _ | _, DNaN => DNaN
  | DInf a, DInf b => DInf (xorb a b)
  | DInf _, DZero _ | DZero _, DInf _ => DNaN
  | DInf a, DFin k | DFin k, DInf a => DInf (xorb a (k <? 0))
  | DZero a, DZero b => DZero (xorb a b)
  | DZero a, DFin k | DFin k, DZero a => DZero (xorb a (k <? 0))
  | DFin a, DFin b => round_double (xorb (a <? 0) (b <? 0)) (Z.abs (a * b)) (2 ^ 1074)
  end.

Definition ddiv (x y : dbl) : dbl :=
  match x, y with
  | DNaN, _ | _, DNaN => DNaN
  | DInf _, DInf _ | DZero _, DZero _ => DNaN
  | DInf a, DZero b => DInf (xorb a b)
  | DInf a, DFin k => DInf (xorb a (k <? 0))
  | DZero a, DInf b => DZero (xorb a b)
  | DFin k, DInf a => DZero (xorb a (k <? 0))
  | DZero a, DFin k => DZero (xorb a (k <? 0))
  | DFin k, DZero a => DInf (xorb a (k <? 0))
  | DFin a, DFin b => round_double (xorb (a <? 0) (b <? 0)) (Z.abs a * 2 ^ 1074) (Z.abs b)
  end.

Definition isfinite (x : dbl) : bool := match x with DNaN | DInf _ => false | _ => true end.

(** The C++ operator <= on doubles. *)
Definition double_leb (x y : dbl) : bool := double_ltb x y || double_eqb x y.

(** static_cast<double>(int64_t). *)
Definition double_of_int64 (z : Z) : dbl := of_units (z * 2 ^ 1074).

(** static_cast<int64_t>(double); outside of the range it is undefined. *)
Definition int64_of_double {S} (d : dbl) : M S Z :=
  match trunc d with
  | Some z => if (- 2 ^ 63 <=? z) && (z <? 2 ^ 63) then mret z else fault
  | None => fault
  end.

(** The integer part of a finite double is a double. *)
Definition double_floor (d : dbl) : dbl :=
  match d with
  | DFin k => let z := Z.quot k (2 ^ 1074) in if z =? 0 then DZero false else DFin (z * 2 ^ 1074)
  | _ => d
  end.

Definition TruncateDouble (d : dbl) : dbl :=
  match d with
  | DNaN => DZero false
  | DInf _ => d
  | DZero _ => DZero false
  | DFin _ => double_floor d
  end.

(** ** Rounding *)

Lemma round_ratio_shift (n d : Z) : 0 < d -> 0 < n ->
  let s := Z.max 0 (Z.log2 (n / d) - 52) in n / (d * 2 ^ s) < 2 ^ 53 /\ (0 < s -> 2 ^ 52 <= n / (d * 2 ^ s)).
Proof.
  intros Hd Hn s. assert (0 <= s) as Hs by lia. assert (0 < 2 ^ s) as H2 by (apply Z.pow_pos_nonneg; lia). rewrite <- Z.div_div by lia.
  assert (0 <= n / d) as Hq by (apply Z.div_pos; lia). destruct (Z.eq_dec (n / d) 0) as [E|E].
  { assert (s = 0) as -> by (unfold s; rewrite E; reflexivity). rewrite E. vm_compute. split; [done|intros; discriminate]. }
  pose proof (Z.log2_spec (n / d) ltac:(lia)) as [L1 L2]. split.
  - apply Z.div_lt_upper_bound; [lia|]. rewrite <- Z.pow_add_r by lia. apply (Z.lt_le_trans _ _ _ L2). apply Z.pow_le_mono_r; lia.
  - intros Hsp. apply Z.div_le_lower_bound; [lia|]. rewrite <- Z.pow_add_r by lia. apply (Z.le_trans _ (2 ^ Z.log2 (n / d))); [apply Z.pow_le_mono_r; lia|done].
Qed.

(** A number that has 53 bits is not changed. *)
Lemma round_exact (a e d : Z) : 0 < d -> 0 <= a <= 2 ^ 53 -> 0 <= e -> round_ratio (a * 2 ^ e * d) d = a * 2 ^ e.
Proof.
  intros Hd Ha He. unfold round_ratio. rewrite Z.div_mul by lia. assert (0 < 2 ^ e) as H2 by (apply Z.pow_pos_nonneg; lia). set (s := Z.max 0 (Z.log2 (a * 2 ^ e) - 52)).
  assert (exists c, a * 2 ^ e = c * 2 ^ s) as [c Hc].
  { destruct (Z.eq_dec a 0) as [-> |Ha0]; [exists 0; lia|]. assert (Z.log2 (a * 2 ^ e) = Z.log2 a + e) as El by (rewrite Z.log2_mul_pow2 by lia; lia). unfold s. rewrite El.
    destruct (Z.eq_dec a (2 ^ 53)) as [-> |Hm].
    - change (Z.log2 (2 ^ 53)) with 53. exists (2 ^ 52). rewrite <- !Z.pow_add_r by lia. f_equal. lia.
    - assert (Z.log2 a <= 52) by (enough (Z.log2 a < 53) by lia; apply Z.log2_lt_pow2; lia). exists (a * 2 ^ (e - Z.max 0 (Z.log2 a + e - 52))). rewrite <- Z.mul_assoc, <- Z.pow_add_r by lia. do 2 f_equal. lia. }
  assert (0 < 2 ^ s) as Hs by (apply Z.pow_pos_nonneg; lia). replace (a * 2 ^ e * d) with (c * (d * 2 ^ s)) by (rewrite Hc; ring). rewrite Z.mod_mul, Z.div_mul by lia.
  zb. lia.
Qed.

(** The result is between the multiples of the last bit around the number. *)
Lemma round_bounds (n d c : Z) : 0 < d -> 0 <= n ->
  let s := Z.max 0 (Z.log2 (n / d) - 52) in (c * 2 ^ s * d <= n -> c * 2 ^ s <= round_ratio n d) /\ round_ratio n d * d <= n + d * 2 ^ s.
Proof.
  intros Hd Hn s. assert (0 < 2 ^ s) as H2 by (apply Z.pow_pos_nonneg; lia). set (p := 2 ^ s) in *.
  pose proof (Z.div_mod n (d * p) ltac:(lia)) as E. pose proof (Z.mod_pos_bound n (d * p) ltac:(lia)) as Hr. set (q := n / (d * p)) in *. set (r := n mod (d * p)) in *.
  assert (exists b : bool, round_ratio n d = (if b then q + 1 else q) * p) as [b ->] by (eexists; reflexivity).
  assert (q <= (if b then q + 1 else q) <= q + 1) as Hb by (destruct b; lia). set (x := if b then q + 1 else q) in *. clearbody x.
  split; [|nia]. intros Hc. apply Z.mul_le_mono_nonneg_r; [lia|]. apply (Z.le_trans _ q); [|lia]. apply Z.div_le_lower_bound; lia.
Qed.

(** ** Integers *)

Lemma double_of_int_cases (z : Z) : z = 0 /\ double_of_int z = DZero false \/ z <> 0 /\ double_of_int z = DFin (z * 2 ^ 1074).
Proof. unfold double_of_int. destruct (Z.eqb_spec z 0); [left|right]; done. Qed.

Lemma of_units_int (z : Z) : Z.abs z <= 2 ^ 53 -> of_units (z * 2 ^ 1074) = double_of_int z.
Proof.
  intros Hz. assert (0 < 2 ^ 1074) as HU by (apply Z.pow_pos_nonneg; lia). unfold of_units, round_double. pose proof (round_exact (Z.abs z) 1074 1 ltac:(lia) ltac:(lia) ltac:(lia)) as E. rewrite Z.mul_1_r in E.
  rewrite Z.abs_mul, (Z.abs_eq (2 ^ 1074)), E by lia. assert (Z.abs z * 2 ^ 1074 < OVERFLOW) as Ho.
  { unfold OVERFLOW. rewrite Z.pow_add_r by lia. apply Z.mul_lt_mono_pos_r; [lia|]. apply (Z.le_lt_trans _ (2 ^ 53)); [lia|]. apply Z.pow_lt_mono_r; lia. }
  unfold double_of_int. revert Ho HU. generalize OVERFLOW (2 ^ 1074). intros o u Ho HU. destruct (Z.eqb_spec z 0) as [-> |Hn]; [done|].
  rewrite (proj2 (Z.eqb_neq (Z.abs z * u) 0)), (proj2 (Z.leb_gt o (Z.abs z * u))) by nia. destruct (Z.ltb_spec (z * u) 0); f_equal; nia.
Qed.
Lemma dadd_int (a b : Z) : Z.abs (a + b) <= 2 ^ 53 -> dadd (double_of_int a) (double_of_int b) = double_of_int (a + b).
Proof.
  intros H. destruct (double_of_int_cases a) as [[-> ->]|[Ha ->]], (double_of_int_cases b) as [[-> ->]|[Hb ->]]; unfold dadd.
  - done.
  - rewrite Z.add_0_l. by destruct (double_of_int_cases b) as [[? _]|[_ ->]].
  - rewrite Z.add_0_r. by destruct (double_of_int_cases a) as [[? _]|[_ ->]].
  - rewrite <- Z.mul_add_distr_r. destruct (double_of_int_cases (a + b)) as [[-> ->]|[Hab _]]; [done|].
    rewrite (proj2 (Z.eqb_neq _ 0)); [by apply of_units_int|]. apply Z.neq_mul_0. split; [done|]. by apply Z.pow_nonzero.
Qed.

Lemma dneg_int (b : Z) : b <> 0 -> dneg (double_of_int b) = double_of_int (- b).
Proof. intros H. destruct (double_of_int_cases b) as [[? _]|[_ ->]]; [done|]. destruct (double_of_int_cases (- b)) as [[? _]|[_ ->]]; [lia|]. cbn [dneg]. f_equal. lia. Qed.

Lemma dsub_int (a b : Z) : Z.abs (a - b) <= 2 ^ 53 -> dadd (double_of_int a) (dneg (double_of_int b)) = double_of_int (a - b).
Proof.
  intros H. destruct (Z.eq_dec b 0) as [-> |Hb]; [|by rewrite dneg_int, dadd_int by done]. rewrite Z.sub_0_r. by destruct (double_of_int_cases a) as [[-> ->]|[? ->]].
Qed.

Lemma dmul_int (a b : Z) : 0 < b -> Z.abs (a * b) <= 2 ^ 53 -> dmul (double_of_int a) (double_of_int b) = double_of_int (a * b).
Proof.
  intros Hb H. assert (0 < 2 ^ 1074) as HU by (apply Z.pow_pos_nonneg; lia). destruct (double_of_int_cases b) as [[-> _]|[_ ->]]; [lia|]. destruct (double_of_int_cases a) as [[-> ->]|[Ha ->]]; unfold dmul.
  - rewrite (proj2 (Z.ltb_ge (b * 2 ^ 1074) 0)) by nia. done.
  - rewrite <- (of_units_int (a * b)) by done. unfold of_units, round_double.
    replace (round_ratio (Z.abs (a * 2 ^ 1074 * (b * 2 ^ 1074))) (2 ^ 1074)) with (Z.abs (a * b) * 2 ^ 1074).
    2:{ rewrite <- (round_exact (Z.abs (a * b)) 1074 (2 ^ 1074)) by lia. f_equal. rewrite !Z.abs_mul, !(Z.abs_eq (2 ^ 1074)) by lia. ring. }
    replace (round_ratio (Z.abs (a * b * 2 ^ 1074)) 1) with (Z.abs (a * b) * 2 ^ 1074).
    2:{ rewrite <- (round_exact (Z.abs (a * b)) 1074 1) by lia. f_equal. rewrite !Z.abs_mul, !(Z.abs_eq (2 ^ 1074)) by lia. ring. }
    replace (xorb (a * 2 ^ 1074 <? 0) (b * 2 ^ 1074 <? 0)) with (a * b * 2 ^ 1074 <? 0); [done|]. revert HU. generalize (2 ^ 1074). intros u HU.
    destruct (Z.ltb_spec (a * u) 0), (Z.ltb_spec (b * u) 0), (Z.ltb_spec (a * b * u) 0); simpl; (done || nia).
Qed.

Lemma trunc_int (z : Z) : trunc (double_of_int z) = Some z.
Proof. destruct (double_of_int_cases z) as [[-> ->]|[Hz ->]]; [done|]. unfold trunc. by rewrite Z.quot_mul by (by apply Z.pow_nonzero). Qed.

Lemma TruncateDouble_int (z : Z) : TruncateDouble (double_of_int z) = double_of_int z.
Proof.
  destruct (double_of_int_cases z) as [[-> ->]|[Hz E]]; [done|]. rewrite E. unfold TruncateDouble, double_floor. rewrite Z.quot_mul by (by apply Z.pow_nonzero).
  by rewrite (proj2 (Z.eqb_neq z 0)).
Qed.

Lemma isfinite_int (z : Z) : isfinite (double_of_int z) = true.
Proof. by destruct (double_of_int_cases z) as [[-> ->]|[Hz ->]]. Qed.

Lemma isnan_int (z : Z) : isnan (double_of_int z) = false.
Proof. by destruct (double_of_int_cases z) as [[-> ->]|[Hz ->]]. Qed.

Lemma int64_of_double_int {S} (z : Z) (s : S) : - 2 ^ 63 <= z < 2 ^ 63 -> int64_of_double (double_of_int z) s = (Ok z, s).
Proof. intros H. unfold int64_of_double. rewrite trunc_int. zb. done. Qed.

Lemma double_of_int64_int (z : Z) : Z.abs z <= 2 ^ 53 -> double_of_int64 z = double_of_int z.
Proof. apply of_units_int. Qed.

Lemma ltb_int (a b : Z) : double_ltb (double_of_int a) (double_of_int b) = (a <? b).
Proof.
  assert (0 < 2 ^ 1074) as HU by (apply Z.pow_pos_nonneg; lia). unfold double_ltb.
  destruct (double_of_int_cases a) as [[-> ->]|[Ha ->]], (double_of_int_cases b) as [[-> ->]|[Hb ->]]; cbn [dkey]; revert HU; generalize (2 ^ 1074); intros u HU; cbn [Z.ltb Z.eqb Z.compare orb andb].
  - done.
  - destruct (Z.ltb_spec 0 (b * u)), (Z.ltb_spec 0 b); (done || nia).
  - destruct (Z.ltb_spec (a * u) 0), (Z.ltb_spec a 0); (done || nia).
  - destruct (Z.ltb_spec (a * u) (b * u)), (Z.ltb_spec a b); (done || nia).
Qed.

Lemma leb_int (a b : Z) : double_leb (double_of_int a) (double_of_int b) = (a <=? b).
Proof.
  assert (0 < 2 ^ 1074) as HU by (apply Z.pow_pos_nonneg; lia). unfold double_leb. rewrite ltb_int. unfold double_eqb.
  destruct (double_of_int_cases a) as [[-> ->]|[Ha ->]], (double_of_int_cases b) as [[-> ->]|[Hb ->]]; cbn [dkey]; revert HU; generalize (2 ^ 1074); intros u HU; rewrite Z.eqb_refl; cbn [andb].
  - done.
  - destruct (Z.eqb_spec 0 (b * u)), (Z.ltb_spec 0 b), (Z.leb_spec 0 b); simpl; (done || nia).
  - destruct (Z.eqb_spec (a * u) 0), (Z.ltb_spec a 0), (Z.leb_spec a 0); simpl; (done || nia).
  - destruct (Z.eqb_spec (a * u) (b * u)), (Z.ltb_spec a b), (Z.leb_spec a b); simpl; (done || nia).
Qed.

(** An integer that is too large for 53 bits is rounded to a number that is no smaller than 2^53. *)
Lemma double_of_int64_large (z : Z) : 2 ^ 53 <= Z.abs z <= 2 ^ 63 ->
  exists k, 2 ^ 53 * 2 ^ 1074 <= k /\ double_of_int64 z = DFin (if z <? 0 then - k else k).
Proof.
  intros Hz. unfold double_of_int64, of_units, round_double. remember 1074 as e eqn:Ee. assert (0 < 2 ^ e) as HU by (apply Z.pow_pos_nonneg; lia). rewrite Z.abs_mul, (Z.abs_eq (2 ^ e)) by lia.
  assert (Z.log2 (Z.abs z * 2 ^ e) <= 63 + e) as Hl.
  { rewrite Z.log2_mul_pow2 by lia. enough (Z.log2 (Z.abs z) <= 63) by lia. change 63 with (Z.log2 (2 ^ 63)). apply Z.log2_le_mono. lia. }
  pose proof (round_bounds (Z.abs z * 2 ^ e) 1 (2 ^ (53 + e - Z.max 0 (Z.log2 (Z.abs z * 2 ^ e) - 52))) ltac:(lia) ltac:(nia)) as [Hlo Hhi]. cbv zeta in *. rewrite Z.div_1_r in *.
  set (s := Z.max 0 (Z.log2 (Z.abs z * 2 ^ e) - 52)) in *. assert (0 <= s <= e + 11) as Hs by lia. rewrite <- Z.pow_add_r in Hlo by lia. replace (53 + e - s + s) with (53 + e) in Hlo by lia. rewrite Z.pow_add_r in Hlo by lia.
  set (k := round_ratio (Z.abs z * 2 ^ e) 1) in *. specialize (Hlo ltac:(nia)).
  assert (k < OVERFLOW) as Ho.
  { assert (2 ^ s <= 2 ^ 11 * 2 ^ e) as Hp by (rewrite <- Z.pow_add_r by lia; apply Z.pow_le_mono_r; lia). assert (k <= (2 ^ 63 + 2 ^ 11) * 2 ^ e) as Hk by nia. apply (Z.le_lt_trans _ _ _ Hk). unfold OVERFLOW. rewrite <- Ee, (Z.pow_add_r 2 1024 e) by lia.
    apply Z.mul_lt_mono_pos_r; [lia|]. reflexivity. }
  exists k. split; [done|]. clearbody k s. revert Hlo Ho HU. generalize OVERFLOW (2 ^ e). intros o u Hlo Ho HU.
  rewrite (proj2 (Z.eqb_neq k 0)), (proj2 (Z.leb_gt o k)) by nia. destruct (Z.ltb_spec z 0), (Z.ltb_spec (z * u) 0); (done || nia).
Qed.

(** The quotient of a number of months by 12. *)
Lemma ddiv_int (m b : Z) : Z.abs m < 2 ^ 48 -> 0 < b < 16 -> trunc (ddiv (double_of_int m) (double_of_int b)) = Some (Z.quot m b).
Proof.
  intros Hm Hb. destruct (double_of_int_cases b) as [[-> _]|[_ ->]]; [lia|]. destruct (double_of_int_cases m) as [[-> ->]|[Hm0 ->]]; unfold ddiv; [by rewrite Z.quot_0_l by lia|].
  unfold round_double, trunc. remember 1074 as e eqn:Ee. assert (0 < 2 ^ e) as HU by (apply Z.pow_pos_nonneg; lia). rewrite !Z.abs_mul, !(Z.abs_eq (2 ^ e)), (Z.abs_eq b) by lia. set (n := Z.abs m * 2 ^ e * 2 ^ e). set (d := b * 2 ^ e). set (q := Z.abs m / b).
  assert (n / d = Z.abs m * 2 ^ e / b) as En by (unfold n, d; rewrite Z.div_mul_cancel_r by lia; done).
  assert (Z.log2 (n / d) <= 48 + e) as Hl.
  { rewrite En. enough (Z.abs m * 2 ^ e / b < 2 ^ (49 + e)) as Hlt by (destruct (Z_lt_le_dec 0 (Z.abs m * 2 ^ e / b)) as [Hp|Hp]; [apply Z.log2_lt_pow2 in Hlt; lia|rewrite Z.log2_nonpos by lia; lia]).
    apply Z.div_lt_upper_bound; [lia|]. rewrite Z.pow_add_r by lia. nia. }
  pose proof (round_bounds n d (q * 2 ^ (e - Z.max 0 (Z.log2 (n / d) - 52))) ltac:(nia) ltac:(nia)) as [Hlo Hhi]. cbv zeta in *. set (s := Z.max 0 (Z.log2 (n / d) - 52)) in *. assert (0 <= s <= e - 4) as Hs by lia.
  assert (q * 2 ^ (e - s) * 2 ^ s = q * 2 ^ e) as Eq by (rewrite <- Z.mul_assoc, <- Z.pow_add_r by lia; do 2 f_equal; lia). rewrite Eq in Hlo. clear Eq.
  assert (16 * 2 ^ s <= 2 ^ e) as Hp by (change 16 with (2 ^ 4); rewrite <- Z.pow_add_r by lia; apply Z.pow_le_mono_r; lia).
  assert (Z.abs m = b * q + Z.abs m mod b /\ 0 <= Z.abs m mod b < b) as [Em Hr] by (split; [apply Z.div_mod; lia|apply Z.mod_pos_bound; lia]). set (r := Z.abs m mod b) in *.
  set (k := round_ratio n d) in *. assert (0 <= q <= 2 ^ 48) as Hq by (split; [apply Z.div_pos|apply Z.div_le_upper_bound]; lia).
  assert (Z.quot m b = if m <? 0 then - q else q) as Equ.
  { unfold q. destruct (Z.ltb_spec m 0).
    - rewrite <- Z.quot_div_nonneg, (Z.abs_neq m), Z.quot_opp_l by lia. lia.
    - by rewrite <- Z.quot_div_nonneg, (Z.abs_eq m) by lia. }
  clearbody k s q r. unfold n, d in *. clear En Hl n d. assert (q * 2 ^ e <= k) as Hk1 by (apply Hlo; nia). clear Hlo.
  assert (k < (q + 1) * 2 ^ e) as Hk2.
  { revert Hhi Hp HU. generalize (2 ^ e) (2 ^ s). intros u v Hhi Hp HU. assert (k * b <= Z.abs m * u + b * v) as Hh by nia. nia. }
  assert (k < OVERFLOW) as Ho.
  { apply (Z.lt_le_trans _ _ _ Hk2). unfold OVERFLOW. rewrite <- Ee, (Z.pow_add_r 2 1024 e) by lia. apply Z.mul_le_mono_nonneg_r; [lia|]. apply (Z.le_trans _ (2 ^ 49)); [lia|]. by apply Z.pow_le_mono_r. }
  rewrite Equ. revert Hk1 Hk2 Ho HU. generalize OVERFLOW (2 ^ e). intros o u Hk1 Hk2 Ho HU.
  assert (xorb (m * u <? 0) (b * u <? 0) = (m <? 0)) as -> by (destruct (Z.ltb_spec (m * u) 0), (Z.ltb_spec (b * u) 0), (Z.ltb_spec m 0); simpl; (done || nia)).
  destruct (Z.eqb_spec k 0) as [Hk|Hk].
  - assert (q = 0) as -> by nia. destruct (m <? 0); reflexivity.
  - rewrite (proj2 (Z.leb_gt o k)) by done. assert (Z.quot k u = q) as <- by (rewrite Z.quot_div_nonneg by nia; symmetry; apply (Z.div_unique _ _ _ (k - q * u)); nia).
    destruct (m <? 0); [by rewrite Z.quot_opp_l by lia|done].
Qed.
End Double.
