(* ===== verification/DateUtils.v ===== *)
(** * DateUtils: class DateUtils of js_date.h and js_date.cpp.

    Time values are counted in milliseconds from 1970.  TransferTimeToDate
    splits one into the fields of an array of nine numbers; GetYearFromDays
    computes year, month and day of the month from a number of days, and keeps
    its last answer in static variables, which are the state here.

    Shown: the year starts are the sums of the lengths of the years; the fields
    are the one valid date of the day in the Gregorian calendar and the time of
    the day, whatever the cache holds; the cache is always right. *)
From S2P Require Import Prelude TaggedValue.
Local Open Scope Z_scope.

Module DateUtils.

Definition DAYS_IN_YEAR : Z := 365.
Definition MS_PER_SECOND : Z := 1000.
Definition SEC_PER_MINUTE : Z := 60.
Definition MS_PER_DAY : Z := 86400000.
Definition DAY_PER_WEEK : Z := 7.
Definition LEAP_NUMBER_0 : Z := 4.
Definition LEAP_NUMBER_1 : Z := 100.
Definition LEAP_NUMBER_2 : Z := 400.
Definition DAYS_1970_TO_0000 : Z := 719468.
Definition DAYS_IN_4_YEARS : Z := 1460.
Definition DAYS_IN_100_YEARS : Z := 36524.
Definition DAYS_IN_400_YEARS : Z := 146097.
Definition DAYS_FEBRUARY : Z := 28.
Definition MONTH_COEFFICIENT : Z := 2.

(** The indices of the fields. *)
Definition YEAR : nat := 0.
Definition MONTH : nat := 1.
Definition DAYS : nat := 2.
Definition HOUR : nat := 3.
Definition MIN : nat := 4.
Definition SEC : nat := 5.
Definition MS : nat := 6.
Definition WEEKDAY : nat := 7.
Definition TIMEZONE : nat := 8.
Definition DATE_LENGTH : nat := 9.

(** The static members. *)
Record Cache : Type := mkCache { isCached_ : bool; preSumDays_ : Z; preDays_ : Z; preMonth_ : Z; preYear_ : Z }.

Definition Mod (a b : Z) : Z := let m := Z.rem a b in if m <? 0 then m + b else m.

Definition FloorDiv (a b : Z) : Z := let m := Z.rem a b in if m <? 0 then Z.quot (a - m - b) b else Z.quot (a - m) b.

Definition IsLeap (year : Z) : bool :=
  (Z.rem year LEAP_NUMBER_0 =? 0) && (negb (Z.rem year LEAP_NUMBER_1 =? 0) || (Z.rem year LEAP_NUMBER_2 =? 0)).

Definition GetDaysInYear (year : Z) : Z := if IsLeap year then DAYS_IN_YEAR + 1 else DAYS_IN_YEAR.

Definition GetDaysFromYear (year : Z) : Z :=
  DAYS_IN_YEAR * (year - 1970) + FloorDiv (year - 1969) LEAP_NUMBER_0 - FloorDiv (year - 1901) LEAP_NUMBER_1 + FloorDiv (year - 1601) LEAP_NUMBER_2.

(** The part of GetYearFromDays that does not use the cache. *)
Definition civil_from_days (d : Z) : Z * Z * Z :=
  let d := d + DAYS_1970_TO_0000 in
  let era := Z.quot (if 0 <=? d then d else d - DAYS_IN_400_YEARS + 1) DAYS_IN_400_YEARS in
  let doe := d - era * DAYS_IN_400_YEARS in
  let yoe := Z.quot (doe - Z.quot doe DAYS_IN_4_YEARS + Z.quot doe DAYS_IN_100_YEARS - Z.quot doe (DAYS_IN_400_YEARS - 1)) DAYS_IN_YEAR in
  let y := yoe + era * LEAP_NUMBER_2 in
  let doy := doe - (DAYS_IN_YEAR * yoe + Z.quot yoe LEAP_NUMBER_0 - Z.quot yoe LEAP_NUMBER_1) in
  let mp := Z.quot (5 * doy + MONTH_COEFFICIENT) 153 in
  let month := mp + (if mp <? 10 then 3 else -9) in
  let year := y + (if month <=? MONTH_COEFFICIENT then 1 else 0) in
  let month := month - 1 in
  let realDay := doy - Z.quot (153 * mp + 2) 5 + 1 in
  (year, month, realDay).

Definition set_date (year month days : Z) (date : list Z) : list Z := <[DAYS := days]> (<[MONTH := month]> (<[YEAR := year]> date)).

Definition GetYearFromDays (date : list Z) : M Cache (list Z) :=
  c ← get;
  let t := date !!! DAYS in
  let newDays := preDays_ c + (t - preSumDays_ c) in
  if isCached_ c && ((1 <=? newDays) && (newDays <? DAYS_FEBRUARY)) then
    modify (fun c => mkCache (isCached_ c) (i32 t) (i32 newDays) (preMonth_ c) (preYear_ c));;
    mret (set_date (preYear_ c) (preMonth_ c) newDays date)
  else
    let '(year, month, realDay) := civil_from_days t in
    modify (fun c => mkCache true (i32 t) (i32 realDay) (i32 month) (i32 year));;
    mret (set_date year month realDay date).

Definition TransferTimeToDate (timeMs : Z) (date : list Z) : M Cache (list Z) :=
  let date := <[HOUR := Mod timeMs MS_PER_DAY]> date in
  let date := <[DAYS := Z.quot (timeMs - date !!! HOUR) MS_PER_DAY]> date in
  let date := <[MS := Z.rem (date !!! HOUR) MS_PER_SECOND]> date in
  let date := <[HOUR := Z.quot (date !!! HOUR - date !!! MS) MS_PER_SECOND]> date in
  let date := <[SEC := Z.rem (date !!! HOUR) SEC_PER_MINUTE]> date in
  let date := <[HOUR := Z.quot (date !!! HOUR - date !!! SEC) SEC_PER_MINUTE]> date in
  let date := <[MIN := Z.rem (date !!! HOUR) SEC_PER_MINUTE]> date in
  let date := <[HOUR := Z.quot (date !!! HOUR - date !!! MIN) SEC_PER_MINUTE]> date in
  let date := <[WEEKDAY := Mod (date !!! DAYS + LEAP_NUMBER_0) DAY_PER_WEEK]> date in
  GetYearFromDays date.

(** DAYS_FROM_MONTH of JSDate. *)
Definition DAYS_FROM_MONTH (index : bool) (month : Z) : Z :=
  nth (Z.to_nat month) (if index then [0; 31; 60; 91; 121; 152; 182; 213; 244; 274; 305; 335; 366] else [0; 31; 59; 90; 120; 151; 181; 212; 243; 273; 304; 334; 365]) 0.

(** ** The calendar *)

Definition leap (y : Z) : bool := (y mod 4 =? 0) && (negb (y mod 100 =? 0) || (y mod 400 =? 0)).

Definition month_length (y m : Z) : Z :=
  match m with
  | 1 => if leap y then 29 else 28
  | 3 | 5 | 8 | 10 => 30
  | _ => 31
  end.

(** Months are counted from 0 and days from 1. *)
Definition valid_date (y m d : Z) : Prop := 0 <= m < 12 /\ 1 <= d <= month_length y m.

(** The number of the day counted from 1970-01-01. *)
Definition day_number (y m d : Z) : Z := GetDaysFromYear y + DAYS_FROM_MONTH (leap y) m + d - 1.

(** One goal for each value of the month. *)
Ltac months m Hm :=
  let Hc := fresh in
  assert (m = 0 \/ m = 1 \/ m = 2 \/ m = 3 \/ m = 4 \/ m = 5 \/ m = 6 \/ m = 7 \/ m = 8 \/ m = 9 \/ m = 10 \/ m = 11) as Hc by (clear - Hm; lia);
  repeat destruct Hc as [Hc|Hc]; try (exfalso; clear - Hc Hm; lia); rewrite ?Hc in *; clear Hc.

(** C++ division and remainder of a by b > 0 and the Euclidean ones. *)
Lemma rem_cases (a b : Z) : 0 < b ->
  (0 <= Z.rem a b /\ Z.rem a b = a mod b /\ Z.quot a b = a / b) \/ (Z.rem a b < 0 < a mod b /\ Z.rem a b = a mod b - b /\ Z.quot a b = a / b + 1).
Proof.
  intros Hb. pose proof (Z.quot_rem a b ltac:(lia)) as E. destruct (Z_lt_le_dec (Z.rem a b) 0) as [Hr|Hr].
  - right. destruct (Z_lt_le_dec a 0) as [Ha|Ha]; [|pose proof (Z.rem_bound_pos a b Ha Hb); lia].
    pose proof (Z.rem_bound_pos (- a) b ltac:(lia) Hb) as Hb'. rewrite Z.rem_opp_l in Hb' by lia.
    assert (a / b = Z.quot a b - 1) as Hd by (symmetry; apply (Z.div_unique a b _ (Z.rem a b + b)); [left|]; lia).
    assert (a mod b = Z.rem a b + b) as Hm by (symmetry; apply (Z.mod_unique a b (Z.quot a b - 1)); [left|]; lia). lia.
  - left. assert (Z.rem a b < b) as Hlt by (destruct (Z_lt_le_dec a 0) as [Ha|Ha]; [pose proof (Z.rem_bound_pos (- a) b ltac:(lia) Hb) as Hb'; rewrite Z.rem_opp_l in Hb' by lia; lia|pose proof (Z.rem_bound_pos a b Ha Hb); lia]).
    split; [done|]. split; [apply (Z.mod_unique a b (Z.quot a b)); [left|]; lia|apply (Z.div_unique a b _ (Z.rem a b)); [left|]; lia].
Qed.

Lemma Mod_spec (a b : Z) : 0 < b -> Mod a b = a mod b.
Proof.
  intros Hb. unfold Mod. pose proof (Z.mod_pos_bound a b Hb). destruct (rem_cases a b Hb) as [(_ & -> & _)|(_ & -> & _)]; zb; lia.
Qed.

Lemma FloorDiv_spec (a b : Z) : 0 < b -> FloorDiv a b = a / b.
Proof.
  intros Hb. unfold FloorDiv. pose proof (Z.div_mod a b ltac:(lia)) as E. pose proof (Z.mod_pos_bound a b Hb).
  destruct (rem_cases a b Hb) as [(H1 & -> & _)|(H1 & -> & _)]; zb.
  - replace (a - a mod b) with (a / b * b) by lia. apply Z.quot_mul. lia.
  - replace (a - (a mod b - b) - b) with (a / b * b) by lia. apply Z.quot_mul. lia.
Qed.

Lemma IsLeap_spec (y : Z) : IsLeap y = leap y.
Proof.
  unfold IsLeap, leap, LEAP_NUMBER_0, LEAP_NUMBER_1, LEAP_NUMBER_2.
  assert (forall b, 0 < b -> (Z.rem y b =? 0) = (y mod b =? 0)) as H; [|by rewrite !H].
  intros b Hb. destruct (rem_cases y b Hb) as [(_ & -> & _)|(H1 & H2 & _)]; [done|]. pose proof (Z.mod_pos_bound y b Hb). destruct (Z.eqb_spec (Z.rem y b) 0), (Z.eqb_spec (y mod b) 0); (done || lia).
Qed.

Lemma GetDaysFromYear_spec (y : Z) : GetDaysFromYear y = 365 * (y - 1970) + (y - 1969) / 4 - (y - 1901) / 100 + (y - 1601) / 400.
Proof. unfold GetDaysFromYear, DAYS_IN_YEAR, LEAP_NUMBER_0, LEAP_NUMBER_1, LEAP_NUMBER_2. by rewrite !FloorDiv_spec by lia. Qed.

Lemma leap_cases (y : Z) : leap y = true <-> y mod 4 = 0 /\ (y mod 100 <> 0 \/ y mod 400 = 0).
Proof. unfold leap. destruct (Z.eqb_spec (y mod 4) 0), (Z.eqb_spec (y mod 100) 0), (Z.eqb_spec (y mod 400) 0); simpl; intuition lia. Qed.

(** The next year starts when the year is over. *)
Lemma year_length (y : Z) : GetDaysFromYear (y + 1) = GetDaysFromYear y + GetDaysInYear y.
Proof.
  rewrite !GetDaysFromYear_spec. unfold GetDaysInYear, DAYS_IN_YEAR. rewrite IsLeap_spec. pose proof (leap_cases y) as Hl.
  destruct (leap y); [destruct (proj1 Hl eq_refl)|assert (~ (y mod 4 = 0 /\ (y mod 100 <> 0 \/ y mod 400 = 0))) by (by intros H; apply Hl in H)]; zlia.
Qed.
(** ** Year, month and day of a number of days *)

(** A year that begins in March, and the day in it, of a day of an era of 400
    years: [a] centuries, [b] times four years and [c] years. *)
Lemma era_day (doe : Z) : 0 <= doe < 146097 ->
  exists a b c doy, (0 <= a <= 3 /\ 0 <= b <= 24 /\ 0 <= c <= 3 /\ 0 <= doy <= 365) /\ (doy = 365 -> c = 3 /\ (b <> 24 \/ a = 3)) /\ doe = 36524 * a + 1461 * b + 365 * c + doy.
Proof.
  intros H. set (a := Z.min 3 (doe / 36524)). set (r := doe - 36524 * a). set (b := Z.min 24 (r / 1461)). set (r' := r - 1461 * b). set (c := Z.min 3 (r' / 365)).
  exists a, b, c, (r' - 365 * c). assert (0 <= a <= 3 /\ 0 <= r <= 36524 /\ (r = 36524 -> a = 3)) as (Ha & Hr & Hr4) by (unfold r, a; zlia).
  assert (0 <= b <= 24 /\ 0 <= r' <= 1460 /\ (b = 24 -> r' = 1460 -> a = 3)) as (Hb & Hr' & Hb4) by (unfold r', b; zlia). unfold r in *. unfold c. zlia.
Qed.

Lemma era_year (a b c doy doe : Z) : 0 <= a <= 3 -> 0 <= b <= 24 -> 0 <= c <= 3 -> 0 <= doy <= 365 -> (doy = 365 -> c = 3 /\ (b <> 24 \/ a = 3)) ->
  doe = 36524 * a + 1461 * b + 365 * c + doy -> (doe - doe / 1460 + doe / 36524 - doe / 146096) / 365 = 100 * a + 4 * b + c.
Proof.
  intros Ha Hb Hc Hd Hl ->. assert (a = 0 \/ a = 1 \/ a = 2 \/ a = 3) as [-> | [-> | [-> | ->]]] by lia; assert (c = 0 \/ c = 1 \/ c = 2 \/ c = 3) as [-> | [-> | [-> | ->]]] by lia; zlia.
Qed.
(** The year that begins after February of the next one. *)
Lemma year_after (a b c era : Z) : 0 <= a <= 3 -> 0 <= b <= 24 -> 0 <= c <= 3 ->
  GetDaysFromYear (100 * a + 4 * b + c + era * 400 + 1) = 36524 * a + 1461 * b + 365 * c + 146097 * era + 306 - 719468.
Proof. intros Ha Hb Hc. rewrite GetDaysFromYear_spec. assert (a = 0 \/ a = 1 \/ a = 2 \/ a = 3) as [-> | [-> | [-> | ->]]] by lia; zlia. Qed.

Lemma from_march (y m : Z) : 2 <= m < 12 -> GetDaysFromYear y + DAYS_FROM_MONTH (leap y) m = GetDaysFromYear (y + 1) - 365 + DAYS_FROM_MONTH false m.
Proof.
  intros Hm. rewrite year_length. unfold GetDaysInYear, DAYS_IN_YEAR. rewrite IsLeap_spec. generalize (GetDaysFromYear y). intros g.
  months m Hm; destruct (leap y); unfold DAYS_FROM_MONTH; simpl; lia.
Qed.

Lemma leap_next (a b c era : Z) : 0 <= a <= 3 -> 0 <= b <= 24 -> c = 3 /\ (b <> 24 \/ a = 3) -> leap (100 * a + 4 * b + c + era * 400 + 1) = true.
Proof.
  intros Ha Hb [-> Hl]. apply leap_cases. split; [zlia|]. destruct (decide (b = 24)) as [-> |]; [right; assert (a = 3) as -> by lia; zlia|left].
  rewrite <- (Z.mod_unique _ 100 (a + era * 4) (4 * b + 4)); lia.
Qed.

Ltac month_numbers k :=
  repeat match goal with
  | |- context [k + ?x - 1] => let v := eval vm_compute in (k + x - 1) in change (k + x - 1) with v
  | |- context [Z.quot (153 * k + 2) 5] => let v := eval vm_compute in (Z.quot (153 * k + 2) 5) in change (Z.quot (153 * k + 2) 5) with v
  end; unfold DAYS_FROM_MONTH, month_length; simpl.

Lemma civil_date (n y m d : Z) : civil_from_days n = (y, m, d) -> valid_date y m d /\ day_number y m d = n.
Proof.
  unfold civil_from_days, DAYS_1970_TO_0000, DAYS_IN_400_YEARS, DAYS_IN_4_YEARS, DAYS_IN_100_YEARS, DAYS_IN_YEAR, LEAP_NUMBER_0, LEAP_NUMBER_1, LEAP_NUMBER_2, MONTH_COEFFICIENT.
  assert (Z.quot (if 0 <=? n + 719468 then n + 719468 else n + 719468 - 146097 + 1) 146097 = (n + 719468) / 146097) as -> by (destruct (Z.leb_spec 0 (n + 719468)); zlia).
  set (era := (n + 719468) / 146097). assert (0 <= n + 719468 - era * 146097 < 146097) as Hdoe by (unfold era; zlia).
  destruct (era_day _ Hdoe) as (a & b & c & doy & (Ha & Hb & Hc & Hd) & Hl & Edoe). set (doe := n + 719468 - era * 146097) in *. assert (n = doe + era * 146097 - 719468) as En by (unfold doe; lia).
  change (146097 - 1) with 146096. rewrite !(Z.quot_div_nonneg doe) by lia. rewrite (Z.quot_div_nonneg (doe - _ + _ - _)) by zlia. rewrite (era_year a b c doy doe Ha Hb Hc Hd Hl Edoe).
  rewrite !(Z.quot_div_nonneg (100 * a + 4 * b + c)) by lia. replace (doe - (365 * (100 * a + 4 * b + c) + (100 * a + 4 * b + c) / 4 - (100 * a + 4 * b + c) / 100)) with doy by zlia.
  rewrite (Z.quot_div_nonneg (5 * doy + 2)) by lia. pose proof (year_after a b c era Ha Hb Hc) as Hy. pose proof (leap_next a b c era Ha Hb) as Hn.
  set (Y := 100 * a + 4 * b + c + era * 400) in *. set (mp := (5 * doy + 2) / 153). assert (0 <= mp <= 11) as Hmp by (unfold mp; zlia).
  intros E. injection E as <- <- <-. unfold day_number, valid_date. destruct (Z.ltb_spec mp 10) as [H10|H10].
  - rewrite (proj2 (Z.leb_gt (mp + 3) 2)) by lia. rewrite Z.add_0_r, from_march, Hy by lia.
    assert (mp = 0 \/ mp = 1 \/ mp = 2 \/ mp = 3 \/ mp = 4 \/ mp = 5 \/ mp = 6 \/ mp = 7 \/ mp = 8 \/ mp = 9) as Hcs by lia.
    repeat destruct Hcs as [Hcs|Hcs]; rewrite Hcs; unfold mp in Hcs; match type of Hcs with _ = ?k => month_numbers k end; zlia.
  - rewrite (proj2 (Z.leb_le (mp + -9) 2)) by lia. rewrite Hy.
    assert (mp = 10 \/ mp = 11) as [Hcs|Hcs] by lia; rewrite Hcs; unfold mp in Hcs; [month_numbers 10|month_numbers 11].
    + destruct (leap (Y + 1)); simpl; zlia.
    + destruct (decide (doy = 365)) as [E|E]; [rewrite (Hn (Hl E)); simpl; zlia|]. destruct (leap (Y + 1)); simpl; zlia.
Qed.
(** ** One date for each day *)

Lemma month_next (y m : Z) : 0 <= m < 12 -> DAYS_FROM_MONTH (leap y) (m + 1) = DAYS_FROM_MONTH (leap y) m + month_length y m /\ 1 <= month_length y m.
Proof.
  intros Hm. months m Hm; unfold month_length; destruct (leap y); done.
Qed.

Lemma month_starts (y m m' : Z) : 0 <= m -> m < m' <= 12 -> DAYS_FROM_MONTH (leap y) m + month_length y m <= DAYS_FROM_MONTH (leap y) m'.
Proof.
  intros Hm [Hlt Hle]. replace m' with (m + 1 + Z.of_nat (Z.to_nat (m' - m - 1))) in * by lia. induction (Z.to_nat (m' - m - 1)) as [|k IH].
  - rewrite Z.add_0_r. destruct (month_next y m ltac:(lia)) as [-> _]. lia.
  - destruct (month_next y (m + 1 + Z.of_nat k) ltac:(lia)) as [E H]. replace (m + 1 + Z.of_nat (S k)) with (m + 1 + Z.of_nat k + 1) by lia. rewrite E. specialize (IH ltac:(lia) ltac:(lia)). lia.
Qed.

Lemma GetDaysInYear_months (y : Z) : GetDaysInYear y = DAYS_FROM_MONTH (leap y) 12.
Proof. unfold GetDaysInYear. rewrite IsLeap_spec. by destruct (leap y). Qed.

Lemma years_increase (y y' : Z) : y < y' -> GetDaysFromYear y + GetDaysInYear y <= GetDaysFromYear y'.
Proof.
  intros H. replace y' with (y + 1 + Z.of_nat (Z.to_nat (y' - y - 1))) by lia. induction (Z.to_nat (y' - y - 1)) as [|k IH].
  - rewrite Z.add_0_r, year_length. lia.
  - replace (y + 1 + Z.of_nat (S k)) with (y + 1 + Z.of_nat k + 1) by lia. rewrite year_length. unfold GetDaysInYear at 2, DAYS_IN_YEAR. destruct (IsLeap _); lia.
Qed.

Lemma day_in_year (y m d : Z) : valid_date y m d -> GetDaysFromYear y <= day_number y m d < GetDaysFromYear y + GetDaysInYear y.
Proof.
  intros [Hm Hd]. unfold day_number. rewrite GetDaysInYear_months. pose proof (month_starts y m 12 ltac:(lia) ltac:(lia)).
  assert (0 <= DAYS_FROM_MONTH (leap y) m); [|lia]. destruct (decide (m = 0)) as [-> |]; [by destruct (leap y)|].
  pose proof (month_starts y 0 m ltac:(lia) ltac:(lia)) as H0. destruct (month_next y 0 ltac:(lia)) as [_ H1]. replace (DAYS_FROM_MONTH (leap y) 0) with 0 in H0 by (by destruct (leap y)). lia.
Qed.

Lemma day_number_inj (y m d y' m' d' : Z) : valid_date y m d -> valid_date y' m' d' -> day_number y m d = day_number y' m' d' -> (y, m, d) = (y', m', d').
Proof.
  intros H H' E. pose proof (day_in_year _ _ _ H) as Hy. pose proof (day_in_year _ _ _ H') as Hy'.
  assert (y = y') as <- by (destruct (Z.lt_trichotomy y y') as [Hl|[?|Hl]]; [pose proof (years_increase _ _ Hl); lia|done|pose proof (years_increase _ _ Hl); lia]).
  destruct H as [Hm Hd], H' as [Hm' Hd']. unfold day_number in E.
  assert (m = m') as <- by (destruct (Z.lt_trichotomy m m') as [Hl|[?|Hl]]; [pose proof (month_starts y m m' ltac:(lia) ltac:(lia)); lia|done|pose proof (month_starts y m' m ltac:(lia) ltac:(lia)); lia]).
  f_equal. lia.
Qed.

(** ** The cache *)

(** The last answer, in the 32 bits of the static members. *)
Definition cache_ok (c : Cache) : Prop :=
  isCached_ c = true -> valid_date (preYear_ c) (preMonth_ c) (preDays_ c) /\ day_number (preYear_ c) (preMonth_ c) (preDays_ c) = preSumDays_ c.

Lemma month_length_28 (y m : Z) : 0 <= m < 12 -> 28 <= month_length y m <= 31.
Proof. intros Hm. months m Hm; unfold month_length; destruct (leap y); lia. Qed.

Lemma year_bound (y m d n : Z) : valid_date y m d -> day_number y m d = n -> - 2 ^ 31 <= n < 2 ^ 31 -> - 2 ^ 31 <= y < 2 ^ 31.
Proof.
  intros H E Hn. pose proof (day_in_year _ _ _ H) as Hy. rewrite E in Hy. rewrite GetDaysFromYear_spec in Hy. unfold GetDaysInYear, DAYS_IN_YEAR in Hy. destruct (IsLeap y); zlia.
Qed.

Lemma GetYearFromDays_spec (date : list Z) (c : Cache) : cache_ok c -> - 2 ^ 31 <= date !!! DAYS < 2 ^ 31 ->
  exists c' y m d, GetYearFromDays date c = (Ok (set_date y m d date), c') /\ cache_ok c' /\ civil_from_days (date !!! DAYS) = (y, m, d) /\ valid_date y m d /\ day_number y m d = date !!! DAYS.
Proof.
  intros Hc Ht. unfold GetYearFromDays. set (t := date !!! DAYS) in *. destruct (civil_from_days t) as [[y m] d] eqn:E. destruct (civil_date _ _ _ _ E) as [Hv Hn].
  mstep. cbv zeta. set (new := preDays_ c + (t - preSumDays_ c)). destruct (isCached_ c && ((1 <=? new) && (new <? DAYS_FEBRUARY))) eqn:Eh.
  - unfold DAYS_FEBRUARY in Eh. rewrite !andb_true_iff, Z.leb_le, Z.ltb_lt in Eh. destruct Eh as [Hcd Hnew]. destruct (Hc Hcd) as [[Hm _] Hcn].
    pose proof (month_length_28 (preYear_ c) (preMonth_ c) Hm) as H28.
    assert (valid_date (preYear_ c) (preMonth_ c) new) as Hv' by (split; [done|lia]).
    assert (day_number (preYear_ c) (preMonth_ c) new = t) as Hn' by (unfold day_number in *; unfold new; lia).
    pose proof (day_number_inj _ _ _ _ _ _ Hv' Hv ltac:(by rewrite Hn, Hn')) as Heq. injection Heq as E1 E2 E3.
    mstep. eexists _, y, m, d. rewrite E1, E2, E3. split; [done|]. split; [|done]. intros _. cbn [preYear_ preMonth_ preDays_ preSumDays_]. rewrite !i32_id by lia. done.
  - mstep. eexists _, y, m, d. split; [done|]. split; [|done]. intros _. cbn [preYear_ preMonth_ preDays_ preSumDays_]. pose proof (year_bound _ _ _ _ Hv Hn Ht) as Hyb. pose proof Hv as [Hm Hd].
    pose proof (month_length_28 y m Hm). rewrite !i32_id by lia. done.
Qed.
(** ** The fields of a time value *)

(** The fields of a time by the definitions of the standard: the date of its
    day, hour, minute, second, millisecond and the day of the week. *)
Definition fields_of (timeMs zone : Z) : list Z :=
  let day := timeMs / 86400000 in
  let '(y, m, d) := civil_from_days day in
  let ms := timeMs mod 86400000 in
  [y; m; d; ms / 3600000; ms / 60000 mod 60; ms / 1000 mod 60; ms mod 1000; (day + 4) mod 7; zone].

(** The days of time values and of their local times are 32-bit numbers. *)
Definition time_ok (timeMs : Z) : Prop := - 2 ^ 31 * 86400000 <= timeMs < 2 ^ 31 * 86400000.

Lemma TransferTimeToDate_spec (timeMs : Z) (date : list Z) (c : Cache) : length date = DATE_LENGTH -> cache_ok c -> time_ok timeMs ->
  exists c', TransferTimeToDate timeMs date c = (Ok (fields_of timeMs (date !!! TIMEZONE)), c') /\ cache_ok c'.
Proof.
  intros Hl Hc Ht. unfold time_ok in Ht. do 9 (destruct date as [|? date]; [done|]). destruct date; [|done]. clear Hl.
  unfold TransferTimeToDate, DATE_LENGTH, YEAR, MONTH, DAYS, HOUR, MIN, SEC, MS, WEEKDAY, TIMEZONE, MS_PER_DAY, MS_PER_SECOND, SEC_PER_MINUTE, DAY_PER_WEEK, LEAP_NUMBER_0. rewrite !Mod_spec by lia.
  set (ms := timeMs mod 86400000). assert (0 <= ms < 86400000) as Hms by (unfold ms; zlia). cbn -[Z.quot Z.rem Z.div Z.modulo GetYearFromDays fields_of].
  assert (Z.quot (timeMs - ms) 86400000 = timeMs / 86400000) as -> by (unfold ms; zlia). set (day := timeMs / 86400000) in *.
  rewrite (Z.rem_mod_nonneg ms) by lia. rewrite (Z.quot_div_nonneg (ms - ms mod 1000)) by zlia. set (s := (ms - ms mod 1000) / 1000). assert (s = ms / 1000) as Es by (unfold s; zlia).
  rewrite (Z.rem_mod_nonneg s) by zlia. rewrite (Z.quot_div_nonneg (s - s mod 60)) by zlia. set (mi := (s - s mod 60) / 60). assert (mi = ms / 60000) as Em by (unfold mi; rewrite Es; zlia).
  rewrite (Z.rem_mod_nonneg mi) by zlia. rewrite (Z.quot_div_nonneg (mi - mi mod 60)) by zlia. assert ((mi - mi mod 60) / 60 = ms / 3600000) as -> by (rewrite Em; zlia).
  match goal with |- context [GetYearFromDays ?l c] => destruct (GetYearFromDays_spec l c Hc) as (c' & y & m & d & R & Hc' & E & _) end; [cbn; unfold day; zlia|].
  exists c'. split; [|done]. rewrite R. unfold fields_of. cbv zeta. change (_ !!! DAYS) with day in E. fold ms day. rewrite E, Es, Em. done.
Qed.

(** Whatever times have been converted before, TransferTimeToDate gives the
    fields of its argument: the cache in the static members never shows. *)
Theorem dateutils_cache_transparent (times : list Z) :
  Forall time_ok times ->
  (run_ops (fun timeMs => TransferTimeToDate timeMs (replicate DATE_LENGTH 0)) times (mkCache false 0 0 0 0)).1 = (fun timeMs => Ok (fields_of timeMs 0)) <$> times.
Proof.
  assert (cache_ok (mkCache false 0 0 0 0)) as Hc by done. revert Hc. generalize (mkCache false 0 0 0 0). induction times as [|t times IH]; intros c Hc Hts; [done|].
  apply list.Forall_cons in Hts as [Ht Hts]. cbn [run_ops]. destruct (TransferTimeToDate_spec t (replicate DATE_LENGTH 0) c eq_refl Hc Ht) as (c' & -> & Hc').
  specialize (IH c' Hc' Hts). destruct (run_ops _ times c'). simpl in *. by rewrite IH.
Qed.

Lemma dateutils_cache_transparent_witness :
  (run_ops (fun timeMs => TransferTimeToDate timeMs (replicate DATE_LENGTH 0)) [951782400000; 951868799999; -1] (mkCache false 0 0 0 0)).1 =
    [Ok [2000; 1; 29; 0; 0; 0; 0; 2; 0]; Ok [2000; 1; 29; 23; 59; 59; 999; 2; 0]; Ok [1969; 11; 31; 23; 59; 59; 999; 3; 0]].
Proof. rewrite dateutils_cache_transparent; [vm_compute; reflexivity|]. repeat constructor; vm_compute; intros [=]. Defined.

(** C27: The date of a day: the loop-free computation of GetYearFromDays gives the
    one valid date whose number in the calendar is the day; the calendar counts
    365 or 366 days for each year and the year 1970 starts with day 0. *)
Theorem dateutils_civil_date (n y m d : Z) :
  civil_from_days n = (y, m, d) ->
  (valid_date y m d /\ day_number y m d = n) /\
  (forall y' m' d', valid_date y' m' d' -> day_number y' m' d' = n -> (y', m', d') = (y, m, d)) /\
  GetDaysFromYear 1970 = 0 /\ (forall z, GetDaysFromYear (z + 1) = GetDaysFromYear z + GetDaysInYear z).
Proof.
  intros E. pose proof (civil_date n y m d E) as [Hv Hn]. split; [done|]. split; [|split; [done|exact year_length]].
  intros y' m' d' Hv' Hn'. by apply day_number_inj; [..|rewrite Hn, Hn'].
Qed.

Lemma dateutils_civil_date_witness : valid_date 2024 1 29 /\ day_number 2024 1 29 = 19782.
Proof. exact (proj1 (dateutils_civil_date 19782 2024 1 29 eq_refl)). Defined.

End DateUtils.
