(* ===== verification/JSDate.v ===== *)
(** * JSDate: class JSDate of js_date.h and js_date.cpp, the operations of
    builtins_date.cpp and the macros of ecma_macros.h that define its getters
    and setters, GetLocalOffsetFromOS of platform/unix/time.cpp.

    A date object holds a time value, a double.  The abstract operations of the
    language standard (MakeTime, MakeDay, MakeDate, TimeClip) compute on
    doubles; the getters and setters convert to 64-bit integers, split the time
    into fields and put fields together.  An overflow of a 64-bit integer and a
    cast of a double that does not fit are [Fault].

    The time zone of the operating system is a parameter: localtime_r gives
    tm_gmtoff, the seconds east of Greenwich, for a number of seconds since 1970,
    or a null pointer.  ToNumber, which may call methods of its argument, is a
    parameter too.

    The state of a date object is its time value beside the static members of
    DateUtils. *)
From S2P Require Import Prelude TaggedValue Double DateUtils.
Import Double DateUtils.
Local Open Scope Z_scope.

Module JSDate.

Definition MS_PER_HOUR : Z := 3600 * 1000.
Definition MS_PER_MINUTE : Z := 60000.
Definition MIN_PER_HOUR : Z := 60.
Definition MONTH_PER_YEAR : Z := 12.
Definition MOUTH_PER_YEAR : Z := 12.
Definition HUNDRED : Z := 100.
Definition NINETEEN_HUNDRED_YEAR : Z := 1900.
Definition THOUSAND : Z := 1000.
Definition MAX_TIME_IN_MS : Z := 864000000 * 10000000.
Definition CODE_FLAG : Z := 0x0F.
Definition CODE_4_BIT : Z := 4.
Definition CODE_SET_DATE : Z := 0x32.
Definition CODE_SET_MILLISECONDS : Z := 0x76.
Definition CODE_SET_SECONDS : Z := 0x75.
Definition CODE_SET_MINUTES : Z := 0x74.
Definition CODE_SET_HOURS : Z := 0x73.
Definition CODE_SET_MONTH : Z := 0x31.
Definition CODE_SET_FULL_YEAR : Z := 0x30.
Definition CONSTRUCTOR_MAX_LENGTH : nat := 7.

(** The result of 64-bit signed arithmetic. *)
Definition int64 {S} (z : Z) : M S Z := if (- 2 ^ 63 <=? z) && (z <? 2 ^ 63) then mret z else fault.

(** ** The operations of the standard *)

Definition MakeTime (hour min sec ms : dbl) : dbl :=
  if isfinite hour && isfinite min && isfinite sec && isfinite ms then
    let hourInteger := TruncateDouble hour in
    let minInteger := TruncateDouble min in
    let secInteger := TruncateDouble sec in
    let msInteger := TruncateDouble ms in
    dadd (dadd (dadd (dmul hourInteger (double_of_int MS_PER_HOUR)) (dmul minInteger (double_of_int MS_PER_MINUTE))) (dmul secInteger (double_of_int MS_PER_SECOND))) msInteger
  else DNaN.

(** DateUtils::GetDaysFromYear; the largest sum on the way is checked. *)
Definition days_from_year {S} (year : Z) : M S Z :=
  int64 (DAYS_IN_YEAR * (year - 1970) + FloorDiv (year - 1969) LEAP_NUMBER_0);;
  mret (GetDaysFromYear year).

Definition MakeDay {S} (year month date : dbl) : M S dbl :=
  if isfinite year && isfinite month && isfinite date then
    let yearInteger := TruncateDouble year in
    let monthInteger := TruncateDouble month in
    y ← int64_of_double yearInteger;
    dy ← int64_of_double (ddiv monthInteger (double_of_int MOUTH_PER_YEAR));
    y ← int64 (y + dy);
    m ← int64_of_double monthInteger;
    let m := Z.rem m MOUTH_PER_YEAR in
    y ← (if m <? 0 then int64 (y - 1) else mret y);
    let m := if m <? 0 then m + MOUTH_PER_YEAR else m in
    days ← days_from_year y;
    leapYear ← int64_of_double year;
    let days := days + DAYS_FROM_MONTH (IsLeap leapYear) m in
    mret (dadd (double_of_int64 (days - 1)) (TruncateDouble date))
  else mret DNaN.

Definition MakeDate (day time : dbl) : dbl :=
  if isfinite day && isfinite time then dadd time (dmul day (double_of_int MS_PER_DAY)) else DNaN.

Definition TimeClip (time : dbl) : dbl :=
  if double_leb (double_of_int64 (- MAX_TIME_IN_MS)) time && double_leb time (double_of_int64 MAX_TIME_IN_MS) then TruncateDouble time else DNaN.

Section zone.
(** localtime_r: tm_gmtoff, or nullptr. *)
Context (localtime_r : Z -> option Z).

Definition GetLocalOffsetFromOS (timeMs : Z) (isLocal : bool) : Z :=
  if negb isLocal then 0
  else
    let timeMs := Z.quot timeMs THOUSAND in
    match localtime_r timeMs with
    | None => 0
    | Some tm_gmtoff => Z.quot tm_gmtoff SEC_PER_MINUTE
    end.

Definition LocalTime {S} (timeMs : dbl) : M S dbl :=
  t ← int64_of_double timeMs;
  mret (dadd timeMs (double_of_int64 (GetLocalOffsetFromOS t true))).

Definition UTCTime {S} (timeMs : dbl) : M S dbl :=
  t ← int64_of_double timeMs;
  mret (dadd timeMs (dneg (double_of_int64 (GetLocalOffsetFromOS t false)))).

(** ** Fields *)

Definition GetDateValues (timeMs : dbl) (date : list Z) (isLocal : bool) : M Cache (list Z) :=
  timeMsInt ← int64_of_double timeMs;
  let tz := if isLocal then GetLocalOffsetFromOS timeMsInt isLocal else 0 in
  timeMsInt ← (if isLocal then int64 (timeMsInt + tz * MS_PER_SECOND * SEC_PER_MINUTE) else mret timeMsInt);
  date ← TransferTimeToDate timeMsInt date;
  mret (<[TIMEZONE := - tz]> date).

Definition GetDateValue (timeMs : dbl) (code : nat) (isLocal : bool) : M Cache dbl :=
  if isnan timeMs then mret DNaN
  else
    date ← GetDateValues timeMs (replicate DATE_LENGTH 0) isLocal;
    mret (double_of_int64 (date !!! code)).

(** SetDateValues(const std::array<int64_t, DATE_LENGTH> *date, bool isLocal). *)
Definition SetDateValues {S} (date : list Z) (isLocal : bool) : M S dbl :=
  let month := Mod (date !!! MONTH) MONTH_PER_YEAR in
  dm ← int64 (date !!! MONTH - month);
  year ← int64 (date !!! YEAR + Z.quot dm MONTH_PER_YEAR);
  days ← days_from_year year;
  days ← int64 (days + DAYS_FROM_MONTH (IsLeap year) month);
  dd ← int64 (date !!! DAYS - 1);
  days ← int64 (days + dd);
  t ← int64 (date !!! HOUR * MIN_PER_HOUR);
  t ← int64 (t + date !!! MIN);
  t ← int64 (t * SEC_PER_MINUTE);
  t ← int64 (t + date !!! SEC);
  t ← int64 (t * MS_PER_SECOND);
  millisecond ← int64 (t + date !!! MS);
  t ← int64 (days * MS_PER_DAY);
  result ← int64 (t + millisecond);
  result ← (if isLocal then
              let offset := GetLocalOffsetFromOS result isLocal * SEC_PER_MINUTE * MS_PER_SECOND in
              int64 (result - offset)
            else mret result);
  mret (TimeClip (double_of_int64 result)).

(** SetDateValues(int64_t year, int64_t month, int64_t day). *)
Definition SetDateValues3 {S} (year month day : Z) : M S dbl :=
  let year := if (0 <=? year) && (year <? HUNDRED) then year + NINETEEN_HUNDRED_YEAR else year in
  let m := Mod month MONTH_PER_YEAR in
  dm ← int64 (month - m);
  y ← int64 (year + Z.quot dm MONTH_PER_YEAR);
  d ← days_from_year y;
  d ← int64 (d + (DAYS_FROM_MONTH (IsLeap y) m + day - 1));
  result ← int64 (d * MS_PER_DAY);
  let offset := GetLocalOffsetFromOS result true * SEC_PER_MINUTE * MS_PER_SECOND in
  result ← int64 (result - offset);
  mret (TimeClip (double_of_int64 result)).

(** ** Getters and setters *)

(** JSTaggedValue::ToNumber. *)
Context (ToNumber : JSTaggedValue -> ErrorFlag + dbl).

Definition to_number {S} (v : JSTaggedValue) : M S dbl :=
  match ToNumber v with
  | inl e => throw e
  | inr d => mret d
  end.

(** The loop over the arguments; [None] when one is a NaN. *)
Fixpoint set_fields (argv : list JSTaggedValue) (i : nat) (date : list Z) : M Cache (option (list Z)) :=
  match argv with
  | [] => mret (Some date)
  | value :: argv =>
      temp ← to_number value;
      if isnan temp then mret None
      else
        v ← int64_of_double (TruncateDouble temp);
        set_fields argv (S i) (<[i := v]> date)
  end.

Definition SetDateValue (timeMs : dbl) (argv : list JSTaggedValue) (code : Z) (isLocal : bool) : M Cache dbl :=
  if lenZ argv =? 0 then mret DNaN
  else
    let firstValue := Z.land code CODE_FLAG in
    let endValue := Z.land (Z.shiftr code CODE_4_BIT) CODE_FLAG in
    let count := endValue - firstValue in
    let count := if lenZ argv <? count then lenZ argv else count in
    date ← (if isnan timeMs && (firstValue =? 0) then GetDateValues (DZero false) (replicate DATE_LENGTH 0) false
            else GetDateValues timeMs (replicate DATE_LENGTH 0) isLocal);
    date ← set_fields (take (Z.to_nat count) argv) (Z.to_nat firstValue) date;
    match date with
    | None => mret DNaN
    | Some date => SetDateValues date isLocal
    end.

(** A date object and the static members. *)
Record DateState : Type := mkDateState { cache : Cache; TimeValue : dbl }.

Definition on_cache {A} (m : M Cache A) : M DateState A := zoom cache (fun c s => mkDateState c (TimeValue s)) m.

Definition SetTimeValue (v : dbl) : M DateState unit := modify (fun s => mkDateState (cache s) v).

(** SET_DATE_VALUE(name, code, isLocal): this must be a date. *)
Definition SET_DATE_VALUE (code : Z) (isLocal : bool) (isDate : bool) (argv : list JSTaggedValue) : M DateState dbl :=
  if negb isDate then throw TYPE_ERROR
  else
    s ← get;
    result ← on_cache (SetDateValue (TimeValue s) argv code isLocal);
    SetTimeValue result;;
    mret result.

(** GET_DATE_VALUE(name, code, isLocal). *)
Definition GET_DATE_VALUE (code : nat) (isLocal : bool) (isDate : bool) : M DateState dbl :=
  if negb isDate then throw TYPE_ERROR
  else
    s ← get;
    on_cache (GetDateValue (TimeValue s) code isLocal).

(** BuiltinsDate::SetTime on the argument, which is undefined when there is none. *)
Definition SetTime (isDate : bool) (argv : list JSTaggedValue) : M DateState dbl :=
  if negb isDate then throw TYPE_ERROR
  else
    number ← to_number (default VUndefined (argv !! 0%nat));
    let value := TimeClip number in
    SetTimeValue value;;
    mret value.

(** BuiltinsDate::ExtractDateFields: the loop stops at a number that is not
    finite or too large for a time. *)
Fixpoint extract_fields (argv : list JSTaggedValue) (i : nat) (fields : list Z) : M Cache (option (list Z)) :=
  match argv with
  | [] => mret (Some fields)
  | value :: argv =>
      res ← to_number value;
      let temp := TimeClip res in
      if isnan temp || negb (isfinite temp) then mret None
      else
        v ← int64_of_double temp;
        let v := if (i =? 0)%nat && ((0 <=? v) && (v <? HUNDRED)) then v + NINETEEN_HUNDRED_YEAR else v in
        extract_fields argv (S i) (<[i := v]> fields)
  end.

Definition ExtractDateFields (argv : list JSTaggedValue) : M Cache dbl :=
  fields ← extract_fields (take CONSTRUCTOR_MAX_LENGTH argv) 0 [0; 0; 1; 0; 0; 0; 0; 0; 0];
  match fields with
  | Some fields => SetDateValues fields true
  | None => mret DNaN
  end.

(** The year of JSDate::UTC; a tagged int is its own integer part. *)
Definition utc_year (yearValue : dbl) : dbl :=
  let year := if isfinite yearValue then TruncateDouble yearValue else yearValue in
  if double_leb (DZero false) year && double_leb year (double_of_int (HUNDRED - 1)) then dadd year (double_of_int NINETEEN_HUNDRED_YEAR) else year.

Definition optional_arg {S} (argv : list JSTaggedValue) (index : nat) (def : dbl) : M S dbl :=
  match argv !! index with
  | Some value => to_number value
  | None => mret def
  end.

Definition UTC {S} (argv : list JSTaggedValue) : M S dbl :=
  yearValue ← to_number (default VUndefined (argv !! 0%nat));
  let year := utc_year yearValue in
  month ← optional_arg argv 1 (DZero false);
  date ← optional_arg argv 2 (double_of_int 1);
  hours ← optional_arg argv 3 (DZero false);
  minutes ← optional_arg argv 4 (DZero false);
  seconds ← optional_arg argv 5 (DZero false);
  ms ← optional_arg argv 6 (DZero false);
  day ← MakeDay year month date;
  let time := MakeTime hours minutes seconds ms in
  mret (TimeClip (MakeDate day time)).

End zone.

(** ** The time of fields *)

(** The day of a month that is counted from 0 in a year and may be any number. *)
Definition make_day (y m d : Z) : Z := day_number (y + m / 12) (m mod 12) d.

Definition time_of (date : list Z) : Z :=
  make_day (date !!! YEAR) (date !!! MONTH) (date !!! DAYS) * 86400000 + date !!! HOUR * 3600000 + date !!! MIN * 60000 + date !!! SEC * 1000 + date !!! MS.

(** The time value of a number of milliseconds. *)
Definition clip (t : Z) : dbl := if Z.abs t <=? 8640000000000000 then double_of_int t else DNaN.

Lemma int64_run {S} (z : Z) (s : S) : - 2 ^ 63 <= z < 2 ^ 63 -> int64 z s = (Ok z, s).
Proof. intros H. unfold int64. by zb. Qed.

Lemma TimeClip_int (z : Z) : Z.abs z <= 2 ^ 53 -> TimeClip (double_of_int z) = clip z.
Proof.
  intros Hz. unfold TimeClip, MAX_TIME_IN_MS, clip. rewrite !double_of_int64_int, !leb_int, TruncateDouble_int by lia.
  destruct (Z.leb_spec (- (864000000 * 10000000)) z), (Z.leb_spec z (864000000 * 10000000)), (Z.leb_spec (Z.abs z) 8640000000000000); simpl; (done || lia).
Qed.

Lemma TimeClip_int64 (z : Z) : - 2 ^ 63 <= z < 2 ^ 63 -> TimeClip (double_of_int64 z) = clip z.
Proof.
  intros Hz. destruct (Z_le_gt_dec (Z.abs z) (2 ^ 53)) as [Hs|Hb]; [by rewrite double_of_int64_int, TimeClip_int|].
  destruct (double_of_int64_large z ltac:(lia)) as (k & Hk & ->). unfold TimeClip, MAX_TIME_IN_MS, clip. rewrite !double_of_int64_int by lia. rewrite (proj2 (Z.leb_gt (Z.abs z) _)) by lia.
  destruct (double_of_int_cases (864000000 * 10000000)) as [[? _]|[_ ->]]; [lia|]. destruct (double_of_int_cases (- (864000000 * 10000000))) as [[? _]|[_ ->]]; [lia|].
  assert (0 < 2 ^ 1074) as HU by (apply Z.pow_pos_nonneg; lia). unfold double_leb, double_ltb, double_eqb. cbn [dkey]. revert Hk HU. generalize (2 ^ 1074). intros u Hk HU. change (0 <? 0) with false. change (0 =? 0) with true. cbn [orb andb].
  destruct (Z.ltb_spec z 0).
  - rewrite (proj2 (Z.ltb_ge (- (864000000 * 10000000) * u) (- k))), (proj2 (Z.eqb_neq (- (864000000 * 10000000) * u) (- k))) by nia. done.
  - rewrite (proj2 (Z.ltb_ge k (864000000 * 10000000 * u))), (proj2 (Z.eqb_neq k (864000000 * 10000000 * u))) by nia. by rewrite andb_false_r.
Qed.

Lemma MakeTime_int (h mi s ms : Z) : Z.abs h <= 2 ^ 30 -> Z.abs mi <= 2 ^ 30 -> Z.abs s <= 2 ^ 30 -> Z.abs ms <= 2 ^ 30 ->
  MakeTime (double_of_int h) (double_of_int mi) (double_of_int s) (double_of_int ms) = double_of_int (h * 3600000 + mi * 60000 + s * 1000 + ms).
Proof.
  intros Hh Hmi Hs Hms. unfold MakeTime, MS_PER_HOUR, MS_PER_MINUTE, MS_PER_SECOND. rewrite !isfinite_int, !TruncateDouble_int. cbn [andb].
  change (3600 * 1000) with 3600000. rewrite !dmul_int by lia. by rewrite !dadd_int by lia.
Qed.

Lemma MakeDate_int (day t : Z) : Z.abs day <= 2 ^ 26 -> Z.abs t <= 2 ^ 51 -> MakeDate (double_of_int day) (double_of_int t) = double_of_int (day * 86400000 + t).
Proof.
  intros Hd Ht. unfold MakeDate, MS_PER_DAY. rewrite !isfinite_int. cbn [andb]. rewrite dmul_int by lia. rewrite dadd_int by lia. f_equal. lia.
Qed.

Lemma GetDaysFromYear_bound (y b : Z) : 10000 <= b -> Z.abs y <= b -> Z.abs (GetDaysFromYear y) <= 367 * b + 800000.
Proof. intros Hb Hy. rewrite GetDaysFromYear_spec. zlia. Qed.

Lemma days_from_year_run {S} (y : Z) (s : S) : Z.abs y <= 2 ^ 50 -> days_from_year y s = (Ok (GetDaysFromYear y), s).
Proof. intros H. unfold days_from_year, DAYS_IN_YEAR, LEAP_NUMBER_0. rewrite FloorDiv_spec by lia. by mstep by (apply int64_run; zlia). Qed.

Lemma month_bound (l : bool) (m : Z) : 0 <= DAYS_FROM_MONTH l m <= 366.
Proof.
  unfold DAYS_FROM_MONTH. generalize (Z.to_nat m). intros n. do 14 (destruct n as [|n]; [destruct l; simpl; lia|]). destruct l; simpl; destruct n; lia.
Qed.

(** C++ quotient and remainder by 12 brought to the floor. *)
Lemma month_norm (m : Z) : Z.quot m 12 + (if Z.rem m 12 <? 0 then -1 else 0) = m / 12 /\ (if Z.rem m 12 <? 0 then Z.rem m 12 + 12 else Z.rem m 12) = m mod 12.
Proof. pose proof (rem_cases m 12 ltac:(lia)) as [(H1 & H2 & H3)|(H1 & H2 & H3)]; zb; lia. Qed.

Lemma month_years {S} (m : Z) (s : S) : Z.abs m <= 2 ^ 40 -> int64_of_double (ddiv (double_of_int m) (double_of_int 12)) s = (Ok (Z.quot m 12), s).
Proof. intros H. unfold int64_of_double. rewrite ddiv_int by lia. assert (Z.abs (Z.quot m 12) <= 2 ^ 40) by zlia. by zb. Qed.

(** MakeDay takes the month lengths of the year it is called with. *)
Lemma MakeDay_int {S} (y m d : Z) (s : S) : Z.abs y <= 2 ^ 40 -> Z.abs m <= 2 ^ 40 -> Z.abs d <= 2 ^ 50 ->
  MakeDay (double_of_int y) (double_of_int m) (double_of_int d) s = (Ok (double_of_int (GetDaysFromYear (y + m / 12) + DAYS_FROM_MONTH (leap y) (m mod 12) + d - 1)), s).
Proof.
  intros Hy Hm Hd. unfold MakeDay, MOUTH_PER_YEAR. rewrite !isfinite_int, !TruncateDouble_int. cbn [andb]. pose proof (month_norm m) as [E1 E2].
  assert (Z.abs (Z.quot m 12) <= 2 ^ 40) as Hq by zlia.
  mstep by (apply int64_of_double_int; lia). mstep by (by apply month_years). mstep by (apply int64_run; lia). mstep by (apply int64_of_double_int; lia). rewrite E2.
  assert ((if Z.rem m 12 <? 0 then int64 (y + Z.quot m 12 - 1) else mret (y + Z.quot m 12)) s = (Ok (y + m / 12), s)) as Hs.
  { rewrite <- E1. destruct (Z.rem m 12 <? 0); [rewrite int64_run by lia|]; [do 2 f_equal; lia|]. by rewrite Z.add_0_r. }
  mstep with Hs. assert (Z.abs (m / 12) <= 2 ^ 40) as Hdiv by zlia. mstep by (apply days_from_year_run; lia). mstep by (apply int64_of_double_int; lia). rewrite IsLeap_spec.
  pose proof (GetDaysFromYear_bound (y + m / 12) (2 ^ 41) ltac:(lia) ltac:(lia)). pose proof (month_bound (leap y) (m mod 12)).
  rewrite double_of_int64_int, dadd_int by lia. unfold mret, M_ret. do 3 f_equal. lia.
Qed.

Lemma month_floor (m b : Z) : Z.abs m <= b -> 0 <= m mod 12 < 12 /\ Z.quot (m - m mod 12) 12 = m / 12 /\ Z.abs (m / 12) <= b.
Proof. intros H. split_and!; zlia. Qed.

(** Fields that 64-bit integers can be computed with. *)
Definition fields_small (date : list Z) : Prop :=
  Z.abs (date !!! YEAR) <= 2 ^ 26 /\ Z.abs (date !!! MONTH) <= 2 ^ 26 /\ Z.abs (date !!! DAYS) <= 2 ^ 33 /\ Z.abs (date !!! HOUR) <= 2 ^ 37 /\
  Z.abs (date !!! MIN) <= 2 ^ 43 /\ Z.abs (date !!! SEC) <= 2 ^ 49 /\ Z.abs (date !!! MS) <= 2 ^ 59.

(** Places are less than two days away from Greenwich. *)
Definition zone_ok (zone : Z -> option Z) : Prop := forall t g, zone t = Some g -> Z.abs g <= 172800.

Lemma offset_bound (zone : Z -> option Z) (t : Z) (isLocal : bool) : zone_ok zone -> Z.abs (GetLocalOffsetFromOS zone t isLocal) <= 2880.
Proof. intros H. unfold GetLocalOffsetFromOS, THOUSAND, SEC_PER_MINUTE. destruct isLocal; cbn [negb]; [|lia]. destruct (zone (Z.quot t 1000)) as [g|] eqn:E; [|lia]. specialize (H _ _ E). zlia. Qed.

Lemma SetDateValues_run {S} (zone : Z -> option Z) (date : list Z) (isLocal : bool) (s : S) : fields_small date -> zone_ok zone ->
  SetDateValues zone date isLocal s = (Ok (clip (time_of date - GetLocalOffsetFromOS zone (time_of date) isLocal * 60000)), s).
Proof.
  intros (Hy & Hm & Hd & Hh & Hmi & Hs & Hms) Hz. unfold SetDateValues, MONTH_PER_YEAR, MIN_PER_HOUR, MS_PER_SECOND, SEC_PER_MINUTE, MS_PER_DAY. rewrite !Mod_spec by lia.
  unfold time_of, make_day, day_number. set (y := date !!! YEAR) in *. set (m := date !!! MONTH) in *. set (d := date !!! DAYS) in *. set (h := date !!! HOUR) in *. set (mi := date !!! MIN) in *. set (sec := date !!! SEC) in *. set (ms := date !!! MS) in *.
  clearbody y m d h mi sec ms. destruct (month_floor m (2 ^ 26) Hm) as (Hmod & Eq & Hdiv). mstep by (apply int64_run; lia). rewrite Eq. mstep by (apply int64_run; lia). mstep by (apply days_from_year_run; lia). rewrite IsLeap_spec.
  pose proof (GetDaysFromYear_bound (y + m / 12) (2 ^ 27) ltac:(lia) ltac:(lia)) as Hg. pose proof (month_bound (leap (y + m / 12)) (m mod 12)) as Hmb.
  generalize dependent (GetDaysFromYear (y + m / 12)). generalize dependent (DAYS_FROM_MONTH (leap (y + m / 12)) (m mod 12)). intros dm Hdm g Hg.
  do 11 (mstep by (apply int64_run; lia)). set (t := (g + dm + (d - 1)) * 86400000 + (((h * 60 + mi) * 60 + sec) * 1000 + ms)).
  replace ((g + dm + d - 1) * 86400000 + h * 3600000 + mi * 60000 + sec * 1000 + ms) with t by (unfold t; ring). pose proof (offset_bound zone t isLocal Hz) as Ho. assert (Z.abs t < 2 ^ 63 - 2 ^ 40) as Ht by (unfold t; lia). clearbody t. clear - Ho Ht.
  destruct isLocal.
  - mstep by (apply int64_run; lia). unfold mret, M_ret. rewrite TimeClip_int64 by lia. do 3 f_equal. lia.
  - mstep. unfold mret, M_ret. rewrite TimeClip_int64 by lia. cbn [GetLocalOffsetFromOS negb]. do 3 f_equal. lia.
Qed.
(** ** Reading the fields *)

Definition MAX_TIME : Z := 8640000000000000.

Lemma GetDateValues_run (zone : Z -> option Z) (t : Z) (isLocal : bool) (c : Cache) : Z.abs t <= MAX_TIME -> zone_ok zone -> cache_ok c ->
  let o := GetLocalOffsetFromOS zone t isLocal in
  exists c', GetDateValues zone (double_of_int t) (replicate DATE_LENGTH 0) isLocal c = (Ok (fields_of (t + o * 60000) (- o)), c') /\ cache_ok c'.
Proof.
  intros Ht Hz Hc o. unfold MAX_TIME in Ht. pose proof (offset_bound zone t isLocal Hz : Z.abs o <= 2880) as Ho. unfold GetDateValues, MS_PER_SECOND, SEC_PER_MINUTE. mstep by (apply int64_of_double_int; lia).
  assert ((if isLocal then GetLocalOffsetFromOS zone t isLocal else 0) = o) as -> by (by destruct isLocal).
  assert ((if isLocal then int64 (t + o * 1000 * 60) else mret t) c = (Ok (t + o * 60000), c)) as Hs.
  { destruct isLocal; [rewrite int64_run by lia; do 2 f_equal; lia|]. unfold mret, M_ret. do 2 f_equal. cbn in o. lia. }
  mstep with Hs. destruct (TransferTimeToDate_spec (t + o * 60000) (replicate DATE_LENGTH 0) c eq_refl Hc ltac:(unfold time_ok; lia)) as (c' & R & Hc'). mstep with R.
  exists c'. split; [|done]. unfold fields_of. by destruct (civil_from_days _) as [[y m] d].
Qed.

(** The fields put together again are the time. *)
Lemma time_of_fields (t z : Z) : time_of (fields_of t z) = t.
Proof.
  unfold time_of, fields_of. destruct (civil_from_days (t / 86400000)) as [[y m] d] eqn:E. destruct (civil_date _ _ _ _ E) as [[Hm _] Hn]. cbn [lookup_total list_lookup_total YEAR MONTH DAYS HOUR MIN SEC MS].
  unfold make_day. rewrite Z.div_small, Z.mod_small, Z.add_0_r, Hn by lia. clear. zlia.
Qed.
Lemma small_year (y m d n : Z) : valid_date y m d -> day_number y m d = n -> - 2 ^ 31 <= n < 2 ^ 31 -> Z.abs y <= 2 ^ 24.
Proof. intros H E Hn. pose proof (day_in_year _ _ _ H) as Hy. rewrite E, GetDaysFromYear_spec in Hy. unfold GetDaysInYear, DAYS_IN_YEAR in Hy. destruct (IsLeap y); zlia. Qed.

Lemma fields_of_small (t z : Z) : time_ok t -> fields_small (fields_of t z).
Proof.
  intros Ht. unfold time_ok in Ht. unfold fields_small, fields_of. destruct (civil_from_days (t / 86400000)) as [[y m] d] eqn:E. destruct (civil_date _ _ _ _ E) as [Hv Hn]. cbn [lookup_total list_lookup_total YEAR MONTH DAYS HOUR MIN SEC MS].
  pose proof (small_year _ _ _ _ Hv Hn ltac:(zlia)). destruct Hv as [Hm Hd]. pose proof (month_length_28 y m Hm).
  assert (0 <= t mod 86400000 < 86400000) as Hr by (apply Z.mod_pos_bound; lia). generalize dependent (t mod 86400000). intros r Hr. split_and!; zlia.
Qed.

(** A date read and written back is the same time, in Greenwich and in a zone
    whose offset is the same at the local time taken as a time. *)
Theorem date_fields_roundtrip (zone : Z -> option Z) (t : Z) (isLocal : bool) (c : Cache) :
  Z.abs t <= MAX_TIME -> zone_ok zone -> cache_ok c ->
  GetLocalOffsetFromOS zone (t + GetLocalOffsetFromOS zone t isLocal * 60000) isLocal = GetLocalOffsetFromOS zone t isLocal ->
  exists c', (GetDateValues zone (double_of_int t) (replicate DATE_LENGTH 0) isLocal ≫= fun date => SetDateValues zone date isLocal) c = (Ok (double_of_int t), c').
Proof.
  intros Ht Hz Hc Ho. destruct (GetDateValues_run zone t isLocal c Ht Hz Hc) as (c' & R & _). cbv zeta in R. exists c'. mstep with R. pose proof (offset_bound zone t isLocal Hz).
  unfold MAX_TIME in Ht. rewrite SetDateValues_run by (done || (apply fields_of_small; unfold time_ok; lia)). rewrite time_of_fields, Ho. unfold clip. replace (t + _ - _) with t by lia. by zb.
Qed.

Lemma date_fields_roundtrip_witness :
  exists c', (GetDateValues (fun _ => Some 28800) (double_of_int 951782400000) (replicate DATE_LENGTH 0) true ≫= fun date => SetDateValues (fun _ => Some 28800) date true) (mkCache false 0 0 0 0) = (Ok (double_of_int 951782400000), c').
Proof. apply date_fields_roundtrip; [vm_compute; intros [=]|intros t g [= <-]; lia|intros [=]|reflexivity]. Defined.

(** ** Setters *)

(** [vs] written over [date] from [i]. *)
Definition overwrite (date : list Z) (i : nat) (vs : list Z) : list Z := take i date ++ vs ++ drop (i + length vs) date.

Definition is_number (ToNumber : JSTaggedValue -> ErrorFlag + dbl) (a : JSTaggedValue) (v : Z) : Prop := ToNumber a = inr (double_of_int v) /\ - 2 ^ 63 <= v < 2 ^ 63.

Lemma overwrite_cons (date : list Z) (i : nat) (v : Z) (vs : list Z) : (i < length date)%nat -> overwrite (<[i := v]> date) (S i) vs = overwrite date i (v :: vs).
Proof.
  intros Hi. unfold overwrite. rewrite (take_S_r _ _ v) by (rewrite list_lookup_insert_eq by done; done). rewrite take_insert_ge by lia. rewrite drop_insert_lt by (simpl; lia). rewrite <- app_assoc. simpl. by rewrite Nat.add_succ_r.
Qed.

Lemma set_fields_run (ToNumber : JSTaggedValue -> ErrorFlag + dbl) (argv : list JSTaggedValue) (vs : list Z) (i : nat) (date : list Z) (c : Cache) :
  Forall2 (is_number ToNumber) argv vs -> (i + length vs <= length date)%nat -> set_fields ToNumber argv i date c = (Ok (Some (overwrite date i vs)), c).
Proof.
  intros H. revert i date. induction H as [|a v argv vs [Ha Hv] _ IH]; intros i date Hl; cbn [set_fields].
  - unfold overwrite. simpl. rewrite Nat.add_0_r, take_drop. done.
  - simpl in Hl. unfold to_number. rewrite Ha. mstep. rewrite isnan_int, TruncateDouble_int. mstep by (by apply int64_of_double_int). rewrite IH by (rewrite length_insert; lia). rewrite overwrite_cons by lia. done.
Qed.
Definition setter_codes : list Z := [CODE_SET_DATE; CODE_SET_MILLISECONDS; CODE_SET_SECONDS; CODE_SET_MINUTES; CODE_SET_HOURS; CODE_SET_MONTH; CODE_SET_FULL_YEAR].

(** The first field of a setter and the number of its fields. *)
Definition first_field (code : Z) : nat := Z.to_nat (Z.land code 15).
Definition field_count (code : Z) : nat := Z.to_nat (Z.shiftr code 4) - first_field code.

Lemma setter_range (code : Z) : code ∈ setter_codes ->
  Z.land (Z.shiftr code CODE_4_BIT) CODE_FLAG - Z.land code CODE_FLAG = Z.of_nat (field_count code) /\ Z.to_nat (Z.land code CODE_FLAG) = first_field code /\ (first_field code + field_count code <= 9)%nat.
Proof. unfold setter_codes. intros H. repeat (apply elem_of_cons in H as [-> |H]; [vm_compute; split_and!; (done || lia)|]). by apply elem_of_nil in H. Qed.

Lemma length_fields_of (t z : Z) : length (fields_of t z) = 9%nat.
Proof. unfold fields_of. by destruct (civil_from_days _) as [[y m] d]. Qed.

Lemma SetDateValue_run (zone : Z -> option Z) (ToNumber : JSTaggedValue -> ErrorFlag + dbl) (t code : Z) (isLocal : bool) (argv : list JSTaggedValue) (vs : list Z) (c : Cache) :
  Z.abs t <= MAX_TIME -> zone_ok zone -> cache_ok c -> code ∈ setter_codes -> argv <> [] -> Forall2 (is_number ToNumber) argv vs ->
  let o := GetLocalOffsetFromOS zone t isLocal in
  let date := overwrite (fields_of (t + o * 60000) (- o)) (first_field code) (take (field_count code) vs) in
  fields_small date ->
  exists c', SetDateValue zone ToNumber (double_of_int t) argv code isLocal c = (Ok (clip (time_of date - GetLocalOffsetFromOS zone (time_of date) isLocal * 60000)), c') /\ cache_ok c'.
Proof.
  intros Ht Hz Hc Hcode Hne Hvs o date Hsm. unfold SetDateValue. destruct (setter_range code Hcode) as (-> & -> & H9). assert (0 < lenZ argv) as Hl by (destruct argv; [done|lenz; lia]).
  rewrite (proj2 (Z.eqb_neq (lenZ argv) 0)) by lia. rewrite isnan_int. cbn [andb]. destruct (GetDateValues_run zone t isLocal c Ht Hz Hc) as (c' & R & Hc'). fold o in R. exists c'. split; [|done]. mstep with R.
  assert (take (Z.to_nat (if lenZ argv <? Z.of_nat (field_count code) then lenZ argv else Z.of_nat (field_count code))) argv = take (field_count code) argv) as ->.
  { unfold lenZ. destruct (Z.ltb_spec (Z.of_nat (length argv)) (Z.of_nat (field_count code))); [|by rewrite Nat2Z.id]. rewrite Nat2Z.id, !take_ge by lia. done. }
  mstep by (apply (set_fields_run _ _ (take (field_count code) vs)); [by apply Forall2_take|rewrite length_fields_of, length_take; lia]). fold date. by rewrite SetDateValues_run.
Qed.

(** C17: A setter on a valid date, with arguments that ToNumber turns into
    integral numbers of 64 bits, writes them over the fields from its first one
    and stores the time of the result, clipped, which may be any fields within
    the bounds of [fields_small] (2^26 years and months, 2^33 days, up to 2^59
    milliseconds): the thirteenth month is the first of the next year. *)
Theorem date_setter_spec (zone : Z -> option Z) (ToNumber : JSTaggedValue -> ErrorFlag + dbl) (t code : Z) (isLocal : bool) (argv : list JSTaggedValue) (vs : list Z) (s : DateState) :
  TimeValue s = double_of_int t -> Z.abs t <= MAX_TIME -> zone_ok zone -> cache_ok (cache s) -> code ∈ setter_codes -> argv <> [] -> Forall2 (is_number ToNumber) argv vs ->
  let o := GetLocalOffsetFromOS zone t isLocal in
  let date := overwrite (fields_of (t + o * 60000) (- o)) (first_field code) (take (field_count code) vs) in
  let r := clip (time_of date - GetLocalOffsetFromOS zone (time_of date) isLocal * 60000) in
  fields_small date ->
  exists c', SET_DATE_VALUE zone ToNumber code isLocal true argv s = (Ok r, mkDateState c' r) /\ cache_ok c'.
Proof.
  intros Et Ht Hz Hc Hcode Hne Hvs o date r Hsm. destruct (SetDateValue_run zone ToNumber t code isLocal argv vs (cache s) Ht Hz Hc Hcode Hne Hvs Hsm) as (c' & R & Hc'). exists c'. split; [|done].
  unfold SET_DATE_VALUE. cbn [negb]. mstep. rewrite Et. unfold on_cache. mstep by (apply zoom_run, R). by mstep.
Qed.
(** ToNumber on tagged integers. *)
Definition int_number (v : JSTaggedValue) : ErrorFlag + dbl := match v with VInt z => inr (double_of_int z) | _ => inr DNaN end.

Lemma date_setter_spec_witness :
  exists c', SET_DATE_VALUE (fun _ => None) int_number CODE_SET_MONTH false true [VInt 13; VInt 29] (mkDateState (mkCache false 0 0 0 0) (double_of_int 1709164800000)) = (Ok (double_of_int 1740787200000), mkDateState c' (double_of_int 1740787200000)) /\ cache_ok c'.
Proof.
  apply (date_setter_spec (fun _ => None) int_number 1709164800000 CODE_SET_MONTH false [VInt 13; VInt 29] [13; 29] (mkDateState (mkCache false 0 0 0 0) (double_of_int 1709164800000))).
  - reflexivity.
  - vm_compute. intros [=].
  - intros t g [=].
  - intros [=].
  - apply (bool_decide_unpack _). vm_compute. exact I.
  - intros [=].
  - repeat constructor; lia.
  - vm_compute. split_and!; intros [=].
Defined.

(** Fields that are a date of the calendar and a time of the day. *)
Definition valid_fields (date : list Z) : Prop :=
  length date = DATE_LENGTH /\ valid_date (date !!! YEAR) (date !!! MONTH) (date !!! DAYS) /\ 0 <= date !!! HOUR < 24 /\ 0 <= date !!! MIN < 60 /\ 0 <= date !!! SEC < 60 /\ 0 <= date !!! MS < 1000.

Lemma fields_of_time (date : list Z) (z : Z) (k : nat) : valid_fields date -> (k < 7)%nat -> fields_of (time_of date) z !!! k = date !!! k.
Proof.
  intros (Hl & Hd & Hh & Hmi & Hs & Hms) Hk. unfold time_of, make_day. do 9 (destruct date as [|? date]; [done|]). destruct date; [|done]. cbn [lookup_total list_lookup_total YEAR MONTH DAYS HOUR MIN SEC MS] in *.
  pose proof Hd as [Hm _]. rewrite Z.div_small, Z.mod_small, Z.add_0_r by lia. set (n := day_number z0 z1 z2) in *. match goal with |- fields_of ?x _ !!! _ = _ => set (t := x) end.
  assert (t / 86400000 = n /\ t mod 86400000 = z3 * 3600000 + z4 * 60000 + z5 * 1000 + z6) as [Ed Er].
  { unfold t. split; [symmetry; apply (Z.div_unique _ _ _ (z3 * 3600000 + z4 * 60000 + z5 * 1000 + z6)); lia|symmetry; apply (Z.mod_unique _ _ n); lia]. }
  unfold fields_of. rewrite Ed, Er. destruct (civil_from_days n) as [[y m] d] eqn:E. destruct (civil_date _ _ _ _ E) as [Hv Hn]. pose proof (day_number_inj _ _ _ _ _ _ Hv Hd ltac:(done)) as Ei. injection Ei as -> -> ->.
  clear - Hh Hmi Hs Hms Hk. do 7 (destruct k as [|k]; [cbn [lookup_total list_lookup_total]; (done || zlia)|]). lia.
Qed.

Lemma valid_fields_small (date : list Z) : valid_fields date -> time_ok (time_of date) -> fields_small date.
Proof.
  intros (_ & Hd & Hh & Hmi & Hs & Hms). unfold time_ok, time_of, make_day, fields_small. pose proof Hd as [Hm Hday]. rewrite Z.div_small, Z.mod_small, Z.add_0_r by lia.
  remember (day_number (date !!! YEAR) (date !!! MONTH) (date !!! DAYS)) as n eqn:En. symmetry in En. pose proof (small_year _ _ _ n Hd En) as Hy. clear En. pose proof (month_length_28 (date !!! YEAR) (date !!! MONTH) Hm) as Hl. clear Hd.
  revert Hh Hmi Hs Hms Hm Hday Hy Hl. generalize (month_length (date !!! YEAR) (date !!! MONTH)) (date !!! YEAR) (date !!! MONTH) (date !!! DAYS) (date !!! HOUR) (date !!! MIN) (date !!! SEC) (date !!! MS). clear date.
  intros l y m d h mi s ms Hh Hmi Hs Hms Hm Hday Hy Hl Ht. assert (Z.abs y <= 2 ^ 24) by (apply Hy; lia). lia.
Qed.

Lemma valid_field_bound (date : list Z) (k : nat) : valid_fields date -> time_ok (time_of date) -> (k < 7)%nat -> Z.abs (date !!! k) <= 2 ^ 53.
Proof.
  intros Hv Ht Hk. pose proof (valid_fields_small _ Hv Ht) as (Hy & Hm & Hd & _). destruct Hv as (_ & _ & Hh & Hmi & Hs & Hms). unfold YEAR, MONTH, DAYS, HOUR, MIN, SEC, MS in *.
  do 7 (destruct k as [|k]; [lia|]). lia.
Qed.

(** After a setter whose result is a date of the calendar, the getters read its
    fields; the offset of the zone has to be the one that was used. *)
Theorem date_set_get (zone : Z -> option Z) (ToNumber : JSTaggedValue -> ErrorFlag + dbl) (t code : Z) (isLocal : bool) (argv : list JSTaggedValue) (vs : list Z) (s : DateState) (k : nat) :
  TimeValue s = double_of_int t -> Z.abs t <= MAX_TIME -> zone_ok zone -> cache_ok (cache s) -> code ∈ setter_codes -> argv <> [] -> Forall2 (is_number ToNumber) argv vs -> (k < 7)%nat ->
  let o := GetLocalOffsetFromOS zone t isLocal in
  let date := overwrite (fields_of (t + o * 60000) (- o)) (first_field code) (take (field_count code) vs) in
  let r := time_of date - GetLocalOffsetFromOS zone (time_of date) isLocal * 60000 in
  valid_fields date -> Z.abs r <= MAX_TIME -> GetLocalOffsetFromOS zone r isLocal = GetLocalOffsetFromOS zone (time_of date) isLocal ->
  exists s', (SET_DATE_VALUE zone ToNumber code isLocal true argv;; GET_DATE_VALUE zone k isLocal true) s = (Ok (double_of_int (date !!! k)), s').
Proof.
  intros Et Ht Hz Hc Hcode Hne Hvs Hk o date r Hv Hr Ho. pose proof (offset_bound zone (time_of date) isLocal Hz) as Hob. unfold MAX_TIME in Hr.
  assert (time_ok (time_of date)) as Htd by (unfold time_ok; lia). destruct (SetDateValue_run zone ToNumber t code isLocal argv vs (cache s) Ht Hz Hc Hcode Hne Hvs (valid_fields_small _ Hv Htd)) as (c' & R & Hc').
  fold o date r in R. unfold SET_DATE_VALUE, GET_DATE_VALUE. cbn [negb]. rewrite <- bind_assoc. mstep. rewrite Et. rewrite <- bind_assoc. unfold on_cache. mstep by (apply zoom_run, R). cbn [TimeValue cache]. rewrite <- bind_assoc. mstep. mstep. mstep.
  unfold clip. rewrite (proj2 (Z.leb_le (Z.abs r) _)) by lia. unfold GetDateValue. cbn [TimeValue cache]. rewrite isnan_int. destruct (GetDateValues_run zone r isLocal c' ltac:(done) Hz Hc') as (c'' & R' & _). cbv zeta in R'. rewrite Ho in R'.
  eexists. apply zoom_run. mstep with R'. replace (r + _) with (time_of date) by (unfold r; lia). rewrite fields_of_time by done. unfold mret, M_ret. rewrite double_of_int64_int; [reflexivity|].
  by apply valid_field_bound.
Qed.
Lemma date_set_get_witness :
  exists s', (SET_DATE_VALUE (fun _ => Some 28800) int_number CODE_SET_HOURS true true [VInt 7; VInt 30];; GET_DATE_VALUE (fun _ => Some 28800) MIN true true) (mkDateState (mkCache false 0 0 0 0) (double_of_int 1709164800000)) = (Ok (double_of_int 30), s').
Proof.
  apply (date_set_get (fun _ => Some 28800) int_number 1709164800000 CODE_SET_HOURS true [VInt 7; VInt 30] [7; 30] (mkDateState (mkCache false 0 0 0 0) (double_of_int 1709164800000)) MIN).
  - reflexivity.
  - vm_compute. intros [=].
  - intros t g [= <-]. lia.
  - intros [=].
  - apply (bool_decide_unpack _). vm_compute. exact I.
  - intros [=].
  - repeat constructor; lia.
  - vm_compute. lia.
  - vm_compute. repeat split; intros [=].
  - vm_compute. intros [=].
  - reflexivity.
Defined.

(** ** Date.UTC *)

(** The years 0 to 99 are those of the twentieth century. *)
Definition full_year (y : Z) : Z := if (0 <=? y) && (y <=? 99) then y + 1900 else y.

Lemma utc_year_int (y : Z) : Z.abs y <= 2 ^ 52 -> utc_year (double_of_int y) = double_of_int (full_year y).
Proof.
  intros H. unfold utc_year, HUNDRED, NINETEEN_HUNDRED_YEAR, full_year. rewrite isfinite_int, TruncateDouble_int. change (DZero false) with (double_of_int 0). change (100 - 1) with 99. rewrite !leb_int.
  destruct ((0 <=? y) && (y <=? 99)); [|done]. by rewrite dadd_int by lia.
Qed.

(** Seven numbers whose time can be computed exactly. *)
Definition utc_small (y m d h mi s ms : Z) : Prop :=
  Z.abs y <= 2 ^ 40 /\ Z.abs m <= 2 ^ 40 /\ Z.abs (full_year y + m / 12) <= 280000 /\ Z.abs d <= 1000000 /\ Z.abs h <= 1000000 /\ Z.abs mi <= 1000000 /\ Z.abs s <= 1000000 /\ Z.abs ms <= 1000000.

Lemma days_280000 (y : Z) : Z.abs y <= 280000 -> Z.abs (GetDaysFromYear y) <= 102990000.
Proof. intros H. rewrite GetDaysFromYear_spec. zlia. Qed.

Lemma MakeDate_clip (day t : Z) : Z.abs day <= 104000000 -> Z.abs t <= 10000000000000 -> TimeClip (MakeDate (double_of_int day) (double_of_int t)) = clip (day * 86400000 + t).
Proof.
  intros Hd Ht. unfold MakeDate, MS_PER_DAY. rewrite !isfinite_int. cbn [andb]. rewrite dmul_int by lia. rewrite dadd_int by lia. rewrite TimeClip_int by lia. f_equal. lia.
Qed.

Lemma optional_run {S} (ToNumber : JSTaggedValue -> ErrorFlag + dbl) (argv : list JSTaggedValue) (vs : list Z) (i : nat) (v : Z) (s : S) :
  Forall2 (is_number ToNumber) argv vs -> optional_arg ToNumber argv i (double_of_int v) s = (Ok (double_of_int (default v (vs !! i))), s).
Proof.
  intros H. unfold optional_arg. destruct (argv !! i) as [a|] eqn:Ea.
  - destruct (Forall2_lookup_l _ _ _ _ _ H Ea) as (w & -> & [Ew _]). unfold to_number. by rewrite Ew.
  - assert (vs !! i = None) as -> by (apply lookup_ge_None; apply Forall2_length in H; apply lookup_ge_None in Ea; lia). done.
Qed.

Lemma UTC_run {S} (ToNumber : JSTaggedValue -> ErrorFlag + dbl) (argv : list JSTaggedValue) (vs : list Z) (s : S) :
  Forall2 (is_number ToNumber) argv vs -> vs <> [] ->
  let f i def := default def (vs !! i) in
  let y := full_year (f 0%nat 0) in let m := f 1%nat 0 in
  utc_small (f 0%nat 0) m (f 2%nat 1) (f 3%nat 0) (f 4%nat 0) (f 5%nat 0) (f 6%nat 0) ->
  UTC ToNumber argv s = (Ok (clip ((GetDaysFromYear (y + m / 12) + DAYS_FROM_MONTH (leap y) (m mod 12) + f 2%nat 1 - 1) * 86400000 + (f 3%nat 0 * 3600000 + f 4%nat 0 * 60000 + f 5%nat 0 * 1000 + f 6%nat 0))), s).
Proof.
  intros H Hne f y m (Hy & Hm & Hym & Hd & Hh & Hmi & Hs & Hms). unfold UTC. change (DZero false) with (double_of_int 0).
  assert (to_number ToNumber (default VUndefined (argv !! 0%nat)) s = (Ok (double_of_int (f 0%nat 0)), s)) as R0.
  { destruct H as [|a v argv vs [Ha _] _]; [done|]. unfold to_number. simpl. by rewrite Ha. }
  mstep with R0. do 6 (mstep by (by apply optional_run)). fold (f 1%nat 0) (f 2%nat 1) (f 3%nat 0) (f 4%nat 0) (f 5%nat 0) (f 6%nat 0). fold m. rewrite utc_year_int by lia. fold y.
  fold y in Hym. assert (Z.abs y <= 2 ^ 40) as Hfy by (unfold y, full_year; destruct (_ && _) eqn:Ey; lia).
  mstep by (apply MakeDay_int; lia). rewrite MakeTime_int by lia. unfold mret, M_ret. pose proof (days_280000 _ Hym). pose proof (month_bound (leap y) (m mod 12)). by rewrite MakeDate_clip by lia.
Qed.
Lemma early_months (l l' : bool) (m : Z) : 0 <= m < 2 -> DAYS_FROM_MONTH l m = DAYS_FROM_MONTH l' m.
Proof. intros Hm. assert (m = 0 \/ m = 1) as [-> | ->] by lia; by destruct l, l'. Qed.

(** Date.UTC of numbers is the time of its fields, with the defaults for those
    that are missing, clipped; a month outside of the year moves the year, and is
    to fall into a year that is a leap year as the given one or before March. *)
Theorem date_UTC_spec (ToNumber : JSTaggedValue -> ErrorFlag + dbl) (argv : list JSTaggedValue) (vs : list Z) (s : unit) :
  Forall2 (is_number ToNumber) argv vs -> vs <> [] ->
  let f i def := default def (vs !! i) in
  let y := full_year (f 0%nat 0) in let m := f 1%nat 0 in
  utc_small (f 0%nat 0) m (f 2%nat 1) (f 3%nat 0) (f 4%nat 0) (f 5%nat 0) (f 6%nat 0) ->
  m mod 12 < 2 \/ leap (y + m / 12) = leap y ->
  UTC ToNumber argv s = (Ok (clip (time_of [y; m; f 2%nat 1; f 3%nat 0; f 4%nat 0; f 5%nat 0; f 6%nat 0; 0; 0])), s).
Proof.
  intros H Hne f y m Hsm Hl. rewrite (UTC_run ToNumber argv vs s H Hne Hsm). do 3 f_equal. unfold time_of, make_day, day_number. cbn [lookup_total list_lookup_total YEAR MONTH DAYS HOUR MIN SEC MS].
  change (full_year (default 0 (vs !! 0%nat))) with y. change (default 0 (vs !! 1%nat)) with m. unfold f.
  assert (DAYS_FROM_MONTH (leap y) (m mod 12) = DAYS_FROM_MONTH (leap (y + m / 12)) (m mod 12)) as ->; [|lia].
  destruct Hl as [Hl|Hl]; [|by rewrite Hl]. apply early_months. pose proof (Z.mod_pos_bound m 12 ltac:(lia)). lia.
Qed.

Lemma date_UTC_spec_witness : UTC int_number [VInt 99; VInt 11; VInt 31; VInt 23] tt = (Ok (double_of_int 946681200000), tt).
Proof.
  refine (date_UTC_spec int_number [VInt 99; VInt 11; VInt 31; VInt 23] [99; 11; 31; 23] tt _ _ _ _).
  - repeat constructor; lia.
  - intros [=].
  - vm_compute. repeat split; intros [=].
  - right. reflexivity.
Defined.

(** MakeDay looks up the lengths of the months in the year it is given and not
    in the year the month falls into: the first of March 2020, given as a month
    of 2019, comes out as the 29th of February. *)
Theorem date_UTC_month_overflow :
  UTC int_number [VInt 2019; VInt 14; VInt 1] tt = (Ok (clip (time_of [2020; 1; 29; 0; 0; 0; 0; 0; 0])), tt) /\
  clip (time_of [2019; 14; 1; 0; 0; 0; 0; 0; 0]) = clip (time_of [2020; 2; 1; 0; 0; 0; 0; 0; 0]) /\
  clip (time_of [2020; 1; 29; 0; 0; 0; 0; 0; 0]) <> clip (time_of [2020; 2; 1; 0; 0; 0; 0; 0; 0]).
Proof.
  split; [|split; [reflexivity|vm_compute; intros [=]]]. rewrite (UTC_run int_number _ [2019; 14; 1] tt); [reflexivity|repeat constructor; lia|done|vm_compute; repeat split; intros [=]].
Qed.

Lemma setter_fields (code : Z) : code ∈ setter_codes -> (code <> CODE_SET_FULL_YEAR -> (Z.land code CODE_FLAG =? 0) = false) /\ (0 < field_count code)%nat.
Proof. unfold setter_codes. intros H. repeat (apply elem_of_cons in H as [-> |H]; [vm_compute; split; (done || lia)|]). by apply elem_of_nil in H. Qed.

Lemma lenZ_pos {A} (a : A) (l : list A) : (lenZ (a :: l) =? 0) = false.
Proof. lenz. apply Z.eqb_neq. unfold lenZ. lia. Qed.

(** C40: Setters on an invalid date other than those of the year cast a NaN to an
    integer; so do setters with an infinite argument, and a large year overflows. *)
Theorem date_setter_faults (zone : Z -> option Z) (ToNumber : JSTaggedValue -> ErrorFlag + dbl) (code : Z) (isLocal : bool) (a : JSTaggedValue) (argv : list JSTaggedValue) (s : DateState) :
  code ∈ setter_codes ->
  (TimeValue s = DNaN -> code <> CODE_SET_FULL_YEAR -> (SET_DATE_VALUE zone ToNumber code isLocal true (a :: argv) s).1 = Fault) /\
  (forall neg t, TimeValue s = double_of_int t -> Z.abs t <= MAX_TIME -> zone_ok zone -> cache_ok (cache s) -> ToNumber a = inr (DInf neg) -> (SET_DATE_VALUE zone ToNumber code isLocal true (a :: argv) s).1 = Fault) /\
  (SET_DATE_VALUE zone int_number CODE_SET_FULL_YEAR false true [VInt 2147483647] (mkDateState (mkCache false 0 0 0 0) (DZero false))).1 = Fault.
Proof.
  intros Hcode. destruct (setter_fields code Hcode) as [H0 Hn]. split_and!; [intros Et Hnot|intros neg t Et Ht Hz Hc Ha|by vm_compute]; unfold SET_DATE_VALUE; cbn [negb]; mstep; rewrite Et; unfold on_cache.
  - erewrite bind_Fault; [done|]. apply zoom_run. unfold SetDateValue. rewrite lenZ_pos, (H0 Hnot), andb_false_r. by apply bind_Fault.
  - destruct (GetDateValues_run zone t isLocal (cache s) Ht Hz Hc) as (c' & R & _). cbv zeta in R. erewrite bind_Fault; [done|]. apply zoom_run. unfold SetDateValue. rewrite lenZ_pos, isnan_int. cbn [andb]. mstep with R.
    destruct (setter_range code Hcode) as (-> & _ & _). assert (exists n, Z.to_nat (if lenZ (a :: argv) <? Z.of_nat (field_count code) then lenZ (a :: argv) else Z.of_nat (field_count code)) = Datatypes.S n) as [n ->].
    { exists (Z.to_nat ((if lenZ (a :: argv) <? Z.of_nat (field_count code) then lenZ (a :: argv) else Z.of_nat (field_count code)) - 1)). assert (0 < lenZ (a :: argv)) as Hp by (unfold lenZ; simpl; lia). destruct (Z.ltb_spec (lenZ (a :: argv)) (Z.of_nat (field_count code))); lia. }
    apply bind_Fault. cbn [take set_fields]. unfold to_number. rewrite Ha. mstep. by apply bind_Fault.
Qed.
Lemma date_setter_faults_witness : (SET_DATE_VALUE (fun _ => None) int_number CODE_SET_HOURS false true [VInt 1] (mkDateState (mkCache false 0 0 0 0) DNaN)).1 = Fault.
Proof. refine (proj1 (date_setter_faults (fun _ => None) int_number CODE_SET_HOURS false (VInt 1) [] (mkDateState (mkCache false 0 0 0 0) DNaN) _) eq_refl _); [apply (bool_decide_unpack _); vm_compute; exact I|intros [=]]. Defined.

(** LocalTime adds the minutes of the offset to milliseconds, and UTCTime takes
    nothing off, whatever the zone is. *)
Theorem date_LocalTime_minutes (zone : Z -> option Z) (t : Z) (s : unit) : Z.abs t <= MAX_TIME -> zone_ok zone ->
  LocalTime zone (double_of_int t) s = (Ok (double_of_int (t + GetLocalOffsetFromOS zone t true)), s) /\ UTCTime zone (double_of_int t) s = (Ok (double_of_int t), s).
Proof.
  intros Ht Hz. unfold MAX_TIME in Ht. pose proof (offset_bound zone t true Hz). unfold LocalTime, UTCTime. split; (mstep by (apply int64_of_double_int; lia)); unfold mret, M_ret.
  - by rewrite double_of_int64_int, dadd_int by lia.
  - cbn [GetLocalOffsetFromOS negb]. rewrite double_of_int64_int, dsub_int by lia. by rewrite Z.sub_0_r.
Qed.
End JSDate.
