(* ===== verification/DateString.v ===== *)
(** * DateString: the texts of dates.

    ToCString of mem/c_string.h, JSDate::StrToTargetLength, ToISOString,
    ToUTCString, ToString, ToDateString and ToTimeString of js_date.cpp, and the
    macros DATE_STRING and DATE_TO_STRING.  Texts are lists of character codes.

    Shown: a number that is not negative is printed with its digits, filled up
    with zeros to the length asked for; what is printed reads back. *)
From S2P Require Import Prelude TaggedValue Double DateUtils JSDate.
Import Double DateUtils JSDate.
Local Open Scope Z_scope.

Module DateString.

(** ToCString of an integer: the digits are written from the end of a buffer of
    BUFF_SIZE characters, whose last one is the terminating zero. *)
Definition BUFF_SIZE_INT64 : nat := 21.
Definition BUFF_SIZE_INT : nat := 12.

Fixpoint put_digits {S} (position : nat) (n : Z) (buf : list Z) : M S (nat * list Z) :=
  match position with
  | O => fault
  | Datatypes.S position =>
      let buf := (48 - Z.rem n 10) :: buf in
      let n := Z.quot n 10 in
      if n =? 0 then mret (position, buf) else put_digits position n buf
  end.

Definition ToCString {S} (BUFF_SIZE : nat) (number : Z) : M S (list Z) :=
  let isNeg := negb (0 <=? number) in
  let n := if 0 <=? number then - number else number in
  r ← put_digits (BUFF_SIZE - 1) n [];
  let '(position, buf) := r in
  if isNeg then
    match position with
    | O => fault
    | Datatypes.S _ => mret (45 :: buf)
    end
  else mret buf.

Definition NEG : Z := 45.
Definition PLUS : Z := 43.
Definition SPACE : Z := 32.
Definition COLON : Z := 58.
Definition POINT : Z := 46.
Definition COMMA : Z := 44.
Definition FLAG_TIME : Z := 84.
Definition FLAG_UTC : Z := 90.
Definition STR_LENGTH_YEAR : Z := 4.
Definition STR_LENGTH_OTHERS : Z := 2.
Definition MINUTE_PER_HOUR : Z := 60.
Definition GMT : list Z := [71; 77; 84].

Definition StrToTargetLength (str : list Z) (length : Z) : list Z :=
  let neg := default 0 (str !! 0%nat) =? NEG in
  let len := if neg then lenZ str - 1 else lenZ str in
  let dif := length - len in
  let sub := replicate (Z.to_nat dif) 48 in
  if neg then NEG :: sub ++ take (Z.to_nat len) (drop 1 str) else sub ++ str.

(** A field printed with a length. *)
Definition print_field {S} (n length : Z) : M S (list Z) := str ← ToCString BUFF_SIZE_INT64 n; mret (StrToTargetLength str length).

Definition monthName : list (list Z) :=
  [[74; 97; 110]; [70; 101; 98]; [77; 97; 114]; [65; 112; 114]; [77; 97; 121]; [74; 117; 110];
   [74; 117; 108]; [65; 117; 103]; [83; 101; 112]; [79; 99; 116]; [78; 111; 118]; [68; 101; 99]].
Definition weekdayName : list (list Z) :=
  [[83; 117; 110]; [77; 111; 110]; [84; 117; 101]; [87; 101; 100]; [84; 104; 117]; [70; 114; 105]; [83; 97; 116]].

(** An access to one of the arrays of names. *)
Definition name_at {S} (names : list (list Z)) (i : Z) : M S (list Z) :=
  if i <? 0 then fault else match names !! Z.to_nat i with Some name => mret name | None => fault end.

Section zone.
Context (localtime_r : Z -> option Z).

Definition GetThisDateValues (timeMs : dbl) (isLocal : bool) : M Cache (option (list Z)) :=
  if isnan timeMs then mret None
  else
    date ← GetDateValues localtime_r timeMs (replicate DATE_LENGTH 0) isLocal;
    mret (Some date).

(** Hours and minutes of the offset with its sign. *)
Definition local_time {S} (timeMs : dbl) : M S (list Z) :=
  t ← int64_of_double timeMs;
  let localMin := i32 (GetLocalOffsetFromOS localtime_r t true) in
  let sign := if 0 <=? localMin then PLUS else NEG in
  let localMin := if 0 <=? localMin then localMin else - localMin in
  hours ← ToCString BUFF_SIZE_INT (Z.quot localMin MINUTE_PER_HOUR);
  minutes ← ToCString BUFF_SIZE_INT (Z.rem localMin MINUTE_PER_HOUR);
  mret (sign :: StrToTargetLength hours STR_LENGTH_OTHERS ++ StrToTargetLength minutes STR_LENGTH_OTHERS).

(** The year of an ISO text: four digits, or a sign and six. *)
Definition iso_year_text {S} (year : Z) : M S (list Z) :=
  str ← ToCString BUFF_SIZE_INT64 year;
  mret (if default 0 (str !! 0%nat) =? NEG then StrToTargetLength str (STR_LENGTH_YEAR + STR_LENGTH_OTHERS)
        else if STR_LENGTH_YEAR <? lenZ str then PLUS :: StrToTargetLength str (STR_LENGTH_YEAR + STR_LENGTH_OTHERS)
        else StrToTargetLength str STR_LENGTH_YEAR).

(** [None] where the functions return a NaN. *)
Definition ToISOString (timeMs : dbl) : M Cache (option (list Z)) :=
  fields ← GetThisDateValues timeMs false;
  match fields with
  | None => mret None
  | Some fields =>
      year ← iso_year_text (fields !!! YEAR);
      month ← print_field (fields !!! MONTH + 1) STR_LENGTH_OTHERS;
      day ← print_field (fields !!! DAYS) STR_LENGTH_OTHERS;
      hour ← print_field (fields !!! HOUR) STR_LENGTH_OTHERS;
      minute ← print_field (fields !!! MIN) STR_LENGTH_OTHERS;
      second ← print_field (fields !!! SEC) STR_LENGTH_OTHERS;
      ms ← print_field (fields !!! MS) (STR_LENGTH_OTHERS + 1);
      mret (Some (year ++ [NEG] ++ month ++ [NEG] ++ day ++ [FLAG_TIME] ++ hour ++ [COLON] ++ minute ++ [COLON] ++ second ++ [POINT] ++ ms ++ [FLAG_UTC]))
  end.

Definition ToUTCString (timeMs : dbl) : M Cache (option (list Z)) :=
  fields ← GetThisDateValues timeMs false;
  match fields with
  | None => mret None
  | Some fields =>
      year ← print_field (fields !!! YEAR) STR_LENGTH_YEAR;
      weekday ← name_at weekdayName (fields !!! WEEKDAY);
      month ← name_at monthName (fields !!! MONTH);
      day ← print_field (fields !!! DAYS) STR_LENGTH_OTHERS;
      hour ← print_field (fields !!! HOUR) STR_LENGTH_OTHERS;
      minute ← print_field (fields !!! MIN) STR_LENGTH_OTHERS;
      second ← print_field (fields !!! SEC) STR_LENGTH_OTHERS;
      mret (Some (weekday ++ [COMMA] ++ [SPACE] ++ day ++ [SPACE] ++ month ++ [SPACE] ++ year ++ [SPACE] ++ hour ++ [COLON] ++ minute ++ [COLON] ++ second ++ [SPACE] ++ GMT))
  end.

Definition ToString (timeMs : dbl) : M Cache (option (list Z)) :=
  fields ← GetThisDateValues timeMs true;
  match fields with
  | None => mret None
  | Some fields =>
      localTime ← local_time timeMs;
      year ← print_field (fields !!! YEAR) STR_LENGTH_YEAR;
      weekday ← name_at weekdayName (fields !!! WEEKDAY);
      month ← name_at monthName (fields !!! MONTH);
      day ← print_field (fields !!! DAYS) STR_LENGTH_OTHERS;
      hour ← print_field (fields !!! HOUR) STR_LENGTH_OTHERS;
      minute ← print_field (fields !!! MIN) STR_LENGTH_OTHERS;
      second ← print_field (fields !!! SEC) STR_LENGTH_OTHERS;
      mret (Some (weekday ++ [SPACE] ++ month ++ [SPACE] ++ day ++ [SPACE] ++ year ++ [SPACE] ++ hour ++ [COLON] ++ minute ++ [COLON] ++ second ++ [SPACE] ++ GMT ++ localTime))
  end.

Definition ToDateString (timeMs : dbl) : M Cache (option (list Z)) :=
  fields ← GetThisDateValues timeMs true;
  match fields with
  | None => mret None
  | Some fields =>
      year ← print_field (fields !!! YEAR) STR_LENGTH_YEAR;
      day ← print_field (fields !!! DAYS) STR_LENGTH_OTHERS;
      weekday ← name_at weekdayName (fields !!! WEEKDAY);
      month ← name_at monthName (fields !!! MONTH);
      mret (Some (weekday ++ [SPACE] ++ month ++ [SPACE] ++ day ++ [SPACE] ++ year))
  end.

Definition ToTimeString (timeMs : dbl) : M Cache (option (list Z)) :=
  fields ← GetThisDateValues timeMs true;
  match fields with
  | None => mret None
  | Some fields =>
      localTime ← local_time timeMs;
      hour ← print_field (fields !!! HOUR) STR_LENGTH_OTHERS;
      minute ← print_field (fields !!! MIN) STR_LENGTH_OTHERS;
      second ← print_field (fields !!! SEC) STR_LENGTH_OTHERS;
      mret (Some (hour ++ [COLON] ++ minute ++ [COLON] ++ second ++ [SPACE] ++ GMT ++ localTime))
  end.

(** The text of a call of Date without new: the body is that of ToString. *)
Definition INVALID_DATE : list Z := [73; 110; 118; 97; 108; 105; 100; 32; 68; 97; 116; 101].

Definition ToDateStringOf (timeMs : dbl) : M Cache (list Z) :=
  if isnan timeMs then mret INVALID_DATE
  else
    str ← ToString timeMs;
    mret (default [] str).

(** DATE_TO_STRING(name) and DATE_STRING(name); the text "Invalid Date". *)
Definition DATE_TO_STRING (name : dbl -> M Cache (option (list Z))) (isDate : bool) : M DateState (option (list Z)) :=
  if negb isDate then throw TYPE_ERROR
  else
    s ← get;
    if isnan (TimeValue s) then throw RANGE_ERROR else on_cache (name (TimeValue s)).

Definition DATE_STRING (name : dbl -> M Cache (option (list Z))) (isDate : bool) : M DateState (option (list Z)) :=
  if negb isDate then throw TYPE_ERROR
  else
    s ← get;
    if isnan (TimeValue s) then mret (Some INVALID_DATE) else on_cache (name (TimeValue s)).

End zone.

(** ** Decimal digits *)

Definition digit (d : Z) : Prop := 48 <= d <= 57.

Definition dec (ds : list Z) : Z := foldl (fun a d => 10 * a + (d - 48)) 0 ds.

Lemma dec_app (ds ds' : list Z) : dec (ds ++ ds') = dec ds * 10 ^ lenZ ds' + dec ds'.
Proof.
  unfold dec. rewrite foldl_app. generalize (foldl (fun a d => 10 * a + (d - 48)) 0 ds). intros a. induction ds' as [|d ds' IH] using rev_ind; [simpl; lenz; lia|].
  rewrite !foldl_app. cbn [foldl]. rewrite IH. lenz. rewrite Z.pow_add_r by (unfold lenZ; lia). lia.
Qed.

Lemma dec_cons (d : Z) (ds : list Z) : dec (d :: ds) = (d - 48) * 10 ^ lenZ ds + dec ds.
Proof. change (d :: ds) with ([d] ++ ds). rewrite dec_app. unfold dec at 1. cbn [foldl]. lia. Qed.

Lemma dec_range (ds : list Z) : Forall digit ds -> 0 <= dec ds < 10 ^ lenZ ds.
Proof.
  induction 1 as [|d ds Hd _ IH]; [vm_compute; by split|]. rewrite dec_cons. lenz. rewrite Z.pow_add_r by (unfold lenZ; lia). unfold digit in Hd. nia.
Qed.

Lemma dec_zeros (k : nat) (ds : list Z) : dec (replicate k 48 ++ ds) = dec ds.
Proof. induction k as [|k IH]; [done|]. cbn [replicate app]. rewrite dec_cons, IH. lia. Qed.

Lemma put_digits_run {S} (position : nat) (n : Z) (buf : list Z) (s : S) : n <= 0 -> - n < 10 ^ Z.of_nat position -> (1 <= position)%nat ->
  exists ds pos', put_digits position n buf s = (Ok (pos', ds ++ buf), s) /\ Forall digit ds /\ dec ds = - n /\ (pos' + length ds = position)%nat /\ (1 <= length ds)%nat /\
    (forall k : nat, (1 <= k)%nat -> - n < 10 ^ Z.of_nat k -> (length ds <= k)%nat).
Proof.
  revert n buf. induction position as [|position IH]; intros n buf Hn Hp Hpos; [lia|]. cbn [put_digits]. set (q := Z.quot n 10). set (d := 48 - Z.rem n 10).
  assert (q <= 0 /\ n = 10 * q - (d - 48) /\ digit d) as (Hq & En & Hd) by (unfold q, d, digit; zlia). clearbody q d. destruct (Z.eqb_spec q 0) as [Hq0|Hq0].
  - exists [d], position. split; [done|]. split; [by apply list.Forall_singleton|]. split; [unfold dec; cbn [foldl]; lia|]. simpl. split_and!; [lia|lia|]. intros k Hk _. lia.
  - assert (1 <= position)%nat as Hp1. { destruct position; [|lia]. exfalso. change (10 ^ Z.of_nat 1) with 10 in Hp. unfold digit in Hd. lia. }
    rewrite Nat2Z.inj_succ, Z.pow_succ_r in Hp by lia. destruct (IH q (d :: buf) Hq ltac:(unfold digit in Hd; lia) Hp1) as (ds & pos' & R & Hds & Ev & Hl & Hl1 & Hk).
    exists (ds ++ [d]), pos'. rewrite R, <- app_assoc. split; [done|]. split; [apply list.Forall_app; split; [done|by apply list.Forall_singleton]|]. rewrite dec_app, Ev, length_app. change (10 ^ lenZ [d]) with 10. change (dec [d]) with (10 * 0 + (d - 48)). simpl. split_and!; [lia..|].
    intros k Hk1 Hlt. destruct k as [|k]; [lia|]. rewrite Nat2Z.inj_succ, Z.pow_succ_r in Hlt by lia. destruct k as [|k]; [change (10 ^ Z.of_nat 0) with 1 in Hlt; unfold digit in Hd; lia|].
    specialize (Hk (Datatypes.S k) ltac:(lia) ltac:(unfold digit in Hd; lia)). lia.
Qed.
Lemma digits_not_neg (ds : list Z) : Forall digit ds -> (default 0 (ds !! 0%nat) =? NEG) = false.
Proof. intros H. apply Z.eqb_neq. unfold NEG. destruct H as [|d ds Hd _]; simpl; [lia|]. unfold digit in Hd. lia. Qed.

(** A number is printed as its digits, after a minus when it is negative. *)
Lemma ToCString_run {S} (size : nat) (n : Z) (s : S) : (3 <= size)%nat -> Z.abs n < 10 ^ Z.of_nat (size - 2) ->
  exists ds, ToCString size n s = (Ok (if 0 <=? n then ds else NEG :: ds), s) /\ Forall digit ds /\ dec ds = Z.abs n /\ (1 <= length ds)%nat /\ (forall k : nat, (1 <= k)%nat -> Z.abs n < 10 ^ Z.of_nat k -> (length ds <= k)%nat).
Proof.
  intros Hs Hn. unfold ToCString. set (m := if 0 <=? n then - n else n). assert (m = - Z.abs n) as Em by (unfold m; destruct (Z.leb_spec 0 n); lia).
  assert (10 ^ Z.of_nat (size - 2) <= 10 ^ Z.of_nat (size - 1)) as Hpow by (apply Z.pow_le_mono_r; lia).
  destruct (put_digits_run (size - 1) m [] s ltac:(lia) ltac:(lia) ltac:(lia)) as (ds & pos & R & Hd & Ev & Hp & Hl & Hk). mstep with R. exists ds. rewrite app_nil_r.
  split; [|split_and!; [done|lia|done|intros k Hk1 Hlt; apply Hk; lia]]. destruct (Z.leb_spec 0 n) as [H0|H0]; cbn [negb]; [done|].
  specialize (Hk (size - 2)%nat ltac:(lia) ltac:(lia)). destruct pos; [lia|done].
Qed.

(** A field in [k] digits. *)
Definition is_field (k : nat) (n : Z) (ds : list Z) : Prop := Forall digit ds /\ dec ds = n /\ length ds = k.

Lemma fill_zeros (ds : list Z) (k : nat) (n : Z) : Forall digit ds -> dec ds = n -> (length ds <= k)%nat -> is_field k n (StrToTargetLength ds (Z.of_nat k)).
Proof.
  intros Hd Hv Hl. unfold StrToTargetLength. rewrite digits_not_neg by done. unfold lenZ. replace (Z.to_nat (Z.of_nat k - Z.of_nat (length ds))) with (k - length ds)%nat by lia.
  split_and!; [|by rewrite dec_zeros|rewrite length_app, length_replicate; lia]. apply list.Forall_app. split; [|done]. apply list.Forall_replicate. unfold digit. lia.
Qed.

Lemma print_field_run {S} (n : Z) (k : nat) (s : S) : (1 <= k <= 19)%nat -> 0 <= n < 10 ^ Z.of_nat k -> exists ds, print_field n (Z.of_nat k) s = (Ok ds, s) /\ is_field k n ds.
Proof.
  intros Hk Hn. unfold print_field. assert (10 ^ Z.of_nat k <= 10 ^ 19) as Hp by (apply Z.pow_le_mono_r; lia).
  destruct (ToCString_run BUFF_SIZE_INT64 n s ltac:(unfold BUFF_SIZE_INT64; lia)) as (ds & R & Hd & Hv & _ & Hl); [change (Z.of_nat (BUFF_SIZE_INT64 - 2)) with 19; lia|].
  rewrite (proj2 (Z.leb_le 0 n)) in R by lia. mstep with R. eexists. split; [done|]. apply fill_zeros; [done|lia|apply Hl; lia].
Qed.

(** The year of an ISO text. *)
Definition is_iso_year (y : Z) (str : list Z) : Prop :=
  (0 <= y <= 9999 /\ is_field 4 y str) \/ (9999 < y /\ exists ds, str = PLUS :: ds /\ is_field 6 y ds) \/ (y < 0 /\ exists ds, str = NEG :: ds /\ is_field 6 (- y) ds).

Lemma iso_year_run {S} (y : Z) (s : S) : Z.abs y <= 999999 -> exists str, iso_year_text y s = (Ok str, s) /\ is_iso_year y str.
Proof.
  intros Hy. unfold iso_year_text, STR_LENGTH_YEAR, STR_LENGTH_OTHERS. destruct (ToCString_run BUFF_SIZE_INT64 y s ltac:(unfold BUFF_SIZE_INT64; lia)) as (ds & R & Hd & Hv & Hl1 & Hl); [change (Z.of_nat (BUFF_SIZE_INT64 - 2)) with 19; lia|].
  assert (length ds <= 6)%nat as H6 by (apply Hl; [lia|change (10 ^ Z.of_nat 6) with 1000000; lia]). mstep with R. eexists. split; [done|]. destruct (Z.leb_spec 0 y) as [H0|H0].
  - rewrite digits_not_neg by done. pose proof (dec_range ds Hd) as Hr. rewrite Hv in Hr. destruct (Z.ltb_spec 4 (lenZ ds)) as [H4|H4].
    + right. left. assert (9999 < y) as Hb. { destruct (Z_le_gt_dec y 9999) as [Hle|]; [|lia]. specialize (Hl 4%nat ltac:(lia) ltac:(change (10 ^ Z.of_nat 4) with 10000; lia)). unfold lenZ in H4. lia. }
      split; [done|]. eexists. split; [done|]. apply (fill_zeros ds 6); [done|lia|done].
    + left. assert (y < 10 ^ 4) by (apply (Z.lt_le_trans _ (10 ^ lenZ ds)); [lia|apply Z.pow_le_mono_r; lia]). split; [lia|]. apply (fill_zeros ds 4); [done|lia|]. unfold lenZ in H4. lia.
  - right. right. split; [done|]. simpl. unfold StrToTargetLength. cbn [lookup list_lookup default]. rewrite Z.eqb_refl. exists (StrToTargetLength ds 6). split.
    + f_equal. unfold StrToTargetLength. rewrite digits_not_neg by done. lenz. unfold lenZ. change (drop 1 (NEG :: ds)) with ds. f_equal; [f_equal; lia|]. by rewrite take_ge by lia.
    + apply (fill_zeros ds 6); [done|lia|done].
Qed.
End DateString.
