(* ===== verification/DateParse.v ===== *)
(** * DateParse: date_parse.h, date_parse.cpp and JSDate::GetTimeFromString.

    A StringReader walks over the characters of a string; a DateProxy reads
    them as units: numbers, symbols, spaces, words.  ParseDateString tries the
    ISO format and then a permissive one; what it finds is kept in a DayValue, a
    TimeValue and a TimeZone, from which it computes the fields of a time.

    Characters are bytes.  The loops get as much fuel as the string has
    characters and a little more; that it is enough is a theorem on each of them,
    for a loop without fuel is an [OutOfFuel]. *)
From S2P Require Import Prelude TaggedValue Double DateUtils JSDate DateString.
Import Double DateUtils JSDate DateString.
Local Open Scope Z_scope.

Module DateParse.

Definition DEL : Z := 127.
Definition INT_MAX : Z := 2147483647.
Definition TEN : Z := 10.
Definition NUM_NINE : Z := 9.
Definition MAX_DAYS_MONTH : Z := 31.
Definition SEC_PER_HOUR : Z := 3600.
Definition TIME_LEN : Z := 4.
Definition DAY_LEN : Z := 3.

(** The result of arithmetic on int. *)
Definition int32 {S} (z : Z) : M S Z := if (- 2 ^ 31 <=? z) && (z <? 2 ^ 31) then mret z else fault.

Definition IsBetween (n lower hign : Z) : bool := if (n <? lower) || (hign <? n) then false else true.

(** ** StringReader *)

Record StringReader : Type := mkReader { data_ : list Z; index_ : nat; value_ : Z }.

Definition NextChar (r : StringReader) : StringReader := mkReader (data_ r) (S (index_ r)) (default DEL (data_ r !! index_ r)).

Definition new_reader (str : list Z) : StringReader := NextChar (mkReader str 0 0).

Definition IsDigit (r : StringReader) : bool := (48 <=? value_ r) && (value_ r <=? 57).
Definition IsEnd (r : StringReader) : bool := value_ r =? DEL.
Definition IsChar (r : StringReader) (ch : Z) : bool := value_ r =? ch.
Definition IsAlpha (r : StringReader) : bool := (65 <=? value_ r) && (value_ r <=? 122).
Definition IsSpaceOrTab (r : StringReader) : bool := (value_ r =? 32) || (value_ r =? 9).
Definition GetLower (ch : Z) : Z := if (65 <=? ch) && (ch <=? 90) then ch + 32 else ch.

(** A round of the first loop of ReadNumber: the number and the count of its
    digits. *)
Definition maxDecimal : Z := Z.quot (INT_MAX - NUM_NINE) TEN.

Definition digits_round (x : Z * Z) : M StringReader (Z * Z + Z * Z) :=
  let '(num, index) := x in
  r ← get;
  if IsDigit r then
    let num := (value_ r - 48) + num * TEN in
    let index := index + 1 in
    if maxDecimal <? num then mret (inr (num, index)) else modify NextChar;; mret (inl (num, index))
  else mret (inr (num, index)).

(** The second loop. *)
Definition skip_round (_ : unit) : M StringReader (unit + unit) :=
  r ← get;
  if IsDigit r then modify NextChar;; mret (inl tt) else mret (inr tt).

Definition reader_fuel (r : StringReader) : nat := S (S (length (data_ r))).

Definition ReadNumber : M StringReader (Z * Z) :=
  r ← get;
  num ← while_fuel (reader_fuel r) digits_round (0, 0);
  while_fuel (reader_fuel r) skip_round tt;;
  mret num.

(** The letters in lower case, [size] at most, and the length of the word. *)
Definition alphabet_round (size : Z) (x : list Z * Z) : M StringReader (list Z * Z + list Z * Z) :=
  let '(word, length) := x in
  r ← get;
  if IsAlpha r then
    let word := if length <? size then word ++ [GetLower (value_ r)] else word in
    modify NextChar;;
    mret (inl (word, length + 1))
  else mret (inr (word, length)).

Definition ReadAlphabet (size : Z) : M StringReader (list Z * Z) :=
  r ← get;
  while_fuel (reader_fuel r) (alphabet_round size) ([], 0).

(** ** DateUnit and DateProxy *)

Inductive DateValueType : Type :=
| DATE_INVALID | DATE_UNKNOWN | DATE_NUMBER | DATE_SYMBOL | DATE_SPACE | DATE_STRING_END
| DATE_TIME_ZONE | DATE_TIME_FALG | DATE_MONTH | DATE_INVALID_WORD.

#[global] Instance DateValueType_eq_dec : EqDecision DateValueType.
Proof. solve_decision. Defined.

Record DateUnit : Type := mkUnit { type_ : DateValueType; unit_value : Z; len_ : Z }.

Definition has_type (ty : DateValueType) (u : DateUnit) : bool := bool_decide (type_ u = ty).
Definition IsNumber (u : DateUnit) : bool := has_type DATE_NUMBER u.
Definition IsSymbol (u : DateUnit) (ch : Z) : bool := has_type DATE_SYMBOL u && (ch =? unit_value u).
Definition IsStringEnd (u : DateUnit) : bool := has_type DATE_STRING_END u.
Definition IsTimeZone (u : DateUnit) : bool := has_type DATE_TIME_ZONE u.
Definition IsTimeFlag (u : DateUnit) : bool := has_type DATE_TIME_FALG u.
Definition IsInvalidWord (u : DateUnit) : bool := has_type DATE_INVALID_WORD u.
Definition IsMonth (u : DateUnit) : bool := has_type DATE_MONTH u.
Definition IsSign (u : DateUnit) : bool := has_type DATE_SYMBOL u && ((unit_value u =? 45) || (unit_value u =? 43)).
Definition IsSixDecimalDigit (u : DateUnit) : bool := has_type DATE_NUMBER u && (len_ u =? 6).
Definition IsFourDecimalDigit (u : DateUnit) : bool := has_type DATE_NUMBER u && (len_ u =? 4).
Definition IsTwoDecimalDigit (u : DateUnit) : bool := has_type DATE_NUMBER u && (len_ u =? 2).
Definition IsWordZ (u : DateUnit) : bool := has_type DATE_TIME_ZONE u && (unit_value u =? 0).
Definition IsSpace (u : DateUnit) : bool := has_type DATE_SPACE u.
Definition IsValidFinallyTime (u : DateUnit) : bool := IsStringEnd u || IsSign u || IsWordZ u || IsSpace u.

Definition Symbol (ch : Z) : DateUnit := mkUnit DATE_SYMBOL ch 1.
Definition Space : DateUnit := mkUnit DATE_SPACE 0 1.
Definition StringEnd : DateUnit := mkUnit DATE_STRING_END 0 0.
Definition Unknown : DateUnit := mkUnit DATE_UNKNOWN 0 1.

(** The names of the months in lower case. *)
Definition month_words : list (list Z) :=
  [[106; 97; 110]; [102; 101; 98]; [109; 97; 114]; [97; 112; 114]; [109; 97; 121]; [106; 117; 110];
   [106; 117; 108]; [97; 117; 103]; [115; 101; 112]; [111; 99; 116]; [110; 111; 118]; [100; 101; 99]].

Definition MatchKeyWord (str : list Z) : DateValueType * Z :=
  if bool_decide (str = [116]) then (DATE_TIME_FALG, 0)
  else if bool_decide (str = [122]) then (DATE_TIME_ZONE, 0)
  else if bool_decide (str = [117; 116; 99]) || bool_decide (str = [103; 109; 116]) then (DATE_TIME_ZONE, 1)
  else match find_index (fun name => bool_decide (str = name)) month_words with
       | Some i => (DATE_MONTH, i + 1)
       | None => (DATE_INVALID_WORD, 0)
       end.

(** A symbol of one character, which is passed over. *)
Definition take_char (u : DateUnit) : M StringReader DateUnit := modify NextChar;; mret u.

(** DateProxy::Read. *)
Definition Read : M StringReader DateUnit :=
  r ← get;
  if IsDigit r then
    num ← ReadNumber;
    mret (mkUnit DATE_NUMBER num.1 num.2)
  else if IsEnd r then mret StringEnd
  else if IsChar r 58 then take_char (Symbol 58)
  else if IsChar r 43 then take_char (Symbol 43)
  else if IsChar r 45 then take_char (Symbol 45)
  else if IsChar r 46 then take_char (Symbol 46)
  else if IsAlpha r then
    str ← ReadAlphabet 3;
    let '(type, value) := MatchKeyWord str.1 in
    mret (mkUnit type value str.2)
  else if IsSpaceOrTab r then take_char Space
  else take_char Unknown.

(** ** The values found *)

Record TimeZone : Type := mkZone { sign_ : Z; hour_ : Z; min_ : Z }.
Record TimeValue : Type := mkTime { time_data : list Z; time_index : Z }.
Record DayValue : Type := mkDay { day_data : list Z; day_index : Z; month_ : Z; isIsoFlag_ : bool }.

(** The local variables of ParseDateString. *)
Record Parser : Type := mkParser { str_ : StringReader; date_ : DateUnit; dayValue : DayValue; timeValue : TimeValue; timeZone : TimeZone }.

Definition set_dayValue (d : DayValue) : M Parser unit := modify (fun p => mkParser (str_ p) (date_ p) d (timeValue p) (timeZone p)).
Definition set_timeValue (t : TimeValue) : M Parser unit := modify (fun p => mkParser (str_ p) (date_ p) (dayValue p) t (timeZone p)).
Definition set_timeZone (z : TimeZone) : M Parser unit := modify (fun p => mkParser (str_ p) (date_ p) (dayValue p) (timeValue p) z).

Definition GetDate : M Parser DateUnit := gets date_.

(** [date_ = Read()], which the constructor of DateProxy does, too. *)
Definition read_date : M Parser unit :=
  u ← zoom str_ (fun r p => mkParser r (date_ p) (dayValue p) (timeValue p) (timeZone p)) Read;
  modify (fun p => mkParser (str_ p) u (dayValue p) (timeValue p) (timeZone p)).

Definition NextDate : M Parser DateUnit :=
  cur ← GetDate;
  read_date;;
  mret cur.

(** TimeZone. *)
Definition SetSign (sign : Z) : M Parser unit := z ← gets timeZone; set_timeZone (mkZone sign (hour_ z) (min_ z)).
Definition SetHour (hour : Z) : M Parser unit := z ← gets timeZone; set_timeZone (mkZone (sign_ z) hour (min_ z)).
Definition SetMin (min : Z) : M Parser unit := z ← gets timeZone; set_timeZone (mkZone (sign_ z) (hour_ z) min).
Definition SetUTC : M Parser unit := set_timeZone (mkZone 1 0 0).
Definition IsUTC (z : TimeZone) : bool := (hour_ z =? 0) && (min_ z =? 0).
Definition IsLocal (z : TimeZone) : bool := hour_ z =? INT_MAX.

(** TimeValue. *)
Definition SetTimeData (data : Z) : M Parser bool :=
  t ← gets timeValue;
  if time_index t <? TIME_LEN then
    set_timeValue (mkTime (<[Z.to_nat (time_index t) := data]> (time_data t)) (time_index t + 1));;
    mret true
  else mret false.

Definition MinuteIsValid (n : Z) : bool := IsBetween n 0 59.
Definition SecondIsValid (n : Z) : bool := IsBetween n 0 59.
Definition HourIsValid (n : Z) : bool := IsBetween n 0 24.
Definition MilliSecondIsValid (n : Z) : bool := IsBetween n 0 999.
Definition IsValid (t : TimeValue) (n : Z) : bool := ((time_index t =? 1) && MinuteIsValid n) || ((time_index t =? 2) && SecondIsValid n).
Definition IsValidSecond (t : TimeValue) (n : Z) : bool := (time_index t =? 2) && SecondIsValid n.

(** The loop of NormMilliSecond over the digits after the third. *)
Fixpoint norm_divisor {S} (n : nat) (divisor : Z) : M S Z :=
  match n with
  | O => mret divisor
  | Datatypes.S n => divisor ← int32 (divisor * TEN); norm_divisor n divisor
  end.

Definition NormMilliSecond {S} (sec : DateUnit) : M S Z :=
  let len := len_ sec in
  let value := unit_value sec in
  if len =? 3 then mret value
  else if len =? 2 then int32 (value * TEN)
  else if len =? 1 then int32 (value * HUNDRED)
  else
    divisor ← norm_divisor (Z.to_nat (len - 3)) 1;
    if divisor =? 0 then fault else mret (Z.quot value divisor).

(** DayValue. *)
Definition SetDayData (data : Z) : M Parser bool :=
  d ← gets dayValue;
  if day_index d <? DAY_LEN then
    set_dayValue (mkDay (<[Z.to_nat (day_index d) := data]> (day_data d)) (day_index d + 1) (month_ d) (isIsoFlag_ d));;
    mret true
  else mret false.
Definition SetIsoFlag (flag : bool) : M Parser unit := d ← gets dayValue; set_dayValue (mkDay (day_data d) (day_index d) (month_ d) flag).
Definition SetMonth (month : Z) : M Parser unit := d ← gets dayValue; set_dayValue (mkDay (day_data d) (day_index d) month (isIsoFlag_ d)).
Definition MonthIsValid (n : Z) : bool := IsBetween n 1 MOUTH_PER_YEAR.
Definition DayIsValid (n : Z) : bool := IsBetween n 1 MAX_DAYS_MONTH.
Definition IsFull (d : DayValue) : bool := day_index d =? DAY_LEN.

(** ** The ISO format *)

(** The year of IsIsoDateTime. *)
Definition iso_year : M Parser bool :=
  u ← GetDate;
  if IsSign u then
    sign ← NextDate;
    u ← GetDate;
    if negb (IsSixDecimalDigit u) then mret false
    else
      u ← NextDate;
      let signYear := unit_value u in
      if IsSymbol sign 45 && (signYear =? 0) then mret false
      else
        let signYear := if IsSymbol sign 45 then - signYear else signYear in
        SetDayData signYear;;
        mret true
  else if IsFourDecimalDigit u then
    u ← NextDate;
    SetDayData (unit_value u);;
    mret true
  else mret false.

(** Month and day. *)
Definition iso_month_day : M Parser bool :=
  u ← GetDate;
  if IsSymbol u 45 then
    NextDate;;
    mon ← GetDate;
    if negb (IsTwoDecimalDigit mon) then mret false
    else
      SetDayData (unit_value mon);;
      NextDate;;
      u ← GetDate;
      if IsSymbol u 45 then
        NextDate;;
        day ← GetDate;
        if negb (IsTwoDecimalDigit day) then mret false
        else
          SetDayData (unit_value day);;
          NextDate;;
          mret true
      else mret true
  else mret true.

Definition IsIsoDateTime : M Parser bool :=
  ok ← iso_year;
  if negb ok then mret false
  else
    ok ← iso_month_day;
    if negb ok then mret false
    else
      u ← GetDate;
      if negb (IsTimeFlag u) then
        u ← GetDate;
        if negb (IsStringEnd u) then mret false else mret true
      else mret true.

(** Hours, minutes, seconds and milliseconds of ParseIsoDateTime. *)
Definition iso_time : M Parser bool :=
  NextDate;;
  hour ← GetDate;
  if negb (IsTwoDecimalDigit hour) then mret false
  else
    SetTimeData (unit_value hour);;
    NextDate;;
    u ← GetDate;
    if negb (IsSymbol u 58) then mret false
    else
      NextDate;;
      min ← GetDate;
      if negb (IsTwoDecimalDigit min) then mret false
      else
        SetTimeData (unit_value min);;
        NextDate;;
        u ← GetDate;
        if IsSymbol u 58 then
          NextDate;;
          second ← GetDate;
          if negb (IsTwoDecimalDigit second) then mret false
          else
            SetTimeData (unit_value second);;
            NextDate;;
            u ← GetDate;
            if IsSymbol u 46 then
              NextDate;;
              milliSec ← GetDate;
              if negb (IsNumber milliSec) then mret false
              else
                ms ← NormMilliSecond milliSec;
                SetTimeData ms;;
                NextDate;;
                mret true
            else mret true
        else mret true.

(** The time zone: Z, a sign and hours and minutes, or nothing. *)
Definition iso_zone : M Parser bool :=
  u ← GetDate;
  if IsWordZ u then
    SetUTC;;
    NextDate;;
    mret true
  else if IsSign u then
    (if IsSymbol u 45 then SetSign (-1) else SetSign 1);;
    NextDate;;
    hourZone ← GetDate;
    if IsTwoDecimalDigit hourZone then
      SetHour (unit_value hourZone);;
      NextDate;;
      u ← GetDate;
      if negb (IsSymbol u 58) then mret false
      else
        NextDate;;
        minZone ← GetDate;
        if negb (IsTwoDecimalDigit minZone) then mret false
        else
          SetMin (unit_value minZone);;
          NextDate;;
          mret true
    else if IsFourDecimalDigit hourZone then
      SetHour (Z.quot (unit_value hourZone) HUNDRED);;
      SetMin (Z.rem (unit_value hourZone) HUNDRED);;
      NextDate;;
      mret true
    else mret false
  else if negb (IsStringEnd u) then mret false
  else mret true.

Definition ParseIsoDateTime : M Parser bool :=
  u ← GetDate;
  ok ← (if IsTimeFlag u then
          ok ← iso_time;
          if negb ok then mret false else iso_zone
        else mret true);
  if negb ok then mret false
  else
    p ← get;
    (if IsLocal (timeZone p) && (time_index (timeValue p) =? 0) then SetUTC else mret tt);;
    SetIsoFlag true;;
    mret true.

(** ** Other formats *)

(** A number in ParseLegacyDates. *)
Definition legacy_number (num : Z) : M Parser bool :=
  u ← GetDate;
  t ← gets timeValue;
  if IsSymbol u 58 then
    NextDate;;
    u ← GetDate;
    if negb (IsNumber u) then mret false
    else
      ok ← SetTimeData num;
      if negb ok then mret false else mret true
  else if IsSymbol u 46 && IsValidSecond t num then
    NextDate;;
    SetTimeData num;;
    milliSec ← GetDate;
    if negb (IsNumber milliSec) then mret false
    else
      ms ← NormMilliSecond milliSec;
      SetTimeData ms;;
      NextDate;;
      u ← GetDate;
      if negb (IsValidFinallyTime u) then mret false else mret true
  else if IsValid t num then
    SetTimeData num;;
    u ← GetDate;
    if negb (IsValidFinallyTime u) then mret false else mret true
  else
    ok ← SetDayData num;
    if negb ok then mret false else mret true.

(** A sign after a time or after a word for Greenwich time: hours and minutes
    of a zone. *)
Definition legacy_zone (date : DateUnit) : M Parser bool :=
  (if IsSymbol date 45 then SetSign (-1) else SetSign 1);;
  timeNumUnit ← GetDate;
  if negb (IsNumber timeNumUnit) then mret false
  else
    let timeNum := unit_value timeNumUnit in
    let numLength := len_ timeNumUnit in
    NextDate;;
    u ← GetDate;
    if IsSymbol u 58 then
      NextDate;;
      u ← GetDate;
      if negb (IsNumber u) then mret false
      else
        SetHour timeNum;;
        SetMin (unit_value u);;
        NextDate;;
        mret true
    else if (numLength =? 1) || (numLength =? 2) then
      SetHour timeNum;;
      SetMin 0;;
      mret true
    else if (numLength =? 3) || (numLength =? 4) then
      SetHour (Z.quot timeNum HUNDRED);;
      SetMin (Z.rem timeNum HUNDRED);;
      mret true
    else mret false.

(** The body of the loop: [None] when the function returns false, or the new
    value of hasNumber. *)
Definition legacy_unit (date : DateUnit) (hasNumber : bool) : M Parser (option bool) :=
  p ← get;
  if IsNumber date then
    ok ← legacy_number (unit_value date);
    mret (if negb ok then None else Some true)
  else if IsMonth date then
    SetMonth (unit_value date);;
    mret (Some hasNumber)
  else if IsTimeZone date && hasNumber then
    SetUTC;;
    mret (Some hasNumber)
  else if IsTimeFlag date || IsInvalidWord date then
    if hasNumber then mret None
    else
      u ← GetDate;
      if IsNumber u then mret None else mret (Some hasNumber)
  else if IsSign date && ((0 <? time_index (timeValue p)) || IsUTC (timeZone p)) then
    ok ← legacy_zone date;
    mret (if negb ok then None else Some hasNumber)
  else mret (Some hasNumber).

(** A round of the loop: up to the end of the string or to a failure. *)
Definition legacy_round (x : DateUnit * bool) : M Parser ((DateUnit * bool) + bool) :=
  let '(date, hasNumber) := x in
  if IsStringEnd date then mret (inr true)
  else
    r ← legacy_unit date hasNumber;
    match r with
    | None => mret (inr false)
    | Some hasNumber => date ← NextDate; mret (inl (date, hasNumber))
    end.

Definition ParseLegacyDates : M Parser bool :=
  date ← NextDate;
  p ← get;
  let hasNumber := 0 <? day_index (dayValue p) in
  while_fuel (reader_fuel (str_ p)) legacy_round (date, hasNumber).

(** ** The fields of the time *)

(** TimeZone::SetTimeZone: [None] is false. *)
Definition SetTimeZone {S} (z : TimeZone) (time : list Z) : M S (option (list Z)) :=
  if negb (IsLocal z) then
    if negb (HourIsValid (hour_ z)) || negb (MinuteIsValid (min_ z)) then mret None
    else
      tz ← int32 (sign_ z * (hour_ z * SEC_PER_HOUR + min_ z * SEC_PER_MINUTE));
      mret (Some (<[TIMEZONE := tz]> time))
  else mret (Some (<[TIMEZONE := INT_MAX]> time)).

(** TimeValue::SetTimeValue. *)
Definition SetTimeValue (t : TimeValue) (time : list Z) : option (list Z) :=
  let field (i : nat) := if Z.of_nat i <? time_index t then time_data t !!! i else 0 in
  let time := <[MS := field 3%nat]> (<[SEC := field 2%nat]> (<[MIN := field 1%nat]> (<[HOUR := field 0%nat]> time))) in
  if time !!! HOUR =? 24 then
    if (time !!! MIN =? 0) && (time !!! SEC =? 0) && (time !!! MS =? 0) then Some time else None
  else if negb (HourIsValid (time !!! HOUR)) || negb (MinuteIsValid (time !!! MIN)) || negb (SecondIsValid (time !!! SEC)) || negb (MilliSecondIsValid (time !!! MS)) then None
  else Some time.

(** DayValue::SetDayValue. *)
Definition SetDayValue (d : DayValue) (time : list Z) : option (list Z) :=
  if day_index d =? 0 then None
  else
    let data (i : nat) := if Z.of_nat i <? day_index d then day_data d !!! i else 1 in
    let ymd :=
      if month_ d =? INT_MAX then
        if isIsoFlag_ d || (IsFull d && DayIsValid (data 2%nat) && negb (MonthIsValid (data 0%nat))) then Some (data 0%nat, data 1%nat, data 2%nat)
        else if IsFull d then Some (data 2%nat, data 0%nat, data 1%nat)
        else Some (data 0%nat, data 1%nat, data 2%nat)
      else if IsFull d then None
      else if day_index d =? 2 then
        if negb (DayIsValid (data 0%nat)) then Some (data 0%nat, month_ d, data 1%nat) else Some (data 1%nat, month_ d, data 0%nat)
      else Some (1, month_ d, data 0%nat) in
    match ymd with
    | None => None
    | Some (year, mon, day) =>
        let year :=
          if isIsoFlag_ d then year
          else if IsBetween year 0 49 then year + 2000
          else if IsBetween year 50 99 then year + 1900
          else year in
        if negb (MonthIsValid mon) || negb (DayIsValid day) then None
        else Some (<[DAYS := day]> (<[MONTH := mon - 1]> (<[YEAR := year]> time)))
    end.

(** The variables of ParseDateString at its start; the unit is read when the
    DateProxy is made. *)
Definition new_parser (str : list Z) : Parser :=
  mkParser (new_reader str) Unknown (mkDay [0; 0; 0] 0 INT_MAX false) (mkTime [0; 0; 0; 0] 0) (mkZone INT_MAX INT_MAX INT_MAX).

Definition ParseDateString (time : list Z) : M Parser (option (list Z)) :=
  read_date;;
  isIso ← IsIsoDateTime;
  result ← (if isIso : bool then ParseIsoDateTime else ParseLegacyDates);
  if result : bool then
    p ← get;
    time ← SetTimeZone (timeZone p) time;
    mret (match time with
          | None => None
          | Some time => match SetTimeValue (timeValue p) time with
                         | None => None
                         | Some time => SetDayValue (dayValue p) time
                         end
          end)
  else mret None.

(** JSDate::GetTimeFromString: the time of the fields, and the whole. *)
Definition time_value {S} (zone : Z -> option Z) (time : list Z) : M S dbl :=
  day ← MakeDay (double_of_int (time !!! YEAR)) (double_of_int (time !!! MONTH)) (double_of_int (time !!! DAYS));
  let dateTime := MakeTime (double_of_int (time !!! HOUR)) (double_of_int (time !!! MIN)) (double_of_int (time !!! SEC)) (double_of_int (time !!! MS)) in
  let timeValue := TimeClip (MakeDate day dateTime) in
  if isnan timeValue then mret timeValue
  else
    localMs ← (if time !!! TIMEZONE =? INT_MAX then
                 t ← int64_of_double timeValue;
                 int64 (GetLocalOffsetFromOS zone t true * MS_PER_MINUTE)
               else int32 (time !!! TIMEZONE * MS_PER_SECOND));
    mret (dadd timeValue (dneg (double_of_int64 localMs))).

Definition GetTimeFromString (zone : Z -> option Z) (str : list Z) : outcome dbl :=
  ((time ← ParseDateString (replicate DATE_LENGTH 0);
    match time with
    | None => mret DNaN
    | Some time => time_value zone time
    end) (new_parser str)).1.

(** ** Reading units *)

(** The characters from the current one on. *)
Definition reads (r : StringReader) (cs : list Z) : Prop := value_ r = default DEL (head cs) /\ drop (index_ r) (data_ r) = tail cs.

Lemma NextChar_reads (r : StringReader) (cs : list Z) : reads r cs -> reads (NextChar r) (tail cs) /\ data_ (NextChar r) = data_ r.
Proof.
  intros [_ Hd]. split; [|done]. unfold reads, NextChar. cbn [value_ index_ data_]. rewrite <- Hd. split.
  - by rewrite head_lookup, lookup_drop, Nat.add_0_r.
  - by rewrite <- (Nat.add_1_r (index_ r)), <- drop_drop; destruct (drop (index_ r) (data_ r)).
Qed.

Lemma new_reader_reads (str : list Z) : reads (new_reader str) str.
Proof. destruct str; done. Qed.

Lemma reads_length (r : StringReader) (cs : list Z) : reads r cs -> (length cs < reader_fuel r)%nat.
Proof. intros [_ Hd]. unfold reader_fuel. apply (f_equal length) in Hd. rewrite length_drop in Hd. destruct cs; simpl in *; lia. Qed.

Definition no_digit (cs : list Z) : Prop := match cs with c :: _ => ~ digit c | [] => True end.

Definition letter (c : Z) : Prop := 65 <= c <= 122.

Definition no_letter (cs : list Z) : Prop := match cs with c :: _ => ~ letter c | [] => True end.

Lemma IsDigit_no (r : StringReader) (cs : list Z) : reads r cs -> no_digit cs -> IsDigit r = false.
Proof. intros [Hv _] Hn. unfold IsDigit. rewrite Hv. destruct cs as [|c cs]; [done|]. simpl in *. unfold digit in Hn. destruct (Z.leb_spec 48 c), (Z.leb_spec c 57); simpl; (done || lia). Qed.

Lemma IsAlpha_no (r : StringReader) (cs : list Z) : reads r cs -> no_letter cs -> IsAlpha r = false.
Proof. intros [Hv _] Hn. unfold IsAlpha. rewrite Hv. destruct cs as [|c cs]; [done|]. simpl in *. unfold letter in Hn. destruct (Z.leb_spec 65 c), (Z.leb_spec c 122); simpl; (done || lia). Qed.

Lemma read_digits_run (ds : list Z) : forall (fuel : nat) (r : StringReader) (cs : list Z) (num index : Z),
  Forall digit ds -> reads r (ds ++ cs) -> no_digit cs -> (length ds < fuel)%nat -> 0 <= num -> num * 10 ^ lenZ ds + dec ds <= maxDecimal ->
  exists r', while_fuel fuel digits_round (num, index) r = (Ok (num * 10 ^ lenZ ds + dec ds, index + lenZ ds), r') /\ reads r' cs /\ data_ r' = data_ r.
Proof.
  induction ds as [|d ds IH]; intros fuel r cs num index Hd Hr Hn Hf H0 Hm; (destruct fuel as [|fuel]; [simpl in Hf; lia|]); cbn [while_fuel digits_round]; rewrite <- bind_assoc; mstep.
  - rewrite (IsDigit_no r cs) by done. exists r. split; [|done]. mcbn. unfold lenZ, dec. simpl. by rewrite Z.mul_1_r, !Z.add_0_r.
  - apply list.Forall_cons in Hd as [Hd Hds]. pose proof Hr as [Hv _]. cbn [app head default from_option id] in Hv. unfold IsDigit. rewrite Hv. unfold digit in Hd. rewrite (proj2 (Z.leb_le 48 d)), (proj2 (Z.leb_le d 57)) by lia. cbn [andb].
    rewrite dec_cons in Hm |- *. lenz. rewrite Z.pow_add_r in Hm |- * by (unfold lenZ; lia). pose proof (dec_range ds Hds) as Hrng. assert (0 < 10 ^ lenZ ds) as Hp by (apply Z.pow_pos_nonneg; unfold lenZ; lia).
    unfold TEN. rewrite (proj2 (Z.ltb_ge maxDecimal _)) by nia. destruct (NextChar_reads r _ Hr) as [Hr' Ed]. cbn [app tail] in Hr'.
    destruct (IH fuel (NextChar r) cs (d - 48 + num * 10) (index + 1) Hds Hr' Hn ltac:(simpl in Hf; lia) ltac:(lia) ltac:(lia)) as (r' & R & Hr'' & Ed'). exists r'. rewrite Ed', Ed. mcbn. split; [|done]. etransitivity; [exact R|]. do 3 f_equal; lia.
Qed.

(** The first unit of the characters [cs], and the characters after it. *)
Definition unit_of (cs : list Z) (u : DateUnit) (cs' : list Z) : Prop := forall r, reads r cs -> exists r', Read r = (Ok u, r') /\ reads r' cs'.

Lemma unit_number (ds cs : list Z) : Forall digit ds -> ds <> [] -> dec ds <= maxDecimal -> no_digit cs -> unit_of (ds ++ cs) (mkUnit DATE_NUMBER (dec ds) (lenZ ds)) cs.
Proof.
  intros Hd Hne Hm Hn r Hr. assert (IsDigit r = true) as Hi.
  { destruct Hr as [Hv _]. unfold IsDigit. rewrite Hv. destruct Hd as [|d ds Hd _]; [done|]. cbn [app head default from_option id]. unfold digit in Hd. by rewrite (proj2 (Z.leb_le 48 d)), (proj2 (Z.leb_le d 57)) by lia. }
  unfold Read. mstep. unfold ReadNumber. rewrite Hi. pose proof (reads_length _ _ Hr) as Hl. rewrite length_app in Hl.
  destruct (read_digits_run ds (reader_fuel r) r cs 0 0 Hd Hr Hn ltac:(lia) ltac:(lia) ltac:(lia)) as (r' & R & Hr' & Ed). exists r'. split; [|done].
  rewrite <- bind_assoc. mstep. rewrite <- bind_assoc. mstep with R. rewrite <- bind_assoc.
  mstep by (unfold reader_fuel; cbn [while_fuel]; unfold skip_round; rewrite <- bind_assoc; mstep; rewrite (IsDigit_no r' cs) by done; reflexivity).
  mcbn. do 3 f_equal; lia.
Qed.

Lemma read_alphabet_run (ws : list Z) : forall (fuel : nat) (r : StringReader) (cs word : list Z) (n : Z),
  Forall letter ws -> reads r (ws ++ cs) -> no_letter cs -> (length ws < fuel)%nat -> n = lenZ word \/ 3 <= lenZ word /\ 3 <= n -> 
  exists r', while_fuel fuel (alphabet_round 3) (word, n) r = (Ok (word ++ take (Z.to_nat (3 - n)) (GetLower <$> ws), n + lenZ ws), r') /\ reads r' cs.
Proof.
  induction ws as [|w ws IH]; intros fuel r cs word n Hw Hr Hn Hf Hl; (destruct fuel as [|fuel]; [simpl in Hf; lia|]); cbn [while_fuel alphabet_round]; rewrite <- bind_assoc; mstep.
  - rewrite (IsAlpha_no r cs) by done. exists r. split; [|done]. mcbn. cbn [fmap list_fmap]. rewrite take_nil, app_nil_r. do 3 f_equal; lenz; lia.
  - apply list.Forall_cons in Hw as [Hw Hws]. pose proof Hr as [Hv _]. cbn [app head default from_option id] in Hv. unfold IsAlpha. rewrite Hv. unfold letter in Hw. rewrite (proj2 (Z.leb_le 65 w)), (proj2 (Z.leb_le w 122)) by lia. cbn [andb].
    destruct (NextChar_reads r _ Hr) as [Hr' Ed]. cbn [app tail] in Hr'. destruct (Z.ltb_spec n 3) as [H3|H3].
    + destruct (IH fuel (NextChar r) cs (word ++ [GetLower w]) (n + 1) Hws Hr' Hn ltac:(simpl in Hf; lia) ltac:(lenz; lia)) as (r' & R & Hr''). exists r'. split; [|done]. mcbn. etransitivity; [exact R|].
      assert (0 <= lenZ word) by (unfold lenZ; lia). replace (Z.to_nat (3 - n)) with (Datatypes.S (Z.to_nat (3 - (n + 1)))) by lia. rewrite fmap_cons. cbn [take]. rewrite <- app_assoc. do 3 f_equal; lenz; lia.
    + destruct (IH fuel (NextChar r) cs word (n + 1) Hws Hr' Hn ltac:(simpl in Hf; lia) ltac:(lia)) as (r' & R & Hr''). exists r'. split; [|done]. mcbn. etransitivity; [exact R|].
      replace (Z.to_nat (3 - n)) with 0%nat by lia. replace (Z.to_nat (3 - (n + 1))) with 0%nat by lia. rewrite !take_0. do 3 f_equal; lenz; lia.
Qed.

Lemma unit_word (ws cs : list Z) (type : DateValueType) (value : Z) : Forall letter ws -> ws <> [] -> no_letter cs -> MatchKeyWord (take 3 (GetLower <$> ws)) = (type, value) ->
  unit_of (ws ++ cs) (mkUnit type value (lenZ ws)) cs.
Proof.
  intros Hw Hne Hn Hk r Hr. pose proof (reads_length _ _ Hr) as Hl. rewrite length_app in Hl. destruct (read_alphabet_run ws (reader_fuel r) r cs [] 0 Hw Hr Hn ltac:(lia) ltac:(left; done)) as (r' & R & Hr').
  destruct Hw as [|w ws Hw Hws]; [done|]. pose proof Hr as [Hv _]. cbn [app head default from_option id] in Hv. unfold letter in Hw. exists r'. split; [|done].
  unfold Read. mstep. unfold IsDigit, IsEnd, IsChar, IsAlpha, DEL. rewrite Hv. zb. unfold ReadAlphabet. rewrite <- bind_assoc. mstep. mstep with R. cbn [app fst snd]. change (Z.to_nat (3 - 0)) with 3%nat. rewrite Hk. done.
Qed.

Lemma unit_symbol (ch : Z) (cs : list Z) : ch ∈ [58; 43; 45; 46] -> unit_of (ch :: cs) (Symbol ch) cs.
Proof.
  intros Hc r Hr. destruct (NextChar_reads r _ Hr) as [Hr' _]. exists (NextChar r). split; [|done]. destruct Hr as [Hv _]. unfold Read. mstep. unfold IsDigit, IsEnd, IsChar. rewrite Hv.
  repeat (apply elem_of_cons in Hc as [-> |Hc]; [reflexivity|]). by apply elem_of_nil in Hc.
Qed.

Lemma unit_space (cs : list Z) : unit_of (32 :: cs) Space cs.
Proof. intros r Hr. destruct (NextChar_reads r _ Hr) as [Hr' _]. exists (NextChar r). split; [|done]. destruct Hr as [Hv _]. unfold Read. mstep. unfold IsDigit, IsEnd, IsChar, IsAlpha, IsSpaceOrTab. by rewrite Hv. Qed.

Lemma unit_comma (cs : list Z) : unit_of (44 :: cs) Unknown cs.
Proof. intros r Hr. destruct (NextChar_reads r _ Hr) as [Hr' _]. exists (NextChar r). split; [|done]. destruct Hr as [Hv _]. unfold Read. mstep. unfold IsDigit, IsEnd, IsChar, IsAlpha, IsSpaceOrTab. by rewrite Hv. Qed.

Lemma unit_end : unit_of [] StringEnd [].
Proof. intros r Hr. exists r. split; [|done]. destruct Hr as [Hv _]. unfold Read. mstep. unfold IsDigit, IsEnd. by rewrite Hv. Qed.

Lemma read_date_run (r : StringReader) (cs cs' : list Z) (u u' : DateUnit) (d : DayValue) (t : TimeValue) (z : TimeZone) :
  reads r cs -> unit_of cs u' cs' -> exists r', read_date (mkParser r u d t z) = (Ok tt, mkParser r' u' d t z) /\ reads r' cs'.
Proof. intros Hr Hu. destruct (Hu r Hr) as (r' & R & Hr'). exists r'. split; [|done]. unfold read_date. mstep by (apply zoom_run; exact R). done. Qed.

Lemma NextDate_run (r : StringReader) (cs cs' : list Z) (u u' : DateUnit) (d : DayValue) (t : TimeValue) (z : TimeZone) :
  reads r cs -> unit_of cs u' cs' -> exists r', NextDate (mkParser r u d t z) = (Ok u, mkParser r' u' d t z) /\ reads r' cs'.
Proof. intros Hr Hu. destruct (read_date_run r cs cs' u u' d t z Hr Hu) as (r' & R & Hr'). exists r'. split; [|done]. unfold NextDate, GetDate. mstep. by mstep with R. Qed.

(** ** The time of the fields *)

Lemma int32_run {S} (z : Z) (s : S) : - 2 ^ 31 <= z < 2 ^ 31 -> int32 z s = (Ok z, s).
Proof. intros H. unfold int32. by zb. Qed.

(** The offset in milliseconds that goes with the field of the zone. *)
Definition zone_ms (zone : Z -> option Z) (t tz : Z) : Z := if tz =? INT_MAX then GetLocalOffsetFromOS zone t true * 60000 else tz * 1000.

Lemma time_value_run {S} (zone : Z -> option Z) (y m d h mi sec ms w tz : Z) (s : S) :
  Z.abs y <= 280000 -> 0 <= m < 12 -> 1 <= d <= 31 -> 0 <= h <= 24 -> 0 <= mi < 60 -> 0 <= sec < 60 -> 0 <= ms < 1000 -> zone_ok zone -> tz = INT_MAX \/ Z.abs tz <= 90000 ->
  let time := [y; m; d; h; mi; sec; ms; w; tz] in
  time_value zone time s = (Ok (if Z.abs (time_of time) <=? 8640000000000000 then double_of_int (time_of time - zone_ms zone (time_of time) tz) else DNaN), s).
Proof.
  intros Hy Hm Hd Hh Hmi Hs Hms Hz Htz time. unfold time_value, time. cbn [lookup_total list_lookup_total YEAR MONTH DAYS HOUR MIN SEC MS TIMEZONE].
  mstep by (apply MakeDay_int; lia). rewrite MakeTime_int by lia. rewrite Z.div_small, Z.mod_small, Z.add_0_r by lia. pose proof (days_280000 y Hy) as Hg. pose proof (month_bound (leap y) m) as Hmb.
  rewrite MakeDate_clip by lia. assert (time_of [y; m; d; h; mi; sec; ms; w; tz] = (GetDaysFromYear y + DAYS_FROM_MONTH (leap y) m + d - 1) * 86400000 + (h * 3600000 + mi * 60000 + sec * 1000 + ms)) as ->.
  { unfold time_of, make_day, day_number. cbn [lookup_total list_lookup_total YEAR MONTH DAYS HOUR MIN SEC MS]. rewrite Z.div_small, Z.mod_small, Z.add_0_r by lia. lia. }
  set (t := (_ + _ + d - 1) * 86400000 + _). clearbody t. clear - Hz Htz. unfold clip. destruct (Z.leb_spec (Z.abs t) 8640000000000000) as [Ht|Ht]; [|done]. rewrite isnan_int. unfold MS_PER_MINUTE, MS_PER_SECOND.
  pose proof (offset_bound zone t true Hz) as Ho. assert (Z.abs (zone_ms zone t tz) <= 172800000) as Hzm by (unfold zone_ms; destruct (Z.eqb_spec tz INT_MAX); [lia|destruct Htz; [done|lia]]).
  assert ((if tz =? INT_MAX then t ← int64_of_double (double_of_int t); int64 (GetLocalOffsetFromOS zone t true * 60000) else int32 (tz * 1000)) s = (Ok (zone_ms zone t tz), s)) as R.
  { unfold zone_ms. destruct (Z.eqb_spec tz INT_MAX) as [E|E]; [mstep by (apply int64_of_double_int; lia); by rewrite int64_run by lia|]. destruct Htz; [done|]. by rewrite int32_run by lia. }
  mstep with R. unfold mret, M_ret. rewrite double_of_int64_int, dsub_int by lia. done.
Qed.

(** ** Every text is read to its end *)

(** The reader stands on a character or at the end. *)
Definition reader_ok (r : StringReader) : Prop := (1 <= index_ r)%nat /\ value_ r = default DEL (data_ r !! (index_ r - 1)%nat).

(** [r'] is [r] some characters later. *)
Definition later (k : nat) (r r' : StringReader) : Prop := reader_ok r' /\ data_ r' = data_ r /\ (index_ r + k <= index_ r')%nat.

(** Before the end there is a character left. *)
Lemma not_at_end (r : StringReader) : reader_ok r -> IsEnd r = false -> (index_ r <= length (data_ r))%nat.
Proof.
  intros [H1 Hv] He. unfold IsEnd in He. destruct (data_ r !! (index_ r - 1)%nat) as [v|] eqn:E; [apply lookup_lt_Some in E; lia|]. rewrite Hv in He. by rewrite Z.eqb_refl in He.
Qed.

Lemma NextChar_later (r : StringReader) : later 1 r (NextChar r).
Proof. unfold later, reader_ok, NextChar. cbn [index_ value_ data_]. rewrite Nat.sub_succ, Nat.sub_0_r. split_and!; (done || lia). Qed.

Lemma later_trans (k l : nat) (r r' r'' : StringReader) : later k r r' -> later l r' r'' -> later (k + l) r r''.
Proof. intros (_ & E1 & H1) (Hr & E2 & H2). split; [done|]. rewrite E2, E1. split; [done|lia]. Qed.

Lemma later_weaken (k l : nat) (r r' : StringReader) : later k r r' -> (l <= k)%nat -> later l r r'.
Proof. intros (Hr & E & H) Hl. split_and!; [done..|lia]. Qed.

Lemma later_refl (r : StringReader) : reader_ok r -> later 0 r r.
Proof. intros H. split_and!; [done..|lia]. Qed.

(** A loop that takes a character in each of its rounds but the last ends: its
    fuel is not used up. *)
Lemma scan_ends {X A} (round : X -> M StringReader (X + A)) :
  (forall x r, (exists a, round x r = (Ok (inr a), r)) \/ IsEnd r = false /\ exists y, round x r = (Ok (inl y), NextChar r)) ->
  forall (n : nat) (x : X) (r : StringReader), reader_ok r -> (1 <= n)%nat -> (length (data_ r) + 2 <= n + index_ r)%nat ->
  exists a r', while_fuel n round x r = (Ok a, r') /\ later 0 r r'.
Proof.
  intros Hround n. induction n as [|n IH]; intros x r Hr Hn Hl; [lia|]. cbn [while_fuel]. destruct (Hround x r) as [[a R]|[He [y R]]].
  - exists a, r. mstep with R. split; [done|by apply later_refl].
  - pose proof (not_at_end r Hr He) as Hi. pose proof (NextChar_later r) as (Hok & Ed & Hx). unfold NextChar in Hx. cbn [index_] in Hx.
    destruct (IH y (NextChar r) Hok) as (a & r' & R' & Hlater); [lia|rewrite Ed; cbn; lia|]. exists a, r'. mstep with R. split; [done|].
    apply (later_weaken 1); [|lia]. by apply (later_trans 1 0 _ (NextChar r)); [apply NextChar_later|].
Qed.

Lemma digit_not_end (r : StringReader) : IsDigit r = true -> IsEnd r = false.
Proof. unfold IsDigit, IsEnd, DEL. rewrite andb_true_iff, !Z.leb_le. intros H. apply Z.eqb_neq. lia. Qed.

Lemma alpha_not_end (r : StringReader) : IsAlpha r = true -> IsEnd r = false.
Proof. unfold IsAlpha, IsEnd, DEL. rewrite andb_true_iff, !Z.leb_le. intros H. apply Z.eqb_neq. lia. Qed.

Lemma digits_round_scans (x : Z * Z) (r : StringReader) :
  (exists a, digits_round x r = (Ok (inr a), r)) \/ IsEnd r = false /\ exists y, digits_round x r = (Ok (inl y), NextChar r).
Proof.
  destruct x as [num index]. unfold digits_round. destruct (IsDigit r) eqn:E; [|left; eexists; mstep; by rewrite E].
  destruct (maxDecimal <? (value_ r - 48) + num * TEN) eqn:Em; [left; eexists; mstep; by rewrite E, Em|].
  right. split; [by apply digit_not_end|]. eexists. mstep. by rewrite E, Em.
Qed.

Lemma skip_round_scans (x : unit) (r : StringReader) :
  (exists a, skip_round x r = (Ok (inr a), r)) \/ IsEnd r = false /\ exists y, skip_round x r = (Ok (inl y), NextChar r).
Proof.
  unfold skip_round. destruct (IsDigit r) eqn:E; [|left; eexists; mstep; by rewrite E]. right. split; [by apply digit_not_end|]. eexists. mstep. by rewrite E.
Qed.

Lemma alphabet_round_scans (size : Z) (x : list Z * Z) (r : StringReader) :
  (exists a, alphabet_round size x r = (Ok (inr a), r)) \/ IsEnd r = false /\ exists y, alphabet_round size x r = (Ok (inl y), NextChar r).
Proof.
  destruct x as [word n]. unfold alphabet_round. destruct (IsAlpha r) eqn:E; [|left; eexists; mstep; by rewrite E]. right. split; [by apply alpha_not_end|]. eexists. mstep. by rewrite E.
Qed.

(** The first character of a number and of a word is passed over. *)
Lemma ReadNumber_ends (r : StringReader) : reader_ok r -> IsDigit r = true -> exists x r', ReadNumber r = (Ok x, r') /\ later 1 r r'.
Proof.
  intros Hr Hd. pose proof (not_at_end r Hr (digit_not_end r Hd)) as Hi. pose proof (NextChar_later r) as Hn. pose proof Hn as (Hok & Ed & _). pose proof Hr as [H1 _].
  assert (digits_round (0, 0) r = (Ok (inl (value_ r - 48 + 0 * TEN, 0 + 1)), NextChar r)) as R0.
  { unfold digits_round. mstep. rewrite Hd. replace (maxDecimal <? value_ r - 48 + 0 * TEN) with false; [done|]. symmetry. unfold IsDigit in Hd. rewrite andb_true_iff, !Z.leb_le in Hd. change maxDecimal with 214748363. apply Z.ltb_ge. lia. }
  destruct (scan_ends digits_round digits_round_scans (Datatypes.S (length (data_ r))) (value_ r - 48 + 0 * TEN, 0 + 1) (NextChar r) Hok) as (x & r1 & R1 & L1); [lia|rewrite Ed; cbn [NextChar index_]; lia|].
  pose proof L1 as (Hok1 & Ed1 & Hx1). destruct (scan_ends skip_round skip_round_scans (reader_fuel r) tt r1 Hok1) as (y & r2 & R2 & L2); [unfold reader_fuel; lia|unfold reader_fuel; rewrite Ed1, Ed; lia|].
  exists x, r2. split.
  - unfold ReadNumber. mstep. mstep by (unfold reader_fuel; cbn [while_fuel]; mstep with R0; exact R1). by mstep with R2.
  - apply (later_trans 1 0 _ (NextChar r)); [done|]. by apply (later_trans 0 0 _ r1).
Qed.

Lemma ReadAlphabet_ends (size : Z) (r : StringReader) : reader_ok r -> IsAlpha r = true -> exists x r', ReadAlphabet size r = (Ok x, r') /\ later 1 r r'.
Proof.
  intros Hr Hd. pose proof (NextChar_later r) as Hn. pose proof Hn as (Hok & Ed & _). pose proof Hr as [H1 _].
  assert (exists y, alphabet_round size ([], 0) r = (Ok (inl y), NextChar r)) as [y R0] by (eexists; unfold alphabet_round; mstep; by rewrite Hd).
  destruct (scan_ends (alphabet_round size) (alphabet_round_scans size) (Datatypes.S (length (data_ r))) y (NextChar r) Hok) as (x & r1 & R1 & L1); [lia|rewrite Ed; cbn [NextChar index_]; lia|].
  exists x, r1. split; [|by apply (later_trans 1 0 _ (NextChar r))]. unfold ReadAlphabet. mstep. unfold reader_fuel. cbn [while_fuel]. mstep with R0. exact R1.
Qed.

(** Reading a unit gives a unit and goes on, except at the end. *)
Lemma Read_ends (r : StringReader) : reader_ok r -> exists u r', Read r = (Ok u, r') /\ (IsEnd r = true -> u = StringEnd) /\
  if IsStringEnd u then IsEnd r = true /\ r' = r else later 1 r r' /\ (index_ r <= length (data_ r))%nat.
Proof.
  intros Hr. unfold Read. destruct (IsEnd r) eqn:He.
  { assert (IsDigit r = false) as Hd by (apply not_true_is_false; intros Hd%digit_not_end; congruence). exists StringEnd, r. mstep. by rewrite Hd, He. }
  pose proof (not_at_end r Hr He) as Hi. pose proof (NextChar_later r) as Hn.
  assert (forall u, IsStringEnd u = false -> exists u0 r', take_char u r = (Ok u0, r') /\ (false = true -> u0 = StringEnd) /\ if IsStringEnd u0 then false = true /\ r' = r else later 1 r r' /\ (index_ r <= length (data_ r))%nat) as Hchar.
  { intros u Hu. exists u, (NextChar r). split; [done|]. by rewrite Hu. }
  erewrite (bind_Ok _ _ _ _ r) by reflexivity. cbv beta. rewrite He. destruct (IsDigit r) eqn:Hd.
  { destruct (ReadNumber_ends r Hr Hd) as (x & r' & R & L). eexists _, r'. mstep with R. by split_and!. }
  repeat match goal with |- context [if IsChar r ?c then _ else _] => destruct (IsChar r c); [by apply Hchar|] end.
  destruct (IsAlpha r) eqn:Ha; [|destruct (IsSpaceOrTab r); by apply Hchar].
  destruct (ReadAlphabet_ends 3 r Hr Ha) as (x & r' & R & L). destruct (MatchKeyWord x.1) as [ty v] eqn:Ek. exists (mkUnit ty v x.2), r'. mstep with R. rewrite Ek. split; [done|]. split; [done|].
  assert (IsStringEnd (mkUnit ty v x.2) = false) as ->; [|done]. unfold MatchKeyWord in Ek. repeat (case_match; try (injection Ek as <- <-; done)).
Qed.

(** The units that may still follow the current one. *)
Definition units_left (p : Parser) : nat := if IsStringEnd (date_ p) then 0 else Datatypes.S (Datatypes.S (length (data_ (str_ p))) - index_ (str_ p)).

(** The end is only met at the end, and every unit took a character. *)
Definition parser_ok (p : Parser) : Prop := reader_ok (str_ p) /\ if IsStringEnd (date_ p) then IsEnd (str_ p) = true else (2 <= index_ (str_ p))%nat.

(** A piece of the parser that comes to an end and goes forward. *)
Definition forward {A} (m : M Parser A) : Prop := forall p, parser_ok p ->
  match m p with (r, p') => ((exists a, r = Ok a) \/ r = Fault) /\ parser_ok p' /\ (units_left p' <= units_left p)%nat /\ data_ (str_ p') = data_ (str_ p) end.

Lemma forward_ret {A} (a : A) : forward (mret a).
Proof. intros p Hp. split_and!; [left; by exists a|done..|lia|done]. Qed.

Lemma forward_bind {A B} (m : M Parser A) (f : A -> M Parser B) : forward m -> (forall a, forward (f a)) -> forward (m ≫= f).
Proof.
  intros Hm Hf p Hp. specialize (Hm p Hp). mcbn. destruct (m p) as [r p1]. destruct Hm as (Hr & Hp1 & Hl & Hd). destruct Hr as [[a ->]| ->]; [|split_and!; [by right|done..]].
  specialize (Hf a p1 Hp1). destruct (f a p1) as [r2 p2]. destruct Hf as (Hr2 & Hp2 & Hl2 & Hd2). split_and!; [done..|lia|by rewrite Hd2].
Qed.

Lemma forward_gets {A} (f : Parser -> A) : forward (gets f).
Proof. intros p Hp. split_and!; [left; by eexists|done..|lia|done]. Qed.

Lemma forward_get : forward get.
Proof. intros p Hp. split_and!; [left; by eexists|done..|lia|done]. Qed.

Lemma forward_fault {A} : forward (fault (A := A)).
Proof. intros p Hp. split_and!; [by right|done..|lia|done]. Qed.

Lemma forward_modify (f : Parser -> Parser) : (forall p, str_ (f p) = str_ p /\ date_ (f p) = date_ p) -> forward (modify f).
Proof. intros Hf p Hp. destruct (Hf p) as [E1 E2]. cbn. unfold parser_ok, units_left in *. rewrite E1, E2. split_and!; [left; by eexists|apply Hp|apply Hp|lia|done]. Qed.

Lemma read_date_ends (p : Parser) : reader_ok (str_ p) -> exists u r, read_date p = (Ok tt, mkParser r u (dayValue p) (timeValue p) (timeZone p)) /\ (IsEnd (str_ p) = true -> u = StringEnd) /\
  if IsStringEnd u then IsEnd (str_ p) = true /\ r = str_ p else later 1 (str_ p) r /\ (index_ (str_ p) <= length (data_ (str_ p)))%nat.
Proof.
  intros Hr. destruct (Read_ends _ Hr) as (u & r & R & He & H). exists u, r. split; [|done]. unfold read_date. by mstep by (apply zoom_run; exact R).
Qed.

(** Going to the next unit uses up one of those that are left. *)
Lemma NextDate_forward (p : Parser) : parser_ok p ->
  exists p', NextDate p = (Ok (date_ p), p') /\ parser_ok p' /\ (IsStringEnd (date_ p) = false -> units_left p' < units_left p)%nat /\ (units_left p' <= units_left p)%nat /\ data_ (str_ p') = data_ (str_ p) /\ (2 <= index_ (str_ p) -> IsStringEnd (date_ p') = false -> 3 <= index_ (str_ p') /\ 2 <= length (data_ (str_ p')))%nat.
Proof.
  intros [Hr Hp]. destruct (read_date_ends p Hr) as (u & r & R & He & H). eexists. split; [unfold NextDate, GetDate; mstep; mstep with R; reflexivity|]. unfold parser_ok, units_left. cbn [str_ date_]. destruct (IsStringEnd u) eqn:E.
  - destruct H as [Hend ->]. split_and!; [done..|destruct (IsStringEnd (date_ p)); [done|lia]|lia|done|done].
  - destruct H as [(Hok & Ed & Hi) Hlen]. rewrite Ed. destruct (IsStringEnd (date_ p)) eqn:Ep.
    + by rewrite (He Hp) in E.
    + split_and!; [done|destruct Hr; lia|lia..|done|intros H2 _; split; [lia|rewrite ?Ed; lia]].
Qed.

Lemma forward_NextDate : forward NextDate.
Proof. intros p Hp. destruct (NextDate_forward p Hp) as (p' & -> & Hp' & _ & Hl & Hd & _). split_and!; [left; by eexists|done..]. Qed.

(** The pieces of the parser, by their parts. *)
Ltac forward :=
  repeat first
    [ progress (intros) | apply forward_ret | apply forward_NextDate | apply forward_gets | apply forward_get | apply forward_fault
    | apply forward_modify; intros; split; reflexivity | apply forward_bind | assumption
    | match goal with |- forward (if ?b then _ else _) => destruct b end
    | match goal with |- forward (match ?x with _ => _ end) => destruct x end ].

Lemma forward_norm_divisor (n : nat) (d : Z) : forward (norm_divisor n d).
Proof. revert d. induction n as [|n IH]; intros d; cbn [norm_divisor]; unfold int32; forward. apply IH. Qed.

Lemma forward_NormMilliSecond (u : DateUnit) : forward (NormMilliSecond u).
Proof. unfold NormMilliSecond, int32. pose proof forward_norm_divisor. forward. apply H. Qed.

Lemma forward_iso : forward IsIsoDateTime /\ forward ParseIsoDateTime.
Proof.
  pose proof forward_NormMilliSecond as Hn. split; [unfold IsIsoDateTime, iso_year, iso_month_day|unfold ParseIsoDateTime, iso_time, iso_zone]; unfold GetDate, SetDayData, SetTimeData, SetUTC, SetSign, SetHour, SetMin, SetIsoFlag, set_dayValue, set_timeValue, set_timeZone; forward; apply Hn.
Qed.

Lemma forward_legacy_unit (date : DateUnit) (hn : bool) : forward (legacy_unit date hn).
Proof.
  pose proof forward_NormMilliSecond as Hn. unfold legacy_unit, legacy_number, legacy_zone, GetDate, SetMonth, SetDayData, SetTimeData, SetUTC, SetSign, SetHour, SetMin, set_dayValue, set_timeValue, set_timeZone; forward; apply Hn.
Qed.

(** The loop of ParseLegacyDates ends while its fuel lasts. *)
Lemma legacy_rounds (n : nat) : forall (date : DateUnit) (hn : bool) (p : Parser), parser_ok p -> (1 <= n)%nat -> (IsStringEnd date = false -> units_left p + 2 <= n)%nat ->
  (exists b, (while_fuel n legacy_round (date, hn) p).1 = Ok b) \/ (while_fuel n legacy_round (date, hn) p).1 = Fault.
Proof.
  induction n as [|n IH]; intros date hn p Hp Hn Hl; [lia|]. cbn [while_fuel legacy_round]. destruct (IsStringEnd date); [left; by exists true|]. specialize (Hl eq_refl).
  pose proof (forward_legacy_unit date hn p Hp) as Hu. destruct (legacy_unit date hn p) as [r p1] eqn:E. destruct Hu as (Hr & Hp1 & Hl1 & _). rewrite <- bind_assoc. destruct Hr as [[x ->]| ->]; [|right; by rewrite (bind_Fault _ _ _ _ E)]. mstep with E.
  destruct x as [hn'|]; [|left; by exists false]. destruct (NextDate_forward p1 Hp1) as (p2 & R & Hp2 & Hlt & _ & _ & _). rewrite <- bind_assoc. mstep with R. mstep. apply IH; [done|lia|]. intros Hd. specialize (Hlt Hd). lia.
Qed.

Lemma legacy_ends (p : Parser) : parser_ok p -> (exists b, (ParseLegacyDates p).1 = Ok b) \/ (ParseLegacyDates p).1 = Fault.
Proof.
  intros Hp. unfold ParseLegacyDates. destruct (NextDate_forward p Hp) as (p' & R & Hp' & _ & _ & Hd & Hi). mstep with R. mstep. apply legacy_rounds; [done|unfold reader_fuel; lia|]. intros He. unfold units_left, reader_fuel.
  destruct Hp as [_ Hp]. rewrite He in Hp. destruct (IsStringEnd (date_ p')) eqn:E; [lia|]. specialize (Hi Hp eq_refl). lia.
Qed.

(** Computations that give a value or a fault. *)
Definition ends {S A} (m : M S A) : Prop := forall s, (exists a, (m s).1 = Ok a) \/ (m s).1 = Fault.

Lemma ends_ret {S A} (a : A) : ends (S := S) (mret a).
Proof. intros s. left. by exists a. Qed.

Lemma ends_fault {S A} : ends (fault (S := S) (A := A)).
Proof. intros s. by right. Qed.

Lemma ends_bind {S A B} (m : M S A) (f : A -> M S B) : ends m -> (forall a, ends (f a)) -> ends (m ≫= f).
Proof. intros Hm Hf s. specialize (Hm s). mcbn. destruct (m s) as [r s1]. cbn [fst] in Hm. destruct Hm as [[a ->]| ->]; [apply Hf|by right]. Qed.

Lemma ends_int64 {S} (z : Z) : ends (S := S) (int64 z).
Proof. unfold int64. destruct (_ && _); [apply ends_ret|apply ends_fault]. Qed.

Lemma ends_int32 {S} (z : Z) : ends (S := S) (int32 z).
Proof. unfold int32. destruct (_ && _); [apply ends_ret|apply ends_fault]. Qed.

Lemma ends_int64_of_double {S} (d : dbl) : ends (S := S) (int64_of_double d).
Proof. unfold int64_of_double. destruct (trunc d); [|apply ends_fault]. destruct (_ && _); [apply ends_ret|apply ends_fault]. Qed.

Lemma ends_MakeDay {S} (y m d : dbl) : ends (S := S) (MakeDay y m d).
Proof.
  unfold MakeDay. destruct (_ && _); [|apply ends_ret]. cbv zeta. apply ends_bind; [apply ends_int64_of_double|intros y1]. apply ends_bind; [apply ends_int64_of_double|intros y2]. apply ends_bind; [apply ends_int64|intros y3]. apply ends_bind; [apply ends_int64_of_double|intros m1].
  apply ends_bind; [destruct (_ <? _); [apply ends_int64|apply ends_ret]|intros y4]. apply ends_bind; [unfold days_from_year; apply ends_bind; [apply ends_int64|intros _; apply ends_ret]|intros days]. apply ends_bind; [apply ends_int64_of_double|intros ly]. apply ends_ret.
Qed.

Lemma ends_time_value {S} (zone : Z -> option Z) (time : list Z) : ends (S := S) (time_value zone time).
Proof.
  unfold time_value. apply ends_bind; [apply ends_MakeDay|intros day]. cbv zeta. destruct (isnan _); [apply ends_ret|]. apply ends_bind; [|intros ms; apply ends_ret].
  destruct (_ =? _); [apply ends_bind; [apply ends_int64_of_double|intros t; apply ends_int64]|apply ends_int32].
Qed.

Lemma ends_SetTimeZone {S} (z : TimeZone) (time : list Z) : ends (S := S) (SetTimeZone z time).
Proof. unfold SetTimeZone. destruct (negb _); [|apply ends_ret]. destruct (_ || _); [apply ends_ret|]. apply ends_bind; [apply ends_int32|intros tz; apply ends_ret]. Qed.

Lemma new_parser_ok (str : list Z) : exists p, read_date (new_parser str) = (Ok tt, p) /\ parser_ok p.
Proof.
  assert (reader_ok (new_reader str)) as Hr by (split; [done|by destruct str]). destruct (read_date_ends (new_parser str) Hr) as (u & r & R & _ & H). eexists. split; [exact R|]. unfold parser_ok. cbn [str_ date_ new_parser] in *.
  destruct (IsStringEnd u); [by destruct H as [H ->]|]. destruct H as [(Hok & _ & Hi) _]. split; [done|]. change (index_ (new_reader str)) with 1%nat in Hi. lia.
Qed.

(** C38: Date.parse comes to an end on every text: with a time or a NaN, or in a
    Fault, an integer overflow such as that of a fraction of thirteen digits
    (date_parse_fraction_overflow).  None of the while loops of the reader and
    of the parser runs out of its rounds, which are two more than the characters
    of the text. *)
Theorem date_parse_terminates (zone : Z -> option Z) (str : list Z) : (exists d, GetTimeFromString zone str = Ok d) \/ GetTimeFromString zone str = Fault.
Proof.
  destruct (new_parser_ok str) as (p & R & Hp). unfold GetTimeFromString, ParseDateString. rewrite <- bind_assoc. mstep with R. rewrite <- bind_assoc. clear R.
  pose proof (proj1 forward_iso p Hp) as Hi. destruct (IsIsoDateTime p) as [r p1] eqn:E. destruct Hi as (Hr & Hp1 & _). destruct Hr as [[iso ->]| ->]; [mstep with E|right; by rewrite (bind_Fault _ _ _ _ E)]. rewrite <- bind_assoc.
  assert ((exists b, ((if iso then ParseIsoDateTime else ParseLegacyDates) p1).1 = Ok b) \/ ((if iso then ParseIsoDateTime else ParseLegacyDates) p1).1 = Fault) as Hb.
  { destruct iso; [|by apply legacy_ends]. pose proof (proj2 forward_iso p1 Hp1) as Hj. destruct (ParseIsoDateTime p1) as [r2 p2]. destruct Hj as [Hj _]. cbn [fst]. naive_solver. }
  destruct ((if iso then ParseIsoDateTime else ParseLegacyDates) p1) as [r2 p2] eqn:E2. cbn [fst] in Hb. destruct Hb as [[b ->]| ->]; [mstep with E2|right; by rewrite (bind_Fault _ _ _ _ E2)].
  revert p2 E2. destruct b; intros p2 _; [|left; by eexists]. apply ends_bind; [|intros []; [apply ends_time_value|apply ends_ret]]. apply ends_bind; [intros s; left; by eexists|intros q]. apply ends_bind; [apply ends_SetTimeZone|intros time; apply ends_ret].
Qed.

(** "Saturday Feb 29 2020 00:00:00 (a long remark)": the words are longer than the
    three letters that are kept of them. *)
Lemma date_parse_terminates_witness :
  exists d, GetTimeFromString (fun _ => Some 0) [83; 97; 116; 117; 114; 100; 97; 121; 32; 70; 101; 98; 32; 50; 57; 32; 50; 48; 50; 48; 32; 48; 48; 58; 48; 48; 58; 48; 48; 32; 40; 97; 32; 108; 111; 110; 103; 32; 114; 101; 109; 97; 114; 107; 41] = Ok d.
Proof.
  destruct (date_parse_terminates (fun _ => Some 0) [83; 97; 116; 117; 114; 100; 97; 121; 32; 70; 101; 98; 32; 50; 57; 32; 50; 48; 50; 48; 32; 48; 48; 58; 48; 48; 58; 48; 48; 32; 40; 97; 32; 108; 111; 110; 103; 32; 114; 101; 109; 97; 114; 107; 41]) as [H|H]; [exact H|].
  exfalso. vm_compute in H. discriminate H.
Defined.
End DateParse.
