(* ===== verification/DateRoundtrip.v ===== *)
(** * DateRoundtrip: what JSDate prints, Date.parse reads.

    The texts of DateString are read unit by unit with the lemmas of DateParse. *)
From S2P Require Import Prelude TaggedValue Double DateUtils JSDate DateString DateParse.
Import Double DateUtils JSDate DateString DateParse.
Local Open Scope Z_scope.

Module DateRoundtrip.

(** ** Units of printed texts *)

Lemma unit_field (k : nat) (n : Z) (ds cs : list Z) : is_field k n ds -> (1 <= k <= 8)%nat -> no_digit cs -> unit_of (ds ++ cs) (mkUnit DATE_NUMBER n (Z.of_nat k)) cs.
Proof.
  intros (Hd & <- & <-) Hk Hn. apply unit_number; [done|by destruct ds; [simpl in Hk; lia|]| |done]. pose proof (dec_range ds Hd) as [_ Hr].
  assert (10 ^ lenZ ds <= 10 ^ 8) by (apply Z.pow_le_mono_r; unfold lenZ; lia). change maxDecimal with 214748363. lia.
Qed.

Lemma no_digit_field (k : nat) (n : Z) (ds cs : list Z) : is_field k n ds -> (1 <= k)%nat -> no_letter (ds ++ cs).
Proof. intros (Hd & _ & <-) Hk. destruct Hd as [|d ds Hd _]; [simpl in Hk; lia|]. simpl. unfold digit, letter in *. lia. Qed.

(** The words T and Z. *)
Lemma unit_T (cs : list Z) : no_letter cs -> unit_of (84 :: cs) (mkUnit DATE_TIME_FALG 0 1) cs.
Proof. intros Hn. apply (unit_word [84] cs); [|done|done|reflexivity]. apply list.Forall_singleton. unfold letter. lia. Qed.

Lemma unit_Z (cs : list Z) : no_letter cs -> unit_of (90 :: cs) (mkUnit DATE_TIME_ZONE 0 1) cs.
Proof. intros Hn. apply (unit_word [90] cs); [|done|done|reflexivity]. apply list.Forall_singleton. unfold letter. lia. Qed.

Lemma unit_sym (ch : Z) (cs : list Z) : bool_decide (ch ∈ [58; 43; 45; 46]) = true -> unit_of (ch :: cs) (Symbol ch) cs.
Proof. intros H. apply unit_symbol. by apply bool_decide_eq_true in H. Qed.

(** The parser goes to the next unit of its text. *)
Ltac next U :=
  match goal with
  | Hr : reads ?r _ |- context [mkParser ?r ?u ?d ?t ?z] =>
      let r' := fresh "r" in let R := fresh in let Hr' := fresh "Hr" in
      destruct (NextDate_run r _ _ u _ d t z Hr U) as (r' & R & Hr'); mstep with R; clear R Hr
  end.

(** The tests on units decide, whatever the numbers are. *)
Ltac decides t := let b := eval vm_compute in t in match b with true => change t with true | false => change t with false end.

Ltac test :=
  match goal with
  | |- context [IsSign ?u] => decides (IsSign u)
  | |- context [IsSymbol ?u ?c] => decides (IsSymbol u c)
  | |- context [IsSixDecimalDigit ?u] => decides (IsSixDecimalDigit u)
  | |- context [IsFourDecimalDigit ?u] => decides (IsFourDecimalDigit u)
  | |- context [IsTwoDecimalDigit ?u] => decides (IsTwoDecimalDigit u)
  | |- context [IsTimeFlag ?u] => decides (IsTimeFlag u)
  | |- context [IsNumber ?u] => decides (IsNumber u)
  | |- context [IsWordZ ?u] => decides (IsWordZ u)
  | |- context [IsStringEnd ?u] => decides (IsStringEnd u)
  | |- context [IsMonth ?u] => decides (IsMonth u)
  | |- context [IsTimeZone ?u] => decides (IsTimeZone u)
  | |- context [IsInvalidWord ?u] => decides (IsInvalidWord u)
  | |- context [IsValidFinallyTime ?u] => decides (IsValidFinallyTime u)
  end; cbn [negb andb orb].

(** The parser runs up to the next unit. *)
Ltac go :=
  cbn [negb andb orb]; repeat (first [test | match goal with |- context [mbind _ ?m (mkParser _ _ _ _ _)] => lazymatch m with NextDate => fail | mbind _ _ => rewrite <- bind_assoc | _ => mstep end end]; cbn [negb andb orb date_ dayValue timeValue timeZone str_]).

Definition start_time : TimeValue := mkTime [0; 0; 0; 0] 0.
Definition start_zone : TimeZone := mkZone INT_MAX INT_MAX INT_MAX.

(** The unit with which the parser starts. *)
Ltac first_unit Hr U :=
  let r := fresh "r" in let R := fresh in let Hr' := fresh "Hr" in
  destruct (read_date_run _ _ _ Unknown _ (mkDay [0; 0; 0] 0 INT_MAX false) start_time start_zone Hr U) as (r & R & Hr');
  eexists; split; [exact R|]; clear R Hr.

Lemma iso_year_parse (y : Z) (str cs : list Z) : is_iso_year y str ->
  exists p, read_date (new_parser (str ++ 45 :: cs)) = (Ok tt, p) /\
    exists r, iso_year p = (Ok true, mkParser r (Symbol 45) (mkDay [y; 0; 0] 1 INT_MAX false) start_time start_zone) /\ reads r cs.
Proof.
  intros Hy. pose proof (new_reader_reads (str ++ 45 :: cs)) as Hr.
  destruct Hy as [[Hy Hf]|[(Hy & ds & -> & Hf)|(Hy & ds & -> & Hf)]].
  - first_unit Hr (unit_field 4 y str (45 :: cs) Hf ltac:(lia) ltac:(simpl; unfold digit; lia)). unfold iso_year. go. next (unit_sym 45 cs eq_refl). go. eexists. split; [reflexivity|done].
  - first_unit Hr (unit_sym 43 (ds ++ 45 :: cs) eq_refl). unfold iso_year. go. next (unit_field 6 y ds (45 :: cs) Hf ltac:(lia) ltac:(simpl; unfold digit; lia)). go. next (unit_sym 45 cs eq_refl). go. eexists. split; [reflexivity|done].
  - first_unit Hr (unit_sym 45 (ds ++ 45 :: cs) eq_refl). unfold iso_year. go. next (unit_field 6 (- y) ds (45 :: cs) Hf ltac:(lia) ltac:(simpl; unfold digit; lia)). go. next (unit_sym 45 cs eq_refl). cbn [unit_value].
    rewrite (proj2 (Z.eqb_neq (- y) 0)) by lia. go. eexists. rewrite Z.opp_involutive. split; [reflexivity|done].
Qed.

(** Not a digit, not a letter. *)
Ltac sep := simpl; unfold digit, letter; lia.

Lemma iso_month_day_parse (r : StringReader) (y m d : Z) (ms ds cs : list Z) : reads r (ms ++ 45 :: ds ++ 84 :: cs) -> is_field 2 m ms -> is_field 2 d ds -> no_letter cs ->
  exists r', iso_month_day (mkParser r (Symbol 45) (mkDay [y; 0; 0] 1 INT_MAX false) start_time start_zone) = (Ok true, mkParser r' (mkUnit DATE_TIME_FALG 0 1) (mkDay [y; m; d] 3 INT_MAX false) start_time start_zone) /\ reads r' cs.
Proof.
  intros Hr Hm Hd Hn. unfold iso_month_day. go. next (unit_field 2 m ms (45 :: ds ++ 84 :: cs) Hm ltac:(lia) ltac:(sep)). go. next (unit_sym 45 (ds ++ 84 :: cs) eq_refl). go. next (unit_field 2 d ds (84 :: cs) Hd ltac:(lia) ltac:(sep)). go. next (unit_T cs Hn). go.
  eexists. split; [reflexivity|done].
Qed.

Lemma iso_time_parse (r : StringReader) (u : DateUnit) (d : DayValue) (h mi s ms : Z) (hs mis ss mss cs : list Z) :
  reads r (hs ++ 58 :: mis ++ 58 :: ss ++ 46 :: mss ++ 90 :: cs) -> is_field 2 h hs -> is_field 2 mi mis -> is_field 2 s ss -> is_field 3 ms mss -> no_letter cs ->
  exists r', iso_time (mkParser r u d start_time start_zone) = (Ok true, mkParser r' (mkUnit DATE_TIME_ZONE 0 1) d (mkTime [h; mi; s; ms] 4) start_zone) /\ reads r' cs.
Proof.
  intros Hr Hh Hmi Hs Hms Hn. unfold iso_time. next (unit_field 2 h hs (58 :: mis ++ 58 :: ss ++ 46 :: mss ++ 90 :: cs) Hh ltac:(lia) ltac:(sep)). go. next (unit_sym 58 (mis ++ 58 :: ss ++ 46 :: mss ++ 90 :: cs) eq_refl). go.
  next (unit_field 2 mi mis (58 :: ss ++ 46 :: mss ++ 90 :: cs) Hmi ltac:(lia) ltac:(sep)). go. next (unit_sym 58 (ss ++ 46 :: mss ++ 90 :: cs) eq_refl). go. next (unit_field 2 s ss (46 :: mss ++ 90 :: cs) Hs ltac:(lia) ltac:(sep)). go.
  next (unit_sym 46 (mss ++ 90 :: cs) eq_refl). go. next (unit_field 3 ms mss (90 :: cs) Hms ltac:(lia) ltac:(sep)). go. next (unit_Z cs Hn). go. eexists. split; [reflexivity|done].
Qed.

(** The text of a time and of a date in the ISO format. *)
Definition iso_text (year month day hour minute second ms : list Z) : list Z :=
  year ++ 45 :: month ++ 45 :: day ++ 84 :: hour ++ 58 :: minute ++ 58 :: second ++ 46 :: ms ++ [90].

Lemma iso_parse (y m d h mi s ms : Z) (ys mos ds hs mis ss mss : list Z) :
  is_iso_year y ys -> is_field 2 m mos -> is_field 2 d ds -> is_field 2 h hs -> is_field 2 mi mis -> is_field 2 s ss -> is_field 3 ms mss ->
  exists r u, (read_date;; isIso ← IsIsoDateTime; if isIso : bool then ParseIsoDateTime else ParseLegacyDates) (new_parser (iso_text ys mos ds hs mis ss mss)) =
    (Ok true, mkParser r u (mkDay [y; m; d] 3 INT_MAX true) (mkTime [h; mi; s; ms] 4) (mkZone 1 0 0)).
Proof.
  intros Hy Hm Hd Hh Hmi Hs Hms. unfold iso_text, IsIsoDateTime.
  destruct (iso_year_parse y ys (mos ++ 45 :: ds ++ 84 :: hs ++ 58 :: mis ++ 58 :: ss ++ 46 :: mss ++ [90]) Hy) as (p0 & R0 & r1 & R1 & Hr1). mstep with R0. clear R0. rewrite <- bind_assoc. mstep with R1. clear R1. cbn [negb]. rewrite <- bind_assoc.
  destruct (iso_month_day_parse r1 y m d mos ds _ Hr1 Hm Hd ltac:(by apply (no_digit_field 2 h); [done|lia])) as (r2 & R2 & Hr2). mstep with R2. clear R2 Hr1. go. unfold ParseIsoDateTime. go.
  destruct (iso_time_parse r2 (mkUnit DATE_TIME_FALG 0 1) (mkDay [y; m; d] 3 INT_MAX false) h mi s ms hs mis ss mss [] Hr2 Hh Hmi Hs Hms I) as (r3 & R3 & Hr3). mstep with R3. clear R3 Hr2. unfold iso_zone. go. next unit_end. go.
  eexists _, _. reflexivity.
Qed.
(** ** ISO texts *)

Lemma year_280000 (y m d n : Z) : valid_date y m d -> day_number y m d = n -> Z.abs n <= 100000003 -> Z.abs y <= 280000.
Proof. intros H E Hn. pose proof (day_in_year _ _ _ H) as Hy. rewrite E, GetDaysFromYear_spec in Hy. unfold GetDaysInYear, DAYS_IN_YEAR in Hy. destruct (IsLeap y); zlia. Qed.

(** The fields of a time value. *)
Lemma fields_of_valid (t z : Z) : valid_fields (fields_of t z).
Proof.
  unfold valid_fields, fields_of. destruct (civil_from_days (t / 86400000)) as [[y m] d] eqn:E. destruct (civil_date _ _ _ _ E) as [Hv _]. cbn [length lookup_total list_lookup_total YEAR MONTH DAYS HOUR MIN SEC MS].
  assert (0 <= t mod 86400000 < 86400000) as Hr by (apply Z.mod_pos_bound; lia). generalize dependent (t mod 86400000). intros r Hr. clear E. split; [done|]. split; [done|]. clear Hv. split_and!; zlia.
Qed.

Lemma fields_of_year (t z : Z) : Z.abs t <= 8640000172800000 -> Z.abs (fields_of t z !!! YEAR) <= 280000.
Proof.
  intros Ht. unfold fields_of. destruct (civil_from_days (t / 86400000)) as [[y m] d] eqn:E. destruct (civil_date _ _ _ _ E) as [Hv Hn]. cbn [lookup_total list_lookup_total YEAR]. apply (year_280000 _ _ _ _ Hv Hn). clear - Ht. zlia.
Qed.

Lemma ToISOString_run (zone : Z -> option Z) (t : Z) (c : Cache) : Z.abs t <= MAX_TIME -> zone_ok zone -> cache_ok c ->
  let f := fields_of t 0 in
  exists c' ys mos ds hs mis ss mss, ToISOString zone (double_of_int t) c = (Ok (Some (iso_text ys mos ds hs mis ss mss)), c') /\ cache_ok c' /\
    is_iso_year (f !!! YEAR) ys /\ is_field 2 (f !!! MONTH + 1) mos /\ is_field 2 (f !!! DAYS) ds /\ is_field 2 (f !!! HOUR) hs /\ is_field 2 (f !!! MIN) mis /\ is_field 2 (f !!! SEC) ss /\ is_field 3 (f !!! MS) mss.
Proof.
  intros Ht Hz Hc f. destruct (GetDateValues_run zone t false c Ht Hz Hc) as (c' & R & Hc'). cbn [GetLocalOffsetFromOS negb] in R. rewrite Z.mul_0_l, Z.add_0_r in R. change (- 0) with 0 in R. fold f in R.
  pose proof (fields_of_valid t 0 : valid_fields f) as (_ & [Hm Hd] & Hh & Hmi & Hs & Hms). pose proof (month_length_28 (f !!! YEAR) (f !!! MONTH) Hm) as H28. unfold MAX_TIME in Ht. pose proof (fields_of_year t 0 ltac:(lia) : Z.abs (f !!! YEAR) <= 280000) as Hy. clearbody f.
  unfold ToISOString, GetThisDateValues, STR_LENGTH_OTHERS. rewrite isnan_int. mstep by (by mstep with R).
  destruct (iso_year_run (f !!! YEAR) c') as (ys & R1 & H1); [lia|]. mstep with R1.
  destruct (print_field_run (f !!! MONTH + 1) 2 c') as (mos & R2 & H2); [lia|change (10 ^ Z.of_nat 2) with 100; lia|]. mstep with R2.
  destruct (print_field_run (f !!! DAYS) 2 c') as (ds & R3 & H3); [lia|change (10 ^ Z.of_nat 2) with 100; lia|]. mstep with R3.
  destruct (print_field_run (f !!! HOUR) 2 c') as (hs & R4 & H4); [lia|change (10 ^ Z.of_nat 2) with 100; lia|]. mstep with R4.
  destruct (print_field_run (f !!! MIN) 2 c') as (mis & R5 & H5); [lia|change (10 ^ Z.of_nat 2) with 100; lia|]. mstep with R5.
  destruct (print_field_run (f !!! SEC) 2 c') as (ss & R6 & H6); [lia|change (10 ^ Z.of_nat 2) with 100; lia|]. mstep with R6.
  destruct (print_field_run (f !!! MS) 3 c') as (mss & R7 & H7); [lia|change (10 ^ Z.of_nat 3) with 1000; lia|]. change (Z.of_nat 3) with (2 + 1) in R7. mstep with R7.
  exists c', ys, mos, ds, hs, mis, ss, mss. done.
Qed.
(** Accesses to arrays of known length. *)
Ltac fields := cbv beta iota zeta delta [lookup_total list_lookup_total insert list_insert time_index time_data day_index day_data month_ isIsoFlag_ YEAR MONTH DAYS HOUR MIN SEC MS TIMEZONE].

(** What the parser makes of a date and a time. *)
Lemma SetTimeValue_run (h mi s ms a b c w z : Z) : 0 <= h < 24 -> 0 <= mi < 60 -> 0 <= s < 60 -> 0 <= ms < 1000 ->
  DateParse.SetTimeValue (mkTime [h; mi; s; ms] 4) [a; b; c; 0; 0; 0; 0; w; z] = Some [a; b; c; h; mi; s; ms; w; z].
Proof.
  intros Hh Hmi Hs Hms. unfold DateParse.SetTimeValue, HourIsValid, MinuteIsValid, SecondIsValid, MilliSecondIsValid, IsBetween. fields.
  change (Z.of_nat 0 <? 4) with true. change (Z.of_nat 1 <? 4) with true. change (Z.of_nat 2 <? 4) with true. change (Z.of_nat 3 <? 4) with true. cbv iota. zb. done.
Qed.

Lemma SetDayValue_iso (y m d h mi s ms w z : Z) : 0 <= m < 12 -> 1 <= d <= 31 ->
  SetDayValue (mkDay [y; m + 1; d] 3 INT_MAX true) [0; 0; 0; h; mi; s; ms; w; z] = Some [y; m; d; h; mi; s; ms; w; z].
Proof.
  intros Hm Hd. unfold SetDayValue, MonthIsValid, DayIsValid, IsBetween, MOUTH_PER_YEAR, MAX_DAYS_MONTH. fields.
  change (Z.of_nat 0 <? 3) with true. change (Z.of_nat 1 <? 3) with true. change (Z.of_nat 2 <? 3) with true. cbn [orb Z.eqb Pos.eqb]. rewrite Z.eqb_refl. cbv iota. zb. replace (m + 1 - 1) with m by lia. done.
Qed.

(** The fields of a time as a list. *)
Lemma fields_list (t z : Z) : Z.abs t <= 8640000172800000 -> exists y m d h mi s ms w, fields_of t z = [y; m; d; h; mi; s; ms; w; z] /\
  Z.abs y <= 280000 /\ 0 <= m < 12 /\ 1 <= d <= 31 /\ 0 <= h < 24 /\ 0 <= mi < 60 /\ 0 <= s < 60 /\ 0 <= ms < 1000 /\ 0 <= w < 7.
Proof.
  intros Ht. pose proof (fields_of_year t z Ht) as Hy. pose proof (fields_of_valid t z) as (_ & [Hm Hd] & Hh & Hmi & Hs & Hms). revert Hy Hm Hd Hh Hmi Hs Hms. unfold fields_of. destruct (civil_from_days (t / 86400000)) as [[y m] d].
  cbn [lookup_total list_lookup_total YEAR MONTH DAYS HOUR MIN SEC MS]. intros Hy Hm Hd Hh Hmi Hs Hms. pose proof (month_length_28 y m Hm). pose proof (Z.mod_pos_bound (t / 86400000 + 4) 7 ltac:(lia)). eexists _, _, _, _, _, _, _, _. split; [reflexivity|]. split_and!; (done || lia).
Qed.

Lemma time_of_list (y m d h mi s ms w z : Z) : time_of [y; m; d; h; mi; s; ms; w; z] = make_day y m d * 86400000 + h * 3600000 + mi * 60000 + s * 1000 + ms.
Proof. reflexivity. Qed.

(** The time of a text that has been read. *)
Lemma parsed_time (zone : Z -> option Z) (text : list Z) (p : Parser) (y m d h mi s ms tz : Z) :
  (read_date;; isIso ← IsIsoDateTime; if isIso : bool then ParseIsoDateTime else ParseLegacyDates) (new_parser text) = (Ok true, p) ->
  SetTimeZone (timeZone p) (replicate DATE_LENGTH 0) p = (Ok (Some [0; 0; 0; 0; 0; 0; 0; 0; tz]), p) ->
  DateParse.SetTimeValue (timeValue p) [0; 0; 0; 0; 0; 0; 0; 0; tz] = Some [0; 0; 0; h; mi; s; ms; 0; tz] ->
  SetDayValue (dayValue p) [0; 0; 0; h; mi; s; ms; 0; tz] = Some [y; m; d; h; mi; s; ms; 0; tz] ->
  Z.abs y <= 280000 -> 0 <= m < 12 -> 1 <= d <= 31 -> 0 <= h < 24 -> 0 <= mi < 60 -> 0 <= s < 60 -> 0 <= ms < 1000 -> zone_ok zone -> tz = INT_MAX \/ Z.abs tz <= 90000 ->
  let t := time_of [y; m; d; h; mi; s; ms; 0; tz] in
  GetTimeFromString zone text = Ok (if Z.abs t <=? 8640000000000000 then double_of_int (t - zone_ms zone t tz) else DNaN).
Proof.
  intros R Rz Rt Rd Hy Hm Hd Hh Hmi Hs Hms Hz Htz t. unfold GetTimeFromString.
  assert (ParseDateString (replicate DATE_LENGTH 0) (new_parser text) = (Ok (Some [y; m; d; h; mi; s; ms; 0; tz]), p)) as Rp.
  { assert (exists p0, read_date (new_parser text) = (Ok tt, p0) /\ (isIso ← IsIsoDateTime; if isIso : bool then ParseIsoDateTime else ParseLegacyDates) p0 = (Ok true, p)) as (p0 & R0 & R1).
    { destruct (read_date (new_parser text)) as [[[]| | |] p0] eqn:R0; [|exfalso; revert R; unfold mbind, M_bind; by rewrite R0..]. exists p0. split; [done|]. by rewrite (bind_Ok _ _ _ _ _ R0) in R. }
    unfold ParseDateString. mstep with R0. rewrite bind_assoc. mstep with R1. mstep. mstep with Rz. by rewrite Rt, Rd. }
  mstep with Rp. rewrite time_value_run by (done || lia). done.
Qed.

(** C5: Date.parse reads what toISOString prints: for each time value there is an
    ISO text, and its time is the time value, in every time zone. *)
Theorem date_iso_roundtrip (zone : Z -> option Z) (t : Z) (c : Cache) :
  Z.abs t <= MAX_TIME -> zone_ok zone -> cache_ok c ->
  exists text c', ToISOString zone (double_of_int t) c = (Ok (Some text), c') /\ GetTimeFromString zone text = Ok (double_of_int t).
Proof.
  intros Ht Hz Hc. destruct (ToISOString_run zone t c Ht Hz Hc) as (c' & ys & mos & ds & hs & mis & ss & mss & R & _ & Hy & Hm & Hd & Hh & Hmi & Hs & Hms). exists (iso_text ys mos ds hs mis ss mss), c'. split; [done|]. clear R.
  destruct (iso_parse _ _ _ _ _ _ _ _ _ _ _ _ _ _ Hy Hm Hd Hh Hmi Hs Hms) as (r & u & R). clear Hy Hm Hd Hh Hmi Hs Hms. unfold MAX_TIME in Ht.
  destruct (fields_list t 0 ltac:(lia)) as (y & m & d & h & mi & s & ms & w & E & Hy & Hm & Hd & Hh & Hmi & Hs & Hms & _). pose proof (time_of_fields t 0) as Et. rewrite E in R, Et. cbn [lookup_total list_lookup_total YEAR MONTH DAYS HOUR MIN SEC MS] in R.
  rewrite (parsed_time zone _ _ y m d h mi s ms 0 R) by (first [done | lia | reflexivity | by apply SetTimeValue_run | by apply SetDayValue_iso | right; lia]).
  rewrite time_of_list in Et |- *. rewrite Et, (proj2 (Z.leb_le _ _)) by done. do 2 f_equal. unfold zone_ms. change (0 =? INT_MAX) with false. cbv iota. lia.
Qed.

(** ** Texts with names *)

(** A round of the loop on a unit that is not the end. *)
Lemma legacy_round_run (n : nat) (date u u' : DateUnit) (hn hn' : bool) (p : Parser) (r : StringReader) (d : DayValue) (t : TimeValue) (z : TimeZone) (cs cs' : list Z) :
  IsStringEnd date = false -> legacy_unit date hn p = (Ok (Some hn'), mkParser r u d t z) -> reads r cs -> unit_of cs u' cs' ->
  exists r', while_fuel (Datatypes.S n) legacy_round (date, hn) p = while_fuel n legacy_round (u, hn') (mkParser r' u' d t z) /\ reads r' cs'.
Proof.
  intros He R Hr Hu. destruct (NextDate_run r cs cs' u u' d t z Hr Hu) as (r' & Rn & Hr'). exists r'. split; [|done]. cbn [while_fuel legacy_round]. rewrite He. rewrite <- bind_assoc. mstep with R. rewrite <- bind_assoc. by mstep with Rn.
Qed.

(** Units that stand for nothing. *)
Lemma skip_unit (date : DateUnit) (hn : bool) (p : Parser) : date = Space \/ date = Unknown -> legacy_unit date hn p = (Ok (Some hn), p).
Proof. by intros [-> | ->]. Qed.

Lemma SetDayData_run (n : Z) (r : StringReader) (u : DateUnit) (l : list Z) (i m : Z) (iso : bool) (t : TimeValue) (z : TimeZone) : i < 3 ->
  SetDayData n (mkParser r u (mkDay l i m iso) t z) = (Ok true, mkParser r u (mkDay (<[Z.to_nat i := n]> l) (i + 1) m iso) t z).
Proof. intros Hi. unfold SetDayData, DAY_LEN. mstep. cbn [dayValue day_index]. by rewrite (proj2 (Z.ltb_lt i 3)) by done. Qed.

Lemma SetTimeData_run (n : Z) (r : StringReader) (u : DateUnit) (l : list Z) (i : Z) (d : DayValue) (z : TimeZone) : i < 4 ->
  SetTimeData n (mkParser r u d (mkTime l i) z) = (Ok true, mkParser r u d (mkTime (<[Z.to_nat i := n]> l) (i + 1)) z).
Proof. intros Hi. unfold SetTimeData, TIME_LEN. mstep. cbn [timeValue time_index]. by rewrite (proj2 (Z.ltb_lt i 4)) by done. Qed.

(** A number that is a day or a year. *)
Lemma day_number_unit (n k : Z) (u : DateUnit) (r : StringReader) (l : list Z) (i m : Z) (t : TimeValue) (z : TimeZone) (hn iso : bool) :
  IsSymbol u 58 = false -> IsSymbol u 46 = false -> IsValid t n = false -> i < 3 ->
  legacy_unit (mkUnit DATE_NUMBER n k) hn (mkParser r u (mkDay l i m iso) t z) = (Ok (Some true), mkParser r u (mkDay (<[Z.to_nat i := n]> l) (i + 1) m iso) t z).
Proof.
  intros H1 H2 H3 Hi. unfold legacy_unit. mstep. repeat test. erewrite (bind_Ok _ _ _ _ true); [reflexivity|]. unfold legacy_number. mstep. mstep. cbn [date_ timeValue unit_value]. rewrite H1, H2, H3. cbn [andb]. by mstep by (by apply SetDayData_run).
Qed.

(** Hours or minutes: a number, a colon and a number. *)
Lemma clock_unit (n k n' k' : Z) (r : StringReader) (cs cs' : list Z) (l : list Z) (i : Z) (d : DayValue) (z : TimeZone) (hn : bool) :
  reads r cs -> unit_of cs (mkUnit DATE_NUMBER n' k') cs' -> i < 4 ->
  exists r', legacy_unit (mkUnit DATE_NUMBER n k) hn (mkParser r (Symbol 58) d (mkTime l i) z) = (Ok (Some true), mkParser r' (mkUnit DATE_NUMBER n' k') d (mkTime (<[Z.to_nat i := n]> l) (i + 1)) z) /\ reads r' cs'.
Proof.
  intros Hr Hu Hi. destruct (NextDate_run r cs cs' (Symbol 58) _ d (mkTime l i) z Hr Hu) as (r' & R & Hr'). exists r'. split; [|done]. unfold legacy_unit. mstep. repeat test. erewrite (bind_Ok _ _ _ _ true); [reflexivity|]. unfold legacy_number. mstep. mstep. cbn [date_ unit_value]. repeat test.
  mstep with R. mstep. cbn [date_]. repeat test. by mstep by (by apply SetTimeData_run).
Qed.

(** Seconds before a space. *)
Lemma second_unit (n k : Z) (r : StringReader) (l : list Z) (d : DayValue) (z : TimeZone) (hn : bool) : 0 <= n < 60 ->
  legacy_unit (mkUnit DATE_NUMBER n k) hn (mkParser r Space d (mkTime l 2) z) = (Ok (Some true), mkParser r Space d (mkTime (<[2%nat := n]> l) 3) z).
Proof.
  intros Hn. unfold legacy_unit. mstep. repeat test. erewrite (bind_Ok _ _ _ _ true); [reflexivity|]. unfold legacy_number. mstep. mstep. cbn [date_ unit_value timeValue]. repeat test. unfold IsValid, MinuteIsValid, SecondIsValid, IsBetween. cbn [time_index]. change (2 =? 1) with false. change (2 =? 2) with true. zb. cbv iota. cbn [andb orb].
  mstep by (by apply SetTimeData_run). mstep. cbn [date_]. repeat test. done.
Qed.
Ltac word :=
  match goal with |- unit_of (?ws ++ ?cs) (mkUnit ?type ?value _) _ => apply (unit_word ws cs type value); [repeat constructor; unfold letter; lia|done|done|reflexivity] end.

Lemma unit_weekday (w : Z) (name cs : list Z) : weekdayName !! Z.to_nat w = Some name -> no_letter cs -> unit_of (name ++ cs) (mkUnit DATE_INVALID_WORD 0 3) cs.
Proof.
  intros Hw Hn. generalize dependent (Z.to_nat w). intros i Hi. do 7 (destruct i as [|i]; [injection Hi as <-; word|]). done.
Qed.

Lemma unit_month (m : Z) (name cs : list Z) : 0 <= m -> monthName !! Z.to_nat m = Some name -> no_letter cs -> unit_of (name ++ cs) (mkUnit DATE_MONTH (m + 1) 3) cs.
Proof.
  intros H0 Hm Hn. rewrite <- (Z2Nat.id m) by done. generalize dependent (Z.to_nat m). intros i Hi. do 12 (destruct i as [|i]; [injection Hi as <-; word|]). done.
Qed.

Lemma unit_GMT (cs : list Z) : no_letter cs -> unit_of (GMT ++ cs) (mkUnit DATE_TIME_ZONE 1 3) cs.
Proof. intros Hn. word. Qed.

Lemma name_at_run {S} (names : list (list Z)) (i : Z) (s : S) : 0 <= i < lenZ names -> exists name, name_at names i s = (Ok name, s) /\ names !! Z.to_nat i = Some name.
Proof.
  intros Hi. unfold name_at. rewrite (proj2 (Z.ltb_ge i 0)) by lia. destruct (lookup_lt_is_Some_2 names (Z.to_nat i)) as [name E]; [unfold lenZ in Hi; lia|]. exists name. by rewrite E.
Qed.

(** A year from 0 on, in four digits or more. *)
Lemma year_text_run {S} (y : Z) (s : S) : 0 <= y <= 999999 -> exists ds, print_field y 4 s = (Ok ds, s) /\ Forall digit ds /\ dec ds = y /\ (1 <= length ds <= 6)%nat.
Proof.
  intros Hy. destruct (Z_lt_le_dec y 10000) as [H4|H4].
  - destruct (print_field_run y 4 s) as (ds & R & Hd & Hv & Hl); [lia|change (10 ^ Z.of_nat 4) with 10000; lia|]. exists ds. split_and!; [done..|lia|lia].
  - unfold print_field. destruct (ToCString_run BUFF_SIZE_INT64 y s) as (ds & R & Hd & Hv & Hl1 & Hl); [unfold BUFF_SIZE_INT64; lia|change (Z.of_nat (BUFF_SIZE_INT64 - 2)) with 19; lia|]. rewrite (proj2 (Z.leb_le 0 y)) in R by lia. mstep with R.
    pose proof (dec_range ds Hd) as Hr. assert (4 < lenZ ds) as H5 by (destruct (Z_le_gt_dec (lenZ ds) 4) as [Hle|]; [|lia]; assert (10 ^ lenZ ds <= 10 ^ 4) by (apply Z.pow_le_mono_r; lia); lia).
    exists ds. unfold StrToTargetLength. rewrite digits_not_neg by done. replace (Z.to_nat (4 - lenZ ds)) with 0%nat by lia. split; [done|]. split_and!; [done|lia|done|apply Hl; [lia|change (10 ^ Z.of_nat 6) with 1000000; lia]].
Qed.

(** One round on the unit before the text [cs]. *)
Tactic Notation "round" constr(R) constr(U) "as" ident(r') ident(Hr') :=
  match goal with
  | Hr : reads ?r _ |- context [while_fuel (Datatypes.S ?n) legacy_round (?date, ?hn) ?p] =>
      let E := fresh in
      destruct (legacy_round_run n date _ _ hn _ p _ _ _ _ _ _ eq_refl R Hr U) as (r' & E & Hr'); rewrite E; clear E Hr
  end.

(** The time of the day and the word GMT. *)
Lemma clock_rounds (n : nat) (r : StringReader) (h mi s : Z) (mis ss rest cs' cs'' : list Z) (u' u'' : DateUnit) (d : DayValue) :
  reads r (58 :: mis ++ 58 :: ss ++ 32 :: GMT ++ rest) -> is_field 2 mi mis -> is_field 2 s ss -> 0 <= s < 60 -> no_letter rest -> unit_of rest u' cs' -> unit_of cs' u'' cs'' ->
  exists r', while_fuel (6 + n) legacy_round (Space, true) (mkParser r (mkUnit DATE_NUMBER h 2) d start_time start_zone) =
    while_fuel n legacy_round (u', true) (mkParser r' u'' d (mkTime [h; mi; s; 0] 3) (mkZone 1 0 0)) /\ reads r' cs''.
Proof.
  intros Hr Hmi Hs Hs60 Hn Hu Hu'. cbn [Nat.add]. round (skip_unit Space true (mkParser r (mkUnit DATE_NUMBER h 2) d start_time start_zone) (or_introl eq_refl)) (unit_sym 58 (mis ++ 58 :: ss ++ 32 :: GMT ++ rest) eq_refl) as r0 Hr0.
  destruct (clock_unit h 2 mi 2 r0 _ _ [0; 0; 0; 0] 0 d start_zone true Hr0 (unit_field 2 mi mis (58 :: ss ++ 32 :: GMT ++ rest) Hmi ltac:(lia) ltac:(sep)) ltac:(lia)) as (r1 & R1 & Hr1). clear Hr0. round R1 (unit_sym 58 (ss ++ 32 :: GMT ++ rest) eq_refl) as r2 Hr2.
  destruct (clock_unit mi 2 s 2 r2 _ _ [h; 0; 0; 0] 1 d start_zone true Hr2 (unit_field 2 s ss (32 :: GMT ++ rest) Hs ltac:(lia) ltac:(sep)) ltac:(lia)) as (r3 & R3 & Hr3). clear Hr2. round R3 (unit_space (GMT ++ rest)) as r4 Hr4.
  round (second_unit s 2 r4 [h; mi; 0; 0] d start_zone true Hs60) (unit_GMT rest Hn) as r5 Hr5. round (skip_unit Space true (mkParser r5 (mkUnit DATE_TIME_ZONE 1 3) d (mkTime [h; mi; s; 0] 3) start_zone) (or_introl eq_refl)) Hu as r6 Hr6.
  assert (legacy_unit (mkUnit DATE_TIME_ZONE 1 3) true (mkParser r6 u' d (mkTime [h; mi; s; 0] 3) start_zone) = (Ok (Some true), mkParser r6 u' d (mkTime [h; mi; s; 0] 3) (mkZone 1 0 0))) as R6 by reflexivity.
  round R6 Hu' as r7 Hr7. eexists. split; [reflexivity|done].
Qed.
(** A text that starts with a word is not in the ISO format. *)
Lemma not_iso (u : DateUnit) (r : StringReader) (d : DayValue) (t : TimeValue) (z : TimeZone) : type_ u = DATE_INVALID_WORD ->
  (isIso ← IsIsoDateTime; if isIso : bool then ParseIsoDateTime else ParseLegacyDates) (mkParser r u d t z) = ParseLegacyDates (mkParser r u d t z).
Proof. destruct u as [ty v l]. cbn [type_]. intros ->. unfold IsIsoDateTime. go. unfold iso_year. go. done. Qed.

Lemma fuel_rounds (r : StringReader) (cs : list Z) (k : nat) : reads r cs -> (k <= length cs)%nat -> exists n, reader_fuel r = (k + n)%nat.
Proof. intros Hr Hk. pose proof (reads_length r cs Hr). exists (reader_fuel r - k)%nat. lia. Qed.

(** The number of a year and what stands after it. *)
Lemma unit_year (y : Z) (ds cs : list Z) : Forall digit ds -> dec ds = y -> (1 <= length ds <= 6)%nat -> no_digit cs -> unit_of (ds ++ cs) (mkUnit DATE_NUMBER y (lenZ ds)) cs.
Proof. intros Hd <- Hl Hn. apply (unit_field (length ds)); [done|lia|done]. Qed.

Lemma month_unit (m : Z) (r : StringReader) (u : DateUnit) (l : list Z) (i mo : Z) (iso : bool) (t : TimeValue) (z : TimeZone) (hn : bool) :
  legacy_unit (mkUnit DATE_MONTH m 3) hn (mkParser r u (mkDay l i mo iso) t z) = (Ok (Some hn), mkParser r u (mkDay l i m iso) t z).
Proof. reflexivity. Qed.

Lemma word_unit (u : DateUnit) (r : StringReader) (d : DayValue) (t : TimeValue) (z : TimeZone) : IsNumber u = false ->
  legacy_unit (mkUnit DATE_INVALID_WORD 0 3) false (mkParser r u d t z) = (Ok (Some false), mkParser r u d t z).
Proof. intros H. unfold legacy_unit. mstep. repeat test. mstep. cbn [date_]. by rewrite H. Qed.

(** The first state of the parser after the first unit, with what it has found. *)
Definition dated (r : StringReader) (u : DateUnit) (l : list Z) (i m : Z) : Parser := mkParser r u (mkDay l i m false) start_time start_zone.

Lemma skip_dated (hn : bool) (r : StringReader) (u : DateUnit) (l : list Z) (i m : Z) : legacy_unit Space hn (dated r u l i m) = (Ok (Some hn), dated r u l i m).
Proof. by apply skip_unit; left. Qed.

Definition utc_text (weekday day month year hour minute second : list Z) : list Z :=
  weekday ++ 44 :: 32 :: day ++ 32 :: month ++ 32 :: year ++ 32 :: hour ++ 58 :: minute ++ 58 :: second ++ 32 :: GMT.

Lemma utc_parse (w y m d h mi s : Z) (ws mos ds ys hs mis ss : list Z) :
  weekdayName !! Z.to_nat w = Some ws -> 0 <= m -> monthName !! Z.to_nat m = Some mos -> is_field 2 d ds -> Forall digit ys -> dec ys = y -> (1 <= length ys <= 6)%nat -> is_field 2 h hs -> is_field 2 mi mis -> is_field 2 s ss -> 0 <= s < 60 ->
  exists r u, (read_date;; isIso ← IsIsoDateTime; if isIso : bool then ParseIsoDateTime else ParseLegacyDates) (new_parser (utc_text ws ds mos ys hs mis ss)) =
    (Ok true, mkParser r u (mkDay [d; y; 0] 2 (m + 1) false) (mkTime [h; mi; s; 0] 3) (mkZone 1 0 0)).
Proof.
  intros Hw Hm0 Hm Hd Hys Hy Hyl Hh Hmi Hs Hs60. unfold utc_text. set (T4 := 58 :: mis ++ 58 :: ss ++ 32 :: GMT). set (T3 := ys ++ 32 :: hs ++ T4). set (T2 := mos ++ 32 :: T3). set (T1 := 44 :: 32 :: ds ++ 32 :: T2).
  destruct (read_date_run _ _ _ Unknown _ (mkDay [0; 0; 0] 0 INT_MAX false) start_time start_zone (new_reader_reads _) (unit_weekday w ws T1 Hw ltac:(sep))) as (r0 & R0 & Hr0). mstep with R0. clear R0. rewrite not_iso by done. unfold ParseLegacyDates. next (unit_comma (32 :: ds ++ 32 :: T2)). mstep. cbn [str_ dayValue day_index]. change (0 <? 0) with false.
  destruct (fuel_rounds r _ 15 Hr) as [n ->]; [unfold T2, T3, T4; destruct Hd as (_ & _ & Ed), Hh as (_ & _ & Eh); repeat (progress (cbn [length]; rewrite ?length_app)); change (length GMT) with 3%nat; lia|].
  change (15 + n)%nat with (8 + (6 + (1 + n)))%nat. cbn [Nat.add].
  round (word_unit Unknown r (mkDay [0; 0; 0] 0 INT_MAX false) start_time start_zone eq_refl) (unit_space (ds ++ 32 :: T2)) as r1 Hr1.
  round (skip_unit Unknown false (dated r1 Space [0; 0; 0] 0 INT_MAX) (or_intror eq_refl)) (unit_field 2 d ds (32 :: T2) Hd ltac:(lia) ltac:(sep)) as r2 Hr2.
  round (skip_dated false r2 (mkUnit DATE_NUMBER d 2) [0; 0; 0] 0 INT_MAX) (unit_space T2) as r3 Hr3.
  round (day_number_unit d 2 Space r3 [0; 0; 0] 0 INT_MAX start_time start_zone false false eq_refl eq_refl eq_refl eq_refl) (unit_month m mos (32 :: T3) Hm0 Hm ltac:(sep)) as r4 Hr4.
  round (skip_dated true r4 (mkUnit DATE_MONTH (m + 1) 3) [d; 0; 0] 1 INT_MAX) (unit_space T3) as r5 Hr5.
  round (month_unit (m + 1) r5 Space [d; 0; 0] 1 INT_MAX false start_time start_zone true) (unit_year y ys (32 :: hs ++ T4) Hys Hy Hyl ltac:(sep)) as r6 Hr6.
  round (skip_dated true r6 (mkUnit DATE_NUMBER y (lenZ ys)) [d; 0; 0] 1 (m + 1)) (unit_space (hs ++ T4)) as r7 Hr7.
  round (day_number_unit y (lenZ ys) Space r7 [d; 0; 0] 1 (m + 1) start_time start_zone true false eq_refl eq_refl eq_refl eq_refl) (unit_field 2 h hs T4 Hh ltac:(lia) ltac:(sep)) as r8 Hr8.
  destruct (clock_rounds (Datatypes.S n) r8 h mi s mis ss [] [] [] StringEnd StringEnd (mkDay [d; y; 0] 2 (m + 1) false) ltac:(by rewrite app_nil_r) Hmi Hs Hs60 I unit_end unit_end) as (r9 & R9 & _).
  eexists _, _. refine (eq_trans R9 _). reflexivity.
Qed.
Lemma SetTimeValue_three (h mi s z : Z) : 0 <= h < 24 -> 0 <= mi < 60 -> 0 <= s < 60 ->
  DateParse.SetTimeValue (mkTime [h; mi; s; 0] 3) [0; 0; 0; 0; 0; 0; 0; 0; z] = Some [0; 0; 0; h; mi; s; 0; 0; z].
Proof.
  intros Hh Hmi Hs. unfold DateParse.SetTimeValue, HourIsValid, MinuteIsValid, SecondIsValid, MilliSecondIsValid, IsBetween. fields.
  change (Z.of_nat 0 <? 3) with true. change (Z.of_nat 1 <? 3) with true. change (Z.of_nat 2 <? 3) with true. change (Z.of_nat 3 <? 3) with false. cbv iota. zb. done.
Qed.

(** Years of less than three digits are moved to the present. *)
Lemma SetDayValue_named (y m d h mi s ms w z : Z) : 100 <= y -> 0 <= m < 12 -> 1 <= d <= 31 ->
  SetDayValue (mkDay [d; y; 0] 2 (m + 1) false) [0; 0; 0; h; mi; s; ms; w; z] = Some [y; m; d; h; mi; s; ms; w; z].
Proof.
  intros Hy Hm Hd. unfold SetDayValue, MonthIsValid, DayIsValid, IsBetween, MOUTH_PER_YEAR, MAX_DAYS_MONTH, IsFull, INT_MAX, DAY_LEN. fields.
  change (Z.of_nat 0 <? 2) with true. change (Z.of_nat 1 <? 2) with true. change (2 =? 0) with false. change (2 =? 3) with false. change (2 =? 2) with true. zb. cbv iota. zb. replace (m + 1 - 1) with m by lia. done.
Qed.

Lemma ToUTCString_run (zone : Z -> option Z) (t : Z) (c : Cache) (y m d h mi s ms w : Z) : Z.abs t <= MAX_TIME -> zone_ok zone -> cache_ok c ->
  fields_of t 0 = [y; m; d; h; mi; s; ms; w; 0] -> 0 <= y <= 280000 -> 0 <= m < 12 -> 1 <= d <= 31 -> 0 <= h < 24 -> 0 <= mi < 60 -> 0 <= s < 60 -> 0 <= w < 7 ->
  exists c' ws ds mos ys hs mis ss, ToUTCString zone (double_of_int t) c = (Ok (Some (utc_text ws ds mos ys hs mis ss)), c') /\ weekdayName !! Z.to_nat w = Some ws /\ monthName !! Z.to_nat m = Some mos /\
    is_field 2 d ds /\ Forall digit ys /\ dec ys = y /\ (1 <= length ys <= 6)%nat /\ is_field 2 h hs /\ is_field 2 mi mis /\ is_field 2 s ss.
Proof.
  intros Ht Hz Hc E Hy Hm Hd Hh Hmi Hs Hw. destruct (GetDateValues_run zone t false c Ht Hz Hc) as (c' & R & Hc'). cbn [GetLocalOffsetFromOS negb] in R. rewrite Z.mul_0_l, Z.add_0_r in R. change (- 0) with 0 in R. rewrite E in R.
  unfold ToUTCString, GetThisDateValues, STR_LENGTH_OTHERS, STR_LENGTH_YEAR. rewrite isnan_int. mstep by (by mstep with R). cbn [lookup_total list_lookup_total YEAR MONTH DAYS HOUR MIN SEC MS WEEKDAY].
  destruct (year_text_run y c') as (ys & R1 & H1); [lia|]. mstep with R1. destruct (name_at_run weekdayName w c') as (ws & R2 & H2); [done|]. mstep with R2. destruct (name_at_run monthName m c') as (mos & R3 & H3); [done|]. mstep with R3.
  destruct (print_field_run d 2 c') as (ds & R4 & H4); [lia|change (10 ^ Z.of_nat 2) with 100; lia|]. mstep with R4. destruct (print_field_run h 2 c') as (hs & R5 & H5); [lia|change (10 ^ Z.of_nat 2) with 100; lia|]. mstep with R5.
  destruct (print_field_run mi 2 c') as (mis & R6 & H6); [lia|change (10 ^ Z.of_nat 2) with 100; lia|]. mstep with R6. destruct (print_field_run s 2 c') as (ss & R7 & H7); [lia|change (10 ^ Z.of_nat 2) with 100; lia|]. mstep with R7.
  exists c', ws, ds, mos, ys, hs, mis, ss. destruct H1 as (? & ? & ? & ?). done.
Qed.

(** Date.parse reads what toUTCString prints of a year from 100 on; the text
    has no milliseconds. *)
Theorem date_utc_string_roundtrip (zone : Z -> option Z) (t : Z) (c : Cache) :
  Z.abs t <= MAX_TIME -> zone_ok zone -> cache_ok c -> 100 <= fields_of t 0 !!! YEAR ->
  exists text c', ToUTCString zone (double_of_int t) c = (Ok (Some text), c') /\ GetTimeFromString zone text = Ok (double_of_int (t - t mod 1000)).
Proof.
  intros Ht Hz Hc H100. pose proof Ht as Ht'. unfold MAX_TIME in Ht'. destruct (fields_list t 0 ltac:(lia)) as (y & m & d & h & mi & s & ms & w & E & Hy & Hm & Hd & Hh & Hmi & Hs & Hms & Hw). pose proof (time_of_fields t 0) as Et. rewrite E in H100, Et. cbn [lookup_total list_lookup_total YEAR] in H100.
  destruct (ToUTCString_run zone t c y m d h mi s ms w Ht Hz Hc E) as (c' & ws & ds & mos & ys & hs & mis & ss & R & H1 & H2 & H3 & H4 & H5 & H6 & H7 & H8 & H9); [lia..|]. exists (utc_text ws ds mos ys hs mis ss), c'. split; [done|].
  destruct (utc_parse w y m d h mi s ws mos ds ys hs mis ss H1 ltac:(lia) H2 H3 H4 H5 H6 H7 H8 H9 Hs) as (r & u & Rp).
  rewrite (parsed_time zone _ _ y m d h mi s 0 0 Rp) by (first [done | lia | reflexivity | by apply SetTimeValue_three | by apply SetDayValue_named | right; lia]).
  assert (time_of [y; m; d; h; mi; s; 0; 0; 0] = t - t mod 1000 /\ Z.abs (t - t mod 1000) <= 8640000000000000) as [-> Hb].
  { rewrite time_of_list in Et |- *. generalize dependent (make_day y m d). intros g Eg. clear - Eg Hms Ht'. zlia. }
  rewrite (proj2 (Z.leb_le _ _)) by done. do 2 f_equal. unfold zone_ms. change (0 =? INT_MAX) with false. cbv iota. lia.
Qed.
(** ** Texts with the zone *)

Lemma print_int_run {S} (n : Z) (s : S) : 0 <= n < 100 -> exists str, ToCString BUFF_SIZE_INT n s = (Ok str, s) /\ is_field 2 n (StrToTargetLength str 2).
Proof.
  intros Hn. destruct (ToCString_run BUFF_SIZE_INT n s) as (ds & R & Hd & Hv & _ & Hl); [unfold BUFF_SIZE_INT; lia|change (10 ^ Z.of_nat (BUFF_SIZE_INT - 2)) with 10000000000; lia|]. rewrite (proj2 (Z.leb_le 0 n)) in R by lia. exists ds. split; [done|].
  apply (fill_zeros ds 2); [done|lia|]. apply Hl; [lia|change (10 ^ Z.of_nat 2) with 100; lia].
Qed.

Lemma local_time_run {S} (zone : Z -> option Z) (t : Z) (s : S) : Z.abs t <= MAX_TIME ->
  let o := GetLocalOffsetFromOS zone t true in Z.abs o < 1500 ->
  exists zs, local_time zone (double_of_int t) s = (Ok ((if 0 <=? o then 43 else 45) :: zs), s) /\ is_field 4 (Z.abs o / 60 * 100 + Z.abs o mod 60) zs.
Proof.
  intros Ht o Ho. unfold MAX_TIME in Ht. unfold local_time, MINUTE_PER_HOUR, STR_LENGTH_OTHERS. mstep by (apply int64_of_double_int; lia). fold o. rewrite i32_id by lia. replace (if 0 <=? o then o else - o) with (Z.abs o) by (destruct (Z.leb_spec 0 o); lia).
  rewrite Z.quot_div_nonneg, Z.rem_mod_nonneg by lia. destruct (print_int_run (Z.abs o / 60) s) as (a & R1 & Hd1 & Hv1 & Hl1); [zlia|]. mstep with R1. destruct (print_int_run (Z.abs o mod 60) s) as (b & R2 & Hd2 & Hv2 & Hl2); [zlia|]. mstep with R2.
  eexists. split; [reflexivity|]. split_and!; [by apply list.Forall_app| |by rewrite length_app, Hl1, Hl2]. rewrite dec_app, Hv1, Hv2. unfold lenZ. rewrite Hl2. change (10 ^ Z.of_nat 2) with 100. lia.
Qed.

Lemma zone_unit (sg n : Z) (r : StringReader) (d : DayValue) (l : list Z) (i : Z) (z : TimeZone) (hn : bool) : sg = 43 \/ sg = 45 -> 0 < i -> reads r [] ->
  exists r', legacy_unit (Symbol sg) hn (mkParser r (mkUnit DATE_NUMBER n 4) d (mkTime l i) z) = (Ok (Some hn), mkParser r' StringEnd d (mkTime l i) (mkZone (if sg =? 45 then -1 else 1) (Z.quot n 100) (Z.rem n 100))) /\ reads r' [].
Proof.
  intros Hsg Hi Hr. destruct (NextDate_run r [] [] (mkUnit DATE_NUMBER n 4) StringEnd d (mkTime l i) (mkZone (if sg =? 45 then -1 else 1) (hour_ z) (min_ z)) Hr unit_end) as (r' & R & Hr'). exists r'. split; [|done].
  unfold legacy_unit. mstep. cbn [timeValue time_index]. rewrite (proj2 (Z.ltb_lt 0 i)) by done. destruct Hsg as [-> | ->]; repeat test; (erewrite (bind_Ok _ _ _ _ true); [reflexivity|]); unfold legacy_zone; repeat test; mstep; mstep; cbn [date_]; repeat test; mstep with R; mstep; cbn [date_]; repeat test; reflexivity.
Qed.

Definition local_text (weekday month day year hour minute second local : list Z) : list Z :=
  weekday ++ 32 :: month ++ 32 :: day ++ 32 :: year ++ 32 :: hour ++ 58 :: minute ++ 58 :: second ++ 32 :: GMT ++ local.

Lemma local_parse (w y m d h mi s sg n : Z) (ws mos ds ys hs mis ss zs : list Z) :
  weekdayName !! Z.to_nat w = Some ws -> 0 <= m -> monthName !! Z.to_nat m = Some mos -> is_field 2 d ds -> Forall digit ys -> dec ys = y -> (1 <= length ys <= 6)%nat -> is_field 2 h hs -> is_field 2 mi mis -> is_field 2 s ss -> 0 <= s < 60 ->
  sg = 43 \/ sg = 45 -> is_field 4 n zs ->
  exists r u, (read_date;; isIso ← IsIsoDateTime; if isIso : bool then ParseIsoDateTime else ParseLegacyDates) (new_parser (local_text ws mos ds ys hs mis ss (sg :: zs))) =
    (Ok true, mkParser r u (mkDay [d; y; 0] 2 (m + 1) false) (mkTime [h; mi; s; 0] 3) (mkZone (if sg =? 45 then -1 else 1) (Z.quot n 100) (Z.rem n 100))).
Proof.
  intros Hw Hm0 Hm Hd Hys Hy Hyl Hh Hmi Hs Hs60 Hsg Hzs. unfold local_text. set (T4 := 58 :: mis ++ 58 :: ss ++ 32 :: GMT ++ sg :: zs). set (T3 := ys ++ 32 :: hs ++ T4). set (T2 := ds ++ 32 :: T3). set (T1 := 32 :: mos ++ 32 :: T2).
  destruct (read_date_run _ _ _ Unknown _ (mkDay [0; 0; 0] 0 INT_MAX false) start_time start_zone (new_reader_reads _) (unit_weekday w ws T1 Hw ltac:(sep))) as (r0 & R0 & Hr0). mstep with R0. clear R0. rewrite not_iso by done. unfold ParseLegacyDates. next (unit_space (mos ++ 32 :: T2)). mstep. cbn [str_ dayValue day_index]. change (0 <? 0) with false.
  destruct (fuel_rounds r _ 15 Hr) as [n' ->]; [unfold T2, T3, T4; destruct Hd as (_ & _ & Ed), Hh as (_ & _ & Eh), Hzs as (_ & _ & Ez); repeat (progress (cbn [length]; rewrite ?length_app)); change (length GMT) with 3%nat; cbn [length]; lia|].
  change (15 + n')%nat with (7 + (6 + (2 + n')))%nat. cbn [Nat.add].
  round (word_unit Space r (mkDay [0; 0; 0] 0 INT_MAX false) start_time start_zone eq_refl) (unit_month m mos (32 :: T2) Hm0 Hm ltac:(sep)) as r1 Hr1.
  round (skip_dated false r1 (mkUnit DATE_MONTH (m + 1) 3) [0; 0; 0] 0 INT_MAX) (unit_space T2) as r2 Hr2.
  round (month_unit (m + 1) r2 Space [0; 0; 0] 0 INT_MAX false start_time start_zone false) (unit_field 2 d ds (32 :: T3) Hd ltac:(lia) ltac:(sep)) as r3 Hr3.
  round (skip_dated false r3 (mkUnit DATE_NUMBER d 2) [0; 0; 0] 0 (m + 1)) (unit_space T3) as r4 Hr4.
  round (day_number_unit d 2 Space r4 [0; 0; 0] 0 (m + 1) start_time start_zone false false eq_refl eq_refl eq_refl eq_refl) (unit_year y ys (32 :: hs ++ T4) Hys Hy Hyl ltac:(sep)) as r5 Hr5.
  round (skip_dated true r5 (mkUnit DATE_NUMBER y (lenZ ys)) [d; 0; 0] 1 (m + 1)) (unit_space (hs ++ T4)) as r6 Hr6.
  round (day_number_unit y (lenZ ys) Space r6 [d; 0; 0] 1 (m + 1) start_time start_zone true false eq_refl eq_refl eq_refl eq_refl) (unit_field 2 h hs T4 Hh ltac:(lia) ltac:(sep)) as r7 Hr7.
  assert (unit_of (sg :: zs) (Symbol sg) zs) as Hus by (destruct Hsg as [-> | ->]; by apply unit_sym). assert (unit_of zs (mkUnit DATE_NUMBER n 4) []) as Huz by (rewrite <- (app_nil_r zs) at 1; apply (unit_field 4 n zs []); [done|lia|done]).
  destruct (clock_rounds (2 + n') r7 h mi s mis ss (sg :: zs) zs [] (Symbol sg) (mkUnit DATE_NUMBER n 4) (mkDay [d; y; 0] 2 (m + 1) false) Hr7 Hmi Hs Hs60 ltac:(destruct Hsg; subst; sep) Hus Huz) as (r8 & R8 & Hr8).
  destruct (zone_unit sg n r8 (mkDay [d; y; 0] 2 (m + 1) false) [h; mi; s; 0] 3 (mkZone 1 0 0) true Hsg eq_refl Hr8) as (r9 & R9 & Hr9). clear Hr7 Hr8.
  match type of R8 with ?a = _ => match goal with |- context [while_fuel ?k legacy_round ?x ?p] => change (while_fuel k legacy_round x p) with a end end.
  rewrite R8. cbn [Nat.add]. round R9 unit_end as r10 Hr10. eexists _, _. reflexivity.
Qed.
Lemma ToString_run (zone : Z -> option Z) (t : Z) (c : Cache) (y m d h mi s ms w : Z) : Z.abs t <= MAX_TIME -> zone_ok zone -> cache_ok c ->
  let o := GetLocalOffsetFromOS zone t true in Z.abs o < 1500 ->
  fields_of (t + o * 60000) (- o) = [y; m; d; h; mi; s; ms; w; - o] -> 0 <= y <= 280000 -> 0 <= m < 12 -> 1 <= d <= 31 -> 0 <= h < 24 -> 0 <= mi < 60 -> 0 <= s < 60 -> 0 <= w < 7 ->
  exists c' ws ds mos ys hs mis ss zs, ToString zone (double_of_int t) c = (Ok (Some (local_text ws mos ds ys hs mis ss ((if 0 <=? o then 43 else 45) :: zs))), c') /\ weekdayName !! Z.to_nat w = Some ws /\ monthName !! Z.to_nat m = Some mos /\
    is_field 2 d ds /\ (Forall digit ys /\ dec ys = y /\ (1 <= length ys <= 6)%nat) /\ is_field 2 h hs /\ is_field 2 mi mis /\ is_field 2 s ss /\ is_field 4 (Z.abs o / 60 * 100 + Z.abs o mod 60) zs.
Proof.
  intros Ht Hz Hc o Ho E Hy Hm Hd Hh Hmi Hs Hw. destruct (GetDateValues_run zone t true c Ht Hz Hc) as (c' & R & Hc'). cbv zeta in R. fold o in R. rewrite E in R.
  unfold ToString, GetThisDateValues, STR_LENGTH_OTHERS, STR_LENGTH_YEAR. rewrite isnan_int. mstep by (by mstep with R). cbn [lookup_total list_lookup_total YEAR MONTH DAYS HOUR MIN SEC MS WEEKDAY].
  destruct (local_time_run zone t c' Ht Ho) as (zs & R0 & H0). fold o in R0, H0. mstep with R0.
  destruct (year_text_run y c') as (ys & R1 & H1); [lia|]. mstep with R1. destruct (name_at_run weekdayName w c') as (ws & R2 & H2); [done|]. mstep with R2. destruct (name_at_run monthName m c') as (mos & R3 & H3); [done|]. mstep with R3.
  destruct (print_field_run d 2 c') as (ds & R4 & H4); [lia|change (10 ^ Z.of_nat 2) with 100; lia|]. mstep with R4. destruct (print_field_run h 2 c') as (hs & R5 & H5); [lia|change (10 ^ Z.of_nat 2) with 100; lia|]. mstep with R5.
  destruct (print_field_run mi 2 c') as (mis & R6 & H6); [lia|change (10 ^ Z.of_nat 2) with 100; lia|]. mstep with R6. destruct (print_field_run s 2 c') as (ss & R7 & H7); [lia|change (10 ^ Z.of_nat 2) with 100; lia|]. mstep with R7.
  exists c', ws, ds, mos, ys, hs, mis, ss, zs. done.
Qed.

(** The zone that is read is the offset that was printed. *)
Lemma zone_parsed (o : Z) (time : list Z) (p : Parser) : Z.abs o < 1500 ->
  let n := Z.abs o / 60 * 100 + Z.abs o mod 60 in
  SetTimeZone (mkZone (if (if 0 <=? o then 43 else 45) =? 45 then -1 else 1) (Z.quot n 100) (Z.rem n 100)) time p = (Ok (Some (<[TIMEZONE := o * 60]> time)), p).
Proof.
  intros Ho n. assert (0 <= Z.abs o / 60 < 25 /\ 0 <= Z.abs o mod 60 < 60 /\ Z.abs o = Z.abs o / 60 * 60 + Z.abs o mod 60) as (H1 & H2 & H3) by zlia.
  assert (Z.quot n 100 = Z.abs o / 60 /\ Z.rem n 100 = Z.abs o mod 60) as [-> ->] by (unfold n; zlia). clear n. generalize dependent (Z.abs o / 60). generalize dependent (Z.abs o mod 60). intros b H2 a H1 H3.
  unfold SetTimeZone, IsLocal, HourIsValid, MinuteIsValid, IsBetween, INT_MAX, SEC_PER_HOUR, SEC_PER_MINUTE. cbn [hour_ min_ sign_]. zb. cbv iota. cbn [negb orb]. destruct (Z.leb_spec 0 o); [change (43 =? 45) with false|change (45 =? 45) with true]; cbv iota; mstep by (apply int32_run; lia); unfold mret, M_ret; replace (_ * _) with (o * 60) by lia; done.
Qed.

(** C20: Date.parse reads what toString prints, up to the milliseconds: in a
    zone less than 25 hours (1500 minutes) away, for a local year from 100 on
    and a local time that is a time value itself.  Without the last condition it
    fails, since the parser clips the local time before it takes the zone off
    (date_parse_unclipped). *)
Theorem date_string_roundtrip (zone : Z -> option Z) (t : Z) (c : Cache) :
  Z.abs t <= MAX_TIME -> zone_ok zone -> cache_ok c ->
  let o := GetLocalOffsetFromOS zone t true in Z.abs o < 1500 -> Z.abs (t + o * 60000) <= MAX_TIME -> 100 <= fields_of (t + o * 60000) (- o) !!! YEAR ->
  exists text c', ToString zone (double_of_int t) c = (Ok (Some text), c') /\ GetTimeFromString zone text = Ok (double_of_int (t - t mod 1000)).
Proof.
  intros Ht Hz Hc o Ho Hl H100. pose proof Hl as Hl'. unfold MAX_TIME in Hl'. destruct (fields_list (t + o * 60000) (- o) ltac:(lia)) as (y & m & d & h & mi & s & ms & w & E & Hy & Hm & Hd & Hh & Hmi & Hs & Hms & Hw). pose proof (time_of_fields (t + o * 60000) (- o)) as Et. rewrite E in H100, Et. cbn [lookup_total list_lookup_total YEAR] in H100.
  destruct (ToString_run zone t c y m d h mi s ms w Ht Hz Hc Ho E) as (c' & ws & ds & mos & ys & hs & mis & ss & zs & R & H1 & H2 & H3 & (H4 & H5 & H6) & H7 & H8 & H9 & H10); [lia..|]. fold o in R, H10. exists (local_text ws mos ds ys hs mis ss ((if 0 <=? o then 43 else 45) :: zs)), c'. split; [done|].
  destruct (local_parse w y m d h mi s (if 0 <=? o then 43 else 45) _ ws mos ds ys hs mis ss zs H1 ltac:(lia) H2 H3 H4 H5 H6 H7 H8 H9 Hs ltac:(destruct (0 <=? o); lia) H10) as (r & u & Rp).
  rewrite (parsed_time zone _ _ y m d h mi s 0 (o * 60) Rp) by (first [done | lia | by apply zone_parsed | by apply SetTimeValue_three | by apply SetDayValue_named | right; lia]).
  assert (time_of [y; m; d; h; mi; s; 0; 0; o * 60] = t + o * 60000 - t mod 1000 /\ Z.abs (t + o * 60000 - t mod 1000) <= 8640000000000000) as [-> Hb].
  { rewrite time_of_list in Et |- *. generalize dependent (make_day y m d). intros g Eg. clear - Eg Hms Hl'. clearbody o. zlia. }
  rewrite (proj2 (Z.leb_le _ _)) by done. do 2 f_equal. unfold zone_ms, INT_MAX. rewrite (proj2 (Z.eqb_neq _ _)) by lia. lia.
Qed.
Lemma date_iso_roundtrip_witness :
  exists text c', DateString.ToISOString (fun _ => None) (double_of_int (-62167219200001)) (mkCache false 0 0 0 0) = (Ok (Some text), c') /\ GetTimeFromString (fun _ => None) text = Ok (double_of_int (-62167219200001)).
Proof. apply date_iso_roundtrip; [vm_compute; intros [=]|intros t g [=]|intros [=]]. Defined.

Lemma date_utc_string_roundtrip_witness :
  exists text c', ToUTCString (fun _ => None) (double_of_int 1709210096789) (mkCache false 0 0 0 0) = (Ok (Some text), c') /\ GetTimeFromString (fun _ => None) text = Ok (double_of_int 1709210096000).
Proof. apply (date_utc_string_roundtrip (fun _ => None) 1709210096789); [vm_compute; intros [=]|intros t g [=]|intros [=]|vm_compute; intros [=]]. Defined.

Lemma date_string_roundtrip_witness :
  exists text c', DateString.ToString (fun _ => Some 20700) (double_of_int 1709210096789) (mkCache false 0 0 0 0) = (Ok (Some text), c') /\ GetTimeFromString (fun _ => Some 20700) text = Ok (double_of_int 1709210096000).
Proof. apply (date_string_roundtrip (fun _ => Some 20700) 1709210096789); [vm_compute; intros [=]|intros t g [= <-]; lia|intros [=]|reflexivity|vm_compute; intros [=]|vm_compute; intros [=]]. Defined.
End DateRoundtrip.
