(* ===== verification/DateBuiltins.v ===== *)
(** * DateBuiltins: Date.now, Date.parse and the constructor of builtins_date.cpp.

    The conversions of JavaScript values are parameters: ToNumber, ToPrimitive
    without a hint, and ToString, which gives the code units of a string and
    whether they are stored in 16 bits.  A value that is a date object is known
    by its time value.  The clock is a parameter, in seconds and microseconds. *)
From S2P Require Import Prelude TaggedValue Double DateUtils JSDate DateString DateParse DateRoundtrip.
From Stdlib Require String Ascii.
Import String.StringSyntax.
Import Double DateUtils JSDate DateString DateParse DateRoundtrip.
Local Open Scope Z_scope.

Module DateBuiltins.

Section builtins.
Context (zone : Z -> option Z).
Context (ToNumber : JSTaggedValue -> ErrorFlag + dbl).
Context (ToPrimitive : JSTaggedValue -> ErrorFlag + JSTaggedValue).
Context (ToString : JSTaggedValue -> ErrorFlag + (bool * list Z)).
Context (IsString : JSTaggedValue -> bool).
Context (date_value : JSTaggedValue -> option dbl).
Context (gettimeofday : Z * Z).

(** JSDate::Now. *)
Definition Now : dbl :=
  let '(tv_sec, tv_usec) := gettimeofday in
  double_of_int64 (tv_sec * MS_PER_SECOND + Z.quot tv_usec MS_PER_SECOND).

(** JSDate::Parse. *)
Definition Parse {S} (argv : list JSTaggedValue) : M S dbl :=
  match ToString (default VUndefined (argv !! 0%nat)) with
  | inl e => throw e
  | inr (isUtf16, data) => if isUtf16 : bool then mret DNaN else fun s => (GetTimeFromString zone data, s)
  end.

(** BuiltinsDate::DateConstructor, called with new: the time value of the object. *)
Definition DateConstructor (argv : list JSTaggedValue) : M Cache dbl :=
  match argv with
  | [] => mret Now
  | [value] =>
      match date_value value with
      | Some timeValue => mret timeValue
      | None =>
          match ToPrimitive value with
          | inl e => throw e
          | inr objValue =>
              timeValue ← (if IsString objValue then Parse argv else to_number ToNumber objValue);
              mret (TimeClip timeValue)
          end
      end
  | _ => ExtractDateFields zone ToNumber argv
  end.

End builtins.

(** ** The constructor on numbers *)

(** A number that is a time value; the year of the first field is completed. *)
Definition field_value (i : nat) (v : Z) : Z := if (i =? 0)%nat then full_year v else v.

Definition is_field_number (ToNumber : JSTaggedValue -> ErrorFlag + dbl) (a : JSTaggedValue) (v : Z) : Prop := ToNumber a = inr (double_of_int v) /\ Z.abs v <= 8640000000000000.

Lemma extract_fields_run (ToNumber : JSTaggedValue -> ErrorFlag + dbl) (argv : list JSTaggedValue) (vs : list Z) (i : nat) (date : list Z) (c : Cache) :
  Forall2 (is_field_number ToNumber) argv vs -> (i + length vs <= length date)%nat ->
  extract_fields ToNumber argv i date c = (Ok (Some (overwrite date i (imap (fun j v => field_value (i + j) v) vs))), c).
Proof.
  intros H. revert i date. induction H as [|a v argv vs [Ha Hv] _ IH]; intros i date Hl; cbn [extract_fields].
  - unfold overwrite. simpl. rewrite Nat.add_0_r, take_drop. done.
  - simpl in Hl. unfold to_number. rewrite Ha. mstep. rewrite TimeClip_int by lia. unfold clip. rewrite (proj2 (Z.leb_le (Z.abs v) _)) by done. rewrite isnan_int, isfinite_int. cbn [orb negb]. mstep by (apply int64_of_double_int; lia).
    assert ((if (i =? 0)%nat && ((0 <=? v) && (v <? HUNDRED)) then v + NINETEEN_HUNDRED_YEAR else v) = field_value i v) as ->.
    { unfold field_value, full_year, HUNDRED, NINETEEN_HUNDRED_YEAR. destruct (i =? 0)%nat; cbn [andb]; [|done]. replace (v <? 100) with (v <=? 99); [done|]. destruct (Z.leb_spec v 99), (Z.ltb_spec v 100); (done || lia). }
    rewrite IH by (rewrite length_insert; lia). rewrite overwrite_cons by lia. cbn [imap]. do 4 f_equal. rewrite Nat.add_0_r. f_equal. apply imap_ext. intros j x _. simpl. f_equal. lia.
Qed.
(** new Date(year, month, ...): the numbers are the local fields, the first seven
    of them, with the defaults for those that are missing; the time is clipped. *)
Theorem date_constructor_fields (zone : Z -> option Z) (ToNumber : JSTaggedValue -> ErrorFlag + dbl) ToPrimitive ToString IsString date_value now (argv : list JSTaggedValue) (vs : list Z) (c : Cache) :
  Forall2 (is_field_number ToNumber) argv vs -> (2 <= length vs)%nat -> zone_ok zone ->
  let date := overwrite [0; 0; 1; 0; 0; 0; 0; 0; 0] 0 (imap field_value (take 7 vs)) in
  fields_small date ->
  DateConstructor zone ToNumber ToPrimitive ToString IsString date_value now argv c = (Ok (clip (time_of date - GetLocalOffsetFromOS zone (time_of date) true * 60000)), c).
Proof.
  intros H Hl Hz date Hsm. assert (DateConstructor zone ToNumber ToPrimitive ToString IsString date_value now argv = ExtractDateFields zone ToNumber argv) as ->.
  { apply Forall2_length in H as El. destruct argv as [|a [|b argv]]; [simpl in El; lia..|done]. }
  unfold ExtractDateFields. mstep by (apply (extract_fields_run _ _ (take CONSTRUCTOR_MAX_LENGTH vs)); [by apply Forall2_take|rewrite length_take; unfold CONSTRUCTOR_MAX_LENGTH; cbn [length]; lia]). by rewrite SetDateValues_run.
Qed.

Lemma date_constructor_fields_witness :
  DateConstructor (fun _ => Some 28800) int_number (fun v => inr v) (fun _ => inr (false, [])) (fun _ => false) (fun _ => None) (0, 0) [VInt 99; VInt 11; VInt 31; VInt 23] (mkCache false 0 0 0 0) = (Ok (double_of_int 946652400000), mkCache false 0 0 0 0).
Proof.
  refine (date_constructor_fields (fun _ => Some 28800) int_number (fun v => inr v) (fun _ => inr (false, [])) (fun _ => false) (fun _ => None) (0, 0) [VInt 99; VInt 11; VInt 31; VInt 23] [99; 11; 31; 23] (mkCache false 0 0 0 0) _ _ _ _).
  - repeat constructor; lia.
  - simpl. lia.
  - intros t g [= <-]. lia.
  - vm_compute. repeat split; intros [=].
Defined.

(** A value whose primitive is a string is read through ToString of the value,
    which may be another string: the primitive itself is not used. *)
Theorem date_constructor_string (zone : Z -> option Z) (ToNumber : JSTaggedValue -> ErrorFlag + dbl) ToPrimitive ToString IsString date_value now (value prim : JSTaggedValue) (text : list Z) (t : Z) (c : Cache) :
  date_value value = None -> ToPrimitive value = inr prim -> IsString prim = true -> ToString value = inr (false, text) ->
  GetTimeFromString zone text = Ok (double_of_int t) -> Z.abs t <= 2 ^ 53 ->
  DateConstructor zone ToNumber ToPrimitive ToString IsString date_value now [value] c = (Ok (clip t), c).
Proof.
  intros Hd Hp Hs Ht Hg Hb. unfold DateConstructor. rewrite Hd, Hp, Hs. unfold Parse. cbn [lookup list_lookup default from_option id]. rewrite Ht. mstep by (by rewrite Hg). unfold mret, M_ret. by rewrite TimeClip_int.
Qed.

(** ** Texts *)

(** The codes of a literal. *)
Definition codes (s : String.string) : list Z := (fun c => Z.of_nat (Ascii.nat_of_ascii c)) <$> String.list_ascii_of_string s.
Arguments codes s%_string_scope.

(** The time of a literal text in Greenwich. *)
Ltac text_time :=
  eapply eq_trans; [eapply parsed_time; [vm_compute; reflexivity|vm_compute; reflexivity|vm_compute; reflexivity|vm_compute; reflexivity|lia..|intros ? ? [=]|lia]|reflexivity].

Lemma date_constructor_string_witness :
  DateConstructor (fun _ => None) int_number (fun _ => inr (VInt 1)) (fun _ => inr (false, codes "1970-01-02")) (fun _ => true) (fun _ => None) (0, 0) [VInt 0] (mkCache false 0 0 0 0) = (Ok (clip 86400000), mkCache false 0 0 0 0).
Proof. apply (date_constructor_string _ _ _ _ _ _ _ (VInt 0) (VInt 1) (codes "1970-01-02") 86400000); [reflexivity|reflexivity|reflexivity|reflexivity|text_time|lia]. Defined.

(** The time is clipped before the zone is taken off: a text can stand for a
    time after the last time value, and one for the last time value for none. *)
Theorem date_parse_unclipped :
  GetTimeFromString (fun _ => None) (codes "+275760-09-13T00:00:00-01:00") = Ok (double_of_int (MAX_TIME + 3600000)) /\
  GetTimeFromString (fun _ => None) (codes "+275760-09-13T01:00:00+01:00") = Ok DNaN.
Proof. split; text_time. Qed.

Lemma norm_divisor_fault {S} (n : nat) (d : Z) (s : S) : 1 <= d < 2 ^ 31 -> 2 ^ 31 <= d * 10 ^ Z.of_nat n -> norm_divisor n d s = (Fault, s).
Proof.
  revert d. induction n as [|n IH]; intros d Hd Hn; [change (10 ^ Z.of_nat 0) with 1 in Hn; lia|]. cbn [norm_divisor]. unfold TEN. rewrite Nat2Z.inj_succ, Z.pow_succ_r in Hn by lia. destruct (Z_lt_le_dec (d * 10) (2 ^ 31)) as [Hl|Hl].
  - mstep by (apply int32_run; lia). apply IH; lia.
  - apply bind_Fault. unfold int32. by zb.
Qed.

(** A fraction of thirteen digits or more overflows the divisor; zeros in front
    count, so that there are such fractions. *)
Theorem date_parse_fraction_overflow :
  (forall (value len : Z) (s : unit), 13 <= len -> NormMilliSecond (mkUnit DATE_NUMBER value len) s = (Fault, s)) /\
  GetTimeFromString (fun _ => None) (codes "2024-02-29T12:34:56.0000000000000Z") = Fault /\
  GetTimeFromString (fun _ => None) (codes "2024-02-29T12:34:56.000000000000Z") = Ok (double_of_int 1709210096000).
Proof.
  split; [|split; [vm_compute; reflexivity|text_time]]. intros value len s Hl. unfold NormMilliSecond. cbn [len_ unit_value]. zb. apply bind_Fault, norm_divisor_fault; [lia|]. apply (Z.le_trans _ (1 * 10 ^ 10)); [lia|]. apply Z.mul_le_mono_nonneg_l; [lia|]. apply Z.pow_le_mono_r; lia.
Qed.

(** Years before 100 and before Christ do not survive toUTCString and Date.parse. *)
Theorem date_utc_string_old_years :
  ToUTCString (fun _ => None) (double_of_int (-59042995200000)) (mkCache false 0 0 0 0) = (Ok (Some (codes "Thu, 01 Jan 0099 00:00:00 GMT")), mkCache true (-683368) 1 0 99) /\
  GetTimeFromString (fun _ => None) (codes "Thu, 01 Jan 0099 00:00:00 GMT") = Ok (double_of_int (time_of [1999; 0; 1; 0; 0; 0; 0; 0; 0])) /\
  GetTimeFromString (fun _ => None) (codes "Fri, 01 Jan -0001 00:00:00 GMT") = Ok (double_of_int (time_of [2001; 0; 1; 0; 0; 0; 0; 0; 0])).
Proof. split; [vm_compute; reflexivity|]. split; text_time. Qed.
End DateBuiltins.
