(* ===== verification/TaggedList.v ===== *)
(** * TaggedList: tagged_list.h, tagged_list.cpp.

    A linked list in one TaggedArray: four words of header (the number of
    nodes, the number of removed nodes, the index of the head node and of the
    last node) and nodes of two words (the value and the index of the next
    node) or of three (and the index of the previous node).  The head node has
    no value, and the last node leads back to it.  The template parameter is
    TaggedSingleList or TaggedDoubleList.

    Removed nodes stay where they are until the list grows: then the array is
    replaced by one that has the nodes in their order.  Lists live in a store,
    since the container keeps its array or gets a new one. *)
From S2P Require Import Prelude TaggedValue TaggedArray.
Local Open Scope Z_scope.

Module TaggedList.

(** The template parameter. *)
Inductive Derived : Type := TaggedSingleList | TaggedDoubleList.

Definition is_double (ho : Derived) : bool := match ho with TaggedDoubleList => true | _ => false end.
Definition ENTRY_SIZE (ho : Derived) : Z := match ho with TaggedSingleList => 2 | TaggedDoubleList => 3 end.

Definition NUMBER_OF_NODE_INDEX : Z := 0.
Definition NUMBER_OF_DELETED_NODES_INDEX : Z := 1.
Definition HEAD_TABLE_INDEX : Z := 2.
Definition TAIL_TABLE_INDEX : Z := 3.
Definition ELEMENTS_START_INDEX : Z := 4.
Definition DEFAULT_ARRAY_LENGHT : Z := 10.
Definition NEXT_PTR_OFFSET : Z := 1.
Definition PREV_PTR_OFFSET : Z := 2.

(** ** One list *)

Definition GetInt {S} (v : JSTaggedValue) : M S Z := match v with VInt z => mret z | _ => fault end.

Definition SetElement (index : Z) (element : JSTaggedValue) : M TaggedArray unit :=
  length ← Arr.GetLength;
  if (index <? 0) || (length <=? index) then mret tt else Arr.Set_ index element.

Definition GetElement (index : Z) : M TaggedArray JSTaggedValue :=
  length ← Arr.GetLength;
  if (index <? 0) || (length <=? index) then mret VUndefined else Arr.Get index.

(** [GetElement(index).GetInt()]. *)
Definition GetIndex (index : Z) : M TaggedArray Z := v ← GetElement index; GetInt v.

Definition NumberOfNodes : M TaggedArray Z := v ← Arr.Get NUMBER_OF_NODE_INDEX; GetInt v.
Definition NumberOfDeletedNodes : M TaggedArray Z := v ← Arr.Get NUMBER_OF_DELETED_NODES_INDEX; GetInt v.
Definition SetNumberOfDeletedNodes (nod : Z) : M TaggedArray unit := Arr.Set_ NUMBER_OF_DELETED_NODES_INDEX (VInt nod).
Definition SetNumberOfNodes (nof : Z) : M TaggedArray unit := Arr.Set_ NUMBER_OF_NODE_INDEX (VInt nof).

Definition Length : M TaggedArray Z := NumberOfNodes.

Definition GetFirst : M TaggedArray JSTaggedValue :=
  firstDataIndex ← GetIndex (ELEMENTS_START_INDEX + NEXT_PTR_OFFSET);
  GetElement firstDataIndex.

Definition GetLast : M TaggedArray JSTaggedValue :=
  lastDataIndex ← GetIndex TAIL_TABLE_INDEX;
  GetElement lastDataIndex.

Definition GetCapacityFromTaggedArray : M TaggedArray Z := Arr.GetLength.

Definition GetNextDataIndex (dataIndex : Z) : M TaggedArray Z :=
  dataIndex ← GetIndex (dataIndex + NEXT_PTR_OFFSET);
  mret (if negb (dataIndex =? ELEMENTS_START_INDEX) then dataIndex else -1).

(** The number of words bounds every walk along the nodes. *)
Definition walk {X A} (step : X -> M TaggedArray (X + A)) (x : X) : M TaggedArray A :=
  a ← get;
  while_fuel (Datatypes.S (length (a : TaggedArray))) step x.

(** ** Searching *)

Section search.
Context (heap : Heap).

Definition FindIndexByElement (element : JSTaggedValue) : M TaggedArray Z :=
  nextDataIndex ← GetIndex (ELEMENTS_START_INDEX + NEXT_PTR_OFFSET);
  walk (fun '(nextDataIndex, nodeSum) =>
    if nextDataIndex =? ELEMENTS_START_INDEX then mret (inr (-1))
    else
      data ← GetElement nextDataIndex;
      next ← GetIndex (nextDataIndex + NEXT_PTR_OFFSET);
      if SameValue heap data element then mret (inr nodeSum) else mret (inl (next, nodeSum + 1)))
    (nextDataIndex, 0).

Definition FindLastIndexByElement (element : JSTaggedValue) : M TaggedArray Z :=
  nextIndex ← GetIndex (ELEMENTS_START_INDEX + NEXT_PTR_OFFSET);
  walk (fun '(nextIndex, nodeSum, lastIndex) =>
    if nextIndex =? ELEMENTS_START_INDEX then mret (inr lastIndex)
    else
      data ← GetElement nextIndex;
      let lastIndex := if SameValue heap data element then nodeSum else lastIndex in
      next ← GetIndex (nextIndex + NEXT_PTR_OFFSET);
      mret (inl (next, nodeSum + 1, lastIndex)))
    (nextIndex, 0, -1).

Definition FindPrevNodeByValue (element : JSTaggedValue) : M TaggedArray Z :=
  len ← GetIndex NUMBER_OF_NODE_INDEX;
  walk (fun '(dataIndex, nodeSum) =>
    if nodeSum <=? len then
      nextDataIndex ← GetIndex (dataIndex + NEXT_PTR_OFFSET);
      data ← GetElement nextDataIndex;
      if SameValue heap data element then mret (inr dataIndex) else mret (inl (nextDataIndex, nodeSum + 1))
    else mret (inr (-1)))
    (ELEMENTS_START_INDEX, 0).

(** TaggedDoubleList::FindPrevNodeByValueAtLast. *)
Definition FindPrevNodeByValueAtLast (element : JSTaggedValue) : M TaggedArray Z :=
  prevDataIndex ← GetIndex (ELEMENTS_START_INDEX + PREV_PTR_OFFSET);
  len ← GetIndex NUMBER_OF_NODE_INDEX;
  walk (fun '(prevDataIndex, nodeSum) =>
    if nodeSum <=? len then
      prePreDataIndex ← GetIndex (prevDataIndex + PREV_PTR_OFFSET);
      data ← GetElement prevDataIndex;
      if SameValue heap data element then mret (inr prePreDataIndex) else mret (inl (prePreDataIndex, nodeSum + 1))
    else mret (inr (-1)))
    (prevDataIndex, 0).
End search.

Definition FindDataIndexByNodeIndex (index : Z) : M TaggedArray Z :=
  nextIndex ← GetIndex (ELEMENTS_START_INDEX + NEXT_PTR_OFFSET);
  walk (fun '(nextIndex, nodeSum) =>
    if nextIndex =? ELEMENTS_START_INDEX then mret (inr (-1))
    else if nodeSum =? index then mret (inr nextIndex)
    else
      next ← GetIndex (nextIndex + NEXT_PTR_OFFSET);
      mret (inl (next, nodeSum + 1)))
    (nextIndex, 0).

Definition FindElementByIndex (index : Z) : M TaggedArray JSTaggedValue :=
  dataIndex ← GetIndex (ELEMENTS_START_INDEX + NEXT_PTR_OFFSET);
  walk (fun '(dataIndex, nodeSum) =>
    if dataIndex =? ELEMENTS_START_INDEX then mret (inr VUndefined)
    else if nodeSum =? index then v ← GetElement dataIndex; mret (inr v)
    else
      next ← GetIndex (dataIndex + NEXT_PTR_OFFSET);
      mret (inl (next, nodeSum + 1)))
    (dataIndex, 0).

Definition FindPrevNodeByIndex (index : Z) : M TaggedArray Z :=
  len ← GetIndex NUMBER_OF_NODE_INDEX;
  walk (fun '(prevDataIndex, nodeSum) =>
    if nodeSum <=? len then
      if nodeSum =? index then mret (inr prevDataIndex)
      else
        next ← GetIndex (prevDataIndex + NEXT_PTR_OFFSET);
        mret (inl (next, nodeSum + 1))
    else mret (inr (-1)))
    (ELEMENTS_START_INDEX, 0).

(** TaggedDoubleList::FindElementByIndexAtLast and FindPrevNodeByIndexAtLast. *)
Definition FindElementByIndexAtLast (index : Z) : M TaggedArray JSTaggedValue :=
  preDataIndex ← GetIndex (ELEMENTS_START_INDEX + PREV_PTR_OFFSET);
  nodes ← GetIndex NUMBER_OF_NODE_INDEX;
  walk (fun '(preDataIndex, nodeSum) =>
    if preDataIndex =? ELEMENTS_START_INDEX then mret (inr VUndefined)
    else
      dataValue ← GetElement preDataIndex;
      if nodeSum =? index then mret (inr dataValue)
      else
        pre ← GetIndex (preDataIndex + PREV_PTR_OFFSET);
        mret (inl (pre, nodeSum - 1)))
    (preDataIndex, nodes - 1).

Definition FindPrevNodeByIndexAtLast (index : Z) : M TaggedArray Z :=
  prevDataIndex ← GetIndex (ELEMENTS_START_INDEX + PREV_PTR_OFFSET);
  len ← GetIndex NUMBER_OF_NODE_INDEX;
  walk (fun '(prevDataIndex, nodeSum) =>
    if nodeSum <=? len then
      prePreDataIndex ← GetIndex (prevDataIndex + PREV_PTR_OFFSET);
      if nodeSum =? index then mret (inr prePreDataIndex) else mret (inl (prePreDataIndex, nodeSum + 1))
    else mret (inr (-1)))
    (prevDataIndex, 0).

(** The walk over removed nodes, whose value is a hole, to the next node that is
    there; an iterator calls it. *)
Definition FindElementByDataIndex (dataindex : Z) : M TaggedArray (Z * JSTaggedValue) :=
  targetDataIndex ← GetIndex (dataindex + NEXT_PTR_OFFSET);
  value ← GetElement targetDataIndex;
  '(targetDataIndex, value) ← walk (fun '(targetDataIndex, value) =>
    if IsHole value && negb (targetDataIndex =? ELEMENTS_START_INDEX) then
      targetDataIndex ← GetIndex (targetDataIndex + NEXT_PTR_OFFSET);
      value ← GetElement targetDataIndex;
      mret (inl (targetDataIndex, value))
    else mret (inr (targetDataIndex, value)))
    (targetDataIndex, value);
  mret (if targetDataIndex =? ELEMENTS_START_INDEX then (-1, VUndefined) else (targetDataIndex, value)).

(** The vector that MapNodeIndexToDataIndex fills. *)
Fixpoint MapNodeIndexToDataIndex (length : nat) (nextIndex : Z) : M TaggedArray (list Z) :=
  match length with
  | O => mret []
  | Datatypes.S n =>
      nextIndex ← GetIndex (nextIndex + NEXT_PTR_OFFSET);
      rest ← MapNodeIndexToDataIndex n nextIndex;
      mret (nextIndex :: rest)
  end.

(** ** Creating, copying and growing *)

Section derived.
Context (ho : Derived).

Definition Create {S} (numberOfNodes : Z) : M S TaggedArray :=
  ASSERT (0 <? numberOfNodes);;
  let length := ELEMENTS_START_INDEX + ENTRY_SIZE ho + numberOfNodes * ENTRY_SIZE ho in
  let data := VInt ELEMENTS_START_INDEX in
  build (Factory.NewTaggedArray length VHole)
    (SetNumberOfNodes 0;;
     SetNumberOfDeletedNodes 0;;
     SetElement HEAD_TABLE_INDEX data;;
     SetElement TAIL_TABLE_INDEX data;;
     SetElement ELEMENTS_START_INDEX VHole;;
     SetElement (ELEMENTS_START_INDEX + NEXT_PTR_OFFSET) data).

(** TaggedSingleList::Create and TaggedDoubleList::Create. *)
Definition CreateDerived {S} (numberOfElements : Z) : M S TaggedArray :=
  taggedList ← Create numberOfElements;
  if is_double ho then build taggedList (SetElement (ELEMENTS_START_INDEX + PREV_PTR_OFFSET) (VInt ELEMENTS_START_INDEX))
  else mret taggedList.

(** Reading the list that is copied. *)
Definition from (src : TaggedArray) {S A} (m : M TaggedArray A) : M S A := fun s => ((m src).1, s).

(** One round of the loop that copies the nodes in their order; the loop
    variable is srcDataIndex. *)
Definition copy_node (src : TaggedArray) (nextTailIndex i srcDataIndex : Z) : M TaggedArray Z :=
  let index := nextTailIndex + i * ENTRY_SIZE ho in
  v ← from src (GetElement srcDataIndex);
  SetElement index v;;
  SetElement (index + NEXT_PTR_OFFSET) (VInt (index + ENTRY_SIZE ho));;
  (if is_double ho then SetElement (index + PREV_PTR_OFFSET) (VInt (ELEMENTS_START_INDEX + i * ENTRY_SIZE ho)) else mret tt);;
  from src (GetIndex (srcDataIndex + NEXT_PTR_OFFSET)).

Fixpoint copy_nodes (src : TaggedArray) (nextTailIndex : Z) (n : nat) (i srcDataIndex : Z) : M TaggedArray unit :=
  match n with
  | O => mret tt
  | Datatypes.S n =>
      srcDataIndex ← copy_node src nextTailIndex i srcDataIndex;
      copy_nodes src nextTailIndex n (i + 1) srcDataIndex
  end.

(** CopyArray of the list [src] into the list that is the state. *)
Definition CopyArray (src : TaggedArray) : M TaggedArray unit :=
  deleteNodeNum ← from src NumberOfDeletedNodes;
  if deleteNodeNum =? 0 then
    capacity ← from src GetCapacityFromTaggedArray;
    for_range 0 capacity (fun i => value ← from src (GetElement i); SetElement i value);;
    nod ← from src NumberOfDeletedNodes;
    SetNumberOfDeletedNodes nod
  else
    actualNodeNum ← from src NumberOfNodes;
    let tailTableIndex := ELEMENTS_START_INDEX + actualNodeNum * ENTRY_SIZE ho in
    let nextTailIndex := ELEMENTS_START_INDEX + ENTRY_SIZE ho in
    SetNumberOfNodes actualNodeNum;;
    SetNumberOfDeletedNodes 0;;
    SetElement HEAD_TABLE_INDEX (VInt ELEMENTS_START_INDEX);;
    SetElement TAIL_TABLE_INDEX (VInt tailTableIndex);;
    SetElement ELEMENTS_START_INDEX VHole;;
    SetElement (ELEMENTS_START_INDEX + NEXT_PTR_OFFSET) (VInt nextTailIndex);;
    (if is_double ho then SetElement (ELEMENTS_START_INDEX + PREV_PTR_OFFSET) (VInt tailTableIndex) else mret tt);;
    srcDataIndex ← from src (GetIndex (ELEMENTS_START_INDEX + NEXT_PTR_OFFSET));
    copy_nodes src nextTailIndex (Z.to_nat actualNodeNum) 0 srcDataIndex;;
    SetElement (tailTableIndex + NEXT_PTR_OFFSET) (VInt ELEMENTS_START_INDEX).

(** The list at [taggedList] of the store, or a new one with room for a node. *)
Definition GrowCapacity (taggedList : Z) : M Store Z :=
  actualNodeNum ← on_table taggedList NumberOfNodes;
  deleteNodeNum ← on_table taggedList NumberOfDeletedNodes;
  let needCapacity := actualNodeNum + 1 in
  taggedArrayLength ← on_table taggedList GetCapacityFromTaggedArray;
  let actualArrayCapacity := taggedArrayLength - ELEMENTS_START_INDEX - (deleteNodeNum + 1) * ENTRY_SIZE ho in
  if needCapacity * ENTRY_SIZE ho <? actualArrayCapacity then mret taggedList
  else
    let newCapacity := u32 (actualNodeNum + Z.shiftr actualNodeNum 1) in
    list ← Create (if newCapacity <? DEFAULT_ARRAY_LENGHT then DEFAULT_ARRAY_LENGHT else newCapacity);
    old ← on_table taggedList get;
    list ← build list (CopyArray old);
    new_array list.

(** ** Changing *)

Fixpoint clear_nodes (n : nat) (dataIndex : Z) : M TaggedArray unit :=
  match n with
  | O => mret tt
  | Datatypes.S n =>
      dataIndex ← GetIndex (dataIndex + NEXT_PTR_OFFSET);
      SetElement dataIndex VHole;;
      clear_nodes n dataIndex
  end.

Definition ClearList : M TaggedArray unit :=
  numberOfNodes ← NumberOfNodes;
  clear_nodes (Z.to_nat numberOfNodes) ELEMENTS_START_INDEX;;
  let data := VInt ELEMENTS_START_INDEX in
  SetNumberOfNodes 0;;
  SetNumberOfDeletedNodes 0;;
  SetElement HEAD_TABLE_INDEX data;;
  SetElement TAIL_TABLE_INDEX data;;
  SetElement ELEMENTS_START_INDEX VHole;;
  SetElement (ELEMENTS_START_INDEX + NEXT_PTR_OFFSET) data.

(** TaggedSingleList::Clear and TaggedDoubleList::Clear. *)
Definition Clear : M TaggedArray unit :=
  ClearList;;
  if is_double ho then SetElement (ELEMENTS_START_INDEX + PREV_PTR_OFFSET) (VInt ELEMENTS_START_INDEX) else mret tt.

Definition RemoveNode (prevDataIndex : Z) : M TaggedArray unit :=
  tailTableIndex ← GetIndex TAIL_TABLE_INDEX;
  headTableIndex ← GetIndex HEAD_TABLE_INDEX;
  if negb (tailTableIndex =? headTableIndex) then
    dataIndex ← GetIndex (prevDataIndex + NEXT_PTR_OFFSET);
    nextDataIndex ← GetIndex (dataIndex + NEXT_PTR_OFFSET);
    (if dataIndex =? tailTableIndex then SetElement TAIL_TABLE_INDEX (VInt prevDataIndex) else mret tt);;
    (if is_double ho then SetElement (nextDataIndex + PREV_PTR_OFFSET) (VInt prevDataIndex) else mret tt);;
    SetElement dataIndex VHole;;
    SetElement (prevDataIndex + NEXT_PTR_OFFSET) (VInt nextDataIndex);;
    nodes ← NumberOfNodes;
    SetNumberOfNodes (nodes - 1);;
    deleted ← NumberOfDeletedNodes;
    SetNumberOfDeletedNodes (deleted + 1)
  else mret tt.

(** TaggedDoubleList::GetPrevNode; division rounds towards zero. *)
Definition GetPrevNode (index : Z) : M TaggedArray Z :=
  len ← NumberOfNodes;
  if index <? Z.quot len 2 then FindPrevNodeByIndex index
  else
    let leftNodeLen := len - 1 - index in
    if leftNodeLen =? -1 then GetIndex TAIL_TABLE_INDEX
    else FindPrevNodeByIndexAtLast leftNodeLen.

(** TaggedList::RemoveByIndex and TaggedDoubleList::RemoveByIndex. *)
Definition RemoveByIndex (index : Z) : M TaggedArray JSTaggedValue :=
  prevDataIndex ← (if is_double ho then GetPrevNode index else FindPrevNodeByIndex index);
  curDataIndex ← GetIndex (prevDataIndex + NEXT_PTR_OFFSET);
  data ← GetElement curDataIndex;
  RemoveNode prevDataIndex;;
  mret data.

(** TaggedSingleList::InsertNode and TaggedDoubleList::InsertNode. *)
Definition InsertNode (value : JSTaggedValue) (prevDataIndex finalDataIndex : Z) : M TaggedArray unit :=
  let prevNextIndex := prevDataIndex + NEXT_PTR_OFFSET in
  nextDataIndex ← GetIndex prevNextIndex;
  SetElement prevNextIndex (VInt finalDataIndex);;
  (if is_double ho then SetElement (nextDataIndex + PREV_PTR_OFFSET) (VInt finalDataIndex) else mret tt);;
  SetElement finalDataIndex value;;
  SetElement (finalDataIndex + NEXT_PTR_OFFSET) (VInt nextDataIndex);;
  (if is_double ho then SetElement (finalDataIndex + PREV_PTR_OFFSET) (VInt prevDataIndex) else mret tt);;
  nodes ← NumberOfNodes;
  SetNumberOfNodes (nodes + 1).

(** The node after which AddNode inserts in a list that was copied. *)
Definition prev_after_copy (index : Z) : M TaggedArray Z :=
  if index =? -1 then GetIndex TAIL_TABLE_INDEX
  else if is_double ho then
    if index =? 0 then FindPrevNodeByIndex 0 else GetPrevNode index
  else FindPrevNodeByIndex index.

(** TaggedSingleList::AddNode and TaggedDoubleList::AddNode. *)
Definition AddNode (taggedList : Z) (value : JSTaggedValue) (index prevDataIndex : Z) : M Store Z :=
  list ← GrowCapacity taggedList;
  deleteNodeLength ← on_table list NumberOfDeletedNodes;
  nodeLength ← on_table list NumberOfNodes;
  let finalDataIndex := ELEMENTS_START_INDEX + (nodeLength + 1 + deleteNodeLength) * ENTRY_SIZE ho in
  prevDataIndex ← (if negb (taggedList =? list) then on_table list (prev_after_copy index) else mret prevDataIndex);
  on_table list (InsertNode value prevDataIndex finalDataIndex);;
  (if (index =? -1) || (nodeLength =? index) then on_table list (SetElement TAIL_TABLE_INDEX (VInt finalDataIndex)) else mret tt);;
  mret list.

Definition Add (taggedList : Z) (value : JSTaggedValue) : M Store Z :=
  prevDataIndex ← on_table taggedList (GetIndex TAIL_TABLE_INDEX);
  AddNode taggedList value (-1) prevDataIndex.

(** TaggedSingleList::Insert and TaggedDoubleList::Insert. *)
Definition Insert (taggedList : Z) (value : JSTaggedValue) (index : Z) : M Store Z :=
  prevDataIndex ← on_table taggedList
    (if is_double ho then GetPrevNode index
     else
       tailIndex ← GetIndex TAIL_TABLE_INDEX;
       if index =? -1 then mret tailIndex else FindPrevNodeByIndex index);
  AddNode taggedList value index prevDataIndex.

(** TaggedDoubleList::AddFirst. *)
Definition AddFirst (taggedList : Z) (value : JSTaggedValue) : M Store Z :=
  prevDataIndex ← on_table taggedList (FindPrevNodeByIndex 0);
  AddNode taggedList value 0 prevDataIndex.

(** TaggedSingleList::Set and TaggedDoubleList::Set. *)
Definition Set_ (index : Z) (value : JSTaggedValue) : M TaggedArray unit :=
  nodeLength ← NumberOfNodes;
  if is_double ho && ((index <? 0) || (nodeLength <=? index)) then throw RANGE_ERROR
  else
    dataIndex ← FindDataIndexByNodeIndex index;
    if dataIndex =? -1 then (if is_double ho then throw RANGE_ERROR else mret tt)
    else SetElement dataIndex value.

(** TaggedSingleList::Get and TaggedDoubleList::Get. *)
Definition Get (index : Z) : M TaggedArray JSTaggedValue :=
  if is_double ho then
    len ← NumberOfNodes;
    if index <? Z.quot len 2 then FindElementByIndex index else FindElementByIndexAtLast index
  else FindElementByIndex index.

Definition GetByDataIndex (dataIndex : Z) : M TaggedArray (Z * JSTaggedValue) := FindElementByDataIndex dataIndex.

Definition IsEmpty : M TaggedArray bool := n ← NumberOfNodes; mret (n =? 0).

(** ObjectFactory::ConvertListToArray. *)
Fixpoint list_to_array (n : nat) (dataIndex : Z) : M TaggedArray (list JSTaggedValue) :=
  match n with
  | O => mret []
  | Datatypes.S n =>
      dataIndex ← GetIndex (dataIndex + NEXT_PTR_OFFSET);
      v ← GetElement dataIndex;
      rest ← list_to_array n dataIndex;
      mret (v :: rest)
  end.

(** The elements of the array that TaggedListToArray returns. *)
Definition TaggedListToArray : M TaggedArray (list JSTaggedValue) :=
  numberOfNodes ← NumberOfNodes;
  if u32 numberOfNodes =? 0 then mret []
  else list_to_array (Z.to_nat (u32 numberOfNodes)) ELEMENTS_START_INDEX.

(** The indices whose strings are the keys. *)
Definition OwnKeys : M TaggedArray (list Z) :=
  length ← NumberOfNodes;
  mret (seqZ 0 (u32 length)).

Section values.
Context (heap : Heap).

Definition Has (element : JSTaggedValue) : M TaggedArray bool :=
  dataIndex ← FindIndexByElement heap element;
  mret (negb (dataIndex =? -1)).

Definition GetIndexOf (element : JSTaggedValue) : M TaggedArray Z := FindIndexByElement heap element.
Definition GetLastIndexOf (element : JSTaggedValue) : M TaggedArray Z := FindLastIndexByElement heap element.

Definition Remove (element : JSTaggedValue) : M TaggedArray bool :=
  prevDataIndex ← FindPrevNodeByValue heap element;
  if prevDataIndex =? -1 then mret false
  else RemoveNode prevDataIndex;; mret true.

Definition RemoveFirstFound (element : JSTaggedValue) : M TaggedArray bool :=
  prevDataIndex ← FindPrevNodeByValue heap element;
  if prevDataIndex =? -1 then throw IS_NOT_EXIST_ERROR
  else RemoveNode prevDataIndex;; mret true.

Definition RemoveLastFound (element : JSTaggedValue) : M TaggedArray bool :=
  prevDataIndex ← FindPrevNodeByValueAtLast heap element;
  if prevDataIndex =? -1 then throw IS_NOT_EXIST_ERROR
  else RemoveNode prevDataIndex;; mret true.

(** The loop of TaggedSingleList::Equal, over both lists. *)
Fixpoint equal_nodes (compareList : TaggedArray) (n : nat) (compareNode valueNode : Z) : M TaggedArray bool :=
  match n with
  | O => mret true
  | Datatypes.S n =>
      compareNode ← from compareList (GetNextDataIndex compareNode);
      valueNode ← GetNextDataIndex valueNode;
      compareValue ← from compareList (GetElement compareNode);
      value ← GetElement valueNode;
      if negb (SameValue heap compareValue value) then mret false
      else equal_nodes compareList n compareNode valueNode
  end.

Definition Equal (compareList : TaggedArray) : M TaggedArray bool :=
  compareListLength ← from compareList NumberOfNodes;
  nodes ← NumberOfNodes;
  if negb (compareListLength =? nodes) then mret false
  else equal_nodes compareList (Z.to_nat compareListLength) ELEMENTS_START_INDEX ELEMENTS_START_INDEX.
End values.

(** TaggedDoubleList::RemoveFirst and RemoveLast. *)
Definition RemoveFirst : M TaggedArray JSTaggedValue :=
  firstDataIndex ← GetIndex (ELEMENTS_START_INDEX + NEXT_PTR_OFFSET);
  firstData ← GetElement firstDataIndex;
  RemoveNode ELEMENTS_START_INDEX;;
  mret firstData.

Definition RemoveLast : M TaggedArray JSTaggedValue :=
  lastDataIndex ← GetIndex (ELEMENTS_START_INDEX + 2);
  prevDataIndex ← GetIndex (lastDataIndex + 2);
  lastData ← GetElement lastDataIndex;
  RemoveNode prevDataIndex;;
  mret lastData.

(** ** Parts of a list (TaggedSingleList) *)

(** The first loop of GetSubList finds the two nodes; its variables are
    fromDataIndex, dataIndex and nodeSum. *)
Definition sub_bounds (fromIndex toIndex : Z) : M TaggedArray (Z * Z) :=
  dataIndex ← GetIndex (ELEMENTS_START_INDEX + NEXT_PTR_OFFSET);
  walk (fun '(fromDataIndex, dataIndex, nodeSum) =>
    if dataIndex =? ELEMENTS_START_INDEX then mret (inr (fromDataIndex, -1))
    else
      let fromDataIndex := if nodeSum =? fromIndex then dataIndex else fromDataIndex in
      dataIndex ← GetIndex (dataIndex + NEXT_PTR_OFFSET);
      let nodeSum := nodeSum + 1 in
      if nodeSum =? toIndex then mret (inr (fromDataIndex, dataIndex))
      else mret (inl (fromDataIndex, dataIndex, nodeSum)))
    (-1, dataIndex, 0).

(** One round of the second loop copies a node of [src]; preDataIndex is
    curDataIndex before the round. *)
Definition sub_step (src : TaggedArray) (toDataIndex : Z) (vars : Z * Z) : M TaggedArray (Z * Z + Z) :=
  let '(fromDataIndex, preDataIndex) := vars in
  if negb (fromDataIndex =? toDataIndex) then
    let curDataIndex := preDataIndex + ENTRY_SIZE TaggedSingleList in
    v ← from src (GetElement fromDataIndex);
    SetElement (preDataIndex + NEXT_PTR_OFFSET) (VInt curDataIndex);;
    SetElement curDataIndex v;;
    fromDataIndex ← from src (GetIndex (fromDataIndex + NEXT_PTR_OFFSET));
    mret (inl (fromDataIndex, curDataIndex))
  else mret (inr preDataIndex).

(** GetSubList of [src] into the new list that is the state. *)
Definition GetSubList (src : TaggedArray) (fromIndex toIndex : Z) : M TaggedArray unit :=
  '(fromDataIndex, toDataIndex) ← from src (sub_bounds fromIndex toIndex);
  curDataIndex ← while_fuel (Datatypes.S (length src)) (sub_step src toDataIndex) (fromDataIndex, ELEMENTS_START_INDEX);
  SetElement (curDataIndex + NEXT_PTR_OFFSET) (VInt ELEMENTS_START_INDEX);;
  SetElement HEAD_TABLE_INDEX (VInt ELEMENTS_START_INDEX);;
  SetElement TAIL_TABLE_INDEX (VInt curDataIndex);;
  SetNumberOfNodes (toIndex - fromIndex);;
  SetNumberOfDeletedNodes 0.

(** The loop of SortByNodeOrder. *)
Fixpoint order_nodes (src : TaggedArray) (n : nat) (i nextDataIndex : Z) : M TaggedArray unit :=
  match n with
  | O => mret tt
  | Datatypes.S n =>
      let curDataIndex := ELEMENTS_START_INDEX + (i + 1) * ENTRY_SIZE TaggedSingleList in
      v ← from src (GetElement nextDataIndex);
      SetElement curDataIndex v;;
      SetElement (curDataIndex + NEXT_PTR_OFFSET) (VInt (curDataIndex + ENTRY_SIZE TaggedSingleList));;
      nextDataIndex ← from src (GetIndex (nextDataIndex + NEXT_PTR_OFFSET));
      order_nodes src n (i + 1) nextDataIndex
  end.

(** A new list with the nodes of [src] in their order. *)
Definition SortByNodeOrder {S} (src : TaggedArray) : M S TaggedArray :=
  actualNodeNum ← from src NumberOfNodes;
  nextDataIndex ← from src (GetIndex (ELEMENTS_START_INDEX + NEXT_PTR_OFFSET));
  let length := u32 actualNodeNum in
  list ← Create (if length <? DEFAULT_ARRAY_LENGHT then DEFAULT_ARRAY_LENGHT else length);
  let tailTableIndex := ELEMENTS_START_INDEX + actualNodeNum * ENTRY_SIZE TaggedSingleList in
  let nextTailIndex := ELEMENTS_START_INDEX + ENTRY_SIZE TaggedSingleList in
  build list
    (SetNumberOfNodes actualNodeNum;;
     SetElement TAIL_TABLE_INDEX (VInt tailTableIndex);;
     SetElement ELEMENTS_START_INDEX VHole;;
     SetElement (ELEMENTS_START_INDEX + NEXT_PTR_OFFSET) (VInt nextTailIndex);;
     order_nodes src (Z.to_nat actualNodeNum) 0 nextDataIndex;;
     SetElement (tailTableIndex + NEXT_PTR_OFFSET) (VInt ELEMENTS_START_INDEX)).
End derived.
End TaggedList.
