(* ===== verification/ListShape.v ===== *)
(** * ListShape: the list that an array holds.

    [holds a ns l d]: the array [a] has the nodes [ns], in the order of the list,
    with the values [l], and [d] removed nodes.  A node is numbered by its place
    in the array, and 0 is the head.  The nodes are seen by position: [nd ns j]
    is the node at position [j], with the head at 0 and again behind the last
    one.  What reading, walking and writing do is stated on this view. *)
From S2P Require Import Prelude TaggedValue TaggedArray TaggedList.
Local Open Scope Z_scope.

Module ListShape.
Import TaggedList.

(** ** Words *)

Definition cell (a : TaggedArray) (i : Z) (v : JSTaggedValue) : Prop := 0 <= i /\ a !! Z.to_nat i = Some v.

Definition wr (i : Z) (v : JSTaggedValue) (a : TaggedArray) : TaggedArray := <[Z.to_nat i := v]> a.

Lemma lenZ_wr (i : Z) (v : JSTaggedValue) (a : TaggedArray) : lenZ (wr i v a) = lenZ a.
Proof. unfold wr, lenZ. by rewrite length_insert. Qed.

Lemma cell_bound (a : TaggedArray) (i : Z) (v : JSTaggedValue) : cell a i v -> 0 <= i < lenZ a.
Proof. intros [Hi Hv]. apply lookup_lt_Some in Hv. unfold lenZ. lia. Qed.

Lemma cell_eq (a : TaggedArray) (i : Z) (v : JSTaggedValue) : 0 <= i < lenZ a -> cell (wr i v a) i v.
Proof. intros Hi. split; [lia|]. apply list_lookup_insert_eq. unfold lenZ in Hi. lia. Qed.

Lemma cell_ne (a : TaggedArray) (i j : Z) (v w : JSTaggedValue) : cell a j w -> i <> j -> 0 <= i -> cell (wr i v a) j w.
Proof. intros [Hj Hw] Hne Hi. split; [done|]. unfold wr. rewrite list_lookup_insert_ne by lia. done. Qed.

Lemma GetElement_cell (a : TaggedArray) (i : Z) (v : JSTaggedValue) : cell a i v -> GetElement i a = (Ok v, a).
Proof.
  intros Hc. pose proof (cell_bound _ _ _ Hc) as Hb. unfold GetElement, Arr.GetLength. mstep. zb.
  destruct Hc as [_ Hv]. unfold Arr.Get, read. zb. by rewrite Hv.
Qed.

Lemma Get_cell (a : TaggedArray) (i : Z) (v : JSTaggedValue) : cell a i v -> Arr.Get i a = (Ok v, a).
Proof. intros [Hi Hv]. unfold Arr.Get, read. zb. by rewrite Hv. Qed.

Lemma GetIndex_cell (a : TaggedArray) (i z : Z) : cell a i (VInt z) -> GetIndex i a = (Ok z, a).
Proof. intros Hc. unfold GetIndex. by mstep with (GetElement_cell _ _ _ Hc). Qed.

Lemma Set_cell (a : TaggedArray) (i : Z) (v : JSTaggedValue) : 0 <= i < lenZ a -> Arr.Set_ i v a = (Ok tt, wr i v a).
Proof. intros Hi. unfold Arr.Set_. by zb. Qed.

Lemma SetElement_run (a : TaggedArray) (i : Z) (v : JSTaggedValue) : 0 <= i < lenZ a -> SetElement i v a = (Ok tt, wr i v a).
Proof. intros Hi. unfold SetElement, Arr.GetLength. mstep. zb. by apply Set_cell. Qed.

(** ** Positions of values *)

Section positions.
Context {A : Type} (p : A -> bool).

Lemma find_index_at (l : list A) :
  match find_index p l with
  | Some i => 0 <= i < lenZ l /\ (exists x, l !! Z.to_nat i = Some x /\ p x = true) /\
              forall j y, 0 <= j < i -> l !! Z.to_nat j = Some y -> p y = false
  | None => forall j y, l !! j = Some y -> p y = false
  end.
Proof.
  destruct (find_index p l) as [i|] eqn:Hf.
  - apply find_index_Some in Hf as (pre & x & post & -> & <- & Hx & Hpre). split; [lenz|]. split.
    + exists x. split; [|done]. apply list_lookup_middle. unfold lenZ. lia.
    + intros j y Hj Hy. rewrite lookup_app_l in Hy by (unfold lenZ in Hj; lia).
      apply list_elem_of_lookup_2, list_elem_of_In in Hy. rewrite forallb_forall in Hpre. by apply negb_true_iff, Hpre.
  - apply find_index_None in Hf. intros j y Hy. apply list_elem_of_lookup_2, list_elem_of_In in Hy.
    rewrite forallb_forall in Hf. by apply negb_true_iff, Hf.
Qed.

Lemma find_last_index_at (l : list A) :
  match find_last_index p l with
  | Some i => 0 <= i < lenZ l /\ (exists x, l !! Z.to_nat i = Some x /\ p x = true) /\
              forall j y, i < j -> l !! Z.to_nat j = Some y -> p y = false
  | None => forall j y, l !! j = Some y -> p y = false
  end.
Proof.
  induction l as [|x l IH] using rev_ind; [done|]. rewrite find_last_index_snoc. destruct (p x) eqn:Hx.
  - split; [lenz|]. split.
    + exists x. split; [|done]. apply list_lookup_middle. unfold lenZ. lia.
    + intros j y Hj Hy. apply lookup_lt_Some in Hy. rewrite length_app in Hy. unfold lenZ in Hj. simpl in Hy. lia.
  - assert (forall j y, (l ++ [x]) !! j = Some y -> (exists Hl : l !! j = Some y, True) \/ p y = false) as Hsplit.
    { intros j y Hy. apply lookup_app_Some in Hy as [Hy|[_ Hy]]; [left; by exists Hy|].
      right. apply list_lookup_singleton_Some in Hy as [_ <-]. done. }
    destruct (find_last_index p l) as [i|].
    + destruct IH as (Hi & (y & Hy & Hp) & Hall). split; [lenz|]. split.
      * exists y. split; [|done]. rewrite lookup_app_l; [done|]. apply lookup_lt_Some in Hy. lia.
      * intros j z Hj Hz. destruct (Hsplit _ _ Hz) as [[Hz' _]|]; [by apply (Hall j)|done].
    + intros j z Hz. destruct (Hsplit _ _ Hz) as [[Hz' _]|]; [by apply (IH j)|done].
Qed.
End positions.

(** ** Walks *)

(** A walk that only reads and leaves the loop at [N]. *)
Lemma while_loop {X A} (step : X -> M TaggedArray (X + A)) (x : Z -> X) (a : TaggedArray) (r : A) (N j : Z) (fuel : nat) :
  (forall i, j <= i < N -> step (x i) a = (Ok (inl (x (i + 1))), a)) ->
  step (x N) a = (Ok (inr r), a) -> j <= N -> N - j < Z.of_nat fuel ->
  while_fuel fuel step (x j) a = (Ok r, a).
Proof.
  revert j. induction fuel as [|fuel IH]; intros j Hs HN Hj Hf; [lia|]. simpl.
  destruct (decide (j = N)) as [->|]; [by mstep with HN|].
  mstep with (Hs j ltac:(lia)). apply IH; [intros; apply Hs; lia|done|lia..].
Qed.

Lemma walk_loop {X A} (step : X -> M TaggedArray (X + A)) (x : Z -> X) (a : TaggedArray) (r : A) (N j : Z) :
  (forall i, j <= i < N -> step (x i) a = (Ok (inl (x (i + 1))), a)) ->
  step (x N) a = (Ok (inr r), a) -> j <= N -> N - j <= lenZ a ->
  walk step (x j) a = (Ok r, a).
Proof.
  intros Hs HN Hj Hf. unfold walk. mstep. by apply (while_loop _ x _ _ N); [..|unfold lenZ in Hf; lia].
Qed.

(** ** Nodes *)

Definition nd (ns : list Z) (j : Z) : Z := if j =? 0 then 0 else default 0 (ns !! Z.to_nat (j - 1)).

Lemma nd_0 (ns : list Z) : nd ns 0 = 0.
Proof. done. Qed.

Lemma nd_end (ns : list Z) (j : Z) : lenZ ns < j -> nd ns j = 0.
Proof. intros Hj. pose proof (lenZ_nonneg ns). unfold nd, lenZ in *. zb. by rewrite lookup_ge_None_2 by lia. Qed.

Lemma nd_insert (ns1 ns2 : list Z) (k j : Z) : 0 <= j ->
  nd (ns1 ++ k :: ns2) j = (if j <=? lenZ ns1 then nd (ns1 ++ ns2) j else if j =? lenZ ns1 + 1 then k else nd (ns1 ++ ns2) (j - 1)).
Proof.
  intros Hj. unfold nd, lenZ. destruct (Z.eqb_spec j 0) as [->|]; [by zb|].
  destruct (Z.leb_spec j (Z.of_nat (length ns1))); [by rewrite !lookup_app_l by lia|].
  destruct (Z.eqb_spec j (Z.of_nat (length ns1) + 1)) as [->|].
  - by rewrite list_lookup_middle by lia.
  - zb. rewrite !lookup_app_r by lia. replace (Z.to_nat (j - 1) - length ns1)%nat with (Datatypes.S (Z.to_nat (j - 1 - 1) - length ns1)) by lia. done.
Qed.

(** The index of the node [k]. *)
Definition at_ (ho : Derived) (k : Z) : Z := ELEMENTS_START_INDEX + k * ENTRY_SIZE ho.

(** The word [j] of an array after writes to other words or to this one. *)
Ltac word_arith := unfold at_, ELEMENTS_START_INDEX, NEXT_PTR_OFFSET, PREV_PTR_OFFSET, NUMBER_OF_NODE_INDEX, NUMBER_OF_DELETED_NODES_INDEX, HEAD_TABLE_INDEX, TAIL_TABLE_INDEX in *; try match goal with HE : ENTRY_SIZE _ = _ |- _ => rewrite HE in * end; lia.
Ltac word :=
  lazymatch goal with
  | |- cell (wr ?i ?v ?a) ?j ?w =>
      first [ apply cell_ne; [word|word_arith|word_arith]
            | replace j with i by word_arith; apply cell_eq; rewrite ?lenZ_wr; word_arith ]
  | _ => eassumption
  end.
Ltac conj := repeat lazymatch goal with |- _ /\ _ => split | |- forall _, _ => intros ? end.
Ltac put := mstep by (apply SetElement_run; rewrite ?lenZ_wr; word_arith).

Section derived.
Context (ho : Derived).
Notation at_ := (at_ ho).
Notation E := (ENTRY_SIZE ho).

Lemma at_0 : at_ 0 = ELEMENTS_START_INDEX.
Proof. done. Qed.

Lemma at_inj (k k' : Z) : at_ k = at_ k' <-> k = k'.
Proof. unfold ListShape.at_, ENTRY_SIZE, ELEMENTS_START_INDEX. destruct ho; lia. Qed.

Lemma at_start (k : Z) : (at_ k =? ELEMENTS_START_INDEX) = (k =? 0).
Proof. unfold ListShape.at_, ENTRY_SIZE. destruct (Z.eqb_spec k 0) as [->|]; [by destruct ho|]. apply Z.eqb_neq. destruct ho; lia. Qed.

Record holds (a : TaggedArray) (ns : list Z) (l : list JSTaggedValue) (d : Z) : Prop := mkHolds {
  holds_len : lenZ ns = lenZ l;
  holds_nodes : cell a NUMBER_OF_NODE_INDEX (VInt (lenZ l));
  holds_deleted : cell a NUMBER_OF_DELETED_NODES_INDEX (VInt d);
  holds_head : cell a HEAD_TABLE_INDEX (VInt ELEMENTS_START_INDEX);
  holds_tail : cell a TAIL_TABLE_INDEX (VInt (at_ (nd ns (lenZ l))));
  holds_start : cell a ELEMENTS_START_INDEX VHole;
  holds_next : forall j, 0 <= j <= lenZ l -> cell a (at_ (nd ns j) + NEXT_PTR_OFFSET) (VInt (at_ (nd ns (j + 1))));
  holds_prev : is_double ho = true -> forall j, 1 <= j <= lenZ l + 1 -> cell a (at_ (nd ns j) + PREV_PTR_OFFSET) (VInt (at_ (nd ns (j - 1))));
  holds_val : forall j v, 0 <= j -> l !! Z.to_nat j = Some v -> cell a (at_ (nd ns (j + 1))) v;
  holds_inj : forall j j', 0 <= j <= lenZ l -> 0 <= j' <= lenZ l -> nd ns j = nd ns j' -> j = j';
  holds_range : forall j, 1 <= j <= lenZ l -> 1 <= nd ns j <= lenZ l + d;
  holds_room : at_ (lenZ l + d + 1) <= lenZ a;
  holds_d : 0 <= d;
}.

(** ** Reading *)

Section reading.
Context {a : TaggedArray} {ns : list Z} {l : list JSTaggedValue} {d : Z} (H : holds a ns l d).
Notation n := (lenZ l).

Lemma room_bound : 2 * (n + d) + 6 <= lenZ a.
Proof. pose proof (holds_room _ _ _ _ H) as Hr. pose proof (holds_d _ _ _ _ H). pose proof (lenZ_nonneg l). unfold ListShape.at_, ELEMENTS_START_INDEX, ENTRY_SIZE in Hr. destruct ho; lia. Qed.

Lemma next_run (j : Z) : 0 <= j <= n -> GetIndex (at_ (nd ns j) + NEXT_PTR_OFFSET) a = (Ok (at_ (nd ns (j + 1))), a).
Proof. intros Hj. by apply GetIndex_cell, (holds_next _ _ _ _ H). Qed.

Lemma first_run : GetIndex (ELEMENTS_START_INDEX + NEXT_PTR_OFFSET) a = (Ok (at_ (nd ns (0 + 1))), a).
Proof. pose proof (lenZ_nonneg l). apply (next_run 0). lia. Qed.

Lemma prev_run (j : Z) : is_double ho = true -> 1 <= j <= n + 1 -> GetIndex (at_ (nd ns j) + PREV_PTR_OFFSET) a = (Ok (at_ (nd ns (j - 1))), a).
Proof. intros Hd Hj. by apply GetIndex_cell, (holds_prev _ _ _ _ H). Qed.

(** The previous node of the head is the last one. *)
Lemma last_run : is_double ho = true -> GetIndex (ELEMENTS_START_INDEX + PREV_PTR_OFFSET) a = (Ok (at_ (nd ns n)), a).
Proof.
  intros Hd. pose proof (lenZ_nonneg l). pose proof (prev_run (n + 1) Hd ltac:(lia)) as Hp.
  rewrite (nd_end ns (n + 1)) in Hp by (rewrite (holds_len _ _ _ _ H); lia). by rewrite Z.add_simpl_r in Hp.
Qed.

Lemma tail_run : GetIndex TAIL_TABLE_INDEX a = (Ok (at_ (nd ns n)), a).
Proof. apply GetIndex_cell, (holds_tail _ _ _ _ H). Qed.

Lemma NumberOfNodes_run : NumberOfNodes a = (Ok n, a).
Proof. unfold NumberOfNodes. by mstep with (Get_cell _ _ _ (holds_nodes _ _ _ _ H)). Qed.

Lemma NumberOfDeletedNodes_run : NumberOfDeletedNodes a = (Ok d, a).
Proof. unfold NumberOfDeletedNodes. by mstep with (Get_cell _ _ _ (holds_deleted _ _ _ _ H)). Qed.

Lemma nodes_run : GetIndex NUMBER_OF_NODE_INDEX a = (Ok n, a).
Proof. apply GetIndex_cell, (holds_nodes _ _ _ _ H). Qed.

Lemma val_run (j : Z) (v : JSTaggedValue) : 0 <= j -> l !! Z.to_nat j = Some v -> GetElement (at_ (nd ns (j + 1))) a = (Ok v, a).
Proof. intros Hj Hv. by apply GetElement_cell, (holds_val _ _ _ _ H). Qed.

Lemma start_run : GetElement ELEMENTS_START_INDEX a = (Ok VHole, a).
Proof. apply GetElement_cell, (holds_start _ _ _ _ H). Qed.

(** The values seen by position. *)
Lemma item (j : Z) : 0 <= j < n -> exists v, l !! Z.to_nat j = Some v /\ GetElement (at_ (nd ns (j + 1))) a = (Ok v, a).
Proof.
  intros Hj. destruct (lookup_lt_is_Some_2 l (Z.to_nat j)) as [v Hv]; [unfold lenZ in Hj; lia|].
  exists v. split; [done|]. apply val_run; [lia|done].
Qed.

(** A node other than the head. *)
Lemma nd_node (j : Z) : 1 <= j <= n -> (at_ (nd ns j) =? ELEMENTS_START_INDEX) = false.
Proof. intros Hj. rewrite at_start. pose proof (holds_range _ _ _ _ H j Hj). by zb. Qed.

Lemma nd_last (j : Z) : n < j -> nd ns j = 0.
Proof. intros Hj. apply nd_end. rewrite (holds_len _ _ _ _ H). lia. Qed.

Lemma FindElementByIndex_run (index : Z) : 0 <= index -> FindElementByIndex index a = (Ok (default VUndefined (l !! Z.to_nat index)), a).
Proof.
  intros Hi. pose proof room_bound. pose proof (lenZ_nonneg l). pose proof (holds_d _ _ _ _ H). unfold FindElementByIndex. mstep with first_run.
  apply (walk_loop _ (fun i => (at_ (nd ns (i + 1)), i)) _ _ (Z.min index n)); [| |lia..].
  - intros i Hb. cbv beta iota. rewrite nd_node by lia. zb. by mstep with (next_run (i + 1) ltac:(lia)).
  - cbv beta iota. destruct (Z.min_spec index n) as [[Hlt ->]|[Hge ->]].
    + rewrite nd_node by lia. zb. destruct (item index ltac:(lia)) as (v & -> & Hv). by mstep with Hv.
    + rewrite nd_last, at_start by lia. rewrite lookup_ge_None_2 by (unfold lenZ in *; lia). done.
Qed.

Lemma FindDataIndexByNodeIndex_run (index : Z) : 0 <= index < n -> FindDataIndexByNodeIndex index a = (Ok (at_ (nd ns (index + 1))), a).
Proof.
  intros Hi. pose proof room_bound. pose proof (holds_d _ _ _ _ H). unfold FindDataIndexByNodeIndex. mstep with first_run.
  apply (walk_loop _ (fun i => (at_ (nd ns (i + 1)), i)) _ _ index); [| |lia..].
  - intros i Hb. cbv beta iota. rewrite nd_node by lia. zb. by mstep with (next_run (i + 1) ltac:(lia)).
  - cbv beta iota. rewrite nd_node by lia. by zb.
Qed.

Lemma FindPrevNodeByIndex_run (index : Z) : 0 <= index <= n -> FindPrevNodeByIndex index a = (Ok (at_ (nd ns index)), a).
Proof.
  intros Hi. pose proof room_bound. pose proof (holds_d _ _ _ _ H). unfold FindPrevNodeByIndex. mstep with nodes_run.
  change (ELEMENTS_START_INDEX, 0) with (at_ (nd ns 0), 0).
  apply (walk_loop _ (fun i => (at_ (nd ns i), i)) _ _ index); [| |lia..].
  - intros i Hb. cbv beta iota. zb. by mstep with (next_run i ltac:(lia)).
  - cbv beta iota. by zb.
Qed.

Lemma FindElementByIndexAtLast_run (index : Z) : is_double ho = true -> 0 <= index < n ->
  FindElementByIndexAtLast index a = (Ok (default VUndefined (l !! Z.to_nat index)), a).
Proof.
  intros Hd Hi. pose proof room_bound. pose proof (holds_d _ _ _ _ H). unfold FindElementByIndexAtLast. mstep with (last_run Hd). mstep with nodes_run.
  replace (at_ (nd ns n), n - 1) with (at_ (nd ns (n - 0)), n - 1 - 0) by (by rewrite !Z.sub_0_r).
  apply (walk_loop _ (fun i => (at_ (nd ns (n - i)), n - 1 - i)) _ _ (n - 1 - index)); [| |lia..].
  - intros i Hb. cbv beta iota. rewrite nd_node by lia. destruct (item (n - i - 1) ltac:(lia)) as (v & _ & Hv).
    rewrite Z.sub_add in Hv. mstep with Hv. zb. mstep with (prev_run (n - i) Hd ltac:(lia)). replace (n - (i + 1)) with (n - i - 1) by lia. by replace (n - 1 - (i + 1)) with (n - 1 - i - 1) by lia.
  - cbv beta iota. rewrite nd_node by lia. replace (n - (n - 1 - index)) with (index + 1) by lia.
    destruct (item index ltac:(lia)) as (v & -> & Hv). mstep with Hv. by zb.
Qed.

Lemma FindPrevNodeByIndexAtLast_run (index : Z) : is_double ho = true -> 0 <= index < n ->
  FindPrevNodeByIndexAtLast index a = (Ok (at_ (nd ns (n - 1 - index))), a).
Proof.
  intros Hd Hi. pose proof room_bound. pose proof (holds_d _ _ _ _ H). unfold FindPrevNodeByIndexAtLast. mstep with (last_run Hd). mstep with nodes_run.
  replace (at_ (nd ns n), 0) with (at_ (nd ns (n - 0)), 0) by (by rewrite Z.sub_0_r).
  apply (walk_loop _ (fun i => (at_ (nd ns (n - i)), i)) _ _ index); [| |lia..].
  - intros i Hb. cbv beta iota. zb. mstep with (prev_run (n - i) Hd ltac:(lia)). zb. by replace (n - (i + 1)) with (n - i - 1) by lia.
  - cbv beta iota. zb. mstep with (prev_run (n - index) Hd ltac:(lia)). zb. by replace (n - 1 - index) with (n - index - 1) by lia.
Qed.

Lemma GetPrevNode_run (index : Z) : is_double ho = true -> 0 <= index <= n -> GetPrevNode index a = (Ok (at_ (nd ns index)), a).
Proof.
  intros Hd Hi. unfold GetPrevNode. mstep with NumberOfNodes_run.
  destruct (Z.ltb_spec index (Z.quot n 2)); [by apply FindPrevNodeByIndex_run|].
  destruct (Z.eqb_spec (n - 1 - index) (-1)) as [He|Hne].
  - rewrite tail_run. by replace index with n by lia.
  - rewrite FindPrevNodeByIndexAtLast_run by (done || lia). do 4 f_equal. lia.
Qed.
(** ** Searching for a value *)

Context (heap : Heap) (element : JSTaggedValue).
Notation same := (fun v => SameValue heap v element).

Lemma FindIndexByElement_run : FindIndexByElement heap element a = (Ok (default (-1) (find_index same l)), a).
Proof.
  pose proof room_bound. pose proof (lenZ_nonneg l). pose proof (holds_d _ _ _ _ H). pose proof (find_index_at same l) as Hf.
  unfold FindIndexByElement. mstep with first_run.
  apply (walk_loop _ (fun i => (at_ (nd ns (i + 1)), i)) _ _ (default n (find_index same l))).
  - intros i Hb. assert (0 <= i < n) as Hi by (destruct (find_index same l); simpl in Hb; lia).
    cbv beta iota. rewrite nd_node by lia. destruct (item i Hi) as (v & Hl & Hv). mstep with Hv. mstep with (next_run (i + 1) ltac:(lia)).
    replace (SameValue heap v element) with false; [done|]. symmetry.
    destruct (find_index same l) as [k|]; [destruct Hf as (_ & _ & Hf); by apply (Hf i); simpl in Hb|by apply (Hf _ _ Hl)].
  - cbv beta iota. destruct (find_index same l) as [k|]; simpl.
    + destruct Hf as (Hk & (x & Hl & Hx) & _). rewrite nd_node by lia. mstep with (val_run k x ltac:(lia) Hl). mstep with (next_run (k + 1) ltac:(lia)). by rewrite Hx.
    + by rewrite nd_last, at_start by lia.
  - destruct (find_index same l); simpl; lia.
  - destruct (find_index same l); simpl; lia.
Qed.

Lemma FindLastIndexByElement_run : FindLastIndexByElement heap element a = (Ok (default (-1) (find_last_index same l)), a).
Proof.
  pose proof room_bound. pose proof (lenZ_nonneg l). pose proof (holds_d _ _ _ _ H). unfold FindLastIndexByElement. mstep with first_run.
  apply (walk_loop _ (fun i => (at_ (nd ns (i + 1)), i, default (-1) (find_last_index same (take (Z.to_nat i) l)))) _ _ n); [| |lia..].
  - intros i Hb. cbv beta iota. rewrite nd_node by lia. destruct (item i Hb) as (v & Hl & Hv). mstep with Hv. mstep with (next_run (i + 1) ltac:(lia)).
    replace (Z.to_nat (i + 1)) with (Datatypes.S (Z.to_nat i)) by lia. rewrite (take_S_r _ _ _ Hl), find_last_index_snoc.
    replace (lenZ (take (Z.to_nat i) l)) with i by (unfold lenZ in *; rewrite length_take; lia). by destruct (SameValue heap v element).
  - cbv beta iota. rewrite nd_last, at_start by lia. by rewrite take_ge by (unfold lenZ; lia).
Qed.

Hypothesis Hhole : SameValue heap VHole element = false.

Lemma FindPrevNodeByValue_run : FindPrevNodeByValue heap element a = (Ok (match find_index same l with Some i => at_ (nd ns i) | None => -1 end), a).
Proof.
  pose proof room_bound. pose proof (lenZ_nonneg l). pose proof (holds_d _ _ _ _ H). pose proof (find_index_at same l) as Hf.
  unfold FindPrevNodeByValue. mstep with nodes_run. change (ELEMENTS_START_INDEX, 0) with (at_ (nd ns 0), 0).
  apply (walk_loop _ (fun i => (at_ (nd ns i), i)) _ _ (default (n + 1) (find_index same l))).
  - intros i Hb. assert (0 <= i <= n) as Hi by (destruct (find_index same l); simpl in Hb; lia).
    cbv beta iota. zb. mstep with (next_run i Hi). destruct (decide (i = n)) as [->|Hne].
    + rewrite (nd_last (n + 1)), at_0 by lia. mstep with start_run. by rewrite Hhole.
    + destruct (item i ltac:(lia)) as (v & Hl & Hv). mstep with Hv.
      replace (SameValue heap v element) with false; [done|]. symmetry.
      destruct (find_index same l) as [k|]; [destruct Hf as (_ & _ & Hf); by apply (Hf i); simpl in Hb|by apply (Hf _ _ Hl)].
  - cbv beta iota. destruct (find_index same l) as [k|]; simpl; [|by zb].
    destruct Hf as (Hk & (x & Hl & Hx) & _). zb. mstep with (next_run k ltac:(lia)). mstep with (val_run k x ltac:(lia) Hl). by rewrite Hx.
  - destruct (find_index same l); simpl; lia.
  - destruct (find_index same l); simpl; lia.
Qed.

Lemma FindPrevNodeByValueAtLast_run : is_double ho = true ->
  FindPrevNodeByValueAtLast heap element a = (Ok (match find_last_index same l with Some i => at_ (nd ns i) | None => -1 end), a).
Proof.
  intros Hd. pose proof room_bound. pose proof (lenZ_nonneg l). pose proof (holds_d _ _ _ _ H). pose proof (find_last_index_at same l) as Hf.
  unfold FindPrevNodeByValueAtLast. mstep with (last_run Hd). mstep with nodes_run.
  replace (at_ (nd ns n), 0) with (at_ (nd ns (if 0 <=? n then n - 0 else n)), 0) by (zb; by rewrite Z.sub_0_r).
  apply (walk_loop _ (fun i => (at_ (nd ns (if i <=? n then n - i else n)), i)) _ _ (match find_last_index same l with Some i => n - 1 - i | None => n + 1 end)).
  - intros i Hb. assert (0 <= i <= n) as Hi by (destruct (find_last_index same l); lia). cbv beta iota. zb.
    destruct (decide (i = n)) as [->|Hne].
    + replace (n - n) with 0 by lia. rewrite nd_0, at_0. mstep with (last_run Hd). mstep with start_run. rewrite Hhole. by zb.
    + mstep with (prev_run (n - i) Hd ltac:(lia)). destruct (item (n - i - 1) ltac:(lia)) as (v & Hl & Hv). rewrite Z.sub_add in Hv. mstep with Hv.
      replace (SameValue heap v element) with false; [zb; by replace (n - (i + 1)) with (n - i - 1) by lia|]. symmetry.
      destruct (find_last_index same l) as [k|]; [destruct Hf as (_ & _ & Hf); apply (Hf (n - i - 1)); [lia|done]|by apply (Hf _ _ Hl)].
  - cbv beta iota. destruct (find_last_index same l) as [k|]; simpl; [|by zb].
    destruct Hf as (Hk & (x & Hl & Hx) & _). zb. mstep with (prev_run (n - (n - 1 - k)) Hd ltac:(lia)). replace (n - (n - 1 - k)) with (k + 1) by lia.
    mstep with (val_run k x ltac:(lia) Hl). rewrite Hx. by replace (k + 1 - 1) with k by lia.
  - destruct (find_last_index same l); lia.
  - destruct (find_last_index same l); lia.
Qed.
End reading.

(** ** Writing *)

Lemma entry_cases : (is_double ho = false /\ ENTRY_SIZE ho = 2) \/ (is_double ho = true /\ ENTRY_SIZE ho = 3).
Proof. destruct ho; [by left|by right]. Qed.

(** What InsertNode writes between the nodes [p] and [q]. *)
Lemma InsertNode_words (a : TaggedArray) (v : JSTaggedValue) (p q k n : Z) :
  cell a (at_ p + NEXT_PTR_OFFSET) (VInt (at_ q)) -> cell a NUMBER_OF_NODE_INDEX (VInt n) ->
  0 <= p < k -> 0 <= q < k -> at_ (k + 1) <= lenZ a ->
  exists a', InsertNode ho v (at_ p) (at_ k) a = (Ok tt, a') /\ lenZ a' = lenZ a /\
    cell a' NUMBER_OF_NODE_INDEX (VInt (n + 1)) /\
    (forall h w, 1 <= h <= ELEMENTS_START_INDEX -> cell a h w -> cell a' h w) /\
    cell a' (at_ p + NEXT_PTR_OFFSET) (VInt (at_ k)) /\ cell a' (at_ k) v /\ cell a' (at_ k + NEXT_PTR_OFFSET) (VInt (at_ q)) /\
    (forall x w, 0 <= x < k -> x <> p -> cell a (at_ x + NEXT_PTR_OFFSET) w -> cell a' (at_ x + NEXT_PTR_OFFSET) w) /\
    (forall x w, 1 <= x < k -> cell a (at_ x) w -> cell a' (at_ x) w) /\
    (is_double ho = true ->
      cell a' (at_ q + PREV_PTR_OFFSET) (VInt (at_ k)) /\ cell a' (at_ k + PREV_PTR_OFFSET) (VInt (at_ p)) /\
      forall x w, 0 <= x < k -> x <> q -> cell a (at_ x + PREV_PTR_OFFSET) w -> cell a' (at_ x + PREV_PTR_OFFSET) w).
Proof.
  intros Hnext Hn Hp Hq Hk. unfold InsertNode. mstep with (GetIndex_cell _ _ _ Hnext). clear Hnext.
  destruct entry_cases as [[Hb HE]|[Hb HE]]; rewrite Hb; (eexists; split; [|split]).
  1: { put. mstep. do 2 put. mstep. unfold NumberOfNodes. rewrite <- bind_assoc. mstep by (apply Get_cell; word). mstep. apply Set_cell; rewrite ?lenZ_wr; word_arith. }
  3: { do 5 put. unfold NumberOfNodes. rewrite <- bind_assoc. mstep by (apply Get_cell; word). mstep. apply Set_cell; rewrite ?lenZ_wr; word_arith. }
  1, 3: by rewrite ?lenZ_wr.
  all: conj; first [word|congruence].
Qed.

(** What RemoveNode writes when it takes out the node [x] between [p] and [q]. *)
Lemma RemoveNode_words (a : TaggedArray) (p x q t n d : Z) :
  cell a (at_ p + NEXT_PTR_OFFSET) (VInt (at_ x)) -> cell a (at_ x + NEXT_PTR_OFFSET) (VInt (at_ q)) ->
  cell a NUMBER_OF_NODE_INDEX (VInt n) -> cell a NUMBER_OF_DELETED_NODES_INDEX (VInt d) ->
  cell a HEAD_TABLE_INDEX (VInt ELEMENTS_START_INDEX) -> cell a TAIL_TABLE_INDEX (VInt (at_ t)) -> t <> 0 ->
  0 <= p -> 1 <= x -> 0 <= q -> x <> p -> x <> q -> at_ (p + 1) <= lenZ a -> at_ (x + 1) <= lenZ a -> at_ (q + 1) <= lenZ a ->
  exists a', RemoveNode ho (at_ p) a = (Ok tt, a') /\ lenZ a' = lenZ a /\
    cell a' NUMBER_OF_NODE_INDEX (VInt (n - 1)) /\ cell a' NUMBER_OF_DELETED_NODES_INDEX (VInt (d + 1)) /\
    cell a' HEAD_TABLE_INDEX (VInt ELEMENTS_START_INDEX) /\ cell a' TAIL_TABLE_INDEX (VInt (at_ (if x =? t then p else t))) /\
    (forall w, cell a ELEMENTS_START_INDEX w -> cell a' ELEMENTS_START_INDEX w) /\
    cell a' (at_ p + NEXT_PTR_OFFSET) (VInt (at_ q)) /\ cell a' (at_ x) VHole /\
    (forall y w, 0 <= y -> y <> p -> cell a (at_ y + NEXT_PTR_OFFSET) w -> cell a' (at_ y + NEXT_PTR_OFFSET) w) /\
    (forall y w, 1 <= y -> y <> x -> cell a (at_ y) w -> cell a' (at_ y) w) /\
    (is_double ho = true -> cell a' (at_ q + PREV_PTR_OFFSET) (VInt (at_ p)) /\
      forall y w, 0 <= y -> y <> q -> cell a (at_ y + PREV_PTR_OFFSET) w -> cell a' (at_ y + PREV_PTR_OFFSET) w).
Proof.
  intros Hp Hx Hn Hd Hh Ht Ht0 Hp0 Hx0 Hq0 Hxp Hxq Hpr Hxr Hqr. unfold RemoveNode.
  mstep with (GetIndex_cell _ _ _ Ht). mstep with (GetIndex_cell _ _ _ Hh). rewrite at_start. zb.
  mstep with (GetIndex_cell _ _ _ Hp). mstep with (GetIndex_cell _ _ _ Hx). clear Hp Hx.
  replace (at_ x =? at_ t) with (x =? t) by (apply eq_bool_prop_intro; rewrite !Is_true_true, !Z.eqb_eq, at_inj; done).
  unfold NumberOfNodes, NumberOfDeletedNodes.
  destruct entry_cases as [[Hb HE]|[Hb HE]]; rewrite Hb; destruct (Z.eqb_spec x t) as [->|Hxt]; (eexists; split; [|split]).
  1, 4, 7, 10: first [put|mstep].
  1, 2: mstep. 3, 4: put.
  1, 2, 3, 4: do 2 put; rewrite <- bind_assoc; (mstep by (apply Get_cell; word)); mstep; (mstep by (apply Set_cell; rewrite ?lenZ_wr; word_arith)); rewrite <- bind_assoc; (mstep by (apply Get_cell; word)); mstep; (apply Set_cell; rewrite ?lenZ_wr; word_arith).
  1, 3, 5, 7: by rewrite ?lenZ_wr.
  all: conj; first [word|congruence].
Qed.

(** ** The list after a change *)

Lemma nd_bounds (a : TaggedArray) (ns : list Z) (l : list JSTaggedValue) (d j : Z) : holds a ns l d -> 0 <= j -> 0 <= nd ns j <= lenZ l + d.
Proof.
  intros H Hj. pose proof (holds_d _ _ _ _ H). pose proof (lenZ_nonneg l). destruct (decide (j = 0)) as [->|]; [rewrite nd_0; lia|].
  destruct (decide (j <= lenZ l)); [pose proof (holds_range _ _ _ _ H j ltac:(lia)); lia|]. rewrite (nd_last H) by lia. lia.
Qed.

(** Words of nodes are no words of the header. *)
Lemma at_ge (x f : Z) : 0 <= x -> 0 <= f -> ELEMENTS_START_INDEX <= at_ x + f.
Proof. intros Hx Hf. destruct entry_cases as [[_ HE]|[_ HE]]; word_arith. Qed.

(** A node [k] behind the position [i]; the list after the insertion is seen
    through the list before it. *)
Section insertion.
Context {a a' : TaggedArray} {ns ns' : list Z} {l l' : list JSTaggedValue} {d i k : Z} {v : JSTaggedValue}.
Context (H : holds a ns l d) (Hi : 0 <= i <= lenZ l) (Hk : k = lenZ l + 1 + d) (Hl' : lenZ l' = lenZ l + 1).
Context (Hnd : forall j, 0 <= j -> nd ns' j = if j <=? i then nd ns j else if j =? i + 1 then k else nd ns (j - 1)).
Context (Hlook : forall j w, 0 <= j -> l' !! Z.to_nat j = Some w -> if j <? i then l !! Z.to_nat j = Some w else if j =? i then w = v else l !! Z.to_nat (j - 1) = Some w).
Context (Wp : cell a' (at_ (nd ns i) + NEXT_PTR_OFFSET) (VInt (at_ k))) (Wv : cell a' (at_ k) v) (Wk : cell a' (at_ k + NEXT_PTR_OFFSET) (VInt (at_ (nd ns (i + 1))))).
Context (Wnext : forall x w, 0 <= x < k -> x <> nd ns i -> cell a (at_ x + NEXT_PTR_OFFSET) w -> cell a' (at_ x + NEXT_PTR_OFFSET) w).
Context (Wval : forall x w, 1 <= x < k -> cell a (at_ x) w -> cell a' (at_ x) w).
Context (Wprev : is_double ho = true ->
      cell a' (at_ (nd ns (i + 1)) + PREV_PTR_OFFSET) (VInt (at_ k)) /\ cell a' (at_ k + PREV_PTR_OFFSET) (VInt (at_ (nd ns i))) /\
      forall x w, 0 <= x < k -> x <> nd ns (i + 1) -> cell a (at_ x + PREV_PTR_OFFSET) w -> cell a' (at_ x + PREV_PTR_OFFSET) w).

Lemma nd_below (j : Z) : 0 <= j -> 0 <= nd ns j < k.
Proof. intros Hj. pose proof (nd_bounds _ _ _ _ j H Hj). lia. Qed.

(** Two positions with one node are equal, or both are the head. *)
Lemma nd_inj (j j' : Z) : 0 <= j <= lenZ l + 1 -> 0 <= j' <= lenZ l + 1 -> nd ns j = nd ns j' -> j = j' \/ (nd ns j = 0 /\ (j = 0 \/ j = lenZ l + 1) /\ (j' = 0 \/ j' = lenZ l + 1)).
Proof.
  intros Hj Hj' He. assert (forall x, 0 <= x <= lenZ l + 1 -> nd ns x = 0 -> x = 0 \/ x = lenZ l + 1) as Hz.
  { intros x Hx Hx0. destruct (decide (x = lenZ l + 1)); [by right|left]. rewrite <- (nd_0 ns) in Hx0. apply (holds_inj _ _ _ _ H) in Hx0; lia. }
  destruct (decide (nd ns j = 0)) as [Hz0|Hnz].
  - right. split_and!; [done|by apply Hz|apply Hz; [done|lia]].
  - left. apply (holds_inj _ _ _ _ H); [| |done].
    + destruct (decide (j = lenZ l + 1)) as [->|]; [rewrite (nd_last H) in Hnz; lia|lia].
    + destruct (decide (j' = lenZ l + 1)) as [->|]; [rewrite He, (nd_last H) in Hnz; lia|lia].
Qed.

Lemma insert_next (j : Z) : 0 <= j <= lenZ l' -> cell a' (at_ (nd ns' j) + NEXT_PTR_OFFSET) (VInt (at_ (nd ns' (j + 1)))).
Proof.
  intros Hj. rewrite !Hnd by lia. destruct (Z.leb_spec j i); [|destruct (Z.eqb_spec j (i + 1)) as [->|]]; zb; rewrite ?Z.add_simpl_r; [|done|].
  - destruct (Z.leb_spec (j + 1) i); [|zb; by replace j with i by lia].
    apply Wnext; [apply nd_below; lia| |apply (holds_next _ _ _ _ H); lia]. intros He%(holds_inj _ _ _ _ H); lia.
  - replace j with (j - 1 + 1) at 2 by lia.
    apply Wnext; [apply nd_below; lia| |apply (holds_next _ _ _ _ H); lia]. intros He%(holds_inj _ _ _ _ H); lia.
Qed.

Lemma insert_prev (j : Z) : is_double ho = true -> 1 <= j <= lenZ l' + 1 -> cell a' (at_ (nd ns' j) + PREV_PTR_OFFSET) (VInt (at_ (nd ns' (j - 1)))).
Proof.
  intros Hd Hj. destruct (Wprev Hd) as (Wq & Wkp & Wpr). rewrite !Hnd by lia.
  destruct (Z.leb_spec j i); [|destruct (Z.eqb_spec j (i + 1)) as [->|]]; zb; rewrite ?Z.add_simpl_r; [|done|].
  - apply Wpr; [apply nd_below; lia| |apply (holds_prev _ _ _ _ H); [done|lia]]. intros He%nd_inj; lia.
  - destruct (Z.eqb_spec (j - 1) (i + 1)) as [->|]; [done|].
    apply Wpr; [apply nd_below; lia| |apply (holds_prev _ _ _ _ H); [done|lia]]. intros He%nd_inj; lia.
Qed.

Lemma insert_val (j : Z) (w : JSTaggedValue) : 0 <= j -> l' !! Z.to_nat j = Some w -> cell a' (at_ (nd ns' (j + 1))) w.
Proof.
  intros Hj Hw. specialize (Hlook j w Hj Hw). rewrite Hnd by lia.
  assert (forall x, 0 <= x -> l !! Z.to_nat x = Some w -> cell a' (at_ (nd ns (x + 1))) w) as Hold.
  { intros x Hx Hxw. pose proof (lookup_lt_Some _ _ _ Hxw). pose proof (holds_range _ _ _ _ H (x + 1) ltac:(unfold lenZ; lia)).
    apply Wval; [lia|]. by apply (holds_val _ _ _ _ H). }
  destruct (Z.ltb_spec j i); [|destruct (Z.eqb_spec j i) as [->|]]; zb; [by apply Hold|by subst w|].
  replace (j + 1 - 1) with (j - 1 + 1) by lia. apply Hold; [lia|done].
Qed.

Lemma insert_inj (j j' : Z) : 0 <= j <= lenZ l' -> 0 <= j' <= lenZ l' -> nd ns' j = nd ns' j' -> j = j'.
Proof.
  intros Hj Hj'. rewrite !Hnd by lia. pose proof (nd_below j ltac:(lia)). pose proof (nd_below j' ltac:(lia)).
  destruct (Z.leb_spec j i), (Z.leb_spec j' i).
  - intros He%(holds_inj _ _ _ _ H); lia.
  - destruct (Z.eqb_spec j' (i + 1)); [lia|]. intros He%(holds_inj _ _ _ _ H); lia.
  - destruct (Z.eqb_spec j (i + 1)); [lia|]. intros He%(holds_inj _ _ _ _ H); lia.
  - pose proof (nd_below (j - 1) ltac:(lia)). pose proof (nd_below (j' - 1) ltac:(lia)).
    destruct (Z.eqb_spec j (i + 1)), (Z.eqb_spec j' (i + 1)); [lia..|]. intros He%(holds_inj _ _ _ _ H); lia.
Qed.

Lemma insert_range (j : Z) : 1 <= j <= lenZ l' -> 1 <= nd ns' j <= lenZ l' + d.
Proof.
  intros Hj. pose proof (holds_d _ _ _ _ H). rewrite Hnd by lia. destruct (Z.leb_spec j i); [pose proof (holds_range _ _ _ _ H j ltac:(lia)); lia|].
  destruct (Z.eqb_spec j (i + 1)); [lia|]. pose proof (holds_range _ _ _ _ H (j - 1) ltac:(lia)). lia.
Qed.
End insertion.

Lemma lookup_insert_at (l1 l2 : list JSTaggedValue) (v w : JSTaggedValue) (j : Z) : 0 <= j -> (l1 ++ v :: l2) !! Z.to_nat j = Some w ->
  if j <? lenZ l1 then (l1 ++ l2) !! Z.to_nat j = Some w else if j =? lenZ l1 then w = v else (l1 ++ l2) !! Z.to_nat (j - 1) = Some w.
Proof.
  intros Hj Hw. unfold lenZ. destruct (Z.ltb_spec j (Z.of_nat (length l1))).
  - rewrite lookup_app_l in Hw |- * by lia. done.
  - destruct (Z.eqb_spec j (Z.of_nat (length l1))) as [->|].
    + rewrite list_lookup_middle in Hw by lia. congruence.
    + rewrite lookup_app_r in Hw |- * by lia. replace (Z.to_nat j - length l1)%nat with (Datatypes.S (Z.to_nat (j - 1) - length l1)) in Hw by lia. done.
Qed.

Lemma InsertNode_run (a : TaggedArray) (ns1 ns2 : list Z) (l1 l2 : list JSTaggedValue) (d : Z) (v : JSTaggedValue) :
  holds a (ns1 ++ ns2) (l1 ++ l2) d -> lenZ ns1 = lenZ l1 -> at_ (lenZ (l1 ++ l2) + d + 2) <= lenZ a ->
  let k := lenZ (l1 ++ l2) + 1 + d in
  exists a', InsertNode ho v (at_ (nd (ns1 ++ ns2) (lenZ l1))) (at_ k) a = (Ok tt, a') /\ lenZ a' = lenZ a /\
    holds (if lenZ l1 =? lenZ (l1 ++ l2) then wr TAIL_TABLE_INDEX (VInt (at_ k)) a' else a') (ns1 ++ k :: ns2) (l1 ++ v :: l2) d.
Proof.
  intros H Hlen Hroom k. assert (lenZ (l1 ++ v :: l2) = lenZ (l1 ++ l2) + 1) as Hl' by lenz.
  assert (lenZ (ns1 ++ k :: ns2) = lenZ (l1 ++ v :: l2)) as Hns' by (pose proof (holds_len _ _ _ _ H); lenz).
  assert (0 <= lenZ l1 <= lenZ (l1 ++ l2)) as Hi by lenz.
  pose proof (fun j w => lookup_insert_at l1 l2 v w j) as Hlook.
  pose proof (fun j => nd_insert ns1 ns2 k j) as Hnd. rewrite Hlen in Hnd.
  set (i := lenZ l1) in *. set (l := l1 ++ l2) in *. set (ns := ns1 ++ ns2) in *. pose proof (holds_d _ _ _ _ H) as Hd0.
  pose proof (nd_bounds _ _ _ _ i H ltac:(lia)) as Bi. pose proof (nd_bounds _ _ _ _ (i + 1) H ltac:(lia)) as Bi1.
  destruct (InsertNode_words a v (nd ns i) (nd ns (i + 1)) k (lenZ l)) as (a' & Hrun & Hla & Wn & Wh & Wp & Wv & Wk & Wnext & Wval & Wprev).
  { apply (holds_next _ _ _ _ H). lia. } { apply (holds_nodes _ _ _ _ H). } { unfold k. lia. } { unfold k. lia. }
  { replace (k + 1) with (lenZ l + d + 2) by (unfold k; lia). done. }
  exists a'. split; [done|]. split; [done|].
  set (b := if i =? lenZ l then _ else _).
  assert (forall j w, j <> TAIL_TABLE_INDEX -> cell a' j w -> cell b j w) as Hif.
  { intros j w Hj Hc. unfold b. destruct (i =? lenZ l); [|done]. by apply cell_ne. }
  assert (forall x f w, 0 <= x -> 0 <= f -> cell a' (at_ x + f) w -> cell b (at_ x + f) w) as Hnode.
  { intros x f w Hx Hf. apply Hif. pose proof (at_ge x f Hx Hf). unfold ELEMENTS_START_INDEX, TAIL_TABLE_INDEX in *. lia. }
  assert (forall x w, 0 <= x -> cell a' (at_ x) w -> cell b (at_ x) w) as Hnode0.
  { intros x w Hx. rewrite <- (Z.add_0_r (at_ x)). by apply Hnode. }
  assert (forall j, 1 <= j <= lenZ (l1 ++ v :: l2) -> 1 <= nd (ns1 ++ k :: ns2) j <= lenZ (l1 ++ v :: l2) + d) as Hrange by (eapply (insert_range H (k := k)); eauto).
  assert (forall j, 0 <= j -> 0 <= nd (ns1 ++ k :: ns2) j) as Hpos.
  { intros j Hj. rewrite Hnd by done. destruct (Z.leb_spec j i); [apply (nd_bounds _ _ _ _ j H Hj)|]. destruct (Z.eqb_spec j (i + 1)); [unfold k; lia|apply (nd_bounds _ _ _ _ (j - 1) H); lia]. }
  constructor; try done.
  - rewrite Hl'. by apply Hif.
  - apply Hif; [done|]. apply Wh; [done|]. apply (holds_deleted _ _ _ _ H).
  - apply Hif; [done|]. apply Wh; [done|]. apply (holds_head _ _ _ _ H).
  - rewrite Hnd, Hl' by lia. unfold b. destruct (Z.eqb_spec i (lenZ l)) as [He|Hne]; zb.
    + apply cell_eq. rewrite Hla. apply (cell_bound _ _ _ (holds_tail _ _ _ _ H)).
    + rewrite Z.add_simpl_r. apply Wh; [done|]. apply (holds_tail _ _ _ _ H).
  - apply Hif; [done|]. apply Wh; [done|]. apply (holds_start _ _ _ _ H).
  - intros j Hj. apply Hnode; [apply Hpos; lia|done|]. eapply (insert_next H (k := k)); eauto.
  - intros Hd j Hj. apply Hnode; [apply Hpos; lia|done|]. eapply (insert_prev H (k := k)); eauto.
  - intros j w Hj Hw. apply Hnode0; [apply Hpos; lia|]. eapply (insert_val H (k := k)); eauto.
  - eapply (insert_inj H (k := k)); eauto.
  - rewrite Hl'. replace (lenZ l + 1 + d + 1) with (lenZ l + d + 2) by lia. unfold b. destruct (i =? lenZ l); rewrite ?lenZ_wr; lia.
Qed.

(** The node behind the position [i] taken out. *)
Section removal.
Context {a a' : TaggedArray} {ns ns' : list Z} {l l' : list JSTaggedValue} {d i : Z}.
Context (H : holds a ns l d) (Hi : 0 <= i < lenZ l) (Hl' : lenZ l = lenZ l' + 1).
Context (Hnd : forall j, 0 <= j -> nd ns' j = if j <=? i then nd ns j else nd ns (j + 1)).
Context (Hlook : forall j, 0 <= j -> l' !! Z.to_nat j = l !! Z.to_nat (if j <? i then j else j + 1)).
Context (Wp : cell a' (at_ (nd ns i) + NEXT_PTR_OFFSET) (VInt (at_ (nd ns (i + 2))))).
Context (Wnext : forall y w, 0 <= y -> y <> nd ns i -> cell a (at_ y + NEXT_PTR_OFFSET) w -> cell a' (at_ y + NEXT_PTR_OFFSET) w).
Context (Wval : forall y w, 1 <= y -> y <> nd ns (i + 1) -> cell a (at_ y) w -> cell a' (at_ y) w).
Context (Wprev : is_double ho = true -> cell a' (at_ (nd ns (i + 2)) + PREV_PTR_OFFSET) (VInt (at_ (nd ns i))) /\
      forall y w, 0 <= y -> y <> nd ns (i + 2) -> cell a (at_ y + PREV_PTR_OFFSET) w -> cell a' (at_ y + PREV_PTR_OFFSET) w).

Lemma remove_next (j : Z) : 0 <= j <= lenZ l' -> cell a' (at_ (nd ns' j) + NEXT_PTR_OFFSET) (VInt (at_ (nd ns' (j + 1)))).
Proof.
  intros Hj. rewrite !Hnd by lia. destruct (Z.leb_spec j i); [destruct (Z.leb_spec (j + 1) i)|zb].
  - apply Wnext; [apply (nd_bounds _ _ _ _ j H); lia| |apply (holds_next _ _ _ _ H); lia]. intros He%(holds_inj _ _ _ _ H); lia.
  - replace j with i by lia. by rewrite <- Z.add_assoc.
  - apply Wnext; [apply (nd_bounds _ _ _ _ (j + 1) H); lia| |apply (holds_next _ _ _ _ H); lia]. intros He%(holds_inj _ _ _ _ H); lia.
Qed.

Lemma remove_prev (j : Z) : is_double ho = true -> 1 <= j <= lenZ l' + 1 -> cell a' (at_ (nd ns' j) + PREV_PTR_OFFSET) (VInt (at_ (nd ns' (j - 1)))).
Proof.
  intros Hd Hj. destruct (Wprev Hd) as [Wq Wpr]. rewrite !Hnd by lia. destruct (Z.leb_spec j i); [zb|destruct (Z.leb_spec (j - 1) i)].
  - apply Wpr; [apply (nd_bounds _ _ _ _ j H); lia| |apply (holds_prev _ _ _ _ H); [done|lia]]. intros He%(nd_inj H); lia.
  - replace (j - 1) with i by lia. by replace (j + 1) with (i + 2) by lia.
  - rewrite Z.sub_add. replace j with (j + 1 - 1) at 2 by lia.
    apply Wpr; [apply (nd_bounds _ _ _ _ (j + 1) H); lia| |apply (holds_prev _ _ _ _ H); [done|lia]]. intros He%(nd_inj H); lia.
Qed.

Lemma remove_val (j : Z) (w : JSTaggedValue) : 0 <= j -> l' !! Z.to_nat j = Some w -> cell a' (at_ (nd ns' (j + 1))) w.
Proof.
  intros Hj Hw. rewrite Hlook in Hw by done. rewrite Hnd by lia.
  assert (forall x, 0 <= x -> x <> i -> l !! Z.to_nat x = Some w -> cell a' (at_ (nd ns (x + 1))) w) as Hold.
  { intros x Hx Hne Hxw. pose proof (lookup_lt_Some _ _ _ Hxw). assert (x < lenZ l) by (unfold lenZ; lia).
    pose proof (holds_range _ _ _ _ H (x + 1) ltac:(lia)).
    apply Wval; [lia| |by apply (holds_val _ _ _ _ H)]. intros He%(holds_inj _ _ _ _ H); lia. }
  destruct (Z.ltb_spec j i); zb; apply Hold; [lia..|done|lia|lia|done].
Qed.

Lemma remove_inj (j j' : Z) : 0 <= j <= lenZ l' -> 0 <= j' <= lenZ l' -> nd ns' j = nd ns' j' -> j = j'.
Proof. intros Hj Hj'. rewrite !Hnd by lia. destruct (Z.leb_spec j i), (Z.leb_spec j' i); intros He%(holds_inj _ _ _ _ H); lia. Qed.

Lemma remove_range (j : Z) : 1 <= j <= lenZ l' -> 1 <= nd ns' j <= lenZ l' + (d + 1).
Proof. intros Hj. rewrite Hnd by lia. destruct (Z.leb_spec j i); [pose proof (holds_range _ _ _ _ H j ltac:(lia))|pose proof (holds_range _ _ _ _ H (j + 1) ltac:(lia))]; lia. Qed.
End removal.

Lemma lookup_removed (l1 l2 : list JSTaggedValue) (v : JSTaggedValue) (j : Z) : 0 <= j ->
  (l1 ++ l2) !! Z.to_nat j = (l1 ++ v :: l2) !! Z.to_nat (if j <? lenZ l1 then j else j + 1).
Proof.
  intros Hj. unfold lenZ. destruct (Z.ltb_spec j (Z.of_nat (length l1))); [by rewrite !lookup_app_l by lia|].
  rewrite !lookup_app_r by lia. by replace (Z.to_nat (j + 1) - length l1)%nat with (Datatypes.S (Z.to_nat j - length l1)) by lia.
Qed.

Lemma nd_removed (ns1 ns2 : list Z) (x j : Z) : 0 <= j ->
  nd (ns1 ++ ns2) j = if j <=? lenZ ns1 then nd (ns1 ++ x :: ns2) j else nd (ns1 ++ x :: ns2) (j + 1).
Proof. intros Hj. destruct (Z.leb_spec j (lenZ ns1)); rewrite nd_insert by lia; zb; [done|]. by rewrite Z.add_simpl_r. Qed.

Lemma RemoveNode_run (a : TaggedArray) (ns1 ns2 : list Z) (x : Z) (l1 l2 : list JSTaggedValue) (v : JSTaggedValue) (d : Z) :
  holds a (ns1 ++ x :: ns2) (l1 ++ v :: l2) d -> lenZ ns1 = lenZ l1 ->
  exists a', RemoveNode ho (at_ (nd (ns1 ++ x :: ns2) (lenZ l1))) a = (Ok tt, a') /\ lenZ a' = lenZ a /\ holds a' (ns1 ++ ns2) (l1 ++ l2) (d + 1).
Proof.
  intros H Hlen. assert (lenZ (l1 ++ v :: l2) = lenZ (l1 ++ l2) + 1) as Hl' by lenz.
  assert (lenZ (ns1 ++ ns2) = lenZ (l1 ++ l2)) as Hns' by (pose proof (holds_len _ _ _ _ H); lenz).
  assert (0 <= lenZ l1 < lenZ (l1 ++ v :: l2)) as Hi by lenz.
  pose proof (lookup_removed l1 l2 v) as Hlook. pose proof (nd_removed ns1 ns2 x) as Hnd. rewrite Hlen in Hnd.
  set (i := lenZ l1) in *. set (l := l1 ++ v :: l2) in *. set (ns := ns1 ++ x :: ns2) in *. pose proof (holds_d _ _ _ _ H) as Hd0. pose proof (holds_room _ _ _ _ H) as Hroom.
  pose proof (holds_range _ _ _ _ H (i + 1) ltac:(lia)) as Bx. pose proof (nd_bounds _ _ _ _ i H ltac:(lia)) as Bi. pose proof (nd_bounds _ _ _ _ (i + 2) H ltac:(lia)) as Bq.
  pose proof (holds_range _ _ _ _ H (lenZ l) ltac:(lia)) as Bt.
  assert (forall y, y <= lenZ l + d -> at_ (y + 1) <= lenZ a) as Hin by (intros y Hy; destruct entry_cases as [[_ HE]|[_ HE]]; word_arith).
  destruct (RemoveNode_words a (nd ns i) (nd ns (i + 1)) (nd ns (i + 2)) (nd ns (lenZ l)) (lenZ l) d) as (a' & Hrun & Hla & Wn & Wd & Wh & Wt & Ws & Wp & _ & Wnext & Wval & Wprev);
    try (apply Hin; lia); try lia; try (by apply H).
  { apply (holds_next _ _ _ _ H). lia. } { replace (i + 2) with (i + 1 + 1) by lia. apply (holds_next _ _ _ _ H). lia. }
  { intros He%(nd_inj H); lia. } { intros He%(nd_inj H); lia. }
  exists a'. split; [done|]. split; [done|]. constructor; try done.
  - replace (lenZ (l1 ++ l2)) with (lenZ l - 1) by lia. done.
  - rewrite Hnd by lia. replace (if nd ns (i + 1) =? nd ns (lenZ l) then nd ns i else nd ns (lenZ l)) with (if lenZ (l1 ++ l2) <=? i then nd ns (lenZ (l1 ++ l2)) else nd ns (lenZ (l1 ++ l2) + 1)) in Wt; [done|].
    rewrite <- Hl'. destruct (Z.leb_spec (lenZ (l1 ++ l2)) i).
    + replace (lenZ l) with (i + 1) by lia. zb. f_equal. lia.
    + destruct (Z.eqb_spec (nd ns (i + 1)) (nd ns (lenZ l))) as [He|]; [apply (holds_inj _ _ _ _ H) in He; lia|done].
  - apply Ws, (holds_start _ _ _ _ H).
  - eapply (remove_next H); eauto.
  - intros Hd j. eapply (remove_prev H); eauto.
  - eapply (remove_val H (i := i)); eauto.
  - eapply (remove_inj H); eauto.
  - eapply (remove_range H); eauto.
  - rewrite Hla. by replace (lenZ (l1 ++ l2) + (d + 1) + 1) with (lenZ l + d + 1) by lia.
  - lia.
Qed.

(** ** Lists with their nodes in order *)

Lemma nd_seq (n j : Z) : 0 <= j -> nd (seqZ 1 n) j = if j <=? n then j else 0.
Proof.
  intros Hj. unfold nd. destruct (Z.eqb_spec j 0) as [->|]; [by destruct (0 <=? n)|]. destruct (Z.leb_spec j n).
  - rewrite (lookup_seqZ_lt 1 n) by lia. simpl. lia.
  - by rewrite lookup_seqZ_ge by lia.
Qed.

Lemma holds_ordered (b : TaggedArray) (l : list JSTaggedValue) :
  cell b NUMBER_OF_NODE_INDEX (VInt (lenZ l)) -> cell b NUMBER_OF_DELETED_NODES_INDEX (VInt 0) ->
  cell b HEAD_TABLE_INDEX (VInt ELEMENTS_START_INDEX) -> cell b TAIL_TABLE_INDEX (VInt (at_ (lenZ l))) -> cell b ELEMENTS_START_INDEX VHole ->
  (forall j, 0 <= j < lenZ l -> cell b (at_ j + NEXT_PTR_OFFSET) (VInt (at_ (j + 1)))) -> cell b (at_ (lenZ l) + NEXT_PTR_OFFSET) (VInt (at_ 0)) ->
  (is_double ho = true -> (forall j, 1 <= j <= lenZ l -> cell b (at_ j + PREV_PTR_OFFSET) (VInt (at_ (j - 1)))) /\ cell b (at_ 0 + PREV_PTR_OFFSET) (VInt (at_ (lenZ l)))) ->
  (forall j v, 0 <= j -> l !! Z.to_nat j = Some v -> cell b (at_ (j + 1)) v) -> at_ (lenZ l + 1) <= lenZ b ->
  holds b (seqZ 1 (lenZ l)) l 0.
Proof.
  intros Hn Hd Hh Ht Hs Hnext Hlast Hprev Hval Hroom. pose proof (lenZ_nonneg l) as Hl. constructor; try done.
  - unfold lenZ at 1. rewrite length_seqZ. lia.
  - rewrite nd_seq by lia. by zb.
  - intros j Hj. rewrite !nd_seq by lia. zb. destruct (Z.leb_spec (j + 1) (lenZ l)); [apply Hnext; lia|]. by replace j with (lenZ l) by lia.
  - intros Hdb j Hj. destruct (Hprev Hdb) as [Hp H0]. rewrite !nd_seq by lia. rewrite (proj2 (Z.leb_le (j - 1) _)) by lia.
    destruct (Z.leb_spec j (lenZ l)); [apply Hp; lia|]. by replace (j - 1) with (lenZ l) by lia.
  - intros j v Hj Hv. pose proof (lookup_lt_Some _ _ _ Hv). rewrite nd_seq by lia. assert (j < lenZ l) by (unfold lenZ; lia). zb. by apply Hval.
  - intros j j' Hj Hj'. rewrite !nd_seq by lia. by zb.
  - intros j Hj. rewrite nd_seq by lia. zb. lia.
  - by rewrite Z.add_0_r.
Qed.

(** A longer array with the words of a list. *)
Lemma holds_mono (a b : TaggedArray) (ns : list Z) (l : list JSTaggedValue) (d : Z) :
  holds a ns l d -> (forall i v, cell a i v -> cell b i v) -> lenZ a <= lenZ b -> holds b ns l d.
Proof. intros [] Hc Hl. constructor; auto; lia. Qed.

Lemma Create_cells {S} (n : Z) (s : S) : 0 < n ->
  exists b, Create ho n s = (Ok b, s) /\ lenZ b = at_ (n + 1) /\
    cell b NUMBER_OF_NODE_INDEX (VInt 0) /\ cell b NUMBER_OF_DELETED_NODES_INDEX (VInt 0) /\ cell b HEAD_TABLE_INDEX (VInt ELEMENTS_START_INDEX) /\
    cell b TAIL_TABLE_INDEX (VInt ELEMENTS_START_INDEX) /\ cell b ELEMENTS_START_INDEX VHole /\ cell b (ELEMENTS_START_INDEX + NEXT_PTR_OFFSET) (VInt ELEMENTS_START_INDEX).
Proof.
  intros Hn. unfold Create. zb. mstep. unfold Factory.NewTaggedArray.
  assert (at_ (n + 1) = ELEMENTS_START_INDEX + ENTRY_SIZE ho + n * ENTRY_SIZE ho) as Hat by (unfold ListShape.at_; lia). rewrite <- Hat.
  assert (6 <= at_ (n + 1)) by (destruct entry_cases as [[_ HE]|[_ HE]]; word_arith). zb.
  assert (lenZ (replicate (Z.to_nat (at_ (n + 1))) VHole) = at_ (n + 1)) as Hlen by (rewrite lenZ_replicate; lia). revert Hlen. generalize (replicate (Z.to_nat (at_ (n + 1))) VHole). intros b0 Hlen.
  eexists. split; [apply build_run|split].
  - mstep by (apply Set_cell; rewrite ?lenZ_wr, Hlen; word_arith). mstep by (apply Set_cell; rewrite ?lenZ_wr, Hlen; word_arith).
    do 3 (mstep by (apply SetElement_run; rewrite ?lenZ_wr, Hlen; word_arith)). apply SetElement_run; rewrite ?lenZ_wr, Hlen; word_arith.
  - by rewrite !lenZ_wr.
  - clear Hat. conj; word.
Qed.

Lemma CreateDerived_run {S} (n : Z) (s : S) : 0 < n -> exists b, CreateDerived ho n s = (Ok b, s) /\ lenZ b = at_ (n + 1) /\ holds b [] [] 0.
Proof.
  intros Hn. destruct (Create_cells n s Hn) as (b & Hrun & Hlen & C0 & C1 & C2 & C3 & C4 & C5). unfold CreateDerived. mstep with Hrun.
  assert (at_ 1 <= at_ (n + 1)) as H1 by (destruct entry_cases as [[_ HE]|[_ HE]]; word_arith). change (@nil Z) with (seqZ 1 (lenZ (@nil JSTaggedValue))).
  destruct (is_double ho) eqn:Hd.
  - assert (ENTRY_SIZE ho = 3) as HE by (destruct entry_cases as [[? _]|[_ HE]]; [congruence|done]).
    eexists. split; [apply build_run, SetElement_run; rewrite Hlen; word_arith|]. split; [by rewrite lenZ_wr|].
    assert (ELEMENTS_START_INDEX + PREV_PTR_OFFSET < lenZ b) by (rewrite Hlen; word_arith).
    apply holds_ordered; change (lenZ (@nil JSTaggedValue)) with 0; rewrite ?lenZ_wr; try (apply cell_ne; [done|word_arith|done]); try (rewrite Hlen; exact H1); try (by intros); try (intros; lia); [].
    intros _. split; [intros; lenz|]. apply cell_eq. word_arith.
  - eexists. split; [reflexivity|]. split; [done|]. apply holds_ordered; change (lenZ (@nil JSTaggedValue)) with 0; try done; try (by intros); try (intros; lia); try (rewrite Hlen; exact H1); congruence.
Qed.
End derived.
End ListShape.
