(* ===== verification/ListOps.v ===== *)
(** * ListOps: copying, growing and the operations of TaggedList.

    Every operation of tagged_list.cpp on an array that holds a list: the array
    it leaves holds the list with the change. *)
From S2P Require Import Prelude TaggedValue TaggedArray TaggedList ListShape.
Local Open Scope Z_scope.

Module ListOps.
Import TaggedList ListShape.

Section derived.
Context (ho : Derived).
Notation at_ := (at_ ho).
Notation holds := (holds ho).

Lemma from_run {S A} (src : TaggedArray) (m : M TaggedArray A) (r : A) (s : S) : m src = (Ok r, src) -> from src m s = (Ok r, s).
Proof. intros Hm. unfold from. by rewrite Hm. Qed.

(** ** Copying *)

(** The copy of an array without removed nodes, word for word. *)
Lemma copy_all_words (src : TaggedArray) (n : nat) (i : Z) (b : TaggedArray) :
  0 <= i -> i + Z.of_nat n = lenZ src -> lenZ src <= lenZ b -> (forall j v, j < i -> cell src j v -> cell b j v) ->
  exists b', for_up n i (fun i => value ← from src (GetElement i); SetElement i value) b = (Ok tt, b') /\
    lenZ b' = lenZ b /\ forall j v, cell src j v -> cell b' j v.
Proof.
  revert i b. induction n as [|n IH]; intros i b Hi Hn Hb Hc.
  { exists b. split; [done|]. split; [done|]. intros j v Hj. pose proof (cell_bound _ _ _ Hj). apply Hc; [lia|done]. }
  destruct (lookup_lt_is_Some_2 src (Z.to_nat i)) as [w Hw]; [unfold lenZ in Hn; lia|].
  destruct (IH (i + 1) (wr i w b)) as (b' & Hrun & Hl & Hb'); [lia|lia|by rewrite lenZ_wr| |].
  { intros j v Hj Hv. destruct (decide (j = i)) as [->|]; [|apply cell_ne; [apply Hc; [lia|done]|lia|done]].
    destruct Hv as [_ Hv]. rewrite Hw in Hv. injection Hv as <-. apply cell_eq. lia. }
  exists b'. rewrite lenZ_wr in Hl. split; [|done]. erewrite for_up_cons; [exact Hrun|].
  mstep with (from_run src _ w b (GetElement_cell _ _ _ (conj Hi Hw))). apply SetElement_run. lia.
Qed.

Lemma copy_node_run (src : TaggedArray) (i x : Z) (w : JSTaggedValue) (nx : Z) (b : TaggedArray) :
  0 <= i -> at_ (i + 2) <= lenZ b -> GetElement x src = (Ok w, src) -> GetIndex (x + NEXT_PTR_OFFSET) src = (Ok nx, src) ->
  exists b', copy_node ho src (ELEMENTS_START_INDEX + ENTRY_SIZE ho) i x b = (Ok nx, b') /\ lenZ b' = lenZ b /\
    (forall j v, j < at_ (i + 1) -> cell b j v -> cell b' j v) /\
    cell b' (at_ (i + 1)) w /\ cell b' (at_ (i + 1) + NEXT_PTR_OFFSET) (VInt (at_ (i + 2))) /\
    (is_double ho = true -> cell b' (at_ (i + 1) + PREV_PTR_OFFSET) (VInt (at_ i))).
Proof.
  intros Hi Hb Hw Hnx. unfold copy_node.
  replace (ELEMENTS_START_INDEX + ENTRY_SIZE ho + i * ENTRY_SIZE ho) with (at_ (i + 1)) by (unfold ListShape.at_; lia).
  replace (at_ (i + 1) + ENTRY_SIZE ho) with (at_ (i + 2)) by (unfold ListShape.at_; lia).
  fold (at_ i). mstep with (from_run src _ w b Hw).
  destruct (entry_cases ho) as [[Hd HE]|[Hd HE]]; rewrite Hd; (eexists; split; [|split]).
  1: { do 2 put. mstep. by apply from_run. }
  3: { do 3 put. by apply from_run. }
  1, 3: by rewrite ?lenZ_wr.
  all: conj; first [word|congruence|apply cell_ne; [word|word_arith|word_arith]].
Qed.

(** The copy of the nodes from position [i] on. *)
Lemma copy_nodes_run (src : TaggedArray) (ns : list Z) (l : list JSTaggedValue) (d : Z) (n : nat) (i : Z) (b : TaggedArray) :
  holds src ns l d -> 0 <= i -> i + Z.of_nat n = lenZ l -> at_ (lenZ l + 1) <= lenZ b ->
  exists b', copy_nodes ho src (ELEMENTS_START_INDEX + ENTRY_SIZE ho) n i (at_ (nd ns (i + 1))) b = (Ok tt, b') /\ lenZ b' = lenZ b /\
    (forall j v, j < at_ (i + 1) -> cell b j v -> cell b' j v) /\
    (forall j v, i <= j -> l !! Z.to_nat j = Some v -> cell b' (at_ (j + 1)) v /\ cell b' (at_ (j + 1) + NEXT_PTR_OFFSET) (VInt (at_ (j + 2))) /\
      (is_double ho = true -> cell b' (at_ (j + 1) + PREV_PTR_OFFSET) (VInt (at_ j)))).
Proof.
  intros H. revert i b. induction n as [|n IH]; intros i b Hi Hn Hb.
  { exists b. split_and!; try done. intros j v Hj Hv. apply lookup_lt_Some in Hv. unfold lenZ in *. lia. }
  simpl. destruct (item ho H i ltac:(lia)) as (w & Hw & Hrd). pose proof (next_run ho H (i + 1) ltac:(lia)) as Hnx.
  destruct (copy_node_run src i (at_ (nd ns (i + 1))) w (at_ (nd ns (i + 1 + 1))) b Hi) as (b1 & Hrun & Hl1 & Hkeep & Hv & Hn1 & Hp1); [|done|done|].
  { destruct (entry_cases ho) as [[_ HE]|[_ HE]]; word_arith. }
  mstep with Hrun. destruct (IH (i + 1) b1) as (b' & Hrun' & Hl' & Hkeep' & Hnodes); [lia|lia|by rewrite Hl1|].
  exists b'. split; [done|]. split; [congruence|].
  assert (forall j, j < at_ (i + 1) -> j < at_ (i + 1 + 1)) as Hlt by (intros j; destruct (entry_cases ho) as [[_ HE]|[_ HE]]; word_arith).
  split; [intros j v Hj Hc; apply Hkeep'; auto|]. intros j v Hj Hjv. destruct (decide (j = i)) as [->|]; [|apply Hnodes; [lia|done]].
  assert (v = w) as -> by congruence. conj; (apply Hkeep'; [destruct (entry_cases ho) as [[Hx HE]|[Hx HE]]; first [congruence|word_arith]|auto]).
Qed.

(** The nodes in their order, behind a header that is written already. *)
Lemma ordered_run (src : TaggedArray) (ns : list Z) (l : list JSTaggedValue) (d : Z) (b : TaggedArray) :
  holds src ns l d -> at_ (lenZ l + 1) <= lenZ b ->
  cell b NUMBER_OF_NODE_INDEX (VInt (lenZ l)) -> cell b NUMBER_OF_DELETED_NODES_INDEX (VInt 0) -> cell b HEAD_TABLE_INDEX (VInt ELEMENTS_START_INDEX) ->
  cell b TAIL_TABLE_INDEX (VInt (at_ (lenZ l))) -> cell b ELEMENTS_START_INDEX VHole -> cell b (ELEMENTS_START_INDEX + NEXT_PTR_OFFSET) (VInt (at_ 1)) ->
  (is_double ho = true -> cell b (ELEMENTS_START_INDEX + PREV_PTR_OFFSET) (VInt (at_ (lenZ l)))) ->
  exists b', (copy_nodes ho src (ELEMENTS_START_INDEX + ENTRY_SIZE ho) (Z.to_nat (lenZ l)) 0 (at_ (nd ns (0 + 1)));;
              SetElement (at_ (lenZ l) + NEXT_PTR_OFFSET) (VInt ELEMENTS_START_INDEX)) b = (Ok tt, b') /\ lenZ b' = lenZ b /\ holds b' (seqZ 1 (lenZ l)) l 0.
Proof.
  intros H Hb C0 C1 C2 C3 C4 C5 C6. pose proof (lenZ_nonneg l) as Hn.
  destruct (copy_nodes_run src ns l d (Z.to_nat (lenZ l)) 0 b H) as (b1 & Hrun & Hl1 & Hkeep & Hnodes); [lia|lia|done|].
  assert (forall i v, i < ELEMENTS_START_INDEX + ENTRY_SIZE ho -> cell b i v -> cell b1 i v) as Hkeep' by (intros i v Hi; apply Hkeep; unfold ListShape.at_; lia).
  assert (2 <= ENTRY_SIZE ho) as HE2 by (by destruct ho).
  assert (0 <= at_ (lenZ l) + NEXT_PTR_OFFSET < lenZ b1) as Hlast by (rewrite Hl1; destruct (entry_cases ho) as [[_ HE]|[_ HE]]; word_arith).
  eexists. split; [mstep with Hrun; by apply SetElement_run|]. rewrite lenZ_wr. split; [done|].
  assert (forall i v, i <> at_ (lenZ l) + NEXT_PTR_OFFSET -> cell b1 i v -> cell (wr (at_ (lenZ l) + NEXT_PTR_OFFSET) (VInt ELEMENTS_START_INDEX) b1) i v) as Hne by (intros i v Hi Hc; apply cell_ne; [done|lia|lia]).
  assert (forall h v, 0 <= h <= ELEMENTS_START_INDEX -> cell b h v -> cell (wr (at_ (lenZ l) + NEXT_PTR_OFFSET) (VInt ELEMENTS_START_INDEX) b1) h v) as Hhead.
  { intros h v Hh Hc. apply Hne; [destruct (entry_cases ho) as [[_ HE]|[_ HE]]; word_arith|]. apply Hkeep'; [lia|done]. }
  apply holds_ordered; try (by apply Hhead); rewrite ?lenZ_wr; [| | | |lia].
  - intros j Hj. apply Hne; [destruct (entry_cases ho) as [[_ HE]|[_ HE]]; word_arith|]. destruct (decide (j = 0)) as [->|]; [apply Hkeep'; [unfold ListShape.at_, NEXT_PTR_OFFSET; lia|done]|].
    destruct (lookup_lt_is_Some_2 l (Z.to_nat (j - 1))) as [v Hv]; [unfold lenZ in Hj; lia|].
    destruct (Hnodes (j - 1) v ltac:(lia) Hv) as (_ & Hx & _). rewrite Z.sub_add in Hx. by replace (j - 1 + 2) with (j + 1) in Hx by lia.
  - by apply cell_eq.
  - intros Hd. assert (ENTRY_SIZE ho = 3) as HE by (by destruct ho). split; [|apply Hne; [word_arith|]; apply Hkeep'; [word_arith|by apply C6]].
    intros j Hj. apply Hne; [word_arith|]. destruct (lookup_lt_is_Some_2 l (Z.to_nat (j - 1))) as [v Hv]; [unfold lenZ in Hj; lia|].
    destruct (Hnodes (j - 1) v ltac:(lia) Hv) as (_ & _ & Hx). rewrite Z.sub_add in Hx. by apply Hx.
  - intros j v Hj Hv. apply Hne; [destruct (entry_cases ho) as [[_ HE]|[_ HE]]; word_arith|]. by apply (Hnodes j v).
Qed.

Lemma CopyArray_run (src : TaggedArray) (ns : list Z) (l : list JSTaggedValue) (d : Z) (b : TaggedArray) :
  holds src ns l d -> at_ (lenZ l + 1) <= lenZ b -> at_ 1 <= lenZ b -> (d = 0 -> lenZ src <= lenZ b) ->
  exists b', CopyArray ho src b = (Ok tt, b') /\ lenZ b' = lenZ b /\ holds b' (if d =? 0 then ns else seqZ 1 (lenZ l)) l 0.
Proof.
  intros H Hb Hb1 Hd0. unfold CopyArray. mstep with (from_run src _ d b (NumberOfDeletedNodes_run ho H)).
  assert (0 < at_ 1) by (destruct (entry_cases ho) as [[_ HE]|[_ HE]]; word_arith).
  destruct (Z.eqb_spec d 0) as [->|Hd].
  - mstep with (from_run src GetCapacityFromTaggedArray (lenZ src) b eq_refl). unfold for_range. rewrite Z.sub_0_r.
    destruct (copy_all_words src (Z.to_nat (lenZ src)) 0 b) as (b1 & Hrun & Hl & Hc); [lia|pose proof (lenZ_nonneg src); lia|by apply Hd0|intros j v Hj [Hj0 _]; lia|].
    mstep with Hrun. mstep with (from_run src _ 0 b1 (NumberOfDeletedNodes_run ho H)).
    pose proof (cell_bound _ _ _ (Hc _ _ (holds_deleted _ _ _ _ _ H))) as Hb0.
    eexists. split; [by apply Set_cell|]. rewrite lenZ_wr. split; [done|]. apply (holds_mono ho src); [done| |rewrite lenZ_wr, Hl; by apply Hd0].
    intros i v Hi. destruct (decide (i = NUMBER_OF_DELETED_NODES_INDEX)) as [->|]; [|apply cell_ne; [by apply Hc|done|done]].
    destruct Hi as [_ Hi], (holds_deleted _ _ _ _ _ H) as [_ Hi']. rewrite Hi in Hi'. injection Hi' as ->. by apply cell_eq.
  - mstep with (from_run src _ (lenZ l) b (NumberOfNodes_run ho H)). pose proof (lenZ_nonneg l).
    replace (VInt (ELEMENTS_START_INDEX + ENTRY_SIZE ho)) with (VInt (at_ 1)) by (unfold ListShape.at_; f_equal; lia). fold (at_ (lenZ l)).
    destruct (entry_cases ho) as [[Hx HE]|[Hx HE]]; rewrite Hx.
    + mstep by (apply Set_cell; rewrite ?lenZ_wr; word_arith). mstep by (apply Set_cell; rewrite ?lenZ_wr; word_arith). do 4 put. mstep.
      erewrite bind_Ok by (apply from_run, (first_run ho H)).
      match goal with |- exists b', _ ?b0 = _ /\ _ => destruct (ordered_run src ns l d b0 H) as (b' & Hrun & Hl' & HH); [by rewrite ?lenZ_wr|word..|congruence|] end.
      exists b'. split; [exact Hrun|]. split; [by rewrite Hl', ?lenZ_wr|done].
    + mstep by (apply Set_cell; rewrite ?lenZ_wr; word_arith). mstep by (apply Set_cell; rewrite ?lenZ_wr; word_arith). do 5 put.
      erewrite bind_Ok by (apply from_run, (first_run ho H)).
      match goal with |- exists b', _ ?b0 = _ /\ _ => destruct (ordered_run src ns l d b0 H) as (b' & Hrun & Hl' & HH); [by rewrite ?lenZ_wr|word..|intros; word|] end.
      exists b'. split; [exact Hrun|]. split; [by rewrite Hl', ?lenZ_wr|done].
Qed.

(** ** Growing and adding *)

(** [list_at st t ns l d]: the array at [t] of the store holds a list. *)
Definition list_at (st : Store) (t : Z) (ns : list Z) (l : list JSTaggedValue) (d : Z) : Prop :=
  exists a, 0 <= t < lenZ st /\ st !! Z.to_nat t = Some a /\ holds a ns l d.

(** The number of nodes for which a new array has room. *)
Definition grown_capacity (n : Z) : Z := if n + n / 2 <? DEFAULT_ARRAY_LENGHT then DEFAULT_ARRAY_LENGHT else n + n / 2.

Lemma list_GrowCapacity_run (st : Store) (t : Z) (a : TaggedArray) (ns : list Z) (l : list JSTaggedValue) (d : Z) :
  0 <= t < lenZ st -> st !! Z.to_nat t = Some a -> holds a ns l d -> lenZ l < 2 ^ 30 ->
  exists st' t' a' d', GrowCapacity ho t st = (Ok t', st') /\ 0 <= t' < lenZ st' /\ st' !! Z.to_nat t' = Some a' /\ at_ (lenZ l + d' + 2) <= lenZ a' /\
    ((t' = t /\ st' = st /\ a' = a /\ d' = d /\ holds a' ns l d') \/
     (t' <> t /\ t' = lenZ st /\ st' = st ++ [a'] /\ d' = 0 /\ holds a' (if d =? 0 then ns else seqZ 1 (lenZ l)) l d')).
Proof.
  intros Ht Ha H Hb. pose proof (lenZ_nonneg l) as Hn. pose proof (holds_d _ _ _ _ _ H) as Hd. unfold GrowCapacity.
  mstep with (on_table_read _ _ _ _ _ Ha (NumberOfNodes_run ho H)). mstep with (on_table_read _ _ _ _ _ Ha (NumberOfDeletedNodes_run ho H)).
  mstep with (on_table_read _ _ _ GetCapacityFromTaggedArray (lenZ a) Ha eq_refl).
  destruct (Z.ltb_spec ((lenZ l + 1) * ENTRY_SIZE ho) (lenZ a - ELEMENTS_START_INDEX - (d + 1) * ENTRY_SIZE ho)) as [Hlt|Hge].
  { exists st, t, a, d. split; [done|]. split; [done|]. split; [done|]. split; [unfold ListShape.at_; lia|by left]. }
  rewrite Z.shiftr_div_pow2 by lia. change (2 ^ 1) with 2. rewrite u32_small by (zlia). fold (grown_capacity (lenZ l)).
  assert (lenZ l + 1 <= grown_capacity (lenZ l)) as Hcap by (unfold grown_capacity, DEFAULT_ARRAY_LENGHT; destruct (Z.ltb_spec (lenZ l + lenZ l / 2) 10); zlia).
  destruct (Create_cells ho (grown_capacity (lenZ l)) st ltac:(lia)) as (b & Hc & Hlb & _). mstep with Hc.
  mstep with (on_table_read _ _ _ get a Ha eq_refl).
  assert (at_ (lenZ l + 2) <= lenZ b) as Hroom by (rewrite Hlb; destruct (entry_cases ho) as [[_ HE]|[_ HE]]; word_arith).
  destruct (CopyArray_run a ns l d b H) as (b' & Hcopy & Hlb' & HH).
  1, 2: destruct (entry_cases ho) as [[_ HE]|[_ HE]]; word_arith.
  { intros ->. destruct (entry_cases ho) as [[_ HE]|[_ HE]]; word_arith. }
  erewrite bind_Ok by (by apply build_run). exists (st ++ [b']), (lenZ st), b', 0.
  split; [done|]. split; [lenz|]. split; [apply list_lookup_middle; unfold lenZ; lia|].
  split; [by rewrite Z.add_0_r, Hlb'|]. right. split; [lia|]. done.
Qed.

(** What is known of the places of the nodes after adding a node. *)
Definition places_added (ns ns' : list Z) (n d d' : Z) (last : bool) : Prop :=
  d' <= d /\ (d = 0 -> d' = 0 /\ (ns = seqZ 1 n -> last = true -> ns' = seqZ 1 (n + 1))).

(** The arrays other than [t] stay as they are, and [t'] is none of them. *)
Definition kept (st st' : Store) (t t' : Z) : Prop :=
  forall u b, 0 <= u -> u <> t -> st !! Z.to_nat u = Some b -> u <> t' /\ st' !! Z.to_nat u = Some b.

Lemma kept_set (st : Store) (t : Z) (a : TaggedArray) : 0 <= t -> kept st (<[Z.to_nat t := a]> st) t t.
Proof. intros Ht u b Hu Hne Hb. split; [done|]. by rewrite list_lookup_insert_ne by lia. Qed.

Lemma kept_app (st : Store) (t : Z) (a : TaggedArray) : kept st (st ++ [a]) t (lenZ st).
Proof. intros u b Hu Hne Hb. split; [apply lookup_lt_Some in Hb; unfold lenZ; lia|]. by apply lookup_app_l_Some. Qed.

Lemma seqZ_snoc (n : Z) : 0 <= n -> seqZ 1 n ++ [n + 1] = seqZ 1 (n + 1).
Proof. intros Hn. rewrite seqZ_app by lia. f_equal. by rewrite Z.add_comm. Qed.

Lemma prev_after_copy_run (a : TaggedArray) (ns : list Z) (l : list JSTaggedValue) (d index : Z) :
  holds a ns l d -> -1 <= index <= lenZ l ->
  prev_after_copy ho index a = (Ok (at_ (nd ns (if index =? -1 then lenZ l else index))), a).
Proof.
  intros H Hi. unfold prev_after_copy. destruct (Z.eqb_spec index (-1)) as [->|]; [apply (tail_run ho H)|].
  pose proof (lenZ_nonneg l). destruct (is_double ho) eqn:Hd; [|apply (FindPrevNodeByIndex_run ho H); lia].
  destruct (Z.eqb_spec index 0) as [->|]; [apply (FindPrevNodeByIndex_run ho H)|apply (GetPrevNode_run ho H index Hd)]; lia.
Qed.

Lemma AddNode_run (st : Store) (t : Z) (ns : list Z) (l1 l2 : list JSTaggedValue) (d : Z) (v : JSTaggedValue) (index : Z) :
  list_at st t ns (l1 ++ l2) d -> lenZ (l1 ++ l2) < 2 ^ 30 -> index = lenZ l1 \/ (index = -1 /\ l2 = []) ->
  exists st' t' ns' d', AddNode ho t v index (at_ (nd ns (lenZ l1))) st = (Ok t', st') /\ list_at st' t' ns' (l1 ++ v :: l2) d' /\
    places_added ns ns' (lenZ (l1 ++ l2)) d d' (match l2 with [] => true | _ => false end) /\ kept st st' t t'.
Proof.
  intros (a & Ht & Ha & H) Hb Hi. unfold AddNode. pose proof (lenZ_nonneg l1).
  destruct (list_GrowCapacity_run st t a ns (l1 ++ l2) d Ht Ha H Hb) as (st1 & t1 & a1 & d1 & Hg & Ht1 & Ha1 & Hroom & Hcase). mstep with Hg.
  assert (exists ns1, holds a1 ns1 (l1 ++ l2) d1 /\ (d = 0 -> d1 = 0 /\ ns1 = ns) /\ (t1 = t -> ns1 = ns) /\ d1 <= d /\ kept st st1 t t1) as (ns1 & H1 & Hd1 & Hsame & Hled & Hkept).
  { pose proof (holds_d _ _ _ _ _ H) as Hd. destruct Hcase as [(-> & -> & -> & -> & H1)|(Hne & -> & -> & -> & H1)]; eexists; split_and!; try exact H1; try done; try apply kept_app. by intros ->. }
  mstep with (on_table_read _ _ _ _ _ Ha1 (NumberOfDeletedNodes_run ho H1)). mstep with (on_table_read _ _ _ _ _ Ha1 (NumberOfNodes_run ho H1)).
  fold (at_ (lenZ (l1 ++ l2) + 1 + d1)).
  assert ((if negb (t =? t1) then on_table t1 (prev_after_copy ho index) else mret (at_ (nd ns (lenZ l1)))) st1 = (Ok (at_ (nd ns1 (lenZ l1))), st1)) as Hprev.
  { destruct (Z.eqb_spec t t1) as [->|]; simpl; [by rewrite Hsame|]. apply (on_table_read _ _ _ _ _ Ha1).
    rewrite (prev_after_copy_run a1 ns1 (l1 ++ l2) d1 index H1) by (destruct Hi as [->|[-> ->]]; lenz).
    destruct Hi as [->|[-> ->]]; [by zb|]. simpl. by rewrite app_nil_r. }
  mstep with Hprev. pose proof (holds_len _ _ _ _ _ H1) as Hlen.
  destruct (split_len ns1 (lenZ l1)) as (n1 & n2 & -> & Hn1); [lenz|].
  destruct (InsertNode_run ho a1 n1 n2 l1 l2 d1 v H1 Hn1 Hroom) as (a2 & Hrun & Hl2 & H2).
  mstep with (on_table_run _ _ _ _ _ _ Ha1 Hrun).
  set (k := lenZ (l1 ++ l2) + 1 + d1) in *.
  assert (((index =? -1) || (lenZ (l1 ++ l2) =? index)) = (lenZ l1 =? lenZ (l1 ++ l2))) as ->.
  { destruct Hi as [->|[-> ->]]; [zb; apply Z.eqb_sym|]. simpl. rewrite app_nil_r. by rewrite Z.eqb_refl. }
  assert (<[Z.to_nat t1 := a2]> st1 !! Z.to_nat t1 = Some a2) as Ha2 by (apply list_lookup_insert_eq, (lookup_lt_Some _ _ _ Ha1)).
  exists (<[Z.to_nat t1 := if lenZ l1 =? lenZ (l1 ++ l2) then wr TAIL_TABLE_INDEX (VInt (at_ k)) a2 else a2]> st1), t1, (n1 ++ k :: n2), d1.
  split; [|split; [|split; [split; [done|]|]]].
  - destruct (lenZ l1 =? lenZ (l1 ++ l2)); [|done]. erewrite bind_Ok; [done|].
    erewrite on_table_run; [by rewrite list_insert_insert_eq|done|]. apply SetElement_run. rewrite Hl2. apply (cell_bound _ _ _ (holds_tail _ _ _ _ _ H1)).
  - eexists. split; [by unfold lenZ; rewrite length_insert|]. split; [apply list_lookup_insert_eq, (lookup_lt_Some _ _ _ Ha1)|done].
  - intros Hd. destruct (Hd1 Hd) as [-> Hns]. split; [done|]. intros -> Hl. destruct l2 as [|]; [|done]. rewrite app_nil_r in *.
    destruct n2 as [|]; [|lenz]. rewrite app_nil_r in Hns. subst n1. unfold k. rewrite ?app_nil_r, Z.add_0_r. apply seqZ_snoc. lenz.
  - intros u b Hu Hne Hub. destruct (Hkept u b Hu Hne Hub) as [Hne' Hub']. split; [done|]. by rewrite list_lookup_insert_ne by lia.
Qed.

Lemma list_Add_run (st : Store) (t : Z) (ns : list Z) (l : list JSTaggedValue) (d : Z) (v : JSTaggedValue) :
  list_at st t ns l d -> lenZ l < 2 ^ 30 ->
  exists st' t' ns' d', Add ho t v st = (Ok t', st') /\ list_at st' t' ns' (l ++ [v]) d' /\
    places_added ns ns' (lenZ l) d d' true /\ kept st st' t t'.
Proof.
  intros Hat Hb. destruct Hat as (a & Ht & Ha & H) eqn:E. clear E. unfold Add. mstep with (on_table_read _ _ _ _ _ Ha (tail_run ho H)).
  destruct (AddNode_run st t ns l [] d v (-1)) as (st' & t' & ns' & d' & Hrun & Hat' & Hp); rewrite ?app_nil_r; [by exists a|done|by right|].
  exists st', t', ns', d'. rewrite app_nil_r in Hp. done.
Qed.

Lemma list_Insert_run (st : Store) (t : Z) (ns : list Z) (l1 l2 : list JSTaggedValue) (d : Z) (v : JSTaggedValue) :
  list_at st t ns (l1 ++ l2) d -> lenZ (l1 ++ l2) < 2 ^ 30 ->
  exists st' t' ns' d', Insert ho t v (lenZ l1) st = (Ok t', st') /\ list_at st' t' ns' (l1 ++ v :: l2) d' /\
    places_added ns ns' (lenZ (l1 ++ l2)) d d' (match l2 with [] => true | _ => false end) /\ kept st st' t t'.
Proof.
  intros Hat Hb. destruct Hat as (a & Ht & Ha & H) eqn:E. clear E. unfold Insert. assert (0 <= lenZ l1 <= lenZ (l1 ++ l2)) as Hi by lenz.
  erewrite bind_Ok; [apply AddNode_run; [by exists a|done|by left]|]. apply (on_table_read _ _ _ _ _ Ha).
  destruct (is_double ho) eqn:Hd; [by apply (GetPrevNode_run ho H)|]. mstep with (tail_run ho H). zb. by apply (FindPrevNodeByIndex_run ho H).
Qed.

Lemma AddFirst_run (st : Store) (t : Z) (ns : list Z) (l : list JSTaggedValue) (d : Z) (v : JSTaggedValue) :
  list_at st t ns l d -> lenZ l < 2 ^ 30 ->
  exists st' t' ns' d', AddFirst ho t v st = (Ok t', st') /\ list_at st' t' ns' (v :: l) d' /\ d' <= d /\ kept st st' t t'.
Proof.
  intros Hat Hb. destruct Hat as (a & Ht & Ha & H) eqn:E. clear E. unfold AddFirst. pose proof (lenZ_nonneg l).
  mstep with (on_table_read _ _ _ _ _ Ha (FindPrevNodeByIndex_run ho H 0 ltac:(lia))).
  destruct (AddNode_run st t ns [] l d v 0) as (st' & t' & ns' & d' & Hrun & Hat' & [Hd _] & Hkept); [by exists a|done|by left|]. by exists st', t', ns', d'.
Qed.

(** ** Removing *)

Lemma delete_middle_at {A} (l1 l2 : list A) (x : A) (i : nat) : i = length l1 -> delete i (l1 ++ x :: l2) = l1 ++ l2.
Proof. intros ->. apply delete_middle. Qed.

Section one.
Context {a : TaggedArray} {ns : list Z} {l : list JSTaggedValue} {d : Z} (H : holds a ns l d).

(** The nodes and the list without the position [i]. *)
Lemma remove_at (i : Z) : 0 <= i < lenZ l ->
  exists a', RemoveNode ho (at_ (nd ns i)) a = (Ok tt, a') /\ lenZ a' = lenZ a /\ holds a' (delete (Z.to_nat i) ns) (delete (Z.to_nat i) l) (d + 1).
Proof.
  intros Hi. pose proof (holds_len _ _ _ _ _ H) as Hlen.
  destruct (split_at l i Hi) as (l1 & v & l2 & Hl & Hl1). destruct (split_at ns i ltac:(lia)) as (n1 & x & n2 & Hn & Hn1).
  rewrite Hl, Hn in *. destruct (RemoveNode_run ho a n1 n2 x l1 l2 v d H ltac:(lia)) as (a' & Hrun & Hla & H'). rewrite Hl1 in Hrun.
  exists a'. split; [done|]. split; [done|].
  rewrite !delete_middle_at by (unfold lenZ in *; lia). done.
Qed.

Lemma GetFirst_run : GetFirst a = (Ok (match l with [] => VHole | v :: _ => v end), a).
Proof.
  unfold GetFirst. mstep with (first_run ho H). destruct l as [|v l'] eqn:E.
  - rewrite (nd_last ho H) by lenz. apply (start_run ho H).
  - by apply (val_run ho H 0).
Qed.

Lemma GetLast_run : GetLast a = (Ok (default VHole (list.last l)), a).
Proof.
  unfold GetLast. mstep with (tail_run ho H). destruct l as [|v l' _] eqn:E using rev_ind.
  - apply (start_run ho H).
  - rewrite last_snoc. simpl. replace (lenZ (l' ++ [v])) with (lenZ l' + 1) by lenz. apply (val_run ho H); [lenz|]. apply list_lookup_middle. unfold lenZ. lia.
Qed.

Lemma list_Get_run (index : Z) : 0 <= index < lenZ l -> Get ho index a = (Ok (default VUndefined (l !! Z.to_nat index)), a).
Proof.
  intros Hi. unfold Get. destruct (is_double ho) eqn:Hd; [|apply (FindElementByIndex_run ho H); lia].
  mstep with (NumberOfNodes_run ho H). destruct (index <? _); [apply (FindElementByIndex_run ho H)|by apply (FindElementByIndexAtLast_run ho H)]. lia.
Qed.

Lemma RemoveByIndex_run (i : Z) (v : JSTaggedValue) : 0 <= i -> l !! Z.to_nat i = Some v ->
  exists a', RemoveByIndex ho i a = (Ok v, a') /\ lenZ a' = lenZ a /\ holds a' (delete (Z.to_nat i) ns) (delete (Z.to_nat i) l) (d + 1).
Proof.
  intros Hi Hv. assert (i < lenZ l) by (apply lookup_lt_Some in Hv; unfold lenZ; lia).
  destruct (remove_at i ltac:(lia)) as (a' & Hrun & Hla & H'). exists a'. split; [|done]. unfold RemoveByIndex.
  erewrite bind_Ok by (destruct (is_double ho) eqn:Hd; [by apply (GetPrevNode_run ho H); [|lia]|apply (FindPrevNodeByIndex_run ho H); lia]).
  mstep with (next_run ho H i ltac:(lia)). mstep with (val_run ho H i v Hi Hv). by mstep with Hrun.
Qed.

Lemma RemoveFirst_run (v : JSTaggedValue) (l' : list JSTaggedValue) : l = v :: l' ->
  exists a' ns', RemoveFirst ho a = (Ok v, a') /\ holds a' ns' l' (d + 1).
Proof.
  intros Hl. unfold RemoveFirst. mstep with (first_run ho H). mstep with (val_run ho H 0 v ltac:(lia) ltac:(by rewrite Hl)).
  destruct (remove_at 0) as (a' & Hrun & _ & H'); [rewrite Hl; lenz|]. mstep with Hrun. exists a', (delete 0%nat ns). by rewrite Hl in H'.
Qed.

Lemma RemoveLast_run (v : JSTaggedValue) (l' : list JSTaggedValue) : is_double ho = true -> l = l' ++ [v] ->
  exists a' ns', RemoveLast ho a = (Ok v, a') /\ holds a' ns' l' (d + 1).
Proof.
  intros Hd Hl. unfold RemoveLast. assert (lenZ l = lenZ l' + 1) as Hn by (rewrite Hl; lenz). pose proof (lenZ_nonneg l').
  change (ELEMENTS_START_INDEX + 2) with (ELEMENTS_START_INDEX + PREV_PTR_OFFSET). mstep with (last_run ho H Hd).
  change (at_ (nd ns (lenZ l)) + 2) with (at_ (nd ns (lenZ l)) + PREV_PTR_OFFSET). mstep with (prev_run ho H (lenZ l) Hd ltac:(lia)).
  rewrite Hn. mstep with (val_run ho H (lenZ l') v ltac:(lia) ltac:(rewrite Hl; apply list_lookup_middle; unfold lenZ; lia)). rewrite Z.add_simpl_r.
  destruct (remove_at (lenZ l') ltac:(lia)) as (a' & Hrun & _ & H'). mstep with Hrun. exists a', (delete (Z.to_nat (lenZ l')) ns). split; [done|].
  rewrite Hl, delete_middle_at, app_nil_r in H' by (unfold lenZ; lia). done.
Qed.

Lemma set_value (i : Z) (v : JSTaggedValue) : 0 <= i < lenZ l -> holds (wr (at_ (nd ns (i + 1))) v a) ns (<[Z.to_nat i := v]> l) d.
Proof.
  intros Hi. assert (lenZ (<[Z.to_nat i := v]> l) = lenZ l) as Hl by (unfold lenZ; by rewrite length_insert).
  pose proof (holds_range _ _ _ _ _ H (i + 1) ltac:(lia)) as Br.
  assert (0 <= at_ (nd ns (i + 1)) < lenZ a) as Hin by (pose proof (holds_room _ _ _ _ _ H); destruct (entry_cases ho) as [[_ HE]|[_ HE]]; word_arith).
  assert (forall h w, h <= ELEMENTS_START_INDEX -> cell a h w -> cell (wr (at_ (nd ns (i + 1))) v a) h w) as Hh.
  { intros h w Hh Hc. apply cell_ne; [done|destruct (entry_cases ho) as [[_ HE]|[_ HE]]; word_arith|lia]. }
  pose proof (holds_inj _ _ _ _ _ H) as Hinj. destruct H. constructor; rewrite ?Hl, ?lenZ_wr; auto; try (apply Hh; done).
  - intros j Hj. apply cell_ne; [auto|destruct (entry_cases ho) as [[_ HE]|[_ HE]]; word_arith|lia].
  - intros Hd j Hj. apply cell_ne; [auto|destruct (entry_cases ho) as [[? HE]|[_ HE]]; [congruence|word_arith]|lia].
  - intros j w Hj Hw. destruct (decide (j = i)) as [->|Hne].
    + rewrite list_lookup_insert_eq in Hw by (unfold lenZ in Hi; lia). injection Hw as <-. by apply cell_eq.
    + rewrite list_lookup_insert_ne in Hw by lia. pose proof (lookup_lt_Some _ _ _ Hw). apply cell_ne; [auto| |lia].
      rewrite at_inj. intros He%Hinj; unfold lenZ in *; lia.
Qed.

Lemma list_Set_run (i : Z) (v : JSTaggedValue) : 0 <= i < lenZ l -> Set_ ho i v a = (Ok tt, wr (at_ (nd ns (i + 1))) v a).
Proof.
  intros Hi. unfold Set_. mstep with (NumberOfNodes_run ho H). zb. rewrite andb_false_r. mstep with (FindDataIndexByNodeIndex_run ho H i Hi).
  pose proof (holds_range _ _ _ _ _ H (i + 1) ltac:(lia)). pose proof (holds_room _ _ _ _ _ H).
  assert (0 <= at_ (nd ns (i + 1)) < lenZ a) by (destruct (entry_cases ho) as [[_ HE]|[_ HE]]; word_arith). zb. by apply SetElement_run.
Qed.

(** ** Removing by value, clearing, listing *)

Lemma list_Remove_run (heap : Heap) (element : JSTaggedValue) : SameValue heap VHole element = false ->
  exists a' ns', Remove ho heap element a = (Ok (match find_index (fun v => SameValue heap v element) l with Some _ => true | None => false end), a') /\
    match find_index (fun v => SameValue heap v element) l with
    | Some i => holds a' ns' (delete (Z.to_nat i) l) (d + 1)
    | None => a' = a /\ ns' = ns
    end.
Proof.
  intros Hh. unfold Remove. mstep with (FindPrevNodeByValue_run ho H heap element Hh). pose proof (find_index_at (fun v => SameValue heap v element) l) as Hf.
  destruct (find_index _ l) as [i|]; [|by exists a, ns]. destruct Hf as (Hi & _ & _).
  pose proof (at_ge ho (nd ns i) 0 ltac:(apply (nd_bounds ho _ _ _ _ i H); lia) ltac:(lia)). unfold ELEMENTS_START_INDEX in *. zb.
  destruct (remove_at i Hi) as (a' & Hrun & _ & H'). mstep with Hrun. by exists a', (delete (Z.to_nat i) ns).
Qed.

Lemma RemoveFirstFound_run (heap : Heap) (element : JSTaggedValue) : SameValue heap VHole element = false ->
  match find_index (fun v => SameValue heap v element) l with
  | Some i => exists a' ns', RemoveFirstFound ho heap element a = (Ok true, a') /\ holds a' ns' (delete (Z.to_nat i) l) (d + 1)
  | None => RemoveFirstFound ho heap element a = (Throw IS_NOT_EXIST_ERROR, a)
  end.
Proof.
  intros Hh. pose proof (find_index_at (fun v => SameValue heap v element) l) as Hf. unfold RemoveFirstFound.
  pose proof (FindPrevNodeByValue_run ho H heap element Hh) as Hr. destruct (find_index _ l) as [i|]; [|by mstep with Hr]. destruct Hf as (Hi & _ & _).
  pose proof (at_ge ho (nd ns i) 0 ltac:(apply (nd_bounds ho _ _ _ _ i H); lia) ltac:(lia)). unfold ELEMENTS_START_INDEX in *.
  destruct (remove_at i Hi) as (a' & Hrun & _ & H'). exists a', (delete (Z.to_nat i) ns). split; [|done]. mstep with Hr. zb. by mstep with Hrun.
Qed.

Lemma RemoveLastFound_run (heap : Heap) (element : JSTaggedValue) : is_double ho = true -> SameValue heap VHole element = false ->
  match find_last_index (fun v => SameValue heap v element) l with
  | Some i => exists a' ns', RemoveLastFound ho heap element a = (Ok true, a') /\ holds a' ns' (delete (Z.to_nat i) l) (d + 1)
  | None => RemoveLastFound ho heap element a = (Throw IS_NOT_EXIST_ERROR, a)
  end.
Proof.
  intros Hd Hh. pose proof (find_last_index_at (fun v => SameValue heap v element) l) as Hf. unfold RemoveLastFound.
  pose proof (FindPrevNodeByValueAtLast_run ho H heap element Hh Hd) as Hr. destruct (find_last_index _ l) as [i|]; [|by mstep with Hr]. destruct Hf as (Hi & _ & _).
  pose proof (at_ge ho (nd ns i) 0 ltac:(apply (nd_bounds ho _ _ _ _ i H); lia) ltac:(lia)). unfold ELEMENTS_START_INDEX in *.
  destruct (remove_at i Hi) as (a' & Hrun & _ & H'). exists a', (delete (Z.to_nat i) ns). split; [|done]. mstep with Hr. zb. by mstep with Hrun.
Qed.

(** Clearing the values does not change the links that it follows. *)
Lemma clear_nodes_run (n : nat) (j : Z) (b : TaggedArray) : 0 <= j -> j + Z.of_nat n = lenZ l -> lenZ b = lenZ a ->
  (forall x w, 0 <= x -> cell a (at_ x + NEXT_PTR_OFFSET) w -> cell b (at_ x + NEXT_PTR_OFFSET) w) ->
  exists b', clear_nodes n (at_ (nd ns j)) b = (Ok tt, b') /\ lenZ b' = lenZ a.
Proof.
  revert j b. induction n as [|n IH]; intros j b Hj Hn Hb Hnext; [by exists b|]. simpl.
  pose proof (nd_bounds ho _ _ _ _ j H Hj) as Bj. pose proof (holds_range _ _ _ _ _ H (j + 1) ltac:(lia)) as Bj1. pose proof (holds_room _ _ _ _ _ H) as Hroom.
  mstep with (GetIndex_cell _ _ _ (Hnext _ _ (proj1 Bj) (holds_next _ _ _ _ _ H j ltac:(lia)))).
  mstep by (apply SetElement_run; rewrite Hb; destruct (entry_cases ho) as [[_ HE]|[_ HE]]; word_arith).
  apply IH; [lia|lia|by rewrite lenZ_wr|]. intros x w Hx Hc. apply cell_ne; [by apply Hnext|destruct (entry_cases ho) as [[_ HE]|[_ HE]]; word_arith..].
Qed.

Lemma list_Clear_run : exists a', Clear ho a = (Ok tt, a') /\ lenZ a' = lenZ a /\ holds a' [] [] 0.
Proof.
  unfold Clear, ClearList. rewrite <- bind_assoc. mstep with (NumberOfNodes_run ho H). pose proof (lenZ_nonneg l).
  destruct (clear_nodes_run (Z.to_nat (lenZ l)) 0 a) as (b & Hrun & Hb); [lia|lia|done|done|]. rewrite <- bind_assoc. mstep with Hrun.
  assert (at_ 1 <= lenZ b) as H1 by (pose proof (holds_room _ _ _ _ _ H); pose proof (holds_d _ _ _ _ _ H); destruct (entry_cases ho) as [[_ HE]|[_ HE]]; word_arith).
  change (@nil Z) with (seqZ 1 (lenZ (@nil JSTaggedValue))).
  destruct (entry_cases ho) as [[Hd HE]|[Hd HE]]; rewrite Hd; eexists; (split; [|split]).
  1: do 2 (rewrite <- bind_assoc; mstep by (apply Set_cell; rewrite ?lenZ_wr; word_arith)); do 3 (rewrite <- bind_assoc; put); put; reflexivity.
  3: do 2 (rewrite <- bind_assoc; mstep by (apply Set_cell; rewrite ?lenZ_wr; word_arith)); do 3 (rewrite <- bind_assoc; put); put; apply SetElement_run; rewrite ?lenZ_wr; word_arith.
  1, 3: by rewrite ?lenZ_wr.
  all: apply holds_ordered; change (lenZ (@nil JSTaggedValue)) with 0; rewrite ?lenZ_wr; try done; try word; try (intros; lia); try (by intros); try congruence.
  intros _. split; [intros; lia|word].
Qed.

Lemma list_to_array_run (n : nat) (j : Z) : 0 <= j -> j + Z.of_nat n = lenZ l -> list_to_array n (at_ (nd ns j)) a = (Ok (drop (Z.to_nat j) l), a).
Proof.
  revert j. induction n as [|n IH]; intros j Hj Hn; simpl.
  { by rewrite drop_ge by (unfold lenZ in Hn; lia). }
  mstep with (next_run ho H j ltac:(lia)). destruct (item ho H j ltac:(lia)) as (v & Hl & Hv). mstep with Hv. mstep with (IH (j + 1) ltac:(lia) ltac:(lia)).
  rewrite (drop_S l v (Z.to_nat j) Hl). by replace (Z.to_nat (j + 1)) with (Datatypes.S (Z.to_nat j)) by lia.
Qed.

Lemma TaggedListToArray_run : lenZ l < 2 ^ 32 -> TaggedListToArray a = (Ok l, a).
Proof.
  intros Hb. unfold TaggedListToArray. mstep with (NumberOfNodes_run ho H). pose proof (lenZ_nonneg l). rewrite u32_small by lia.
  destruct (Z.eqb_spec (lenZ l) 0) as [He|]; [by rewrite (lenZ_zero l He)|]. change ELEMENTS_START_INDEX with (at_ (nd ns 0)). rewrite list_to_array_run by lia. done.
Qed.

Lemma MapNodeIndexToDataIndex_run (n : nat) (j : Z) : 0 <= j -> j + Z.of_nat n = lenZ l ->
  MapNodeIndexToDataIndex n (at_ (nd ns j)) a = (Ok (at_ <$> drop (Z.to_nat j) ns), a).
Proof.
  pose proof (holds_len _ _ _ _ _ H) as Hlen. revert j. induction n as [|n IH]; intros j Hj Hn; simpl.
  { by rewrite drop_ge by (unfold lenZ in *; lia). }
  mstep with (next_run ho H j ltac:(lia)). mstep with (IH (j + 1) ltac:(lia) ltac:(lia)).
  destruct (lookup_lt_is_Some_2 ns (Z.to_nat j)) as [x Hx]; [unfold lenZ in *; lia|]. rewrite (drop_S ns x (Z.to_nat j) Hx). simpl.
  replace (Z.to_nat (j + 1)) with (Datatypes.S (Z.to_nat j)) by lia. do 4 f_equal. unfold nd. zb. by rewrite Z.add_simpl_r, Hx.
Qed.

(** The node after the one at position [j]; no value of the list is a hole. *)
Lemma FindElementByDataIndex_run (j : Z) : 0 <= j <= lenZ l -> Forall (fun v => v <> VHole) l ->
  FindElementByDataIndex (at_ (nd ns j)) a = (Ok (match l !! Z.to_nat j with Some v => (at_ (nd ns (j + 1)), v) | None => (-1, VUndefined) end), a).
Proof.
  intros Hj Hl. unfold FindElementByDataIndex. mstep with (next_run ho H j Hj). destruct (decide (j = lenZ l)) as [->|].
  - rewrite (nd_last ho H) by lia. rewrite at_0. mstep with (start_run ho H). unfold walk. rewrite <- bind_assoc. mstep. simpl. rewrite <- bind_assoc. simpl. mstep. mstep.
    rewrite lookup_ge_None_2 by (unfold lenZ; lia). done.
  - destruct (item ho H j ltac:(lia)) as (v & Hv & Hrd). mstep with Hrd. rewrite Hv. assert (v <> VHole) as Hne by (by apply (Forall_lookup_1 _ _ _ _ Hl Hv)).
    unfold walk. rewrite <- bind_assoc. mstep. assert (IsHole v = false) as Hh by (by destruct v). simpl. rewrite Hh. rewrite <- bind_assoc. simpl. mstep. mstep. by rewrite (nd_node ho H) by lia.
Qed.
(** ** Comparing and copying lists *)

Lemma GetNextDataIndex_run (j : Z) : 0 <= j < lenZ l -> GetNextDataIndex (at_ (nd ns j)) a = (Ok (at_ (nd ns (j + 1))), a).
Proof. intros Hj. unfold GetNextDataIndex. mstep with (next_run ho H j ltac:(lia)). by rewrite (nd_node ho H) by lia. Qed.
End one.

(** SameValue on two lists. *)
Fixpoint same_lists (heap : Heap) (l l' : list JSTaggedValue) : bool :=
  match l, l' with
  | [], [] => true
  | v :: l, v' :: l' => SameValue heap v v' && same_lists heap l l'
  | _, _ => false
  end.

Lemma same_lists_length (heap : Heap) (l l' : list JSTaggedValue) : same_lists heap l l' = true -> lenZ l = lenZ l'.
Proof. revert l'. induction l as [|v l IH]; intros [|v' l']; simpl; try done. intros [_ Hs]%andb_prop. rewrite !lenZ_cons, (IH _ Hs). done. Qed.

Section two.
Context {a b : TaggedArray} {ns ns' : list Z} {l l' : list JSTaggedValue} {d d' : Z} (H : holds a ns l d) (H' : holds b ns' l' d').

Lemma equal_nodes_run (heap : Heap) (n : nat) (j : Z) : 0 <= j -> j + Z.of_nat n = lenZ l -> lenZ l' = lenZ l ->
  equal_nodes heap b n (at_ (nd ns' j)) (at_ (nd ns j)) a = (Ok (same_lists heap (drop (Z.to_nat j) l') (drop (Z.to_nat j) l)), a).
Proof.
  revert j. induction n as [|n IH]; intros j Hj Hn Hl.
  { by rewrite !drop_ge by (unfold lenZ in *; lia). }
  cbn [equal_nodes]. mstep with (from_run b _ _ a (GetNextDataIndex_run H' j ltac:(lia))). mstep with (GetNextDataIndex_run H j ltac:(lia)).
  destruct (item ho H j ltac:(lia)) as (v & Hv & Hrd), (item ho H' j ltac:(lia)) as (v' & Hv' & Hrd').
  mstep with (from_run b _ _ a Hrd'). mstep with Hrd. rewrite (drop_S l v _ Hv), (drop_S l' v' _ Hv'). cbn [same_lists].
  destruct (SameValue heap v' v); [|done]. cbn [negb andb]. rewrite IH by lia. by replace (Z.to_nat (j + 1)) with (Datatypes.S (Z.to_nat j)) by lia.
Qed.

Lemma list_Equal_run (heap : Heap) : Equal heap b a = (Ok (same_lists heap l' l), a).
Proof.
  unfold Equal. mstep with (from_run b _ _ a (NumberOfNodes_run ho H')). mstep with (NumberOfNodes_run ho H). pose proof (lenZ_nonneg l).
  destruct (Z.eqb_spec (lenZ l') (lenZ l)) as [He|Hne].
  - cbn [negb]. change ELEMENTS_START_INDEX with (at_ (nd ns' 0)) at 1. change ELEMENTS_START_INDEX with (at_ (nd ns 0)). by rewrite equal_nodes_run by lia.
  - simpl. destruct (same_lists heap l' l) eqn:Hs; [|done]. by apply same_lists_length in Hs.
Qed.
End two.
End derived.

(** Two computations that begin in the same way. *)
Lemma bind_ext_l {S A B} (m m' : M S A) (f : A -> M S B) (s : S) : m s = m' s -> (m ≫= f) s = (m' ≫= f) s.
Proof. intros He. mcbn. by rewrite He. Qed.

Ltac word_arith2 := change (ENTRY_SIZE TaggedSingleList) with 2 in *; unfold at_ in *; change (ENTRY_SIZE TaggedSingleList) with 2 in *; word_arith.

Ltac word2 :=
  lazymatch goal with
  | |- cell (wr ?i ?v ?a) ?j ?w =>
      first [ apply cell_ne; [word2|word_arith2|word_arith2]
            | replace j with i by word_arith2; apply cell_eq; rewrite ?lenZ_wr; word_arith2 ]
  | _ => eassumption
  end.

Section single.
Notation at_ := (at_ TaggedSingleList).
Notation holds := (holds TaggedSingleList).

Lemma order_nodes_copy (src : TaggedArray) (n : nat) (i x : Z) (b : TaggedArray) :
  order_nodes src n i x b = copy_nodes TaggedSingleList src (ELEMENTS_START_INDEX + ENTRY_SIZE TaggedSingleList) n i x b.
Proof.
  revert i x b. induction n as [|n IH]; intros i x b; [done|]. cbn [order_nodes copy_nodes]. unfold copy_node. cbn [is_double].
  replace (ELEMENTS_START_INDEX + ENTRY_SIZE TaggedSingleList + i * ENTRY_SIZE TaggedSingleList) with (ELEMENTS_START_INDEX + (i + 1) * ENTRY_SIZE TaggedSingleList) by (unfold ENTRY_SIZE; lia).
  mcbn. destruct (from src _ b) as [[] b1]; try done. destruct (SetElement _ _ b1) as [[] b2]; try done. destruct (SetElement _ _ b2) as [[] b3]; try done.
  destruct (from src _ b3) as [[] b4]; try done.
Qed.

Lemma SortByNodeOrder_run {S} (src : TaggedArray) (ns : list Z) (l : list JSTaggedValue) (d : Z) (s : S) :
  holds src ns l d -> lenZ l < 2 ^ 30 -> exists b, SortByNodeOrder TaggedSingleList src s = (Ok b, s) /\ holds b (seqZ 1 (lenZ l)) l 0.
Proof.
  intros H Hb. pose proof (lenZ_nonneg l). unfold SortByNodeOrder. mstep with (from_run src _ _ s (NumberOfNodes_run _ H)).
  mstep with (from_run src _ _ s (first_run _ H)). rewrite u32_small by lia.
  set (c := if lenZ l <? DEFAULT_ARRAY_LENGHT then DEFAULT_ARRAY_LENGHT else lenZ l).
  assert (0 < c /\ lenZ l <= c) as [Hc Hcl] by (unfold c, DEFAULT_ARRAY_LENGHT; destruct (Z.ltb_spec (lenZ l) 10); lia). clearbody c.
  destruct (Create_cells TaggedSingleList c s Hc) as (b & Hrun & Hlb & C0 & C1 & C2 & C3 & C4 & C5). mstep with Hrun.
  assert (at_ (lenZ l + 1) <= lenZ b) as Hroom by (rewrite Hlb; unfold ListShape.at_, ENTRY_SIZE; lia).
  assert (6 <= lenZ b) by (unfold ListShape.at_, ENTRY_SIZE, ELEMENTS_START_INDEX in *; lia).
  change (ELEMENTS_START_INDEX + ENTRY_SIZE TaggedSingleList) with (at_ 1). fold (at_ (lenZ l)).
  set (b0 := wr (ELEMENTS_START_INDEX + NEXT_PTR_OFFSET) (VInt (at_ 1)) (wr ELEMENTS_START_INDEX VHole (wr TAIL_TABLE_INDEX (VInt (at_ (lenZ l))) (wr NUMBER_OF_NODE_INDEX (VInt (lenZ l)) b)))).
  destruct (ordered_run TaggedSingleList src ns l d b0 H) as (b' & Hrun' & _ & HH); unfold b0; [by rewrite ?lenZ_wr|try word..|done|].
  exists b'. split; [|done]. apply build_run. mstep by (apply Set_cell; word_arith). do 3 put. rewrite <- Hrun'. apply bind_ext_l. apply order_nodes_copy.
Qed.

(** ** GetSubList *)

Section sub.
Context {src : TaggedArray} {ns : list Z} {l : list JSTaggedValue} {d : Z} (H : holds src ns l d).
Context {fromIndex toIndex : Z} (Hft : 0 <= fromIndex < toIndex) (Hto : toIndex <= lenZ l).

Lemma sub_bounds_run : sub_bounds fromIndex toIndex src = (Ok (at_ (nd ns (fromIndex + 1)), at_ (nd ns (toIndex + 1))), src).
Proof.
  pose proof (room_bound _ H). pose proof (holds_d _ _ _ _ _ H). unfold sub_bounds. mstep with (first_run _ H).
  replace (-1, at_ (nd ns (0 + 1)), 0) with ((if fromIndex <? 0 then at_ (nd ns (fromIndex + 1)) else -1), at_ (nd ns (0 + 1)), 0) by (by zb).
  apply (walk_loop _ (fun i => ((if fromIndex <? i then at_ (nd ns (fromIndex + 1)) else -1), at_ (nd ns (i + 1)), i)) _ _ (toIndex - 1)); [| |lia..].
  - intros i Hi. cbv beta iota. rewrite (nd_node _ H) by lia. mstep with (next_run _ H (i + 1) ltac:(lia)). rewrite (proj2 (Z.eqb_neq (i + 1) toIndex)) by lia.
    destruct (Z.eqb_spec i fromIndex) as [->|]; [by zb|]. destruct (Z.ltb_spec fromIndex i); by zb.
  - cbv beta iota. rewrite (nd_node _ H) by lia. mstep with (next_run _ H (toIndex - 1 + 1) ltac:(lia)). rewrite Z.sub_add. zb.
    destruct (Z.eqb_spec (toIndex - 1) fromIndex) as [<-|]; [by rewrite Z.sub_add|]. by zb.
Qed.

Lemma sub_loop (fuel : nat) (i : Z) (b : TaggedArray) : 0 <= i <= toIndex - fromIndex -> toIndex - fromIndex - i < Z.of_nat fuel -> at_ (toIndex - fromIndex + 1) <= lenZ b ->
  exists b', while_fuel fuel (sub_step src (at_ (nd ns (toIndex + 1)))) (at_ (nd ns (fromIndex + 1 + i)), at_ i) b = (Ok (at_ (toIndex - fromIndex)), b') /\ lenZ b' = lenZ b /\
    (forall j v, j < at_ i + NEXT_PTR_OFFSET -> cell b j v -> cell b' j v) /\
    (forall j, i <= j < toIndex - fromIndex -> cell b' (at_ j + NEXT_PTR_OFFSET) (VInt (at_ (j + 1))) /\ forall v, l !! Z.to_nat (fromIndex + j) = Some v -> cell b' (at_ (j + 1)) v).
Proof.
  revert i b. induction fuel as [|fuel IH]; intros i b Hi Hf Hb; [lia|]. simpl.
  assert ((at_ (nd ns (fromIndex + 1 + i)) =? at_ (nd ns (toIndex + 1))) = (i =? toIndex - fromIndex)) as Heq.
  { apply eq_bool_prop_intro. rewrite !Is_true_true, !Z.eqb_eq, at_inj. split; [|intros ->; f_equal; lia]. intros He%(nd_inj _ H); lia. }
  destruct (Z.eqb_spec i (toIndex - fromIndex)) as [->|Hne].
  { exists b. split; [mcbn; by rewrite Heq|]. split; [done|]. split; [done|]. intros; lia. }
  destruct (item _ H (fromIndex + i) ltac:(lia)) as (w & Hw & Hrd). replace (fromIndex + i + 1) with (fromIndex + 1 + i) in Hrd by lia.
  set (b1 := wr (at_ (i + 1)) w (wr (at_ i + NEXT_PTR_OFFSET) (VInt (at_ (i + 1))) b)).
  assert (sub_step src (at_ (nd ns (toIndex + 1))) (at_ (nd ns (fromIndex + 1 + i)), at_ i) b = (Ok (inl (at_ (nd ns (fromIndex + 1 + (i + 1))), at_ (i + 1))), b1)) as Hstep.
  { unfold sub_step. rewrite Heq. cbn [negb]. replace (at_ i + ENTRY_SIZE TaggedSingleList) with (at_ (i + 1)) by (unfold ListShape.at_; lia).
    mstep with (from_run src _ _ b Hrd). mstep by (apply SetElement_run; unfold ENTRY_SIZE in *; word_arith2). mstep by (apply SetElement_run; rewrite lenZ_wr; word_arith2).
    mstep with (from_run src _ _ b1 (next_run _ H (fromIndex + 1 + i) ltac:(lia))). by rewrite Z.add_assoc. }
  destruct (IH (i + 1) b1) as (b' & Hrun & Hlb & Hkeep & Hnodes); [lia|lia|unfold b1; by rewrite !lenZ_wr|].
  exists b'. split; [by mstep with Hstep|]. split; [rewrite Hlb; unfold b1; by rewrite !lenZ_wr|]. split.
  - intros j v Hj Hc. apply Hkeep; [word_arith2|]. unfold b1. apply cell_ne; [apply cell_ne; [done|word_arith2..]|word_arith2..].
  - intros j Hj. destruct (decide (j = i)) as [->|]; [|apply Hnodes; lia]. split.
    + apply Hkeep; [word_arith2|]. unfold b1. apply cell_ne; [apply cell_eq|..]; word_arith2.
    + intros v Hv. assert (v = w) as -> by congruence. apply Hkeep; [word_arith2|]. apply cell_eq. rewrite lenZ_wr. word_arith2.
Qed.

Lemma GetSubList_run : exists b', GetSubList src fromIndex toIndex (Factory.NewTaggedArray (at_ (toIndex - fromIndex + 1)) VHole) = (Ok tt, b') /\
  holds b' (seqZ 1 (toIndex - fromIndex)) (take (Z.to_nat (toIndex - fromIndex)) (drop (Z.to_nat fromIndex) l)) 0.
Proof.
  set (k := toIndex - fromIndex). unfold Factory.NewTaggedArray. rewrite (proj2 (Z.eqb_neq (at_ (k + 1)) 0)) by (unfold k; word_arith2).
  set (b := replicate _ _). assert (lenZ b = at_ (k + 1)) as Hlb by (unfold b, k; rewrite lenZ_replicate, Z2Nat.id; word_arith2).
  assert (cell b ELEMENTS_START_INDEX VHole) as Hs by (split; [done|]; apply lookup_replicate_2; unfold k; word_arith2). clearbody b.
  unfold GetSubList. mstep with (from_run src _ _ b sub_bounds_run). pose proof (room_bound _ H). pose proof (holds_d _ _ _ _ _ H).
  destruct (sub_loop (Datatypes.S (length src)) 0 b) as (b1 & Hrun & Hl1 & Hkeep & Hnodes); [lia|unfold lenZ in *; lia|fold k; lia|].
  rewrite Z.add_0_r in Hrun. change (at_ 0) with ELEMENTS_START_INDEX in Hrun. mstep with Hrun. fold k. fold k in Hnodes.
  assert (at_ (k + 1) = lenZ b1) as Hat by lia.
  mstep by (apply SetElement_run; rewrite ?lenZ_wr; unfold k in *; word_arith2).
  do 2 mstep by (apply SetElement_run; rewrite ?lenZ_wr; unfold k in *; word_arith2). mstep by (apply Set_cell; rewrite ?lenZ_wr; unfold k in *; word_arith2).
  eexists. split; [apply Set_cell; rewrite ?lenZ_wr; unfold k in *; word_arith2|].
  assert (lenZ (take (Z.to_nat k) (drop (Z.to_nat fromIndex) l)) = k) as Hlk by (unfold lenZ, k in *; rewrite length_take, length_drop; lia).
  rewrite <- Hlk at 4. assert (0 < k) as Hk by lia. clearbody k. assert (6 <= lenZ b1) by word_arith2.
  assert (cell b1 ELEMENTS_START_INDEX VHole) as Hs1 by (apply Hkeep; [word_arith2|done]).
  apply holds_ordered; rewrite ?Hlk, ?lenZ_wr; try word2; [|by intros| |by rewrite <- Hat].
  - intros j Hj. destruct (Hnodes j ltac:(lia)) as [Hx _]. word2.
  - intros j v Hj Hv. assert (j < k) by (apply lookup_lt_Some in Hv; rewrite length_take in Hv; lia).
    rewrite lookup_take_lt, lookup_drop in Hv by lia. replace (Z.to_nat fromIndex + Z.to_nat j)%nat with (Z.to_nat (fromIndex + j)) in Hv by lia.
    destruct (Hnodes j ltac:(lia)) as [_ Hx]. specialize (Hx v Hv). word2.
Qed.
End sub.
End single.
End ListOps.
