(* ===== verification/SortCompare.v ===== *)
(** * SortCompare: the order in which values are sorted.

    ArrayHelper::SortCompare of base/array_helper.cpp and
    JSTaggedValue::IntLexicographicCompare of js_tagged_value.cpp.  Without a
    compare function values are ordered as their strings.  For two integers
    this is decided without making the strings: the number of digits comes
    from the binary logarithm, and the shorter number is scaled. *)
From S2P Require Import Prelude TaggedValue TaggedArray EcmaString DateString.
Local Open Scope Z_scope.

Module SortCompare.

(** CountLeadingZeros(value, bits) of js_tagged_value.cpp; [bits] is halved
    down to 1. *)
Fixpoint CountLeadingZeros_ (fuel : nat) (value bits : Z) : Z :=
  match fuel with
  | O => 0
  | Datatypes.S fuel =>
      if bits =? 1 then Z.lxor value 1
      else
        let upper_half := Z.shiftr value (bits / 2) in
        let nextValue := if negb (upper_half =? 0) then upper_half else value in
        let add := if negb (upper_half =? 0) then 0 else bits / 2 in
        let nextBits := if bits =? 1 then 1 else bits / 2 in
        CountLeadingZeros_ fuel nextValue nextBits + add
  end.

Definition CountLeadingZeros (value bits : Z) : Z := CountLeadingZeros_ 6 value bits.

Definition kPowersOf10 : list Z := [1; 10; 100; 1000; 10000; 100000; 1000000; 10000000; 100000000; 1000000000].

(** The number of decimal digits less one. *)
Definition digit_count (u : Z) : Z :=
  let log2 := 31 - CountLeadingZeros u 32 in
  let digit := Z.shiftr ((log2 + 1) * 1233) 12 in
  digit - (if u <? kPowersOf10 !!! Z.to_nat digit then 1 else 0).

(** [-xValue] as an int32, which overflows for the smallest one. *)
Definition negate {S} (x : Z) : M S Z := if x =? INT32_MIN then fault else mret (u32 (- x)).

(** The comparison of the magnitudes, from line 343 on. *)
Definition compare_magnitudes (unsignedX unsignedY : Z) : Z :=
  let xDigit := digit_count unsignedX in
  let yDigit := digit_count unsignedY in
  let '(unsignedX, unsignedY, res) :=
    if yDigit <? xDigit then (unsignedX / 10, u32 (unsignedY * (kPowersOf10 !!! Z.to_nat (xDigit - yDigit - 1))), 1)
    else (unsignedX, unsignedY, 0) in
  let '(unsignedX, unsignedY, res) :=
    if xDigit <? yDigit then (u32 (unsignedX * (kPowersOf10 !!! Z.to_nat (yDigit - xDigit - 1))), unsignedY / 10, -1)
    else (unsignedX, unsignedY, res) in
  if unsignedY <? unsignedX then 1 else if unsignedX <? unsignedY then -1 else res.

Definition IntLexicographicCompare {S} (xValue yValue : Z) : M S Z :=
  if xValue =? yValue then mret 0
  else if (xValue =? 0) || (yValue =? 0) then mret (if yValue <? xValue then 1 else -1)
  else if 0 <? yValue then
    if xValue <? 0 then mret (-1) else mret (compare_magnitudes (u32 xValue) (u32 yValue))
  else if 0 <? xValue then mret 1
  else
    unsignedX ← negate xValue;
    unsignedY ← negate yValue;
    mret (compare_magnitudes unsignedX unsignedY).

(** [callbackfn] is the compare function, or nothing for undefined and null. *)
Section compare.
Context {S : Type} (heap : Heap) (callbackfn : option (JSTaggedValue -> JSTaggedValue -> M S JSTaggedValue)).
Context (ToNumber : JSTaggedValue -> M S dbl) (ToString : JSTaggedValue -> M S (list Z)).

Definition string_units (v : JSTaggedValue) : option (list Z) := snd <$> get_string heap v.

Definition SortCompare (valueX valueY : JSTaggedValue) : M S dbl :=
  if IsHole valueX then mret (double_of_int (if IsHole valueY then 0 else 1))
  else if IsHole valueY then mret (double_of_int (-1))
  else if IsUndefined valueX then mret (double_of_int (if IsUndefined valueY then 0 else 1))
  else if IsUndefined valueY then mret (double_of_int (-1))
  else
    match callbackfn with
    | Some call =>
        callResult ← call valueX valueY;
        match callResult with
        | VInt z => mret (double_of_int z)
        | _ =>
            value ← ToNumber callResult;
            mret (if isnan value then double_of_int 0 else value)
        end
    | None =>
        match valueX, valueY with
        | VInt x, VInt y => r ← IntLexicographicCompare x y; mret (double_of_int r)
        | _, _ =>
            match string_units valueX, string_units valueY with
            | Some x, Some y =>
                r ← EcmaString.Compare (EcmaString.CreateFromUtf16 x) (EcmaString.CreateFromUtf16 y);
                mret (double_of_int r)
            | _, _ =>
                x ← ToString valueX;
                y ← ToString valueY;
                r ← EcmaString.Compare (EcmaString.CreateFromUtf16 x) (EcmaString.CreateFromUtf16 y);
                mret (double_of_int (if 0 <? r then 1 else if r <? 0 then -1 else 0))
            end
        end
    end.
End compare.

(** ** The number of digits *)

Lemma CountLeadingZeros_step (fuel : nat) (value bits : Z) : bits <> 1 ->
  CountLeadingZeros_ (Datatypes.S fuel) value bits =
  if Z.shiftr value (bits / 2) =? 0 then CountLeadingZeros_ fuel value (bits / 2) + bits / 2
  else CountLeadingZeros_ fuel (Z.shiftr value (bits / 2)) (bits / 2) + 0.
Proof. intros Hb. cbn [CountLeadingZeros_]. rewrite (proj2 (Z.eqb_neq bits 1)) by done. by destruct (Z.shiftr value (bits / 2) =? 0). Qed.

Lemma CountLeadingZeros_log2 (k : nat) (v : Z) : 0 < v < 2 ^ (2 ^ Z.of_nat k) -> CountLeadingZeros_ (Datatypes.S k) v (2 ^ Z.of_nat k) = 2 ^ Z.of_nat k - 1 - Z.log2 v.
Proof.
  revert v. induction k as [|k IH]; intros v Hv.
  { change (2 ^ (2 ^ Z.of_nat 0)) with 2 in Hv. by replace v with 1 by lia. }
  set (b := 2 ^ Z.of_nat k) in *. assert (0 < b) as Hb by (apply Z.pow_pos_nonneg; lia).
  assert (2 ^ Z.of_nat (Datatypes.S k) = 2 * b) as E2 by (unfold b; rewrite Nat2Z.inj_succ, Z.pow_succ_r by lia; done). rewrite E2 in *.
  rewrite CountLeadingZeros_step by lia. replace (2 * b / 2) with b by zlia. rewrite Z.shiftr_div_pow2 by lia.
  replace (2 * b) with (b + b) in Hv by lia. rewrite Z.pow_add_r in Hv by lia. assert (0 < 2 ^ b) as Hp by (apply Z.pow_pos_nonneg; lia).
  destruct (Z.eqb_spec (v / 2 ^ b) 0) as [H0|H0].
  - rewrite IH; [lia|]. apply Z.div_small_iff in H0; lia.
  - assert (0 < v / 2 ^ b) by (pose proof (Z.div_pos v (2 ^ b)); lia).
    rewrite IH by (split; [done|]; apply Z.div_lt_upper_bound; lia). rewrite <- Z.shiftr_div_pow2, Z.log2_shiftr by lia.
    assert (b <= Z.log2 v) by (apply (proj1 (Z.log2_le_pow2 v b ltac:(lia))); pose proof (Z.mul_div_le v (2 ^ b) Hp); nia). lia.
Qed.

(** Between which powers of ten the numbers with [L + 1] bits lie. *)
Definition estimate_ok (L : Z) : bool :=
  let t := Z.shiftr ((L + 1) * 1233) 12 in
  (0 <=? t) && (t <=? 9) && ((t =? 0) || (10 ^ (t - 1) <=? 2 ^ L)) && (2 ^ (L + 1) <=? 10 ^ (t + 1)) && (kPowersOf10 !!! Z.to_nat t =? 10 ^ t).

Lemma estimate_all : forallb estimate_ok (seqZ 0 32) = true.
Proof. by vm_compute. Qed.

Lemma digit_count_spec (u : Z) : 0 < u < 2 ^ 32 -> 0 <= digit_count u <= 9 /\ 10 ^ digit_count u <= u < 10 ^ (digit_count u + 1).
Proof.
  intros Hu. assert (CountLeadingZeros u 32 = 31 - Z.log2 u) as Hc by (apply (CountLeadingZeros_log2 5); done).
  unfold digit_count. cbv zeta. rewrite Hc. replace (31 - (31 - Z.log2 u)) with (Z.log2 u) by lia.
  destruct (Z.log2_spec u (proj1 Hu)) as [Hlo Hhi]. set (L := Z.log2 u) in *.
  assert (0 <= L < 32) as HL by (split; [apply Z.log2_nonneg|apply Z.log2_lt_pow2; lia]).
  pose proof estimate_all as Hall. rewrite forallb_forall in Hall. specialize (Hall L). rewrite <- list_elem_of_In, elem_of_seqZ in Hall.
  specialize (Hall ltac:(lia)). unfold estimate_ok in Hall. set (t := Z.shiftr ((L + 1) * 1233) 12) in *.
  apply andb_prop in Hall as [[[[Ht0 Ht9]%andb_prop Hlow]%andb_prop Hup]%andb_prop Hpow].
  apply Z.leb_le in Ht0, Ht9, Hup. apply Z.eqb_eq in Hpow. rewrite Hpow. apply orb_prop in Hlow. rewrite <- Z.add_1_r in Hhi.
  destruct (Z.ltb_spec u (10 ^ t)) as [Hlt|Hge]; [|rewrite !Z.sub_0_r; lia].
  destruct Hlow as [Hz%Z.eqb_eq|Hlow%Z.leb_le]; [rewrite Hz in Hlt; change (10 ^ 0) with 1 in Hlt; lia|].
  assert (1 <= t) by (destruct (decide (t = 0)) as [Hz|]; [rewrite Hz in Hlt; change (10 ^ 0) with 1 in Hlt; lia|lia]).
  replace (t - 1 + 1) with t by lia. lia.
Qed.

Lemma kPowersOf10_spec (i : Z) : 0 <= i <= 9 -> kPowersOf10 !!! Z.to_nat i = 10 ^ i.
Proof. intros Hi. assert (i = 0 \/ i = 1 \/ i = 2 \/ i = 3 \/ i = 4 \/ i = 5 \/ i = 6 \/ i = 7 \/ i = 8 \/ i = 9) as Hc by lia. destruct_or! Hc; by subst. Qed.

(** ** The order of decimal strings *)

Import EcmaString DateString.

Lemma lex_digits (p r : list Z) : length p = length r -> Forall digit p -> Forall digit r -> Z.sgn (lex p r) = Z.sgn (dec p - dec r).
Proof.
  revert r. induction p as [|x p IH]; intros [|y r] Hl Hp Hr; try done. apply Forall_cons_1 in Hp as [Hx Hp]. apply Forall_cons_1 in Hr as [Hy Hr].
  simpl in Hl. injection Hl as Hl. cbn [lex]. rewrite !dec_cons. pose proof (dec_range p Hp) as Bp. pose proof (dec_range r Hr) as Br.
  assert (lenZ p = lenZ r) as E by (unfold lenZ; lia). rewrite E in *. unfold digit in *. set (w := 10 ^ lenZ r) in *. clearbody w.
  destruct (Z.eqb_spec x y) as [->|Hne]; [rewrite IH by done; f_equal; lia|].
  destruct (Z.lt_total x y) as [?|[?|?]]; [|lia|]; [rewrite !Z.sgn_neg by nia; done|rewrite !Z.sgn_pos by nia; done].
Qed.

(** A longer string against a shorter one: its first digits decide. *)
Lemma lex_longer (p q r : list Z) : length p = length r -> q <> [] -> lex (p ++ q) r = if lex p r =? 0 then lenZ q else lex p r.
Proof.
  revert r. induction p as [|x p IH]; intros [|y r] Hl Hq; try done.
  { simpl. destruct q; [done|]. simpl. unfold lenZ. simpl. lia. }
  simpl in Hl. injection Hl as Hl. cbn [lex app]. destruct (Z.eqb_spec x y); [by apply IH|]. by rewrite (proj2 (Z.eqb_neq (x - y) 0)) by lia.
Qed.

Lemma lex_numbers (ds es : list Z) : Forall digit ds -> Forall digit es -> (length es < length ds)%nat ->
  Z.sgn (lex ds es) = if dec ds / 10 ^ (lenZ ds - lenZ es) <? dec es then -1 else 1.
Proof.
  intros Hd He Hl. set (p := take (length es) ds). set (q := drop (length es) ds). assert (ds = p ++ q) as E by (symmetry; apply take_drop).
  assert (length p = length es) as Hp by (unfold p; rewrite length_take; lia). assert (lenZ q = lenZ ds - lenZ es) as Hq by (unfold q, lenZ; rewrite length_drop; lia).
  assert (q <> []) as Hq0 by (intros H0; rewrite H0 in Hq; unfold lenZ in Hq; simpl in Hq; lia). rewrite E in Hd. apply Forall_app in Hd as [Hpd Hqd].
  rewrite <- Hq, E, lex_longer by done. rewrite dec_app. pose proof (dec_range q Hqd) as Bq.
  rewrite Z.div_add_l, (Z.div_small (dec q)) by lia. rewrite Z.add_0_r. pose proof (lex_digits p es Hp Hpd He) as Hs.
  destruct (Z.ltb_spec (dec p) (dec es)).
  - rewrite (Z.sgn_neg (dec p - dec es)) in Hs by lia. rewrite (proj2 (Z.eqb_neq (lex p es) 0)); [done|]. intros H0. rewrite H0 in Hs. done.
  - destruct (Z.eqb_spec (lex p es) 0) as [H0|H0]; [apply Z.sgn_pos; unfold lenZ in *; lia|].
    rewrite Hs. apply Z.sgn_pos. assert (Z.sgn (dec p - dec es) <> 0) by (rewrite <- Hs; lia). lia.
Qed.

Lemma digits_power (ds : list Z) (D : Z) : Forall digit ds -> 0 <= D -> 10 ^ D <= dec ds < 10 ^ (D + 1) ->
  (forall k : nat, (1 <= k)%nat -> dec ds < 10 ^ Z.of_nat k -> (length ds <= k)%nat) -> lenZ ds = D + 1.
Proof.
  intros Hd HD Hb Hmin. pose proof (dec_range ds Hd) as [_ Hup]. unfold lenZ in *.
  assert (length ds <= Z.to_nat (D + 1))%nat by (apply Hmin; [lia|]; rewrite Z2Nat.id; lia).
  destruct (Z.le_gt_cases (D + 1) (Z.of_nat (length ds))) as [|Hlt]; [lia|].
  assert (10 ^ Z.of_nat (length ds) <= 10 ^ D) by (apply Z.pow_le_mono_r; lia). lia.
Qed.

Lemma compare_longer (X Y k : Z) : 0 < X -> 0 < Y -> 0 < k ->
  (if Y * 10 ^ (k - 1) <? X / 10 then 1 else if X / 10 <? Y * 10 ^ (k - 1) then -1 else 1) = if X / 10 ^ k <? Y then -1 else 1.
Proof.
  intros HX HY Hk. assert (X / 10 ^ k = X / 10 / 10 ^ (k - 1)) as ->.
  { rewrite Z.div_div by (try apply Z.pow_pos_nonneg; lia). do 2 f_equal. rewrite <- Z.pow_succ_r by lia. f_equal. lia. }
  set (Q := X / 10). assert (0 < 10 ^ (k - 1)) as Hp by (apply Z.pow_pos_nonneg; lia). set (w := 10 ^ (k - 1)) in *. clearbody w.
  destruct (Z.ltb_spec (Q / w) Y) as [Hlt|Hge].
  - assert (Q < Y * w) by (apply Z.div_lt_upper_bound in Hlt || (pose proof (Z.div_mod Q w ltac:(lia)); pose proof (Z.mod_pos_bound Q w Hp); nia); nia). by zb.
  - assert (Y * w <= Q) by (pose proof (Z.mul_div_le Q w Hp); nia). destruct (Z.ltb_spec (Y * w) Q); by zb.
Qed.

(** Magnitudes are compared as their strings of digits. *)
Lemma compare_magnitudes_spec (X Y : Z) (ds es : list Z) : 0 < X <= 2 ^ 31 -> 0 < Y <= 2 ^ 31 ->
  Forall digit ds -> dec ds = X -> (forall k : nat, (1 <= k)%nat -> X < 10 ^ Z.of_nat k -> (length ds <= k)%nat) ->
  Forall digit es -> dec es = Y -> (forall k : nat, (1 <= k)%nat -> Y < 10 ^ Z.of_nat k -> (length es <= k)%nat) ->
  compare_magnitudes X Y = Z.sgn (lex ds es).
Proof.
  intros HX HY Hd Ed Md He Ee Me. unfold compare_magnitudes.
  destruct (digit_count_spec X ltac:(lia)) as [BX PX], (digit_count_spec Y ltac:(lia)) as [BY PY].
  set (a := digit_count X) in *. set (b := digit_count Y) in *. clearbody a b.
  assert (lenZ ds = a + 1) as La by (apply digits_power; [done|lia|by rewrite Ed|by rewrite Ed]).
  assert (lenZ es = b + 1) as Lb by (apply digits_power; [done|lia|by rewrite Ee|by rewrite Ee]).
  assert (forall x y A B, 0 < x <= 2 ^ 31 -> 0 <= A -> 10 ^ B <= y < 10 ^ (B + 1) -> x < 10 ^ (A + 1) -> A < B -> y <= 2 ^ 31 -> x * 10 ^ (B - A - 1) < 2 ^ 32) as Hsmall.
  { intros x y A B Hx HA Hy Hxa HAB Hyb. assert (10 ^ B = 10 ^ (A + 1) * 10 ^ (B - A - 1)) as E by (rewrite <- Z.pow_add_r by lia; f_equal; lia).
    assert (0 < 10 ^ (B - A - 1)) by (apply Z.pow_pos_nonneg; lia). nia. }
  destruct (Z.lt_total a b) as [Hlt|[Heq|Hgt]].
  - rewrite (proj2 (Z.ltb_ge b a)), (proj2 (Z.ltb_lt a b)) by lia. rewrite kPowersOf10_spec by lia.
    pose proof (Hsmall X Y a b HX ltac:(lia) PY (proj2 PX) Hlt ltac:(lia)) as Hs. assert (0 < 10 ^ (b - a - 1)) by (apply Z.pow_pos_nonneg; lia).
    rewrite u32_small by nia. pose proof (compare_longer Y X (b - a) ltac:(lia) ltac:(lia) ltac:(lia)) as Hc.
    pose proof (lex_numbers es ds He Hd ltac:(unfold lenZ in *; lia)) as Hlex. rewrite Ed, Ee in Hlex. replace (lenZ es - lenZ ds) with (b - a) in Hlex by lia.
    rewrite <- Hlex, lex_opp, Z.sgn_opp in Hc. apply Z.opp_inj. rewrite <- Hc.
    destruct (Z.ltb_spec (Y / 10) (X * 10 ^ (b - a - 1))), (Z.ltb_spec (X * 10 ^ (b - a - 1)) (Y / 10)); try lia; done.
  - subst b. rewrite !Z.ltb_irrefl. rewrite lex_digits by (done || unfold lenZ in *; lia). rewrite Ed, Ee.
    destruct (Z.ltb_spec Y X); [rewrite Z.sgn_pos by lia; done|]. destruct (Z.ltb_spec X Y); [rewrite Z.sgn_neg by lia; done|]. by replace (X - Y) with 0 by lia.
  - rewrite (proj2 (Z.ltb_lt b a)), (proj2 (Z.ltb_ge a b)) by lia. rewrite kPowersOf10_spec by lia.
    pose proof (Hsmall Y X b a HY ltac:(lia) PX (proj2 PY) Hgt ltac:(lia)) as Hs. assert (0 < 10 ^ (a - b - 1)) by (apply Z.pow_pos_nonneg; lia).
    rewrite u32_small by nia. rewrite compare_longer by lia. rewrite lex_numbers by (done || unfold lenZ in *; lia). rewrite Ed, Ee. by replace (lenZ ds - lenZ es) with (a - b) by lia.
Qed.

(** Zero comes before the positive numbers. *)
Lemma lex_zero (ds es : list Z) : Forall digit ds -> dec ds = 0 -> (forall k : nat, (1 <= k)%nat -> 0 < 10 ^ Z.of_nat k -> (length ds <= k)%nat) -> (1 <= length ds)%nat ->
  Forall digit es -> (1 <= length es)%nat -> 0 < dec es -> Z.sgn (lex ds es) = -1.
Proof.
  intros Hd Ed Md Ld He Le Hes. specialize (Md 1%nat ltac:(lia) ltac:(done)).
  destruct (decide (length es = 1)%nat) as [E|].
  - rewrite lex_digits by (done || lia). rewrite Ed. by rewrite Z.sgn_neg by lia.
  - apply Z.opp_inj. rewrite <- Z.sgn_opp, <- lex_opp, lex_numbers by (done || lia). rewrite Ed. rewrite (proj2 (Z.ltb_ge _ 0)); [done|]. apply Z.div_pos; [lia|]. apply Z.pow_pos_nonneg; [lia|unfold lenZ; lia].
Qed.

(** C33: IntLexicographicCompare orders integers as the strings that ToCString prints,
    apart from two negative numbers one of which is the smallest int32, whose
    negation overflows. *)
Theorem int_lexicographic_strings {S} (x y : Z) (s : S) : INT32_MIN <= x <= INT32_MAX -> INT32_MIN <= y <= INT32_MAX -> (x < 0 -> y < 0 -> INT32_MIN < x /\ INT32_MIN < y) ->
  exists sx sy, ToCString BUFF_SIZE_INT x s = (Ok sx, s) /\ ToCString BUFF_SIZE_INT y s = (Ok sy, s) /\
    IntLexicographicCompare x y s = (Ok (Z.sgn (lex sx sy)), s).
Proof.
  unfold INT32_MIN, INT32_MAX. intros Hx Hy Hneg.
  destruct (ToCString_run BUFF_SIZE_INT x s ltac:(unfold BUFF_SIZE_INT; lia)) as (ds & Rx & Hd & Ed & Ld & Md); [change (Z.of_nat (BUFF_SIZE_INT - 2)) with 10; lia|].
  destruct (ToCString_run BUFF_SIZE_INT y s ltac:(unfold BUFF_SIZE_INT; lia)) as (es & Ry & He & Ee & Le & Me); [change (Z.of_nat (BUFF_SIZE_INT - 2)) with 10; lia|].
  eexists _, _. split; [exact Rx|]. split; [exact Ry|]. unfold IntLexicographicCompare.
  assert (forall e, Forall digit (e : list Z) -> (1 <= length e)%nat -> exists c e', e = c :: e' /\ 48 <= c) as Hhead.
  { intros [|c e'] Hf Hl; [simpl in Hl; lia|]. exists c, e'. split; [done|]. apply Forall_cons_1 in Hf as [Hf _]. unfold digit in Hf. lia. }
  destruct (Hhead ds Hd Ld) as (c & ds' & Eds & Hc), (Hhead es He Le) as (c' & es' & Ees & Hc').
  destruct (Z.eqb_spec x y) as [->|Hne].
  { assert (ds = es) as -> by (pose proof (Rx) as R; rewrite Ry in R; destruct (0 <=? y); congruence). rewrite (proj2 (lex_eq _ _)) by done. done. }
  assert (forall m, m < 0 -> (0 <=? m) = false) as Hm by (intros; apply Z.leb_gt; lia).
  assert (forall m, 0 <= m -> (0 <=? m) = true) as Hp by (intros; apply Z.leb_le; lia).
  destruct (Z.eqb_spec x 0) as [->|Hx0]; [|destruct (Z.eqb_spec y 0) as [->|Hy0]]; cbn [orb].
  - change (0 <=? 0) with true. cbv iota. destruct (Z.ltb_spec y 0); [rewrite Hm, Eds by done; cbn [lex]; unfold NEG; zb; by rewrite Z.sgn_pos by lia|].
    rewrite Hp by lia. rewrite lex_zero; [done|done..|lia].
  - change (0 <=? 0) with true. cbv iota. destruct (Z.ltb_spec 0 x); [|rewrite Hm, Ees by lia; cbn [lex]; unfold NEG; zb; by rewrite Z.sgn_neg by lia].
    rewrite Hp, lex_opp, Z.sgn_opp by lia. rewrite lex_zero; [done|done..|lia].
  - destruct (Z.ltb_spec 0 y); [destruct (Z.ltb_spec x 0)|destruct (Z.ltb_spec 0 x)].
    + rewrite Hm, Hp, Ees by lia. cbn [lex]. unfold NEG. zb. by rewrite Z.sgn_neg by lia.
    + rewrite !Hp by lia. rewrite !u32_small by lia. mcbn. rewrite (compare_magnitudes_spec x y ds es); [done|lia|lia|done|lia|by rewrite Z.abs_eq in Md by lia|done|lia|by rewrite Z.abs_eq in Me by lia].
    + rewrite (Hp x), (Hm y), Eds by lia. cbn [lex]. unfold NEG. zb. by rewrite Z.sgn_pos by lia.
    + destruct (Hneg ltac:(lia) ltac:(lia)) as [Hxm Hym]. unfold negate, INT32_MIN. rewrite !Hm by lia. cbn [lex]. rewrite Z.eqb_refl. zb. mcbn. rewrite !u32_small by lia.
      rewrite (compare_magnitudes_spec (- x) (- y) ds es); [done|lia|lia|done|lia|by rewrite Z.abs_neq in Md by lia|done|lia|by rewrite Z.abs_neq in Me by lia].
Qed.

Lemma int_lexicographic_strings_witness :
  IntLexicographicCompare 9 10 tt = (Ok 1, tt) /\ IntLexicographicCompare (-12) (-5) tt = (Ok (-1), tt).
Proof.
  destruct (int_lexicographic_strings 9 10 tt) as (sx & sy & Hx & Hy & H1); [by vm_compute..|].
  destruct (int_lexicographic_strings (-12) (-5) tt) as (sx' & sy' & Hx' & Hy' & H2); [by vm_compute..|].
  vm_compute in Hx, Hy, Hx', Hy'. injection Hx as <-. injection Hy as <-. injection Hx' as <-. injection Hy' as <-. by rewrite H1, H2.
Defined.
End SortCompare.
