(* ===== verification/JSList.v ===== *)
(** * JSList: JSAPIList and its iterator.

    js_api_list.h, js_api_list.cpp, js_api_list_iterator.cpp, and the constructor
    and forEach of containers_list.cpp.

    The container is the address of its TaggedSingleList in the store, with the
    flag IsOrderedList that lets get read a node by its place.  Iterators and
    running callbacks keep the address that the container had when they began.
    The theorems say that the container implements a list; the flag is part of
    the abstract state, since there is one sequence of operations after which
    it is wrong. *)
From S2P Require Import Prelude TaggedValue TaggedArray EcmaString SortCompare TaggedList ListShape ListOps.
Local Open Scope Z_scope.

Module JSList.
Import TaggedList.

Record World : Type := mkWorld {
  lists : Store;
  GetSingleList : Z;
  IsOrderedList : bool;
}.

Definition on_store {A} (m : M Store A) : M World A := zoom lists (fun st w => mkWorld st (GetSingleList w) (IsOrderedList w)) m.

Definition SetSingleList (t : Z) : M World unit := modify (fun w => mkWorld (lists w) t (IsOrderedList w)).
Definition SetIsOrderedList (flag : bool) : M World unit := modify (fun w => mkWorld (lists w) (GetSingleList w) flag).

(** A call on the list that the container has now. *)
Definition on_list {A} (m : M TaggedArray A) : M World A :=
  t ← gets GetSingleList;
  on_store (on_table t m).

Definition CreateSingle (numberOfElements : Z) : M Store Z :=
  list ← CreateDerived TaggedSingleList numberOfElements;
  new_array list.

(** ListConstructor after the check of newTarget. *)
Definition ListConstructor : M World unit :=
  SetIsOrderedList true;;
  singleList ← on_store (CreateSingle DEFAULT_ARRAY_LENGHT);
  SetSingleList singleList.

Definition Add (value : JSTaggedValue) : M World unit :=
  t ← gets GetSingleList;
  newList ← on_store (TaggedList.Add TaggedSingleList t value);
  SetSingleList newList.

Definition GetFirst : M World JSTaggedValue :=
  res ← on_list TaggedList.GetFirst;
  mret (if IsHole res then VUndefined else res).

Definition GetLast : M World JSTaggedValue :=
  res ← on_list TaggedList.GetLast;
  mret (if IsHole res then VUndefined else res).

Definition Insert (value : JSTaggedValue) (index : Z) : M World bool :=
  t ← gets GetSingleList;
  nodeLength ← on_list TaggedList.Length;
  if (index <? 0) || (nodeLength <? index) then throw RANGE_ERROR
  else
    newList ← on_store (TaggedList.Insert TaggedSingleList t value index);
    SetSingleList newList;;
    (if negb (index =? nodeLength) then SetIsOrderedList false else mret tt);;
    mret true.

Definition Set_ (index : Z) (value : JSTaggedValue) : M World JSTaggedValue :=
  nodeLength ← on_list TaggedList.Length;
  if (index <? 0) || (nodeLength <=? index) then throw RANGE_ERROR
  else
    on_list (TaggedList.Set_ TaggedSingleList index value);;
    mret value.

Definition Length : M World Z := n ← on_list TaggedList.Length; mret (u32 n).

Definition IsEmpty : M World bool := on_list TaggedList.IsEmpty.

Definition Get (index : Z) : M World JSTaggedValue :=
  nodeLength ← on_list TaggedList.Length;
  if (index <? 0) || (nodeLength <=? index) then mret VUndefined
  else on_list (TaggedList.Get TaggedSingleList index).

Definition FastGet (index : Z) : M World JSTaggedValue :=
  length ← on_list TaggedList.Length;
  if (index <? 0) || (length <=? index) then mret VUndefined
  else
    let dataIndex := ELEMENTS_START_INDEX + (index + 1) * ENTRY_SIZE TaggedSingleList in
    ordered ← gets IsOrderedList;
    if negb ordered then
      singleList ← on_list get;
      newSingleList ← SortByNodeOrder TaggedSingleList singleList;
      t ← on_store (new_array newSingleList);
      SetSingleList t;;
      SetIsOrderedList true;;
      on_list (GetElement dataIndex)
    else on_list (GetElement dataIndex).

Definition Clear : M World unit :=
  n ← on_list NumberOfNodes;
  (if 0 <? n then on_list (TaggedList.Clear TaggedSingleList) else mret tt);;
  SetIsOrderedList true.

Definition RemoveByIndex (index : Z) : M World JSTaggedValue :=
  nodeLength ← on_list TaggedList.Length;
  if (index <? 0) || (nodeLength <=? index) then throw RANGE_ERROR
  else
    (if negb (index =? nodeLength - 1) then SetIsOrderedList false else mret tt);;
    on_list (TaggedList.RemoveByIndex TaggedSingleList index).

Definition ConvertToArray : M World (list JSTaggedValue) := on_list TaggedListToArray.

(** The new container: the address of its list, and its flag. *)
Definition GetSubList (fromIndex toIndex : Z) : M World (Z * bool) :=
  nodeLength ← on_list TaggedList.Length;
  let size := if toIndex <? nodeLength then toIndex else nodeLength in
  if (fromIndex <? 0) || (size <=? fromIndex) then throw RANGE_ERROR
  else if (toIndex <? 0) || (toIndex <=? fromIndex) || (nodeLength <? toIndex) then throw RANGE_ERROR
  else
    let len := u32 (ELEMENTS_START_INDEX + (toIndex - fromIndex + 1) * ENTRY_SIZE TaggedSingleList) in
    singleList ← on_list get;
    subSingleList ← build (Factory.NewTaggedArray len VHole) (TaggedList.GetSubList singleList fromIndex toIndex);
    t ← on_store (new_array subSingleList);
    mret (t, true).

Definition OwnKeys : M World (list Z) := on_list TaggedList.OwnKeys.

(** The key is the result of JSTaggedValue::ToElementIndex. *)
Definition GetOwnProperty (key : option Z) : M World bool :=
  match key with
  | None => throw TYPE_ERROR
  | Some index =>
      length ← on_list TaggedList.Length;
      if u32 length <=? index then throw RANGE_ERROR
      else Get (i32 index);; mret true
  end.

Definition GetProperty (index : Z) : M World JSTaggedValue :=
  nodeLength ← on_list TaggedList.Length;
  if (index <? 0) || (nodeLength <=? index) then throw RANGE_ERROR
  else on_list (TaggedList.Get TaggedSingleList index).

Definition SetProperty (index : Z) (value : JSTaggedValue) : M World bool :=
  nodeLength ← on_list TaggedList.Length;
  if (index <? 0) || (nodeLength <=? index) then mret false
  else on_list (TaggedList.Set_ TaggedSingleList index value);; mret true.

Section values.
Context (heap : Heap).

Definition Has (element : JSTaggedValue) : M World bool := on_list (TaggedList.Has heap element).
Definition GetIndexOf (element : JSTaggedValue) : M World Z := on_list (TaggedList.GetIndexOf heap element).
Definition GetLastIndexOf (element : JSTaggedValue) : M World Z := on_list (TaggedList.GetLastIndexOf heap element).

Definition Remove (element : JSTaggedValue) : M World bool :=
  t ← gets GetSingleList;
  SetIsOrderedList false;;
  on_store (on_table t (TaggedList.Remove TaggedSingleList heap element)).

(** The other container has its list at [compareList]. *)
Definition Equal (compareList : Z) : M World bool :=
  other ← on_store (on_table compareList get);
  on_list (TaggedList.Equal heap other).
End values.

(** ** The iterator *)

Record Iterator : Type := mkIterator { GetIteratedList : option Z; GetNextIndex : Z; GetDataIndex : Z }.

Definition NewJSAPIListIterator : M World Iterator :=
  t ← gets GetSingleList;
  mret (mkIterator (Some t) 0 ELEMENTS_START_INDEX).

(** JSAPIListIterator::Next; the iterator keeps the list that it began with. *)
Definition Next (iter : Iterator) : M World (option JSTaggedValue * Iterator) :=
  match GetIteratedList iter with
  | None => mret (None, iter)
  | Some singleList =>
      let index := i32 (GetNextIndex iter) in
      length ← on_store (on_table singleList TaggedList.Length);
      if length <=? index then mret (None, mkIterator None (GetNextIndex iter) (GetDataIndex iter))
      else
        let dataIndex := i32 (GetDataIndex iter) in
        '(first, second) ← on_store (on_table singleList (GetByDataIndex dataIndex));
        mret (Some second, mkIterator (Some singleList) (u32 (index + 1)) (u32 first))
  end.

(** ** Callbacks *)

(** The state is the container and what else the program changes; a callback may
    change both. *)
Section callbacks.
Context {E : Type}.

Definition on_world {A} (m : M World A) : M (World * E) A := zoom fst (fun w p => (w, snd p)) m.

(** A call on the list that the loop began with. *)
Definition at_list {A} (t : Z) (m : M TaggedArray A) : M (World * E) A := on_world (on_store (on_table t m)).

Section each.
Context (callbackFn : JSTaggedValue -> Z -> M (World * E) JSTaggedValue).

(** The loop of TaggedSingleList::ReplaceAllElements. *)
Fixpoint replace_nodes (taggedList : Z) (n : nat) (k dataIndex : Z) : M (World * E) unit :=
  match n with
  | O => mret tt
  | Datatypes.S n =>
      dataIndex ← at_list taggedList (GetNextDataIndex dataIndex);
      kValue ← at_list taggedList (GetElement dataIndex);
      funcResult ← callbackFn kValue k;
      at_list taggedList (TaggedList.Set_ TaggedSingleList k funcResult);;
      replace_nodes taggedList n (k + 1) dataIndex
  end.

Definition ReplaceAllElements : M (World * E) JSTaggedValue :=
  singleList ← on_world (gets GetSingleList);
  length ← at_list singleList NumberOfNodes;
  replace_nodes singleList (Z.to_nat length) 0 ELEMENTS_START_INDEX;;
  mret VUndefined.

(** The loop of ContainersList::ForEach. *)
Fixpoint foreach_nodes (singleList : Z) (n : nat) (index valueNode : Z) : M (World * E) unit :=
  match n with
  | O => mret tt
  | Datatypes.S n =>
      valueNode ← at_list singleList (GetNextDataIndex valueNode);
      value ← at_list singleList (GetElement valueNode);
      callbackFn value index;;
      foreach_nodes singleList n (index + 1) valueNode
  end.

Definition ForEach : M (World * E) JSTaggedValue :=
  singleList ← on_world (gets GetSingleList);
  length ← on_world Length;
  foreach_nodes singleList (Z.to_nat length) 0 ELEMENTS_START_INDEX;;
  mret VUndefined.
End each.

(** TaggedSingleList::Sort; [compare] is ArrayHelper::SortCompare with the
    compare function of the program. *)
Section sort.
Context (compare : JSTaggedValue -> JSTaggedValue -> M (World * E) dbl).
Context (taggedList : Z) (nodeIndexMapToDataIndex : list Z).

Definition node_value (i : Z) : M (World * E) JSTaggedValue := at_list taggedList (GetElement (nodeIndexMapToDataIndex !!! Z.to_nat i)).
Definition set_node (i : Z) (v : JSTaggedValue) : M (World * E) unit := at_list taggedList (SetElement (nodeIndexMapToDataIndex !!! Z.to_nat i) v).

(** The binary search for the place of presentValue. *)
Definition place_step (presentValue : JSTaggedValue) (vars : Z * Z) : M (World * E) (Z * Z + Z) :=
  let '(beginIndex, endIndex) := vars in
  if beginIndex <? endIndex then
    let middleIndex := Z.quot (beginIndex + endIndex) 2 in
    middleValue ← node_value middleIndex;
    compareResult ← compare middleValue presentValue;
    if double_ltb (double_of_int 0) compareResult then mret (inl (beginIndex, middleIndex))
    else mret (inl (middleIndex + 1, endIndex))
  else mret (inr endIndex).

Definition shift_node (j : Z) : M (World * E) unit :=
  previousValue ← node_value (j - 1);
  set_node j previousValue.

Definition sort_round (i : Z) : M (World * E) unit :=
  presentValue ← node_value i;
  endIndex ← while_fuel (Datatypes.S (Z.to_nat i)) (place_step presentValue) (0, i);
  if endIndex <? i then
    for_down (Z.to_nat (i - endIndex)) i shift_node;;
    set_node endIndex presentValue
  else mret tt.
End sort.

Definition SortList (compare : JSTaggedValue -> JSTaggedValue -> M (World * E) dbl) (taggedList : Z) : M (World * E) JSTaggedValue :=
  length ← at_list taggedList NumberOfNodes;
  on_world (ASSERT (0 <? length));;
  nodeIndexMapToDataIndex ← at_list taggedList (MapNodeIndexToDataIndex (Z.to_nat length) ELEMENTS_START_INDEX);
  for_range 1 length (sort_round compare taggedList nodeIndexMapToDataIndex);;
  mret VUndefined.

Definition Sort (compare : JSTaggedValue -> JSTaggedValue -> M (World * E) dbl) : M (World * E) JSTaggedValue :=
  singleList ← on_world (gets GetSingleList);
  on_world (SetIsOrderedList false);;
  SortList compare singleList.
End callbacks.

(** ** The abstract list *)

(** What is known of the places of the nodes.  Ordered: they are in the order of
    the list and none was removed, so that the next node comes behind them.
    Gap: in order, but some place behind them was used before.  Broken: the flag
    says that they are in order, and they need not be. *)
Inductive Mode : Type := Unordered | Ordered | Gap | Broken.

#[export] Instance Mode_eq : EqDecision Mode.
Proof. solve_decision. Defined.

Record Abs : Type := mkAbs { items : list JSTaggedValue; mode : Mode }.

Definition flag_of (m : Mode) : bool := match m with Unordered => false | _ => true end.

(** The mode after a node was added at the end. *)
Definition added (m : Mode) : Mode := match m with Gap => Broken | _ => m end.

(** The mode after the last node was removed. *)
Definition popped (m : Mode) : Mode := match m with Ordered => Gap | _ => m end.

Definition places_ok (m : Mode) (ns : list Z) (n d : Z) : Prop :=
  match m with
  | Ordered => d = 0 /\ ns = seqZ 1 n
  | Gap => ns = seqZ 1 n
  | _ => True
  end.

Notation list_at := (ListOps.list_at TaggedSingleList).
Notation at_ := (ListShape.at_ TaggedSingleList).
Notation holds := (ListShape.holds TaggedSingleList).

Definition repr (k : Z) (w : World) (s : Abs) : Prop :=
  exists ns d, list_at (lists w) (GetSingleList w) ns (items s) d /\ IsOrderedList w = flag_of (mode s) /\ places_ok (mode s) ns (lenZ (items s)) d /\
    Forall (fun v => v <> VHole) (items s) /\ lenZ (items s) <= k.

Inductive op : Type :=
| OpAdd (v : JSTaggedValue)
| OpInsert (v : JSTaggedValue) (i : Z)
| OpSet (i : Z) (v : JSTaggedValue)
| OpGet (i : Z)
| OpGetFirst
| OpGetLast
| OpHas (v : JSTaggedValue)
| OpIsEmpty
| OpLength
| OpIndexOf (v : JSTaggedValue)
| OpLastIndexOf (v : JSTaggedValue)
| OpClear
| OpRemoveByIndex (i : Z)
| OpRemove (v : JSTaggedValue)
| OpGetProperty (i : Z)
| OpSetProperty (i : Z) (v : JSTaggedValue)
| OpToArray
| OpSubList (fromIndex toIndex : Z)
| OpOwnKeys.

Inductive answer : Type :=
| AUnit
| AValue (v : JSTaggedValue)
| ABool (b : bool)
| ANum (z : Z)
| AList (l : list JSTaggedValue)
| AKeys (l : list Z).

Section ops.
Context (heap : Heap).

Definition exec (o : op) : M World answer :=
  match o with
  | OpAdd v => Add v;; mret AUnit
  | OpInsert v i => b ← Insert v i; mret (ABool b)
  | OpSet i v => r ← Set_ i v; mret (AValue r)
  | OpGet i => v ← FastGet i; mret (AValue v)
  | OpGetFirst => v ← GetFirst; mret (AValue v)
  | OpGetLast => v ← GetLast; mret (AValue v)
  | OpHas v => b ← Has heap v; mret (ABool b)
  | OpIsEmpty => b ← IsEmpty; mret (ABool b)
  | OpLength => n ← Length; mret (ANum n)
  | OpIndexOf v => n ← GetIndexOf heap v; mret (ANum n)
  | OpLastIndexOf v => n ← GetLastIndexOf heap v; mret (ANum n)
  | OpClear => Clear;; mret AUnit
  | OpRemoveByIndex i => v ← RemoveByIndex i; mret (AValue v)
  | OpRemove v => b ← Remove heap v; mret (ABool b)
  | OpGetProperty i => v ← GetProperty i; mret (AValue v)
  | OpSetProperty i v => b ← SetProperty i v; mret (ABool b)
  | OpToArray => l ← ConvertToArray; mret (AList l)
  | OpSubList fromIndex toIndex =>
      sub ← GetSubList fromIndex toIndex;
      l ← on_store (on_table sub.1 TaggedListToArray);
      mret (AList l)
  | OpOwnKeys => l ← OwnKeys; mret (AKeys l)
  end.

Definition inside (i : Z) (l : list JSTaggedValue) : bool := (0 <=? i) && (i <? lenZ l).

Definition spec (o : op) (s : Abs) : outcome answer * Abs :=
  let l := items s in
  let m := mode s in
  match o with
  | OpAdd v => (Ok AUnit, mkAbs (l ++ [v]) (added m))
  | OpInsert v i =>
      if (0 <=? i) && (i <=? lenZ l)
      then (Ok (ABool true), mkAbs (take (Z.to_nat i) l ++ v :: drop (Z.to_nat i) l) (if i =? lenZ l then added m else Unordered))
      else (Throw RANGE_ERROR, s)
  | OpSet i v => if inside i l then (Ok (AValue v), mkAbs (<[Z.to_nat i := v]> l) m) else (Throw RANGE_ERROR, s)
  | OpGet i =>
      if inside i l then (Ok (AValue (default VUndefined (l !! Z.to_nat i))), mkAbs l (match m with Unordered => Ordered | _ => m end))
      else (Ok (AValue VUndefined), s)
  | OpGetFirst => (Ok (AValue (default VUndefined (l !! 0%nat))), s)
  | OpGetLast => (Ok (AValue (default VUndefined (list.last l))), s)
  | OpHas v => (Ok (ABool (existsb (fun x => SameValue heap x v) l)), s)
  | OpIsEmpty => (Ok (ABool (lenZ l =? 0)), s)
  | OpLength => (Ok (ANum (lenZ l)), s)
  | OpIndexOf v => (Ok (ANum (default (-1) (find_index (fun x => SameValue heap x v) l))), s)
  | OpLastIndexOf v => (Ok (ANum (default (-1) (find_last_index (fun x => SameValue heap x v) l))), s)
  | OpClear => (Ok AUnit, mkAbs [] (match l, m with [], (Gap | Broken | Unordered) => Gap | _, _ => Ordered end))
  | OpRemoveByIndex i =>
      if inside i l
      then (Ok (AValue (default VUndefined (l !! Z.to_nat i))), mkAbs (delete (Z.to_nat i) l) (if i =? lenZ l - 1 then popped m else Unordered))
      else (Throw RANGE_ERROR, s)
  | OpRemove v =>
      match find_index (fun x => SameValue heap x v) l with
      | Some i => (Ok (ABool true), mkAbs (delete (Z.to_nat i) l) Unordered)
      | None => (Ok (ABool false), mkAbs l Unordered)
      end
  | OpGetProperty i => if inside i l then (Ok (AValue (default VUndefined (l !! Z.to_nat i))), s) else (Throw RANGE_ERROR, s)
  | OpSetProperty i v => if inside i l then (Ok (ABool true), mkAbs (<[Z.to_nat i := v]> l) m) else (Ok (ABool false), s)
  | OpToArray => (Ok (AList l), s)
  | OpSubList fromIndex toIndex =>
      if (0 <=? fromIndex) && (fromIndex <? toIndex) && (toIndex <=? lenZ l)
      then (Ok (AList (take (Z.to_nat (toIndex - fromIndex)) (drop (Z.to_nat fromIndex) l))), s)
      else (Throw RANGE_ERROR, s)
  | OpOwnKeys => (Ok (AKeys (seqZ 0 (lenZ l))), s)
  end.

(** get is left out where the flag is wrong. *)
Definition guard (o : op) (s : Abs) : bool :=
  match o with
  | OpGet i => negb (inside i (items s)) || negb (bool_decide (mode s = Broken))
  | _ => true
  end.

(** The values that are stored or searched for are values of the language. *)
Definition op_ok (o : op) : Prop :=
  match o with
  | OpAdd v | OpInsert v _ | OpSet _ v | OpSetProperty _ v | OpHas v | OpIndexOf v | OpLastIndexOf v | OpRemove v => v <> VHole
  | _ => True
  end.

(** ** Running the operations *)

Lemma SameValue_hole (v : JSTaggedValue) : v <> VHole -> SameValue heap VHole v = false.
Proof. intros Hv. unfold SameValue. destruct v; try done. Qed.

Lemma on_list_run {A} (st : Store) (t : Z) (b : bool) (a a' : TaggedArray) (m : M TaggedArray A) (r : A) :
  st !! Z.to_nat t = Some a -> m a = (Ok r, a') -> on_list m (mkWorld st t b) = (Ok r, mkWorld (<[Z.to_nat t := a']> st) t b).
Proof. intros Ha Hm. unfold on_list, on_store. mcbn. cbn [lists GetSingleList]. by rewrite (on_table_run st t a a' m r Ha Hm). Qed.

Lemma on_list_read {A} (st : Store) (t : Z) (b : bool) (a : TaggedArray) (m : M TaggedArray A) (r : A) :
  st !! Z.to_nat t = Some a -> m a = (Ok r, a) -> on_list m (mkWorld st t b) = (Ok r, mkWorld st t b).
Proof. intros Ha Hm. rewrite (on_list_run _ _ _ _ _ _ _ Ha Hm). by rewrite list_insert_id. Qed.

Lemma single_store_run {A} (st st' : Store) (t : Z) (b : bool) (m : M Store A) (r : A) : m st = (Ok r, st') -> on_store m (mkWorld st t b) = (Ok r, mkWorld st' t b).
Proof. intros Hm. unfold on_store. mcbn. cbn [lists]. by rewrite Hm. Qed.

Lemma list_at_set (st : Store) (t : Z) (a' : TaggedArray) (ns' : list Z) (l' : list JSTaggedValue) (d' : Z) :
  0 <= t < lenZ st -> holds a' ns' l' d' -> list_at (<[Z.to_nat t := a']> st) t ns' l' d'.
Proof. intros Ht H'. exists a'. split; [unfold lenZ in *; by rewrite length_insert|]. split; [|done]. apply list_lookup_insert_eq. unfold lenZ in Ht. lia. Qed.

Lemma list_at_app (st : Store) (t : Z) (b : TaggedArray) (ns : list Z) (l : list JSTaggedValue) (d : Z) : list_at st t ns l d -> list_at (st ++ [b]) t ns l d.
Proof. intros (a & Ht & Ha & H). exists a. split; [lenz|]. split; [|done]. by apply lookup_app_l_Some. Qed.

Lemma repr_mono (k k' : Z) (w : World) (s : Abs) : repr k w s -> k <= k' -> repr k' w s.
Proof. intros (ns & d & Hat & Hf & Hp & Hh & Hk) Hle. exists ns, d. split_and!; try done. lia. Qed.

(** A changed list in place of the old one. *)
Lemma repr_set (k : Z) (st : Store) (t : Z) (b : bool) (a' : TaggedArray) (ns' : list Z) (l' : list JSTaggedValue) (m : Mode) (d' : Z) :
  0 <= t < lenZ st -> holds a' ns' l' d' -> b = flag_of m -> places_ok m ns' (lenZ l') d' -> Forall (fun v => v <> VHole) l' -> lenZ l' <= k ->
  repr k (mkWorld (<[Z.to_nat t := a']> st) t b) (mkAbs l' m).
Proof. intros Ht H' Hb Hp Hh Hk. exists ns', d'. split_and!; try done. by apply list_at_set. Qed.

Lemma inside_spec (i : Z) (l : list JSTaggedValue) : ((i <? 0) || (lenZ l <=? i)) = negb (inside i l).
Proof. unfold inside. rewrite negb_andb, Z.ltb_antisym, <- Z.leb_antisym. done. Qed.

Lemma holds_len_nil {a : TaggedArray} {ns : list Z} {d : Z} : holds a ns [] d -> ns = [].
Proof. intros H. apply lenZ_zero. by rewrite (ListShape.holds_len _ _ _ _ _ H). Qed.

Section steps.
Context {k : Z} {st : Store} {t : Z} {b : bool} {s : Abs} {a : TaggedArray} {ns : list Z} {d : Z}.
Context (Ht : 0 <= t < lenZ st) (Ha : st !! Z.to_nat t = Some a) (H : holds a ns (items s) d) (Hb : b = flag_of (mode s)).
Context (Hp : places_ok (mode s) ns (lenZ (items s)) d) (Hh : Forall (fun v => v <> VHole) (items s)) (Hk : lenZ (items s) <= k) (Hbound : 0 <= k < 2 ^ 28).
Notation w := (mkWorld st t b).
Notation l := (items s).

Definition answers (o : op) : Prop := exists w', exec o w = ((spec o s).1, w') /\ repr (k + 1) w' (spec o s).2.

Lemma repr_here : repr (k + 1) w s.
Proof. exists ns, d. split_and!; try done; [by exists a|lia]. Qed.

Lemma read_answers (o : op) (r : answer) : spec o s = (Ok r, s) -> exec o w = (Ok r, w) -> answers o.
Proof. intros Hs He. exists w. rewrite Hs, He. split; [done|]. apply repr_here. Qed.

Lemma throw_answers (o : op) (e : ErrorFlag) : spec o s = (Throw e, s) -> exec o w = (Throw e, w) -> answers o.
Proof. intros Hs He. exists w. rewrite Hs, He. split; [done|]. apply repr_here. Qed.

Lemma len_run : on_list TaggedList.Length w = (Ok (lenZ l), w).
Proof. apply (on_list_read _ _ _ _ _ _ Ha (ListShape.NumberOfNodes_run _ H)). Qed.

Lemma Add_answers (v : JSTaggedValue) : v <> VHole -> answers (OpAdd v).
Proof.
  intros Hv. destruct (ListOps.list_Add_run TaggedSingleList st t ns l d v) as (st' & t' & ns' & d' & Hrun & Hat & Hpl & _); [by exists a|lia|].
  eexists. split.
  { unfold exec, Add. rewrite <- bind_assoc. mstep. rewrite <- bind_assoc. mstep with (single_store_run _ _ t b _ _ Hrun). mstep. reflexivity. }
  exists ns', d'. cbn [spec snd lists GetSingleList IsOrderedList items mode]. assert (lenZ (l ++ [v]) = lenZ l + 1) as Hl by lenz.
  split; [done|]. split; [rewrite Hb; by destruct (mode s)|]. split; [|split; [apply Forall_app; split; [done|by repeat constructor]|lia]].
  rewrite Hl. destruct (mode s); try done. destruct Hp as [-> ->]. destruct (proj2 Hpl eq_refl) as [-> Hns]. split; [done|]. by apply Hns.
Qed.

Lemma Insert_answers (v : JSTaggedValue) (i : Z) : v <> VHole -> answers (OpInsert v i).
Proof.
  intros Hv. destruct ((0 <=? i) && (i <=? lenZ l)) eqn:Hi.
  - apply andb_prop in Hi as Hi'. destruct Hi' as [Hi0%Z.leb_le Hin%Z.leb_le].
    destruct (split_len l i ltac:(lia)) as (l1 & l2 & Hl & Hl1). 
    destruct (ListOps.list_Insert_run TaggedSingleList st t ns l1 l2 d v) as (st' & t' & ns' & d' & Hrun & Hat & Hpl & _); [rewrite <- Hl; by exists a|rewrite <- Hl; lia|].
    assert (take (Z.to_nat i) l ++ v :: drop (Z.to_nat i) l = l1 ++ v :: l2) as Hspec.
    { rewrite Hl. unfold lenZ in Hl1. rewrite take_app_length', drop_app_length' by lia. done. }
    rewrite Hl1 in Hrun. assert (Insert v i w = (Ok true, mkWorld st' t' (if i =? lenZ l then b else false))) as Hr.
    { unfold Insert. mstep. mstep with len_run. rewrite (proj2 (Z.ltb_ge i 0)), (proj2 (Z.ltb_ge (lenZ l) i)) by lia. cbn [orb]. mstep with (single_store_run _ _ t b _ _ Hrun). mstep. by destruct (i =? lenZ l). }
    unfold answers. cbn [spec]. rewrite Hi, Hspec. eexists. split; [unfold exec; by mstep with Hr|].
    exists ns', d'. destruct (Z.eqb_spec i (lenZ l)) as [He|Hne]; cbn [negb lists GetSingleList IsOrderedList items mode fst snd].
    + assert (l2 = []) as -> by (apply lenZ_zero; rewrite Hl in He; lenz). split; [done|]. split; [rewrite Hb; by destruct (mode s)|].
      rewrite Hl, app_nil_r in *. split; [|split; [apply Forall_app; split; [done|by repeat constructor]|lenz]]. replace (lenZ (l1 ++ [v])) with (lenZ l1 + 1) by lenz.
      destruct (mode s); try done. destruct Hp as [-> ->]. destruct (proj2 Hpl eq_refl) as [-> Hns]. split; [done|]. by apply Hns.
    + split; [done|]. split; [done|]. split; [done|]. rewrite Hl in Hh, Hk. apply Forall_app in Hh as [Hh1 Hh2]. split; [apply Forall_app; split; [done|by constructor]|lenz].
  - apply (throw_answers _ RANGE_ERROR); [cbn [spec]; by rewrite Hi|]. unfold exec. erewrite bind_Throw; [done|].
    unfold Insert. mstep. mstep with len_run. apply andb_false_iff in Hi as [Hi%Z.leb_gt|Hi%Z.leb_gt]; [by zb|]. rewrite (proj2 (Z.ltb_lt (lenZ l) i)) by lia. by rewrite orb_true_r.
Qed.

Lemma inside_bounds (i : Z) : inside i l = true -> 0 <= i < lenZ l.
Proof. unfold inside. intros [Hi%Z.leb_le Hn%Z.ltb_lt]%andb_prop. done. Qed.

(** Writing a value; Set_ and SetProperty. *)
Lemma set_answers (i : Z) (v : JSTaggedValue) : v <> VHole -> inside i l = true ->
  exists w', on_list (TaggedList.Set_ TaggedSingleList i v) w = (Ok tt, w') /\ repr (k + 1) w' (mkAbs (<[Z.to_nat i := v]> l) (mode s)).
Proof.
  intros Hv Hi%inside_bounds. assert (lenZ (<[Z.to_nat i := v]> l) = lenZ l) as Hl by (unfold lenZ; by rewrite length_insert).
  eexists. split; [apply (on_list_run _ _ _ _ _ _ _ Ha (ListOps.list_Set_run _ H i v Hi))|].
  apply (repr_set (k + 1) st t b _ ns _ (mode s) d Ht (ListOps.set_value _ H i v Hi) Hb); rewrite ?Hl; [done| |lia]. by apply Forall_insert.
Qed.

Lemma Set_answers (i : Z) (v : JSTaggedValue) : v <> VHole -> answers (OpSet i v).
Proof.
  intros Hv. destruct (inside i l) eqn:Hi.
  - destruct (set_answers i v Hv Hi) as (w' & Hr & HR). exists w'. cbn [spec]. rewrite Hi. split; [|done].
    unfold exec. erewrite bind_Ok; [done|]. unfold Set_. mstep with len_run. rewrite inside_spec, Hi. cbn [negb]. by mstep with Hr.
  - apply (throw_answers _ RANGE_ERROR); [cbn [spec]; by rewrite Hi|]. unfold exec. erewrite bind_Throw; [done|]. unfold Set_. mstep with len_run. by rewrite inside_spec, Hi.
Qed.

Lemma SetProperty_answers (i : Z) (v : JSTaggedValue) : v <> VHole -> answers (OpSetProperty i v).
Proof.
  intros Hv. destruct (inside i l) eqn:Hi.
  - destruct (set_answers i v Hv Hi) as (w' & Hr & HR). exists w'. cbn [spec]. rewrite Hi. split; [|done].
    unfold exec. erewrite bind_Ok; [done|]. unfold SetProperty. mstep with len_run. rewrite inside_spec, Hi. cbn [negb]. by mstep with Hr.
  - apply (read_answers _ (ABool false)); [cbn [spec]; by rewrite Hi|]. unfold exec. erewrite bind_Ok; [done|]. unfold SetProperty. mstep with len_run. by rewrite inside_spec, Hi.
Qed.

Lemma item_at (i : Z) : inside i l = true -> on_list (TaggedList.Get TaggedSingleList i) w = (Ok (default VUndefined (l !! Z.to_nat i)), w).
Proof. intros Hi%inside_bounds. apply (on_list_read _ _ _ _ _ _ Ha). by apply (ListOps.list_Get_run _ H). Qed.

Lemma GetProperty_answers (i : Z) : answers (OpGetProperty i).
Proof.
  destruct (inside i l) eqn:Hi.
  - eapply read_answers; [cbn [spec]; by rewrite Hi|]. unfold exec. erewrite bind_Ok; [done|]. unfold GetProperty. mstep with len_run. rewrite inside_spec, Hi. by apply item_at.
  - apply (throw_answers _ RANGE_ERROR); [cbn [spec]; by rewrite Hi|]. unfold exec. erewrite bind_Throw; [done|]. unfold GetProperty. mstep with len_run. by rewrite inside_spec, Hi.
Qed.

(** get: by the place of the node, after the nodes were put in order. *)
Lemma FastGet_answers (i : Z) : guard (OpGet i) s = true -> answers (OpGet i).
Proof.
  cbn [guard]. intros Hg. destruct (inside i l) eqn:Hi; cbn [negb orb] in Hg.
  2: { apply (read_answers _ (AValue VUndefined)); [cbn [spec]; by rewrite Hi|]. unfold exec. erewrite bind_Ok; [done|]. unfold FastGet. mstep with len_run. by rewrite inside_spec, Hi. }
  apply negb_true_iff, bool_decide_eq_false in Hg. apply inside_bounds in Hi as Hi'.
  assert (forall b0 (H0 : holds b0 (seqZ 1 (lenZ l)) l 0 \/ (holds b0 ns l d /\ ns = seqZ 1 (lenZ l))),
    GetElement (at_ (i + 1)) b0 = (Ok (default VUndefined (l !! Z.to_nat i)), b0)) as Hread.
  { intros b0 H0. destruct (lookup_lt_is_Some_2 l (Z.to_nat i)) as [v Hv]; [unfold lenZ in Hi'; lia|]. rewrite Hv.
    assert (ListShape.nd (seqZ 1 (lenZ l)) (i + 1) = i + 1) as Hnd by (rewrite ListShape.nd_seq by lia; by zb).
    destruct H0 as [H0|[H0 Hns]]; rewrite <- Hnd; [|rewrite <- Hns]; apply (ListShape.val_run _ H0); (lia || done). }
  unfold answers. cbn [spec]. rewrite Hi. cbn [fst snd]. unfold exec.
  destruct (decide (mode s = Unordered)) as [Hm|Hm].
  - destruct (ListOps.SortByNodeOrder_run a ns l d w H ltac:(lia)) as (b0 & Hsort & H0).
    exists (mkWorld (st ++ [b0]) (lenZ st) true). split.
    + erewrite bind_Ok; [done|]. unfold FastGet. mstep with len_run. rewrite inside_spec, Hi. cbn [negb]. mstep. replace (IsOrderedList w) with false by (cbn; by rewrite Hb, Hm). cbn [negb].
      mstep with (on_list_read st t b a get a Ha eq_refl). mstep with Hsort. mstep with (single_store_run st (st ++ [b0]) t b (new_array b0) (lenZ st) eq_refl). mstep. mstep.
      apply (on_list_read (st ++ [b0]) (lenZ st) true b0); [apply list_lookup_middle; unfold lenZ; lia|]. apply Hread. by left.
    + exists (seqZ 1 (lenZ l)), 0. rewrite Hm. cbn [lists GetSingleList IsOrderedList items mode flag_of places_ok]. split_and!; try done; [|lia].
      exists b0. split; [lenz|]. split; [apply list_lookup_middle; unfold lenZ; lia|done].
  - exists w. split.
    + erewrite bind_Ok; [done|]. unfold FastGet. mstep with len_run. rewrite inside_spec, Hi. cbn [negb]. mstep. replace (IsOrderedList w) with true by (cbn; rewrite Hb; by destruct (mode s)). cbn [negb].
      apply (on_list_read _ _ _ _ _ _ Ha), Hread. right. split; [done|]. destruct (mode s); try done. apply Hp.
    + replace (mkAbs l _) with s; [apply repr_here|]. destruct s as [l0 m0]. simpl in *. f_equal. by destruct m0.
Qed.

Lemma GetFirst_answers : answers OpGetFirst.
Proof.
  eapply read_answers; [done|]. unfold exec. erewrite bind_Ok; [done|]. unfold GetFirst. mstep with (on_list_read st t b a _ _ Ha (ListOps.GetFirst_run _ H)).
  destruct l as [|v l'] eqn:E; [done|]. apply Forall_cons_1 in Hh as [Hv _]. simpl. by destruct v.
Qed.

Lemma GetLast_answers : answers OpGetLast.
Proof.
  eapply read_answers; [done|]. unfold exec. erewrite bind_Ok; [done|]. unfold GetLast. mstep with (on_list_read st t b a _ _ Ha (ListOps.GetLast_run _ H)).
  destruct (list.last l) as [v|] eqn:E; [|done]. simpl. apply last_Some in E as [l' E]. rewrite E in Hh. apply Forall_app in Hh as [_ [Hv _]%Forall_cons_1]. by destruct v.
Qed.

Lemma Has_answers (v : JSTaggedValue) : answers (OpHas v).
Proof.
  eapply read_answers; [done|]. unfold exec. erewrite bind_Ok; [done|]. apply (on_list_read _ _ _ _ _ _ Ha). unfold TaggedList.Has. mstep with (ListShape.FindIndexByElement_run _ H heap v).
  rewrite existsb_find_index. pose proof (ListShape.find_index_at (fun x => SameValue heap x v) l) as Hf. destruct (find_index _ l) as [i|]; [|done]. simpl. by zb.
Qed.

Lemma RemoveByIndex_answers (i : Z) : answers (OpRemoveByIndex i).
Proof.
  destruct (inside i l) eqn:Hi.
  2: { apply (throw_answers _ RANGE_ERROR); [cbn [spec]; by rewrite Hi|]. unfold exec. erewrite bind_Throw; [done|]. unfold RemoveByIndex. mstep with len_run. by rewrite inside_spec, Hi. }
  apply inside_bounds in Hi as Hi'. destruct (lookup_lt_is_Some_2 l (Z.to_nat i)) as [v Hv]; [unfold lenZ in Hi'; lia|].
  destruct (ListOps.RemoveByIndex_run _ H i v ltac:(lia) Hv) as (a' & Hrun & _ & H'). assert (lenZ (delete (Z.to_nat i) l) = lenZ l - 1) as Hl by (unfold lenZ in *; rewrite length_delete; lia || done).
  unfold answers. cbn [spec]. rewrite Hi, Hv. cbn [fst snd default]. eexists. split.
  - unfold exec. erewrite bind_Ok; [done|]. unfold RemoveByIndex. mstep with len_run. rewrite inside_spec, Hi. cbn [negb].
    assert ((if negb (i =? lenZ l - 1) then SetIsOrderedList false else mret tt) w = (Ok tt, mkWorld st t (if i =? lenZ l - 1 then b else false))) as Hfl by (by destruct (i =? lenZ l - 1)).
    mstep with Hfl.
    apply (on_list_run _ _ _ _ _ _ _ Ha Hrun).
  - apply (repr_set _ _ _ _ _ _ _ _ _ Ht H'); rewrite ?Hl; [| |by apply Forall_delete|lia].
    + destruct (i =? lenZ l - 1); [|done]. rewrite Hb. by destruct (mode s).
    + destruct (Z.eqb_spec i (lenZ l - 1)) as [->|]; [|done].
      assert (ns = seqZ 1 (lenZ l) -> delete (Z.to_nat (lenZ l - 1)) ns = seqZ 1 (lenZ l - 1)) as Hd.
      { intros ->. replace (lenZ l) with (lenZ l - 1 + 1) at 2 by lia. rewrite <- ListOps.seqZ_snoc by lia. rewrite ListOps.delete_middle_at; [by rewrite app_nil_r|]. rewrite length_seqZ. done. }
      destruct (mode s); try done; [destruct Hp as [_ Hns]|]; cbn [popped places_ok]; auto.
Qed.

Lemma Remove_answers (v : JSTaggedValue) : v <> VHole -> answers (OpRemove v).
Proof.
  intros Hv. destruct (ListOps.list_Remove_run _ H heap v (SameValue_hole v Hv)) as (a' & ns' & Hrun & H').
  assert (exec (OpRemove v) w = (Ok (ABool (match find_index (fun x => SameValue heap x v) l with Some _ => true | None => false end)), mkWorld (<[Z.to_nat t := a']> st) t false)) as He.
  { unfold exec. erewrite bind_Ok; [done|]. unfold Remove. mstep. mstep. apply single_store_run, (on_table_run _ _ _ _ _ _ Ha Hrun). }
  unfold answers. rewrite He. cbn [spec]. pose proof (ListShape.find_index_at (fun x => SameValue heap x v) l) as Hf. destruct (find_index _ l) as [i|].
  - eexists. split; [done|]. destruct Hf as [Hi _]. apply (repr_set _ _ _ _ _ _ _ _ _ Ht H'); [done|done|by apply Forall_delete|]. pose proof (lenZ_delete_le l (Z.to_nat i)). lia.
  - eexists. split; [done|]. destruct H' as [-> ->]. apply (repr_set _ _ _ _ _ _ _ _ _ Ht H); [done|done|done|lia].
Qed.

Lemma Clear_answers : answers OpClear.
Proof.
  unfold answers. cbn [spec fst snd]. assert (on_list NumberOfNodes w = (Ok (lenZ l), w)) as Hn by apply len_run. pose proof (lenZ_nonneg l).
  destruct (Z.ltb_spec 0 (lenZ l)) as [Hpos|Hz].
  - destruct (ListOps.list_Clear_run _ H) as (a' & Hrun & _ & H'). exists (mkWorld (<[Z.to_nat t := a']> st) t true). split.
    + unfold exec. erewrite bind_Ok; [done|]. unfold Clear. mstep with Hn. zb. mstep with (on_list_run _ _ b _ _ _ _ Ha Hrun). done.
    + destruct l as [|v l'] eqn:E; [lenz|]. apply (repr_set _ _ _ _ _ [] _ _ 0 Ht H'); try done. lenz.
  - assert (l = []) as E by (apply lenZ_zero; lia). exists (mkWorld st t true). split.
    + unfold exec. erewrite bind_Ok; [done|]. unfold Clear. mstep with Hn. zb. by mstep.
    + rewrite E in *. pose proof (holds_len_nil H) as ->. exists [], d. cbn [lists GetSingleList IsOrderedList items mode]. split; [by exists a|].
      split; [by destruct (mode s)|]. split; [|split; [done|lenz]]. destruct (mode s); done.
Qed.

Lemma SubList_answers (f u : Z) : answers (OpSubList f u).
Proof.
  destruct ((0 <=? f) && (f <? u) && (u <=? lenZ l)) eqn:Hi.
  - apply andb_prop in Hi as Hi'. destruct Hi' as [[Hf%Z.leb_le Hfu%Z.ltb_lt]%andb_prop Hu%Z.leb_le].
    destruct (ListOps.GetSubList_run H (conj Hf Hfu) Hu) as (b' & Hrun & H').
    exists (mkWorld (st ++ [b']) t b). cbn [spec]. rewrite Hi. cbn [fst snd]. split.
    + unfold exec. assert (GetSubList f u w = (Ok (lenZ st, true), mkWorld (st ++ [b']) t b)) as Hg.
      { unfold GetSubList. mstep with len_run. assert ((if u <? lenZ l then u else lenZ l) = u) as -> by (destruct (Z.ltb_spec u (lenZ l)); lia).
        rewrite (proj2 (Z.ltb_ge f 0)), (proj2 (Z.leb_gt u f)), (proj2 (Z.ltb_ge u 0)), (proj2 (Z.ltb_ge (lenZ l) u)) by lia. cbn [orb].
        mstep with (on_list_read st t b a get a Ha eq_refl). rewrite u32_small by (unfold ENTRY_SIZE, ELEMENTS_START_INDEX; lia). fold (at_ (u - f + 1)).
        erewrite bind_Ok by (by apply build_run). by mstep with (single_store_run st (st ++ [b']) t b (new_array b') (lenZ st) eq_refl). }
      mstep with Hg. cbn [fst]. erewrite bind_Ok; [done|]. apply single_store_run. apply (on_table_read _ _ b').
      * apply list_lookup_middle. unfold lenZ. lia.
      * apply (ListOps.TaggedListToArray_run _ H'). unfold lenZ in *. rewrite length_take, length_drop. lia.
    + exists ns, d. cbn [lists GetSingleList IsOrderedList]. split_and!; try done; [|lia]. apply list_at_app. by exists a.
  - apply (throw_answers _ RANGE_ERROR); [cbn [spec]; by rewrite Hi|]. unfold exec. erewrite bind_Throw; [done|]. unfold GetSubList. mstep with len_run.
    destruct (Z.ltb_spec u (lenZ l)); destruct (Z.ltb_spec f 0); cbn [orb]; try done.
    + destruct (Z.leb_spec u f); [done|]. exfalso. revert Hi. zb. done.
    + destruct (Z.leb_spec (lenZ l) f); [done|]. destruct (Z.ltb_spec u 0); [done|]. destruct (Z.leb_spec u f); [done|]. cbn [orb]. destruct (Z.ltb_spec (lenZ l) u); [done|]. exfalso. revert Hi. by zb.
Qed.
End steps.

Lemma step_refines (o : op) (k : Z) (w : World) (s : Abs) : repr k w s -> op_ok o -> guard o s = true -> 0 <= k < 2 ^ 28 ->
  exists w', exec o w = ((spec o s).1, w') /\ repr (k + 1) w' (spec o s).2.
Proof.
  intros (ns & d & (a & Ht & Ha & H) & Hf & Hp & Hh & Hk) Hok Hg Hb. destruct w as [st t b]. cbn [lists GetSingleList IsOrderedList] in *.
  change (answers (k := k) (st := st) (t := t) (b := b) (s := s) o). destruct o; simpl in Hok.
  - by eapply Add_answers.
  - by eapply Insert_answers.
  - by eapply Set_answers.
  - by eapply FastGet_answers.
  - by eapply GetFirst_answers.
  - by eapply GetLast_answers.
  - by eapply Has_answers.
  - eapply read_answers; try done. unfold exec. erewrite bind_Ok; [done|]. apply (on_list_read _ _ _ _ _ _ Ha). unfold TaggedList.IsEmpty. by mstep with (ListShape.NumberOfNodes_run _ H).
  - eapply read_answers; try done. unfold exec. erewrite bind_Ok; [done|]. unfold Length. mstep with (on_list_read st t b _ _ _ Ha (ListShape.NumberOfNodes_run _ H)). pose proof (lenZ_nonneg (items s)). by rewrite u32_small by lia.
  - eapply read_answers; try done. unfold exec. erewrite bind_Ok; [done|]. apply (on_list_read _ _ _ _ _ _ Ha), (ListShape.FindIndexByElement_run _ H).
  - eapply read_answers; try done. unfold exec. erewrite bind_Ok; [done|]. apply (on_list_read _ _ _ _ _ _ Ha), (ListShape.FindLastIndexByElement_run _ H).
  - by eapply Clear_answers.
  - by eapply RemoveByIndex_answers.
  - by eapply Remove_answers.
  - by eapply GetProperty_answers.
  - by eapply SetProperty_answers.
  - eapply read_answers; try done. unfold exec. erewrite bind_Ok; [done|]. apply (on_list_read _ _ _ _ _ _ Ha), (ListOps.TaggedListToArray_run _ H). lia.
  - by eapply SubList_answers.
  - eapply read_answers; try done. unfold exec. erewrite bind_Ok; [done|]. apply (on_list_read _ _ _ _ _ _ Ha). unfold TaggedList.OwnKeys. mstep with (ListShape.NumberOfNodes_run _ H). pose proof (lenZ_nonneg (items s)). by rewrite u32_small by lia.
Qed.

Lemma ListConstructor_repr (st : Store) (t : Z) (b : bool) : exists w, ListConstructor (mkWorld st t b) = (Ok tt, w) /\ repr 0 w (mkAbs [] Ordered).
Proof.
  destruct (ListShape.CreateDerived_run TaggedSingleList DEFAULT_ARRAY_LENGHT st ltac:(done)) as (a & Hrun & _ & H).
  exists (mkWorld (st ++ [a]) (lenZ st) true). split.
  - unfold ListConstructor. mstep. assert (CreateSingle DEFAULT_ARRAY_LENGHT st = (Ok (lenZ st), st ++ [a])) as Hc by (unfold CreateSingle; by mstep with Hrun).
    by mstep with (single_store_run st (st ++ [a]) t true _ _ Hc).
  - exists [], 0. cbn [lists GetSingleList IsOrderedList items mode]. split_and!; try done. exists a. split; [lenz|]. split; [|done]. apply list_lookup_middle. unfold lenZ. lia.
Qed.

(** C7: A new List answers every sequence of operations as the list of the
    specification does, errors included, as long as get is not called where the
    flag of the order is wrong. *)
Theorem list_refines_list (os : list op) : Forall op_ok os -> guarded spec guard os (mkAbs [] Ordered) = true -> lenZ os <= 2 ^ 28 ->
  exists w, ListConstructor (mkWorld [] 0 false) = (Ok tt, w) /\ (run_ops exec os w).1 = (run_ops spec os (mkAbs [] Ordered)).1.
Proof.
  intros Hok Hg Hl. destruct (ListConstructor_repr [] 0 false) as (w & Hw & HR). exists w. split; [done|].
  apply (run_ops_guarded exec spec guard repr op_ok (2 ^ 28) step_refines os 0 w _ HR Hok Hg); lia.
Qed.
End ops.

Lemma list_refines_list_witness :
  exists w, ListConstructor (mkWorld [] 0 false) = (Ok tt, w) /\
    (run_ops (exec sample_heap) [OpAdd (VInt 1); OpInsert (VInt 2) 0; OpGet 1; OpRemove (VInt 2); OpRemoveByIndex 4; OpToArray] w).1
    = [Ok AUnit; Ok (ABool true); Ok (AValue (VInt 1)); Ok (ABool true); Throw RANGE_ERROR; Ok (AList [VInt 1])].
Proof.
  destruct (list_refines_list sample_heap [OpAdd (VInt 1); OpInsert (VInt 2) 0; OpGet 1; OpRemove (VInt 2); OpRemoveByIndex 4; OpToArray]) as (w & Hw & Hr);
    [by repeat constructor|by vm_compute|by vm_compute|]. exists w. split; [exact Hw|]. rewrite Hr. by vm_compute.
Defined.

(** Removing the last element keeps the flag, but the next element is stored
    behind the removed place: get reads that place and returns a hole, where the
    list has the new element. *)
Theorem list_get_after_removal (heap : Heap) (a b c : JSTaggedValue) :
  let w := (ListConstructor (mkWorld [] 0 false)).2 in
  let os := [OpAdd a; OpAdd b; OpRemoveByIndex 1; OpAdd c; OpGetProperty 1; OpGet 1] in
  (run_ops (exec heap) os w).1 = [Ok AUnit; Ok AUnit; Ok (AValue b); Ok AUnit; Ok (AValue c); Ok (AValue VHole)] /\
  (run_ops (spec heap) os (mkAbs [] Ordered)).1 = [Ok AUnit; Ok AUnit; Ok (AValue b); Ok AUnit; Ok (AValue c); Ok (AValue c)].
Proof. split; reflexivity. Qed.

(** ** Iteration *)

(** An iterator over a list that does not change delivers its elements; the
    array has less than 2^31 words. *)
Theorem list_iterator_yields_elements (k : Z) (w : World) (s : Abs) (a : TaggedArray) :
  repr k w s -> lists w !! Z.to_nat (GetSingleList w) = Some a -> lenZ a < 2 ^ 31 ->
  exists iter, NewJSAPIListIterator w = (Ok iter, w) /\ drain Next (Datatypes.S (length (items s))) iter w = (Ok (items s), w).
Proof.
  intros (ns & d & (a' & Ht & Ha & H) & _ & _ & Hh & Hk) Ha' Hb. destruct w as [st t b]. cbn [lists GetSingleList] in *. assert (a' = a) as -> by congruence.
  eexists. split; [reflexivity|]. pose proof (ListShape.room_bound _ H) as Hroom. pose proof (ListShape.holds_d _ _ _ _ _ H) as Hd0.
  assert (forall j, 0 <= j -> 0 <= at_ (ListShape.nd ns j) < 2 ^ 31) as Hat.
  { intros j Hj. pose proof (ListShape.nd_bounds _ _ _ _ _ j H Hj). pose proof (ListShape.holds_room _ _ _ _ _ H). unfold ListShape.at_, ENTRY_SIZE, ELEMENTS_START_INDEX in *. lia. }
  assert (forall z, 0 <= z < 2 ^ 31 -> i32 z = z) as Hi32 by (intros z Hz; unfold i32; rewrite Z.mod_small; lia).
  pose proof (on_table_read _ _ _ _ _ Ha (ListShape.NumberOfNodes_run _ H)) as Hlen. apply (drain_run _ (fun j => mkIterator (Some t) (Z.of_nat j) (at_ (ListShape.nd ns (Z.of_nat j))))).
  - intros j x Hx. pose proof (lookup_lt_Some _ _ _ Hx) as Hj. unfold Next. cbn [GetIteratedList GetNextIndex GetDataIndex]. rewrite !Hi32 by (apply Hat || unfold lenZ in *; lia).
    mstep with (single_store_run st st t b _ _ Hlen). unfold lenZ at 1. rewrite (proj2 (Z.leb_gt _ _)) by (unfold lenZ in *; lia).
    mstep with (single_store_run st st t b _ _ (on_table_read _ _ _ _ _ Ha (ListOps.FindElementByDataIndex_run _ H (Z.of_nat j) ltac:(unfold lenZ; lia) Hh))).
    rewrite Nat2Z.id, Hx. rewrite !u32_small by (pose proof (Hat (Z.of_nat j + 1) ltac:(lia)); unfold lenZ in *; lia). replace (Z.of_nat (Datatypes.S j)) with (Z.of_nat j + 1) by lia. done.
  - eexists. unfold Next. cbn [GetIteratedList GetNextIndex]. rewrite Hi32 by (unfold lenZ in *; lia). mstep with (single_store_run st st t b _ _ Hlen). rewrite (proj2 (Z.leb_le _ _)) by (unfold lenZ; lia). reflexivity.
Qed.

(** An iterator counts to the length that the list has at each call.  When
    elements are inserted before its place, it runs over the end: it delivers
    undefined, and then a word of the array that is no element, here the index
    of the first node. *)
Theorem list_iterator_runs_over (a b c x y : Z) :
  ((ListConstructor;; Add (VInt a);; Add (VInt b);; Add (VInt c);;
    iter ← NewJSAPIListIterator;
    r1 ← Next iter;
    Insert (VInt x) 0;;
    Insert (VInt y) 0;;
    r2 ← Next r1.2;
    r3 ← Next r2.2;
    r4 ← Next r3.2;
    r5 ← Next r4.2;
    mret [r1.1; r2.1; r3.1; r4.1; r5.1]) (mkWorld [] 0 false)).1
  = Ok [Some (VInt a); Some (VInt b); Some (VInt c); Some VUndefined; Some (VInt 14)].
Proof. reflexivity. Qed.

(** Two containers are equal when their elements are, pairwise. *)
Theorem list_Equal_spec (heap : Heap) (k : Z) (w : World) (s : Abs) (t' : Z) (ns' : list Z) (l' : list JSTaggedValue) (d' : Z) :
  repr k w s -> list_at (lists w) t' ns' l' d' -> Equal heap t' w = (Ok (ListOps.same_lists heap l' (items s)), w).
Proof.
  intros (ns & d & (a & Ht & Ha & H) & _) (a' & Ht' & Ha' & H'). destruct w as [st t b]. cbn [lists GetSingleList] in *.
  unfold Equal. mstep with (single_store_run st st t b _ _ (on_table_read st t' a' get a' Ha' eq_refl)).
  apply (on_list_read _ _ _ _ _ _ Ha), (ListOps.list_Equal_run _ H H').
Qed.

(** ** Replacing all elements *)

Section replacing.
Context {E : Type} (f : JSTaggedValue -> Z -> JSTaggedValue).

(** A callback that changes nothing. *)
Definition pure_callback (v : JSTaggedValue) (k : Z) : M (World * E) JSTaggedValue := mret (f v k).

Lemma at_list_run {A} (st : Store) (t u : Z) (b : bool) (e : E) (a a' : TaggedArray) (m : M TaggedArray A) (r : A) :
  st !! Z.to_nat u = Some a -> m a = (Ok r, a') -> at_list u m (mkWorld st t b, e) = (Ok r, (mkWorld (<[Z.to_nat u := a']> st) t b, e)).
Proof. intros Ha Hm. unfold at_list, on_world, on_store. mcbn. cbn [lists fst snd]. by rewrite (on_table_run st u a a' m r Ha Hm). Qed.

Lemma at_list_read {A} (st : Store) (t u : Z) (b : bool) (e : E) (a : TaggedArray) (m : M TaggedArray A) (r : A) :
  st !! Z.to_nat u = Some a -> m a = (Ok r, a) -> at_list u m (mkWorld st t b, e) = (Ok r, (mkWorld st t b, e)).
Proof. intros Ha Hm. rewrite (at_list_run _ _ _ _ _ _ _ _ _ Ha Hm). by rewrite list_insert_id. Qed.

Lemma replace_nodes_run (n : nat) (j : Z) (st : Store) (t : Z) (b : bool) (e : E) (a : TaggedArray) (ns : list Z) (l1 l2 : list JSTaggedValue) (d : Z) :
  0 <= t < lenZ st -> st !! Z.to_nat t = Some a -> holds a ns (l1 ++ l2) d -> lenZ l1 = j -> length l2 = n ->
  exists a', replace_nodes pure_callback t n j (at_ (ListShape.nd ns j)) (mkWorld st t b, e) = (Ok tt, (mkWorld (<[Z.to_nat t := a']> st) t b, e)) /\
    holds a' ns (l1 ++ imap (fun i v => f v (j + Z.of_nat i)) l2) d.
Proof.
  revert j st a l1 l2. induction n as [|n IH]; intros j st a l1 l2 Ht Ha H Hj Hn.
  { apply nil_length_inv in Hn as ->. exists a. simpl. rewrite list_insert_id by done. done. }
  destruct l2 as [|v l2]; [done|]. simpl in Hn. injection Hn as Hn. pose proof (lenZ_nonneg l1).
  cbn [replace_nodes]. assert (0 <= j < lenZ (l1 ++ v :: l2)) as Hjl by lenz.
  assert ((l1 ++ v :: l2) !! Z.to_nat j = Some v) as Hv by (apply list_lookup_middle; unfold lenZ in Hj; lia).
  set (a1 := ListShape.wr (at_ (ListShape.nd ns (j + 1))) (f v j) a).
  assert (holds a1 ns ((l1 ++ [f v j]) ++ l2) d) as H1.
  { pose proof (ListOps.set_value _ H j (f v j) Hjl) as H1. rewrite insert_app_r_alt in H1 by (unfold lenZ in Hj; lia).
    replace (Z.to_nat j - length l1)%nat with 0%nat in H1 by (unfold lenZ in Hj; lia). rewrite <- (assoc_L (++)). exact H1. }
  destruct (IH (j + 1) (<[Z.to_nat t := a1]> st) a1 (l1 ++ [f v j]) l2) as (a' & Hrun & H'); [unfold lenZ in *; by rewrite length_insert|by apply list_lookup_insert_eq, (lookup_lt_Some _ _ _ Ha)|done|lenz|done|].
  exists a'. split.
  - mstep with (at_list_read st t t b e a _ _ Ha (ListOps.GetNextDataIndex_run _ H j Hjl)). mstep with (at_list_read st t t b e a _ _ Ha (ListShape.val_run _ H j v ltac:(lia) Hv)).
    mstep. mstep with (at_list_run st t t b e a a1 _ _ Ha (ListOps.list_Set_run _ H j (f v j) Hjl)). rewrite Hrun. by rewrite list_insert_insert_eq.
  - rewrite <- (assoc_L (++)) in H'. simpl. rewrite Z.add_0_r. erewrite imap_ext; [exact H'|]. intros i x _. simpl. f_equal. lia.
Qed.

(** replaceAllElements with a callback that only computes replaces each element by
    its result. *)
Theorem list_ReplaceAllElements_spec (k : Z) (w : World) (s : Abs) (e : E) : repr k w s -> k < 2 ^ 28 -> Forall (fun v => v <> VHole) (imap (fun i v => f v (Z.of_nat i)) (items s)) ->
  exists w', ReplaceAllElements pure_callback (w, e) = (Ok VUndefined, (w', e)) /\ repr k w' (mkAbs (imap (fun i v => f v (Z.of_nat i)) (items s)) (mode s)).
Proof.
  intros (ns & d & (a & Ht & Ha & H) & Hf & Hp & Hh & Hk) Hb Hnew. destruct w as [st t b]. cbn [lists GetSingleList IsOrderedList] in *.
  destruct (replace_nodes_run (length (items s)) 0 st t b e a ns [] (items s) d Ht Ha H eq_refl eq_refl) as (a' & Hrun & H').
  assert (lenZ (imap (fun i v => f v (Z.of_nat i)) (items s)) = lenZ (items s)) as Hl by (unfold lenZ; by rewrite length_imap).
  exists (mkWorld (<[Z.to_nat t := a']> st) t b). split.
  - unfold ReplaceAllElements. mstep. cbn [GetSingleList fst]. mstep with (at_list_read st t t b e a _ _ Ha (ListShape.NumberOfNodes_run _ H)).
    replace (Z.to_nat (lenZ (items s))) with (length (items s)) by (unfold lenZ; lia). mstep with Hrun. done.
  - apply (repr_set k st t b a' ns (imap (fun i v => f v (Z.of_nat i)) (items s)) (mode s) d Ht H' Hf); rewrite ?Hl; done.
Qed.
End replacing.
End JSList.
