(* ===== verification/ListSort.v ===== *)
(** * ListSort: TaggedSingleList::Sort sorts.

    The binary insertion sort of tagged_list.cpp (modelled in JSList), run with a
    compare function that only computes.  The theorem says that the container
    then holds the elements that it had, in the order of the compare function,
    with elements that compare equal in their old order. *)
From stdpp Require Import sorting.
From S2P Require Import Prelude TaggedValue TaggedArray EcmaString TaggedList ListShape ListOps JSList.
Local Open Scope Z_scope.

Module ListSort.
Import TaggedList JSList.

Notation at_ := (ListShape.at_ TaggedSingleList).
Notation holds := (ListShape.holds TaggedSingleList).

(** ** Insertion sort on lists *)

Section insertion.
Context (after : JSTaggedValue -> JSTaggedValue -> bool).

(** [v] behind the elements that do not come after it. *)
Fixpoint insert_sorted (v : JSTaggedValue) (l : list JSTaggedValue) : list JSTaggedValue :=
  match l with
  | [] => [v]
  | x :: l' => if after x v then v :: l else x :: insert_sorted v l'
  end.

Definition insertion_sort (l : list JSTaggedValue) : list JSTaggedValue := fold_left (fun s v => insert_sorted v s) l [].

Definition in_order (x y : JSTaggedValue) : Prop := after x y = false.

Lemma insert_sorted_perm (v : JSTaggedValue) (l : list JSTaggedValue) : insert_sorted v l ≡ₚ v :: l.
Proof. induction l as [|x l IH]; [done|]. simpl. destruct (after x v); [done|]. rewrite IH. apply perm_swap. Qed.

Lemma insertion_sort_perm (l : list JSTaggedValue) : insertion_sort l ≡ₚ l.
Proof.
  unfold insertion_sort. enough (forall s, fold_left (fun s v => insert_sorted v s) l s ≡ₚ s ++ l) as He by apply He.
  induction l as [|v l IH]; intros s; simpl; [by rewrite app_nil_r|]. rewrite IH, insert_sorted_perm. apply Permutation_middle.
Qed.

(** A strict weak order. *)
Class CompareOrder : Prop := {
  after_asym : forall x y, after x y = true -> after y x = false;
  after_step : forall x y z, after x y = false -> after x z = true -> after y z = true;
}.

Context `{CompareOrder}.

Lemma in_order_trans (x y z : JSTaggedValue) : in_order x y -> in_order y z -> in_order x z.
Proof. unfold in_order. intros Hxy Hyz. destruct (after x z) eqn:E; [|done]. by rewrite (after_step _ _ _ Hxy E) in Hyz. Qed.

Lemma insert_sorted_order (v : JSTaggedValue) (l : list JSTaggedValue) : StronglySorted in_order l -> StronglySorted in_order (insert_sorted v l).
Proof.
  induction l as [|x l IH]; intros Hs; [by repeat constructor|]. simpl. apply StronglySorted_inv in Hs as Hs'. destruct Hs' as [Hl Hx].
  destruct (after x v) eqn:E.
  - constructor; [done|]. assert (in_order v x) as Hvx by (by apply after_asym). constructor; [done|].
    eapply list.Forall_impl; [exact Hx|]. intros y Hy. by apply (in_order_trans v x y).
  - constructor; [by apply IH|]. rewrite insert_sorted_perm. by constructor.
Qed.

Lemma insertion_sort_order (l : list JSTaggedValue) : StronglySorted in_order (insertion_sort l).
Proof.
  unfold insertion_sort. enough (forall s, StronglySorted in_order s -> StronglySorted in_order (fold_left (fun s v => insert_sorted v s) l s)) as He by (apply He; constructor).
  induction l as [|v l IH]; intros s Hs; simpl; [done|]. by apply IH, insert_sorted_order.
Qed.

(** The place of [v] in a sorted list. *)
Lemma insert_sorted_place (v : JSTaggedValue) (l : list JSTaggedValue) : StronglySorted in_order l ->
  exists l1 l2, l = l1 ++ l2 /\ insert_sorted v l = l1 ++ v :: l2 /\ Forall (fun x => after x v = false) l1 /\ Forall (fun x => after x v = true) l2.
Proof.
  induction l as [|x l IH]; intros Hs; [by exists [], []|]. apply StronglySorted_inv in Hs as [Hl Hx]. simpl. destruct (after x v) eqn:E.
  - exists [], (x :: l). split_and!; try done. constructor; [done|]. eapply list.Forall_impl; [exact Hx|]. intros y Hy. by apply (after_step x y v).
  - destruct (IH Hl) as (l1 & l2 & -> & -> & H1 & H2). exists (x :: l1), l2. split_and!; try done. by constructor.
Qed.

(** Elements that compare equal keep their order. *)
Definition ties (x y : JSTaggedValue) : Prop := after x y = false /\ after y x = false.

#[export] Instance ties_dec (x y : JSTaggedValue) : Decision (ties x y).
Proof. unfold ties. apply _. Defined.

Lemma insert_sorted_stable (x v : JSTaggedValue) (l : list JSTaggedValue) : StronglySorted in_order l ->
  filter (ties x) (insert_sorted v l) = filter (ties x) (l ++ [v]).
Proof.
  intros Hs. destruct (insert_sorted_place v l Hs) as (l1 & l2 & -> & -> & H1 & H2). rewrite !list.filter_app, list.filter_cons.
  destruct (decide (ties x v)) as [[Hxv Hvx]|Hn]; [|by rewrite filter_cons_False, app_nil_r by done].
  assert (filter (ties x) l2 = []) as Hz.
  { clear Hs. induction H2 as [|y l2 Hy _ IH]; [done|]. rewrite filter_cons_False; [done|]. intros [_ Hyx]. by rewrite (after_step _ _ _ Hyx Hy) in Hxv. }
  rewrite Hz, app_nil_r. by rewrite filter_cons_True.
Qed.

Lemma insertion_sort_stable (x : JSTaggedValue) (l : list JSTaggedValue) : filter (ties x) (insertion_sort l) = filter (ties x) l.
Proof.
  unfold insertion_sort. enough (forall s, StronglySorted in_order s -> filter (ties x) (fold_left (fun s v => insert_sorted v s) l s) = filter (ties x) (s ++ l)) as He by (apply He; constructor).
  induction l as [|v l IH]; intros s Hs; simpl; [by rewrite app_nil_r|]. rewrite IH by (by apply insert_sorted_order).
  rewrite list.filter_app, insert_sorted_stable, <- list.filter_app by done. by rewrite <- (assoc_L (++)).
Qed.
End insertion.

(** ** The sort of the container *)

Section sorting.
Context {E : Type} (c : JSTaggedValue -> JSTaggedValue -> dbl).

(** A compare function that only computes, and the order that it gives. *)
Definition pure_compare (x y : JSTaggedValue) : M (World * E) dbl := mret (c x y).
Definition comes_after (x y : JSTaggedValue) : bool := double_ltb (double_of_int 0) (c x y).

Context `{!CompareOrder comes_after}.
Context (st : Store) (t : Z) (b : bool) (e : E) (ns : list Z) (d : Z) (Ht : 0 <= t < lenZ st).
Notation nodes := (at_ <$> ns).

(** The state while the container holds [l]. *)
Definition sorting (p : World * E) (l : list JSTaggedValue) : Prop :=
  exists a, p = (mkWorld (<[Z.to_nat t := a]> st) t b, e) /\ holds a ns l d.

Lemma array_there (a : TaggedArray) : <[Z.to_nat t := a]> st !! Z.to_nat t = Some a.
Proof. apply list_lookup_insert_eq. unfold lenZ in Ht. lia. Qed.

Lemma node_place (l : list JSTaggedValue) (a : TaggedArray) (i : Z) : holds a ns l d -> 0 <= i < lenZ l -> nodes !!! Z.to_nat i = at_ (ListShape.nd ns (i + 1)).
Proof.
  intros H Hi. pose proof (ListShape.holds_len _ _ _ _ _ H) as Hlen. apply list_lookup_total_correct. rewrite list_lookup_fmap. unfold ListShape.nd. zb.
  rewrite Z.add_simpl_r. destruct (lookup_lt_is_Some_2 ns (Z.to_nat i)) as [x Hx]; [unfold lenZ in *; lia|]. by rewrite Hx.
Qed.

Lemma node_value_run (p : World * E) (l : list JSTaggedValue) (i : Z) (v : JSTaggedValue) : sorting p l -> 0 <= i -> l !! Z.to_nat i = Some v -> node_value t nodes i p = (Ok v, p).
Proof.
  intros (a & -> & H) Hi Hv. pose proof (lookup_lt_Some _ _ _ Hv) as Hl. unfold node_value. rewrite (node_place l a i H) by (unfold lenZ; lia).
  apply (at_list_read _ _ _ _ _ _ _ _ (array_there a)). by apply (ListShape.val_run _ H).
Qed.

Lemma set_node_run (p : World * E) (l : list JSTaggedValue) (i : Z) (v : JSTaggedValue) : sorting p l -> 0 <= i < lenZ l ->
  exists p', set_node t nodes i v p = (Ok tt, p') /\ sorting p' (<[Z.to_nat i := v]> l).
Proof.
  intros (a & -> & H) Hi. unfold set_node. rewrite (node_place l a i H Hi). pose proof (ListShape.holds_range _ _ _ _ _ H (i + 1) ltac:(lia)).
  pose proof (ListShape.holds_room _ _ _ _ _ H) as Hr. eexists. split.
  - apply (at_list_run _ _ _ _ _ _ (ListShape.wr (at_ (ListShape.nd ns (i + 1))) v a) _ _ (array_there a)). apply ListShape.SetElement_run. unfold ListShape.at_, ENTRY_SIZE, ELEMENTS_START_INDEX in *. lia.
  - eexists. split; [by rewrite list_insert_insert_eq|]. by apply (ListOps.set_value _ H).
Qed.

(** The binary search finds the place of [v]. *)
Lemma place_run (p : World * E) (l1 l2 rest : list JSTaggedValue) (v : JSTaggedValue) (fuel : nat) (lo hi : Z) :
  sorting p (l1 ++ l2 ++ rest) -> Forall (fun x => comes_after x v = false) l1 -> Forall (fun x => comes_after x v = true) l2 ->
  0 <= lo <= lenZ l1 -> lenZ l1 <= hi <= lenZ (l1 ++ l2) -> hi - lo < Z.of_nat fuel ->
  while_fuel fuel (place_step pure_compare t nodes v) (lo, hi) p = (Ok (lenZ l1), p).
Proof.
  intros Hs H1 H2. revert lo hi. induction fuel as [|fuel IH]; intros lo hi Hlo Hhi Hf; [lia|]. cbn [while_fuel].
  destruct (Z.lt_ge_cases lo hi) as [Hlt|Hge].
  2: { erewrite bind_Ok; [|unfold place_step; rewrite (proj2 (Z.ltb_ge lo hi)) by lia; reflexivity]. mcbn. do 2 f_equal. lia. }
  assert (place_step pure_compare t nodes v (lo, hi) p = (Ok (inl (if (lo + hi) / 2 <? lenZ l1 then ((lo + hi) / 2 + 1, hi) else (lo, (lo + hi) / 2))), p)) as Hstep.
  { unfold place_step. rewrite (proj2 (Z.ltb_lt lo hi)) by lia. cbv zeta. rewrite Z.quot_div_nonneg by lia. set (m := (lo + hi) / 2). assert (lo <= m < hi) as Hm by (unfold m; zlia).
    destruct (lookup_lt_is_Some_2 (l1 ++ l2 ++ rest) (Z.to_nat m)) as [x Hx]; [rewrite app_assoc, length_app; unfold lenZ in *; lia|].
    mstep with (node_value_run p _ m x Hs ltac:(lia) Hx). mstep. change (double_ltb (double_of_int 0) (c x v)) with (comes_after x v). destruct (Z.ltb_spec m (lenZ l1)) as [Hl|Hg].
    - rewrite lookup_app_l in Hx by (unfold lenZ in *; lia). by rewrite (Forall_lookup_1 _ _ _ _ H1 Hx).
    - rewrite app_assoc, lookup_app_l in Hx by (unfold lenZ in *; lia). rewrite lookup_app_r in Hx by (unfold lenZ in *; lia). by rewrite (Forall_lookup_1 _ _ _ _ H2 Hx). }
  mstep with Hstep. assert (lo <= (lo + hi) / 2 < hi) by zlia. destruct (Z.ltb_spec ((lo + hi) / 2) (lenZ l1)); apply IH; lia.
Qed.

(** The elements behind the place move up by one. *)
Lemma shift_run (m : list JSTaggedValue) (p : World * E) (l1 rest : list JSTaggedValue) (x : JSTaggedValue) (i : Z) :
  sorting p (l1 ++ m ++ x :: rest) -> i = lenZ l1 + lenZ m ->
  exists p' y, for_down (length m) i (shift_node t nodes) p = (Ok tt, p') /\ sorting p' (l1 ++ y :: m ++ rest).
Proof.
  revert p x rest i. induction m as [|z m IH] using rev_ind; intros p x rest i Hs ->; [by exists p, x|]. pose proof (lenZ_nonneg l1). pose proof (lenZ_nonneg m).
  rewrite <- (assoc_L (++)) in Hs. cbn [app] in Hs. rewrite length_app, Nat.add_1_r. replace (lenZ l1 + lenZ (m ++ [z])) with (lenZ l1 + lenZ m + 1) by lenz.
  assert ((l1 ++ m ++ z :: x :: rest) !! Z.to_nat (lenZ l1 + lenZ m + 1 - 1) = Some z) as Hz by (rewrite app_assoc; apply list_lookup_middle; rewrite length_app; unfold lenZ; lia).
  destruct (set_node_run p _ (lenZ l1 + lenZ m + 1) z Hs) as (p1 & Hset & Hs1); [lenz|].
  assert (shift_node t nodes (lenZ l1 + lenZ m + 1) p = (Ok tt, p1)) as Hsh by (unfold shift_node; mstep with (node_value_run p _ (lenZ l1 + lenZ m + 1 - 1) z Hs ltac:(lia) Hz); exact Hset).
  rewrite (for_down_cons _ _ _ _ _ Hsh). replace (lenZ l1 + lenZ m + 1 - 1) with (lenZ l1 + lenZ m) by lia.
  assert (<[Z.to_nat (lenZ l1 + lenZ m + 1) := z]> (l1 ++ m ++ z :: x :: rest) = l1 ++ m ++ z :: z :: rest) as E1.
  { rewrite (app_assoc l1 m). rewrite insert_app_r_alt by (rewrite length_app; unfold lenZ; lia). rewrite <- app_assoc. do 2 f_equal.
    replace (Z.to_nat (lenZ l1 + lenZ m + 1) - length (l1 ++ m))%nat with 1%nat by (rewrite length_app; unfold lenZ; lia). done. }
  rewrite E1 in Hs1. destruct (IH p1 z (z :: rest) _ Hs1 eq_refl) as (p' & y & Hrun & Hs'). exists p', y. split; [done|]. by rewrite <- (assoc_L (++)).
Qed.

Lemma sort_round_run (p : World * E) (s : list JSTaggedValue) (v : JSTaggedValue) (rest : list JSTaggedValue) :
  sorting p (s ++ v :: rest) -> StronglySorted (in_order comes_after) s ->
  exists p', sort_round pure_compare t nodes (lenZ s) p = (Ok tt, p') /\ sorting p' (insert_sorted comes_after v s ++ rest).
Proof.
  intros Hs Ho. destruct (insert_sorted_place comes_after v s Ho) as (l1 & l2 & -> & -> & H1 & H2). pose proof (lenZ_nonneg l1). pose proof (lenZ_nonneg l2).
  unfold sort_round. mstep with (node_value_run p _ (lenZ (l1 ++ l2)) v Hs ltac:(lenz) ltac:(apply list_lookup_middle; unfold lenZ; lia)).
  rewrite <- (assoc_L (++)) in Hs. mstep with (place_run p l1 l2 (v :: rest) v (Datatypes.S (Z.to_nat (lenZ (l1 ++ l2)))) 0 (lenZ (l1 ++ l2)) Hs H1 H2 ltac:(lia) ltac:(lenz) ltac:(lia)).
  rewrite <- (assoc_L (++)). cbn [app]. destruct (Z.ltb_spec (lenZ l1) (lenZ (l1 ++ l2))) as [Hlt|Hge].
  - destruct (shift_run l2 p l1 rest v (lenZ (l1 ++ l2)) Hs ltac:(lenz)) as (p1 & y & Hrun & Hs1). replace (Z.to_nat (lenZ (l1 ++ l2) - lenZ l1)) with (length l2) by (unfold lenZ; rewrite length_app; lia).
    mstep with Hrun. destruct (set_node_run p1 _ (lenZ l1) v Hs1) as (p2 & Hset & Hs2); [lenz|]. exists p2. split; [done|].
    rewrite insert_app_r_alt in Hs2 by (unfold lenZ; lia). replace (Z.to_nat (lenZ l1) - length l1)%nat with 0%nat in Hs2 by (unfold lenZ; lia). done.
  - assert (l2 = []) as -> by (apply lenZ_zero; lenz). by exists p.
Qed.

Lemma rounds_run (rest : list JSTaggedValue) (p : World * E) (s : list JSTaggedValue) : sorting p (s ++ rest) -> StronglySorted (in_order comes_after) s ->
  exists p', for_up (length rest) (lenZ s) (sort_round pure_compare t nodes) p = (Ok tt, p') /\
    sorting p' (fold_left (fun s v => insert_sorted comes_after v s) rest s).
Proof.
  revert p s. induction rest as [|v rest IH]; intros p s Hs Ho; [rewrite app_nil_r in Hs; by exists p|].
  destruct (sort_round_run p s v rest Hs Ho) as (p1 & Hrun & Hs1). destruct (IH p1 _ Hs1 (insert_sorted_order _ v s Ho)) as (p' & Hrest & Hs').
  exists p'. split; [|done]. simpl length. rewrite (for_up_cons _ _ _ _ _ Hrun). replace (lenZ s + 1) with (lenZ (insert_sorted comes_after v s)); [done|].
  unfold lenZ. rewrite (insert_sorted_perm comes_after v s). simpl. lia.
Qed.
End sorting.

(** C32: Sort of a List that is not empty, with a compare function that only
    computes: if SortCompare's order for it (undefined last, the function being
    asked about the other values) is a strict weak order, the container holds
    the same elements, sorted, and elements that compare equal are in their old
    order.  Sort of an empty List fails its assertion and is left out. *)
Theorem list_Sort_sorts {E} (c : JSTaggedValue -> JSTaggedValue -> dbl) `{!CompareOrder (comes_after c)} (k : Z) (w : World) (s : Abs) (e : E) :
  repr k w s -> k < 2 ^ 28 -> items s <> [] ->
  exists w' l', Sort (pure_compare c) (w, e) = (Ok VUndefined, (w', e)) /\ repr k w' (mkAbs l' Unordered) /\
    l' ≡ₚ items s /\ StronglySorted (in_order (comes_after c)) l' /\ forall x, filter (ties (comes_after c) x) l' = filter (ties (comes_after c) x) (items s).
Proof.
  intros (ns & d & (a & Ht & Ha & H) & Hf & Hp & Hh & Hk) Hb Hne. destruct w as [st t b]. cbn [lists GetSingleList IsOrderedList] in *.
  pose proof (ListShape.holds_len _ _ _ _ _ H) as Hlen. destruct (items s) as [|v l] eqn:El; [done|]. pose proof (lenZ_nonneg l) as Hn. assert (lenZ (v :: l) = lenZ l + 1) as Hl by lenz.
  assert (sorting st t false e ns d (mkWorld st t false, e) ([v] ++ l)) as Hs by (exists a; by rewrite list_insert_id).
  destruct (rounds_run c st t false e ns d Ht l _ [v] Hs ltac:(by repeat constructor)) as (p' & Hrun & (a' & -> & H')).
  exists (mkWorld (<[Z.to_nat t := a']> st) t false), (insertion_sort (comes_after c) (v :: l)).
  split; [|split; [|split; [apply insertion_sort_perm|split; [by apply insertion_sort_order|intros x; by apply insertion_sort_stable]]]].
  - unfold Sort. mstep. mstep. cbn [GetSingleList fst]. unfold SortList. mstep with (at_list_read st t t false e a _ _ Ha (ListShape.NumberOfNodes_run _ H)).
    assert (on_world (E := E) (ASSERT (0 <? lenZ (v :: l))) (mkWorld st t false, e) = (Ok tt, (mkWorld st t false, e))) as Has by (unfold on_world; rewrite (proj2 (Z.ltb_lt 0 (lenZ (v :: l)))) by lia; done).
    mstep with Has. change ELEMENTS_START_INDEX with (at_ (ListShape.nd ns 0)).
    mstep with (at_list_read st t t false e a _ _ Ha (ListOps.MapNodeIndexToDataIndex_run _ H (Z.to_nat (lenZ (v :: l))) 0 ltac:(lia) ltac:(lia))).
    cbn [Z.to_nat drop]. unfold for_range. replace (Z.to_nat (lenZ (v :: l) - 1)) with (length l) by (unfold lenZ in *; lia). change (lenZ [v]) with 1 in Hrun. by mstep with Hrun.
  - change (holds a' ns (insertion_sort (comes_after c) (v :: l)) d) in H'. pose proof (insertion_sort_perm (comes_after c) (v :: l)) as Hperm.
    apply (repr_set k st t false a' ns _ Unordered d Ht H'); [done|done|by rewrite Hperm|]. unfold lenZ in *. by rewrite Hperm.
Qed.

(** Integers by their value, with the difference as the result. *)
Definition value_of (v : JSTaggedValue) : Z := match v with VInt z => z | _ => 0 end.
Definition by_value (x y : JSTaggedValue) : dbl := double_of_int (value_of x - value_of y).

Lemma by_value_after (x y : JSTaggedValue) : comes_after by_value x y = (value_of y <? value_of x).
Proof.
  unfold comes_after, by_value, double_of_int at 2. destruct (Z.eqb_spec (value_of x - value_of y) 0) as [E|E].
  - change (double_ltb _ _) with false. symmetry. apply Z.ltb_ge. lia.
  - change (double_ltb _ (DFin ?k)) with (0 <? k).
    destruct (Z.ltb_spec (value_of y) (value_of x)); [apply Z.ltb_lt|apply Z.ltb_ge]; [apply Z.mul_pos_pos|apply Z.mul_nonpos_nonneg]; lia.
Qed.

#[export] Instance by_value_order : CompareOrder (comes_after by_value).
Proof. split; intros *; rewrite !by_value_after, ?Z.ltb_lt, ?Z.ltb_ge; lia. Qed.

Lemma list_Sort_sorts_witness : exists (w w' : World) (l' : list JSTaggedValue),
  repr 3 w (mkAbs [VInt 3; VInt 1; VInt 2] Ordered) /\ Sort (pure_compare by_value) (w, tt) = (Ok VUndefined, (w', tt)) /\
  repr 3 w' (mkAbs l' Unordered) /\ l' ≡ₚ [VInt 3; VInt 1; VInt 2] /\ StronglySorted (in_order (comes_after by_value)) l'.
Proof.
  destruct (ListConstructor_repr [] 0 false) as (w0 & _ & HR0).
  destruct (step_refines sample_heap (OpAdd (VInt 3)) 0 w0 _ HR0 ltac:(done) eq_refl ltac:(done)) as (w1 & _ & HR1).
  destruct (step_refines sample_heap (OpAdd (VInt 1)) 1 w1 _ HR1 ltac:(done) eq_refl ltac:(done)) as (w2 & _ & HR2).
  destruct (step_refines sample_heap (OpAdd (VInt 2)) 2 w2 _ HR2 ltac:(done) eq_refl ltac:(done)) as (w3 & _ & HR3).
  destruct (list_Sort_sorts by_value 3 w3 _ tt HR3 ltac:(done) ltac:(done)) as (w' & l' & Hsort & HR & Hperm & Hord & _).
  by exists w3, w', l'.
Defined.
End ListSort.
