(* ===== verification/LinkedList.v ===== *)
(** * LinkedList: JSAPILinkedList and its iterator.

    js_api_linked_list.h, js_api_linked_list.cpp, js_api_linked_list_iterator.cpp,
    and the constructor and forEach of containers_linked_list.cpp.

    The container is the address of its TaggedDoubleList in the store.  Iterators
    and running callbacks keep the address that the container had when they
    began; Clone makes a new container.  The theorems say that the container
    implements a list, errors included, and that a clone has the same elements
    and shares no array with the container it was made from. *)
From S2P Require Import Prelude TaggedValue TaggedArray EcmaString TaggedList ListShape ListOps.
Local Open Scope Z_scope.

Module LinkedList.
Import TaggedList.

Record World : Type := mkWorld {
  lists : Store;
  GetDoubleList : Z;
}.

Definition on_store {A} (m : M Store A) : M World A := zoom lists (fun st w => mkWorld st (GetDoubleList w)) m.

Definition SetDoubleList (t : Z) : M World unit := modify (fun w => mkWorld (lists w) t).

(** A call on the list that the container has now. *)
Definition on_list {A} (m : M TaggedArray A) : M World A :=
  t ← gets GetDoubleList;
  on_store (on_table t m).

Definition CreateDouble (numberOfElements : Z) : M Store Z :=
  list ← CreateDerived TaggedDoubleList numberOfElements;
  new_array list.

(** LinkedListConstructor after the check of newTarget. *)
Definition LinkedListConstructor : M World unit :=
  doubleList ← on_store (CreateDouble DEFAULT_ARRAY_LENGHT);
  SetDoubleList doubleList.

Definition Insert (value : JSTaggedValue) (index : Z) : M World bool :=
  t ← gets GetDoubleList;
  nodeLength ← on_list TaggedList.Length;
  if (index <? 0) || (nodeLength <? index) then throw RANGE_ERROR
  else
    newList ← on_store (TaggedList.Insert TaggedDoubleList t value index);
    SetDoubleList newList;;
    mret true.

Definition Clear : M World unit :=
  n ← on_list NumberOfNodes;
  if 0 <? n then on_list (TaggedList.Clear TaggedDoubleList) else mret tt.

(** The address of the list of the new container. *)
Definition Clone : M World Z :=
  srcDoubleList ← on_list get;
  numberOfNodes ← on_list NumberOfNodes;
  numberOfDeletedNodes ← on_list NumberOfDeletedNodes;
  let effectiveCapacity := u32 (ELEMENTS_START_INDEX + (u32 numberOfNodes + u32 numberOfDeletedNodes + 1) * ENTRY_SIZE TaggedDoubleList) in
  dstTaggedArray ← Factory.NewAndCopyTaggedArray srcDoubleList effectiveCapacity effectiveCapacity 0;
  on_store (new_array dstTaggedArray).

Definition RemoveFirst : M World JSTaggedValue :=
  nodeLength ← on_list TaggedList.Length;
  if nodeLength <=? 0 then throw IS_EMPTY_ERROR
  else on_list (TaggedList.RemoveFirst TaggedDoubleList).

Definition RemoveLast : M World JSTaggedValue :=
  nodeLength ← on_list TaggedList.Length;
  if nodeLength <=? 0 then throw IS_EMPTY_ERROR
  else on_list (TaggedList.RemoveLast TaggedDoubleList).

Definition RemoveByIndex (index : Z) : M World JSTaggedValue :=
  nodeLength ← on_list TaggedList.Length;
  if (index <? 0) || (nodeLength <=? index) then throw RANGE_ERROR
  else on_list (TaggedList.RemoveByIndex TaggedDoubleList index).

Definition Add (value : JSTaggedValue) : M World unit :=
  t ← gets GetDoubleList;
  newLinkedList ← on_store (TaggedList.Add TaggedDoubleList t value);
  SetDoubleList newLinkedList.

Definition AddFirst (value : JSTaggedValue) : M World unit :=
  t ← gets GetDoubleList;
  newLinkedList ← on_store (TaggedList.AddFirst TaggedDoubleList t value);
  SetDoubleList newLinkedList.

Definition GetFirst : M World JSTaggedValue :=
  res ← on_list TaggedList.GetFirst;
  mret (if IsHole res then VUndefined else res).

Definition GetLast : M World JSTaggedValue :=
  res ← on_list TaggedList.GetLast;
  mret (if IsHole res then VUndefined else res).

Definition Set_ (index : Z) (value : JSTaggedValue) : M World JSTaggedValue :=
  nodeLength ← on_list TaggedList.Length;
  if (index <? 0) || (nodeLength <=? index) then throw RANGE_ERROR
  else
    on_list (TaggedList.Set_ TaggedDoubleList index value);;
    mret value.

Definition Get (index : Z) : M World JSTaggedValue :=
  nodeLength ← on_list TaggedList.Length;
  if (index <? 0) || (nodeLength <=? index) then mret VUndefined
  else on_list (TaggedList.Get TaggedDoubleList index).

Definition Length : M World Z := n ← on_list TaggedList.Length; mret (u32 n).

Definition ConvertToArray : M World (list JSTaggedValue) := on_list TaggedListToArray.

Definition OwnKeys : M World (list Z) := on_list TaggedList.OwnKeys.

(** The key is the result of JSTaggedValue::ToElementIndex. *)
Definition GetOwnProperty (key : option Z) : M World bool :=
  match key with
  | None => throw TYPE_ERROR
  | Some index =>
      length ← on_list TaggedList.Length;
      if u32 length <=? index then throw RANGE_ERROR
      else Get (i32 index);; mret true
  end.

Definition GetProperty (index : Z) : M World JSTaggedValue :=
  nodeLength ← on_list TaggedList.Length;
  if (index <? 0) || (nodeLength <=? index) then throw RANGE_ERROR
  else on_list (TaggedList.Get TaggedDoubleList index).

Definition SetProperty (index : Z) (value : JSTaggedValue) : M World bool :=
  nodeLength ← on_list TaggedList.Length;
  if (index <? 0) || (nodeLength <=? index) then mret false
  else on_list (TaggedList.Set_ TaggedDoubleList index value);; mret true.

Section values.
Context (heap : Heap).

Definition Has (element : JSTaggedValue) : M World bool := on_list (TaggedList.Has heap element).
Definition GetIndexOf (element : JSTaggedValue) : M World Z := on_list (TaggedList.GetIndexOf heap element).
Definition GetLastIndexOf (element : JSTaggedValue) : M World Z := on_list (TaggedList.GetLastIndexOf heap element).

Definition Remove (element : JSTaggedValue) : M World bool :=
  nodeLength ← on_list TaggedList.Length;
  if nodeLength <? 0 then mret false
  else on_list (TaggedList.Remove TaggedDoubleList heap element).

Definition RemoveFirstFound (element : JSTaggedValue) : M World bool :=
  nodeLength ← on_list TaggedList.Length;
  if nodeLength <=? 0 then throw IS_EMPTY_ERROR
  else on_list (TaggedList.RemoveFirstFound TaggedDoubleList heap element).

Definition RemoveLastFound (element : JSTaggedValue) : M World bool :=
  nodeLength ← on_list TaggedList.Length;
  if nodeLength <? 0 then throw IS_EMPTY_ERROR
  else on_list (TaggedList.RemoveLastFound TaggedDoubleList heap element).
End values.

(** ** The iterator *)

Record Iterator : Type := mkIterator { GetIteratedLinkedList : option Z; GetNextIndex : Z; GetDataIndex : Z }.

Definition NewJSAPILinkedListIterator : M World Iterator :=
  t ← gets GetDoubleList;
  mret (mkIterator (Some t) 0 4).

(** JSAPILinkedListIterator::Next. *)
Definition Next (iter : Iterator) : M World (option JSTaggedValue * Iterator) :=
  match GetIteratedLinkedList iter with
  | None => mret (None, iter)
  | Some list =>
      let index := i32 (GetNextIndex iter) in
      length ← on_store (on_table list TaggedList.Length);
      if length <=? index then mret (None, mkIterator None (GetNextIndex iter) (GetDataIndex iter))
      else
        let dataIndex := i32 (GetDataIndex iter) in
        '(first, second) ← on_store (on_table list (GetByDataIndex dataIndex));
        mret (Some second, mkIterator (Some list) (u32 (index + 1)) (u32 first))
  end.

(** ** ForEach *)

(** The state is the container and what else the program changes; a callback may
    change both. *)
Section callbacks.
Context {E : Type} (callbackFn : JSTaggedValue -> Z -> M (World * E) JSTaggedValue).

Definition on_world {A} (m : M World A) : M (World * E) A := zoom fst (fun w p => (w, snd p)) m.

(** A call on the list that the loop began with. *)
Definition at_list {A} (t : Z) (m : M TaggedArray A) : M (World * E) A := on_world (on_store (on_table t m)).

Fixpoint foreach_nodes (doubleList : Z) (n : nat) (index valueNode : Z) : M (World * E) unit :=
  match n with
  | O => mret tt
  | Datatypes.S n =>
      valueNode ← at_list doubleList (GetNextDataIndex valueNode);
      value ← at_list doubleList (GetElement valueNode);
      callbackFn value index;;
      foreach_nodes doubleList n (index + 1) valueNode
  end.

Definition ForEach : M (World * E) JSTaggedValue :=
  doubleList ← on_world (gets GetDoubleList);
  length ← on_world Length;
  foreach_nodes doubleList (Z.to_nat length) 0 ELEMENTS_START_INDEX;;
  mret VUndefined.
End callbacks.

(** ** The abstract list *)

Inductive op : Type :=
| OpAdd (v : JSTaggedValue)
| OpAddFirst (v : JSTaggedValue)
| OpInsert (v : JSTaggedValue) (i : Z)
| OpSet (i : Z) (v : JSTaggedValue)
| OpGet (i : Z)
| OpGetFirst
| OpGetLast
| OpHas (v : JSTaggedValue)
| OpLength
| OpIndexOf (v : JSTaggedValue)
| OpLastIndexOf (v : JSTaggedValue)
| OpClear
| OpClone
| OpRemoveFirst
| OpRemoveLast
| OpRemoveByIndex (i : Z)
| OpRemove (v : JSTaggedValue)
| OpRemoveFirstFound (v : JSTaggedValue)
| OpRemoveLastFound (v : JSTaggedValue)
| OpGetOwnProperty (key : option Z)
| OpGetProperty (i : Z)
| OpSetProperty (i : Z) (v : JSTaggedValue)
| OpToArray
| OpOwnKeys.

Inductive answer : Type :=
| AUnit
| AValue (v : JSTaggedValue)
| ABool (b : bool)
| ANum (z : Z)
| AList (l : list JSTaggedValue)
| AKeys (l : list Z).

Section ops.
Context (heap : Heap).

Definition exec (o : op) : M World answer :=
  match o with
  | OpAdd v => Add v;; mret AUnit
  | OpAddFirst v => AddFirst v;; mret AUnit
  | OpInsert v i => b ← Insert v i; mret (ABool b)
  | OpSet i v => r ← Set_ i v; mret (AValue r)
  | OpGet i => v ← Get i; mret (AValue v)
  | OpGetFirst => v ← GetFirst; mret (AValue v)
  | OpGetLast => v ← GetLast; mret (AValue v)
  | OpHas v => b ← Has heap v; mret (ABool b)
  | OpLength => n ← Length; mret (ANum n)
  | OpIndexOf v => n ← GetIndexOf heap v; mret (ANum n)
  | OpLastIndexOf v => n ← GetLastIndexOf heap v; mret (ANum n)
  | OpClear => Clear;; mret AUnit
  | OpClone => t ← Clone; SetDoubleList t;; mret AUnit
  | OpRemoveFirst => v ← RemoveFirst; mret (AValue v)
  | OpRemoveLast => v ← RemoveLast; mret (AValue v)
  | OpRemoveByIndex i => v ← RemoveByIndex i; mret (AValue v)
  | OpRemove v => b ← Remove heap v; mret (ABool b)
  | OpRemoveFirstFound v => b ← RemoveFirstFound heap v; mret (ABool b)
  | OpRemoveLastFound v => b ← RemoveLastFound heap v; mret (ABool b)
  | OpGetOwnProperty key => b ← GetOwnProperty key; mret (ABool b)
  | OpGetProperty i => v ← GetProperty i; mret (AValue v)
  | OpSetProperty i v => b ← SetProperty i v; mret (ABool b)
  | OpToArray => l ← ConvertToArray; mret (AList l)
  | OpOwnKeys => l ← OwnKeys; mret (AKeys l)
  end.

Definition inside (i : Z) (l : list JSTaggedValue) : bool := (0 <=? i) && (i <? lenZ l).

Definition same (v x : JSTaggedValue) : bool := SameValue heap x v.

(** The answer and the list after an operation; the program goes on with the
    clone after OpClone. *)
Definition spec (o : op) (l : list JSTaggedValue) : outcome answer * list JSTaggedValue :=
  match o with
  | OpAdd v => (Ok AUnit, l ++ [v])
  | OpAddFirst v => (Ok AUnit, v :: l)
  | OpInsert v i =>
      if (0 <=? i) && (i <=? lenZ l) then (Ok (ABool true), take (Z.to_nat i) l ++ v :: drop (Z.to_nat i) l)
      else (Throw RANGE_ERROR, l)
  | OpSet i v => if inside i l then (Ok (AValue v), <[Z.to_nat i := v]> l) else (Throw RANGE_ERROR, l)
  | OpGet i => (Ok (AValue (if inside i l then default VUndefined (l !! Z.to_nat i) else VUndefined)), l)
  | OpGetFirst => (Ok (AValue (default VUndefined (l !! 0%nat))), l)
  | OpGetLast => (Ok (AValue (default VUndefined (list.last l))), l)
  | OpHas v => (Ok (ABool (existsb (same v) l)), l)
  | OpLength => (Ok (ANum (lenZ l)), l)
  | OpIndexOf v => (Ok (ANum (default (-1) (find_index (same v) l))), l)
  | OpLastIndexOf v => (Ok (ANum (default (-1) (find_last_index (same v) l))), l)
  | OpClear => (Ok AUnit, [])
  | OpClone => (Ok AUnit, l)
  | OpRemoveFirst => match l with [] => (Throw IS_EMPTY_ERROR, l) | v :: l' => (Ok (AValue v), l') end
  | OpRemoveLast => match list.last l with None => (Throw IS_EMPTY_ERROR, l) | Some v => (Ok (AValue v), removelast l) end
  | OpRemoveByIndex i =>
      if inside i l then (Ok (AValue (default VUndefined (l !! Z.to_nat i))), delete (Z.to_nat i) l) else (Throw RANGE_ERROR, l)
  | OpRemove v =>
      match find_index (same v) l with
      | Some i => (Ok (ABool true), delete (Z.to_nat i) l)
      | None => (Ok (ABool false), l)
      end
  | OpRemoveFirstFound v =>
      match l, find_index (same v) l with
      | [], _ => (Throw IS_EMPTY_ERROR, l)
      | _, Some i => (Ok (ABool true), delete (Z.to_nat i) l)
      | _, None => (Throw IS_NOT_EXIST_ERROR, l)
      end
  | OpRemoveLastFound v =>
      match find_last_index (same v) l with
      | Some i => (Ok (ABool true), delete (Z.to_nat i) l)
      | None => (Throw IS_NOT_EXIST_ERROR, l)
      end
  | OpGetOwnProperty key =>
      match key with
      | None => (Throw TYPE_ERROR, l)
      | Some i => if i <? lenZ l then (Ok (ABool true), l) else (Throw RANGE_ERROR, l)
      end
  | OpGetProperty i => if inside i l then (Ok (AValue (default VUndefined (l !! Z.to_nat i))), l) else (Throw RANGE_ERROR, l)
  | OpSetProperty i v => if inside i l then (Ok (ABool true), <[Z.to_nat i := v]> l) else (Ok (ABool false), l)
  | OpToArray => (Ok (AList l), l)
  | OpOwnKeys => (Ok (AKeys (seqZ 0 (lenZ l))), l)
  end.

(** The values that are stored or searched for are values of the language, and an
    element index is a uint32. *)
Definition op_ok (o : op) : Prop :=
  match o with
  | OpAdd v | OpAddFirst v | OpInsert v _ | OpSet _ v | OpSetProperty _ v | OpRemove v | OpRemoveFirstFound v | OpRemoveLastFound v => v <> VHole
  | OpGetOwnProperty (Some i) => 0 <= i < 2 ^ 32
  | _ => True
  end.

Notation list_at := (ListOps.list_at TaggedDoubleList).
Notation at_ := (ListShape.at_ TaggedDoubleList).
Notation holds := (ListShape.holds TaggedDoubleList).
Notation kept := ListOps.kept.

(** The container holds [l]; the array [F] belongs to something else. *)
Definition repr (F : option (Z * TaggedArray)) (k : Z) (w : World) (l : list JSTaggedValue) : Prop :=
  (exists ns d, list_at (lists w) (GetDoubleList w) ns l d /\ Forall (fun v => v <> VHole) l /\ lenZ l + d <= k) /\
  match F with
  | None => True
  | Some (u, b) => 0 <= u /\ u <> GetDoubleList w /\ lists w !! Z.to_nat u = Some b
  end.

(** ** Running the operations *)

Lemma double_list_run {A} (st : Store) (t : Z) (a a' : TaggedArray) (m : M TaggedArray A) (r : A) :
  st !! Z.to_nat t = Some a -> m a = (Ok r, a') -> on_list m (mkWorld st t) = (Ok r, mkWorld (<[Z.to_nat t := a']> st) t).
Proof. intros Ha Hm. unfold on_list, on_store. mcbn. cbn [lists GetDoubleList]. by rewrite (on_table_run st t a a' m r Ha Hm). Qed.

Lemma double_list_read {A} (st : Store) (t : Z) (a : TaggedArray) (m : M TaggedArray A) (r : A) :
  st !! Z.to_nat t = Some a -> m a = (Ok r, a) -> on_list m (mkWorld st t) = (Ok r, mkWorld st t).
Proof. intros Ha Hm. rewrite (double_list_run _ _ _ _ _ _ Ha Hm). by rewrite list_insert_id. Qed.

Lemma double_list_throw {A} (st : Store) (t : Z) (a : TaggedArray) (m : M TaggedArray A) (e : ErrorFlag) :
  st !! Z.to_nat t = Some a -> m a = (Throw e, a) -> on_list m (mkWorld st t) = (Throw e, mkWorld st t).
Proof. intros Ha Hm. unfold on_list, on_store, on_table. mcbn. cbn [lists GetDoubleList]. rewrite Ha, Hm. by rewrite list_insert_id. Qed.

Lemma double_store_run {A} (st st' : Store) (t : Z) (m : M Store A) (r : A) : m st = (Ok r, st') -> on_store m (mkWorld st t) = (Ok r, mkWorld st' t).
Proof. intros Hm. unfold on_store. mcbn. cbn [lists]. by rewrite Hm. Qed.

Lemma inside_range (i : Z) (l : list JSTaggedValue) : ((i <? 0) || (lenZ l <=? i)) = negb (inside i l).
Proof. unfold inside. rewrite negb_andb, Z.ltb_antisym, <- Z.leb_antisym. done. Qed.

Lemma inside_true (i : Z) (l : list JSTaggedValue) : inside i l = true -> 0 <= i < lenZ l.
Proof. unfold inside. intros [Hi%Z.leb_le Hn%Z.ltb_lt]%andb_prop. done. Qed.

(** The part of the array that Clone copies holds the whole list. *)
Lemma holds_take (a : TaggedArray) (ns : list Z) (l : list JSTaggedValue) (d : Z) :
  holds a ns l d -> holds (take (Z.to_nat (at_ (lenZ l + d + 1))) a) ns l d.
Proof.
  intros H. pose proof (ListShape.holds_room _ _ _ _ _ H) as Hr. pose proof (ListShape.holds_d _ _ _ _ _ H) as Hd. pose proof (lenZ_nonneg l).
  set (m := at_ (lenZ l + d + 1)) in *. assert (forall i v, i < m -> ListShape.cell a i v -> ListShape.cell (take (Z.to_nat m) a) i v) as Hc.
  { intros i v Hi [Hi0 Hv]. split; [done|]. rewrite lookup_take_lt by lia. done. }
  assert (forall j f, 0 <= j -> 0 <= f < 3 -> at_ (ListShape.nd ns j) + f < m) as Hb.
  { intros j f Hj Hf. pose proof (ListShape.nd_bounds _ _ _ _ _ j H Hj). unfold m, ListShape.at_, ENTRY_SIZE, ELEMENTS_START_INDEX. lia. }
  assert (7 <= m) as Hm by (unfold m, ListShape.at_, ENTRY_SIZE, ELEMENTS_START_INDEX; lia).
  destruct H. constructor; try done; try (apply Hc; [unfold NUMBER_OF_NODE_INDEX, NUMBER_OF_DELETED_NODES_INDEX, HEAD_TABLE_INDEX, TAIL_TABLE_INDEX, ELEMENTS_START_INDEX; lia|done]).
  - intros j Hj. apply Hc; [apply Hb; unfold NEXT_PTR_OFFSET; lia|auto].
  - intros Hdb j Hj. apply Hc; [apply Hb; unfold PREV_PTR_OFFSET; lia|auto].
  - intros j v Hj Hv. apply Hc; [|auto]. pose proof (Hb (j + 1) 0). lia.
  - unfold lenZ in *. rewrite length_take. lia.
Qed.

Section steps.
Context {F : option (Z * TaggedArray)} {k : Z} {st : Store} {t : Z} {l : list JSTaggedValue} {a : TaggedArray} {ns : list Z} {d : Z}.
Context (Ht : 0 <= t < lenZ st) (Ha : st !! Z.to_nat t = Some a) (H : holds a ns l d).
Context (HF : match F with None => True | Some (u, b) => 0 <= u /\ u <> t /\ st !! Z.to_nat u = Some b end).
Context (Hh : Forall (fun v => v <> VHole) l) (Hk : lenZ l + d <= k) (Hbound : 0 <= k < 2 ^ 28).
Notation w := (mkWorld st t).

Definition answers (o : op) : Prop := exists w', exec o w = ((spec o l).1, w') /\ repr F (k + 1) w' (spec o l).2.

(** The container after a change: the frame stays. *)
Lemma repr_kept (st' : Store) (t' : Z) (ns' : list Z) (l' : list JSTaggedValue) (d' : Z) :
  list_at st' t' ns' l' d' -> Forall (fun v => v <> VHole) l' -> lenZ l' + d' <= k + 1 -> kept st st' t t' -> repr F (k + 1) (mkWorld st' t') l'.
Proof.
  intros Hat Hh' Hk' Hkept. split; [by exists ns', d'|]. destruct F as [[u b]|]; [|done]. destruct HF as (Hu & Hne & Hub).
  destruct (Hkept u b Hu Hne Hub). by split_and!.
Qed.

Lemma repr_changed (a' : TaggedArray) (ns' : list Z) (l' : list JSTaggedValue) (d' : Z) :
  holds a' ns' l' d' -> Forall (fun v => v <> VHole) l' -> lenZ l' + d' <= k + 1 -> repr F (k + 1) (mkWorld (<[Z.to_nat t := a']> st) t) l'.
Proof.
  intros H' Hh' Hk'. eapply repr_kept; [|done|done|apply ListOps.kept_set; lia]. exists a'. split; [unfold lenZ in *; by rewrite length_insert|]. split; [|done].
  apply list_lookup_insert_eq. unfold lenZ in Ht. lia.
Qed.

Lemma repr_same : repr F (k + 1) w l.
Proof. split; [|done]. exists ns, d. split; [by exists a|]. split; [done|lia]. Qed.

Lemma stays_answers (o : op) (r : outcome answer) : spec o l = (r, l) -> exec o w = (r, w) -> answers o.
Proof. intros Hs He. exists w. rewrite Hs, He. split; [done|]. apply repr_same. Qed.

Lemma nodes_len : on_list TaggedList.Length w = (Ok (lenZ l), w).
Proof. apply (double_list_read _ _ _ _ _ Ha (ListShape.NumberOfNodes_run _ H)). Qed.

Lemma add_answers (v : JSTaggedValue) : v <> VHole -> answers (OpAdd v).
Proof.
  intros Hv. pose proof (ListShape.holds_d _ _ _ _ _ H).
  destruct (ListOps.list_Add_run TaggedDoubleList st t ns l d v) as (st' & t' & ns' & d' & Hrun & Hat & [Hd' _] & Hkept); [by exists a|lia|].
  exists (mkWorld st' t'). split.
  - unfold exec, Add. rewrite <- bind_assoc. mstep. rewrite <- bind_assoc. mstep with (double_store_run _ _ t _ _ Hrun). by mstep.
  - apply (repr_kept _ _ _ _ _ Hat); [apply Forall_app; split; [done|by repeat constructor]|lenz|done].
Qed.

Lemma add_first_answers (v : JSTaggedValue) : v <> VHole -> answers (OpAddFirst v).
Proof.
  intros Hv. pose proof (ListShape.holds_d _ _ _ _ _ H).
  destruct (ListOps.AddFirst_run TaggedDoubleList st t ns l d v) as (st' & t' & ns' & d' & Hrun & Hat & Hd' & Hkept); [by exists a|lia|].
  exists (mkWorld st' t'). split.
  - unfold exec, AddFirst. rewrite <- bind_assoc. mstep. rewrite <- bind_assoc. mstep with (double_store_run _ _ t _ _ Hrun). by mstep.
  - apply (repr_kept _ _ _ _ _ Hat); [by constructor|cbn [spec snd]; lenz|done].
Qed.

Lemma insert_answers (v : JSTaggedValue) (i : Z) : v <> VHole -> answers (OpInsert v i).
Proof.
  intros Hv. pose proof (ListShape.holds_d _ _ _ _ _ H). unfold answers. cbn [spec exec]. destruct ((0 <=? i) && (i <=? lenZ l)) eqn:Hi.
  - apply andb_prop in Hi as [Hi0%Z.leb_le Hin%Z.leb_le]. destruct (split_len l i ltac:(lia)) as (l1 & l2 & Hl & Hl1).
    destruct (ListOps.list_Insert_run TaggedDoubleList st t ns l1 l2 d v) as (st' & t' & ns' & d' & Hrun & Hat & [Hd' _] & Hkept); [rewrite <- Hl; by exists a|rewrite <- Hl; lia|].
    assert (take (Z.to_nat i) l ++ v :: drop (Z.to_nat i) l = l1 ++ v :: l2) as ->.
    { rewrite Hl. unfold lenZ in Hl1. rewrite take_app_length', drop_app_length' by lia. done. }
    rewrite Hl1 in Hrun. exists (mkWorld st' t'). cbn [fst snd]. split.
    + unfold Insert. erewrite bind_Ok; [done|]. mstep. mstep with nodes_len. rewrite (proj2 (Z.ltb_ge i 0)), (proj2 (Z.ltb_ge (lenZ l) i)) by lia. cbn [orb].
      mstep with (double_store_run _ _ t _ _ Hrun). by mstep.
    + rewrite Hl in Hh, Hk. apply Forall_app in Hh as [Hh1 Hh2]. apply (repr_kept _ _ _ _ _ Hat); [apply Forall_app; split; [done|by constructor]|lenz|done].
  - exists w. split; [|apply repr_same]. erewrite bind_Throw; [done|].
    unfold Insert. mstep. mstep with nodes_len. apply andb_false_iff in Hi as [Hi%Z.leb_gt|Hi%Z.leb_gt]; [by zb|]. rewrite (proj2 (Z.ltb_lt (lenZ l) i)) by lia. by rewrite orb_true_r.
Qed.

(** Set_ and SetProperty write; get and GetProperty read. *)
Lemma write_inside (i : Z) (v : JSTaggedValue) : v <> VHole -> inside i l = true ->
  exists w', on_list (TaggedList.Set_ TaggedDoubleList i v) w = (Ok tt, w') /\ repr F (k + 1) w' (<[Z.to_nat i := v]> l).
Proof.
  intros Hv Hi%inside_true. eexists. split; [apply (double_list_run _ _ _ _ _ _ Ha (ListOps.list_Set_run _ H i v Hi))|].
  apply (repr_changed _ _ _ _ (ListOps.set_value _ H i v Hi)); [by apply Forall_insert|]. unfold lenZ in *. rewrite length_insert. lia.
Qed.

Lemma read_inside (i : Z) : inside i l = true -> on_list (TaggedList.Get TaggedDoubleList i) w = (Ok (default VUndefined (l !! Z.to_nat i)), w).
Proof. intros Hi%inside_true. by apply (double_list_read _ _ _ _ _ Ha), (ListOps.list_Get_run _ H). Qed.

Lemma set_elem_answers (i : Z) (v : JSTaggedValue) : v <> VHole -> answers (OpSet i v).
Proof.
  intros Hv. unfold answers. cbn [spec exec]. destruct (inside i l) eqn:Hi.
  - destruct (write_inside i v Hv Hi) as (w' & Hr & HR). exists w'. split; [|done]. erewrite bind_Ok; [done|]. unfold Set_. mstep with nodes_len. rewrite inside_range, Hi. cbn [negb]. by mstep with Hr.
  - exists w. split; [|apply repr_same]. erewrite bind_Throw; [done|]. unfold Set_. mstep with nodes_len. by rewrite inside_range, Hi.
Qed.

Lemma set_property_answers (i : Z) (v : JSTaggedValue) : v <> VHole -> answers (OpSetProperty i v).
Proof.
  intros Hv. unfold answers. cbn [spec exec]. destruct (inside i l) eqn:Hi.
  - destruct (write_inside i v Hv Hi) as (w' & Hr & HR). exists w'. split; [|done]. erewrite bind_Ok; [done|]. unfold SetProperty. mstep with nodes_len. rewrite inside_range, Hi. cbn [negb]. by mstep with Hr.
  - exists w. split; [|apply repr_same]. erewrite bind_Ok; [done|]. unfold SetProperty. mstep with nodes_len. by rewrite inside_range, Hi.
Qed.

Lemma linked_Get_run (i : Z) : Get i w = (Ok (if inside i l then default VUndefined (l !! Z.to_nat i) else VUndefined), w).
Proof. unfold Get. mstep with nodes_len. rewrite inside_range. destruct (inside i l) eqn:Hi; [by apply read_inside|done]. Qed.

Lemma get_property_answers (i : Z) : answers (OpGetProperty i).
Proof.
  destruct (inside i l) eqn:Hi.
  - eapply stays_answers; [cbn [spec]; by rewrite Hi|]. unfold exec. erewrite bind_Ok; [done|]. unfold GetProperty. mstep with nodes_len. rewrite inside_range, Hi. by apply read_inside.
  - eapply stays_answers; [cbn [spec]; by rewrite Hi|]. unfold exec. erewrite bind_Throw; [done|]. unfold GetProperty. mstep with nodes_len. by rewrite inside_range, Hi.
Qed.

Lemma own_property_answers (key : option Z) : op_ok (OpGetOwnProperty key) -> answers (OpGetOwnProperty key).
Proof.
  pose proof (ListShape.holds_d _ _ _ _ _ H). pose proof (lenZ_nonneg l). destruct key as [i|]; cbn [op_ok]; [|intros _; by eapply stays_answers]. intros Hi.
  destruct (Z.ltb_spec i (lenZ l)).
  - eapply stays_answers; [cbn [spec]; by zb|]. unfold exec. erewrite bind_Ok; [done|]. unfold GetOwnProperty. mstep with nodes_len. rewrite u32_small by lia. zb. by mstep with (linked_Get_run (i32 i)).
  - eapply stays_answers; [cbn [spec]; by zb|]. unfold exec. erewrite bind_Throw; [done|]. unfold GetOwnProperty. mstep with nodes_len. rewrite u32_small by lia. by zb.
Qed.

Lemma first_answers : answers OpGetFirst.
Proof.
  eapply stays_answers; [done|]. unfold exec. erewrite bind_Ok; [done|]. unfold GetFirst. mstep with (double_list_read st t a _ _ Ha (ListOps.GetFirst_run _ H)).
  destruct l as [|v l']; [done|]. apply Forall_cons_1 in Hh as [Hv _]. simpl. by destruct v.
Qed.

Lemma last_answers : answers OpGetLast.
Proof.
  eapply stays_answers; [done|]. unfold exec. erewrite bind_Ok; [done|]. unfold GetLast. mstep with (double_list_read st t a _ _ Ha (ListOps.GetLast_run _ H)).
  destruct (list.last l) as [v|] eqn:E; [|done]. simpl. apply last_Some in E as [l' E]. rewrite E in Hh. apply Forall_app in Hh as [_ [Hv _]%Forall_cons_1]. by destruct v.
Qed.

Lemma has_answers (v : JSTaggedValue) : answers (OpHas v).
Proof.
  eapply stays_answers; [done|]. unfold exec. erewrite bind_Ok; [done|]. apply (double_list_read _ _ _ _ _ Ha). unfold TaggedList.Has. mstep with (ListShape.FindIndexByElement_run _ H heap v).
  change (existsb (same v) l) with (existsb (fun x => SameValue heap x v) l). rewrite existsb_find_index.
  pose proof (ListShape.find_index_at (fun x => SameValue heap x v) l) as Hf. destruct (find_index _ l) as [i|]; [|done]. simpl. by zb.
Qed.

Lemma clear_answers : answers OpClear.
Proof.
  unfold answers. cbn [spec exec fst snd]. assert (on_list NumberOfNodes w = (Ok (lenZ l), w)) as Hn by apply nodes_len. pose proof (lenZ_nonneg l).
  destruct (Z.ltb_spec 0 (lenZ l)) as [Hpos|Hz].
  - destruct (ListOps.list_Clear_run _ H) as (a' & Hrun & _ & H'). eexists. split.
    + erewrite bind_Ok; [done|]. unfold Clear. mstep with Hn. zb. apply (double_list_run _ _ _ _ _ _ Ha Hrun).
    + apply (repr_changed _ [] _ 0 H'); [done|lenz].
  - exists w. split; [|rewrite <- (lenZ_zero l) by lia; apply repr_same]. erewrite bind_Ok; [done|]. unfold Clear. mstep with Hn. by zb.
Qed.

Lemma clone_run : exists b, Clone w = (Ok (lenZ st), mkWorld (st ++ [b]) t) /\ holds b ns l d.
Proof.
  pose proof (ListShape.holds_d _ _ _ _ _ H). pose proof (ListShape.holds_room _ _ _ _ _ H) as Hr. pose proof (lenZ_nonneg l). set (c := at_ (lenZ l + d + 1)) in *.
  assert (0 <= c < 2 ^ 32) as Hc by (unfold c, ListShape.at_, ENTRY_SIZE, ELEMENTS_START_INDEX; lia).
  assert (lenZ (take (Z.to_nat c) a) = c) as Hlen by (unfold lenZ in *; rewrite length_take; lia).
  exists (take (Z.to_nat c) a). split; [|by apply holds_take].
  unfold Clone. mstep with (double_list_read st t a get a Ha eq_refl). mstep with (double_list_read st t a _ _ Ha (ListShape.NumberOfNodes_run _ H)).
  mstep with (double_list_read st t a _ _ Ha (ListShape.NumberOfDeletedNodes_run _ H)). rewrite !(u32_small (lenZ l)), !(u32_small d) by lia.
  change (ELEMENTS_START_INDEX + (lenZ l + d + 1) * ENTRY_SIZE TaggedDoubleList) with c. rewrite u32_small by lia.
  pose proof (NewAndCopyTaggedArray_run [] (take (Z.to_nat c) a) (drop (Z.to_nat c) a) c c 0 w eq_refl Hlen ltac:(lia)) as Hcopy.
  rewrite app_nil_l, take_drop, Z.sub_diag in Hcopy. cbn [Z.to_nat replicate] in Hcopy. rewrite app_nil_r in Hcopy. mstep with Hcopy. by apply double_store_run.
Qed.

Lemma clone_answers : answers OpClone.
Proof.
  destruct clone_run as (b & Hrun & Hb). exists (mkWorld (st ++ [b]) (lenZ st)). cbn [spec exec fst snd]. split; [mstep with Hrun; by mstep|].
  apply (repr_kept _ _ ns _ d); [|done|lia|apply ListOps.kept_app]. exists b. split; [lenz|]. split; [apply list_lookup_middle; unfold lenZ; lia|done].
Qed.

(** An operation that takes one element out of the list. *)
Lemma removed_answers {A} (o : op) (m : M TaggedArray A) (r : A) (f : A -> answer) (a' : TaggedArray) (ns' : list Z) (l' : list JSTaggedValue) :
  exec o w = (x ← on_list m; mret (f x)) w -> m a = (Ok r, a') -> holds a' ns' l' (d + 1) -> spec o l = (Ok (f r), l') -> Forall (fun v => v <> VHole) l' -> lenZ l' <= lenZ l -> answers o.
Proof.
  intros He Hm H' Hs Hh' Hl'. exists (mkWorld (<[Z.to_nat t := a']> st) t). rewrite Hs, He. cbn [fst snd]. split.
  - by mstep with (double_list_run _ _ _ _ _ _ Ha Hm).
  - apply (repr_changed _ _ _ _ H' Hh'). lia.
Qed.

Lemma remove_first_answers : answers OpRemoveFirst.
Proof.
  assert (l = [] \/ exists v l', l = v :: l') as [Hl|(v & l' & Hl)] by (destruct l; [by left|right; eauto]).
  - eapply stays_answers; [cbn [spec]; by rewrite Hl|]. unfold exec. erewrite bind_Throw; [done|]. unfold RemoveFirst. mstep with nodes_len. by rewrite Hl.
  - destruct (ListOps.RemoveFirst_run _ H v l' Hl) as (a' & ns' & Hrun & H'). apply (removed_answers _ (TaggedList.RemoveFirst TaggedDoubleList) v AValue a' ns' l').
    + unfold exec, RemoveFirst. rewrite <- bind_assoc. mstep with nodes_len. rewrite (proj2 (Z.leb_gt _ _)) by (rewrite Hl; lenz). done.
    + done.
    + done.
    + cbn [spec]. by rewrite Hl.
    + rewrite Hl in Hh. by apply Forall_cons_1 in Hh as [_ ?].
    + rewrite Hl. lenz.
Qed.

Lemma remove_last_answers : answers OpRemoveLast.
Proof.
  assert (l = [] \/ exists v l', l = l' ++ [v]) as [Hl|(v & l' & Hl)] by (destruct l using rev_ind; [by left|right; eauto]).
  - eapply stays_answers; [cbn [spec]; by rewrite Hl|]. unfold exec. erewrite bind_Throw; [done|]. unfold RemoveLast. mstep with nodes_len. by rewrite Hl.
  - destruct (ListOps.RemoveLast_run _ H v l' eq_refl Hl) as (a' & ns' & Hrun & H'). apply (removed_answers _ (TaggedList.RemoveLast TaggedDoubleList) v AValue a' ns' l').
    + unfold exec, RemoveLast. rewrite <- bind_assoc. mstep with nodes_len. rewrite (proj2 (Z.leb_gt _ _)) by (rewrite Hl; lenz). done.
    + done.
    + done.
    + cbn [spec]. rewrite Hl, last_snoc. by rewrite removelast_last.
    + rewrite Hl in Hh. by apply Forall_app in Hh as [??].
    + rewrite Hl. lenz.
Qed.

Lemma remove_at_answers (i : Z) : answers (OpRemoveByIndex i).
Proof.
  destruct (inside i l) eqn:Hi.
  - apply inside_true in Hi as Hi'. destruct (lookup_lt_is_Some_2 l (Z.to_nat i)) as [v Hv]; [unfold lenZ in Hi'; lia|].
    destruct (ListOps.RemoveByIndex_run _ H i v ltac:(lia) Hv) as (a' & Hrun & _ & H'). refine (removed_answers _ _ v AValue _ _ _ _ Hrun H' _ _ _).
    + unfold exec, RemoveByIndex. rewrite <- bind_assoc. mstep with nodes_len. by rewrite inside_range, Hi.
    + cbn [spec]. by rewrite Hi, Hv.
    + by apply Forall_delete.
    + apply lenZ_delete_le.
  - eapply stays_answers; [cbn [spec]; by rewrite Hi|]. unfold exec. erewrite bind_Throw; [done|]. unfold RemoveByIndex. mstep with nodes_len. by rewrite inside_range, Hi.
Qed.

Lemma hole_same (v : JSTaggedValue) : v <> VHole -> SameValue heap VHole v = false.
Proof. intros Hv. unfold SameValue. by destruct v. Qed.

Lemma remove_answers (v : JSTaggedValue) : v <> VHole -> answers (OpRemove v).
Proof.
  intros Hv. destruct (ListOps.list_Remove_run _ H heap v (hole_same v Hv)) as (a' & ns' & Hrun & H'). pose proof (lenZ_nonneg l).
  assert (exec (OpRemove v) w = (x ← on_list (TaggedList.Remove TaggedDoubleList heap v); mret (ABool x)) w) as He.
  { unfold exec, Remove. rewrite <- bind_assoc. mstep with nodes_len. by rewrite (proj2 (Z.ltb_ge _ _)) by lia. }
  change (fun x => SameValue heap x v) with (same v) in *. destruct (find_index (same v) l) as [i|] eqn:Hf.
  - eapply (removed_answers _ _ _ ABool _ _ _ He Hrun H'); [cbn [spec]; by rewrite Hf|by apply Forall_delete|apply lenZ_delete_le].
  - eapply stays_answers; [cbn [spec]; by rewrite Hf|]. rewrite He. destruct H' as [-> ->]. by mstep with (double_list_read _ _ _ _ _ Ha Hrun).
Qed.

Lemma remove_first_found_answers (v : JSTaggedValue) : v <> VHole -> answers (OpRemoveFirstFound v).
Proof.
  intros Hv. assert (l = [] \/ exists x l', l = x :: l') as [Hl|(x & l' & Hl)] by (destruct l; [by left|right; eauto]).
  { eapply stays_answers; [cbn [spec]; by rewrite Hl|]. unfold exec. erewrite bind_Throw; [done|]. unfold RemoveFirstFound. mstep with nodes_len. by rewrite Hl. }
  assert (exec (OpRemoveFirstFound v) w = (x ← on_list (TaggedList.RemoveFirstFound TaggedDoubleList heap v); mret (ABool x)) w) as He.
  { unfold exec, RemoveFirstFound. rewrite <- bind_assoc. mstep with nodes_len. by rewrite (proj2 (Z.leb_gt _ _)) by (rewrite Hl; lenz). }
  pose proof (ListOps.RemoveFirstFound_run _ H heap v (hole_same v Hv)) as Hrun. change (fun x => SameValue heap x v) with (same v) in *. destruct (find_index (same v) l) as [i|] eqn:Hf.
  - destruct Hrun as (a' & ns' & Hrun & H'). eapply (removed_answers _ _ _ ABool _ _ _ He Hrun H'); [|by apply Forall_delete|apply lenZ_delete_le].
    rewrite Hl in Hf |- *. cbn [spec]. by rewrite Hf.
  - eapply stays_answers; [rewrite Hl in Hf |- *; cbn [spec]; by rewrite Hf|]. rewrite He. erewrite bind_Throw; [done|]. by apply (double_list_throw _ _ _ _ _ Ha).
Qed.

Lemma remove_last_found_answers (v : JSTaggedValue) : v <> VHole -> answers (OpRemoveLastFound v).
Proof.
  intros Hv. pose proof (lenZ_nonneg l).
  assert (exec (OpRemoveLastFound v) w = (x ← on_list (TaggedList.RemoveLastFound TaggedDoubleList heap v); mret (ABool x)) w) as He.
  { unfold exec, RemoveLastFound. rewrite <- bind_assoc. mstep with nodes_len. by rewrite (proj2 (Z.ltb_ge _ _)) by lia. }
  pose proof (ListOps.RemoveLastFound_run _ H heap v eq_refl (hole_same v Hv)) as Hrun. change (fun x => SameValue heap x v) with (same v) in *. destruct (find_last_index (same v) l) as [i|] eqn:Hf.
  - destruct Hrun as (a' & ns' & Hrun & H'). eapply (removed_answers _ _ _ ABool _ _ _ He Hrun H'); [cbn [spec]; by rewrite Hf|by apply Forall_delete|apply lenZ_delete_le].
  - eapply stays_answers; [cbn [spec]; by rewrite Hf|]. rewrite He. erewrite bind_Throw; [done|]. by apply (double_list_throw _ _ _ _ _ Ha).
Qed.
End steps.

Lemma linked_step_refines (F : option (Z * TaggedArray)) (o : op) (k : Z) (w : World) (l : list JSTaggedValue) :
  repr F k w l -> op_ok o -> 0 <= k < 2 ^ 28 -> exists w', exec o w = ((spec o l).1, w') /\ repr F (k + 1) w' (spec o l).2.
Proof.
  intros [(ns & d & (a & Ht & Ha & H) & Hh & Hk) HF] Hok Hb. destruct w as [st t]. cbn [lists GetDoubleList] in *.
  pose proof (ListShape.holds_d _ _ _ _ _ H). pose proof (lenZ_nonneg l). pose proof (nodes_len Ha H) as Hlen.
  change (answers (F := F) (k := k) (st := st) (t := t) (l := l) o). destruct o; simpl in Hok.
  - by eapply add_answers.
  - by eapply add_first_answers.
  - by eapply insert_answers.
  - by eapply set_elem_answers.
  - eapply stays_answers; try done. unfold exec. by mstep with (linked_Get_run Ha H i).
  - by eapply first_answers.
  - by eapply last_answers.
  - by eapply has_answers.
  - eapply stays_answers; try done. unfold exec, Length. rewrite <- bind_assoc. mstep with Hlen. mcbn. by rewrite u32_small by lia.
  - eapply stays_answers; try done. unfold exec. erewrite bind_Ok; [done|]. apply (double_list_read _ _ _ _ _ Ha), (ListShape.FindIndexByElement_run _ H).
  - eapply stays_answers; try done. unfold exec. erewrite bind_Ok; [done|]. apply (double_list_read _ _ _ _ _ Ha), (ListShape.FindLastIndexByElement_run _ H).
  - by eapply clear_answers.
  - by eapply clone_answers.
  - by eapply remove_first_answers.
  - by eapply remove_last_answers.
  - by eapply remove_at_answers.
  - by eapply remove_answers.
  - by eapply remove_first_found_answers.
  - by eapply remove_last_found_answers.
  - by eapply own_property_answers.
  - by eapply get_property_answers.
  - by eapply set_property_answers.
  - eapply stays_answers; try done. unfold exec. erewrite bind_Ok; [done|]. apply (double_list_read _ _ _ _ _ Ha), (ListOps.TaggedListToArray_run _ H). lia.
  - eapply stays_answers; try done. unfold exec. erewrite bind_Ok; [done|]. apply (double_list_read _ _ _ _ _ Ha). unfold TaggedList.OwnKeys. mstep with (ListShape.NumberOfNodes_run _ H). by rewrite u32_small by lia.
Qed.

Lemma LinkedListConstructor_repr (st : Store) (t : Z) : exists w, LinkedListConstructor (mkWorld st t) = (Ok tt, w) /\ repr None 0 w [].
Proof.
  destruct (ListShape.CreateDerived_run TaggedDoubleList DEFAULT_ARRAY_LENGHT st ltac:(done)) as (a & Hrun & _ & H).
  exists (mkWorld (st ++ [a]) (lenZ st)). split.
  - unfold LinkedListConstructor. assert (CreateDouble DEFAULT_ARRAY_LENGHT st = (Ok (lenZ st), st ++ [a])) as Hc by (unfold CreateDouble; by mstep with Hrun).
    by mstep with (double_store_run st (st ++ [a]) t _ _ Hc).
  - split; [|done]. exists [], 0. split; [|done]. exists a. cbn [lists GetDoubleList]. split; [lenz|]. split; [|done]. apply list_lookup_middle. unfold lenZ. lia.
Qed.

(** C6: A new LinkedList answers every sequence of operations as the list of the
    specification does, errors included; where the program clones the container,
    it goes on with the clone. *)
Theorem linkedlist_refines_list (os : list op) : Forall op_ok os -> lenZ os <= 2 ^ 28 ->
  exists w, LinkedListConstructor (mkWorld [] 0) = (Ok tt, w) /\ (run_ops exec os w).1 = (run_ops spec os []).1.
Proof.
  intros Hok Hl. destruct (LinkedListConstructor_repr [] 0) as (w & Hw & HR). exists w. split; [done|].
  apply (run_ops_refines exec spec (repr None) op_ok (2 ^ 28) (linked_step_refines None) os 0 w [] HR Hok); lia.
Qed.

(** C34: Whatever the program does afterwards with one of them, a container and its
    clone do not see each other's changes: the one that is left alone keeps its
    array, and converting it gives the elements that it had. *)
Theorem linkedlist_Clone_independent (os os1 os2 : list op) (w0 w : World) : Forall op_ok (os ++ os1) -> Forall op_ok (os ++ os2) -> lenZ os + lenZ os1 < 2 ^ 28 -> lenZ os + lenZ os2 < 2 ^ 28 ->
  LinkedListConstructor (mkWorld [] 0) = (Ok tt, w0) -> w = (run_ops exec os w0).2 ->
  let l := (run_ops spec os []).2 in
  exists u w1, Clone w = (Ok u, w1) /\ GetDoubleList w1 = GetDoubleList w /\
    (on_store (on_table u TaggedListToArray) (run_ops exec os1 w1).2).1 = Ok l /\
    (on_store (on_table (GetDoubleList w) TaggedListToArray) (run_ops exec os2 (mkWorld (lists w1) u)).2).1 = Ok l.
Proof.
  intros [Hok Hok1]%Forall_app [_ Hok2]%Forall_app Hl1 Hl2 Hw0 -> l. pose proof (lenZ_nonneg os) as Hn0. pose proof (lenZ_nonneg os1) as Hn1. pose proof (lenZ_nonneg os2) as Hn2.
  destruct (LinkedListConstructor_repr [] 0) as (w' & Hw' & HR). assert (w' = w0) as -> by congruence.
  destruct (run_ops_refines exec spec (repr None) op_ok (2 ^ 28) (linked_step_refines None) os 0 w0 [] HR Hok) as [_ HR1]; [lia|lia|].
  rewrite Z.add_0_l in HR1. fold l in HR1. generalize dependent l. intros l HR1. set (w := (run_ops exec os w0).2) in *.
  destruct HR1 as [(ns & d & (a & Ht & Ha & H) & Hh & Hk) _]. destruct w as [st t]. cbn [lists GetDoubleList] in *.
  destruct (clone_run Ha H Hk ltac:(lia)) as (b & Hrun & Hb). exists (lenZ st), (mkWorld (st ++ [b]) t). split; [done|]. split; [done|]. cbn [lists].
  assert ((st ++ [b]) !! Z.to_nat (lenZ st) = Some b) as Hnew by (apply list_lookup_middle; unfold lenZ; lia).
  assert ((st ++ [b]) !! Z.to_nat t = Some a) as Hold by (by apply lookup_app_l_Some).
  pose proof (ListShape.holds_d _ _ _ _ _ H) as Hd0.
  assert (forall F k w l', repr F k w l' -> forall u c, F = Some (u, c) -> holds c ns l d -> (on_store (on_table u TaggedListToArray) w).1 = Ok l) as Hread.
  { intros F k [st' t'] l' [_ HF] u c -> Hc. destruct HF as (_ & _ & Hu). erewrite double_store_run; [|apply (on_table_read _ _ _ _ _ Hu), (ListOps.TaggedListToArray_run _ Hc); lia]. done. }
  assert (forall F os' w', Forall op_ok os' -> lenZ os + lenZ os' < 2 ^ 28 -> repr F (lenZ os) w' l -> repr F (lenZ os + lenZ os') (run_ops exec os' w').2 (run_ops spec os' l).2) as Hgo.
  { intros F os' w' Hok' Hl' HR'. apply (run_ops_refines exec spec (repr F) op_ok (2 ^ 28) (linked_step_refines F) os' (lenZ os) w' l HR' Hok'); lia. }
  split.
  - refine (Hread (Some (lenZ st, b)) _ _ _ (Hgo _ os1 _ Hok1 Hl1 _) _ _ eq_refl Hb). split; [|cbn [lists GetDoubleList]; split_and!; [lia|lia|done]].
    exists ns, d. split; [|done]. exists a. cbn [lists GetDoubleList]. split; [lenz|done].
  - refine (Hread (Some (t, a)) _ _ _ (Hgo _ os2 _ Hok2 Hl2 _) _ _ eq_refl H). split; [|cbn [lists GetDoubleList]; split_and!; [lia|lia|done]].
    exists ns, d. split; [|done]. exists b. cbn [lists GetDoubleList]. split; [lenz|done].
Qed.
End ops.

Lemma linkedlist_refines_list_witness :
  exists w, LinkedListConstructor (mkWorld [] 0) = (Ok tt, w) /\
    (run_ops (exec sample_heap) [OpAdd (VInt 1); OpAddFirst (VInt 2); OpInsert (VInt 1) 0; OpClone; OpRemoveLastFound (VInt 1); OpRemoveFirst; OpToArray; OpRemoveByIndex 4; OpRemoveLast; OpRemoveFirst] w).1
    = [Ok AUnit; Ok AUnit; Ok (ABool true); Ok AUnit; Ok (ABool true); Ok (AValue (VInt 1)); Ok (AList [VInt 2]); Throw RANGE_ERROR; Ok (AValue (VInt 2)); Throw IS_EMPTY_ERROR].
Proof.
  destruct (linkedlist_refines_list sample_heap [OpAdd (VInt 1); OpAddFirst (VInt 2); OpInsert (VInt 1) 0; OpClone; OpRemoveLastFound (VInt 1); OpRemoveFirst; OpToArray; OpRemoveByIndex 4; OpRemoveLast; OpRemoveFirst])
    as (w & Hw & Hr); [by repeat constructor|by vm_compute|]. exists w. split; [exact Hw|]. rewrite Hr. by vm_compute.
Defined.

Lemma linkedlist_Clone_independent_witness :
  let w := (run_ops (exec sample_heap) [OpAdd (VInt 1); OpAdd (VInt 2)] (LinkedListConstructor (mkWorld [] 0)).2).2 in
  exists u w1, Clone w = (Ok u, w1) /\ GetDoubleList w1 = GetDoubleList w /\
    (on_store (on_table u TaggedListToArray) (run_ops (exec sample_heap) [OpRemoveFirst; OpAdd (VInt 3)] w1).2).1 = Ok [VInt 1; VInt 2] /\
    (on_store (on_table (GetDoubleList w) TaggedListToArray) (run_ops (exec sample_heap) [OpClear] (mkWorld (lists w1) u)).2).1 = Ok [VInt 1; VInt 2].
Proof.
  apply (linkedlist_Clone_independent sample_heap [OpAdd (VInt 1); OpAdd (VInt 2)] [OpRemoveFirst; OpAdd (VInt 3)] [OpClear] (LinkedListConstructor (mkWorld [] 0)).2);
    [by repeat constructor|by repeat constructor|by vm_compute|by vm_compute|by vm_compute|reflexivity].
Defined.

(** ** Iteration *)

Notation at_ := (ListShape.at_ TaggedDoubleList).
Notation holds := (ListShape.holds TaggedDoubleList).

(** An iterator over a container that does not change delivers its elements. *)
Theorem linkedlist_iterator_yields_elements (F : option (Z * TaggedArray)) (k : Z) (w : World) (l : list JSTaggedValue) : repr F k w l -> k < 2 ^ 28 ->
  exists iter, NewJSAPILinkedListIterator w = (Ok iter, w) /\ drain Next (Datatypes.S (length l)) iter w = (Ok l, w).
Proof.
  intros [(ns & d & (a & Ht & Ha & H) & Hh & Hk) _] Hb. destruct w as [st t]. cbn [lists GetDoubleList] in *. eexists. split; [reflexivity|].
  pose proof (ListShape.holds_d _ _ _ _ _ H) as Hd0. pose proof (lenZ_nonneg l) as Hn.
  assert (forall j, 0 <= j -> 0 <= at_ (ListShape.nd ns j) < 2 ^ 31) as Hat.
  { intros j Hj. pose proof (ListShape.nd_bounds _ _ _ _ _ j H Hj). unfold ListShape.at_, ENTRY_SIZE, ELEMENTS_START_INDEX. lia. }
  assert (forall z, 0 <= z < 2 ^ 31 -> i32 z = z) as Hi32 by (intros z Hz; unfold i32; rewrite Z.mod_small; lia).
  pose proof (double_store_run st st t _ _ (on_table_read _ _ _ _ _ Ha (ListShape.NumberOfNodes_run _ H))) as Hlen.
  apply (drain_run _ (fun j => mkIterator (Some t) (Z.of_nat j) (at_ (ListShape.nd ns (Z.of_nat j))))).
  - intros j x Hx. pose proof (lookup_lt_Some _ _ _ Hx) as Hj. unfold Next. cbn [GetIteratedLinkedList GetNextIndex GetDataIndex]. rewrite !Hi32 by (apply Hat || unfold lenZ in *; lia).
    mstep with Hlen. rewrite (proj2 (Z.leb_gt (lenZ l) _)) by (unfold lenZ in *; lia).
    mstep with (double_store_run st st t _ _ (on_table_read _ _ _ _ _ Ha (ListOps.FindElementByDataIndex_run _ H (Z.of_nat j) ltac:(unfold lenZ; lia) Hh))).
    rewrite Nat2Z.id, Hx. rewrite !u32_small by (pose proof (Hat (Z.of_nat j + 1) ltac:(lia)); unfold lenZ in *; lia). by replace (Z.of_nat (Datatypes.S j)) with (Z.of_nat j + 1) by lia.
  - eexists. unfold Next. cbn [GetIteratedLinkedList GetNextIndex]. rewrite Hi32 by (unfold lenZ in *; lia). mstep with Hlen. rewrite (proj2 (Z.leb_le (lenZ l) _)) by (unfold lenZ; lia). reflexivity.
Qed.

Section visits.
Context {E : Type} (f : JSTaggedValue -> Z -> E -> E).

(** A callback that leaves the container alone. *)
Definition visit (v : JSTaggedValue) (i : Z) : M (World * E) JSTaggedValue := fun p => (Ok VUndefined, (p.1, f v i p.2)).

Fixpoint visits (i : Z) (l : list JSTaggedValue) (e : E) : E :=
  match l with
  | [] => e
  | v :: l => visits (i + 1) l (f v i e)
  end.

Lemma foreach_nodes_run (n : nat) (j : Z) (st : Store) (t : Z) (e : E) (a : TaggedArray) (ns : list Z) (l : list JSTaggedValue) (d : Z) :
  st !! Z.to_nat t = Some a -> holds a ns l d -> 0 <= j -> j + Z.of_nat n = lenZ l ->
  foreach_nodes visit t n j (at_ (ListShape.nd ns j)) (mkWorld st t, e) = (Ok tt, (mkWorld st t, visits j (drop (Z.to_nat j) l) e)).
Proof.
  intros Ha H. revert j e. induction n as [|n IH]; intros j e Hj Hn.
  { cbn [foreach_nodes]. by rewrite drop_ge by (unfold lenZ in Hn; lia). }
  destruct (lookup_lt_is_Some_2 l (Z.to_nat j)) as [v Hv]; [unfold lenZ in Hn; lia|]. rewrite (drop_S l v (Z.to_nat j)) by done.
  assert (forall A (m : M TaggedArray A) r e', m a = (Ok r, a) -> at_list (E := E) t m (mkWorld st t, e') = (Ok r, (mkWorld st t, e'))) as Hat.
  { intros A m r e' Hm. unfold at_list, on_world, on_store. mcbn. cbn [lists fst snd]. by rewrite (on_table_read _ _ _ _ _ Ha Hm). }
  cbn [foreach_nodes visits]. mstep with (Hat _ _ _ e (ListOps.GetNextDataIndex_run _ H j ltac:(lia))). mstep with (Hat _ _ _ e (ListShape.val_run _ H j v Hj Hv)).
  mstep. rewrite IH by lia. replace (Z.to_nat (j + 1)) with (Datatypes.S (Z.to_nat j)) by lia. done.
Qed.

(** forEach calls the callback once for each element, in order. *)
Theorem linkedlist_ForEach_visits (F : option (Z * TaggedArray)) (k : Z) (w : World) (l : list JSTaggedValue) (e : E) : repr F k w l -> k < 2 ^ 28 ->
  ForEach visit (w, e) = (Ok VUndefined, (w, visits 0 l e)).
Proof.
  intros [(ns & d & (a & Ht & Ha & H) & Hh & Hk) _] Hb. destruct w as [st t]. cbn [lists GetDoubleList] in *. pose proof (ListShape.holds_d _ _ _ _ _ H). pose proof (lenZ_nonneg l).
  unfold ForEach. mstep. cbn [fst GetDoubleList]. assert (on_world (E := E) Length (mkWorld st t, e) = (Ok (lenZ l), (mkWorld st t, e))) as Hlen.
  { unfold on_world, Length. mcbn. cbn [fst]. rewrite (nodes_len Ha H). by rewrite u32_small by lia. }
  mstep with Hlen. mstep with (foreach_nodes_run (Z.to_nat (lenZ l)) 0 st t e a ns l d Ha H ltac:(lia) ltac:(lia)). done.
Qed.
End visits.
End LinkedList.
