(* ===== verification/LinkedHashTable.v ===== *)
(** * LinkedHashTable: linked_hash_table.h, linked_hash_table.cpp.

    A table is one TaggedArray: four words of header, one word per bucket with
    the last entry of its chain, and the entries in insertion order, each with
    the number of the entry before it in its chain.  Deleted entries stay in
    place until the table is rehashed into a new one.  The old table points to
    the new one, so that iterators which still hold the old one can follow: a
    rehash leaves in each deleted entry the number of entries deleted up to it.

    Tables live in a store and are named by their position in it, because a map
    and its iterators share them.  Weak keys (InsertWeakRef) are not modelled. *)
From S2P Require Import Prelude TaggedValue TaggedArray EcmaString LightWeightMap.
Local Open Scope Z_scope.

Module LinkedHashTable.

(** The template parameter: LinkedHashMapObject or LinkedHashSetObject. *)
Record HashObject : Type := mkHashObject { ENTRY_SIZE : Z; ENTRY_VALUE_INDEX : Z }.
Definition LinkedHashMapObject : HashObject := mkHashObject 2 1.
Definition LinkedHashSetObject : HashObject := mkHashObject 1 0.

Definition MIN_CAPACITY : Z := 4.
Definition NUMBER_OF_ELEMENTS_INDEX : Z := 0.
Definition NUMBER_OF_DELETED_ELEMENTS_INDEX : Z := 1.
Definition CAPACITY_INDEX : Z := 2.
Definition NEXT_TABLE_INDEX : Z := 3.
Definition ELEMENTS_START_INDEX : Z := 4.
Definition MIN_SHRINK_CAPACITY : Z := 16.

(** TryCastDoubleToInt32: a double outside the range of int32_t differs from
    whatever int the cast gives. *)
Definition TryCastDoubleToInt32 (bits : Z) : JSTaggedValue :=
  match double_of_bits bits with
  | DZero _ => VInt 0
  | DFin k =>
      let z := Z.quot k (2 ^ 1074) in
      if (Z.abs k mod 2 ^ 1074 =? 0) && (INT32_MIN <=? z) && (z <=? INT32_MAX) then VInt z else VDouble bits
  | _ => VDouble bits
  end.

Section hash.
Context (heap : Heap) (env : LightWeightMap.HashEnv).

(** LinkedHash::Hash; an object's identity hash is in [env]. *)
Definition Hash (key : JSTaggedValue) : Z :=
  let raw (key : JSTaggedValue) := i32 (LightWeightMap.GetHash32 env (LightWeightMap.bytes 8 (encode key))) in
  match key with
  | VObject a =>
      match LightWeightMap.symbol_hash env a with
      | Some h => i32 h
      | None =>
          match heap a with
          | HString _ _ => i32 (LightWeightMap.string_hash env a)
          | HBigInt _ digits => i32 (LightWeightMap.GetHash32 env (LightWeightMap.bytes 4 (hd 0 digits)))
          | HOther =>
              match LightWeightMap.identity_hash env a with
              | Some h => i32 h
              | None => raw key
              end
          end
      end
  | VDouble b => raw (TryCastDoubleToInt32 b)
  | _ => raw key
  end.
End hash.

(** ** One table *)

Section table.
Context (ho : HashObject).

Definition GetInt {S} (v : JSTaggedValue) : M S Z := match v with VInt z => mret z | _ => fault end.

Definition get_header (index : Z) : M TaggedArray Z :=
  v ← Arr.Get index;
  GetInt v.

Definition NumberOfElements : M TaggedArray Z := get_header NUMBER_OF_ELEMENTS_INDEX.
Definition NumberOfDeletedElements : M TaggedArray Z := get_header NUMBER_OF_DELETED_ELEMENTS_INDEX.
Definition Capacity : M TaggedArray Z := get_header CAPACITY_INDEX.
Definition SetNumberOfElements (nof : Z) : M TaggedArray unit := Arr.Set_ NUMBER_OF_ELEMENTS_INDEX (VInt nof).
Definition SetNumberOfDeletedElements (nod : Z) : M TaggedArray unit := Arr.Set_ NUMBER_OF_DELETED_ELEMENTS_INDEX (VInt nod).
Definition SetCapacity (capacity : Z) : M TaggedArray unit := Arr.Set_ CAPACITY_INDEX (VInt capacity).
Definition GetNextTable : M TaggedArray JSTaggedValue := Arr.Get NEXT_TABLE_INDEX.
Definition SetNextTable (nextTable : JSTaggedValue) : M TaggedArray unit := Arr.Set_ NEXT_TABLE_INDEX nextTable.

(** GetElement and SetElement assert what Get and Set assert. *)
Definition GetElement (index : Z) : M TaggedArray JSTaggedValue := Arr.Get index.
Definition SetElement (index : Z) (element : JSTaggedValue) : M TaggedArray unit := Arr.Set_ index element.

Definition EntryToIndex (entry : Z) : M TaggedArray Z :=
  capacity ← Capacity;
  mret (u32 (ELEMENTS_START_INDEX + capacity + entry * (ENTRY_SIZE ho + 1))).

Definition BucketToIndex (bucket : Z) : Z := u32 (bucket + ELEMENTS_START_INDEX).

Definition HashToBucket (hash : Z) : M TaggedArray Z :=
  capacity ← Capacity;
  mret (Z.land (u32 hash) (u32 (capacity - 1))).

Definition GetKey (entry : Z) : M TaggedArray JSTaggedValue :=
  index ← EntryToIndex entry;
  GetElement (i32 index).

Definition GetValue (entry : Z) : M TaggedArray JSTaggedValue :=
  index ← EntryToIndex entry;
  GetElement (i32 index + ENTRY_VALUE_INDEX ho).

Definition SetKey (entry : Z) (key : JSTaggedValue) : M TaggedArray unit :=
  index ← EntryToIndex entry;
  SetElement (i32 index) key.

Definition SetValue (entry : Z) (value : JSTaggedValue) : M TaggedArray unit :=
  index ← EntryToIndex entry;
  SetElement (i32 index + ENTRY_VALUE_INDEX ho) value.

Definition GetNextEntry (entry : Z) : M TaggedArray JSTaggedValue :=
  index ← EntryToIndex entry;
  GetElement (i32 index + ENTRY_SIZE ho).

Definition SetNextEntry (entry : Z) (nextEntry : JSTaggedValue) : M TaggedArray unit :=
  index ← EntryToIndex entry;
  SetElement (i32 index + ENTRY_SIZE ho) nextEntry.

Definition IsKey (key : JSTaggedValue) : bool := negb (IsHole key).

Definition InsertNewEntry (bucket entry : Z) : M TaggedArray unit :=
  let bucketIndex := BucketToIndex bucket in
  previousEntry ← GetElement bucketIndex;
  SetNextEntry entry previousEntry;;
  SetElement bucketIndex (VInt entry).

Definition GetDeletedNum (entry : Z) : M TaggedArray Z :=
  nextTable ← GetNextTable;
  ASSERT (negb (IsUndefined nextTable));;
  v ← GetNextEntry entry;
  GetInt v.

Definition SetDeletedNum (entry num : Z) : M TaggedArray unit :=
  nextTable ← GetNextTable;
  ASSERT (negb (IsUndefined nextTable));;
  SetNextEntry entry (VInt num).

Definition HasSufficientCapacity (numOfAddElements : Z) : M TaggedArray bool :=
  numberOfElements ← NumberOfElements;
  numOfDelElements ← NumberOfDeletedElements;
  capacity ← Capacity;
  let nof := numberOfElements + numOfAddElements in
  mret ((nof <? capacity) && (numOfDelElements <=? Z.quot (capacity - nof) 2) && (nof + Z.quot nof 2 <=? capacity)).

Definition RemoveEntry (entry : Z) : M TaggedArray unit :=
  capacity ← Capacity;
  ASSERT ((0 <=? entry) && (entry <? capacity));;
  index ← EntryToIndex entry;
  for_range 0 (ENTRY_SIZE ho) (fun i => SetElement (i32 index + i) VHole);;
  n ← NumberOfElements;
  SetNumberOfElements (n - 1);;
  d ← NumberOfDeletedElements;
  SetNumberOfDeletedElements (d + 1).

(** The number of deleted entries before [entry], from a table that was
    rehashed or cleared. *)
Definition GetDeletedElementsAt (entry : Z) : M TaggedArray Z :=
  nextTable ← GetNextTable;
  ASSERT (negb (IsUndefined nextTable));;
  d ← NumberOfDeletedElements;
  if d =? -1 then mret entry
  else
    r ← find_down (Z.to_nat entry) (entry - 1) (fun currentEntry =>
          key ← GetKey currentEntry;
          if IsHole key then
            n ← GetDeletedNum currentEntry;
            mret (Some n)
          else mret None);
    mret (default 0 r).

Section find.
Context (heap : Heap) (hash : JSTaggedValue -> Z).

(** A round of the loop of FindElement. *)
Definition find_step (key entry : JSTaggedValue) : M TaggedArray (JSTaggedValue + Z) :=
  if IsHole entry then mret (inr (-1))
  else
    e ← GetInt entry;
    element ← GetKey e;
    if negb (IsHole element) && SameValueZero heap key element then mret (inr e)
    else
      next ← GetNextEntry e;
      mret (inl next).

Definition FindElement (key : JSTaggedValue) : M TaggedArray Z :=
  if negb (IsKey key) then mret (-1)
  else
    bucket ← HashToBucket (hash key);
    entry ← GetElement (BucketToIndex bucket);
    capacity ← Capacity;
    while_fuel (Datatypes.S (Z.to_nat capacity)) (find_step key) entry.

Definition Get (key : JSTaggedValue) : M TaggedArray JSTaggedValue :=
  entry ← FindElement key;
  if entry =? -1 then mret VUndefined else GetValue entry.

Definition Has (key : JSTaggedValue) : M TaggedArray bool :=
  entry ← FindElement key;
  mret (negb (entry =? -1)).
End find.
End table.

(** ** Tables in the store *)

Section store.
Context (ho : HashObject) (heap : Heap) (hash : JSTaggedValue -> Z) (GetPowerOfTwoValue32 : Z -> Z).

Definition is_power_of_two (z : Z) : bool := (0 <? z) && (Z.land z (z - 1) =? 0).

(** The new table is the last of the store. *)
Definition Create (numberOfElements : Z) : M Store Z := fun st =>
  (ASSERT (0 <? numberOfElements);;
   ASSERT (is_power_of_two numberOfElements);;
   let length := ELEMENTS_START_INDEX + numberOfElements + numberOfElements * (ENTRY_SIZE ho + 1) in
   table ← build (Factory.NewTaggedArray length VHole) (
     SetNumberOfElements 0;;
     SetNumberOfDeletedElements 0;;
     SetCapacity numberOfElements);
   modify (fun st => st ++ [table]);;
   mret (lenZ st)) st.

Definition ComputeCapacity (atLeastSpaceFor : Z) : Z :=
  let rawCap := u32 (atLeastSpaceFor + Z.shiftr atLeastSpaceFor 1) in
  let capacity := i32 (GetPowerOfTwoValue32 rawCap) in
  if MIN_CAPACITY <? capacity then capacity else MIN_CAPACITY.

Definition ComputeCapacityWithShrink {S} (currentCapacity atLeastSpaceFor : Z) : M S Z :=
  if Z.quot currentCapacity 4 <? atLeastSpaceFor then mret currentCapacity
  else
    let newCapacity := ComputeCapacity (u32 atLeastSpaceFor) in
    ASSERT (atLeastSpaceFor <? newCapacity);;
    mret (if newCapacity <? MIN_SHRINK_CAPACITY then currentCapacity else newCapacity).

(** A round of the loop of Rehash; the loop variables are desEntry and
    currentDeletedElements. *)
Definition rehash_round (table newTable i : Z) (vars : Z * Z) : M Store (Z * Z) :=
  let '(desEntry, currentDeletedElements) := vars in
  fromIndex ← on_table table (EntryToIndex ho i);
  key ← on_table table (GetElement (i32 fromIndex));
  if IsHole key then
    on_table table (SetDeletedNum ho i (currentDeletedElements + 1));;
    mret (desEntry, currentDeletedElements + 1)
  else
    bucket ← on_table newTable (HashToBucket (hash key));
    on_table newTable (InsertNewEntry ho bucket desEntry);;
    desIndex ← on_table newTable (EntryToIndex ho desEntry);
    for_range 0 (ENTRY_SIZE ho) (fun j =>
      v ← on_table table (GetElement (i32 fromIndex + j));
      on_table newTable (SetElement (i32 desIndex + j) v));;
    mret (desEntry + 1, currentDeletedElements).

Fixpoint fold_up {S X} (n : nat) (i : Z) (body : Z -> X -> M S X) (x : X) : M S X :=
  match n with
  | O => mret x
  | Datatypes.S n' => x' ← body i x; fold_up n' (i + 1) body x'
  end.

Definition Rehash (table newTable : Z) : M Store unit :=
  newCapacity ← on_table newTable Capacity;
  numberOfElements ← on_table table NumberOfElements;
  ASSERT (numberOfElements <? newCapacity);;
  numberOfDeletedElements ← on_table table NumberOfDeletedElements;
  let numberOfAllElements := numberOfElements + numberOfDeletedElements in
  on_table table (SetNextTable (VObject newTable));;
  fold_up (Z.to_nat numberOfAllElements) 0 (rehash_round table newTable) (0, 0);;
  numberOfElements ← on_table table NumberOfElements;
  on_table newTable (SetNumberOfElements numberOfElements);;
  on_table newTable (SetNumberOfDeletedElements 0).

Definition GrowCapacity (table numberOfAddedElements : Z) : M Store Z :=
  sufficient ← on_table table (HasSufficientCapacity numberOfAddedElements);
  if (sufficient : bool) then mret table
  else
    numberOfElements ← on_table table NumberOfElements;
    newTable ← Create (ComputeCapacity (u32 (numberOfElements + numberOfAddedElements)));
    Rehash table newTable;;
    mret newTable.

Definition Insert (table : Z) (key value : JSTaggedValue) : M Store Z :=
  ASSERT (IsKey key);;
  entry ← on_table table (FindElement ho heap hash key);
  if negb (entry =? -1) then
    on_table table (SetValue ho entry value);;
    mret table
  else
    newTable ← GrowCapacity table 1;
    on_table newTable (
      bucket ← HashToBucket (hash key);
      n ← NumberOfElements;
      d ← NumberOfDeletedElements;
      let entry := n + d in
      InsertNewEntry ho bucket entry;;
      SetKey ho entry key;;
      SetValue ho entry value;;
      n ← NumberOfElements;
      SetNumberOfElements (n + 1));;
    mret newTable.

Definition Shrink (table additionalCapacity : Z) : M Store Z :=
  capacity ← on_table table Capacity;
  numberOfElements ← on_table table NumberOfElements;
  newCapacity ← ComputeCapacityWithShrink capacity (numberOfElements + additionalCapacity);
  if newCapacity =? capacity then mret table
  else
    newTable ← Create newCapacity;
    Rehash table newTable;;
    mret newTable.

(** LinkedHashMap::Delete and LinkedHashSet::Delete. *)
Definition Remove (table : Z) (key : JSTaggedValue) : M Store Z :=
  entry ← on_table table (FindElement ho heap hash key);
  if entry =? -1 then mret table
  else
    on_table table (RemoveEntry ho entry);;
    Shrink table 0.

Definition Clear (table : Z) : M Store Z :=
  newMap ← Create MIN_CAPACITY;
  capacity ← on_table table Capacity;
  (if 0 <? capacity then
     on_table table (SetNextTable (VObject newMap));;
     on_table table (SetNumberOfDeletedElements (-1))
   else mret tt);;
  mret newMap.
End store.
(** ** The words of a table *)

Definition word (a : TaggedArray) (x : Z) : option JSTaggedValue := a !! Z.to_nat x.
Definition put (a : TaggedArray) (x : Z) (v : JSTaggedValue) : TaggedArray := <[Z.to_nat x := v]> a.

Lemma lenZ_put (a : TaggedArray) (x : Z) (v : JSTaggedValue) : lenZ (put a x v) = lenZ a.
Proof. unfold put, lenZ. by rewrite length_insert. Qed.

Lemma word_put (a : TaggedArray) (x y : Z) (v : JSTaggedValue) :
  0 <= x < lenZ a -> 0 <= y -> word (put a x v) y = if y =? x then Some v else word a y.
Proof.
  unfold word, put, lenZ. intros Hx Hy. destruct (Z.eqb_spec y x) as [->|Hne]; [apply list_lookup_insert_eq; lia|apply list_lookup_insert_ne; lia].
Qed.

Lemma word_put_eq (a : TaggedArray) (x : Z) (v : JSTaggedValue) : 0 <= x < lenZ a -> word (put a x v) x = Some v.
Proof. intros Hx. rewrite word_put by lia. by rewrite Z.eqb_refl. Qed.

Lemma word_put_ne (a : TaggedArray) (x y : Z) (v : JSTaggedValue) : 0 <= x -> 0 <= y -> x <> y -> word (put a x v) y = word a y.
Proof. unfold word, put. intros Hx Hy Hne. apply list_lookup_insert_ne. lia. Qed.

Lemma word_length (a : TaggedArray) (x : Z) (v : JSTaggedValue) : 0 <= x -> word a x = Some v -> x < lenZ a.
Proof. unfold word, lenZ. intros Hx Hl%lookup_lt_Some. lia. Qed.

Lemma Get_word (a : TaggedArray) (x : Z) (v : JSTaggedValue) : 0 <= x -> word a x = Some v -> Arr.Get x a = (Ok v, a).
Proof. unfold word, Arr.Get, read. intros Hx Hl. zb. by rewrite Hl. Qed.

Lemma Set_word (a : TaggedArray) (x : Z) (v : JSTaggedValue) : 0 <= x < lenZ a -> Arr.Set_ x v a = (Ok tt, put a x v).
Proof. unfold Arr.Set_, put. intros Hx. by zb. Qed.

Lemma header_run (a : TaggedArray) (x z : Z) : 0 <= x -> word a x = Some (VInt z) -> get_header x a = (Ok z, a).
Proof. intros Hx Hl. unfold get_header. by mstep by (by apply Get_word). Qed.

(** The four words of the header. *)
Record header (a : TaggedArray) (n d cap : Z) (next : JSTaggedValue) : Prop := mkHeader {
  header_n : word a NUMBER_OF_ELEMENTS_INDEX = Some (VInt n);
  header_d : word a NUMBER_OF_DELETED_ELEMENTS_INDEX = Some (VInt d);
  header_cap : word a CAPACITY_INDEX = Some (VInt cap);
  header_next : word a NEXT_TABLE_INDEX = Some next;
}.

Section header_runs.
Context (a : TaggedArray) (n d cap : Z) (next : JSTaggedValue) (Ha : header a n d cap next).

Lemma NumberOfElements_run : NumberOfElements a = (Ok n, a).
Proof. apply header_run; [done|apply Ha]. Qed.

Lemma NumberOfDeletedElements_run : NumberOfDeletedElements a = (Ok d, a).
Proof. apply header_run; [done|apply Ha]. Qed.

Lemma Capacity_run : Capacity a = (Ok cap, a).
Proof. apply header_run; [done|apply Ha]. Qed.

Lemma GetNextTable_run : GetNextTable a = (Ok next, a).
Proof. apply Get_word; [done|apply Ha]. Qed.

Lemma header_put (x : Z) (v : JSTaggedValue) : 4 <= x -> header (put a x v) n d cap next.
Proof.
  intros Hx. destruct Ha as [H0 H1 H2 H3]. unfold NUMBER_OF_ELEMENTS_INDEX, NUMBER_OF_DELETED_ELEMENTS_INDEX, CAPACITY_INDEX, NEXT_TABLE_INDEX in *.
  split; unfold NUMBER_OF_ELEMENTS_INDEX, NUMBER_OF_DELETED_ELEMENTS_INDEX, CAPACITY_INDEX, NEXT_TABLE_INDEX; rewrite word_put_ne; (done || lia).
Qed.
End header_runs.

Lemma header_set_n (a : TaggedArray) (n n' d cap : Z) (next : JSTaggedValue) :
  header a n d cap next -> header (put a NUMBER_OF_ELEMENTS_INDEX (VInt n')) n' d cap next.
Proof.
  intros [H0 H1 H2 H3]. pose proof (word_length _ _ _ (ltac:(done) : 0 <= NUMBER_OF_ELEMENTS_INDEX) H0).
  split; rewrite ?word_put_ne by done; rewrite ?word_put_eq by (split; [done|lia]); done.
Qed.

Lemma header_set_d (a : TaggedArray) (n d d' cap : Z) (next : JSTaggedValue) :
  header a n d cap next -> header (put a NUMBER_OF_DELETED_ELEMENTS_INDEX (VInt d')) n d' cap next.
Proof.
  intros [H0 H1 H2 H3]. pose proof (word_length _ _ _ (ltac:(done) : 0 <= NUMBER_OF_DELETED_ELEMENTS_INDEX) H1).
  split; rewrite ?word_put_ne by done; rewrite ?word_put_eq by (split; [done|lia]); done.
Qed.

Lemma header_set_next (a : TaggedArray) (n d cap : Z) (next next' : JSTaggedValue) :
  header a n d cap next -> header (put a NEXT_TABLE_INDEX next') n d cap next'.
Proof.
  intros [H0 H1 H2 H3]. pose proof (word_length _ _ _ (ltac:(done) : 0 <= NEXT_TABLE_INDEX) H3).
  split; rewrite ?word_put_ne by done; rewrite ?word_put_eq by (split; [done|lia]); done.
Qed.

(** What is written in the header leaves the rest alone. *)
Lemma word_put_header (a : TaggedArray) (x y : Z) (v : JSTaggedValue) : 0 <= x < 4 -> 4 <= y -> word (put a x v) y = word a y.
Proof. intros Hx Hy. apply word_put_ne; lia. Qed.

(** A table small enough for its indices to be ints. *)
Definition small_cap (ho : HashObject) (cap : Z) : Prop := 4 <= cap /\ 4 + cap + cap * (ENTRY_SIZE ho + 1) < 2 ^ 31.

(** The sizes that the two instances of the template have. *)
Class HashObjectOk (ho : HashObject) : Prop := mkHashObjectOk {
  entry_size : ENTRY_SIZE ho = 1 \/ ENTRY_SIZE ho = 2;
  value_index : ENTRY_VALUE_INDEX ho = ENTRY_SIZE ho - 1;
}.

#[export] Instance LinkedHashMapObject_ok : HashObjectOk LinkedHashMapObject.
Proof. split; simpl; auto. Qed.
#[export] Instance LinkedHashSetObject_ok : HashObjectOk LinkedHashSetObject.
Proof. split; simpl; auto. Qed.

(** ** Entries and chains *)

(** An entry is the list of its words; a deleted entry has holes. *)
Notation entry := (list JSTaggedValue).

Section entries.
Context (ho : HashObject) `{Hho : !HashObjectOk ho}.

Definition index_of (cap i : Z) : Z := 4 + cap + i * (ENTRY_SIZE ho + 1).

Lemma index_of_inj (cap i j i' j' : Z) :
  0 <= j <= ENTRY_SIZE ho -> 0 <= j' <= ENTRY_SIZE ho -> index_of cap i + j = index_of cap i' + j' -> i = i' /\ j = j'.
Proof. destruct entry_size as [E|E]; unfold index_of; rewrite E; lia. Qed.

Lemma EntryToIndex_run (a : TaggedArray) (n d cap i : Z) (next : JSTaggedValue) :
  header a n d cap next -> small_cap ho cap -> 0 <= i < cap ->
  EntryToIndex ho i a = (Ok (index_of cap i), a) /\ i32 (index_of cap i) = index_of cap i /\ 4 + cap <= index_of cap i /\
  index_of cap i + ENTRY_SIZE ho < 4 + cap + cap * (ENTRY_SIZE ho + 1).
Proof.
  intros Ha [Hc Hs] Hi. assert (4 + cap <= index_of cap i /\ index_of cap i + ENTRY_SIZE ho < 4 + cap + cap * (ENTRY_SIZE ho + 1)) as [H1 H2].
  { destruct entry_size as [E|E]; unfold index_of; rewrite E; lia. }
  assert (0 <= ENTRY_SIZE ho) by (destruct entry_size; lia). split_and!; [|apply i32_id; lia|done|done].
  unfold EntryToIndex. mstep by (by eapply Capacity_run). unfold ELEMENTS_START_INDEX. rewrite u32_small; [done|]. fold (index_of cap i). lia.
Qed.

(** Word [j] of an entry that may be deleted. *)
Definition entry_word (oe : option entry) (j : Z) : option JSTaggedValue :=
  match oe with Some e => e !! Z.to_nat j | None => Some VHole end.

Definition ref_word (o : option Z) : JSTaggedValue := match o with Some i => VInt i | None => VHole end.

(** The last entry before entry [i] in the chain of bucket [b], where [bs] are
    the buckets of the entries. *)
Definition last_in (bs : list Z) (b : Z) : option Z := find_last_index (Z.eqb b) bs.

Definition entries_at (a : TaggedArray) (cap : Z) (es : list (option entry)) : Prop :=
  forall i oe j, es !! Z.to_nat i = Some oe -> 0 <= i -> 0 <= j < ENTRY_SIZE ho -> word a (index_of cap i + j) = entry_word oe j.

Definition links_at (a : TaggedArray) (cap : Z) (bs : list Z) : Prop :=
  forall i b, bs !! Z.to_nat i = Some b -> 0 <= i -> word a (index_of cap i + ENTRY_SIZE ho) = Some (ref_word (last_in (take (Z.to_nat i) bs) b)).

Definition buckets_at (a : TaggedArray) (cap : Z) (bs : list Z) : Prop :=
  forall b, 0 <= b < cap -> word a (4 + b) = Some (ref_word (last_in bs b)).

Definition entry_ok (oe : option entry) : Prop :=
  match oe with Some e => lenZ e = ENTRY_SIZE ho /\ hd VHole e <> VHole | None => True end.

(** The array holds these entries in these chains. *)
Record body (a : TaggedArray) (cap : Z) (es : list (option entry)) (bs : list Z) : Prop := mkBody {
  body_len : lenZ a = 4 + cap + cap * (ENTRY_SIZE ho + 1);
  body_entries : entries_at a cap es;
  body_links : links_at a cap bs;
  body_buckets : buckets_at a cap bs;
  body_same : length bs = length es;
  body_fit : lenZ es <= cap;
  body_range : Forall (fun b => 0 <= b < cap) bs;
  body_ok : Forall entry_ok es;
}.

Definition key_of (e : entry) : JSTaggedValue := hd VHole e.
Definition value_of (e : entry) : JSTaggedValue := default VHole (e !! Z.to_nat (ENTRY_VALUE_INDEX ho)).
Definition set_value (v : JSTaggedValue) (e : entry) : entry := <[Z.to_nat (ENTRY_VALUE_INDEX ho) := v]> e.
Definition new_entry (key value : JSTaggedValue) : entry := set_value value (<[0%nat := key]> (replicate (Z.to_nat (ENTRY_SIZE ho)) VHole)).
Definition key_word (oe : option entry) : JSTaggedValue := match oe with Some e => key_of e | None => VHole end.
End entries.
(** ** SameValueZero as equality of identities *)

Definition zero_ident (i : ident) : ident := match i with KNum (DZero _) => KNum (DZero false) | _ => i end.
Definition zident (heap : Heap) (v : JSTaggedValue) : ident := zero_ident (ident_of heap v).

Lemma zero_ident_number (x y : dbl) :
  dbl_ok x -> dbl_ok y -> zero_ident (KNum x) = zero_ident (KNum y) <-> double_eqb x y || (isnan x && isnan y) = true.
Proof.
  intros Hx Hy. rewrite orb_true_iff, double_eqb_spec, andb_true_iff by done. destruct x, y; simpl; (split; [try done|]); naive_solver.
Qed.

Lemma SameValueZero_zident (heap : Heap) (x y : JSTaggedValue) : SameValueZero heap x y = true <-> zident heap x = zident heap y.
Proof.
  unfold SameValueZero, word_eqb, zident. case_bool_decide as Hxy; [by subst|].
  destruct (IsNumber x && IsNumber y) eqn:Hn.
  { apply andb_true_iff in Hn as [Hnx Hny]. rewrite !ident_number by done. symmetry. apply zero_ident_number; apply ExtractNumber_ok. }
  rewrite (compare_objects heap x y Hn Hxy (fun sx sy => StringsAreEqual sx.2 sy.2)) by (intros; apply bool_decide_eq_true).
  split; [by intros ->|]. pose proof (ident_of_inv heap x) as Ix. pose proof (ident_of_inv heap y) as Iy.
  destruct (ident_of heap x) as [[]| | |] eqn:Ex, (ident_of heap y) as [[]| | |] eqn:Ey; simpl; try congruence; rewrite Ix, Iy in Hn; done.
Qed.

(** What a table relies on of the hash: keys that SameValueZero identifies have
    one hash.  [ok] restricts the keys. *)
Class ZeroHash (heap : Heap) (hash : JSTaggedValue -> Z) (ok : JSTaggedValue -> Prop) : Prop :=
  zero_hash : forall x y, ok x -> ok y -> SameValueZero heap x y = true -> hash x = hash y.

Definition bucket_of (cap h : Z) : Z := Z.land (u32 h) (u32 (cap - 1)).

Lemma land_le (x m : Z) : 0 <= m -> 0 <= Z.land x m <= m.
Proof.
  intros Hm. split; [apply Z.land_nonneg; auto|]. pose proof (Z.add_lor_land (Z.ldiff m x) (Z.land m x)) as H.
  rewrite Z.lor_ldiff_and in H. assert (Z.land (Z.ldiff m x) (Z.land m x) = 0) as E.
  { apply Z.bits_inj'. intros i Hi. rewrite !Z.land_spec, Z.ldiff_spec, Z.bits_0. by destruct (Z.testbit m i), (Z.testbit x i). }
  assert (0 <= Z.ldiff m x) by (apply Z.ldiff_nonneg; auto). rewrite (Z.land_comm x m). lia.
Qed.

Lemma bucket_of_range (cap h : Z) : 0 < cap < 2 ^ 31 -> 0 <= bucket_of cap h < cap.
Proof.
  intros Hc. unfold bucket_of. rewrite (u32_small (cap - 1)) by lia. pose proof (land_le (u32 h) (cap - 1) ltac:(lia)). lia.
Qed.

Lemma find_last_index_range {A} (p : A -> bool) (l : list A) (i : Z) :
  find_last_index p l = Some i -> exists x, l !! Z.to_nat i = Some x /\ p x = true /\ 0 <= i < lenZ l.
Proof.
  revert i. induction l as [|x l IH] using rev_ind; intros i; [done|]. rewrite find_last_index_snoc. destruct (p x) eqn:Hp.
  - intros [= <-]. exists x. split_and!; [|done|apply lenZ_nonneg|lenz]. apply list_lookup_middle. unfold lenZ. lia.
  - intros (y & Hl & Hy & Hr)%IH. exists y. split_and!; [|done|lia|lenz]. rewrite lookup_app_l; [done|]. by apply lookup_lt_is_Some_1.
Qed.

(** ** Reading a table *)

Section reading.
Context (ho : HashObject) `{Hho : !HashObjectOk ho}.
Context (a : TaggedArray) (n d cap : Z) (next : JSTaggedValue) (es : list (option entry)) (bs : list Z).
Context (Ha : header a n d cap next) (Hcap : small_cap ho cap).

Lemma entry_size_bounds : 1 <= ENTRY_SIZE ho <= 2 /\ 0 <= ENTRY_VALUE_INDEX ho < ENTRY_SIZE ho.
Proof. pose proof value_index. destruct entry_size; lia. Qed.

Lemma GetKey_run (i : Z) (oe : option entry) :
  entries_at ho a cap es -> Forall (entry_ok ho) es -> lenZ es <= cap -> 0 <= i -> es !! Z.to_nat i = Some oe -> GetKey ho i a = (Ok (key_word oe), a).
Proof.
  intros He Hok Hfit Hi Hl. pose proof (lookup_lt_Some _ _ _ Hl) as Hlt. unfold lenZ in Hfit.
  destruct (EntryToIndex_run ho a n d cap i next Ha Hcap ltac:(lia)) as (Hrun & E32 & Hlo & Hhi). pose proof entry_size_bounds as HS.
  unfold GetKey. mstep with Hrun. rewrite E32. apply Get_word; [destruct Hcap; lia|].
  rewrite <- (Z.add_0_r (index_of ho cap i)), (He i oe 0) by (done || lia). rewrite Forall_lookup in Hok. specialize (Hok _ _ Hl).
  destruct oe as [e|]; [|done]. destruct Hok as [Hle _]. simpl. destruct e; [|done]. change (lenZ []) with 0 in Hle. lia.
Qed.

Lemma GetValue_run (i : Z) (e : entry) :
  entries_at ho a cap es -> Forall (entry_ok ho) es -> lenZ es <= cap -> 0 <= i -> es !! Z.to_nat i = Some (Some e) -> GetValue ho i a = (Ok (value_of ho e), a).
Proof.
  intros He Hok Hfit Hi Hl. pose proof (lookup_lt_Some _ _ _ Hl) as Hlt. unfold lenZ in Hfit.
  destruct (EntryToIndex_run ho a n d cap i next Ha Hcap ltac:(lia)) as (Hrun & E32 & Hlo & Hhi). pose proof entry_size_bounds as HS.
  unfold GetValue. mstep with Hrun. rewrite E32. apply Get_word; [destruct Hcap; lia|].
  rewrite (He i (Some e)) by (done || lia). rewrite Forall_lookup in Hok. destruct (Hok _ _ Hl) as [Hle _]. unfold lenZ in Hle. simpl. unfold value_of.
  destruct (e !! Z.to_nat (ENTRY_VALUE_INDEX ho)) eqn:E; [done|]. apply lookup_ge_None in E. lia.
Qed.

Lemma GetNextEntry_run (i b : Z) :
  links_at ho a cap bs -> lenZ bs <= cap -> 0 <= i -> bs !! Z.to_nat i = Some b -> GetNextEntry ho i a = (Ok (ref_word (last_in (take (Z.to_nat i) bs) b)), a).
Proof.
  intros Hlk Hfit Hi Hl. pose proof (lookup_lt_Some _ _ _ Hl) as Hlt. unfold lenZ in Hfit.
  destruct (EntryToIndex_run ho a n d cap i next Ha Hcap ltac:(lia)) as (Hrun & E32 & Hlo & Hhi). pose proof entry_size_bounds as HS.
  unfold GetNextEntry. mstep with Hrun. rewrite E32. apply Get_word; [destruct Hcap; lia|]. by apply Hlk.
Qed.

Lemma HashToBucket_run (h : Z) : HashToBucket h a = (Ok (bucket_of cap h), a).
Proof. unfold HashToBucket. by mstep by (by eapply Capacity_run). Qed.

Lemma BucketToIndex_spec (b : Z) : 0 <= b < cap -> BucketToIndex b = 4 + b.
Proof. intros Hb. unfold BucketToIndex, ELEMENTS_START_INDEX. destruct Hcap. pose proof entry_size_bounds. rewrite u32_small by nia. lia. Qed.

(** *** FindElement *)

Section find.
Context (heap : Heap) (hash : JSTaggedValue -> Z) (key : JSTaggedValue).
Hypothesis Hb : body ho a cap es bs.

Definition matches (oe : option entry) : bool := match oe with Some e => SameValueZero heap key (key_of e) | None => false end.

Lemma key_word_live (oe : option entry) : entry_ok ho oe -> negb (IsHole (key_word oe)) && SameValueZero heap key (key_word oe) = matches oe.
Proof. destruct oe as [e|]; [|done]. intros [_ Hh]. simpl. unfold key_of. by destruct (hd VHole e). Qed.

(** The walk along the chain of bucket [b], from any of its entries. *)
Lemma chain_walk (b : Z) (m fuel : nat) :
  (forall i oe, es !! i = Some oe -> matches oe = true -> bs !! i = Some b) -> (m <= length es)%nat -> (m < fuel)%nat ->
  while_fuel fuel (find_step ho heap key) (ref_word (last_in (take m bs) b)) a
  = (Ok (default (-1) (find_last_index matches (take m es))), a).
Proof.
  intros Hin. revert fuel. induction m as [|m IH]; intros fuel Hm Hf.
  { destruct fuel; [lia|]. cbn [while_fuel]. done. }
  destruct (lookup_lt_is_Some_2 es m ltac:(lia)) as [oe Hoe]. destruct (lookup_lt_is_Some_2 bs m) as [b' Hb']; [rewrite (body_same _ _ _ _ _ Hb); lia|].
  rewrite (take_S_r bs m b' Hb'), (take_S_r es m oe Hoe). unfold last_in. rewrite !find_last_index_snoc.
  assert (lenZ (take m bs) = Z.of_nat m) as -> by (unfold lenZ; rewrite length_take_le; [done|]; pose proof (lookup_lt_Some _ _ _ Hb'); lia).
  assert (lenZ (take m es) = Z.of_nat m) as -> by (unfold lenZ; rewrite length_take_le; lia).
  pose proof (proj1 (Forall_lookup _ _) (body_ok _ _ _ _ _ Hb) _ _ Hoe) as Hok. destruct (Z.eqb_spec b b') as [<-|Hne].
  - destruct fuel as [|fuel]; [lia|]. cbn [while_fuel ref_word].
    assert (GetKey ho (Z.of_nat m) a = (Ok (key_word oe), a)) as Hk by (apply GetKey_run; [apply Hb|apply Hb|apply Hb|lia|by rewrite Nat2Z.id]).
    assert (GetNextEntry ho (Z.of_nat m) a = (Ok (ref_word (last_in (take m bs) b)), a)) as Hn.
    { rewrite (GetNextEntry_run _ b); [by rewrite Nat2Z.id|apply Hb|unfold lenZ; rewrite (body_same _ _ _ _ _ Hb); apply Hb|lia|by rewrite Nat2Z.id]. }
    assert (find_step ho heap key (VInt (Z.of_nat m)) a = (Ok (if matches oe then inr (Z.of_nat m) else inl (ref_word (last_in (take m bs) b))), a)) as Hstep.
    { unfold find_step. cbn [IsHole]. mstep. mstep with Hk. rewrite key_word_live by done. destruct (matches oe); [done|]. by mstep with Hn. }
    mstep with Hstep. destruct (matches oe); [done|]. apply IH; lia.
  - destruct (matches oe) eqn:Hmt; [|apply IH; lia]. exfalso. pose proof (Hin _ _ Hoe Hmt). congruence.
Qed.

(** Live entries are in the chains of their hashes. *)
Definition hashed : Prop := forall i e, es !! i = Some (Some e) -> bs !! i = Some (bucket_of cap (hash (key_of e))).

Context (ok : JSTaggedValue -> Prop) `{HZ : !ZeroHash heap hash ok}.

Lemma FindElement_run :
  hashed -> Forall (fun oe => match oe with Some e => ok (key_of e) | None => True end) es -> ok key -> key <> VHole ->
  FindElement ho heap hash key a = (Ok (default (-1) (find_last_index matches es)), a).
Proof.
  intros Hh Hoks Hk Hne. unfold FindElement, IsKey. assert (IsHole key = false) as -> by (by destruct key). cbn [negb].
  mstep by apply HashToBucket_run. pose proof entry_size_bounds as HS. destruct Hcap as [Hc4 Hc31]. pose proof (bucket_of_range cap (hash key) ltac:(nia)) as Hr.
  rewrite BucketToIndex_spec by lia. mstep by (apply Get_word; [lia|by apply (body_buckets _ _ _ _ _ Hb)]). mstep by (by eapply Capacity_run).
  pose proof (body_same _ _ _ _ _ Hb) as Hs. pose proof (body_fit _ _ _ _ _ Hb) as Hfit. unfold lenZ in Hfit.
  rewrite <- (firstn_all es) at 1. rewrite <- (firstn_all bs). rewrite Hs. apply chain_walk; [|lia|lia].
  intros i oe Hoe Hm. destruct oe as [e|]; [|done]. rewrite (Hh _ _ Hoe). do 2 f_equal. symmetry. eapply zero_hash; [done| |done].
  exact (proj1 (Forall_lookup _ _) Hoks _ _ Hoe).
Qed.
End find.
End reading.
(** ** Writing a table *)

Section writing.
Context (ho : HashObject) `{Hho : !HashObjectOk ho}.

(** [a'] differs from [a] in the words of entry [i] only. *)
Definition frame (cap i : Z) (a a' : TaggedArray) : Prop :=
  lenZ a' = lenZ a /\ forall x, 0 <= x -> (forall j, 0 <= j < ENTRY_SIZE ho -> x <> index_of ho cap i + j) -> word a' x = word a x.

Lemma frame_refl (cap i : Z) (a : TaggedArray) : frame cap i a a.
Proof. done. Qed.

Lemma frame_put (cap i j : Z) (a a' : TaggedArray) (v : JSTaggedValue) :
  frame cap i a a' -> 0 <= j < ENTRY_SIZE ho -> 0 <= index_of ho cap i + j -> frame cap i a (put a' (index_of ho cap i + j) v).
Proof.
  intros [Hl Hf] Hj Hn. split; [by rewrite lenZ_put|]. intros x Hx Hne. rewrite word_put_ne; [by apply Hf|done|done|]. specialize (Hne j Hj). congruence.
Qed.

Section one.
Context (a a' : TaggedArray) (n d cap : Z) (next : JSTaggedValue) (es : list (option entry)) (bs : list Z).
Hypothesis Hcap : small_cap ho cap.

Lemma index_of_above (i : Z) : 0 <= i -> 4 + cap <= index_of ho cap i.
Proof. intros Hi. pose proof (entry_size_bounds ho). unfold index_of. nia. Qed.

Lemma frame_header (i : Z) : 0 <= i -> frame cap i a a' -> header a n d cap next -> header a' n d cap next.
Proof.
  intros Hi [_ Hf] [H0 H1 H2 H3]. pose proof (index_of_above i Hi). destruct Hcap as [Hc _].
  unfold NUMBER_OF_ELEMENTS_INDEX, NUMBER_OF_DELETED_ELEMENTS_INDEX, CAPACITY_INDEX, NEXT_TABLE_INDEX in *.
  split; unfold NUMBER_OF_ELEMENTS_INDEX, NUMBER_OF_DELETED_ELEMENTS_INDEX, CAPACITY_INDEX, NEXT_TABLE_INDEX; rewrite Hf by lia; done.
Qed.

Lemma frame_links (i : Z) : 0 <= i -> frame cap i a a' -> links_at ho a cap bs -> links_at ho a' cap bs.
Proof.
  intros Hi [_ Hf] Hl k b Hk Hk0. pose proof (entry_size_bounds ho). pose proof (index_of_above k Hk0). destruct Hcap. rewrite Hf; [by apply Hl|lia|].
  intros j Hj E. apply index_of_inj in E; lia || done.
Qed.

Lemma frame_buckets (i : Z) : 0 <= i -> frame cap i a a' -> buckets_at a cap bs -> buckets_at a' cap bs.
Proof. intros Hi [_ Hf] Hl b Hb. pose proof (index_of_above i Hi). rewrite Hf by lia. by apply Hl. Qed.

Lemma frame_entries (i : Z) (oe : option entry) (es' : list (option entry)) :
  0 <= i -> frame cap i a a' -> entries_at ho a cap es ->
  (forall j, 0 <= j < ENTRY_SIZE ho -> word a' (index_of ho cap i + j) = entry_word oe j) ->
  (forall k, 0 <= k -> k <> i -> es' !! Z.to_nat k = es !! Z.to_nat k) -> (forall oe', es' !! Z.to_nat i = Some oe' -> oe' = oe) ->
  entries_at ho a' cap es'.
Proof.
  intros Hi [_ Hf] He Hw Hsame Hat k oe' j Hk Hk0 Hj. destruct (Z.eq_dec k i) as [->|Hne].
  - rewrite (Hat _ Hk). by apply Hw.
  - rewrite Hsame in Hk by done. pose proof (index_of_above k Hk0). destruct Hcap. rewrite Hf; [by apply He|lia|].
    intros j' Hj' E. apply index_of_inj in E; lia || done.
Qed.

(** An entry is overwritten. *)
Lemma body_replace (i : Z) (oe : option entry) :
  body ho a cap es bs -> 0 <= i < lenZ es -> frame cap i a a' -> entry_ok ho oe ->
  (forall j, 0 <= j < ENTRY_SIZE ho -> word a' (index_of ho cap i + j) = entry_word oe j) ->
  body ho a' cap (<[Z.to_nat i := oe]> es) bs.
Proof.
  intros [Hl He Hk Hb Hs Hf Hr Ho] Hi Hfr Hok Hw. pose proof Hfr as [Hfl _]. unfold lenZ in Hi. split.
  - by rewrite Hfl.
  - apply (frame_entries i oe); [lia|done|done|done|intros k Hk0 Hne; apply list_lookup_insert_ne; lia|].
    intros oe'. rewrite list_lookup_insert_eq by lia. congruence.
  - by apply (frame_links i); [lia|..].
  - by apply (frame_buckets i); [lia|..].
  - by rewrite length_insert.
  - unfold lenZ in *. by rewrite length_insert.
  - done.
  - by apply Forall_insert.
Qed.

Lemma body_put_header (x : Z) (v : JSTaggedValue) : 0 <= x < 4 -> body ho a cap es bs -> body ho (put a x v) cap es bs.
Proof.
  intros Hx [Hl He Hk Hb Hs Hf Hr Ho]. pose proof (entry_size_bounds ho). destruct Hcap. split; try done.
  - by rewrite lenZ_put.
  - intros i oe j Hi Hi0 Hj. pose proof (index_of_above i Hi0). rewrite word_put_header by lia. by apply He.
  - intros i b Hi Hi0. pose proof (index_of_above i Hi0). rewrite word_put_header by lia. by apply Hk.
  - intros b Hb'. rewrite word_put_header by lia. by apply Hb.
Qed.
End one.

(** *** InsertNewEntry puts entry |es| at the head of the chain *)

Lemma last_in_snoc (bs : list Z) (b b' : Z) : last_in (bs ++ [b]) b' = if b' =? b then Some (lenZ bs) else last_in bs b'.
Proof. unfold last_in. by rewrite find_last_index_snoc. Qed.

Lemma InsertNewEntry_run (a : TaggedArray) (n d cap b : Z) (next : JSTaggedValue) (es : list (option entry)) (bs : list Z) :
  header a n d cap next -> small_cap ho cap -> body ho a cap es bs -> lenZ es < cap -> 0 <= b < cap ->
  exists a', InsertNewEntry ho b (lenZ es) a = (Ok tt, a') /\ header a' n d cap next /\ lenZ a' = lenZ a /\
    entries_at ho a' cap es /\ links_at ho a' cap (bs ++ [b]) /\ buckets_at a' cap (bs ++ [b]).
Proof.
  intros Ha Hcap Hbd Hlt Hb. pose proof Hbd as [Hl He Hk Hbk Hs Hf Hr Ho]. pose proof (entry_size_bounds ho) as HS. pose proof (lenZ_nonneg es) as Hn0.
  destruct (EntryToIndex_run ho a n d cap (lenZ es) next Ha Hcap ltac:(lia)) as (Hrun & E32 & Hlo & Hhi).
  assert (4 <= cap) by apply Hcap. assert (lenZ bs = lenZ es) as HLb by (unfold lenZ; lia).
  set (x := index_of ho cap (lenZ es) + ENTRY_SIZE ho) in *. set (prev := ref_word (last_in bs b)).
  set (a1 := put a x prev). assert (lenZ a1 = lenZ a) as Hl1 by apply lenZ_put.
  exists (put a1 (4 + b) (VInt (lenZ es))). split_and!.
  - unfold InsertNewEntry. rewrite (BucketToIndex_spec ho cap Hcap b Hb). cbv zeta. mstep by (apply Get_word; [lia|by apply Hbk]).
    assert (SetNextEntry ho (lenZ es) prev a = (Ok tt, a1)) as Hset.
    { unfold SetNextEntry. mstep with Hrun. rewrite E32. fold x. apply Set_word. lia. }
    mstep with Hset. apply Set_word. lia.
  - apply header_put; [|lia]. apply header_put; [done|lia].
  - by rewrite lenZ_put.
  - intros i oe j Hi Hi0 Hj. pose proof (index_of_above cap i Hi0). pose proof (lookup_lt_Some _ _ _ Hi) as Hil.
    rewrite word_put_ne by lia. unfold a1. rewrite word_put_ne; [by apply He|lia|lia|]. intros E. destruct (index_of_inj ho cap (lenZ es) (ENTRY_SIZE ho) i j ltac:(lia) ltac:(lia) E). lia.
  - intros i b' Hi Hi0. pose proof (index_of_above cap i Hi0). pose proof (lookup_lt_Some _ _ _ Hi) as Hil. rewrite length_app in Hil. simpl in Hil.
    rewrite word_put_ne by lia. destruct (Z.eq_dec i (lenZ es)) as [->|Hne].
    + fold x. unfold a1. rewrite word_put_eq by lia. unfold prev. do 2 f_equal.
      rewrite <- HLb in Hi |- *. unfold lenZ in Hi |- *. rewrite Nat2Z.id in Hi |- *. rewrite list_lookup_middle in Hi by done. injection Hi as <-. by rewrite take_app_length.
    + assert (Z.to_nat i < length bs)%nat as Hib by (unfold lenZ in *; lia). unfold a1. rewrite word_put_ne; [|lia|lia|].
      * rewrite take_app_le by lia. apply Hk; [|done]. by rewrite lookup_app_l in Hi.
      * intros E. destruct (index_of_inj ho cap (lenZ es) (ENTRY_SIZE ho) i (ENTRY_SIZE ho) ltac:(lia) ltac:(lia) E). lia.
  - intros b' Hb'. rewrite last_in_snoc. destruct (Z.eqb_spec b' b) as [->|Hne].
    + rewrite word_put_eq by lia. by rewrite HLb.
    + rewrite word_put_ne by lia. unfold a1. rewrite word_put_ne by lia. by apply Hbk.
Qed.

(** The words of a new entry complete it. *)
Lemma body_append (a a' : TaggedArray) (cap b : Z) (es : list (option entry)) (bs : list Z) (e : entry) :
  small_cap ho cap -> entries_at ho a cap es -> links_at ho a cap (bs ++ [b]) -> buckets_at a cap (bs ++ [b]) ->
  lenZ a = 4 + cap + cap * (ENTRY_SIZE ho + 1) -> length bs = length es -> lenZ es < cap -> Forall (fun b => 0 <= b < cap) bs -> 0 <= b < cap ->
  Forall (entry_ok ho) es -> entry_ok ho (Some e) -> frame cap (lenZ es) a a' ->
  (forall j, 0 <= j < ENTRY_SIZE ho -> word a' (index_of ho cap (lenZ es) + j) = entry_word (Some e) j) ->
  body ho a' cap (es ++ [Some e]) (bs ++ [b]).
Proof.
  intros Hcap He Hk Hb Hl Hs Hlt Hr Hbr Ho Hoe Hfr Hw. pose proof Hfr as [Hfl _]. pose proof (lenZ_nonneg es) as Hn0. split.
  - by rewrite Hfl.
  - apply (frame_entries a a' cap es Hcap (lenZ es) (Some e)); [done|done|done|done| |].
    + intros k Hk0 Hne. destruct (Z.lt_ge_cases k (lenZ es)); [apply lookup_app_l; unfold lenZ in *; lia|].
      rewrite !lookup_ge_None_2; [done|unfold lenZ in *; lia|rewrite length_app; simpl; unfold lenZ in *; lia].
    + intros oe'. unfold lenZ. rewrite Nat2Z.id, list_lookup_middle by done. congruence.
  - by apply (frame_links a a' cap _ Hcap (lenZ es)).
  - by apply (frame_buckets a a' cap _ (lenZ es)).
  - rewrite !length_app. simpl. lia.
  - lenz.
  - apply Forall_app. split; [done|by apply Forall_singleton].
  - apply Forall_app. split; [done|by apply Forall_singleton].
Qed.
End writing.
(** ** What the operations do to the entries *)

Section abstract.
Context (ho : HashObject) (heap : Heap).

(** The entries that are not deleted. *)
Definition live (es : list (option entry)) : list entry := omap id es.

Definition upd_entries (key value : JSTaggedValue) (es : list (option entry)) : list (option entry) :=
  (fun oe => if matches heap key oe then set_value ho value <$> oe else oe) <$> es.

Definition del_entries (key : JSTaggedValue) (es : list (option entry)) : list (option entry) :=
  (fun oe => if matches heap key oe then None else oe) <$> es.

Definition found (key : JSTaggedValue) (es : list (option entry)) : bool := existsb (matches heap key) es.

(** No two keys are the same value. *)
Definition distinct (l : list entry) : Prop := NoDup (zident heap <$> (key_of <$> l)).

Lemma live_app (l1 l2 : list (option entry)) : live (l1 ++ l2) = live l1 ++ live l2.
Proof. apply omap_app. Qed.

Lemma live_cons (e : entry) (es : list (option entry)) : live (Some e :: es) = e :: live es.
Proof. done. Qed.

Lemma live_length (es : list (option entry)) : 0 <= lenZ (live es) <= lenZ es.
Proof. induction es as [|[e|] es IH]; [done|..]; unfold live in *; cbn [omap list_omap id]; rewrite ?lenZ_cons; pose proof (lenZ_nonneg es); lia. Qed.

Lemma live_Some (l : list entry) : live (Some <$> l) = l.
Proof. induction l as [|e l IH]; [done|]. change (e :: live (Some <$> l) = e :: l). by rewrite IH. Qed.

Lemma live_upd (key value : JSTaggedValue) (es : list (option entry)) :
  live (upd_entries key value es) = (fun e => if SameValueZero heap key (key_of e) then set_value ho value e else e) <$> live es.
Proof.
  induction es as [|[e|] es IH]; [done| |exact IH]. change (upd_entries key value (Some e :: es)) with ((if SameValueZero heap key (key_of e) then Some (set_value ho value e) else Some e) :: upd_entries key value es).
  rewrite live_cons, fmap_cons, <- IH. by destruct (SameValueZero heap key (key_of e)).
Qed.

Lemma live_del (key : JSTaggedValue) (es : list (option entry)) :
  live (del_entries key es) = List.filter (fun e => negb (SameValueZero heap key (key_of e))) (live es).
Proof.
  induction es as [|[e|] es IH]; [done| |exact IH]. change (del_entries key (Some e :: es)) with ((if SameValueZero heap key (key_of e) then None else Some e) :: del_entries key es).
  rewrite live_cons. cbn [List.filter]. rewrite <- IH. by destruct (SameValueZero heap key (key_of e)).
Qed.

Lemma found_live (key : JSTaggedValue) (es : list (option entry)) : found key es = existsb (fun e => SameValueZero heap key (key_of e)) (live es).
Proof. induction es as [|[e|] es IH]; [done| |exact IH]. rewrite live_cons. unfold found in *. cbn [existsb matches]. by rewrite IH. Qed.

Lemma unmatched (key : JSTaggedValue) (es : list (option entry)) :
  found key es = false -> (forall value, upd_entries key value es = es) /\ del_entries key es = es /\ find_last_index (matches heap key) es = None.
Proof.
  unfold found, upd_entries, del_entries. induction es as [|oe es IH]; [done|]. cbn [existsb]. intros [Hm Hf]%orb_false_iff. destruct (IH Hf) as (Hu & Hd & Hfl).
  split_and!; [intros value; by rewrite fmap_cons, Hm, Hu|by rewrite fmap_cons, Hm, Hd|]. cbn [find_last_index]. by rewrite Hfl, Hm.
Qed.

Lemma same_key (key : JSTaggedValue) (e e' : entry) :
  SameValueZero heap key (key_of e) = true -> SameValueZero heap key (key_of e') = true -> zident heap (key_of e) = zident heap (key_of e').
Proof. rewrite !SameValueZero_zident. congruence. Qed.

Lemma unmatched_part (key : JSTaggedValue) (e : entry) (es : list (option entry)) :
  SameValueZero heap key (key_of e) = true -> zident heap (key_of e) ∉ (zident heap <$> (key_of <$> live es)) -> found key es = false.
Proof.
  intros He Hn. rewrite found_live. apply not_true_is_false. intros (e' & Hin%list_elem_of_In & He')%existsb_exists. apply Hn.
  rewrite (same_key key e e' He He'). by do 2 apply list_elem_of_fmap_2.
Qed.

(** The entry that a key is found at, among entries with distinct keys. *)
Lemma found_split (key : JSTaggedValue) (es : list (option entry)) :
  distinct (live es) ->
  match find_last_index (matches heap key) es with
  | Some i => exists l1 e l2, es = l1 ++ Some e :: l2 /\ lenZ l1 = i /\ SameValueZero heap key (key_of e) = true /\ found key es = true /\
      (forall value, upd_entries key value es = l1 ++ Some (set_value ho value e) :: l2) /\ del_entries key es = l1 ++ None :: l2
  | None => found key es = false
  end.
Proof.
  intros Hd. destruct (find_last_index _ es) as [i|] eqn:Hf.
  - apply find_last_index_range in Hf as (oe & Hl & Hm & Hr). destruct oe as [e|]; [|done]. cbn [matches] in Hm.
    pose proof (take_drop_middle es _ _ Hl) as E. set (l1 := take (Z.to_nat i) es) in *. set (l2 := drop (Datatypes.S (Z.to_nat i)) es) in *.
    assert (lenZ l1 = i) as Hl1 by (unfold l1, lenZ in *; rewrite length_take_le; lia). rewrite <- E in Hd |- *. clear E Hl. clearbody l1 l2.
    exists l1, e, l2. unfold distinct in Hd. rewrite live_app in Hd. unfold live in Hd. cbn [omap list_omap id] in Hd. fold (live l1) in Hd. fold (live l2) in Hd.
    rewrite !fmap_app, !fmap_cons in Hd. apply list.NoDup_app in Hd as (_ & Hd1 & [Hd2 _]%list.NoDup_cons).
    assert (found key l1 = false) as F1 by (apply (unmatched_part key e); [done|]; intros Hin; apply (Hd1 _ Hin), list_elem_of_here).
    assert (found key l2 = false) as F2 by (by apply (unmatched_part key e)).
    destruct (unmatched key l1 F1) as (U1 & D1 & _), (unmatched key l2 F2) as (U2 & D2 & _). unfold upd_entries, del_entries in *.
    split_and!; [done|done|done|unfold found; rewrite existsb_app; cbn [existsb matches]; by rewrite Hm, orb_true_l, orb_true_r|intros value|]; rewrite fmap_app, fmap_cons; cbn [matches].
    + by rewrite U1, U2, Hm.
    + by rewrite D1, D2, Hm.
  - unfold found. clear Hd. induction es as [|oe es IH] using rev_ind; [done|]. rewrite find_last_index_snoc in Hf. destruct (matches heap key oe) eqn:Hm; [done|].
    rewrite existsb_app. cbn [existsb]. rewrite Hm. by rewrite (IH Hf).
Qed.
End abstract.
(** ** A table that is in use *)

Section operations.
Context (ho : HashObject) `{Hho : !HashObjectOk ho} (heap : Heap) (hash : JSTaggedValue -> Z).
Context (ok : JSTaggedValue -> Prop) `{HZ : !ZeroHash heap hash ok}.

Definition keys_ok (l : list entry) : Prop := Forall (fun e => ok (key_of e)) l /\ distinct heap l.

Record table_ok (a : TaggedArray) (cap : Z) (next : JSTaggedValue) (es : list (option entry)) (bs : list Z) : Prop := mkTableOk {
  ok_header : header a (lenZ (live es)) (lenZ es - lenZ (live es)) cap next;
  ok_cap : small_cap ho cap;
  ok_body : body ho a cap es bs;
  ok_hashed : hashed cap es bs hash;
  ok_keys : keys_ok (live es);
}.

Lemma ok_entry_keys (es : list (option entry)) :
  Forall (fun e => ok (key_of e)) (live es) -> Forall (fun oe => match oe with Some e => ok (key_of e) | None => True end) es.
Proof.
  induction es as [|[e|] es IH]; intros Hk; [done|..]; constructor; try done.
  - rewrite live_cons in Hk. by apply Forall_cons_1 in Hk as [Hk _].
  - rewrite live_cons in Hk. apply Forall_cons_1 in Hk as [_ Hk]. by apply IH.
  - by apply IH.
Qed.

Definition find_entry (key : JSTaggedValue) (es : list (option entry)) : Z := default (-1) (find_last_index (matches heap key) es).

Lemma FindElement_ok (a : TaggedArray) (cap : Z) (next key : JSTaggedValue) (es : list (option entry)) (bs : list Z) :
  table_ok a cap next es bs -> ok key -> key <> VHole -> FindElement ho heap hash key a = (Ok (find_entry key es), a).
Proof.
  intros [Ha Hc Hb Hh [Hk Hd]] Hok Hne. eapply (FindElement_run ho); [done|done|done|exact HZ|done|by apply ok_entry_keys|done|done].
Qed.

(** *** SetValue *)

Lemma set_value_ok (value : JSTaggedValue) (e : entry) : entry_ok ho (Some e) -> key_of (set_value ho value e) <> VHole -> entry_ok ho (Some (set_value ho value e)).
Proof. intros [Hl _] Hk. split; [|done]. unfold set_value, lenZ in *. by rewrite length_insert. Qed.

Lemma distinct_replace (l1 l2 : list entry) (e e' : entry) :
  zident heap (key_of e') = zident heap (key_of e) -> distinct heap (l1 ++ e :: l2) -> distinct heap (l1 ++ e' :: l2).
Proof. unfold distinct. rewrite !fmap_app, !fmap_cons. by intros ->. Qed.

Lemma SetValue_ok (a : TaggedArray) (cap : Z) (next value : JSTaggedValue) (l1 l2 : list (option entry)) (e : entry) (bs : list Z) :
  table_ok a cap next (l1 ++ Some e :: l2) bs ->
  let e' := set_value ho value e in
  key_of e' <> VHole -> ok (key_of e') -> zident heap (key_of e') = zident heap (key_of e) ->
  exists a', SetValue ho (lenZ l1) value a = (Ok tt, a') /\ table_ok a' cap next (l1 ++ Some e' :: l2) bs.
Proof.
  intros [Ha Hc Hb Hh [Hk Hd]] e' Hne Hok Hid. pose proof (entry_size_bounds ho) as HS. pose proof (lenZ_nonneg l1) as Hn1.
  pose proof (body_fit _ _ _ _ _ Hb) as Hfit. rewrite lenZ_app, lenZ_cons in Hfit. pose proof (lenZ_nonneg l2) as Hn2.
  destruct (EntryToIndex_run ho a _ _ cap (lenZ l1) next Ha Hc ltac:(lia)) as (Hrun & E32 & Hlo & Hhi). pose proof (body_len _ _ _ _ _ Hb) as Hlen.
  set (i := lenZ l1) in *. set (a' := put a (index_of ho cap i + ENTRY_VALUE_INDEX ho) value). pose proof Hc as [Hc4 Hc31].
  assert (frame ho cap i a a') as Hfr by (apply frame_put; [apply frame_refl|lia|lia]).
  assert ((l1 ++ Some e :: l2) !! Z.to_nat i = Some (Some e)) as Hl by (apply list_lookup_middle; unfold i, lenZ; lia).
  assert (l1 ++ Some e' :: l2 = <[Z.to_nat i := Some e']> (l1 ++ Some e :: l2)) as Eins.
  { replace (Z.to_nat i) with (length l1) by (unfold i, lenZ; lia). by rewrite insert_app_r_alt, Nat.sub_diag by done. }
  exists a'. split; [unfold SetValue; mstep with Hrun; rewrite E32; apply Set_word; lia|].
  pose proof (proj1 (Forall_lookup _ _) (body_ok _ _ _ _ _ Hb) _ _ Hl) as Hoe. rewrite !live_app, !live_cons in *. split.
  - replace (lenZ (live (l1 ++ Some e' :: l2))) with (lenZ (live (l1 ++ Some e :: l2))) by (rewrite !live_app, !live_cons, !lenZ_app, !lenZ_cons; done).
    replace (lenZ (l1 ++ Some e' :: l2)) with (lenZ (l1 ++ Some e :: l2)) by (rewrite !lenZ_app, !lenZ_cons; done). rewrite live_app, live_cons. by apply (frame_header ho a a' _ _ cap next Hc i).
  - done.
  - rewrite Eins. apply (body_replace ho a a' cap _ bs Hc i); [done|rewrite lenZ_app, lenZ_cons; lia|done|by apply set_value_ok|].
    intros j Hj. unfold a'. rewrite word_put by lia. unfold e'. cbn [entry_word]. unfold set_value. destruct Hoe as [Hle _]. unfold lenZ in Hle.
    destruct (Z.eqb_spec (index_of ho cap i + j) (index_of ho cap i + ENTRY_VALUE_INDEX ho)) as [E|E].
    + assert (j = ENTRY_VALUE_INDEX ho) as -> by lia. symmetry. apply list_lookup_insert_eq. lia.
    + rewrite list_lookup_insert_ne by lia. by rewrite (body_entries _ _ _ _ _ Hb i (Some e) j Hl Hn1 Hj).
  - intros k e0 Hk0. rewrite Eins in Hk0. destruct (decide (k = Z.to_nat i)) as [->|Hki].
    + rewrite list_lookup_insert_eq in Hk0 by (by eapply lookup_lt_Some). injection Hk0 as <-. rewrite (Hh _ _ Hl). do 2 f_equal.
      apply Forall_app in Hk as [_ [Hke _]%Forall_cons_1]. eapply zero_hash; [done|done|]. apply SameValueZero_zident. by rewrite Hid.
    + rewrite list_lookup_insert_ne in Hk0 by done. by apply Hh.
  - rewrite live_app, live_cons. apply Forall_app in Hk as [Hk1 [_ Hk2]%Forall_cons_1]. split; [by apply Forall_app; split; [|constructor]|]. by apply (distinct_replace _ _ e).
Qed.
(** *** RemoveEntry *)

Lemma hole_words (a : TaggedArray) (cap i : Z) :
  0 <= index_of ho cap i -> index_of ho cap i + ENTRY_SIZE ho <= lenZ a ->
  exists a', for_range 0 (ENTRY_SIZE ho) (fun j => SetElement (index_of ho cap i + j) VHole) a = (Ok tt, a') /\ frame ho cap i a a' /\
    forall j, 0 <= j < ENTRY_SIZE ho -> word a' (index_of ho cap i + j) = Some VHole.
Proof.
  intros Hlo Hhi. set (x := index_of ho cap i) in *. destruct entry_size as [E|E].
  - exists (put a (x + 0) VHole). refine (conj _ (conj (conj _ _) _)).
    + rewrite E. unfold for_range. change (Z.to_nat (1 - 0)) with 1%nat. cbn [for_up]. by mstep by (apply Set_word; lia).
    + by rewrite lenZ_put.
    + intros y Hy Hne. apply word_put_ne; [lia|lia|]. specialize (Hne 0 ltac:(lia)). fold x in Hne. lia.
    + rewrite E. intros j Hj. assert (j = 0) as -> by lia. apply word_put_eq. lia.
  - exists (put (put a (x + 0) VHole) (x + 1) VHole). refine (conj _ (conj (conj _ _) _)).
    + rewrite E. unfold for_range. change (Z.to_nat (2 - 0)) with 2%nat. cbn [for_up]. mstep by (apply Set_word; lia). by mstep by (apply Set_word; rewrite lenZ_put; lia).
    + by rewrite !lenZ_put.
    + intros y Hy Hne. pose proof (Hne 0 ltac:(lia)) as N0. pose proof (Hne 1 ltac:(lia)) as N1. fold x in N0, N1. by rewrite !word_put_ne by lia.
    + rewrite E. intros j Hj. assert (j = 0 \/ j = 1) as [->| ->] by lia.
      * rewrite word_put_ne by lia. apply word_put_eq. lia.
      * apply word_put_eq. rewrite lenZ_put. lia.
Qed.

Lemma distinct_drop (l1 l2 : list entry) (e : entry) : distinct heap (l1 ++ e :: l2) -> distinct heap (l1 ++ l2).
Proof.
  unfold distinct. rewrite !fmap_app, !fmap_cons, !list.NoDup_app, list.NoDup_cons. intros (H1 & H2 & H3 & H4). split_and!; [done| |done].
  intros x Hx Hx2. apply (H2 x Hx). by apply list_elem_of_further.
Qed.

Lemma RemoveEntry_ok (a : TaggedArray) (cap : Z) (next : JSTaggedValue) (l1 l2 : list (option entry)) (e : entry) (bs : list Z) :
  table_ok a cap next (l1 ++ Some e :: l2) bs ->
  exists a', RemoveEntry ho (lenZ l1) a = (Ok tt, a') /\ table_ok a' cap next (l1 ++ None :: l2) bs.
Proof.
  intros [Ha Hc Hb Hh [Hk Hd]]. pose proof (entry_size_bounds ho) as HS. pose proof (lenZ_nonneg l1) as Hn1. pose proof (lenZ_nonneg l2) as Hn2.
  pose proof (body_fit _ _ _ _ _ Hb) as Hfit. rewrite lenZ_app, lenZ_cons in Hfit.
  destruct (EntryToIndex_run ho a _ _ cap (lenZ l1) next Ha Hc ltac:(lia)) as (Hrun & E32 & Hlo & Hhi). pose proof (body_len _ _ _ _ _ Hb) as Hlen.
  set (i := lenZ l1) in *. pose proof Hc as [Hc4 Hc31]. destruct (hole_words a cap i ltac:(lia) ltac:(lia)) as (a1 & Hfor & Hfr & Hw).
  assert ((l1 ++ Some e :: l2) !! Z.to_nat i = Some (Some e)) as Hl by (apply list_lookup_middle; unfold i, lenZ; lia).
  assert (l1 ++ None :: l2 = <[Z.to_nat i := None]> (l1 ++ Some e :: l2)) as Eins.
  { replace (Z.to_nat i) with (length l1) by (unfold i, lenZ; lia). by rewrite insert_app_r_alt, Nat.sub_diag by done. }
  assert (live (l1 ++ None :: l2) = live l1 ++ live l2) as EL by (by rewrite live_app).
  set (n := lenZ (live (l1 ++ Some e :: l2))) in *. set (d := lenZ (l1 ++ Some e :: l2) - n) in *.
  assert (header a1 n d cap next) as Ha1 by (by apply (frame_header ho a a1 _ _ cap next Hc i)).
  set (a2 := put a1 NUMBER_OF_ELEMENTS_INDEX (VInt (n - 1))). assert (header a2 (n - 1) d cap next) as Ha2 by (by eapply header_set_n).
  set (a3 := put a2 NUMBER_OF_DELETED_ELEMENTS_INDEX (VInt (d + 1))). assert (header a3 (n - 1) (d + 1) cap next) as Ha3 by (by eapply header_set_d).
  pose proof (proj1 Hfr) as Hfl. assert (0 < lenZ a1) as Hpos by nia.
  exists a3. split.
  - unfold RemoveEntry. mstep by (by eapply Capacity_run). zb. mstep. mstep with Hrun. rewrite E32. mstep with Hfor.
    mstep by (by eapply NumberOfElements_run). mstep by (apply Set_word; unfold NUMBER_OF_ELEMENTS_INDEX; lia). mstep by (by eapply NumberOfDeletedElements_run).
    apply Set_word. unfold a2. rewrite lenZ_put. unfold NUMBER_OF_DELETED_ELEMENTS_INDEX. nia.
  - split.
    + rewrite EL. assert (lenZ (live l1 ++ live l2) = n - 1) as -> by (unfold n; rewrite live_app, live_cons, !lenZ_app, lenZ_cons; lia).
      replace (lenZ (l1 ++ None :: l2) - (n - 1)) with (d + 1); [done|]. unfold d. rewrite !lenZ_app, !lenZ_cons. lia.
    + done.
    + apply body_put_header; [done..|]. apply body_put_header; [done..|]. rewrite Eins.
      apply (body_replace ho a a1 cap _ bs Hc i); try done. rewrite lenZ_app, lenZ_cons. lia.
    + intros k e0 Hk0. rewrite Eins in Hk0. destruct (decide (k = Z.to_nat i)) as [->|Hki].
      * by rewrite list_lookup_insert_eq in Hk0 by (by eapply lookup_lt_Some).
      * rewrite list_lookup_insert_ne in Hk0 by done. by apply Hh.
    + rewrite EL. rewrite live_app, live_cons in Hk, Hd. apply Forall_app in Hk as [Hk1 [_ Hk2]%Forall_cons_1]. split; [by apply Forall_app|by apply (distinct_drop _ _ e)].
Qed.

(** *** A new entry *)

Lemma new_entry_words (key value : JSTaggedValue) :
  lenZ (new_entry ho key value) = ENTRY_SIZE ho /\
  (forall j, 0 <= j < ENTRY_SIZE ho -> entry_word (Some (new_entry ho key value)) j = Some (if j =? ENTRY_VALUE_INDEX ho then value else key)).
Proof.
  pose proof (value_index (ho := ho)) as EV. destruct ho as [es vi]. simpl in *. subst vi. unfold new_entry, set_value. simpl.
  destruct (entry_size (ho := mkHashObject es (es - 1))) as [E|E]; simpl in E; subst es; (split; [done|]); intros j Hj.
  - assert (j = 0) as -> by lia. done.
  - assert (j = 0 \/ j = 1) as [->| ->] by lia; done.
Qed.

Lemma distinct_snoc (key : JSTaggedValue) (e : entry) (l : list entry) :
  key_of e = key -> existsb (fun e => SameValueZero heap key (key_of e)) l = false -> distinct heap l -> distinct heap (l ++ [e]).
Proof.
  unfold distinct. intros <- Hx Hd. rewrite !fmap_app. apply list.NoDup_app. split_and!; [done| |apply NoDup_singleton].
  intros x (k & -> & (e' & -> & Hin)%list_elem_of_fmap)%list_elem_of_fmap Hx2%list_elem_of_singleton. apply not_true_iff_false in Hx. apply Hx.
  apply existsb_exists. exists e'. split; [by apply list_elem_of_In|]. by apply SameValueZero_zident.
Qed.

Definition append_block (key value : JSTaggedValue) : M TaggedArray unit :=
  bucket ← HashToBucket (hash key);
  n ← NumberOfElements;
  d ← NumberOfDeletedElements;
  let entry := n + d in
  InsertNewEntry ho bucket entry;;
  SetKey ho entry key;;
  SetValue ho entry value;;
  n ← NumberOfElements;
  SetNumberOfElements (n + 1).

Lemma append_ok (a : TaggedArray) (cap : Z) (next key value : JSTaggedValue) (es : list (option entry)) (bs : list Z) :
  table_ok a cap next es bs -> lenZ es < cap -> found heap key es = false ->
  key_of (new_entry ho key value) = key -> ok key -> key <> VHole ->
  exists a', append_block key value a = (Ok tt, a') /\ table_ok a' cap next (es ++ [Some (new_entry ho key value)]) (bs ++ [bucket_of cap (hash key)]).
Proof.
  intros [Ha Hc Hb Hh [Hk Hd]] Hlt Hf Hkey Hok Hne. pose proof (entry_size_bounds ho) as HS. pose proof (lenZ_nonneg es) as Hn. pose proof Hc as [Hc4 Hc31].
  set (b := bucket_of cap (hash key)). assert (0 <= b < cap) as Hbr by (apply bucket_of_range; nia).
  set (n := lenZ (live es)) in *. set (d := lenZ es - n) in *.
  destruct (InsertNewEntry_run ho a n d cap b next es bs Ha Hc Hb Hlt Hbr) as (a1 & Hrun1 & Ha1 & Hl1 & He1 & Hk1 & Hb1). rewrite (body_len _ _ _ _ _ Hb) in Hl1.
  destruct (EntryToIndex_run ho a1 n d cap (lenZ es) next Ha1 Hc ltac:(lia)) as (Hr1 & E32 & Hlo & Hhi). set (x := index_of ho cap (lenZ es)) in *.
  set (a2 := put a1 (x + 0) key). assert (frame ho cap (lenZ es) a1 a2) as Hf2 by (apply frame_put; [apply frame_refl|lia|unfold x in *; lia]).
  assert (header a2 n d cap next) as Ha2 by (by apply (frame_header ho a1 a2 _ _ cap next Hc (lenZ es))).
  destruct (EntryToIndex_run ho a2 n d cap (lenZ es) next Ha2 Hc ltac:(lia)) as (Hr2 & _). fold x in Hr2.
  set (a3 := put a2 (x + ENTRY_VALUE_INDEX ho) value). assert (frame ho cap (lenZ es) a1 a3) as Hf3 by (apply frame_put; [done|lia|unfold x in *; lia]).
  assert (header a3 n d cap next) as Ha3 by (by apply (frame_header ho a1 a3 _ _ cap next Hc (lenZ es))).
  assert (lenZ a2 = lenZ a1 /\ lenZ a3 = lenZ a1) as [Hl2 Hl3] by (split; [apply Hf2|apply Hf3]).
  set (a4 := put a3 NUMBER_OF_ELEMENTS_INDEX (VInt (n + 1))). exists a4.
  destruct (new_entry_words key value) as [Hlen Hw]. split.
  - unfold append_block. mstep by (by eapply HashToBucket_run). mstep by (by eapply NumberOfElements_run). mstep by (by eapply NumberOfDeletedElements_run).
    fold b. replace (n + d) with (lenZ es) by (unfold d; lia). mstep with Hrun1.
    assert (SetKey ho (lenZ es) key a1 = (Ok tt, a2)) as Hsk by (unfold SetKey; mstep with Hr1; rewrite E32; unfold a2; rewrite Z.add_0_r; apply Set_word; lia). mstep with Hsk.
    assert (SetValue ho (lenZ es) value a2 = (Ok tt, a3)) as Hsv by (unfold SetValue; mstep with Hr2; rewrite E32; apply Set_word; lia). mstep with Hsv.
    mstep by (by eapply NumberOfElements_run). apply Set_word. unfold NUMBER_OF_ELEMENTS_INDEX. lia.
  - assert (live (es ++ [Some (new_entry ho key value)]) = live es ++ [new_entry ho key value]) as EL by (by rewrite live_app). split.
    + rewrite EL, !lenZ_app. fold n. change (lenZ [_]) with 1. change (lenZ [Some _]) with 1. replace (lenZ es + 1 - (n + 1)) with d by (unfold d; lia). by eapply header_set_n.
    + done.
    + apply body_put_header; [done..|]. apply (body_append ho a1 a3 cap b es bs (new_entry ho key value)); try done; try apply Hb.
      * split; [done|]. unfold key_of in Hkey. by rewrite Hkey.
      * intros j Hj. rewrite Hw by done. fold x. unfold a3. rewrite word_put by lia. destruct (Z.eqb_spec j (ENTRY_VALUE_INDEX ho)) as [->|Hjv]; [by rewrite Z.eqb_refl|].
        rewrite (proj2 (Z.eqb_neq (x + j) (x + ENTRY_VALUE_INDEX ho))) by lia. assert (j = 0) as -> by (pose proof (value_index (ho := ho)); lia). apply word_put_eq. lia.
    + intros i e Hi. destruct (decide (i < length es)%nat) as [Hil|Hil].
      * rewrite lookup_app_l in Hi by done. rewrite lookup_app_l by (rewrite (body_same _ _ _ _ _ Hb); lia). by apply Hh.
      * assert (i = length es) as -> by (apply lookup_lt_Some in Hi; rewrite length_app in Hi; simpl in Hi; lia).
        rewrite list_lookup_middle in Hi by done. injection Hi as <-. rewrite Hkey. apply list_lookup_middle. by rewrite (body_same _ _ _ _ _ Hb).
    + rewrite EL. split; [apply Forall_app; split; [done|]; apply Forall_singleton; by rewrite Hkey|]. apply (distinct_snoc key); [done| |done]. by rewrite <- found_live.
Qed.
End operations.
(** ** Rehash *)

(** A store in which tables [t0] and [t1] are [a] and [b]. *)
Definition two (t0 t1 : Z) (st : Store) (a b : TaggedArray) : Store := <[Z.to_nat t0 := a]> (<[Z.to_nat t1 := b]> st).

Section two_tables.
Context (t0 t1 : Z) (st : Store).
Hypothesis Hne : Z.to_nat t0 <> Z.to_nat t1.
Hypothesis H0 : (Z.to_nat t0 < length st)%nat.
Hypothesis H1 : (Z.to_nat t1 < length st)%nat.

Lemma two_old {A} (a a' b : TaggedArray) (m : M TaggedArray A) (r : A) :
  m a = (Ok r, a') -> on_table t0 m (two t0 t1 st a b) = (Ok r, two t0 t1 st a' b).
Proof.
  intros Hm. rewrite (on_table_run _ _ a a' m r); [|unfold two; apply list_lookup_insert_eq; by rewrite length_insert|done].
  unfold two. by rewrite list_insert_insert_eq.
Qed.

Lemma two_new {A} (a b b' : TaggedArray) (m : M TaggedArray A) (r : A) :
  m b = (Ok r, b') -> on_table t1 m (two t0 t1 st a b) = (Ok r, two t0 t1 st a b').
Proof.
  intros Hm. rewrite (on_table_run _ _ b b' m r); [| |done].
  - unfold two. rewrite list_insert_insert_ne by done. by rewrite list_insert_insert_eq.
  - unfold two. rewrite list_lookup_insert_ne by done. by apply list_lookup_insert_eq.
Qed.
End two_tables.

(** The number of deleted entries. *)
Definition dead (es : list (option entry)) : Z := lenZ es - lenZ (live es).

Lemma dead_app (l1 l2 : list (option entry)) : dead (l1 ++ l2) = dead l1 + dead l2.
Proof. unfold dead. rewrite live_app, !lenZ_app. lia. Qed.

Section rehash.
Context (ho : HashObject) `{Hho : !HashObjectOk ho} (heap : Heap) (hash : JSTaggedValue -> Z).

(** A table that was rehashed: the entries are as they were, and a deleted one
    has the number of entries deleted up to it. *)
Record rehashed (a : TaggedArray) (cap : Z) (next : JSTaggedValue) (done_ : nat) (es : list (option entry)) : Prop := mkRehashed {
  rehashed_header : header a (lenZ (live es)) (dead es) cap next;
  rehashed_cap : small_cap ho cap;
  rehashed_len : lenZ a = 4 + cap + cap * (ENTRY_SIZE ho + 1);
  rehashed_entries : entries_at ho a cap es;
  rehashed_ok : Forall (entry_ok ho) es;
  rehashed_fit : lenZ es <= cap;
  rehashed_dead : forall i, es !! i = Some None -> (i < done_)%nat -> word a (index_of ho cap (Z.of_nat i) + ENTRY_SIZE ho) = Some (VInt (dead (take (Datatypes.S i) es)));
}.

Lemma live_range (es : list (option entry)) : 0 <= dead es.
Proof. unfold dead. pose proof (live_length es). lia. Qed.

(** *** GetDeletedElementsAt *)

Lemma GetDeletedElementsAt_rehashed (a : TaggedArray) (cap j : Z) (next : JSTaggedValue) (es : list (option entry)) :
  rehashed a cap next (length es) es -> next <> VUndefined -> 0 <= j <= lenZ es -> GetDeletedElementsAt ho j a = (Ok (dead (take (Z.to_nat j) es)), a).
Proof.
  intros [Ha Hc Hl He Ho Hf Hd] Hne Hj. pose proof (live_range es) as Hdead. unfold GetDeletedElementsAt.
  mstep by (by eapply GetNextTable_run). assert (IsUndefined next = false) as Hu by (by destruct next). rewrite Hu. mstep. mstep by (by eapply NumberOfDeletedElements_run).
  zb. set (body := fun currentEntry : Z => _).
  assert (forall m : nat, (m <= length es)%nat -> find_down m (Z.of_nat m - 1) body a = (Ok (if dead (take m es) =? 0 then None else Some (dead (take m es))), a)) as Hloop.
  { induction m as [|m IH]; intros Hm; [done|]. cbn [find_down]. destruct (lookup_lt_is_Some_2 es m ltac:(lia)) as [oe Hoe].
    rewrite (take_S_r es m oe Hoe), dead_app. replace (Z.of_nat (Datatypes.S m) - 1) with (Z.of_nat m) by lia.
    assert (GetKey ho (Z.of_nat m) a = (Ok (key_word oe), a)) as Hk by (eapply (GetKey_run ho); [done|done|done|done|done|lia|by rewrite Nat2Z.id]).
    pose proof (live_range (take m es)) as Hr. pose proof (proj1 (Forall_lookup _ _) Ho _ _ Hoe) as Hoke. destruct oe as [e|].
    - assert (body (Z.of_nat m) a = (Ok None, a)) as Hb by (unfold body; mstep with Hk; destruct Hoke as [_ Hh]; cbn [key_word]; unfold key_of; destruct (hd VHole e); done).
      mstep with Hb. change (dead [Some e]) with 0. rewrite Z.add_0_r. apply IH. lia.
    - assert (body (Z.of_nat m) a = (Ok (Some (dead (take m es) + 1)), a)) as Hb.
      { unfold lenZ in Hf. destruct (EntryToIndex_run ho a _ _ cap (Z.of_nat m) next Ha Hc ltac:(lia)) as (Hrun & E32 & Hlo & Hhi).
        assert (GetNextEntry ho (Z.of_nat m) a = (Ok (VInt (dead (take m es) + 1)), a)) as Hn.
        { unfold GetNextEntry. mstep with Hrun. rewrite E32. destruct Hc. pose proof (entry_size_bounds ho). apply Get_word; [lia|]. rewrite (Hd m Hoe ltac:(lia)).
          by rewrite (take_S_r es m None Hoe), dead_app. }
        assert (GetDeletedNum ho (Z.of_nat m) a = (Ok (dead (take m es) + 1), a)) as Hg.
        { unfold GetDeletedNum. mstep by (by eapply GetNextTable_run). rewrite Hu. mstep. by mstep with Hn. }
        unfold body. mstep with Hk. cbn [key_word IsHole]. by mstep with Hg. }
      mstep with Hb. change (dead [None]) with 1. zb. done. }
  specialize (Hloop (Z.to_nat j) ltac:(unfold lenZ in *; lia)). rewrite Z2Nat.id in Hloop by lia. mstep with Hloop.
  by destruct (Z.eqb_spec (dead (take (Z.to_nat j) es)) 0) as [->|].
Qed.

Lemma GetDeletedElementsAt_cleared (a : TaggedArray) (n cap j : Z) (next : JSTaggedValue) :
  header a n (-1) cap next -> next <> VUndefined -> GetDeletedElementsAt ho j a = (Ok j, a).
Proof.
  intros Ha Hne. unfold GetDeletedElementsAt. mstep by (by eapply GetNextTable_run). assert (IsUndefined next = false) as -> by (by destruct next). mstep.
  by mstep by (by eapply NumberOfDeletedElements_run).
Qed.
(** *** The loop of Rehash *)

Section loop.
Context (t0 t1 : Z) (st : Store).
Hypothesis Hne : Z.to_nat t0 <> Z.to_nat t1.
Hypothesis H0 : (Z.to_nat t0 < length st)%nat.
Hypothesis H1 : (Z.to_nat t1 < length st)%nat.
Notation two := (two t0 t1 st).

Lemma copy_words (a b : TaggedArray) (cap cap' i k : Z) (e : entry) :
  (forall j, 0 <= j < ENTRY_SIZE ho -> word a (index_of ho cap i + j) = entry_word (Some e) j) -> lenZ e = ENTRY_SIZE ho ->
  0 <= index_of ho cap i -> 0 <= index_of ho cap' k -> index_of ho cap' k + ENTRY_SIZE ho <= lenZ b ->
  exists b', for_range 0 (ENTRY_SIZE ho) (fun j =>
      v ← on_table t0 (GetElement (index_of ho cap i + j));
      on_table t1 (SetElement (index_of ho cap' k + j) v)) (two a b) = (Ok tt, two a b') /\ frame ho cap' k b b' /\
    forall j, 0 <= j < ENTRY_SIZE ho -> word b' (index_of ho cap' k + j) = entry_word (Some e) j.
Proof.
  intros Hw Hle Hx Hy Hlen. set (x := index_of ho cap i) in *. set (y := index_of ho cap' k) in *.
  assert (forall (c : TaggedArray) j v, 0 <= j < ENTRY_SIZE ho -> entry_word (Some e) j = Some v -> lenZ c = lenZ b ->
    (v ← on_table t0 (GetElement (x + j)); on_table t1 (SetElement (y + j) v)) (two a c) = (Ok tt, two a (put c (y + j) v))) as Hstep.
  { intros c j v Hj Hv Hc. mstep by (apply two_old; [done..|apply Get_word; [lia|by rewrite Hw, Hv]]). apply two_new; [done..|]. apply Set_word. lia. }
  destruct entry_size as [E|E].
  - destruct e as [|v [|]]; rewrite E in Hle; unfold lenZ in Hle; cbn [length] in Hle; try lia. exists (put b (y + 0) v). refine (conj _ (conj (conj _ _) _)).
    + rewrite E. unfold for_range. change (Z.to_nat (1 - 0)) with 1%nat. cbn [for_up]. rewrite E in Hstep. rewrite (bind_Ok _ _ _ _ _ (Hstep b 0 v ltac:(lia) eq_refl eq_refl)). done.
    + by rewrite lenZ_put.
    + intros z Hz Hnz. pose proof (Hnz 0 ltac:(lia)) as N0. fold y in N0. by rewrite word_put_ne by lia.
    + rewrite E. intros j Hj. assert (j = 0) as -> by lia. apply word_put_eq. lia.
  - destruct e as [|v [|w [|]]]; rewrite E in Hle; unfold lenZ in Hle; cbn [length] in Hle; try lia. exists (put (put b (y + 0) v) (y + 1) w). refine (conj _ (conj (conj _ _) _)).
    + rewrite E. unfold for_range. change (Z.to_nat (2 - 0)) with 2%nat. cbn [for_up]. rewrite E in Hstep. rewrite (bind_Ok _ _ _ _ _ (Hstep b 0 v ltac:(lia) eq_refl eq_refl)).
      rewrite (bind_Ok _ _ _ _ _ (Hstep (put b (y + 0) v) (0 + 1) w ltac:(lia) eq_refl (lenZ_put _ _ _))). done.
    + by rewrite !lenZ_put.
    + intros z Hz Hnz. pose proof (Hnz 0 ltac:(lia)) as N0. pose proof (Hnz 1 ltac:(lia)) as N1. fold y in N0, N1. by rewrite !word_put_ne by lia.
    + rewrite E. intros j Hj. assert (j = 0 \/ j = 1) as [->| ->] by lia.
      * rewrite word_put_ne by lia. apply word_put_eq. lia.
      * apply word_put_eq. rewrite lenZ_put. lia.
Qed.

Definition buckets_of (cap : Z) (l : list entry) : list Z := (fun e => bucket_of cap (hash (key_of e))) <$> l.

(** A deleted entry is counted. *)
Lemma rehash_deleted (a b : TaggedArray) (cap : Z) (next : JSTaggedValue) (pre rest : list (option entry)) :
  rehashed a cap next (length pre) (pre ++ None :: rest) -> next <> VUndefined ->
  exists a', rehash_round ho hash t0 t1 (lenZ pre) (lenZ (live pre), dead pre) (two a b) = (Ok (lenZ (live pre), dead pre + 1), two a' b) /\
    rehashed a' cap next (Datatypes.S (length pre)) (pre ++ None :: rest).
Proof.
  intros [Ha Hc Hl He Ho Hf Hd] Hn. pose proof (lenZ_nonneg pre) as Hp. pose proof (lenZ_nonneg rest) as Hr. rewrite lenZ_app, lenZ_cons in Hf.
  destruct (EntryToIndex_run ho a _ _ cap (lenZ pre) next Ha Hc ltac:(lia)) as (Hrun & E32 & Hlo & Hhi). pose proof (entry_size_bounds ho) as HS. pose proof Hc as [Hc4 Hc31].
  set (x := index_of ho cap (lenZ pre) + ENTRY_SIZE ho) in *. exists (put a x (VInt (dead pre + 1))).
  assert ((pre ++ None :: rest) !! Z.to_nat (lenZ pre) = Some None) as Hat by (apply list_lookup_middle; unfold lenZ; lia). split.
  - unfold rehash_round. mstep by (by apply two_old). rewrite E32.
    mstep by (apply two_old; [done..|]; apply Get_word; [lia|]; rewrite <- (Z.add_0_r (index_of _ _ _)); rewrite (He (lenZ pre) None 0); [reflexivity|done|done|lia]).
    assert (SetDeletedNum ho (lenZ pre) (dead pre + 1) a = (Ok tt, put a x (VInt (dead pre + 1)))) as Hs.
    { unfold SetDeletedNum. mstep by (by eapply GetNextTable_run). assert (IsUndefined next = false) as -> by (by destruct next). mstep.
      unfold SetNextEntry. mstep with Hrun. rewrite E32. apply Set_word. lia. }
    cbn [IsHole]. mstep by (by apply two_old). done.
  - split; try done.
    + apply header_put; [done|lia].
    + by rewrite lenZ_put.
    + intros i oe j Hi Hi0 Hj. pose proof (index_of_above ho cap i Hi0). rewrite word_put_ne; [by apply He|lia|lia|].
      intros E. destruct (index_of_inj ho cap (lenZ pre) (ENTRY_SIZE ho) i j ltac:(lia) ltac:(lia) E). lia.
    + rewrite lenZ_app, lenZ_cons. lia.
    + intros i Hi Hlt. pose proof (index_of_above ho cap (Z.of_nat i) ltac:(lia)). destruct (decide (i = length pre)) as [->|Hni].
      * fold (lenZ pre). fold x. rewrite word_put_eq by lia. do 2 f_equal.
        rewrite (take_S_r _ _ None), dead_app, take_app_length; [done|]. by apply list_lookup_middle.
      * rewrite word_put_ne; [apply Hd; [done|lia]|lia|lia|]. intros E.
        destruct (index_of_inj ho cap (lenZ pre) (ENTRY_SIZE ho) (Z.of_nat i) (ENTRY_SIZE ho) ltac:(lia) ltac:(lia) E). unfold lenZ in *. lia.
Qed.

(** A live entry is appended to the new table. *)
Lemma rehash_live (a b : TaggedArray) (cap cap' : Z) (next : JSTaggedValue) (pre rest : list (option entry)) (e : entry) (k : nat) :
  rehashed a cap next k (pre ++ Some e :: rest) ->
  header b 0 0 cap' VHole -> small_cap ho cap' -> body ho b cap' (Some <$> live pre) (buckets_of cap' (live pre)) -> lenZ (live (pre ++ Some e :: rest)) < cap' ->
  exists b', rehash_round ho hash t0 t1 (lenZ pre) (lenZ (live pre), dead pre) (two a b) = (Ok (lenZ (live pre) + 1, dead pre), two a b') /\
    header b' 0 0 cap' VHole /\ body ho b' cap' (Some <$> live (pre ++ [Some e])) (buckets_of cap' (live (pre ++ [Some e]))).
Proof.
  intros [Ha Hc Hl He Ho Hf Hd] Hb Hc' Hbd Hlt. pose proof (lenZ_nonneg pre) as Hp. pose proof (lenZ_nonneg rest) as Hr. rewrite lenZ_app, lenZ_cons in Hf.
  rewrite live_app, live_cons, lenZ_app, lenZ_cons in Hlt. pose proof (lenZ_nonneg (live rest)) as Hlr. pose proof (lenZ_nonneg (live pre)) as Hlp.
  destruct (EntryToIndex_run ho a _ _ cap (lenZ pre) next Ha Hc ltac:(lia)) as (Hrun & E32 & Hlo & Hhi). pose proof (entry_size_bounds ho) as HS. pose proof Hc as [Hc4 Hc31]. pose proof Hc' as [Hc4' Hc31'].
  assert ((pre ++ Some e :: rest) !! Z.to_nat (lenZ pre) = Some (Some e)) as Hat by (apply list_lookup_middle; unfold lenZ; lia).
  pose proof (proj1 (Forall_lookup _ _) Ho _ _ Hat) as [Hle Hhd].
  set (es' := Some <$> live pre) in *. assert (lenZ es' = lenZ (live pre)) as Hes' by (unfold es', lenZ; by rewrite length_fmap).
  set (bk := bucket_of cap' (hash (key_of e))). assert (0 <= bk < cap') as Hbk by (apply bucket_of_range; nia).
  destruct (InsertNewEntry_run ho b 0 0 cap' bk VHole es' _ Hb Hc' Hbd ltac:(lia) Hbk) as (b1 & Hrun1 & Hb1 & Hl1 & He1 & Hk1 & Hbk1). rewrite Hes' in Hrun1.
  destruct (EntryToIndex_run ho b1 _ _ cap' (lenZ (live pre)) VHole Hb1 Hc' ltac:(lia)) as (Hr1 & E32' & Hlo' & Hhi'). rewrite (body_len _ _ _ _ _ Hbd) in Hl1.
  destruct (copy_words a b1 cap cap' (lenZ pre) (lenZ (live pre)) e) as (b2 & Hcopy & Hfr & Hw); [intros j Hj; by apply He|done|lia|lia|lia|].
  exists b2. split_and!.
  - unfold rehash_round. mstep by (by apply two_old). rewrite E32.
    assert (word a (index_of ho cap (lenZ pre)) = Some (key_of e)) as Hkey.
    { rewrite <- (Z.add_0_r (index_of _ _ _)), (He (lenZ pre) (Some e) 0 Hat ltac:(lia) ltac:(lia)). simpl. destruct e; [done|done]. }
    mstep by (apply two_old; [done..|]; apply Get_word; [lia|exact Hkey]). assert (IsHole (key_of e) = false) as -> by (unfold key_of; by destruct (hd VHole e)).
    mstep by (apply two_new; [done..|by eapply HashToBucket_run]). fold bk. mstep by (by apply two_new). mstep by (by apply two_new). rewrite E32'. mstep with Hcopy. done.
  - by apply (frame_header ho b1 b2 _ _ cap' VHole Hc' (lenZ (live pre))).
  - assert (Some <$> live (pre ++ [Some e]) = es' ++ [Some e]) as -> by (rewrite live_app; unfold es'; by rewrite fmap_app).
    assert (buckets_of cap' (live (pre ++ [Some e])) = buckets_of cap' (live pre) ++ [bk]) as -> by (rewrite live_app; unfold buckets_of; by rewrite fmap_app).
    apply (body_append ho b1 b2); rewrite ?Hes'; try done; try apply Hbd; lia.
Qed.

Lemma rehashed_skip (a : TaggedArray) (cap : Z) (next : JSTaggedValue) (pre rest : list (option entry)) (e : entry) :
  rehashed a cap next (length pre) (pre ++ Some e :: rest) -> rehashed a cap next (Datatypes.S (length pre)) (pre ++ Some e :: rest).
Proof.
  intros [Ha Hc Hl He Ho Hf Hd]. split; try done. intros i Hi Hlt. destruct (decide (i = length pre)) as [->|Hni]; [|apply Hd; [done|lia]].
  by rewrite list_lookup_middle in Hi.
Qed.

Lemma rehash_loop (b : TaggedArray) (cap cap' : Z) (next : JSTaggedValue) (pre rest : list (option entry)) (a : TaggedArray) :
  next <> VUndefined -> rehashed a cap next (length pre) (pre ++ rest) ->
  header b 0 0 cap' VHole -> small_cap ho cap' -> body ho b cap' (Some <$> live pre) (buckets_of cap' (live pre)) -> lenZ (live (pre ++ rest)) < cap' ->
  exists a' b', fold_up (length rest) (lenZ pre) (rehash_round ho hash t0 t1) (lenZ (live pre), dead pre) (two a b)
    = (Ok (lenZ (live (pre ++ rest)), dead (pre ++ rest)), two a' b') /\
    rehashed a' cap next (length (pre ++ rest)) (pre ++ rest) /\
    header b' 0 0 cap' VHole /\ body ho b' cap' (Some <$> live (pre ++ rest)) (buckets_of cap' (live (pre ++ rest))).
Proof.
  intros Hn. revert a b pre. induction rest as [|oe rest IH]; intros a b pre Hra Hb Hc' Hbd Hlt.
  { rewrite app_nil_r in *. by exists a, b. }
  assert (forall a b vars, vars = (lenZ (live (pre ++ [oe])), dead (pre ++ [oe])) ->
    fold_up (length rest) (lenZ pre + 1) (rehash_round ho hash t0 t1) vars (two a b) =
    fold_up (length rest) (lenZ (pre ++ [oe])) (rehash_round ho hash t0 t1) (lenZ (live (pre ++ [oe])), dead (pre ++ [oe])) (two a b)) as Hnext.
  { intros ? ? ? ->. by replace (lenZ pre + 1) with (lenZ (pre ++ [oe])) by lenz. }
  assert (pre ++ oe :: rest = (pre ++ [oe]) ++ rest) as Eapp by (by rewrite <- app_assoc).
  assert (Datatypes.S (length pre) = length (pre ++ [oe])) as Elen by (rewrite length_app; simpl; lia).
  cbn [fold_up length]. destruct oe as [e|].
  - destruct (rehash_live a b cap cap' next pre rest e _ Hra Hb Hc' Hbd Hlt) as (b1 & Hrun & Hb1 & Hbd1).
    mstep with Hrun. rewrite Hnext by (rewrite live_app, dead_app, lenZ_app; f_equal; change (dead [Some e]) with 0; lia).
    apply rehashed_skip in Hra. rewrite Elen, Eapp in Hra. rewrite Eapp in Hlt |- *. by apply IH.
  - destruct (rehash_deleted a b cap next pre rest Hra Hn) as (a1 & Hrun & Hra1).
    assert (live (pre ++ [None]) = live pre) as EL by (rewrite live_app; apply app_nil_r).
    mstep with Hrun. rewrite Hnext by (rewrite EL, dead_app; done). rewrite Elen, Eapp in Hra1. rewrite Eapp in Hlt |- *. apply IH; rewrite ?EL; done.
Qed.
End loop.

Lemma two_self (t0 t1 : Z) (st : Store) (a b : TaggedArray) : st !! Z.to_nat t0 = Some a -> st !! Z.to_nat t1 = Some b -> st = two t0 t1 st a b.
Proof. intros H0 H1. unfold two. rewrite (list_insert_id st _ b H1). by rewrite list_insert_id. Qed.

Context (ok : JSTaggedValue -> Prop) `{HZ : !ZeroHash heap hash ok}.

Lemma hashed_live (cap : Z) (l : list entry) : hashed cap (Some <$> l) (buckets_of cap l) hash.
Proof.
  intros i e Hi. rewrite list_lookup_fmap in Hi. unfold buckets_of. rewrite list_lookup_fmap. destruct (l !! i); [|done]. simpl in *. by injection Hi as ->.
Qed.

Lemma Rehash_run (t0 t1 : Z) (st : Store) (a b : TaggedArray) (cap cap' : Z) (es : list (option entry)) (bs : list Z) :
  st !! Z.to_nat t0 = Some a -> st !! Z.to_nat t1 = Some b -> Z.to_nat t0 <> Z.to_nat t1 ->
  table_ok ho heap hash ok a cap VHole es bs -> header b 0 0 cap' VHole -> small_cap ho cap' -> body ho b cap' [] [] -> lenZ (live es) < cap' ->
  exists a' b', Rehash ho hash t0 t1 st = (Ok tt, two t0 t1 st a' b') /\ rehashed a' cap (VObject t1) (length es) es /\
    table_ok ho heap hash ok b' cap' VHole (Some <$> live es) (buckets_of cap' (live es)).
Proof.
  intros Ht0 Ht1 Hne [Ha Hc Hbd Hh Hk] Hb Hc' Hb0 Hlt. assert (Z.to_nat t0 < length st)%nat as L0 by (by eapply lookup_lt_Some). assert (Z.to_nat t1 < length st)%nat as L1 by (by eapply lookup_lt_Some).
  assert (Rehash ho hash t0 t1 st = Rehash ho hash t0 t1 (two t0 t1 st a b)) as -> by (by rewrite <- (two_self t0 t1 st a b Ht0 Ht1)). pose proof (live_length es) as Hll. unfold Rehash.
  mstep by (apply two_new; [done..|by eapply Capacity_run]). mstep by (apply two_old; [done..|by eapply NumberOfElements_run]). zb. mstep.
  mstep by (apply two_old; [done..|by eapply NumberOfDeletedElements_run]).
  set (a1 := put a NEXT_TABLE_INDEX (VObject t1)).
  assert (rehashed a1 cap (VObject t1) (length (@nil (option entry))) ([] ++ es)) as Hra.
  { pose proof Hbd as [Hl He Hlk Hbk Hs Hf Hr Ho]. split; try done.
    - by eapply header_set_next.
    - unfold a1. by rewrite lenZ_put.
    - intros i oe j Hi Hi0 Hj. pose proof (index_of_above ho cap i Hi0). destruct Hc. unfold a1. rewrite word_put_header; [by apply He|done|lia].
    - intros i _ Hi. simpl in Hi. lia. }
  mstep by (apply two_old; [done..|]; apply Set_word; split; [done|]; eapply word_length; [done|apply Ha]). fold a1.
  destruct (rehash_loop t0 t1 st Hne L0 L1 b cap cap' (VObject t1) [] es a1 ltac:(done) Hra Hb Hc' Hb0 Hlt) as (a2 & b2 & Hrun & Hra2 & Hb2 & Hbd2).
  change (lenZ []) with 0 in Hrun. change (live []) with (@nil entry) in Hrun. change (lenZ []) with 0 in Hrun. change (dead []) with 0 in Hrun.
  replace (Z.to_nat (lenZ (live es) + (lenZ es - lenZ (live es)))) with (length es) by (unfold lenZ; lia). mstep with Hrun.
  rewrite app_nil_l in *. mstep by (apply two_old; [done..|]; eapply NumberOfElements_run, Hra2).
  mstep by (apply two_new; [done..|]; apply Set_word; split; [done|]; eapply word_length; [done|apply Hb2]).
  pose proof (header_set_n b2 _ (lenZ (live es)) _ _ _ Hb2) as Hb3. set (b3 := put b2 NUMBER_OF_ELEMENTS_INDEX _) in *.
  exists a2, (put b3 NUMBER_OF_DELETED_ELEMENTS_INDEX (VInt 0)). split_and!; [|done|].
  - apply two_new; [done..|]. apply Set_word. split; [done|]. eapply word_length; [done|apply Hb3].
  - split; rewrite ?live_Some; [|done| |apply hashed_live|done].
    + replace (lenZ (Some <$> live es) - lenZ (live es)) with 0 by (unfold lenZ; rewrite length_fmap; lia). by eapply header_set_d.
    + apply body_put_header; [done..|]. by apply body_put_header.
Qed.

(** *** Create *)

Lemma word_replicate (len x : Z) (v : JSTaggedValue) : 0 <= x < len -> word (replicate (Z.to_nat len) v) x = Some v.
Proof. intros Hx. unfold word. apply lookup_replicate_2. lia. Qed.

Lemma Create_run (n : Z) (st : Store) :
  small_cap ho n -> is_power_of_two n = true ->
  exists b, Create ho n st = (Ok (lenZ st), st ++ [b]) /\ header b 0 0 n VHole /\ body ho b n [] [].
Proof.
  intros Hc Hp. pose proof Hc as [Hc4 Hc31]. pose proof (entry_size_bounds ho) as HS. set (len := ELEMENTS_START_INDEX + n + n * (ENTRY_SIZE ho + 1)).
  assert (len = 4 + n + n * (ENTRY_SIZE ho + 1)) as Elen by done. set (b0 := replicate (Z.to_nat len) VHole). assert (0 < len) as Hpos by nia.
  assert (lenZ b0 = len) as Hl0 by (unfold b0; rewrite lenZ_replicate; lia).
  set (b1 := put b0 NUMBER_OF_ELEMENTS_INDEX (VInt 0)). set (b2 := put b1 NUMBER_OF_DELETED_ELEMENTS_INDEX (VInt 0)). set (b3 := put b2 CAPACITY_INDEX (VInt n)).
  unfold NUMBER_OF_ELEMENTS_INDEX, NUMBER_OF_DELETED_ELEMENTS_INDEX, CAPACITY_INDEX in *.
  assert (lenZ b1 = len /\ lenZ b2 = len /\ lenZ b3 = len) as (Hl1 & Hl2 & Hl3) by (unfold b3, b2, b1; rewrite !lenZ_put; auto).
  exists b3. split_and!.
  - unfold Create. zb. rewrite Hp. mstep. mstep. fold len.
    assert (Factory.NewTaggedArray len VHole = b0) as -> by (unfold Factory.NewTaggedArray; zb; done).
    assert ((SetNumberOfElements 0;; SetNumberOfDeletedElements 0;; SetCapacity n) b0 = (Ok tt, b3)) as Hb.
    { assert (1 < len /\ 2 < len) as [Hlen1 Hlen2] by nia. mstep by (apply Set_word; unfold NUMBER_OF_ELEMENTS_INDEX; lia).
      mstep by (apply Set_word; rewrite lenZ_put; unfold NUMBER_OF_DELETED_ELEMENTS_INDEX; lia). apply Set_word. rewrite !lenZ_put. unfold CAPACITY_INDEX. lia. }
    mstep by (by apply build_run, Hb).
    by mstep.
  - split; unfold NUMBER_OF_ELEMENTS_INDEX, NUMBER_OF_DELETED_ELEMENTS_INDEX, CAPACITY_INDEX, NEXT_TABLE_INDEX.
    + unfold b3, b2. rewrite !word_put_ne by lia. apply word_put_eq. lia.
    + unfold b3. rewrite word_put_ne by lia. apply word_put_eq. nia.
    + apply word_put_eq. nia.
    + unfold b3, b2, b1. rewrite !word_put_ne by lia. apply word_replicate. nia.
  - split; try done; [|change (lenZ []) with 0; lia].
    intros k Hk. unfold b3, b2, b1. rewrite !word_put_header by lia. apply word_replicate. nia.
Qed.
End rehash.
(** ** Operations on the store *)

(** What the code relies on of GetPowerOfTwoValue32 of the runtime core: the
    least power of two that is not below its argument. *)
Definition least_power_of_two (f : Z -> Z) : Prop :=
  forall x, 0 <= x <= 2 ^ 31 -> exists k, 0 <= k /\ f x = 2 ^ k /\ x <= 2 ^ k /\ (k = 0 \/ 2 ^ (k - 1) < x).

Lemma pow2_is (k : Z) : 0 <= k -> is_power_of_two (2 ^ k) = true.
Proof.
  intros Hk. unfold is_power_of_two. apply andb_true_iff. split; [apply Z.ltb_lt; lia|]. apply Z.eqb_eq.
  replace (2 ^ k - 1) with (Z.ones k) by (rewrite Z.ones_equiv; lia). rewrite Z.land_ones by lia. by rewrite Z.mod_same by lia.
Qed.

(** The number of entries for which indices stay ints. *)
Definition max_entries : Z := 2 ^ 26.

Section store_runs.
Context (ho : HashObject) `{Hho : !HashObjectOk ho} (heap : Heap) (hash : JSTaggedValue -> Z).
Context (ok : JSTaggedValue -> Prop) `{HZ : !ZeroHash heap hash ok}.
Context (GetPowerOfTwoValue32 : Z -> Z) (Hpow : least_power_of_two GetPowerOfTwoValue32).
Notation table_ok := (table_ok ho heap hash ok).

Lemma ComputeCapacity_spec (n : Z) :
  0 < n <= max_entries ->
  let cap := ComputeCapacity GetPowerOfTwoValue32 n in n < cap <= 4 * n + 4 /\ small_cap ho cap /\ is_power_of_two cap = true.
Proof.
  unfold max_entries. intros Hn. cbv zeta. unfold ComputeCapacity, MIN_CAPACITY. rewrite Z.shiftr_div_pow2 by lia. change (2 ^ 1) with 2.
  rewrite u32_small by zlia. destruct (Hpow (n + n / 2)) as (k & Hk & -> & Hr & Hm); [zlia|].
  assert (2 ^ k <= 3 * n) as Hb.
  { destruct Hm as [->|Hm]; [lia|]. destruct (Z.eq_dec k 0) as [->|]; [lia|]. replace (2 ^ k) with (2 * 2 ^ (k - 1)) by (rewrite <- Z.pow_succ_r by lia; f_equal; lia). zlia. } rewrite i32_id by lia. pose proof (entry_size_bounds ho) as HS. unfold small_cap.
  destruct (Z.ltb_spec 4 (2 ^ k)).
  - split_and!; [|lia|lia|nia|by apply pow2_is]. destruct (Z.eq_dec n 1) as [->|]; [lia|]. assert (1 <= n / 2) by zlia. lia.
  - assert (n + n / 2 <= 4) by lia. split_and!; [zlia|lia|lia|nia|done].
Qed.

(** The table [t] of the store is in use and has these entries. *)
Definition current (st : Store) (t : Z) (es : list (option entry)) : Prop :=
  0 <= t /\ exists a cap bs, st !! Z.to_nat t = Some a /\ table_ok a cap VHole es bs.

(** Positions in [es] and the same positions in [es']. *)
Definition reindex (es es' : list (option entry)) (f : Z -> Z) : Prop :=
  forall j, 0 <= j <= lenZ es -> 0 <= f j <= lenZ es' /\ live (take (Z.to_nat (f j)) es') = live (take (Z.to_nat j) es) /\
    live (drop (Z.to_nat (f j)) es') = live (drop (Z.to_nat j) es).

(** The current table [t] became [t'], either in place or as a new table that
    [t] points to; an index [j] in the one is [f j] in the other. *)
Record transition (st : Store) (t : Z) (es : list (option entry)) (st' : Store) (t' : Z) (f : Z -> Z) : Prop := mkTransition {
  tr_others : forall u, u <> Z.to_nat t -> (u < length st)%nat -> st' !! u = st !! u;
  tr_length : (length st <= length st')%nat;
  tr_move : (t' = t /\ forall j, f j = j) \/
    (t' = lenZ st /\ exists a, st' !! Z.to_nat t = Some a /\ word a NEXT_TABLE_INDEX = Some (VObject t') /\
      forall j, 0 <= j <= lenZ es -> GetDeletedElementsAt ho j a = (Ok (j - f j), a));
}.

Lemma reindex_id (es : list (option entry)) : reindex es es id.
Proof. intros j Hj. done. Qed.

Lemma current_bounds (st : Store) (t : Z) (es : list (option entry)) : current st t es -> 0 <= t < lenZ st.
Proof. intros (Ht & a & cap & bs & Hl & _). apply lookup_lt_Some in Hl. unfold lenZ. lia. Qed.

Lemma transition_stay (st : Store) (t : Z) (es : list (option entry)) (a : TaggedArray) : 0 <= t -> transition st t es (<[Z.to_nat t := a]> st) t id.
Proof. intros Ht. split; [intros u Hu _; by apply list_lookup_insert_ne|by rewrite length_insert|by left]. Qed.

Lemma transition_refl (st : Store) (t : Z) (es : list (option entry)) : transition st t es st t id.
Proof. split; [done|done|by left]. Qed.

Lemma reindex_live (es : list (option entry)) : reindex es (Some <$> live es) (fun j => lenZ (live (take (Z.to_nat j) es))).
Proof.
  intros j Hj. set (n := Z.to_nat j). assert (Some <$> live es = (Some <$> live (take n es)) ++ (Some <$> live (drop n es))) as -> by (by rewrite <- fmap_app, <- live_app, take_drop).
  assert (Z.to_nat (lenZ (live (take n es))) = length (Some <$> live (take n es))) as -> by (unfold lenZ; rewrite length_fmap; lia).
  rewrite take_app_length, drop_app_length, !live_Some. split; [|done]. rewrite lenZ_app. unfold lenZ. rewrite !length_fmap. lia.
Qed.

(** *** A new table for the entries *)

Lemma move_run (st : Store) (t cap : Z) (es : list (option entry)) :
  current st t es -> small_cap ho cap -> is_power_of_two cap = true -> lenZ (live es) < cap ->
  exists st', (newTable ← Create ho cap; Rehash ho hash t newTable;; mret newTable) st = (Ok (lenZ st), st') /\
    transition st t es st' (lenZ st) (fun j => lenZ (live (take (Z.to_nat j) es))) /\
    0 <= lenZ st /\ exists a bs, st' !! Z.to_nat (lenZ st) = Some a /\ table_ok a cap VHole (Some <$> live es) bs.
Proof.
  intros (Ht & a & cap0 & bs & Hl & Hok) Hc Hp Hlt. destruct (Create_run ho cap st Hc Hp) as (b & Hcr & Hb & Hbd). mstep with Hcr.
  pose proof (lookup_lt_Some _ _ _ Hl) as Hlen. assert (Z.to_nat (lenZ st) = length st) as En by (unfold lenZ; lia).
  assert ((st ++ [b]) !! Z.to_nat t = Some a) as H0 by (by rewrite lookup_app_l). assert ((st ++ [b]) !! Z.to_nat (lenZ st) = Some b) as H1 by (rewrite En; by apply list_lookup_middle).
  destruct (Rehash_run ho heap hash ok t (lenZ st) (st ++ [b]) a b cap0 cap es bs H0 H1 ltac:(lia) Hok Hb Hc Hbd Hlt) as (a' & b' & Hrun & Hra & Hok').
  mstep with Hrun. exists (two t (lenZ st) (st ++ [b]) a' b'). pose proof (lookup_lt_Some _ _ _ H0) as L0. pose proof (lookup_lt_Some _ _ _ H1) as L1.
  split_and!; [done| |apply lenZ_nonneg|].
  - split.
    + intros u Hu Hul. unfold two. rewrite !list_lookup_insert_ne by lia. by apply lookup_app_l.
    + unfold two. rewrite !length_insert, length_app. lia.
    + right. split; [done|]. exists a'. split_and!.
      * unfold two. apply list_lookup_insert_eq. by rewrite length_insert.
      * apply (header_next _ _ _ _ _ (rehashed_header _ _ _ _ _ _ Hra)).
      * intros j Hj. rewrite (GetDeletedElementsAt_rehashed ho a' cap0 j _ es Hra ltac:(done) Hj). do 2 f_equal. unfold dead.
        assert (lenZ (take (Z.to_nat j) es) = j) as -> by (unfold lenZ in *; rewrite length_take_le; lia). done.
  - exists b', (buckets_of hash cap (live es)). split; [|done]. unfold two. rewrite list_lookup_insert_ne by lia. apply list_lookup_insert_eq. done.
Qed.
(** *** GrowCapacity *)

Lemma Linked_GrowCapacity_run (st : Store) (t : Z) (es : list (option entry)) :
  current st t es -> lenZ (live es) < max_entries ->
  exists st' t' es' f, GrowCapacity ho hash GetPowerOfTwoValue32 t 1 st = (Ok t', st') /\ transition st t es st' t' f /\ reindex es es' f /\ live es' = live es /\
    0 <= t' /\ exists a cap bs, st' !! Z.to_nat t' = Some a /\ table_ok a cap VHole es' bs /\ lenZ es' < cap.
Proof.
  intros Hcur Hmax. pose proof Hcur as (Ht & a & cap & bs & Hl & Hok). pose proof Hok as [Ha Hc Hb Hh Hk]. pose proof (live_length es) as Hll. unfold GrowCapacity.
  set (n := lenZ (live es)) in *.
  assert (HasSufficientCapacity 1 a = (Ok ((n + 1 <? cap) && (lenZ es - n <=? Z.quot (cap - (n + 1)) 2) && (n + 1 + Z.quot (n + 1) 2 <=? cap)), a)) as Hs.
  { unfold HasSufficientCapacity. mstep by (by eapply NumberOfElements_run). mstep by (by eapply NumberOfDeletedElements_run). by mstep by (by eapply Capacity_run). }
  mstep by (by eapply on_table_read). destruct (_ && _) eqn:Hsuf.
  - apply andb_true_iff in Hsuf as [[H1%Z.ltb_lt H2%Z.leb_le]%andb_true_iff _]. exists st, t, es, id. split_and!; [done|apply transition_refl|apply reindex_id|done|done|].
    exists a, cap, bs. split_and!; [done|done|]. zlia.
  - mstep by (eapply on_table_read; [done|by eapply NumberOfElements_run]). fold n. rewrite (u32_small (n + 1)) by (unfold max_entries in Hmax; lia).
    destruct (ComputeCapacity_spec (n + 1) ltac:(lia)) as (Hr & Hsm & Hp).
    destruct (move_run st t (ComputeCapacity GetPowerOfTwoValue32 (n + 1)) es Hcur Hsm Hp ltac:(lia)) as (st' & Hrun & Htr & Hn & a' & bs' & Hl' & Hok').
    exists st', (lenZ st), (Some <$> live es), (fun j => lenZ (live (take (Z.to_nat j) es))). split_and!; [done|done|apply reindex_live|apply live_Some|done|].
    exists a', (ComputeCapacity GetPowerOfTwoValue32 (n + 1)), bs'. split_and!; [done|done|]. unfold lenZ. rewrite length_fmap. fold (lenZ (live es)). lia.
Qed.

(** *** Insert *)

Definition set_entries (key value : JSTaggedValue) (es : list (option entry)) : list (option entry) :=
  if found heap key es then upd_entries ho heap key value es else es ++ [Some (new_entry ho key value)].

(** A set stores the key as its value. *)
Definition proper_value (key value : JSTaggedValue) : Prop := ENTRY_VALUE_INDEX ho = 0 -> value = key.

Lemma key_of_set_value (value : JSTaggedValue) (e : entry) :
  lenZ e = ENTRY_SIZE ho -> key_of (set_value ho value e) = if ENTRY_VALUE_INDEX ho =? 0 then value else key_of e.
Proof.
  intros Hl. pose proof (value_index (ho := ho)) as EV. unfold key_of, set_value. destruct entry_size as [E|E]; rewrite E in *; rewrite EV; unfold lenZ in Hl.
  - destruct e; [simpl in Hl; lia|done].
  - by destruct e.
Qed.

Lemma key_of_new_entry (key value : JSTaggedValue) : proper_value key value -> key_of (new_entry ho key value) = key.
Proof.
  intros Hp. unfold proper_value in Hp. pose proof (value_index (ho := ho)) as EV. destruct ho as [es vi]. unfold new_entry, set_value, key_of. simpl in *. subst vi.
  destruct (entry_size (ho := mkHashObject es (es - 1))) as [E|E]; simpl in E; subst es; [by apply Hp|done].
Qed.

Lemma Insert_run (st : Store) (t : Z) (key value : JSTaggedValue) (es : list (option entry)) :
  current st t es -> lenZ (live es) < max_entries -> ok key -> key <> VHole -> proper_value key value ->
  exists st' t' es' f, Insert ho heap hash GetPowerOfTwoValue32 t key value st = (Ok t', st') /\ transition st t es st' t' f /\ reindex es es' f /\
    current st' t' (set_entries key value es').
Proof.
  intros Hcur Hmax Hokk Hne Hprop. pose proof Hcur as (Ht & a & cap & bs & Hl & Hok). unfold Insert, IsKey. assert (IsHole key = false) as -> by (by destruct key). mstep.
  mstep by (eapply on_table_read; [done|by eapply FindElement_ok]). unfold find_entry. pose proof (ok_keys _ _ _ _ _ _ _ _ _ Hok) as [Hks Hd].
  pose proof (found_split ho heap key es Hd) as Hfs. destruct (find_last_index (matches heap key) es) as [i|]; cbn [default].
  - destruct Hfs as (l1 & e & l2 & -> & <- & Hm & Hf & Hu & _). cbn [from_option id]. pose proof (lenZ_nonneg l1). zb.
    pose proof (body_ok _ _ _ _ _ (ok_body _ _ _ _ _ _ _ _ _ Hok)) as Hbo. apply Forall_app in Hbo as [_ [[Hle Hhd] _]%Forall_cons_1].
    rewrite live_app, live_cons in Hks. apply Forall_app in Hks as [_ [Hke _]%Forall_cons_1]. pose proof (key_of_set_value value e Hle) as Hkey.
    destruct (SetValue_ok ho heap hash ok a cap VHole value l1 l2 e bs Hok) as (a' & Hrun & Hok').
    { rewrite Hkey. destruct (Z.eqb_spec (ENTRY_VALUE_INDEX ho) 0) as [E|E]; [by rewrite (Hprop E)|done]. }
    { rewrite Hkey. destruct (Z.eqb_spec (ENTRY_VALUE_INDEX ho) 0) as [E|E]; [by rewrite (Hprop E)|done]. }
    { rewrite Hkey. destruct (Z.eqb_spec (ENTRY_VALUE_INDEX ho) 0) as [E|E]; [rewrite (Hprop E); by apply SameValueZero_zident|done]. }
    mstep by (by eapply on_table_run). exists (<[Z.to_nat t := a']> st), t, (l1 ++ Some e :: l2), id.
    split_and!; [done|by apply transition_stay|apply reindex_id|]. split; [done|]. exists a', cap, bs. unfold set_entries. rewrite Hf, Hu.
    split; [|done]. apply list_lookup_insert_eq. by eapply lookup_lt_Some.
  - cbn [from_option id]. change (-1 =? -1) with true. cbn [negb].
    destruct (Linked_GrowCapacity_run st t es Hcur Hmax) as (st1 & t1 & es1 & f & Hg & Htr & Hre & Hlive & Ht1 & a1 & cap1 & bs1 & Hl1 & Hok1 & Hlt). mstep with Hg.
    assert (found heap key es1 = false) as Hf1 by (by rewrite found_live, Hlive, <- found_live).
    destruct (append_ok ho heap hash ok a1 cap1 VHole key value es1 bs1 Hok1 Hlt Hf1 (key_of_new_entry key value Hprop) Hokk Hne) as (a2 & Hrun & Hok2).
    mstep by (eapply on_table_run; [done|exact Hrun]). exists (<[Z.to_nat t1 := a2]> st1), t1, es1, f. pose proof (lookup_lt_Some _ _ _ Hl1) as Hlen1. split_and!; [done| |done|].
    + destruct Htr as [Ho Hlen Hmv]. pose proof (current_bounds _ _ _ Hcur) as Hb. split.
      * intros u Hu Hul. destruct Hmv as [[-> _]|[-> _]]; rewrite list_lookup_insert_ne by (unfold lenZ; lia); by apply Ho.
      * by rewrite length_insert.
      * destruct Hmv as [Hmv|(-> & a0 & Ha0 & Hn0 & Hd0)]; [by left|]. right. split; [done|]. exists a0. rewrite list_lookup_insert_ne by (unfold lenZ in *; lia). done.
    + split; [done|]. exists a2, cap1, (bs1 ++ [bucket_of cap1 (hash key)]). unfold set_entries. rewrite Hf1. split; [|done]. by apply list_lookup_insert_eq.
Qed.
(** *** Shrink and Remove *)

Lemma ComputeCapacity_zero : ComputeCapacity GetPowerOfTwoValue32 0 = 4.
Proof.
  unfold ComputeCapacity, MIN_CAPACITY. change (u32 (0 + Z.shiftr 0 1)) with 0. destruct (Hpow 0 ltac:(lia)) as (k & Hk & -> & _ & [->|Hm]); [done|].
  assert (0 <= 2 ^ (k - 1)) by (apply Z.pow_nonneg; lia). lia.
Qed.

Lemma Shrink_run (st : Store) (t : Z) (es : list (option entry)) :
  current st t es -> lenZ (live es) <= max_entries ->
  exists st' t' es' f, Shrink ho hash GetPowerOfTwoValue32 t 0 st = (Ok t', st') /\ transition st t es st' t' f /\ reindex es es' f /\ live es' = live es /\ current st' t' es'.
Proof.
  intros Hcur Hmax. pose proof Hcur as (Ht & a & cap & bs & Hl & Hok). pose proof Hok as [Ha Hc Hb Hh Hk]. pose proof (lenZ_nonneg (live es)) as Hn0. unfold Shrink.
  mstep by (eapply on_table_read; [done|by eapply Capacity_run]). mstep by (eapply on_table_read; [done|by eapply NumberOfElements_run]). rewrite Z.add_0_r. set (n := lenZ (live es)) in *.
  assert (exists st' t' es' f, (mret t : M Store Z) st = (Ok t', st') /\ transition st t es st' t' f /\ reindex es es' f /\ live es' = live es /\ current st' t' es') as Hstay.
  { exists st, t, es, id. split_and!; [done|apply transition_refl|apply reindex_id|done|done]. }
  unfold ComputeCapacityWithShrink. destruct (Z.ltb_spec (Z.quot cap 4) n) as [Hq|Hq]; [mstep; by rewrite Z.eqb_refl|]. rewrite (u32_small n) by (unfold max_entries in Hmax; lia).
  set (nc := ComputeCapacity GetPowerOfTwoValue32 n). assert (n < nc /\ (16 <= nc -> small_cap ho nc /\ is_power_of_two nc = true)) as [Hnc Hncs].
  { unfold nc. destruct (Z.eq_dec n 0) as [->|]; [rewrite ComputeCapacity_zero; lia|]. destruct (ComputeCapacity_spec n ltac:(lia)) as (? & ? & ?). split; [lia|done]. }
  rewrite (bind_Ok _ _ st st (if nc <? MIN_SHRINK_CAPACITY then cap else nc)) by (zb; done). unfold MIN_SHRINK_CAPACITY.
  destruct (Z.ltb_spec nc 16); [by rewrite Z.eqb_refl|]. destruct (Z.eqb_spec nc cap); [done|]. destruct (Hncs ltac:(lia)) as [Hsm Hp].
  destruct (move_run st t nc es Hcur Hsm Hp Hnc) as (st' & Hrun & Htr & Hn & a' & bs' & Hl' & Hok').
  exists st', (lenZ st), (Some <$> live es), (fun j => lenZ (live (take (Z.to_nat j) es))). split_and!; [done|done|apply reindex_live|apply live_Some|]. split; [done|]. by exists a', nc, bs'.
Qed.

(** RemoveEntry of a key that is found. *)
Lemma remove_found (st : Store) (t : Z) (key : JSTaggedValue) (es : list (option entry)) :
  current st t es -> ok key -> key <> VHole ->
  exists e, on_table t (FindElement ho heap hash key) st = (Ok e, st) /\ (e =? -1) = negb (found heap key es) /\
    (found heap key es = true -> exists a, on_table t (RemoveEntry ho e) st = (Ok tt, <[Z.to_nat t := a]> st) /\ current (<[Z.to_nat t := a]> st) t (del_entries heap key es)).
Proof.
  intros (Ht & a & cap & bs & Hl & Hok) Hokk Hne. exists (find_entry heap key es). split; [eapply on_table_read; [done|by eapply FindElement_ok]|].
  pose proof (ok_keys _ _ _ _ _ _ _ _ _ Hok) as [_ Hd]. pose proof (found_split ho heap key es Hd) as Hfs. unfold find_entry.
  destruct (find_last_index (matches heap key) es) as [i|]; cbn [default from_option id].
  - destruct Hfs as (l1 & e & l2 & -> & <- & Hm & Hf & _ & Hdel). pose proof (lenZ_nonneg l1). rewrite Hf, Hdel. split; [by zb|]. intros _.
    destruct (RemoveEntry_ok ho heap hash ok a cap VHole l1 l2 e bs Hok) as (a' & Hrun & Hok'). exists a'. split; [by eapply on_table_run|]. split; [done|]. exists a', cap, bs.
    split; [|done]. apply list_lookup_insert_eq. by eapply lookup_lt_Some.
  - rewrite Hfs. split; [done|]. done.
Qed.

Lemma unfound_del (key : JSTaggedValue) (es : list (option entry)) : found heap key es = false -> del_entries heap key es = es.
Proof. intros Hf. by destruct (unmatched ho heap key es Hf) as (_ & Hd & _). Qed.

Lemma Linked_Remove_run (st : Store) (t : Z) (key : JSTaggedValue) (es : list (option entry)) :
  current st t es -> lenZ (live es) <= max_entries -> ok key -> key <> VHole ->
  exists st' t' es', Remove ho heap hash GetPowerOfTwoValue32 t key st = (Ok t', st') /\ live es' = live (del_entries heap key es) /\ current st' t' es'.
Proof.
  intros Hcur Hmax Hokk Hne. destruct (remove_found st t key es Hcur Hokk Hne) as (e & Hfind & He & Hrem). unfold Remove. mstep with Hfind. rewrite He.
  destruct (found heap key es) eqn:Hf; cbn [negb].
  - destruct (Hrem eq_refl) as (a & Hrun & Hcur'). mstep with Hrun.
    destruct (Shrink_run _ t _ Hcur') as (st' & t' & es' & f & Hs & _ & _ & Hlive & Hc'); [|by exists st', t', es'].
    rewrite live_del. apply Z.le_trans with (lenZ (live es)); [|done]. clear. induction (live es) as [|x l IH]; [done|]. cbn [List.filter]. destruct (negb _); rewrite !lenZ_cons; lia.
  - exists st, t, es. by rewrite unfound_del.
Qed.

(** *** Clear *)

Lemma Create_current (st : Store) : exists b, Create ho MIN_CAPACITY st = (Ok (lenZ st), st ++ [b]) /\ current (st ++ [b]) (lenZ st) [].
Proof.
  pose proof (entry_size_bounds ho) as HS. destruct (Create_run ho MIN_CAPACITY st) as (b & Hrun & Hh & Hb); [unfold small_cap, MIN_CAPACITY; nia|done|].
  exists b. split; [done|]. split; [apply lenZ_nonneg|]. exists b, MIN_CAPACITY, []. split; [apply list_lookup_middle; unfold lenZ; lia|].
  split; [done|unfold small_cap, MIN_CAPACITY; nia|done|done|]. split; [done|]. unfold distinct. simpl. apply NoDup_nil_2.
Qed.

Lemma Linked_Clear_run (st : Store) (t : Z) (es : list (option entry)) :
  current st t es ->
  exists st', Clear ho t st = (Ok (lenZ st), st') /\ transition st t es st' (lenZ st) (fun _ => 0) /\ current st' (lenZ st) [].
Proof.
  intros Hcur. pose proof (current_bounds _ _ _ Hcur) as Hbt. pose proof Hcur as (Ht & a & cap & bs & Hl & Hok). pose proof (ok_header _ _ _ _ _ _ _ _ _ Hok) as Ha.
  pose proof (ok_cap _ _ _ _ _ _ _ _ _ Hok) as [Hc4 _]. destruct (Create_current st) as (b & Hcr & Hcb). unfold Clear. mstep with Hcr.
  assert ((st ++ [b]) !! Z.to_nat t = Some a) as H0 by (rewrite lookup_app_l; [done|by eapply lookup_lt_Some]). pose proof (lookup_lt_Some _ _ _ H0) as L0.
  mstep by (eapply on_table_read; [done|by eapply Capacity_run]). zb.
  pose proof (header_set_next a _ _ _ _ (VObject (lenZ st)) Ha) as Ha1. set (a1 := put a NEXT_TABLE_INDEX (VObject (lenZ st))) in *.
  pose proof (header_set_d a1 _ _ (-1) _ _ Ha1) as Ha2. set (a2 := put a1 NUMBER_OF_DELETED_ELEMENTS_INDEX (VInt (-1))) in *.
  assert ((on_table t (SetNextTable (VObject (lenZ st)));; on_table t (SetNumberOfDeletedElements (-1))) (st ++ [b]) = (Ok tt, <[Z.to_nat t := a2]> (st ++ [b]))) as Hw.
  { mstep by (eapply on_table_run; [done|apply Set_word; split; [done|eapply word_length; [done|apply Ha]]]). fold a1.
    rewrite (on_table_run _ _ a1 a2 _ tt); [by rewrite list_insert_insert_eq|by apply list_lookup_insert_eq|apply Set_word; split; [done|eapply word_length; [done|apply Ha1]]]. }
  mstep with Hw. exists (<[Z.to_nat t := a2]> (st ++ [b])). split_and!; [done| |].
  - split.
    + intros u Hu Hul. rewrite list_lookup_insert_ne by done. by apply lookup_app_l.
    + rewrite length_insert, length_app. lia.
    + right. split; [done|]. exists a2. split_and!; [by apply list_lookup_insert_eq|apply (header_next _ _ _ _ _ Ha2)|].
      intros j Hj. rewrite (GetDeletedElementsAt_cleared ho a2 _ cap j _ Ha2 ltac:(done)). do 2 f_equal. lia.
  - destruct Hcb as (Hn & b' & capb & bsb & Hlb & Hokb). split; [done|]. exists b', capb, bsb. split; [|done]. rewrite list_lookup_insert_ne; [done|lia].
Qed.
End store_runs.
(** ** The hash respects SameValueZero *)

(** Ints in the range of int32_t, one NaN pattern. *)
Definition map_key (nan_bits : Z) (v : JSTaggedValue) : Prop :=
  match v with
  | VInt z => INT32_MIN <= z <= INT32_MAX
  | VDouble b => 0 <= b < 2 ^ 64 /\ (double_of_bits b = DNaN -> b = nan_bits)
  | _ => True
  end.

(** The int that a number is cast to before it is hashed. *)
Definition cast_number (v : JSTaggedValue) : JSTaggedValue := match v with VDouble b => TryCastDoubleToInt32 b | _ => v end.

Lemma cast_int (z b : Z) :
  INT32_MIN <= z <= INT32_MAX -> zero_ident (KNum (double_of_int z)) = zero_ident (KNum (double_of_bits b)) -> TryCastDoubleToInt32 b = VInt z.
Proof.
  unfold INT32_MIN, INT32_MAX, double_of_int, TryCastDoubleToInt32. intros Hz. destruct (Z.eqb_spec z 0) as [->|Hne].
  - destruct (double_of_bits b); simpl; (done || intros; congruence).
  - destruct (double_of_bits b) as [| | |k]; simpl; try (intros; congruence). intros [= <-].
    rewrite Z.quot_mul, Z.abs_mul, (Z.abs_eq (2 ^ 1074)), Z.mod_mul by lia. unfold INT32_MIN, INT32_MAX. by zb.
Qed.

Lemma cast_number_spec (nan_bits : Z) (x y : JSTaggedValue) :
  map_key nan_bits x -> map_key nan_bits y -> IsNumber x = true -> IsNumber y = true ->
  zero_ident (KNum (ExtractNumber x)) = zero_ident (KNum (ExtractNumber y)) -> cast_number x = cast_number y.
Proof.
  intros Hx Hy Nx Ny Heq. destruct x as [z|b| | | | | |]; try done; destruct y as [z'|b'| | | | | |]; try done; cbn [ExtractNumber map_key cast_number] in *.
  - f_equal. apply LightWeightMap.double_of_int_inj. unfold double_of_int in *. destruct (z =? 0), (z' =? 0); simpl in Heq; congruence.
  - symmetry. by eapply (cast_int z b').
  - by eapply (cast_int z' b).
  - unfold TryCastDoubleToInt32. destruct Hx as [Hb Hbn], Hy as [Hb' Hbn'].
    destruct (double_of_bits b) as [|m|m|k] eqn:E, (double_of_bits b') as [|m'|m'|k'] eqn:E'; simpl in Heq; try congruence; try done.
    + by rewrite Hbn, Hbn'.
    + injection Heq as <-. f_equal. apply (LightWeightMap.double_of_bits_inj b b'); congruence || done.
    + injection Heq as <-. assert (b = b') as -> by (apply (LightWeightMap.double_of_bits_inj b b'); congruence || done). done.
Qed.

Lemma Hash_cast_number (heap : Heap) (env : LightWeightMap.HashEnv) (x y : JSTaggedValue) :
  IsNumber x = true -> IsNumber y = true -> cast_number x = cast_number y -> Hash heap env x = Hash heap env y.
Proof.
  assert (forall v, IsNumber v = true -> Hash heap env v = i32 (LightWeightMap.GetHash32 env (LightWeightMap.bytes 8 (encode (cast_number v))))) as H by (by intros []).
  intros Nx Ny E. by rewrite !H, E.
Qed.

#[export] Instance Hash_ZeroHash (heap : Heap) (env : LightWeightMap.HashEnv) (nan_bits : Z) (Henv : LightWeightMap.env_ok heap env) :
  ZeroHash heap (Hash heap env) (map_key nan_bits).
Proof.
  destruct Henv as [Hstr Hbig]. intros x y Hx Hy Heq%SameValueZero_zident. unfold zident in Heq.
  destruct (IsNumber x) eqn:Nx, (IsNumber y) eqn:Ny.
  - rewrite !ident_number in Heq by done. apply Hash_cast_number; [done|done|]. by eapply cast_number_spec.
  - rewrite (ident_number heap x Nx) in Heq. pose proof (ident_of_inv heap y) as I. destruct (ident_of heap y) as [d| | |], (ExtractNumber x); simpl in *; congruence.
  - rewrite (ident_number heap y Ny) in Heq. pose proof (ident_of_inv heap x) as I. destruct (ident_of heap x) as [d| | |], (ExtractNumber y); simpl in *; congruence.
  - assert (ident_of heap x = ident_of heap y) as Heq'.
    { pose proof (ident_of_inv heap x) as Ix. pose proof (ident_of_inv heap y) as Iy. destruct (ident_of heap x) as [[]| | |], (ident_of heap y) as [[]| | |]; simpl in *; congruence. }
    clear Heq. destruct x as [| | | | | | |a], y as [| | | | | | |a']; try done; simpl in Heq'; try congruence;
      try (destruct (heap a) as [i u|s d|] eqn:Ha); try (destruct (heap a') as [i' u'|s' d'|] eqn:Ha'); try congruence.
    + destruct (Hstr a i u Ha) as [E1 E2], (Hstr a' i' u' Ha') as [E1' E2']. injection Heq' as <-. unfold Hash. by rewrite E1, E1', Ha, Ha', E2, E2'.
    + injection Heq' as <- <-. unfold Hash. by rewrite (Hbig a _ _ Ha), (Hbig a' _ _ Ha'), Ha, Ha'.
Qed.

(** The hash of a linked hash table respects SameValueZero: an int and the
    double of the same value, +0 and -0, strings with the same units and equal
    BigInts have one hash, so that equal keys land in one bucket. *)
Theorem linkedhash_respects_SameValueZero (heap : Heap) (env : LightWeightMap.HashEnv) (nan_bits : Z) (x y : JSTaggedValue) :
  LightWeightMap.env_ok heap env -> map_key nan_bits x -> map_key nan_bits y ->
  SameValueZero heap x y = true -> Hash heap env x = Hash heap env y.
Proof. intros Henv Hx Hy Hs. exact (Hash_ZeroHash heap env nan_bits Henv x y Hx Hy Hs). Qed.

(** ** Samples *)

Definition round_up_pow2 (x : Z) : Z := if x <=? 1 then 1 else 2 ^ Z.log2_up x.

Lemma round_up_pow2_least : least_power_of_two round_up_pow2.
Proof.
  intros x Hx. unfold round_up_pow2. destruct (Z.leb_spec x 1).
  - exists 0. split_and!; [done|done|lia|by left].
  - exists (Z.log2_up x). pose proof (Z.log2_up_spec x ltac:(lia)) as Hs. split_and!; [apply Z.log2_up_nonneg|done|lia|right]. rewrite Z.sub_1_r. lia.
Qed.

Definition nan_pattern : Z := 0x7FF8000000000000.

Lemma linkedhash_respects_SameValueZero_witness :
  Hash sample_heap LightWeightMap.sample_env (VInt 1) = Hash sample_heap LightWeightMap.sample_env (VDouble LightWeightMap.one_bits).
Proof.
  apply (linkedhash_respects_SameValueZero _ _ nan_pattern); [exact LightWeightMap.sample_env_ok|done|done|vm_compute; reflexivity].
Defined.

End LinkedHashTable.
