(* ===== verification/JSMap.v ===== *)
(** * Map, Set and their iterators: js_map.cpp, js_set.cpp, js_map_iterator.cpp,
    js_set_iterator.cpp.

    A map or a set holds one linked hash table at a time.  Its iterators hold the
    table that was the current one when they last looked, and follow the tables
    that replaced it since.  The theorems compare any sequence of operations and
    iterator steps with the list of entries of ECMA-262, where a deleted entry
    stays in the list and an iterator is a position in it. *)
From S2P Require Import Prelude TaggedValue TaggedArray EcmaString LightWeightMap LinkedHashTable.
Local Open Scope Z_scope.

Module JSMap.
Import LinkedHashTable.

(** ** Map, Set and their iterators *)

Inductive IterationKind : Type := KEY | VALUE | KEY_AND_VALUE.

(** JSMapIterator and JSSetIterator; no table is undefined. *)
Record Iterator : Type := mkIterator {
  IteratedMap : option Z;
  NextIndex : Z;
  GetIterationKind : IterationKind;
}.

(** A JSMap or a JSSet with the tables and the iterators made for it. *)
Record World : Type := mkWorld {
  tables : Store;
  GetLinkedMap : Z;
  iterators : list Iterator;
}.

Definition on_tables {A} (m : M Store A) : M World A :=
  zoom tables (fun st w => mkWorld st (GetLinkedMap w) (iterators w)) m.

Definition SetLinkedMap (t : Z) : M World unit := modify (fun w => mkWorld (tables w) t (iterators w)).

Section collection.
Context (ho : HashObject) (heap : Heap) (hash : JSTaggedValue -> Z) (GetPowerOfTwoValue32 : Z -> Z).

(** JSMap::Set, and JSSet::Add with the key as the value. *)
Definition Set_ (key value : JSTaggedValue) : M World unit :=
  if negb (IsKey key) then throw TYPE_ERROR
  else
    t ← gets GetLinkedMap;
    newMap ← on_tables (Insert ho heap hash GetPowerOfTwoValue32 t key value);
    SetLinkedMap newMap.

Definition Add (value : JSTaggedValue) : M World unit := Set_ value value.

Definition Delete (key : JSTaggedValue) : M World bool :=
  t ← gets GetLinkedMap;
  entry ← on_tables (on_table t (FindElement ho heap hash key));
  if entry =? -1 then mret false
  else
    on_tables (on_table t (RemoveEntry ho entry));;
    mret true.

Definition ClearMap : M World unit :=
  t ← gets GetLinkedMap;
  newMap ← on_tables (Clear ho t);
  SetLinkedMap newMap.

Definition HasKey (key : JSTaggedValue) : M World bool :=
  t ← gets GetLinkedMap;
  on_tables (on_table t (Has ho heap hash key)).

Definition GetMap (key : JSTaggedValue) : M World JSTaggedValue :=
  t ← gets GetLinkedMap;
  on_tables (on_table t (Get ho heap hash key)).

Definition GetSize : M World Z :=
  t ← gets GetLinkedMap;
  on_tables (on_table t NumberOfElements).

(** JSMap::GetKey and JSMap::GetValue by entry. *)
Definition entry_at (get : Z -> M TaggedArray JSTaggedValue) (entry : Z) : M World JSTaggedValue :=
  size ← GetSize;
  ASSERT ((0 <=? entry) && (entry <? size));;
  t ← gets GetLinkedMap;
  on_tables (on_table t (get entry)).

(** CreateMapIterator; an iterator is named by its position. *)
Definition CreateIterator (kind : IterationKind) : M World Z := fun w =>
  (Ok (lenZ (iterators w)), mkWorld (tables w) (GetLinkedMap w) (iterators w ++ [mkIterator (Some (GetLinkedMap w)) 0 kind])).

Definition get_iterator (i : Z) : M World Iterator := fun w =>
  match iterators w !! Z.to_nat i with Some it => (Ok it, w) | None => (Fault, w) end.

Definition set_iterator (i : Z) (it : Iterator) : M World unit :=
  modify (fun w => mkWorld (tables w) (GetLinkedMap w) (<[Z.to_nat i := it]> (iterators w))).

(** A round of the loop of Update: the table and the index in it. *)
Definition update_step (vars : Z * Z) : M World (Z * Z + Z * Z) :=
  let '(map, index) := vars in
  nextTable ← on_tables (on_table map GetNextTable);
  match nextTable with
  | VHole => mret (inr (map, index))
  | VObject t =>
      d ← on_tables (on_table map (GetDeletedElementsAt ho index));
      mret (inl (t, index - d))
  | _ => fault
  end.

Definition Update (i : Z) : M World unit :=
  it ← get_iterator i;
  match IteratedMap it with
  | None => mret tt
  | Some map =>
      n ← gets (fun w => length (tables w));
      r ← while_fuel (Datatypes.S n) update_step (map, NextIndex it);
      set_iterator i (mkIterator (Some r.1) r.2 (GetIterationKind it))
  end.

(** What an iterator returns for an entry: the words of its result. *)
Definition map_item (kind : IterationKind) (index : Z) (key : JSTaggedValue) : M TaggedArray (list JSTaggedValue) :=
  match kind with
  | KEY => mret [key]
  | VALUE => value ← GetValue ho index; mret [value]
  | KEY_AND_VALUE => value ← GetValue ho index; mret [key; value]
  end.

Definition set_item (kind : IterationKind) (index : Z) (key : JSTaggedValue) : M TaggedArray (list JSTaggedValue) :=
  match kind with
  | KEY | VALUE => mret [key]
  | KEY_AND_VALUE => mret [key; key]
  end.

(** JSMapIterator::NextInternal (with map_item) and JSSetIterator::NextInternal
    (with set_item); [None] is the result {undefined, done: true}. *)
Definition NextInternal (item : IterationKind -> Z -> JSTaggedValue -> M TaggedArray (list JSTaggedValue)) (i : Z) : M World (option (list JSTaggedValue)) :=
  Update i;;
  it ← get_iterator i;
  match IteratedMap it with
  | None => mret None
  | Some map =>
      n ← on_tables (on_table map NumberOfElements);
      d ← on_tables (on_table map NumberOfDeletedElements);
      let totalElements := n + d in
      r ← find_up (Z.to_nat (totalElements - NextIndex it)) (NextIndex it) (fun index =>
            key ← on_tables (on_table map (GetKey ho index));
            if IsHole key then mret None
            else
              set_iterator i (mkIterator (Some map) (index + 1) (GetIterationKind it));;
              words ← on_tables (on_table map (item (GetIterationKind it) index key));
              mret (Some words));
      match r with
      | Some words => mret (Some words)
      | None =>
          set_iterator i (mkIterator None (NextIndex it) (GetIterationKind it));;
          mret None
      end
  end.
End collection.

(** A map and a set with one table. *)
Definition new_collection (ho : HashObject) : World :=
  mkWorld (Create ho MIN_CAPACITY []).2 0 [].
(** ** Operations and entry lists *)

(** An operation on a map or a set, a new iterator and a step of an iterator. *)
Inductive op : Type :=
| OSet (key value : JSTaggedValue)
| ODelete (key : JSTaggedValue)
| OClear
| OHas (key : JSTaggedValue)
| OGet (key : JSTaggedValue)
| OSize
| OIterator (kind : IterationKind)
| ONext (i : Z).

Inductive result : Type :=
| RUnit
| RBool (b : bool)
| RValue (v : JSTaggedValue)
| RSize (n : Z)
| RIterator (i : Z)
| RNext (item : option (list JSTaggedValue)).

(** The entries of the tables, in order, with the deleted ones in place, and the
    iterators as positions in that list; an iterator that has reached the end has
    none.  This is the step between the tables and ECMA-262: the entries are the
    words that the tables hold. *)
Record SpecIterator : Type := mkSpecIterator { position : option Z; spec_kind : IterationKind }.
Record Spec : Type := mkSpec { MapData : list (option entry); spec_iterators : list SpecIterator }.

(** The first entry from position [p] on that is not deleted, and the position
    after it. *)
Fixpoint next_live {E} (l : list (option E)) (p : Z) : option (E * Z) :=
  match l with
  | [] => None
  | Some e :: _ => Some (e, p + 1)
  | None :: l' => next_live l' (p + 1)
  end.

Section spec.
Context (ho : HashObject) (heap : Heap).

Definition item_of (kind : IterationKind) (e : entry) : list JSTaggedValue :=
  match kind with
  | KEY => [key_of e]
  | VALUE => [value_of ho e]
  | KEY_AND_VALUE => [key_of e; value_of ho e]
  end.

Definition get_entry (key : JSTaggedValue) (l : list entry) : option entry :=
  List.find (fun e => SameValueZero heap key (key_of e)) l.

Definition spec_next (it : SpecIterator) (data : list (option entry)) : option (list JSTaggedValue) * SpecIterator :=
  match position it with
  | None => (None, it)
  | Some p =>
      match next_live (drop (Z.to_nat p) data) p with
      | Some (e, q) => (Some (item_of (spec_kind it) e), mkSpecIterator (Some q) (spec_kind it))
      | None => (None, mkSpecIterator None (spec_kind it))
      end
  end.

Definition table_spec (o : op) (s : Spec) : outcome result * Spec :=
  let '(mkSpec data its) := s in
  match o with
  | OSet key value => (Ok RUnit, mkSpec (set_entries ho heap key value data) its)
  | ODelete key => (Ok (RBool (found heap key data)), mkSpec (del_entries heap key data) its)
  | OClear => (Ok RUnit, mkSpec ((fun _ => None) <$> data) its)
  | OHas key => (Ok (RBool (found heap key data)), s)
  | OGet key => (Ok (RValue (match get_entry key (live data) with Some e => value_of ho e | None => VUndefined end)), s)
  | OSize => (Ok (RSize (lenZ (live data))), s)
  | OIterator kind => (Ok (RIterator (lenZ its)), mkSpec data (its ++ [mkSpecIterator (Some 0) kind]))
  | ONext i =>
      match its !! Z.to_nat i with
      | None => (Fault, s)
      | Some it => let '(r, it') := spec_next it data in (Ok (RNext r), mkSpec data (<[Z.to_nat i := it']> its))
      end
  end.

(** The same on the tables. *)
Definition exec (hash : JSTaggedValue -> Z) (GetPowerOfTwoValue32 : Z -> Z) (item : IterationKind -> Z -> JSTaggedValue -> M TaggedArray (list JSTaggedValue)) (o : op) : M World result :=
  match o with
  | OSet key value => Set_ ho heap hash GetPowerOfTwoValue32 key value;; mret RUnit
  | ODelete key => b ← Delete ho heap hash key; mret (RBool b)
  | OClear => ClearMap ho;; mret RUnit
  | OHas key => b ← HasKey ho heap hash key; mret (RBool b)
  | OGet key => v ← GetMap ho heap hash key; mret (RValue v)
  | OSize => n ← GetSize; mret (RSize n)
  | OIterator kind => i ← CreateIterator kind; mret (RIterator i)
  | ONext i => r ← NextInternal ho item i; mret (RNext r)
  end.
End spec.

(** ** The specification: ECMA-262, 24.1 and 24.2

    [[MapData]] (or [[SetData]]) is a list of keys with their values, whose
    deleted entries stay in place; an iterator is a position in it. *)
Module Ecma.

Notation contents := (list (option (JSTaggedValue * JSTaggedValue))).

Record State : Type := mkState { Data : contents; Iterators : list SpecIterator }.

(** The answers: a key or element, a value stored with a key, or the item of an
    iterator. *)
Inductive word : Type := Key (k : JSTaggedValue) | Value (v : JSTaggedValue).
Inductive answer : Type :=
| Undefined
| Truth (b : bool)
| Word (w : word)
| Size (n : Z)
| NewIterator (i : Z)
| Item (item : option (list word)).

Section spec.
Context (heap : Heap) (is_set : bool).

(** 24.1.3.9, step 4, and 24.2.3.1, step 4: If key is -0, set key to +0. *)
Definition normalise (key : JSTaggedValue) : JSTaggedValue :=
  match key with
  | VDouble b => match double_of_bits b with DZero true => VInt 0 | _ => key end
  | _ => key
  end.

Definition is_key (key : JSTaggedValue) (p : JSTaggedValue * JSTaggedValue) : bool := SameValueZero heap key p.1.
Definition present (data : contents) : list (JSTaggedValue * JSTaggedValue) := omap id data.
Definition has (key : JSTaggedValue) (data : contents) : bool := existsb (is_key key) (present data).

(** Map.prototype.set changes the value of the entry with the key and leaves its
    key; Set.prototype.add leaves an element that is there. *)
Definition set (key value : JSTaggedValue) (data : contents) : contents :=
  if has key data then
    if is_set then data
    else option_map (fun p => if is_key key p then (p.1, value) else p) <$> data
  else data ++ [Some (normalise key, if is_set then normalise key else value)].

Definition delete (key : JSTaggedValue) (data : contents) : contents :=
  (fun oe => match oe with Some p => if is_key key p then None else Some p | None => None end) <$> data.

(** The value of an entry; that of an element of a Set is the element. *)
Definition second (p : JSTaggedValue * JSTaggedValue) : word := if is_set then Key p.2 else Value p.2.

Definition item (kind : IterationKind) (p : JSTaggedValue * JSTaggedValue) : list word :=
  match kind with
  | KEY => [Key p.1]
  | VALUE => [second p]
  | KEY_AND_VALUE => [Key p.1; second p]
  end.

Definition next (it : SpecIterator) (data : contents) : option (list word) * SpecIterator :=
  match position it with
  | None => (None, it)
  | Some p =>
      match next_live (drop (Z.to_nat p) data) p with
      | Some (e, q) => (Some (item (spec_kind it) e), mkSpecIterator (Some q) (spec_kind it))
      | None => (None, mkSpecIterator None (spec_kind it))
      end
  end.

Definition spec (o : op) (s : State) : outcome answer * State :=
  let '(mkState data its) := s in
  match o with
  | OSet key value => (Ok Undefined, mkState (set key value data) its)
  | ODelete key => (Ok (Truth (has key data)), mkState (delete key data) its)
  | OClear => (Ok Undefined, mkState ((fun _ => None) <$> data) its)
  | OHas key => (Ok (Truth (has key data)), s)
  | OGet key => (Ok (Word (match List.find (is_key key) (present data) with Some p => second p | None => Value VUndefined end)), s)
  | OSize => (Ok (Size (lenZ (present data))), s)
  | OIterator kind => (Ok (NewIterator (lenZ its)), mkState data (its ++ [mkSpecIterator (Some 0) kind]))
  | ONext i =>
      match its !! Z.to_nat i with
      | None => (Fault, s)
      | Some it => let '(r, it') := next it data in (Ok (Item r), mkState data (<[Z.to_nat i := it']> its))
      end
  end.

(** *** Which answers of the program are those of the specification

    All of an answer is the one of the specification, the words included, but for
    the keys: a Map may deliver -0 where the specification has +0, and a Set an
    element that is the same by SameValueZero (-0, or a string or BigInt with the
    same contents, or the other representation of a number). *)
Definition same_key (v k : JSTaggedValue) : Prop := if is_set then SameValueZero heap v k = true else normalise v = k.

Definition same_word (v : JSTaggedValue) (w : word) : Prop :=
  match w with Key k => same_key v k | Value x => v = x end.

Definition same_answer (r : outcome result) (a : outcome answer) : Prop :=
  match r, a with
  | Ok RUnit, Ok Undefined => True
  | Ok (RBool b), Ok (Truth b') => b = b'
  | Ok (RValue v), Ok (Word w) => same_word v w
  | Ok (RSize n), Ok (Size n') => n = n'
  | Ok (RIterator i), Ok (NewIterator i') => i = i'
  | Ok (RNext None), Ok (Item None) => True
  | Ok (RNext (Some vs)), Ok (Item (Some ws)) => Forall2 same_word vs ws
  | Fault, Fault => True
  | _, _ => False
  end.
End spec.
End Ecma.

(** ** Iterators follow the tables *)

Inductive reaches (ho : HashObject) (st : Store) : Z -> Z -> Z -> Z -> Prop :=
| reaches_here (t j : Z) (a : TaggedArray) :
    0 <= t -> st !! Z.to_nat t = Some a -> word a NEXT_TABLE_INDEX = Some VHole -> reaches ho st t j t j
| reaches_next (t j t' d t1 j1 : Z) (a : TaggedArray) :
    0 <= t < t' -> st !! Z.to_nat t = Some a -> word a NEXT_TABLE_INDEX = Some (VObject t') ->
    GetDeletedElementsAt ho j a = (Ok d, a) -> reaches ho st t' (j - d) t1 j1 -> reaches ho st t j t1 j1.

Lemma on_tables_read {A} (w : World) (m : M Store A) (r : A) : m (tables w) = (Ok r, tables w) -> on_tables m w = (Ok r, w).
Proof. intros Hm. unfold on_tables, zoom. rewrite Hm. by destruct w. Qed.

Lemma on_tables_run {A} (w : World) (m : M Store A) (r : A) (st : Store) : m (tables w) = (Ok r, st) -> on_tables m w = (Ok r, mkWorld st (GetLinkedMap w) (iterators w)).
Proof. intros Hm. unfold on_tables, zoom. by rewrite Hm. Qed.

Lemma update_loop (ho : HashObject) (w : World) (t j t1 j1 : Z) :
  reaches ho (tables w) t j t1 j1 -> forall fuel, (length (tables w) < fuel + Z.to_nat t)%nat ->
  while_fuel fuel (update_step ho) (t, j) w = (Ok (t1, j1), w).
Proof.
  induction 1 as [t j a Ht Hl Hn|t j t' d t1 j1 a Ht Hl Hn Hd _ IH]; intros fuel Hf; pose proof (lookup_lt_Some _ _ _ Hl) as Hlt.
  all: destruct fuel as [|fuel]; [lia|]; cbn [while_fuel].
  - assert (update_step ho (t, j) w = (Ok (inr (t, j)), w)) as Hs.
    { unfold update_step. mstep by (apply on_tables_read; eapply on_table_read; [done|by apply Get_word]). done. }
    by mstep with Hs.
  - assert (update_step ho (t, j) w = (Ok (inl (t', j - d)), w)) as Hs.
    { unfold update_step. mstep by (apply on_tables_read; eapply on_table_read; [done|by apply Get_word]).
      by mstep by (apply on_tables_read; by eapply on_table_read). }
    mstep with Hs. apply IH. lia.
Qed.

Section transitions.
Context (ho : HashObject) `{Hho : !HashObjectOk ho} (heap : Heap) (hash : JSTaggedValue -> Z).
Context (ok : JSTaggedValue -> Prop) `{HZ : !ZeroHash heap hash ok}.
Notation current := (current ho heap hash ok).

Lemma current_next (st : Store) (t : Z) (es : list (option entry)) :
  current st t es -> exists a, st !! Z.to_nat t = Some a /\ word a NEXT_TABLE_INDEX = Some VHole.
Proof. intros (Ht & a & cap & bs & Hl & Hok). exists a. split; [done|]. apply (header_next _ _ _ _ _ (ok_header _ _ _ _ _ _ _ _ _ Hok)). Qed.

(** Where an iterator got to in the current table, it gets to in the next one. *)
Lemma reaches_transition (st st' : Store) (t j t0 t1 j0 : Z) (es es1 : list (option entry)) (f : Z -> Z) :
  reaches ho st t j t0 j0 -> current st t0 es -> transition ho st t0 es st' t1 f -> current st' t1 es1 -> 0 <= j0 <= lenZ es ->
  reaches ho st' t j t1 (f j0).
Proof.
  intros Hr Hc [Ho Hlen Hmv] Hc1 Hj. destruct (current_next _ _ _ Hc1) as (a1 & Hl1 & Hn1). pose proof (proj1 Hc1) as Ht1.
  destruct (current_next _ _ _ Hc) as (a0 & Hl0 & Hn0).
  induction Hr as [t j a Ht Hl Hn|t j t' d t0 j0 a Ht Hl Hn Hd Hr IH].
  - destruct Hmv as [[-> Hid]|(Et & a' & Hl' & Hn' & Hd')]; [rewrite Hid; by eapply reaches_here|].
    pose proof (lookup_lt_Some _ _ _ Hl). eapply reaches_next; [|exact Hl'|exact Hn'|by apply Hd'|]; [rewrite Et; unfold lenZ; lia|].
    replace (j - (j - f j)) with (f j) by lia. by eapply reaches_here.
  - pose proof (lookup_lt_Some _ _ _ Hl). eapply reaches_next; [exact Ht| |exact Hn|exact Hd|by apply IH]. rewrite Ho; [done| |done].
    intros E. rewrite E in Hl. congruence.
Qed.

(** *** Positions in two lists of entries *)

(** The entries before and after these positions are the same. *)
Record corr (data : list (option entry)) (p : Z) (es : list (option entry)) (j : Z) : Prop := mkCorr {
  corr_p : 0 <= p <= lenZ data;
  corr_j : 0 <= j <= lenZ es;
  corr_before : live (take (Z.to_nat p) data) = live (take (Z.to_nat j) es);
  corr_after : live (drop (Z.to_nat p) data) = live (drop (Z.to_nat j) es);
}.

Lemma corr_live (data es : list (option entry)) (p j : Z) : corr data p es j -> live data = live es.
Proof. intros [_ _ Hb Ha]. rewrite <- (take_drop (Z.to_nat p) data), <- (take_drop (Z.to_nat j) es), !live_app. congruence. Qed.

Lemma corr_reindex (data es es' : list (option entry)) (p j : Z) (f : Z -> Z) : corr data p es j -> reindex es es' f -> corr data p es' (f j).
Proof. intros [Hp Hj Hb Ha] Hr. destruct (Hr j Hj) as (H1 & H2 & H3). split; congruence || done. Qed.

(** A change of the entries one by one. *)
Lemma corr_fmap (g : option entry -> option entry) (h : list entry -> list entry) (data es : list (option entry)) (p j : Z) :
  (forall l, live (g <$> l) = h (live l)) -> corr data p es j -> corr (g <$> data) p (g <$> es) j.
Proof.
  intros Hg [Hp Hj Hb Ha]. unfold lenZ in *. split; unfold lenZ; rewrite ?length_fmap; [done|done| |].
  - rewrite <- !fmap_take, !Hg. congruence.
  - rewrite <- !fmap_drop, !Hg. congruence.
Qed.

Lemma corr_snoc (data es : list (option entry)) (p j : Z) (x : option entry) : corr data p es j -> corr (data ++ [x]) p (es ++ [x]) j.
Proof.
  intros [Hp Hj Hb Ha]. split; [lenz|lenz|..].
  - rewrite !take_app_le by (unfold lenZ in *; lia). done.
  - rewrite !drop_app_le by (unfold lenZ in *; lia). rewrite !live_app. congruence.
Qed.

Lemma corr_set (key value : JSTaggedValue) (data es : list (option entry)) (p j : Z) :
  corr data p es j -> corr (set_entries ho heap key value data) p (set_entries ho heap key value es) j.
Proof.
  intros Hc. unfold set_entries. rewrite (found_live heap key data), (found_live heap key es), (corr_live _ _ _ _ Hc).
  destruct (existsb _ _); [|by apply corr_snoc]. eapply corr_fmap; [|exact Hc]. intros l. apply live_upd.
Qed.

Lemma corr_del (key : JSTaggedValue) (data es : list (option entry)) (p j : Z) :
  corr data p es j -> corr (del_entries heap key data) p (del_entries heap key es) j.
Proof. intros Hc. eapply corr_fmap; [|exact Hc]. intros l. apply live_del. Qed.

Lemma live_none (l : list (option entry)) : live ((fun _ => None) <$> l) = [].
Proof. by induction l. Qed.

Lemma corr_clear (data es : list (option entry)) (p j : Z) : corr data p es j -> corr ((fun _ => None) <$> data) p [] 0.
Proof.
  intros [Hp Hj Hb Ha]. split; [unfold lenZ in *; by rewrite length_fmap|done|..].
  - by rewrite <- fmap_take, live_none.
  - by rewrite <- fmap_drop, live_none.
Qed.
End transitions.
(** ** The tables implement the specification *)

Section refinement.
Context (ho : HashObject) `{Hho : !HashObjectOk ho} (heap : Heap) (hash : JSTaggedValue -> Z).
Context (ok : JSTaggedValue -> Prop) `{HZ : !ZeroHash heap hash ok}.
Context (GetPowerOfTwoValue32 : Z -> Z) (Hpow : least_power_of_two GetPowerOfTwoValue32).
Context (item : IterationKind -> Z -> JSTaggedValue -> M TaggedArray (list JSTaggedValue)).
Notation current := (current ho heap hash ok).

(** What the iterators of a map and of a set return for an entry. *)
Context (Hitem : forall a cap next es bs kind i e, table_ok ho heap hash ok a cap next es bs -> 0 <= i -> es !! Z.to_nat i = Some (Some e) ->
  item kind i (key_of e) a = (Ok (item_of ho kind e), a)).

Definition iterator_ok (st : Store) (t : Z) (es data : list (option entry)) (it : Iterator) (sit : SpecIterator) : Prop :=
  GetIterationKind it = spec_kind sit /\
  match IteratedMap it, position sit with
  | None, None => True
  | Some u, Some p => exists j, reaches ho st u (NextIndex it) t j /\ corr data p es j
  | _, _ => False
  end.

(** The relation between the tables and the specification after [k] operations. *)
Definition implements (k : Z) (w : World) (s : Spec) : Prop :=
  lenZ (live (MapData s)) <= k /\
  exists es, current (tables w) (GetLinkedMap w) es /\ live es = live (MapData s) /\
    Forall2 (iterator_ok (tables w) (GetLinkedMap w) es (MapData s)) (iterators w) (spec_iterators s).

Definition op_ok (o : op) : Prop :=
  match o with
  | OSet key value => ok key /\ key <> VHole /\ proper_value ho key value
  | ODelete key | OHas key | OGet key => ok key /\ key <> VHole
  | _ => True
  end.

(** A transition of the tables keeps the iterators. *)
Lemma iterators_transition (st st' : Store) (t t' : Z) (es es2 data data' : list (option entry)) (f : Z -> Z) (its : list Iterator) (sits : list SpecIterator) :
  current st t es -> transition ho st t es st' t' f -> current st' t' es2 ->
  (forall p j, corr data p es j -> corr data' p es2 (f j)) ->
  Forall2 (iterator_ok st t es data) its sits -> Forall2 (iterator_ok st' t' es2 data') its sits.
Proof.
  intros Hc Htr Hc' Hco Hit. eapply Forall2_impl; [|exact Hit]. intros it sit [Hk Hm]. split; [done|].
  destruct (IteratedMap it) as [u|], (position sit) as [p|]; try done. destruct Hm as (j & Hr & Hcorr). exists (f j). split; [|by apply Hco].
  by eapply reaches_transition; [|..|apply Hcorr].
Qed.

Lemma set_size (key value : JSTaggedValue) (data : list (option entry)) : lenZ (live (set_entries ho heap key value data)) <= lenZ (live data) + 1.
Proof.
  unfold set_entries. destruct (found heap key data).
  - rewrite live_upd. unfold lenZ. rewrite length_fmap. lia.
  - rewrite live_app, lenZ_app. change (lenZ (live [Some _])) with 1. lia.
Qed.

Lemma del_size (key : JSTaggedValue) (data : list (option entry)) : lenZ (live (del_entries heap key data)) <= lenZ (live data).
Proof. rewrite live_del. induction (live data) as [|e l IH]; [done|]. cbn [List.filter]. destruct (negb _); rewrite !lenZ_cons; lia. Qed.

Lemma set_live (key value : JSTaggedValue) (es data : list (option entry)) :
  live es = live data -> live (set_entries ho heap key value es) = live (set_entries ho heap key value data).
Proof.
  intros E. unfold set_entries. rewrite !(found_live heap key), E. destruct (existsb _ _); [by rewrite !live_upd, E|by rewrite !live_app, E].
Qed.

Lemma Set_step (k : Z) (w : World) (s : Spec) (key value : JSTaggedValue) :
  implements k w s -> k < max_entries -> ok key -> key <> VHole -> proper_value ho key value ->
  exists w', Set_ ho heap hash GetPowerOfTwoValue32 key value w = (Ok tt, w') /\ implements (k + 1) w' (mkSpec (set_entries ho heap key value (MapData s)) (spec_iterators s)).
Proof.
  intros (Hsz & es & Hcur & Hlive & Hits) Hk Hok Hne Hp. unfold Set_, IsKey. assert (IsHole key = false) as -> by (by destruct key). cbn [negb]. mstep.
  destruct (Insert_run ho heap hash ok GetPowerOfTwoValue32 Hpow (tables w) (GetLinkedMap w) key value es Hcur ltac:(rewrite Hlive; lia) Hok Hne Hp) as (st' & t' & es' & f & Hrun & Htr & Hre & Hcur').
  mstep by (by apply on_tables_run). eexists. split; [reflexivity|]. pose proof (set_size key value (MapData s)). split; [simpl; lia|].
  assert (live es' = live es) as Hl'.
  { destruct (Hre 0) as (_ & H1 & H2); [pose proof (lenZ_nonneg es); lia|]. rewrite <- (take_drop (Z.to_nat (f 0)) es'), live_app, H1, H2, <- live_app. by rewrite take_drop. }
  exists (set_entries ho heap key value es'). split_and!; [done|apply set_live; by rewrite Hl'|]. simpl.
  eapply iterators_transition; [exact Hcur|exact Htr|exact Hcur'| |exact Hits]. intros p j Hc. apply corr_set. by eapply corr_reindex.
Qed.

Lemma Delete_step (k : Z) (w : World) (s : Spec) (key : JSTaggedValue) :
  implements k w s -> ok key -> key <> VHole ->
  exists w', Delete ho heap hash key w = (Ok (found heap key (MapData s)), w') /\ implements (k + 1) w' (mkSpec (del_entries heap key (MapData s)) (spec_iterators s)).
Proof.
  intros (Hsz & es & Hcur & Hlive & Hits) Hok Hne. destruct (remove_found ho heap hash ok (tables w) (GetLinkedMap w) key es Hcur Hok Hne) as (e & Hfind & He & Hrem).
  unfold Delete. mstep. mstep by (by apply on_tables_read). rewrite He. pose proof (del_size key (MapData s)) as Hds.
  assert (found heap key (MapData s) = found heap key es) as -> by (by rewrite !found_live, Hlive). destruct (found heap key es) eqn:Hf; cbn [negb].
  - destruct (Hrem eq_refl) as (a & Hrun & Hcur'). mstep by (by apply on_tables_run). eexists. split; [reflexivity|]. split; [simpl; lia|].
    exists (del_entries heap key es). split_and!; [done|simpl; rewrite !live_del; by rewrite Hlive|]. simpl.
    eapply iterators_transition; [exact Hcur|apply transition_stay; apply Hcur|exact Hcur'| |exact Hits]. intros p j Hc. by apply corr_del.
  - exists w. split; [done|]. split; [simpl; lia|]. exists es. assert (found heap key (MapData s) = false) as Hfs by (by rewrite found_live, <- Hlive, <- found_live).
    rewrite (unfound_del ho heap key (MapData s) Hfs). done.
Qed.

Lemma Clear_step (k : Z) (w : World) (s : Spec) :
  implements k w s -> exists w', ClearMap ho w = (Ok tt, w') /\ implements (k + 1) w' (mkSpec ((fun _ => None) <$> MapData s) (spec_iterators s)).
Proof.
  intros (Hsz & es & Hcur & Hlive & Hits). destruct (Linked_Clear_run ho heap hash ok (tables w) (GetLinkedMap w) es Hcur) as (st' & Hrun & Htr & Hcur').
  unfold ClearMap. mstep. mstep by (by apply on_tables_run). eexists. split; [reflexivity|]. pose proof (lenZ_nonneg (live (MapData s))).
  split; [simpl; rewrite live_none; change (lenZ []) with 0; lia|]. exists []. split_and!; [done|simpl; by rewrite live_none|]. simpl.
  eapply iterators_transition; [exact Hcur|exact Htr|exact Hcur'| |exact Hits]. intros p j Hc. by eapply corr_clear.
Qed.

(** *** Reading *)

Lemma implements_step (k : Z) (w : World) (s : Spec) : implements k w s -> implements (k + 1) w s.
Proof. intros [Hsz He]. split; [lia|done]. Qed.

Lemma get_entry_found (key : JSTaggedValue) (l1 l2 : list (option entry)) (e : entry) :
  SameValueZero heap key (key_of e) = true -> distinct heap (live (l1 ++ Some e :: l2)) -> get_entry heap key (live (l1 ++ Some e :: l2)) = Some e.
Proof.
  intros Hm Hd. rewrite live_app, live_cons in *. unfold distinct in Hd. rewrite !fmap_app, !fmap_cons in Hd. apply list.NoDup_app in Hd as (_ & Hd & _).
  assert (found heap key l1 = false) as Hf by (apply (unmatched_part heap key e); [done|]; intros Hin; apply (Hd _ Hin), list_elem_of_here).
  rewrite found_live in Hf. unfold get_entry. induction (live l1) as [|x l IH]; simpl in *; [by rewrite Hm|].
  apply orb_false_iff in Hf as [-> Hf]. apply IH; [|done]. intros y Hy. apply Hd. by apply list_elem_of_further.
Qed.

Lemma Get_step (k : Z) (w : World) (s : Spec) (key : JSTaggedValue) :
  implements k w s -> ok key -> key <> VHole ->
  GetMap ho heap hash key w = (Ok (match get_entry heap key (live (MapData s)) with Some e => value_of ho e | None => VUndefined end), w) /\
  HasKey ho heap hash key w = (Ok (found heap key (MapData s)), w).
Proof.
  intros (Hsz & es & Hcur & Hlive & Hits) Hok Hne. pose proof Hcur as (Ht & a & cap & bs & Hl & Hto). rewrite <- Hlive. rewrite found_live, <- Hlive, <- found_live.
  pose proof (FindElement_ok ho heap hash ok a cap VHole key es bs Hto Hok Hne) as Hfind. pose proof (ok_keys _ _ _ _ _ _ _ _ _ Hto) as [_ Hd].
  pose proof (found_split ho heap key es Hd) as Hfs. unfold find_entry in Hfind.
  assert (Get ho heap hash key a = (Ok (match get_entry heap key (live es) with Some e => value_of ho e | None => VUndefined end), a) /\ Has ho heap hash key a = (Ok (found heap key es), a)) as [Hg Hh].
  { unfold Get, Has. rewrite !(bind_Ok _ _ _ _ _ Hfind). destruct (find_last_index (matches heap key) es) as [i|]; cbn [default from_option id].
    - destruct Hfs as (l1 & e & l2 & -> & <- & Hm & Hf & _). pose proof (lenZ_nonneg l1). rewrite Hf, get_entry_found by done. zb. split; [|done].
      pose proof Hto as [Ha Hc Hb _ _]. eapply (GetValue_run ho); [done|done|apply Hb|apply Hb|apply Hb|done|]. apply list_lookup_middle. unfold lenZ. lia.
    - rewrite Hfs. split; [|done]. change (-1 =? -1) with true. cbv iota. destruct (get_entry heap key (live es)) as [e|] eqn:E; [|done].
      apply List.find_some in E as [Hin Hm]. rewrite found_live in Hfs. apply not_true_iff_false in Hfs. exfalso. apply Hfs, existsb_exists. eauto. }
  unfold GetMap, HasKey. split; mstep; apply on_tables_read; by eapply on_table_read.
Qed.

Lemma Size_step (k : Z) (w : World) (s : Spec) : implements k w s -> GetSize w = (Ok (lenZ (live (MapData s))), w).
Proof.
  intros (Hsz & es & (Ht & a & cap & bs & Hl & Hto) & Hlive & Hits). rewrite <- Hlive. unfold GetSize. mstep. apply on_tables_read.
  eapply on_table_read; [done|]. eapply NumberOfElements_run, Hto.
Qed.
(** *** A step of an iterator *)

Lemma live_holes (m : nat) : live (replicate m None) = [].
Proof. by induction m. Qed.

Lemma next_live_split (l : list (option entry)) (p : Z) :
  match next_live l p with
  | Some (e, q) => exists m rest, l = replicate m None ++ Some e :: rest /\ q = p + Z.of_nat m + 1
  | None => live l = []
  end.
Proof.
  revert p. induction l as [|[e|] l IH]; intros p; cbn [next_live]; [done|exists 0%nat, l; split; [done|lia]|].
  specialize (IH (p + 1)). destruct (next_live l (p + 1)) as [[e q]|]; [|done]. destruct IH as (m & rest & -> & ->). exists (Datatypes.S m), rest. split; [done|lia].
Qed.

(** The entries up to and after the next live one. *)
Lemma next_live_cut (l : list (option entry)) (p : Z) (e : entry) (q : Z) :
  0 <= p <= lenZ l -> next_live (drop (Z.to_nat p) l) p = Some (e, q) ->
  0 <= q <= lenZ l /\ live (take (Z.to_nat q) l) = live (take (Z.to_nat p) l) ++ [e] /\ live (drop (Z.to_nat p) l) = e :: live (drop (Z.to_nat q) l).
Proof.
  intros Hp Hn. pose proof (next_live_split (drop (Z.to_nat p) l) p) as Hs. rewrite Hn in Hs. destruct Hs as (m & rest & Hd & ->).
  set (pre := take (Z.to_nat p) l ++ replicate m None ++ [Some e]).
  assert (l = pre ++ rest) as El by (unfold pre; rewrite <- (take_drop (Z.to_nat p) l) at 1; rewrite Hd, <- !app_assoc; done).
  assert (length (take (Z.to_nat p) l) = Z.to_nat p) as Ht by (unfold lenZ in Hp; rewrite length_take_le; lia).
  assert (Z.to_nat (p + Z.of_nat m + 1) = length pre) as Eq by (unfold pre; rewrite !length_app, length_replicate, Ht; simpl; lia).
  rewrite Eq. split_and!; [lia|rewrite El; unfold lenZ; rewrite length_app; lia|..].
  - rewrite El at 1. rewrite take_app_length. unfold pre. by rewrite !live_app, live_holes.
  - rewrite Hd, live_app, live_holes. rewrite El, drop_app_length. done.
Qed.

Lemma corr_next (data es : list (option entry)) (p j : Z) :
  corr data p es j ->
  match next_live (drop (Z.to_nat p) data) p, next_live (drop (Z.to_nat j) es) j with
  | Some (e, q), Some (e', q') => e = e' /\ corr data q es q'
  | None, None => True
  | _, _ => False
  end.
Proof.
  intros [Hp Hj Hb Ha]. destruct (next_live (drop (Z.to_nat p) data) p) as [[e q]|] eqn:E1, (next_live (drop (Z.to_nat j) es) j) as [[e' q']|] eqn:E2; [..|done].
  - apply next_live_cut in E1 as (Hq & Hb1 & Ha1); [|done]. apply next_live_cut in E2 as (Hq' & Hb2 & Ha2); [|done]. rewrite Ha1, Ha2 in Ha. injection Ha as <- Ha. split; [done|].
    split; [done|done|by rewrite Hb1, Hb2, Hb|done].
  - apply next_live_cut in E1 as (_ & _ & Ha1); [|done]. pose proof (next_live_split (drop (Z.to_nat j) es) j) as Hs. rewrite E2 in Hs. congruence.
  - apply next_live_cut in E2 as (_ & _ & Ha2); [|done]. pose proof (next_live_split (drop (Z.to_nat p) data) p) as Hs. rewrite E1 in Hs. congruence.
Qed.

Definition with_iterator (w : World) (i : Z) (it : Iterator) : World := mkWorld (tables w) (GetLinkedMap w) (<[Z.to_nat i := it]> (iterators w)).

Lemma next_loop (w : World) (t i : Z) (kind : IterationKind) (a : TaggedArray) (cap : Z) (es l1 l2 : list (option entry)) (bs : list Z) :
  tables w !! Z.to_nat t = Some a -> table_ok ho heap hash ok a cap VHole es bs -> es = l1 ++ l2 ->
  find_up (length l2) (lenZ l1) (fun index =>
    key ← on_tables (on_table t (GetKey ho index));
    if IsHole key then mret None
    else
      set_iterator i (mkIterator (Some t) (index + 1) kind);;
      words ← on_tables (on_table t (item kind index key));
      mret (Some words)) w
  = match next_live l2 (lenZ l1) with
    | Some (e, q) => (Ok (Some (item_of ho kind e)), with_iterator w i (mkIterator (Some t) q kind))
    | None => (Ok None, w)
    end.
Proof.
  intros Hl Hto. revert l1. induction l2 as [|oe l2 IH]; intros l1 Ees; [done|]. cbn [find_up length next_live].
  assert (es !! Z.to_nat (lenZ l1) = Some oe) as Hat by (rewrite Ees; apply list_lookup_middle; unfold lenZ; lia). pose proof (lenZ_nonneg l1) as Hn.
  assert (GetKey ho (lenZ l1) a = (Ok (key_word oe), a)) as Hk.
  { pose proof Hto as [Ha Hc Hb _ _]. eapply (GetKey_run ho); [done|done|apply Hb|apply Hb|apply Hb|done|done]. }
  destruct oe as [e|].
  - assert (IsHole (key_of e) = false) as Hhole.
    { pose proof (body_ok _ _ _ _ _ (ok_body _ _ _ _ _ _ _ _ _ Hto)) as Hbo. destruct (proj1 (Forall_lookup _ _) Hbo _ _ Hat) as [_ Hh]. unfold key_of. by destruct (hd VHole e). }
    erewrite bind_Ok; [|mstep by (apply on_tables_read; eapply on_table_read; [done|exact Hk]); cbn [key_word]; rewrite Hhole; mstep;
      mstep by (apply on_tables_read; eapply on_table_read; [exact Hl|by eapply Hitem]); reflexivity].
    done.
  - erewrite bind_Ok; [|mstep by (apply on_tables_read; eapply on_table_read; [done|exact Hk]); reflexivity].
    cbv beta iota. replace (lenZ l1 + 1) with (lenZ (l1 ++ [None])) by lenz. apply IH. by rewrite <- app_assoc.
Qed.

Lemma set_iterator_ok (w : World) (s : Spec) (i : Z) (es : list (option entry)) (it : Iterator) (sit : SpecIterator) :
  Forall2 (iterator_ok (tables w) (GetLinkedMap w) es (MapData s)) (iterators w) (spec_iterators s) ->
  iterator_ok (tables w) (GetLinkedMap w) es (MapData s) it sit ->
  Forall2 (iterator_ok (tables w) (GetLinkedMap w) es (MapData s)) (<[Z.to_nat i := it]> (iterators w)) (<[Z.to_nat i := sit]> (spec_iterators s)).
Proof. intros Hits Hit. by apply Forall2_insert. Qed.

Lemma Next_step (k : Z) (w : World) (s : Spec) (i : Z) :
  implements k w s ->
  exists w', exec ho heap hash GetPowerOfTwoValue32 item (ONext i) w = ((table_spec ho heap (ONext i) s).1, w') /\ implements (k + 1) w' (table_spec ho heap (ONext i) s).2.
Proof.
  intros HI. pose proof HI as (Hsz & es & Hcur & Hlive & Hits). destruct s as [data sits]. cbn [table_spec exec MapData spec_iterators] in *.
  destruct (sits !! Z.to_nat i) as [sit|] eqn:Esit.
  2:{ exists w. split; [|by apply implements_step]. assert (iterators w !! Z.to_nat i = None) as Eit.
      { apply lookup_ge_None. apply lookup_ge_None in Esit. by rewrite (Forall2_length Hits). }
      unfold NextInternal, Update, get_iterator. apply bind_Fault. apply bind_Fault. apply bind_Fault. by rewrite Eit. }
  destruct (Forall2_lookup_r _ _ _ _ _ Hits Esit) as (it & Eit & Hk & Hm). unfold spec_next.
  assert (get_iterator i w = (Ok it, w)) as Hget by (unfold get_iterator; by rewrite Eit).
  destruct (IteratedMap it) as [u|] eqn:Em, (position sit) as [p|] eqn:Ep; try done.
  2:{ exists w. rewrite list_insert_id by done. split; [|by apply implements_step].
      unfold NextInternal. erewrite bind_Ok; [|erewrite bind_Ok; [|unfold Update; mstep with Hget; rewrite Em; reflexivity]; mstep with Hget; rewrite Em; reflexivity]. done. }
  destruct Hm as (j & Hr & Hco). set (t := GetLinkedMap w) in *. set (kd := GetIterationKind it) in *.
  assert (Update ho i w = (Ok tt, with_iterator w i (mkIterator (Some t) j kd))) as Hup.
  { unfold Update. mstep with Hget. rewrite Em. mstep. mstep by (apply (update_loop ho w u (NextIndex it) t j Hr); lia). done. }
  set (w1 := with_iterator w i (mkIterator (Some t) j kd)) in *. pose proof (lookup_lt_Some _ _ _ Eit) as Hil.
  assert (get_iterator i w1 = (Ok (mkIterator (Some t) j kd), w1)) as Hget1 by (unfold get_iterator, w1, with_iterator; simpl; by rewrite list_lookup_insert_eq).
  pose proof Hcur as (Ht & a & cap & bs & Hl & Hto). pose proof (ok_header _ _ _ _ _ _ _ _ _ Hto) as Hh. pose proof Hco as [Hp Hj Hcb Hca].
  assert (lenZ (take (Z.to_nat j) es) = j) as Elj by (unfold lenZ in *; rewrite length_take_le; lia).
  pose proof (next_loop w1 t i kd a cap es (take (Z.to_nat j) es) (drop (Z.to_nat j) es) bs Hl Hto (eq_sym (take_drop _ _))) as Hloop. rewrite Elj in Hloop.
  assert (Z.to_nat (lenZ (live es) + (lenZ es - lenZ (live es)) - j) = length (drop (Z.to_nat j) es)) as Elen by (rewrite length_drop; unfold lenZ in *; lia).
  assert (forall r w', find_up (length (drop (Z.to_nat j) es)) j (fun index =>
      key ← on_tables (on_table t (GetKey ho index));
      if IsHole key then mret None
      else
        set_iterator i (mkIterator (Some t) (index + 1) kd);;
        words ← on_tables (on_table t (item kd index key));
        mret (Some words)) w1 = (Ok r, w') ->
    NextInternal ho item i w = (match r with Some words => mret (Some words) | None => set_iterator i (mkIterator None j kd);; mret None end) w') as Hni.
  { intros r w' Hrw. unfold NextInternal. mstep with Hup. mstep with Hget1. cbn [IteratedMap NextIndex GetIterationKind].
    mstep by (apply on_tables_read; eapply on_table_read; [exact Hl|by eapply NumberOfElements_run]).
    mstep by (apply on_tables_read; eapply on_table_read; [exact Hl|by eapply NumberOfDeletedElements_run]). rewrite Elen. by rewrite (bind_Ok _ _ _ _ _ Hrw). }
  pose proof (corr_next data es p j Hco) as Hcn. rewrite <- Hk. fold kd.
  destruct (next_live (drop (Z.to_nat p) data) p) as [[e q]|], (next_live (drop (Z.to_nat j) es) j) as [[e' q']|]; try done.
  - destruct Hcn as [<- Hcn]. exists (with_iterator w i (mkIterator (Some t) q' kd)). split.
    + rewrite (bind_Ok _ _ w (with_iterator w i (mkIterator (Some t) q' kd)) (Some (item_of ho kd e))); [done|]. rewrite (Hni _ _ Hloop). unfold w1, with_iterator. simpl. by rewrite list_insert_insert_eq.
    + split; [simpl; lia|]. exists es. split_and!; [done|done|]. apply (set_iterator_ok w (mkSpec data sits) i es); [done|]. split; [done|]. exists q'. split; [|done]. simpl.
      destruct (current_next _ _ _ _ _ _ _ Hcur) as (a' & Hl' & Hn'). by eapply reaches_here.
  - exists (with_iterator w i (mkIterator None j kd)). split.
    + rewrite (bind_Ok _ _ w (with_iterator w i (mkIterator None j kd)) None); [done|]. rewrite (Hni _ _ Hloop). mstep. unfold w1, with_iterator. simpl. by rewrite list_insert_insert_eq.
    + split; [simpl; lia|]. exists es. split_and!; [done|done|]. by apply (set_iterator_ok w (mkSpec data sits) i es).
Qed.

(** *** Every operation *)

Lemma Iterator_step (k : Z) (w : World) (s : Spec) (kind : IterationKind) :
  implements k w s ->
  exists w', CreateIterator kind w = (Ok (lenZ (spec_iterators s)), w') /\ implements (k + 1) w' (mkSpec (MapData s) (spec_iterators s ++ [mkSpecIterator (Some 0) kind])).
Proof.
  intros (Hsz & es & Hcur & Hlive & Hits). eexists. split; [unfold CreateIterator, lenZ; by rewrite (Forall2_length Hits)|]. split; [simpl; lia|].
  exists es. split_and!; [done|done|]. simpl. apply Forall2_app; [done|]. constructor; [|done]. split; [done|]. simpl. exists 0.
  destruct (current_next _ _ _ _ _ _ _ Hcur) as (a & Hl & Hn). pose proof (proj1 Hcur). pose proof (lenZ_nonneg (MapData s)). pose proof (lenZ_nonneg es). split; [by eapply reaches_here|]. split; [lia|lia|done|done].
Qed.

Lemma collection_step (o : op) (k : Z) (w : World) (s : Spec) :
  implements k w s -> op_ok o -> 0 <= k < max_entries ->
  exists w', exec ho heap hash GetPowerOfTwoValue32 item o w = ((table_spec ho heap o s).1, w') /\ implements (k + 1) w' (table_spec ho heap o s).2.
Proof.
  intros HI Hop Hk. destruct o as [key value|key| |key|key| |kind|i]; [..|by apply Next_step]; destruct s as [data sits]; cbn [exec table_spec fst snd op_ok] in *.
  - destruct Hop as (H1 & H2 & H3). destruct (Set_step k w _ key value HI ltac:(lia) H1 H2 H3) as (w' & Hrun & HI'). exists w'. split; [by mstep with Hrun|done].
  - destruct Hop as (H1 & H2). destruct (Delete_step k w _ key HI H1 H2) as (w' & Hrun & HI'). exists w'. split; [by mstep with Hrun|done].
  - destruct (Clear_step k w _ HI) as (w' & Hrun & HI'). exists w'. split; [by mstep with Hrun|done].
  - destruct Hop as (H1 & H2). destruct (Get_step k w _ key HI H1 H2) as [_ Hrun]. exists w. split; [by mstep with Hrun|by apply implements_step].
  - destruct Hop as (H1 & H2). destruct (Get_step k w _ key HI H1 H2) as [Hrun _]. exists w. split; [by mstep with Hrun|by apply implements_step].
  - exists w. split; [by mstep by (by eapply Size_step)|by apply implements_step].
  - destruct (Iterator_step k w _ kind HI) as (w' & Hrun & HI'). exists w'. split; [by mstep with Hrun|done].
Qed.

Lemma new_collection_ok : implements 0 (new_collection ho) (mkSpec [] []).
Proof.
  split; [done|]. exists []. split_and!; [|done|by constructor]. unfold new_collection. destruct (Create_current ho heap hash ok []) as (b & Hcr & Hcur). rewrite Hcr. exact Hcur.
Qed.

Lemma collection_refines (os : list op) :
  Forall op_ok os -> lenZ os <= max_entries ->
  (run_ops (exec ho heap hash GetPowerOfTwoValue32 item) os (new_collection ho)).1 = (run_ops (table_spec ho heap) os (mkSpec [] [])).1.
Proof.
  intros Hos Hb. apply (run_ops_refines (exec ho heap hash GetPowerOfTwoValue32 item) (table_spec ho heap) implements op_ok max_entries) with 0; [|apply new_collection_ok|done|lia|lia].
  intros o k w s HI Ho Hk. by apply collection_step.
Qed.
End refinement.
(** ** The entries of the tables are those of ECMA-262 *)

Section ecma.
Context (ho : HashObject) `{Hho : !HashObjectOk ho} (heap : Heap).
Notation is_set := (ENTRY_VALUE_INDEX ho =? 0).

Lemma normalise_zident (v : JSTaggedValue) : zident heap (Ecma.normalise v) = zident heap v.
Proof.
  destruct v as [|b| | | | | |]; try done. unfold Ecma.normalise. destruct (double_of_bits b) as [| |[]|] eqn:E; try done.
  unfold zident. rewrite !ident_number by done. cbn [ExtractNumber]. by rewrite E.
Qed.

Lemma same_key_zident (v k : JSTaggedValue) : Ecma.same_key heap is_set v k -> zident heap v = zident heap k.
Proof. unfold Ecma.same_key. destruct is_set; [apply SameValueZero_zident|]. intros <-. by rewrite normalise_zident. Qed.

Lemma same_key_normalise (v : JSTaggedValue) : Ecma.same_key heap is_set v (Ecma.normalise v).
Proof. unfold Ecma.same_key. destruct is_set; [|done]. apply SameValueZero_zident. by rewrite normalise_zident. Qed.

(** The words of an entry of the tables and the key and value of ECMA-262. *)
Record entry_like (e : entry) (p : JSTaggedValue * JSTaggedValue) : Prop := mkEntryLike {
  like_size : lenZ e = ENTRY_SIZE ho;
  like_key : Ecma.same_key heap is_set (key_of e) p.1;
  like_value : Ecma.same_word heap is_set (value_of ho e) (Ecma.second is_set p);
}.

Notation contents_like := (Forall2 (option_Forall2 entry_like)).

Lemma like_is_key (key : JSTaggedValue) (e : entry) (p : JSTaggedValue * JSTaggedValue) :
  entry_like e p -> SameValueZero heap key (key_of e) = Ecma.is_key heap key p.
Proof. intros [_ Hk%same_key_zident _]. unfold Ecma.is_key. apply eq_true_iff_eq. rewrite !SameValueZero_zident. by rewrite Hk. Qed.

Lemma like_present (es : list (option entry)) (data : Ecma.contents) : contents_like es data -> Forall2 entry_like (live es) (Ecma.present data).
Proof. induction 1 as [|oe op es data [e p He|] _ IH]; [done| |done]. by constructor. Qed.

Lemma like_has (key : JSTaggedValue) (es : list (option entry)) (data : Ecma.contents) : contents_like es data -> found heap key es = Ecma.has heap key data.
Proof.
  intros Hl%like_present. rewrite found_live. unfold Ecma.has. induction Hl as [|e p l l' He _ IH]; [done|]. cbn [existsb]. by rewrite (like_is_key _ _ _ He), IH.
Qed.

Lemma like_find (key : JSTaggedValue) (es : list (option entry)) (data : Ecma.contents) :
  contents_like es data -> option_Forall2 entry_like (get_entry heap key (live es)) (List.find (Ecma.is_key heap key) (Ecma.present data)).
Proof.
  intros Hl%like_present. unfold get_entry. induction Hl as [|e p l l' He _ IH]; [constructor|]. cbn [List.find]. rewrite (like_is_key _ _ _ He).
  destruct (Ecma.is_key heap key p); [by constructor|done].
Qed.

Lemma like_next (es : list (option entry)) (data : Ecma.contents) (i : Z) :
  contents_like es data -> option_Forall2 (fun x y => entry_like x.1 y.1 /\ x.2 = y.2) (next_live es i) (next_live data i).
Proof. intros Hl. revert i. induction Hl as [|oe op es data [e p He|] _ IH]; intros i; [constructor|by constructor|apply IH]. Qed.

Lemma like_item (kind : IterationKind) (e : entry) (p : JSTaggedValue * JSTaggedValue) :
  entry_like e p -> Forall2 (Ecma.same_word heap is_set) (item_of ho kind e) (Ecma.item is_set kind p).
Proof. intros [_ Hk Hv]. destruct kind; simpl; auto using Forall2. Qed.

(** *** The operations *)

Lemma like_new (key value : JSTaggedValue) :
  proper_value ho key value -> entry_like (new_entry ho key value) (Ecma.normalise key, if is_set then Ecma.normalise key else value).
Proof.
  intros Hp. pose proof (same_key_normalise key) as Hn. split; [|by rewrite key_of_new_entry|].
  - unfold new_entry, set_value, lenZ. rewrite !length_insert, length_replicate. destruct (entry_size (ho := ho)); lia.
  - pose proof (value_index (ho := ho)) as EV. revert Hn Hp. unfold value_of, Ecma.second, new_entry, set_value, proper_value. rewrite EV.
    destruct (entry_size (ho := ho)) as [E|E]; rewrite E; simpl; [|done]. intros Hn Hp. by rewrite Hp.
Qed.

(** A Map changes the value, a Set the word of the element. *)
Lemma like_update (key value : JSTaggedValue) (e : entry) (p : JSTaggedValue * JSTaggedValue) :
  proper_value ho key value -> entry_like e p -> SameValueZero heap key (key_of e) = true ->
  entry_like (set_value ho value e) (if is_set then p else (p.1, value)).
Proof.
  intros Hp [Hs Hk Hv] Hm%SameValueZero_zident. pose proof (value_index (ho := ho)) as EV. revert Hp Hk Hv. unfold proper_value, value_of, Ecma.second, set_value.
  rewrite EV. destruct (entry_size (ho := ho)) as [E|E]; rewrite E in *; destruct e as [|w [|v [|]]]; try (exfalso; unfold lenZ in Hs; simpl in Hs; lia); unfold key_of in *; simpl in *; intros Hp Hk Hv.
  - specialize (Hp eq_refl). subst value. apply SameValueZero_zident in Hk, Hv.
    split; unfold Ecma.same_key, key_of, value_of; rewrite ?E, ?EV; simpl; rewrite ?E; simpl; [done|apply SameValueZero_zident; congruence..].
  - split; unfold Ecma.same_key, key_of, value_of, Ecma.second in *; rewrite ?E, ?EV in *; simpl; rewrite ?E in *; done.
Qed.

Lemma like_set (key value : JSTaggedValue) (es : list (option entry)) (data : Ecma.contents) :
  proper_value ho key value -> contents_like es data -> contents_like (set_entries ho heap key value es) (Ecma.set heap is_set key value data).
Proof.
  intros Hp Hl. unfold set_entries, Ecma.set. rewrite (like_has key _ _ Hl). destruct (Ecma.has heap key data).
  - assert (contents_like (upd_entries ho heap key value es) ((fun oe => option_map (fun p => if Ecma.is_key heap key p then (if is_set then p else (p.1, value)) else p) oe) <$> data)) as Hu.
    { unfold upd_entries. apply Forall2_fmap. eapply Forall2_impl; [|exact Hl]. intros oe op [e p He|]; [|by constructor]. cbn [matches option_map].
      rewrite <- (like_is_key key e p He). destruct (SameValueZero heap key (key_of e)) eqn:Hm; constructor; [|done]. by eapply like_update. }
    destruct is_set; [|done]. eapply eq_ind; [exact Hu|]. clear. induction data as [|[p|] data IH]; [done| |by rewrite fmap_cons, IH].
    rewrite fmap_cons, IH. simpl. by destruct (Ecma.is_key heap key p).
  - apply Forall2_app; [done|]. constructor; [|constructor]. constructor. by apply like_new.
Qed.

Lemma like_delete (key : JSTaggedValue) (es : list (option entry)) (data : Ecma.contents) :
  contents_like es data -> contents_like (del_entries heap key es) (Ecma.delete heap key data).
Proof.
  intros Hl. unfold del_entries, Ecma.delete. apply Forall2_fmap. eapply Forall2_impl; [|exact Hl]. intros oe op [e p He|]; [|by constructor]. cbn [matches].
  rewrite <- (like_is_key key e p He). destruct (SameValueZero heap key (key_of e)); by constructor.
Qed.

Lemma like_clear (es : list (option entry)) (data : Ecma.contents) : contents_like es data -> contents_like ((fun _ => None) <$> es) ((fun _ => None) <$> data).
Proof. intros Hl. apply Forall2_fmap. eapply Forall2_impl; [|exact Hl]. constructor. Qed.

Definition state_like (s : Spec) (t : Ecma.State) : Prop := contents_like (MapData s) (Ecma.Data t) /\ spec_iterators s = Ecma.Iterators t.

Lemma next_step (i : Z) (s : Spec) (t : Ecma.State) :
  state_like s t -> Ecma.same_answer heap is_set (table_spec ho heap (ONext i) s).1 (Ecma.spec heap is_set (ONext i) t).1 /\
    state_like (table_spec ho heap (ONext i) s).2 (Ecma.spec heap is_set (ONext i) t).2.
Proof.
  destruct s as [es its], t as [data its']. intros [Hl Hi]. simpl in Hl, Hi. subst its'. cbn [table_spec Ecma.spec].
  destruct (its !! Z.to_nat i) as [it|]; [|done]. unfold spec_next, Ecma.next. destruct (position it) as [p|]; [|done].
  pose proof (like_next (drop (Z.to_nat p) es) (drop (Z.to_nat p) data) p (Forall2_drop _ _ _ _ Hl)) as Hn. inversion Hn as [[e q] [e' q'] [He Hq] E1 E2|E1 E2]; [|done].
  simpl in Hq, He. subst q'. split; [|done]. by apply like_item.
Qed.

Lemma ecma_step (o : op) (s : Spec) (t : Ecma.State) :
  (forall key value, o = OSet key value -> proper_value ho key value) -> state_like s t ->
  Ecma.same_answer heap is_set (table_spec ho heap o s).1 (Ecma.spec heap is_set o t).1 /\ state_like (table_spec ho heap o s).2 (Ecma.spec heap is_set o t).2.
Proof.
  intros Ho Hs. destruct o as [key value|key| |key|key| |kind|i]; [..|by apply next_step];
    destruct s as [es its], t as [data its'], Hs as [Hl Hi]; simpl in Hl, Hi; subst its'; cbn [table_spec Ecma.spec fst snd].
  - split; [done|]. split; [|done]. apply like_set; [|done]. by apply Ho.
  - split; [by apply like_has|]. split; [|done]. by apply like_delete.
  - split; [done|]. split; [|done]. by apply like_clear.
  - split; [by apply like_has|done].
  - split; [|done]. destruct (like_find key es data Hl) as [e p [_ _ He]|]; done.
  - split; [|done]. apply (f_equal Z.of_nat), (Forall2_length (like_present _ _ Hl)).
  - done.
Qed.

Lemma table_spec_ecma (os : list op) (s : Spec) (t : Ecma.State) :
  Forall (fun o => forall key value, o = OSet key value -> proper_value ho key value) os -> state_like s t ->
  Forall2 (Ecma.same_answer heap is_set) (run_ops (table_spec ho heap) os s).1 (run_ops (Ecma.spec heap is_set) os t).1.
Proof.
  intros Hos. revert s t. induction Hos as [|o os Ho _ IH]; intros s t Hs; [constructor|]. destruct (ecma_step o s t Ho Hs) as [Ha Hs']. simpl.
  destruct (table_spec ho heap o s) as [r s'], (Ecma.spec heap is_set o t) as [a t']. specialize (IH s' t' Hs').
  destruct (run_ops (table_spec ho heap) os s'), (run_ops (Ecma.spec heap is_set) os t'). by constructor.
Qed.
End ecma.

Section items.
Context (heap : Heap) (hash : JSTaggedValue -> Z) (ok : JSTaggedValue -> Prop).

Lemma map_item_run (ho : HashObject) `{Hho : !HashObjectOk ho} (a : TaggedArray) (cap : Z) (next : JSTaggedValue) (es : list (option entry)) (bs : list Z) (kind : IterationKind) (i : Z) (e : entry) :
  table_ok ho heap hash ok a cap next es bs -> 0 <= i -> es !! Z.to_nat i = Some (Some e) -> map_item ho kind i (key_of e) a = (Ok (item_of ho kind e), a).
Proof.
  intros [Ha Hc Hb _ _] Hi Hl. assert (GetValue ho i a = (Ok (value_of ho e), a)) as Hv by (eapply (GetValue_run ho); [done|done|apply Hb|apply Hb|apply Hb|done|done]).
  destruct kind; [done|by unfold map_item; mstep with Hv|by unfold map_item; mstep with Hv].
Qed.

Lemma set_item_run (a : TaggedArray) (cap : Z) (next : JSTaggedValue) (es : list (option entry)) (bs : list Z) (kind : IterationKind) (i : Z) (e : entry) :
  table_ok LinkedHashSetObject heap hash ok a cap next es bs -> 0 <= i -> es !! Z.to_nat i = Some (Some e) -> set_item kind i (key_of e) a = (Ok (item_of LinkedHashSetObject kind e), a).
Proof.
  intros [_ _ Hb _ _] Hi Hl. destruct (proj1 (Forall_lookup _ _) (body_ok _ _ _ _ _ Hb) _ _ Hl) as [Hle _].
  assert (value_of LinkedHashSetObject e = key_of e) as Ev by (destruct e; done). unfold item_of. rewrite Ev. by destruct kind.
Qed.
End items.

Lemma ops_proper (ho : HashObject) (nan_bits : Z) (os : list op) :
  Forall (op_ok ho (map_key nan_bits)) os -> Forall (fun o => forall key value, o = OSet key value -> proper_value ho key value) os.
Proof. intros Hos. eapply Forall_impl; [|exact Hos]. intros o Ho key value ->. apply Ho. Qed.

(** C1: any sequence of up to 2^26 set, delete, clear, has, get and size
    operations on a new Map, interleaved with the creation and the steps of any
    number of iterators of all kinds, answers as the entry list of ECMA-262
    (24.1, [Ecma.spec]) does, a key -0 being delivered as -0 and not as +0: keys
    up to SameValueZero, entries in insertion order, and every iterator delivering
    each entry that is still there exactly once, however often the table is
    replaced by a bigger or a cleared one under it.  The keys are any values but
    the hole whose NaNs all have one bit pattern ([map_key]). *)
Theorem map_refines_spec (heap : Heap) (env : LightWeightMap.HashEnv) (nan_bits : Z) (GetPowerOfTwoValue32 : Z -> Z) (os : list op) :
  LightWeightMap.env_ok heap env -> least_power_of_two GetPowerOfTwoValue32 ->
  Forall (op_ok LinkedHashMapObject (map_key nan_bits)) os -> lenZ os <= 2 ^ 26 ->
  Forall2 (Ecma.same_answer heap false)
    (run_ops (exec LinkedHashMapObject heap (Hash heap env) GetPowerOfTwoValue32 (map_item LinkedHashMapObject)) os (new_collection LinkedHashMapObject)).1
    (run_ops (Ecma.spec heap false) os (Ecma.mkState [] [])).1.
Proof.
  intros Henv Hpow Hos Hb. pose proof (Hash_ZeroHash heap env nan_bits Henv) as HZ.
  rewrite (collection_refines LinkedHashMapObject heap (Hash heap env) (map_key nan_bits) GetPowerOfTwoValue32 Hpow); [|intros; by eapply map_item_run; [apply LinkedHashMapObject_ok|..]|done|done].
  apply (table_spec_ecma LinkedHashMapObject heap os (mkSpec [] [])); [by eapply ops_proper|by split].
Qed.

(** C9: the same for a Set and 24.2, whose add stores the element as the key and
    leaves an equal one; the elements that the iterators deliver are those of the
    specification up to SameValueZero, since the program keeps -0 and puts an
    equal element in the place of the first. *)
Theorem set_refines_spec (heap : Heap) (env : LightWeightMap.HashEnv) (nan_bits : Z) (GetPowerOfTwoValue32 : Z -> Z) (os : list op) :
  LightWeightMap.env_ok heap env -> least_power_of_two GetPowerOfTwoValue32 ->
  Forall (op_ok LinkedHashSetObject (map_key nan_bits)) os -> lenZ os <= 2 ^ 26 ->
  Forall2 (Ecma.same_answer heap true)
    (run_ops (exec LinkedHashSetObject heap (Hash heap env) GetPowerOfTwoValue32 set_item) os (new_collection LinkedHashSetObject)).1
    (run_ops (Ecma.spec heap true) os (Ecma.mkState [] [])).1.
Proof.
  intros Henv Hpow Hos Hb. pose proof (Hash_ZeroHash heap env nan_bits Henv) as HZ.
  rewrite (collection_refines LinkedHashSetObject heap (Hash heap env) (map_key nan_bits) GetPowerOfTwoValue32 Hpow); [|intros; by eapply set_item_run|done|done].
  apply (table_spec_ecma LinkedHashSetObject heap os (mkSpec [] [])); [by eapply ops_proper|by split].
Qed.

(** ** Samples *)

Notation sample_hash := (Hash sample_heap LightWeightMap.sample_env).

(** Four keys, an iterator that stands behind the second, two deletions and two
    more keys, the last of which makes the table grow. *)
Definition sample_ops : list op :=
  [OSet (VInt 1) (VInt 10); OSet (VInt 2) (VInt 20); OIterator KEY; ONext 0; ODelete (VInt 1); OSet (VInt 3) (VInt 30);
   OSet (VInt 4) (VInt 40); OSet (VInt 5) (VInt 50); ONext 0; OClear; OSet (VInt 6) (VInt 60); ONext 0; ONext 0; OSize].

Lemma sample_ops_ok : Forall (op_ok LinkedHashMapObject (map_key nan_pattern)) sample_ops.
Proof. repeat (constructor; [done || (split_and!; done)|]). constructor. Qed.

Example sample_answers :
  (run_ops (Ecma.spec sample_heap false) sample_ops (Ecma.mkState [] [])).1 =
  [Ok Ecma.Undefined; Ok Ecma.Undefined; Ok (Ecma.NewIterator 0); Ok (Ecma.Item (Some [Ecma.Key (VInt 1)])); Ok (Ecma.Truth true);
   Ok Ecma.Undefined; Ok Ecma.Undefined; Ok Ecma.Undefined; Ok (Ecma.Item (Some [Ecma.Key (VInt 2)])); Ok Ecma.Undefined; Ok Ecma.Undefined;
   Ok (Ecma.Item (Some [Ecma.Key (VInt 6)])); Ok (Ecma.Item None); Ok (Ecma.Size 1)].
Proof. vm_compute. reflexivity. Qed.

Lemma map_refines_spec_witness :
  Forall2 (Ecma.same_answer sample_heap false)
    (run_ops (exec LinkedHashMapObject sample_heap sample_hash round_up_pow2 (map_item LinkedHashMapObject)) sample_ops (new_collection LinkedHashMapObject)).1
    (run_ops (Ecma.spec sample_heap false) sample_ops (Ecma.mkState [] [])).1.
Proof. apply (map_refines_spec _ _ nan_pattern); [exact LightWeightMap.sample_env_ok|exact round_up_pow2_least|exact sample_ops_ok|done]. Defined.

(** The elements of a Set: -0 and then 0, which is equal to it. *)
Definition sample_set_ops : list op :=
  [OSet (VDouble (2 ^ 63)) (VDouble (2 ^ 63)); OSet (VInt 0) (VInt 0); OSet (VInt 1) (VInt 1); OHas (VInt 0); OSize; OIterator VALUE; ONext 0].

Lemma set_refines_spec_witness :
  (run_ops (Ecma.spec sample_heap true) sample_set_ops (Ecma.mkState [] [])).1
  = [Ok Ecma.Undefined; Ok Ecma.Undefined; Ok Ecma.Undefined; Ok (Ecma.Truth true); Ok (Ecma.Size 2); Ok (Ecma.NewIterator 0); Ok (Ecma.Item (Some [Ecma.Key (VInt 0)]))] /\
  Forall2 (Ecma.same_answer sample_heap true)
    (run_ops (exec LinkedHashSetObject sample_heap sample_hash round_up_pow2 set_item) sample_set_ops (new_collection LinkedHashSetObject)).1
    (run_ops (Ecma.spec sample_heap true) sample_set_ops (Ecma.mkState [] [])).1.
Proof.
  split; [vm_compute; reflexivity|]. apply (set_refines_spec _ _ nan_pattern); [exact LightWeightMap.sample_env_ok|exact round_up_pow2_least| |done].
  repeat (constructor; [done || (split_and!; [split; [done|vm_compute; congruence]|done|done]) || (split_and!; done)|]). constructor.
Defined.

(** The tables of the sample, run: the second iterator step comes after the
    entries have moved twice to a new table. *)
Example sample_run :
  let w := (run_ops (exec LinkedHashMapObject sample_heap sample_hash round_up_pow2 (map_item LinkedHashMapObject)) sample_ops (new_collection LinkedHashMapObject)).2 in
  GetLinkedMap w = 3 /\ lenZ (tables w) = 4.
Proof. vm_compute. split; reflexivity. Qed.

(** The key -0 is kept as it is; ECMA-262 stores +0. *)
Example negative_zero_key :
  (run_ops (exec LinkedHashSetObject sample_heap sample_hash round_up_pow2 set_item)
     [OSet (VDouble (2 ^ 63)) (VDouble (2 ^ 63)); OHas (VInt 0); OIterator VALUE; ONext 0] (new_collection LinkedHashSetObject)).1
  = [Ok RUnit; Ok (RBool true); Ok (RIterator 0); Ok (RNext (Some [VDouble (2 ^ 63)]))].
Proof. vm_compute. reflexivity. Qed.

End JSMap.
