(* ===== verification/TaggedTree.v ===== *)
(** * TaggedTree: tagged_tree.h, tagged_tree.cpp.

    A red-black tree in one TaggedArray: five words of header (the number of
    entries, the number of removed entries, the capacity, the entry of the root
    and the comparison function) and the entries, each with its key, its value,
    its colour and the numbers of its parent and of its children.  The template
    parameter gives the layout of an entry: TaggedTreeMap or TaggedTreeSet,
    where a set has no word for the value apart from the key.

    Trees live in a store, because a map keeps its tree or gets a new one when
    the tree grows or shrinks.  A comparison function of the program is an
    argument that gives its result on two keys; it does not change the tree. *)
From S2P Require Import Prelude TaggedValue TaggedArray EcmaString.
Local Open Scope Z_scope.

Module TaggedTree.

Inductive TreeColor : Type := BLACK | RED.

#[export] Instance TreeColor_eq : EqDecision TreeColor.
Proof. solve_decision. Defined.

(** The template parameter. *)
Record Derived : Type := mkDerived {
  ENTRY_SIZE : Z;
  ENTRY_VALUE_INDEX : Z;
  ENTRY_COLOR_INDEX : Z;
  ENTRY_PARENT_INDEX : Z;
  ENTRY_LEFT_CHILD_INDEX : Z;
  ENTRY_RIGHT_CHILD_INDEX : Z;
}.
Definition TaggedTreeMap : Derived := mkDerived 6 1 2 3 4 5.
Definition TaggedTreeSet : Derived := mkDerived 5 0 1 2 3 4.

Definition MIN_CAPACITY : Z := 7.
Definition NUMBER_OF_ELEMENTS_INDEX : Z := 0.
Definition NUMBER_OF_HOLE_ENTRIES_INDEX : Z := 1.
Definition CAPACITY_INDEX : Z := 2.
Definition ROOT_INDEX : Z := 3.
Definition COMPARE_FUNCTION_INDEX : Z := 4.
Definition ELEMENTS_START_INDEX : Z := 5.
Definition MIN_SHRINK_CAPACITY : Z := 15.

(** JSTaggedValue(unsigned int): a number that is no int32 becomes a double. *)
Definition of_uint32 (v : Z) : JSTaggedValue :=
  if i32 v <? 0 then VDouble ((1023 + 31) * 2 ^ 52 + (v - 2 ^ 31) * 2 ^ 21) else VInt v.

(** ** Comparing keys *)

(** What comparing calls outside of the tree: the heap, a function of the
    program, and the conversions ToNumber and ToString. *)
Record CompareEnv : Type := mkCompareEnv {
  env_heap : Heap;
  Call : JSTaggedValue -> JSTaggedValue -> JSTaggedValue -> outcome JSTaggedValue;
  ToNumber : JSTaggedValue -> outcome dbl;
  ToString : JSTaggedValue -> outcome (list Z);
}.

Definition lift {S A} (r : outcome A) : M S A := fun s => (r, s).

Section comparing.
Context (env : CompareEnv) {S : Type}.

(** JSTaggedValue::Compare on two strings, which OrdinayEntryCompare also has
    as its first case. *)
Definition compare_strings (x y : list Z) : M S ComparisonResult :=
  result ← EcmaString.Compare (EcmaString.CreateFromUtf16 x) (EcmaString.CreateFromUtf16 y);
  mret (if result <? 0 then LESS else if result =? 0 then EQUAL else GREAT).

Definition string_of (v : JSTaggedValue) : option (list Z) := snd <$> get_string (env_heap env) v.

Definition OrdinayEntryCompare (valueX valueY : JSTaggedValue) : M S ComparisonResult :=
  match string_of valueX, string_of valueY with
  | Some x, Some y => compare_strings x y
  | sx, sy =>
      if IsNumber valueX && IsNumber valueY then mret (StrictNumberCompare (ExtractNumber valueX) (ExtractNumber valueY))
      else if IsNumber valueX && (if sy then true else false) then mret LESS
      else if (if sx then true else false) && IsNumber valueY then mret GREAT
      else
        xValue ← lift (ToString env valueX);
        yValue ← lift (ToString env valueY);
        compare_strings xValue yValue
  end.

Definition CompareFn (fn valueX valueY : JSTaggedValue) : M S ComparisonResult :=
  callResult ← lift (Call env fn valueX valueY);
  compareResult ←
    match callResult with
    | VBool true => mret (-1)
    | VBool false =>
        callResult ← lift (Call env fn valueY valueX);
        mret (match callResult with VBool true => 1 | _ => 0 end)
    | VInt z => mret z
    | _ =>
        value ← lift (ToNumber env callResult);
        if isnan value then throw TYPE_ERROR
        else
          match trunc value with
          | Some z => if (INT32_MIN <=? z) && (z <=? INT32_MAX) then mret z else fault
          | None => fault
          end
    end;
  mret (if 0 <? compareResult then GREAT else if compareResult <? 0 then LESS else EQUAL).
End comparing.

(** ** One tree *)

Section tree.
Context (ho : Derived).

Definition GetInt {S} (v : JSTaggedValue) : M S Z := match v with VInt z => mret z | _ => fault end.

Definition get_header (index : Z) : M TaggedArray Z :=
  v ← Arr.Get index;
  GetInt v.

Definition NumberOfElements : M TaggedArray Z := n ← get_header NUMBER_OF_ELEMENTS_INDEX; mret (u32 n).
Definition NumberOfDeletedElements : M TaggedArray Z := n ← get_header NUMBER_OF_HOLE_ENTRIES_INDEX; mret (u32 n).
Definition Capacity : M TaggedArray Z := get_header CAPACITY_INDEX.
Definition GetRootEntries : M TaggedArray Z := get_header ROOT_INDEX.
Definition GetCompare : M TaggedArray JSTaggedValue := Arr.Get COMPARE_FUNCTION_INDEX.

Definition SetNumberOfElements (num : Z) : M TaggedArray unit := Arr.Set_ NUMBER_OF_ELEMENTS_INDEX (of_uint32 (u32 num)).
Definition SetNumberOfDeletedElements (num : Z) : M TaggedArray unit := Arr.Set_ NUMBER_OF_HOLE_ENTRIES_INDEX (VInt (i32 num)).
Definition SetCapacity (capacity : Z) : M TaggedArray unit := Arr.Set_ CAPACITY_INDEX (VInt capacity).
Definition SetRootEntries (num : Z) : M TaggedArray unit := Arr.Set_ ROOT_INDEX (VInt num).
Definition SetCompare (fn : JSTaggedValue) : M TaggedArray unit := Arr.Set_ COMPARE_FUNCTION_INDEX fn.

(** GetElement and SetElement assert what Get and Set assert. *)
Definition GetElement (index : Z) : M TaggedArray JSTaggedValue := Arr.Get index.
Definition SetElement (index : Z) (element : JSTaggedValue) : M TaggedArray unit := Arr.Set_ index element.

Definition EntryToIndex (entry : Z) : Z := i32 (ELEMENTS_START_INDEX + u32 entry * ENTRY_SIZE ho).

Definition IsKey (key : JSTaggedValue) : bool := negb (IsHole key).

Definition GetKey (entry : Z) : M TaggedArray JSTaggedValue :=
  if entry <? 0 then mret VHole else GetElement (EntryToIndex entry).

Definition GetValue (entry : Z) : M TaggedArray JSTaggedValue :=
  GetElement (EntryToIndex entry + ENTRY_VALUE_INDEX ho).

Definition GetColor (entry : Z) : M TaggedArray TreeColor :=
  if entry <? 0 then mret BLACK
  else
    color ← GetElement (EntryToIndex entry + ENTRY_COLOR_INDEX ho);
    c ← GetInt color;
    mret (if c =? 1 then RED else BLACK).

Definition GetParent (entry : Z) : M TaggedArray Z :=
  parent ← GetElement (EntryToIndex entry + ENTRY_PARENT_INDEX ho);
  GetInt parent.

Definition GetLeftChild (parent : Z) : M TaggedArray JSTaggedValue :=
  if parent <? 0 then mret VHole else Arr.Get (EntryToIndex parent + ENTRY_LEFT_CHILD_INDEX ho).

Definition GetRightChild (parent : Z) : M TaggedArray JSTaggedValue :=
  if parent <? 0 then mret VHole else Arr.Get (EntryToIndex parent + ENTRY_RIGHT_CHILD_INDEX ho).

Definition GetLeftChildIndex (parent : Z) : M TaggedArray Z :=
  if parent <? 0 then mret (-1)
  else
    child ← Arr.Get (EntryToIndex parent + ENTRY_LEFT_CHILD_INDEX ho);
    if IsHole child then mret (-1) else GetInt child.

Definition GetRightChildIndex (parent : Z) : M TaggedArray Z :=
  if parent <? 0 then mret (-1)
  else
    child ← Arr.Get (EntryToIndex parent + ENTRY_RIGHT_CHILD_INDEX ho);
    if IsHole child then mret (-1) else GetInt child.

Definition SetKey (entry : Z) (key : JSTaggedValue) : M TaggedArray unit := SetElement (EntryToIndex entry) key.
Definition SetValue (entry : Z) (value : JSTaggedValue) : M TaggedArray unit :=
  SetElement (EntryToIndex entry + ENTRY_VALUE_INDEX ho) value.

Definition color_value (color : TreeColor) : Z := match color with BLACK => 0 | RED => 1 end.

Definition SetColor (entry : Z) (color : TreeColor) : M TaggedArray unit :=
  if 0 <=? entry then SetElement (EntryToIndex entry + ENTRY_COLOR_INDEX ho) (VInt (color_value color)) else mret tt.

Definition SetParent (entry : Z) (value : JSTaggedValue) : M TaggedArray unit :=
  if entry <? 0 then mret tt else SetElement (EntryToIndex entry + ENTRY_PARENT_INDEX ho) value.

Definition SetLeftChild (entry : Z) (value : JSTaggedValue) : M TaggedArray unit :=
  SetElement (EntryToIndex entry + ENTRY_LEFT_CHILD_INDEX ho) value.
Definition SetRightChild (entry : Z) (value : JSTaggedValue) : M TaggedArray unit :=
  SetElement (EntryToIndex entry + ENTRY_RIGHT_CHILD_INDEX ho) value.

Definition GetRootKey : M TaggedArray JSTaggedValue := root ← GetRootEntries; GetKey root.

Definition SetRoot (index : Z) (key value : JSTaggedValue) : M TaggedArray unit :=
  SetKey 0 key;;
  SetValue 0 value;;
  SetParent 0 (VInt (-1));;
  SetColor 0 BLACK;;
  SetRootEntries index.

Definition InsertLeftEntry (parentIndex entry : Z) (key value : JSTaggedValue) : M TaggedArray unit :=
  SetKey entry key;;
  SetValue entry value;;
  SetColor entry RED;;
  SetParent entry (of_uint32 parentIndex);;
  SetLeftChild parentIndex (of_uint32 entry).

Definition InsertRightEntry (parentIndex entry : Z) (key value : JSTaggedValue) : M TaggedArray unit :=
  SetKey entry key;;
  SetValue entry value;;
  SetColor entry RED;;
  SetParent entry (of_uint32 parentIndex);;
  SetRightChild parentIndex (of_uint32 entry).

Definition IsValidIndex (entry : Z) : M TaggedArray bool :=
  root ← GetRootEntries;
  if entry =? root then mret false
  else key ← GetKey entry; mret (negb (IsHole key)).

(** The brother of a left child, and of a right child. *)
Definition GetLeftBrother (entry : Z) : M TaggedArray Z :=
  parent ← GetParent entry;
  child ← GetRightChild parent;
  if IsHole child then mret (-1) else GetInt child.

Definition GetRightBrother (entry : Z) : M TaggedArray Z :=
  parent ← GetParent entry;
  child ← GetLeftChild parent;
  if IsHole child then mret (-1) else GetInt child.

Definition IsLeft (entry : Z) : M TaggedArray bool :=
  parent ← GetParent entry;
  child ← GetLeftChild parent;
  if IsHole child then mret false else c ← GetInt child; mret (c =? entry).

Definition IsRight (entry : Z) : M TaggedArray bool :=
  parent ← GetParent entry;
  child ← GetRightChild parent;
  if IsHole child then mret false else c ← GetInt child; mret (c =? entry).

(** The number of entries bounds every walk in a tree. *)
Definition walk {X A} (step : X -> M TaggedArray (X + A)) (x : X) : M TaggedArray A :=
  capacity ← Capacity;
  while_fuel (Datatypes.S (Z.to_nat capacity)) step x.

Definition minimum_step (vars : Z * JSTaggedValue) : M TaggedArray (Z * JSTaggedValue + Z) :=
  let '(entry, child) := vars in
  if IsHole child then mret (inr entry)
  else
    entry ← GetInt child;
    child ← GetLeftChild entry;
    mret (inl (entry, child)).

Definition GetMinimum (entry : Z) : M TaggedArray Z :=
  child ← GetLeftChild entry;
  walk minimum_step (entry, child).

Definition maximum_step (vars : Z * JSTaggedValue) : M TaggedArray (Z * JSTaggedValue + Z) :=
  let '(entry, child) := vars in
  if IsHole child then mret (inr entry)
  else
    entry ← GetInt child;
    child ← GetRightChild entry;
    mret (inl (entry, child)).

Definition GetMaximum (entry : Z) : M TaggedArray Z :=
  child ← GetRightChild entry;
  walk maximum_step (entry, child).

Definition predecessor_step (vars : Z * Z) : M TaggedArray (Z * Z + Z) :=
  let '(entry, parent) := vars in
  if 0 <=? parent then
    child ← GetLeftChildIndex parent;
    if child =? entry then up ← GetParent parent; mret (inl (parent, up)) else mret (inr parent)
  else mret (inr parent).

Definition GetPreDecessor (entry : Z) : M TaggedArray Z :=
  child ← GetLeftChildIndex entry;
  if 0 <=? child then GetMaximum child
  else
    parent ← GetParent entry;
    walk predecessor_step (entry, parent).

Definition successor_step (vars : Z * Z) : M TaggedArray (Z * Z + Z) :=
  let '(entry, parent) := vars in
  if 0 <=? parent then
    child ← GetRightChildIndex parent;
    if child =? entry then up ← GetParent parent; mret (inl (parent, up)) else mret (inr parent)
  else mret (inr parent).

Definition GetSuccessor (entry : Z) : M TaggedArray Z :=
  child ← GetRightChildIndex entry;
  if 0 <=? child then GetMinimum child
  else
    parent ← GetParent entry;
    walk successor_step (entry, parent).
(** ** Rebalancing *)

Definition LeftRotate (index : Z) : M TaggedArray unit :=
  if 0 <=? index then
    child ← GetRightChild index;
    right ← GetInt child;
    leftOfRight ← GetLeftChild right;
    SetRightChild index leftOfRight;;
    (if negb (IsHole leftOfRight) then l ← GetInt leftOfRight; SetParent l (VInt index) else mret tt);;
    parentOfIndex ← GetParent index;
    SetParent right (VInt parentOfIndex);;
    (if parentOfIndex <? 0 then SetRootEntries right
     else
       left ← GetLeftChild parentOfIndex;
       is_left ← (if IsHole left then mret false else l ← GetInt left; mret (l =? index));
       if (is_left : bool) then SetLeftChild parentOfIndex (VInt right)
       else SetRightChild parentOfIndex (VInt right));;
    SetLeftChild right (VInt index);;
    SetParent index (VInt right)
  else mret tt.

Definition RightRotate (index : Z) : M TaggedArray unit :=
  if 0 <=? index then
    child ← GetLeftChild index;
    left ← GetInt child;
    rightOfLeft ← GetRightChild left;
    SetLeftChild index rightOfLeft;;
    (if negb (IsHole rightOfLeft) then r ← GetInt rightOfLeft; SetParent r (VInt index) else mret tt);;
    parentOfIndex ← GetParent index;
    SetParent left (VInt parentOfIndex);;
    (if parentOfIndex <? 0 then SetRootEntries left
     else
       right ← GetRightChild parentOfIndex;
       is_right ← (if IsHole right then mret false else r ← GetInt right; mret (r =? index));
       if (is_right : bool) then SetRightChild parentOfIndex (VInt left)
       else SetLeftChild parentOfIndex (VInt left));;
    SetRightChild left (VInt index);;
    SetParent index (VInt left)
  else mret tt.

(** GetParent(GetParent(index)). *)
Definition GetGrandParent (index : Z) : M TaggedArray Z := parent ← GetParent index; GetParent parent.

(** The branch of InsertRebalance with a red uncle; it returns the new index. *)
Definition recolor (index bro : Z) : M TaggedArray Z :=
  parent ← GetParent index;
  SetColor parent BLACK;;
  SetColor bro BLACK;;
  grandparent ← GetGrandParent index;
  SetColor grandparent RED;;
  GetGrandParent index.

(** A round of the loop of InsertRebalance. *)
Definition insert_rebalance_step (index : Z) : M TaggedArray (Z + unit) :=
  valid ← IsValidIndex index;
  violated ← (if (valid : bool) then parent ← GetParent index; c ← GetColor parent; mret (bool_decide (c = RED)) else mret false);
  if negb violated then mret (inr tt)
  else
    parent ← GetParent index;
    left ← IsLeft parent;
    index ←
      (if (left : bool) then
         bro ← GetLeftBrother parent;
         c ← GetColor bro;
         match c with
         | RED => recolor index bro
         | BLACK =>
             right ← IsRight index;
             index ← (if (right : bool) then parent ← GetParent index; LeftRotate parent;; mret parent else mret index);
             parent ← GetParent index;
             SetColor parent BLACK;;
             grandparent ← GetGrandParent index;
             SetColor grandparent RED;;
             grandparent ← GetGrandParent index;
             RightRotate grandparent;;
             mret index
         end
       else
         bro ← GetRightBrother parent;
         c ← GetColor bro;
         match c with
         | RED => recolor index bro
         | BLACK =>
             left ← IsLeft index;
             index ← (if (left : bool) then parent ← GetParent index; RightRotate parent;; mret parent else mret index);
             parent ← GetParent index;
             SetColor parent BLACK;;
             grandparent ← GetGrandParent index;
             SetColor grandparent RED;;
             grandparent ← GetGrandParent index;
             LeftRotate grandparent;;
             mret index
         end);
    mret (inl index).

Definition InsertRebalance (index : Z) : M TaggedArray unit :=
  walk insert_rebalance_step index;;
  root ← GetRootEntries;
  SetColor root BLACK.

(** GetColor(bro) is black for both children of [bro]. *)
Definition black_children (bro : Z) : M TaggedArray bool :=
  left ← GetLeftChildIndex bro;
  cl ← GetColor left;
  right ← GetRightChildIndex bro;
  cr ← GetColor right;
  mret (bool_decide (cl = BLACK) && bool_decide (cr = BLACK)).

(** The part of a round after the brother is black, for a left child. *)
Definition delete_left_black (index bro : Z) : M TaggedArray Z :=
  black ← black_children bro;
  if (black : bool) then SetColor bro RED;; GetParent index
  else
    right ← GetRightChildIndex bro;
    c ← GetColor right;
    bro ← match c with
          | BLACK =>
              left ← GetLeftChildIndex bro;
              SetColor left BLACK;;
              SetColor bro RED;;
              RightRotate bro;;
              GetLeftBrother index
          | RED => mret bro
          end;
    parent ← GetParent index;
    color ← GetColor parent;
    SetColor bro color;;
    SetColor parent BLACK;;
    right ← GetRightChildIndex bro;
    SetColor right BLACK;;
    LeftRotate parent;;
    GetRootEntries.

Definition delete_left (index : Z) : M TaggedArray Z :=
  bro ← GetLeftBrother index;
  c ← GetColor bro;
  bro ← match c with
        | RED =>
            SetColor bro BLACK;;
            parent ← GetParent index;
            SetColor parent RED;;
            LeftRotate parent;;
            GetLeftBrother index
        | BLACK => mret bro
        end;
  delete_left_black index bro.

(** The part of a round after the brother is black, for a right child. *)
Definition delete_right_black (index bro : Z) : M TaggedArray Z :=
  black ← black_children bro;
  if (black : bool) then SetColor bro RED;; GetParent index
  else
    left ← GetLeftChildIndex bro;
    c ← GetColor left;
    bro ← match c with
          | BLACK =>
              right ← GetRightChildIndex bro;
              SetColor right BLACK;;
              SetColor bro RED;;
              LeftRotate bro;;
              GetRightBrother index
          | RED => mret bro
          end;
    parent ← GetParent index;
    color ← GetColor parent;
    SetColor bro color;;
    SetColor parent BLACK;;
    left ← GetLeftChildIndex bro;
    SetColor left BLACK;;
    RightRotate parent;;
    GetRootEntries.

Definition delete_right (index : Z) : M TaggedArray Z :=
  bro ← GetRightBrother index;
  c ← GetColor bro;
  bro ← match c with
        | RED =>
            SetColor bro BLACK;;
            parent ← GetParent index;
            SetColor parent RED;;
            RightRotate parent;;
            GetRightBrother index
        | BLACK => mret bro
        end;
  delete_right_black index bro.

Definition delete_rebalance_step (index : Z) : M TaggedArray (Z + Z) :=
  root ← GetRootEntries;
  black ← (if index =? root then mret false else c ← GetColor index; mret (bool_decide (c = BLACK)));
  if (black : bool) then
    left ← IsLeft index;
    index ← (if (left : bool) then delete_left index else delete_right index);
    mret (inl index)
  else mret (inr index).

Definition DeleteRebalance (index : Z) : M TaggedArray unit :=
  index ← walk delete_rebalance_step index;
  SetColor index BLACK.

Definition Transplant (dst src : Z) : M TaggedArray unit :=
  parent ← GetParent dst;
  (if parent <? 0 then SetRootEntries src
   else
     left ← IsLeft dst;
     let child := if src <? 0 then VHole else VInt src in
     if (left : bool) then SetLeftChild parent child else SetRightChild parent child);;
  SetParent src (VInt parent).

(** The derived classes also copy and remove the value. *)
Definition CopyData (dst src : Z) : M TaggedArray unit :=
  key ← GetKey src;
  SetKey dst key;;
  value ← GetValue src;
  SetValue dst value.

Definition RemoveEntry (index : Z) : M TaggedArray unit :=
  SetKey index VHole;;
  SetParent index VHole;;
  SetLeftChild index VHole;;
  SetRightChild index VHole;;
  SetValue index VHole.

(** The part of Remove that takes an entry with at most one child out. *)
Definition unlink (successor : Z) : M TaggedArray unit :=
  left ← GetLeftChild successor;
  right ← GetRightChild successor;
  child ← (if IsHole left then (if IsHole right then mret (-1) else GetInt right) else GetInt left);
  (if child <? 0 then
     c ← GetColor successor;
     match c with BLACK => DeleteRebalance successor | RED => mret tt end
   else mret tt);;
  Transplant successor child;;
  (if 0 <=? child then
     c ← GetColor successor;
     match c with BLACK => DeleteRebalance child | RED => mret tt end
   else mret tt);;
  RemoveEntry successor.

Definition Remove (entry : Z) : M TaggedArray unit :=
  l ← GetLeftChild entry;
  both ← (if IsHole l then mret false else r ← GetRightChild entry; mret (negb (IsHole r)));
  successor ← (if (both : bool) then successor ← GetSuccessor entry; CopyData entry successor;; mret successor else mret entry);
  unlink successor;;
  n ← NumberOfElements;
  SetNumberOfElements (n - 1);;
  d ← NumberOfDeletedElements;
  SetNumberOfDeletedElements (d + 1).
(** ** Searching *)

Definition Transform (v : JSTaggedValue) : JSTaggedValue := if IsHole v then VUndefined else v.

Section search.
Context (env : CompareEnv).

Definition EntryCompare (valueX valueY : JSTaggedValue) : M TaggedArray ComparisonResult :=
  fn ← GetCompare;
  if IsHole fn then OrdinayEntryCompare env valueX valueY else CompareFn env fn valueX valueY.

Definition find_step (key : JSTaggedValue) (vars : Z * JSTaggedValue) : M TaggedArray (Z * JSTaggedValue + Z) :=
  let '(parentIndex, parentKey) := vars in
  if IsHole parentKey then mret (inr (-1))
  else
    res ← EntryCompare key parentKey;
    match res with
    | EQUAL => mret (inr parentIndex)
    | _ =>
        child ← match res with LESS => GetLeftChild parentIndex | _ => GetRightChild parentIndex end;
        if IsHole child then mret (inr (-1))
        else
          parentIndex ← GetInt child;
          parentKey ← GetKey parentIndex;
          mret (inl (parentIndex, parentKey))
    end.

Definition FindEntry (key : JSTaggedValue) : M TaggedArray Z :=
  parentIndex ← GetRootEntries;
  parentKey ← GetKey parentIndex;
  walk (find_step key) (parentIndex, parentKey).

(** The loop variables of GetLowerKey and GetHigherKey are parentIndex,
    parentKey and resultIndex. *)
Definition lower_step (key : JSTaggedValue) (vars : Z * JSTaggedValue * Z) : M TaggedArray (Z * JSTaggedValue * Z + Z) :=
  let '(parentIndex, parentKey, resultIndex) := vars in
  if parentIndex <? 0 then mret (inr resultIndex)
  else
    res ← EntryCompare key parentKey;
    next ← match res with
           | GREAT => right ← GetRightChildIndex parentIndex; mret (right, parentIndex)
           | _ => left ← GetLeftChildIndex parentIndex; mret (left, resultIndex)
           end;
    parentKey ← GetKey next.1;
    mret (inl (next.1, parentKey, next.2)).

Definition GetLowerKey (key : JSTaggedValue) : M TaggedArray JSTaggedValue :=
  parentIndex ← GetRootEntries;
  parentKey ← GetKey parentIndex;
  resultIndex ← walk (lower_step key) (parentIndex, parentKey, -1);
  lowerKey ← GetKey resultIndex;
  mret (Transform lowerKey).

Definition higher_step (key : JSTaggedValue) (vars : Z * JSTaggedValue * Z) : M TaggedArray (Z * JSTaggedValue * Z + Z) :=
  let '(parentIndex, parentKey, resultIndex) := vars in
  if parentIndex <? 0 then mret (inr resultIndex)
  else
    res ← EntryCompare key parentKey;
    next ← match res with
           | LESS => left ← GetLeftChildIndex parentIndex; mret (left, parentIndex)
           | _ => right ← GetRightChildIndex parentIndex; mret (right, resultIndex)
           end;
    parentKey ← GetKey next.1;
    mret (inl (next.1, parentKey, next.2)).

Definition GetHigherKey (key : JSTaggedValue) : M TaggedArray JSTaggedValue :=
  parentIndex ← GetRootEntries;
  parentKey ← GetKey parentIndex;
  resultIndex ← walk (higher_step key) (parentIndex, parentKey, -1);
  higherKey ← GetKey resultIndex;
  mret (Transform higherKey).

(** TaggedTreeMap::Get. *)
Definition Get (key : JSTaggedValue) : M TaggedArray JSTaggedValue :=
  index ← FindEntry key;
  if index =? -1 then mret VUndefined else GetValue index.

Definition has_value_step (value : JSTaggedValue) (entries : list Z) : M TaggedArray (list Z + bool) :=
  match entries with
  | [] => mret (inr false)
  | parent :: rest =>
      v ← GetValue parent;
      if SameValue (env_heap env) v value then mret (inr true)
      else
        left ← GetLeftChildIndex parent;
        right ← GetRightChildIndex parent;
        mret (inl (rest ++ (if 0 <=? left then [left] else []) ++ (if 0 <=? right then [right] else [])))
  end.

Definition HasValue (value : JSTaggedValue) : M TaggedArray bool :=
  root ← GetRootEntries;
  if root <? 0 then mret false else walk (has_value_step value) [root].
End search.

Definition GetFirstKey : M TaggedArray JSTaggedValue :=
  root ← GetRootEntries;
  entry ← GetMinimum root;
  key ← GetKey entry;
  mret (Transform key).

Definition GetLastKey : M TaggedArray JSTaggedValue :=
  root ← GetRootEntries;
  entry ← GetMaximum root;
  key ← GetKey entry;
  mret (Transform key).

(** The inner loop of GetSortArray pushes the entries to the left of [index]. *)
Definition push_step (vars : Z * list Z) : M TaggedArray (Z * list Z + list Z) :=
  let '(index, entries) := vars in
  if 0 <=? index then left ← GetLeftChildIndex index; mret (inl (left, index :: entries))
  else mret (inr entries).

(** A round of its outer loop: it returns the entry that is next in order, if
    there is one. *)
Definition sort_step (vars : Z * list Z) : M TaggedArray (option (Z * (Z * list Z))) :=
  let '(index, entries) := vars in
  if (index <? 0) && (match entries with [] => true | _ => false end) then mret None
  else
    entries ← walk push_step (index, entries);
    match entries with
    | [] => mret None
    | top :: rest => right ← GetRightChildIndex top; mret (Some (top, (right, rest)))
    end.

(** Read [tree] while another array is the state. *)
Definition from {S A} (tree : TaggedArray) (m : M TaggedArray A) : M S A := fun s => ((m tree).1, s).

Definition GetSortArray : M TaggedArray TaggedArray :=
  n ← NumberOfElements;
  index ← GetRootEntries;
  capacity ← Capacity;
  tree ← get;
  build (Factory.NewTaggedArray n VHole)
    (while_fuel (Datatypes.S (Z.to_nat capacity)) (fun vars =>
       let '(state, aid) := vars in
       next ← from tree (sort_step state);
       match next with
       | None => mret (inr tt)
       | Some (top, state) => Arr.Set_ aid (VInt top);; mret (inl (state, aid + 1))
       end) ((index, []), 0)).
End tree.

(** ** Trees in the store *)

Section store.
Context (ho : Derived) (env : CompareEnv).

Definition Create (numberOfElements : Z) : M Store Z :=
  ASSERT (0 <? numberOfElements);;
  let capacity := if MIN_CAPACITY <? numberOfElements then numberOfElements else MIN_CAPACITY in
  let length := ELEMENTS_START_INDEX + capacity * ENTRY_SIZE ho in
  tree ← build (Factory.NewTaggedArray length VHole) (
    SetNumberOfElements 0;;
    SetNumberOfDeletedElements 0;;
    SetRootEntries (-1);;
    SetCompare VHole;;
    SetCapacity capacity);
  new_array tree.

(** CopyEntry of the derived classes. *)
Definition CopyEntry (tree parent newTree index : Z) : M Store unit :=
  key ← on_table tree (GetKey ho parent);
  on_table newTree (SetKey ho index key);;
  color ← on_table tree (GetColor ho parent);
  on_table newTree (SetColor ho index color);;
  value ← on_table tree (GetValue ho parent);
  on_table newTree (SetValue ho index value).

(** A round of the loop of AdjustTaggedTree; the loop variables are entries,
    index and child. *)
Definition adjust_step (tree newTree : Z) (vars : list Z * Z * Z) : M Store (list Z * Z * Z + unit) :=
  let '(entries, index, child) := vars in
  match entries with
  | [] => mret (inr tt)
  | parent :: rest =>
      left ← on_table tree (GetLeftChild ho parent);
      pushed ← (if IsHole left then mret ([], child)
                else
                  l ← GetInt left;
                  on_table newTree (SetLeftChild ho index (VInt child));;
                  on_table newTree (SetParent ho child (VInt index));;
                  mret ([l], child + 1));
      let '(pushed_left, child) := pushed in
      right ← on_table tree (GetRightChild ho parent);
      pushed ← (if IsHole right then mret ([], child)
                else
                  r ← GetInt right;
                  on_table newTree (SetRightChild ho index (VInt child));;
                  on_table newTree (SetParent ho child (VInt index));;
                  mret ([r], child + 1));
      let '(pushed_right, child) := pushed in
      CopyEntry tree parent newTree index;;
      mret (inl (rest ++ pushed_left ++ pushed_right, index + 1, child))
  end.

Definition AdjustTaggedTree (tree len : Z) : M Store Z :=
  d ← on_table tree NumberOfDeletedElements;
  if d =? 0 then
    old ← on_table tree get;
    new ← Factory.ExtendArray old len VHole;
    new_array new
  else
    elements ← on_table tree NumberOfElements;
    newTree ← new_array (Factory.NewTaggedArray len VHole);
    on_table newTree (SetNumberOfElements elements);;
    on_table newTree (SetNumberOfDeletedElements 0);;
    on_table newTree (SetRootEntries 0);;
    root ← on_table tree GetRootEntries;
    on_table newTree (SetParent ho 0 (VInt (-1)));;
    capacity ← on_table tree Capacity;
    while_fuel (Datatypes.S (Z.to_nat capacity)) (adjust_step tree newTree) ([root], 0, 1);;
    mret newTree.

Definition ComputeCapacity (oldCapacity : Z) : Z :=
  let capacity := i32 (u32 (Z.shiftl (u32 oldCapacity) 1) + 1) in
  if MIN_CAPACITY <? capacity then capacity else MIN_CAPACITY.

Definition GrowCapacity (tree : Z) : M Store Z :=
  n ← on_table tree NumberOfElements;
  d ← on_table tree NumberOfDeletedElements;
  oldCapacity ← on_table tree Capacity;
  if i32 (u32 (n + d) + 1) <=? oldCapacity then mret tree
  else
    let newCapacity := ComputeCapacity oldCapacity in
    let length := ELEMENTS_START_INDEX + newCapacity * ENTRY_SIZE ho in
    newTree ← AdjustTaggedTree tree length;
    on_table newTree (SetCapacity newCapacity);;
    mret newTree.

Definition Shrink (tree : Z) : M Store Z :=
  oldCapacity ← on_table tree Capacity;
  n ← on_table tree NumberOfElements;
  if Z.quot (oldCapacity + 1) 4 <=? i32 n then mret tree
  else
    let newCapacity := Z.shiftr (u32 (oldCapacity - 1)) 1 in
    if newCapacity <? MIN_SHRINK_CAPACITY then mret tree
    else
      let length := ELEMENTS_START_INDEX + newCapacity * ENTRY_SIZE ho in
      newTree ← AdjustTaggedTree tree length;
      on_table newTree (SetCapacity newCapacity);;
      mret newTree.

(** A round of the loop of Insert; [None] is its return when the key is found,
    otherwise the result is the parent of the new entry and the side. *)
Definition insert_step (tree newTree : Z) (key value : JSTaggedValue) (vars : Z * JSTaggedValue * ComparisonResult) :
    M Store (Z * JSTaggedValue * ComparisonResult + option (Z * ComparisonResult)) :=
  let '(parentIndex, parentKey, res) := vars in
  if IsHole parentKey then mret (inr (Some (parentIndex, res)))
  else
    res ← on_table tree (EntryCompare env key parentKey);
    match res with
    | EQUAL => on_table newTree (SetValue ho parentIndex value);; mret (inr None)
    | _ =>
        child ← on_table newTree match res with LESS => GetLeftChild ho parentIndex | _ => GetRightChild ho parentIndex end;
        if IsHole child then mret (inr (Some (parentIndex, res)))
        else
          parentIndex ← GetInt child;
          parentKey ← on_table newTree (GetKey ho parentIndex);
          mret (inl (parentIndex, parentKey, res))
    end.

(** The new tree; when the key was there it is the old one, even if the tree
    was copied to grow. *)
Definition Insert (tree : Z) (key value : JSTaggedValue) : M Store Z :=
  ASSERT (IsKey key);;
  parentKey ← on_table tree (GetRootKey ho);
  if IsHole parentKey then
    on_table tree (SetRoot ho 0 key value);;
    n ← on_table tree NumberOfElements;
    on_table tree (SetNumberOfElements (n + 1));;
    mret tree
  else
    newTree ← GrowCapacity tree;
    parentIndex ← on_table newTree GetRootEntries;
    capacity ← on_table newTree Capacity;
    found ← while_fuel (Datatypes.S (Z.to_nat capacity)) (insert_step tree newTree key value) (parentIndex, parentKey, UNDEFINED);
    match found with
    | None => mret tree
    | Some (parentIndex, res) =>
        n ← on_table newTree NumberOfElements;
        d ← on_table newTree NumberOfDeletedElements;
        let entry := u32 (n + d) in
        on_table newTree match res with
          | LESS => InsertLeftEntry ho parentIndex entry key value
          | _ => InsertRightEntry ho parentIndex entry key value
          end;;
        n ← on_table newTree NumberOfElements;
        on_table newTree (SetNumberOfElements (n + 1));;
        on_table newTree (InsertRebalance ho (i32 entry));;
        mret newTree
    end.

(** TaggedTreeMap::Delete and TaggedTreeSet::Delete. *)
Definition Delete (tree entry : Z) : M Store Z :=
  on_table tree (Remove ho entry);;
  Shrink tree.

(** TaggedTreeMap::SetAll; the loop variables are entries and map. *)
Definition set_all_step (src : Z) (vars : list Z * Z) : M Store (list Z * Z + Z) :=
  let '(entries, map) := vars in
  match entries with
  | [] => mret (inr map)
  | parent :: rest =>
      key ← on_table src (GetKey ho parent);
      value ← on_table src (GetValue ho parent);
      map ← Insert map key value;
      left ← on_table src (GetLeftChildIndex ho parent);
      right ← on_table src (GetRightChildIndex ho parent);
      mret (inl (rest ++ (if 0 <=? left then [left] else []) ++ (if 0 <=? right then [right] else []), map))
  end.

Definition SetAll (dst src : Z) : M Store Z :=
  root ← on_table src GetRootEntries;
  capacity ← on_table src Capacity;
  while_fuel (Datatypes.S (Z.to_nat capacity)) (set_all_step src) ([root], dst).
End store.
End TaggedTree.
