(* ===== verification/TreeShape.v ===== *)
(** * TreeShape: the trees that the array of a TaggedTree holds.

    [Tree] is a binary tree whose nodes carry the number of their entry.  [zip]
    says that the words of an array describe a tree with a subtree in focus:
    the subtree, and the context around it as a list of frames from the parent
    of the subtree to the root.  The operations that read and rotate a tree are
    shown to act on the focus, so that the rebalancing loops become functions
    on contexts. *)
From stdpp Require Import sets.
From S2P Require Import Prelude TaggedValue TaggedArray TaggedTree.
Local Open Scope Z_scope.

Module TreeShape.
Import TaggedTree.

(** ** Trees and contexts *)

Notation KV := (JSTaggedValue * JSTaggedValue)%type.

Inductive Tree : Type :=
| Leaf
| Node (c : TreeColor) (l : Tree) (e : Z) (kv : KV) (r : Tree).

Inductive Frame : Type :=
| InLeft (c : TreeColor) (e : Z) (kv : KV) (r : Tree)
| InRight (c : TreeColor) (l : Tree) (e : Z) (kv : KV).

Notation Context_ := (list Frame).

Definition idx (t : Tree) : Z := match t with Leaf => -1 | Node _ _ e _ _ => e end.
Definition color (t : Tree) : TreeColor := match t with Leaf => BLACK | Node c _ _ _ _ => c end.
Definition paint (c : TreeColor) (t : Tree) : Tree := match t with Leaf => Leaf | Node _ l e kv r => Node c l e kv r end.

Fixpoint entries (t : Tree) : list Z :=
  match t with
  | Leaf => []
  | Node _ l e _ r => entries l ++ e :: entries r
  end.

(** The number of entries on the longest path. *)
Fixpoint height (t : Tree) : nat :=
  match t with
  | Leaf => O
  | Node _ l _ _ r => S (Nat.max (height l) (height r))
  end.

Lemma height_entries (t : Tree) : (height t <= length (entries t))%nat.
Proof. induction t as [|c l IHl e kv r IHr]; simpl; [done|]. rewrite length_app. simpl. lia. Qed.

Definition fill (f : Frame) (t : Tree) : Tree :=
  match f with
  | InLeft c e kv r => Node c t e kv r
  | InRight c l e kv => Node c l e kv t
  end.

Fixpoint plug (t : Tree) (ctx : Context_) : Tree :=
  match ctx with
  | [] => t
  | f :: ctx' => plug (fill f t) ctx'
  end.

Definition frame_entries (f : Frame) : list Z :=
  match f with
  | InLeft _ e _ r => e :: entries r
  | InRight _ l e _ => e :: entries l
  end.

Definition ctx_entries (ctx : Context_) : list Z := ctx ≫= frame_entries.

Definition frame_entry (f : Frame) : Z := match f with InLeft _ e _ _ | InRight _ _ e _ => e end.
Definition frame_color (f : Frame) : TreeColor := match f with InLeft c _ _ _ | InRight c _ _ _ => c end.
Definition frame_left (f : Frame) : bool := match f with InLeft _ _ _ _ => true | InRight _ _ _ _ => false end.

(** The entry above the focus, -1 above the root. *)
Definition ctx_top (ctx : Context_) : Z := match ctx with [] => -1 | f :: _ => frame_entry f end.

(** ** Arrays as memory *)

(** The layout of an entry: the value is the key itself in a set. *)
Class Layout (ho : Derived) : Prop := {
  layout_value : ENTRY_VALUE_INDEX ho = 0 \/ ENTRY_VALUE_INDEX ho = 1;
  layout_color : ENTRY_COLOR_INDEX ho = ENTRY_VALUE_INDEX ho + 1;
  layout_parent : ENTRY_PARENT_INDEX ho = ENTRY_VALUE_INDEX ho + 2;
  layout_left : ENTRY_LEFT_CHILD_INDEX ho = ENTRY_VALUE_INDEX ho + 3;
  layout_right : ENTRY_RIGHT_CHILD_INDEX ho = ENTRY_VALUE_INDEX ho + 4;
  layout_size : ENTRY_SIZE ho = ENTRY_VALUE_INDEX ho + 5;
}.

#[export] Instance map_layout : Layout TaggedTreeMap.
Proof. split; [by right|done..]. Qed.
#[export] Instance set_layout : Layout TaggedTreeSet.
Proof. split; [by left|done..]. Qed.

(** The contents of an array: the header, and the words of the entries. *)
Record Mem : Type := mkMem {
  m_n : Z;
  m_d : Z;
  m_cap : Z;
  m_root : Z;
  m_cmp : JSTaggedValue;
  fld : Z -> Z -> JSTaggedValue;
}.

Section layout.
Context (ho : Derived) `{HL : Layout ho}.

Definition enc (m : Mem) : TaggedArray :=
  [VInt (m_n m); VInt (m_d m); VInt (m_cap m); VInt (m_root m); m_cmp m] ++
  ((fun i => fld m (i / ENTRY_SIZE ho) (i mod ENTRY_SIZE ho)) <$> seqZ 0 (m_cap m * ENTRY_SIZE ho)).

Definition upd (m : Mem) (e f : Z) (v : JSTaggedValue) : Mem :=
  mkMem (m_n m) (m_d m) (m_cap m) (m_root m) (m_cmp m)
    (fun e' f' => if (e' =? e) && (f' =? f) then v else fld m e' f').

Definition set_root (r : Z) (m : Mem) : Mem := mkMem (m_n m) (m_d m) (m_cap m) r (m_cmp m) (fld m).

(** Indices stay in 31 bits. *)
Definition fits (m : Mem) : Prop := 0 <= m_cap m /\ ELEMENTS_START_INDEX + m_cap m * ENTRY_SIZE ho < 2 ^ 31.

Lemma size_pos : 5 <= ENTRY_SIZE ho <= 6.
Proof. rewrite layout_size. destruct layout_value; lia. Qed.

Lemma tree_EntryToIndex (m : Mem) (e : Z) : fits m -> 0 <= e < m_cap m -> EntryToIndex ho e = 5 + e * ENTRY_SIZE ho.
Proof.
  unfold fits, EntryToIndex, ELEMENTS_START_INDEX. intros Hf He. pose proof size_pos.
  assert (e * ENTRY_SIZE ho < m_cap m * ENTRY_SIZE ho) by nia. assert (0 <= e * ENTRY_SIZE ho) by nia.
  assert (e <= e * ENTRY_SIZE ho) by nia. rewrite (u32_small e) by lia. unfold i32. rewrite Z.mod_small; lia.
Qed.

Lemma enc_length (m : Mem) : 0 <= m_cap m -> lenZ (enc m) = 5 + m_cap m * ENTRY_SIZE ho.
Proof. intros Hc. pose proof size_pos. unfold enc. rewrite lenZ_app. unfold lenZ. rewrite length_fmap, length_seqZ. simpl length. nia. Qed.

Lemma enc_field (m : Mem) (e f : Z) :
  fits m -> 0 <= e < m_cap m -> 0 <= f < ENTRY_SIZE ho ->
  enc m !! Z.to_nat (5 + e * ENTRY_SIZE ho + f) = Some (fld m e f).
Proof.
  intros [Hc _] He Hf. pose proof size_pos. unfold enc. rewrite lookup_app_r by (simpl; nia). simpl length.
  assert (0 <= e * ENTRY_SIZE ho + f < m_cap m * ENTRY_SIZE ho) as Hi by nia.
  rewrite list_lookup_fmap, (lookup_seqZ_lt _ _ (Z.to_nat (5 + e * ENTRY_SIZE ho + f) - 5)) by lia. cbn [fmap option_fmap option_map].
  replace (0 + Z.of_nat (Z.to_nat (5 + e * ENTRY_SIZE ho + f) - 5)) with (f + e * ENTRY_SIZE ho) by lia.
  rewrite Z.div_add, Z.mod_add, Z.div_small, Z.mod_small by lia. do 2 f_equal; lia.
Qed.

Lemma Get_field (m : Mem) (e f : Z) :
  fits m -> 0 <= e < m_cap m -> 0 <= f < ENTRY_SIZE ho ->
  Arr.Get (EntryToIndex ho e + f) (enc m) = (Ok (fld m e f), enc m).
Proof.
  intros Hm He Hf. rewrite (tree_EntryToIndex m) by done. unfold Arr.Get, read. pose proof size_pos.
  rewrite (proj2 (Z.ltb_ge _ 0)) by nia. by rewrite enc_field.
Qed.

Lemma Set_field (m : Mem) (e f : Z) (v : JSTaggedValue) :
  fits m -> 0 <= e < m_cap m -> 0 <= f < ENTRY_SIZE ho ->
  Arr.Set_ (EntryToIndex ho e + f) v (enc m) = (Ok tt, enc (upd m e f v)).
Proof.
  intros Hm He Hf. rewrite (tree_EntryToIndex m) by done. unfold Arr.Set_. pose proof size_pos. pose proof Hm as [Hc _].
  rewrite enc_length by done. rewrite (proj2 (Z.leb_le 0 _)), (proj2 (Z.ltb_lt _ _)) by nia. cbn [andb]. f_equal.
  apply list_eq. intros i. pose proof (enc_length m Hc) as Hl. unfold lenZ in Hl. pose proof (enc_length (upd m e f v) Hc) as Hl'. unfold lenZ in Hl'. cbn [upd m_cap] in Hl'.
  destruct (decide (i < length (enc m))%nat) as [Hi|Hi].
  2: { rewrite !lookup_ge_None_2; [done|lia|]. rewrite length_insert. lia. }
  destruct (decide (i = Z.to_nat (5 + e * ENTRY_SIZE ho + f))) as [->|Hne].
  - rewrite list_lookup_insert_eq by done. rewrite (enc_field (upd m e f v)) by done. cbn. by rewrite !Z.eqb_refl.
  - rewrite list_lookup_insert_ne by done. destruct (decide (i < 5)%nat) as [H5|H5].
    { unfold enc. by rewrite !lookup_app_l by (simpl; lia). }
    set (j := Z.of_nat i - 5). assert (0 <= j < m_cap m * ENTRY_SIZE ho) as Hj by (unfold j; lia).
    pose proof (Z.div_mod j (ENTRY_SIZE ho) ltac:(lia)) as Hdm. pose proof (Z.mod_pos_bound j (ENTRY_SIZE ho) ltac:(lia)).
    assert (0 <= j / ENTRY_SIZE ho < m_cap m) by (split; [apply Z.div_pos; lia|apply Z.div_lt_upper_bound; lia]).
    replace i with (Z.to_nat (5 + j / ENTRY_SIZE ho * ENTRY_SIZE ho + j mod ENTRY_SIZE ho)) by (unfold j in *; lia).
    rewrite (enc_field (upd m e f v)), (enc_field m) by (done || lia). cbn. f_equal.
    destruct (Z.eqb_spec (j / ENTRY_SIZE ho) e), (Z.eqb_spec (j mod ENTRY_SIZE ho) f); [|done..]. exfalso. apply Hne. unfold j in *. subst. lia.
Qed.
(** ** Trees in memory *)

Definition ptr (i : Z) : JSTaggedValue := if i <? 0 then VHole else VInt i.

(** The words of entry [e]. *)
Definition node (m : Mem) (e : Z) (kv : KV) (c : TreeColor) (p l r : Z) : Prop :=
  (0 <= e < m_cap m /\ IsHole kv.1 = false) /\ (fld m e 0 = kv.1 /\ fld m e (ENTRY_VALUE_INDEX ho) = kv.2) /\
  fld m e (ENTRY_COLOR_INDEX ho) = VInt (color_value c) /\ fld m e (ENTRY_PARENT_INDEX ho) = VInt p /\
  fld m e (ENTRY_LEFT_CHILD_INDEX ho) = ptr l /\ fld m e (ENTRY_RIGHT_CHILD_INDEX ho) = ptr r.

Fixpoint shape (m : Mem) (p : Z) (t : Tree) : Prop :=
  match t with
  | Leaf => True
  | Node c l e kv r => node m e kv c p (idx l) (idx r) /\ shape m e l /\ shape m e r
  end.

(** The context of a subtree whose root is entry [i]. *)
Fixpoint context (m : Mem) (i : Z) (ctx : Context_) : Prop :=
  match ctx with
  | [] => m_root m = i
  | InLeft c e kv r :: ctx' => node m e kv c (ctx_top ctx') i (idx r) /\ shape m e r /\ context m e ctx'
  | InRight c l e kv :: ctx' => node m e kv c (ctx_top ctx') (idx l) i /\ shape m e l /\ context m e ctx'
  end.

(** Entries outside of the tree have no children, except for one that is being
    removed, whose colour is still read. *)
Definition free (m : Mem) (spare : option (Z * TreeColor)) (es : list Z) : Prop :=
  (forall e, 0 <= e < m_cap m -> e ∉ es -> fst <$> spare <> Some e ->
     fld m e (ENTRY_LEFT_CHILD_INDEX ho) = VHole /\ fld m e (ENTRY_RIGHT_CHILD_INDEX ho) = VHole) /\
  (forall e c, spare = Some (e, c) -> 0 <= e < m_cap m /\ e ∉ es /\ fld m e (ENTRY_COLOR_INDEX ho) = VInt (color_value c)).

Definition zip (m : Mem) (spare : option (Z * TreeColor)) (t : Tree) (ctx : Context_) : Prop :=
  shape m (ctx_top ctx) t /\ context m (idx t) ctx /\ NoDup (entries t ++ ctx_entries ctx) /\
  free m spare (entries t ++ ctx_entries ctx).

(** The header of an array, its root apart. *)
Record Hdr : Type := mkHdr { h_n : Z; h_d : Z; h_cap : Z; h_cmp : JSTaggedValue; h_spare : option (Z * TreeColor) }.

Definition holds (h : Hdr) (a : TaggedArray) (t : Tree) (ctx : Context_) : Prop :=
  exists m, a = enc m /\ fits m /\ (m_n m = h_n h /\ m_d m = h_d h /\ m_cap m = h_cap h /\ m_cmp m = h_cmp h) /\
    zip m (h_spare h) t ctx.

Lemma entries_fill (f : Frame) (t : Tree) : entries (fill f t) ≡ₚ entries t ++ frame_entries f.
Proof. destruct f; simpl; [done|]. by rewrite <- !Permutation_middle, (Permutation_app_comm (entries l)). Qed.

#[export] Instance free_perm (m : Mem) (spare : option (Z * TreeColor)) : Proper ((≡ₚ) ==> iff) (free m spare).
Proof. intros es es' Hp. unfold free. by setoid_rewrite Hp. Qed.

(** Moving the focus. *)
Lemma zip_fill (m : Mem) (spare : option (Z * TreeColor)) (f : Frame) (t : Tree) (ctx : Context_) :
  zip m spare t (f :: ctx) <-> zip m spare (fill f t) ctx.
Proof.
  unfold zip, ctx_entries. rewrite bind_cons. fold (ctx_entries ctx).
  assert (entries t ++ frame_entries f ++ ctx_entries ctx ≡ₚ entries (fill f t) ++ ctx_entries ctx) as Hp
    by (by rewrite entries_fill, <- (assoc_L (++))).
  rewrite Hp. destruct f; simpl; tauto.
Qed.

Lemma holds_fill (h : Hdr) (a : TaggedArray) (f : Frame) (t : Tree) (ctx : Context_) :
  holds h a t (f :: ctx) <-> holds h a (fill f t) ctx.
Proof. unfold holds. by setoid_rewrite zip_fill. Qed.

Lemma go_up (h : Hdr) (a : TaggedArray) (f : Frame) (t : Tree) (ctx : Context_) : holds h a t (f :: ctx) -> holds h a (fill f t) ctx.
Proof. apply holds_fill. Qed.

Lemma go_down (h : Hdr) (a : TaggedArray) (f : Frame) (t : Tree) (ctx : Context_) : holds h a (fill f t) ctx -> holds h a t (f :: ctx).
Proof. apply holds_fill. Qed.

Lemma holds_plug (h : Hdr) (a : TaggedArray) (t : Tree) (ctx : Context_) : holds h a t ctx <-> holds h a (plug t ctx) [].
Proof. revert t. induction ctx as [|f ctx IH]; intros t; [done|]. by rewrite holds_fill, IH. Qed.
(** ** Reading and writing memory *)

Section memory.
Context (m : Mem) (Hm : fits m).

Lemma Get_header (i : Z) (v : JSTaggedValue) : enc m !! Z.to_nat i = Some v -> 0 <= i -> Arr.Get i (enc m) = (Ok v, enc m).
Proof. intros Hl Hi. unfold Arr.Get, read. rewrite (proj2 (Z.ltb_ge _ 0)) by lia. by rewrite Hl. Qed.

Lemma mem_NumberOfElements : 0 <= m_n m < 2 ^ 31 -> NumberOfElements (enc m) = (Ok (m_n m), enc m).
Proof. intros Hn. unfold NumberOfElements, get_header. mstep. by rewrite u32_small by lia. Qed.

Lemma mem_NumberOfDeletedElements : 0 <= m_d m < 2 ^ 31 -> NumberOfDeletedElements (enc m) = (Ok (m_d m), enc m).
Proof. intros Hn. unfold NumberOfDeletedElements, get_header. mstep. by rewrite u32_small by lia. Qed.

Lemma mem_Capacity : Capacity (enc m) = (Ok (m_cap m), enc m).
Proof. reflexivity. Qed.

Lemma mem_GetRootEntries : GetRootEntries (enc m) = (Ok (m_root m), enc m).
Proof. reflexivity. Qed.

Lemma mem_GetCompare : GetCompare (enc m) = (Ok (m_cmp m), enc m).
Proof. reflexivity. Qed.

Lemma mem_SetRootEntries (r : Z) : SetRootEntries r (enc m) = (Ok tt, enc (set_root r m)).
Proof. unfold SetRootEntries, Arr.Set_. rewrite enc_length by apply Hm. pose proof size_pos. destruct Hm as [Hc _]. unfold ROOT_INDEX. assert (3 < 5 + m_cap m * ENTRY_SIZE ho) by nia. by zb. Qed.

Context (e : Z) (He : 0 <= e < m_cap m).

Lemma mem_GetKey : GetKey ho e (enc m) = (Ok (fld m e 0), enc m).
Proof. unfold GetKey. zb. rewrite <- (Z.add_0_r (EntryToIndex ho e)). pose proof size_pos. apply Get_field; (done || lia). Qed.

Lemma mem_GetValue : GetValue ho e (enc m) = (Ok (fld m e (ENTRY_VALUE_INDEX ho)), enc m).
Proof. unfold GetValue. pose proof layout_size. apply Get_field; [done|done|]. destruct layout_value; lia. Qed.

Lemma mem_GetColor (c : TreeColor) : fld m e (ENTRY_COLOR_INDEX ho) = VInt (color_value c) -> GetColor ho e (enc m) = (Ok c, enc m).
Proof.
  intros Hc. unfold GetColor. zb. pose proof layout_size. pose proof layout_color.
  mstep by (apply Get_field; [done|done|]; destruct layout_value; lia). rewrite Hc. mstep. by destruct c.
Qed.

Lemma mem_GetParent (p : Z) : fld m e (ENTRY_PARENT_INDEX ho) = VInt p -> GetParent ho e (enc m) = (Ok p, enc m).
Proof.
  intros Hp. unfold GetParent. pose proof layout_size. pose proof layout_parent.
  mstep by (apply Get_field; [done|done|]; destruct layout_value; lia). by rewrite Hp.
Qed.

Lemma mem_GetLeftChild : GetLeftChild ho e (enc m) = (Ok (fld m e (ENTRY_LEFT_CHILD_INDEX ho)), enc m).
Proof. unfold GetLeftChild. zb. pose proof layout_size. pose proof layout_left. apply Get_field; [done|done|]. destruct layout_value; lia. Qed.

Lemma mem_GetRightChild : GetRightChild ho e (enc m) = (Ok (fld m e (ENTRY_RIGHT_CHILD_INDEX ho)), enc m).
Proof. unfold GetRightChild. zb. pose proof layout_size. pose proof layout_right. apply Get_field; [done|done|]. destruct layout_value; lia. Qed.

Lemma mem_SetKey (v : JSTaggedValue) : SetKey ho e v (enc m) = (Ok tt, enc (upd m e 0 v)).
Proof. unfold SetKey, SetElement. rewrite <- (Z.add_0_r (EntryToIndex ho e)). pose proof size_pos. apply Set_field; (done || lia). Qed.

Lemma mem_SetValue (v : JSTaggedValue) : SetValue ho e v (enc m) = (Ok tt, enc (upd m e (ENTRY_VALUE_INDEX ho) v)).
Proof. pose proof layout_size. apply Set_field; [done|done|]. destruct layout_value; lia. Qed.

Lemma mem_SetColor (c : TreeColor) : SetColor ho e c (enc m) = (Ok tt, enc (upd m e (ENTRY_COLOR_INDEX ho) (VInt (color_value c)))).
Proof. unfold SetColor. zb. pose proof layout_size. pose proof layout_color. apply Set_field; [done|done|]. destruct layout_value; lia. Qed.

Lemma mem_SetParent (v : JSTaggedValue) : SetParent ho e v (enc m) = (Ok tt, enc (upd m e (ENTRY_PARENT_INDEX ho) v)).
Proof. unfold SetParent. zb. pose proof layout_size. pose proof layout_parent. apply Set_field; [done|done|]. destruct layout_value; lia. Qed.

Lemma mem_SetLeftChild (v : JSTaggedValue) : SetLeftChild ho e v (enc m) = (Ok tt, enc (upd m e (ENTRY_LEFT_CHILD_INDEX ho) v)).
Proof. pose proof layout_size. pose proof layout_left. apply Set_field; [done|done|]. destruct layout_value; lia. Qed.

Lemma mem_SetRightChild (v : JSTaggedValue) : SetRightChild ho e v (enc m) = (Ok tt, enc (upd m e (ENTRY_RIGHT_CHILD_INDEX ho) v)).
Proof. pose proof layout_size. pose proof layout_right. apply Set_field; [done|done|]. destruct layout_value; lia. Qed.
End memory.

(** Memories that agree on the entries of a tree or a context. *)
Definition agree (m m' : Mem) (es : list Z) : Prop :=
  m_cap m' = m_cap m /\ forall e f, e ∈ es -> fld m' e f = fld m e f.

Lemma node_agree (m m' : Mem) (e : Z) (kv : KV) (c : TreeColor) (p l r : Z) (es : list Z) :
  agree m m' es -> e ∈ es -> node m e kv c p l r -> node m' e kv c p l r.
Proof. intros [Hc Hf] He. unfold node. by rewrite Hc, !Hf. Qed.

Lemma agree_sub (m m' : Mem) (es es' : list Z) : agree m m' es -> es' ⊆ es -> agree m m' es'.
Proof. intros [Hc Hf] Hs. split; [done|]. intros e f He. apply Hf. by apply Hs. Qed.

Lemma shape_agree (m m' : Mem) (p : Z) (t : Tree) : agree m m' (entries t) -> shape m p t -> shape m' p t.
Proof.
  revert p. induction t as [|c l IHl e kv r IHr]; intros p Ha; [done|]. simpl. intros (Hn & Hl & Hr). split_and!.
  - eapply node_agree; [done| |done]. simpl. set_solver.
  - apply IHl; [|done]. eapply agree_sub; [done|]. simpl. set_solver.
  - apply IHr; [|done]. eapply agree_sub; [done|]. simpl. set_solver.
Qed.

Lemma context_agree (m m' : Mem) (i : Z) (ctx : Context_) :
  agree m m' (ctx_entries ctx) -> m_root m' = m_root m -> context m i ctx -> context m' i ctx.
Proof.
  revert i. induction ctx as [|f ctx IH]; intros i Ha Hroot; [simpl; congruence|].
  unfold ctx_entries in Ha. rewrite bind_cons in Ha. fold (ctx_entries ctx) in Ha.
  destruct f; simpl in *; intros (Hn & Hs & Hc); (split_and!; [eapply node_agree; [done|set_solver|done]|
    eapply shape_agree; [|done]; eapply agree_sub; [done|set_solver]|apply IH; [eapply agree_sub; [done|set_solver]|done|done]]).
Qed.
(** ** Reading at the focus *)

Lemma ptr_nonneg (i : Z) : 0 <= i -> ptr i = VInt i.
Proof. intros Hi. unfold ptr. by zb. Qed.

Lemma idx_cases (m : Mem) (p : Z) (t : Tree) : shape m p t -> t = Leaf \/ 0 <= idx t < m_cap m.
Proof. destruct t as [|c l e kv r]; [by left|]. intros (((He & _) & _) & _). by right. Qed.

Lemma GetLeftChildIndex_eq (e : Z) (a : TaggedArray) (i : Z) :
  GetLeftChild ho e a = (Ok (ptr i), a) -> i = -1 \/ 0 <= i -> GetLeftChildIndex ho e a = (Ok i, a).
Proof.
  unfold GetLeftChild, GetLeftChildIndex. destruct (e <? 0) eqn:He; intros H Hi.
  - unfold ptr in H. destruct (i <? 0) eqn:E; [|done]. by replace i with (-1) by lia.
  - mstep with H. unfold ptr. destruct (i <? 0) eqn:E; [|done]. by replace i with (-1) by lia.
Qed.

Lemma GetRightChildIndex_eq (e : Z) (a : TaggedArray) (i : Z) :
  GetRightChild ho e a = (Ok (ptr i), a) -> i = -1 \/ 0 <= i -> GetRightChildIndex ho e a = (Ok i, a).
Proof.
  unfold GetRightChild, GetRightChildIndex. destruct (e <? 0) eqn:He; intros H Hi.
  - unfold ptr in H. destruct (i <? 0) eqn:E; [|done]. by replace i with (-1) by lia.
  - mstep with H. unfold ptr. destruct (i <? 0) eqn:E; [|done]. by replace i with (-1) by lia.
Qed.

Section focus.
Context (h : Hdr) (a : TaggedArray) (c : TreeColor) (l : Tree) (e : Z) (kv : KV) (r : Tree) (ctx : Context_).
Context (H : holds h a (Node c l e kv r) ctx).

Lemma focus_range : 0 <= e < h_cap h.
Proof. destruct H as (m & -> & Hm & (_ & _ & <- & _) & ((((He & _) & _) & _) & _)). done. Qed.

Lemma focus_key : IsHole kv.1 = false.
Proof. destruct H as (m & -> & Hm & _ & ((((_ & Hk) & _) & _) & _)). done. Qed.

Lemma GetKey_ok : GetKey ho e a = (Ok kv.1, a).
Proof. destruct H as (m & -> & Hm & _ & ((((He & _) & (Hk & _) & _) & _) & _)). by rewrite mem_GetKey, Hk. Qed.

Lemma GetValue_ok : GetValue ho e a = (Ok kv.2, a).
Proof. destruct H as (m & -> & Hm & _ & ((((He & _) & (_ & Hv) & _) & _) & _)). by rewrite mem_GetValue, Hv. Qed.

Lemma GetColor_node : GetColor ho e a = (Ok c, a).
Proof. destruct H as (m & -> & Hm & _ & ((((He & _) & _ & Hc & _) & _) & _)). by apply mem_GetColor. Qed.

Lemma GetParent_ok : GetParent ho e a = (Ok (ctx_top ctx), a).
Proof. destruct H as (m & -> & Hm & _ & ((((He & _) & _ & _ & Hp & _) & _) & _)). by apply mem_GetParent. Qed.

Lemma GetLeftChild_ok : GetLeftChild ho e a = (Ok (ptr (idx l)), a).
Proof. destruct H as (m & -> & Hm & _ & ((((He & _) & _ & _ & _ & Hl & _) & _) & _)). by rewrite mem_GetLeftChild, Hl. Qed.

Lemma GetRightChild_ok : GetRightChild ho e a = (Ok (ptr (idx r)), a).
Proof. destruct H as (m & -> & Hm & _ & ((((He & _) & _ & _ & _ & _ & Hr) & _) & _)). by rewrite mem_GetRightChild, Hr. Qed.

Lemma left_idx : idx l = -1 \/ 0 <= idx l.
Proof. destruct H as (m & -> & Hm & _ & ((_ & Hl & _) & _)). destruct (idx_cases m e l Hl) as [->|]; [by left|right; lia]. Qed.

Lemma right_idx : idx r = -1 \/ 0 <= idx r.
Proof. destruct H as (m & -> & Hm & _ & ((_ & _ & Hr) & _)). destruct (idx_cases m e r Hr) as [->|]; [by left|right; lia]. Qed.

Lemma GetLeftChildIndex_ok : GetLeftChildIndex ho e a = (Ok (idx l), a).
Proof. apply GetLeftChildIndex_eq; [apply GetLeftChild_ok|apply left_idx]. Qed.

Lemma GetRightChildIndex_ok : GetRightChildIndex ho e a = (Ok (idx r), a).
Proof. apply GetRightChildIndex_eq; [apply GetRightChild_ok|apply right_idx]. Qed.

(** Focus on a child. *)
Lemma down_left : holds h a l (InLeft c e kv r :: ctx).
Proof. by apply holds_fill. Qed.

Lemma down_right : holds h a r (InRight c l e kv :: ctx).
Proof. by apply holds_fill. Qed.
End focus.

Section any_focus.
Context (h : Hdr) (a : TaggedArray) (t : Tree) (ctx : Context_) (H : holds h a t ctx).

Lemma GetColor_ok : GetColor ho (idx t) a = (Ok (color t), a).
Proof. destruct t as [|c l e kv r]; [done|]. by eapply GetColor_node. Qed.

Lemma GetRootEntries_ok : GetRootEntries a = (Ok (idx (plug t ctx)), a).
Proof. apply holds_plug in H as (m & -> & Hm & _ & (_ & Hr & _)). simpl in Hr. by rewrite mem_GetRootEntries, Hr. Qed.

Lemma Capacity_ok : Capacity a = (Ok (h_cap h), a).
Proof. destruct H as (m & -> & _ & (_ & _ & <- & _) & _). done. Qed.

Lemma GetCompare_ok : GetCompare a = (Ok (h_cmp h), a).
Proof. destruct H as (m & -> & _ & (_ & _ & _ & <-) & _). done. Qed.

Lemma NumberOfElements_ok : 0 <= h_n h < 2 ^ 31 -> NumberOfElements a = (Ok (h_n h), a).
Proof. destruct H as (m & -> & _ & (<- & _) & _). apply mem_NumberOfElements. Qed.

Lemma NumberOfDeletedElements_ok : 0 <= h_d h < 2 ^ 31 -> NumberOfDeletedElements a = (Ok (h_d h), a).
Proof. destruct H as (m & -> & _ & (_ & <- & _) & _). apply mem_NumberOfDeletedElements. Qed.

Lemma holds_nodup : NoDup (entries t ++ ctx_entries ctx).
Proof. by destruct H as (m & _ & _ & _ & (_ & _ & Hd & _)). Qed.

Lemma up (f : Frame) (ctx' : Context_) : ctx = f :: ctx' -> holds h a (fill f t) ctx'.
Proof. intros ->. by apply holds_fill. Qed.
End any_focus.

(** Which child the focus is. *)
Section child.
Context (h : Hdr) (a : TaggedArray) (c : TreeColor) (l : Tree) (e : Z) (kv : KV) (r : Tree).

Lemma IsLeft_ok (f : Frame) (ctx : Context_) :
  holds h a (Node c l e kv r) (f :: ctx) -> IsLeft ho e a = (Ok (frame_left f), a).
Proof.
  intros H. pose proof (focus_range _ _ _ _ _ _ _ _ H). unfold IsLeft. mstep with (GetParent_ok _ _ _ _ _ _ _ _ H).
  pose proof (holds_nodup _ _ _ _ H) as Hd. apply holds_fill in H. destruct f as [c' e' kv' r'|c' l' e' kv']; cbn [ctx_top frame_entry].
  - mstep with (GetLeftChild_ok _ _ _ _ _ _ _ _ H). rewrite ptr_nonneg by (simpl; lia). cbn [IsHole idx]. mstep. by rewrite Z.eqb_refl.
  - mstep with (GetLeftChild_ok _ _ _ _ _ _ _ _ H). pose proof (left_idx _ _ _ _ _ _ _ _ H) as Hi. unfold ptr. destruct (idx l' <? 0) eqn:E; [done|].
    cbn [IsHole].     mstep. destruct l' as [|? ? e2 ? ?]; [done|]. simpl in *. rewrite (proj2 (Z.eqb_neq _ _)); [done|]. intros ->.
    apply list.NoDup_app in Hd as (_ & Hd & _). apply (Hd e); [set_solver|]. unfold ctx_entries. simpl. set_solver.
Qed.

Lemma IsRight_ok (f : Frame) (ctx : Context_) :
  holds h a (Node c l e kv r) (f :: ctx) -> IsRight ho e a = (Ok (negb (frame_left f)), a).
Proof.
  intros H. pose proof (focus_range _ _ _ _ _ _ _ _ H). unfold IsRight. mstep with (GetParent_ok _ _ _ _ _ _ _ _ H).
  pose proof (holds_nodup _ _ _ _ H) as Hd. apply holds_fill in H. destruct f as [c' e' kv' r'|c' l' e' kv']; cbn [ctx_top frame_entry].
  - mstep with (GetRightChild_ok _ _ _ _ _ _ _ _ H). pose proof (right_idx _ _ _ _ _ _ _ _ H) as Hi. unfold ptr. destruct (idx r' <? 0) eqn:E; [done|].
    cbn [IsHole].     mstep. destruct r' as [|? ? e2 ? ?]; [done|]. simpl in *. rewrite (proj2 (Z.eqb_neq _ _)); [done|]. intros ->.
    apply list.NoDup_app in Hd as (_ & Hd & _). apply (Hd e); [set_solver|]. unfold ctx_entries. simpl. set_solver.
  - mstep with (GetRightChild_ok _ _ _ _ _ _ _ _ H). rewrite ptr_nonneg by (simpl; lia). cbn [IsHole idx]. mstep. by rewrite Z.eqb_refl.
Qed.

Lemma IsLeft_root : holds h a (Node c l e kv r) [] -> IsLeft ho e a = (Ok false, a).
Proof. intros H. unfold IsLeft. by mstep with (GetParent_ok _ _ _ _ _ _ _ _ H). Qed.

Lemma GetLeftBrother_ok (c' : TreeColor) (e' : Z) (kv' : KV) (b : Tree) (ctx : Context_) :
  holds h a (Node c l e kv r) (InLeft c' e' kv' b :: ctx) -> GetLeftBrother ho e a = (Ok (idx b), a).
Proof.
  intros H. unfold GetLeftBrother. mstep with (GetParent_ok _ _ _ _ _ _ _ _ H). apply holds_fill in H. cbn [ctx_top frame_entry].
  mstep with (GetRightChild_ok _ _ _ _ _ _ _ _ H). destruct (right_idx _ _ _ _ _ _ _ _ H) as [->|Hi]; [done|]. by rewrite ptr_nonneg.
Qed.

Lemma GetRightBrother_ok (c' : TreeColor) (e' : Z) (kv' : KV) (b : Tree) (ctx : Context_) :
  holds h a (Node c l e kv r) (InRight c' b e' kv' :: ctx) -> GetRightBrother ho e a = (Ok (idx b), a).
Proof.
  intros H. unfold GetRightBrother. mstep with (GetParent_ok _ _ _ _ _ _ _ _ H). apply holds_fill in H. cbn [ctx_top frame_entry].
  mstep with (GetLeftChild_ok _ _ _ _ _ _ _ _ H). destruct (left_idx _ _ _ _ _ _ _ _ H) as [->|Hi]; [done|]. by rewrite ptr_nonneg.
Qed.
End child.
(** ** Writing at the focus *)

Lemma upd_fld (m : Mem) (e f e' f' : Z) (v : JSTaggedValue) :
  fld (upd m e f v) e' f' = if (e' =? e) && (f' =? f) then v else fld m e' f'.
Proof. done. Qed.

Lemma agree_upd (m : Mem) (e f : Z) (v : JSTaggedValue) (es : list Z) : e ∉ es -> agree m (upd m e f v) es.
Proof. intros He. split; [done|]. intros e' f' He'. rewrite upd_fld, (proj2 (Z.eqb_neq _ _)); [done|]. by intros ->. Qed.

Lemma agree_trans (m m' m'' : Mem) (es : list Z) : agree m m' es -> agree m' m'' es -> agree m m'' es.
Proof. intros [H1 H2] [H3 H4]. split; [congruence|]. intros e f He. by rewrite H4, H2. Qed.

Lemma free_upd (m : Mem) (spare : option (Z * TreeColor)) (es : list Z) (e f : Z) (v : JSTaggedValue) :
  e ∈ es -> free m spare es -> free (upd m e f v) spare es.
Proof.
  intros He [H1 H2]. split.
  - intros e' He' Hn Hs. assert ((e' =? e) = false) as E by (apply Z.eqb_neq; by intros ->). rewrite !upd_fld, E. by apply H1.
  - intros e' c Hs. destruct (H2 e' c Hs) as (? & Hn & Hc). split; [done|]. split; [done|].
    rewrite upd_fld, (proj2 (Z.eqb_neq e' e)); [done|by intros ->].
Qed.

(** Point the parent of the focus, or the root, to entry [i]. *)
Definition link (m : Mem) (ctx : Context_) (i : Z) : Mem :=
  match ctx with
  | [] => set_root i m
  | InLeft _ p _ _ :: _ => upd m p (ENTRY_LEFT_CHILD_INDEX ho) (ptr i)
  | InRight _ _ p _ :: _ => upd m p (ENTRY_RIGHT_CHILD_INDEX ho) (ptr i)
  end.

Lemma agree_link (m : Mem) (ctx : Context_) (i : Z) (es : list Z) :
  (forall e, e ∈ ctx_entries ctx -> e ∉ es) -> agree m (link m ctx i) es.
Proof.
  intros Hd. destruct ctx as [|[] ctx]; [done|apply agree_upd..]; apply Hd; unfold ctx_entries; simpl; set_solver.
Qed.

Lemma fits_link (m : Mem) (ctx : Context_) (i : Z) : fits m -> fits (link m ctx i).
Proof. destruct ctx as [|[] ctx]; exact (fun H => H). Qed.

Lemma cap_link (m : Mem) (ctx : Context_) (i : Z) :
  m_n (link m ctx i) = m_n m /\ m_d (link m ctx i) = m_d m /\ m_cap (link m ctx i) = m_cap m /\ m_cmp (link m ctx i) = m_cmp m.
Proof. by destruct ctx as [|[] ctx]. Qed.

Lemma free_link (m : Mem) (spare : option (Z * TreeColor)) (es : list Z) (ctx : Context_) (i : Z) :
  (forall e, e ∈ ctx_entries ctx -> e ∈ es) -> free m spare es -> free (link m ctx i) spare es.
Proof.
  intros Hd. destruct ctx as [|[] ctx]; [done|apply free_upd..]; apply Hd; unfold ctx_entries; simpl; set_solver.
Qed.

Ltac layout_facts :=
  pose proof (layout_value (ho := ho)); pose proof (layout_color (ho := ho)); pose proof (layout_parent (ho := ho));
  pose proof (layout_left (ho := ho)); pose proof (layout_right (ho := ho)); pose proof (layout_size (ho := ho)).

(** Compute a word of an updated memory. *)
Ltac fields := rewrite ?upd_fld; repeat (rewrite Z.eqb_refl || zb); try done; try lia.

Lemma context_link (m : Mem) (i i' : Z) (ctx : Context_) :
  NoDup (ctx_entries ctx) -> context m i ctx -> context (link m ctx i') i' ctx.
Proof.
  unfold ctx_entries. layout_facts. destruct ctx as [|f ctx]; [done|]. rewrite bind_cons. fold (ctx_entries ctx).
  destruct f as [c p kv r|c l p kv]; simpl; intros [Hp Hnd]%list.NoDup_cons (((Hr & Hk) & (Hk1 & Hk2) & Hcc & Hpp & Hl & Hrr) & Hs & Hc).
  - split_and!.
    + unfold node. cbn [upd m_cap]. split_and!; try done; fields.
    + eapply shape_agree; [apply agree_upd; set_solver|done].
    + eapply context_agree; [apply agree_upd; set_solver|done|done].
  - split_and!.
    + unfold node. cbn [upd m_cap]. split_and!; try done; fields.
    + eapply shape_agree; [apply agree_upd; set_solver|done].
    + eapply context_agree; [apply agree_upd; set_solver|done|done].
Qed.

(** A subtree under another parent. *)
Definition reparent (m : Mem) (i p : Z) : Mem := if i <? 0 then m else upd m i (ENTRY_PARENT_INDEX ho) (VInt p).

Lemma shape_reparent (m : Mem) (p p' : Z) (t : Tree) : NoDup (entries t) -> shape m p t -> shape (reparent m (idx t) p') p' t.
Proof.
  layout_facts. destruct t as [|c l e kv r]; [done|]. simpl. intros Hd (((He & Hk) & (Hk1 & Hk2) & Hcc & Hpp & Hl & Hrr) & Hsl & Hsr).
  apply list.NoDup_app in Hd as (_ & Hd & [Hr _]%list.NoDup_cons). unfold reparent. zb. split_and!.
  - unfold node. cbn [upd m_cap]. split_and!; try done; fields.
  - eapply shape_agree; [apply agree_upd|done]. intros Hin. apply (Hd e Hin). set_solver.
  - eapply shape_agree; [by apply agree_upd|done].
Qed.

Lemma idx_in (t : Tree) (m : Mem) (p : Z) : shape m p t -> 0 <= idx t -> idx t ∈ entries t.
Proof. destruct t; simpl; [lia|]. set_solver. Qed.

Lemma agree_reparent (m : Mem) (i p : Z) (es : list Z) : (0 <= i -> i ∉ es) -> agree m (reparent m i p) es.
Proof. unfold reparent. destruct (i <? 0) eqn:E; [done|]. intros Hi. apply agree_upd, Hi. lia. Qed.

Lemma free_reparent (m : Mem) (spare : option (Z * TreeColor)) (es : list Z) (i p : Z) :
  (0 <= i -> i ∈ es) -> free m spare es -> free (reparent m i p) spare es.
Proof. unfold reparent. destruct (i <? 0) eqn:E; [done|]. intros Hi. apply free_upd, Hi. lia. Qed.

Lemma fits_reparent (m : Mem) (i p : Z) : fits m -> fits (reparent m i p).
Proof. unfold reparent. by destruct (i <? 0). Qed.
(** The disjointness facts of a tree in its context. *)
Ltac nodup H := rewrite ?list.NoDup_app, ?list.NoDup_cons in H; destruct_and? H.

Lemma SetColor_ok (h : Hdr) (a : TaggedArray) (t : Tree) (ctx : Context_) (c : TreeColor) :
  holds h a t ctx -> exists a', SetColor ho (idx t) c a = (Ok tt, a') /\ holds h a' (paint c t) ctx.
Proof.
  layout_facts. intros H6. destruct t as [|c0 l e kv r]; [by exists a|]. destruct H6 as (m & -> & Hm & Hh & (Hs & Hc & Hd & Hf)).
  simpl in Hs. destruct Hs as (((He & Hk) & (Hk1 & Hk2) & Hcc & Hpp & Hl & Hrr) & Hsl & Hsr).
  eexists. split; [by apply mem_SetColor|]. eexists. split; [done|]. split; [done|]. split; [done|].
  assert (e ∉ entries l /\ e ∉ entries r /\ e ∉ ctx_entries ctx) as (? & ? & ?).
  { simpl in Hd. nodup Hd. set_solver. }
  split; [|split; [|split]].
  - simpl. split_and!; [|eapply shape_agree; [by apply agree_upd|done]..].
    unfold node. cbn [upd m_cap]. split_and!; fields.
  - eapply context_agree; [by apply agree_upd|done|done].
  - done.
  - apply free_upd; [simpl; set_solver|done].
Qed.

(** The new parent of a rotated pair. *)
Lemma link_run (m : Mem) (e i : Z) (ctx : Context_) :
  fits m -> context m e ctx -> 0 <= i -> 0 <= e -> e ∉ ctx_entries ctx ->
  (if ctx_top ctx <? 0 then SetRootEntries i
   else
     left ← GetLeftChild ho (ctx_top ctx);
     is_left ← (if IsHole left then mret false else l ← GetInt left; mret (l =? e));
     if (is_left : bool) then SetLeftChild ho (ctx_top ctx) (VInt i)
     else SetRightChild ho (ctx_top ctx) (VInt i)) (enc m) = (Ok tt, enc (link m ctx i)) /\
  (if ctx_top ctx <? 0 then SetRootEntries i
   else
     right ← GetRightChild ho (ctx_top ctx);
     is_right ← (if IsHole right then mret false else r ← GetInt right; mret (r =? e));
     if (is_right : bool) then SetRightChild ho (ctx_top ctx) (VInt i)
     else SetLeftChild ho (ctx_top ctx) (VInt i)) (enc m) = (Ok tt, enc (link m ctx i)).
Proof.
  intros Hm Hc Hi He Hn. destruct ctx as [|[c' p kv' r'|c' l' p kv'] ctx]; cbn [ctx_top frame_entry link] in *.
  - split; by apply mem_SetRootEntries.
  - destruct Hc as (((Hp & _) & _ & _ & _ & Hl & Hr) & Hs & _). zb. split.
    + mstep by (by apply mem_GetLeftChild). rewrite Hl, ptr_nonneg by done. cbn [IsHole]. mstep. rewrite Z.eqb_refl. rewrite <- (ptr_nonneg i) by done. by apply mem_SetLeftChild.
    + mstep by (by apply mem_GetRightChild). rewrite Hr. rewrite (ptr_nonneg i) by done.
      assert ((if IsHole (ptr (idx r')) then mret false else r0 ← GetInt (ptr (idx r')); mret (r0 =? e)) (enc m) = (Ok false, enc m)) as E.
      { destruct (idx_cases _ _ _ Hs) as [->|Hx]; [done|]. rewrite ptr_nonneg by lia. cbn [IsHole]. mstep. rewrite (proj2 (Z.eqb_neq _ _)); [done|]. intros Heq. apply Hn.
        unfold ctx_entries. simpl. pose proof (idx_in _ _ _ Hs ltac:(lia)). set_solver. }
      mstep with E. by apply mem_SetLeftChild.
  - destruct Hc as (((Hp & _) & _ & _ & _ & Hl & Hr) & Hs & _). zb. split.
    + mstep by (by apply mem_GetLeftChild). rewrite Hl. rewrite (ptr_nonneg i) by done.
      assert ((if IsHole (ptr (idx l')) then mret false else r0 ← GetInt (ptr (idx l')); mret (r0 =? e)) (enc m) = (Ok false, enc m)) as E.
      { destruct (idx_cases _ _ _ Hs) as [->|Hx]; [done|]. rewrite ptr_nonneg by lia. cbn [IsHole]. mstep. rewrite (proj2 (Z.eqb_neq _ _)); [done|]. intros Heq. apply Hn.
        unfold ctx_entries. simpl. pose proof (idx_in _ _ _ Hs ltac:(lia)). set_solver. }
      mstep with E. by apply mem_SetRightChild.
    + mstep by (by apply mem_GetRightChild). rewrite Hr, ptr_nonneg by done. cbn [IsHole]. mstep. rewrite Z.eqb_refl. rewrite <- (ptr_nonneg i) by done. by apply mem_SetRightChild.
Qed.

Lemma reparent_run (m : Mem) (i p : Z) :
  fits m -> i = -1 \/ 0 <= i < m_cap m ->
  (if negb (IsHole (ptr i)) then l ← GetInt (ptr i); SetParent ho l (VInt p) else mret tt) (enc m) = (Ok tt, enc (reparent m i p)).
Proof.
  intros Hm [->|Hi]; [done|]. rewrite ptr_nonneg by lia. cbn [IsHole negb]. mstep. unfold reparent. zb. by apply mem_SetParent.
Qed.
(** ** Rotations *)

(** The memory after entry [e] was rotated below its child [e'], which it keeps
    in word [fx] and which gets it in word [fy]; [i] is the entry of the subtree
    between them. *)
Definition rotated (m : Mem) (e e' i fx fy : Z) (ctx : Context_) : Mem :=
  upd (upd (link (upd (reparent (upd m e fx (ptr i)) i e) e' (ENTRY_PARENT_INDEX ho) (VInt (ctx_top ctx))) ctx e')
         e' fy (VInt e)) e (ENTRY_PARENT_INDEX ho) (VInt e').

Section rotated.
Context (m : Mem) (e e' fx fy : Z) (b : Tree) (ctx : Context_).
Context (Hne : e <> e') (He : e ∉ entries b) (He' : e' ∉ entries b).
Context (Hctx : forall x, x ∈ e :: e' :: entries b -> x ∉ ctx_entries ctx).
Let M := rotated m e e' (idx b) fx fy ctx.

Lemma rotated_header : fits m -> fits M /\ m_n M = m_n m /\ m_d M = m_d m /\ m_cap M = m_cap m /\ m_cmp M = m_cmp m.
Proof.
  intros Hm. assert (forall m', (m_n (reparent m' (idx b) e), m_d (reparent m' (idx b) e), m_cap (reparent m' (idx b) e), m_cmp (reparent m' (idx b) e))
    = (m_n m', m_d m', m_cap m', m_cmp m')) as Hr by (intros m'; unfold reparent; by destruct (idx b <? 0)).
  specialize (Hr (upd m e fx (ptr (idx b)))). injection Hr as H1 H2 H3 H4.
  destruct (cap_link (upd (reparent (upd m e fx (ptr (idx b))) (idx b) e) e' (ENTRY_PARENT_INDEX ho) (VInt (ctx_top ctx))) ctx e') as (G1 & G2 & G3 & G4).
  unfold M, rotated. cbn [upd m_n m_d m_cap m_cmp] in *. unfold fits in *. cbn [upd m_cap]. rewrite G1, G2, G3, G4, H1, H2, H3, H4. done.
Qed.

Lemma rotated_agree (es : list Z) :
  (forall x, x ∈ es -> x <> e /\ x <> e' /\ x ∉ entries b /\ x ∉ ctx_entries ctx) -> idx b = -1 \/ idx b ∈ entries b -> agree m M es.
Proof.
  intros Hd Hb. unfold M, rotated.
  eapply agree_trans; [|apply agree_upd; intros Hx; by apply Hd in Hx as (? & _)].
  eapply agree_trans; [|apply agree_upd; intros Hx; by apply Hd in Hx as (_ & ? & _)].
  eapply agree_trans; [|apply agree_link; intros x Hx Hin; by apply Hd in Hin as (_ & _ & _ & ?)].
  eapply agree_trans; [|apply agree_upd; intros Hx; by apply Hd in Hx as (_ & ? & _)].
  eapply agree_trans; [|apply agree_reparent; intros Hi Hx; apply Hd in Hx as (_ & _ & ? & _); by destruct Hb; [lia|]].
  apply agree_upd. intros Hx. by apply Hd in Hx as (? & _).
Qed.

Lemma rotated_free (spare : option (Z * TreeColor)) (es : list Z) :
  e ∈ es -> e' ∈ es -> entries b ⊆ es -> ctx_entries ctx ⊆ es -> idx b = -1 \/ idx b ∈ entries b ->
  free m spare es -> free M spare es.
Proof.
  intros H1 H2 H3 H4 Hb Hf. unfold M, rotated. do 2 (apply free_upd; [done|]). apply free_link; [done|]. apply free_upd; [done|].
  apply free_reparent; [intros Hi; destruct Hb; [lia|by apply H3]|]. by apply free_upd.
Qed.

Lemma link_fld (m' : Mem) (i x f : Z) : x ∉ ctx_entries ctx -> fld (link m' ctx i) x f = fld m' x f.
Proof.
  intros Hx. destruct (agree_link m' ctx i [x]) as [_ Ha]; [set_solver|]. apply Ha. set_solver.
Qed.

Lemma reparent_fld (m' : Mem) (x f p : Z) : idx b = -1 \/ idx b <> x -> fld (reparent m' (idx b) p) x f = fld m' x f.
Proof. unfold reparent. intros Hx. destruct (idx b <? 0) eqn:E; [done|]. rewrite upd_fld. by zb. Qed.

Context (Hb : idx b = -1 \/ idx b ∈ entries b).

Lemma rotated_e (f : Z) : fx <> ENTRY_PARENT_INDEX ho ->
  fld M e f = if f =? ENTRY_PARENT_INDEX ho then VInt e' else if f =? fx then ptr (idx b) else fld m e f.
Proof.
  intros Hx. unfold M, rotated. rewrite !upd_fld, Z.eqb_refl. cbn [andb]. destruct (f =? ENTRY_PARENT_INDEX ho); [done|].
  rewrite (proj2 (Z.eqb_neq e e')) by done. cbn [andb]. rewrite link_fld by (apply Hctx; set_solver).
  rewrite upd_fld, (proj2 (Z.eqb_neq e e')) by done. cbn [andb]. rewrite reparent_fld by set_solver. by rewrite upd_fld, Z.eqb_refl.
Qed.

Lemma rotated_e' (f : Z) : fy <> ENTRY_PARENT_INDEX ho ->
  fld M e' f = if f =? fy then VInt e else if f =? ENTRY_PARENT_INDEX ho then VInt (ctx_top ctx) else fld m e' f.
Proof.
  intros Hy. unfold M, rotated. rewrite !upd_fld. rewrite (proj2 (Z.eqb_neq e' e)) by done. rewrite Z.eqb_refl. cbn [andb].
  destruct (f =? fy); [done|]. rewrite link_fld by (apply Hctx; set_solver). rewrite upd_fld, Z.eqb_refl. cbn [andb].
  destruct (f =? ENTRY_PARENT_INDEX ho); [done|]. rewrite reparent_fld by set_solver. rewrite upd_fld. by rewrite (proj2 (Z.eqb_neq e' e)) by done.
Qed.

Lemma rotated_b (p : Z) : NoDup (entries b) -> shape m p b -> shape M e b.
Proof.
  intros Hd Hs. unfold M, rotated. assert (forall x, x ∈ entries b -> x ∉ ctx_entries ctx) by (intros x Hx; apply Hctx; set_solver).
  eapply shape_agree; [by apply agree_upd|]. eapply shape_agree; [by apply agree_upd|].
  eapply shape_agree; [apply agree_link; set_solver|]. eapply shape_agree; [by apply agree_upd|].
  eapply shape_reparent; [done|]. eapply shape_agree; [by apply agree_upd|done].
Qed.

Lemma rotated_context : NoDup (ctx_entries ctx) -> context m e ctx -> context M e' ctx.
Proof.
  intros Hd Hc. unfold M, rotated. assert (e ∉ ctx_entries ctx /\ e' ∉ ctx_entries ctx /\ (0 <= idx b -> idx b ∉ ctx_entries ctx)) as (? & ? & Hi).
  { split_and!; [apply Hctx; set_solver..|]. intros Hi. destruct Hb; [lia|]. apply Hctx. set_solver. }
  eapply context_agree; [by apply agree_upd|done|]. eapply context_agree; [by apply agree_upd|done|].
  eapply context_link; [done|]. eapply context_agree; [by apply agree_upd|done|].
  eapply context_agree; [by apply agree_reparent|by unfold reparent; destruct (idx b <? 0)|]. eapply context_agree; [by apply agree_upd|done|done].
Qed.
End rotated.
Lemma idx_entries (m : Mem) (p : Z) (t : Tree) : shape m p t -> idx t = -1 \/ idx t ∈ entries t.
Proof. destruct t; [by left|]. intros _. right. simpl. set_solver. Qed.

Lemma pair_disjoint (xs bs ys cs : list Z) (e e' : Z) :
  NoDup ((xs ++ e :: bs ++ e' :: ys) ++ cs) ->
  (e <> e' /\ e ∉ bs /\ e' ∉ bs /\ NoDup bs /\ NoDup cs) /\ (forall z, z ∈ e :: e' :: bs -> z ∉ cs) /\
  (forall z, z ∈ xs -> z <> e /\ z <> e' /\ z ∉ bs /\ z ∉ cs) /\ (forall z, z ∈ ys -> z <> e /\ z <> e' /\ z ∉ bs /\ z ∉ cs).
Proof.
  rewrite !list.NoDup_app, !list.NoDup_cons, !list.NoDup_app, !list.NoDup_cons. setoid_rewrite elem_of_app. setoid_rewrite elem_of_cons. setoid_rewrite elem_of_app. setoid_rewrite elem_of_cons.
  intros Hd.
  split_and!; [naive_solver..| | |]; intros z; naive_solver.
Qed.

(** The run of a rotation up to the new link, for both directions. *)
Lemma rotate_prefix (m : Mem) (e e' fx : Z) (b : Tree) (ctx : Context_) :
  fits m -> 0 <= e < m_cap m -> idx b = -1 \/ idx b ∈ entries b -> e ∉ entries b -> (forall z, z ∈ e :: e' :: entries b -> z ∉ ctx_entries ctx) ->
  fx <> ENTRY_PARENT_INDEX ho -> fld m e (ENTRY_PARENT_INDEX ho) = VInt (ctx_top ctx) -> context m e ctx ->
  let m2 := reparent (upd m e fx (ptr (idx b))) (idx b) e in
  let m3 := upd m2 e' (ENTRY_PARENT_INDEX ho) (VInt (ctx_top ctx)) in
  (fits m2 /\ m_cap m2 = m_cap m /\ fld m2 e (ENTRY_PARENT_INDEX ho) = VInt (ctx_top ctx)) /\
  fits m3 /\ context m3 e ctx /\ fits (link m3 ctx e') /\ m_cap (link m3 ctx e') = m_cap m.
Proof.
  intros Hm He Hib Heb Hctx Hfx Hp Hc m2 m3. assert (fits m2) as Hf2 by (by apply fits_reparent).
  assert (m_cap m2 = m_cap m) as Hc2 by (unfold m2, reparent; by destruct (idx b <? 0)).
  destruct (cap_link m3 ctx e') as (_ & _ & Hc4 & _). split_and!; try done.
  - unfold m2. rewrite (reparent_fld b) by (destruct Hib as [Hib|Hib]; [by left|right; congruence]). rewrite upd_fld, (proj2 (Z.eqb_neq (ENTRY_PARENT_INDEX ho) fx)) by congruence. by rewrite andb_false_r.
  - eapply context_agree; [apply agree_upd, Hctx; set_solver|done|]. eapply context_agree; [apply agree_reparent; intros Hi; apply Hctx; destruct Hib; [lia|set_solver]|unfold m2, reparent; by destruct (idx b <? 0)|].
    eapply context_agree; [apply agree_upd, Hctx; set_solver|done|done].
  - by apply fits_link.
  - by rewrite Hc4.
Qed.

Lemma rotate_entries (c c' : TreeColor) (x b y : Tree) (e e' : Z) (kv kv' : KV) :
  entries (Node c' (Node c x e kv b) e' kv' y) = entries (Node c x e kv (Node c' b e' kv' y)).
Proof. simpl. by rewrite <- (assoc_L (++)). Qed.

Lemma LeftRotate_ok (h : Hdr) (a : TaggedArray) (c : TreeColor) (x : Tree) (e : Z) (kv : KV) (c' : TreeColor) (b : Tree) (e' : Z) (kv' : KV) (y : Tree) (ctx : Context_) :
  holds h a (Node c x e kv (Node c' b e' kv' y)) ctx ->
  exists a', LeftRotate ho e a = (Ok tt, a') /\ holds h a' (Node c' (Node c x e kv b) e' kv' y) ctx.
Proof.
  layout_facts. intros (m & -> & Hm & (Hh1 & Hh2 & Hh3 & Hh4) & (Hs & Hc & Hd & Hf)). simpl in Hs, Hc, Hd.
  destruct Hs as (((He & Hk) & (Hk1 & Hk2) & Hcc & Hpp & Hl & Hr) & Hsx & ((He' & Hk') & (Hk1' & Hk2') & Hcc' & Hpp' & Hl' & Hr') & Hsb & Hsy).
  destruct (pair_disjoint _ _ _ _ _ _ Hd) as ((Hne & Heb & He'b & Hdb & Hdc) & Hctx & Hx & Hy). pose proof (idx_entries _ _ _ Hsb) as Hib.
  set (M := rotated m e e' (idx b) (ENTRY_RIGHT_CHILD_INDEX ho) (ENTRY_LEFT_CHILD_INDEX ho) ctx).
  destruct (rotated_header m e e' (ENTRY_RIGHT_CHILD_INDEX ho) (ENTRY_LEFT_CHILD_INDEX ho) b ctx Hm) as (Hfm & Hn & Hdd & Hcap & Hcmp).
  exists (enc M). split.
  - destruct (rotate_prefix m e e' (ENTRY_RIGHT_CHILD_INDEX ho) b ctx) as ((Hf2 & Hc2 & Hp2) & Hf3 & Hc3 & Hf4 & Hc4); [done..|lia|done|done|].
    unfold LeftRotate. zb. mstep by (by apply mem_GetRightChild). rewrite Hr, ptr_nonneg by (simpl; lia). mstep. mstep by (by apply mem_GetLeftChild). rewrite Hl'.
    mstep by (by apply mem_SetRightChild). mstep by (apply reparent_run; [done|]; destruct (idx_cases _ _ _ Hsb) as [->|]; [by left|by right]).
    mstep by (apply mem_GetParent; [done|by rewrite Hc2|exact Hp2]). mstep by (apply mem_SetParent; [done|simpl; by rewrite Hc2]).
    rewrite (bind_Ok _ _ _ _ _ (proj1 (link_run _ e e' ctx Hf3 Hc3 ltac:(lia) ltac:(lia) ltac:(apply Hctx; set_solver)))).
    mstep by (apply mem_SetLeftChild; [done|by rewrite Hc4]). apply mem_SetParent; [done|]. cbn [upd m_cap]. by rewrite Hc4.
  - exists M. split; [done|]. split; [done|]. split; [by rewrite <- Hh1, <- Hh2, <- Hh3, <- Hh4|]. split; [|split; [|split]].
    + pose proof (rotated_e m e e' (ENTRY_RIGHT_CHILD_INDEX ho) (ENTRY_LEFT_CHILD_INDEX ho) b ctx Hne Heb He'b Hctx Hib) as E1.
      pose proof (rotated_e' m e e' (ENTRY_RIGHT_CHILD_INDEX ho) (ENTRY_LEFT_CHILD_INDEX ho) b ctx Hne Heb He'b Hctx Hib) as E2.
      fold M in E1, E2. assert (agree m M (entries x)) by (by apply rotated_agree). assert (agree m M (entries y)) by (by apply rotated_agree).
      assert (shape M e b) by (by eapply (rotated_b m e e')). simpl. unfold node. rewrite !E1, !E2 by lia. rewrite (Hcap : m_cap M = m_cap m), (ptr_nonneg e) by lia. split_and!; fields; by eapply shape_agree.
    + simpl. by apply rotated_context.
    + by rewrite rotate_entries.
    + rewrite rotate_entries. apply rotated_free; [simpl; set_solver..|done|done].
Qed.
Lemma RightRotate_ok (h : Hdr) (a : TaggedArray) (c : TreeColor) (x : Tree) (e : Z) (kv : KV) (c' : TreeColor) (b : Tree) (e' : Z) (kv' : KV) (y : Tree) (ctx : Context_) :
  holds h a (Node c (Node c' y e' kv' b) e kv x) ctx ->
  exists a', RightRotate ho e a = (Ok tt, a') /\ holds h a' (Node c' y e' kv' (Node c b e kv x)) ctx.
Proof.
  layout_facts. intros (m & -> & Hm & (Hh1 & Hh2 & Hh3 & Hh4) & (Hs & Hc & Hd & Hf)). rewrite rotate_entries in Hd, Hf. simpl in Hs, Hc, Hd.
  destruct Hs as (((He & Hk) & (Hk1 & Hk2) & Hcc & Hpp & Hl & Hr) & (((He' & Hk') & (Hk1' & Hk2') & Hcc' & Hpp' & Hl' & Hr') & Hsy & Hsb) & Hsx).
  destruct (pair_disjoint _ _ _ _ _ _ Hd) as ((Hne0 & He'b & Heb & Hdb & Hdc) & Hctx0 & Hy0 & Hx0). pose proof (idx_entries _ _ _ Hsb) as Hib.
  assert (e <> e') as Hne by congruence. assert (forall z, z ∈ e :: e' :: entries b -> z ∉ ctx_entries ctx) as Hctx by (intros z Hz; apply Hctx0; rewrite !elem_of_cons in *; tauto).
  assert (forall z, z ∈ entries x -> z <> e /\ z <> e' /\ z ∉ entries b /\ z ∉ ctx_entries ctx) as Hx by (intros z Hz; by destruct (Hx0 z Hz) as (? & ? & ? & ?)).
  assert (forall z, z ∈ entries y -> z <> e /\ z <> e' /\ z ∉ entries b /\ z ∉ ctx_entries ctx) as Hy by (intros z Hz; by destruct (Hy0 z Hz) as (? & ? & ? & ?)).
  set (M := rotated m e e' (idx b) (ENTRY_LEFT_CHILD_INDEX ho) (ENTRY_RIGHT_CHILD_INDEX ho) ctx).
  destruct (rotated_header m e e' (ENTRY_LEFT_CHILD_INDEX ho) (ENTRY_RIGHT_CHILD_INDEX ho) b ctx Hm) as (Hfm & Hn & Hdd & Hcap & Hcmp).
  exists (enc M). split.
  - destruct (rotate_prefix m e e' (ENTRY_LEFT_CHILD_INDEX ho) b ctx) as ((Hf2 & Hc2 & Hp2) & Hf3 & Hc3 & Hf4 & Hc4); [done..|lia|done|done|].
    unfold RightRotate. zb. mstep by (by apply mem_GetLeftChild). rewrite Hl, ptr_nonneg by (simpl; lia). mstep. mstep by (by apply mem_GetRightChild). rewrite Hr'.
    mstep by (by apply mem_SetLeftChild). mstep by (apply reparent_run; [done|]; destruct (idx_cases _ _ _ Hsb) as [->|]; [by left|by right]).
    mstep by (apply mem_GetParent; [done|by rewrite Hc2|exact Hp2]). mstep by (apply mem_SetParent; [done|simpl; by rewrite Hc2]).
    rewrite (bind_Ok _ _ _ _ _ (proj2 (link_run _ e e' ctx Hf3 Hc3 ltac:(lia) ltac:(lia) ltac:(apply Hctx; set_solver)))).
    mstep by (apply mem_SetRightChild; [done|by rewrite Hc4]). apply mem_SetParent; [done|]. cbn [upd m_cap]. by rewrite Hc4.
  - exists M. split; [done|]. split; [done|]. split; [by rewrite <- Hh1, <- Hh2, <- Hh3, <- Hh4|]. split; [|split; [|split]].
    + pose proof (rotated_e m e e' (ENTRY_LEFT_CHILD_INDEX ho) (ENTRY_RIGHT_CHILD_INDEX ho) b ctx Hne Heb He'b Hctx Hib) as E1.
      pose proof (rotated_e' m e e' (ENTRY_LEFT_CHILD_INDEX ho) (ENTRY_RIGHT_CHILD_INDEX ho) b ctx Hne Heb He'b Hctx Hib) as E2.
      fold M in E1, E2. assert (agree m M (entries x)) by (by apply rotated_agree). assert (agree m M (entries y)) by (by apply rotated_agree).
      assert (shape M e b) by (by eapply (rotated_b m e e')). simpl. unfold node. rewrite !E1, !E2 by lia. rewrite (Hcap : m_cap M = m_cap m), (ptr_nonneg e) by lia. split_and!; fields; by eapply shape_agree.
    + simpl. by apply rotated_context.
    + done.
    + apply rotated_free; [simpl; set_solver..|done|done].
Qed.
End layout.
End TreeShape.
