(* ===== verification/TreeBalance.v ===== *)
(** * TreeBalance: the rebalancing loops of TaggedTree.

    InsertRebalance and DeleteRebalance walk up from an entry.  They are shown
    to compute functions on a subtree and its context, [ins_fix] and [del_ctx],
    for any tree that an array holds; these functions keep the order of the
    entries and restore the red-black invariant. *)
From stdpp Require Import sets.
From S2P Require Import Prelude TaggedValue TaggedArray TaggedTree TreeShape.
Local Open Scope Z_scope.

Module TreeBalance.
Import TaggedTree TreeShape.

(** ** What InsertRebalance computes *)

Definition paint_frame (c : TreeColor) (f : Frame) : Frame :=
  match f with
  | InLeft _ e kv r => InLeft c e kv r
  | InRight _ l e kv => InRight c l e kv
  end.

Definition sibling (f : Frame) : Tree := match f with InLeft _ _ _ t | InRight _ t _ _ => t end.

(** The grandparent in the case of a red uncle. *)
Definition recolored (f1 f2 : Frame) (t : Tree) : Tree :=
  match f2 with
  | InLeft _ e2 kv2 u => Node RED (fill (paint_frame BLACK f1) t) e2 kv2 (paint BLACK u)
  | InRight _ u e2 kv2 => Node RED (paint BLACK u) e2 kv2 (fill (paint_frame BLACK f1) t)
  end.

(** The subtree in place of the grandparent in the case of a black uncle. *)
Definition restructured (f1 f2 : Frame) (t : Tree) : Tree :=
  match f2, f1, t with
  | InLeft _ e2 kv2 u, InLeft _ e1 kv1 s, _ => Node BLACK t e1 kv1 (Node RED s e2 kv2 u)
  | InLeft _ e2 kv2 u, InRight c1 s e1 kv1, Node _ l e kv r => Node BLACK (Node c1 s e1 kv1 l) e kv (Node RED r e2 kv2 u)
  | InRight _ u e2 kv2, InRight _ s e1 kv1, _ => Node BLACK (Node RED u e2 kv2 s) e1 kv1 t
  | InRight _ u e2 kv2, InLeft c1 e1 kv1 s, Node _ l e kv r => Node BLACK (Node RED u e2 kv2 l) e kv (Node c1 r e1 kv1 s)
  | _, _, Leaf => fill f2 (fill f1 t)
  end.

Fixpoint ins_fix (t : Tree) (ctx : Context_) : Tree :=
  match ctx with
  | f1 :: f2 :: ctx' =>
      match frame_color f1, color (sibling f2) with
      | BLACK, _ => plug t ctx
      | RED, RED => ins_fix (recolored f1 f2 t) ctx'
      | RED, BLACK => plug (restructured f1 f2 t) ctx'
      end
  | _ => plug t ctx
  end.

(** The root is black. *)
Fixpoint black_root (ctx : Context_) : Prop :=
  match ctx with
  | [] => True
  | [f] => frame_color f = BLACK
  | _ :: ctx' => black_root ctx'
  end.

(** ** What DeleteRebalance computes *)

(** GetColor is black for the children of [b]. *)
Definition black_kids (b : Tree) : bool :=
  match b with
  | Leaf => true
  | Node _ l _ _ r => bool_decide (color l = BLACK) && bool_decide (color r = BLACK)
  end.

(** A round with a black brother [b]: either the focus moves up to the parent
    ([inl]: the frame and the context above it), or the loop is done ([inr]: the
    new context). *)
Definition black_brother_left (c1 : TreeColor) (e1 : Z) (kv1 : KV) (b : Tree) (ctx : Context_) : Frame * Context_ + Context_ :=
  if black_kids b then inl (InLeft c1 e1 kv1 (paint RED b), ctx)
  else
    match b with
    | Node _ bl eb kvb br =>
        match color br, bl with
        | BLACK, Node _ bll ebl kvbl blr => inr (InLeft BLACK e1 kv1 bll :: InLeft c1 ebl kvbl (Node BLACK blr eb kvb br) :: ctx)
        | _, _ => inr (InLeft BLACK e1 kv1 bl :: InLeft c1 eb kvb (paint BLACK br) :: ctx)
        end
    | Leaf => inr []
    end.

Definition black_brother_right (c1 : TreeColor) (b : Tree) (e1 : Z) (kv1 : KV) (ctx : Context_) : Frame * Context_ + Context_ :=
  if black_kids b then inl (InRight c1 (paint RED b) e1 kv1, ctx)
  else
    match b with
    | Node _ bl eb kvb br =>
        match color bl, br with
        | BLACK, Node _ brl ebr kvbr brr => inr (InRight BLACK brr e1 kv1 :: InRight c1 (Node BLACK bl eb kvb brl) ebr kvbr :: ctx)
        | _, _ => inr (InRight BLACK br e1 kv1 :: InRight c1 (paint BLACK bl) eb kvb :: ctx)
        end
    | Leaf => inr []
    end.

Definition del_round (f : Frame) (ctx : Context_) : Frame * Context_ + Context_ :=
  match f with
  | InLeft _ e1 kv1 (Node RED bl eb kvb br) => black_brother_left RED e1 kv1 bl (InLeft BLACK eb kvb br :: ctx)
  | InLeft c1 e1 kv1 b => black_brother_left c1 e1 kv1 b ctx
  | InRight _ (Node RED bl eb kvb br) e1 kv1 => black_brother_right RED br e1 kv1 (InRight BLACK bl eb kvb :: ctx)
  | InRight c1 b e1 kv1 => black_brother_right c1 b e1 kv1 ctx
  end.

Fixpoint del_ctx (ctx : Context_) : Context_ :=
  match ctx with
  | [] => []
  | f :: ctx' =>
      match del_round f ctx' with
      | inr ctx'' => ctx''
      | inl (f', ctx'') => paint_frame BLACK f' :: match frame_color f' with RED => ctx'' | BLACK => del_ctx ctx' end
      end
  end.

Section run.
Context (ho : Derived) `{HL : Layout ho}.
Notation holds := (holds ho).

Lemma fill_paint (c : TreeColor) (f : Frame) (t : Tree) : paint c (fill f t) = fill (paint_frame c f) t.
Proof. by destruct f. Qed.

Lemma GetParent_focus (h : Hdr) (a : TaggedArray) (t : Tree) (ctx : Context_) :
  holds h a t ctx -> t <> Leaf -> GetParent ho (idx t) a = (Ok (ctx_top ctx), a).
Proof. destruct t; [done|]. intros H _. by eapply GetParent_ok. Qed.

Lemma GetGrandParent_ok (h : Hdr) (a : TaggedArray) (t : Tree) (f : Frame) (ctx : Context_) :
  holds h a t (f :: ctx) -> t <> Leaf -> GetGrandParent ho (idx t) a = (Ok (ctx_top ctx), a).
Proof.
  intros H Ht. unfold GetGrandParent. mstep with (GetParent_focus _ _ _ _ H Ht). apply holds_fill in H.
  replace (ctx_top (f :: ctx)) with (idx (fill f t)) by (by destruct f). apply (GetParent_focus h); [done|by destruct f].
Qed.

Lemma plug_idx (t : Tree) (f : Frame) (ctx : Context_) : idx (plug t (f :: ctx)) ∈ ctx_entries (f :: ctx).
Proof.
  revert t f. induction ctx as [|f' ctx IH]; intros t f.
  - destruct f; simpl; set_solver.
  - change (plug t (f :: f' :: ctx)) with (plug (fill f t) (f' :: ctx)). unfold ctx_entries. rewrite bind_cons. fold (ctx_entries (f' :: ctx)).
    specialize (IH (fill f t) f'). set_solver.
Qed.

Lemma root_below (h : Hdr) (a : TaggedArray) (t : Tree) (f : Frame) (ctx : Context_) :
  holds h a t (f :: ctx) -> t <> Leaf -> idx t <> idx (plug t (f :: ctx)).
Proof.
  intros H Ht E. pose proof (holds_nodup _ _ _ _ _ H) as Hd. apply list.NoDup_app in Hd as (_ & Hd & _).
  apply (Hd (idx t)); [destruct t; [done|]; simpl; set_solver|]. rewrite E. apply plug_idx.
Qed.

Lemma context_length (h : Hdr) (a : TaggedArray) (t : Tree) (ctx : Context_) :
  holds h a t ctx -> Z.of_nat (length (entries t)) + Z.of_nat (length ctx) <= h_cap h.
Proof.
  intros (m & -> & Hm & (_ & _ & <- & _) & (Hs & Hc & Hd & _)).
  assert (forall x, x ∈ entries t ++ ctx_entries ctx -> 0 <= x < m_cap m) as Hr.
  { assert (forall p t x, shape ho m p t -> x ∈ entries t -> 0 <= x < m_cap m) as Ht.
    { clear. intros p t. revert p. induction t as [|c l IHl e kv r IHr]; intros p x; simpl; [set_solver|].
      intros (((He & _) & _) & Hl & Hr). rewrite elem_of_app, elem_of_cons. intros [Hx|[->|Hx]]; [by eapply IHl|done|by eapply IHr]. }
    intros x. rewrite elem_of_app. intros [Hx|Hx]; [by eapply Ht|]. clear Hd Hs. revert Hx Hc. generalize (idx t). induction ctx as [|f ctx IH]; intros i; [set_solver|].
    unfold ctx_entries. rewrite bind_cons. fold (ctx_entries ctx). rewrite elem_of_app.
    destruct f as [c e kv r|c l e kv]; simpl; intros Hx (((He & _) & _) & Hs & Hc); (destruct Hx as [[->|Hx]%elem_of_cons|Hx]; [done|by eapply Ht|by eapply IH]). }
  assert (length (entries t ++ ctx_entries ctx) <= length (seqZ 0 (m_cap m)))%nat as Hl.
  { apply submseteq_length, NoDup_submseteq; [done|]. intros x Hx. apply elem_of_seqZ. specialize (Hr x Hx). lia. }
  rewrite length_app, length_seqZ in Hl. destruct Hm as [Hm _].
  assert (length ctx <= length (ctx_entries ctx))%nat.
  { clear. unfold ctx_entries. induction ctx as [|f ctx IH]; [done|]. rewrite bind_cons, length_app. destruct f; simpl in *; lia. }
  lia.
Qed.
(** ** InsertRebalance *)

Ltac upw H := apply go_up in H; cbn [fill] in H.

Section insert.
Context (h : Hdr).

Lemma recolor_ok (a : TaggedArray) (t : Tree) (f1 f2 : Frame) (ctx : Context_) :
  holds h a t (f1 :: f2 :: ctx) -> t <> Leaf ->
  exists a', recolor ho (idx t) (idx (sibling f2)) a = (Ok (frame_entry f2), a') /\ holds h a' (recolored f1 f2 t) ctx.
Proof.
  intros H Ht. unfold recolor. mstep with (GetParent_focus _ _ _ _ H Ht). apply go_up in H.
  replace (ctx_top _) with (idx (fill f1 t)) by (by destruct f1).
  destruct (SetColor_ok ho _ _ _ _ BLACK H) as (a1 & R1 & H1). mstep with R1. rewrite fill_paint in H1. set (p := fill (paint_frame BLACK f1) t) in *.
  assert (exists a2, SetColor ho (idx (sibling f2)) BLACK a1 = (Ok tt, a2) /\
    holds h a2 p (match f2 with InLeft c e kv u => InLeft c e kv (paint BLACK u) | InRight c u e kv => InRight c (paint BLACK u) e kv end :: ctx)) as (a2 & R2 & H2).
  { destruct f2 as [c2 e2 kv2 u|c2 u e2 kv2]; cbn [sibling]; upw H1.
    - apply down_right in H1. destruct (SetColor_ok ho _ _ _ _ BLACK H1) as (a2 & R2 & H2). exists a2. split; [done|]. upw H2. by apply down_left in H2.
    - apply down_left in H1. destruct (SetColor_ok ho _ _ _ _ BLACK H1) as (a2 & R2 & H2). exists a2. split; [done|]. upw H2. by apply down_right in H2. }
  mstep with R2. set (f2' := match f2 with InLeft _ _ _ _ => _ | _ => _ end) in *. assert (frame_entry f2' = frame_entry f2) as Ef by (by destruct f2).
  assert (holds h a2 t (paint_frame BLACK f1 :: f2' :: ctx)) as H2' by (by apply go_down).
  mstep with (GetGrandParent_ok _ _ _ _ _ H2' Ht). apply go_up in H2.
  replace (ctx_top (f2' :: ctx)) with (idx (fill f2' p)) by (by destruct f2).
  destruct (SetColor_ok ho _ _ _ _ RED H2) as (a3 & R3 & H3). mstep with R3. exists a3. rewrite fill_paint in H3. split; [|by destruct f2].
  apply go_down, (go_down _ _ _ (paint_frame BLACK f1)) in H3. rewrite (GetGrandParent_ok _ _ _ _ _ H3 Ht). by destruct f2.
Qed.

(** The end of a round with a black uncle: colours, then a rotation. *)
Lemma finish_left (a : TaggedArray) (t : Tree) (c1 : TreeColor) (e1 : Z) (kv1 : KV) (s : Tree) (c2 : TreeColor) (e2 : Z) (kv2 : KV) (u : Tree) (ctx : Context_) :
  holds h a t (InLeft c1 e1 kv1 s :: InLeft c2 e2 kv2 u :: ctx) -> t <> Leaf ->
  exists a', (parent ← GetParent ho (idx t); SetColor ho parent BLACK;; grandparent ← GetGrandParent ho (idx t); SetColor ho grandparent RED;;
     grandparent ← GetGrandParent ho (idx t); RightRotate ho grandparent;; mret (idx t)) a = (Ok (idx t), a') /\
    holds h a' (Node BLACK t e1 kv1 (Node RED s e2 kv2 u)) ctx.
Proof.
  intros H Ht. mstep with (GetParent_focus _ _ _ _ H Ht). upw H. destruct (SetColor_ok ho _ _ _ _ BLACK H) as (a1 & R1 & H1). cbn [ctx_top frame_entry]. mstep with R1.
  assert (holds h a1 t (InLeft BLACK e1 kv1 s :: InLeft c2 e2 kv2 u :: ctx)) as G1 by (by apply go_down). mstep with (GetGrandParent_ok _ _ _ _ _ G1 Ht).
  upw H1. destruct (SetColor_ok ho _ _ _ _ RED H1) as (a2 & R2 & H2). cbn [ctx_top frame_entry]. mstep with R2.
  assert (holds h a2 t (InLeft BLACK e1 kv1 s :: InLeft RED e2 kv2 u :: ctx)) as G2 by (by do 2 apply go_down). mstep with (GetGrandParent_ok _ _ _ _ _ G2 Ht).
  destruct (RightRotate_ok ho _ _ _ _ _ _ _ _ _ _ _ _ H2) as (a3 & R3 & H3). cbn [ctx_top frame_entry]. mstep with R3. by exists a3.
Qed.

Lemma finish_right (a : TaggedArray) (t : Tree) (c1 : TreeColor) (e1 : Z) (kv1 : KV) (s : Tree) (c2 : TreeColor) (e2 : Z) (kv2 : KV) (u : Tree) (ctx : Context_) :
  holds h a t (InRight c1 s e1 kv1 :: InRight c2 u e2 kv2 :: ctx) -> t <> Leaf ->
  exists a', (parent ← GetParent ho (idx t); SetColor ho parent BLACK;; grandparent ← GetGrandParent ho (idx t); SetColor ho grandparent RED;;
     grandparent ← GetGrandParent ho (idx t); LeftRotate ho grandparent;; mret (idx t)) a = (Ok (idx t), a') /\
    holds h a' (Node BLACK (Node RED u e2 kv2 s) e1 kv1 t) ctx.
Proof.
  intros H Ht. mstep with (GetParent_focus _ _ _ _ H Ht). upw H. destruct (SetColor_ok ho _ _ _ _ BLACK H) as (a1 & R1 & H1). cbn [ctx_top frame_entry]. mstep with R1.
  assert (holds h a1 t (InRight BLACK s e1 kv1 :: InRight c2 u e2 kv2 :: ctx)) as G1 by (by apply go_down). mstep with (GetGrandParent_ok _ _ _ _ _ G1 Ht).
  upw H1. destruct (SetColor_ok ho _ _ _ _ RED H1) as (a2 & R2 & H2). cbn [ctx_top frame_entry]. mstep with R2.
  assert (holds h a2 t (InRight BLACK s e1 kv1 :: InRight RED u e2 kv2 :: ctx)) as G2 by (by do 2 apply go_down). mstep with (GetGrandParent_ok _ _ _ _ _ G2 Ht).
  destruct (LeftRotate_ok ho _ _ _ _ _ _ _ _ _ _ _ _ H2) as (a3 & R3 & H3). cbn [ctx_top frame_entry]. mstep with R3. by exists a3.
Qed.

(** An inner grandchild is turned to the outside first. *)
Lemma turn_left (a : TaggedArray) (ct : TreeColor) (l : Tree) (e : Z) (kv : KV) (r : Tree) (c1 : TreeColor) (s : Tree) (e1 : Z) (kv1 : KV) (ctx : Context_) :
  holds h a (Node ct l e kv r) (InRight c1 s e1 kv1 :: ctx) ->
  exists a', (parent ← GetParent ho e; LeftRotate ho parent;; mret parent) a = (Ok e1, a') /\ holds h a' (Node c1 s e1 kv1 l) (InLeft ct e kv r :: ctx).
Proof.
  intros H. mstep with (GetParent_ok _ _ _ _ _ _ _ _ _ H). upw H. destruct (LeftRotate_ok ho _ _ _ _ _ _ _ _ _ _ _ _ H) as (a' & R & H').
  cbn [ctx_top frame_entry]. mstep with R. exists a'. split; [done|]. by apply go_down.
Qed.

Lemma turn_right (a : TaggedArray) (ct : TreeColor) (l : Tree) (e : Z) (kv : KV) (r : Tree) (c1 : TreeColor) (s : Tree) (e1 : Z) (kv1 : KV) (ctx : Context_) :
  holds h a (Node ct l e kv r) (InLeft c1 e1 kv1 s :: ctx) ->
  exists a', (parent ← GetParent ho e; RightRotate ho parent;; mret parent) a = (Ok e1, a') /\ holds h a' (Node c1 r e1 kv1 s) (InRight ct l e kv :: ctx).
Proof.
  intros H. mstep with (GetParent_ok _ _ _ _ _ _ _ _ _ H). upw H. destruct (RightRotate_ok ho _ _ _ _ _ _ _ _ _ _ _ _ H) as (a' & R & H').
  cbn [ctx_top frame_entry]. mstep with R. exists a'. split; [done|]. by apply go_down.
Qed.

(** One round of the loop; the rotations leave the focus inside [restructured]. *)
Lemma insert_round (a : TaggedArray) (t : Tree) (f1 f2 : Frame) (ctx : Context_) :
  holds h a t (f1 :: f2 :: ctx) -> t <> Leaf -> frame_color f1 = RED ->
  exists a', match color (sibling f2) with
    | RED => insert_rebalance_step ho (idx t) a = (Ok (inl (frame_entry f2)), a') /\ holds h a' (recolored f1 f2 t) ctx
    | BLACK => exists t' f, insert_rebalance_step ho (idx t) a = (Ok (inl (idx t')), a') /\ holds h a' t' (f :: ctx) /\
        t' <> Leaf /\ fill f t' = restructured f1 f2 t /\ frame_color f = BLACK
    end.
Proof.
  intros H Ht Hred. unfold insert_rebalance_step, IsValidIndex.
  assert ((root ← GetRootEntries; if idx t =? root then mret false else key ← GetKey ho (idx t); mret (negb (IsHole key))) a = (Ok true, a)) as Hv.
  { mstep with (GetRootEntries_ok _ _ _ _ _ H). rewrite (proj2 (Z.eqb_neq _ _)) by (by eapply root_below). destruct t as [|ct l e kv r]; [done|]. cbn [idx].
    mstep with (GetKey_ok _ _ _ _ _ _ _ _ _ H). by rewrite (focus_key _ _ _ _ _ _ _ _ _ H). }
  mstep with Hv. pose proof H as H1. apply go_up in H1.
  assert ((parent ← GetParent ho (idx t); c ← GetColor ho parent; mret (bool_decide (c = RED))) a = (Ok true, a)) as Hc.
  { mstep with (GetParent_focus _ _ _ _ H Ht). replace (ctx_top _) with (idx (fill f1 t)) by (by destruct f1). mstep with (GetColor_ok ho _ _ _ _ H1). destruct f1; cbn in Hred; by subst. }
  mstep with Hc. cbn [negb]. mstep with (GetParent_focus _ _ _ _ H Ht).
  assert (exists c0 l0 kv0 r0, fill f1 t = Node c0 l0 (frame_entry f1) kv0 r0) as (c0 & l0 & kv0 & r0 & Ef) by (destruct f1; eauto).
  rewrite Ef in H1. cbn [ctx_top]. mstep with (IsLeft_ok _ _ _ _ _ _ _ _ _ _ H1).
  destruct f2 as [c2 e2 kv2 u|c2 u e2 kv2]; cbn [frame_left sibling].
  - rewrite <- bind_assoc. mstep with (GetLeftBrother_ok _ _ _ _ _ _ _ _ _ _ _ _ _ H1).
    upw H1. apply down_right in H1. rewrite <- bind_assoc. mstep with (GetColor_ok ho _ _ _ _ H1). destruct (color u) eqn:Eu.
    2: { destruct (recolor_ok _ _ _ _ _ H Ht) as (a' & R & H'). exists a'. by mstep with R. }
    destruct t as [|ct l e kv r]; [done|]. cbn [idx]. rewrite <- bind_assoc. mstep with (IsRight_ok _ _ _ _ _ _ _ _ _ _ H).
    destruct f1 as [c1 e1 kv1 s|c1 s e1 kv1]; cbn [frame_left negb]; rewrite <- bind_assoc.
    + mstep. destruct (finish_left _ _ _ _ _ _ _ _ _ _ _ H Ht) as (a' & R & H'). exists a', (Node ct l e kv r), (InLeft BLACK e1 kv1 (Node RED s e2 kv2 u)).
      cbn [idx] in R. mstep with R. split_and!; try done. by apply go_down.
    + destruct (turn_left _ _ _ _ _ _ _ _ _ _ _ H) as (a1 & R1 & G). mstep with R1.
      destruct (finish_left _ _ _ _ _ _ _ _ _ _ _ G ltac:(done)) as (a' & R & H'). exists a', (Node c1 s e1 kv1 l), (InLeft BLACK e kv (Node RED r e2 kv2 u)).
      cbn [idx] in R. mstep with R. split_and!; try done. by apply go_down.
  - rewrite <- bind_assoc. mstep with (GetRightBrother_ok _ _ _ _ _ _ _ _ _ _ _ _ _ H1).
    upw H1. apply down_left in H1. rewrite <- bind_assoc. mstep with (GetColor_ok ho _ _ _ _ H1). destruct (color u) eqn:Eu.
    2: { destruct (recolor_ok _ _ _ _ _ H Ht) as (a' & R & H'). exists a'. by mstep with R. }
    destruct t as [|ct l e kv r]; [done|]. cbn [idx]. rewrite <- bind_assoc. mstep with (IsLeft_ok _ _ _ _ _ _ _ _ _ _ H).
    destruct f1 as [c1 e1 kv1 s|c1 s e1 kv1]; cbn [frame_left negb]; rewrite <- bind_assoc.
    + destruct (turn_right _ _ _ _ _ _ _ _ _ _ _ H) as (a1 & R1 & G). mstep with R1.
      destruct (finish_right _ _ _ _ _ _ _ _ _ _ _ G ltac:(done)) as (a' & R & H'). exists a', (Node c1 r e1 kv1 s), (InRight BLACK (Node RED u e2 kv2 l) e kv).
      cbn [idx] in R. mstep with R. split_and!; try done. by apply go_down.
    + mstep. destruct (finish_right _ _ _ _ _ _ _ _ _ _ _ H Ht) as (a' & R & H'). exists a', (Node ct l e kv r), (InRight BLACK (Node RED u e2 kv2 s) e1 kv1).
      cbn [idx] in R. mstep with R. split_and!; try done. by apply go_down.
Qed.

(** The loop ends at the root and below a black parent. *)
Lemma insert_stop (a : TaggedArray) (t : Tree) (ctx : Context_) :
  holds h a t ctx -> t <> Leaf -> (forall f ctx', ctx = f :: ctx' -> frame_color f = BLACK) ->
  insert_rebalance_step ho (idx t) a = (Ok (inr tt), a).
Proof.
  intros H Ht Hb. unfold insert_rebalance_step, IsValidIndex. rewrite <- bind_assoc. mstep with (GetRootEntries_ok _ _ _ _ _ H).
  destruct ctx as [|f ctx]; cbn [plug].
  - rewrite Z.eqb_refl. by mstep.
  - rewrite (proj2 (Z.eqb_neq _ _)) by (by eapply (root_below h)). destruct t as [|ct l e kv r]; [done|]. cbn [idx]. rewrite <- bind_assoc.
    mstep with (GetKey_ok _ _ _ _ _ _ _ _ _ H). rewrite (focus_key _ _ _ _ _ _ _ _ _ H). mstep. cbn [negb].
    rewrite <- bind_assoc. mstep with (GetParent_ok _ _ _ _ _ _ _ _ _ H). pose proof H as H1. apply go_up in H1.
    replace (ctx_top _) with (idx (fill f (Node ct l e kv r))) by (by destruct f). rewrite <- bind_assoc. mstep with (GetColor_ok ho _ _ _ _ H1).
    specialize (Hb f ctx eq_refl). replace (color _) with BLACK by (by destruct f). by mstep.
Qed.

Lemma insert_loop (fuel : nat) (a : TaggedArray) (t : Tree) (ctx : Context_) :
  holds h a t ctx -> t <> Leaf -> black_root ctx -> (length ctx < fuel)%nat ->
  exists a', while_fuel fuel (insert_rebalance_step ho) (idx t) a = (Ok tt, a') /\ holds h a' (ins_fix t ctx) [].
Proof.
  revert fuel a t. induction ctx as [ctx IH] using (induction_ltof1 _ length). unfold ltof in IH. intros fuel a t H Ht Hr Hf.
  destruct fuel as [|fuel]; [lia|]. cbn [while_fuel].
  destruct ctx as [|f1 ctx]; [|destruct (frame_color f1) eqn:E1; [|destruct ctx as [|f2 ctx]]].
  - mstep with (insert_stop _ _ _ H Ht ltac:(done)). by exists a.
  - mstep with (insert_stop _ _ _ H Ht ltac:(naive_solver)). exists a. split; [done|]. replace (ins_fix t (f1 :: ctx)) with (plug t (f1 :: ctx)); [by apply (proj1 (holds_plug ho _ _ _ (f1 :: ctx)))|].
    destruct ctx as [|f2 ctx]; [done|]. cbn [ins_fix]. by rewrite E1.
  - simpl in Hr. congruence.
  - destruct (insert_round _ _ _ _ _ H Ht E1) as (a1 & G). cbn [ins_fix]. rewrite E1. destruct (color (sibling f2)).
    + destruct G as (t' & f & R & H' & Ht' & Ef & Ec). mstep with R. destruct fuel as [|fuel]; [simpl in Hf; lia|]. cbn [while_fuel].
      mstep with (insert_stop _ _ _ H' Ht' ltac:(naive_solver)). exists a1. split; [done|]. apply go_up in H'. rewrite Ef in H'. by apply (proj1 (holds_plug ho _ _ _ ctx)).
    + destruct G as (R & H'). mstep with R. replace (frame_entry f2) with (idx (recolored f1 f2 t)) by (by destruct f2).
      apply IH; [simpl; lia|done|by destruct f2| |simpl in *; lia]. destruct ctx; [done|exact Hr].
Qed.

Lemma InsertRebalance_ok (a : TaggedArray) (t : Tree) (ctx : Context_) :
  holds h a t ctx -> t <> Leaf -> black_root ctx ->
  exists a', InsertRebalance ho (idx t) a = (Ok tt, a') /\ holds h a' (paint BLACK (ins_fix t ctx)) [].
Proof.
  intros H Ht Hr. unfold InsertRebalance, walk. pose proof (context_length _ _ _ _ H). rewrite <- bind_assoc. mstep with (Capacity_ok _ _ _ _ _ H).
  destruct (insert_loop (Datatypes.S (Z.to_nat (h_cap h))) a t ctx H Ht Hr ltac:(lia)) as (a1 & R & H1). mstep with R.
  mstep with (GetRootEntries_ok _ _ _ _ _ H1). cbn [plug]. exact (SetColor_ok ho _ _ _ _ BLACK H1).
Qed.
End insert.
(** ** DeleteRebalance *)

Section delete.
Context (h : Hdr).

Lemma black_children_ok (a : TaggedArray) (b : Tree) (ctx : Context_) :
  holds h a b ctx -> black_children ho (idx b) a = (Ok (black_kids b), a).
Proof.
  intros H. destruct b as [|cb bl eb kvb br]; [done|]. unfold black_children. cbn [idx].
  mstep with (GetLeftChildIndex_ok _ _ _ _ _ _ _ _ _ H). mstep with (GetColor_ok ho _ _ _ _ (down_left _ _ _ _ _ _ _ _ _ H)).
  mstep with (GetRightChildIndex_ok _ _ _ _ _ _ _ _ _ H). mstep with (GetColor_ok ho _ _ _ _ (down_right _ _ _ _ _ _ _ _ _ H)). done.
Qed.

Lemma bro_left (a : TaggedArray) (t : Tree) (c1 : TreeColor) (e1 : Z) (kv1 : KV) (b : Tree) (ctx : Context_) :
  holds h a t (InLeft c1 e1 kv1 b :: ctx) -> t <> Leaf -> GetLeftBrother ho (idx t) a = (Ok (idx b), a).
Proof. destruct t; [done|]. intros H _. by eapply GetLeftBrother_ok. Qed.

Lemma bro_right (a : TaggedArray) (t : Tree) (c1 : TreeColor) (e1 : Z) (kv1 : KV) (b : Tree) (ctx : Context_) :
  holds h a t (InRight c1 b e1 kv1 :: ctx) -> t <> Leaf -> GetRightBrother ho (idx t) a = (Ok (idx b), a).
Proof. destruct t; [done|]. intros H _. by eapply GetRightBrother_ok. Qed.

(** The brother has a red child on the far side. *)
Lemma delete_left_third (a : TaggedArray) (t : Tree) (c1 : TreeColor) (e1 : Z) (kv1 : KV) (cb : TreeColor) (bl : Tree) (eb : Z) (kvb : KV) (br : Tree) (ctx : Context_) :
  holds h a t (InLeft c1 e1 kv1 (Node cb bl eb kvb br) :: ctx) -> t <> Leaf ->
  exists a', (parent ← GetParent ho (idx t); color ← GetColor ho parent; SetColor ho eb color;; SetColor ho parent BLACK;;
      right ← GetRightChildIndex ho eb; SetColor ho right BLACK;; LeftRotate ho parent;; GetRootEntries) a
    = (Ok (idx (plug t (InLeft BLACK e1 kv1 bl :: InLeft c1 eb kvb (paint BLACK br) :: ctx))), a') /\
    holds h a' t (InLeft BLACK e1 kv1 bl :: InLeft c1 eb kvb (paint BLACK br) :: ctx).
Proof.
  intros H Ht. mstep with (GetParent_focus _ _ _ _ H Ht). upw H. cbn [ctx_top frame_entry]. mstep with (GetColor_node _ _ _ _ _ _ _ _ _ H).
  apply down_right in H. destruct (SetColor_ok ho _ _ _ _ c1 H) as (a1 & R1 & H1). cbn [idx] in R1. mstep with R1. upw H1.
  destruct (SetColor_ok ho _ _ _ _ BLACK H1) as (a2 & R2 & H2). cbn [idx] in R2. mstep with R2. cbn [paint] in H2. apply down_right in H2.
  mstep with (GetRightChildIndex_ok _ _ _ _ _ _ _ _ _ H2). apply down_right in H2. destruct (SetColor_ok ho _ _ _ _ BLACK H2) as (a3 & R3 & H3). mstep with R3. upw H3. upw H3.
  destruct (LeftRotate_ok ho _ _ _ _ _ _ _ _ _ _ _ _ H3) as (a4 & R4 & H4). mstep with R4. exists a4. apply down_left, down_left in H4. split; [|done]. by eapply GetRootEntries_ok.
Qed.

Lemma delete_right_third (a : TaggedArray) (t : Tree) (c1 : TreeColor) (e1 : Z) (kv1 : KV) (cb : TreeColor) (bl : Tree) (eb : Z) (kvb : KV) (br : Tree) (ctx : Context_) :
  holds h a t (InRight c1 (Node cb bl eb kvb br) e1 kv1 :: ctx) -> t <> Leaf ->
  exists a', (parent ← GetParent ho (idx t); color ← GetColor ho parent; SetColor ho eb color;; SetColor ho parent BLACK;;
      left ← GetLeftChildIndex ho eb; SetColor ho left BLACK;; RightRotate ho parent;; GetRootEntries) a
    = (Ok (idx (plug t (InRight BLACK br e1 kv1 :: InRight c1 (paint BLACK bl) eb kvb :: ctx))), a') /\
    holds h a' t (InRight BLACK br e1 kv1 :: InRight c1 (paint BLACK bl) eb kvb :: ctx).
Proof.
  intros H Ht. mstep with (GetParent_focus _ _ _ _ H Ht). upw H. cbn [ctx_top frame_entry]. mstep with (GetColor_node _ _ _ _ _ _ _ _ _ H).
  apply down_left in H. destruct (SetColor_ok ho _ _ _ _ c1 H) as (a1 & R1 & H1). cbn [idx] in R1. mstep with R1. upw H1.
  destruct (SetColor_ok ho _ _ _ _ BLACK H1) as (a2 & R2 & H2). cbn [idx] in R2. mstep with R2. cbn [paint] in H2. apply down_left in H2.
  mstep with (GetLeftChildIndex_ok _ _ _ _ _ _ _ _ _ H2). apply down_left in H2. destruct (SetColor_ok ho _ _ _ _ BLACK H2) as (a3 & R3 & H3). mstep with R3. upw H3. upw H3.
  destruct (RightRotate_ok ho _ _ _ _ _ _ _ _ _ _ _ _ H3) as (a4 & R4 & H4). mstep with R4. exists a4. apply down_right, down_right in H4. split; [|done]. by eapply GetRootEntries_ok.
Qed.
(** The result of a round, in terms of [del_round]. *)
Definition round_done (t : Tree) (res : Frame * Context_ + Context_) (m : M TaggedArray Z) (a : TaggedArray) : Prop :=
  exists a', match res with
    | inl (f, ctx) => m a = (Ok (frame_entry f), a') /\ holds h a' t (f :: ctx)
    | inr ctx => m a = (Ok (idx (plug t ctx)), a') /\ holds h a' t ctx
    end.

Lemma delete_left_black_ok (a : TaggedArray) (t : Tree) (c1 : TreeColor) (e1 : Z) (kv1 : KV) (b : Tree) (ctx : Context_) :
  holds h a t (InLeft c1 e1 kv1 b :: ctx) -> t <> Leaf ->
  round_done t (black_brother_left c1 e1 kv1 b ctx) (delete_left_black ho (idx t) (idx b)) a.
Proof.
  intros H Ht. unfold round_done, delete_left_black, black_brother_left. pose proof H as Hb. upw Hb. apply down_right in Hb.
  mstep with (black_children_ok _ _ _ Hb). destruct (black_kids b) eqn:Ek.
  - destruct (SetColor_ok ho _ _ _ _ RED Hb) as (a1 & R1 & H1). mstep with R1. upw H1. apply down_left in H1. exists a1. split; [|done].
    by rewrite (GetParent_focus _ _ _ _ H1 Ht).
  - destruct b as [|cb bl eb kvb br]; [done|]. cbn [idx] in *. mstep with (GetRightChildIndex_ok _ _ _ _ _ _ _ _ _ Hb).
    mstep with (GetColor_ok ho _ _ _ _ (down_right _ _ _ _ _ _ _ _ _ Hb)). destruct (color br) eqn:Er.
    + destruct bl as [|cl bll ebl kvbl blr]; [simpl in Ek; by rewrite Er in Ek|]. rewrite <- bind_assoc. mstep with (GetLeftChildIndex_ok _ _ _ _ _ _ _ _ _ Hb).
      apply down_left in Hb. destruct (SetColor_ok ho _ _ _ _ BLACK Hb) as (a1 & R1 & H1). rewrite <- bind_assoc. mstep with R1. upw H1.
      destruct (SetColor_ok ho _ _ _ _ RED H1) as (a2 & R2 & H2). cbn [idx] in R2. rewrite <- bind_assoc. mstep with R2. cbn [paint] in H2.
      destruct (RightRotate_ok ho _ _ _ _ _ _ _ _ _ _ _ _ H2) as (a3 & R3 & H3). rewrite <- bind_assoc. mstep with R3. upw H3. apply down_left in H3.
      mstep with (bro_left _ _ _ _ _ _ _ H3 Ht). exact (delete_left_third _ _ _ _ _ _ _ _ _ _ _ H3 Ht).
    + mstep. destruct (delete_left_third _ _ _ _ _ _ _ _ _ _ _ H Ht) as (a' & R & H'). exists a'. by destruct bl.
Qed.

Lemma delete_left_ok (a : TaggedArray) (t : Tree) (c1 : TreeColor) (e1 : Z) (kv1 : KV) (b : Tree) (ctx : Context_) :
  holds h a t (InLeft c1 e1 kv1 b :: ctx) -> t <> Leaf -> round_done t (del_round (InLeft c1 e1 kv1 b) ctx) (delete_left ho (idx t)) a.
Proof.
  intros H Ht. pose proof (delete_left_black_ok a t c1 e1 kv1 b ctx H Ht) as Hsecond. unfold round_done, delete_left in *.
  mstep with (bro_left _ _ _ _ _ _ _ H Ht). pose proof H as Hb. upw Hb. apply down_right in Hb. mstep with (GetColor_ok ho _ _ _ _ Hb).
  destruct b as [|[|] bl eb kvb br]; cbn [color idx].
  - mstep. exact Hsecond.
  - mstep. exact Hsecond.
  - clear Hsecond. destruct (SetColor_ok ho _ _ _ _ BLACK Hb) as (a1 & R1 & H1). cbn [idx paint] in *. rewrite <- bind_assoc. mstep with R1. upw H1.
    rewrite <- bind_assoc. mstep with (GetParent_focus _ _ _ _ (down_left _ _ _ _ _ _ _ _ _ H1) Ht). cbn [ctx_top frame_entry].
    destruct (SetColor_ok ho _ _ _ _ RED H1) as (a2 & R2 & H2). cbn [idx paint] in *. rewrite <- bind_assoc. mstep with R2.
    destruct (LeftRotate_ok ho _ _ _ _ _ _ _ _ _ _ _ _ H2) as (a3 & R3 & H3). rewrite <- bind_assoc. mstep with R3. apply down_left, down_left in H3.
    mstep with (bro_left _ _ _ _ _ _ _ H3 Ht). exact (delete_left_black_ok _ _ _ _ _ _ _ H3 Ht).
Qed.
Lemma delete_right_black_ok (a : TaggedArray) (t : Tree) (c1 : TreeColor) (e1 : Z) (kv1 : KV) (b : Tree) (ctx : Context_) :
  holds h a t (InRight c1 b e1 kv1 :: ctx) -> t <> Leaf ->
  round_done t (black_brother_right c1 b e1 kv1 ctx) (delete_right_black ho (idx t) (idx b)) a.
Proof.
  intros H Ht. unfold round_done, delete_right_black, black_brother_right. pose proof H as Hb. upw Hb. apply down_left in Hb.
  mstep with (black_children_ok _ _ _ Hb). destruct (black_kids b) eqn:Ek.
  - destruct (SetColor_ok ho _ _ _ _ RED Hb) as (a1 & R1 & H1). mstep with R1. upw H1. apply down_right in H1. exists a1. split; [|done].
    by rewrite (GetParent_focus _ _ _ _ H1 Ht).
  - destruct b as [|cb bl eb kvb br]; [done|]. cbn [idx] in *. mstep with (GetLeftChildIndex_ok _ _ _ _ _ _ _ _ _ Hb).
    mstep with (GetColor_ok ho _ _ _ _ (down_left _ _ _ _ _ _ _ _ _ Hb)). destruct (color bl) eqn:Er.
    + destruct br as [|cr brl ebr kvbr brr]; [simpl in Ek; by rewrite Er in Ek|]. rewrite <- bind_assoc. mstep with (GetRightChildIndex_ok _ _ _ _ _ _ _ _ _ Hb).
      apply down_right in Hb. destruct (SetColor_ok ho _ _ _ _ BLACK Hb) as (a1 & R1 & H1). rewrite <- bind_assoc. mstep with R1. upw H1.
      destruct (SetColor_ok ho _ _ _ _ RED H1) as (a2 & R2 & H2). cbn [idx] in R2. rewrite <- bind_assoc. mstep with R2. cbn [paint] in H2.
      destruct (LeftRotate_ok ho _ _ _ _ _ _ _ _ _ _ _ _ H2) as (a3 & R3 & H3). rewrite <- bind_assoc. mstep with R3. upw H3. apply down_right in H3.
      mstep with (bro_right _ _ _ _ _ _ _ H3 Ht). exact (delete_right_third _ _ _ _ _ _ _ _ _ _ _ H3 Ht).
    + mstep. destruct (delete_right_third _ _ _ _ _ _ _ _ _ _ _ H Ht) as (a' & R & H'). exists a'. by destruct br.
Qed.

Lemma delete_right_ok (a : TaggedArray) (t : Tree) (c1 : TreeColor) (e1 : Z) (kv1 : KV) (b : Tree) (ctx : Context_) :
  holds h a t (InRight c1 b e1 kv1 :: ctx) -> t <> Leaf -> round_done t (del_round (InRight c1 b e1 kv1) ctx) (delete_right ho (idx t)) a.
Proof.
  intros H Ht. pose proof (delete_right_black_ok a t c1 e1 kv1 b ctx H Ht) as Hsecond. unfold round_done, delete_right in *.
  mstep with (bro_right _ _ _ _ _ _ _ H Ht). pose proof H as Hb. upw Hb. apply down_left in Hb. mstep with (GetColor_ok ho _ _ _ _ Hb).
  destruct b as [|[|] bl eb kvb br]; cbn [color idx].
  - mstep. exact Hsecond.
  - mstep. exact Hsecond.
  - clear Hsecond. destruct (SetColor_ok ho _ _ _ _ BLACK Hb) as (a1 & R1 & H1). cbn [idx paint] in *. rewrite <- bind_assoc. mstep with R1. upw H1.
    rewrite <- bind_assoc. mstep with (GetParent_focus _ _ _ _ (down_right _ _ _ _ _ _ _ _ _ H1) Ht). cbn [ctx_top frame_entry].
    destruct (SetColor_ok ho _ _ _ _ RED H1) as (a2 & R2 & H2). cbn [idx paint] in *. rewrite <- bind_assoc. mstep with R2.
    destruct (RightRotate_ok ho _ _ _ _ _ _ _ _ _ _ _ _ H2) as (a3 & R3 & H3). rewrite <- bind_assoc. mstep with R3. apply down_right, down_right in H3.
    mstep with (bro_right _ _ _ _ _ _ _ H3 Ht). exact (delete_right_black_ok _ _ _ _ _ _ _ H3 Ht).
Qed.
Lemma delete_round_ok (a : TaggedArray) (t : Tree) (f : Frame) (ctx : Context_) :
  holds h a t (f :: ctx) -> t <> Leaf -> color t = BLACK ->
  exists a', match del_round f ctx with
    | inl (f', ctx') => delete_rebalance_step ho (idx t) a = (Ok (inl (frame_entry f')), a') /\ holds h a' t (f' :: ctx')
    | inr ctx' => delete_rebalance_step ho (idx t) a = (Ok (inl (idx (plug t ctx'))), a') /\ holds h a' t ctx'
    end.
Proof.
  intros H Ht Hc. unfold delete_rebalance_step. mstep with (GetRootEntries_ok _ _ _ _ _ H). rewrite (proj2 (Z.eqb_neq _ _)) by (by eapply (root_below h)).
  rewrite <- bind_assoc. mstep with (GetColor_ok ho _ _ _ _ H). rewrite Hc. mstep. cbn [bool_decide decide_rel decide].
  assert (IsLeft ho (idx t) a = (Ok (frame_left f), a)) as Hl by (destruct t; [done|]; by eapply IsLeft_ok). rewrite bool_decide_eq_true_2 by done. mstep with Hl.
  destruct f as [c1 e1 kv1 b|c1 b e1 kv1]; cbn [frame_left].
  - destruct (delete_left_ok _ _ _ _ _ _ _ H Ht) as (a' & G). exists a'. destruct (del_round _ _) as [[f' ctx']|ctx']; destruct G as [R G]; by mstep with R.
  - destruct (delete_right_ok _ _ _ _ _ _ _ H Ht) as (a' & G). exists a'. destruct (del_round _ _) as [[f' ctx']|ctx']; destruct G as [R G]; by mstep with R.
Qed.

(** The loop ends at the root and at a red entry. *)
Lemma delete_stop (a : TaggedArray) (t : Tree) (ctx : Context_) :
  holds h a t ctx -> t <> Leaf -> ctx = [] \/ color t = RED -> delete_rebalance_step ho (idx t) a = (Ok (inr (idx t)), a).
Proof.
  intros H Ht Hc. unfold delete_rebalance_step. mstep with (GetRootEntries_ok _ _ _ _ _ H). destruct ctx as [|f ctx]; [cbn [plug]; rewrite Z.eqb_refl; by mstep|].
  destruct Hc as [|Hc]; [done|]. rewrite (proj2 (Z.eqb_neq _ _)) by (by eapply (root_below h)). rewrite <- bind_assoc. mstep with (GetColor_ok ho _ _ _ _ H). rewrite Hc. by mstep.
Qed.

Lemma del_round_up (f f' : Frame) (ctx ctx' : Context_) : del_round f ctx = inl (f', ctx') -> frame_color f' = BLACK -> ctx' = ctx.
Proof.
  destruct f as [c1 e1 kv1 b|c1 b e1 kv1]; destruct b as [|[|] bl eb kvb br]; simpl; unfold black_brother_left, black_brother_right;
    repeat case_match; intros; simplify_eq/=; done.
Qed.

Lemma paint_id (t : Tree) (c : TreeColor) : color t = c -> t <> Leaf -> paint c t = t.
Proof. destruct t; [done|]. simpl. by intros ->. Qed.

Lemma plug_color (t : Tree) (ctx : Context_) : black_root ctx -> ctx <> [] -> color (plug t ctx) = BLACK /\ plug t ctx <> Leaf.
Proof.
  revert t. induction ctx as [|f ctx IH]; intros t Hb Hn; [done|]. destruct ctx as [|f' ctx]; [by destruct f|]. by apply (IH (fill f t)).
Qed.

Lemma del_round_root (f : Frame) (ctx ctx' : Context_) : black_root (f :: ctx) -> del_round f ctx = inr ctx' -> ctx' <> [] /\ black_root ctx'.
Proof.
  intros Hb. destruct ctx as [|f0 ctx]; destruct f as [c1 e1 kv1 b|c1 b e1 kv1]; destruct b as [|[|] bl eb kvb br]; simpl in *; unfold black_brother_left, black_brother_right;
    repeat case_match; intros; simplify_eq/=; try done; by destruct ctx.
Qed.

Lemma delete_loop (fuel : nat) (a : TaggedArray) (t : Tree) (ctx : Context_) :
  holds h a t ctx -> t <> Leaf -> black_root ctx -> (length ctx < fuel)%nat ->
  exists a', (index ← while_fuel fuel (delete_rebalance_step ho) (idx t); SetColor ho index BLACK) a = (Ok tt, a') /\
    match color t with RED => holds h a' (paint BLACK t) ctx | BLACK => holds h a' t (del_ctx ctx) end.
Proof.
  revert fuel a t. induction ctx as [|f ctx IH]; intros fuel a t H Ht Hr Hf; (destruct fuel as [|fuel]; [simpl in Hf; lia|]).
  - cbn [while_fuel]. rewrite <- bind_assoc. mstep with (delete_stop _ _ _ H Ht ltac:(by left)). mstep. destruct (SetColor_ok ho _ _ _ _ BLACK H) as (a' & R & H').
    exists a'. split; [done|]. destruct (color t) eqn:Ec; [|done]. by rewrite paint_id in H'.
  - destruct (color t) eqn:Ec.
    2: { cbn [while_fuel]. rewrite <- bind_assoc. mstep with (delete_stop _ _ _ H Ht ltac:(by right)). mstep. exact (SetColor_ok ho _ _ _ _ BLACK H). }
    destruct (delete_round_ok _ _ _ _ H Ht Ec) as (a1 & G). cbn [del_ctx while_fuel]. rewrite <- bind_assoc.
    destruct (del_round f ctx) as [[f' ctx']|ctx'] eqn:Ed; destruct G as [R G]; mstep with R.
    + apply go_up in G. assert (color (fill f' t) = frame_color f') as Ecf by (by destruct f'). assert (fill f' t <> Leaf) as Hn by (by destruct f').
      replace (frame_entry f') with (idx (fill f' t)) by (by destruct f'). destruct (frame_color f') eqn:Ef.
      * rewrite (del_round_up _ _ _ _ Ed Ef) in G. destruct (IH fuel a1 _ G Hn) as (a' & R' & G').
        { destruct ctx; [done|]. exact Hr. }
        { simpl in Hf. lia. }
        exists a'. split; [exact R'|]. rewrite Ecf in G'. apply go_down in G'. assert (paint_frame BLACK f' = f') as -> by (destruct f'; simpl in *; by subst). done.
      * destruct fuel as [|fuel]; [simpl in Hf; lia|]. cbn [while_fuel]. rewrite <- bind_assoc. mstep with (delete_stop _ _ _ G Hn ltac:(by right)). mstep.
        destruct (SetColor_ok ho _ _ _ _ BLACK G) as (a' & R' & G'). exists a'. split; [done|]. rewrite fill_paint in G'. by apply go_down.
    + destruct (del_round_root _ _ _ Hr Ed) as [Hne Hbr]. destruct fuel as [|fuel]; [simpl in Hf; lia|]. destruct (plug_color t ctx' Hbr Hne) as [Hpc Hpl].
      apply (proj1 (holds_plug ho _ _ _ _)) in G. cbn [while_fuel]. rewrite <- bind_assoc. mstep with (delete_stop _ _ _ G Hpl ltac:(by left)). mstep.
      destruct (SetColor_ok ho _ _ _ _ BLACK G) as (a' & R' & G'). exists a'. split; [done|]. rewrite paint_id in G' by done. by apply (proj2 (holds_plug ho _ _ _ _)).
Qed.

Lemma DeleteRebalance_ok (a : TaggedArray) (t : Tree) (ctx : Context_) :
  holds h a t ctx -> t <> Leaf -> black_root ctx ->
  exists a', DeleteRebalance ho (idx t) a = (Ok tt, a') /\
    match color t with RED => holds h a' (paint BLACK t) ctx | BLACK => holds h a' t (del_ctx ctx) end.
Proof.
  intros H Ht Hr. unfold DeleteRebalance, walk. pose proof (context_length _ _ _ _ H). rewrite <- bind_assoc. mstep with (Capacity_ok _ _ _ _ _ H).
  apply delete_loop; [done|done|done|lia].
Qed.
End delete.
End run.

(** ** Order *)

(** The entries in order, with their keys and values. *)
Fixpoint inorder (t : Tree) : list (Z * KV) :=
  match t with
  | Leaf => []
  | Node _ l e kv r => inorder l ++ (e, kv) :: inorder r
  end.

Fixpoint before (ctx : Context_) : list (Z * KV) :=
  match ctx with
  | [] => []
  | InLeft _ _ _ _ :: ctx' => before ctx'
  | InRight _ l e kv :: ctx' => before ctx' ++ inorder l ++ [(e, kv)]
  end.

Fixpoint after (ctx : Context_) : list (Z * KV) :=
  match ctx with
  | [] => []
  | InLeft _ e kv r :: ctx' => (e, kv) :: inorder r ++ after ctx'
  | InRight _ _ _ _ :: ctx' => after ctx'
  end.

Lemma inorder_plug (t : Tree) (ctx : Context_) : inorder (plug t ctx) = before ctx ++ inorder t ++ after ctx.
Proof.
  revert t. induction ctx as [|[] ctx IH]; intros t; simpl; [by rewrite app_nil_r|..]; rewrite IH; simpl; by rewrite <- ?(assoc_L (++)).
Qed.

Lemma entries_inorder (t : Tree) : entries t = (inorder t).*1.
Proof. induction t as [|c l IHl e kv r IHr]; simpl; [done|]. by rewrite fmap_app, IHl, IHr. Qed.

Lemma inorder_paint (c : TreeColor) (t : Tree) : inorder (paint c t) = inorder t.
Proof. by destruct t. Qed.

Lemma inorder_fill_paint (c : TreeColor) (f : Frame) (t : Tree) : inorder (fill (paint_frame c f) t) = inorder (fill f t).
Proof. by destruct f. Qed.

Lemma inorder_recolored (f1 f2 : Frame) (t : Tree) : inorder (recolored f1 f2 t) = inorder (fill f2 (fill f1 t)).
Proof. destruct f2; simpl; by rewrite inorder_paint, inorder_fill_paint. Qed.

Lemma inorder_restructured (f1 f2 : Frame) (t : Tree) : inorder (restructured f1 f2 t) = inorder (fill f2 (fill f1 t)).
Proof. destruct f1, f2, t; simpl; by rewrite <- ?(assoc_L (++)); simpl; rewrite <- ?(assoc_L (++)). Qed.

Lemma inorder_plug_eq (t t' : Tree) (ctx : Context_) : inorder t = inorder t' -> inorder (plug t ctx) = inorder (plug t' ctx).
Proof. rewrite !inorder_plug. by intros ->. Qed.

Lemma ins_fix_inorder (t : Tree) (ctx : Context_) : inorder (ins_fix t ctx) = inorder (plug t ctx).
Proof.
  revert t. induction ctx as [ctx IH] using (induction_ltof1 _ length). unfold ltof in IH. intros t.
  destruct ctx as [|f1 [|f2 ctx]]; [done..|]. cbn [ins_fix]. destruct (frame_color f1); [done|]. cbn [plug]. destruct (color (sibling f2)).
  - apply inorder_plug_eq, inorder_restructured.
  - rewrite IH by (simpl; lia). apply inorder_plug_eq, inorder_recolored.
Qed.

Lemma del_round_order (f : Frame) (ctx : Context_) :
  match del_round f ctx with
  | inl (f', ctx') => before (f' :: ctx') = before (f :: ctx) /\ after (f' :: ctx') = after (f :: ctx)
  | inr ctx' => before ctx' = before (f :: ctx) /\ after ctx' = after (f :: ctx)
  end.
Proof.
  destruct f as [c1 e1 kv1 b|c1 b e1 kv1]; destruct b as [|[|] bl eb kvb br]; simpl; unfold black_brother_left, black_brother_right; repeat case_match;
    simplify_eq/=; rewrite ?inorder_paint; simpl; repeat (rewrite <- ?(assoc_L (++)); simpl); done.
Qed.

Lemma del_ctx_order (ctx : Context_) : before (del_ctx ctx) = before ctx /\ after (del_ctx ctx) = after ctx.
Proof.
  induction ctx as [|f ctx [IH1 IH2]]; [done|]. cbn [del_ctx]. pose proof (del_round_order f ctx) as H.
  destruct (del_round f ctx) as [[f' ctx']|ctx'] eqn:Ed; [|done]. destruct H as [<- <-]. destruct (frame_color f') eqn:Ef; [|by destruct f'].
  rewrite (del_round_up _ _ _ _ Ed Ef). destruct f'; simpl; by rewrite IH1, IH2.
Qed.

(** ** The red-black invariant *)

(** No red entry has a red child, and [n] black entries are on every path. *)
Fixpoint rb (n : nat) (t : Tree) : Prop :=
  match t with
  | Leaf => n = O
  | Node RED l _ _ r => color l = BLACK /\ color r = BLACK /\ rb n l /\ rb n r
  | Node BLACK l _ _ r => match n with O => False | S n' => rb n' l /\ rb n' r end
  end.

(** Above the root nothing is black, so that the root must be. *)
Definition top_color (ctx : Context_) : TreeColor := match ctx with [] => RED | f :: _ => frame_color f end.

(** A context in which a subtree with [n] black entries on its paths fits. *)
Fixpoint ctx_rb (n : nat) (ctx : Context_) : Prop :=
  match ctx with
  | [] => True
  | f :: ctx' =>
      rb n (sibling f) /\
      match frame_color f with
      | BLACK => ctx_rb (S n) ctx'
      | RED => color (sibling f) = BLACK /\ top_color ctx' = BLACK /\ ctx_rb n ctx'
      end
  end.

Lemma rb_fill (n : nat) (f : Frame) (t : Tree) :
  rb n t -> rb n (sibling f) ->
  match frame_color f with
  | BLACK => rb (S n) (fill f t)
  | RED => color (sibling f) = BLACK -> color t = BLACK -> rb n (fill f t)
  end.
Proof. destruct f as [[] e kv r|[] l e kv]; simpl; tauto. Qed.

Lemma plug_rb (n : nat) (t : Tree) (ctx : Context_) :
  rb n t -> ctx_rb n ctx -> (top_color ctx = RED -> color t = BLACK) ->
  exists m, rb m (plug t ctx) /\ color (plug t ctx) = BLACK.
Proof.
  revert n t. induction ctx as [|f ctx IH]; intros n t Ht Hc Htop; [exists n; by split; [|apply Htop]|]. cbn [plug]. simpl in Hc, Htop.
  destruct Hc as [Hs Hc]. pose proof (rb_fill n f t Ht Hs) as Hf. destruct (frame_color f) eqn:Ef.
  - apply (IH (S n)); [done|done|]. intros _. by destruct f.
  - destruct Hc as (Hsb & Htb & Hc). apply (IH n); [by apply Hf; [|apply Htop]|done|]. rewrite Htb. done.
Qed.

Lemma fill_rb (n : nat) (f : Frame) (t : Tree) : rb n (fill f t) ->
  match frame_color f with
  | BLACK => exists n', n = S n' /\ rb n' t /\ rb n' (sibling f)
  | RED => rb n t /\ rb n (sibling f) /\ color t = BLACK /\ color (sibling f) = BLACK
  end.
Proof. destruct f as [[] e kv r|[] l e kv]; simpl; [destruct n|tauto|destruct n|tauto]; naive_solver. Qed.

Lemma unplug_rb (m : nat) (t : Tree) (ctx : Context_) :
  rb m (plug t ctx) -> color (plug t ctx) = BLACK ->
  exists n, rb n t /\ ctx_rb n ctx /\ (top_color ctx = RED -> color t = BLACK).
Proof.
  revert t. induction ctx as [|f ctx IH]; intros t Hm Hc; [by exists m|]. cbn [plug] in *. destruct (IH _ Hm Hc) as (n & Hf & Hctx & Htop).
  pose proof (fill_rb n f t Hf) as Hr. simpl. destruct (frame_color f) eqn:Ef.
  - destruct Hr as (n' & -> & Ht & Hs). by exists n'.
  - destruct Hr as (Ht & Hs & Htb & Hsb). exists n. split_and!; try done. destruct (top_color ctx); [done|]. specialize (Htop eq_refl). destruct f; simpl in *; congruence.
Qed.

Lemma ctx_rb_root (n : nat) (ctx : Context_) : ctx_rb n ctx -> black_root ctx.
Proof.
  revert n. induction ctx as [|f ctx IH]; intros n; [done|]. simpl. intros [_ H]. destruct ctx as [|f' ctx].
  - destruct (frame_color f); [done|]. by destruct H as (_ & ? & _).
  - destruct (frame_color f); [by eapply IH|]. destruct H as (_ & _ & H). by eapply IH.
Qed.

Lemma rb_paint (n : nat) (t : Tree) : rb n t -> color t = RED -> rb (S n) (paint BLACK t).
Proof. destruct t as [|[] l e kv r]; simpl; naive_solver. Qed.

Lemma ins_fix_rb (n : nat) (t : Tree) (ctx : Context_) :
  rb n t -> color t = RED -> ctx_rb n ctx -> exists m, rb m (paint BLACK (ins_fix t ctx)).
Proof.
  revert n t. induction ctx as [ctx IH] using (induction_ltof1 _ length). unfold ltof in IH. intros n t Ht Hred Hc.
  assert (t <> Leaf) as Hn by (by destruct t).
  destruct ctx as [|f1 ctx]; [exists (S n); by apply rb_paint|]. destruct (frame_color f1) eqn:E1.
  - assert (ins_fix t (f1 :: ctx) = plug t (f1 :: ctx)) as -> by (destruct ctx; simpl; [done|by rewrite E1]).
    destruct (plug_rb n t (f1 :: ctx)) as (m & Hm & Hb); [done|done|simpl; congruence|]. exists m. destruct (plug t (f1 :: ctx)); simpl in *; [done|by subst].
  - simpl in Hc. rewrite E1 in Hc. destruct Hc as (Hs & Hsb & Htop & Hc). destruct ctx as [|f2 ctx]; [done|]. cbn [ins_fix]. rewrite E1.
    simpl in Htop, Hc. rewrite Htop in Hc. destruct Hc as [Hu Hc]. destruct (color (sibling f2)) eqn:Eu.
    + assert (rb (S n) (restructured f1 f2 t) /\ color (restructured f1 f2 t) = BLACK) as [Hr Hrb].
      { destruct t as [|ct l e kv r]; [done|]. simpl in Hred; subst ct. destruct f1, f2; simpl in *; subst; simpl; tauto. }
      destruct (plug_rb (S n) _ ctx Hr Hc ltac:(done)) as (m & Hm & Hb). exists m. destruct (plug _ ctx); simpl in *; [done|by subst].
    + apply (IH ctx ltac:(simpl; lia) (S n)); [|by destruct f2|done]. destruct f2 as [c2 e2 kv2 u|c2 u e2 kv2]; simpl in *.
      * split_and!; [by destruct f1|by destruct u|by destruct f1|by apply rb_paint].
      * split_and!; [by destruct u|by destruct f1|by apply rb_paint|by destruct f1].
Qed.

Lemma rb_black (n : nat) (b : Tree) : rb (S n) b -> color b = BLACK -> exists bl eb kvb br, b = Node BLACK bl eb kvb br /\ rb n bl /\ rb n br.
Proof. destruct b as [|[] bl eb kvb br]; simpl; [done| |done]. intros [? ?] _. by exists bl, eb, kvb, br. Qed.

Lemma black_brother_rb (n : nat) (f : Frame) (ctx : Context_) :
  ctx_rb (S n) (f :: ctx) -> color (sibling f) = BLACK ->
  match del_round f ctx with
  | inl (f', ctx') => ctx' = ctx /\ rb n (sibling f') /\ frame_color f' = frame_color f
  | inr ctx' => ctx_rb n ctx'
  end.
Proof.
  intros [Hs Hc] Hb. destruct (rb_black _ _ Hs Hb) as (bl & eb & kvb & br & Es & Hl & Hr).
  destruct f as [c1 e1 kv1 b|c1 b e1 kv1]; simpl in *; subst b; unfold black_brother_left, black_brother_right; simpl;
    destruct bl as [|[] bll ebl kvbl blr], br as [|[] brl ebr kvbr brr]; simpl in *; destruct c1; simpl in *; tauto.
Qed.

Lemma red_brother_rb (n : nat) (f : Frame) (ctx : Context_) :
  ctx_rb (S n) (f :: ctx) -> color (sibling f) = RED ->
  exists f' f'', ctx_rb (S n) (f' :: f'' :: ctx) /\ color (sibling f') = BLACK /\ frame_color f' = RED /\ del_round f ctx = del_round f' (f'' :: ctx).
Proof.
  intros [Hs Hc] Hb. destruct f as [c1 e1 kv1 b|c1 b e1 kv1]; destruct b as [|[] bl eb kvb br]; simpl in *; try done; destruct Hs as (Hl & Hr & Hbl & Hbr); destruct c1; try (by destruct Hc as [? _]).
  - exists (InLeft RED e1 kv1 bl), (InLeft BLACK eb kvb br). split_and!; simpl; try done. by destruct bl as [|[] ? ? ? ?].
  - exists (InRight RED br e1 kv1), (InRight BLACK bl eb kvb). split_and!; simpl; try done. by destruct br as [|[] ? ? ? ?].
Qed.

(** The context that is left fits a subtree with one black entry less. *)
Lemma del_ctx_rb (n : nat) (ctx : Context_) : ctx_rb (S n) ctx -> ctx_rb n (del_ctx ctx).
Proof.
  revert n. induction ctx as [|f ctx IH]; intros n Hc; [done|]. cbn [del_ctx]. destruct (color (sibling f)) eqn:Eb.
  - pose proof (black_brother_rb n f ctx Hc Eb) as H. destruct (del_round f ctx) as [[f' ctx']|ctx']; [|done]. destruct H as (-> & Hs & Ef).
    destruct Hc as [_ Hc]. simpl. split; [by destruct f'|]. rewrite Ef. assert (frame_color (paint_frame BLACK f') = BLACK) as -> by (by destruct f').
    destruct (frame_color f); [by apply IH|]. by destruct Hc as (_ & _ & ?).
  - destruct (red_brother_rb n f ctx Hc Eb) as (f1 & f2 & Hc' & Eb' & Er & ->). pose proof (black_brother_rb n f1 (f2 :: ctx) Hc' Eb') as H.
    destruct (del_round f1 (f2 :: ctx)) as [[f' ctx']|ctx']; [|done]. destruct H as (-> & Hs & Ef). rewrite Ef, Er. destruct Hc' as [_ Hc']. rewrite Er in Hc'.
    destruct Hc' as (_ & _ & Hc'). cbn [ctx_rb]. split; [by destruct f'|]. by replace (frame_color (paint_frame BLACK f')) with BLACK by (by destruct f').
Qed.
End TreeBalance.
