(* ===== verification/TreeSearch.v ===== *)
(** * TreeSearch: what TaggedTree reads.

    The interface [TreeOrder] says that the comparison function of a tree is a
    total order on the keys in use.  Against it, every search in a tree whose
    entries are sorted is shown to answer as a search in the sorted list: the
    three parts [lower k], [equal k] and [higher k] of the list. *)
From stdpp Require Import sets sorting.
From S2P Require Import Prelude TaggedValue TaggedArray EcmaString TaggedTree TreeShape TreeBalance.
Local Open Scope Z_scope.

Module TreeSearch.
Import TaggedTree TreeShape TreeBalance.

#[export] Instance ComparisonResult_eq : EqDecision ComparisonResult.
Proof. solve_decision. Defined.

(** ** The order of keys *)

Definition flip_result (r : ComparisonResult) : ComparisonResult :=
  match r with LESS => GREAT | GREAT => LESS | _ => r end.

(** [cmp] is a total order on the keys that satisfy [good], up to EQUAL. *)
Class KeyOrder (cmp : JSTaggedValue -> JSTaggedValue -> ComparisonResult) (good : JSTaggedValue -> Prop) : Prop := {
  cmp_refl x : good x -> cmp x x = EQUAL;
  cmp_flip x y : good x -> good y -> cmp y x = flip_result (cmp x y);
  cmp_trans x y z : good x -> good y -> good z -> cmp x y = LESS -> cmp y z = LESS -> cmp x z = LESS;
  cmp_equal x y z : good x -> good y -> good z -> cmp x y = EQUAL -> cmp x z = cmp y z;
  cmp_defined x y : good x -> good y -> cmp x y <> UNDEFINED;
  good_key x : good x -> IsHole x = false;
}.

(** The comparison of a tree whose compare function is [fn]. *)
Class TreeOrder (env : CompareEnv) (fn : JSTaggedValue) (cmp : JSTaggedValue -> JSTaggedValue -> ComparisonResult) (good : JSTaggedValue -> Prop) : Prop := {
  tree_order :: KeyOrder cmp good;
  tree_compare x y (a : TaggedArray) : good x -> good y ->
    (if IsHole fn then OrdinayEntryCompare env x y else CompareFn env fn x y) a = (Ok (cmp x y), a);
}.

Section order.
Context (cmp : JSTaggedValue -> JSTaggedValue -> ComparisonResult) (good : JSTaggedValue -> Prop) `{HO : KeyOrder cmp good}.
Context {A : Type} (key : A -> JSTaggedValue).

(** The elements before the key [k], at it and behind it. *)
Definition part (r : ComparisonResult) (k : JSTaggedValue) (l : list A) : list A := filter (fun x => cmp k (key x) = r) l.
Notation lower := (part GREAT).
Notation equal := (part EQUAL).
Notation higher := (part LESS).

Definition sorted (l : list A) : Prop := StronglySorted (fun x y => cmp (key x) (key y) = LESS) l /\ Forall (fun x => good (key x)) l.

Lemma sorted_app (l1 l2 : list A) (x : A) :
  sorted (l1 ++ x :: l2) -> sorted l1 /\ sorted l2 /\ good (key x) /\
    Forall (fun y => cmp (key y) (key x) = LESS) l1 /\ Forall (fun y => cmp (key x) (key y) = LESS) l2.
Proof.
  intros [Hs (H1 & [Hx H2]%Forall_cons_1)%Forall_app]. split_and!.
  - split; [by eapply StronglySorted_app_1_l|done].
  - split; [|done]. apply StronglySorted_app_1_r in Hs. by inversion Hs.
  - done.
  - apply list.Forall_forall. intros y Hy. eapply (StronglySorted_app_1_elem_of _ _ _ _ _ Hs); [done|by left].
  - apply StronglySorted_app_1_r in Hs. by inversion Hs.
Qed.

(** Where the other elements are once [k] was compared with [x]. *)
Lemma compare_sides (k : JSTaggedValue) (l1 l2 : list A) (x : A) :
  good k -> sorted (l1 ++ x :: l2) ->
  (cmp k (key x) <> GREAT -> Forall (fun y => cmp k (key y) = LESS) l2) /\ (cmp k (key x) <> LESS -> Forall (fun y => cmp k (key y) = GREAT) l1).
Proof.
  intros Hk Hs. destruct (sorted_app _ _ _ Hs) as ([_ G1] & [_ G2] & Hx & H1 & H2). pose proof (cmp_defined k (key x) Hk Hx) as Hd.
  rewrite list.Forall_forall in G1, G2, H1, H2. split; intros Hc; apply list.Forall_forall; intros y Hy.
  - specialize (H2 y Hy). specialize (G2 y Hy). cbv beta in *. destruct (cmp k (key x)) eqn:E; try done.
    + by eapply (cmp_trans k (key x)).
    + by rewrite (cmp_equal k (key x)).
  - specialize (H1 y Hy). specialize (G1 y Hy). cbv beta in *. rewrite (cmp_flip (key y) k) by done. destruct (cmp k (key x)) eqn:E; try done.
    + rewrite (cmp_flip k (key y)), (cmp_equal k (key x)), (cmp_flip (key y) (key x)), H1 by done. done.
    + rewrite (cmp_trans (key y) (key x) k); [done..|]. by rewrite (cmp_flip k (key x)), E.
Qed.

Lemma filter_all (P : A -> Prop) `{!forall x, Decision (P x)} (l : list A) : Forall P l -> filter P l = l.
Proof. induction 1 as [|x l Hx _ IH]; [done|]. rewrite filter_cons_True by done. by f_equal. Qed.

Lemma filter_none (P : A -> Prop) `{!forall x, Decision (P x)} (l : list A) : Forall (fun x => ~ P x) l -> filter P l = [].
Proof. induction 1 as [|x l Hx _ IH]; [done|]. by rewrite filter_cons_False by done. Qed.

Lemma part_same (r : ComparisonResult) (k : JSTaggedValue) (l : list A) : Forall (fun y => cmp k (key y) = r) l -> part r k l = l.
Proof. apply filter_all. Qed.

Lemma part_other (r r' : ComparisonResult) (k : JSTaggedValue) (l : list A) : Forall (fun y => cmp k (key y) = r') l -> r <> r' -> part r k l = [].
Proof. intros Hl Hr. apply filter_none. eapply list.Forall_impl; [exact Hl|]. intros y. simpl. congruence. Qed.

Lemma part_app (r : ComparisonResult) (k : JSTaggedValue) (l1 l2 : list A) : part r k (l1 ++ l2) = part r k l1 ++ part r k l2.
Proof. apply list.filter_app. Qed.

Lemma part_cons (r : ComparisonResult) (k : JSTaggedValue) (x : A) (l : list A) :
  part r k (x :: l) = (if decide (cmp k (key x) = r) then [x] else []) ++ part r k l.
Proof. unfold part. rewrite filter_cons. by destruct (decide _). Qed.

(** A sorted list is the three parts, and at most one element is at a key. *)
Lemma parts_found (k : JSTaggedValue) (l1 l2 : list A) (x : A) :
  good k -> sorted (l1 ++ x :: l2) -> cmp k (key x) = EQUAL ->
  lower k (l1 ++ x :: l2) = l1 /\ equal k (l1 ++ x :: l2) = [x] /\ higher k (l1 ++ x :: l2) = l2.
Proof.
  intros Hk Hs Hx. destruct (compare_sides k l1 l2 x Hk Hs) as [H2 H1]. rewrite Hx in *. specialize (H1 ltac:(done)). specialize (H2 ltac:(done)).
  rewrite !part_app, !part_cons, Hx. rewrite (part_same GREAT k l1), (part_other EQUAL GREAT k l1), (part_other LESS GREAT k l1) by done.
  rewrite (part_same LESS k l2), (part_other EQUAL LESS k l2), (part_other GREAT LESS k l2) by done. simpl. by rewrite app_nil_r.
Qed.

Lemma parts_absent (k : JSTaggedValue) (l1 l2 : list A) :
  Forall (fun y => cmp k (key y) = GREAT) l1 -> Forall (fun y => cmp k (key y) = LESS) l2 ->
  lower k (l1 ++ l2) = l1 /\ equal k (l1 ++ l2) = [] /\ higher k (l1 ++ l2) = l2.
Proof.
  intros H1 H2. rewrite !part_app. rewrite (part_same GREAT k l1), (part_other EQUAL GREAT k l1), (part_other LESS GREAT k l1) by done.
  rewrite (part_same LESS k l2), (part_other EQUAL LESS k l2), (part_other GREAT LESS k l2) by done. by rewrite app_nil_r.
Qed.

(** The parts after a comparison that goes left, and one that goes right. *)
Lemma part_left (r : ComparisonResult) (k : JSTaggedValue) (l1 l2 : list A) (x : A) :
  good k -> sorted (l1 ++ x :: l2) -> cmp k (key x) = LESS ->
  part r k (l1 ++ x :: l2) = part r k l1 ++ (if decide (r = LESS) then x :: l2 else []).
Proof.
  intros Hk Hs Hx. destruct (compare_sides k l1 l2 x Hk Hs) as [H2 _]. rewrite part_app. f_equal. specialize (H2 ltac:(congruence)).
  destruct (decide (r = LESS)) as [->|Hr]; [apply part_same|apply (part_other r LESS)]; [by constructor..|done].
Qed.

Lemma part_right (r : ComparisonResult) (k : JSTaggedValue) (l1 l2 : list A) (x : A) :
  good k -> sorted (l1 ++ x :: l2) -> cmp k (key x) = GREAT ->
  part r k (l1 ++ x :: l2) = (if decide (r = GREAT) then l1 ++ [x] else []) ++ part r k l2.
Proof.
  intros Hk Hs Hx. destruct (compare_sides k l1 l2 x Hk Hs) as [_ H1]. specialize (H1 ltac:(congruence)).
  change (x :: l2) with ([x] ++ l2). rewrite (assoc_L (++)), part_app. f_equal.
  assert (Forall (fun y => cmp k (key y) = GREAT) (l1 ++ [x])) by (apply Forall_app; split; [done|by repeat constructor]).
  destruct (decide (r = GREAT)) as [->|Hr]; [by apply part_same|by apply (part_other r GREAT)].
Qed.
End order.

(** ** Positions *)

Definition key_of (x : Z * KV) : JSTaggedValue := x.2.1.
Definition key_at (t : Tree) : JSTaggedValue := match t with Leaf => VHole | Node _ _ _ kv _ => kv.1 end.

(** The focus on an element of the tree. *)
Lemma focus_on (t : Tree) (l1 l2 : list (Z * KV)) (e : Z) (kv : KV) :
  inorder t = l1 ++ (e, kv) :: l2 ->
  exists c l r ctx, t = plug (Node c l e kv r) ctx /\ l1 = before ctx ++ inorder l /\ l2 = inorder r ++ after ctx.
Proof.
  assert (forall ctx l1 l2, inorder t = l1 ++ (e, kv) :: l2 ->
    exists c l r ctx', plug t ctx = plug (Node c l e kv r) ctx' /\ before ctx ++ l1 = before ctx' ++ inorder l /\ l2 ++ after ctx = inorder r ++ after ctx') as G.
  { clear l1 l2. induction t as [|c l IHl e' kv' r IHr]; intros ctx l1 l2; simpl; [by destruct l1|]. intros [(k & Hl & Hr)|(k & -> & Hr)]%app_eq_inv.
    - destruct k as [|x k]; simplify_eq/=.
      + exists c, l, r, ctx. rewrite app_nil_r in Hl. by rewrite Hl.
      + destruct (IHl (InLeft c e' kv' r :: ctx) l1 k Hl) as (c' & l' & r' & ctx' & E & Hb & Ha). exists c', l', r', ctx'.
        split; [done|]. split; [done|]. rewrite <- Ha. simpl. by rewrite <- !(assoc_L (++)).
    - destruct k as [|x k]; simplify_eq/=.
      + exists c, l, r, ctx. by rewrite app_nil_r.
      + destruct (IHr (InRight c l e' kv' :: ctx) k l2) as (c' & l' & r' & ctx' & E & Hb & Ha); [done|]. exists c', l', r', ctx'.
        split; [done|]. split; [|done]. rewrite <- Hb. simpl. by rewrite <- !(assoc_L (++)). }
  intros Ht. destruct (G [] l1 l2 Ht) as (c & l & r & ctx & E & Hb & Ha). exists c, l, r, ctx. simpl in *. by rewrite app_nil_r in Ha.
Qed.

(** ** Comparing with the root of a subtree *)

Section keyed.
Context (cmp : JSTaggedValue -> JSTaggedValue -> ComparisonResult) (good : JSTaggedValue -> Prop) `{HO : KeyOrder cmp good} (k : JSTaggedValue) (Hk : good k).
Notation part := (part cmp key_of).
Notation sorted := (sorted cmp good key_of).

Lemma sorted_node (c : TreeColor) (l : Tree) (e : Z) (kv : KV) (r : Tree) :
  sorted (inorder (Node c l e kv r)) -> sorted (inorder l) /\ sorted (inorder r) /\ good kv.1.
Proof. simpl. intros Hs. by destruct (sorted_app _ _ _ _ _ _ Hs) as (? & ? & ? & _). Qed.

(** A comparison with the root of a subtree, as the loops use it. *)
Lemma compare_root (c : TreeColor) (l : Tree) (e : Z) (kv : KV) (r : Tree) (p : ComparisonResult) :
  sorted (inorder (Node c l e kv r)) ->
  part p k (inorder (Node c l e kv r)) =
    match cmp k kv.1 with
    | LESS => part p k (inorder l) ++ (if decide (p = LESS) then (e, kv) :: inorder r else [])
    | GREAT => (if decide (p = GREAT) then inorder l ++ [(e, kv)] else []) ++ part p k (inorder r)
    | _ => match p with GREAT => inorder l | EQUAL => [(e, kv)] | LESS => inorder r | UNDEFINED => [] end
    end.
Proof.
  intros Hs. destruct (sorted_node _ _ _ _ _ Hs) as (_ & _ & Hg). pose proof (cmp_defined k kv.1 Hk Hg). simpl in *. destruct (cmp k kv.1) eqn:E; [..|done].
  - by apply (part_left cmp good).
  - destruct (parts_found cmp good key_of k (inorder l) (inorder r) (e, kv) Hk Hs E) as (H1 & H2 & H3). destruct p; try done.
    apply filter_none, list.Forall_forall. intros y Hy. apply (cmp_defined k); [done|]. destruct Hs as [_ Hs]. rewrite list.Forall_forall in Hs. by apply Hs.
  - by apply (part_right cmp good).
Qed.

(** The elements below a key, and those above it, as the next two loops find them. *)
Lemma lower_root (c : TreeColor) (l : Tree) (e : Z) (kv : KV) (r : Tree) :
  sorted (inorder (Node c l e kv r)) ->
  part GREAT k (inorder (Node c l e kv r)) =
    match cmp k kv.1 with GREAT => inorder l ++ (e, kv) :: part GREAT k (inorder r) | _ => part GREAT k (inorder l) end.
Proof.
  intros Hs. rewrite compare_root by done. destruct (sorted_node _ _ _ _ _ Hs) as (_ & _ & Hg). pose proof (cmp_defined k kv.1 Hk Hg).
  destruct (compare_sides cmp good key_of k _ _ _ Hk Hs) as [_ H1]. unfold key_of in H1. cbn [snd] in H1. destruct (cmp k kv.1); [..|done]; simpl.
  - by rewrite app_nil_r.
  - symmetry. by apply part_same, H1.
  - by rewrite <- (assoc_L (++)).
Qed.

Lemma higher_root (c : TreeColor) (l : Tree) (e : Z) (kv : KV) (r : Tree) :
  sorted (inorder (Node c l e kv r)) ->
  part LESS k (inorder (Node c l e kv r)) =
    match cmp k kv.1 with LESS => part LESS k (inorder l) ++ (e, kv) :: inorder r | _ => part LESS k (inorder r) end.
Proof.
  intros Hs. rewrite compare_root by done. destruct (sorted_node _ _ _ _ _ Hs) as (_ & _ & Hg). pose proof (cmp_defined k kv.1 Hk Hg).
  destruct (compare_sides cmp good key_of k _ _ _ Hk Hs) as [H2 _]. unfold key_of in H2. cbn [snd] in H2. destruct (cmp k kv.1); [..|done]; simpl; [done| |done].
  symmetry. by apply part_same, H2.
Qed.

End keyed.

Section run.
Context (ho : Derived) `{HL : Layout ho} (h : Hdr).
Notation holds := (holds ho).

Lemma GetKey_focus (a : TaggedArray) (t : Tree) (ctx : Context_) : holds h a t ctx -> GetKey ho (idx t) a = (Ok (key_at t), a).
Proof. destruct t; [done|]. intros H. by eapply GetKey_ok. Qed.

(** An element of a tree is at its entry. *)
Lemma element_at (a : TaggedArray) (t : Tree) (x : Z * KV) :
  holds h a t [] -> x ∈ inorder t -> GetKey ho x.1 a = (Ok x.2.1, a) /\ GetValue ho x.1 a = (Ok x.2.2, a) /\ 0 <= x.1 < h_cap h /\ IsHole x.2.1 = false.
Proof.
  intros H (l1 & l2 & Hx)%list_elem_of_split. destruct x as [e kv]. destruct (focus_on t l1 l2 e kv Hx) as (c & l & r & ctx & -> & _ & _).
  apply (proj2 (holds_plug ho _ _ _ _)) in H. split_and!; [by eapply GetKey_ok|by eapply GetValue_ok|by eapply focus_range..|by eapply focus_key].
Qed.

(** The entry of the first or the last element of a list, or [d]. *)
Definition first_entry (d : Z) (l : list (Z * KV)) : Z := match l with [] => d | x :: _ => x.1 end.
Definition last_entry (d : Z) (l : list (Z * KV)) : Z := match list.last l with Some x => x.1 | None => d end.

Lemma first_entry_app (d : Z) (l1 l2 : list (Z * KV)) : first_entry d (l1 ++ l2) = first_entry (first_entry d l2) l1.
Proof. by destruct l1. Qed.

Lemma last_entry_app (d : Z) (l1 l2 : list (Z * KV)) : last_entry d (l1 ++ l2) = last_entry (last_entry d l1) l2.
Proof. unfold last_entry. rewrite list.last_app. by destruct (list.last l2). Qed.

Lemma minimum_loop (fuel : nat) (a : TaggedArray) (t : Tree) (ctx : Context_) (e : Z) :
  holds h a t ctx -> (length (entries t) < fuel)%nat ->
  while_fuel fuel (minimum_step ho) (e, ptr (idx t)) a = (Ok (first_entry e (inorder t)), a).
Proof.
  revert fuel ctx e. induction t as [|c l IHl e' kv r _]; intros fuel ctx e H Hf; (destruct fuel as [|fuel]; [lia|]); cbn [while_fuel]; [done|].
  pose proof (focus_range _ _ _ _ _ _ _ _ _ H). rewrite ptr_nonneg by (simpl; lia). cbn [idx].
  mstep by (unfold minimum_step; cbn [IsHole]; mstep; mstep with (GetLeftChild_ok _ _ _ _ _ _ _ _ _ H); done).
  rewrite (IHl _ _ _ (down_left _ _ _ _ _ _ _ _ _ H)) by (simpl in Hf; rewrite length_app in Hf; simpl in Hf; lia). simpl. by rewrite first_entry_app.
Qed.

Lemma maximum_loop (fuel : nat) (a : TaggedArray) (t : Tree) (ctx : Context_) (e : Z) :
  holds h a t ctx -> (length (entries t) < fuel)%nat ->
  while_fuel fuel (maximum_step ho) (e, ptr (idx t)) a = (Ok (last_entry e (inorder t)), a).
Proof.
  revert fuel ctx e. induction t as [|c l _ e' kv r IHr]; intros fuel ctx e H Hf; (destruct fuel as [|fuel]; [lia|]); cbn [while_fuel]; [done|].
  pose proof (focus_range _ _ _ _ _ _ _ _ _ H). rewrite ptr_nonneg by (simpl; lia). cbn [idx].
  mstep by (unfold maximum_step; cbn [IsHole]; mstep; mstep with (GetRightChild_ok _ _ _ _ _ _ _ _ _ H); done).
  rewrite (IHr _ _ _ (down_right _ _ _ _ _ _ _ _ _ H)) by (simpl in Hf; rewrite length_app in Hf; simpl in Hf; lia).
  simpl. change ((e', kv) :: inorder r) with ([(e', kv)] ++ inorder r). by rewrite !last_entry_app.
Qed.

Lemma GetMinimum_ok (a : TaggedArray) (t : Tree) (ctx : Context_) :
  holds h a t ctx -> GetMinimum ho (idx t) a = (Ok (first_entry (-1) (inorder t)), a).
Proof.
  intros H. unfold GetMinimum, walk. pose proof (context_length _ _ _ _ _ H) as Hl. destruct t as [|c l e kv r].
  { mstep. by mstep with (Capacity_ok _ _ _ _ _ H). }
  cbn [idx]. mstep with (GetLeftChild_ok _ _ _ _ _ _ _ _ _ H). mstep with (Capacity_ok _ _ _ _ _ H).
  rewrite (minimum_loop _ _ _ _ _ (down_left _ _ _ _ _ _ _ _ _ H)) by (simpl in Hl; rewrite length_app in Hl; simpl in Hl; lia). simpl. by rewrite first_entry_app.
Qed.

Lemma GetMaximum_ok (a : TaggedArray) (t : Tree) (ctx : Context_) :
  holds h a t ctx -> GetMaximum ho (idx t) a = (Ok (last_entry (-1) (inorder t)), a).
Proof.
  intros H. unfold GetMaximum, walk. pose proof (context_length _ _ _ _ _ H) as Hl. destruct t as [|c l e kv r].
  { mstep. by mstep with (Capacity_ok _ _ _ _ _ H). }
  cbn [idx]. mstep with (GetRightChild_ok _ _ _ _ _ _ _ _ _ H). mstep with (Capacity_ok _ _ _ _ _ H).
  rewrite (maximum_loop _ _ _ _ _ (down_right _ _ _ _ _ _ _ _ _ H)) by (simpl in Hl; rewrite length_app in Hl; simpl in Hl; lia).
  simpl. change ((e, kv) :: inorder r) with ([(e, kv)] ++ inorder r). by rewrite !last_entry_app.
Qed.
(** ** Walking up *)

Lemma child_differs (a : TaggedArray) (t : Tree) (f : Frame) (ctx : Context_) :
  holds h a t (f :: ctx) -> t <> Leaf -> (idx (sibling f) =? idx t) = false /\ 0 <= frame_entry f.
Proof.
  intros H Ht. pose proof (holds_nodup _ _ _ _ _ H) as Hd. apply list.NoDup_app in Hd as (_ & Hd & _).
  assert (idx t ∈ entries t /\ 0 <= idx t) as [Hi Hi'].
  { destruct t as [|c l e kv r]; [done|]. simpl. split; [set_solver|]. by eapply (focus_range ho) in H as [? _]. }
  pose proof (go_up _ _ _ _ _ _ H) as H'. split.
  - apply Z.eqb_neq. intros E. apply (Hd _ Hi). rewrite <- E. unfold ctx_entries. rewrite bind_cons. apply elem_of_app. left.
    destruct f as [c e kv s|c s e kv]; simpl in *; (destruct s; simpl in *; [lia|set_solver]).
  - destruct f; simpl in H'; by eapply (focus_range ho) in H' as [? _].
Qed.

Lemma successor_loop (fuel : nat) (a : TaggedArray) (t : Tree) (ctx : Context_) :
  holds h a t ctx -> t <> Leaf -> (length ctx < fuel)%nat ->
  while_fuel fuel (successor_step ho) (idx t, ctx_top ctx) a = (Ok (first_entry (-1) (after ctx)), a).
Proof.
  revert fuel t. induction ctx as [|f ctx IH]; intros fuel t H Ht Hf; (destruct fuel as [|fuel]; [lia|]); cbn [while_fuel]; [done|].
  destruct (child_differs _ _ _ _ H Ht) as [Hs He]. pose proof (go_up _ _ _ _ _ _ H) as H'. destruct f as [c e kv r|c l e kv]; cbn [fill ctx_top frame_entry sibling] in *.
  - mstep by (unfold successor_step; zb; mstep with (GetRightChildIndex_ok _ _ _ _ _ _ _ _ _ H'); rewrite Hs; done). done.
  - mstep by (unfold successor_step; zb; mstep with (GetRightChildIndex_ok _ _ _ _ _ _ _ _ _ H'); rewrite Z.eqb_refl; mstep with (GetParent_ok _ _ _ _ _ _ _ _ _ H'); done).
    change e with (idx (Node c l e kv t)). apply IH; [done|done|simpl in Hf; lia].
Qed.

Lemma predecessor_loop (fuel : nat) (a : TaggedArray) (t : Tree) (ctx : Context_) :
  holds h a t ctx -> t <> Leaf -> (length ctx < fuel)%nat ->
  while_fuel fuel (predecessor_step ho) (idx t, ctx_top ctx) a = (Ok (last_entry (-1) (before ctx)), a).
Proof.
  revert fuel t. induction ctx as [|f ctx IH]; intros fuel t H Ht Hf; (destruct fuel as [|fuel]; [lia|]); cbn [while_fuel]; [done|].
  destruct (child_differs _ _ _ _ H Ht) as [Hs He]. pose proof (go_up _ _ _ _ _ _ H) as H'. destruct f as [c e kv r|c l e kv]; cbn [fill ctx_top frame_entry sibling] in *.
  - mstep by (unfold predecessor_step; zb; mstep with (GetLeftChildIndex_ok _ _ _ _ _ _ _ _ _ H'); rewrite Z.eqb_refl; mstep with (GetParent_ok _ _ _ _ _ _ _ _ _ H'); done).
    change e with (idx (Node c t e kv r)). apply IH; [done|done|simpl in Hf; lia].
  - mstep by (unfold predecessor_step; zb; mstep with (GetLeftChildIndex_ok _ _ _ _ _ _ _ _ _ H'); rewrite Hs; done). simpl. by rewrite !last_entry_app.
Qed.

Lemma GetSuccessor_ok (a : TaggedArray) (c : TreeColor) (l : Tree) (e : Z) (kv : KV) (r : Tree) (ctx : Context_) :
  holds h a (Node c l e kv r) ctx -> GetSuccessor ho e a = (Ok (first_entry (-1) (inorder r ++ after ctx)), a).
Proof.
  intros H. unfold GetSuccessor. mstep with (GetRightChildIndex_ok _ _ _ _ _ _ _ _ _ H). pose proof (context_length _ _ _ _ _ H) as Hl.
  destruct r as [|cr lr er kvr rr].
  - cbn [idx]. zb. mstep with (GetParent_ok _ _ _ _ _ _ _ _ _ H). unfold walk. mstep with (Capacity_ok _ _ _ _ _ H).
    exact (successor_loop (Datatypes.S (Z.to_nat (h_cap h))) _ _ _ H ltac:(done) ltac:(lia)).
  - pose proof (down_right _ _ _ _ _ _ _ _ _ H) as H'. pose proof (focus_range _ _ _ _ _ _ _ _ _ H'). cbn [idx]. zb.
    rewrite (GetMinimum_ok _ _ _ H' : GetMinimum ho er a = _). simpl. by rewrite <- (assoc_L (++)), !first_entry_app.
Qed.

Lemma GetPreDecessor_ok (a : TaggedArray) (c : TreeColor) (l : Tree) (e : Z) (kv : KV) (r : Tree) (ctx : Context_) :
  holds h a (Node c l e kv r) ctx -> GetPreDecessor ho e a = (Ok (last_entry (-1) (before ctx ++ inorder l)), a).
Proof.
  intros H. unfold GetPreDecessor. mstep with (GetLeftChildIndex_ok _ _ _ _ _ _ _ _ _ H). pose proof (context_length _ _ _ _ _ H) as Hl.
  destruct l as [|cr lr er kvr rr].
  - cbn [idx]. zb. mstep with (GetParent_ok _ _ _ _ _ _ _ _ _ H). unfold walk. mstep with (Capacity_ok _ _ _ _ _ H). rewrite app_nil_r.
    exact (predecessor_loop (Datatypes.S (Z.to_nat (h_cap h))) _ _ _ H ltac:(done) ltac:(lia)).
  - pose proof (down_left _ _ _ _ _ _ _ _ _ H) as H'. pose proof (focus_range _ _ _ _ _ _ _ _ _ H'). cbn [idx]. zb.
    rewrite (GetMaximum_ok _ _ _ H' : GetMaximum ho er a = _). simpl. change ((er, kvr) :: inorder rr) with ([(er, kvr)] ++ inorder rr). by rewrite !last_entry_app.
Qed.

(** The first and the last key. *)
Definition first_key (l : list (Z * KV)) : JSTaggedValue := match l with [] => VUndefined | x :: _ => x.2.1 end.
Definition last_key (l : list (Z * KV)) : JSTaggedValue := match list.last l with None => VUndefined | Some x => x.2.1 end.

Lemma entry_key (a : TaggedArray) (t : Tree) (e : Z) (k : JSTaggedValue) :
  holds h a t [] -> (e = -1 /\ k = VUndefined) \/ (exists x, x ∈ inorder t /\ e = x.1 /\ k = x.2.1) ->
  (key ← GetKey ho e; mret (Transform key)) a = (Ok k, a).
Proof.
  intros H [[-> ->]|(x & Hx & -> & ->)]; [done|]. destruct (element_at a t x H Hx) as (Hk & _ & _ & Hh). mstep with Hk. unfold Transform. by rewrite Hh.
Qed.

Lemma first_at (l : list (Z * KV)) (P : list (Z * KV)) : (forall x, x ∈ l -> x ∈ P) ->
  (first_entry (-1) l = -1 /\ first_key l = VUndefined) \/ (exists x, x ∈ P /\ first_entry (-1) l = x.1 /\ first_key l = x.2.1).
Proof. intros HP. destruct l as [|x l]; [by left|]. right. exists x. split; [|done]. apply HP. by left. Qed.

Lemma last_at (l : list (Z * KV)) (P : list (Z * KV)) : (forall x, x ∈ l -> x ∈ P) ->
  (last_entry (-1) l = -1 /\ last_key l = VUndefined) \/ (exists x, x ∈ P /\ last_entry (-1) l = x.1 /\ last_key l = x.2.1).
Proof.
  intros HP. unfold last_entry, last_key. destruct (list.last l) as [x|] eqn:E; [|by left]. right. exists x. split; [|done]. apply HP.
  by apply last_Some_elem_of in E.
Qed.

Lemma GetFirstKey_ok (a : TaggedArray) (t : Tree) : holds h a t [] -> GetFirstKey ho a = (Ok (first_key (inorder t)), a).
Proof.
  intros H. unfold GetFirstKey. mstep with (GetRootEntries_ok _ _ _ _ _ H). cbn [plug]. mstep with (GetMinimum_ok _ _ _ H).
  apply (entry_key _ t); [done|]. by apply first_at.
Qed.

Lemma GetLastKey_ok (a : TaggedArray) (t : Tree) : holds h a t [] -> GetLastKey ho a = (Ok (last_key (inorder t)), a).
Proof.
  intros H. unfold GetLastKey. mstep with (GetRootEntries_ok _ _ _ _ _ H). cbn [plug]. mstep with (GetMaximum_ok _ _ _ H).
  apply (entry_key _ t); [done|]. by apply last_at.
Qed.
(** ** Searching for a key *)

Section ordered.
Context (env : CompareEnv) (cmp : JSTaggedValue -> JSTaggedValue -> ComparisonResult) (good : JSTaggedValue -> Prop).
Context `{HO : TreeOrder env (h_cmp h) cmp good} (k : JSTaggedValue) (Hk : good k).
Notation part := (part cmp key_of).
Notation sorted := (sorted cmp good key_of).

Lemma EntryCompare_ok (a : TaggedArray) (t : Tree) (ctx : Context_) (y : JSTaggedValue) :
  holds h a t ctx -> good y -> EntryCompare env k y a = (Ok (cmp k y), a).
Proof. intros H Hy. unfold EntryCompare. mstep with (GetCompare_ok _ _ _ _ _ H). by apply tree_compare. Qed.

Lemma find_loop (fuel : nat) (a : TaggedArray) (t : Tree) (ctx : Context_) :
  holds h a t ctx -> sorted (inorder t) -> (height t < fuel)%nat ->
  while_fuel fuel (find_step ho env k) (idx t, key_at t) a = (Ok (first_entry (-1) (part EQUAL k (inorder t))), a).
Proof.
  revert fuel ctx. induction t as [|c l IHl e kv r IHr]; intros fuel ctx H Hs Hf; (destruct fuel as [|fuel]; [lia|]); cbn [while_fuel idx key_at]; [done|].
  destruct (sorted_node cmp good _ _ _ _ _ Hs) as (Hsl & Hsr & Hg). pose proof (EntryCompare_ok _ _ _ _ H Hg) as Hc. rewrite (compare_root cmp good) by done.
  pose proof (focus_key _ _ _ _ _ _ _ _ _ H) as Hh. cbn [height] in Hf.
  pose proof (cmp_defined k kv.1 Hk Hg). destruct (cmp k kv.1) eqn:E; [| | |done].
  - pose proof (down_left _ _ _ _ _ _ _ _ _ H) as H'. pose proof (GetKey_focus _ _ _ H') as Hkl. simpl. rewrite app_nil_r.
    destruct l as [|cl ll el kvl rl].
    { by mstep by (unfold find_step; rewrite Hh; mstep with Hc; mstep with (GetLeftChild_ok _ _ _ _ _ _ _ _ _ H); done). }
    pose proof (focus_range _ _ _ _ _ _ _ _ _ H'). rewrite <- (IHl fuel _ H' Hsl ltac:(lia)). mstep by (unfold find_step; rewrite Hh; mstep with Hc; mstep with (GetLeftChild_ok _ _ _ _ _ _ _ _ _ H);
      rewrite ptr_nonneg by (simpl in *; lia); cbn [IsHole]; mstep; mstep with Hkl; done). done.
  - by mstep by (unfold find_step; rewrite Hh; mstep with Hc; done).
  - pose proof (down_right _ _ _ _ _ _ _ _ _ H) as H'. pose proof (GetKey_focus _ _ _ H') as Hkl. simpl.
    destruct r as [|cl ll el kvl rl].
    { by mstep by (unfold find_step; rewrite Hh; mstep with Hc; mstep with (GetRightChild_ok _ _ _ _ _ _ _ _ _ H); done). }
    pose proof (focus_range _ _ _ _ _ _ _ _ _ H'). rewrite <- (IHr fuel _ H' Hsr ltac:(lia)). mstep by (unfold find_step; rewrite Hh; mstep with Hc; mstep with (GetRightChild_ok _ _ _ _ _ _ _ _ _ H);
      rewrite ptr_nonneg by (simpl in *; lia); cbn [IsHole]; mstep; mstep with Hkl; done). done.
Qed.

Lemma FindEntry_ok (a : TaggedArray) (t : Tree) :
  holds h a t [] -> sorted (inorder t) -> FindEntry ho env k a = (Ok (first_entry (-1) (part EQUAL k (inorder t))), a).
Proof.
  intros H Hs. unfold FindEntry, walk. mstep with (GetRootEntries_ok _ _ _ _ _ H). cbn [plug]. mstep with (GetKey_focus _ _ _ H). mstep with (Capacity_ok _ _ _ _ _ H).
  pose proof (context_length _ _ _ _ _ H). pose proof (height_entries t). eapply find_loop; [done..|lia].
Qed.

Lemma lower_loop (fuel : nat) (a : TaggedArray) (t : Tree) (ctx : Context_) (res : Z) :
  holds h a t ctx -> sorted (inorder t) -> (height t < fuel)%nat ->
  while_fuel fuel (lower_step ho env k) (idx t, key_at t, res) a = (Ok (last_entry res (part GREAT k (inorder t))), a).
Proof.
  revert fuel ctx res. induction t as [|c l IHl e kv r IHr]; intros fuel ctx res H Hs Hf; (destruct fuel as [|fuel]; [lia|]); cbn [while_fuel idx key_at]; [done|].
  destruct (sorted_node cmp good _ _ _ _ _ Hs) as (Hsl & Hsr & Hg). pose proof (EntryCompare_ok _ _ _ _ H Hg) as Hc. rewrite (lower_root cmp good) by done.
  pose proof (focus_range _ _ _ _ _ _ _ _ _ H) as He. cbn [height] in Hf.
  pose proof (down_left _ _ _ _ _ _ _ _ _ H) as Hl. pose proof (down_right _ _ _ _ _ _ _ _ _ H) as Hr.
  assert (lower_step ho env k (e, kv.1, res) a =
    (Ok (inl match cmp k kv.1 with GREAT => (idx r, key_at r, e) | _ => (idx l, key_at l, res) end), a)) as E.
  { unfold lower_step. zb. mstep with Hc. destruct (cmp k kv.1).
    all: first [mstep by (mstep with (GetLeftChildIndex_ok _ _ _ _ _ _ _ _ _ H); done); cbn [fst snd]; by mstep with (GetKey_focus _ _ _ Hl)
               |mstep by (mstep with (GetRightChildIndex_ok _ _ _ _ _ _ _ _ _ H); done); cbn [fst snd]; by mstep with (GetKey_focus _ _ _ Hr)]. }
  mstep with E. destruct (cmp k kv.1); [by eapply IHl; [..|lia] | by eapply IHl; [..|lia] | |by eapply IHl; [..|lia]].
  rewrite (IHr _ _ _ Hr Hsr) by lia. change ((e, kv) :: part GREAT k (inorder r)) with ([(e, kv)] ++ part GREAT k (inorder r)). by rewrite !last_entry_app.
Qed.

Lemma higher_loop (fuel : nat) (a : TaggedArray) (t : Tree) (ctx : Context_) (res : Z) :
  holds h a t ctx -> sorted (inorder t) -> (height t < fuel)%nat ->
  while_fuel fuel (higher_step ho env k) (idx t, key_at t, res) a = (Ok (first_entry res (part LESS k (inorder t))), a).
Proof.
  revert fuel ctx res. induction t as [|c l IHl e kv r IHr]; intros fuel ctx res H Hs Hf; (destruct fuel as [|fuel]; [lia|]); cbn [while_fuel idx key_at]; [done|].
  destruct (sorted_node cmp good _ _ _ _ _ Hs) as (Hsl & Hsr & Hg). pose proof (EntryCompare_ok _ _ _ _ H Hg) as Hc. rewrite (higher_root cmp good) by done.
  pose proof (focus_range _ _ _ _ _ _ _ _ _ H) as He. cbn [height] in Hf.
  pose proof (down_left _ _ _ _ _ _ _ _ _ H) as Hl. pose proof (down_right _ _ _ _ _ _ _ _ _ H) as Hr.
  assert (higher_step ho env k (e, kv.1, res) a =
    (Ok (inl match cmp k kv.1 with LESS => (idx l, key_at l, e) | _ => (idx r, key_at r, res) end), a)) as E.
  { unfold higher_step. zb. mstep with Hc. destruct (cmp k kv.1).
    all: first [mstep by (mstep with (GetLeftChildIndex_ok _ _ _ _ _ _ _ _ _ H); done); cbn [fst snd]; by mstep with (GetKey_focus _ _ _ Hl)
               |mstep by (mstep with (GetRightChildIndex_ok _ _ _ _ _ _ _ _ _ H); done); cbn [fst snd]; by mstep with (GetKey_focus _ _ _ Hr)]. }
  mstep with E. destruct (cmp k kv.1); [|by eapply IHr; [..|lia]..].
  rewrite (IHl _ _ _ Hl Hsl) by lia. by rewrite first_entry_app.
Qed.

Lemma part_in (p : ComparisonResult) (l : list (Z * KV)) (x : Z * KV) : x ∈ part p k l -> x ∈ l.
Proof. intros [_ H]%list_elem_of_filter. done. Qed.

Lemma GetLowerKey_ok (a : TaggedArray) (t : Tree) :
  holds h a t [] -> sorted (inorder t) -> GetLowerKey ho env k a = (Ok (last_key (part GREAT k (inorder t))), a).
Proof.
  intros H Hs. unfold GetLowerKey, walk. mstep with (GetRootEntries_ok _ _ _ _ _ H). cbn [plug]. mstep with (GetKey_focus _ _ _ H). rewrite <- bind_assoc. mstep with (Capacity_ok _ _ _ _ _ H).
  pose proof (context_length _ _ _ _ _ H). pose proof (height_entries t). mstep by (eapply lower_loop; [done..|lia]). apply (entry_key _ t); [done|]. apply last_at. apply part_in.
Qed.

Lemma GetHigherKey_ok (a : TaggedArray) (t : Tree) :
  holds h a t [] -> sorted (inorder t) -> GetHigherKey ho env k a = (Ok (first_key (part LESS k (inorder t))), a).
Proof.
  intros H Hs. unfold GetHigherKey, walk. mstep with (GetRootEntries_ok _ _ _ _ _ H). cbn [plug]. mstep with (GetKey_focus _ _ _ H). rewrite <- bind_assoc. mstep with (Capacity_ok _ _ _ _ _ H).
  pose proof (context_length _ _ _ _ _ H). pose proof (height_entries t). mstep by (eapply higher_loop; [done..|lia]). apply (entry_key _ t); [done|]. apply first_at. apply part_in.
Qed.

Lemma Get_ok (a : TaggedArray) (t : Tree) :
  holds h a t [] -> sorted (inorder t) ->
  Get ho env k a = (Ok (match part EQUAL k (inorder t) with [] => VUndefined | x :: _ => x.2.2 end), a).
Proof.
  intros H Hs. unfold Get. mstep with (FindEntry_ok _ _ H Hs). destruct (part EQUAL k (inorder t)) as [|x l] eqn:E; [done|].
  destruct (element_at a t x H) as (_ & Hv & Hr & _); [apply (part_in EQUAL); rewrite E; by left|]. cbn [first_entry]. by zb.
Qed.
End ordered.
(** ** Visiting every entry *)

(** The subtrees whose roots are in a queue. *)
Definition queued (a : TaggedArray) (q : list Tree) : Prop := Forall (fun t => t <> Leaf /\ exists ctx, holds h a t ctx) q.
Definition kid (t : Tree) : list Tree := match t with Leaf => [] | _ => [t] end.
Definition kids (l r : Tree) : list Tree := kid l ++ kid r.
Definition queue_size (q : list Tree) : nat := foldr (fun t n => length (entries t) + n)%nat O q.

Lemma kids_entries (a : TaggedArray) (c : TreeColor) (l : Tree) (e : Z) (kv : KV) (r : Tree) (ctx : Context_) :
  holds h a (Node c l e kv r) ctx ->
  idx <$> kids l r = (if 0 <=? idx l then [idx l] else []) ++ (if 0 <=? idx r then [idx r] else []) /\ queued a (kids l r) /\
  queue_size (kids l r) = (length (entries l) + length (entries r))%nat.
Proof.
  intros H. pose proof (down_left _ _ _ _ _ _ _ _ _ H) as Hl. pose proof (down_right _ _ _ _ _ _ _ _ _ H) as Hr. unfold kids, queued, queue_size.
  destruct l as [|cl ll el kvl rl], r as [|cr lr er kvr rr]; simpl;
    try pose proof (focus_range _ _ _ _ _ _ _ _ _ Hl); try pose proof (focus_range _ _ _ _ _ _ _ _ _ Hr); zb; (split; [done|split; [|lia]]);
    repeat constructor; (done || by eexists).
Qed.

Lemma queue_size_app (q1 q2 : list Tree) : queue_size (q1 ++ q2) = (queue_size q1 + queue_size q2)%nat.
Proof. unfold queue_size. induction q1 as [|t q1 IH]; simpl; lia. Qed.

Lemma has_value_loop (env : CompareEnv) (value : JSTaggedValue) (fuel : nat) (a : TaggedArray) (q : list Tree) :
  queued a q -> (queue_size q < fuel)%nat ->
  while_fuel fuel (has_value_step ho env value) (idx <$> q) a =
    (Ok (existsb (fun x : Z * KV => SameValue (env_heap env) x.2.2 value) (q ≫= inorder)), a).
Proof.
  revert q. induction fuel as [|fuel IH]; intros q Hq Hf; [lia|]. cbn [while_fuel]. destruct q as [|t q]; [done|]. apply Forall_cons_1 in Hq as [[Ht [ctx H]] Hq].
  destruct t as [|c l e kv r]; [done|]. destruct (kids_entries _ _ _ _ _ _ _ H) as (He & Hk & Hs). cbn [fmap list_fmap idx].
  assert (has_value_step ho env value (e :: (idx <$> q)) a =
    (Ok (if SameValue (env_heap env) kv.2 value then inr true else inl (idx <$> (q ++ kids l r))), a)) as E.
  { unfold has_value_step. mstep with (GetValue_ok _ _ _ _ _ _ _ _ _ H). destruct (SameValue _ _ _); [done|].
    mstep with (GetLeftChildIndex_ok _ _ _ _ _ _ _ _ _ H). mstep with (GetRightChildIndex_ok _ _ _ _ _ _ _ _ _ H). by rewrite fmap_app, He. }
  mstep with E. clear E. rewrite bind_cons, existsb_app. cbn [inorder]. rewrite existsb_app. cbn [existsb snd]. destruct (SameValue (env_heap env) kv.2 value).
  { simpl. by rewrite orb_true_r. }
  rewrite IH; [|by apply Forall_app|rewrite queue_size_app, Hs; unfold queue_size in *; simpl in Hf; rewrite length_app in Hf; simpl in Hf; lia].
  rewrite bind_app, existsb_app. do 2 f_equal. simpl orb. rewrite (orb_comm (existsb _ (q ≫= inorder))). f_equal. unfold kids.
  destruct l, r; simpl; by rewrite ?app_nil_r, ?existsb_app, ?orb_false_r.
Qed.

Lemma HasValue_ok (env : CompareEnv) (value : JSTaggedValue) (a : TaggedArray) (t : Tree) :
  holds h a t [] ->
  HasValue ho env value a = (Ok (existsb (fun x : Z * KV => SameValue (env_heap env) x.2.2 value) (inorder t)), a).
Proof.
  intros H. unfold HasValue, walk. pose proof (context_length _ _ _ _ _ H). mstep with (GetRootEntries_ok _ _ _ _ _ H). cbn [plug]. destruct t as [|c l e kv r]; [done|].
  pose proof (focus_range _ _ _ _ _ _ _ _ _ H). cbn [idx]. zb. mstep with (Capacity_ok _ _ _ _ _ H).
  rewrite (has_value_loop env value _ a [Node c l e kv r]); [|repeat constructor; [done|by eexists]|unfold queue_size; simpl in *; lia].
  by rewrite bind_cons, app_nil_r.
Qed.

(** The stack of GetSortArray: the entries above the focus that are behind it. *)
Fixpoint stack (ctx : Context_) : list Z :=
  match ctx with
  | [] => []
  | InLeft _ e _ _ :: ctx' => e :: stack ctx'
  | InRight _ _ _ _ :: ctx' => stack ctx'
  end.

Fixpoint leftmost (t : Tree) (ctx : Context_) : Context_ :=
  match t with
  | Leaf => ctx
  | Node c l e kv r => leftmost l (InLeft c e kv r :: ctx)
  end.

Lemma after_leftmost (t : Tree) (ctx : Context_) : after (leftmost t ctx) = inorder t ++ after ctx.
Proof. revert ctx. induction t as [|c l IHl e kv r _]; intros ctx; [done|]. simpl. rewrite IHl. simpl. by rewrite <- (assoc_L (++)). Qed.

Lemma push_loop (fuel : nat) (a : TaggedArray) (t : Tree) (ctx : Context_) :
  holds h a t ctx -> (length (entries t) < fuel)%nat ->
  while_fuel fuel (push_step ho) (idx t, stack ctx) a = (Ok (stack (leftmost t ctx)), a) /\ holds h a Leaf (leftmost t ctx).
Proof.
  revert fuel ctx. induction t as [|c l IHl e kv r _]; intros fuel ctx H Hf; (destruct fuel as [|fuel]; [lia|]); cbn [while_fuel idx]; [done|].
  pose proof (focus_range _ _ _ _ _ _ _ _ _ H). mstep by (unfold push_step; zb; mstep with (GetLeftChildIndex_ok _ _ _ _ _ _ _ _ _ H); done).
  simpl in Hf. rewrite length_app in Hf. simpl in Hf. exact (IHl fuel _ (down_left _ _ _ _ _ _ _ _ _ H) ltac:(lia)).
Qed.

(** The next entry behind the focus. *)
Lemma stack_top (a : TaggedArray) (t : Tree) (ctx : Context_) :
  holds h a t ctx ->
  match stack ctx with
  | [] => after ctx = []
  | top :: rest => exists c l kv r ctx', holds h a (Node c l top kv r) ctx' /\ stack ctx' = rest /\ after ctx = (top, kv) :: inorder r ++ after ctx'
  end.
Proof.
  revert t. induction ctx as [|f ctx IH]; intros t H; [done|]. pose proof (go_up _ _ _ _ _ _ H) as H'. destruct f as [c e kv r|c l e kv]; cbn [stack].
  - by exists c, t, kv, r, ctx.
  - exact (IH _ H').
Qed.

Lemma sort_step_ok (a : TaggedArray) (t : Tree) (ctx : Context_) :
  holds h a t ctx ->
  match inorder t ++ after ctx with
  | [] => sort_step ho (idx t, stack ctx) a = (Ok None, a)
  | x :: l => exists t' ctx', sort_step ho (idx t, stack ctx) a = (Ok (Some (x.1, (idx t', stack ctx'))), a) /\ holds h a t' ctx' /\ inorder t' ++ after ctx' = l
  end.
Proof.
  intros H. unfold sort_step, walk. pose proof (context_length _ _ _ _ _ H).
  destruct (push_loop (Datatypes.S (Z.to_nat (h_cap h))) _ _ _ H ltac:(lia)) as [Hp Hl]. pose proof (stack_top _ _ _ Hl) as Ht. rewrite after_leftmost in Ht.
  assert ((idx t <? 0) && (match stack ctx with [] => true | _ => false end) = bool_decide (inorder t ++ after ctx = [])) as ->.
  { pose proof (stack_top _ _ _ H) as Hs. destruct t as [|c l e kv r].
    - simpl. destruct (stack ctx); [by rewrite Hs|]. by destruct Hs as (? & ? & ? & ? & ? & _ & _ & ->).
    - pose proof (focus_range _ _ _ _ _ _ _ _ _ H). cbn [idx]. zb. symmetry. apply bool_decide_eq_false. simpl. by destruct (inorder l). }
  destruct (inorder t ++ after ctx) as [|x l] eqn:E; [done|]. cbn [bool_decide]. rewrite (bool_decide_eq_false_2 (x :: l = [])) by done.
  rewrite <- bind_assoc. mstep with (Capacity_ok _ _ _ _ _ H). mstep with Hp. destruct (stack (leftmost t ctx)) as [|top rest]; [done|].
  destruct Ht as (c & lt & kv & r & ctx' & Hn & Hs & Ha). simplify_eq/=. mstep with (GetRightChildIndex_ok _ _ _ _ _ _ _ _ _ Hn).
  exists r, (InRight c lt top kv :: ctx'). split; [done|]. split; [by apply (down_right ho)|done].
Qed.

Lemma sort_loop (fuel : nat) (a : TaggedArray) (t : Tree) (ctx : Context_) (out : TaggedArray) :
  holds h a t ctx -> (length (inorder t ++ after ctx) < fuel)%nat ->
  while_fuel fuel (fun vars : (Z * list Z) * Z =>
       let '(state, aid) := vars in
       next ← from a (sort_step ho state);
       match next with
       | None => mret (inr tt)
       | Some (top, state) => Arr.Set_ aid (VInt top);; mret (inl (state, aid + 1))
       end) ((idx t, stack ctx), lenZ out) (out ++ replicate (length (inorder t ++ after ctx)) VHole) =
    (Ok tt, out ++ ((fun x => VInt x.1) <$> (inorder t ++ after ctx))).
Proof.
  revert t ctx out. induction fuel as [|fuel IH]; intros t ctx out H Hf; [lia|]. cbn [while_fuel]. pose proof (sort_step_ok _ _ _ H) as Hs.
  destruct (inorder t ++ after ctx) as [|x l].
  - mstep by (mstep by (unfold from; rewrite Hs; done); done). done.
  - destruct Hs as (t' & ctx' & Hs & H' & El). simpl length in *. rewrite <- El in Hf. mstep by (mstep by (unfold from; rewrite Hs; done); cbn [replicate]; mstep by (by apply Set_mid); done).
    specialize (IH t' ctx' (out ++ [VInt x.1]) H' ltac:(lia)). rewrite lenZ_app, lenZ_cons, lenZ_nil, El in IH. rewrite <- !(assoc_L (++)) in IH. exact IH.
Qed.

Lemma GetSortArray_ok (a : TaggedArray) (t : Tree) :
  holds h a t [] -> h_n h = lenZ (inorder t) -> h_n h < 2 ^ 31 ->
  GetSortArray ho a = (Ok ((fun x => VInt x.1) <$> inorder t), a).
Proof.
  intros H Hn Hb. unfold GetSortArray. pose proof (lenZ_nonneg (inorder t)). mstep with (NumberOfElements_ok _ _ _ _ _ H ltac:(lia)). mstep with (GetRootEntries_ok _ _ _ _ _ H).
  mstep with (Capacity_ok _ _ _ _ _ H). mstep. cbn [plug]. pose proof (context_length _ _ _ _ _ H) as Hl. rewrite entries_inorder, length_fmap in Hl.
  pose proof (sort_loop (Datatypes.S (Z.to_nat (h_cap h))) a t [] [] H) as E. simpl after in E. rewrite app_nil_r in E. apply build_run.
  unfold Factory.NewTaggedArray. rewrite Hn. unfold lenZ. rewrite Nat2Z.id.
  specialize (E ltac:(lia)). by destruct (inorder t).
Qed.
End run.
End TreeSearch.
