(* ===== verification/TreeOps.v ===== *)
(** * TreeOps: what changes a TaggedTree.

    New entries, values, the removal of an entry, and the copies that make a
    tree larger or smaller, each as a function of the tree that the array
    holds.  Copying visits the entries level by level and numbers them anew;
    [renum] is the tree with the new numbers. *)
From stdpp Require Import sets sorting.
From S2P Require Import Prelude TaggedValue TaggedArray EcmaString TaggedTree TreeShape TreeBalance TreeSearch.
Local Open Scope Z_scope.

Module TreeOps.
Import TaggedTree TreeShape TreeBalance TreeSearch.

(** The header with other counts. *)
Definition with_n (n : Z) (h : Hdr) : Hdr := mkHdr n (h_d h) (h_cap h) (h_cmp h) (h_spare h).
Definition with_d (d : Z) (h : Hdr) : Hdr := mkHdr (h_n h) d (h_cap h) (h_cmp h) (h_spare h).
Definition with_spare (s : option (Z * TreeColor)) (h : Hdr) : Hdr := mkHdr (h_n h) (h_d h) (h_cap h) (h_cmp h) s.

(** What SetKey and SetValue leave in an entry: in a set they write the same
    word. *)
Definition stored (ho : Derived) (k v : JSTaggedValue) : KV := if ENTRY_VALUE_INDEX ho =? 0 then (v, v) else (k, v).

Section run.
Context (ho : Derived) `{HL : Layout ho}.
Notation holds := (holds ho).

Ltac layout_facts :=
  pose proof (layout_value (ho := ho)); pose proof (layout_color (ho := ho)); pose proof (layout_parent (ho := ho));
  pose proof (layout_left (ho := ho)); pose proof (layout_right (ho := ho)); pose proof (layout_size (ho := ho)).
Ltac fields := rewrite ?upd_fld; repeat (rewrite Z.eqb_refl || zb); try done; try lia.

(** ** Header words *)

Lemma of_uint32_small (v : Z) : 0 <= v < 2 ^ 31 -> of_uint32 v = VInt v.
Proof. intros Hv. unfold of_uint32, i32. rewrite Z.mod_small by lia. by zb. Qed.

Lemma set_header (a : TaggedArray) (i : Z) (v : JSTaggedValue) : 0 <= i < lenZ a -> Arr.Set_ i v a = (Ok tt, <[Z.to_nat i := v]> a).
Proof. intros Hi. unfold Arr.Set_. by zb. Qed.

(** Only the root and the words of the entries matter. *)
Lemma zip_ext (m m' : Mem) (sp : option (Z * TreeColor)) (t : Tree) (ctx : Context_) :
  m_cap m' = m_cap m -> m_root m' = m_root m -> (forall e f, fld m' e f = fld m e f) -> zip ho m sp t ctx -> zip ho m' sp t ctx.
Proof.
  intros Hc Hr Hf (H1 & H2 & H3 & H4 & H5). split; [|split; [|split; [|split]]].
  - by eapply shape_agree.
  - by eapply context_agree.
  - done.
  - intros e He. rewrite Hc in He. rewrite !Hf. by apply H4.
  - intros e c He. rewrite Hc, Hf. by apply H5.
Qed.

Section header.
Context (h : Hdr) (a : TaggedArray) (t : Tree) (ctx : Context_) (H : holds h a t ctx).

Lemma holds_length : lenZ a = 5 + h_cap h * ENTRY_SIZE ho /\ 5 <= lenZ a /\ 0 <= h_cap h /\ 5 + h_cap h * ENTRY_SIZE ho < 2 ^ 31.
Proof.
  destruct H as (m & -> & Hm & (_ & _ & <- & _) & _). pose proof (size_pos ho). rewrite (enc_length ho) by apply Hm. unfold fits, ELEMENTS_START_INDEX in Hm. nia.
Qed.

Lemma SetNumberOfElements_ok (n : Z) : 0 <= n < 2 ^ 31 ->
  exists a', SetNumberOfElements n a = (Ok tt, a') /\ holds (with_n n h) a' t ctx.
Proof.
  intros Hn. pose proof holds_length as (_ & Hl & _). destruct H as (m & -> & Hm & (_ & H2 & H3 & H4) & Hz). eexists. unfold SetNumberOfElements, NUMBER_OF_ELEMENTS_INDEX. rewrite u32_small, of_uint32_small by lia.
  rewrite set_header by lia. split; [done|]. exists (mkMem n (m_d m) (m_cap m) (m_root m) (m_cmp m) (fld m)). split; [done|]. split; [done|]. split; [done|]. by apply (zip_ext m).
Qed.

Lemma SetNumberOfDeletedElements_ok (d : Z) : 0 <= d < 2 ^ 31 ->
  exists a', SetNumberOfDeletedElements d a = (Ok tt, a') /\ holds (with_d d h) a' t ctx.
Proof.
  intros Hn. pose proof holds_length as (_ & Hl & _). destruct H as (m & -> & Hm & (H1 & _ & H3 & H4) & Hz). eexists. unfold SetNumberOfDeletedElements, NUMBER_OF_HOLE_ENTRIES_INDEX.
  unfold i32. rewrite Z.mod_small by lia. replace (d + 2 ^ 31 - 2 ^ 31) with d by lia. rewrite set_header by lia. split; [done|].
  exists (mkMem (m_n m) d (m_cap m) (m_root m) (m_cmp m) (fld m)). split; [done|]. split; [done|]. split; [done|]. by apply (zip_ext m).
Qed.

Lemma SetCompare_ok (fn : JSTaggedValue) :
  exists a', SetCompare fn a = (Ok tt, a') /\ holds (mkHdr (h_n h) (h_d h) (h_cap h) fn (h_spare h)) a' t ctx.
Proof.
  pose proof holds_length as (_ & Hl & _). destruct H as (m & -> & Hm & (H1 & H2 & H3 & _) & Hz). eexists. unfold SetCompare, COMPARE_FUNCTION_INDEX. rewrite set_header by lia. split; [done|].
  exists (mkMem (m_n m) (m_d m) (m_cap m) (m_root m) fn (fld m)). split; [done|]. split; [done|]. split; [done|]. by apply (zip_ext m).
Qed.
End header.

(** ** New entries *)

Lemma free_more (m : Mem) (es : list Z) (e : Z) : free ho m None es -> free ho m None (e :: es).
Proof. intros [H1 _]. split; [|done]. intros e' He' Hn. apply H1; [done|set_solver]. Qed.

(** An entry [e] outside of the tree becomes a subtree without children. *)
Lemma graft (m m1 : Mem) (ctx : Context_) (e : Z) (c : TreeColor) (kv : KV) :
  zip ho m None Leaf ctx -> 0 <= e < m_cap m -> e ∉ ctx_entries ctx ->
  m_cap m1 = m_cap m -> m_root m1 = m_root m -> (forall e' f, e' <> e -> fld m1 e' f = fld m e' f) ->
  node ho m1 e kv c (ctx_top ctx) (-1) (-1) -> zip ho (link ho m1 ctx e) None (Node c Leaf e kv Leaf) ctx.
Proof.
  intros (_ & Hc & Hd & Hf) He Hn Hcap Hroot Hm1 Hnode. simpl in Hc, Hd, Hf. assert (agree m m1 (ctx_entries ctx)) as Ha.
  { split; [done|]. intros e' f He'. apply Hm1. by intros ->. }
  split; [|split; [|split]].
  - simpl. split_and!; try done. eapply (node_agree ho m1 _ _ _ _ _ _ _ [e]); [apply agree_link; set_solver|by left|done].
  - eapply context_link; [done..|]. by eapply context_agree.
  - simpl. by apply list.NoDup_cons.
  - simpl. apply (free_link ho); [set_solver|]. apply (free_more _ _ e) in Hf. destruct Hf as [H1 _]. split; [|done]. intros e' He' Hn' _.
    rewrite !Hm1 by set_solver. rewrite Hcap in He'. by apply H1.
Qed.
(** The words that the new entry gets. *)
Lemma new_node (m : Mem) (e p : Z) (k v : JSTaggedValue) (c : TreeColor) :
  0 <= e < m_cap m -> IsHole (stored ho k v).1 = false ->
  fld m e (ENTRY_LEFT_CHILD_INDEX ho) = VHole -> fld m e (ENTRY_RIGHT_CHILD_INDEX ho) = VHole ->
  let m1 := upd (upd m e 0 k) e (ENTRY_VALUE_INDEX ho) v in
  node ho (upd (upd m1 e (ENTRY_COLOR_INDEX ho) (VInt (color_value c))) e (ENTRY_PARENT_INDEX ho) (VInt p)) e (stored ho k v) c p (-1) (-1) /\
  node ho (upd (upd m1 e (ENTRY_PARENT_INDEX ho) (VInt p)) e (ENTRY_COLOR_INDEX ho) (VInt (color_value c))) e (stored ho k v) c p (-1) (-1).
Proof.
  layout_facts. intros He Hk Hl Hr m1. unfold node, m1, stored in *. cbn [upd m_cap]. destruct (ENTRY_VALUE_INDEX ho =? 0) eqn:E; cbn [fst snd] in *;
  split; split_and!; fields.
Qed.

Lemma InsertEntry_ok (h : Hdr) (a : TaggedArray) (f : Frame) (ctx : Context_) (e : Z) (k v : JSTaggedValue) :
  holds h a Leaf (f :: ctx) -> h_spare h = None -> 0 <= e < h_cap h -> e ∉ ctx_entries (f :: ctx) -> IsHole (stored ho k v).1 = false ->
  exists a', (if frame_left f then InsertLeftEntry ho (frame_entry f) e k v else InsertRightEntry ho (frame_entry f) e k v) a = (Ok tt, a') /\
    holds h a' (Node RED Leaf e (stored ho k v) Leaf) (f :: ctx).
Proof.
  intros H Hsp He Hn Hk. pose proof (holds_length _ _ _ _ H) as (_ & _ & _ & Hcap). pose proof (size_pos ho).
  destruct H as (m & -> & Hm & (H1 & H2 & H3 & H4) & Hz). rewrite Hsp in Hz. rewrite <- H3 in *. destruct Hz as (Hs & Hc & Hd & Hf).
  assert (0 <= frame_entry f < m_cap m) as Hp by (destruct f; simpl in Hc; by destruct Hc as (((? & _) & _) & _)).
  destruct Hf as [Hf Hf']. destruct (Hf e He ltac:(by simpl) ltac:(done)) as [Hl Hr].
  destruct (new_node m e (frame_entry f) k v RED He Hk Hl Hr) as [Hnode _]. cbv zeta in Hnode.
  set (m1 := upd (upd (upd (upd m e 0 k) e (ENTRY_VALUE_INDEX ho) v) e (ENTRY_COLOR_INDEX ho) (VInt (color_value RED))) e (ENTRY_PARENT_INDEX ho) (VInt (frame_entry f))) in *.
  exists (enc ho (link ho m1 (f :: ctx) e)). split.
  - assert (of_uint32 (frame_entry f) = VInt (frame_entry f) /\ of_uint32 e = ptr e) as [E1 E2] by (rewrite ptr_nonneg, !of_uint32_small by nia; done).
    destruct f as [c p kv r|c l p kv]; cbn [frame_left frame_entry link] in *; unfold InsertLeftEntry, InsertRightEntry; rewrite E1, E2;
      (mstep by (by apply mem_SetKey)); (mstep by (by apply mem_SetValue)); (mstep by (by apply mem_SetColor)); (mstep by (by apply mem_SetParent));
      [by apply mem_SetLeftChild|by apply mem_SetRightChild].
  - exists (link ho m1 (f :: ctx) e). destruct (cap_link ho m1 (f :: ctx) e) as (G1 & G2 & G3 & G4). split; [done|]. split; [by apply fits_link|].
    rewrite G1, G2, G3, G4. split; [done|]. rewrite Hsp. apply (graft m m1); try done. intros e' f' Hne. unfold m1. by fields.
Qed.

Lemma SetRoot_ok (h : Hdr) (a : TaggedArray) (k v : JSTaggedValue) :
  holds h a Leaf [] -> h_spare h = None -> 0 < h_cap h -> IsHole (stored ho k v).1 = false ->
  exists a', SetRoot ho 0 k v a = (Ok tt, a') /\ holds h a' (Node BLACK Leaf 0 (stored ho k v) Leaf) [].
Proof.
  intros (m & -> & Hm & (H1 & H2 & H3 & H4) & Hz) Hsp Hc Hk. rewrite Hsp in Hz. rewrite <- H3 in *.
  assert (0 <= 0 < m_cap m) as He by lia. destruct Hz as (Hs & Hc' & Hd & Hf). destruct Hf as [Hf Hf']. destruct (Hf 0 He ltac:(simpl; set_solver) ltac:(done)) as [Hl Hr].
  destruct (new_node m 0 (-1) k v BLACK He Hk Hl Hr) as [_ Hnode]. cbv zeta in Hnode.
  set (m1 := upd (upd (upd (upd m 0 0 k) 0 (ENTRY_VALUE_INDEX ho) v) 0 (ENTRY_PARENT_INDEX ho) (VInt (-1))) 0 (ENTRY_COLOR_INDEX ho) (VInt (color_value BLACK))) in *.
  exists (enc ho (link ho m1 [] 0)). split.
  - unfold SetRoot. mstep by (by apply mem_SetKey). mstep by (by apply mem_SetValue). mstep by (by apply mem_SetParent). mstep by (by apply mem_SetColor). by apply mem_SetRootEntries.
  - exists (link ho m1 [] 0). split; [done|]. split; [done|]. split; [done|]. rewrite Hsp. apply (graft m m1); try done; [simpl; set_solver|]. intros e' f' Hne. unfold m1. by fields.
Qed.

(** ** The key and the value of an entry *)

Lemma rewrite_data (m m1 : Mem) (sp : option (Z * TreeColor)) (c : TreeColor) (l : Tree) (e : Z) (kv kv' : KV) (r : Tree) (ctx : Context_) :
  zip ho m sp (Node c l e kv r) ctx -> m_cap m1 = m_cap m -> m_root m1 = m_root m ->
  (forall e' f, e' <> e \/ (f <> 0 /\ f <> ENTRY_VALUE_INDEX ho) -> fld m1 e' f = fld m e' f) ->
  fld m1 e 0 = kv'.1 -> fld m1 e (ENTRY_VALUE_INDEX ho) = kv'.2 -> IsHole kv'.1 = false -> zip ho m1 sp (Node c l e kv' r) ctx.
Proof.
  layout_facts. intros (Hs & Hc & Hd & (Hf1 & Hf2)) Hcap Hroot Hm1 Hk Hv Hh. simpl in Hs, Hc. destruct Hs as (((He & _) & _ & Hcc & Hp & Hl & Hr) & Hsl & Hsr).
  assert (e ∉ entries l /\ e ∉ entries r /\ e ∉ ctx_entries ctx) as (N1 & N2 & N3).
  { simpl in Hd. rewrite !list.NoDup_app, list.NoDup_cons in Hd. set_solver. }
  assert (forall es, e ∉ es -> agree m m1 es) as Ha by (intros es Hn; split; [done|]; intros e' f He'; apply Hm1; left; by intros ->).
  split; [|split; [|split]]; simpl in *.
  - split_and!; [|by eapply (shape_agree ho m); [apply Ha|]..]. unfold node. rewrite Hcap, Hk, Hv, !Hm1 by (right; lia). done.
  - by eapply (context_agree ho m); [apply Ha|..].
  - done.
  - split.
    + intros e' He' Hn Hsp. rewrite Hcap in He'. rewrite !Hm1 by (right; lia). by apply Hf1.
    + intros e' c' Hsp. rewrite Hcap, Hm1 by (right; lia). by apply Hf2.
Qed.

Lemma tree_SetValue_ok (h : Hdr) (a : TaggedArray) (c : TreeColor) (l : Tree) (e : Z) (kv : KV) (r : Tree) (ctx : Context_) (v : JSTaggedValue) :
  holds h a (Node c l e kv r) ctx -> IsHole (stored ho kv.1 v).1 = false ->
  exists a', SetValue ho e v a = (Ok tt, a') /\ holds h a' (Node c l e (stored ho kv.1 v) r) ctx.
Proof.
  layout_facts. intros Ha Hk. pose proof (focus_range _ _ _ _ _ _ _ _ _ Ha) as He. destruct Ha as (m & -> & Hm & Hh & Hz). rewrite <- (proj1 (proj2 (proj2 Hh))) in He.
  eexists. split; [by apply mem_SetValue|]. eexists. split; [done|]. split; [done|]. split; [done|]. eapply rewrite_data; [done|done|done|..].
  - intros e' f Hef. rewrite upd_fld. destruct (Z.eqb_spec e' e), (Z.eqb_spec f (ENTRY_VALUE_INDEX ho)); (done || lia).
  - destruct Hz as (((_ & (Hk0 & _) & _) & _) & _). unfold stored. fields. destruct (ENTRY_VALUE_INDEX ho =? 0) eqn:E; fields.
  - unfold stored. fields. by destruct (ENTRY_VALUE_INDEX ho =? 0).
  - done.
Qed.
(** The words of an element, wherever the focus is. *)
Lemma zip_plug (m : Mem) (sp : option (Z * TreeColor)) (t : Tree) (ctx : Context_) : zip ho m sp t ctx <-> zip ho m sp (plug t ctx) [].
Proof. revert t. induction ctx as [|f ctx IH]; intros t; [done|]. by rewrite zip_fill, IH. Qed.

Lemma element_words (m : Mem) (sp : option (Z * TreeColor)) (t : Tree) (ctx : Context_) (s : Z) (kv : KV) :
  zip ho m sp t ctx -> (s, kv) ∈ inorder (plug t ctx) ->
  0 <= s < m_cap m /\ IsHole kv.1 = false /\ fld m s 0 = kv.1 /\ fld m s (ENTRY_VALUE_INDEX ho) = kv.2.
Proof.
  intros Hz (l1 & l2 & Hx)%list_elem_of_split. destruct (focus_on _ _ _ _ _ Hx) as (c & l & r & ctx' & E & _ & _).
  apply zip_plug in Hz. rewrite E in Hz. apply zip_plug in Hz as (((Hk & Hkv & _) & _) & _). tauto.
Qed.

Lemma CopyData_ok (h : Hdr) (a : TaggedArray) (c : TreeColor) (l : Tree) (e : Z) (kv : KV) (r : Tree) (ctx : Context_) (s : Z) (kv' : KV) :
  holds h a (Node c l e kv r) ctx -> (s, kv') ∈ inorder (plug (Node c l e kv r) ctx) -> s <> e ->
  exists a', CopyData ho e s a = (Ok tt, a') /\ holds h a' (Node c l e kv' r) ctx.
Proof.
  layout_facts. intros Ha Hs Hne. pose proof (focus_range _ _ _ _ _ _ _ _ _ Ha) as He. destruct Ha as (m & -> & Hm & Hh & Hz). rewrite <- (proj1 (proj2 (proj2 Hh))) in He.
  destruct (element_words _ _ _ _ _ _ Hz Hs) as (Hr & Hk & Hk0 & Hv). eexists. split.
  - unfold CopyData. mstep by (by apply mem_GetKey). mstep by (by apply mem_SetKey). mstep by (by apply mem_GetValue). by apply mem_SetValue.
  - eexists. split; [done|]. split; [done|]. split; [done|]. eapply rewrite_data; [done|done|done|..].
    + intros e' f Hef. rewrite !upd_fld. destruct (Z.eqb_spec e' e), (Z.eqb_spec f (ENTRY_VALUE_INDEX ho)), (Z.eqb_spec f 0); (done || lia).
    + destruct (Z.eqb_spec 0 (ENTRY_VALUE_INDEX ho)) as [E|E]; fields. by rewrite <- Hk0, E.
    + fields.
    + done.
Qed.

(** ** Taking an entry out of the tree *)

(** The only child of a node that has at most one. *)
Definition only_child (l r : Tree) : Tree := match l with Leaf => r | _ => l end.

Lemma only_child_entries (l r : Tree) : l = Leaf \/ r = Leaf -> inorder (only_child l r) = inorder l ++ inorder r.
Proof. intros [->| ->]; simpl; [done|]. rewrite app_nil_r. by destruct l. Qed.

(** Transplant and then writing the parent of the new child. *)
Lemma transplant_zip (m : Mem) (c : TreeColor) (l : Tree) (s : Z) (kv : KV) (r : Tree) (ctx : Context_) :
  zip ho m None (Node c l s kv r) ctx -> l = Leaf \/ r = Leaf ->
  let i := idx (only_child l r) in zip ho (reparent ho (link ho m ctx i) i (ctx_top ctx)) (Some (s, c)) (only_child l r) ctx.
Proof.
  layout_facts. intros (Hs & Hc & Hd & Hf) Hlr i. simpl in Hs. destruct Hs as (((He & _) & _ & Hcc & _) & Hsl & Hsr). simpl in Hd, Hf.
  set (t := only_child l r) in *. assert (entries l ++ s :: entries r ≡ₚ s :: entries t) as Hp by (destruct Hlr as [->| ->]; unfold t; simpl; [done|]; destruct l; [done|]; by rewrite <- Permutation_middle, app_nil_r).
  rewrite Hp in Hd, Hf. simpl in Hd, Hf. apply list.NoDup_cons in Hd as [Hns Hd]. apply list.NoDup_app in Hd as (Hdt & Hdj & Hdc). rewrite not_elem_of_app in Hns. destruct Hns as [Hst Hsc].
  assert (shape ho m s t) as Ht by (unfold t; destruct Hlr as [->| ->]; simpl; [done|]; by destruct l).
  pose proof (idx_entries ho m s t Ht) as Hi.
  assert (forall es, (forall x, x ∈ ctx_entries ctx -> x ∉ es) -> agree m (link ho m ctx i) es) as Hal by (intros es Hes; by apply agree_link).
  assert (forall es, (forall x, x ∈ ctx_entries ctx -> x ∉ es) -> idx t ∉ es \/ idx t = -1 -> agree m (reparent ho (link ho m ctx i) i (ctx_top ctx)) es) as Har.
  { intros es Hes Hit. eapply agree_trans; [by apply Hal|]. apply agree_reparent. unfold i. intros Hi0. destruct Hit; [done|lia]. }
  split; [|split; [|split]].
  - eapply shape_reparent; [done..|]. eapply (shape_agree ho m); [|done]. apply Hal. intros x Hx Hx'. by apply (Hdj x).
  - assert (idx t = -1 \/ idx t ∉ ctx_entries ctx) as Hit by (destruct Hi as [Hi|Hi]; [by left|right; by apply Hdj]).
    eapply (context_agree ho (link ho m ctx i)); [apply agree_reparent; unfold i; intros ?; destruct Hit; [lia|done]|by unfold reparent; destruct (i <? 0)|]. by eapply context_link.
  - apply list.NoDup_app. done.
  - assert (free ho (reparent ho (link ho m ctx i) i (ctx_top ctx)) None (s :: entries t ++ ctx_entries ctx)) as [F1 _].
    { apply free_reparent; [unfold i; intros ?; destruct Hi; [lia|set_solver]|]. apply (free_link ho); [set_solver|done]. }
    destruct (Har [s]) as [Hcap Hfld]; [set_solver| |]. { destruct Hi as [Hi|Hi]; [by right|left; set_solver]. }
    split.
    + intros e' He' Hn Hsp. apply F1; [done| |done]. apply not_elem_of_cons. split; [|done]. intros ->. by apply Hsp.
    + intros e' c' [= <- <-]. rewrite Hcap, Hfld by set_solver. split; [done|]. split; [set_solver|done].
Qed.

Lemma Transplant_ok (h : Hdr) (a : TaggedArray) (c : TreeColor) (l : Tree) (s : Z) (kv : KV) (r : Tree) (ctx : Context_) :
  holds h a (Node c l s kv r) ctx -> h_spare h = None -> l = Leaf \/ r = Leaf ->
  exists a', Transplant ho s (idx (only_child l r)) a = (Ok tt, a') /\ holds (with_spare (Some (s, c)) h) a' (only_child l r) ctx.
Proof.
  intros H Hsp Hlr. pose proof (GetParent_ok _ _ _ _ _ _ _ _ _ H) as HP. assert (forall f ctx', ctx = f :: ctx' -> IsLeft ho s a = (Ok (frame_left f), a)) as HI.
  { intros f ctx' ->. by eapply IsLeft_ok. }
  destruct H as (m & -> & Hm & Hh & Hz). rewrite Hsp in Hz. pose proof (transplant_zip _ _ _ _ _ _ _ Hz Hlr) as Hz'. cbv zeta in Hz'. set (i := idx (only_child l r)) in *.
  assert (i = -1 \/ 0 <= i < m_cap m) as Hi.
  { unfold i. destruct Hz as ((_ & Hsl & Hsr) & _). destruct Hlr as [->| ->]; simpl; [destruct (idx_cases _ _ _ _ Hsr) as [->|]; [by left|by right]|].
    destruct l; [by left|]. destruct (idx_cases _ _ _ _ Hsl) as [?|]; [done|by right]. }
  assert (fits ho (link ho m ctx i) /\ m_cap (link ho m ctx i) = m_cap m) as [Hm' Hc'] by (split; [by apply fits_link|apply cap_link]).
  exists (enc ho (reparent ho (link ho m ctx i) i (ctx_top ctx))). split.
  - unfold Transplant. mstep with HP. assert (SetParent ho i (VInt (ctx_top ctx)) (enc ho (link ho m ctx i)) = (Ok tt, enc ho (reparent ho (link ho m ctx i) i (ctx_top ctx)))) as HSP.
    { unfold reparent. destruct Hi as [->|Hi]; [done|]. zb. apply (mem_SetParent ho); [done|]. by rewrite Hc'. }
    destruct ctx as [|f ctx]; cbn [ctx_top] in *; [mstep by (by apply mem_SetRootEntries); exact HSP|].
    assert (0 <= frame_entry f < m_cap m) as Hp by (destruct Hz as (_ & Hc & _); destruct f; simpl in Hc; by destruct Hc as (((? & _) & _) & _)). zb.
    rewrite <- bind_assoc. mstep with (HI f ctx eq_refl). fold (ptr i).
    destruct f; cbn [frame_left frame_entry] in *; (mstep by (by apply mem_SetLeftChild || by apply mem_SetRightChild)); exact HSP.
  - eexists. split; [done|]. destruct (cap_link ho m ctx i) as (G1 & G2 & G3 & G4).
    assert (forall p, m_n (reparent ho (link ho m ctx i) i p) = m_n m /\ m_d (reparent ho (link ho m ctx i) i p) = m_d m /\ m_cap (reparent ho (link ho m ctx i) i p) = m_cap m /\ m_cmp (reparent ho (link ho m ctx i) i p) = m_cmp m) as G
      by (intros p; unfold reparent; destruct (i <? 0); done).
    destruct (G (ctx_top ctx)) as (-> & -> & -> & ->). split; [by apply fits_reparent|]. split; [done|exact Hz'].
Qed.

Lemma tree_RemoveEntry_ok (h : Hdr) (a : TaggedArray) (t : Tree) (ctx : Context_) (s : Z) (c : TreeColor) :
  holds h a t ctx -> h_spare h = Some (s, c) -> exists a', RemoveEntry ho s a = (Ok tt, a') /\ holds (with_spare None h) a' t ctx.
Proof.
  layout_facts. intros (m & -> & Hm & Hh & Hz) Hsp. rewrite Hsp in Hz. destruct Hz as (Hs & Hc & Hd & Hf1 & Hf2). destruct (Hf2 s c eq_refl) as (He & Hn & _).
  eexists. split.
  - unfold RemoveEntry. mstep by (by apply mem_SetKey). mstep by (by apply mem_SetParent). mstep by (by apply mem_SetLeftChild). mstep by (by apply mem_SetRightChild). by apply mem_SetValue.
  - eexists. split; [done|]. split; [done|]. split; [done|]. set (m1 := upd _ _ _ _).
    assert (forall es, s ∉ es -> agree m m1 es) as Ha by (intros es Hes; split; [done|]; intros e' f' He'; unfold m1; assert (e' <> s) by (by intros ->); by fields).
    rewrite not_elem_of_app in Hn. destruct Hn as [Hnt Hnc]. split; [|split; [|split]].
    + by eapply (shape_agree ho m); [apply Ha|].
    + by eapply (context_agree ho m); [apply Ha|..].
    + done.
    + split; [|done]. intros e' He' Hn' _. unfold m1. destruct (decide (e' = s)) as [->|Hne]; [split; fields|]. fields. apply Hf1; [done|done|]. simpl. congruence.
Qed.
(** The tree without an entry that has at most one child. *)
Definition cut (c : TreeColor) (l r : Tree) (ctx : Context_) : Tree :=
  match only_child l r, c with
  | Leaf, BLACK => plug Leaf (del_ctx ctx)
  | Leaf, RED => plug Leaf ctx
  | t, RED => plug t ctx
  | t, BLACK => match color t with RED => plug (paint BLACK t) ctx | BLACK => plug t (del_ctx ctx) end
  end.

Lemma spare_color (h : Hdr) (a : TaggedArray) (t : Tree) (ctx : Context_) (s : Z) (c : TreeColor) :
  holds h a t ctx -> h_spare h = Some (s, c) -> GetColor ho s a = (Ok c, a).
Proof.
  intros (m & -> & Hm & _ & (_ & _ & _ & _ & Hf)) Hsp. destruct (Hf s c Hsp) as (He & _ & Hc). by apply mem_GetColor.
Qed.

Lemma unlink_ok (h : Hdr) (a : TaggedArray) (c : TreeColor) (l : Tree) (s : Z) (kv : KV) (r : Tree) (ctx : Context_) :
  holds h a (Node c l s kv r) ctx -> h_spare h = None -> l = Leaf \/ r = Leaf -> black_root ctx ->
  exists a', unlink ho s a = (Ok tt, a') /\ holds h a' (cut c l r ctx) [].
Proof.
  intros H Hsp Hlr Hb. unfold unlink. mstep with (GetLeftChild_ok _ _ _ _ _ _ _ _ _ H). mstep with (GetRightChild_ok _ _ _ _ _ _ _ _ _ H).
  set (t := only_child l r). assert ((if IsHole (ptr (idx l)) then (if IsHole (ptr (idx r)) then mret (-1) else GetInt (ptr (idx r))) else GetInt (ptr (idx l))) a = (Ok (idx t), a)) as Hchild.
  { pose proof (down_left _ _ _ _ _ _ _ _ _ H) as Hl. pose proof (down_right _ _ _ _ _ _ _ _ _ H) as Hr.
    unfold t. destruct l as [|cl ll el kvl rl]; cbn [idx only_child] in *; [destruct r as [|cr lr er kvr rr]; [done|]; cbn [idx]|].
    - apply (focus_range ho) in Hr as [? _]. by rewrite (ptr_nonneg er).
    - apply (focus_range ho) in Hl as [? _]. by rewrite (ptr_nonneg el). }
  mstep with Hchild. assert (t = Leaf \/ 0 <= idx t) as Ht.
  { pose proof (down_left _ _ _ _ _ _ _ _ _ H) as Hl. pose proof (down_right _ _ _ _ _ _ _ _ _ H) as Hr.
    unfold t. destruct l; simpl; [destruct r; [by left|]|]; right; [by apply (focus_range ho) in Hr as [? _]|by apply (focus_range ho) in Hl as [? _]]. }
  assert (forall h' : Hdr, h_spare h' = None -> with_spare None (with_spare (Some (s, c)) h') = h') as Hws by (intros [? ? ? ? ?]; simpl; by intros ->).
  destruct (decide (idx t < 0)) as [Hneg|Hpos].
  - destruct Ht as [Ht|Ht]; [|lia]. assert (l = Leaf /\ r = Leaf) as [-> ->] by (unfold t in Ht; destruct l; [by split|done]). rewrite Ht. cbn [idx]. zb.
    assert (exists a1, (c0 ← GetColor ho s; match c0 with BLACK => DeleteRebalance ho s | RED => mret tt end) a = (Ok tt, a1) /\
      holds h a1 (Node c Leaf s kv Leaf) (match c with BLACK => del_ctx ctx | RED => ctx end)) as (a1 & R1 & H1).
    { mstep with (GetColor_node _ _ _ _ _ _ _ _ _ H). destruct c; [|by exists a]. exact (DeleteRebalance_ok ho h a _ ctx H ltac:(done) Hb). }
    mstep with R1. destruct (Transplant_ok _ _ _ _ _ _ _ _ H1 Hsp ltac:(by left)) as (a2 & R2 & H2). mstep with R2. mstep.
    destruct (tree_RemoveEntry_ok _ _ _ _ s c H2 eq_refl) as (a3 & R3 & H3). exists a3. split; [done|]. rewrite Hws in H3 by done. apply (proj1 (holds_plug ho _ _ _ _)) in H3. by destruct c.
  - destruct Ht as [Ht|_]; [rewrite Ht in Hpos; simpl in Hpos; lia|]. zb. mstep. destruct (Transplant_ok _ _ _ _ _ _ _ _ H Hsp Hlr) as (a1 & R1 & H1). fold t in R1, H1. mstep with R1.
    assert (t <> Leaf) as Hnl by (intros E; rewrite E in Hpos; simpl in Hpos; lia).
    assert (exists a2, (c0 ← GetColor ho s; match c0 with BLACK => DeleteRebalance ho (idx t) | RED => mret tt end) a1 = (Ok tt, a2) /\ holds (with_spare (Some (s, c)) h) a2 (cut c l r ctx) []) as (a2 & R2 & H2).
    { mstep with (spare_color _ _ _ _ s c H1 eq_refl). unfold cut. fold t. destruct c.
      - destruct (DeleteRebalance_ok ho _ _ _ _ H1 Hnl Hb) as (a2 & R2 & H2). exists a2. split; [done|]. destruct (color t) eqn:E; apply (proj1 (holds_plug ho _ _ _ _)) in H2; destruct t; by rewrite ?E.
      - exists a1. split; [done|]. apply (proj1 (holds_plug ho _ _ _ _)) in H1. by destruct t. }
    mstep with R2. destruct (tree_RemoveEntry_ok _ _ _ _ s c H2 eq_refl) as (a3 & R3 & H3). exists a3. split; [done|]. by rewrite Hws in H3.
Qed.

Lemma cut_inorder (c : TreeColor) (l r : Tree) (ctx : Context_) :
  l = Leaf \/ r = Leaf -> inorder (cut c l r ctx) = before ctx ++ (inorder l ++ inorder r) ++ after ctx.
Proof.
  intros Hlr. rewrite <- (only_child_entries l r Hlr). destruct (del_ctx_order ctx) as [E1 E2]. unfold cut. destruct (only_child l r) as [|ct lt et kvt rt]; destruct c; try destruct (color _); simpl color;
    try destruct ct; rewrite !inorder_plug, ?E1, ?E2, ?inorder_paint; done.
Qed.

Lemma cut_rb (n : nat) (c : TreeColor) (l : Tree) (s : Z) (kv : KV) (r : Tree) (ctx : Context_) :
  rb n (Node c l s kv r) -> ctx_rb n ctx -> (top_color ctx = RED -> c = BLACK) -> l = Leaf \/ r = Leaf ->
  exists m, rb m (cut c l r ctx) /\ color (cut c l r ctx) = BLACK.
Proof.
  intros Hn Hc Htop Hlr. unfold cut. destruct (only_child l r) as [|ct lt et kvt rt] eqn:E.
  - assert (l = Leaf /\ r = Leaf) as [-> ->] by (destruct l; [by split|done]). destruct c.
    + simpl in Hn. destruct n as [|n]; [done|]. destruct Hn as [-> _]. apply del_ctx_rb in Hc. by apply (plug_rb 0).
    + simpl in Hn. destruct Hn as (_ & _ & -> & _). by apply (plug_rb 0).
  - assert (exists n', rb n' (Node ct lt et kvt rt) /\ match c with BLACK => n = 1%nat /\ n' = O | RED => n = O /\ n' = O /\ ct = BLACK end) as (n' & Ht & Hcase).
    { destruct Hlr as [->| ->]; simpl in E; [subst r|destruct l; [done|]; injection E as -> -> -> -> ->]; simpl in Hn; (destruct c; [destruct n as [|n]; [done|]|]); simpl in Hn; exists O; naive_solver. }
    destruct c.
    + destruct Hcase as [-> ->]. simpl color. destruct ct; [done|]. apply (plug_rb 1); [|done|done]. simpl in *. tauto.
    + destruct Hcase as (_ & -> & ->). done.
Qed.
Lemma plug_app (t : Tree) (c1 c2 : Context_) : plug t (c1 ++ c2) = plug (plug t c1) c2.
Proof. revert t. induction c1 as [|f c1 IH]; intros t; [done|]. apply IH. Qed.

Lemma holds_app (h : Hdr) (a : TaggedArray) (t : Tree) (c1 c2 : Context_) : holds h a (plug t c1) c2 <-> holds h a t (c1 ++ c2).
Proof. by rewrite (holds_plug ho _ _ t), plug_app, <- (holds_plug ho). Qed.

Lemma before_app (c1 c2 : Context_) : before (c1 ++ c2) = before c2 ++ before c1.
Proof. induction c1 as [|[] c1 IH]; simpl; rewrite ?IH, ?app_nil_r, ?(assoc_L (++)); done. Qed.

Lemma after_app (c1 c2 : Context_) : after (c1 ++ c2) = after c1 ++ after c2.
Proof. induction c1 as [|[] c1 IH]; simpl; rewrite ?IH, <- ?(assoc_L (++)); done. Qed.

(** The red-black invariant of a whole tree. *)
Definition balanced (t : Tree) : Prop := color t = BLACK /\ exists n, rb n t.

Lemma balanced_focus (t : Tree) (ctx : Context_) :
  balanced (plug t ctx) -> exists n, rb n t /\ ctx_rb n ctx /\ (top_color ctx = RED -> color t = BLACK).
Proof. intros [Hc [n Hn]]. by eapply unplug_rb. Qed.

Lemma balanced_plug (n : nat) (t : Tree) (ctx : Context_) :
  rb n t -> ctx_rb n ctx -> (top_color ctx = RED -> color t = BLACK) -> balanced (plug t ctx).
Proof. intros Ht Hc Htop. destruct (plug_rb n t ctx Ht Hc Htop) as (m & Hm & Hb). split; [done|by exists m]. Qed.

Lemma balanced_data (c : TreeColor) (l : Tree) (e : Z) (kv kv' : KV) (r : Tree) (ctx : Context_) :
  balanced (plug (Node c l e kv r) ctx) -> balanced (plug (Node c l e kv' r) ctx).
Proof. intros (n & Hn & Hc & Ht)%balanced_focus. by eapply balanced_plug. Qed.

Lemma inorder_nil (t : Tree) : inorder t = [] -> t = Leaf.
Proof. destruct t; [done|]. simpl. by intros [_ ?]%app_eq_nil. Qed.

(** The entry that is taken out, its own or its successor's, after the data was
    moved. *)
Lemma remove_focus (h : Hdr) (a : TaggedArray) (c : TreeColor) (l : Tree) (e : Z) (kv : KV) (r : Tree) (ctx : Context_) :
  holds h a (Node c l e kv r) ctx -> balanced (plug (Node c l e kv r) ctx) -> l <> Leaf -> r <> Leaf ->
  exists s kvs cs rs ctx' a', GetSuccessor ho e a = (Ok s, a) /\ CopyData ho e s a = (Ok tt, a') /\
    holds h a' (Node cs Leaf s kvs rs) ctx' /\ balanced (plug (Node cs Leaf s kvs rs) ctx') /\
    (before ctx' ++ inorder rs ++ after ctx').*2 = (before ctx ++ (inorder l ++ inorder r) ++ after ctx).*2 /\
    (before ctx' ++ inorder rs ++ after ctx').*1 ⊆ entries (plug (Node c l e kv r) ctx).
Proof.
  intros H Hb Hl Hr. pose proof (GetSuccessor_ok _ _ _ _ _ _ _ _ _ H) as Hs. destruct (inorder r) as [|[s kvs] rest] eqn:Er; [by apply inorder_nil in Er|]. simpl in Hs.
  destruct (focus_on r [] rest s kvs Er) as (cs & ls & rs & ctxs & Ers & Hbs & Has). symmetry in Hbs. apply app_eq_nil in Hbs as [Hbs Hls]. apply inorder_nil in Hls as ->.
  assert (s <> e) as Hne. { intros ->. pose proof (holds_nodup _ _ _ _ _ H) as Hd. rewrite (entries_inorder (Node c l e kv r)) in Hd. cbn [inorder] in Hd. rewrite Er, fmap_app in Hd. simpl in Hd.
    rewrite !list.NoDup_app, !list.NoDup_cons in Hd. set_solver. }
  destruct (CopyData_ok _ _ _ _ _ _ _ _ s kvs H) as (a' & Rc & H'); [rewrite inorder_plug; cbn [inorder]; rewrite Er; set_solver|done|].
  exists s, kvs, cs, rs, (ctxs ++ InRight c l e kvs :: ctx), a'. split; [done|]. split; [done|]. split_and!.
  - apply holds_app, (holds_fill ho). cbn [fill]. by rewrite <- Ers.
  - rewrite plug_app, <- Ers. by apply balanced_data with kv.
  - rewrite before_app, after_app, Hbs, Has. cbn [before after]. rewrite !fmap_app, !fmap_cons, !fmap_app. cbn [fmap list_fmap snd]. rewrite app_nil_r, <- !(assoc_L (++)). simpl. by rewrite <- !(assoc_L (++)).
  - rewrite entries_inorder, inorder_plug, before_app, after_app, Hbs. cbn [before after inorder]. rewrite Er, Has, !fmap_app, !fmap_cons, !fmap_app. cbn [fmap list_fmap fst]. set_solver.
Qed.

Lemma Remove_ok (h : Hdr) (a : TaggedArray) (c : TreeColor) (l : Tree) (e : Z) (kv : KV) (r : Tree) (ctx : Context_) :
  holds h a (Node c l e kv r) ctx -> h_spare h = None -> balanced (plug (Node c l e kv r) ctx) ->
  0 < h_n h < 2 ^ 31 -> 0 <= h_d h < 2 ^ 31 - 1 ->
  exists a' t', Remove ho e a = (Ok tt, a') /\ holds (with_d (h_d h + 1) (with_n (h_n h - 1) h)) a' t' [] /\ balanced t' /\
    (inorder t').*2 = (before ctx ++ (inorder l ++ inorder r) ++ after ctx).*2 /\ entries t' ⊆ entries (plug (Node c l e kv r) ctx).
Proof.
  intros H Hsp Hb Hn Hd. unfold Remove.
  assert (forall s ls kvs cs rs ctx' a1, holds h a1 (Node cs ls s kvs rs) ctx' -> balanced (plug (Node cs ls s kvs rs) ctx') -> ls = Leaf \/ rs = Leaf ->
    exists a' t', (unlink ho s;; n ← NumberOfElements; SetNumberOfElements (n - 1);; d ← NumberOfDeletedElements; SetNumberOfDeletedElements (d + 1)) a1 = (Ok tt, a') /\
      holds (with_d (h_d h + 1) (with_n (h_n h - 1) h)) a' t' [] /\ balanced t' /\ inorder t' = before ctx' ++ (inorder ls ++ inorder rs) ++ after ctx') as Htail.
  { intros s ls kvs cs rs ctx' a1 H1 Hb1 Hlr. apply balanced_focus in Hb1 as (n & Hrb & Hc & Htop).
    destruct (unlink_ok _ _ _ _ _ _ _ _ H1 Hsp Hlr (ctx_rb_root _ _ Hc)) as (a2 & R2 & H2). mstep with R2. mstep with (NumberOfElements_ok _ _ _ _ _ H2 ltac:(lia)).
    destruct (SetNumberOfElements_ok _ _ _ _ H2 (h_n h - 1) ltac:(lia)) as (a3 & R3 & H3). mstep with R3. mstep with (NumberOfDeletedElements_ok _ _ _ _ _ H3 ltac:(simpl; lia)).
    destruct (SetNumberOfDeletedElements_ok _ _ _ _ H3 (h_d h + 1) ltac:(lia)) as (a4 & R4 & H4). exists a4, (cut cs ls rs ctx'). split; [done|]. split; [done|].
    destruct (cut_rb _ _ _ _ _ _ _ Hrb Hc Htop Hlr) as (m & Hm & Hbl). split; [split; [done|by exists m]|by apply cut_inorder]. }
  assert (forall a1 s, a1 = a -> s = e -> l = Leaf \/ r = Leaf -> exists a' t', (unlink ho s;; n ← NumberOfElements; SetNumberOfElements (n - 1);; d ← NumberOfDeletedElements; SetNumberOfDeletedElements (d + 1)) a1 = (Ok tt, a') /\
      holds (with_d (h_d h + 1) (with_n (h_n h - 1) h)) a' t' [] /\ balanced t' /\
    (inorder t').*2 = (before ctx ++ (inorder l ++ inorder r) ++ after ctx).*2 /\ entries t' ⊆ entries (plug (Node c l e kv r) ctx)) as Hone.
  { intros a1 s -> -> Hlr. destruct (Htail _ _ _ _ _ _ _ H Hb Hlr) as (a' & t' & R & H' & Hb' & Ho). exists a', t'. split_and!; try done; [by rewrite Ho|].
    rewrite !entries_inorder, Ho, inorder_plug. cbn [inorder]. rewrite !fmap_app. simpl. set_solver. }
  pose proof (down_left _ _ _ _ _ _ _ _ _ H) as Hl. pose proof (down_right _ _ _ _ _ _ _ _ _ H) as Hr.
  mstep with (GetLeftChild_ok _ _ _ _ _ _ _ _ _ H). destruct l as [|cl ll el kvl rl]; [mstep; mstep; by apply Hone; [..|left]|].
  apply (focus_range ho) in Hl as [Hl _]. rewrite (ptr_nonneg (idx _)) by done. cbn [IsHole]. rewrite <- bind_assoc. mstep with (GetRightChild_ok _ _ _ _ _ _ _ _ _ H). mstep.
  destruct r as [|cr lr er kvr rr]; [mstep; by apply Hone; [..|right]|]. apply (focus_range ho) in Hr as [Hr _]. rewrite (ptr_nonneg (idx _)) by done. cbn [IsHole negb].
  destruct (remove_focus _ _ _ _ _ _ _ _ H Hb ltac:(done) ltac:(done)) as (s & kvs & cs & rs & ctx' & a1 & R0 & R1 & H1 & Hb1 & Hd2 & He).
  rewrite <- bind_assoc. mstep with R0. rewrite <- bind_assoc. mstep with R1. mstep.
  destruct (Htail _ _ _ _ _ _ _ H1 Hb1 ltac:(by left)) as (a' & t' & R & H' & Hb' & Ho). exists a', t'. split_and!; try done; [by rewrite Ho|by rewrite entries_inorder, Ho].
Qed.
End run.
End TreeOps.
