(* ===== verification/TreeCopy.v ===== *)
(** * TreeCopy: making a TaggedTree larger or smaller.

    AdjustTaggedTree extends the array when no entry was removed.  Otherwise it
    copies the entries level by level into a new array, where they get the
    numbers 0, 1, 2, ...: [bfs] is the order in which it meets the subtrees,
    and the position of a subtree in it becomes the number of its root. *)
From stdpp Require Import sets sorting.
From S2P Require Import Prelude TaggedValue TaggedArray EcmaString TaggedTree TreeShape TreeBalance TreeSearch TreeOps.
Local Open Scope Z_scope.

Module TreeCopy.
Import TaggedTree TreeShape TreeBalance TreeSearch TreeOps.

(** ** The order of the copy *)

Fixpoint bfs (fuel : nat) (q : list Tree) : list Tree :=
  match fuel, q with
  | S fuel', Node c l e kv r :: q' => Node c l e kv r :: bfs fuel' (q' ++ kids l r)
  | _, _ => []
  end.

Definition not_leaf (t : Tree) : Prop := t <> Leaf.

Lemma kids_size (l r : Tree) : queue_size (kids l r) = (length (entries l) + length (entries r))%nat /\ Forall not_leaf (kids l r).
Proof.
  unfold kids, kid, queue_size. destruct l, r; simpl; (split; [lia|]); repeat constructor; done.
Qed.

Lemma node_size (c : TreeColor) (l : Tree) (e : Z) (kv : KV) (r : Tree) (q : list Tree) :
  queue_size (Node c l e kv r :: q) = S (queue_size (q ++ kids l r)).
Proof. rewrite queue_size_app, (proj1 (kids_size l r)). unfold queue_size. simpl. rewrite length_app. simpl. lia. Qed.

Lemma bfs_length (fuel : nat) (q : list Tree) : Forall not_leaf q -> (queue_size q <= fuel)%nat -> length (bfs fuel q) = queue_size q.
Proof.
  revert q. induction fuel as [|fuel IH]; intros q Hq Hf; destruct q as [|[|c l e kv r] q]; try done; try (by apply Forall_cons_1 in Hq as [? _]); rewrite node_size in *; [lia|].
  apply Forall_cons_1 in Hq as [_ Hq]. simpl. rewrite IH; [done|apply Forall_app; split; [done|apply kids_size]|lia].
Qed.

(** The queue is next in the order. *)
Lemma bfs_prefix (fuel : nat) (q : list Tree) (j : nat) (t : Tree) :
  Forall not_leaf q -> (queue_size q <= fuel)%nat -> q !! j = Some t -> bfs fuel q !! j = Some t.
Proof.
  revert q j. induction fuel as [|fuel IH]; intros q j Hq Hf Hj; destruct q as [|[|c l e kv r] q]; try done; try (by apply Forall_cons_1 in Hq as [? _]); rewrite node_size in *; [lia|].
  apply Forall_cons_1 in Hq as [_ Hq]. destruct j as [|j]; [done|]. simpl in *. apply IH; [apply Forall_app; split; [done|apply kids_size]|lia|by apply lookup_app_l_Some].
Qed.

Section copy.
Context (ho : Derived) `{HL : Layout ho}.
Notation holds := (holds ho).

Ltac layout_facts :=
  pose proof (layout_value (ho := ho)); pose proof (layout_color (ho := ho)); pose proof (layout_parent (ho := ho));
  pose proof (layout_left (ho := ho)); pose proof (layout_right (ho := ho)); pose proof (layout_size (ho := ho)).
Ltac fields := rewrite ?upd_fld; repeat (rewrite Z.eqb_refl || zb); try done; try lia.

(** ** An array whose capacity is not written yet *)

Definition hide (a : TaggedArray) : TaggedArray := <[2%nat := VHole]> a.

Lemma hidden_Set (m : Mem) (e f : Z) (v : JSTaggedValue) :
  fits ho m -> 0 <= e < m_cap m -> 0 <= f < ENTRY_SIZE ho ->
  Arr.Set_ (EntryToIndex ho e + f) v (hide (enc ho m)) = (Ok tt, hide (enc ho (upd m e f v))).
Proof.
  intros Hm He Hf. pose proof (Set_field ho m e f v Hm He Hf) as Hs. revert Hs. unfold Arr.Set_, hide, lenZ. rewrite length_insert.
  destruct ((0 <=? EntryToIndex ho e + f) && (EntryToIndex ho e + f <? Z.of_nat (length (enc ho m)))); [|done]. intros [= <-]. f_equal. apply list_insert_insert_ne.
  rewrite (tree_EntryToIndex ho m) by done. pose proof (size_pos ho). nia.
Qed.

Section setters.
Context (m : Mem) (Hm : fits ho m) (e : Z) (He : 0 <= e < m_cap m) (v : JSTaggedValue).

Lemma hidden_SetKey : SetKey ho e v (hide (enc ho m)) = (Ok tt, hide (enc ho (upd m e 0 v))).
Proof. unfold SetKey, SetElement. rewrite <- (Z.add_0_r (EntryToIndex ho e)). pose proof (size_pos ho). apply hidden_Set; (done || lia). Qed.

Lemma hidden_SetValue : SetValue ho e v (hide (enc ho m)) = (Ok tt, hide (enc ho (upd m e (ENTRY_VALUE_INDEX ho) v))).
Proof. layout_facts. apply hidden_Set; [done|done|lia]. Qed.

Lemma hidden_SetColor (c : TreeColor) : SetColor ho e c (hide (enc ho m)) = (Ok tt, hide (enc ho (upd m e (ENTRY_COLOR_INDEX ho) (VInt (color_value c))))).
Proof. layout_facts. unfold SetColor. zb. apply hidden_Set; [done|done|lia]. Qed.

Lemma hidden_SetParent : SetParent ho e v (hide (enc ho m)) = (Ok tt, hide (enc ho (upd m e (ENTRY_PARENT_INDEX ho) v))).
Proof. layout_facts. unfold SetParent. zb. apply hidden_Set; [done|done|lia]. Qed.

Lemma hidden_SetLeftChild : SetLeftChild ho e v (hide (enc ho m)) = (Ok tt, hide (enc ho (upd m e (ENTRY_LEFT_CHILD_INDEX ho) v))).
Proof. layout_facts. apply hidden_Set; [done|done|lia]. Qed.

Lemma hidden_SetRightChild : SetRightChild ho e v (hide (enc ho m)) = (Ok tt, hide (enc ho (upd m e (ENTRY_RIGHT_CHILD_INDEX ho) v))).
Proof. layout_facts. apply hidden_Set; [done|done|lia]. Qed.
End setters.

(** ** The store while a tree is copied *)

Lemma old_read {A} (st : Store) (x a : TaggedArray) (tree : Z) (m : M TaggedArray A) (r : A) :
  st !! Z.to_nat tree = Some a -> m a = (Ok r, a) -> on_table tree m (st ++ [x]) = (Ok r, st ++ [x]).
Proof. intros Hs Hm. apply (on_table_read _ _ a); [by apply lookup_app_l_Some|done]. Qed.

Lemma new_run {A} (st : Store) (x x' : TaggedArray) (m : M TaggedArray A) (r : A) :
  m x = (Ok r, x') -> on_table (lenZ st) m (st ++ [x]) = (Ok r, st ++ [x']).
Proof.
  intros Hm. assert ((st ++ [x]) !! Z.to_nat (lenZ st) = Some x) as Hs by (unfold lenZ; rewrite Nat2Z.id; by apply list_lookup_middle).
  rewrite (on_table_run _ _ _ _ _ _ Hs Hm). f_equal. unfold lenZ. rewrite Nat2Z.id. rewrite insert_app_r_alt by lia. by rewrite Nat.sub_diag.
Qed.
(** ** What has been copied *)

Section order.
Context (F : list Tree).

(** Word [w] of entry [j] points to the copy of the subtree [x], and back. *)
Definition kid_ok (m : Mem) (b : nat) (j : nat) (w : Z) (x : Tree) : Prop :=
  match x with
  | Leaf => fld m (Z.of_nat j) w = VHole
  | _ => exists i, (0 < i < b)%nat /\ F !! i = Some x /\ fld m (Z.of_nat j) w = VInt (Z.of_nat i) /\ fld m (Z.of_nat i) (ENTRY_PARENT_INDEX ho) = VInt (Z.of_nat j)
  end.

Definition entry_ok (m : Mem) (b : nat) (j : nat) (t : Tree) : Prop :=
  match t with
  | Leaf => True
  | Node c l e kv r =>
      fld m (Z.of_nat j) 0 = kv.1 /\ fld m (Z.of_nat j) (ENTRY_VALUE_INDEX ho) = kv.2 /\ fld m (Z.of_nat j) (ENTRY_COLOR_INDEX ho) = VInt (color_value c) /\
      kid_ok m b j (ENTRY_LEFT_CHILD_INDEX ho) l /\ kid_ok m b j (ENTRY_RIGHT_CHILD_INDEX ho) r
  end.

(** The entries before [i] are copied, and those before [b] have a parent. *)
Definition copied (m : Mem) (i b : nat) : Prop :=
  (forall j t, (j < i)%nat -> F !! j = Some t -> entry_ok m b j t) /\
  (forall e, Z.of_nat i <= e -> fld m e (ENTRY_LEFT_CHILD_INDEX ho) = VHole /\ fld m e (ENTRY_RIGHT_CHILD_INDEX ho) = VHole) /\
  fld m 0 (ENTRY_PARENT_INDEX ho) = VInt (-1).

(** Attach the subtree [x] as a child of entry [i] at position [b]. *)
Definition attach (m : Mem) (i b : nat) (w : Z) (x : Tree) : Mem :=
  match x with
  | Leaf => m
  | _ => upd (upd m (Z.of_nat i) w (VInt (Z.of_nat b))) (Z.of_nat b) (ENTRY_PARENT_INDEX ho) (VInt (Z.of_nat i))
  end.

Definition next_pos (b : nat) (x : Tree) : nat := match x with Leaf => b | _ => S b end.

(** Words that an update does not reach. *)
Lemma kid_ok_agree (m m' : Mem) (b b' j : nat) (w : Z) (x : Tree) :
  kid_ok m b j w x -> fld m' (Z.of_nat j) w = fld m (Z.of_nat j) w -> (b <= b')%nat ->
  (forall i, (0 < i < b)%nat -> fld m' (Z.of_nat i) (ENTRY_PARENT_INDEX ho) = fld m (Z.of_nat i) (ENTRY_PARENT_INDEX ho)) -> kid_ok m' b' j w x.
Proof.
  intros Hk Hw Hb Hp. destruct x; simpl in *; [congruence|]. destruct Hk as (i & Hi & HF & H1 & H2). exists i. rewrite Hw, Hp by done. split; [lia|done].
Qed.

Lemma attach_fld (m : Mem) (i b : nat) (w : Z) (x : Tree) (e f : Z) :
  (e <> Z.of_nat i \/ f <> w) -> (e <> Z.of_nat b \/ f <> ENTRY_PARENT_INDEX ho) -> fld (attach m i b w x) e f = fld m e f.
Proof.
  intros H1 H2. destruct x; [done|]. simpl. destruct (Z.eqb_spec e (Z.of_nat b)), (Z.eqb_spec f (ENTRY_PARENT_INDEX ho)), (Z.eqb_spec e (Z.of_nat i)), (Z.eqb_spec f w); simpl; (done || lia).
Qed.

Lemma attach_kid (m : Mem) (i b : nat) (w : Z) (x : Tree) :
  (0 < b)%nat -> (i < b)%nat -> w <> ENTRY_PARENT_INDEX ho -> (x <> Leaf -> F !! b = Some x) -> fld m (Z.of_nat i) w = VHole ->
  kid_ok (attach m i b w x) (next_pos b x) i w x.
Proof.
  intros Hb Hi Hw HF Hh. destruct x; [done|]. simpl. exists b. split; [lia|]. split; [by apply HF|]. rewrite !Z.eqb_refl. rewrite (proj2 (Z.eqb_neq (Z.of_nat i) (Z.of_nat b))) by lia. simpl.
  done.
Qed.

(** The memory after a round. *)
Definition copy_entry (m : Mem) (i : nat) (c : TreeColor) (kv : KV) : Mem :=
  upd (upd (upd m (Z.of_nat i) 0 kv.1) (Z.of_nat i) (ENTRY_COLOR_INDEX ho) (VInt (color_value c))) (Z.of_nat i) (ENTRY_VALUE_INDEX ho) kv.2.

Definition round (m : Mem) (i b : nat) (c : TreeColor) (l : Tree) (kv : KV) (r : Tree) : Mem :=
  copy_entry (attach (attach m i b (ENTRY_LEFT_CHILD_INDEX ho) l) i (next_pos b l) (ENTRY_RIGHT_CHILD_INDEX ho) r) i c kv.

Lemma copy_entry_fld (m : Mem) (i : nat) (c : TreeColor) (kv : KV) (e f : Z) :
  e <> Z.of_nat i \/ ENTRY_PARENT_INDEX ho <= f -> fld (copy_entry m i c kv) e f = fld m e f.
Proof.
  layout_facts. intros He. unfold copy_entry. rewrite !upd_fld.
  destruct (Z.eqb_spec e (Z.of_nat i)), (Z.eqb_spec f 0), (Z.eqb_spec f (ENTRY_COLOR_INDEX ho)), (Z.eqb_spec f (ENTRY_VALUE_INDEX ho)); simpl; (done || lia).
Qed.

Lemma round_fld (m : Mem) (i b : nat) (c : TreeColor) (l : Tree) (kv : KV) (r : Tree) (e f : Z) :
  e <> Z.of_nat i -> f <> ENTRY_PARENT_INDEX ho \/ e < Z.of_nat b -> fld (round m i b c l kv r) e f = fld m e f.
Proof. intros He Hf. unfold round. rewrite copy_entry_fld, !attach_fld; [done|..]; destruct l; simpl; lia. Qed.

Lemma round_copied (m : Mem) (i b : nat) (c : TreeColor) (l : Tree) (e : Z) (kv : KV) (r : Tree) :
  copied m i b -> (i < b)%nat -> F !! i = Some (Node c l e kv r) ->
  (ENTRY_VALUE_INDEX ho = 0 -> kv.1 = kv.2) ->
  (l <> Leaf -> F !! b = Some l) -> (r <> Leaf -> F !! next_pos b l = Some r) ->
  copied (round m i b c l kv r) (S i) (next_pos (next_pos b l) r).
Proof.
  layout_facts. intros (Hc & Hfree & Hroot) Hib HFi Hkv Hl Hr. destruct (Hfree (Z.of_nat i) ltac:(lia)) as [Hli Hri].
  assert (b <= next_pos b l <= S b)%nat as Hb1 by (destruct l; simpl; lia). assert (next_pos b l <= next_pos (next_pos b l) r)%nat as Hb2 by (destruct r; simpl; lia).
  split; [|split].
  - intros j t Hj Ht. destruct (decide (j = i)) as [->|Hne].
    + rewrite HFi in Ht. injection Ht as <-. cbn [entry_ok]. unfold round. set (m2 := attach (attach m i b (ENTRY_LEFT_CHILD_INDEX ho) l) i (next_pos b l) (ENTRY_RIGHT_CHILD_INDEX ho) r).
      assert (forall x, fld (copy_entry m2 i c kv) (Z.of_nat i) x = if x =? ENTRY_VALUE_INDEX ho then kv.2 else if x =? ENTRY_COLOR_INDEX ho then VInt (color_value c) else if x =? 0 then kv.1 else fld m2 (Z.of_nat i) x) as E
        by (intros x; unfold copy_entry; rewrite !upd_fld, !Z.eqb_refl; done).
      rewrite !E. rewrite !Z.eqb_refl. zb. split; [destruct (Z.eqb_spec 0 (ENTRY_VALUE_INDEX ho)); [by rewrite Hkv|by zb]|]. split; [done|]. split; [done|]. split.
      * eapply (kid_ok_agree (attach m i b (ENTRY_LEFT_CHILD_INDEX ho) l)).
        { apply attach_kid; [lia|lia|lia|done|done]. }
        { rewrite E. zb. unfold m2. apply attach_fld; lia. }
        { lia. }
        { intros i' Hi'. rewrite copy_entry_fld by lia. unfold m2. apply attach_fld; lia. }
      * eapply (kid_ok_agree m2).
        { apply attach_kid; [lia|lia|lia|done|]. rewrite attach_fld by lia. done. }
        { rewrite E. by zb. }
        { lia. }
        { intros i' Hi'. apply copy_entry_fld. lia. }
    + specialize (Hc j t ltac:(lia) Ht). destruct t as [|c' l' e' kv' r']; [done|]. cbn [entry_ok] in *. rewrite !(round_fld m i b) by lia. destruct Hc as (H5 & H6 & H7 & H8 & H9).
      split_and!; try done; (eapply kid_ok_agree; [done|apply round_fld; lia|lia|]; intros i' Hi'; destruct (decide (i' = i)) as [->|?];
        [unfold round; rewrite copy_entry_fld, !attach_fld by lia; done|apply round_fld; lia]).
  - intros e' He'. rewrite !(round_fld m i b) by lia. apply Hfree. lia.
  - destruct i as [|i]; [|rewrite (round_fld m (S i) b) by lia; done]. unfold round. rewrite copy_entry_fld, !attach_fld by lia. done.
Qed.
End order.
(** ** The loop of AdjustTaggedTree *)

Section loop.
Context (st : Store) (tree : Z) (a : TaggedArray) (h : Hdr) (Htree : st !! Z.to_nat tree = Some a).

Lemma attach_cap (m : Mem) (i b : nat) (w : Z) (x : Tree) : m_cap (attach m i b w x) = m_cap m.
Proof. by destruct x. Qed.

Lemma attach_run (set : Z -> JSTaggedValue -> M TaggedArray unit) (w : Z) (m : Mem) (i b : nat) (x : Tree) :
  (forall m e v, fits ho m -> 0 <= e < m_cap m -> set e v (hide (enc ho m)) = (Ok tt, hide (enc ho (upd m e w v)))) ->
  fits ho m -> Z.of_nat i < m_cap m -> (x <> Leaf -> Z.of_nat b < m_cap m) -> (x = Leaf \/ 0 <= idx x) ->
  (if IsHole (ptr (idx x)) then mret ([], Z.of_nat b)
   else
     l ← GetInt (ptr (idx x));
     on_table (lenZ st) (set (Z.of_nat i) (VInt (Z.of_nat b)));;
     on_table (lenZ st) (SetParent ho (Z.of_nat b) (VInt (Z.of_nat i)));;
     mret ([l], Z.of_nat b + 1)) (st ++ [hide (enc ho m)]) =
  (Ok (idx <$> kid x, Z.of_nat (next_pos b x)), st ++ [hide (enc ho (attach m i b w x))]).
Proof.
  intros Hset Hm Hi Hb Hx. destruct x as [|c l e kv r]; [done|]. destruct Hx as [?|Hx]; [done|]. rewrite ptr_nonneg by done. cbn [IsHole]. specialize (Hb ltac:(done)). mstep.
  mstep by (apply new_run; apply Hset; [done|lia]). mstep by (apply new_run; apply hidden_SetParent; [done|simpl; lia]). cbn [attach next_pos kid fmap list_fmap idx].
  by replace (Z.of_nat b + 1) with (Z.of_nat (S b)) by lia.
Qed.

Lemma CopyEntry_run (m : Mem) (i : nat) (c : TreeColor) (l : Tree) (e : Z) (kv : KV) (r : Tree) (ctx : Context_) :
  holds h a (Node c l e kv r) ctx -> fits ho m -> Z.of_nat i < m_cap m ->
  CopyEntry ho tree e (lenZ st) (Z.of_nat i) (st ++ [hide (enc ho m)]) = (Ok tt, st ++ [hide (enc ho (copy_entry m i c kv))]).
Proof.
  intros H Hm Hi. unfold CopyEntry. mstep by (eapply old_read; [exact Htree|by eapply GetKey_ok]). mstep by (apply new_run; apply hidden_SetKey; [done|lia]).
  mstep by (eapply old_read; [exact Htree|by eapply GetColor_node]). mstep by (apply new_run; apply hidden_SetColor; [done|simpl; lia]).
  mstep by (eapply old_read; [exact Htree|by eapply GetValue_ok]). apply new_run. apply hidden_SetValue; [done|simpl; lia].
Qed.

Lemma round_run (m : Mem) (i b : nat) (q : list Tree) (c : TreeColor) (l : Tree) (e : Z) (kv : KV) (r : Tree) (ctx : Context_) :
  holds h a (Node c l e kv r) ctx -> fits ho m -> Z.of_nat i < m_cap m -> (l <> Leaf -> Z.of_nat b < m_cap m) -> (r <> Leaf -> Z.of_nat (next_pos b l) < m_cap m) ->
  adjust_step ho tree (lenZ st) (idx <$> (Node c l e kv r :: q), Z.of_nat i, Z.of_nat b) (st ++ [hide (enc ho m)]) =
    (Ok (inl (idx <$> (q ++ kids l r), Z.of_nat (S i), Z.of_nat (next_pos (next_pos b l) r))), st ++ [hide (enc ho (round m i b c l kv r))]).
Proof.
  intros H Hm Hi Hb Hb'. assert ((l = Leaf \/ 0 <= idx l) /\ (r = Leaf \/ 0 <= idx r)) as [Hl Hr].
  { pose proof (down_left _ _ _ _ _ _ _ _ _ H) as Hl. pose proof (down_right _ _ _ _ _ _ _ _ _ H) as Hr.
    split; [destruct l; [by left|right]; by apply (focus_range ho) in Hl as [? _]|destruct r; [by left|right]; by apply (focus_range ho) in Hr as [? _]]. }
  unfold adjust_step. cbn [fmap list_fmap idx]. mstep by (eapply old_read; [exact Htree|by eapply GetLeftChild_ok]).
  mstep by (apply (attach_run (SetLeftChild ho) (ENTRY_LEFT_CHILD_INDEX ho)); [intros; by apply hidden_SetLeftChild|done..]).
  mstep by (eapply old_read; [exact Htree|by eapply GetRightChild_ok]).
  mstep by (apply (attach_run (SetRightChild ho) (ENTRY_RIGHT_CHILD_INDEX ho)); [intros; by apply hidden_SetRightChild|by destruct l|rewrite attach_cap; done..|done]).
  mstep by (eapply CopyEntry_run; [done|by destruct l, r|rewrite !attach_cap; done]). unfold kids. rewrite !fmap_app. replace (Z.of_nat i + 1) with (Z.of_nat (S i)) by lia. done.
Qed.

(** Rounds of the loop keep everything but the words of the entries. *)
Definition same_header (m m' : Mem) : Prop := m_n m' = m_n m /\ m_d m' = m_d m /\ m_cap m' = m_cap m /\ m_root m' = m_root m /\ m_cmp m' = m_cmp m.

Lemma round_header (m : Mem) (i b : nat) (c : TreeColor) (l : Tree) (kv : KV) (r : Tree) : same_header m (round m i b c l kv r).
Proof. unfold same_header, round, copy_entry. by destruct l, r. Qed.

Lemma adjust_loop (fuel : nat) (F ahead q : list Tree) (m : Mem) :
  F = ahead ++ bfs fuel q -> queued ho h a q -> (queue_size q < fuel)%nat -> (0 < length ahead + length q)%nat ->
  fits ho m -> Z.of_nat (length F) <= m_cap m -> (ENTRY_VALUE_INDEX ho = 0 -> Forall (fun t => forall x, x ∈ inorder t -> x.2.1 = x.2.2) q) ->
  copied F m (length ahead) (length ahead + length q) ->
  exists m', while_fuel fuel (adjust_step ho tree (lenZ st)) (idx <$> q, Z.of_nat (length ahead), Z.of_nat (length ahead + length q)) (st ++ [hide (enc ho m)]) =
      (Ok tt, st ++ [hide (enc ho m')]) /\ copied F m' (length F) (length F) /\ same_header m m'.
Proof.
  revert ahead q m. induction fuel as [|fuel IH]; intros ahead q m HF Hq Hf H0 Hm Hcap Hset Hc; [lia|]. cbn [while_fuel]. destruct q as [|t q].
  { mstep. exists m. simpl in HF. rewrite app_nil_r in HF. subst F. simpl in Hc. by rewrite Nat.add_0_r in Hc. }
  apply Forall_cons_1 in Hq as [[Ht [ctx H]] Hq]. destruct t as [|c l e kv r]; [done|]. simpl in HF. set (i := length ahead) in *. set (b := (i + length (Node c l e kv r :: q))%nat) in *.
  rewrite node_size in Hf. assert (Forall not_leaf (q ++ kids l r)) as Hnl by (apply Forall_app; split; [eapply list.Forall_impl; [exact Hq|]; by intros t [? _]|apply kids_size]).
  assert (forall j x, (q ++ kids l r) !! j = Some x -> F !! (S i + j)%nat = Some x) as HFj.
  { intros j x Hj. rewrite HF. rewrite lookup_app_r by (unfold i; lia). unfold i. replace (S (length ahead) + j - length ahead)%nat with (S j) by lia. simpl. apply bfs_prefix; [done|lia|done]. }
  assert (l <> Leaf -> F !! b = Some l) as HFl. { intros Hl. replace b with (S i + length q)%nat by (unfold b; simpl; lia). apply HFj. unfold kids, kid. destruct l; [done|]. by apply list_lookup_middle. }
  assert (r <> Leaf -> F !! next_pos b l = Some r) as HFr.
  { intros Hr. replace (next_pos b l) with (S i + (length q + length (kid l)))%nat by (unfold b; destruct l; simpl; lia). apply HFj. unfold kids. rewrite lookup_app_r by lia.
    replace (length q + length (kid l) - length q)%nat with (length (kid l)) by lia. rewrite lookup_app_r by lia. rewrite Nat.sub_diag. by destruct r. }
  assert (forall j x, F !! j = Some x -> Z.of_nat j < m_cap m) as Hpos by (intros j x Hj; apply lookup_lt_Some in Hj; lia).
  assert (F !! i = Some (Node c l e kv r)) as HFi by (rewrite HF; by apply list_lookup_middle).
  mstep by (eapply round_run; [exact H|done|by eapply Hpos|intros Hl; by eapply Hpos, HFl|intros Hr; by eapply Hpos, HFr]).
  assert (length (ahead ++ [Node c l e kv r]) = S i) as E1 by (rewrite length_app; unfold i; simpl; lia).
  assert (S i + length (q ++ kids l r) = next_pos (next_pos b l) r)%nat as E2 by (rewrite length_app; unfold kids; rewrite length_app; unfold b; destruct l, r; simpl; lia).
  destruct (IH (ahead ++ [Node c l e kv r]) (q ++ kids l r) (round m i b c l kv r)) as (m' & R & Hc' & Hh).
  - by rewrite <- (assoc_L (++)).
  - apply Forall_app. split; [done|]. by apply (kids_entries ho h) in H as (_ & ? & _).
  - lia.
  - rewrite E1. lia.
  - destruct (round_header m i b c l kv r) as (_ & _ & Hcp & _). unfold fits. by rewrite Hcp.
  - destruct (round_header m i b c l kv r) as (_ & _ & -> & _). done.
  - intros Hv. specialize (Hset Hv). apply Forall_cons_1 in Hset as [Hs Hset]. apply Forall_app. split; [done|]. simpl in Hs. unfold kids, kid. apply Forall_app.
    split; [destruct l|destruct r]; constructor; try done; intros x Hx; apply Hs; cbn [inorder] in *; set_solver.
  - rewrite E1, E2. eapply round_copied; [done|unfold b; simpl; lia|done| |done|done]. intros Hv. specialize (Hset Hv). apply Forall_cons_1 in Hset as [Hs _]. apply (Hs (e, kv)). simpl. set_solver.
  - exists m'. rewrite E1, E2 in R. split; [exact R|split; [done|]].
    destruct (round_header m i b c l kv r) as (G1 & G2 & G3 & G4 & G5). destruct Hh as (? & ? & ? & ? & ?). unfold same_header. split_and!; congruence.
Qed.
End loop.
(** ** The copy *)

(** The subtree at position [j] of the order is the copy's entry [j]. *)
Definition old_entry (F : list Tree) (j : Z) : Z := idx (default Leaf (F !! Z.to_nat j)).

Lemma copied_shape (F : list Tree) (m : Mem) (t : Tree) (j : nat) (p : Z) :
  copied F m (length F) (length F) -> Z.of_nat (length F) <= m_cap m -> (forall x, x ∈ inorder t -> IsHole x.2.1 = false) ->
  t <> Leaf -> F !! j = Some t -> fld m (Z.of_nat j) (ENTRY_PARENT_INDEX ho) = VInt p ->
  exists t', idx t' = Z.of_nat j /\ (color t' = color t /\ key_at t' = key_at t) /\ shape ho m p t' /\ old_entry F <$> entries t' = entries t /\ (inorder t').*2 = (inorder t).*2 /\
    (forall n, rb n t -> rb n t') /\ Forall (fun e => 0 <= e < Z.of_nat (length F)) (entries t').
Proof.
  intros Hc Hcap. revert j p. induction t as [|c l IHl e kv r IHr]; intros j p Hh Ht HF Hp; [done|]. pose proof (lookup_lt_Some _ _ _ HF) as Hj.
  destruct (proj1 Hc j _ Hj HF) as (Hk & Hv & Hcol & Hl & Hr).
  assert (forall w x, kid_ok F m (length F) j w x -> (forall y, y ∈ inorder x -> y ∈ inorder (Node c l e kv r)) ->
    (forall j p, (forall y, y ∈ inorder x -> IsHole y.2.1 = false) -> x <> Leaf -> F !! j = Some x -> fld m (Z.of_nat j) (ENTRY_PARENT_INDEX ho) = VInt p ->
      exists t', idx t' = Z.of_nat j /\ (color t' = color x /\ key_at t' = key_at x) /\ shape ho m p t' /\ old_entry F <$> entries t' = entries x /\ (inorder t').*2 = (inorder x).*2 /\
        (forall n, rb n x -> rb n t') /\ Forall (fun e => 0 <= e < Z.of_nat (length F)) (entries t')) ->
    exists t', fld m (Z.of_nat j) w = ptr (idx t') /\ (color t' = color x /\ key_at t' = key_at x) /\ shape ho m (Z.of_nat j) t' /\ old_entry F <$> entries t' = entries x /\ (inorder t').*2 = (inorder x).*2 /\
      (forall n, rb n x -> rb n t') /\ Forall (fun e => 0 <= e < Z.of_nat (length F)) (entries t')) as Hkid.
  { intros w x Hkx Hsub IH. destruct x as [|cx lx ex kvx rx]; [exists Leaf; by rewrite Hkx|]. destruct Hkx as (i & Hi & HFi & Hw & Hpar).
    destruct (IH i (Z.of_nat j)) as (t' & Hi' & Hrest); [intros y Hy; by apply Hh, Hsub|done..|]. exists t'. rewrite Hi', ptr_nonneg by lia. by split. }
  destruct (Hkid _ _ Hl ltac:(cbn [inorder]; set_solver) IHl) as (l' & Pl & (Cl & _) & Sl & El & Il & Rl & Fl).
  destruct (Hkid _ _ Hr ltac:(cbn [inorder]; set_solver) IHr) as (r' & Pr & (Cr & _) & Sr & Er & Ir & Rr & Fr).
  exists (Node c l' (Z.of_nat j) kv r'). split; [done|]. split; [done|]. split_and!; simpl.
  - split_and!; [|done..]. split; [split; [lia|]|by split_and!]. apply (Hh (e, kv)). cbn [inorder]. set_solver.
  - rewrite fmap_app, fmap_cons, El, Er. unfold old_entry at 1. by rewrite Nat2Z.id, HF.
  - rewrite !fmap_app, !fmap_cons, Il, Ir. done.
  - intros n. destruct c; [destruct n; [done|]|]; rewrite ?Cl, ?Cr; naive_solver.
  - apply Forall_app. split; [done|]. constructor; [lia|done].
Qed.

Lemma copied_zip (F : list Tree) (m : Mem) (t : Tree) :
  copied F m (length F) (length F) -> Z.of_nat (length F) <= m_cap m -> (forall x, x ∈ inorder t -> IsHole x.2.1 = false) ->
  t <> Leaf -> F !! O = Some t -> length F = length (entries t) -> NoDup (entries t) -> m_root m = 0 ->
  exists t', zip ho m None t' [] /\ (color t' = color t /\ key_at t' = key_at t) /\ (inorder t').*2 = (inorder t).*2 /\ (forall n, rb n t -> rb n t') /\ Forall (fun e => 0 <= e < Z.of_nat (length F)) (entries t').
Proof.
  intros Hc Hcap Hh Ht HF Hlen Hd Hroot. pose proof Hc as (_ & Hfree & Hpar). destruct (copied_shape F m t O (-1) Hc Hcap Hh Ht HF Hpar) as (t' & Hi & Hcol & Hs & He & Ho & Hrb & Hf).
  exists t'. split; [|done]. assert (NoDup (entries t')) as Hd' by (rewrite <- He in Hd; by eapply NoDup_fmap_1). split; [done|]. split; [simpl; by rewrite Hi|]. simpl. rewrite !app_nil_r. split; [done|].
  split; [|done]. intros e Her Hn _. apply Hfree. destruct (decide (Z.of_nat (length F) <= e)) as [|Hlt]; [done|]. exfalso. apply Hn.
  assert (entries t' ≡ₚ seqZ 0 (Z.of_nat (length F))) as ->; [|apply elem_of_seqZ; lia].
  apply submseteq_length_Permutation.
  - apply NoDup_submseteq; [done|]. intros x Hx. apply elem_of_seqZ. rewrite list.Forall_forall in Hf. specialize (Hf x Hx). lia.
  - rewrite length_seqZ, Hlen, <- He, length_fmap. lia.
Qed.

Lemma set_element (h : Hdr) (a : TaggedArray) (t : Tree) (x : Z * KV) : holds h a t [] -> x ∈ inorder t -> ENTRY_VALUE_INDEX ho = 0 -> x.2.1 = x.2.2.
Proof.
  intros (m & -> & _ & _ & Hz) Hx Hv. destruct x as [e kv]. destruct (element_words ho m _ t [] e kv Hz Hx) as (_ & _ & Hk & Hval). rewrite Hv in Hval. simpl. congruence.
Qed.

Lemma fmap_holes (f : Z -> JSTaggedValue) (l : list Z) : (forall x, x ∈ l -> f x = VHole) -> f <$> l = replicate (length l) VHole.
Proof. induction l as [|x l IH]; intros Hf; [done|]. simpl. rewrite (Hf x) by (by left). f_equal. apply IH. intros y Hy. apply Hf. by right. Qed.

(** A word of the header. *)
Lemma header_Set (i : Z) (v : JSTaggedValue) (l tail : TaggedArray) : 0 <= i < 5 -> length l = 5%nat -> Arr.Set_ i v (l ++ tail) = (Ok tt, <[Z.to_nat i := v]> l ++ tail).
Proof.
  intros Hi Hl. rewrite set_header; [|rewrite lenZ_app; unfold lenZ at 1; rewrite Hl; pose proof (lenZ_nonneg tail); lia]. by rewrite insert_app_l by lia.
Qed.

(** The new array before the loop. *)
Definition blank (n cap : Z) : Mem := mkMem n 0 cap 0 VHole (fun _ _ => VHole).

Lemma blank_run (n cap : Z) : 0 <= cap -> 0 <= n < 2 ^ 31 ->
  (SetNumberOfElements n;; SetNumberOfDeletedElements 0;; SetRootEntries 0) (Factory.NewTaggedArray (ELEMENTS_START_INDEX + cap * ENTRY_SIZE ho) VHole) = (Ok tt, hide (enc ho (blank n cap))).
Proof.
  intros Hc Hn. pose proof (size_pos ho). unfold Factory.NewTaggedArray, ELEMENTS_START_INDEX. assert (0 <= cap * ENTRY_SIZE ho) by nia. rewrite (proj2 (Z.eqb_neq _ 0)) by lia.
  replace (Z.to_nat (5 + cap * ENTRY_SIZE ho)) with (5 + Z.to_nat (cap * ENTRY_SIZE ho))%nat by lia. rewrite replicate_add. unfold SetNumberOfElements, SetNumberOfDeletedElements, SetRootEntries.
  rewrite u32_small, of_uint32_small by lia. set (tail := replicate (Z.to_nat (cap * ENTRY_SIZE ho)) VHole).
  mstep by (by apply header_Set). mstep by (by apply header_Set). rewrite header_Set by done. f_equal. unfold hide, enc, blank. cbn [m_n m_d m_cap m_root m_cmp fld]. unfold tail. f_equal.
  by rewrite fmap_holes, length_seqZ.
Qed.
(** ** Extending the array *)

Definition extended (m : Mem) (cap : Z) : Mem :=
  mkMem (m_n m) (m_d m) cap (m_root m) (m_cmp m) (fun e f => if e <? m_cap m then fld m e f else VHole).

Lemma extended_shape (m : Mem) (cap p : Z) (t : Tree) : m_cap m <= cap -> shape ho m p t -> shape ho (extended m cap) p t.
Proof.
  intros Hc. revert p. induction t as [|c l IHl e kv r IHr]; intros p; [done|]. simpl. intros (((He & Hk) & Hn) & Hl & Hr). split_and!; [|by apply IHl|by apply IHr].
  unfold node. cbn [extended m_cap fld]. rewrite (proj2 (Z.ltb_lt e _)) by lia. split; [split; [lia|done]|done].
Qed.

Lemma extended_zip (m : Mem) (cap : Z) (t : Tree) : m_cap m <= cap -> zip ho m None t [] -> zip ho (extended m cap) None t [].
Proof.
  intros Hc (Hs & Hr & Hd & Hf & _). split; [by apply extended_shape|]. split; [done|]. split; [done|]. split; [|done]. intros e He Hn Hsp. cbn [extended m_cap fld] in *.
  destruct (e <? m_cap m) eqn:E; [|done]. apply Hf; [lia|done|done].
Qed.

Lemma extended_enc (m : Mem) (cap : Z) : 0 <= m_cap m <= cap ->
  <[2%nat := VInt cap]> (enc ho m ++ replicate (Z.to_nat (cap * ENTRY_SIZE ho - m_cap m * ENTRY_SIZE ho)) VHole) = enc ho (extended m cap).
Proof.
  intros Hc. pose proof (size_pos ho). unfold enc. rewrite <- (assoc_L (++)). rewrite insert_app_l by (simpl; lia). cbn [extended m_n m_d m_cap m_root m_cmp fld]. f_equal.
  assert (0 <= m_cap m * ENTRY_SIZE ho <= cap * ENTRY_SIZE ho) as Hle by nia.
  replace (seqZ 0 (cap * ENTRY_SIZE ho)) with (seqZ 0 (m_cap m * ENTRY_SIZE ho) ++ seqZ (0 + m_cap m * ENTRY_SIZE ho) (cap * ENTRY_SIZE ho - m_cap m * ENTRY_SIZE ho))
    by (rewrite <- seqZ_app by lia; f_equal; lia). rewrite fmap_app. f_equal.
  - apply list_fmap_ext. intros j i Hi. apply list_elem_of_lookup_2, elem_of_seqZ in Hi. rewrite (proj2 (Z.ltb_lt _ _)); [done|]. apply Z.div_lt_upper_bound; lia.
  - rewrite fmap_holes; [by rewrite length_seqZ|]. intros i Hi. apply elem_of_seqZ in Hi. rewrite (proj2 (Z.ltb_ge _ _)); [done|]. apply Z.div_le_lower_bound; lia.
Qed.

(** ** Growing and shrinking *)

Lemma bind_inv {S A B} (m : M S A) (f : A -> M S B) (s s' : S) (b : B) :
  (m ≫= f) s = (Ok b, s') -> exists x s1, m s = (Ok x, s1) /\ f x s1 = (Ok b, s').
Proof. mcbn. destruct (m s) as [[x| | |] s1]; [|done..]. intros H. by exists x, s1. Qed.

Lemma show_capacity (m : Mem) : fits ho m -> SetCapacity (m_cap m) (hide (enc ho m)) = (Ok tt, enc ho m).
Proof.
  intros Hm. pose proof (size_pos ho). unfold SetCapacity, CAPACITY_INDEX, hide. rewrite set_header.
  - change (Z.to_nat 2) with 2%nat. rewrite list_insert_insert_eq. by rewrite list_insert_id.
  - unfold lenZ. rewrite length_insert. pose proof (enc_length ho m (proj1 Hm)) as Hl. unfold lenZ in Hl. destruct Hm. nia.
Qed.

Section resize.
Context (st : Store) (tree : Z) (a : TaggedArray) (h : Hdr) (t : Tree) (cap : Z).
Context (Hst : st !! Z.to_nat tree = Some a) (H : holds h a t []) (Hsp : h_spare h = None) (Hn : h_n h = lenZ (inorder t)) (Hn' : h_n h < 2 ^ 31) (Hd : 0 <= h_d h < 2 ^ 31).
Context (Hnc : h_n h <= cap) (Hfit : 5 + cap * ENTRY_SIZE ho < 2 ^ 31) (Hent : Forall (fun e => e < h_n h + h_d h) (entries t)).

Definition resized (m : M Store Z) (fn : JSTaggedValue) : Prop :=
  exists a' t', m st = (Ok (lenZ st), st ++ [a']) /\ holds (mkHdr (h_n h) 0 cap fn None) a' t' [] /\ (balanced t -> balanced t') /\
    (inorder t').*2 = (inorder t).*2 /\ Forall (fun e => e < h_n h) (entries t') /\ key_at t' = key_at t.

Lemma extend_ok : h_d h = 0 -> h_cap h <= cap ->
  resized (newTree ← AdjustTaggedTree ho tree (ELEMENTS_START_INDEX + cap * ENTRY_SIZE ho); on_table newTree (SetCapacity cap);; mret newTree) (h_cmp h).
Proof.
  intros E Hc0. pose proof (lenZ_nonneg (inorder t)). pose proof (size_pos ho). unfold AdjustTaggedTree, resized. rewrite <- bind_assoc.
  mstep by (apply (on_table_read _ _ a); [done|]; eapply NumberOfDeletedElements_ok; [done|lia]). rewrite E. cbn [Z.eqb].
  pose proof (holds_length ho _ _ _ _ H) as (Hl & _ & Hcap & _). rewrite <- bind_assoc. mstep by (by apply (on_table_read _ _ a)). unfold ELEMENTS_START_INDEX. rewrite <- bind_assoc.
  mstep by (apply ExtendArray_run; rewrite Hl; nia). mstep. destruct H as (m & -> & Hm & (G1 & G2 & G3 & G4) & Hz). rewrite Hsp in Hz.
  mstep by (apply new_run; unfold SetCapacity, CAPACITY_INDEX; apply set_header; pose proof (lenZ_nonneg (replicate (Z.to_nat (5 + cap * ENTRY_SIZE ho - lenZ (enc ho m))) VHole)); rewrite lenZ_app; lia).
  eexists _, t. split; [done|]. split; [|split; [done|split; [done|]]].
  - exists (extended m cap). split; [rewrite Hl, <- G3; rewrite <- extended_enc by lia; f_equal; f_equal; f_equal; lia|]. split; [unfold fits; cbn [extended m_cap]; unfold ELEMENTS_START_INDEX; nia|].
    split; [cbn; by rewrite G1, G2, G4|]. apply extended_zip; [lia|done].
  - rewrite E, Z.add_0_r in Hent. done.
Qed.

Lemma renumber_ok : h_d h <> 0 -> t <> Leaf ->
  resized (newTree ← AdjustTaggedTree ho tree (ELEMENTS_START_INDEX + cap * ENTRY_SIZE ho); on_table newTree (SetCapacity cap);; mret newTree) VHole.
Proof.
  intros E Ht. pose proof (lenZ_nonneg (inorder t)). pose proof (size_pos ho). unfold AdjustTaggedTree, resized. rewrite <- bind_assoc.
  mstep by (apply (on_table_read _ _ a); [done|]; eapply NumberOfDeletedElements_ok; [done|lia]). rewrite (proj2 (Z.eqb_neq _ 0)) by done.
  rewrite <- bind_assoc. mstep by (apply (on_table_read _ _ a); [done|]; eapply NumberOfElements_ok; [done|lia]). rewrite <- bind_assoc. mstep.
  pose proof (blank_run (h_n h) cap ltac:(lia) ltac:(lia)) as Hb. apply bind_inv in Hb as ([] & x1 & B1 & Hb). apply bind_inv in Hb as ([] & x2 & B2 & B3).
  rewrite <- bind_assoc. mstep with (new_run st _ _ _ _ B1). rewrite <- bind_assoc. mstep with (new_run st _ _ _ _ B2). rewrite <- bind_assoc. mstep with (new_run st _ _ _ _ B3).
  rewrite <- bind_assoc. mstep by (eapply old_read; [exact Hst|by eapply GetRootEntries_ok]). cbn [plug].
  assert (0 < h_n h) by (destruct (inorder t) eqn:Ei; [by apply inorder_nil in Ei|rewrite Hn, lenZ_cons; pose proof (lenZ_nonneg l); lia]).
  assert (fits ho (blank (h_n h) cap)) as Hm by (unfold fits; cbn [blank m_cap]; unfold ELEMENTS_START_INDEX; nia).
  rewrite <- bind_assoc. mstep by (apply new_run; apply hidden_SetParent; [done|simpl; lia]). rewrite <- bind_assoc. mstep by (eapply old_read; [exact Hst|by eapply Capacity_ok]).
  set (fuel := Datatypes.S (Z.to_nat (h_cap h))). set (F := bfs fuel [t]). set (m := upd (blank (h_n h) cap) 0 (ENTRY_PARENT_INDEX ho) (VInt (-1))).
  pose proof (context_length _ _ _ _ _ H) as Hlen. assert (queue_size [t] = length (entries t)) as Hq by (unfold queue_size; simpl; lia).
  assert (length F = length (entries t)) as HF by (unfold F; rewrite bfs_length; [done|by repeat constructor|unfold fuel; lia]).
  assert (Z.of_nat (length F) = h_n h) as HFn by (rewrite HF, entries_inorder, length_fmap, Hn; done).
  assert (F !! O = Some t) as HF0 by (apply bfs_prefix; [by repeat constructor|unfold fuel; lia|done]).
  destruct (adjust_loop st tree a h Hst fuel F [] [t] m) as (m' & R & Hc & (G1 & G2 & G3 & G4 & G5)).
  { done. } { repeat constructor; [done|by eexists]. } { unfold fuel. lia. } { simpl. lia. } { exact Hm. } { unfold m. cbn [upd blank m_cap]. lia. }
  { intros Hv. constructor; [|done]. intros x Hx. by eapply set_element. }
  { layout_facts. split; [|split]; [intros j x Hj; simpl in Hj; lia|intros e _; unfold m; rewrite !upd_fld; zb; by rewrite !andb_false_r|unfold m; rewrite upd_fld; by rewrite !Z.eqb_refl]. }
  rewrite <- bind_assoc. assert (idx <$> [t] = [idx t]) as Ei by done. rewrite Ei in R. cbn [length Nat.add Z.of_nat Pos.of_succ_nat] in R. mstep with R. mstep.
  assert (fits ho m') as Hm' by (unfold fits in *; rewrite G3; exact Hm).
  assert (m_cap m' = cap) as Hcap by done. rewrite <- Hcap. mstep by (apply new_run; by apply show_capacity).
  destruct (copied_zip F m' t) as (t' & Hz & (Hcol & Hkey) & Ho & Hrb & Hfe); [done|rewrite Hcap; lia| |done|done|done| |done|].
  { intros x Hx. by eapply (element_at ho h). } { pose proof (holds_nodup _ _ _ _ _ H) as Hnd. simpl in Hnd. by rewrite app_nil_r in Hnd. }
  exists (enc ho m'), t'. split; [done|]. split; [by exists m'|]. split; [intros [Hb1 [k Hb2]]; split; [by rewrite Hcol|by exists k; apply Hrb]|]. split; [done|].
  split; [|done]. eapply list.Forall_impl; [exact Hfe|]. intros x Hx. simpl in Hx. lia.
Qed.
End resize.
End copy.
End TreeCopy.
