(* ===== verification/TreeStore.v ===== *)
(** * TreeStore: the operations on the tree of a map or a set.

    [Abs] is what the array of a tree tells a client: the entries in order and
    the counts that decide when the tree grows and shrinks.  Insert and Delete are
    shown to be functions on it, [insert] and [delete], which say what the code
    does, a lost update included; the guards say which cases are left out, because
    the tree loses its compare function there or shrinks to nothing.  The sorted
    lists that the containers promise are in TreeMap. *)
From stdpp Require Import sets sorting.
From S2P Require Import Prelude TaggedValue TaggedArray EcmaString TaggedTree TreeShape TreeBalance TreeSearch TreeOps TreeCopy.
Local Open Scope Z_scope.

Module TreeStore.
Import TaggedTree TreeShape TreeBalance TreeSearch TreeOps TreeCopy.

(** ** Sorted lists *)

Section sorted.
Context (cmp : JSTaggedValue -> JSTaggedValue -> ComparisonResult) (good : JSTaggedValue -> Prop) `{HO : KeyOrder cmp good}.

Section keys.
Context {A : Type} (key : A -> JSTaggedValue).
Notation sorted := (sorted cmp good key).

Lemma sorted_around (l1 l2 : list A) (x : A) :
  sorted l1 -> sorted l2 -> good (key x) -> Forall (fun y => cmp (key y) (key x) = LESS) l1 -> Forall (fun y => cmp (key x) (key y) = LESS) l2 ->
  sorted (l1 ++ x :: l2).
Proof.
  intros [S1 G1] [S2 G2] Hx H1 H2. split; [|apply Forall_app; split; [done|by constructor]]. apply StronglySorted_app. split_and!; [|done|by constructor].
  rewrite list.Forall_forall in G1, G2, H1, H2. intros y z Hy [->|Hz]%elem_of_cons; [by apply H1|]. apply (cmp_trans _ (key x)); [by apply G1|done|by apply G2|by apply H1|by apply H2].
Qed.

Lemma cmp_great (x y : JSTaggedValue) : good x -> good y -> cmp x y = GREAT -> cmp y x = LESS.
Proof. intros Hx Hy E. rewrite (cmp_flip x y), E by done. done. Qed.

Lemma sorted_new (l1 l2 : list A) (x : A) :
  sorted (l1 ++ l2) -> good (key x) -> Forall (fun y => cmp (key x) (key y) = GREAT) l1 -> Forall (fun y => cmp (key x) (key y) = LESS) l2 -> sorted (l1 ++ x :: l2).
Proof.
  intros [Hs [G1 G2]%Forall_app] Hx H1 H2. apply sorted_around; [split; [by eapply StronglySorted_app_1_l|done]|split; [by eapply StronglySorted_app_1_r|done]|done| |done].
  rewrite list.Forall_forall in *. intros y Hy. apply cmp_great; [done|by apply G1|by apply H1].
Qed.

Lemma sorted_replace (l1 l2 : list A) (x y : A) : sorted (l1 ++ x :: l2) -> good (key y) -> cmp (key y) (key x) = EQUAL -> sorted (l1 ++ y :: l2).
Proof.
  intros Hs Hy E. destruct (compare_sides cmp good key (key y) l1 l2 x Hy Hs) as [H2 H1]. rewrite E in H1, H2. destruct (sorted_app _ _ _ _ _ _ Hs) as (S1 & S2 & _).
  apply sorted_around; [done|done|done| |by apply H2]. specialize (H1 ltac:(done)). destruct S1 as [_ G1]. rewrite list.Forall_forall in *. intros z Hz. apply cmp_great; [done|by apply G1|by apply H1].
Qed.

Lemma sorted_delete (l1 l2 : list A) (x : A) : sorted (l1 ++ x :: l2) -> sorted (l1 ++ l2).
Proof.
  intros [Hs [G1 [_ G2]%Forall_cons_1]%Forall_app]. split; [|by apply Forall_app]. apply StronglySorted_app in Hs as (Hc & S1 & S2). apply StronglySorted_app. split_and!; [|done|by inversion S2].
  intros y z Hy Hz. apply Hc; [done|by right].
Qed.

(** The parts of a sorted list make it up again. *)
Lemma sorted_parts (k : JSTaggedValue) (l : list A) : good k -> sorted l ->
  l = part cmp key GREAT k l ++ part cmp key EQUAL k l ++ part cmp key LESS k l.
Proof.
  intros Hk. induction l as [|x l IH]; intros Hs; [done|]. destruct (sorted_app _ _ _ [] l x Hs) as (_ & Hsl & Hg & _). specialize (IH Hsl). rewrite !part_cons.
  pose proof (cmp_defined k (key x) Hk Hg). destruct (compare_sides cmp good key k [] l x Hk Hs) as [H2 _]. destruct (cmp k (key x)) eqn:E; simpl; [..|done].
  - specialize (H2 ltac:(done)). rewrite (part_other cmp key GREAT LESS), (part_other cmp key EQUAL LESS), (part_same cmp key LESS) by done. done.
  - specialize (H2 ltac:(done)). rewrite (part_other cmp key GREAT LESS), (part_other cmp key EQUAL LESS), (part_same cmp key LESS) by done. done.
  - by f_equal.
Qed.

Lemma equal_part (k : JSTaggedValue) (l : list A) : good k -> sorted l ->
  part cmp key EQUAL k l = [] \/ exists x, part cmp key EQUAL k l = [x] /\ cmp k (key x) = EQUAL /\ good (key x).
Proof.
  intros Hk Hs. destruct (part cmp key EQUAL k l) as [|x l'] eqn:E; [by left|]. right. exists x.
  assert (x ∈ part cmp key EQUAL k l) as [Hx Hin]%list_elem_of_filter by (rewrite E; by left). apply list_elem_of_split in Hin as (l1 & l2 & ->).
  destruct (parts_found cmp good key k l1 l2 x Hk Hs Hx) as (_ & He & _). rewrite He in E. destruct (sorted_app _ _ _ _ _ _ Hs) as (_ & _ & Hg & _). split; [congruence|done].
Qed.
End keys.

(** The order of a list is that of its keys. *)
Lemma sorted_fmap {A B} (f : A -> B) (key : B -> JSTaggedValue) (l : list A) : sorted cmp good (key ∘ f) l <-> sorted cmp good key (f <$> l).
Proof.
  unfold sorted. rewrite Forall_fmap. apply and_iff_compat_r. induction l as [|x l IH]; simpl; [by split; constructor|]. split; inversion 1; constructor; try (by apply IH).
  - by rewrite Forall_fmap.
  - by rewrite Forall_fmap in *.
Qed.

Lemma part_fmap {A B} (f : A -> B) (key : B -> JSTaggedValue) (r : ComparisonResult) (k : JSTaggedValue) (l : list A) :
  part cmp key r k (f <$> l) = f <$> part cmp (key ∘ f) r k l.
Proof. induction l as [|x l IH]; [done|]. rewrite fmap_cons, !part_cons, fmap_app, IH. f_equal. simpl. by destruct (decide _). Qed.
End sorted.
(** ** What a client sees of a tree *)

Record Abs : Type := mkAbs { items : list KV; holes : Z; capacity : Z; compare_fn : JSTaggedValue }.

Definition size (s : Abs) : Z := lenZ (items s).

(** GrowCapacity makes a larger tree. *)
Definition grows (s : Abs) : bool := capacity s <? size s + holes s + 1.

(** A copy that numbers the entries anew has no compare function. *)
Definition resize (cap : Z) (s : Abs) : Abs := mkAbs (items s) 0 cap (if holes s =? 0 then compare_fn s else VHole).
Definition with_items (l : list KV) (s : Abs) : Abs := mkAbs l (holes s) (capacity s) (compare_fn s).

Section spec.
Context (ho : Derived) (cmp : JSTaggedValue -> JSTaggedValue -> ComparisonResult).
Notation part := (part cmp (fst : KV -> JSTaggedValue)).

Definition place (k : JSTaggedValue) (x : KV) (l : list KV) : list KV := part GREAT k l ++ x :: part LESS k l.

(** What the tree holds after Insert.  When the key is there the code goes on with
    the tree it was given, so that the value is lost if the tree had to grow:
    this is what the code does, not what a sorted list does. *)
Definition insert (k v : JSTaggedValue) (s : Abs) : Abs :=
  match items s with
  | [] => with_items [stored ho k v] s
  | l =>
      match part EQUAL k l with
      | x :: _ => if grows s then s else with_items (place k (stored ho x.1 v) l) s
      | [] => with_items (place k (stored ho k v) l) (if grows s then resize (2 * capacity s + 1) s else s)
      end
  end.

Definition shrinks (s : Abs) : bool := (size s <? (capacity s + 1) / 4) && (MIN_SHRINK_CAPACITY <=? (capacity s - 1) / 2).

(** Take an entry out, which leaves the entries [l]. *)
Definition remove_items (l : list KV) (s : Abs) : Abs :=
  let s' := mkAbs l (holes s + 1) (capacity s) (compare_fn s) in
  if shrinks s' then resize ((capacity s - 1) / 2) s' else s'.

Definition delete (k : JSTaggedValue) (s : Abs) : Abs :=
  match part EQUAL k (items s) with
  | [] => s
  | _ => remove_items (part GREAT k (items s) ++ part LESS k (items s)) s
  end.

(** The tree keeps its compare function, and does not shrink to nothing. *)
Definition insert_guard (s : Abs) : bool := IsHole (compare_fn s) || negb (grows s) || (holes s =? 0).
Definition delete_guard (s : Abs) : bool :=
  (capacity s <? 31) || ((2 <=? size s) && (IsHole (compare_fn s) || negb (size s - 1 <? (capacity s + 1) / 4))).
End spec.

(** ** Trees in the store *)

Section store.
Context (ho : Derived) `{HL : Layout ho} (env : CompareEnv) (cmp : JSTaggedValue -> JSTaggedValue -> ComparisonResult) (good : JSTaggedValue -> Prop).
Notation holds := (holds ho).
Notation part := (part cmp (fst : KV -> JSTaggedValue)).
Notation sorted := (sorted cmp good (fst : KV -> JSTaggedValue)).

Definition hdr (s : Abs) : Hdr := mkHdr (size s) (holes s) (capacity s) (compare_fn s) None.

(** The array [a] holds a tree with the entries of [s]. *)
Definition tree_at (a : TaggedArray) (s : Abs) (t : Tree) : Prop :=
  holds (hdr s) a t [] /\ balanced t /\ (inorder t).*2 = items s /\ Forall (fun e => e < size s + holes s) (entries t) /\
    sorted (items s) /\ 0 <= holes s /\ MIN_CAPACITY <= capacity s.

Definition tree_ok (a : TaggedArray) (s : Abs) : Prop := exists t, tree_at a s t.

Section loop.
Context (fn : JSTaggedValue) `{HO : !TreeOrder env fn cmp good} (k v : JSTaggedValue) (Hk : good k).
Context (st : Store) (tree newTree : Z) (a0 a : TaggedArray) (h : Hdr).
Context (Htree : st !! Z.to_nat tree = Some a0) (Hfn : GetCompare a0 = (Ok fn, a0)) (Hnew : st !! Z.to_nat newTree = Some a).

Lemma insert_compare (y : JSTaggedValue) : good y -> on_table tree (EntryCompare env k y) st = (Ok (cmp k y), st).
Proof. intros Hy. apply (on_table_read _ _ a0); [done|]. unfold EntryCompare. mstep with Hfn. by apply tree_compare. Qed.

(** Where the loop of Insert ends when the key is not there. *)
Definition gap (t : Tree) (ctx : Context_) (f : Frame) (ctx' : Context_) : Prop :=
  plug Leaf (f :: ctx') = plug t ctx /\ before (f :: ctx') = before ctx ++ TreeSearch.part cmp key_of GREAT k (inorder t) /\
  after (f :: ctx') = TreeSearch.part cmp key_of LESS k (inorder t) ++ after ctx.

Lemma insert_loop_ok (fuel : nat) (t : Tree) (ctx : Context_) (res : ComparisonResult) :
  holds h a t ctx -> t <> Leaf -> TreeSearch.sorted cmp good key_of (inorder t) -> (height t < fuel)%nat ->
  (TreeSearch.part cmp key_of EQUAL k (inorder t) = [] /\ exists f ctx',
    while_fuel fuel (insert_step ho env tree newTree k v) (idx t, key_at t, res) st = (Ok (Some (frame_entry f, if frame_left f then LESS else GREAT)), st) /\ gap t ctx f ctx') \/
  (exists c l e kv r ctx', cmp k kv.1 = EQUAL /\ plug (Node c l e kv r) ctx' = plug t ctx /\
    while_fuel fuel (insert_step ho env tree newTree k v) (idx t, key_at t, res) st = (on_table newTree (SetValue ho e v);; mret None) st).
Proof.
  revert fuel ctx res. induction t as [|c l IHl e kv r IHr]; intros fuel ctx res H Ht Hs Hf; [done|]. destruct fuel as [|fuel]; [lia|]. cbn [while_fuel idx key_at].
  destruct (sorted_node cmp good _ _ _ _ _ Hs) as (Hsl & Hsr & Hg). pose proof (insert_compare _ Hg) as Hc. pose proof (focus_key _ _ _ _ _ _ _ _ _ H) as Hh.
  cbn [height] in Hf. pose proof (cmp_defined k kv.1 Hk Hg) as Hdef.
  rewrite (compare_root cmp good k Hk c l e kv r EQUAL Hs). unfold gap. rewrite (compare_root cmp good k Hk c l e kv r GREAT Hs), (compare_root cmp good k Hk c l e kv r LESS Hs).
  destruct (cmp k kv.1) eqn:E; [| | |done].
  - pose proof (down_left _ _ _ _ _ _ _ _ _ H) as H'. pose proof (on_table_read _ _ _ _ _ Hnew (GetLeftChild_ok _ _ _ _ _ _ _ _ _ H)) as Hch.
    pose proof (on_table_read _ _ _ _ _ Hnew (GetKey_focus _ _ _ _ _ H')) as Hkl.
    destruct l as [|cl ll el kvl rl].
    { left. split; [done|]. exists (InLeft c e kv r), ctx. split; [|simpl; by rewrite app_nil_r].
      mstep by (unfold insert_step; rewrite Hh; mstep with Hc; mstep with Hch; done). done. }
    pose proof (focus_range _ _ _ _ _ _ _ _ _ H') as Hr'. assert (insert_step ho env tree newTree k v (e, kv.1, res) st = (Ok (inl (el, kvl.1, LESS)), st)) as Es.
    { unfold insert_step. rewrite Hh. mstep with Hc. mstep with Hch. rewrite ptr_nonneg by (simpl; lia). cbn [IsHole idx]. mstep. by mstep with Hkl. }
    rewrite !(bind_Ok _ _ _ _ _ Es). cbv beta iota. destruct (IHl fuel _ LESS H' ltac:(done) Hsl ltac:(lia)) as [(Hp & f & ctx' & R & G1 & G2 & G3)|(c' & l' & e' & kv' & r' & ctx' & Ek & Hp & R)].
    + left. split; [rewrite Hp; done|]. exists f, ctx'. split; [exact R|]. split; [done|]. rewrite G2, G3. simpl. by rewrite app_nil_r, <- !(assoc_L (++)).
    + right. exists c', l', e', kv', r', ctx'. done.
  - right. exists c, l, e, kv, r, ctx. split; [done|]. split; [done|]. 
    assert (insert_step ho env tree newTree k v (e, kv.1, res) st = (on_table newTree (SetValue ho e v);; mret (inr None)) st) as Es by (unfold insert_step; rewrite Hh; by mstep with Hc).
    mcbn. mcbn in Es. rewrite Es. by destruct (on_table newTree (SetValue ho e v) st) as [[[]| | |] ?].
  - pose proof (down_right _ _ _ _ _ _ _ _ _ H) as H'. pose proof (on_table_read _ _ _ _ _ Hnew (GetRightChild_ok _ _ _ _ _ _ _ _ _ H)) as Hch.
    pose proof (on_table_read _ _ _ _ _ Hnew (GetKey_focus _ _ _ _ _ H')) as Hkl.
    destruct r as [|cl ll el kvl rl].
    { left. split; [done|]. exists (InRight c l e kv), ctx. split; [|simpl; by rewrite app_nil_r].
      mstep by (unfold insert_step; rewrite Hh; mstep with Hc; mstep with Hch; done). done. }
    pose proof (focus_range _ _ _ _ _ _ _ _ _ H') as Hr'. assert (insert_step ho env tree newTree k v (e, kv.1, res) st = (Ok (inl (el, kvl.1, GREAT)), st)) as Es.
    { unfold insert_step. rewrite Hh. mstep with Hc. mstep with Hch. rewrite ptr_nonneg by (simpl; lia). cbn [IsHole idx]. mstep. by mstep with Hkl. }
    rewrite !(bind_Ok _ _ _ _ _ Es). cbv beta iota. destruct (IHr fuel _ GREAT H' ltac:(done) Hsr ltac:(lia)) as [(Hp & f & ctx' & R & G1 & G2 & G3)|(c' & l' & e' & kv' & r' & ctx' & Ek & Hp & R)].
    + left. split; [rewrite Hp; done|]. exists f, ctx'. split; [exact R|]. split; [done|]. rewrite G2, G3. simpl. by rewrite <- !(assoc_L (++)).
    + right. exists c', l', e', kv', r', ctx'. done.
Qed.
End loop.
(** ** Growing *)

(** Sizes stay far below the limits of the indices. *)
Definition small (s : Abs) : Prop := size s + holes s < 2 ^ 26 /\ capacity s < 2 ^ 28.

Lemma ComputeCapacity_small (cap : Z) : MIN_CAPACITY <= cap < 2 ^ 28 -> ComputeCapacity cap = 2 * cap + 1.
Proof.
  unfold ComputeCapacity, MIN_CAPACITY. intros Hc. rewrite (u32_small cap), Z.shiftl_mul_pow2, u32_small by lia. unfold i32. rewrite Z.mod_small by lia. zb. lia.
Qed.

Lemma tree_read {A} (st : Store) (tree : Z) (a : TaggedArray) (m : M TaggedArray A) (r : A) : st !! Z.to_nat tree = Some a -> m a = (Ok r, a) -> on_table tree m st = (Ok r, st).
Proof. apply on_table_read. Qed.

Lemma GrowCapacity_ok (st : Store) (tree : Z) (a : TaggedArray) (s : Abs) (t : Tree) :
  st !! Z.to_nat tree = Some a -> tree_at a s t -> items s <> [] -> small s -> capacity s < 2 ^ 27 -> 0 <= tree ->
  exists tree' st' a', GrowCapacity ho tree st = (Ok tree', st') /\ st' !! Z.to_nat tree = Some a /\ st' !! Z.to_nat tree' = Some a' /\ 0 <= tree' /\
    if grows s then tree' <> tree /\ exists t', tree_at a' (resize (2 * capacity s + 1) s) t' /\ key_at t' = key_at t else tree' = tree /\ st' = st /\ a' = a.
Proof.
  intros Hst (H & Hb & Ho & He & Hs & Hh & Hcap) Hne [Hsm1 Hsm2] Hc27 Htree. unfold GrowCapacity. pose proof (lenZ_nonneg (items s)) as Hn. fold (size s) in Hn. pose proof (size_pos ho).
  assert (size s = lenZ (inorder t)) as Hsz by (unfold size; rewrite <- Ho; unfold lenZ; by rewrite length_fmap).
  mstep by (eapply tree_read; [exact Hst|]; eapply (NumberOfElements_ok ho (hdr s)); [exact H|simpl; lia]).
  mstep by (eapply tree_read; [exact Hst|]; eapply (NumberOfDeletedElements_ok ho (hdr s)); [exact H|simpl; lia]).
  mstep by (eapply tree_read; [exact Hst|]; by eapply (Capacity_ok ho (hdr s))). cbn [h_n h_d h_cap hdr]. rewrite u32_small by lia.
  assert (i32 (size s + holes s + 1) = size s + holes s + 1) as -> by (unfold i32; rewrite Z.mod_small; lia). unfold grows. unfold MIN_CAPACITY in Hcap.
  destruct (Z.leb_spec (size s + holes s + 1) (capacity s)) as [Hle|Hgt].
  { exists tree, st, a. rewrite (proj2 (Z.ltb_ge _ _)) by lia. done. }
  rewrite (proj2 (Z.ltb_lt _ _)) by lia. rewrite ComputeCapacity_small by (unfold MIN_CAPACITY; lia).
  assert (resized ho st (hdr s) t (2 * capacity s + 1) (newTree ← AdjustTaggedTree ho tree (ELEMENTS_START_INDEX + (2 * capacity s + 1) * ENTRY_SIZE ho); on_table newTree (SetCapacity (2 * capacity s + 1));; mret newTree)
    (if holes s =? 0 then compare_fn s else VHole)) as (a' & t' & R & H' & Hb' & Ho' & He' & Hkey).
  { assert (size s <= capacity s) as Hsc. { pose proof (context_length _ _ _ _ _ H) as Hl. cbn [hdr h_cap] in Hl. rewrite entries_inorder, length_fmap in Hl. unfold lenZ in Hsz. lia. }
    assert (t <> Leaf) by (intros ->; apply Hne; by rewrite <- Ho).
    destruct (Z.eqb_spec (holes s) 0) as [E|E]; [apply (extend_ok ho st tree a)|apply (renumber_ok ho st tree a)]; cbn [hdr h_n h_d h_cap]; first [done|lia|nia]. }
  exists (lenZ st), (st ++ [a']), a'. split; [exact R|]. split; [by apply lookup_app_l_Some|]. split; [unfold lenZ; rewrite Nat2Z.id; by apply list_lookup_middle|]. split; [apply lenZ_nonneg|].
  split; [apply lookup_lt_Some in Hst; unfold lenZ; lia|]. exists t'. split; [|exact Hkey]. unfold tree_at. cbn [resize hdr size items holes capacity compare_fn h_n h_d h_cap] in *. split; [exact H'|]. split; [by apply Hb'|]. split; [by rewrite Ho', Ho|].
  split; [by setoid_rewrite Z.add_0_r|]. split; [done|]. unfold MIN_CAPACITY. lia.
Qed.

Lemma entries_plug (t : Tree) (ctx : Context_) : entries (plug t ctx) ≡ₚ entries t ++ ctx_entries ctx.
Proof.
  revert t. induction ctx as [|f ctx IH]; intros t; [simpl; by rewrite app_nil_r|]. cbn [plug]. rewrite IH, entries_fill. unfold ctx_entries. rewrite bind_cons. by rewrite <- (assoc_L (++)).
Qed.
(** ** Insert *)

(** A set stores its keys as values. *)
Definition data_ok (k v : JSTaggedValue) : Prop := ENTRY_VALUE_INDEX ho = 0 -> v = k.

Lemma stored_key (k v : JSTaggedValue) : data_ok k v -> stored ho k v = (k, v).
Proof. unfold stored, data_ok. destruct (Z.eqb_spec (ENTRY_VALUE_INDEX ho) 0) as [E|E]; [|done]. intros H. by rewrite (H E). Qed.

Lemma stored_equal (k k' v : JSTaggedValue) : data_ok k v -> (stored ho k' v).1 = k \/ (stored ho k' v).1 = k'.
Proof. unfold stored, data_ok. destruct (Z.eqb_spec (ENTRY_VALUE_INDEX ho) 0) as [E|E]; [|by right]. intros H. left. simpl. by rewrite (H E). Qed.

(** The entry is new. *)
Lemma insert_new (fn : JSTaggedValue) `{HK : !KeyOrder cmp good} (a : TaggedArray) (s : Abs) (t : Tree) (f : Frame) (ctx : Context_) (k v : JSTaggedValue) :
  holds (hdr s) a t [] -> balanced t -> (inorder t).*2 = items s -> Forall (fun e => e < size s + holes s) (entries t) -> sorted (items s) -> 0 <= holes s -> MIN_CAPACITY <= capacity s ->
  grows s = false -> small s -> data_ok k v -> good k -> TreeSearch.part cmp key_of EQUAL k (inorder t) = [] -> gap k t [] f ctx ->
  exists a', ((if frame_left f then InsertLeftEntry ho (frame_entry f) (size s + holes s) k v else InsertRightEntry ho (frame_entry f) (size s + holes s) k v);;
    n ← NumberOfElements; SetNumberOfElements (n + 1);; InsertRebalance ho (size s + holes s)) a = (Ok tt, a') /\
    tree_ok a' (with_items (place cmp k (stored ho k v) (items s)) s).
Proof.
  intros H Hb Ho He Hs Hh Hcap Hg [Hsm _] Hd Hk Heq (Hp & Hbef & Haft). change (before []) with (@nil (Z * KV)) in Hbef. change (after []) with (@nil (Z * KV)) in Haft. rewrite app_nil_l in Hbef. rewrite app_nil_r in Haft. pose proof (lenZ_nonneg (items s)) as Hn. fold (size s) in Hn.
  unfold grows in Hg. apply Z.ltb_ge in Hg. set (e := size s + holes s) in *. rewrite stored_key in * by done. cbn [plug] in Hp.
  assert (holds (hdr s) a Leaf (f :: ctx)) as HL0 by (apply (holds_plug ho); cbn [plug] in *; by rewrite Hp).
  assert (e ∉ ctx_entries (f :: ctx)) as Hfresh.
  { intros Hin. rewrite list.Forall_forall in He. assert (e < e); [|lia]. apply He. rewrite <- Hp. change (plug (fill f Leaf) ctx) with (plug Leaf (f :: ctx)). rewrite entries_plug. simpl. done. }
  destruct (InsertEntry_ok ho (hdr s) a f ctx e k v HL0 eq_refl ltac:(cbn [hdr h_cap]; lia) Hfresh) as (a1 & R1 & H1); [rewrite stored_key by done; by apply good_key|].
  rewrite stored_key in H1 by done. mstep with R1. mstep by (eapply (NumberOfElements_ok ho (hdr s)); [exact H1|cbn [hdr h_n]; lia]). cbn [hdr h_n].
  destruct (SetNumberOfElements_ok ho _ _ _ _ H1 (size s + 1) ltac:(lia)) as (a2 & R2 & H2). mstep with R2.
  assert (balanced (plug Leaf (f :: ctx))) as Hbp by (cbn [plug] in *; by rewrite Hp). apply balanced_focus in Hbp as (n & Hleaf & Hc & _). simpl in Hleaf. subst n.
  destruct (InsertRebalance_ok ho _ a2 _ (f :: ctx) H2 ltac:(done) (ctx_rb_root _ _ Hc)) as (a3 & R3 & H3). exists a3. split; [exact R3|].
  set (t' := paint BLACK (ins_fix (Node RED Leaf e (k, v) Leaf) (f :: ctx))) in *.
  assert (inorder t' = before (f :: ctx) ++ (e, (k, v)) :: after (f :: ctx)) as Ht' by (unfold t'; rewrite inorder_paint, ins_fix_inorder, inorder_plug; done).
  assert ((inorder t').*2 = place cmp k (k, v) (items s)) as Hitems.
  { rewrite Ht', fmap_app, fmap_cons. unfold place. rewrite <- Ho, !part_fmap. cbn [snd]. by rewrite Hbef, Haft. }
  assert (items s = part GREAT k (items s) ++ part LESS k (items s)) as Hparts.
  { rewrite (sorted_parts cmp good fst k (items s) Hk Hs) at 1. rewrite <- Ho, !part_fmap. change (fst ∘ snd) with key_of. by rewrite Heq. }
  assert (lenZ (place cmp k (k, v) (items s)) = size s + 1) as Hlen by (unfold size; rewrite Hparts at 2; unfold place; lenz).
  exists t'. unfold tree_at, with_items, hdr, size. cbn [items holes capacity compare_fn]. rewrite Hlen. split; [exact H3|]. split; [split; [by destruct (ins_fix _ _)|eapply ins_fix_rb; [|done|done]; done]|]. split; [done|]. split; [|split; [|done]].
  - rewrite entries_inorder, Ht', fmap_app, fmap_cons. apply Forall_app. rewrite list.Forall_cons. cbn [fst].
    assert (Forall (fun x => x < e) (before (f :: ctx) ++ after (f :: ctx)).*1) as Hold.
    { rewrite <- Hp in He. change (plug (fill f Leaf) ctx) with (plug Leaf (f :: ctx)) in He. rewrite entries_inorder, inorder_plug in He. done. }
    rewrite fmap_app in Hold. apply Forall_app in Hold as [Ha Hb']. split; [|split; [unfold e; lia|]]; (eapply list.Forall_impl; [eassumption|]; intros x Hx; cbv beta in Hx; unfold e in Hx; lia).
  - unfold place. apply (sorted_new cmp good fst); [by rewrite <- Hparts|done|..]; apply list.Forall_forall; intros x Hx; by apply list_elem_of_filter in Hx as [? _].
Qed.

(** The value of an entry. *)
Lemma insert_old `{HK : !KeyOrder cmp good} (a : TaggedArray) (s : Abs) (c : TreeColor) (l : Tree) (e : Z) (kv : KV) (r : Tree) (ctx : Context_) (k v : JSTaggedValue) :
  tree_ok a s -> holds (hdr s) a (Node c l e kv r) ctx -> balanced (plug (Node c l e kv r) ctx) -> (inorder (plug (Node c l e kv r) ctx)).*2 = items s ->
  Forall (fun e => e < size s + holes s) (entries (plug (Node c l e kv r) ctx)) -> data_ok k v -> good k -> cmp k kv.1 = EQUAL ->
  part EQUAL k (items s) = [kv] /\
  exists a', SetValue ho e v a = (Ok tt, a') /\ tree_ok a' (with_items (place cmp k (stored ho kv.1 v) (items s)) s).
Proof.
  intros (t0 & _ & _ & _ & _ & Hs & Hh & Hcap) H Hb Ho He Hd Hk Heq.
  assert (items s = (before ctx ++ inorder l).*2 ++ kv :: (inorder r ++ after ctx).*2) as Hi by (rewrite <- Ho, inorder_plug; cbn [inorder]; rewrite ?fmap_app, ?fmap_cons, ?fmap_app, <- !(assoc_L (++)); done).
  pose proof Hs as Hs'. rewrite Hi in Hs'. destruct (sorted_app _ _ _ _ _ _ Hs') as (_ & _ & Hg & _).
  destruct (parts_found cmp good fst k _ _ kv Hk Hs' Heq) as (P1 & P2 & P3). rewrite <- Hi in P1, P2, P3. split; [done|].
  assert (good (stored ho kv.1 v).1 /\ cmp (stored ho kv.1 v).1 kv.1 = EQUAL) as [Hg' Hc'] by (destruct (stored_equal k kv.1 v Hd) as [->| ->]; split; try done; by apply cmp_refl).
  destruct (tree_SetValue_ok ho _ _ _ _ _ _ _ _ v H) as (a' & R & H'); [by apply good_key|]. exists a'. split; [done|]. exists (plug (Node c l e (stored ho kv.1 v) r) ctx).
  assert (place cmp k (stored ho kv.1 v) (items s) = (before ctx ++ inorder l).*2 ++ stored ho kv.1 v :: (inorder r ++ after ctx).*2) as Hpl by (unfold place; by rewrite P1, P3).
  unfold tree_at, with_items, hdr, size in *. cbn [items holes capacity compare_fn]. rewrite Hpl. assert (lenZ ((before ctx ++ inorder l).*2 ++ stored ho kv.1 v :: (inorder r ++ after ctx).*2) = lenZ (items s)) as -> by (rewrite Hi; lenz).
  split; [by apply (proj1 (holds_plug ho _ _ _ _))|]. split; [by apply balanced_data with kv|]. split; [rewrite inorder_plug; cbn [inorder]; rewrite ?fmap_app, ?fmap_cons, ?fmap_app, <- !(assoc_L (++)); done|].
  split; [|split; [by eapply (sorted_replace cmp good fst)|done]]. rewrite entries_plug in *. exact He.
Qed.
(** A second step on the same array. *)
Lemma on_table_again {A} (st : Store) (tree : Z) (a a1 a2 : TaggedArray) (m : M TaggedArray A) (r : A) :
  st !! Z.to_nat tree = Some a -> m a1 = (Ok r, a2) -> on_table tree m (<[Z.to_nat tree := a1]> st) = (Ok r, <[Z.to_nat tree := a2]> st).
Proof.
  intros Hst Hm. rewrite (on_table_run _ _ a1 a2 _ r); [by rewrite list_insert_insert_eq|apply list_lookup_insert_eq; by eapply lookup_lt_Some|done].
Qed.

Section insert.
Context (st : Store) (tree : Z) (a : TaggedArray) (s : Abs) (k v : JSTaggedValue) `{HO : !TreeOrder env (compare_fn s) cmp good}.
Context (Hst : st !! Z.to_nat tree = Some a) (Htree : 0 <= tree) (Hok : tree_ok a s) (Hsm : small s) (Hc27 : capacity s < 2 ^ 27) (Hk : good k) (Hd : data_ok k v).

(** The first entry. *)
Lemma insert_root : items s = [] ->
  exists a', Insert ho env tree k v st = (Ok tree, <[Z.to_nat tree := a']> st) /\ tree_ok a' (insert ho cmp k v s).
Proof.
  intros Hi. destruct Hok as (t & H & Hb & Ho & He & Hs & Hh & Hcap). rewrite Hi in Ho. apply fmap_nil_inv, inorder_nil in Ho as ->. pose proof (good_key k Hk) as Hnh. unfold Insert, IsKey. rewrite Hnh. mstep.
  mstep by (eapply tree_read; [exact Hst|]; unfold GetRootKey; mstep with (GetRootEntries_ok _ _ _ _ _ H); done). cbn [IsHole].
  destruct (SetRoot_ok ho _ _ k v H eq_refl) as (a1 & R1 & H1); [unfold MIN_CAPACITY in Hcap; cbn [hdr h_cap]; lia|by rewrite stored_key|]. pose proof (lookup_lt_Some _ _ _ Hst) as Hlt.
  mstep by (eapply on_table_run; [exact Hst|exact R1]). assert (size s = 0) as Hz by (unfold size; by rewrite Hi).
  destruct (SetNumberOfElements_ok ho _ _ _ _ H1 1 ltac:(lia)) as (a2 & R2 & H2). assert ((<[Z.to_nat tree:=a1]> st) !! Z.to_nat tree = Some a1) as Hst1 by (by apply list_lookup_insert_eq).
  mstep by (eapply tree_read; [exact Hst1|]; eapply (NumberOfElements_ok ho (hdr s)); [exact H1|cbn [hdr h_n]; lia]). cbn [hdr h_n]. rewrite Hz. cbn [Z.add].
  mstep by (eapply on_table_run; [exact Hst1|exact R2]). rewrite list_insert_insert_eq. exists a2. split; [done|]. unfold insert. rewrite Hi. eexists. split; [exact H2|]. split; [split; [done|by exists 1%nat]|].
  split; [done|]. split; [constructor; [change (0 < 1 + holes s); lia|done]|]. split; [|done]. rewrite stored_key by done. split; [by repeat constructor|]. constructor; [done|constructor].
Qed.

Lemma Insert_ok :
  exists tree' st' a', Insert ho env tree k v st = (Ok tree', st') /\ st' !! Z.to_nat tree' = Some a' /\ 0 <= tree' /\ tree_ok a' (insert ho cmp k v s).
Proof.
  destruct (items s) as [|x0 l0] eqn:Hi.
  { destruct (insert_root Hi) as (a' & R & H'). exists tree, (<[Z.to_nat tree := a']> st), a'. split; [done|]. split; [apply list_lookup_insert_eq; by eapply lookup_lt_Some|done]. }
  assert (items s <> []) as Hne by (by rewrite Hi). destruct Hok as (t0 & Hat0). destruct (GrowCapacity_ok st tree a s t0 Hst Hat0 Hne Hsm Hc27 Htree) as (tree' & st1 & a1 & Rg & Hst0 & Hst1 & Hpos & Hgrow).
  pose proof Hat0 as (H0 & _ & Ho0 & _ & Hs & Hh0 & _). set (s1 := if grows s then resize (2 * capacity s + 1) s else s).
  assert (exists t, tree_at a1 s1 t /\ key_at t = key_at t0) as (t & Hat & Hkey).
  { unfold s1. destruct (grows s); [by destruct Hgrow as [_ ?]|]. destruct Hgrow as (-> & -> & ->). by exists t0. }
  assert (items s1 = items s /\ small s1 /\ grows s1 = false) as (Hi1 & Hsm1 & Hg1).
  { unfold s1. destruct (grows s) eqn:Eg; [|done]. split; [done|]. destruct Hsm as [Hsm1 Hsm2].
    pose proof (context_length _ _ _ _ _ H0) as Hl. cbn [hdr h_cap] in Hl. rewrite entries_inorder, length_fmap in Hl. assert (size s = Z.of_nat (length (inorder t0))) as Hz by (unfold size; rewrite <- Ho0; unfold lenZ; by rewrite length_fmap).
    unfold small, grows, resize, size in *. cbn [items holes capacity]. rewrite Z.ltb_ge. lia. }
  pose proof Hat as (H & Hb & Ho & He & Hs1 & Hh & Hcap). rewrite Hi1 in Ho. assert (t <> Leaf) as Ht by (intros ->; by apply Hne).
  assert (t0 <> Leaf) as Ht0 by (intros ->; by apply Hne).
  unfold Insert, IsKey. rewrite (good_key k Hk). mstep. mstep by (eapply tree_read; [exact Hst|]; unfold GetRootKey; mstep with (GetRootEntries_ok _ _ _ _ _ H0); cbn [plug]; by eapply GetKey_focus).
  assert (IsHole (key_at t0) = false) as Hnh by (destruct t0; [done|]; by eapply focus_key). rewrite Hnh. mstep with Rg.
  mstep by (eapply tree_read; [exact Hst1|by eapply GetRootEntries_ok]). mstep by (eapply tree_read; [exact Hst1|by eapply Capacity_ok]). cbn [plug]. rewrite <- Hkey.
  pose proof (context_length _ _ _ _ _ H) as Hl. assert (TreeSearch.sorted cmp good key_of (inorder t)) as Hst' by (apply (sorted_fmap cmp good snd fst); by rewrite Ho).
  assert (forall p, part p k (items s) = (TreeSearch.part cmp key_of p k (inorder t)).*2) as Hpart by (intros p; rewrite <- Ho; apply part_fmap).
  pose proof (height_entries t).
  destruct (insert_loop_ok (compare_fn s) k v Hk st1 tree tree' a a1 (hdr s1) Hst0 (GetCompare_ok _ _ _ _ _ H0) Hst1 (Datatypes.S (Z.to_nat (h_cap (hdr s1)))) t [] UNDEFINED H Ht Hst' ltac:(lia))
    as [(Hnone & f & ctx & R & Hgap)|(c & l & e & kv & r & ctx & Ek & Hplug & R)].
  - pose proof (lenZ_nonneg (items s1)) as Hn1. fold (size s1) in Hn1. destruct (Hsm1) as [Hsm11 _]. mstep with R. assert (insert ho cmp k v s = with_items (place cmp k (stored ho k v) (items s1)) s1) as ->.
    { unfold insert. rewrite Hi1, Hi, <- Hi, Hpart, Hnone. done. }
    destruct (insert_new (compare_fn s) a1 s1 t f ctx k v H Hb ltac:(by rewrite Hi1) He Hs1 Hh Hcap Hg1 Hsm1 Hd Hk Hnone Hgap) as (a2 & R2 & Hok2).
    mstep by (eapply tree_read; [exact Hst1|]; eapply (NumberOfElements_ok ho (hdr s1)); [exact H|cbn [hdr h_n]; lia]).
    mstep by (eapply tree_read; [exact Hst1|]; eapply (NumberOfDeletedElements_ok ho (hdr s1)); [exact H|cbn [hdr h_d]; lia]). cbn [hdr h_n h_d].
    rewrite u32_small by lia. assert (i32 (size s1 + holes s1) = size s1 + holes s1) as -> by (unfold i32; rewrite Z.mod_small; lia).
    apply bind_inv in R2 as ([] & b1 & S1 & R2). apply bind_inv in R2 as (n & b2 & S2 & R2). apply bind_inv in R2 as ([] & b3 & S3 & S4).
    mstep by (eapply on_table_run; [exact Hst1|]; rewrite <- S1; by destruct (frame_left f)). mstep by (eapply on_table_again; [exact Hst1|exact S2]).
    mstep by (eapply on_table_again; [exact Hst1|exact S3]). mstep by (eapply on_table_again; [exact Hst1|exact S4]).
    exists tree', (<[Z.to_nat tree' := a2]> st1), a2. split; [done|]. split; [apply list_lookup_insert_eq; by eapply lookup_lt_Some|done].
  - cbn [plug] in Hplug. rewrite <- Hplug in H, Hb, He, Ho. apply (proj2 (holds_plug ho _ _ _ _)) in H.
    destruct (insert_old a1 s1 c l e kv r ctx k v ltac:(by exists t) H Hb ltac:(by rewrite Hi1) He Hd Hk Ek) as (Heq & a2 & R2 & Hok2). rewrite Hi1 in Heq, Hok2.
    mstep by (rewrite R; mstep by (eapply on_table_run; [exact Hst1|exact R2]); done). unfold insert. rewrite Hi, <- Hi, Heq. unfold s1 in Hok2.
    destruct (grows s); [|destruct Hgrow as (-> & -> & ->)].
    + exists tree, (<[Z.to_nat tree' := a2]> st1), a. split; [done|]. destruct Hgrow as [Hgrow _]. rewrite list_lookup_insert_ne by lia. split; [done|]. split; [done|by exists t0].
    + exists tree, (<[Z.to_nat tree := a2]> st), a2. split; [done|]. split; [apply list_lookup_insert_eq; by eapply lookup_lt_Some|done].
Qed.
End insert.
(** ** Delete *)

Lemma Shrink_ok (st : Store) (tree : Z) (a : TaggedArray) (s : Abs) :
  st !! Z.to_nat tree = Some a -> tree_ok a s -> small s -> 0 <= tree -> 0 < holes s -> (31 <= capacity s -> items s <> []) ->
  exists tree' st' a', Shrink ho tree st = (Ok tree', st') /\ st' !! Z.to_nat tree' = Some a' /\ 0 <= tree' /\
    tree_ok a' (if shrinks s then resize ((capacity s - 1) / 2) s else s).
Proof.
  intros Hst Hok [Hsm1 Hsm2] Htree Hh Hne. destruct Hok as (t & Hat). pose proof Hat as (H & Hb & Ho & He & Hs & _ & Hcap). unfold Shrink. pose proof (lenZ_nonneg (items s)) as Hn. fold (size s) in Hn. pose proof (size_pos ho).
  unfold MIN_CAPACITY in Hcap. mstep by (eapply tree_read; [exact Hst|]; by eapply (Capacity_ok ho (hdr s))).
  mstep by (eapply tree_read; [exact Hst|]; eapply (NumberOfElements_ok ho (hdr s)); [exact H|simpl; lia]). cbn [h_n h_cap hdr]. rewrite Z.quot_div_nonneg by lia.
  assert (i32 (size s) = size s) as -> by (unfold i32; rewrite Z.mod_small; lia). unfold shrinks.
  destruct (Z.leb_spec ((capacity s + 1) / 4) (size s)) as [Hle|Hgt].
  { exists tree, st, a. rewrite (proj2 (Z.ltb_ge _ _)) by lia. split_and!; try done. by exists t. }
  rewrite (proj2 (Z.ltb_lt (size s) _)) by lia. rewrite u32_small, Z.shiftr_div_pow2 by lia. change (2 ^ 1) with 2. unfold MIN_SHRINK_CAPACITY. cbn [andb].
  destruct (Z.ltb_spec ((capacity s - 1) / 2) 15) as [Hlt|Hge].
  { exists tree, st, a. rewrite (proj2 (Z.leb_gt _ _)) by lia. split_and!; try done. by exists t. }
  rewrite (proj2 (Z.leb_le _ _)) by lia. assert (31 <= capacity s) as H31 by zlia. specialize (Hne H31).
  assert (size s = lenZ (inorder t)) as Hsz by (unfold size; rewrite <- Ho; unfold lenZ; by rewrite length_fmap). assert (t <> Leaf) by (intros ->; apply Hne; by rewrite <- Ho).
  set (cap := (capacity s - 1) / 2) in *. assert (size s <= cap /\ 15 <= cap <= capacity s) as [Hsc Hcc] by (unfold cap in *; zlia).
  destruct (renumber_ok ho st tree a (hdr s) t cap Hst H Hsz ltac:(cbn [hdr h_n]; lia) ltac:(cbn [hdr h_d]; lia) ltac:(cbn [hdr h_n]; lia) ltac:(nia) ltac:(cbn [hdr h_d]; lia) ltac:(done))
    as (a' & t' & R & H' & Hb' & Ho' & He' & _).
  exists (lenZ st), (st ++ [a']), a'. split; [exact R|]. split; [unfold lenZ; rewrite Nat2Z.id; by apply list_lookup_middle|]. split; [apply lenZ_nonneg|]. exists t'. unfold tree_at.
  cbn [resize hdr size items holes capacity compare_fn h_n h_d h_cap] in *. assert (hdr (resize cap s) = mkHdr (size s) 0 cap VHole None) as -> by (unfold hdr, resize; cbn; by rewrite (proj2 (Z.eqb_neq (holes s) 0)) by lia). split; [exact H'|]. split; [by apply Hb'|]. split; [by rewrite Ho', Ho|].
  split; [by setoid_rewrite Z.add_0_r|]. split; [done|]. unfold MIN_CAPACITY. lia.
Qed.

Lemma Delete_ok `{HK : !KeyOrder cmp good} (st : Store) (tree : Z) (a : TaggedArray) (s : Abs) (t : Tree) (l1 l2 : list (Z * KV)) (e : Z) (kv : KV) :
  st !! Z.to_nat tree = Some a -> tree_at a s t -> small s -> 0 <= tree -> inorder t = l1 ++ (e, kv) :: l2 -> (capacity s < 31 \/ 2 <= size s) ->
  exists tree' st' a', Delete ho tree e st = (Ok tree', st') /\ st' !! Z.to_nat tree' = Some a' /\ 0 <= tree' /\ tree_ok a' (remove_items (l1.*2 ++ l2.*2) s).
Proof.
  intros Hst (H & Hb & Ho & He & Hs & Hh & Hcap) Hsm Htree Hin Hg. destruct Hsm as [Hsm1 Hsm2]. destruct (focus_on t l1 l2 e kv Hin) as (c & l & r & ctx & -> & -> & ->).
  assert (items s = (before ctx ++ inorder l).*2 ++ kv :: (inorder r ++ after ctx).*2) as Hi by (by rewrite <- Ho, Hin, fmap_app, fmap_cons).
  assert (size s = lenZ ((before ctx ++ inorder l).*2 ++ (inorder r ++ after ctx).*2) + 1) as Hz by (unfold size; rewrite Hi; lenz).
  pose proof (lenZ_nonneg ((before ctx ++ inorder l).*2 ++ (inorder r ++ after ctx).*2)) as Hn.
  destruct (Remove_ok ho (hdr s) a c l e kv r ctx) as (a1 & t1 & R1 & H1 & Hb1 & Ho1 & He1); [by apply (proj2 (holds_plug ho _ _ _ _))|done|done|cbn [hdr h_n]; lia|cbn [hdr h_d]; lia|].
  set (s' := mkAbs ((before ctx ++ inorder l).*2 ++ (inorder r ++ after ctx).*2) (holes s + 1) (capacity s) (compare_fn s)).
  assert (tree_ok a1 s') as Hok1.
  { exists t1. unfold tree_at. assert (size s' = size s - 1) as Es by (unfold s', size; cbn [items]; unfold size in Hz; lia). split; [unfold hdr; by rewrite Es|]. split; [done|]. split; [|split; [|split; [|cbn [s' holes capacity]; lia]]].
    - rewrite Ho1. cbn [s' items]. rewrite <- fmap_app. f_equal. by rewrite <- !(assoc_L (++)).
    - rewrite Es. cbn [s' holes]. replace (size s - 1 + (holes s + 1)) with (size s + holes s) by lia. rewrite list.Forall_forall in *. intros x Hx. by apply He, He1.
    - cbn [s' items]. rewrite Hi in Hs. by eapply (sorted_delete cmp good fst). }
  unfold Delete. mstep by (eapply on_table_run; [exact Hst|exact R1]). unfold remove_items. fold s'.
  apply (Shrink_ok _ _ a1 s'); [apply list_lookup_insert_eq; by eapply lookup_lt_Some|done| |done|cbn [s' holes]; lia|].
  - unfold small, size in *. cbn [s' items holes capacity]. lia.
  - cbn [s' capacity items]. intros Hc31 E. rewrite E in Hz. simpl in Hz. unfold lenZ in Hz. simpl in Hz. lia.
Qed.
(** ** New trees *)

Definition empty_abs (cap : Z) : Abs := mkAbs [] 0 cap VHole.

Lemma Create_ok (st : Store) (n : Z) : 0 < n < 2 ^ 28 ->
  exists a, Create ho n st = (Ok (lenZ st), st ++ [a]) /\ tree_ok a (empty_abs (Z.max n MIN_CAPACITY)).
Proof.
  intros Hn. pose proof (size_pos ho). set (cap := Z.max n MIN_CAPACITY). assert (7 <= cap < 2 ^ 28) as Hcap by (unfold cap, MIN_CAPACITY; lia).
  set (m := mkMem 0 0 cap (-1) VHole (fun _ _ => VHole)). exists (enc ho m). split.
  - unfold Create. rewrite (proj2 (Z.ltb_lt 0 n)) by lia. mstep. assert ((if MIN_CAPACITY <? n then n else MIN_CAPACITY) = cap) as ->.
    { unfold cap. destruct (Z.ltb_spec MIN_CAPACITY n); lia. }
    assert ((SetNumberOfElements 0;; SetNumberOfDeletedElements 0;; SetRootEntries (-1);; SetCompare VHole;; SetCapacity cap) (Factory.NewTaggedArray (ELEMENTS_START_INDEX + cap * ENTRY_SIZE ho) VHole) = (Ok tt, enc ho m)) as Hm.
    { unfold Factory.NewTaggedArray, ELEMENTS_START_INDEX. rewrite (proj2 (Z.eqb_neq _ 0)) by nia. replace (Z.to_nat (5 + cap * ENTRY_SIZE ho)) with (5 + Z.to_nat (cap * ENTRY_SIZE ho))%nat by nia. rewrite replicate_add.
      do 4 (mstep by (by apply header_Set)). unfold SetCapacity. rewrite header_Set by done. f_equal. unfold enc, m. cbn [m_n m_d m_cap m_root m_cmp fld]. f_equal. by rewrite fmap_holes, length_seqZ. }
    mstep by (apply build_run; exact Hm). done.
  - exists Leaf. split; [|split; [split; [done|by exists O]|split; [done|split; [constructor|split; [split; constructor|unfold empty_abs, MIN_CAPACITY; cbn [holes capacity]; lia]]]]].
    exists m. split; [done|]. split; [unfold fits, m; cbn [m_cap]; unfold ELEMENTS_START_INDEX; nia|]. split; [done|]. split; [done|]. split; [done|]. split; [constructor|]. split; [|done]. done.
Qed.
End store.
End TreeStore.
