(* ===== verification/TreeKeys.v ===== *)
(** * TreeKeys: the orders of tree keys.

    Without a compare function OrdinayEntryCompare orders numbers before
    strings, numbers by value and strings by their code units.  That is a total
    order on numbers that are not NaN and on strings; a compare function of the
    program that returns integers is one if its signs are. *)
From stdpp Require Import sets sorting.
From S2P Require Import Prelude TaggedValue TaggedArray EcmaString TaggedTree TreeShape TreeBalance TreeSearch.
Local Open Scope Z_scope.

Module TreeKeys.
Import TaggedTree TreeSearch.

(** ** Numbers *)

Lemma dkey_Some (x : dbl) : isnan x = false -> exists a b, dkey x = Some (a, b).
Proof. destruct x as [|[]|[]|k]; simpl; try done; intros _; eauto. Qed.

Lemma number_compare (x y : dbl) (a b c d : Z) : dkey x = Some (a, b) -> dkey y = Some (c, d) ->
  StrictNumberCompare x y = if (a <? c) || ((a =? c) && (b <? d)) then LESS else if (c <? a) || ((c =? a) && (d <? b)) then GREAT else EQUAL.
Proof.
  intros Hx Hy. unfold StrictNumberCompare, double_ltb. rewrite Hx, Hy. assert (isnan x = false /\ isnan y = false) as [-> ->] by (destruct x, y; done). done.
Qed.

Lemma number_less (x y : dbl) (a b c d : Z) : dkey x = Some (a, b) -> dkey y = Some (c, d) ->
  StrictNumberCompare x y = LESS <-> a < c \/ (a = c /\ b < d).
Proof.
  intros Hx Hy. rewrite (number_compare x y a b c d Hx Hy). destruct (Z.ltb_spec a c), (Z.eqb_spec a c), (Z.ltb_spec b d), (Z.ltb_spec c a), (Z.eqb_spec c a), (Z.ltb_spec d b); cbn [orb andb]; split; (done || lia).
Qed.

Lemma number_equal (x y : dbl) (a b c d : Z) : dkey x = Some (a, b) -> dkey y = Some (c, d) -> StrictNumberCompare x y = EQUAL -> a = c /\ b = d.
Proof.
  intros Hx Hy. rewrite (number_compare x y a b c d Hx Hy). destruct (Z.ltb_spec a c), (Z.eqb_spec a c), (Z.ltb_spec b d), (Z.ltb_spec c a), (Z.eqb_spec c a), (Z.ltb_spec d b); cbn [orb andb]; (done || lia).
Qed.

(** ** Strings *)

Definition string_order (x y : list Z) : ComparisonResult :=
  if EcmaString.lex x y <? 0 then LESS else if EcmaString.lex x y =? 0 then EQUAL else GREAT.

Lemma lex_trans (x y z : list Z) : EcmaString.lex x y < 0 -> EcmaString.lex y z < 0 -> EcmaString.lex x z < 0.
Proof.
  revert y z. induction x as [|a x IH]; intros [|b y] [|c z]; simpl; rewrite ?lenZ_cons; change (lenZ (@nil Z)) with 0; try pose proof (lenZ_nonneg x); try pose proof (lenZ_nonneg y); try pose proof (lenZ_nonneg z); try lia.
  destruct (Z.eqb_spec a b), (Z.eqb_spec b c), (Z.eqb_spec a c); try lia. apply IH.
Qed.

(** ** The ordinary order *)

Section ordinary.
Context (env : CompareEnv).

Definition ordinary (x y : JSTaggedValue) : ComparisonResult :=
  match string_of env x, string_of env y with
  | Some u, Some v => string_order u v
  | Some _, None => GREAT
  | None, Some _ => LESS
  | None, None => StrictNumberCompare (ExtractNumber x) (ExtractNumber y)
  end.

(** A number that is not NaN, or a string of a length that fits. *)
Definition plain_key (x : JSTaggedValue) : Prop :=
  match string_of env x with
  | Some u => lenZ u < 2 ^ 30
  | None => IsNumber x = true /\ isnan (ExtractNumber x) = false
  end.

Lemma plain_number (x : JSTaggedValue) : plain_key x -> string_of env x = None -> IsNumber x = true /\ exists a b, dkey (ExtractNumber x) = Some (a, b).
Proof. unfold plain_key. intros Hx E. rewrite E in Hx. destruct Hx as [Hn Hx]. split; [done|by apply dkey_Some]. Qed.

Lemma string_not_number (x : JSTaggedValue) (u : list Z) : string_of env x = Some u -> IsNumber x = false.
Proof. unfold string_of, get_string. by destruct x. Qed.

Ltac numbers :=
  repeat match goal with
  | H : plain_key ?x, E : string_of env ?x = None |- _ => destruct (plain_number x H E) as (? & ? & ? & ?); clear H
  end.
Ltac compare_cases :=
  repeat match goal with
  | |- context [Z.ltb ?a ?b] => destruct (Z.ltb_spec a b)
  | |- context [Z.eqb ?a ?b] => destruct (Z.eqb_spec a b)
  | H : context [Z.ltb ?a ?b] |- _ => destruct (Z.ltb_spec a b)
  | H : context [Z.eqb ?a ?b] |- _ => destruct (Z.eqb_spec a b)
  end; cbn [orb andb flip_result] in *; try done; try lia.

#[export] Instance ordinary_order : KeyOrder ordinary plain_key.
Proof.
  split; unfold ordinary.
  - intros x Hx. destruct (string_of env x) eqn:E; [unfold string_order; by rewrite (proj2 (EcmaString.lex_eq l l) eq_refl)|]. numbers. erewrite number_compare by done. compare_cases.
  - intros x y Hx Hy. destruct (string_of env x) eqn:Ex, (string_of env y) eqn:Ey; try done.
    + unfold string_order. rewrite (EcmaString.lex_opp l l0). compare_cases.
    + numbers. erewrite !number_compare by done. compare_cases.
  - intros x y z Hx Hy Hz. destruct (string_of env x) eqn:Ex, (string_of env y) eqn:Ey, (string_of env z) eqn:Ez; try done.
    + unfold string_order. intros H1 H2. pose proof (lex_trans l l0 l1). compare_cases.
    + numbers. rewrite !number_less by done. lia.
  - intros x y z Hx Hy Hz. destruct (string_of env x) eqn:Ex, (string_of env y) eqn:Ey, (string_of env z) eqn:Ez; try done.
    + unfold string_order. intros H1. pose proof (EcmaString.lex_eq l l0) as [He _]. assert (l = l0) as ->; [|done]. apply He. compare_cases.
    + numbers. intros He. eapply (number_equal (ExtractNumber x) (ExtractNumber y)) in He; [|eassumption..]. destruct He as [-> ->]. by erewrite !number_compare by eassumption.
  - intros x y Hx Hy. destruct (string_of env x) eqn:Ex, (string_of env y) eqn:Ey; try done.
    + unfold string_order. compare_cases.
    + numbers. erewrite number_compare by done. compare_cases.
  - intros x Hx. unfold plain_key in Hx. destruct x; try done. simpl in Hx. by destruct Hx.
Qed.

Lemma compare_strings_run {S} (u v : list Z) (s : S) : lenZ u < 2 ^ 30 -> lenZ v < 2 ^ 30 -> compare_strings u v s = (Ok (string_order u v), s).
Proof. intros Hu Hv. unfold compare_strings. by mstep by (apply EcmaString.string_Compare_run; done). Qed.

#[export] Instance ordinary_tree : TreeOrder env VHole ordinary plain_key.
Proof.
  split; [apply _|]. intros x y a Hx Hy. cbn [IsHole]. unfold OrdinayEntryCompare, ordinary. destruct (string_of env x) eqn:Ex, (string_of env y) eqn:Ey.
  - apply compare_strings_run; [unfold plain_key in Hx; by rewrite Ex in Hx|unfold plain_key in Hy; by rewrite Ey in Hy].
  - destruct (plain_number y Hy Ey) as [Hn _]. by rewrite (string_not_number x l Ex), Hn.
  - destruct (plain_number x Hx Ex) as [Hn _]. by rewrite (string_not_number y l Ey), Hn.
  - destruct (plain_number x Hx Ex) as [-> _]. by destruct (plain_number y Hy Ey) as [-> _].
Qed.
End ordinary.

(** ** The order of a compare function *)

Definition sign_result (z : Z) : ComparisonResult := if 0 <? z then GREAT else if z <? 0 then LESS else EQUAL.

(** The function [fn] returns an int32 for every two keys. *)
Lemma function_order (env : CompareEnv) (fn : JSTaggedValue) (diff : JSTaggedValue -> JSTaggedValue -> Z) (good : JSTaggedValue -> Prop) :
  IsHole fn = false -> (forall x y, good x -> good y -> Call env fn x y = Ok (VInt (diff x y))) ->
  KeyOrder (fun x y => sign_result (diff x y)) good -> TreeOrder env fn (fun x y => sign_result (diff x y)) good.
Proof.
  intros Hfn Hcall HO. split; [done|]. intros x y a Hx Hy. rewrite Hfn. unfold CompareFn. mstep by (unfold lift; by rewrite (Hcall x y Hx Hy)). done.
Qed.

(** ** An example *)

(** There are no heap objects, and the compare function of the program is the
    difference of two ints. *)
Definition int_diff (x y : JSTaggedValue) : Z := match x, y with VInt a, VInt b => a - b | _, _ => 0 end.
Definition int_env : CompareEnv := mkCompareEnv (fun _ => HOther) (fun _ x y => Ok (VInt (int_diff x y))) (fun _ => Fault) (fun _ => Fault).
Definition is_int (x : JSTaggedValue) : Prop := match x with VInt _ => True | _ => False end.
Definition by_diff (x y : JSTaggedValue) : ComparisonResult := sign_result (int_diff x y).

Lemma by_diff_order : TreeOrder int_env (VObject 8) by_diff is_int.
Proof.
  apply (function_order int_env (VObject 8) int_diff is_int); [done|done|].
  split; intros; repeat match goal with x : JSTaggedValue |- _ => destruct x; try done end; unfold sign_result, int_diff in *;
    repeat match goal with
    | |- context [Z.ltb ?a ?b] => destruct (Z.ltb_spec a b)
    | H : context [Z.ltb ?a ?b] |- _ => destruct (Z.ltb_spec a b)
    end; cbn [flip_result] in *; (done || lia).
Qed.

Lemma int_plain (z : Z) : plain_key int_env (VInt z).
Proof. split; [done|]. by destruct z. Qed.
End TreeKeys.
