(* ===== verification/TreeMap.v ===== *)
(** * TreeMap: JSAPITreeMap, JSAPITreeSet and their iterators.

    js_api_tree_map.cpp, js_api_tree_set.cpp, js_api_tree_map_iterator.cpp,
    js_api_tree_set_iterator.cpp, and the constructors and forEach of
    containers_treemap.cpp and containers_treeset.cpp.

    A container is a tree in the store; operations that copy the tree give the
    container another one.  The theorems say that the two containers implement
    sorted lists of entries with the counts of [TreeStore.Abs]: every answer is
    the one of the list, the tree stays a red-black tree, and an iterator
    delivers the list. *)
From stdpp Require Import sets sorting.
From S2P Require Import Prelude TaggedValue TaggedArray EcmaString JSMap TaggedTree TreeShape TreeBalance TreeSearch TreeOps TreeCopy TreeStore TreeKeys.
Local Open Scope Z_scope.

Module TreeMap.
Import TaggedTree TreeShape TreeBalance TreeSearch TreeOps TreeStore TreeKeys.
Notation IterationKind := JSMap.IterationKind.

(** ** The containers *)

Record World : Type := mkWorld { trees : Store; GetTree : Z }.

Definition on_store {A} (m : M Store A) : M World A := zoom trees (fun st w => mkWorld st (GetTree w)) m.

Definition SetTree (t : Z) : M World unit := modify (fun w => mkWorld (trees w) t).

Definition on_tree {A} (m : M TaggedArray A) : M World A :=
  t ← gets GetTree;
  on_store (on_table t m).

Section container.
Context (ho : Derived) (env : CompareEnv).

(** TreeMapConstructor and TreeSetConstructor after the check of newTarget. *)
Definition Constructor (compareFn : JSTaggedValue) (callable : bool) : M World unit :=
  internal ← on_store (Create ho MIN_CAPACITY);
  SetTree internal;;
  match compareFn with
  | VUndefined | VNull => mret tt
  | _ =>
      if negb callable then
        _ ← lift (ToString env compareFn);
        throw TYPE_ERROR
      else on_tree (SetCompare compareFn)
  end.

(** JSAPITreeMap::Set. *)
Definition Set_ (key value : JSTaggedValue) : M World unit :=
  if negb (IsKey key) then
    _ ← lift (ToString env key);
    throw TYPE_ERROR
  else
    t ← gets GetTree;
    newMap ← on_store (Insert ho env t key value);
    SetTree newMap.

(** JSAPITreeSet::Add; TaggedTreeSet::Add inserts the value at itself. *)
Definition Add (value : JSTaggedValue) : M World unit :=
  if negb (IsKey value) then
    _ ← lift (ToString env value);
    throw TYPE_ERROR
  else
    t ← gets GetTree;
    newSet ← on_store (Insert ho env t value value);
    SetTree newSet.

Definition GetMap (key : JSTaggedValue) : M World JSTaggedValue := on_tree (Get ho env key).

Definition GetSize : M World Z := on_tree NumberOfElements.

(** JSAPITreeMap::GetKey and JSAPITreeMap::GetValue. *)
Definition GetKeyAt (entry : Z) : M World JSTaggedValue :=
  size ← GetSize;
  ASSERT (entry <? size);;
  key ← on_tree (GetKey ho entry);
  mret (Transform key).

Definition GetValueAt (entry : Z) : M World JSTaggedValue :=
  size ← GetSize;
  ASSERT (entry <? size);;
  value ← on_tree (GetValue ho entry);
  mret (Transform value).

(** JSAPITreeMap::Delete. *)
Definition DeleteMap (key : JSTaggedValue) : M World JSTaggedValue :=
  entry ← on_tree (FindEntry ho env key);
  if entry <? 0 then mret VUndefined
  else
    value ← on_tree (GetValue ho entry);
    t ← gets GetTree;
    newMap ← on_store (Delete ho t entry);
    SetTree newMap;;
    mret value.

(** JSAPITreeSet::Delete. *)
Definition DeleteSet (key : JSTaggedValue) : M World bool :=
  entry ← on_tree (FindEntry ho env key);
  if entry <? 0 then mret false
  else
    t ← gets GetTree;
    newSet ← on_store (Delete ho t entry);
    SetTree newSet;;
    mret true.

(** JSAPITreeMap::HasKey and JSAPITreeSet::Has. *)
Definition HasKey (key : JSTaggedValue) : M World bool :=
  entry ← on_tree (FindEntry ho env key);
  mret (0 <=? entry).

Definition HasValue (value : JSTaggedValue) : M World bool := on_tree (TaggedTree.HasValue ho env value).

(** JSAPITreeMap::Clear. *)
Definition ClearMap : M World unit :=
  cap ← GetSize;
  if cap =? 0 then mret tt
  else
    internal ← on_store (Create ho (Z.max cap MIN_CAPACITY));
    SetTree internal.

(** JSAPITreeSet::Clear. *)
Definition ClearSet : M World unit :=
  cap ← GetSize;
  internal ← on_store (Create ho cap);
  SetTree internal.

Definition Replace (key value : JSTaggedValue) : M World bool :=
  index ← on_tree (FindEntry ho env key);
  if index <? 0 then mret false
  else
    on_tree (SetValue ho index value);;
    mret true.

(** JSAPITreeSet::PopFirst and JSAPITreeSet::PopLast. *)
Definition PopFirst : M World JSTaggedValue :=
  root ← on_tree GetRootEntries;
  entry ← on_tree (GetMinimum ho root);
  if entry <? 0 then mret VUndefined
  else
    value ← on_tree (GetKey ho entry);
    t ← gets GetTree;
    newSet ← on_store (Delete ho t entry);
    SetTree newSet;;
    mret value.

Definition PopLast : M World JSTaggedValue :=
  root ← on_tree GetRootEntries;
  entry ← on_tree (GetMaximum ho root);
  if entry <? 0 then mret VUndefined
  else
    value ← on_tree (GetKey ho entry);
    t ← gets GetTree;
    newSet ← on_store (Delete ho t entry);
    SetTree newSet;;
    mret value.

(** ContainersTreeSet::GetLowerValue and GetHigherValue check the key. *)
Definition IsStringOrNumber (key : JSTaggedValue) : bool := (if string_of env key then true else false) || IsNumber key.

Definition GetLowerValue (key : JSTaggedValue) : M World JSTaggedValue :=
  if negb (IsStringOrNumber key) then
    _ ← lift (ToString env key);
    throw TYPE_ERROR
  else on_tree (GetLowerKey ho env key).

Definition GetHigherValue (key : JSTaggedValue) : M World JSTaggedValue :=
  if negb (IsStringOrNumber key) then
    _ ← lift (ToString env key);
    throw TYPE_ERROR
  else on_tree (GetHigherKey ho env key).

(** ContainersTreeMap::SetAll with the tree [src] of another map. *)
Definition SetAllFrom (src : Z) : M World unit :=
  t ← gets GetTree;
  tmap ← on_store (SetAll ho env t src);
  SetTree tmap.

(** ** Iterators *)

(** Entries is [None] for the hole, and Iterated is false for undefined. *)
Record TreeIterator : Type := mkTreeIterator {
  Iterated : bool;
  NextIndex : Z;
  Entries : option TaggedArray;
  GetIterationKind : IterationKind;
}.

Definition CreateTreeIterator (kind : IterationKind) : TreeIterator := mkTreeIterator true 0 None kind.

(** What a map and a set return for an entry: the words of the result. *)
Definition map_item (kind : IterationKind) (entry : Z) (key : JSTaggedValue) : M TaggedArray (list JSTaggedValue) :=
  match kind with
  | JSMap.KEY => mret [key]
  | JSMap.VALUE => value ← GetValue ho entry; mret [value]
  | JSMap.KEY_AND_VALUE => value ← GetValue ho entry; mret [key; value]
  end.

Definition set_item (kind : IterationKind) (entry : Z) (key : JSTaggedValue) : M TaggedArray (list JSTaggedValue) :=
  match kind with
  | JSMap.KEY | JSMap.VALUE => mret [key]
  | JSMap.KEY_AND_VALUE => mret [key; key]
  end.

(** Next of JSAPITreeMapIterator (with map_item) and JSAPITreeSetIterator (with
    set_item): the array of the entries in order is kept as long as the number
    of entries does not change. *)
Definition Next (item : IterationKind -> Z -> JSTaggedValue -> M TaggedArray (list JSTaggedValue)) (iter : TreeIterator) :
    M World (option (list JSTaggedValue) * TreeIterator) :=
  if negb (Iterated iter) then mret (None, iter)
  else
    elements ← on_tree NumberOfElements;
    entries ← match Entries iter with
              | Some entries => if elements =? lenZ entries then mret entries else on_tree (GetSortArray ho)
              | None => on_tree (GetSortArray ho)
              end;
    let index := NextIndex iter in
    let kind := GetIterationKind iter in
    if index <? elements then
      v ← Arr.GetFrom entries index;
      keyIndex ← GetInt v;
      key ← on_tree (GetKey ho keyIndex);
      words ← on_tree (item kind keyIndex key);
      mret (Some words, mkTreeIterator true (index + 1) (Some entries) kind)
    else mret (None, mkTreeIterator false index (Some entries) kind).

(** ** forEach *)

(** The callback of forEach may change the container.  The loop variables are
    iteratedMap, elements, entries, index and length. *)
Section foreach.
Context {E : Type} (callbackFn : JSTaggedValue -> JSTaggedValue -> M (World * E) JSTaggedValue) (value_of : Z -> JSTaggedValue -> M TaggedArray JSTaggedValue).

Definition in_world {A} (m : M World A) : M (World * E) A := zoom fst (fun w p => (w, p.2)) m.

Definition foreach_step (vars : Z * Z * TaggedArray * Z) : M (World * E) (Z * Z * TaggedArray * Z + unit) :=
  let '(iteratedMap, elements, entries, index) := vars in
  if index <? elements then
    v ← Arr.GetFrom entries index;
    entriesIndex ← GetInt v;
    key ← in_world (on_store (on_table iteratedMap (GetKey ho entriesIndex)));
    value ← in_world (on_store (on_table iteratedMap (value_of entriesIndex key)));
    callbackFn value key;;
    size ← in_world GetSize;
    if negb (size =? lenZ entries) then
      iteratedMap ← in_world (gets GetTree);
      entries ← in_world (on_tree (GetSortArray ho));
      elements ← in_world (on_tree NumberOfElements);
      mret (inl (iteratedMap, elements, entries, index + 1))
    else mret (inl (iteratedMap, elements, entries, index + 1))
  else mret (inr tt).

Definition ForEach (fuel : nat) : M (World * E) unit :=
  iteratedMap ← in_world (gets GetTree);
  elements ← in_world (on_tree NumberOfElements);
  entries ← in_world (on_tree (GetSortArray ho));
  while_fuel fuel foreach_step (iteratedMap, elements, entries, 0).
End foreach.
End container.
(** ** The specification *)

Inductive map_op : Type :=
| OSet (key value : JSTaggedValue)
| OGet (key : JSTaggedValue)
| OHasKey (key : JSTaggedValue)
| OHasValue (value : JSTaggedValue)
| ORemove (key : JSTaggedValue)
| OReplace (key value : JSTaggedValue)
| OClear
| OLength
| OFirstKey
| OLastKey
| OLowerKey (key : JSTaggedValue)
| OHigherKey (key : JSTaggedValue).

Inductive set_op : Type :=
| SAdd (value : JSTaggedValue)
| SHas (value : JSTaggedValue)
| SRemove (value : JSTaggedValue)
| SClear
| SLength
| SFirstValue
| SLastValue
| SLowerValue (value : JSTaggedValue)
| SHigherValue (value : JSTaggedValue)
| SPopFirst
| SPopLast.

Inductive result : Type := RUnit | RBool (b : bool) | RInt (z : Z) | RValue (v : JSTaggedValue).

Section spec.
Context (heap : Heap) (cmp : JSTaggedValue -> JSTaggedValue -> ComparisonResult).
Notation part := (part cmp (fst : KV -> JSTaggedValue)).

Definition find_item (k : JSTaggedValue) (s : Abs) : option KV := head (part EQUAL k (items s)).
Definition key_or_undefined (x : option KV) : JSTaggedValue := match x with Some x => x.1 | None => VUndefined end.
Definition value_or_undefined (x : option KV) : JSTaggedValue := match x with Some x => x.2 | None => VUndefined end.

Definition replace_value (ho : Derived) (k v : JSTaggedValue) (s : Abs) : Abs :=
  match find_item k s with
  | Some x => with_items (place cmp k (stored ho x.1 v) (items s)) s
  | None => s
  end.

(** A new tree with room for as many entries. *)
Definition cleared (s : Abs) : Abs := mkAbs [] 0 (Z.max (size s) MIN_CAPACITY) VHole.

Definition map_spec (o : map_op) (s : Abs) : outcome result * Abs :=
  match o with
  | OSet k v => (Ok RUnit, insert TaggedTreeMap cmp k v s)
  | OGet k => (Ok (RValue (value_or_undefined (find_item k s))), s)
  | OHasKey k => (Ok (RBool (bool_decide (is_Some (find_item k s)))), s)
  | OHasValue v => (Ok (RBool (existsb (fun x : KV => SameValue heap x.2 v) (items s))), s)
  | ORemove k => (Ok (RValue (value_or_undefined (find_item k s))), delete cmp k s)
  | OReplace k v => (Ok (RBool (bool_decide (is_Some (find_item k s)))), replace_value TaggedTreeMap k v s)
  | OClear => (Ok RUnit, if size s =? 0 then s else cleared s)
  | OLength => (Ok (RInt (size s)), s)
  | OFirstKey => (Ok (RValue (key_or_undefined (head (items s)))), s)
  | OLastKey => (Ok (RValue (key_or_undefined (list.last (items s)))), s)
  | OLowerKey k => (Ok (RValue (key_or_undefined (list.last (part GREAT k (items s))))), s)
  | OHigherKey k => (Ok (RValue (key_or_undefined (head (part LESS k (items s))))), s)
  end.

Definition set_spec (o : set_op) (s : Abs) : outcome result * Abs :=
  match o with
  | SAdd k => (Ok RUnit, insert TaggedTreeSet cmp k k s)
  | SHas k => (Ok (RBool (bool_decide (is_Some (find_item k s)))), s)
  | SRemove k => (Ok (RBool (bool_decide (is_Some (find_item k s)))), delete cmp k s)
  | SClear => if size s =? 0 then (Fault, s) else (Ok RUnit, cleared s)
  | SLength => (Ok (RInt (size s)), s)
  | SFirstValue => (Ok (RValue (key_or_undefined (head (items s)))), s)
  | SLastValue => (Ok (RValue (key_or_undefined (list.last (items s)))), s)
  | SLowerValue k => (Ok (RValue (key_or_undefined (list.last (part GREAT k (items s))))), s)
  | SHigherValue k => (Ok (RValue (key_or_undefined (head (part LESS k (items s))))), s)
  | SPopFirst => (Ok (RValue (key_or_undefined (head (items s)))), match items s with [] => s | _ => remove_items (tail (items s)) s end)
  | SPopLast => (Ok (RValue (key_or_undefined (list.last (items s)))), match items s with [] => s | _ => remove_items (removelast (items s)) s end)
  end.

(** The cases left out of [map_spec] and [set_spec]: the tree loses its compare
    function, or the last entry of a tree with 31 or more places is removed. *)
Definition clear_guard (s : Abs) : bool := IsHole (compare_fn s) || (size s =? 0).

Definition map_guard (o : map_op) (s : Abs) : bool :=
  match o with
  | OSet _ _ => insert_guard s
  | ORemove k => match find_item k s with Some _ => delete_guard s | None => true end
  | OClear => clear_guard s
  | _ => true
  end.

Definition set_guard (o : set_op) (s : Abs) : bool :=
  match o with
  | SAdd _ => insert_guard s
  | SRemove k => match find_item k s with Some _ => delete_guard s | None => true end
  | SPopFirst | SPopLast => match items s with [] => true | _ => delete_guard s end
  | SClear => clear_guard s
  | _ => true
  end.

(** ** Sorted lists

    What the containers promise, with no trace of the tree: a list of entries,
    and a list of keys, in the order of the keys. *)
Definition lookup_item (k : JSTaggedValue) (l : list KV) : option KV := head (part EQUAL k l).

Definition list_map_spec (o : map_op) (l : list KV) : outcome result * list KV :=
  match o with
  | OSet k v => (Ok RUnit, place cmp k (match lookup_item k l with Some x => x.1 | None => k end, v) l)
  | OGet k => (Ok (RValue (value_or_undefined (lookup_item k l))), l)
  | OHasKey k => (Ok (RBool (bool_decide (is_Some (lookup_item k l)))), l)
  | OHasValue v => (Ok (RBool (existsb (fun x : KV => SameValue heap x.2 v) l)), l)
  | ORemove k => (Ok (RValue (value_or_undefined (lookup_item k l))), if lookup_item k l then part GREAT k l ++ part LESS k l else l)
  | OReplace k v => (Ok (RBool (bool_decide (is_Some (lookup_item k l)))), match lookup_item k l with Some x => place cmp k (x.1, v) l | None => l end)
  | OClear => (Ok RUnit, [])
  | OLength => (Ok (RInt (lenZ l)), l)
  | OFirstKey => (Ok (RValue (key_or_undefined (head l))), l)
  | OLastKey => (Ok (RValue (key_or_undefined (list.last l))), l)
  | OLowerKey k => (Ok (RValue (key_or_undefined (list.last (part GREAT k l)))), l)
  | OHigherKey k => (Ok (RValue (key_or_undefined (head (part LESS k l)))), l)
  end.

Notation keys_part := (TreeSearch.part cmp (fun k : JSTaggedValue => k)).

Definition list_set_spec (o : set_op) (l : list JSTaggedValue) : outcome result * list JSTaggedValue :=
  match o with
  | SAdd k => (Ok RUnit, keys_part GREAT k l ++ k :: keys_part LESS k l)
  | SHas k => (Ok (RBool (bool_decide (is_Some (head (keys_part EQUAL k l))))), l)
  | SRemove k => (Ok (RBool (bool_decide (is_Some (head (keys_part EQUAL k l))))), if head (keys_part EQUAL k l) then keys_part GREAT k l ++ keys_part LESS k l else l)
  | SClear => (Ok RUnit, [])
  | SLength => (Ok (RInt (lenZ l)), l)
  | SFirstValue => (Ok (RValue (default VUndefined (head l))), l)
  | SLastValue => (Ok (RValue (default VUndefined (list.last l))), l)
  | SLowerValue k => (Ok (RValue (default VUndefined (list.last (keys_part GREAT k l)))), l)
  | SHigherValue k => (Ok (RValue (default VUndefined (head (keys_part LESS k l)))), l)
  | SPopFirst => (Ok (RValue (default VUndefined (head l))), tail l)
  | SPopLast => (Ok (RValue (default VUndefined (list.last l))), removelast l)
  end.

(** Setting the value of a key that is there, in a tree that has no place left: the
    value is lost (treemap_full_update_lost). *)
Definition loses (k : JSTaggedValue) (s : Abs) : bool := grows s && bool_decide (is_Some (find_item k s)).

(** The tree is as good as a sorted list: besides the guards above, no update is
    lost, and an empty TreeSet is not cleared, which fails. *)
Definition map_regular (o : map_op) (s : Abs) : bool :=
  map_guard o s && match o with OSet k _ => negb (loses k s) | _ => true end.

Definition set_regular (o : set_op) (s : Abs) : bool :=
  set_guard o s && match o with SAdd k => negb (loses k s) | SClear => negb (size s =? 0) | _ => true end.

Lemma find_insert (ho : Derived) (k v : JSTaggedValue) (s : Abs) : loses k s = false ->
  items (insert ho cmp k v s) = place cmp k (match find_item k s with Some x => stored ho x.1 v | None => stored ho k v end) (items s).
Proof.
  unfold loses, find_item, insert. destruct (items s) as [|y l] eqn:Ei; [done|]. destruct (part EQUAL k (y :: l)) as [|x l'] eqn:Ep; simpl; [by destruct (grows s)|]. by destruct (grows s).
Qed.

Lemma find_delete (k : JSTaggedValue) (s : Abs) : items (delete cmp k s) = if find_item k s then part GREAT k (items s) ++ part LESS k (items s) else items s.
Proof. unfold delete, find_item. destruct (part EQUAL k (items s)); [done|]. simpl. unfold remove_items. by destruct (shrinks _). Qed.

Lemma items_remove (l : list KV) (s : Abs) : items (remove_items l s) = l.
Proof. unfold remove_items. by destruct (shrinks _). Qed.

Lemma map_spec_answers (o : map_op) (s : Abs) : match o with OSet k _ => negb (loses k s) | _ => true end = true ->
  (map_spec o s).1 = (list_map_spec o (items s)).1 /\ items (map_spec o s).2 = (list_map_spec o (items s)).2.
Proof.
  intros Hl. destruct o as [k v|k|k|v|k|k v| | | | |k|k]; split; try done; cbn [map_spec list_map_spec fst snd].
  - rewrite find_insert by (by apply negb_true_iff). unfold find_item, lookup_item. by destruct (head _).
  - apply find_delete.
  - unfold replace_value, find_item, lookup_item. by destruct (head _).
  - destruct (Z.eqb_spec (size s) 0) as [E|E]; [|done]. unfold size in E. by apply lenZ_zero.
Qed.

Lemma map_spec_list (o : map_op) (s : Abs) : map_regular o s = true ->
  (map_spec o s).1 = (list_map_spec o (items s)).1 /\ items (map_spec o s).2 = (list_map_spec o (items s)).2.
Proof. unfold map_regular. rewrite andb_true_iff. intros [_ Hl]. by apply map_spec_answers. Qed.

Lemma keys_part_fmap (c : ComparisonResult) (k : JSTaggedValue) (l : list KV) : keys_part c k l.*1 = (part c k l).*1.
Proof. exact (part_fmap cmp fst (fun k => k) c k l). Qed.

Lemma head_keys (l : list KV) : head l.*1 = fst <$> head l.
Proof. by destruct l. Qed.

Lemma last_keys (l : list KV) : list.last l.*1 = fst <$> list.last l.
Proof. apply fmap_last. Qed.

Lemma default_key (x : option KV) : default VUndefined (fst <$> x) = key_or_undefined x.
Proof. by destruct x. Qed.

Lemma set_spec_list (o : set_op) (s : Abs) : set_regular o s = true ->
  (set_spec o s).1 = (list_set_spec o (items s).*1).1 /\ (items (set_spec o s).2).*1 = (list_set_spec o (items s).*1).2.
Proof.
  unfold set_regular. rewrite andb_true_iff. intros [_ Hl].
  destruct o as [k|k|k| | | | |k|k| |]; cbn [set_spec list_set_spec fst snd]; rewrite ?keys_part_fmap, ?head_keys, ?last_keys, ?default_key; split; try done.
  - rewrite find_insert by (by apply negb_true_iff). unfold place. rewrite fmap_app, fmap_cons. do 2 f_equal. by destruct (find_item k s).
  - unfold find_item. by destruct (part EQUAL k (items s)).
  - unfold find_item. by destruct (part EQUAL k (items s)).
  - rewrite find_delete. unfold find_item. destruct (part EQUAL k (items s)); [done|]. simpl. apply fmap_app.
  - apply negb_true_iff in Hl. by rewrite Hl.
  - apply negb_true_iff in Hl. by rewrite Hl.
  - unfold size, lenZ. by rewrite length_fmap.
  - destruct (items s) as [|x l] eqn:Ei; [by rewrite Ei|]. by rewrite items_remove.
  - destruct (items s) as [|x l] eqn:Ei; [by rewrite Ei|]. rewrite items_remove. rewrite !removelast_firstn_len, length_fmap. apply fmap_take.
Qed.
End spec.

(** Two specifications that agree in the states in which they are run. *)
Lemma run_specs_agree {O A S T} (spec : O -> S -> outcome A * S) (guard : O -> S -> bool) (spec' : O -> T -> outcome A * T) (view : S -> T) :
  (forall o s, guard o s = true -> (spec o s).1 = (spec' o (view s)).1 /\ view (spec o s).2 = (spec' o (view s)).2) ->
  forall os s, guarded spec guard os s = true -> (run_ops spec os s).1 = (run_ops spec' os (view s)).1.
Proof.
  intros Hstep os. induction os as [|o os IH]; intros s Hg; [done|]. cbn [guarded] in Hg. apply andb_true_iff in Hg as [Ho Hg]. destruct (Hstep o s Ho) as [E1 E2]. specialize (IH _ Hg). cbn [run_ops].
  destruct (spec o s) as [r s'], (spec' o (view s)) as [r' t']. cbn [fst snd] in *. subst. destruct (run_ops spec os s'), (run_ops spec' os (view s')). cbn [fst] in *. congruence.
Qed.

(** Fewer sequences pass a stronger guard. *)
Lemma guarded_weaken {O A S} (spec : O -> S -> outcome A * S) (g g' : O -> S -> bool) (os : list O) (s : S) :
  (forall o s, g o s = true -> g' o s = true) -> guarded spec g os s = true -> guarded spec g' os s = true.
Proof. intros Hg. revert s. induction os as [|o os IH]; intros s; [done|]. cbn [guarded]. rewrite !andb_true_iff. intros [H1 H2]. split; [by apply Hg|by apply IH]. Qed.

(** The operations of the containers. *)
Section exec.
Context (env : CompareEnv).

Definition ret {A} (f : A -> result) (m : M World A) : M World result := x ← m; mret (f x).

Definition map_exec (o : map_op) : M World result :=
  let ho := TaggedTreeMap in
  match o with
  | OSet k v => ret (fun _ => RUnit) (Set_ ho env k v)
  | OGet k => ret RValue (GetMap ho env k)
  | OHasKey k => ret RBool (HasKey ho env k)
  | OHasValue v => ret RBool (HasValue ho env v)
  | ORemove k => ret RValue (DeleteMap ho env k)
  | OReplace k v => ret RBool (Replace ho env k v)
  | OClear => ret (fun _ => RUnit) (ClearMap ho)
  | OLength => ret RInt GetSize
  | OFirstKey => ret RValue (on_tree (GetFirstKey ho))
  | OLastKey => ret RValue (on_tree (GetLastKey ho))
  | OLowerKey k => ret RValue (on_tree (GetLowerKey ho env k))
  | OHigherKey k => ret RValue (on_tree (GetHigherKey ho env k))
  end.

Definition set_exec (o : set_op) : M World result :=
  let ho := TaggedTreeSet in
  match o with
  | SAdd k => ret (fun _ => RUnit) (Add ho env k)
  | SHas k => ret RBool (HasKey ho env k)
  | SRemove k => ret RBool (DeleteSet ho env k)
  | SClear => ret (fun _ => RUnit) (ClearSet ho)
  | SLength => ret RInt GetSize
  | SFirstValue => ret RValue (on_tree (GetFirstKey ho))
  | SLastValue => ret RValue (on_tree (GetLastKey ho))
  | SLowerValue k => ret RValue (GetLowerValue ho env k)
  | SHigherValue k => ret RValue (GetHigherValue ho env k)
  | SPopFirst => ret RValue (PopFirst ho)
  | SPopLast => ret RValue (PopLast ho)
  end.
End exec.
(** ** Refinement *)

Section refinement.
Context (ho : Derived) `{HL : Layout ho} (env : CompareEnv) (fn : JSTaggedValue).
Context (cmp : JSTaggedValue -> JSTaggedValue -> ComparisonResult) (good : JSTaggedValue -> Prop) `{HO : !TreeOrder env fn cmp good}.
Notation part := (part cmp (fst : KV -> JSTaggedValue)).
Notation tree_at := (tree_at ho cmp good).
Notation tree_ok := (tree_ok ho cmp good).

(** The container [w] holds the entries of [s] after [k] operations. *)
Definition implements (k : Z) (w : World) (s : Abs) : Prop :=
  0 <= GetTree w /\ compare_fn s = fn /\ size s + holes s <= k /\ capacity s <= 2 * k + MIN_CAPACITY /\
  exists a, trees w !! Z.to_nat (GetTree w) = Some a /\ tree_ok a s.

Definition MAX_OPS : Z := 2 ^ 25.

Lemma implements_small (k : Z) (w : World) (s : Abs) : implements k w s -> k < MAX_OPS -> small s /\ capacity s < 2 ^ 27.
Proof. unfold small, MAX_OPS, MIN_CAPACITY, implements. unfold MIN_CAPACITY. lia. Qed.

Lemma implements_later (k : Z) (w : World) (s : Abs) : implements k w s -> implements (k + 1) w s.
Proof. intros (H1 & H2 & H3 & H4 & H5). split_and!; try done; lia. Qed.

(** ** Reading *)

Lemma on_tree_read {A} (w : World) (a : TaggedArray) (m : M TaggedArray A) (r : A) :
  trees w !! Z.to_nat (GetTree w) = Some a -> m a = (Ok r, a) -> on_tree m w = (Ok r, w).
Proof. intros Hw Hm. unfold on_tree. mstep. unfold on_store. erewrite zoom_run by (by eapply on_table_read). by destruct w. Qed.

Lemma on_tree_run {A} (w : World) (a a' : TaggedArray) (m : M TaggedArray A) (r : A) :
  trees w !! Z.to_nat (GetTree w) = Some a -> m a = (Ok r, a') -> on_tree m w = (Ok r, mkWorld (<[Z.to_nat (GetTree w) := a']> (trees w)) (GetTree w)).
Proof. intros Hw Hm. unfold on_tree. mstep. unfold on_store. by erewrite zoom_run by (by eapply on_table_run). Qed.

Lemma on_store_run {A} (w : World) (st : Store) (m : M Store A) (r : A) : m (trees w) = (Ok r, st) -> on_store m w = (Ok r, mkWorld st (GetTree w)).
Proof. intros Hm. unfold on_store. by erewrite zoom_run by done. Qed.

Section reading.
Context (a : TaggedArray) (s : Abs) (t : Tree) (Hat : tree_at a s t) (Hfn : compare_fn s = fn).

Lemma tree_sorted : TreeSearch.sorted cmp good key_of (inorder t).
Proof. destruct Hat as (_ & _ & Ho & _ & Hs & _). apply (sorted_fmap cmp good snd fst). by rewrite Ho. Qed.

Lemma tree_part (p : ComparisonResult) (k : JSTaggedValue) : part p k (items s) = (TreeSearch.part cmp key_of p k (inorder t)).*2.
Proof. destruct Hat as (_ & _ & Ho & _). rewrite <- Ho. apply part_fmap. Qed.

Lemma find_ok (k : JSTaggedValue) : good k ->
  match find_item cmp k s with
  | None => FindEntry ho env k a = (Ok (-1), a) /\ part EQUAL k (items s) = []
  | Some x => exists e l1 l2, FindEntry ho env k a = (Ok e, a) /\ 0 <= e /\ inorder t = l1 ++ (e, x) :: l2 /\
      l1.*2 = part GREAT k (items s) /\ l2.*2 = part LESS k (items s) /\ part EQUAL k (items s) = [x]
  end.
Proof.
  intros Hk. pose proof Hat as (H & _ & Ho & _ & Hs & _). pose proof tree_sorted as Hts. assert (TreeOrder env (h_cmp (hdr s)) cmp good) as HO' by (cbn; by rewrite Hfn).
  pose proof (FindEntry_ok ho (hdr s) env cmp good k Hk a t H Hts) as Hf. unfold find_item. rewrite !tree_part.
  destruct (equal_part cmp good key_of k (inorder t) Hk Hts) as [E|([e x] & E & Ek & Hg)].
  - rewrite E in *. done.
  - rewrite E in *. simpl in *. exists e, (TreeSearch.part cmp key_of GREAT k (inorder t)), (TreeSearch.part cmp key_of LESS k (inorder t)).
    assert ((e, x) ∈ inorder t) as Hin by (eapply (part_in cmp k EQUAL); rewrite E; by left). destruct (element_at ho (hdr s) a t _ H Hin) as (_ & _ & He & _).
    split; [done|]. split; [simpl in He; lia|]. split; [|done]. rewrite (sorted_parts cmp good key_of k (inorder t) Hk Hts) at 1. by rewrite E.
Qed.

Lemma first_ok (l : list (Z * KV)) : first_key l = key_or_undefined (head l.*2).
Proof. by destruct l. Qed.

Lemma last_ok (l : list (Z * KV)) : last_key l = key_or_undefined (list.last l.*2).
Proof. unfold last_key. rewrite fmap_last. by destruct (list.last l). Qed.

(** Every read-only operation. *)
Lemma GetFirstKey_run : GetFirstKey ho a = (Ok (key_or_undefined (head (items s))), a).
Proof. destruct Hat as (H & _ & Ho & _). by rewrite (GetFirstKey_ok ho (hdr s) a t H), first_ok, Ho. Qed.

Lemma GetLastKey_run : GetLastKey ho a = (Ok (key_or_undefined (list.last (items s))), a).
Proof. destruct Hat as (H & _ & Ho & _). by rewrite (GetLastKey_ok ho (hdr s) a t H), last_ok, Ho. Qed.

Lemma GetLowerKey_run (k : JSTaggedValue) : good k -> GetLowerKey ho env k a = (Ok (key_or_undefined (list.last (part GREAT k (items s)))), a).
Proof.
  intros Hk. pose proof tree_sorted as Hts. assert (TreeOrder env (h_cmp (hdr s)) cmp good) as HO' by (cbn; by rewrite Hfn). destruct (Hat) as (H & _).
  by rewrite (GetLowerKey_ok ho (hdr s) env cmp good k Hk a t H Hts), last_ok, tree_part.
Qed.

Lemma GetHigherKey_run (k : JSTaggedValue) : good k -> GetHigherKey ho env k a = (Ok (key_or_undefined (head (part LESS k (items s)))), a).
Proof.
  intros Hk. pose proof tree_sorted as Hts. assert (TreeOrder env (h_cmp (hdr s)) cmp good) as HO' by (cbn; by rewrite Hfn). destruct (Hat) as (H & _).
  by rewrite (GetHigherKey_ok ho (hdr s) env cmp good k Hk a t H Hts), first_ok, tree_part.
Qed.

Lemma tree_Get_run (k : JSTaggedValue) : good k -> Get ho env k a = (Ok (value_or_undefined (find_item cmp k s)), a).
Proof.
  intros Hk. pose proof tree_sorted as Hts. assert (TreeOrder env (h_cmp (hdr s)) cmp good) as HO' by (cbn; by rewrite Hfn). destruct (Hat) as (H & _).
  rewrite (Get_ok ho (hdr s) env cmp good k Hk a t H Hts). unfold find_item. rewrite tree_part. by destruct (TreeSearch.part cmp key_of EQUAL k (inorder t)).
Qed.

Lemma existsb_fmap {A B} (f : A -> B) (p : B -> bool) (l : list A) : existsb p (f <$> l) = existsb (fun x => p (f x)) l.
Proof. induction l as [|x l IH]; [done|]. simpl. by rewrite <- IH. Qed.

Lemma HasValue_run (v : JSTaggedValue) : TaggedTree.HasValue ho env v a = (Ok (existsb (fun x : KV => SameValue (env_heap env) x.2 v) (items s)), a).
Proof. destruct Hat as (H & _ & Ho & _). by rewrite (HasValue_ok ho (hdr s) env v a t H), <- Ho, existsb_fmap. Qed.

Lemma Size_run : small s -> NumberOfElements a = (Ok (size s), a).
Proof.
  intros [Hs _]. destruct Hat as (H & _ & _ & _ & _ & Hh & _). pose proof (lenZ_nonneg (items s)) as Hn. fold (size s) in Hn. apply (NumberOfElements_ok ho (hdr s) _ _ _ H). cbn [hdr h_n]. lia.
Qed.
End reading.

(** ** Updates *)

(** The counts after an insertion: the tree is kept, or it was full and grew. *)
Lemma insert_shape (k v : JSTaggedValue) (s : Abs) : good k -> TreeSearch.sorted cmp good fst (items s) ->
  let s' := insert ho cmp k v s in
  (holes s' = holes s /\ capacity s' = capacity s /\ compare_fn s' = compare_fn s /\ size s <= size s' <= size s + 1) \/
  (grows s = true /\ 1 <= size s /\ holes s' = 0 /\ capacity s' = 2 * capacity s + 1 /\ size s' = size s + 1 /\ compare_fn s' = if holes s =? 0 then compare_fn s else VHole).
Proof.
  intros Hk Hs. unfold insert. destruct (items s) as [|x l] eqn:Hi; [left; unfold size; rewrite Hi; cbn [with_items items holes capacity compare_fn]; autorewrite with lenz; split_and!; (done || lia)|]. rewrite <- Hi in *.
  pose proof (sorted_parts cmp good fst k (items s) Hk Hs) as Hp. apply (f_equal lenZ) in Hp. autorewrite with lenz in Hp.
  assert (1 <= size s) by (unfold size; rewrite Hi; autorewrite with lenz; pose proof (lenZ_nonneg l); lia).
  destruct (equal_part cmp good fst k (items s) Hk Hs) as [E|(y & E & _)]; rewrite E in *; autorewrite with lenz in Hp.
  - unfold place, size in *. destruct (grows s) eqn:Eg; cbn [with_items resize items holes capacity compare_fn]; autorewrite with lenz; [right|left]; split_and!; (done || lia).
  - left. destruct (grows s); [split_and!; (lia || done)|]. unfold place, size. cbn [with_items items holes capacity compare_fn]. autorewrite with lenz. split_and!; (done || lia).
Qed.

Lemma insert_counts (k v : JSTaggedValue) (s : Abs) : good k -> TreeSearch.sorted cmp good fst (items s) -> 0 <= holes s ->
  size (insert ho cmp k v s) + holes (insert ho cmp k v s) <= size s + holes s + 1 /\
  capacity (insert ho cmp k v s) <= Z.max (capacity s) (2 * (size s + holes s) + 1) /\
  (insert_guard s = true -> compare_fn (insert ho cmp k v s) = compare_fn s).
Proof.
  intros Hk Hs Hh. destruct (insert_shape k v s Hk Hs) as [(H1 & H2 & H3 & H4)|(Hg & H1 & H2 & H3 & H4 & H5)].
  - split_and!; [lia..|done].
  - unfold insert_guard. rewrite Hg, H5. unfold grows in Hg. split_and!; [lia..|]. destruct (holes s =? 0); [done|]. by destruct (compare_fn s).
Qed.

Lemma remove_counts (l : list KV) (s : Abs) : lenZ l + 1 = size s -> 0 <= holes s -> MIN_CAPACITY <= capacity s ->
  size (remove_items l s) + holes (remove_items l s) <= size s + holes s /\ capacity (remove_items l s) <= capacity s /\
  (delete_guard s = true -> compare_fn (remove_items l s) = compare_fn s /\ (capacity s < 31 \/ 2 <= size s)).
Proof.
  intros Hl Hh Hc. unfold remove_items, MIN_CAPACITY in *. set (s' := mkAbs l (holes s + 1) (capacity s) (compare_fn s)).
  assert (delete_guard s = true -> capacity s < 31 \/ (2 <= size s /\ (compare_fn s = VHole \/ (capacity s + 1) / 4 <= size s - 1))) as Hg.
  { unfold delete_guard. intros [Hg|[Hg1 [Hg2|Hg2]%orb_true_iff]%andb_true_iff]%orb_true_iff; [left; lia|right..]; (split; [lia|]); [left; by destruct (compare_fn s)|right; apply negb_true_iff in Hg2; lia]. }
  destruct (shrinks s') eqn:E.
  - assert (size s - 1 < (capacity s + 1) / 4 /\ 15 <= (capacity s - 1) / 2) as [E1 E2].
    { unfold shrinks, size, MIN_SHRINK_CAPACITY in E. cbn [s' items capacity] in E. apply andb_true_iff in E as [E1 E2]. lia. }
    change (lenZ l + 0 <= size s + holes s /\ (capacity s - 1) / 2 <= capacity s /\ (delete_guard s = true -> (if holes s + 1 =? 0 then compare_fn s else VHole) = compare_fn s /\ (capacity s < 31 \/ 2 <= size s))).
    split; [lia|]. split; [zlia|]. intros Hd. rewrite (proj2 (Z.eqb_neq (holes s + 1) 0)) by lia. destruct (Hg Hd) as [H31|(Hg1 & [Hg2|Hg2])]; [zlia|by rewrite Hg2; split; [|right]|lia].
  - change (lenZ l + (holes s + 1) <= size s + holes s /\ capacity s <= capacity s /\ (delete_guard s = true -> compare_fn s = compare_fn s /\ (capacity s < 31 \/ 2 <= size s))).
    split; [lia|]. split; [lia|]. intros Hd. split; [done|]. destruct (Hg Hd) as [H31|(Hg1 & _)]; [by left|by right].
Qed.

Section updates.
Context (k : Z) (w : World) (s : Abs) (HI : implements k w s) (Hk : 0 <= k < MAX_OPS).

Lemma tree_Set_step (key value : JSTaggedValue) : good key -> data_ok ho key value -> insert_guard s = true ->
  exists w', Set_ ho env key value w = (Ok tt, w') /\ implements (k + 1) w' (insert ho cmp key value s).
Proof.
  intros Hg Hd Hgd. destruct (implements_small k w s HI ltac:(lia)) as [Hsm Hc]. destruct HI as (Ht & Hfn & Hn & Hcap & a & Hw & t & Hat). assert (TreeOrder env (compare_fn s) cmp good) as HO' by (by rewrite Hfn).
  destruct (Insert_ok ho env cmp good (trees w) (GetTree w) a s key value Hw Ht ltac:(by exists t) Hsm Hc Hg Hd) as (tree' & st' & a' & R & Hst & Hpos & Hok').
  destruct Hat as (_ & _ & _ & _ & Hs & Hh & Hmin). destruct (insert_counts key value s Hg Hs Hh) as (H1 & H2 & H3). exists (mkWorld st' tree'). split.
  - unfold Set_, IsKey. rewrite (good_key key Hg). cbn [negb]. mstep. mstep by (by apply on_store_run). done.
  - split; [done|]. split; [by rewrite H3|]. split; [lia|]. split; [unfold MIN_CAPACITY in *; lia|]. by exists a'.
Qed.

Lemma delete_at (t : Tree) (a : TaggedArray) (l1 l2 : list (Z * KV)) (e : Z) (x : KV) :
  trees w !! Z.to_nat (GetTree w) = Some a -> tree_at a s t -> inorder t = l1 ++ (e, x) :: l2 -> delete_guard s = true ->
  exists tree' st', Delete ho (GetTree w) e (trees w) = (Ok tree', st') /\ implements (k + 1) (mkWorld st' tree') (remove_items (l1.*2 ++ l2.*2) s).
Proof.
  intros Hw Hat Hin Hgd. destruct (implements_small k w s HI ltac:(lia)) as [Hsm _]. destruct HI as (Ht & Hfn & Hn & Hcap & _). pose proof Hat as (_ & _ & Ho & _ & Hs & Hh & Hmin).
  assert (lenZ (l1.*2 ++ l2.*2) + 1 = size s) as Hl by (unfold size; rewrite <- Ho, Hin, fmap_app, fmap_cons; lenz).
  destruct (remove_counts _ s Hl Hh Hmin) as (H1 & H2 & H3). destruct (H3 Hgd) as [H4 H5].
  destruct (Delete_ok ho cmp good (trees w) (GetTree w) a s t l1 l2 e x Hw Hat Hsm Ht Hin H5) as (tree' & st' & a' & R & Hst & Hpos & Hok').
  exists tree', st'. split; [done|]. split; [done|]. split; [by rewrite H4|]. split; [lia|]. split; [lia|]. by exists a'.
Qed.

Lemma tree_Delete_step (key : JSTaggedValue) : good key -> (match find_item cmp key s with Some _ => delete_guard s | None => true end = true) ->
  (exists w', DeleteMap ho env key w = (Ok (value_or_undefined (find_item cmp key s)), w') /\ implements (k + 1) w' (delete cmp key s)) /\
  (exists w', DeleteSet ho env key w = (Ok (bool_decide (is_Some (find_item cmp key s))), w') /\ implements (k + 1) w' (delete cmp key s)).
Proof.
  intros Hg Hgd. pose proof HI as (Ht & Hfn & Hn & Hcap & a & Hw & t & Hat). pose proof (find_ok a s t Hat Hfn key Hg) as Hf. unfold DeleteMap, DeleteSet, delete. destruct (find_item cmp key s) as [x|].
  - destruct Hf as (e & l1 & l2 & R & He & Hin & P1 & P2 & P3). destruct (delete_at t a l1 l2 e x Hw Hat Hin Hgd) as (tree' & st' & Rd & HI'). rewrite P1, P2 in HI'. rewrite P3.
    destruct (element_at ho (hdr s) a t (e, x)) as (_ & Hv & _ & _); [by destruct Hat|rewrite Hin; set_solver|].
    split; exists (mkWorld st' tree'); (split; [|done]); (mstep by (by eapply on_tree_read)); zb.
    + mstep by (by eapply on_tree_read). mstep. mstep by (by apply on_store_run). mstep. done.
    + mstep. mstep by (by apply on_store_run). mstep. done.
  - destruct Hf as [R ->]. split; exists w; (split; [|by apply implements_later]); (mstep by (by eapply on_tree_read)); done.
Qed.

Lemma Replace_step (key value : JSTaggedValue) : good key -> data_ok ho key value ->
  exists w', Replace ho env key value w = (Ok (bool_decide (is_Some (find_item cmp key s))), w') /\ implements (k + 1) w' (replace_value cmp ho key value s).
Proof.
  intros Hg Hd. pose proof HI as (Ht & Hfn & Hn & Hcap & a & Hw & t & Hat). pose proof (find_ok a s t Hat Hfn key Hg) as Hf. unfold Replace, replace_value. destruct (find_item cmp key s) as [x|] eqn:Ef.
  - destruct Hf as (e & l1 & l2 & R & He & Hin & P1 & P2 & P3). destruct (focus_on t l1 l2 e x Hin) as (c & l & r & ctx & -> & -> & ->). pose proof Hat as (H & Hb & Ho & Hent & Hs & Hh & Hmin).
    assert (cmp key x.1 = EQUAL) as Heq by (assert (x ∈ part EQUAL key (items s)) as Hx by (rewrite P3; by left); by apply list_elem_of_filter in Hx as [? _]).
    destruct (insert_old ho cmp good a s c l e x r ctx key value ltac:(by eexists) ltac:(by apply (proj2 (holds_plug ho _ _ _ _))) Hb Ho Hent Hd Hg Heq) as (_ & a' & Rs & Hok').
    exists (mkWorld (<[Z.to_nat (GetTree w) := a']> (trees w)) (GetTree w)). split; [mstep by (by eapply on_tree_read); zb; mstep by (by eapply on_tree_run); done|].
    assert (lenZ (place cmp key (stored ho x.1 value) (items s)) = size s) as Hl.
    { pose proof (sorted_parts cmp good fst key (items s) Hg Hs) as Hp. rewrite P3 in Hp. apply (f_equal lenZ) in Hp. autorewrite with lenz in Hp. unfold place, size. autorewrite with lenz. lia. }
    split; [done|]. split; [done|]. unfold size in *. cbn [with_items items holes capacity] in *. split; [lia|]. split; [lia|]. exists a'. split; [apply list_lookup_insert_eq; by eapply lookup_lt_Some|done].
  - destruct Hf as [R _]. exists w. split; [|by apply implements_later]. mstep by (by eapply on_tree_read). done.
Qed.

Lemma GetSize_step : GetSize w = (Ok (size s), w).
Proof.
  destruct (implements_small k w s HI ltac:(lia)) as [Hsm _]. destruct HI as (_ & _ & _ & _ & a & Hw & t & Hat). apply (on_tree_read w a); [done|]. by eapply Size_run.
Qed.

Lemma create_step (n : Z) : clear_guard s = true -> 0 < size s -> n = Z.max (size s) MIN_CAPACITY \/ n = size s ->
  exists w', (internal ← on_store (Create ho n); SetTree internal) w = (Ok tt, w') /\ implements (k + 1) w' (cleared s).
Proof.
  intros Hg Hs Hn. pose proof HI as (Ht & Hfn & Hle & Hcap & a & Hw & t & Hat). assert (0 <= holes s) as Hh by (by destruct Hat as (_ & _ & _ & _ & _ & ? & _)). unfold MAX_OPS, MIN_CAPACITY in *.
  destruct (Create_ok ho cmp good (trees w) n ltac:(lia)) as (a' & R & Hok'). exists (mkWorld (trees w ++ [a']) (lenZ (trees w))). split; [mstep by (by apply on_store_run); done|].
  assert (fn = VHole) as Hhole. { unfold clear_guard in Hg. rewrite (proj2 (Z.eqb_neq (size s) 0)), orb_false_r, Hfn in Hg by lia. by destruct fn. }
  split; [apply lenZ_nonneg|]. split; [done|]. split; [change (0 + 0 <= k + 1); lia|]. split; [cbn [cleared capacity]; unfold MIN_CAPACITY; lia|].
  exists a'. split; [unfold lenZ; cbn [GetTree trees]; rewrite Nat2Z.id; by apply list_lookup_middle|]. unfold cleared. unfold empty_abs, MIN_CAPACITY in *. by replace (Z.max (size s) 7) with (Z.max n 7) by lia.
Qed.

Lemma ClearMap_step : clear_guard s = true ->
  exists w', ClearMap ho w = (Ok tt, w') /\ implements (k + 1) w' (if size s =? 0 then s else cleared s).
Proof.
  intros Hg. unfold ClearMap. mstep with GetSize_step. destruct (Z.eqb_spec (size s) 0); [exists w; split; [done|by apply implements_later]|]. apply create_step; [done| |by left]. pose proof (lenZ_nonneg (items s)). unfold size in *. lia.
Qed.

Lemma ClearSet_step : clear_guard s = true ->
  exists w', ClearSet ho w = (if size s =? 0 then Fault else Ok tt, w') /\ implements (k + 1) w' (if size s =? 0 then s else cleared s).
Proof.
  intros Hg. unfold ClearSet. destruct (Z.eqb_spec (size s) 0) as [E|E].
  - exists w. split; [|by apply implements_later]. mstep with GetSize_step. rewrite E. unfold on_store, zoom. mcbn. by destruct w.
  - mstep with GetSize_step. apply create_step; [done| |by right]. pose proof (lenZ_nonneg (items s)). unfold size in *. lia.
Qed.

Lemma PopFirst_step : (match items s with [] => true | _ => delete_guard s end) = true ->
  exists w', PopFirst ho w = (Ok (key_or_undefined (head (items s))), w') /\ implements (k + 1) w' (match items s with [] => s | _ => remove_items (tail (items s)) s end).
Proof.
  intros Hg. pose proof HI as (Ht & Hfn & Hle & Hcap & a & Hw & t & Hat). pose proof Hat as (H & _ & Ho & _). unfold PopFirst. mstep by (eapply on_tree_read; [exact Hw|by eapply GetRootEntries_ok]). cbn [plug].
  mstep by (eapply on_tree_read; [exact Hw|by eapply GetMinimum_ok]). rewrite <- Ho in *. destruct (inorder t) as [|[e x] l] eqn:Hin; [exists w; split; [done|by apply implements_later]|]. simpl in Hg.
  destruct (delete_at t a [] l e x Hw Hat Hin Hg) as (tree' & st' & Rd & HI'). destruct (element_at ho (hdr s) a t (e, x) H) as (Hkey & _ & He & _); [rewrite Hin; by left|].
  exists (mkWorld st' tree'). split; [|done]. cbn [first_entry fst] in *. zb. mstep by (by eapply on_tree_read). mstep. mstep by (by apply on_store_run). mstep. done.
Qed.

Lemma PopLast_step : (match items s with [] => true | _ => delete_guard s end) = true ->
  exists w', PopLast ho w = (Ok (key_or_undefined (list.last (items s))), w') /\ implements (k + 1) w' (match items s with [] => s | _ => remove_items (removelast (items s)) s end).
Proof.
  intros Hg. pose proof HI as (Ht & Hfn & Hle & Hcap & a & Hw & t & Hat). pose proof Hat as (H & _ & Ho & _). unfold PopLast. mstep by (eapply on_tree_read; [exact Hw|by eapply GetRootEntries_ok]). cbn [plug].
  mstep by (eapply on_tree_read; [exact Hw|by eapply GetMaximum_ok]). rewrite <- Ho in *. destruct (inorder t) as [|[e x] l _] eqn:Hin using rev_ind; [exists w; split; [done|by apply implements_later]|].
  rewrite fmap_app in *. cbn [fmap list_fmap snd] in *. assert (delete_guard s = true) as Hg' by (by destruct l.*2).
  destruct (delete_at t a l [] e x Hw Hat Hin Hg') as (tree' & st' & Rd & HI'). destruct (element_at ho (hdr s) a t (e, x) H) as (Hkey & _ & He & _); [rewrite Hin; set_solver|].
  exists (mkWorld st' tree'). rewrite last_entry_app, list.last_snoc, removelast_last. split.
  - cbn [last_entry list.last fst] in *. unfold last_entry. simpl. zb. mstep by (by eapply on_tree_read). mstep. mstep by (by apply on_store_run). mstep. done.
  - rewrite app_nil_r in HI'. by destruct l.*2.
Qed.
End updates.

(** ** Counting entries and places *)

(** A tree with 31 or more places has enough entries, so that it never becomes
    empty before it is small. *)
Definition stocked (s : Abs) : Prop :=
  31 <= capacity s -> 2 <= size s /\ (capacity s <= 61 \/ capacity s + 1 <= 8 * size s) /\ (holes s = 0 \/ (capacity s + 1) / 4 <= size s).

Lemma stocked_insert (k v : JSTaggedValue) (s : Abs) : good k -> TreeSearch.sorted cmp good fst (items s) -> 0 <= holes s -> stocked s -> stocked (insert ho cmp k v s).
Proof.
  intros Hk Hs Hh Hst. unfold stocked in *. destruct (insert_shape k v s Hk Hs) as [(H1 & H2 & H3 & H4)|(Hg & H1 & H2 & H3 & H4 & H5)].
  - rewrite H1, H2. intros H31. destruct (Hst H31) as (S1 & S2 & S3). lia.
  - rewrite H2, H3, H4. unfold grows in Hg. apply Z.ltb_lt in Hg. intros H31. split; [lia|]. split; [|by left]. destruct (decide (31 <= capacity s)) as [Hc|Hc]; [|left; lia]. destruct (Hst Hc) as (S1 & S2 & S3). zlia.
Qed.

Lemma stocked_remove (l : list KV) (s : Abs) : lenZ l + 1 = size s -> stocked s -> stocked (remove_items l s).
Proof.
  intros Hl Hst. unfold remove_items. set (s' := mkAbs l (holes s + 1) (capacity s) (compare_fn s)). unfold stocked in *. destruct (shrinks s') eqn:E.
  - change (31 <= (capacity s - 1) / 2 -> 2 <= lenZ l /\ ((capacity s - 1) / 2 <= 61 \/ (capacity s - 1) / 2 + 1 <= 8 * lenZ l) /\ (0 = 0 \/ ((capacity s - 1) / 2 + 1) / 4 <= lenZ l)).
    intros H31. assert (63 <= capacity s) as H63 by zlia. destruct (Hst ltac:(lia)) as (S1 & S2 & _). split; [lia|]. split; [|by left]. right. zlia.
  - change (31 <= capacity s -> 2 <= lenZ l /\ (capacity s <= 61 \/ capacity s + 1 <= 8 * lenZ l) /\ (holes s + 1 = 0 \/ (capacity s + 1) / 4 <= lenZ l)). intros H31.
    assert ((capacity s + 1) / 4 <= lenZ l) as Hle.
    { unfold shrinks, size, MIN_SHRINK_CAPACITY in E. cbn [s' items capacity] in E. apply andb_false_iff in E as [E|E]; [lia|]. apply Z.leb_gt in E. zlia. }
    split; [zlia|]. split; [right; zlia|by right].
Qed.

Lemma stocked_guard (s : Abs) : stocked s -> compare_fn s = VHole -> insert_guard s = true /\ delete_guard s = true /\ clear_guard s = true.
Proof.
  intros Hst Hf. unfold insert_guard, delete_guard, clear_guard. rewrite Hf. cbn [IsHole orb]. split; [done|]. split; [|done]. destruct (Z.ltb_spec (capacity s) 31); [done|]. cbn [orb].
  destruct (Hst ltac:(lia)) as (S1 & _). by rewrite (proj2 (Z.leb_le 2 _)).
Qed.

(** ** New containers *)

(** A constructor argument that is undefined or null means no compare function. *)
Definition compare_of (compareFn : JSTaggedValue) : JSTaggedValue := match compareFn with VUndefined | VNull => VHole | _ => compareFn end.

Definition new_abs : Abs := mkAbs [] 0 MIN_CAPACITY fn.

Lemma Constructor_ok (compareFn : JSTaggedValue) (callable : bool) : compare_of compareFn = fn -> callable = true \/ compareFn = VUndefined \/ compareFn = VNull ->
  exists w, Constructor ho env compareFn callable (mkWorld [] 0) = (Ok tt, w) /\ implements 0 w new_abs.
Proof.
  intros Hfn Hc. unfold Constructor. destruct (Create_ok ho cmp good [] MIN_CAPACITY ltac:(unfold MIN_CAPACITY; lia)) as (a & R & Hok). change (Z.max MIN_CAPACITY MIN_CAPACITY) with MIN_CAPACITY in Hok.
  mstep by (by apply on_store_run). mstep. cbn [trees app lenZ length].
  assert (fn = VHole -> implements 0 (mkWorld [a] 0) new_abs) as H0.
  { intros Hhole. split; [done|]. split; [done|]. split; [done|]. split; [done|]. exists a. split; [done|]. unfold new_abs. by rewrite Hhole. }
  assert (callable = true -> compareFn = fn -> exists w, (if negb callable then _ ← lift (ToString env compareFn); throw TYPE_ERROR else on_tree (SetCompare compareFn)) (mkWorld [a] 0) = (Ok tt, w) /\ implements 0 w new_abs) as H1.
  { intros -> ->. cbn [negb]. destruct Hok as (t & H & Hrest). destruct (SetCompare_ok ho _ a t [] H fn) as (a' & R' & H').
    exists (mkWorld [a'] 0). split; [by rewrite (on_tree_run (mkWorld [a] 0) a a' _ tt eq_refl R')|]. split; [done|]. split; [done|]. split; [done|]. split; [done|]. exists a'. split; [done|]. exists t. by split. }
  destruct (decide (compareFn = VUndefined \/ compareFn = VNull)) as [Hu|Hu].
  { assert (fn = VHole) by (by destruct Hu as [->| ->]). exists (mkWorld [a] 0). split; [by destruct Hu as [->| ->]|by apply H0]. }
  assert (callable = true) as Hct by (by destruct Hc as [?|[?|?]]; [|exfalso; auto..]). assert (compareFn = fn) as Hcf by (destruct compareFn; simpl in Hfn; try done; exfalso; auto).
  destruct (H1 Hct Hcf) as (w & Rw & HIw). exists w. split; [|done]. rewrite <- Rw. destruct compareFn; try done; exfalso; auto.
Qed.
End refinement.
(** ** Every operation *)

Section steps.
Context (env : CompareEnv) (fn : JSTaggedValue) (cmp : JSTaggedValue -> JSTaggedValue -> ComparisonResult) (good : JSTaggedValue -> Prop) `{HO : !TreeOrder env fn cmp good}.

Definition map_op_ok (o : map_op) : Prop :=
  match o with
  | OSet k _ | OGet k | OHasKey k | ORemove k | OReplace k _ | OLowerKey k | OHigherKey k => good k
  | _ => True
  end.

Definition set_op_ok (o : set_op) : Prop :=
  match o with
  | SAdd k | SHas k | SRemove k => good k
  | SLowerValue k | SHigherValue k => good k /\ IsStringOrNumber env k = true
  | _ => True
  end.

Lemma found_index (ho : Derived) `{HL : Layout ho} (w : World) (a : TaggedArray) (s : Abs) (t : Tree) (k : JSTaggedValue) :
  trees w !! Z.to_nat (GetTree w) = Some a -> tree_at ho cmp good a s t -> compare_fn s = fn -> good k ->
  HasKey ho env k w = (Ok (bool_decide (is_Some (find_item cmp k s))), w).
Proof.
  intros Hw Hat Hfn Hk. pose proof (find_ok ho env fn cmp good a s t Hat Hfn k Hk) as Hf. unfold HasKey. destruct (find_item cmp k s) as [x|].
  - destruct Hf as (e & l1 & l2 & R & He & _). mstep by (by eapply on_tree_read). rewrite (proj2 (Z.leb_le 0 e)) by done. done.
  - destruct Hf as [R _]. mstep by (by eapply on_tree_read). done.
Qed.

(** An operation that only reads. *)
Lemma read_step (ho : Derived) {A} (f : A -> result) (m : M World A) (r : A) (k : Z) (w : World) (s : Abs) :
  implements ho fn cmp good k w s -> m w = (Ok r, w) -> exists w', ret f m w = (Ok (f r), w') /\ implements ho fn cmp good (k + 1) w' s.
Proof. intros HI Hm. exists w. split; [unfold ret; by mstep with Hm|by apply implements_later]. Qed.

Lemma map_step (o : map_op) (k : Z) (w : World) (s : Abs) :
  implements TaggedTreeMap fn cmp good k w s -> map_op_ok o -> map_guard cmp o s = true -> 0 <= k < MAX_OPS ->
  exists w', map_exec env o w = ((map_spec (env_heap env) cmp o s).1, w') /\ implements TaggedTreeMap fn cmp good (k + 1) w' (map_spec (env_heap env) cmp o s).2.
Proof.
  intros HI Hok Hg Hk. pose proof HI as (_ & Hfn & _ & _ & a & Hw & t & Hat). assert (forall k v, data_ok TaggedTreeMap k v) as Hd by (intros ? ? ?; done).
  destruct o as [key v|key|key|v|key|key v| | | | |key|key]; cbn [map_exec map_spec map_op_ok map_guard fst snd] in *.
  - destruct (tree_Set_step _ env fn cmp good k w s HI Hk key v Hok (Hd _ _) Hg) as (w' & R & HI'). exists w'. split; [unfold ret; by mstep with R|done].
  - eapply read_step; [done|]. eapply on_tree_read; [exact Hw|by eapply (tree_Get_run TaggedTreeMap env fn cmp good)].
  - eapply read_step; [done|]. by apply (found_index _ w a s t).
  - eapply read_step; [done|]. eapply on_tree_read; [exact Hw|by eapply (HasValue_run TaggedTreeMap env cmp good)].
  - destruct (tree_Delete_step _ env fn cmp good k w s HI Hk key Hok Hg) as [(w' & R & HI') _]. exists w'. split; [unfold ret; by mstep with R|done].
  - destruct (Replace_step _ env fn cmp good k w s HI key v Hok (Hd _ _)) as (w' & R & HI'). exists w'. split; [unfold ret; by mstep with R|done].
  - destruct (ClearMap_step _ env fn cmp good k w s HI Hk Hg) as (w' & R & HI'). exists w'. split; [unfold ret; by mstep with R|done].
  - eapply read_step; [done|]. by eapply GetSize_step.
  - eapply read_step; [done|]. eapply on_tree_read; [exact Hw|by eapply (GetFirstKey_run TaggedTreeMap cmp good)].
  - eapply read_step; [done|]. eapply on_tree_read; [exact Hw|by eapply (GetLastKey_run TaggedTreeMap cmp good)].
  - eapply read_step; [done|]. eapply on_tree_read; [exact Hw|by eapply (GetLowerKey_run TaggedTreeMap env fn cmp good)].
  - eapply read_step; [done|]. eapply on_tree_read; [exact Hw|by eapply (GetHigherKey_run TaggedTreeMap env fn cmp good)].
Qed.

Lemma Add_Set (k : JSTaggedValue) : Add TaggedTreeSet env k = Set_ TaggedTreeSet env k k.
Proof. done. Qed.

Lemma set_step (o : set_op) (k : Z) (w : World) (s : Abs) :
  implements TaggedTreeSet fn cmp good k w s -> set_op_ok o -> set_guard cmp o s = true -> 0 <= k < MAX_OPS ->
  exists w', set_exec env o w = ((set_spec cmp o s).1, w') /\ implements TaggedTreeSet fn cmp good (k + 1) w' (set_spec cmp o s).2.
Proof.
  intros HI Hok Hg Hk. pose proof HI as (_ & Hfn & _ & _ & a & Hw & t & Hat).
  destruct o as [key|key|key| | | | |key|key| |]; cbn [set_exec set_spec set_op_ok set_guard fst snd] in *.
  - rewrite Add_Set. destruct (tree_Set_step _ env fn cmp good k w s HI Hk key key Hok ltac:(done) Hg) as (w' & R & HI'). exists w'. split; [unfold ret; by mstep with R|done].
  - eapply read_step; [done|]. by apply (found_index _ w a s t).
  - destruct (tree_Delete_step _ env fn cmp good k w s HI Hk key Hok Hg) as [_ (w' & R & HI')]. exists w'. split; [unfold ret; by mstep with R|done].
  - destruct (ClearSet_step _ env fn cmp good k w s HI Hk Hg) as (w' & R & HI'). exists w'. destruct (size s =? 0); [|split; [unfold ret; by mstep with R|done]]. split; [unfold ret; by rewrite (bind_Fault _ _ _ _ R)|done].
  - eapply read_step; [done|]. by eapply GetSize_step.
  - eapply read_step; [done|]. eapply on_tree_read; [exact Hw|by eapply (GetFirstKey_run TaggedTreeSet cmp good)].
  - eapply read_step; [done|]. eapply on_tree_read; [exact Hw|by eapply (GetLastKey_run TaggedTreeSet cmp good)].
  - destruct Hok as [Hgk Hsn]. eapply read_step; [done|]. unfold GetLowerValue. rewrite Hsn. cbn [negb]. eapply on_tree_read; [exact Hw|by eapply (GetLowerKey_run TaggedTreeSet env fn cmp good)].
  - destruct Hok as [Hgk Hsn]. eapply read_step; [done|]. unfold GetHigherValue. rewrite Hsn. cbn [negb]. eapply on_tree_read; [exact Hw|by eapply (GetHigherKey_run TaggedTreeSet env fn cmp good)].
  - destruct (PopFirst_step _ env fn cmp good k w s HI Hk Hg) as (w' & R & HI'). exists w'. split; [unfold ret; by mstep with R|done].
  - destruct (PopLast_step _ env fn cmp good k w s HI Hk Hg) as (w' & R & HI'). exists w'. split; [unfold ret; by mstep with R|done].
Qed.
End steps.
(** ** Theorems *)

Definition set_ints (l : list Z) : list map_op := (fun z => OSet (VInt z) (VInt (z + 1))) <$> l.
Definition add_ints (l : list Z) : list set_op := (fun z => SAdd (VInt z)) <$> l.

(** C2: A new TreeMap and a sequence of up to 2^25 operations give the answers of
    the same operations on a sorted list of entries, when the compare function
    gives a total preorder of the keys used ([TreeOrder]) and the sequence is
    regular ([map_regular]): it does not set the value of a key that is there in a
    tree without a free place (the value is lost), the tree does not lose its
    compare function by growing, shrinking or clearing, and the last entry of a
    tree of 31 or more places is not removed. *)
Theorem treemap_refines_list (env : CompareEnv) (compareFn : JSTaggedValue) (callable : bool)
    (cmp : JSTaggedValue -> JSTaggedValue -> ComparisonResult) (good : JSTaggedValue -> Prop) (os : list map_op) :
  TreeOrder env (compare_of compareFn) cmp good -> callable = true \/ compareFn = VUndefined \/ compareFn = VNull ->
  Forall (map_op_ok good) os -> lenZ os <= MAX_OPS ->
  guarded (map_spec (env_heap env) cmp) (map_regular cmp) os (new_abs (compare_of compareFn)) = true ->
  exists w, Constructor TaggedTreeMap env compareFn callable (mkWorld [] 0) = (Ok tt, w) /\
    (run_ops (map_exec env) os w).1 = (run_ops (list_map_spec (env_heap env) cmp) os []).1.
Proof.
  intros HO Hc Hok Hlen Hg. destruct (Constructor_ok TaggedTreeMap env _ cmp good compareFn callable eq_refl Hc) as (w & R & HI). exists w. split; [done|].
  etransitivity; [|exact (run_specs_agree _ _ (list_map_spec (env_heap env) cmp) items (map_spec_list (env_heap env) cmp) os _ Hg)].
  apply (run_ops_guarded (map_exec env) (map_spec (env_heap env) cmp) (map_guard cmp) (implements TaggedTreeMap (compare_of compareFn) cmp good) (map_op_ok good) MAX_OPS
    (map_step env (compare_of compareFn) cmp good) os 0 w); [done|done| |done|done].
  revert Hg. apply guarded_weaken. intros o s [H _]%andb_true_iff. done.
Qed.

Lemma treemap_refines_list_witness :
  exists w, Constructor TaggedTreeMap int_env (VObject 8) true (mkWorld [] 0) = (Ok tt, w) /\
    (run_ops (map_exec int_env) (set_ints [5; 3; 8; 1; 4; 7; 9; 2; 6] ++ [ORemove (VInt 3); OGet (VInt 4); OHigherKey (VInt 2); OFirstKey]) w).1 =
      replicate 9 (Ok RUnit) ++ [Ok (RValue (VInt 4)); Ok (RValue (VInt 5)); Ok (RValue (VInt 4)); Ok (RValue (VInt 1))].
Proof.
  destruct (treemap_refines_list int_env (VObject 8) true by_diff is_int (set_ints [5; 3; 8; 1; 4; 7; 9; 2; 6] ++ [ORemove (VInt 3); OGet (VInt 4); OHigherKey (VInt 2); OFirstKey])
    by_diff_order (or_introl eq_refl)) as (w & R & E).
  - by repeat constructor.
  - vm_compute. discriminate.
  - vm_compute. reflexivity.
  - exists w. split; [exact R|]. rewrite E. vm_compute. reflexivity.
Defined.


End TreeMap.
