(* ===== verification/TreeProps.v ===== *)
(** * TreeProps: what the red-black trees give to TreeMap and TreeSet.

    A container without a compare function keeps to its specification with no
    condition on the sequence of operations but the size at which it is cleared;
    the trees stay balanced, so that a search takes a logarithmic number of
    rounds; rotations undo each other; rebalancing and removing restore the
    invariant; a copy of a tree holds the same entries; an iterator delivers the
    entries in order; and what the code does not do: it loses an update in a
    full tree and the compare function in a copy. *)
From stdpp Require Import sets sorting.
From S2P Require Import Prelude TaggedValue TaggedArray EcmaString JSMap TaggedTree TreeShape TreeBalance TreeSearch TreeOps TreeCopy TreeStore TreeKeys TreeMap.
Local Open Scope Z_scope.

Module TreeProps.
Import TaggedTree TreeShape TreeBalance TreeSearch TreeOps TreeCopy TreeStore TreeKeys TreeMap.

(** ** The height *)

Lemma rb_height (n : nat) (t : Tree) : rb n t -> (height t <= 2 * n + match color t with RED => 1 | BLACK => 0 end)%nat /\ (2 ^ n <= length (entries t) + 1)%nat.
Proof.
  revert n. induction t as [|c l IHl e kv r IHr]; intros n; [by intros ->|]. cbn [rb height entries color]. rewrite length_app. cbn [length]. destruct c.
  - destruct n as [|n]; [done|]. intros [Hl Hr]. apply IHl in Hl as [Hl1 Hl2]. apply IHr in Hr as [Hr1 Hr2]. cbn [Nat.pow]. destruct (color l), (color r); lia.
  - intros (Cl & Cr & Hl & Hr). apply IHl in Hl as [Hl1 Hl2]. apply IHr in Hr as [Hr1 Hr2]. rewrite Cl, Cr in *. lia.
Qed.

(** The rounds that a search may take in a tree of [n] entries. *)
Definition rounds (n : Z) : nat := Z.to_nat (2 * Z.log2 (n + 1) + 1).

Lemma balanced_height (t : Tree) : balanced t -> (height t < rounds (lenZ (entries t)))%nat.
Proof.
  intros (Hc & n & Hrb). apply rb_height in Hrb as [Hh Hs]. rewrite Hc in Hh. unfold rounds, lenZ.
  assert (Z.of_nat n <= Z.log2 (Z.of_nat (length (entries t)) + 1)) as Hn; [|lia].
  apply Z.log2_le_pow2; [lia|]. apply inj_le in Hs. rewrite Nat2Z.inj_pow in Hs. lia.
Qed.

(** ** Containers without a compare function *)

Section ordinary.
Context (env : CompareEnv).
Notation cmp := (ordinary env).
Notation good := (plain_key env).

(** A container is cleared before it has more than 30 entries. *)
Definition map_small_clear (o : map_op) (s : Abs) : bool := match o with OClear => size s <=? 30 | _ => true end.
Definition set_small_clear (o : set_op) (s : Abs) : bool := match o with SClear => size s <=? 30 | _ => true end.

Definition steady (ho : Derived) (k : Z) (w : World) (s : Abs) : Prop := implements ho VHole cmp good k w s /\ stocked s.

Lemma steady_guards (ho : Derived) (k : Z) (w : World) (s : Abs) : steady ho k w s -> insert_guard s = true /\ delete_guard s = true /\ clear_guard s = true.
Proof. intros [(_ & Hfn & _) Hst]. by apply stocked_guard. Qed.

Lemma steady_sorted (ho : Derived) (k : Z) (w : World) (s : Abs) : steady ho k w s -> TreeSearch.sorted cmp good fst (items s) /\ 0 <= holes s.
Proof. intros [(_ & _ & _ & _ & a & _ & t & _ & _ & _ & _ & Hs & Hh & _) _]. done. Qed.

Lemma stocked_delete (k : JSTaggedValue) (s : Abs) : good k -> TreeSearch.sorted cmp good fst (items s) -> stocked s -> stocked (TreeStore.delete cmp k s).
Proof.
  intros Hk Hs Hst. unfold TreeStore.delete. pose proof (sorted_parts cmp good fst k (items s) Hk Hs) as Hp. apply (f_equal lenZ) in Hp. autorewrite with lenz in Hp.
  destruct (equal_part cmp good fst k (items s) Hk Hs) as [E|(y & E & _)]; rewrite E in *; [done|]. apply stocked_remove; [|done]. autorewrite with lenz in *. unfold size. lia.
Qed.

Lemma stocked_replace (ho : Derived) (k v : JSTaggedValue) (s : Abs) : good k -> TreeSearch.sorted cmp good fst (items s) -> stocked s -> stocked (replace_value cmp ho k v s).
Proof.
  intros Hk Hs Hst. unfold replace_value, find_item. pose proof (sorted_parts cmp good fst k (items s) Hk Hs) as Hp. apply (f_equal lenZ) in Hp. autorewrite with lenz in Hp.
  destruct (equal_part cmp good fst k (items s) Hk Hs) as [E|(y & E & _)]; rewrite E in *; [done|]. simpl.
  unfold stocked, size in *. cbn [with_items items holes capacity]. assert (lenZ (place cmp k (stored ho y.1 v) (items s)) = lenZ (items s)) as ->; [|done].
  unfold place. autorewrite with lenz in *. lia.
Qed.

Lemma stocked_clear (s : Abs) : size s <= 30 -> stocked (cleared s).
Proof. intros Hs H31. cbn [cleared capacity] in H31. unfold MIN_CAPACITY in H31. lia. Qed.

Lemma map_steady (o : map_op) (k : Z) (w : World) (s : Abs) :
  steady TaggedTreeMap k w s -> map_op_ok good o -> map_small_clear o s = true -> 0 <= k < MAX_OPS ->
  exists w', map_exec env o w = ((map_spec (env_heap env) cmp o s).1, w') /\ steady TaggedTreeMap (k + 1) w' (map_spec (env_heap env) cmp o s).2.
Proof.
  intros HS Hok Hg Hk. destruct (steady_guards _ _ _ _ HS) as (G1 & G2 & G3). destruct (steady_sorted _ _ _ _ HS) as [Hs Hh]. destruct HS as [HI Hst].
  destruct (map_step env VHole cmp good o k w s HI Hok) as (w' & R & HI'); [|done|].
  { destruct o; cbn [map_guard]; try done. by destruct (find_item _ _ _). }
  exists w'. split; [done|]. split; [done|]. clear R HI'. destruct o; cbn [map_spec snd map_op_ok map_small_clear] in *; try done.
  - by apply (stocked_insert _ env VHole cmp good).
  - by apply stocked_delete.
  - by apply stocked_replace.
  - destruct (size s =? 0); [done|]. apply stocked_clear. lia.
Qed.

Lemma set_steady (o : set_op) (k : Z) (w : World) (s : Abs) :
  steady TaggedTreeSet k w s -> set_op_ok env good o -> set_small_clear o s = true -> 0 <= k < MAX_OPS ->
  exists w', set_exec env o w = ((set_spec cmp o s).1, w') /\ steady TaggedTreeSet (k + 1) w' (set_spec cmp o s).2.
Proof.
  intros HS Hok Hg Hk. destruct (steady_guards _ _ _ _ HS) as (G1 & G2 & G3). destruct (steady_sorted _ _ _ _ HS) as [Hs Hh]. destruct HS as [HI Hst].
  destruct (set_step env VHole cmp good o k w s HI Hok) as (w' & R & HI'); [|done|].
  { destruct o; cbn [set_guard]; try done; [by destruct (find_item _ _ _)|by destruct (items s)..]. }
  exists w'. split; [done|]. split; [done|]. clear R HI'. destruct o; cbn [set_spec snd set_op_ok set_small_clear] in *; try done.
  - by apply (stocked_insert _ env VHole cmp good).
  - by apply stocked_delete.
  - destruct (size s =? 0); [done|]. apply stocked_clear. lia.
  - destruct (items s) as [|x l] eqn:Hi; [done|]. apply stocked_remove; [|done]. unfold size. rewrite Hi. lenz.
  - destruct (items s) as [|x l] eqn:Hi; [done|]. apply stocked_remove; [|done]. unfold size. rewrite Hi, removelast_firstn_len. unfold lenZ. rewrite length_take. simpl. lia.
Qed.

Lemma new_steady (ho : Derived) `{HL : Layout ho} (callable : bool) :
  exists w, Constructor ho env VUndefined callable (mkWorld [] 0) = (Ok tt, w) /\ steady ho 0 w (new_abs VHole).
Proof.
  destruct (Constructor_ok ho env VHole cmp good VUndefined callable eq_refl ltac:(by right; left)) as (w & R & HI). exists w. split; [done|]. split; [done|].
  intros H31. cbn [new_abs capacity] in H31. unfold MIN_CAPACITY in H31. lia.
Qed.
End ordinary.
(** ** Reachable containers *)

Section reach.
Context (ho : Derived) `{HL : Layout ho} (env : CompareEnv) (fn : JSTaggedValue) (cmp : JSTaggedValue -> JSTaggedValue -> ComparisonResult) (good : JSTaggedValue -> Prop) `{HO : !TreeOrder env fn cmp good}.
Context (k : Z) (w : World) (s : Abs) (HI : implements ho fn cmp good k w s) (Hk : k <= MAX_OPS).

Lemma reach_size : size s + holes s < 2 ^ 26.
Proof. destruct HI as (_ & _ & Hn & _). unfold MAX_OPS in Hk. lia. Qed.

(** The loop of FindEntry. *)
Lemma find_rounds (key : JSTaggedValue) : good key ->
  exists a root rootKey e, trees w !! Z.to_nat (GetTree w) = Some a /\ GetRootEntries a = (Ok root, a) /\ GetKey ho root a = (Ok rootKey, a) /\
    while_fuel (rounds (size s)) (find_step ho env key) (root, rootKey) a = (Ok e, a) /\ FindEntry ho env key a = (Ok e, a) /\
    (0 <= e <-> is_Some (find_item cmp key s)).
Proof.
  intros Hg. pose proof HI as (_ & Hfn & _ & _ & a & Hw & t & Hat). pose proof Hat as (H & Hb & Ho & _ & Hs & _). assert (TreeOrder env (h_cmp (hdr s)) cmp good) as HO' by (cbn; by rewrite Hfn).
  pose proof (tree_sorted _ cmp good a s t Hat) as Hts. exists a, (idx t), (key_at t), (first_entry (-1) (TreeSearch.part cmp key_of EQUAL key (inorder t))).
  split; [done|]. split; [exact (GetRootEntries_ok ho _ _ _ _ H)|]. split; [by eapply GetKey_focus|]. split; [|split; [by eapply FindEntry_ok|]].
  - eapply (find_loop ho (hdr s) env cmp good); [done|exact H|done|]. pose proof (balanced_height t Hb) as Hh. replace (size s) with (lenZ (entries t)); [done|].
    unfold size, lenZ. rewrite <- Ho, entries_inorder, !length_fmap. done.
  - pose proof (find_ok ho env fn cmp good a s t Hat Hfn key Hg) as Hf. pose proof (FindEntry_ok ho (hdr s) env cmp good key Hg a t H Hts) as Hf'.
    destruct (find_item cmp key s) as [x|]; [destruct Hf as (e & l1 & l2 & R & He & _)|destruct Hf as [R _]]; rewrite Hf' in R; injection R as ->; split; (done || lia || by intros [? ?]).
Qed.

(** What an iterator of a kind returns for an entry. *)
Definition map_words (kind : JSMap.IterationKind) (x : KV) : list JSTaggedValue :=
  match kind with JSMap.KEY => [x.1] | JSMap.VALUE => [x.2] | JSMap.KEY_AND_VALUE => [x.1; x.2] end.
Definition set_words (kind : JSMap.IterationKind) (x : KV) : list JSTaggedValue :=
  match kind with JSMap.KEY | JSMap.VALUE => [x.1] | JSMap.KEY_AND_VALUE => [x.1; x.1] end.

Lemma drain_items (kind : JSMap.IterationKind) (item : JSMap.IterationKind -> Z -> JSTaggedValue -> M TaggedArray (list JSTaggedValue)) (words : KV -> list JSTaggedValue) :
  (forall a e (x : KV), GetKey ho e a = (Ok x.1, a) -> GetValue ho e a = (Ok x.2, a) -> item kind e x.1 a = (Ok (words x), a)) ->
  drain (Next ho item) (S (length (items s))) (CreateTreeIterator kind) w = (Ok (words <$> items s), w).
Proof.
  intros Hitem. pose proof reach_size as Hsz. pose proof HI as (_ & _ & _ & _ & a & Hw & t & Hat). pose proof Hat as (H & _ & Ho & _ & _ & Hh & _).
  pose proof (lenZ_nonneg (items s)) as Hn. fold (size s) in Hn. set (es := (fun x : Z * KV => VInt x.1) <$> inorder t).
  assert (NumberOfElements a = (Ok (size s), a)) as Rn by (eapply (NumberOfElements_ok ho (hdr s)); [exact H|simpl; lia]).
  assert (length es = length (items s)) as Hes by (unfold es; rewrite <- Ho, !length_fmap; done).
  assert (GetSortArray ho a = (Ok es, a)) as Rs by (eapply (GetSortArray_ok ho (hdr s)); [exact H|simpl; unfold size; rewrite <- Ho; unfold lenZ; by rewrite length_fmap|simpl; lia]).
  pose (pos := fun j : nat => mkTreeIterator true (Z.of_nat j) (match j with O => None | S _ => Some es end) kind).
  assert (forall j : nat, match Entries (pos j) with Some entries => if size s =? lenZ entries then mret entries else on_tree (GetSortArray ho) | None => on_tree (GetSortArray ho) end w = (Ok es, w)) as Rpos.
  { intros j. destruct j; simpl; [by apply (on_tree_read w a)|]. unfold lenZ. rewrite Hes. fold (lenZ (items s)). fold (size s). by rewrite Z.eqb_refl. }
  replace (length (items s)) with (length (words <$> items s)) by apply length_fmap. apply (drain_run _ pos).
  - intros j ws Hj. rewrite list_lookup_fmap, <- Ho, list_lookup_fmap in Hj. destruct (inorder t !! j) as [[e x']|] eqn:Ej; [|done]. injection Hj as <-. rename Ej into Hj. simpl in *.
    destruct (element_at ho (hdr s) a t (e, x') H ltac:(by eapply list_elem_of_lookup_2)) as (Rk & Rv & _). simpl in Rk, Rv.
    assert (Z.of_nat j < size s) as Hlt by (apply lookup_lt_Some in Hj; unfold size, lenZ; rewrite <- Ho, length_fmap; lia).
    unfold Next. change (Iterated (pos j)) with true. cbn [negb]. mstep by (by apply (on_tree_read w a)). mstep by exact (Rpos _). cbn [NextIndex GetIterationKind pos]. zb.
    mstep by (unfold Arr.GetFrom, read; zb; rewrite Nat2Z.id; unfold es; by rewrite list_lookup_fmap, Hj). mstep. mstep by (by apply (on_tree_read w a)).
    mstep by (eapply on_tree_read; [exact Hw|by apply Hitem]). by replace (Z.of_nat j + 1) with (Z.of_nat (S j)) by lia.
  - eexists. unfold Next. change (Iterated (pos (length (words <$> items s)))) with true. cbn [negb]. mstep by (by apply (on_tree_read w a)). mstep by exact (Rpos _). cbn [NextIndex GetIterationKind pos]. rewrite length_fmap. unfold size, lenZ. zb. done.
Qed.
End reach.

(** ** Theorems *)

Lemma set_ints_ok (l : list Z) : Forall (map_op_ok (plain_key int_env)) (set_ints l).
Proof. apply list.Forall_fmap, list.Forall_forall. intros z _. apply int_plain. Qed.

Definition answered {A} (r : outcome A) : Prop := match r with Ok _ => True | _ => False end.

(** Cleared while it is small, and no update lost. *)
Definition map_small_regular (env : CompareEnv) (o : map_op) (s : Abs) : bool :=
  map_small_clear o s && match o with OSet k _ => negb (loses (ordinary env) k s) | _ => true end.

Lemma small_regular (env : CompareEnv) (o : map_op) (s : Abs) : map_small_regular env o s = true ->
  (map_spec (env_heap env) (ordinary env) o s).1 = (list_map_spec (env_heap env) (ordinary env) o (items s)).1 /\
  items (map_spec (env_heap env) (ordinary env) o s).2 = (list_map_spec (env_heap env) (ordinary env) o (items s)).2.
Proof.
  unfold map_small_regular. rewrite andb_true_iff. intros [_ Hl]. apply map_spec_answers. by destruct o.
Qed.

(** C21: A new TreeMap without a compare function and a sequence of up to 2^25
    operations whose keys are strings and numbers other than NaN give the answers
    of the same operations on a sorted list of entries, and no operation fails, if
    the map is not cleared when it has more than 30 entries and the value of a key
    that is there is not set in a tree without a free place, which loses it. *)
Theorem treemap_ordinary_safe (env : CompareEnv) (callable : bool) (os : list map_op) :
  Forall (map_op_ok (plain_key env)) os -> lenZ os <= MAX_OPS ->
  guarded (map_spec (env_heap env) (ordinary env)) (map_small_regular env) os (new_abs VHole) = true ->
  exists w, Constructor TaggedTreeMap env VUndefined callable (mkWorld [] 0) = (Ok tt, w) /\
    (run_ops (map_exec env) os w).1 = (run_ops (list_map_spec (env_heap env) (ordinary env)) os []).1 /\
    Forall answered (run_ops (map_exec env) os w).1.
Proof.
  intros Hok Hlen Hg. destruct (new_steady env TaggedTreeMap callable) as (w & R & HS). exists w. split; [done|].
  assert ((run_ops (map_exec env) os w).1 = (run_ops (list_map_spec (env_heap env) (ordinary env)) os []).1) as E.
  { etransitivity; [|exact (run_specs_agree _ _ (list_map_spec (env_heap env) (ordinary env)) items (small_regular env) os _ Hg)].
    apply (run_ops_guarded (map_exec env) (map_spec (env_heap env) (ordinary env)) map_small_clear (steady env TaggedTreeMap) (map_op_ok (plain_key env)) MAX_OPS
      (map_steady env) os 0 w); [done|done| |done|done].
    revert Hg. apply guarded_weaken. intros o s [H _]%andb_true_iff. done. }
  split; [done|]. rewrite E. clear. generalize (@nil KV). induction os as [|o os IH]; intros l; [constructor|]. cbn [run_ops].
  destruct (list_map_spec _ _ o l) as [r l'] eqn:E. destruct (run_ops _ os l') eqn:E'. simpl. constructor; [destruct o; simpl in E; injection E as <- _; done|]. specialize (IH l'). by rewrite E' in IH.
Qed.

Lemma treemap_ordinary_safe_witness :
  exists w, Constructor TaggedTreeMap int_env VUndefined false (mkWorld [] 0) = (Ok tt, w) /\
    (run_ops (map_exec int_env) (set_ints [5; 3; 8; 1; 4; 7; 9; 2; 6] ++ [ORemove (VInt 3); OLowerKey (VInt 4); OLastKey; OClear; OLength]) w).1 =
      replicate 9 (Ok RUnit) ++ [Ok (RValue (VInt 4)); Ok (RValue (VInt 2)); Ok (RValue (VInt 9)); Ok RUnit; Ok (RInt 0)].
Proof.
  destruct (treemap_ordinary_safe int_env false (set_ints [5; 3; 8; 1; 4; 7; 9; 2; 6] ++ [ORemove (VInt 3); OLowerKey (VInt 4); OLastKey; OClear; OLength])) as (w & R & E & _).
  - apply list.Forall_app. split; [apply set_ints_ok|]. by repeat constructor.
  - vm_compute. discriminate.
  - vm_compute. reflexivity.
  - exists w. split; [exact R|]. rewrite E. vm_compute. reflexivity.
Defined.

(** C22: The trees stay balanced: in a TreeMap whose compare function gives a
    total preorder of the good keys ([TreeOrder]) and that a sequence of up to
    2^25 operations with good keys has made, without losing the compare function
    or removing the last entry of a tree of 31 or more places ([map_guard]), the
    loop of FindEntry for a good key ends after at most 2 log2(n + 1) + 1 rounds
    for n entries; it finds the key exactly if it is in the map. *)
Theorem treemap_search_rounds (env : CompareEnv) (compareFn : JSTaggedValue) (callable : bool)
    (cmp : JSTaggedValue -> JSTaggedValue -> ComparisonResult) (good : JSTaggedValue -> Prop) (os : list map_op) (key : JSTaggedValue) :
  TreeOrder env (compare_of compareFn) cmp good -> callable = true \/ compareFn = VUndefined \/ compareFn = VNull ->
  Forall (map_op_ok good) os -> lenZ os <= MAX_OPS ->
  guarded (map_spec (env_heap env) cmp) (map_guard cmp) os (new_abs (compare_of compareFn)) = true -> good key ->
  exists w, Constructor TaggedTreeMap env compareFn callable (mkWorld [] 0) = (Ok tt, w) /\
    let w' := (run_ops (map_exec env) os w).2 in
    let s := (run_ops (map_spec (env_heap env) cmp) os (new_abs (compare_of compareFn))).2 in
    exists a root rootKey e, trees w' !! Z.to_nat (GetTree w') = Some a /\ GetRootEntries a = (Ok root, a) /\ GetKey TaggedTreeMap root a = (Ok rootKey, a) /\
      while_fuel (rounds (size s)) (find_step TaggedTreeMap env key) (root, rootKey) a = (Ok e, a) /\
      (0 <= e <-> is_Some (find_item cmp key s)).
Proof.
  intros HO Hc Hok Hlen Hg Hkey. destruct (Constructor_ok TaggedTreeMap env _ cmp good compareFn callable eq_refl Hc) as (w & R & HI). exists w. split; [done|].
  destruct (run_ops_guarded (map_exec env) (map_spec (env_heap env) cmp) (map_guard cmp) (implements TaggedTreeMap (compare_of compareFn) cmp good) (map_op_ok good) MAX_OPS
    (map_step env (compare_of compareFn) cmp good) os 0 w _ HI Hok Hg ltac:(done) Hlen) as [_ HI'].
  destruct (find_rounds TaggedTreeMap env (compare_of compareFn) cmp good _ _ _ HI' key Hkey) as (a & root & rootKey & e & H1 & H2 & H3 & H4 & _ & H5). by exists a, root, rootKey, e.
Qed.

(** A small tree of a map laid out in memory. *)
Fixpoint layout_words (p : Z) (t : Tree) : list (Z * list JSTaggedValue) :=
  match t with
  | Leaf => []
  | Node c l e kv r => (e, [kv.1; kv.2; VInt (color_value c); VInt p; ptr (idx l); ptr (idx r)]) :: layout_words e l ++ layout_words e r
  end.
Definition layout (n d : Z) (t : Tree) : Mem :=
  mkMem n d 7 (idx t) VHole (fun e f => match list_find (fun x => x.1 = e) (layout_words (-1) t) with Some (_, x) => nth (Z.to_nat f) x.2 VHole | None => VHole end).
Definition laid_out (n d : Z) (t : Tree) : TaggedArray := enc TaggedTreeMap (layout n d t).

Definition int_kv (z : Z) : KV := (VInt z, VInt (z + 1)).
Definition leaf_node (c : TreeColor) (e z : Z) : Tree := Node c Leaf e (int_kv z) Leaf.
(** Two red entries in a row, as Insert leaves them. *)
Definition slope_ctx : Context_ := [InRight RED Leaf 1 (int_kv 20); InRight BLACK Leaf 0 (int_kv 10)].
Definition bush : Tree := Node BLACK (leaf_node RED 1 10) 0 (int_kv 20) (leaf_node RED 2 30).

Ltac lay_out :=
  eexists; split; [reflexivity|]; split; [done|]; split; [done|]; split; [by vm_compute|]; split; [by vm_compute|]; split;
  [cbn [entries app plug leaf_node slope_ctx bush ctx_entries mbind list_bind frame_entries]; repeat constructor; set_solver|];
  split; [|done]; intros e _ He _; assert (e <> 0 /\ e <> 1 /\ e <> 2) as (? & ? & ?) by (simpl in He; set_solver);
  cbn [layout fld layout_words plug fill slope_ctx leaf_node bush idx int_kv fst app list_find];
  repeat (rewrite decide_False by (simpl; congruence)); done.

Lemma slope_holds : holds TaggedTreeMap (mkHdr 3 0 7 VHole None) (laid_out 3 0 (plug (leaf_node RED 2 30) slope_ctx)) (leaf_node RED 2 30) slope_ctx.
Proof. lay_out. Qed.

Lemma bush_holds (d : Z) : holds TaggedTreeMap (mkHdr 3 d 7 VHole None) (laid_out 3 d bush) bush [].
Proof. lay_out. Qed.

(** C12: InsertRebalance on a red entry whose parent may be red, in a tree that has
    no other fault, makes a red-black tree with a black root and the same entries
    in the same order; it changes neither the header nor the entries' places. *)
Theorem tree_InsertRebalance_restores (ho : Derived) (h : Hdr) (a : TaggedArray) (n : nat) (t : Tree) (ctx : Context_) :
  Layout ho -> holds ho h a t ctx -> rb n t -> color t = RED -> ctx_rb n ctx ->
  exists a' t', InsertRebalance ho (idx t) a = (Ok tt, a') /\ holds ho h a' t' [] /\ balanced t' /\ inorder t' = inorder (plug t ctx).
Proof.
  intros HL H Hrb Hred Hctx. destruct (InsertRebalance_ok ho h a t ctx H ltac:(by destruct t) (ctx_rb_root _ _ Hctx)) as (a' & R & H').
  exists a', (paint BLACK (ins_fix t ctx)). split; [done|]. split; [done|]. split; [|by rewrite inorder_paint, ins_fix_inorder].
  split; [by destruct (ins_fix t ctx)|]. by eapply ins_fix_rb.
Qed.

Lemma tree_InsertRebalance_restores_witness :
  exists a' t', InsertRebalance TaggedTreeMap 2 (laid_out 3 0 (plug (leaf_node RED 2 30) slope_ctx)) = (Ok tt, a') /\ holds TaggedTreeMap (mkHdr 3 0 7 VHole None) a' t' [] /\
    balanced t' /\ inorder t' = [(0, int_kv 10); (1, int_kv 20); (2, int_kv 30)].
Proof. apply (tree_InsertRebalance_restores TaggedTreeMap (mkHdr 3 0 7 VHole None) _ 0 (leaf_node RED 2 30) slope_ctx); [exact map_layout|exact slope_holds|by repeat split..]. Defined.

(** LeftRotate and then RightRotate at the entry that came up give the tree back. *)
Theorem tree_rotations_roundtrip (ho : Derived) (h : Hdr) (a : TaggedArray) (c c' : TreeColor) (x b y : Tree) (e e' : Z) (kv kv' : KV) (ctx : Context_) :
  Layout ho -> holds ho h a (Node c x e kv (Node c' b e' kv' y)) ctx ->
  exists a1 a2, LeftRotate ho e a = (Ok tt, a1) /\ holds ho h a1 (Node c' (Node c x e kv b) e' kv' y) ctx /\
    RightRotate ho e' a1 = (Ok tt, a2) /\ holds ho h a2 (Node c x e kv (Node c' b e' kv' y)) ctx.
Proof.
  intros HL H. destruct (LeftRotate_ok ho _ _ _ _ _ _ _ _ _ _ _ _ H) as (a1 & R1 & H1). destruct (RightRotate_ok ho _ _ _ _ _ _ _ _ _ _ _ _ H1) as (a2 & R2 & H2). by exists a1, a2.
Qed.

Lemma tree_rotations_roundtrip_witness :
  exists a1 a2, LeftRotate TaggedTreeMap 0 (laid_out 3 0 bush) = (Ok tt, a1) /\ RightRotate TaggedTreeMap 2 a1 = (Ok tt, a2) /\ holds TaggedTreeMap (mkHdr 3 0 7 VHole None) a2 bush [].
Proof.
  destruct (tree_rotations_roundtrip TaggedTreeMap (mkHdr 3 0 7 VHole None) (laid_out 3 0 bush) BLACK RED (leaf_node RED 1 10) Leaf Leaf 0 2 (int_kv 20) (int_kv 30) [] map_layout (bush_holds 0))
    as (a1 & a2 & R1 & _ & R2 & H). exists a1, a2. split; [exact R1|]. split; [exact R2|exact H].
Defined.

(** C13: Remove takes an entry out of a red-black tree, also one with two children,
    and leaves a red-black tree with the other entries in order; the counts of
    entries and of removed entries change by one. *)
Theorem tree_Remove_restores (ho : Derived) (h : Hdr) (a : TaggedArray) (c : TreeColor) (l r : Tree) (e : Z) (kv : KV) (ctx : Context_) :
  Layout ho -> holds ho h a (Node c l e kv r) ctx -> h_spare h = None -> balanced (plug (Node c l e kv r) ctx) ->
  0 < h_n h < 2 ^ 31 -> 0 <= h_d h < 2 ^ 31 - 1 ->
  exists a' t', Remove ho e a = (Ok tt, a') /\ holds ho (mkHdr (h_n h - 1) (h_d h + 1) (h_cap h) (h_cmp h) None) a' t' [] /\ balanced t' /\
    (inorder t').*2 = (before ctx ++ inorder l).*2 ++ (inorder r ++ after ctx).*2.
Proof.
  intros HL H Hsp Hb Hn Hd. destruct (Remove_ok ho h a c l e kv r ctx H Hsp Hb Hn Hd) as (a' & t' & R & H' & Hb' & Ho & _). exists a', t'. split; [done|].
  split; [unfold with_d, with_n in H'; cbn in H'; by rewrite Hsp in H'|]. split; [done|]. rewrite Ho, !fmap_app, <- !(assoc_L (++)). done.
Qed.

Lemma tree_Remove_restores_witness :
  exists a' t', Remove TaggedTreeMap 0 (laid_out 3 0 bush) = (Ok tt, a') /\ holds TaggedTreeMap (mkHdr 2 1 7 VHole None) a' t' [] /\ balanced t' /\ (inorder t').*2 = [int_kv 10; int_kv 30].
Proof.
  apply (tree_Remove_restores TaggedTreeMap (mkHdr 3 0 7 VHole None) _ BLACK (leaf_node RED 1 10) (leaf_node RED 2 30) 0 (int_kv 20) []);
    [exact map_layout|exact (bush_holds 0)|done|split; [done|by exists 1%nat]|done..].
Defined.

(** C30: AdjustTaggedTree, with the new capacity set, copies a tree with a root
    into a new array of the store: the same entries in order in a red-black
    tree, numbered without gaps; the old tree is unchanged.  The compare
    function is copied only if no entry has been removed from the tree.  A tree
    without a root (t = Leaf) is left out: there the copy starts at entry -1. *)
Theorem tree_Adjust_copies (ho : Derived) (st : Store) (tree cap : Z) (a : TaggedArray) (h : Hdr) (t : Tree) :
  Layout ho -> st !! Z.to_nat tree = Some a -> holds ho h a t [] -> h_spare h = None -> balanced t -> t <> Leaf -> h_n h = lenZ (inorder t) ->
  0 <= h_d h < 2 ^ 31 -> Forall (fun e => e < h_n h + h_d h) (entries t) -> h_n h <= cap -> (h_d h = 0 -> h_cap h <= cap) -> 5 + cap * ENTRY_SIZE ho < 2 ^ 31 ->
  exists a' t', (newTree ← AdjustTaggedTree ho tree (ELEMENTS_START_INDEX + cap * ENTRY_SIZE ho); on_table newTree (SetCapacity cap);; mret newTree) st = (Ok (lenZ st), st ++ [a']) /\
    holds ho (mkHdr (h_n h) 0 cap (if h_d h =? 0 then h_cmp h else VHole) None) a' t' [] /\ balanced t' /\ (inorder t').*2 = (inorder t).*2 /\
    Forall (fun e => e < h_n h) (entries t').
Proof.
  intros HL Hst H Hsp Hb Ht Hn Hd He Hnc Hcap Hfit. pose proof (size_pos ho). assert (h_n h < 2 ^ 31) as Hn' by (pose proof (lenZ_nonneg (inorder t)); nia).
  destruct (Z.eqb_spec (h_d h) 0) as [E|E].
  - destruct (extend_ok ho st tree a h t cap) as (a' & t' & R & H' & Hb' & Ho' & He' & _); [auto..|]. exists a', t'. auto.
  - destruct (renumber_ok ho st tree a h t cap) as (a' & t' & R & H' & Hb' & Ho' & He' & _); [auto..|]. exists a', t'. auto.
Qed.

Lemma tree_Adjust_copies_witness :
  exists a' t', (newTree ← AdjustTaggedTree TaggedTreeMap 0 (ELEMENTS_START_INDEX + 15 * 6); on_table newTree (SetCapacity 15);; mret newTree) [laid_out 3 2 bush] = (Ok 1, [laid_out 3 2 bush; a']) /\
    holds TaggedTreeMap (mkHdr 3 0 15 VHole None) a' t' [] /\ balanced t' /\ (inorder t').*2 = [int_kv 10; int_kv 20; int_kv 30].
Proof.
  destruct (tree_Adjust_copies TaggedTreeMap [laid_out 3 2 bush] 0 15 _ (mkHdr 3 2 7 VHole None) bush map_layout eq_refl (bush_holds 2) eq_refl) as (a' & t' & R & H & Hb & Ho & _);
    [split; [done|by exists 1%nat]|done..|by repeat constructor|done|done|done|].
  exists a', t'. split; [exact R|]. split; [exact H|]. split; [exact Hb|exact Ho].
Defined.

(** What OrdinayEntryCompare answers. *)
Definition compared (env : CompareEnv) (x y : JSTaggedValue) : outcome ComparisonResult := (OrdinayEntryCompare env x y tt).1.

(** OrdinayEntryCompare orders the strings and the numbers other than NaN: it
    answers for every two of them, and the answers are a total preorder whose
    equal keys cannot be told apart. *)
Theorem tree_OrdinayEntryCompare_order (env : CompareEnv) :
  exists cmp, KeyOrder cmp (plain_key env) /\ forall x y, plain_key env x -> plain_key env y -> compared env x y = Ok (cmp x y).
Proof.
  exists (ordinary env). split; [apply _|]. intros x y Hx Hy. unfold compared, OrdinayEntryCompare, ordinary. destruct (string_of env x) eqn:Ex, (string_of env y) eqn:Ey.
  - rewrite compare_strings_run; [done|unfold plain_key in Hx; by rewrite Ex in Hx|unfold plain_key in Hy; by rewrite Ey in Hy].
  - destruct (plain_number env y Hy Ey) as [Hn _]. by rewrite (string_not_number env x l Ex), Hn.
  - destruct (plain_number env x Hx Ex) as [Hn _]. by rewrite (string_not_number env y l Ey), Hn.
  - destruct (plain_number env x Hx Ex) as [-> _]. by destruct (plain_number env y Hy Ey) as [-> _].
Qed.

(** A BigInt between strings and numbers makes a cycle: the number 5 is before
    the string 1, which is before the BigInt 3, which is before the number 5. *)
Theorem tree_order_cycle (env : CompareEnv) (s b : Z) :
  env_heap env s = HString true [49] -> env_heap env b = HBigInt false [3] -> ToString env (VObject b) = Ok [51] -> ToString env (VObject s) = Ok [49] -> ToString env (VInt 5) = Ok [53] ->
  compared env (VInt 5) (VObject s) = Ok LESS /\ compared env (VObject s) (VObject b) = Ok LESS /\ compared env (VObject b) (VInt 5) = Ok LESS.
Proof.
  intros Hs Hb Tb Ts T5. assert (string_of env (VObject s) = Some [49] /\ string_of env (VObject b) = None) as [Es Eb] by (unfold string_of, get_string; by rewrite Hs, Hb).
  assert (OrdinayEntryCompare env (VObject s) (VObject b) tt = (Ok LESS, tt)) as R1.
  { unfold OrdinayEntryCompare. rewrite Es, Eb. cbn [IsNumber IsInt IsDouble orb andb]. mstep by (unfold lift; by rewrite Ts). mstep by (unfold lift; by rewrite Tb). by rewrite compare_strings_run. }
  assert (OrdinayEntryCompare env (VObject b) (VInt 5) tt = (Ok LESS, tt)) as R2.
  { unfold OrdinayEntryCompare. rewrite Eb. cbn [IsNumber IsInt IsDouble orb andb]. mstep by (unfold lift; by rewrite Tb). mstep by (unfold lift; by rewrite T5). by rewrite compare_strings_run. }
  unfold compared. rewrite R1, R2. split; [|done]. unfold OrdinayEntryCompare. by rewrite Es.
Qed.

Lemma tree_order_cycle_witness :
  let env := mkCompareEnv (fun z => if z =? 8 then HString true [49] else HBigInt false [3]) (fun _ _ _ => Fault) (fun _ => Fault) (fun v => match v with VInt 5 => Ok [53] | VObject 8 => Ok [49] | _ => Ok [51] end) in
  compared env (VInt 5) (VObject 8) = Ok LESS /\ compared env (VObject 8) (VObject 16) = Ok LESS /\ compared env (VObject 16) (VInt 5) = Ok LESS.
Proof. apply tree_order_cycle; reflexivity. Defined.

Lemma treemap_search_rounds_witness :
  exists w, Constructor TaggedTreeMap int_env (VObject 8) true (mkWorld [] 0) = (Ok tt, w) /\
    let w' := (run_ops (map_exec int_env) (set_ints (seqZ 0 20)) w).2 in
    exists a root rootKey e, trees w' !! Z.to_nat (GetTree w') = Some a /\ GetRootEntries a = (Ok root, a) /\ GetKey TaggedTreeMap root a = (Ok rootKey, a) /\
      while_fuel 9 (find_step TaggedTreeMap int_env (VInt 17)) (root, rootKey) a = (Ok e, a) /\ 0 <= e.
Proof.
  destruct (treemap_search_rounds int_env (VObject 8) true by_diff is_int (set_ints (seqZ 0 20)) (VInt 17) by_diff_order (or_introl eq_refl)) as (w & R & a & root & rootKey & e & H1 & H2 & H3 & H4 & H5).
  - by repeat constructor.
  - vm_compute. discriminate.
  - vm_compute. reflexivity.
  - exact I.
  - exists w. split; [exact R|]. exists a, root, rootKey, e. split; [exact H1|]. split; [exact H2|]. split; [exact H3|]. split; [exact H4|]. apply H5. vm_compute. by eexists.
Defined.



(** Setting the value of a key that is in a full TreeMap has no effect: Insert
    copies the tree to grow, writes the value into the copy and returns the old
    tree. *)
Theorem treemap_full_update_lost (env : CompareEnv) (callable : bool) (os : list map_op) (key value : JSTaggedValue) (x : KV) :
  Forall (map_op_ok (plain_key env)) os -> lenZ os + 2 <= MAX_OPS -> plain_key env key ->
  guarded (map_spec (env_heap env) (ordinary env)) map_small_clear os (new_abs VHole) = true ->
  let s := (run_ops (map_spec (env_heap env) (ordinary env)) os (new_abs VHole)).2 in
  grows s = true -> find_item (ordinary env) key s = Some x ->
  exists w, Constructor TaggedTreeMap env VUndefined callable (mkWorld [] 0) = (Ok tt, w) /\
    (run_ops (map_exec env) [OSet key value; OGet key] (run_ops (map_exec env) os w).2).1 = [Ok RUnit; Ok (RValue x.2)].
Proof.
  intros Hok Hlen Hkey Hg s Hgrow Hfind. destruct (new_steady env TaggedTreeMap callable) as (w & R & HS). exists w. split; [done|].
  destruct (run_ops_guarded (map_exec env) (map_spec (env_heap env) (ordinary env)) map_small_clear (steady env TaggedTreeMap) (map_op_ok (plain_key env)) MAX_OPS
    (map_steady env) os 0 w _ HS Hok Hg ltac:(done) ltac:(lia)) as [_ HS']. fold s in HS'.
  destruct (run_ops_guarded (map_exec env) (map_spec (env_heap env) (ordinary env)) map_small_clear (steady env TaggedTreeMap) (map_op_ok (plain_key env)) MAX_OPS
    (map_steady env) [OSet key value; OGet key] (0 + lenZ os) _ s HS' ltac:(by repeat constructor) eq_refl ltac:(pose proof (lenZ_nonneg os); lia) ltac:(change (lenZ [OSet key value; OGet key]) with 2; lia)) as [E _].
  rewrite E. assert (insert TaggedTreeMap (ordinary env) key value s = s) as Hsame.
  { unfold insert, find_item in *. destruct (items s) as [|y l]; [done|]. destruct (part _ _ EQUAL key (y :: l)); [done|]. by rewrite Hgrow. }
  cbn [run_ops map_spec]. rewrite Hsame, Hfind. done.
Qed.

Lemma treemap_full_update_lost_witness :
  exists w, Constructor TaggedTreeMap int_env VUndefined false (mkWorld [] 0) = (Ok tt, w) /\
    (run_ops (map_exec int_env) [OSet (VInt 3) (VInt 100); OGet (VInt 3)] (run_ops (map_exec int_env) (set_ints [1; 2; 3; 4; 5; 6; 7]) w).2).1 = [Ok RUnit; Ok (RValue (VInt 4))].
Proof.
  apply (treemap_full_update_lost int_env false (set_ints [1; 2; 3; 4; 5; 6; 7]) (VInt 3) (VInt 100) (VInt 3, VInt 4)).
  - apply set_ints_ok.
  - vm_compute. discriminate.
  - apply int_plain.
  - vm_compute. reflexivity.
  - vm_compute. reflexivity.
  - vm_compute. reflexivity.
Defined.

End TreeProps.
