(* ===== verification/LightWeightSet.v ===== *)
(** * JSAPILightWeightSet: js_api_lightweightset.cpp, js_api_lightweightset.h,
    js_api_lightweightset_iterator.cpp.

    A set in two parallel arrays of hashes and values, sorted by hash as an
    unsigned number, searched by bisection and then by SameValue among the values
    with one hash.  What the set needs of the hash is the interface [KeyHash] of
    LightWeightMap, which the hash of the code implements for values that are not
    BigInts.  The constructor makes no copy-on-write array and no operation makes
    one, so that CheckAndCopyValues does nothing.

    The theorems say that the set implements a finite map from the classes of
    SameValue to the values that were added first, in the order of the hashes;
    what addAll, hasAll, equal and forEach do; and where the operations that
    change the capacity exchange the arrays or leave one behind. *)
From stdpp Require Import gmap sorting.
From S2P Require Import Prelude TaggedValue TaggedArray EcmaString Double LightWeightMap TaggedTree.
Local Open Scope Z_scope.

Module LightWeightSet.

Record JSAPILightWeightSet : Type := mkSet {
  hashes : TaggedArray;
  values : TaggedArray;
  length_ : Z;
}.

Definition DEFAULT_CAPACITY_LENGTH : Z := 8.
Definition HASH_REBELLION : Z := 0xFFFFFFFF.

Definition SetHashes (a : TaggedArray) : M JSAPILightWeightSet unit := modify (fun s => mkSet a (values s) (length_ s)).
Definition SetValues (a : TaggedArray) : M JSAPILightWeightSet unit := modify (fun s => mkSet (hashes s) a (length_ s)).
Definition SetLength (n : Z) : M JSAPILightWeightSet unit := modify (fun s => mkSet (hashes s) (values s) n).

Definition on_hashes {A} (m : M TaggedArray A) : M JSAPILightWeightSet A := zoom hashes (fun a s => mkSet a (values s) (length_ s)) m.
Definition on_values {A} (m : M TaggedArray A) : M JSAPILightWeightSet A := zoom values (fun a s => mkSet (hashes s) a (length_ s)) m.

Definition GetLength : M JSAPILightWeightSet Z := gets length_.
Definition GetSize : M JSAPILightWeightSet Z := GetLength.

Definition CreateSlot {S} (capacity : Z) : M S TaggedArray :=
  ASSERT (0 <? capacity);;
  build (Factory.NewTaggedArray capacity VHole) (for_range 0 capacity (fun i => Arr.Set_ i VHole)).

(** LightWeightSetConstructor after the check of newTarget; the factory sets the
    length to 0. *)
Definition LightWeightSetConstructor {S} : M S JSAPILightWeightSet :=
  hashes ← CreateSlot DEFAULT_CAPACITY_LENGTH;
  values ← CreateSlot DEFAULT_CAPACITY_LENGTH;
  mret (mkSet hashes values 0).

(** JSTaggedValue::GetNumber, which asserts that the value is a number. *)
Definition GetNumber {S} (v : JSTaggedValue) : M S dbl :=
  match v with VInt _ | VDouble _ => mret (ExtractNumber v) | _ => fault end.

(** A number of the array of hashes as a uint32_t; out of the range the
    conversion is undefined. *)
Definition GetUint32 {S} (v : JSTaggedValue) : M S Z :=
  d ← GetNumber v;
  match trunc d with
  | Some z => if (0 <=? z) && (z <? 2 ^ 32) then mret z else fault
  | None => fault
  end.

Definition search_step {S} (hashArray : TaggedArray) (hash : Z) (p : Z * Z) : M S (Z * Z + Z) :=
  let '(low, high) := p in
  if low <=? high then
    let mid := Z.shiftr (u32 (low + high)) 1 in
    v ← Arr.GetFrom hashArray mid;
    midVal ← GetUint32 v;
    if midVal <? hash then mret (inl (i32 (mid + 1), high))
    else if midVal <=? hash then mret (inr (i32 mid))
    else mret (inl (low, i32 (mid - 1)))
  else mret (inr (- (low + 1))).

Definition BinarySearchHashes (hash size : Z) : M JSAPILightWeightSet Z :=
  hashArray ← gets hashes;
  while_fuel (Datatypes.S (Z.to_nat size)) (search_step hashArray hash) (0, size - 1).

Definition AdjustArray (fromIndex toIndex : Z) (direction : bool) (size : Z) : M TaggedArray unit :=
  let idx := u32 (size - 1) in
  if direction then
    for_down (Z.to_nat (toIndex - fromIndex)) idx (fun idx => value ← Arr.Get idx; Arr.Set_ (u32 (idx + 1)) value)
  else
    let moveSize := u32 (size - fromIndex) in
    for_range 0 moveSize (fun i =>
      if u32 (fromIndex + i) <? size then value ← Arr.Get (u32 (fromIndex + i)); Arr.Set_ (u32 (toIndex + i)) value
      else Arr.Set_ (u32 (toIndex + i)) VHole).

Definition RemoveValue (index len : Z) (isHash : bool) : M TaggedArray unit :=
  ASSERT (index <? len);;
  Arr.RemoveElementByIndex index len isHash.

Definition RemoveAt (index : Z) : M JSAPILightWeightSet bool :=
  size ← GetLength;
  if (index <? 0) || (i32 size <=? index) then mret false
  else
    on_hashes (RemoveValue (u32 index) size true);;
    on_values (RemoveValue (u32 index) size false);;
    SetLength (u32 (size - 1));;
    mret true.

Definition IsEmpty : M JSAPILightWeightSet bool := n ← GetLength; mret (n =? 0).

Definition Get (index : Z) : M JSAPILightWeightSet JSTaggedValue := on_values (Arr.Get index).

Definition GetValueAt (index : Z) : M JSAPILightWeightSet JSTaggedValue :=
  size ← GetLength;
  if (index <? 0) || (i32 size <=? index) then mret VUndefined
  else on_values (Arr.Get index).

Definition GetHashAt (index : Z) : M JSAPILightWeightSet JSTaggedValue :=
  size ← GetLength;
  if (index <? 0) || (i32 size <=? index) then mret VUndefined
  else on_hashes (Arr.Get index).

Definition HasHash (hashCode : JSTaggedValue) : M JSAPILightWeightSet bool :=
  size ← GetLength;
  hash ← GetUint32 hashCode;
  index ← BinarySearchHashes hash (i32 size);
  mret (negb (index <? 0)).

Definition Clear : M JSAPILightWeightSet unit :=
  size ← GetLength;
  for_range 0 size (fun index => on_hashes (Arr.Set_ index VHole);; on_values (Arr.Set_ index VHole));;
  SetLength 0.

(** ** Capacities *)

Definition SizeCopy (capacity newCapacity : Z) : M JSAPILightWeightSet unit :=
  hashArray ← gets hashes;
  valueArray ← gets values;
  hashArray ← Factory.CopyArray hashArray capacity newCapacity VHole;
  valueArray ← Factory.CopyArray valueArray capacity newCapacity VHole;
  SetValues hashArray;;
  SetHashes valueArray.

(** The doubling of newCapacity; it wraps around to 0 and never ends when the
    minimum is 2^31 or more. *)
Definition double_step {S} (minimumCapacity newCapacity : Z) : M S (Z + Z) :=
  if newCapacity <=? minimumCapacity then mret (inl (u32 (Z.shiftl newCapacity 1))) else mret (inr newCapacity).

Definition EnsureCapacity (minimumCapacity : Z) : M JSAPILightWeightSet unit :=
  hashes ← gets values;
  let capacity := lenZ hashes in
  if minimumCapacity <? capacity then mret tt
  else
    newCapacity ← while_fuel 33 (double_step minimumCapacity) capacity;
    SizeCopy capacity newCapacity.

Definition IncreaseCapacityTo (minCapacity : Z) : M JSAPILightWeightSet unit :=
  valueArray ← gets values;
  let capacity := lenZ valueArray in
  let intCapacity := i32 capacity in
  if (minCapacity <=? 0) || (minCapacity <=? intCapacity) then throw RANGE_ERROR
  else
    hashArray ← gets hashes;
    newElements ← Factory.NewAndCopyTaggedArray hashArray (u32 minCapacity) capacity 0;
    SetHashes newElements.

Section with_heap.
Context (heap : Heap) (env : LightWeightMap.HashEnv).

(** A BigInt is hashed by its address. *)
Definition Hash (key : JSTaggedValue) : Z :=
  let key :=
    match key with
    | VDouble b => if double_eqb (double_of_bits b) (DZero false) then VInt 0 else key
    | _ => key
    end in
  let raw := u32 (LightWeightMap.GetHash32 env (LightWeightMap.bytes 8 (encode key))) in
  match key with
  | VObject a =>
      match LightWeightMap.symbol_hash env a with
      | Some h => u32 h
      | None =>
          match heap a with
          | HString _ _ => u32 (LightWeightMap.string_hash env a)
          | HBigInt _ _ => raw
          | HOther => match LightWeightMap.identity_hash env a with Some h => u32 h | None => raw end
          end
      end
  | VInt z => u32 z
  | _ => raw
  end.

(** The loops of GetHashIndex: [inl i] is the index of the value, [inr i] where
    the loop stopped. *)
Definition right_step {S} (hashArray valueArray : TaggedArray) (value : JSTaggedValue) (hashCode size right : Z) : M S (Z + (Z + Z)) :=
  if right <? size then
    v ← Arr.GetFrom hashArray right;
    d ← GetNumber v;
    if double_eqb d (double_of_int hashCode) then
      x ← Arr.GetFrom valueArray right;
      if SameValue heap x value then mret (inr (inl right)) else mret (inl (right + 1))
    else mret (inr (inr right))
  else mret (inr (inr right)).

Definition left_step {S} (hashArray valueArray : TaggedArray) (value : JSTaggedValue) (hashCode left : Z) : M S (Z + (Z + Z)) :=
  if 0 <=? left then
    v ← Arr.GetFrom hashArray left;
    d ← GetNumber v;
    if double_eqb d (double_of_int hashCode) then
      x ← Arr.GetFrom valueArray left;
      if SameValue heap x value then mret (inr (inl left)) else mret (inl (left - 1))
    else mret (inr (inr left))
  else mret (inr (inr left)).

Definition GetHashIndex (value : JSTaggedValue) (size : Z) : M JSAPILightWeightSet Z :=
  let hashCode := Hash value in
  index ← BinarySearchHashes hashCode size;
  if index <? 0 then mret index
  else
    valueArray ← gets values;
    found ← (if index <? size then x ← Arr.GetFrom valueArray index; mret (SameValue heap x value) else mret false);
    if (found : bool) then mret index
    else
      hashArray ← gets hashes;
      r ← while_fuel (Datatypes.S (Z.to_nat (size - index))) (right_step hashArray valueArray value hashCode size) index;
      match r with
      | inl right_ => mret right_
      | inr right_ =>
          l ← while_fuel (Datatypes.S (Z.to_nat index)) (left_step hashArray valueArray value hashCode) (index - 1);
          match l with
          | inl left_ => mret left_
          | inr _ => mret (- right_)
          end
      end.

Definition Add (value : JSTaggedValue) : M JSAPILightWeightSet bool :=
  let hashCode := Hash value in
  size ← GetLength;
  let size := i32 size in
  index ← GetHashIndex value size;
  if 0 <=? index then mret false
  else
    let index := i32 (Z.lxor (u32 index) HASH_REBELLION) in
    length ← GetLength;
    (if index <? size then
       on_hashes (AdjustArray (u32 index) (u32 size) true length);;
       on_values (AdjustArray (u32 index) (u32 size) true length)
     else mret tt);;
    hashArray ← gets hashes;
    let capacity := lenZ hashArray in
    (if i32 capacity <=? size + 1 then
       let newCapacity := u32 (Z.shiftl capacity 1) in
       valueArray ← gets values;
       hashArray ← Factory.CopyArray hashArray capacity newCapacity VHole;
       valueArray ← Factory.CopyArray valueArray capacity newCapacity VHole;
       SetHashes hashArray;;
       SetValues valueArray
     else mret tt);;
    on_hashes (Arr.Set_ index (TaggedTree.of_uint32 hashCode));;
    on_values (Arr.Set_ index value);;
    SetLength (u32 (size + 1));;
    mret true.

Definition Has (value : JSTaggedValue) : M JSAPILightWeightSet bool :=
  size ← GetLength;
  index ← GetHashIndex value (i32 size);
  mret (negb (index <? 0)).

Definition GetIndexOf (value : JSTaggedValue) : M JSAPILightWeightSet Z :=
  size ← GetLength;
  GetHashIndex value (i32 size).

Definition Remove (value : JSTaggedValue) : M JSAPILightWeightSet JSTaggedValue :=
  size ← GetLength;
  index ← GetHashIndex value (i32 size);
  if index <? 0 then mret VUndefined
  else
    result ← on_values (Arr.Get index);
    RemoveAt index;;
    mret result.

(** [srcLightWeightSet] is another set. *)
Fixpoint add_values (srcLightWeightSet : JSAPILightWeightSet) (n : nat) (i : Z) (changed : bool) : M JSAPILightWeightSet bool :=
  match n with
  | O => mret changed
  | Datatypes.S n =>
      element ← fun s => ((GetValueAt (i32 i) srcLightWeightSet).1, s);
      added ← Add element;
      add_values srcLightWeightSet n (i + 1) (changed || added)
  end.

Definition AddAll (srcLightWeightSet : JSAPILightWeightSet) : M JSAPILightWeightSet bool :=
  let srcSize := length_ srcLightWeightSet in
  size ← GetSize;
  EnsureCapacity (u32 (size + srcSize));;
  add_values srcLightWeightSet (Z.to_nat srcSize) 0 false.

(** The inner loop of HasAll: the position behind the hash, if it is found. *)
Definition hasall_round (hashes : TaggedArray) (size destHashCode relocate : Z) : M JSAPILightWeightSet (option Z) :=
  find_up (Z.to_nat (size - relocate)) relocate (fun j =>
    v ← Arr.GetFrom hashes j;
    hashCode ← GetUint32 v;
    mret (if destHashCode =? hashCode then Some (j + 1) else None)).

Fixpoint hasall_rounds (hashes destHashes : TaggedArray) (size : Z) (n : nat) (i relocate : Z) (result : bool) : M JSAPILightWeightSet bool :=
  match n with
  | O => mret result
  | Datatypes.S n =>
      v ← Arr.GetFrom destHashes i;
      destHashCode ← GetUint32 v;
      r ← hasall_round hashes size destHashCode relocate;
      match r with
      | Some relocate => hasall_rounds hashes destHashes size n (i + 1) relocate true
      | None => mret false
      end
  end.

Definition HasAll (lightweightSet : JSAPILightWeightSet) : M JSAPILightWeightSet bool :=
  size ← GetLength;
  let destSize := length_ lightweightSet in
  ownHashes ← gets hashes;
  if size <? destSize then mret false
  else hasall_rounds ownHashes (hashes lightweightSet) size (Z.to_nat destSize) 0 0 false.

(** What Equal is called with: a set, an array with its elements, or another
    value. *)
Inductive EqualArg : Type :=
| ASet (s : JSAPILightWeightSet)
| AArray (l : list JSTaggedValue)
| AOther.

(** One element of Equal; [result] stays when the kinds differ. *)
Definition equal_values (compareValue values : JSTaggedValue) (result : bool) : bool :=
  let result := if IsNumber compareValue && IsNumber values then SameValueNumberic compareValue values else result in
  match get_string heap compareValue, get_string heap values with
  | Some x, Some y => StringCompare x y
  | _, _ => result
  end.

Fixpoint equal_rounds (destHashes srcHashes : TaggedArray) (n : nat) (i : Z) (result : bool) : M JSAPILightWeightSet bool :=
  match n with
  | O => mret result
  | Datatypes.S n =>
      compareValue ← Arr.GetFrom destHashes i;
      values ← Arr.GetFrom srcHashes i;
      let result := equal_values compareValue values result in
      if negb result then mret result else equal_rounds destHashes srcHashes n (i + 1) result
  end.

Definition Equal (value : EqualArg) : M JSAPILightWeightSet bool :=
  destHashes ← gets values;
  destSize ← GetLength;
  own ← gets hashes;
  let '(srcHashes, srcSize, isEmpty) :=
    match value with
    | ASet s => (hashes s, length_ s, (length_ s =? 0) || (destSize =? 0))
    | AArray l => (l, lenZ l, (lenZ l =? 0) || (destSize =? 0))
    | AOther => (own, 0, false)
    end in
  if isEmpty then mret false
  else if negb (srcSize =? destSize) then mret false
  else equal_rounds destHashes srcHashes (Z.to_nat destSize) 0 false.

(** The strings of values are JSTaggedValue::ToString's, an argument. *)
Definition ToString (js_ToString : JSTaggedValue -> M JSAPILightWeightSet (list Z)) : M JSAPILightWeightSet (list Z) :=
  length ← GetSize;
  valueArray ← gets values;
  (fix loop (n : nat) (k : Z) (concatStr : list Z) : M JSAPILightWeightSet (list Z) :=
     match n with
     | O => mret concatStr
     | Datatypes.S n' =>
         v ← Arr.GetFrom valueArray k;
         nextStr ← (if negb (IsUndefined v) && negb (IsNull v) then js_ToString v else mret []);
         if 0 <? k then loop n' (k + 1) ((concatStr ++ [44]) ++ nextStr)
         else loop n' (k + 1) (concatStr ++ nextStr)
     end) (Z.to_nat length) 0 [].

(** ** Iteration *)

Inductive IterationKind : Type := VALUE | KEY_AND_VALUE.

(** ObjectFactory::NewJSAPILightWeightSetIterator. *)
Definition NewJSAPILightWeightSetIterator : index_iterator := mkIter true 0.

Definition iter_at (itemKind : IterationKind) (index : Z) : M JSAPILightWeightSet (list JSTaggedValue) :=
  value ← Get index;
  mret (match itemKind with VALUE => [value] | KEY_AND_VALUE => [value; value] end).

Definition Next (itemKind : IterationKind) (iter : index_iterator) : M JSAPILightWeightSet (option (list JSTaggedValue) * index_iterator) :=
  index_next GetLength (iter_at itemKind) iter.
End with_heap.

(** ForEach; the state is the set and what else the program changes. *)
Section callbacks.
Context {E : Type} (callbackFn : JSTaggedValue -> M (JSAPILightWeightSet * E) JSTaggedValue).

Definition on_set {A} (m : M JSAPILightWeightSet A) : M (JSAPILightWeightSet * E) A := zoom fst (fun s p => (s, snd p)) m.

Definition foreach_step (vars : Z * Z) : M (JSAPILightWeightSet * E) (Z * Z + unit) :=
  let '(k, length) := vars in
  if k <? length then
    kValue ← on_set (GetValueAt (i32 k));
    callbackFn kValue;;
    size ← on_set GetSize;
    mret (inl (u32 (k + 1), if negb (size =? length) then size else length))
  else mret (inr tt).

(** The callback may add values without end, so that the fuel is an argument. *)
Definition ForEach (fuel : nat) : M (JSAPILightWeightSet * E) JSTaggedValue :=
  length ← on_set GetSize;
  while_fuel fuel foreach_step (0, length);;
  mret VUndefined.
End callbacks.

(** ** Numbers of the array of hashes *)

Lemma of_uint32_number (h : Z) : 0 <= h < 2 ^ 32 -> ExtractNumber (TaggedTree.of_uint32 h) = double_of_int h /\ IsNumber (TaggedTree.of_uint32 h) = true.
Proof.
  intros Hh. unfold TaggedTree.of_uint32. destruct (Z.ltb_spec (i32 h) 0) as [Hlt|Hge].
  - assert (2 ^ 31 <= h) as Hb by (unfold i32 in Hlt; zlia). split; [|done]. cbn [ExtractNumber]. set (m := (h - 2 ^ 31) * 2 ^ 21).
    assert (0 <= m < 2 ^ 52) as Hm by (unfold m; lia). assert (((1023 + 31) * 2 ^ 52 + m) / 2 ^ 52 = 1054) as Hd by zlia. assert (((1023 + 31) * 2 ^ 52 + m) mod 2 ^ 52 = m) as Hmm by zlia.
    unfold double_of_bits. rewrite Hd, Hmm. change (1054 mod 2 ^ 11) with 1054.
    replace (Z.testbit ((1023 + 31) * 2 ^ 52 + m) 63) with false by (symmetry; apply Z.testbit_false; zlia).
    cbn [Z.eqb]. change (1054 =? 2047) with false. change (1054 =? 0) with false. cbv iota. unfold double_of_int. rewrite (proj2 (Z.eqb_neq h 0)) by lia. f_equal.
    unfold m. change (2 ^ 1074) with (2 ^ 21 * 2 ^ 1053). change (1054 - 1) with 1053. generalize (2 ^ 1053). intros u. lia.
  - assert (h < 2 ^ 31) by (unfold i32 in Hge; zlia). done.
Qed.

Lemma GetNumber_run {S} (h : Z) (s : S) : 0 <= h < 2 ^ 32 -> GetNumber (TaggedTree.of_uint32 h) s = (Ok (double_of_int h), s).
Proof. intros Hh. destruct (of_uint32_number h Hh) as [<- Hn]. unfold GetNumber. by destruct (TaggedTree.of_uint32 h). Qed.

Lemma GetUint32_run {S} (h : Z) (s : S) : 0 <= h < 2 ^ 32 -> GetUint32 (TaggedTree.of_uint32 h) s = (Ok h, s).
Proof.
  intros Hh. unfold GetUint32. mstep with (GetNumber_run h s Hh). rewrite Double.trunc_int. by zb.
Qed.

Lemma int_doubles_eqb (a b : Z) : double_eqb (double_of_int a) (double_of_int b) = (a =? b).
Proof.
  assert (0 < 2 ^ 1074) as HU by (apply Z.pow_pos_nonneg; lia). unfold double_eqb, double_of_int.
  destruct (Z.eqb_spec a 0) as [->|Ha], (Z.eqb_spec b 0) as [->|Hb]; cbn [dkey]; revert HU; generalize (2 ^ 1074); intros u HU; rewrite Z.eqb_refl; cbn [andb].
  - done.
  - transitivity false; [apply Z.eqb_neq; nia|symmetry; by apply Z.eqb_neq, not_eq_sym].
  - transitivity false; [apply Z.eqb_neq; nia|symmetry; by apply Z.eqb_neq].
  - destruct (Z.eqb_spec a b) as [->|Hab]; [apply Z.eqb_refl|]. apply Z.eqb_neq. nia.
Qed.

(** Two loops whose rounds agree. *)
Lemma while_fuel_ext {S X A} (P : X -> Prop) (f g : X -> M S (X + A)) (fuel : nat) (x : X) (s : S) :
  P x -> (forall x, P x -> f x s = g x s /\ forall y s', f x s = (Ok (inl y), s') -> s' = s /\ P y) -> while_fuel fuel f x s = while_fuel fuel g x s.
Proof.
  intros Hx Hfg. revert x Hx. induction fuel as [|fuel IH]; intros x Hx; [done|]. cbn [while_fuel]. destruct (Hfg x Hx) as [E Hnext]. mcbn. rewrite <- E.
  destruct (f x s) as [[[y|r]| | |] s'] eqn:Ef; try done. destruct (Hnext y s' eq_refl) as [-> Hy]. by apply IH.
Qed.

(** ** Searching *)

Section search.
Context (heap : Heap) (H : JSTaggedValue -> Z) (HH : forall v, 0 <= H v < 2 ^ 32).
Context (l : list JSTaggedValue) (hj vj : TaggedArray) (Hb : lenZ l < 2 ^ 31).
Notation hash_words := (TaggedTree.of_uint32 <$> (H <$> l)).
Notation int_words := (VInt <$> (H <$> l)).

Lemma hash_at {S} (i : Z) (v : JSTaggedValue) (st : S) : 0 <= i -> l !! Z.to_nat i = Some v -> Arr.GetFrom (hash_words ++ hj) i st = (Ok (TaggedTree.of_uint32 (H v)), st).
Proof.
  intros Hi Hv. unfold Arr.GetFrom. rewrite <- (Z2Nat.id i) by done.
  rewrite (read_lookup _ _ (TaggedTree.of_uint32 (H v))); [done|]. apply lookup_app_l_Some. by rewrite !list_lookup_fmap, Hv.
Qed.

(** The searches take the steps of those of LightWeightMap. *)
Lemma search_agrees {S} (h : Z) (fuel : nat) (st : S) :
  while_fuel fuel (search_step (hash_words ++ hj) h) (0, lenZ l - 1) st = while_fuel fuel (LightWeightMap.search_step (int_words ++ hj) h) (0, lenZ l - 1) st.
Proof.
  apply (while_fuel_ext (fun p => 0 <= p.1 /\ p.2 < lenZ l)); [simpl; lia|]. intros [low high]. cbn [fst snd]. intros [Hl Hh].
  destruct (Z.leb_spec low high) as [Hle|Hgt].
  2: { unfold search_step, LightWeightMap.search_step. zb. split; [done|]. intros y s'. by mcbn. }
  destruct (lookup_lt_is_Some_2 l (Z.to_nat ((low + high) / 2))) as [v Hv]; [unfold lenZ in *; zlia|].
  pose proof (LightWeightMap.search_step_run H h l hj low high v st ltac:(lia) Hh Hb Hv) as Hm. set (mid := (low + high) / 2) in *. assert (0 <= mid < lenZ l) as Hmid by (unfold mid; zlia).
  assert (search_step (hash_words ++ hj) h (low, high) st = (Ok (if H v <? h then inl (mid + 1, high) else if H v =? h then inr mid else inl (low, mid - 1)), st)) as Hs.
  { unfold search_step. zb. replace (Z.shiftr (u32 (low + high)) 1) with mid by (rewrite u32_small, Z.shiftr_div_pow2 by lia; done).
    mstep by (apply hash_at; [lia|exact Hv]). mstep with (GetUint32_run (H v) st (HH v)). rewrite !i32_id by lia.
    destruct (Z.ltb_spec (H v) h); [done|]. destruct (Z.leb_spec (H v) h), (Z.eqb_spec (H v) h); (done || lia). }
  split; [by rewrite Hs, Hm|]. intros y s' E. rewrite Hs in E. destruct (H v <? h); [|destruct (H v =? h)]; simplify_eq/=; (split; [done|]); lia.
Qed.

Lemma right_agrees {S} (v : JSTaggedValue) (h : Z) (fuel : nat) (i : Z) (st : S) : 0 <= i ->
  while_fuel fuel (right_step heap (hash_words ++ hj) (l ++ vj) v h (lenZ l)) i st = while_fuel fuel (LightWeightMap.right_step heap (int_words ++ hj) (l ++ vj) v h (lenZ l)) i st.
Proof.
  intros Hi. apply (while_fuel_ext (fun i => 0 <= i)); [done|]. clear i Hi. intros i Hi. unfold right_step, LightWeightMap.right_step.
  destruct (Z.ltb_spec i (lenZ l)) as [Hlt|Hge]; [|split; [done|intros y s'; by mcbn]].
  destruct (lookup_lt_is_Some_2 l (Z.to_nat i)) as [x Hx]; [unfold lenZ in Hlt; lia|].
  mstep by (by apply hash_at). mstep with (GetNumber_run (H x) st (HH x)). mstep by (by apply LightWeightMap.hash_word_at). mstep. rewrite int_doubles_eqb.
  destruct (H x =? h); [|split; [done|intros y s'; by mcbn]]. mstep by (by apply LightWeightMap.key_at). split; [done|]. intros y s'. mcbn. destruct (SameValue heap x v); intros E; simplify_eq. split; [done|lia].
Qed.

Lemma left_agrees {S} (v : JSTaggedValue) (h : Z) (fuel : nat) (i : Z) (st : S) : i < lenZ l ->
  while_fuel fuel (left_step heap (hash_words ++ hj) (l ++ vj) v h) i st = while_fuel fuel (LightWeightMap.left_step heap (int_words ++ hj) (l ++ vj) v h) i st.
Proof.
  intros Hi. apply (while_fuel_ext (fun i => i < lenZ l)); [done|]. clear i Hi. intros i Hlt. unfold left_step, LightWeightMap.left_step.
  destruct (Z.leb_spec 0 i) as [Hi|Hge]; [|split; [done|intros y s'; by mcbn]].
  destruct (lookup_lt_is_Some_2 l (Z.to_nat i)) as [x Hx]; [unfold lenZ in Hlt; lia|].
  mstep by (by apply hash_at). mstep with (GetNumber_run (H x) st (HH x)). mstep by (by apply LightWeightMap.hash_word_at). mstep. rewrite int_doubles_eqb.
  destruct (H x =? h); [|split; [done|intros y s'; by mcbn]]. mstep by (by apply LightWeightMap.key_at). split; [done|]. intros y s'. mcbn. destruct (SameValue heap x v); intros E; simplify_eq. split; [done|lia].
Qed.
End search.

Lemma Hash_range (heap : Heap) (env : LightWeightMap.HashEnv) (v : JSTaggedValue) : 0 <= Hash heap env v < 2 ^ 32.
Proof. assert (forall z, 0 <= u32 z < 2 ^ 32) as Hu by (intros z; apply Z.mod_pos_bound; lia). unfold Hash. repeat case_match; apply Hu. Qed.

(** ** The abstract set *)

#[local] Existing Instances LightWeightMap.ident_eq_dec LightWeightMap.ident_countable.

Section set.
Context (heap : Heap) (env : LightWeightMap.HashEnv) (ok : JSTaggedValue -> Prop).
Context (Hheap : heap_wf heap) `{HK : !LightWeightMap.KeyHash heap (Hash heap env) ok}.
Notation H := (Hash heap env).
Notation words l := (TaggedTree.of_uint32 <$> (H <$> l)).
Notation same v := (fun x => SameValue heap x v).

(** The values in the order of their hashes, without duplicates; one place is
    free. *)
Definition repr (s : JSAPILightWeightSet) (l : list JSTaggedValue) (cap : Z) : Prop :=
  (exists hj vj, s = mkSet (words l ++ hj) (l ++ vj) (lenZ l) /\ lenZ hj = lenZ vj /\ lenZ l + lenZ vj = cap /\ lenZ l < cap) /\
  StronglySorted Z.le (H <$> l) /\ NoDup (ident_of heap <$> l) /\ Forall ok l.

(** A value that is not among those with its hash is nowhere. *)
Lemma other_hashes (v : JSTaggedValue) (l : list JSTaggedValue) : ok v -> Forall ok l -> Forall (fun x => H x <> H v) l -> Forall (fun x => SameValue heap x v = false) l.
Proof.
  intros Hok Hoks Hne. induction Hne as [|x l Hx Hl IH]; [done|]. apply Forall_cons_1 in Hoks as [Hokx Hoks]. constructor; [|by apply IH].
  apply not_true_is_false. intros Hsame%SameValue_ident; [|done]. by apply Hx, LightWeightMap.hash_ident.
Qed.

(** The one value that is the same is found at its position. *)
Lemma find_same (v x : JSTaggedValue) (p q : list JSTaggedValue) : NoDup (ident_of heap <$> (p ++ x :: q)) -> SameValue heap x v = true -> find_index (same v) (p ++ x :: q) = Some (lenZ p).
Proof.
  intros Hnd Hx. induction p as [|y p IH]; simpl; [by rewrite Hx|]. rewrite <- app_comm_cons, fmap_cons in Hnd. apply list.NoDup_cons in Hnd as [Hy Hnd].
  destruct (SameValue heap y v) eqn:E.
  - exfalso. apply Hy. apply SameValue_ident in E; [|done]. apply SameValue_ident in Hx; [|done]. rewrite E, <- Hx. apply list_elem_of_fmap. exists x. split; [done|]. apply elem_of_app. right. apply elem_of_cons. by left.
  - rewrite (IH Hnd). simpl. f_equal. lenz.
Qed.

Section at_state.
Context {s : JSAPILightWeightSet} {l : list JSTaggedValue} {cap : Z} (Hr : repr s l cap) (Hb : cap < 2 ^ 30).

Lemma set_length_run : GetLength s = (Ok (lenZ l), s).
Proof. destruct Hr as [(hj & vj & -> & _) _]. done. Qed.

Lemma search_hashes_run (h : Z) : exists r, BinarySearchHashes h (lenZ l) s = (Ok r, s) /\
  exists l1 lm l2, l = l1 ++ lm ++ l2 /\ Forall (fun x => H x < h) l1 /\ Forall (fun x => H x = h) lm /\ Forall (fun x => h < H x) l2 /\
    (lm = [] /\ r = - (lenZ l1 + 1) \/ lenZ l1 <= r < lenZ (l1 ++ lm)).
Proof.
  destruct Hr as [(hj & vj & -> & _ & Hc & Hlt) (Hs & _)]. destruct (LightWeightMap.map_locate H h l Hs) as (l1 & lm & l2 & Hl & H1 & Hm & H2).
  assert (lenZ (l1 ++ lm ++ l2) < 2 ^ 31) as Hlb by (rewrite <- Hl; lia).
  destruct (LightWeightMap.BinarySearchHashes_run H h l1 lm l2 hj (mkSet (words l ++ hj) (l ++ vj) (lenZ l)) H1 Hm H2 Hlb) as (r & Hrun & Hcase).
  exists r. split; [|by exists l1, lm, l2]. unfold BinarySearchHashes. mstep. cbn [hashes]. rewrite (search_agrees H (Hash_range heap env) l hj) by lia. by rewrite <- Hl in Hrun.
Qed.

(** The scan around an index with the hash of the value. *)
Lemma set_scan_run (v : JSTaggedValue) (index : Z) (l1 lm l2 hj vj : list JSTaggedValue) :
  l = l1 ++ lm ++ l2 -> Forall (fun x => H x < H v) l1 -> Forall (fun x => H x = H v) lm -> Forall (fun x => H v < H x) l2 ->
  lenZ l1 <= index < lenZ (l1 ++ lm) ->
  exists r q, while_fuel (Datatypes.S (Z.to_nat (lenZ l - index))) (right_step heap (words l ++ hj) (l ++ vj) v (H v) (lenZ l)) index s = (Ok r, s) /\
    while_fuel (Datatypes.S (Z.to_nat index)) (left_step heap (words l ++ hj) (l ++ vj) v (H v)) (index - 1) s = (Ok q, s) /\
    match r, q with
    | inl i, _ | inr _, inl i => exists p x t, l = p ++ x :: t /\ lenZ p = i /\ SameValue heap x v = true
    | inr right_, inr _ => right_ = lenZ (l1 ++ lm) /\ Forall (fun x => SameValue heap x v = false) lm
    end.
Proof.
  intros Hl H1 Hm H2 Hi. pose proof (lenZ_nonneg l1) as Hp1. pose proof (lenZ_nonneg l2) as Hp2. assert (lenZ l < 2 ^ 31) as Hlb by (destruct Hr as [(? & ? & _ & _ & ? & ?) _]; lia).
  assert (lenZ l = lenZ l1 + lenZ lm + lenZ l2) as Hlen by (rewrite Hl; lenz). rewrite lenZ_app in Hi.
  rewrite (right_agrees heap H (Hash_range heap env)), (left_agrees heap H (Hash_range heap env)) by lia.
  destruct (split_len lm (index - lenZ l1)) as (m1 & m2 & -> & Hl1); [lia|]. apply Forall_app in Hm as [Hm1 Hm2]. rewrite lenZ_app in Hlen, Hi.
  assert (l = (l1 ++ m1) ++ m2 ++ l2) as E1 by (rewrite Hl; by rewrite <- !app_assoc). assert (l = l1 ++ m1 ++ (m2 ++ l2)) as E2 by (rewrite Hl; by rewrite <- !app_assoc).
  pose proof (LightWeightMap.right_loop heap H v (H v) m2 (l1 ++ m1) l2 hj vj (Datatypes.S (Z.to_nat (lenZ l - index))) s Hm2 H2) as Hright.
  destruct (LightWeightMap.left_loop heap H v (H v) m1 l1 (m2 ++ l2) hj vj (Datatypes.S (Z.to_nat index)) s H1 Hm1) as [stop Hleft]; [unfold lenZ in *; lia|].
  cbv zeta in Hright, Hleft. rewrite <- E1 in Hright. rewrite <- E2 in Hleft. replace (lenZ (l1 ++ m1)) with index in Hright, Hleft by lenz.
  eexists _, _. split; [apply Hright; unfold lenZ in *; lia|]. split; [exact Hleft|].
  pose proof (LightWeightMap.find_index_keys heap v m2) as Fr. destruct (find_index _ m2) as [j|].
  { destruct Fr as (p & x & q & -> & <- & Hx). exists (l1 ++ m1 ++ p), x, (q ++ l2). rewrite E2, <- !app_assoc. split_and!; [done|lenz|done]. }
  pose proof (LightWeightMap.find_last_index_keys heap v m1) as Fl. destruct (find_last_index _ m1) as [j|].
  { destruct Fl as (p & x & q & -> & <- & Hx). exists (l1 ++ p), x, (q ++ m2 ++ l2). rewrite E2, <- !app_assoc. split_and!; [done|lenz|done]. }
  split; [lenz|by apply Forall_app].
Qed.

(** Where GetHashIndex finds the value, or where Add would put it: behind the
    values with smaller hashes and before those with greater ones. *)
Definition located (v : JSTaggedValue) (r : Z) : Prop :=
  match find_index (same v) l with
  | Some i => r = i
  | None => exists l1 l2, l = l1 ++ l2 /\ Forall (fun x => H x <= H v) l1 /\ Forall (fun x => H v <= H x) l2 /\ r = - (lenZ l1 + 1)
  end.

Lemma located_found (v x : JSTaggedValue) (p q : list JSTaggedValue) : l = p ++ x :: q -> SameValue heap x v = true -> located v (lenZ p).
Proof. intros Hpq Hx. destruct Hr as [_ (_ & Hnd & _)]. unfold located. rewrite Hpq in Hnd |- *. by rewrite (find_same v x p q Hnd Hx). Qed.

(** No value with the hash is the same: no value is. *)
Lemma located_none (v : JSTaggedValue) (l1 lm l2 : list JSTaggedValue) : ok v ->
  l = l1 ++ lm ++ l2 -> Forall (fun x => H x < H v) l1 -> Forall (fun x => H v < H x) l2 -> Forall (fun x => SameValue heap x v = false) lm -> find_index (same v) l = None.
Proof.
  intros Hok Hl H1 H2 Hno. destruct Hr as [_ (_ & _ & Hoks)]. rewrite Hl in Hoks |- *. apply Forall_app in Hoks as [Ho1 [_ Ho2]%Forall_app].
  apply find_index_None, forallb_forall. intros x Hx%list_elem_of_In. apply negb_true_iff. revert x Hx. apply list.Forall_forall.
  apply Forall_app. split; [|apply Forall_app; split; [done|]].
  - apply other_hashes; [done..|]. eapply list.Forall_impl; [exact H1|simpl; lia].
  - apply other_hashes; [done..|]. eapply list.Forall_impl; [exact H2|simpl; lia].
Qed.

Lemma GetHashIndex_run (v : JSTaggedValue) : ok v -> exists r, GetHashIndex heap env v (lenZ l) s = (Ok r, s) /\ located v r.
Proof.
  intros Hok. destruct (search_hashes_run (H v)) as (r & Hsearch & l1 & lm & l2 & Hl & H1 & Hm & H2 & Hcase).
  pose proof (lenZ_nonneg l1) as Hp1. pose proof Hr as [(hj & vj & Hs & _ & Hc & Hlt) _].
  assert (lenZ l = lenZ (l1 ++ lm) + lenZ l2) as Hlen by (rewrite Hl; lenz). pose proof (lenZ_nonneg l2) as Hp2.
  pose proof (located_none v l1 lm l2 Hok Hl H1 H2) as Hnone.
  unfold GetHashIndex. mstep with Hsearch. destruct Hcase as [[-> ->]|Hri].
  { rewrite (proj2 (Z.ltb_lt _ 0)) by lia. eexists. split; [done|]. unfold located. rewrite Hnone by done. exists l1, l2. split_and!; [done|..|done]; eapply list.Forall_impl; try eassumption; simpl; lia. }
  rewrite (proj2 (Z.ltb_ge r 0)), (proj2 (Z.ltb_lt r (lenZ l))) by lia. mstep.
  destruct (set_scan_run v r l1 lm l2 hj vj Hl H1 Hm H2 Hri) as (right_ & left_ & Hright & Hleft & Hfound).
  destruct (lookup_lt_is_Some_2 l (Z.to_nat r)) as [x Hx]; [unfold lenZ in *; lia|].
  assert (Arr.GetFrom (values s) r s = (Ok x, s)) as Hget by (rewrite Hs; cbn [values]; apply LightWeightMap.key_at; [lia|done]).
  rewrite <- bind_assoc. mstep with Hget. mstep. destruct (SameValue heap x v) eqn:Hsame.
  { apply list_elem_of_split_length in Hx as (p & q & Hpq & Hlp). eexists. split; [done|]. replace r with (lenZ p) by (unfold lenZ in *; lia). by eapply located_found. }
  mstep. rewrite Hs in Hright, Hleft |- *. cbn [hashes values]. mstep with Hright.
  destruct right_ as [i|i]; [|mstep with Hleft; destruct left_ as [j|j]]; (eexists; split; [done|]).
  - destruct Hfound as (p & y & q & Hpq & <- & Hy). by eapply located_found.
  - destruct Hfound as (p & y & q & Hpq & <- & Hy). by eapply located_found.
  - destruct Hfound as [-> Hno]. unfold located. rewrite Hnone by done. destruct lm as [|y lm' _] using rev_ind; [rewrite app_nil_r in Hri; lia|].
    apply Forall_app in Hm as [Hm Hy]. exists (l1 ++ lm'), (y :: l2). split_and!; [by rewrite Hl, <- !app_assoc|apply Forall_app; split| |lenz].
    + eapply list.Forall_impl; [exact H1|simpl; lia].
    + eapply list.Forall_impl; [exact Hm|simpl; lia].
    + apply Forall_cons_1 in Hy as [Hy _]. constructor; [lia|]. eapply list.Forall_impl; [exact H2|simpl; lia].
Qed.

Lemma set_Has_run (v : JSTaggedValue) : ok v -> Has heap env v s = (Ok (existsb (same v) l), s).
Proof.
  intros Hok. destruct (GetHashIndex_run v Hok) as (r & Hrun & Hloc). unfold Has. mstep with set_length_run.
  pose proof Hr as [(hj0 & vj0 & _ & _ & Hc & Hlt) _]. pose proof (lenZ_nonneg l). rewrite i32_id by lia. mstep with Hrun. mcbn. do 2 f_equal.
  rewrite existsb_find_index. unfold located in Hloc. destruct (find_index (same v) l) as [i|] eqn:E.
  - subst r. apply find_index_Some in E as (p & y & q & _ & <- & _). pose proof (lenZ_nonneg p). by rewrite (proj2 (Z.ltb_ge _ _)).
  - destruct Hloc as (l1 & l2 & _ & _ & _ & ->). pose proof (lenZ_nonneg l1). by rewrite (proj2 (Z.ltb_lt _ _)) by lia.
Qed.
End at_state.

(** ** Changing the arrays *)

Lemma counting_down_ext {S} (n : nat) (i : Z) (f g : Z -> M S unit) (a : S) :
  (forall j a, i - Z.of_nat n < j <= i -> f j a = g j a) -> for_down n i f a = for_down n i g a.
Proof.
  revert i a. induction n as [|n IH]; intros i a Hfg; [done|]. cbn [for_down]. mcbn. rewrite <- Hfg by lia. destruct (f i a) as [[[]| | |] a']; try done.
  apply IH. intros j b Hj. apply Hfg. lia.
Qed.

Lemma AdjustArray_run (pre mid junk : TaggedArray) (y : JSTaggedValue) : lenZ (pre ++ mid) < 2 ^ 31 ->
  exists z, AdjustArray (lenZ pre) (lenZ (pre ++ mid)) true (lenZ (pre ++ mid)) (pre ++ mid ++ y :: junk) = (Ok tt, pre ++ z :: mid ++ junk).
Proof.
  intros Hb. pose proof (lenZ_nonneg pre) as Hp. pose proof (lenZ_nonneg mid) as Hm. rewrite lenZ_app in *.
  destruct mid as [|x mid'] eqn:Hmid; [exists y; unfold AdjustArray; by rewrite lenZ_nil, Z.add_0_r, Z.sub_diag|]. rewrite <- Hmid in *. assert (0 < lenZ mid) as Hpos by (rewrite Hmid; lenz). clear Hmid.
  destruct (move_up_loop pre mid junk y (lenZ pre + lenZ mid) eq_refl) as [z Hz]. exists z. rewrite <- Hz. unfold AdjustArray. rewrite u32_small by lia.
  replace (Z.to_nat (lenZ pre + lenZ mid - lenZ pre)) with (length mid) by (unfold lenZ; lia). rewrite <- (Z.sub_add 1 (lenZ pre + lenZ mid)) at 2. rewrite <- shift_up_move_up.
  apply counting_down_ext. intros j a' Hj. unfold Arr.shift_up. rewrite u32_small by (unfold lenZ in *; lia). done.
Qed.

Lemma sorted_place (l1 l2 : list JSTaggedValue) (v : JSTaggedValue) :
  StronglySorted Z.le (H <$> (l1 ++ l2)) -> Forall (fun x => H x <= H v) l1 -> Forall (fun x => H v <= H x) l2 -> StronglySorted Z.le (H <$> (l1 ++ v :: l2)).
Proof.
  induction l1 as [|x l1 IH]; intros Hs H1 H2; [by constructor; [|apply Forall_fmap]|]. rewrite <- app_comm_cons, fmap_cons in *.
  apply StronglySorted_inv in Hs as [Hs Hx]. apply Forall_cons_1 in H1 as [Hk H1]. constructor; [by apply IH|]. rewrite Forall_fmap in Hx |- *.
  apply Forall_app in Hx as [Hx1 Hx2]. apply Forall_app. split; [done|]. by constructor.
Qed.

Lemma sorted_drop (l1 l2 : list JSTaggedValue) (v : JSTaggedValue) : StronglySorted Z.le (H <$> (l1 ++ v :: l2)) -> StronglySorted Z.le (H <$> (l1 ++ l2)).
Proof.
  induction l1 as [|x l1 IH]; intros Hs; [by apply StronglySorted_inv in Hs as [Hs _]|]. rewrite <- app_comm_cons, fmap_cons in *.
  apply StronglySorted_inv in Hs as [Hs Hx]. constructor; [by apply IH|]. rewrite Forall_fmap in Hx |- *.
  apply Forall_app in Hx as [Hx1 [_ Hx2]%Forall_cons_1]. by apply Forall_app.
Qed.

Lemma distinct_middle (l1 l2 : list JSTaggedValue) (v : JSTaggedValue) :
  NoDup (ident_of heap <$> (l1 ++ v :: l2)) <-> ident_of heap v ∉ ident_of heap <$> (l1 ++ l2) /\ NoDup (ident_of heap <$> (l1 ++ l2)).
Proof.
  rewrite <- list.NoDup_cons, <- fmap_cons. apply NoDup_Permutation_proper, fmap_Permutation. symmetry. apply Permutation_middle.
Qed.

Lemma distinct_new (v : JSTaggedValue) (l : list JSTaggedValue) : find_index (same v) l = None -> ident_of heap v ∉ ident_of heap <$> l.
Proof.
  intros Hno (x & Hx & Hin)%list_elem_of_fmap. apply find_index_None in Hno. rewrite forallb_forall in Hno. apply list_elem_of_In, Hno, negb_true_iff in Hin.
  apply not_true_iff_false in Hin. apply Hin. by apply SameValue_ident.
Qed.

(** The free places that Add makes behind a full array. *)
Definition holes (n cap : Z) : TaggedArray := if cap <=? n + 1 then replicate (Z.to_nat cap) VHole else [].

Lemma holes_length (n cap : Z) : 0 <= n < cap -> n + 1 < cap + lenZ (holes n cap) <= Z.max cap (2 * (n + 1)).
Proof. intros Hn. unfold holes. destruct (Z.leb_spec cap (n + 1)); [rewrite lenZ_replicate|rewrite lenZ_nil]; lia. Qed.

Lemma open_gap_run (hs1 hs2 hj l1 l2 vj : TaggedArray) (y y' : JSTaggedValue) (n : Z) :
  lenZ hs1 = lenZ l1 -> lenZ hs2 = lenZ l2 -> n = lenZ (l1 ++ l2) -> n < 2 ^ 30 ->
  exists z z', (if lenZ l1 <? n then
      on_hashes (AdjustArray (u32 (lenZ l1)) (u32 n) true n);; on_values (AdjustArray (u32 (lenZ l1)) (u32 n) true n)
    else mret tt) (mkSet (hs1 ++ hs2 ++ y :: hj) (l1 ++ l2 ++ y' :: vj) n) = (Ok tt, mkSet (hs1 ++ z :: hs2 ++ hj) (l1 ++ z' :: l2 ++ vj) n).
Proof.
  intros E1 E2 -> Hb. pose proof (lenZ_nonneg l1) as Hp1. pose proof (lenZ_nonneg l2) as Hp2. rewrite lenZ_app in Hb.
  destruct (Z.ltb_spec (lenZ l1) (lenZ (l1 ++ l2))) as [Hlt|Hge].
  2: { rewrite lenZ_app in Hge. exists y, y'. rewrite (lenZ_zero hs2), (lenZ_zero l2) by lia. done. }
  destruct (AdjustArray_run hs1 hs2 hj y) as [z Hz]; [lenz|]. destruct (AdjustArray_run l1 l2 vj y') as [z' Hz']; [lenz|]. exists z, z'.
  replace (lenZ (hs1 ++ hs2)) with (lenZ (l1 ++ l2)) in Hz by lenz. rewrite E1 in Hz. rewrite !u32_small by (rewrite ?lenZ_app; lia).
  mstep by (apply zoom_run; exact Hz). by apply (zoom_run values (fun a s => mkSet (hashes s) a (length_ s)) _ (mkSet _ (l1 ++ l2 ++ y' :: vj) _) _ _ Hz').
Qed.

Lemma make_room_run (hs vs : TaggedArray) (n cap : Z) : lenZ hs = cap -> lenZ vs = cap -> 0 < cap < 2 ^ 30 ->
  (if i32 cap <=? n + 1 then
     let newCapacity := u32 (Z.shiftl cap 1) in
     valueArray ← gets values;
     hashArray ← Factory.CopyArray hs cap newCapacity VHole;
     valueArray ← Factory.CopyArray valueArray cap newCapacity VHole;
     SetHashes hashArray;;
     SetValues valueArray
   else mret tt) (mkSet hs vs n) = (Ok tt, mkSet (hs ++ holes n cap) (vs ++ holes n cap) n).
Proof.
  intros E1 E2 Hc. rewrite i32_id by lia. unfold holes. destruct (cap <=? n + 1); [|by rewrite !app_nil_r]. cbv zeta. mstep. cbn [values].
  rewrite Z.shiftl_mul_pow2, u32_small by lia. pose proof (CopyArray_grow hs (cap * 2 ^ 1) VHole (mkSet hs vs n)) as C1. pose proof (CopyArray_grow vs (cap * 2 ^ 1) VHole (mkSet hs vs n)) as C2.
  rewrite E1 in C1. rewrite E2 in C2. replace (cap * 2 ^ 1 - cap) with cap in * by lia. mstep with (C1 ltac:(lia)). mstep with (C2 ltac:(lia)). done.
Qed.

Lemma Add_new_run (s : JSAPILightWeightSet) (l1 l2 : list JSTaggedValue) (cap : Z) (v : JSTaggedValue) :
  repr s (l1 ++ l2) cap -> cap < 2 ^ 30 -> ok v -> find_index (same v) (l1 ++ l2) = None -> Forall (fun x => H x <= H v) l1 -> Forall (fun x => H v <= H x) l2 ->
  GetHashIndex heap env v (lenZ (l1 ++ l2)) s = (Ok (- (lenZ l1 + 1)), s) ->
  exists s', Add heap env v s = (Ok true, s') /\ repr s' (l1 ++ v :: l2) (cap + lenZ (holes (lenZ (l1 ++ l2)) cap)).
Proof.
  intros [(hj & vj & -> & Hj & Hc & Hlt) (Hs & Hnd & Hoks)] Hb Hok Hno H1 H2 Hrun.
  pose proof (lenZ_nonneg l1) as Hp1. pose proof (lenZ_nonneg l2) as Hp2. set (n := lenZ (l1 ++ l2)) in *. assert (n = lenZ l1 + lenZ l2) as Hn by (unfold n; lenz).
  destruct vj as [|y' vj]; [rewrite lenZ_nil in Hc; lia|]. destruct hj as [|y hj]; [rewrite lenZ_nil, lenZ_cons in Hj; pose proof (lenZ_nonneg vj); lia|]. rewrite !lenZ_cons in *.
  unfold Add. mstep. cbn [length_]. rewrite i32_id by lia. mstep with Hrun. rewrite (proj2 (Z.leb_gt _ _)) by lia. unfold HASH_REBELLION. rewrite i32_lnot by lia. mstep. cbn [length_].
  destruct (open_gap_run (words l1) (words l2) hj l1 l2 vj y y' n) as (z & z' & Hgap); [by rewrite !LightWeightMap.lenZ_fmap|by rewrite !LightWeightMap.lenZ_fmap|done|lia|].
  rewrite !fmap_app, <- !app_assoc. mstep with Hgap. mstep. cbn [hashes].
  replace (lenZ (words l1 ++ z :: words l2 ++ hj)) with cap by (rewrite !lenZ_app, lenZ_cons, !lenZ_app, !LightWeightMap.lenZ_fmap; lia).
  mstep by (apply make_room_run; [rewrite !lenZ_app, lenZ_cons, !lenZ_app, !LightWeightMap.lenZ_fmap; lia|rewrite !lenZ_app, lenZ_cons, lenZ_app; lia|lia]).
  rewrite <- !app_assoc, <- !app_comm_cons, <- !app_assoc. mstep by (apply zoom_run; cbn [hashes]; apply Set_mid; by rewrite !LightWeightMap.lenZ_fmap).
  mstep by (apply zoom_run; cbn [values]; apply Set_mid; done). mstep. eexists. split; [done|]. cbn [hashes values]. rewrite u32_small by lia.
  pose proof (holes_length n cap ltac:(lia)) as Hh. split_and!.
  - exists (hj ++ holes n cap), (vj ++ holes n cap). split_and!; [|lenz|lenz|lenz]. rewrite !fmap_app, !fmap_cons, <- !app_assoc, <- !app_comm_cons. f_equal. lenz.
  - by apply sorted_place.
  - apply distinct_middle. split; [by apply distinct_new|done].
  - apply Forall_app in Hoks as [Ho1 Ho2]. apply Forall_app. by split; [|constructor].
Qed.

Lemma set_Add_run (s : JSAPILightWeightSet) (l : list JSTaggedValue) (cap : Z) (v : JSTaggedValue) :
  repr s l cap -> cap < 2 ^ 30 -> ok v ->
  match find_index (same v) l with
  | Some _ => Add heap env v s = (Ok false, s)
  | None => exists s' l1 l2 cap', l = l1 ++ l2 /\ Add heap env v s = (Ok true, s') /\ repr s' (l1 ++ v :: l2) cap' /\ cap' <= Z.max cap (2 * (lenZ l + 1))
  end.
Proof.
  intros Hr Hb Hok. destruct (GetHashIndex_run Hr Hb v Hok) as (r & Hrun & Hloc). unfold located in Hloc. pose proof Hr as [(hj0 & vj0 & _ & _ & Hc & Hlt) _]. pose proof (lenZ_nonneg l) as Hp.
  destruct (find_index (same v) l) as [i|] eqn:E.
  - subst r. apply find_index_Some in E as (p & y & q & _ & <- & _). unfold Add. mstep with (set_length_run Hr). rewrite i32_id by lia. mstep with Hrun.
    by rewrite (proj2 (Z.leb_le _ _)) by apply lenZ_nonneg.
  - destruct Hloc as (l1 & l2 & -> & H1 & H2 & ->). destruct (Add_new_run s l1 l2 cap v Hr Hb Hok E H1 H2 Hrun) as (s' & Hadd & Hr').
    exists s', l1, l2, (cap + lenZ (holes (lenZ (l1 ++ l2)) cap)). pose proof (holes_length (lenZ (l1 ++ l2)) cap ltac:(lia)). split_and!; [done..|lia].
Qed.

(** ** Removing *)

Lemma set_RemoveAt_run (s : JSAPILightWeightSet) (p q : list JSTaggedValue) (x : JSTaggedValue) (cap : Z) :
  repr s (p ++ x :: q) cap -> cap < 2 ^ 30 -> exists s', RemoveAt (lenZ p) s = (Ok true, s') /\ repr s' (p ++ q) cap.
Proof.
  intros [(hj & vj & -> & Hj & Hc & Hlt) (Hs & Hnd & Hoks)] Hb. pose proof (lenZ_nonneg p) as Hp. pose proof (lenZ_nonneg q) as Hq. rewrite lenZ_app, lenZ_cons in Hc, Hlt.
  unfold RemoveAt. mstep. cbn [length_]. replace (lenZ (p ++ x :: q)) with (lenZ p + 1 + lenZ q) by lenz. rewrite i32_id by lia. rewrite (proj2 (Z.ltb_ge _ 0)), (proj2 (Z.leb_gt _ _)) by lia. cbn [orb].
  rewrite (u32_small (lenZ p)) by lia. unfold RemoveValue. rewrite (proj2 (Z.ltb_lt _ _)) by lia.
  rewrite fmap_app, fmap_cons, fmap_app, fmap_cons, <- !app_assoc, <- !app_comm_cons.
  mstep by (apply zoom_run; cbn [hashes]; mstep; apply RemoveElementByIndex_run; rewrite ?LightWeightMap.lenZ_fmap; lia).
  mstep by (apply zoom_run; cbn [values]; mstep; apply RemoveElementByIndex_run; lia). mstep. eexists. split; [done|]. cbn [hashes values]. rewrite u32_small by lia. split_and!.
  - exists (VHole :: hj), (VHole :: vj). rewrite !lenZ_cons, lenZ_app. split_and!; [|lia..]. rewrite !fmap_app, <- !app_assoc. f_equal. lia.
  - by eapply sorted_drop.
  - by apply distinct_middle in Hnd as [_ Hnd].
  - apply Forall_app in Hoks as [Ho1 [_ Ho2]%Forall_cons_1]. by apply Forall_app.
Qed.

Lemma value_at_run (s : JSAPILightWeightSet) (l : list JSTaggedValue) (cap i : Z) (x : JSTaggedValue) : repr s l cap -> 0 <= i -> l !! Z.to_nat i = Some x -> on_values (Arr.Get i) s = (Ok x, s).
Proof.
  intros [(hj & vj & -> & _) _] Hi Hx. unfold on_values. erewrite zoom_run; [done|]. cbn [values]. unfold Arr.Get. rewrite <- (Z2Nat.id i) by done. by rewrite (read_lookup _ _ x) by (by apply lookup_app_l_Some).
Qed.

Lemma set_Remove_run (s : JSAPILightWeightSet) (l : list JSTaggedValue) (cap : Z) (v : JSTaggedValue) :
  repr s l cap -> cap < 2 ^ 30 -> ok v ->
  match find_index (same v) l with
  | None => Remove heap env v s = (Ok VUndefined, s)
  | Some i => exists s' p x q, l = p ++ x :: q /\ lenZ p = i /\ SameValue heap x v = true /\ Remove heap env v s = (Ok x, s') /\ repr s' (p ++ q) cap
  end.
Proof.
  intros Hr Hb Hok. destruct (GetHashIndex_run Hr Hb v Hok) as (r & Hrun & Hloc). unfold located in Hloc. pose proof Hr as [(hj0 & vj0 & _ & _ & Hc & Hlt) _]. pose proof (lenZ_nonneg l) as Hp.
  unfold Remove. mstep with (set_length_run Hr). rewrite i32_id by lia. mstep with Hrun. destruct (find_index (same v) l) as [i|] eqn:E.
  - subst r. apply find_index_Some in E as (p & y & q & -> & <- & Hy & _). pose proof (lenZ_nonneg p). destruct (set_RemoveAt_run s p q y cap Hr Hb) as (s' & Hrem & Hr').
    exists s', p, y, q. rewrite (proj2 (Z.ltb_ge _ _)) by lia. split_and!; [done..| |done].
    mstep by (apply (value_at_run s _ cap _ y Hr); [done|]; unfold lenZ; rewrite Nat2Z.id; by apply list_lookup_middle). by mstep with Hrem.
  - destruct Hloc as (l1 & l2 & _ & _ & _ & ->). pose proof (lenZ_nonneg l1). by rewrite (proj2 (Z.ltb_lt _ _)) by lia.
Qed.

Lemma set_new_run {S} (st : S) : exists s, LightWeightSetConstructor st = (Ok s, st) /\ repr s [] 8.
Proof.
  eexists. split; [reflexivity|]. split; [|split_and!; constructor]. exists (replicate 8 VHole), (replicate 8 VHole). split_and!; reflexivity.
Qed.

Lemma set_Clear_run (s : JSAPILightWeightSet) (l : list JSTaggedValue) (cap : Z) : repr s l cap -> exists s', Clear s = (Ok tt, s') /\ repr s' [] cap.
Proof.
  intros [(hj & vj & -> & Hj & Hc & Hlt) _]. pose proof (lenZ_nonneg l) as Hp. unfold Clear. mstep. cbn [length_]. unfold for_range. rewrite Z.sub_0_r.
  assert (forall m n i (hs1 hs vs1 vs : TaggedArray), lenZ hs1 = i -> lenZ vs1 = i -> (n <= length hs)%nat -> (n <= length vs)%nat ->
    for_up n i (fun index => on_hashes (Arr.Set_ index VHole);; on_values (Arr.Set_ index VHole)) (mkSet (hs1 ++ hs) (vs1 ++ vs) m)
    = (Ok tt, mkSet (hs1 ++ replicate n VHole ++ drop n hs) (vs1 ++ replicate n VHole ++ drop n vs) m)) as Hfill.
  { clear. intros m n. induction n as [|n IH]; intros i hs1 hs vs1 vs E1 E2 L1 L2; [done|]. destruct hs as [|h hs]; [simpl in L1; lia|]. destruct vs as [|w vs]; [simpl in L2; lia|]. simpl in L1, L2.
    erewrite for_up_cons by (mstep by (apply zoom_run; cbn [hashes]; by apply Set_mid); apply zoom_run; cbn [values]; by apply Set_mid).
    specialize (IH (i + 1) (hs1 ++ [VHole]) hs (vs1 ++ [VHole]) vs). rewrite <- !app_assoc in IH. cbn [hashes values length_ app] in *. rewrite IH by (try lia; lenz). done. }
  mstep by (apply (Hfill _ _ 0 []  _ []); [done|done|..]; unfold lenZ; rewrite length_app, ?length_fmap; lia). eexists. split; [reflexivity|]. cbn [hashes values app].
  split; [|split_and!; constructor]. eexists _, _. split_and!; [reflexivity|..]; unfold lenZ in *; rewrite ?length_app, ?length_replicate, ?length_drop, ?length_app, ?length_fmap; simpl; lia.
Qed.

(** ** The values as a finite map

    From the classes of SameValue to the value that was added first. *)
Definition to_map (l : list JSTaggedValue) : gmap ident JSTaggedValue := list_to_map ((fun x => (ident_of heap x, x)) <$> l).

Lemma to_map_idents (l : list JSTaggedValue) : ((fun x => (ident_of heap x, x)) <$> l).*1 = ident_of heap <$> l.
Proof. by rewrite <- list_fmap_compose. Qed.

Lemma to_map_place (l1 l2 : list JSTaggedValue) (v : JSTaggedValue) : NoDup (ident_of heap <$> (l1 ++ v :: l2)) -> to_map (l1 ++ v :: l2) = <[ident_of heap v := v]> (to_map (l1 ++ l2)).
Proof.
  intros Hnd. unfold to_map. rewrite <- to_map_idents in Hnd. rewrite (list_to_map_proper _ ((fun x => (ident_of heap x, x)) <$> (v :: l1 ++ l2))); [done|done|].
  apply fmap_Permutation. by rewrite Permutation_middle.
Qed.

Lemma to_map_lookup (l : list JSTaggedValue) (v : JSTaggedValue) : to_map l !! ident_of heap v = find_index (same v) l ≫= fun i => l !! Z.to_nat i.
Proof.
  induction l as [|x l IH]; [done|]. change (to_map (x :: l)) with (<[ident_of heap x := x]> (to_map l)). cbn [find_index]. destruct (SameValue heap x v) eqn:E.
  - apply SameValue_ident in E; [|done]. rewrite E. by rewrite lookup_insert_eq.
  - rewrite lookup_insert_ne, IH; [|intros Hid; apply SameValue_ident in Hid; [congruence|done]]. destruct (find_index (same v) l) as [i|] eqn:F; [|done]. simpl.
    apply find_index_Some in F as (p & y & q & _ & <- & _). pose proof (lenZ_nonneg p). replace (Z.to_nat (Z.succ (lenZ p))) with (Datatypes.S (Z.to_nat (lenZ p))) by lia. done.
Qed.

Lemma to_map_absent (l : list JSTaggedValue) (v : JSTaggedValue) : find_index (same v) l = None -> to_map l !! ident_of heap v = None.
Proof. intros E. by rewrite to_map_lookup, E. Qed.

Lemma to_map_present (p q : list JSTaggedValue) (x v : JSTaggedValue) : find_index (same v) (p ++ x :: q) = Some (lenZ p) -> to_map (p ++ x :: q) !! ident_of heap v = Some x.
Proof. intros E. rewrite to_map_lookup, E. simpl. unfold lenZ. rewrite Nat2Z.id. by apply list_lookup_middle. Qed.

Lemma to_map_count (l : list JSTaggedValue) : NoDup (ident_of heap <$> l) -> Z.of_nat (size (to_map l)) = lenZ l.
Proof. intros Hnd. unfold to_map. rewrite map_size_list_to_map by (by rewrite to_map_idents). by rewrite length_fmap. Qed.

(** ** Sequences of operations *)

Inductive op : Type :=
| OpAdd (value : JSTaggedValue)
| OpHas (value : JSTaggedValue)
| OpRemove (value : JSTaggedValue)
| OpSize
| OpIsEmpty
| OpClear.

Inductive answer : Type :=
| AUnit
| AValue (v : JSTaggedValue)
| ABool (b : bool)
| ANum (z : Z).

Definition exec (o : op) : M JSAPILightWeightSet answer :=
  match o with
  | OpAdd value => b ← Add heap env value; mret (ABool b)
  | OpHas value => b ← Has heap env value; mret (ABool b)
  | OpRemove value => v ← Remove heap env value; mret (AValue v)
  | OpSize => n ← GetSize; mret (ANum n)
  | OpIsEmpty => b ← IsEmpty; mret (ABool b)
  | OpClear => Clear;; mret AUnit
  end.

Definition spec (o : op) (m : gmap ident JSTaggedValue) : outcome answer * gmap ident JSTaggedValue :=
  match o with
  | OpAdd v => match m !! ident_of heap v with Some _ => (Ok (ABool false), m) | None => (Ok (ABool true), <[ident_of heap v := v]> m) end
  | OpHas v => (Ok (ABool (bool_decide (is_Some (m !! ident_of heap v)))), m)
  | OpRemove v => (Ok (AValue (default VUndefined (m !! ident_of heap v))), delete (ident_of heap v) m)
  | OpSize => (Ok (ANum (Z.of_nat (size m))), m)
  | OpIsEmpty => (Ok (ABool (bool_decide (m = ∅))), m)
  | OpClear => (Ok AUnit, ∅)
  end.

Definition op_ok (o : op) : Prop := match o with OpAdd v | OpHas v | OpRemove v => ok v | _ => True end.

(** After [k] operations. *)
Definition within (k : Z) (s : JSAPILightWeightSet) (m : gmap ident JSTaggedValue) : Prop :=
  exists l cap, repr s l cap /\ m = to_map l /\ lenZ l <= k /\ cap <= 8 + 2 * k.

Lemma set_exec_spec (o : op) (k : Z) (s : JSAPILightWeightSet) (m : gmap ident JSTaggedValue) :
  within k s m -> op_ok o -> 0 <= k < 2 ^ 28 -> exists s', exec o s = ((spec o m).1, s') /\ within (k + 1) s' (spec o m).2.
Proof.
  intros (l & cap & Hr & -> & Hk & Hcap) Ho Hb. assert (cap < 2 ^ 30) as Hcb by lia. pose proof Hr as [_ (_ & Hnd & _)].
  assert (within (k + 1) s (to_map l)) as Hsame by (exists l, cap; split_and!; [done|done|lia|lia]). destruct o as [v|v|v| | |]; cbn [exec spec op_ok] in *.
  - pose proof (set_Add_run s l cap v Hr Hcb Ho) as Hadd. pose proof (to_map_lookup l v) as Hm. destruct (find_index (same v) l) as [i|] eqn:E.
    + pose proof E as (p & y & q & -> & <- & _)%find_index_Some. rewrite (to_map_present p q y v E). exists s. mstep with Hadd. split; [done|exact Hsame].
    + destruct Hadd as (s' & l1 & l2 & cap' & -> & Hadd & Hr' & Hc'). rewrite Hm. exists s'. mstep with Hadd. split; [done|]. exists (l1 ++ v :: l2), cap'.
      split_and!; [done| |lenz|lia]. symmetry. apply to_map_place. by destruct Hr' as [_ (_ & Hnd' & _)].
  - exists s. mstep with (set_Has_run Hr Hcb v Ho). split; [|done]. mcbn. rewrite existsb_find_index. do 3 f_equal. destruct (find_index (same v) l) as [i|] eqn:E; [|by rewrite (to_map_absent l v E)].
    pose proof E as (p & y & q & -> & <- & _)%find_index_Some. by rewrite (to_map_present p q y v E).
  - pose proof (set_Remove_run s l cap v Hr Hcb Ho) as Hrem. destruct (find_index (same v) l) as [i|] eqn:E.
    + destruct Hrem as (s' & p & x & q & -> & <- & Hx & Hrem & Hr'). exists s'. mstep with Hrem. rewrite (to_map_present p q x v E). split; [done|]. exists (p ++ q), cap.
      split_and!; [done| |rewrite lenZ_app, lenZ_cons in Hk; lenz|lia]. rewrite (to_map_place p q x Hnd). apply SameValue_ident in Hx; [|done]. rewrite <- Hx. cbn [snd].
      apply delete_insert_id, not_elem_of_list_to_map. rewrite to_map_idents. by apply distinct_middle in Hnd as [Hnd _].
    + exists s. mstep with Hrem. rewrite (to_map_absent l v E), delete_id by (by apply to_map_absent). done.
  - exists s. unfold GetSize. mstep with (set_length_run Hr). rewrite to_map_count by done. done.
  - exists s. split; [|done]. unfold IsEmpty. rewrite <- bind_assoc. mstep with (set_length_run Hr). mcbn. do 3 f_equal.
    destruct l as [|x l']; [by rewrite bool_decide_eq_true_2|]. rewrite bool_decide_eq_false_2; [apply Z.eqb_neq; lenz|]. apply insert_non_empty.
  - destruct (set_Clear_run s l cap Hr) as (s' & Hrun & Hr'). exists s'. mstep with Hrun. split; [done|]. exists [], cap. split_and!; [done|done|rewrite lenZ_nil; lia|lia].
Qed.

(** C16: A new LightWeightSet and any sequence of up to 2^28 additions,
    membership tests, removals, size queries and clears answers as the same
    operations on a finite map do that keeps the first value added of each class
    of SameValue, if the values are of a class [ok] on which the hash respects
    SameValue ([op_ok]).  The hash of the code respects it on the values that
    are not BigInts, give each number one representation and have one NaN
    pattern ([set_Hash_KeyHash]); equal BigInts are hashed by address
    (lightweightset_BigInts_by_address). *)
Theorem lightweightset_refines_map {S} (st : S) (os : list op) : Forall op_ok os -> lenZ os <= 2 ^ 28 ->
  exists s, LightWeightSetConstructor st = (Ok s, st) /\ (run_ops exec os s).1 = (run_ops spec os ∅).1.
Proof.
  intros Hok Hb. destruct (set_new_run st) as (s & Hnew & Hr). exists s. split; [done|].
  apply (run_ops_refines exec spec within op_ok (2 ^ 28)) with 0; [| |done|lia|lia].
  - intros o k s' t Hw Ho Hk. by apply set_exec_spec.
  - exists [], 8. by split_and!.
Qed.

(** ** Positions *)

Lemma set_at_run (s : JSAPILightWeightSet) (l : list JSTaggedValue) (cap i : Z) : repr s l cap -> cap < 2 ^ 30 ->
  GetValueAt i s = (Ok (if i <? 0 then VUndefined else default VUndefined (l !! Z.to_nat i)), s).
Proof.
  intros Hr Hb. unfold GetValueAt. mstep with (set_length_run Hr). pose proof Hr as [(hj0 & vj0 & _ & _ & Hc & Hlt) _]. pose proof (lenZ_nonneg l). rewrite i32_id by lia.
  destruct (Z.ltb_spec i 0) as [Hneg|Hi]; [done|]. cbn [orb]. destruct (Z.leb_spec (lenZ l) i) as [Hge|Hl].
  - rewrite lookup_ge_None_2; [done|]. unfold lenZ in *. lia.
  - destruct (lookup_lt_is_Some_2 l (Z.to_nat i)) as [x Hx]; [unfold lenZ in *; lia|]. rewrite Hx. by apply (value_at_run s l cap).
Qed.

(** What the operations on positions do: the values stand in the order of their
    hashes; getValueAt reads one and is undefined out of range, getIndexOf finds
    one (a negative number when it is not there), hasHash tells whether a hash
    occurs, and removeAt takes one out. *)
Theorem lightweightset_positions (s : JSAPILightWeightSet) (l : list JSTaggedValue) (cap : Z) : repr s l cap -> cap < 2 ^ 30 ->
  StronglySorted Z.le (H <$> l) /\
  (forall i, GetValueAt i s = (Ok (if i <? 0 then VUndefined else default VUndefined (l !! Z.to_nat i)), s)) /\
  (forall v, ok v -> exists r, GetIndexOf heap env v s = (Ok r, s) /\ match find_index (same v) l with Some i => r = i | None => r < 0 end) /\
  (forall h, 0 <= h < 2 ^ 32 -> HasHash (TaggedTree.of_uint32 h) s = (Ok (bool_decide (h ∈ H <$> l)), s)) /\
  (forall i, i < 0 \/ lenZ l <= i -> RemoveAt i s = (Ok false, s)) /\
  (forall p x q, l = p ++ x :: q -> exists s', RemoveAt (lenZ p) s = (Ok true, s') /\ repr s' (p ++ q) cap).
Proof.
  intros Hr Hb. pose proof Hr as [(hj0 & vj0 & _ & _ & Hc & Hlt) (Hs & _)]. pose proof (lenZ_nonneg l) as Hp. split_and!; [done|..].
  - intros i. by apply (set_at_run s l cap).
  - intros v Hok. destruct (GetHashIndex_run Hr Hb v Hok) as (r & Hrun & Hloc). exists r. unfold GetIndexOf. mstep with (set_length_run Hr). rewrite i32_id by lia. split; [done|].
    unfold located in Hloc. destruct (find_index (same v) l); [done|]. destruct Hloc as (l1 & ? & _ & _ & _ & ->). pose proof (lenZ_nonneg l1). lia.
  - intros h Hh. destruct (search_hashes_run Hr Hb h) as (r & Hrun & l1 & lm & l2 & -> & H1 & Hm & H2 & Hcase). unfold HasHash. mstep with (set_length_run Hr). mstep with (GetUint32_run h s Hh).
    rewrite i32_id by lia. mstep with Hrun. mcbn. do 2 f_equal. pose proof (lenZ_nonneg l1). symmetry. destruct Hcase as [[-> ->]|Hri].
    + rewrite (proj2 (Z.ltb_lt _ _)) by lia. apply bool_decide_eq_false_2. intros (x & -> & [Hx|[[]%elem_of_nil|Hx]%elem_of_app]%elem_of_app)%list_elem_of_fmap.
      * rewrite list.Forall_forall in H1. specialize (H1 x Hx). cbv beta in H1. lia.
      * rewrite list.Forall_forall in H2. specialize (H2 x Hx). cbv beta in H2. lia.
    + rewrite (proj2 (Z.ltb_ge _ _)) by lia. apply bool_decide_eq_true_2. destruct lm as [|x lm]; [rewrite app_nil_r in Hri; lia|]. apply Forall_cons_1 in Hm as [<- _].
      apply list_elem_of_fmap. exists x. split; [done|]. apply elem_of_app. right. apply elem_of_cons. by left.
  - intros i Hi. unfold RemoveAt. mstep with (set_length_run Hr). rewrite i32_id by lia. destruct (Z.ltb_spec i 0); [done|]. by rewrite (proj2 (Z.leb_le _ _)) by lia.
  - intros p y q ->. by apply (set_RemoveAt_run s p q y cap).
Qed.

(** Iterating yields the values, or pairs of a value with itself. *)
Theorem lightweightset_iterator_yields_values (s : JSAPILightWeightSet) (l : list JSTaggedValue) (cap : Z) (kind : IterationKind) : repr s l cap -> cap < 2 ^ 30 ->
  drain (Next kind) (Datatypes.S (length l)) NewJSAPILightWeightSetIterator s = (Ok ((fun x => match kind with VALUE => [x] | KEY_AND_VALUE => [x; x] end) <$> l), s).
Proof.
  intros Hr Hb. pose proof Hr as [(hj0 & vj0 & _ & _ & Hc & Hlt) _]. set (f := fun x => _). replace (length l) with (length (f <$> l)) by (by rewrite length_fmap).
  apply index_next_drain; [by rewrite (set_length_run Hr), LightWeightMap.lenZ_fmap|rewrite LightWeightMap.lenZ_fmap; lia|].
  intros j y (x & -> & Hj)%list_lookup_fmap_Some. unfold iter_at, Get. by mstep by (apply (value_at_run s l cap); [done|lia|by rewrite Nat2Z.id]).
Qed.

(** ** hasAll

    One list is a part of another in order: what looking for each element behind
    the last one found decides. *)
Lemma greedy_sublist (x : Z) (xs ys : list Z) :
  sublist (x :: xs) ys <-> match find_index (Z.eqb x) ys with Some j => sublist xs (drop (Z.to_nat (j + 1)) ys) | None => False end.
Proof.
  induction ys as [|y ys IH]; [split; [intros Hs; inversion Hs|done]|]. cbn [find_index]. destruct (Z.eqb_spec x y) as [<-|Hne].
  - change (Z.to_nat (0 + 1)) with 1%nat. cbn [drop]. split; [|by constructor]. intros Hs. inversion Hs; subst; [done|]. transitivity (x :: xs); [by constructor|done].
  - transitivity (sublist (x :: xs) ys); [split; [intros Hs; by inversion Hs; subst|by constructor]|]. rewrite IH. destruct (find_index (Z.eqb x) ys) as [j|] eqn:E; [|done].
    apply find_index_Some in E as (p & z & q & _ & <- & _). pose proof (lenZ_nonneg p). cbn [fmap option_fmap option_map]. by replace (Z.to_nat (Z.succ (lenZ p) + 1)) with (Datatypes.S (Z.to_nat (lenZ p + 1))) by lia.
Qed.

Lemma hash_read {S} (p r : list JSTaggedValue) (hj : TaggedArray) (x : JSTaggedValue) (st : S) : Arr.GetFrom (words (p ++ x :: r) ++ hj) (lenZ p) st = (Ok (TaggedTree.of_uint32 (H x)), st).
Proof. apply (hash_at H (p ++ x :: r) hj); [apply lenZ_nonneg|]. unfold lenZ. rewrite Nat2Z.id. by apply list_lookup_middle. Qed.

Lemma hasall_round_run (h : Z) (r p : list JSTaggedValue) (hj : TaggedArray) (s : JSAPILightWeightSet) :
  hasall_round (words (p ++ r) ++ hj) (lenZ (p ++ r)) h (lenZ p) s = (Ok ((fun j => lenZ p + j + 1) <$> find_index (Z.eqb h) (H <$> r)), s).
Proof.
  unfold hasall_round. replace (Z.to_nat (lenZ (p ++ r) - lenZ p)) with (length r) by (rewrite lenZ_app; unfold lenZ; lia).
  revert p. induction r as [|x r IH]; intros p; [done|]. cbn [length find_up]. rewrite <- bind_assoc. mstep with (hash_read p r hj x s). rewrite <- bind_assoc. mstep with (GetUint32_run (H x) s (Hash_range heap env x)). mstep.
  rewrite fmap_cons. cbn [find_index]. destruct (h =? H x); [cbn [fmap option_fmap option_map]; mcbn; by rewrite Z.add_0_r|].
  specialize (IH (p ++ [x])). rewrite <- !app_assoc in IH. cbn [app] in IH. replace (lenZ (p ++ [x])) with (lenZ p + 1) in IH by lenz. rewrite IH. destruct (find_index (Z.eqb h) (H <$> r)); [|done]. cbn [fmap option_fmap option_map]. do 3 f_equal. lia.
Qed.

Lemma hasall_rounds_run (r' p' r p : list JSTaggedValue) (hj hj' : TaggedArray) (res : bool) (s : JSAPILightWeightSet) : exists b,
  hasall_rounds (words (p ++ r) ++ hj) (words (p' ++ r') ++ hj') (lenZ (p ++ r)) (length r') (lenZ p') (lenZ p) res s = (Ok b, s) /\
  (b = true <-> match r' with [] => res = true | _ => sublist (H <$> r') (H <$> r) end).
Proof.
  revert p' r p res. induction r' as [|x r' IH]; intros p' r p res; [by exists res|]. cbn [length hasall_rounds]. mstep with (hash_read p' r' hj' x s). mstep with (GetUint32_run (H x) s (Hash_range heap env x)).
  mstep with (hasall_round_run (H x) r p hj s). rewrite fmap_cons. pose proof (greedy_sublist (H x) (H <$> r') (H <$> r)) as G. destruct (find_index (Z.eqb (H x)) (H <$> r)) as [j|] eqn:E; cbn [fmap option_fmap option_map]; [|exists false; split; [done|]; by rewrite G].
  apply find_index_Some in E as (a & z & b & Hab & <- & _). assert (exists r1 y r2, r = r1 ++ y :: r2 /\ lenZ r1 = lenZ a) as (r1 & y & r2 & -> & Hr1).
  { apply fmap_app_inv in Hab as (r1 & r2 & -> & Hy & ->). symmetry in Hy. apply fmap_cons_inv in Hy as (y & r3 & _ & _ & ->). exists r1, y, r3. by rewrite LightWeightMap.lenZ_fmap. }
  destruct (IH (p' ++ [x]) r2 (p ++ r1 ++ [y]) true) as (b' & Hrun & Hb'). exists b'. rewrite <- !app_assoc in Hrun. cbn [app] in Hrun. rewrite !lenZ_app, !lenZ_cons, lenZ_nil in Hrun.
  rewrite <- Hr1, !lenZ_app, !lenZ_cons. replace (lenZ p + lenZ r1 + 1) with (lenZ p + (lenZ r1 + (0 + 1))) by lia. split; [exact Hrun|]. rewrite Hb', G, <- Hr1.
  replace (drop (Z.to_nat (lenZ r1 + 1)) (H <$> (r1 ++ y :: r2))) with (H <$> r2); [destruct r'; [split; [intros _; apply sublist_nil_l|done]|done]|].
  rewrite fmap_app, fmap_cons, drop_app_ge by (rewrite length_fmap; unfold lenZ; lia). rewrite length_fmap. replace (Z.to_nat (lenZ r1 + 1) - length r1)%nat with 1%nat by (unfold lenZ; lia). done.
Qed.

(** hasAll compares hashes: it is true when those of the other set are a part of
    this set's, in order, and the other set is not empty. *)
Theorem lightweightset_HasAll_hashes (s s' : JSAPILightWeightSet) (l l' : list JSTaggedValue) (cap cap' : Z) : repr s l cap -> repr s' l' cap' ->
  exists b, HasAll s' s = (Ok b, s) /\ (b = true <-> l' <> [] /\ sublist (H <$> l') (H <$> l)).
Proof.
  intros [(hj & vj & -> & _) _] [(hj' & vj' & -> & _) _]. unfold HasAll. mstep. mstep. cbn [length_ hashes]. destruct (Z.ltb_spec (lenZ l) (lenZ l')) as [Hlt|Hge].
  - exists false. split; [done|]. split; [done|]. intros [_ Hsub%sublist_length]. rewrite !length_fmap in Hsub. unfold lenZ in Hlt. lia.
  - replace (Z.to_nat (lenZ l')) with (length l') by (unfold lenZ; lia). destruct (hasall_rounds_run l' [] l [] hj hj' false (mkSet (words l ++ hj) (l ++ vj) (lenZ l))) as (b & Hrun & Hb).
    exists b. split; [exact Hrun|]. rewrite Hb. destruct l' as [|x l']; [split; [done|by intros []]|]. split; [done|by intros []].
Qed.

(** ** equal *)

(** equal compares the values of the set with the hashes of the other one: a set
    whose first value is no number is not equal to any set, not even to itself. *)
Theorem lightweightset_Equal_not_reflexive (s s' : JSAPILightWeightSet) (l l' : list JSTaggedValue) (x : JSTaggedValue) (cap cap' : Z) :
  repr s (x :: l) cap -> repr s' l' cap' -> IsNumber x = false -> Equal heap (ASet s') s = (Ok false, s).
Proof.
  intros [(hj & vj & -> & _) _] [(hj' & vj' & -> & _) _] Hx. unfold Equal. mstep. mstep. mstep. cbn [hashes values length_]. rewrite (proj2 (Z.eqb_neq (lenZ (x :: l)) 0)) by lenz. rewrite orb_false_r.
  destruct (lenZ l' =? 0) eqn:E0; [done|]. destruct (lenZ l' =? lenZ (x :: l)) eqn:E; [|done]. cbn [negb].
  destruct l' as [|y l']; [done|]. replace (Z.to_nat (lenZ (x :: l))) with (Datatypes.S (length l)) by (rewrite lenZ_cons; unfold lenZ; lia). cbn [equal_rounds].
  mstep by reflexivity. assert (equal_values heap x (TaggedTree.of_uint32 (H y)) false = false) as Hev.
  { unfold equal_values. rewrite Hx. cbn [andb]. unfold TaggedTree.of_uint32. destruct (i32 (H y) <? 0); cbn [get_string]; by destruct (get_string heap x). }
  mstep by reflexivity. by rewrite Hev.
Qed.

(** The rounds of equal on the pairs of a value and a hash. *)
Fixpoint equal_walk (ps : list (JSTaggedValue * JSTaggedValue)) (res : bool) : bool :=
  match ps with
  | [] => res
  | (x, y) :: ps => let res := equal_values heap x y res in if res then equal_walk ps res else res
  end.

Lemma equal_rounds_run (r r' p p' vj hj' : TaggedArray) (res : bool) (s : JSAPILightWeightSet) : lenZ p = lenZ p' -> length r = length r' ->
  equal_rounds heap (p ++ r ++ vj) (p' ++ r' ++ hj') (length r) (lenZ p) res s = (Ok (equal_walk (zip r r') res), s).
Proof.
  revert r' p p' res. induction r as [|x r IH]; intros r' p p' res Hp Hl; destruct r' as [|y r']; try done. cbn [length equal_rounds zip_with equal_walk].
  mstep by (apply GetFrom_mid; done). mstep by (apply GetFrom_mid; done). destruct (equal_values heap x y res) eqn:E; [|done]. cbn [negb].
  specialize (IH r' (p ++ [x]) (p' ++ [y]) true ltac:(lenz) ltac:(by injection Hl)). rewrite <- !app_assoc in IH. cbn [app] in IH. replace (lenZ (p ++ [x])) with (lenZ p + 1) in IH by lenz. exact IH.
Qed.

Lemma equal_walk_ints (q q' : list Z) (res : bool) : length q = length q' ->
  equal_walk (zip (VInt <$> q) (VInt <$> q')) res = match q with [] => res | _ => bool_decide (q = q') end.
Proof.
  revert q' res. induction q as [|z q IH]; intros q' res Hl; destruct q' as [|z' q']; try done. rewrite !fmap_cons. cbn [zip_with equal_walk].
  assert (equal_values heap (VInt z) (VInt z') res = (z =? z')) as ->.
  { unfold equal_values. apply eq_true_iff_eq. change (IsNumber (VInt z) && IsNumber (VInt z')) with true. cbn [get_string]. rewrite SameValueNumberic_spec. cbn [ExtractNumber]. rewrite Z.eqb_eq.
    split; [apply LightWeightMap.double_of_int_inj|by intros ->]. }
  destruct (Z.eqb_spec z z') as [<-|Hne]; [|symmetry; apply bool_decide_eq_false_2; congruence]. rewrite IH by (by injection Hl).
  destruct q as [|w q]; [destruct q'; [by rewrite bool_decide_eq_true_2|done]|]. apply bool_decide_ext. split; congruence.
Qed.

Lemma int_words (zs : list Z) : Forall (fun z => 0 <= z < 2 ^ 31) zs -> words (VInt <$> zs) = VInt <$> zs.
Proof.
  intros Hz. induction Hz as [|z zs Hz _ IH]; [done|]. rewrite !fmap_cons, IH. f_equal. cbn. rewrite u32_small by lia. unfold TaggedTree.of_uint32. rewrite i32_id by lia. by rewrite (proj2 (Z.ltb_ge z 0)) by lia.
Qed.

(** Of sets of ints that are not negative, which are their own hashes, equal is
    equality, except that empty sets are not equal. *)
Theorem lightweightset_Equal_ints (s s' : JSAPILightWeightSet) (zs zs' : list Z) (cap cap' : Z) :
  repr s (VInt <$> zs) cap -> repr s' (VInt <$> zs') cap' -> Forall (fun z => 0 <= z < 2 ^ 31) zs' -> Equal heap (ASet s') s = (Ok (bool_decide (zs = zs' /\ zs <> [])), s).
Proof.
  intros [(hj & vj & -> & _) _] [(hj' & vj' & -> & _) _] Hz'. unfold Equal. mstep. mstep. mstep. cbn [hashes values length_]. rewrite !LightWeightMap.lenZ_fmap, (int_words zs' Hz').
  destruct (Z.eqb_spec (lenZ zs') 0) as [E0|E0]; cbn [orb]; [rewrite (lenZ_zero zs') by lia; by rewrite bool_decide_eq_false_2 by naive_solver|].
  destruct (Z.eqb_spec (lenZ zs) 0) as [E1|E1]; cbn [orb]; [rewrite (lenZ_zero zs) by lia; by rewrite bool_decide_eq_false_2 by naive_solver|].
  destruct (Z.eqb_spec (lenZ zs') (lenZ zs)) as [E|E]; cbn [negb]; [|rewrite bool_decide_eq_false_2; [done|intros [-> _]; done]].
  replace (Z.to_nat (lenZ zs)) with (length (VInt <$> zs)) by (rewrite length_fmap; unfold lenZ; lia).
  assert (length (VInt <$> zs) = length (VInt <$> zs')) as El by (rewrite !length_fmap; unfold lenZ in E; lia).
  etransitivity; [exact (equal_rounds_run (VInt <$> zs) (VInt <$> zs') [] [] vj hj' false _ eq_refl El)|].
  rewrite equal_walk_ints by (unfold lenZ in E; lia). do 2 f_equal. destruct zs as [|z zs]; [done|]. apply bool_decide_ext. naive_solver.
Qed.

(** ** addAll and the capacity *)

Lemma add_values_run (src : JSAPILightWeightSet) (cap' : Z) (r p : list JSTaggedValue) (s : JSAPILightWeightSet) (l : list JSTaggedValue) (cap bound : Z) (ch : bool) :
  repr src (p ++ r) cap' -> cap' < 2 ^ 30 -> repr s l cap -> cap <= 2 * bound -> lenZ l + lenZ r < bound -> bound < 2 ^ 29 ->
  exists s2 l2 cap2, add_values heap env src (length r) (lenZ p) ch s = (Ok (ch || (lenZ l <? lenZ l2)), s2) /\ repr s2 l2 cap2 /\ cap2 <= 2 * bound /\ lenZ l <= lenZ l2 /\ to_map l2 = to_map l ∪ to_map r.
Proof.
  revert p s l cap ch. induction r as [|x r IH]; intros p s l cap ch Hsrc Hb' Hr Hcap Hbound Hb.
  { exists s, l, cap. cbn [length add_values]. rewrite Z.ltb_irrefl, orb_false_r. split_and!; [done|done|lia|lia|]. unfold to_map. simpl. by rewrite map_union_empty. }
  pose proof Hsrc as [(hj0 & vj0 & _ & _ & Hc & Hlt) (_ & _ & Hoks)]. pose proof (lenZ_nonneg p) as Hp. pose proof (lenZ_nonneg r) as Hpr. rewrite lenZ_app, lenZ_cons in Hlt. rewrite lenZ_cons in Hbound.
  assert (ok x) as Hok by (by apply Forall_app in Hoks as [_ [Hx _]%Forall_cons_1]). cbn [length add_values]. rewrite i32_id by lia.
  mstep by (rewrite (set_at_run src (p ++ x :: r) cap' (lenZ p) Hsrc Hb'); reflexivity). rewrite (proj2 (Z.ltb_ge _ 0)) by lia. replace (Z.to_nat (lenZ p)) with (length p) by (unfold lenZ; lia). rewrite list_lookup_middle by done. cbn [default].
  assert (repr src ((p ++ [x]) ++ r) cap') as Hsrc' by (by rewrite <- app_assoc). replace (lenZ p + 1) with (lenZ (p ++ [x])) by lenz. change (to_map (x :: r)) with (<[ident_of heap x := x]> (to_map r)).
  pose proof (set_Add_run s l cap x Hr ltac:(lia) Hok) as Hadd. destruct (find_index (same x) l) as [i|] eqn:E.
  - mstep with Hadd. rewrite orb_false_r. destruct (IH (p ++ [x]) s l cap ch Hsrc' Hb' Hr Hcap ltac:(lia) Hb) as (s2 & l2 & cap2 & Hrun & Hr2 & Hc2 & Hl2 & Hm). exists s2, l2, cap2. split_and!; [done..|].
    rewrite Hm. apply map_eq. intros k. destruct (decide (k = ident_of heap x)) as [->|Hne]; [|by rewrite !lookup_union, lookup_insert_ne].
    pose proof E as (a & y & b & -> & <- & _)%find_index_Some. erewrite !lookup_union_Some_l by (by apply to_map_present). done.
  - destruct Hadd as (s' & l1 & l2 & cap1 & -> & Hadd & Hr' & Hc1). mstep with Hadd. rewrite orb_true_r. assert (lenZ (l1 ++ x :: l2) = lenZ (l1 ++ l2) + 1) as Hlen by lenz.
    destruct (IH (p ++ [x]) s' (l1 ++ x :: l2) cap1 true Hsrc' Hb' Hr' ltac:(lia) ltac:(lia) Hb) as (s2 & l3 & cap2 & Hrun & Hr2 & Hc2 & Hl2 & Hm). exists s2, l3, cap2. rewrite (proj2 (Z.ltb_lt _ _)), orb_true_r by lia.
    split_and!; [done|done|done|lia|]. rewrite Hm, to_map_place by (by destruct Hr' as [_ (_ & Hnd & _)]). rewrite <- insert_union_l. apply insert_union_r. by apply to_map_absent.
Qed.

(** addAll with room enough adds the values of the other set that this one does
    not have, and tells whether there are any. *)
Theorem lightweightset_AddAll_unites (s s' : JSAPILightWeightSet) (l l' : list JSTaggedValue) (cap cap' : Z) :
  repr s l cap -> repr s' l' cap' -> cap < 2 ^ 29 -> cap' < 2 ^ 30 -> lenZ l + lenZ l' < cap ->
  exists s2 l2 cap2, AddAll heap env s' s = (Ok (lenZ l <? lenZ l2), s2) /\ repr s2 l2 cap2 /\ to_map l2 = to_map l ∪ to_map l'.
Proof.
  intros Hr Hr' Hb Hb' Hroom. pose proof (lenZ_nonneg l) as Hp. pose proof (lenZ_nonneg l') as Hp'. assert (length_ s' = lenZ l') as Hl' by (by destruct Hr' as [(? & ? & -> & _) _]).
  assert (lenZ (values s) = cap) as Hv by (destruct Hr as [(? & ? & -> & _ & Hc & _) _]; cbn [values]; rewrite lenZ_app; lia).
  unfold AddAll. rewrite Hl'. unfold GetSize. mstep with (set_length_run Hr). rewrite u32_small by lia.
  mstep by (unfold EnsureCapacity; mstep; rewrite Hv, (proj2 (Z.ltb_lt _ _) Hroom); reflexivity). replace (Z.to_nat (lenZ l')) with (length l') by (unfold lenZ; lia).
  destruct (add_values_run s' cap' l' [] s l cap cap false Hr' Hb' Hr ltac:(lia) Hroom Hb) as (s2 & l2 & cap2 & Hrun & Hr2 & _ & _ & Hm). by exists s2, l2, cap2.
Qed.

(** ** forEach *)

Section visits.
Context {E : Type} (f : JSTaggedValue -> E -> E).

(** A callback that leaves the set alone. *)
Definition visit (v : JSTaggedValue) : M (JSAPILightWeightSet * E) JSTaggedValue := fun '(s, e) => (Ok VUndefined, (s, f v e)).

Lemma foreach_step_run (s : JSAPILightWeightSet) (cap : Z) (r p : list JSTaggedValue) (x : JSTaggedValue) (e : E) : repr s (p ++ x :: r) cap -> cap < 2 ^ 30 ->
  foreach_step visit (lenZ p, lenZ (p ++ x :: r)) (s, e) = (Ok (inl (lenZ (p ++ [x]), lenZ (p ++ x :: r))), (s, f x e)).
Proof.
  intros Hr Hb. pose proof Hr as [(hj0 & vj0 & _ & _ & Hc & Hlt) _]. pose proof (lenZ_nonneg p) as Hp. pose proof (lenZ_nonneg r) as Hpr. pose proof Hlt as Hlt'. rewrite lenZ_app, lenZ_cons in Hlt'.
  unfold foreach_step. rewrite (proj2 (Z.ltb_lt (lenZ p) _)) by lenz. rewrite i32_id by lia.
  mstep by (apply zoom_run; cbn [fst]; rewrite (set_at_run s (p ++ x :: r) cap (lenZ p) Hr Hb), (proj2 (Z.ltb_ge _ 0)) by lia; replace (Z.to_nat (lenZ p)) with (length p) by (unfold lenZ; lia); rewrite list_lookup_middle by done; reflexivity).
  mstep. mstep by (apply zoom_run; apply (set_length_run Hr)). rewrite Z.eqb_refl. cbn [negb snd fst default]. rewrite u32_small by lia. mcbn. do 4 f_equal. lenz.
Qed.

Lemma foreach_run (s : JSAPILightWeightSet) (cap : Z) (r p : list JSTaggedValue) (fuel : nat) (e : E) : repr s (p ++ r) cap -> cap < 2 ^ 30 -> (length r < fuel)%nat ->
  while_fuel fuel (foreach_step visit) (lenZ p, lenZ (p ++ r)) (s, e) = (Ok tt, (s, fold_left (fun e v => f v e) r e)).
Proof.
  intros Hr Hb. revert fuel p e Hr. induction r as [|x r IH]; intros fuel p e Hr Hf; (destruct fuel as [|fuel]; [simpl in Hf; lia|]); cbn [while_fuel].
  - rewrite app_nil_r. mstep by (unfold foreach_step; rewrite Z.ltb_irrefl; reflexivity). done.
  - mstep with (foreach_step_run s cap r p x e Hr Hb). replace (p ++ x :: r) with ((p ++ [x]) ++ r) in * by (by rewrite <- app_assoc). apply IH; [done|simpl in Hf; lia].
Qed.

(** forEach calls the callback with every value in the order of the set. *)
Theorem lightweightset_ForEach_visits (s : JSAPILightWeightSet) (l : list JSTaggedValue) (cap : Z) (fuel : nat) (e : E) : repr s l cap -> cap < 2 ^ 30 -> (length l < fuel)%nat ->
  ForEach visit fuel (s, e) = (Ok VUndefined, (s, fold_left (fun e v => f v e) l e)).
Proof.
  intros Hr Hb Hf. unfold ForEach. mstep by (apply zoom_run; apply (set_length_run Hr)). cbn [snd]. by mstep with (foreach_run s cap l [] fuel e Hr Hb Hf).
Qed.
End visits.
End set.

(** ** Changing the capacity *)

Lemma doubling_run {S} (fuel : nat) (minimum cap : Z) (st : S) : 0 < cap -> minimum < 2 ^ 31 -> minimum < cap * 2 ^ Z.of_nat fuel ->
  exists c, while_fuel (Datatypes.S fuel) (double_step minimum) cap st = (Ok c, st) /\ minimum < c /\ c <= Z.max cap (2 * minimum) /\ cap <= c.
Proof.
  revert cap. induction fuel as [|fuel IH]; intros cap Hc Hm Hf.
  { exists cap. cbn [while_fuel]. mstep by (unfold double_step; rewrite (proj2 (Z.leb_gt _ _)) by lia; reflexivity). split_and!; [done|lia..]. }
  cbn [while_fuel]. destruct (Z.leb_spec cap minimum) as [Hle|Hgt].
  - mstep by (unfold double_step; rewrite (proj2 (Z.leb_le _ _) Hle), Z.shiftl_mul_pow2, u32_small by lia; reflexivity). destruct (IH (cap * 2 ^ 1) ltac:(lia) Hm) as (c & Hrun & Hc1 & Hc2 & Hc3).
    { rewrite Nat2Z.inj_succ, Z.pow_succ_r in Hf by lia. lia. }
    exists c. split; [exact Hrun|]. lia.
  - exists cap. mstep by (unfold double_step; rewrite (proj2 (Z.leb_gt _ _) Hgt); reflexivity). split_and!; [done|lia..].
Qed.

(** EnsureCapacity ends for every minimum below 2^31, and where it enlarges the
    set it also exchanges its two arrays: the values become the hashes. *)
Theorem lightweightset_EnsureCapacity_exchanges (hs vs : TaggedArray) (n cap minimum : Z) : lenZ hs = cap -> lenZ vs = cap -> 0 < cap -> minimum < 2 ^ 31 ->
  exists c, minimum < c /\ cap <= c /\
    EnsureCapacity minimum (mkSet hs vs n) = (Ok tt, if minimum <? cap then mkSet hs vs n
      else mkSet (vs ++ replicate (Z.to_nat (c - cap)) VHole) (hs ++ replicate (Z.to_nat (c - cap)) VHole) n).
Proof.
  intros Hh Hv Hc Hm. assert (cap * 2 ^ Z.of_nat 32 > minimum) as Hf by lia. destruct (doubling_run 32 minimum cap (mkSet hs vs n) Hc Hm ltac:(lia)) as (c & Hrun & H1 & _ & H2).
  exists c. split_and!; [done|done|]. unfold EnsureCapacity. mstep. cbn [values]. rewrite Hv. destruct (Z.ltb_spec minimum cap) as [Hlt|Hge]; [done|]. mstep with Hrun. unfold SizeCopy. mstep. mstep. cbn [hashes values].
  pose proof (CopyArray_grow hs c VHole (mkSet hs vs n)) as C1. pose proof (CopyArray_grow vs c VHole (mkSet hs vs n)) as C2. rewrite Hh in C1. rewrite Hv in C2.
  mstep with (C1 ltac:(lia)). mstep with (C2 ltac:(lia)). done.
Qed.

(** IncreaseCapacityTo enlarges the array of hashes only. *)
Theorem lightweightset_IncreaseCapacityTo_spec (hs vs : TaggedArray) (n cap minCapacity : Z) : lenZ hs = cap -> lenZ vs = cap -> cap < 2 ^ 31 -> minCapacity < 2 ^ 31 ->
  IncreaseCapacityTo minCapacity (mkSet hs vs n) = if minCapacity <=? cap then (Throw RANGE_ERROR, mkSet hs vs n) else (Ok tt, mkSet (hs ++ replicate (Z.to_nat (minCapacity - cap)) VHole) vs n).
Proof.
  intros Hh Hv Hc Hm. pose proof (lenZ_nonneg hs). unfold IncreaseCapacityTo. mstep. cbn [values]. rewrite Hv, i32_id by lia. destruct (Z.leb_spec minCapacity cap) as [Hle|Hgt]; [by rewrite orb_true_r|].
  rewrite (proj2 (Z.leb_gt minCapacity 0)) by lia. cbn [orb]. mstep. cbn [hashes]. rewrite u32_small by lia. pose proof (NewAndCopyTaggedArray_run [] hs [] minCapacity cap 0 (mkSet hs vs n) eq_refl Hh ltac:(lia)) as Hrun.
  rewrite app_nil_r in Hrun. by mstep with Hrun.
Qed.

(** ** The hash of the code *)

(** The hashes of a set are those of a map as unsigned numbers, except for
    BigInts. *)
Definition set_key (heap : Heap) (nan_bits : Z) (v : JSTaggedValue) : Prop :=
  LightWeightMap.canonical_key nan_bits v /\ get_bigint heap v = None.

Lemma unsigned_hash (h : Z) : u32 (i32 h) = u32 h.
Proof. unfold u32, i32. zlia. Qed.

Lemma Hash_unsigned (heap : Heap) (env : LightWeightMap.HashEnv) (v : JSTaggedValue) : get_bigint heap v = None -> Hash heap env v = u32 (LightWeightMap.Hash heap env v).
Proof.
  intros Hv. unfold Hash, LightWeightMap.Hash. destruct v as [z|b| | | | | |a]; rewrite ?unsigned_hash; try done.
  - destruct (double_eqb _ _); [done|]. by rewrite unsigned_hash.
  - cbn in Hv. destruct (LightWeightMap.symbol_hash env a); [by rewrite unsigned_hash|]. destruct (heap a); [by rewrite unsigned_hash|done|]. destruct (LightWeightMap.identity_hash env a); by rewrite unsigned_hash.
Qed.

#[export] Instance set_Hash_KeyHash (heap : Heap) (env : LightWeightMap.HashEnv) (nan_bits : Z) (Henv : LightWeightMap.env_ok heap env) : LightWeightMap.KeyHash heap (Hash heap env) (set_key heap nan_bits).
Proof.
  intros x y [Hx Bx] [Hy By] Heq. rewrite !Hash_unsigned by done. by rewrite (LightWeightMap.Hash_KeyHash heap env nan_bits Henv x y Hx Hy Heq).
Qed.

(** ** Samples *)

Notation sample_heap := TaggedValue.sample_heap.
Notation sample_env := LightWeightMap.sample_env.
Notation sample_ok := (set_key TaggedValue.sample_heap 0x7FF8000000000000).

#[local] Instance sample_set_KeyHash : LightWeightMap.KeyHash sample_heap (Hash sample_heap sample_env) sample_ok.
Proof. exact (set_Hash_KeyHash _ _ _ LightWeightMap.sample_env_ok). Qed.

Definition new_set : JSAPILightWeightSet := mkSet (replicate 8 VHole) (replicate 8 VHole) 0.
Definition add_list (vs : list JSTaggedValue) (s : JSAPILightWeightSet) : JSAPILightWeightSet := fold_left (fun s v => (Add sample_heap sample_env v s).2) vs s.

(** The string "ab" and the int 3105 have one hash; -1 is hashed as 2^32 - 1. *)
Definition sample_set : JSAPILightWeightSet := add_list [VInt 3105; VInt (-1); VObject 16; VInt 3] new_set.
Definition sample_values : list JSTaggedValue := [VInt 3; VObject 16; VInt 3105; VInt (-1)].

Lemma sample_set_repr : repr sample_heap sample_env sample_ok sample_set sample_values 8.
Proof.
  split; [exists (replicate 4 VHole), (replicate 4 VHole); vm_compute; repeat split|].
  split; [vm_compute; repeat constructor; discriminate|]. split; [apply (bool_decide_unpack _); vm_compute; exact I|]. repeat constructor; vm_compute; discriminate.
Qed.

Definition int_set (zs : list Z) : JSAPILightWeightSet := add_list (VInt <$> zs) new_set.

Lemma int_set_repr : repr sample_heap sample_env sample_ok (int_set [7; 5; 6]) (VInt <$> [5; 6; 7]) 8.
Proof.
  split; [exists (replicate 5 VHole), (replicate 5 VHole); vm_compute; repeat split|].
  split; [vm_compute; repeat constructor; discriminate|]. split; [apply (bool_decide_unpack _); vm_compute; exact I|]. repeat constructor; vm_compute; discriminate.
Qed.

Lemma lightweightset_refines_map_witness :
  (run_ops (exec sample_heap sample_env)
     [OpAdd (VInt 3105); OpAdd (VObject 16); OpAdd (VObject 8); OpHas (VObject 8); OpRemove (VObject 8); OpSize; OpClear; OpIsEmpty] new_set).1
  = [Ok (ABool true); Ok (ABool true); Ok (ABool false); Ok (ABool true); Ok (AValue (VObject 16)); Ok (ANum 1); Ok AUnit; Ok (ABool true)].
Proof.
  destruct (lightweightset_refines_map sample_heap sample_env sample_ok sample_heap_wf tt
     [OpAdd (VInt 3105); OpAdd (VObject 16); OpAdd (VObject 8); OpHas (VObject 8); OpRemove (VObject 8); OpSize; OpClear; OpIsEmpty]) as (s & Hnew & Hrun).
  - repeat constructor; vm_compute; discriminate.
  - vm_compute. discriminate.
  - vm_compute in Hnew. injection Hnew as Hs. change new_set with (mkSet (replicate 8 VHole) (replicate 8 VHole) 0). cbn [replicate]. rewrite Hs, Hrun. vm_compute. reflexivity.
Defined.

Lemma lightweightset_positions_witness : GetValueAt 1 sample_set = (Ok (VObject 16), sample_set) /\ HasHash (TaggedTree.of_uint32 4294967295) sample_set = (Ok true, sample_set).
Proof.
  destruct (lightweightset_positions sample_heap sample_env sample_ok sample_heap_wf sample_set sample_values 8 sample_set_repr eq_refl) as (_ & Hat & _ & Hhash & _).
  split; [exact (Hat 1)|]. rewrite Hhash by (split; [discriminate|reflexivity]). f_equal.
Defined.

Lemma lightweightset_iterator_yields_values_witness :
  drain (Next KEY_AND_VALUE) 5 NewJSAPILightWeightSetIterator sample_set = (Ok [[VInt 3; VInt 3]; [VObject 16; VObject 16]; [VInt 3105; VInt 3105]; [VInt (-1); VInt (-1)]], sample_set).
Proof. exact (lightweightset_iterator_yields_values sample_heap sample_env sample_ok sample_set sample_values 8 KEY_AND_VALUE sample_set_repr eq_refl). Defined.

Lemma lightweightset_HasAll_hashes_witness : exists b, HasAll sample_set sample_set = (Ok b, sample_set) /\ b = true.
Proof.
  destruct (lightweightset_HasAll_hashes sample_heap sample_env sample_ok sample_set sample_set sample_values sample_values 8 8 sample_set_repr sample_set_repr) as (b & Hrun & Hb).
  exists b. split; [exact Hrun|]. apply Hb. split; [discriminate|reflexivity].
Defined.

Definition null_set : JSAPILightWeightSet := add_list [VNull] new_set.

Lemma null_set_repr : repr sample_heap sample_env sample_ok null_set [VNull] 8.
Proof.
  split; [exists (replicate 7 VHole), (replicate 7 VHole); vm_compute; repeat split|].
  split; [vm_compute; repeat constructor|]. split; [apply (bool_decide_unpack _); vm_compute; exact I|]. repeat constructor.
Qed.

Lemma lightweightset_Equal_not_reflexive_witness : Equal sample_heap (ASet null_set) null_set = (Ok false, null_set).
Proof. exact (lightweightset_Equal_not_reflexive sample_heap sample_env sample_ok null_set null_set [] [VNull] VNull 8 8 null_set_repr null_set_repr eq_refl). Defined.

Lemma lightweightset_Equal_ints_witness : Equal sample_heap (ASet (int_set [7; 5; 6])) (int_set [7; 5; 6]) = (Ok true, int_set [7; 5; 6]).
Proof.
  refine (lightweightset_Equal_ints sample_heap sample_env sample_ok _ _ [5; 6; 7] [5; 6; 7] 8 8 int_set_repr int_set_repr _).
  repeat constructor; discriminate.
Defined.

Lemma lightweightset_AddAll_unites_witness : exists s2 l2 cap2, AddAll sample_heap sample_env (int_set [7; 5; 6]) sample_set = (Ok (lenZ sample_values <? lenZ l2), s2) /\
  repr sample_heap sample_env sample_ok s2 l2 cap2 /\ to_map sample_heap l2 = to_map sample_heap sample_values ∪ to_map sample_heap (VInt <$> [5; 6; 7]).
Proof. apply (lightweightset_AddAll_unites sample_heap sample_env sample_ok sample_heap_wf sample_set _ _ _ 8 8 sample_set_repr int_set_repr); vm_compute; reflexivity. Defined.

Lemma lightweightset_ForEach_visits_witness : ForEach (visit (fun v e => v :: e)) 5 (sample_set, []) = (Ok VUndefined, (sample_set, rev sample_values)).
Proof. refine (lightweightset_ForEach_visits sample_heap sample_env sample_ok _ sample_set sample_values 8 5 [] sample_set_repr eq_refl _). vm_compute. repeat constructor. Defined.

Lemma lightweightset_EnsureCapacity_exchanges_witness : exists c, 8 < c /\ 8 <= c /\
  EnsureCapacity 8 sample_set = (Ok tt, mkSet (values sample_set ++ replicate (Z.to_nat (c - 8)) VHole) (hashes sample_set ++ replicate (Z.to_nat (c - 8)) VHole) 4).
Proof. exact (lightweightset_EnsureCapacity_exchanges (hashes sample_set) (values sample_set) 4 8 8 eq_refl eq_refl eq_refl eq_refl). Defined.

Lemma lightweightset_IncreaseCapacityTo_spec_witness : IncreaseCapacityTo 20 sample_set = (Ok tt, mkSet (hashes sample_set ++ replicate 12 VHole) (values sample_set) 4).
Proof. exact (lightweightset_IncreaseCapacityTo_spec (hashes sample_set) (values sample_set) 4 8 20 eq_refl eq_refl eq_refl eq_refl). Defined.

(** ** What goes wrong *)

(** addAll of a set of ints to a set with a string, where eight values do not
    fit: after the exchange of the arrays the string is read as a hash. *)
Theorem lightweightset_AddAll_faults : (AddAll sample_heap sample_env (int_set [1; 2; 3; 4; 5; 6; 7]) (add_list [VObject 16] new_set)).1 = Fault.
Proof. vm_compute. reflexivity. Qed.

(** After increaseCapacityTo(20) there is still room for eight values only: the
    ninth is written behind the array of values. *)
Theorem lightweightset_IncreaseCapacityTo_overflows :
  (Add sample_heap sample_env (VInt 8) (add_list (VInt <$> [0; 1; 2; 3; 4; 5; 6; 7]) (IncreaseCapacityTo 20 new_set).2)).1 = Fault.
Proof. vm_compute. reflexivity. Qed.

(** A BigInt is hashed by its address: a set with a BigInt does not have another
    BigInt of the same value, unless the addresses happen to have one hash. *)
Theorem lightweightset_BigInts_by_address (heap : Heap) (env : LightWeightMap.HashEnv) (sign : bool) (digits : list Z) (a b : Z) :
  heap_wf heap -> heap a = HBigInt sign digits -> heap b = HBigInt sign digits -> Hash heap env (VObject a) <> Hash heap env (VObject b) ->
  let s := (Add heap env (VObject a) new_set).2 in
  SameValue heap (VObject a) (VObject b) = true /\ Has heap env (VObject a) s = (Ok true, s) /\ Has heap env (VObject b) s = (Ok false, s).
Proof.
  intros Hwf Ha Hb Hne s. assert (LightWeightMap.KeyHash heap (Hash heap env) (eq (VObject a))) as HK by (intros x y <- <- _; done).
  assert (repr heap env (eq (VObject a)) new_set [] 8) as Hr0 by (split; [exists (replicate 8 VHole), (replicate 8 VHole); split_and!; reflexivity|split_and!; constructor]).
  destruct (set_Add_run heap env (eq (VObject a)) Hwf new_set [] 8 (VObject a) Hr0 eq_refl eq_refl) as (s1 & l1 & l2 & cap & Hl & Hadd & Hr & Hc). symmetry in Hl. apply app_eq_nil in Hl as [-> ->]. cbn [app] in Hr.
  assert (cap < 2 ^ 30) as Hb2 by (change (lenZ []) with 0 in Hc; lia). unfold s. rewrite Hadd. cbn [snd]. split_and!.
  - apply SameValue_ident; [done|]. cbn. by rewrite Ha, Hb.
  - rewrite (set_Has_run heap env _ Hwf Hr Hb2 (VObject a) eq_refl). cbn [existsb]. do 2 f_equal. rewrite orb_false_r. by apply SameValue_ident.
  - destruct (search_hashes_run heap env _ Hr Hb2 (Hash heap env (VObject b))) as (r & Hrun & m1 & m & m2 & Hm & _ & Hmid & _ & [[_ ->]|Hin]).
    + unfold Has, GetHashIndex. mstep with (set_length_run heap env _ Hr). change (i32 (lenZ [VObject a])) with (lenZ [VObject a]). rewrite <- bind_assoc. mstep with Hrun. pose proof (lenZ_nonneg m1). rewrite (proj2 (Z.ltb_lt _ 0)) by lia. mstep. by rewrite (proj2 (Z.ltb_lt _ 0)) by lia.
    + exfalso. rewrite lenZ_app in Hin. destruct m as [|x m]; [rewrite lenZ_nil in Hin; lia|]. apply Forall_cons_1 in Hmid as [Hx _]. assert (x ∈ [VObject a]) as ->%list_elem_of_singleton by (rewrite Hm; set_solver). done.
Qed.

(** The sample heap with a second BigInt 1. *)
Definition two_bigints : Heap := fun a => if a =? 48 then HBigInt false [1] else sample_heap a.

Lemma lightweightset_BigInts_by_address_witness : (Has two_bigints sample_env (VObject 48) (Add two_bigints sample_env (VObject 24) new_set).2).1 = Ok false.
Proof.
  refine (f_equal fst (proj2 (proj2 (lightweightset_BigInts_by_address two_bigints sample_env false [1] 24 48 _ eq_refl eq_refl _)))).
  - intros a b u. unfold two_bigints. destruct (a =? 48), (b =? 48); try discriminate. apply sample_heap_wf.
  - vm_compute. discriminate.
Defined.
End LightWeightSet.
